(* ===== verification/_CoqProject ===== *)
-Q . S2P
Prelude.v
Json.v
Tasks.v
TaskLedger.v
TaskLedgerIds.v
TaskLedgerGate.v
TaskLedgerInv.v
TaskLedgerProps.v
TaskLedgerReducer.v
TaskLedgerStall.v
LedgerAuthority.v
ShellCommand.v
Permission.v
PermissionEngine.v
BlueprintGraph.v
Blueprint.v
BlueprintSpec.v
BlueprintProps.v
SchedulerLoop.v
SchedulerEngine.v
SchedulerProps.v
Templates.v
TextLines.v
LineDiff.v
LineDiffSpec.v
ApplyPatch.v
ApplyPatchSpec.v
ApplyPatchProps.v
StateMonad.v
FileSystem.v
FilePaths.v
FilePathsSpec.v
FileTools.v
FileToolsProps.v
FileToolsRuns.v
EditReplacers.v
EditReplacersProps.v
EditTool.v
SandboxPolicy.v
SandboxLaunch.v
SandboxBackends.v
SandboxProps.v
SandboxRunProps.v
SandboxBackendProps.v
Submission.v
SubmissionProps.v
SubmissionRoutes.v
ConfigSchema.v
ConfigMerge.v
ConfigSettings.v
ConfigFiles.v
ConfigLoader.v
ConfigLoaderProps.v
ConfigReferences.v
ConfigPlugins.v
ConfigStore.v
ConfigStoreProps.v
SessionTypes.v
RuntimeControl.v
RuntimeTopology.v
RuntimeQuestions.v
RuntimeControlProps.v
RuntimeState.v
RuntimeTelemetry.v
RuntimeTelemetryProps.v
Sessions.v
SessionManager.v
SessionRevert.v
SessionTodo.v
SessionProps.v
SessionManagerProps.v
SessionRevertProps.v
SessionTodoProps.v
ProviderStream.v
JsonText.v
ProviderStreamProps.v
ToolCallProps.v
Guards.v
Codec.v
Compaction.v
