(* ===== verification/Prelude.v ===== *)
(** * AgenDao core: a verification development

    AgenDao is a coding agent written in Rust: a server keeps sessions, runs
    a language model over a set of tools for each, asks the user before a
    tool acts, and schedules several agents as a graph.  This development
    models the parts of it that decide: the ledger of what a session has
    established, the rules that allow a tool to act, the scheduler that runs
    agents, the tools that change files, the stream a model answers with, the history of a
    session and the messages it queues, and the configuration all of them read.  Definitions
    keep the names of the Rust functions; a comment in front of each names the function, and
    the paths below are under [src/crates/].

    ** The parts, and the files that model them

    _The session task ledger_ ([agendao-types/src/task_ledger.rs], [repair.rs]).
    - [TaskLedger]: the types of the ledger ([SessionTaskLedger] and its
      parts), every operation of [apply_op], [apply_batch], [start_goal],
      [validate_completion] and [validate_snapshot].
    - [TaskLedgerIds]: the ids [check-01], [open-01] ...; [TaskLedgerGate]:
      the completion gate; [TaskLedgerInv]: the invariant of a ledger and
      its preservation; [TaskLedgerProps]: the properties.
    - [TaskLedgerReducer] ([agendao-server/src/session_runtime/task_ledger_reducer.rs]):
      facts of a turn to operations, and the delivery gate.
    - [TaskLedgerStall] ([session_runtime/task_ledger_stall.rs]): the window
      of frames, stall evidence, the control that replans or blocks.
    - [LedgerAuthority] ([session_runtime/task_ledger.rs], [steering.rs] and
      the continuation part of [routes/session/prompt.rs]): the critical
      sections of the sessions lock as atomic steps, the server functions as
      sequences of them, their interleavings; around them the tasks that write a whole
      session back from a copy, create one or delete one ([server_step]).
    A commit goes from a fact ([TaskLedgerReducer.reduce]) or a model action
    through [LedgerAuthority] to [TaskLedger.apply_batch].

    _Permissions_ ([agendao-permission/src/], [agendao-tool/src/bash.rs]).
    - [ShellCommand]: words, segments and arity prefixes of shell commands,
      the scope key a command is approved under.
    - [Permission]: wildcard matching, rule lists, the built-in rulesets.
    - [PermissionEngine]: pending requests, grants per turn and per session.

    _The scheduler_ ([agendao-orchestrator/src/]).
    - [BlueprintGraph]: searches over a graph of nodes; [Blueprint]: the types of a blueprint,
      its catalog, its policy, and the validator [validate]; [BlueprintSpec]:
      what a valid blueprint is, as a proposition; [BlueprintProps].
    - [SchedulerLoop] ([agent_loop/]): the loop of one agent and its budget;
      [SchedulerEngine] ([engine.rs]): execution of a validated graph;
      [SchedulerProps].
    - [Templates] ([templates.rs]): the five templates that build blueprints.

    _File tools_ ([agendao-tool/src/], [agendao-tool-core/src/], [agendao-sandbox/src/path.rs]).
    - [TextLines]: [str::lines] and the text functions the tools use.
    - [LineDiff], [LineDiffSpec]: the diff generator; [ApplyPatch],
      [ApplyPatchSpec], [ApplyPatchProps]: the patch parsers and the
      application of hunks.
    - [StateMonad]: a state and error monad with its triples; [FileSystem]: a
      tree of directories, files and symbolic links.
    - [FilePaths], [FilePathsSpec]: containment, create targets, the
      authority that classifies a path as inside or outside of the workspace.
    - [FileTools], [FileToolsProps], [FileToolsRuns]: the write tool and the
      execution of a patch, in a world where anything else may happen
      between two steps, that is at every await: also between the last look at a path and the
      call that writes or removes it, and between the two calls of a move.
    - [EditReplacers], [EditReplacersProps]: the strategies of the edit tool that find
      the text to replace, with their edit distance in binary64, and the replacement; [EditTool]:
      the tool ([edit/]).

    _Submissions_ ([agendao-server-core/src/submission_authority.rs], [agendao-types/src/submission.rs]).
    - [Submission]: the queue of messages a user sends while a session runs, with its
      versions, request ids and dispositions, and every operation of the authority;
      [SubmissionProps]: its invariant, its refinement and its properties;
      [SubmissionRoutes]: the handlers of [routes/session/steering.rs] that call it.

    _Sessions_ ([agendao-session/src/], [agendao-types/src/]).
    - [SessionTypes]: the types of a session, of its messages and of their parts; [SessionEnv],
      the clock, the identifiers and the hash a session is given, and [Fresh], the monad that
      draws identifiers from it; [Sessions] ([session.rs], [message.rs]): the methods of a
      session, its forks and their metadata, and the text that is shown.
    - [SessionManager] ([session.rs]): the sessions by identifier, every operation with the
      events it publishes, the queue of the last events and the hooks that hear them.
    - [SessionRevert] ([revert.rs], [snapshot.rs]): points to go back to; the repository
      the snapshots live in is the parameter [SnapshotEnv].
    - [SessionTodo] ([todo.rs], [status.rs] and the todo queries of [agendao-storage]): the
      todo list of a session as rows of a table whose queries may fail, and run statuses.
    - [SessionProps], [SessionManagerProps], [SessionRevertProps], [SessionTodoProps].
    The manager of [SessionManager] runs the methods of [Sessions]; [RuntimeState] and
    [RuntimeTelemetry] keep the usage of a session as [SessionTypes] declares it.

    _The stream of a model_ ([agendao-provider/src/stream.rs], [agendao-orchestrator/src/agent_loop/provider.rs]).
    - [ProviderStream]: server-sent events out of bytes, the events of two vendors, the
      assembly of tool calls out of fragments, and [collect_stream], which makes the turn the
      loop of [SchedulerLoop] goes on with; adapters are machines that are asked for the next
      item, as the source unfolds them.
    - [JsonText]: the grammar of JSON, and where an object ends; [ProviderStreamProps]: decoding;
      [ToolCallProps]: tool calls and turns.

    _Smaller guards_.
    - [Guards]: what is kept of the output of a child ([agendao-tool-core/src/bounded_output.rs]), and when
      calls of a plugin are held off ([agendao-plugin/src/circuit_breaker.rs]).
    - [Codec] ([agendao-core/src/codec.rs]): the frames of messages to and from child processes.
    - [Compaction] ([agendao-session/src/compaction.rs]): when a history is too long, which results of
      tools are pruned, and the prompt of a summary.

    _Configuration_ ([agendao-config/src/]).
    - [ConfigSchema] ([schema/]): the types of a configuration and [merge_json_value],
      [DeepMerge] and [Config_merge]; [ConfigMerge]: the laws of merging, as type classes with
      an instance per type; [ConfigSettings]: the places where layers overwrite each other, the places
      with rules of their own, and what layers do to both.
    - [ConfigFiles] ([loader/discovery.rs], [file_ops.rs], [schema/plugin.rs]): paths as the loader
      builds them, the files of a project, plugin specifications.
    - [ConfigLoader] ([loader/]): references to files and variables, parsing, Markdown agents
      and commands, the layers of [load_all], isolated workspaces; [ConfigLoaderProps],
      [ConfigReferences], [ConfigPlugins]: their properties.
    - [ConfigStore] ([store.rs]): the shared configuration, patches and updates, the steps of a patch
      (snapshot, read of the file, write, commit) one by one;
      [ConfigStoreProps]: what a patch does alone and among others.

    _Runtime control_ ([agendao-server-core/src/], [agendao-server/src/session_runtime/]).
    - [Json]: JSON values; [Tasks]: asynchronous functions as sequences of critical
      sections, pools of them that interleave, and a logic with ghost tokens for such pools.
    - [RuntimeControl] ([runtime_control.rs]): the registry of executions, every method
      a task; [RuntimeTopology]: the forest of a session's executions; [RuntimeQuestions]: the
      invariant of the registry under any interleaving, the life of a question;
      [RuntimeControlProps]: run statuses, finished runs.
    - [RuntimeState] ([runtime_state.rs]): what clients are shown of a session;
      [RuntimeTelemetry] ([telemetry.rs], [recheck_loop.rs]): the authority over registry, shown
      state and events; [RuntimeTelemetryProps].

    _The sandbox_ ([agendao-sandbox/src/], [agendao-server/src/sandbox_authority.rs]).
    - [SandboxPolicy]: layers of policy, the profile they leave, the child's
      environment, the immutable plan.
    - [SandboxLaunch]: selection of a backend, the launcher, the life cycle of
      a running child and its driver, integrations, the server's authority.
    - [SandboxBackends]: the argument list of bwrap, the system call filter,
      the Seatbelt profile.
    - [SandboxProps], [SandboxRunProps], [SandboxBackendProps]: their
      properties.

    ** What the theorems show

    - Ledger: every reachable ledger satisfies the invariant (ids unique and
      sequential, sizes bounded, a completed ledger covers its criteria);
      checkpoints are only added, questions close only with evidence,
      a batch is a compare-and-swap that commits whole or not at all, and a
      refused completion names the first criterion that is not covered.
      The reducer never covers a criterion by itself and asks a question
      once.  Whatever the server's tasks do, the event log is the order of commits, and what is stored
      is that chain unless a stale copy was written back over it; what the stall control decides
      reaches the ledger unless the run was cancelled; each server
      function refines its atomic steps, a cancelled action writes nothing.
      A stalled run replans a bounded number of times, then blocks.
    - Permissions: matching is glob matching, the last matching rule decides,
      grants come only from answers and last as long as the answer says, and no longer.
    - Scheduler: the validator decides the specification; searches are
      exact; a run of a validated blueprint ends, finalizes once, commits
      only a successful result and stays inside its policy and budget; a
      template validates exactly when its parameters are acceptable.
    - File tools: a generated diff describes exactly the change; a rendered patch
      reads back; hunks replace the blocks they name; a tool changes only the paths a user
      agreed to, each looked at right before the call that changes it (what a link put there in
      between makes of it is the other program's doing), whatever happens meanwhile; in a quiet world a write or an edit leaves
      exactly the text asked for; an edit changes one place, close to the text it was given.
    - Submissions: a mutation of the queue is one atomic step that answers as the
      specification says, a repeated mutation changes the queue once and answers the same (a repeated
      submission is queued again).
    - Sessions: a fork takes over the part of the history that was chosen, in order and under
      new identifiers, and no usage with it; the queue of events is the end of the history of
      all events, in order; going back to a point keeps what came before it; the lines a diff
      counts are those it adds and removes; a todo list that was written is the one that is
      read.
    - Streams: how bytes are cut into chunks makes no difference to the values that are decoded, unless a chunk
      ends within a character; a tool call ends once, with the object its fragments make, whatever
      other calls are under way, provided there is text to make it of; to assemble a stream twice is to assemble it once; a turn has the
      text, the calls and the counts of its stream.
    - Guards: the output that is kept is a beginning of what was said, within the limit, and marked
      if something is missing; the breaker trips exactly on enough failures within a minute;
      frames read back in order and a frame that is cut off is an error; pruning drops what the
      protected amount does not cover, and once is enough.
    - Configuration: where layers overwrite each other the merged configuration has the value of the last layer
      that sets one, the other places follow their rules, layers may be merged in groups; each value comes from a source
      the loader read, managed files are merged over all others and only the environment comes after them; a loaded
      configuration is well-formed (kinds of plugins, lists without repetitions) and every load ends; a file that was updated reads
      back, the first patch isolates a workspace, and interleaved patches may lose one another, in
      memory and in the file.
    - Runtime control: a reply that is accepted is the one its asker gets, and no
      second one is accepted, whatever interleaves; the status that is set is the one that is read;
      a finished run takes its subtree with it and nothing else; a topology shows every
      execution once; what clients are shown is consistent after any updates; the
      recheck loop wakes what is due and nothing else.
    - Sandbox: a profile is the narrowest of all layers; native runs need the
      consent of every layer and contained ones never fall back to the native
      channel; one event per preparation and one [Exited] per execution;
      credentials never reach a child; the options of bwrap read in one way, in which every path is
      mounted as the plan says, metadata is read-only and the environment is cleared before it
      is set; the filter denies exactly its list.

    ** Numbers, fuel and bounds

    Counters of the source are [u32] or [u64]; they are natural numbers or [Z] with the
    wrap written out ([u32_add], [u64_add]; the release profile wraps).  Ids
    are formatted and parsed as decimal numbers of any size; [fits] and
    [max_id_count] say when that is what the code computes.  The fuel of
    [execute_graph] is the nesting depth plus one, of a graph search the number
    of keys plus one, of the walk of the diff table the sum of the lengths
    plus one, of the hunk scan the number of operations plus one; each
    comes with a theorem that it is enough; so do [glob_fuel] (the links times the depth of the tree) and
    [ancestor_fuel] (the length of the path) of the configuration's files, and the number of
    records for the subtree of a run and the depth of a topology, and the length of the buffer for the
    frames of a stream ([take_frames]) and the header lines of a message ([read_headers]).  [MAX_LINKS] (40) of
    [FileSystem.walk] is no fuel: it is the limit of the kernel, and a longer chain
    is the error [ELOOP].  The agent loop is bounded by the budget it
    reserves from.

    ** Parameters and hypotheses

    Code that is not in the repository is a parameter: regular expressions
    ([syntax_laws] states what the documented syntax matches), hashes and
    fingerprints, JSON text, UUIDs, clocks, the language model and the
    tool backends, the order in which concurrent branches finish (a
    permutation of them), the user who answers, the child process
    ([BackendChild]), the clock, the UUIDs and the order of a hash map ([RuntimeEnv]), what exists on the host ([host_has]), and the machine that
    runs a filter ([bpf_laws]), the payload hash of a submission, the
    JSON library under a stream ([StreamLibraries]; [json_laws] says that it reads RFC 8259), the
    clock, identifiers and hashes of sessions ([SessionEnv]), the repository of snapshots ([SnapshotEnv]), and the
    libraries of the loader ([Libraries]: JSONC and YAML, the derived serde decoders given the hand-written
    ones, captures of its regular expressions).  [host_ok] states
    what the loader relies on of the host, [reads_back] that a decoder reads what the
    printer wrote.  [representable] and
    [limits_u32] say that a blueprint's numbers are machine numbers,
    [fits_isize] that a line number is an [isize]; [world_ok] that callbacks
    keep the file system a tree ([fs_wf]), [quiet] that nobody else changes
    it.  Every theorem with such a hypothesis has a witness.

    ** What is not modelled, and why

    - Input and output: HTTP and WebSocket routes other than those named above, the terminal and
      web user interfaces, SQLite (but for the todo queries), process spawning, LSP and MCP clients.
    - Of sessions: building prompts and the model's part in compacting a history, the git commands under a
      snapshot (parameters of [SnapshotEnv]), the JSON text of stored rows, and interleavings of
      calls on one todo list, which the code does not lock.  Of the text that is shown
      ([sanitize_display_text]) nothing is proved.
    - Serialization (serde attributes, JSON schemas), logging, telemetry, events to
      the user interface.
    - Of the sandbox: spawning, pipes, pseudo terminals, probes of the host, and the
      Windows layers the code itself leaves disabled.
    - Of the configuration: catalogs of external tools, task categories, the Windows
      branches and plugins fetched from the network.
    - Provider adapters other than their streams (requests to vendors, the Responses interface, preflight
      limits, summaries of errors) and the prompt texts.
    - In [FileSystem]: permission bits, hard links, device errors, case
      insensitive file systems and Windows prefixes.
    - Concurrency is interleaving of critical sections ([LedgerAuthority], [Tasks]), or a
      chosen completion order ([SchedulerEngine]); memory models are not
      needed, since the code shares state only behind locks.

    ** What is left

    Parts a later extension would take up, in this order: the prompt surface cache and
    the model selector of the orchestrator, the prompts of a session, the
    catalogs of external tools of the configuration, the repositories over SQLite and the
    projections the user interfaces show. *)

From Stdlib Require Import ZArith Lia DecimalString DecimalN DecimalNat.
From stdpp Require Export base gmap list strings sorting.
From stdpp Require Import options.

(** ** Results and the [?] operator *)

(** Rust's [Result<T, E>], the error type first so that [result E] is a monad. *)
Inductive result (E A : Type) : Type :=
| Ok (a : A)
| Err (e : E).
Arguments Ok {E A} a.
Arguments Err {E A} e.

#[export] Instance result_eq_dec {E A} `{EqDecision E, EqDecision A} : EqDecision (result E A).
Proof. solve_decision. Defined.

Definition rbind {E A B} (r : result E A) (f : A → result E B) : result E B :=
  match r with Ok a => f a | Err e => Err e end.

Definition is_ok {E A} (r : result E A) : bool :=
  match r with Ok _ => true | Err _ => false end.

Definition ok_or {E A} (o : option A) (e : E) : result E A :=
  match o with Some a => Ok a | None => Err e end.

Declare Scope rust_scope.
Delimit Scope rust_scope with rust.
Open Scope rust_scope.

(** [let? x := r in k] is Rust's [let x = r?; k]; [check? b otherwise e in k]
    is [if b { return Err(e) }; k]. *)
Notation "'let?' x := r 'in' k" := (rbind r (fun x => k))
  (at level 10, x binder, r at level 100, k at level 200) : rust_scope.
Notation "'reject?' b 'with' e 'in' k" := (if (b : bool) then Err e else k)
  (at level 10, b at level 100, e at level 100, k at level 200) : rust_scope.

(** [for x in xs { step(x)?; }] over an accumulator. *)
Fixpoint fold_result {E A S} (step : S → A → result E S) (s : S) (xs : list A) : result E S :=
  match xs with
  | [] => Ok s
  | x :: xs' => let? s' := step s x in fold_result step s' xs'
  end.

(** [for x in xs { check(x)?; }] without an accumulator. *)
Fixpoint for_each {E A} (check : A → result E unit) (xs : list A) : result E unit :=
  match xs with
  | [] => Ok tt
  | x :: xs' => let? _ := check x in for_each check xs'
  end.

(** ** Machine integers

    Unsigned integers are their values in [Z]; release builds wrap (the
    workspace profile leaves overflow checks at their default). *)
Definition u64_max : Z := (2 ^ 64 - 1)%Z.
Definition u32_max : Z := (2 ^ 32 - 1)%Z.
Definition i64_max : Z := (2 ^ 63 - 1)%Z.
Definition i64_min : Z := (- 2 ^ 63)%Z.
Definition u64_add (a b : Z) : Z := ((a + b) mod 2 ^ 64)%Z.
Definition u32_add (a b : Z) : Z := ((a + b) mod 2 ^ 32)%Z.
Definition u64_saturating_add (a b : Z) : Z := Z.min u64_max (a + b)%Z.
Definition u32_saturating_add (a b : Z) : Z := Z.min u32_max (a + b)%Z.
Definition i64_saturating_add (a b : Z) : Z := Z.max i64_min (Z.min i64_max (a + b)%Z).

(** ** Strings

    A Rust [str] is the list of its UTF-8 bytes, here a [string]; lengths,
    slices, prefixes, suffixes and substring search are byte operations, as
    they are in Rust. *)
Fixpoint str_drop (n : nat) (s : string) : string :=
  match n, s with
  | O, _ => s
  | S n', String _ s' => str_drop n' s'
  | S _, EmptyString => EmptyString
  end.

Fixpoint str_take (n : nat) (s : string) : string :=
  match n, s with
  | S n', String c s' => String c (str_take n' s')
  | _, _ => EmptyString
  end.

(** [s.strip_prefix(p)] *)
Fixpoint strip_prefix (p s : string) : option string :=
  match p, s with
  | EmptyString, _ => Some s
  | String a p', String b s' => if decide (a = b) then strip_prefix p' s' else None
  | String _ _, EmptyString => None
  end.

(** [s.starts_with(p)] *)
Definition starts_with (p s : string) : bool :=
  match strip_prefix p s with Some _ => true | None => false end.

(** [s.strip_suffix(p)] *)
Definition strip_suffix (p s : string) : option string :=
  let n := String.length s - String.length p in
  if bool_decide (str_drop n s = p) then Some (str_take n s) else None.

(** [s.ends_with(p)] *)
Definition ends_with (p s : string) : bool :=
  match strip_suffix p s with Some _ => true | None => false end.

(** [s.contains(m)] *)
Fixpoint contains (m s : string) : bool :=
  starts_with m s ||
  match s with EmptyString => false | String _ s' => contains m s' end.

(** A byte of the form 10xxxxxx continues the character before it. *)
Definition is_continuation (s : string) : bool :=
  match s with
  | String c _ => let n := Ascii.N_of_ascii c in (128 <=? n)%N && (n <? 192)%N
  | EmptyString => false
  end.

(** [s.chars()], each character as the string of its UTF-8 bytes. *)
Fixpoint chars (s : string) : list string :=
  match s with
  | EmptyString => []
  | String c s' =>
      match is_continuation s', chars s' with
      | true, g :: gs => String c g :: gs
      | _, gs => String c EmptyString :: gs
      end
  end.

Definition str_of_bytes (l : list N) : string :=
  fold_right (fun b s => String (Ascii.ascii_of_N b) s) EmptyString l.

(** Unicode White_Space, the property [char::is_whitespace] tests. *)
Definition white_space : list string :=
  Eval vm_compute in
  (map str_of_bytes
    [[9]; [10]; [11]; [12]; [13]; [32]; [194; 133]; [194; 160]; [225; 154; 128];
     [226; 128; 128]; [226; 128; 129]; [226; 128; 130]; [226; 128; 131]; [226; 128; 132];
     [226; 128; 133]; [226; 128; 134]; [226; 128; 135]; [226; 128; 136]; [226; 128; 137];
     [226; 128; 138]; [226; 128; 168]; [226; 128; 169]; [226; 128; 175]; [226; 129; 159];
     [227; 128; 128]])%N.

Definition is_whitespace (c : string) : bool := bool_decide (c ∈ white_space).

Fixpoint drop_while {A} (P : A → bool) (l : list A) : list A :=
  match l with
  | [] => []
  | x :: l' => if P x then drop_while P l' else l
  end.

Definition str_concat (l : list string) : string := fold_right String.append EmptyString l.

(** [s.trim()] *)
Definition trim (s : string) : string :=
  str_concat (reverse (drop_while is_whitespace (reverse (drop_while is_whitespace (chars s))))).

(** [parts.join(sep)] *)
Fixpoint str_join (sep : string) (parts : list string) : string :=
  match parts with
  | [] => EmptyString
  | [p] => p
  | p :: ps => p +:+ sep +:+ str_join sep ps
  end.

(** ** Decimal numbers *)

(** [format!("{n}")] for an unsigned integer. *)
Definition dec_string (n : N) : string := NilEmpty.string_of_uint (N.to_uint n).

(** [format!("{n:02}")] *)
Definition dec_string_02 (n : N) : string :=
  if (n <? 10)%N then "0" +:+ dec_string n else dec_string n.

(** [s.parse::<u32>().ok()]: an optional [+], then at least one digit, no
    overflow. *)
Definition parse_u32 (s : string) : option N :=
  let digits := match strip_prefix "+" s with Some rest => rest | None => s end in
  if bool_decide (digits = EmptyString) then None
  else match NilEmpty.uint_of_string digits with
       | Some d => let n := N.of_uint d in if (n <? 2 ^ 32)%N then Some n else None
       | None => None
       end.

(** ** Searches in vectors *)

(** [xs.iter().find(p)] *)
Fixpoint find_first {A} (P : A → bool) (l : list A) : option A :=
  match l with
  | [] => None
  | x :: l' => if P x then Some x else find_first P l'
  end.

(** [xs.iter().position(p)] *)
Fixpoint position {A} (P : A → bool) (l : list A) : option nat :=
  match l with
  | [] => None
  | x :: l' => if P x then Some 0 else S <$> position P l'
  end.

(** [if let Some(x) = xs.iter_mut().find(p) { f(x) }] *)
Fixpoint update_first {A} (P : A → bool) (f : A → A) (l : list A) : list A :=
  match l with
  | [] => []
  | x :: l' => if P x then f x :: l' else x :: update_first P f l'
  end.

(** [xs.insert(i, x)] for [i <= xs.len()] *)
Definition insert_at {A} (i : nat) (x : A) (l : list A) : list A := take i l ++ x :: drop i l.

(** [xs.remove(i)] for [i < xs.len()] *)
Definition remove_at {A} (i : nat) (l : list A) : list A := take i l ++ drop (S i) l.

(** [xs.contains(x)] *)
Definition mem {A} `{EqDecision A} (x : A) (l : list A) : bool := bool_decide (x ∈ l).

(** ** Sorting strings *)

Definition str_leb (a b : string) : Prop := Is_true (String.leb a b).
#[export] Instance str_leb_dec a b : Decision (str_leb a b).
Proof. unfold str_leb. apply _. Defined.

(** [v.sort(); v.dedup()]: adjacent equal elements collapse. *)
Fixpoint dedup (l : list string) : list string :=
  match l with
  | x :: (y :: _) as l' => if bool_decide (x = y) then dedup l' else x :: dedup l'
  | _ => l
  end.
Definition sort_dedup (l : list string) : list string := dedup (merge_sort str_leb l).

(** ** Automation *)

Create HintDb rust discriminated.
Create Rewrite HintDb rust.

(** Opens the hypotheses a successful computation leaves: binds, early
    returns and option lookups. *)
Ltac inv_result_step :=
  match goal with
  | H : Ok _ = Ok _ |- _ => injection H as H; try subst
  | H : Err _ = Err _ |- _ => injection H as H; try subst
  | H : Ok _ = Err _ |- _ => discriminate H
  | H : Err _ = Ok _ |- _ => discriminate H
  | H : Some _ = Some _ |- _ => injection H as H; try subst
  | H : Some _ = None |- _ => discriminate H
  | H : None = Some _ |- _ => discriminate H
  | H : rbind ?r _ = Ok _ |- _ => let E := fresh "Hr" in destruct r eqn:E; simpl in H
  | H : ok_or ?o _ = Ok _ |- _ => let E := fresh "Ho" in destruct o eqn:E; simpl in H
  | H : (if ?b then Err _ else _) = Ok _ |- _ => let E := fresh "Hb" in destruct b eqn:E
  | u : unit |- _ => destruct u
  end.
Ltac inv_result := repeat inv_result_step.

(** Case analysis on everything the goal or a hypothesis matches on. *)
Ltac case_matches := repeat (case_match; simplify_eq/=).

(** ** Lemmas on results *)

Lemma rbind_Ok {E A B} (r : result E A) (f : A → result E B) b :
  rbind r f = Ok b ↔ ∃ a, r = Ok a ∧ f a = Ok b.
Proof. destruct r; simpl; naive_solver. Qed.

Lemma fold_result_app {E A S} (step : S → A → result E S) xs ys s :
  fold_result step s (xs ++ ys) = let? s' := fold_result step s xs in fold_result step s' ys.
Proof. revert s. induction xs as [|x xs IH]; intros s; simpl; [done|]. destruct (step s x); simpl; auto. Qed.

(** An invariant of the step is an invariant of the fold. *)
Lemma fold_result_ind {E A S} (P : S → Prop) (step : S → A → result E S) xs s s' :
  (∀ s x s', x ∈ xs → P s → step s x = Ok s' → P s') →
  P s → fold_result step s xs = Ok s' → P s'.
Proof.
  revert s. induction xs as [|x xs IH]; simpl; intros s Hstep Hs H; [by inv_result|].
  inv_result. apply (IH a); [|by eapply Hstep; [left| |]|done].
  intros; eapply Hstep; eauto; by right.
Qed.

(** A preorder that relates every step relates the ends of the fold. *)
Lemma fold_result_rel {E A S} (R : S → S → Prop) `{!PreOrder R} (step : S → A → result E S) xs s s' :
  (∀ s x s', x ∈ xs → step s x = Ok s' → R s s') →
  fold_result step s xs = Ok s' → R s s'.
Proof.
  revert s. induction xs as [|x xs IH]; simpl; intros s Hstep H; [by inv_result|].
  inv_result. trans a; [by eapply Hstep; [left|]|].
  apply IH; [|done]. intros; eapply Hstep; eauto; by right.
Qed.

Lemma for_each_Ok {E A} (check : A → result E unit) xs :
  for_each check xs = Ok tt ↔ Forall (λ x, check x = Ok tt) xs.
Proof.
  induction xs as [|x xs IH]; simpl; [by split; [constructor|]|].
  rewrite Forall_cons, <- IH. destruct (check x) as [[]|]; simpl; naive_solver.
Qed.

(** The loop reports the first failing element. *)
Lemma for_each_Err {E A} (check : A → result E unit) xs e :
  for_each check xs = Err e ↔
  ∃ l x l', xs = l ++ x :: l' ∧ Forall (λ y, check y = Ok tt) l ∧ check x = Err e.
Proof.
  induction xs as [|x xs IH]; simpl.
  { split; [done|]. intros (l&x&l'&H&_). by destruct l. }
  destruct (check x) as [[]|e'] eqn:Hx; simpl.
  - rewrite IH. split.
    + intros (l&y&l'&->&Hl&Hy). exists (x :: l), y, l'. split_and!; auto.
    + intros (l&y&l'&H&Hl&Hy). destruct l as [|z l]; simplify_eq/=; [congruence|].
      inversion Hl; subst. by exists l, y, l'.
  - split.
    + intros. simplify_eq. by exists [], x, xs.
    + intros (l&y&l'&H&Hl&Hy). destruct l as [|z l]; simplify_eq/=; [congruence|].
      inversion Hl; subst; congruence.
Qed.

(** ** Lemmas on strings *)

Lemma str_app_nil_r (s : string) : s +:+ "" = s.
Proof. unfold String.append. induction s; f_equal/=; auto. Qed.

Lemma str_app_cons a s t : String a s +:+ t = String a (s +:+ t).
Proof. done. Qed.

Lemma str_app_assoc (s t u : string) : (s +:+ t) +:+ u = s +:+ (t +:+ u).
Proof. induction s as [|a s IH]; [done|]. by rewrite !str_app_cons, IH. Qed.

Lemma str_length_app (s t : string) : String.length (s +:+ t) = String.length s + String.length t.
Proof. induction s as [|a s IH]; [done|]. rewrite str_app_cons. simpl. by rewrite IH. Qed.

Lemma strip_prefix_Some p s t : strip_prefix p s = Some t ↔ s = p +:+ t.
Proof.
  revert s. induction p as [|a p IH]; intros s; simpl.
  - split; [by intros [= ->]|by intros ->].
  - destruct s as [|b s]; [split; [done|by rewrite str_app_cons]|].
    rewrite str_app_cons. case_decide as Hab; [rewrite IH|]; naive_solver.
Qed.

Lemma strip_prefix_app p t : strip_prefix p (p +:+ t) = Some t.
Proof. by apply strip_prefix_Some. Qed.

Lemma starts_with_true p s : starts_with p s = true ↔ ∃ t, s = p +:+ t.
Proof.
  unfold starts_with. split.
  - destruct (strip_prefix p s) eqn:H; [|done]. apply strip_prefix_Some in H. eauto.
  - intros [t ->]. by rewrite strip_prefix_app.
Qed.

Lemma str_take_drop n s : str_take n s +:+ str_drop n s = s.
Proof. revert s. induction n; intros []; simpl; [done..|]. by rewrite str_app_cons, IHn. Qed.

Lemma str_drop_app s t : str_drop (String.length s) (s +:+ t) = t.
Proof. induction s; [by destruct t|done]. Qed.

Lemma str_take_app s t : str_take (String.length s) (s +:+ t) = s.
Proof. induction s; [by destruct t|]. rewrite str_app_cons. simpl. by f_equal. Qed.

Lemma strip_suffix_Some p s t : strip_suffix p s = Some t ↔ s = t +:+ p.
Proof.
  unfold strip_suffix. split.
  - case_bool_decide as H; [|done]. intros [= <-]. rewrite <- H at 2. by rewrite str_take_drop.
  - intros ->. rewrite str_length_app, Nat.add_sub, str_drop_app, str_take_app.
    by rewrite bool_decide_eq_true_2.
Qed.

Lemma ends_with_true p s : ends_with p s = true ↔ ∃ t, s = t +:+ p.
Proof.
  unfold ends_with. split.
  - destruct (strip_suffix p s) eqn:H; [|done]. apply strip_suffix_Some in H. eauto.
  - intros [t ->]. by rewrite (proj2 (strip_suffix_Some p (t +:+ p) t)).
Qed.

Lemma contains_true m s : contains m s = true ↔ ∃ a b, s = a +:+ m +:+ b.
Proof.
  induction s as [|c s IH]; simpl; rewrite orb_true_iff, starts_with_true.
  - split.
    + intros [[t Ht]|]; [|done]. by exists "", t.
    + intros (a&b&H). destruct a; [|done]. left. by exists b.
  - rewrite IH. split.
    + intros [[t Ht]|(a&b&->)]; [by exists "", t|]. by exists (String c a), b.
    + intros (a&b&H). destruct a as [|c' a]; [left; by exists b|].
      rewrite str_app_cons in H. injection H as -> ->. right. eauto.
Qed.

Lemma str_concat_app l k : str_concat (l ++ k) = str_concat l +:+ str_concat k.
Proof. induction l as [|a l IH]; simpl; [done|]. by rewrite IH, str_app_assoc. Qed.

(** Segmenting into characters loses no byte. *)
Lemma str_concat_chars s : str_concat (chars s) = s.
Proof.
  induction s as [|c s IH]; [done|]. cbn [chars].
  destruct (is_continuation s), (chars s) as [|g gs] eqn:E; simpl in *;
    rewrite ?str_app_cons; f_equal/=; try done; by rewrite <- IH.
Qed.

(** *** Trimming *)

Section drop_while.
Context {A : Type} (P : A → bool).
Implicit Types l : list A.

Lemma drop_while_spec l :
  ∃ a, l = a ++ drop_while P l ∧ Forall (λ x, P x = true) a ∧
    ∀ x l', drop_while P l = x :: l' → P x = false.
Proof.
  induction l as [|x l (a&Hl&Ha&Hh)]; simpl; [by exists []|].
  destruct (P x) eqn:Hx.
  - exists (x :: a). split_and!; [simpl; congruence|by constructor|done].
  - exists []. split_and!; [done|constructor|congruence].
Qed.

Lemma drop_while_id l : (∀ x l', l = x :: l' → P x = false) → drop_while P l = l.
Proof. destruct l as [|x l]; simpl; [done|]. intros H. by rewrite (H x l). Qed.

Lemma drop_while_app a l : Forall (λ x, P x = true) a → drop_while P (a ++ l) = drop_while P l.
Proof. induction 1 as [|x a Hx _ IH]; [done|]. simpl. by rewrite Hx. Qed.

(** Dropping at both ends. *)
Definition strip l := reverse (drop_while P (reverse (drop_while P l))).

Lemma strip_spec l :
  ∃ a b, l = a ++ strip l ++ b ∧ Forall (λ x, P x = true) a ∧ Forall (λ x, P x = true) b ∧
    (∀ x l', strip l = x :: l' → P x = false) ∧
    (∀ x l', strip l = l' ++ [x] → P x = false).
Proof.
  unfold strip. destruct (drop_while_spec l) as (a&Hl&Ha&Hh).
  set (m := drop_while P l) in *.
  destruct (drop_while_spec (reverse m)) as (b&Hm&Hb&Ht).
  apply (f_equal reverse) in Hm. rewrite reverse_involutive, reverse_app in Hm.
  set (k := drop_while P (reverse m)) in *.
  exists a, (reverse b). split_and!.
  - by rewrite <- Hm.
  - done.
  - by apply Forall_reverse.
  - intros x l' Hk. apply (Hh x (l' ++ reverse b)). rewrite Hm, Hk. done.
  - intros x l' Hk. apply (Ht x (reverse l')).
    rewrite <- (reverse_involutive k), Hk, reverse_app. done.
Qed.

Lemma strip_id l :
  (∀ x l', l = x :: l' → P x = false) → (∀ x l', l = l' ++ [x] → P x = false) → strip l = l.
Proof.
  intros Hh Ht. unfold strip. rewrite (drop_while_id l) by done.
  rewrite drop_while_id; [apply reverse_involutive|].
  intros x l' Hl. apply (Ht x (reverse l')).
  rewrite <- (reverse_involutive l), Hl, reverse_cons. done.
Qed.

(** What is left is all there is between droppable ends. *)
Lemma strip_unique a x m y b :
  Forall (λ x, P x = true) a → Forall (λ x, P x = true) b → P x = false → P y = false →
  (∃ k, x :: m = k ++ [y]) → strip (a ++ (x :: m) ++ b) = x :: m.
Proof.
  intros Ha Hb Hx Hy [k Hk]. unfold strip. rewrite (drop_while_app a) by done.
  rewrite (drop_while_id ((x :: m) ++ b)) by (by intros ? ? [= <- _]).
  rewrite reverse_app, drop_while_app by (by apply Forall_reverse).
  rewrite drop_while_id, reverse_involutive; [done|].
  intros z l'. rewrite Hk, reverse_app. by intros [= <- _].
Qed.

Lemma strip_idemp l : strip (strip l) = strip l.
Proof. destruct (strip_spec l) as (a&b&_&_&_&Hh&Ht). by apply strip_id. Qed.
End drop_while.

Fixpoint all_continuation (s : string) : bool :=
  match s with
  | EmptyString => true
  | String c s' => is_continuation (String c EmptyString) && all_continuation s'
  end.

(** A character: a byte and the continuation bytes after it. *)
Definition well_segmented (g : string) : bool :=
  match g with EmptyString => false | String _ r => all_continuation r end.

Definition segmented (l : list string) : Prop :=
  Forall (λ g, well_segmented g = true) l ∧ Forall (λ g, is_continuation g = false) (tail l).

Lemma is_continuation_cons c s : is_continuation (String c s) = is_continuation (String c EmptyString).
Proof. done. Qed.

Lemma chars_segment c r t :
  all_continuation r = true → is_continuation t = false →
  chars (String c r +:+ t) = String c r :: chars t.
Proof.
  revert c. induction r as [|d r IH]; intros c Hr Ht; rewrite !str_app_cons.
  - simpl. change ("" +:+ t) with t. rewrite Ht. by destruct (chars t).
  - cbn [all_continuation] in Hr. apply andb_true_iff in Hr as [Hd Hr].
    specialize (IH d Hr Ht). rewrite str_app_cons in IH. cbn [chars] in *.
    by rewrite (is_continuation_cons d), Hd, IH.
Qed.

Lemma chars_concat l : segmented l → chars (str_concat l) = l.
Proof.
  intros [Hw Hl]. induction Hw as [|g l Hg Hw IH]; simpl in *; [done|].
  destruct g as [|c r]; [done|]. simpl in Hg.
  assert (is_continuation (str_concat l) = false) as Ht.
  { destruct Hl as [|[|d r'] l' Hd _]; [done| |]; simpl.
    - by inversion Hw.
    - done. }
  rewrite chars_segment by done. f_equal. apply IH. by destruct Hl.
Qed.

Lemma chars_segmented s :
  segmented (chars s) ∧
  match chars s with [] => s = EmptyString | g :: _ => is_continuation g = is_continuation s end.
Proof.
  induction s as [|c s [[Hw Hl] Hh]]; [by repeat constructor|]. cbn [chars].
  destruct (chars s) as [|g gs] eqn:E; [subst; by repeat constructor|].
  destruct (is_continuation s) eqn:Hs.
  - inversion Hw as [|? ? Hg Hgs]; subst. simpl in Hl.
    split; [split|done]; simpl; [|done]. constructor; [|done].
    destruct g as [|d r]; [done|]. simpl in *. by rewrite Hh.
  - split; [split|done]; simpl; [by constructor|].
    by constructor.
Qed.

Lemma segmented_infix a l b : segmented (a ++ l ++ b) → segmented l.
Proof.
  intros [Hw Hl]. rewrite !Forall_app in Hw. split; [tauto|].
  destruct a as [|x a]; simpl in Hl.
  - destruct l; [constructor|]. simpl in Hl. rewrite Forall_app in Hl. tauto.
  - rewrite !Forall_app in Hl. destruct l; [constructor|]. destruct Hl as (_&Hl&_).
    by inversion Hl.
Qed.

Lemma chars_app_ascii s t : is_continuation t = false → chars (s +:+ t) = chars s ++ chars t.
Proof.
  intros Ht. rewrite <- (str_concat_chars s), <- (str_concat_chars t) at 1.
  rewrite <- str_concat_app. apply chars_concat.
  destruct (chars_segmented s) as [[S1 S2] _], (chars_segmented t) as [[T1 T2] Th].
  split; [by apply Forall_app|].
  destruct (chars s) as [|g gs]; [exact T2|]. simpl in *. apply Forall_app. split; [done|].
  destruct (chars t) as [|h hs]; [constructor|]. constructor; [congruence|done].
Qed.

Lemma chars_ascii c t : is_continuation t = false → chars (String c t) = String c "" :: chars t.
Proof. intros Ht. cbn [chars]. rewrite Ht. by destruct (chars t). Qed.

Lemma trim_strip s : trim s = str_concat (strip is_whitespace (chars s)).
Proof. done. Qed.

Lemma chars_trim s : chars (trim s) = strip is_whitespace (chars s).
Proof.
  rewrite trim_strip. apply chars_concat.
  destruct (strip_spec is_whitespace (chars s)) as (a&b&Hs&_).
  apply (segmented_infix a _ b). rewrite <- Hs. apply chars_segmented.
Qed.

Lemma trim_idemp s : trim (trim s) = trim s.
Proof. by rewrite (trim_strip (trim s)), chars_trim, strip_idemp. Qed.

(** [trim] removes a prefix and a suffix. *)
Lemma trim_infix s : ∃ a b, s = a +:+ trim s +:+ b.
Proof.
  destruct (strip_spec is_whitespace (chars s)) as (a&b&Hs&_).
  exists (str_concat a), (str_concat b).
  by rewrite trim_strip, <- !str_concat_app, <- Hs, str_concat_chars.
Qed.

Lemma trim_length s : String.length (trim s) ≤ String.length s.
Proof. destruct (trim_infix s) as (a&b&Hs). rewrite Hs at 2. rewrite !str_length_app. lia. Qed.

(** *** Decimal printing and parsing *)

Lemma parse_digits d n :
  NilEmpty.uint_of_string (NilEmpty.string_of_uint d) = Some d →
  d ≠ Decimal.Nil → N.of_uint d = n → (n < 2 ^ 32)%N →
  parse_u32 (NilEmpty.string_of_uint d) = Some n.
Proof.
  intros Hd Hnil Hn Hlt. unfold parse_u32.
  assert (strip_prefix "+" (NilEmpty.string_of_uint d) = None) as Hp by (by destruct d).
  rewrite Hp, bool_decide_eq_false_2 by (by destruct d).
  rewrite Hd, Hn. destruct (N.ltb_spec n (2 ^ 32)); [done|lia].
Qed.

Lemma to_uint_not_nil n : N.to_uint n ≠ Decimal.Nil.
Proof.
  destruct n as [|p]; [done|]. simpl. intros H.
  pose proof (DecimalN.Unsigned.of_to (N.pos p)) as E. simpl in E. by rewrite H in E.
Qed.

Lemma parse_u32_dec_string n : (n < 2 ^ 32)%N → parse_u32 (dec_string n) = Some n.
Proof.
  intros. apply parse_digits; [apply NilEmpty.usu|apply to_uint_not_nil| |done].
  apply DecimalN.Unsigned.of_to.
Qed.

Lemma parse_u32_dec_string_02 n : (n < 2 ^ 32)%N → parse_u32 (dec_string_02 n) = Some n.
Proof.
  intros Hn. unfold dec_string_02. destruct (n <? 10)%N; [|by apply parse_u32_dec_string].
  apply (parse_digits (Decimal.D0 (N.to_uint n))); [apply NilEmpty.usu|done| |done].
  rewrite <- (DecimalN.Unsigned.of_to n) at 2.
  by destruct (N.to_uint n).
Qed.

(** *** Printable ASCII *)

Fixpoint graphic (s : string) : bool :=
  match s with
  | EmptyString => true
  | String c s' => (33 <=? Ascii.N_of_ascii c)%N && (Ascii.N_of_ascii c <? 127)%N && graphic s'
  end.

Lemma graphic_app s t : graphic (s +:+ t) = graphic s && graphic t.
Proof. induction s as [|c s IH]; [done|]. rewrite str_app_cons. simpl. by rewrite IH, andb_assoc. Qed.

Lemma graphic_no_space c : graphic (String c "") = true → is_whitespace (String c "") = false.
Proof. destruct c as [[] [] [] [] [] [] [] []]; by vm_compute. Qed.

Lemma graphic_chars s : graphic s = true → Forall (λ g, is_whitespace g = false) (chars s).
Proof.
  induction s as [|c s IH]; [constructor|]. intros H.
  simpl in H. apply andb_true_iff in H as [Hc Hs]. cbn [chars].
  assert (is_continuation s = false) as ->.
  { destruct s as [|d s]; [done|]. simpl in Hs. apply andb_true_iff in Hs as [Hd _].
    apply andb_true_iff in Hd as [_ Hd]. apply N.ltb_lt in Hd. simpl.
    apply andb_false_iff. left. apply N.leb_gt. lia. }
  constructor; [|by apply IH]. apply graphic_no_space. simpl. by rewrite Hc.
Qed.

Lemma graphic_trim s : graphic s = true → trim s = s.
Proof.
  intros H%graphic_chars. unfold trim. rewrite Forall_forall in H.
  rewrite (drop_while_id _ (chars s)), drop_while_id, reverse_involutive.
  - apply str_concat_chars.
  - intros x l E. apply H. apply elem_of_reverse. rewrite E. by left.
  - intros x l E. apply H. rewrite E. by left.
Qed.

Lemma graphic_uint d : graphic (NilEmpty.string_of_uint d) = true.
Proof. induction d; simpl; auto. Qed.

Lemma length_uint d : String.length (NilEmpty.string_of_uint d) = Decimal.nb_digits d.
Proof. induction d; simpl; auto. Qed.

Lemma nb_digits_double d :
  Decimal.nb_digits (Decimal.Little.double d) ≤ S (Decimal.nb_digits d) ∧
  Decimal.nb_digits (Decimal.Little.succ_double d) ≤ S (Decimal.nb_digits d).
Proof. induction d; simpl; lia. Qed.

Lemma dec_string_length n : String.length (dec_string n) ≤ S (N.size_nat n).
Proof.
  unfold dec_string. rewrite length_uint. destruct n as [|p]; [done|]. simpl. unfold Pos.to_uint.
  rewrite DecimalFacts.nb_digits_rev. induction p as [p IH|p IH|]; simpl; [..|lia].
  - destruct (nb_digits_double (Pos.to_little_uint p)). lia.
  - destruct (nb_digits_double (Pos.to_little_uint p)). lia.
Qed.

Lemma size_nat_bound p k : (N.pos p < 2 ^ N.of_nat k)%N → Pos.size_nat p ≤ k.
Proof.
  revert k. induction p as [p IH|p IH|]; intros [|k] H; try (simpl in H; lia); simpl.
  all: rewrite ?Nat2N.inj_succ, ?N.pow_succ_r' in H.
  - apply le_n_S, IH. lia.
  - apply le_n_S, IH. lia.
  - lia.
Qed.

Lemma dec_string_length_bits n k :
  (n < 2 ^ N.of_nat k)%N → String.length (dec_string n) ≤ S k.
Proof.
  intros Hn. pose proof (dec_string_length n) as H. destruct n as [|p]; [simpl in *; lia|].
  apply size_nat_bound in Hn. simpl in H. lia.
Qed.

Lemma dec_string_inj m n : dec_string m = dec_string n → m = n.
Proof.
  unfold dec_string. intros H. apply DecimalN.Unsigned.to_uint_inj.
  apply (f_equal NilEmpty.uint_of_string) in H. rewrite !NilEmpty.usu in H. by injection H.
Qed.

(** ** Lemmas on searches *)

Section searches.
Context {A : Type} (P : A → bool).
Implicit Types l : list A.

Lemma find_first_Some l x :
  find_first P l = Some x ↔
  ∃ a b, l = a ++ x :: b ∧ P x = true ∧ Forall (λ y, P y = false) a.
Proof.
  induction l as [|y l IH]; simpl.
  { split; [done|]. intros (a&b&H&_). by destruct a. }
  destruct (P y) eqn:Hy.
  - split.
    + intros [= ->]. by exists [], l.
    + intros (a&b&H&Hx&Ha). destruct a as [|z a]; simplify_eq/=; [done|].
      inversion Ha; congruence.
  - rewrite IH. split.
    + intros (a&b&->&Hx&Ha). exists (y :: a), b. auto.
    + intros (a&b&H&Hx&Ha). destruct a as [|z a]; simplify_eq/=; [congruence|].
      inversion Ha; subst. by exists a, b.
Qed.

Lemma find_first_None l : find_first P l = None ↔ Forall (λ y, P y = false) l.
Proof.
  induction l as [|y l IH]; simpl; [by split; [constructor|]|].
  rewrite Forall_cons, <- IH. destruct (P y); naive_solver.
Qed.

Lemma find_first_elem l x : find_first P l = Some x → x ∈ l ∧ P x = true.
Proof. intros (a&b&->&Hx&_)%find_first_Some. set_solver. Qed.

Lemma position_Some l i :
  position P l = Some i ↔
  ∃ a x b, l = a ++ x :: b ∧ length a = i ∧ P x = true ∧ Forall (λ y, P y = false) a.
Proof.
  revert i. induction l as [|y l IH]; intros i; simpl.
  { split; [done|]. intros (a&x&b&H&_). by destruct a. }
  destruct (P y) eqn:Hy.
  - split.
    + intros [= <-]. by exists [], y, l.
    + intros (a&x&b&H&Hl&Hx&Ha). destruct a as [|z a]; simplify_eq/=; [done|].
      inversion Ha; congruence.
  - rewrite fmap_Some. setoid_rewrite IH. split.
    + intros (j&(a&x&b&->&<-&Hx&Ha)&->). exists (y :: a), x, b. auto.
    + intros (a&x&b&H&<-&Hx&Ha). destruct a as [|z a]; simplify_eq/=; [congruence|].
      inversion Ha; subst. eexists; split; [|done]. by exists a, x, b.
Qed.

Lemma position_None l : position P l = None ↔ Forall (λ y, P y = false) l.
Proof.
  induction l as [|y l IH]; simpl; [done|]. rewrite Forall_cons, <- IH. destruct (P y), (position P l); naive_solver.
Qed.

Lemma update_first_split f a x b :
  P x = true → Forall (λ y, P y = false) a →
  update_first P f (a ++ x :: b) = a ++ f x :: b.
Proof. intros Hx. induction 1 as [|y a Hy Ha IH]; simpl in *; [by rewrite Hx|]. by rewrite Hy; f_equal. Qed.

Lemma update_first_none f l : Forall (λ y, P y = false) l → update_first P f l = l.
Proof. induction 1 as [|y l Hy Hl IH]; simpl in *; [done|]. by rewrite Hy; f_equal. Qed.

Lemma fmap_update_first {B} (g : A → B) f l :
  (∀ x, g (f x) = g x) → g <$> update_first P f l = g <$> l.
Proof. intros Hg. induction l as [|y l IH]; simpl; [done|]. destruct (P y); by rewrite !fmap_cons, ?Hg, ?IH. Qed.

Lemma length_update_first f l : length (update_first P f l) = length l.
Proof. induction l as [|y l IH]; simpl; [done|]. destruct (P y); simpl; by rewrite ?IH. Qed.

Lemma insert_at_Permutation i x l : insert_at i x l ≡ₚ x :: l.
Proof. unfold insert_at. trans (x :: (take i l ++ drop i l)); [by rewrite Permutation_middle|by rewrite take_drop]. Qed.

Lemma remove_at_Permutation i x l : l !! i = Some x → x :: remove_at i l ≡ₚ l.
Proof.
  intros Hi. unfold remove_at. rewrite <- (take_drop_middle l i x Hi) at 3.
  by rewrite Permutation_middle.
Qed.

Lemma mem_true `{EqDecision A} (x : A) l : mem x l = true ↔ x ∈ l.
Proof. unfold mem. apply bool_decide_eq_true. Qed.

Lemma mem_false `{EqDecision A} (x : A) l : mem x l = false ↔ x ∉ l.
Proof. unfold mem. apply bool_decide_eq_false. Qed.
End searches.

Lemma Forall2_trans {A} (R S T : A → A → Prop) l k m :
  (∀ x y z, R x y → S y z → T x z) → Forall2 R l k → Forall2 S k m → Forall2 T l m.
Proof.
  intros HT HR. revert m. induction HR as [|x y l k Hxy HR IH]; intros m; inversion 1; subst; eauto.
Qed.

#[export] Hint Resolve strip_prefix_app str_concat_chars trim_idemp : rust.
#[export] Hint Rewrite @fold_result_app @length_update_first : rust.

(** *** Sorting *)

Lemma dedup_cons x y l :
  dedup (x :: y :: l) = if bool_decide (x = y) then dedup (y :: l) else x :: dedup (y :: l).
Proof. done. Qed.

Lemma elem_of_dedup x l : x ∈ dedup l ↔ x ∈ l.
Proof.
  induction l as [|y l IH]; [done|]. destruct l as [|z l]; [done|].
  rewrite dedup_cons. case_bool_decide as E.
  - subst. rewrite IH. set_solver.
  - rewrite elem_of_cons, IH. by rewrite !(elem_of_cons (z :: l)).
Qed.

Lemma elem_of_sort_dedup x l : x ∈ sort_dedup l ↔ x ∈ l.
Proof. unfold sort_dedup. by rewrite elem_of_dedup, merge_sort_Permutation. Qed.

(** ** Runs of step relations *)

Section runs.
Context {A B : Type} (stepA : A → A → Prop) (stepB : B → B → Prop).

Lemma rtc_invariant (I : A → Prop) x y : (∀ x y, I x → stepA x y → I y) → rtc stepA x y → I x → I y.
Proof. intros HI H. induction H as [|x y z Hxy _ IH]; [done|]. intros Hx. by eapply IH, HI. Qed.

(** A forward simulation: each step is matched by a run, of no step if need be. *)
Lemma rtc_simulation (R : A → B → Prop) x x' y :
  (∀ x x' y, R x y → stepA x x' → ∃ y', rtc stepB y y' ∧ R x' y') →
  rtc stepA x x' → R x y → ∃ y', rtc stepB y y' ∧ R x' y'.
Proof.
  intros Hsim H. revert y. induction H as [|x x1 x' Hx _ IH]; intros y HR; [by exists y|].
  destruct (Hsim _ _ _ HR Hx) as (y1 & Hy1 & HR1). destruct (IH _ HR1) as (y' & Hy' & HR').
  exists y'. split; [by etrans|done].
Qed.
End runs.
