(* ===== verification/Json.v ===== *)
(** * JSON values

    [serde_json::Value] as the crates use it, with the readers [as_str],
    [as_i64], [as_u64] and [get], and what [json!] makes of Rust values.  The member order
    of an object is not kept, and a number is its text. *)

From Stdlib Require Import ZArith Lia DecimalString DecimalN.
From S2P Require Import Prelude.
From stdpp Require Import options.

Inductive Value :=
| Null
| Bool (b : bool)
| Number (text : string)
| JString (s : string)
| Array (items : list Value)
| Object (members : gmap string Value).

(** ** Readers *)

(** [value.get(key)] *)
Definition get_member (key : string) (v : Value) : option Value :=
  match v with Object members => members !! key | _ => None end.
Definition as_str (v : Value) : option string :=
  match v with JString s => Some s | _ => None end.
Definition as_bool (v : Value) : option bool :=
  match v with Bool b => Some b | _ => None end.

(** The number that digits write, at least one. *)
Definition parse_digits_text (digits : string) : option N :=
  if bool_decide (digits = EmptyString) then None
  else N.of_uint <$> NilEmpty.uint_of_string digits.

(** [value.as_u64()] and [value.as_i64()]: integers in range; a fraction is no integer, and [-0] is
    a float. *)
Definition as_u64 (v : Value) : option N :=
  match v with
  | Number text =>
      n ← parse_digits_text text;
      if (n <? 2 ^ 64)%N then Some n else None
  | _ => None
  end.
Definition as_i64 (v : Value) : option Z :=
  match v with
  | Number text =>
      match strip_prefix "-" text with
      | Some digits =>
          n ← parse_digits_text digits;
          if ((0 <? n) && (n <=? 2 ^ 63))%N then Some (- Z.of_N n)%Z else None
      | None =>
          n ← parse_digits_text text;
          if (n <? 2 ^ 63)%N then Some (Z.of_N n) else None
      end
  | _ => None
  end.

(** ** Writers: [json!(n)] *)

Definition json_u64 (n : N) : Value := Number (dec_string n).
Definition json_i64 (z : Z) : Value :=
  Number (if (z <? 0)%Z then "-" +:+ dec_string (Z.to_N (- z)) else dec_string (Z.to_N z)).
(** [json!] of an [Option], [meta[key] = value] on an object. *)
Definition json_option {A} (to_value : A → Value) (o : option A) : Value :=
  match o with Some a => to_value a | None => Null end.
Definition set_member (key : string) (v : Value) (o : Value) : Value :=
  match o with Object members => Object (<[key := v]> members) | _ => o end.

(** The range of an [i64]. *)
Definition is_i64 (z : Z) : Prop := (i64_min ≤ z ≤ i64_max)%Z.

(** ** What is written reads back *)

Lemma parse_dec_string n : parse_digits_text (dec_string n) = Some n.
Proof.
  unfold parse_digits_text, dec_string. rewrite bool_decide_eq_false_2.
  - rewrite NilEmpty.usu. cbn. f_equal. apply DecimalN.Unsigned.of_to.
  - pose proof (to_uint_not_nil n). by destruct (N.to_uint n).
Qed.

Lemma dec_string_unsigned n : strip_prefix "-" (dec_string n) = None.
Proof. unfold dec_string. by destruct (N.to_uint n). Qed.

Lemma as_u64_json n : (n < 2 ^ 64)%N → as_u64 (json_u64 n) = Some n.
Proof. intros Hn. unfold as_u64, json_u64. rewrite parse_dec_string. cbn. by rewrite (proj2 (N.ltb_lt _ _) Hn). Qed.

Lemma as_i64_json z : is_i64 z → as_i64 (json_i64 z) = Some z.
Proof.
  unfold is_i64, i64_min, i64_max. intros Hz. unfold as_i64, json_i64. destruct (Z.ltb_spec z 0) as [Hneg|Hpos].
  - assert (strip_prefix "-" ("-" +:+ dec_string (Z.to_N (- z))) = Some (dec_string (Z.to_N (- z)))) as ->.
    { apply strip_prefix_app. }
    rewrite parse_dec_string. cbn -[Z.pow N.pow].
    assert (((0 <? Z.to_N (- z)) && (Z.to_N (- z) <=? 2 ^ 63))%N = true) as ->.
    { apply andb_true_intro; split; [apply N.ltb_lt|apply N.leb_le]; lia. }
    f_equal. lia.
  - rewrite dec_string_unsigned, parse_dec_string. cbn -[Z.pow N.pow].
    assert ((Z.to_N z <? 2 ^ 63)%N = true) as -> by (apply N.ltb_lt; lia).
    f_equal. lia.
Qed.
