(* ===== verification/Tasks.v ===== *)
(** * Tasks: critical sections in sequence, interleaved with others

    An [async fn] that takes locks one after another is a [Task]: a
    sequence of critical sections on the state behind the locks, each of which runs whole, with anything
    that other tasks do in between.  [run] executes a task alone; [pool_step] lets one task
    of a pool take its next section.  The logic below proves pools correct: a task owns ghost
    tokens that no other task owns, an invariant ties the state to the tokens of all, and
    [wp] says that each section keeps the invariant for any tokens of the others. *)

From S2P Require Import Prelude.
From stdpp Require Import options.

(** ** Tasks *)

Inductive Task (S A : Type) : Type :=
| Done (a : A)
| Atomic {B : Type} (section : S → B * S) (continue : B → Task S A).
Arguments Done {S A} a.
Arguments Atomic {S A B} section continue.

Fixpoint task_bind {S A B} (t : Task S A) (k : A → Task S B) : Task S B :=
  match t with
  | Done a => k a
  | Atomic section continue => Atomic section (fun b => task_bind (continue b) k)
  end.

(** One critical section, one that only reads, one that only writes. *)
Definition section {S B} (f : S → B * S) : Task S B := Atomic f Done.
Definition observe {S B} (f : S → B) : Task S B := section (fun s => (f s, s)).
Definition modify {S} (f : S → S) : Task S unit := section (fun s => (tt, f s)).

Declare Scope task_scope.
Delimit Scope task_scope with task.
Notation "'await!' x := t 'in' k" := (task_bind t (fun x => k))
  (at level 10, x binder, t at level 100, k at level 200) : task_scope.
Open Scope task_scope.

(** [for x in xs { f(x).await; }], and the same collecting what [f] returns. *)
Fixpoint task_for {S A} (f : A → Task S unit) (xs : list A) : Task S unit :=
  match xs with
  | [] => Done tt
  | x :: xs => await! _ := f x in task_for f xs
  end.
Fixpoint task_collect {S A B} (f : A → Task S (option B)) (xs : list A) : Task S (list B) :=
  match xs with
  | [] => Done []
  | x :: xs =>
      await! r := f x in
      await! rest := task_collect f xs in
      Done (match r with Some b => b :: rest | None => rest end)
  end.

(** A task alone: all its sections, one after the other. *)
Fixpoint run {S A} (t : Task S A) (s : S) : A * S :=
  match t with
  | Done a => (a, s)
  | Atomic section continue => run (continue (section s).1) (section s).2
  end.
Definition run_state {S A} (t : Task S A) (s : S) : S := (run t s).2.

(** A task on a part of the state. *)
Fixpoint zoom {S T A} (get : T → S) (set : S → T → T) (t : Task S A) : Task T A :=
  match t with
  | Done a => Done a
  | Atomic section continue =>
      Atomic (fun w => let r := section (get w) in (r.1, set r.2 w))
        (fun b => zoom get set (continue b))
  end.

Section run.
Context {S : Type}.

Lemma run_bind {A B} (t : Task S A) (k : A → Task S B) s :
  run (task_bind t k) s = run (k (run t s).1) (run t s).2.
Proof. revert s. induction t as [a|X f c IH]; intros s; [done|]. apply IH. Qed.

Lemma run_for {A} (f : A → Task S unit) xs s :
  (run (task_for f xs) s).2 = foldl (fun s x => (run (f x) s).2) s xs.
Proof. revert s. induction xs as [|x xs IH]; intros s; [done|]. cbn [task_for]. by rewrite run_bind, IH. Qed.

Lemma run_zoom {T A} (get : T → S) (set : S → T → T) (t : Task S A) w :
  (∀ s w, get (set s w) = s) → (∀ s s' w, set s' (set s w) = set s' w) → (∀ w, set (get w) w = w) →
  run (zoom get set t) w = ((run t (get w)).1, set (run t (get w)).2 w).
Proof.
  intros H1 H2 H3. revert w. induction t as [a|X f c IH]; intros w; cbn; [by rewrite H3|].
  by rewrite IH, H1, H2.
Qed.
End run.

(** ** Pools *)

(** The next section of a task; [None] when it has finished. *)
Definition advance {S A} (t : Task S A) (s : S) : option (Task S A * S) :=
  match t with
  | Done _ => None
  | Atomic section continue => Some (continue (section s).1, (section s).2)
  end.

Inductive pool_step {S A} : list (Task S A) * S → list (Task S A) * S → Prop :=
| pool_advance ts s i t t' s' :
    ts !! i = Some t → advance t s = Some (t', s') → pool_step (ts, s) (<[i := t']> ts, s').

Abbreviation pool_runs := (rtc pool_step).

(** ** The logic *)

Section logic.
Context {S T : Type} `{Countable T} (I : S → gset T → Prop).
Implicit Types (O F : gset T) (s : S).

Fixpoint wp {A} (t : Task S A) O (Q : A → gset T → Prop) : Prop :=
  match t with
  | Done a => Q a O
  | Atomic f k =>
      ∀ s F, O ## F → I s (O ∪ F) →
        ∃ O', O' ## F ∧ I (f s).2 (O' ∪ F) ∧ wp (k (f s).1) O' Q
  end.

Lemma wp_weaken {A} (t : Task S A) O (Q Q' : A → gset T → Prop) :
  (∀ a O, Q a O → Q' a O) → wp t O Q → wp t O Q'.
Proof.
  intros HQ. revert O. induction t as [a|X f k IH]; intros O; cbn; [apply HQ|].
  intros Ht s F HF HI. destruct (Ht s F HF HI) as (O' & HF' & HI' & Hk). eauto.
Qed.

Lemma wp_bind {A B} (t : Task S A) (k : A → Task S B) O (Q : B → gset T → Prop) :
  wp t O (fun a O => wp (k a) O Q) → wp (task_bind t k) O Q.
Proof.
  revert O. induction t as [a|X f c IH]; intros O; cbn; [done|].
  intros Ht s F HF HI. destruct (Ht s F HF HI) as (O' & HF' & HI' & Hk). eauto.
Qed.

(** A section that needs no tokens and gives none. *)
Lemma wp_section {A} (R : A → Prop) (f : S → A * S) O (Q : A → gset T → Prop) :
  (∀ s Ω, I s Ω → I (f s).2 Ω) → (∀ s Ω, I s Ω → R (f s).1) → (∀ a, R a → Q a O) →
  wp (section f) O Q.
Proof. intros Hf HR HQ s F HF HI. exists O. split; [done|]. split; [by apply Hf|]. cbn. eauto. Qed.

Lemma wp_observe {A} (R : A → Prop) (f : S → A) O (Q : A → gset T → Prop) :
  (∀ s Ω, I s Ω → R (f s)) → (∀ a, R a → Q a O) → wp (observe f) O Q.
Proof. intros HR HQ. by apply (wp_section R). Qed.

Lemma wp_modify (f : S → S) O (Q : unit → gset T → Prop) :
  (∀ s Ω, I s Ω → I (f s) Ω) → Q tt O → wp (modify f) O Q.
Proof. intros Hf HQ. apply (wp_section (fun _ => True)); [done..|]. by intros []. Qed.

Lemma wp_for {A} (f : A → Task S unit) xs O (Q : unit → gset T → Prop) :
  (∀ x, x ∈ xs → wp (f x) O (fun _ O' => O' = O)) → Q tt O → wp (task_for f xs) O Q.
Proof.
  intros Hf HQ. induction xs as [|x xs IH]; [done|]. cbn [task_for]. apply wp_bind.
  eapply wp_weaken; [|apply Hf, list_elem_of_here]. intros _ ? ->. apply IH. intros y Hy.
  by apply Hf, list_elem_of_further.
Qed.

(** Alone, a task keeps the invariant and ends with its postcondition. *)
Lemma wp_run {A} (t : Task S A) O (Q : A → gset T → Prop) s :
  wp t O Q → I s O → ∃ O', I (run t s).2 O' ∧ Q (run t s).1 O'.
Proof.
  revert O s. induction t as [a|X f k IH]; intros O s; cbn; [by exists O|].
  intros Ht HI. destruct (Ht s ∅) as (O' & _ & HI' & Hk); [set_solver|by rewrite union_empty_r_L|].
  rewrite union_empty_r_L in HI'. eauto.
Qed.

(** Among others: every task keeps its tokens apart from those of the others. *)
Definition pool_ok {A} (Qs : list (A → gset T → Prop)) (pool : list (Task S A) * S) : Prop :=
  ∃ Os, I pool.2 (⋃ Os) ∧
    (∀ i j O O', Os !! i = Some O → Os !! j = Some O' → i ≠ j → O ## O') ∧
    length Os = length pool.1 ∧ length Qs = length pool.1 ∧
    (∀ i t O Q, pool.1 !! i = Some t → Os !! i = Some O → Qs !! i = Some Q → wp t O Q).

Lemma union_list_split (Os : list (gset T)) i O :
  Os !! i = Some O → ⋃ Os = O ∪ ⋃ (delete i Os).
Proof.
  intros Hi. rewrite <- (take_drop_middle Os i O Hi) at 1. rewrite delete_take_drop, !union_list_app_L.
  cbn. set_solver.
Qed.

Lemma union_list_apart (Os : list (gset T)) i (O : gset T) :
  (∀ j O', Os !! j = Some O' → i ≠ j → O ## O') → O ## ⋃ (delete i Os).
Proof.
  intros Hap x Hx (O' & Hin & HxO')%elem_of_union_list. apply list_elem_of_lookup in Hin as [j Hj].
  rewrite list_lookup_delete in Hj. case_decide.
  - exact (Hap j O' Hj ltac:(lia) x Hx HxO').
  - exact (Hap (Datatypes.S j) O' Hj ltac:(lia) x Hx HxO').
Qed.

Lemma union_list_insert (Os : list (gset T)) i O O' :
  Os !! i = Some O → ⋃ (<[i := O']> Os) = O' ∪ ⋃ (delete i Os).
Proof.
  intros Hi. assert (i < length Os) as Hlt by by eapply lookup_lt_Some.
  rewrite (union_list_split _ i O'); [|by apply list_lookup_insert_eq]. f_equal.
  rewrite !delete_take_drop, take_insert_ge, drop_insert_lt by lia. done.
Qed.

Lemma pool_step_ok {A} (Qs : list (A → gset T → Prop)) p p' :
  pool_ok Qs p → pool_step p p' → pool_ok Qs p'.
Proof.
  intros (Os & HI & Hap & Hl & HlQ & Hwp) Hstep. destruct Hstep as [ts s i t t' s' Hi Hadv]. cbn in *.
  assert (i < length ts) as Hlt by by eapply lookup_lt_Some.
  destruct (lookup_lt_is_Some_2 Os i) as [O HO]; [lia|]. destruct (lookup_lt_is_Some_2 Qs i) as [Q HQ]; [lia|].
  destruct t as [a|X f k]; cbn in Hadv; [done|]. injection Hadv as <- <-.
  rewrite (union_list_split _ i O HO) in HI.
  destruct (Hwp i _ O Q Hi HO HQ s (⋃ (delete i Os))) as (O' & HF & HI' & Hk); [|done|].
  { apply union_list_apart. intros j O' Hj Hne. by eapply Hap. }
  exists (<[i := O']> Os). cbn. rewrite (union_list_insert _ i O) by done. split; [done|].
  rewrite !length_insert. split_and!; [|done..|].
  - assert (∀ j P, Os !! j = Some P → i ≠ j → O' ## P) as Hnew.
    { intros j P Hj Hne x Hx HxP. apply (HF x Hx). apply elem_of_union_list. exists P. split; [|done].
      apply list_elem_of_lookup. destruct (decide (j < i)).
      - exists j. by rewrite list_lookup_delete, decide_True.
      - exists (j - 1). rewrite list_lookup_delete, decide_False by lia.
        by replace (Datatypes.S (j - 1)) with j by lia. }
    intros a b P P' Ha Hb Hne. destruct (decide (a = i)) as [->|Hai].
    + rewrite list_lookup_insert_eq in Ha by lia. injection Ha as <-.
      rewrite list_lookup_insert_ne in Hb by done. by eapply Hnew.
    + rewrite list_lookup_insert_ne in Ha by done. destruct (decide (b = i)) as [->|Hbi].
      * rewrite list_lookup_insert_eq in Hb by lia. injection Hb as <-. symmetry. by eapply Hnew.
      * rewrite list_lookup_insert_ne in Hb by done. by eapply (Hap a b).
  - intros j t P Q' Ht HP HQ'. destruct (decide (i = j)) as [<-|Hne].
    + rewrite list_lookup_insert_eq in Ht by done. rewrite list_lookup_insert_eq in HP by lia.
      injection Ht as <-. injection HP as <-. rewrite HQ in HQ'. by injection HQ' as <-.
    + rewrite list_lookup_insert_ne in Ht by done. rewrite list_lookup_insert_ne in HP by done. by eapply Hwp.
Qed.

Lemma pool_runs_ok {A} (Qs : list (A → gset T → Prop)) p p' :
  pool_ok Qs p → pool_runs p p' → pool_ok Qs p'.
Proof. intros Hp Hr. revert Hp. apply (rtc_invariant pool_step (pool_ok Qs) p p'); [|done]. eauto using pool_step_ok. Qed.

Lemma pool_start {A} (Qs : list (A → gset T → Prop)) ts s :
  I s ∅ → Forall2 (fun t Q => wp t ∅ Q) ts Qs → pool_ok Qs (ts, s).
Proof.
  intros HI Hts. exists (replicate (length ts) ∅). cbn. split_and!.
  - assert (⋃ replicate (length ts) (∅ : gset T) = ∅) as ->; [|done].
    induction (length ts) as [|n IH]; cbn; [done|]. rewrite IH. set_solver.
  - intros i j O O' [-> _]%lookup_replicate_1. set_solver.
  - apply length_replicate.
  - symmetry. by eapply Forall2_length.
  - intros i t O Q Ht [-> _]%lookup_replicate_1 HQ. by eapply (Forall2_lookup_lr _ _ _ _ _ _ Hts).
Qed.
End logic.
