(* ===== verification/TaskLedger.v ===== *)
(** * The session task ledger: data and operations

    crates/agendao-types/src/task_ledger.rs: the snapshot types, the operation
    and error types, [apply_op] with its guards, the completion gate,
    [apply_batch] and [start_goal] with their compare-and-swap on the revision,
    and the read projections.  Each enum of the source is an inductive type in
    a module of its own, so that constructors keep their source names. *)

From S2P Require Import Prelude.

(** ** Snapshot types *)

(** Where the snapshot is in the metadata of its session. *)
Definition TASK_LEDGER_METADATA_KEY : string := "task_ledger".

Module Status.
Inductive TaskLedgerStatus := Active | AwaitingUser | Blocked | Interrupted | Completed.
#[export] Instance status_eq_dec : EqDecision TaskLedgerStatus.
Proof. solve_decision. Defined.
End Status.
Export (hints) Status.
Abbreviation TaskLedgerStatus := Status.TaskLedgerStatus.

Module InteractionKind.
Inductive AwaitingInteractionKind := Permission | Question.
#[export] Instance interaction_kind_eq_dec : EqDecision AwaitingInteractionKind.
Proof. solve_decision. Defined.
End InteractionKind.
Export (hints) InteractionKind.
Abbreviation AwaitingInteractionKind := InteractionKind.AwaitingInteractionKind.

Record AwaitingInteractionRef := {
  kind : AwaitingInteractionKind;
  interaction_id : string;
}.
#[export] Instance interaction_ref_eq_dec : EqDecision AwaitingInteractionRef.
Proof. solve_decision. Defined.

Module Actor.
Inductive TaskLedgerActor := User | Model | Evaluator | System.
#[export] Instance actor_eq_dec : EqDecision TaskLedgerActor.
Proof. solve_decision. Defined.
End Actor.
Export (hints) Actor.
Abbreviation TaskLedgerActor := Actor.TaskLedgerActor.

Record CriterionCheck := {
  check_criterion : string;
  check_command : string;
}.
#[export] Instance criterion_check_eq_dec : EqDecision CriterionCheck.
Proof. solve_decision. Defined.

Record TaskGoal := {
  goal_statement : string;
  acceptance_criteria : list string;
  criterion_checks : list CriterionCheck;
  goal_set_by : TaskLedgerActor;
  goal_set_at : Z;
}.
#[export] Instance task_goal_eq_dec : EqDecision TaskGoal.
Proof. solve_decision. Defined.

Record CoreConstraint := {
  core_id : string;
  core_statement : string;
  core_live : bool;
  core_set_by : TaskLedgerActor;
  core_set_at : Z;
}.
#[export] Instance core_constraint_eq_dec : EqDecision CoreConstraint.
Proof. solve_decision. Defined.

Module Verifier.
Inductive VerifierRef :=
| Evaluator (name : string)
| DeterministicCheck (description : string)
| UserConfirmation (actor : string).
#[export] Instance verifier_eq_dec : EqDecision VerifierRef.
Proof. solve_decision. Defined.
End Verifier.
Export (hints) Verifier.
Abbreviation VerifierRef := Verifier.VerifierRef.

(** [VerifierRef::describe] *)
Definition verifier_describe (v : VerifierRef) : string :=
  match v with
  | Verifier.Evaluator name => "evaluator:" +:+ name
  | Verifier.DeterministicCheck description => "check:" +:+ description
  | Verifier.UserConfirmation actor => "user:" +:+ actor
  end.

Record VerificationCoverage := { coverage_scope : string }.
#[export] Instance coverage_eq_dec : EqDecision VerificationCoverage.
Proof. solve_decision. Defined.

Record VerifiedCheckpoint := {
  chk_id : string;
  chk_claim : string;
  chk_verifier : VerifierRef;
  chk_coverage : VerificationCoverage;
  chk_goal_generation : Z;
  chk_evidence_artifact_ids : list string;
  chk_source_stage_id : option string;
  chk_covered_criteria : list string;
  chk_supersedes : option string;
  chk_superseded_by : option string;
  chk_created_at : Z;
}.
#[export] Instance checkpoint_eq_dec : EqDecision VerifiedCheckpoint.
Proof. solve_decision. Defined.

Record OpenQuestion := {
  q_id : string;
  q_question : string;
  q_settled_by : string;
  q_opened_at : Z;
  q_closed_by_checkpoint_id : option string;
}.
#[export] Instance open_question_eq_dec : EqDecision OpenQuestion.
Proof. solve_decision. Defined.

(** [OpenQuestion::is_open] *)
Definition is_open (q : OpenQuestion) : bool :=
  match q_closed_by_checkpoint_id q with None => true | Some _ => false end.

Record NextActionProvenance := {
  prov_actor : TaskLedgerActor;
  prov_pre_interrupt : bool;
  prov_set_at : Z;
}.
#[export] Instance provenance_eq_dec : EqDecision NextActionProvenance.
Proof. solve_decision. Defined.

Record NextAction := {
  next_statement : string;
  next_provenance : NextActionProvenance;
}.
#[export] Instance next_action_eq_dec : EqDecision NextAction.
Proof. solve_decision. Defined.

Record SessionTaskLedger := {
  session_id : string;
  revision : Z;
  goal_generation : Z;
  goal : option TaskGoal;
  core : list CoreConstraint;
  verified : list VerifiedCheckpoint;
  open : list OpenQuestion;
  next : option NextAction;
  status : TaskLedgerStatus;
  awaiting_interactions : list AwaitingInteractionRef;
  blocked_reason : option string;
  uncovered_criteria : list string;
  updated_at : Z;
}.
#[export] Instance ledger_eq_dec : EqDecision SessionTaskLedger.
Proof. solve_decision. Defined.

(** [SessionTaskLedger::empty] *)
Definition ledger_empty (sid : string) : SessionTaskLedger := {|
  session_id := sid; revision := 0; goal_generation := 0; goal := None;
  core := []; verified := []; open := []; next := None; status := Status.Active;
  awaiting_interactions := []; blocked_reason := None; uncovered_criteria := [];
  updated_at := 0 |}.

(** Field assignment: [ledger.f = v]. *)
Definition set_revision (l : SessionTaskLedger) v := {|
  session_id := session_id l; revision := v; goal_generation := goal_generation l;
  goal := goal l; core := core l; verified := verified l; open := open l; next := next l;
  status := status l; awaiting_interactions := awaiting_interactions l;
  blocked_reason := blocked_reason l; uncovered_criteria := uncovered_criteria l;
  updated_at := updated_at l |}.
Definition set_goal_generation (l : SessionTaskLedger) v := {|
  session_id := session_id l; revision := revision l; goal_generation := v;
  goal := goal l; core := core l; verified := verified l; open := open l; next := next l;
  status := status l; awaiting_interactions := awaiting_interactions l;
  blocked_reason := blocked_reason l; uncovered_criteria := uncovered_criteria l;
  updated_at := updated_at l |}.
Definition set_goal (l : SessionTaskLedger) v := {|
  session_id := session_id l; revision := revision l; goal_generation := goal_generation l;
  goal := v; core := core l; verified := verified l; open := open l; next := next l;
  status := status l; awaiting_interactions := awaiting_interactions l;
  blocked_reason := blocked_reason l; uncovered_criteria := uncovered_criteria l;
  updated_at := updated_at l |}.
Definition set_core (l : SessionTaskLedger) v := {|
  session_id := session_id l; revision := revision l; goal_generation := goal_generation l;
  goal := goal l; core := v; verified := verified l; open := open l; next := next l;
  status := status l; awaiting_interactions := awaiting_interactions l;
  blocked_reason := blocked_reason l; uncovered_criteria := uncovered_criteria l;
  updated_at := updated_at l |}.
Definition set_verified (l : SessionTaskLedger) v := {|
  session_id := session_id l; revision := revision l; goal_generation := goal_generation l;
  goal := goal l; core := core l; verified := v; open := open l; next := next l;
  status := status l; awaiting_interactions := awaiting_interactions l;
  blocked_reason := blocked_reason l; uncovered_criteria := uncovered_criteria l;
  updated_at := updated_at l |}.
Definition set_open (l : SessionTaskLedger) v := {|
  session_id := session_id l; revision := revision l; goal_generation := goal_generation l;
  goal := goal l; core := core l; verified := verified l; open := v; next := next l;
  status := status l; awaiting_interactions := awaiting_interactions l;
  blocked_reason := blocked_reason l; uncovered_criteria := uncovered_criteria l;
  updated_at := updated_at l |}.
Definition set_next (l : SessionTaskLedger) v := {|
  session_id := session_id l; revision := revision l; goal_generation := goal_generation l;
  goal := goal l; core := core l; verified := verified l; open := open l; next := v;
  status := status l; awaiting_interactions := awaiting_interactions l;
  blocked_reason := blocked_reason l; uncovered_criteria := uncovered_criteria l;
  updated_at := updated_at l |}.
Definition set_status (l : SessionTaskLedger) v := {|
  session_id := session_id l; revision := revision l; goal_generation := goal_generation l;
  goal := goal l; core := core l; verified := verified l; open := open l; next := next l;
  status := v; awaiting_interactions := awaiting_interactions l;
  blocked_reason := blocked_reason l; uncovered_criteria := uncovered_criteria l;
  updated_at := updated_at l |}.
Definition set_awaiting (l : SessionTaskLedger) v := {|
  session_id := session_id l; revision := revision l; goal_generation := goal_generation l;
  goal := goal l; core := core l; verified := verified l; open := open l; next := next l;
  status := status l; awaiting_interactions := v;
  blocked_reason := blocked_reason l; uncovered_criteria := uncovered_criteria l;
  updated_at := updated_at l |}.
Definition set_blocked_reason (l : SessionTaskLedger) v := {|
  session_id := session_id l; revision := revision l; goal_generation := goal_generation l;
  goal := goal l; core := core l; verified := verified l; open := open l; next := next l;
  status := status l; awaiting_interactions := awaiting_interactions l;
  blocked_reason := v; uncovered_criteria := uncovered_criteria l;
  updated_at := updated_at l |}.
Definition set_uncovered (l : SessionTaskLedger) v := {|
  session_id := session_id l; revision := revision l; goal_generation := goal_generation l;
  goal := goal l; core := core l; verified := verified l; open := open l; next := next l;
  status := status l; awaiting_interactions := awaiting_interactions l;
  blocked_reason := blocked_reason l; uncovered_criteria := v;
  updated_at := updated_at l |}.
Definition set_updated_at (l : SessionTaskLedger) v := {|
  session_id := session_id l; revision := revision l; goal_generation := goal_generation l;
  goal := goal l; core := core l; verified := verified l; open := open l; next := next l;
  status := status l; awaiting_interactions := awaiting_interactions l;
  blocked_reason := blocked_reason l; uncovered_criteria := uncovered_criteria l;
  updated_at := v |}.
Definition set_session_id (l : SessionTaskLedger) v := {|
  session_id := v; revision := revision l; goal_generation := goal_generation l;
  goal := goal l; core := core l; verified := verified l; open := open l; next := next l;
  status := status l; awaiting_interactions := awaiting_interactions l;
  blocked_reason := blocked_reason l; uncovered_criteria := uncovered_criteria l;
  updated_at := updated_at l |}.

(** [SessionTaskLedger::live_core] *)
Definition live_core (l : SessionTaskLedger) : list CoreConstraint :=
  filter (λ c, Is_true (core_live c)) (core l).

(** [SessionTaskLedger::open_questions] *)
Definition open_questions (l : SessionTaskLedger) : list OpenQuestion :=
  filter (λ q, Is_true (is_open q)) (open l).

(** ** Operations, causes and errors *)

Module Cause.
Inductive TaskLedgerCause :=
| Created | GoalUpdated | CoreUpdated | CheckpointAdded | OpenAdded | OpenClosed
| NextUpdated | StatusChanged | Recovery.
#[export] Instance cause_eq_dec : EqDecision TaskLedgerCause.
Proof. solve_decision. Defined.
End Cause.
Export (hints) Cause.
Abbreviation TaskLedgerCause := Cause.TaskLedgerCause.

Module Op.
Inductive TaskLedgerOp :=
| Create (goal : TaskGoal) (next_statement : string)
| SetGoal (goal : TaskGoal)
| AddCore (statement : string) (live : bool) (actor : option TaskLedgerActor)
| SwapCoreLive (slot : Z) (statement : string) (actor : option TaskLedgerActor)
| AddCheckpoint (claim : string) (verifier : VerifierRef) (coverage : VerificationCoverage)
    (covered_criteria evidence_artifact_ids : list string)
    (source_stage_id supersedes : option string)
| OpenQuestion (question settled_by : string)
| CloseOpenWithCheckpoint (open_id claim : string) (verifier : VerifierRef)
    (coverage : VerificationCoverage) (covered_criteria evidence_artifact_ids : list string)
    (source_stage_id : option string)
| ResolveInteraction (kind : AwaitingInteractionKind) (interaction_id : string)
| SetNext (statement : string) (actor : option TaskLedgerActor)
| SetStatus (status : TaskLedgerStatus) (awaiting : option AwaitingInteractionRef)
    (blocked_reason : option string)
| Interrupt
| Complete (uncovered : list string).
End Op.
Abbreviation TaskLedgerOp := Op.TaskLedgerOp.

Module LErr.
Inductive TaskLedgerError :=
| RevisionConflict (expected actual : Z)
| NotCreated
| AlreadyCreated
| EmptyGoalStatement
| EmptyStatement
| EmptyClaim
| EmptyCoverageScope
| EmptyVerifierDetail
| EmptyQuestion
| EmptySettledBy
| EmptyBlockedReason
| AwaitingRequiresInteraction
| StatusRequiresNext (status : TaskLedgerStatus)
| UnknownOpenQuestion (open_id : string)
| OpenQuestionAlreadyClosed (open_id : string)
| UnknownCheckpoint (checkpoint_id : string)
| LiveSetFull
| LiveSlotOutOfBounds (slot : Z)
| DuplicateSupersede (checkpoint_id : string)
| CompleteWithOpenQuestions (count : nat)
| CompleteWithoutEvidence
| CriterionNotCovered (criterion : string)
| UnknownAcceptanceCriterion (criterion : string)
| StatusConflictsWithAwaitingInteractions (status : TaskLedgerStatus) (count : nat)
| CompleteWithAwaitingInteractions (count : nat)
| CompletedWithNext
| UnknownAwaitingInteraction (interaction_id : string).
#[export] Instance ledger_error_eq_dec : EqDecision TaskLedgerError.
Proof. solve_decision. Defined.
End LErr.
Export (hints) LErr.
Abbreviation TaskLedgerError := LErr.TaskLedgerError.
Abbreviation ledger_result := (result TaskLedgerError).

(** ** Validation helpers *)

Definition non_empty (value : string) : bool := negb (bool_decide (trim value = "")).

(** [next_sequential_id]: the prefix and the largest number in use plus one,
    a [u32], in at least two digits. *)
Definition id_numbers (existing : list string) (prefix : string) : list N :=
  omap parse_u32 (omap (strip_prefix prefix) existing).

Definition next_number (existing : list string) (prefix : string) : N :=
  Z.to_N (u32_add (Z.of_N (foldr N.max 0%N (id_numbers existing prefix))) 1).

Definition next_sequential_id (existing : list string) (prefix : string) : string :=
  prefix +:+ dec_string_02 (next_number existing prefix).

Definition validate_goal (g : TaskGoal) : ledger_result unit :=
  reject? negb (non_empty (goal_statement g)) with LErr.EmptyGoalStatement in
  for_each (λ check,
    reject? negb (non_empty (check_command check)) with LErr.EmptyStatement in
    reject? negb (mem (check_criterion check) (acceptance_criteria g))
      with LErr.UnknownAcceptanceCriterion (check_criterion check) in
    Ok tt) (criterion_checks g).

Definition validated_verifier (v : VerifierRef) : ledger_result unit :=
  let detail := match v with
                | Verifier.Evaluator name => name
                | Verifier.DeterministicCheck description => description
                | Verifier.UserConfirmation actor => actor
                end in
  if non_empty detail then Ok tt else Err LErr.EmptyVerifierDetail.

Definition validated_checkpoint_fields (claim : string) (v : VerifierRef)
    (coverage : VerificationCoverage) : ledger_result unit :=
  reject? negb (non_empty claim) with LErr.EmptyClaim in
  let? _ := validated_verifier v in
  reject? negb (non_empty (coverage_scope coverage)) with LErr.EmptyCoverageScope in
  Ok tt.

Definition has_next (l : SessionTaskLedger) : bool :=
  match next l with Some n => non_empty (next_statement n) | None => false end.

Definition require_next_for_status (l : SessionTaskLedger) (s : TaskLedgerStatus)
    : ledger_result unit :=
  match s with
  | Status.Active | Status.Blocked =>
      if has_next l then Ok tt else Err (LErr.StatusRequiresNext s)
  | _ => Ok tt
  end.

(** The current evidence: this goal generation, not superseded. *)
Definition is_current (l : SessionTaskLedger) (c : VerifiedCheckpoint) : bool :=
  bool_decide (chk_goal_generation c = goal_generation l) &&
  bool_decide (chk_superseded_by c = None).

Definition current_checkpoints (l : SessionTaskLedger) : list VerifiedCheckpoint :=
  filter (λ c, Is_true (is_current l c)) (verified l).

Definition covered_by_current (l : SessionTaskLedger) : list string :=
  current_checkpoints l ≫= chk_covered_criteria.

Definition missing_acceptance_criteria (l : SessionTaskLedger) (uncovered : list string)
    : list string :=
  match goal l with
  | None => []
  | Some g =>
      filter (λ criterion, Is_true (negb (mem criterion (covered_by_current l)) &&
                                    negb (mem criterion uncovered)))
        (acceptance_criteria g)
  end.

Definition validate_criteria_references (criteria references : list string) : ledger_result unit :=
  for_each (λ reference,
    reject? negb (mem reference criteria) with LErr.UnknownAcceptanceCriterion reference in
    Ok tt) references.

Definition goal_criteria (l : SessionTaskLedger) : list string :=
  match goal l with Some g => acceptance_criteria g | None => [] end.

(** The completion gate. *)
Definition validate_completion (l : SessionTaskLedger) (uncovered : list string)
    : ledger_result unit :=
  let open_count := length (open_questions l) in
  reject? bool_decide (0 < open_count) with LErr.CompleteWithOpenQuestions open_count in
  reject? bool_decide (awaiting_interactions l ≠ [])
    with LErr.CompleteWithAwaitingInteractions (length (awaiting_interactions l)) in
  let criteria := goal_criteria l in
  let? _ := validate_criteria_references criteria uncovered in
  let checkpoints := current_checkpoints l in
  let? _ := for_each (λ c, validate_criteria_references criteria (chk_covered_criteria c))
              checkpoints in
  match criteria with
  | [] => match checkpoints with
          | [] => Err LErr.CompleteWithoutEvidence
          | _ :: _ => Ok tt
          end
  | _ :: _ =>
      let covered := filter (λ c, Is_true (is_current l c)) (verified l) ≫= chk_covered_criteria in
      for_each (λ criterion,
        let declared := mem criterion uncovered in
        reject? negb (mem criterion covered) && negb declared
          with LErr.CriterionNotCovered criterion in
        Ok tt) criteria
  end.

Definition completion_ready (l : SessionTaskLedger) : bool := is_ok (validate_completion l []).

Definition validate_snapshot (l : SessionTaskLedger) : ledger_result unit :=
  let? _ := require_next_for_status l (status l) in
  match status l with
  | Status.AwaitingUser =>
      match awaiting_interactions l with
      | [] => Err LErr.AwaitingRequiresInteraction
      | _ :: _ => Ok tt
      end
  | Status.Completed =>
      match next l with
      | Some _ => Err LErr.CompletedWithNext
      | None => validate_completion l (uncovered_criteria l)
      end
  | s =>
      match awaiting_interactions l with
      | [] => Ok tt
      | _ :: _ => Err (LErr.StatusConflictsWithAwaitingInteractions s
                         (length (awaiting_interactions l)))
      end
  end.

Definition ensure_created (l : SessionTaskLedger) : ledger_result unit :=
  match goal l with Some _ => Ok tt | None => Err LErr.NotCreated end.

Definition next_from_statement (statement : string) (actor : TaskLedgerActor) (now_ms : Z)
    : NextAction := {|
  next_statement := statement;
  next_provenance := {| prov_actor := actor; prov_pre_interrupt := false; prov_set_at := now_ms |}
|}.

(** ** Apply *)

Definition set_pre_interrupt (n : NextAction) : NextAction := {|
  next_statement := next_statement n;
  next_provenance := {|
    prov_actor := prov_actor (next_provenance n);
    prov_pre_interrupt := true;
    prov_set_at := prov_set_at (next_provenance n) |} |}.

Definition close_question (checkpoint_id : string) (q : OpenQuestion) : OpenQuestion := {|
  q_id := q_id q; q_question := q_question q; q_settled_by := q_settled_by q;
  q_opened_at := q_opened_at q; q_closed_by_checkpoint_id := Some checkpoint_id |}.

Definition mark_superseded (by_id : string) (c : VerifiedCheckpoint) : VerifiedCheckpoint := {|
  chk_id := chk_id c; chk_claim := chk_claim c; chk_verifier := chk_verifier c;
  chk_coverage := chk_coverage c; chk_goal_generation := chk_goal_generation c;
  chk_evidence_artifact_ids := chk_evidence_artifact_ids c;
  chk_source_stage_id := chk_source_stage_id c;
  chk_covered_criteria := chk_covered_criteria c;
  chk_supersedes := chk_supersedes c; chk_superseded_by := Some by_id;
  chk_created_at := chk_created_at c |}.

Definition park (c : CoreConstraint) : CoreConstraint := {|
  core_id := core_id c; core_statement := core_statement c; core_live := false;
  core_set_by := core_set_by c; core_set_at := core_set_at c |}.

Definition actor_or (a : option TaskLedgerActor) (d : TaskLedgerActor) : TaskLedgerActor :=
  match a with Some a => a | None => d end.

(** [TaskLedgerOp::AddCore] *)
Definition apply_add_core (l : SessionTaskLedger) statement live actor now_ms
    : ledger_result SessionTaskLedger :=
  let? _ := ensure_created l in
  reject? negb (non_empty statement) with LErr.EmptyStatement in
  reject? live && bool_decide (2 ≤ length (live_core l)) with LErr.LiveSetFull in
  let id := next_sequential_id (core_id <$> core l) "core-" in
  Ok (set_core l (core l ++ [{| core_id := id; core_statement := statement; core_live := live;
                                core_set_by := actor_or actor Actor.System;
                                core_set_at := now_ms |}])).

(** The positions of the live entries, in order. *)
Fixpoint live_positions_from (i : nat) (cs : list CoreConstraint) : list nat :=
  match cs with
  | [] => []
  | c :: cs' => if core_live c then i :: live_positions_from (S i) cs'
                else live_positions_from (S i) cs'
  end.

(** [TaskLedgerOp::SwapCoreLive]: the core list after the swap; [slot] is 1 or 2. *)
Definition swap_core (cs : list CoreConstraint) (slot : Z) (statement : string)
    (by_actor : TaskLedgerActor) (now_ms : Z) : list CoreConstraint :=
  let displaced_position := live_positions_from 0 cs !! Z.to_nat (slot - 1) in
  let parked := match displaced_position with Some i => alter park i cs | None => cs end in
  let existing_position :=
    position (λ c, bool_decide (core_statement c = statement)) parked in
  let insert_position := default (length parked) displaced_position in
  let fresh := {| core_id := next_sequential_id (core_id <$> parked) "core-";
                  core_statement := statement; core_live := true;
                  core_set_by := by_actor; core_set_at := now_ms |} in
  let '(entry, rest) :=
    match existing_position with
    | Some i =>
        match parked !! i with
        | Some c => ({| core_id := core_id c; core_statement := core_statement c;
                        core_live := true; core_set_by := by_actor; core_set_at := now_ms |},
                     remove_at i parked)
        | None => (fresh, parked)
        end
    | None => (fresh, parked)
    end in
  insert_at (Nat.min insert_position (length rest)) entry rest.

Definition apply_swap_core (l : SessionTaskLedger) slot statement actor now_ms
    : ledger_result SessionTaskLedger :=
  let? _ := ensure_created l in
  reject? negb (non_empty statement) with LErr.EmptyStatement in
  reject? negb (bool_decide (slot = 1%Z)) && negb (bool_decide (slot = 2%Z))
    with LErr.LiveSlotOutOfBounds slot in
  Ok (set_core l (swap_core (core l) slot statement (actor_or actor Actor.System) now_ms)).

Definition new_checkpoint (l : SessionTaskLedger) (id claim : string) v coverage
    covered evidence stage supersedes now_ms : VerifiedCheckpoint := {|
  chk_id := id; chk_claim := claim; chk_verifier := v; chk_coverage := coverage;
  chk_goal_generation := goal_generation l; chk_evidence_artifact_ids := evidence;
  chk_source_stage_id := stage; chk_covered_criteria := covered;
  chk_supersedes := supersedes; chk_superseded_by := None; chk_created_at := now_ms |}.

Definition id_is (id : string) (c : VerifiedCheckpoint) : bool := bool_decide (chk_id c = id).
Definition q_id_is (id : string) (q : OpenQuestion) : bool := bool_decide (q_id q = id).

(** [TaskLedgerOp::AddCheckpoint] *)
Definition apply_add_checkpoint (l : SessionTaskLedger) claim v coverage covered evidence stage
    supersedes now_ms : ledger_result SessionTaskLedger :=
  let? _ := ensure_created l in
  let? _ := validated_checkpoint_fields claim v coverage in
  let? _ := validate_criteria_references (goal_criteria l) covered in
  let id := next_sequential_id (chk_id <$> verified l) "chk-" in
  let? history :=
    match supersedes with
    | None => Ok (verified l)
    | Some superseded_id =>
        let? target := ok_or (find_first (id_is superseded_id) (verified l))
                         (LErr.UnknownCheckpoint superseded_id) in
        reject? bool_decide (chk_superseded_by target ≠ None)
          with LErr.DuplicateSupersede superseded_id in
        Ok (update_first (id_is superseded_id) (mark_superseded id) (verified l))
    end in
  Ok (set_verified l
        (history ++ [new_checkpoint l id claim v coverage covered evidence stage supersedes now_ms])).

(** [TaskLedgerOp::OpenQuestion] *)
Definition apply_open_question (l : SessionTaskLedger) question settled_by now_ms
    : ledger_result SessionTaskLedger :=
  let? _ := ensure_created l in
  reject? negb (non_empty question) with LErr.EmptyQuestion in
  reject? negb (non_empty settled_by) with LErr.EmptySettledBy in
  let id := next_sequential_id (q_id <$> open l) "open-" in
  Ok (set_open l (open l ++ [{| q_id := id; q_question := question; q_settled_by := settled_by;
                                q_opened_at := now_ms; q_closed_by_checkpoint_id := None |}])).

(** [TaskLedgerOp::CloseOpenWithCheckpoint] *)
Definition apply_close_open (l : SessionTaskLedger) open_id claim v coverage covered evidence stage
    now_ms : ledger_result SessionTaskLedger :=
  let? _ := ensure_created l in
  let? _ := validated_checkpoint_fields claim v coverage in
  let? _ := validate_criteria_references (goal_criteria l) covered in
  let? target := ok_or (find_first (q_id_is open_id) (open l)) (LErr.UnknownOpenQuestion open_id) in
  reject? negb (is_open target) with LErr.OpenQuestionAlreadyClosed open_id in
  let checkpoint_id := next_sequential_id (chk_id <$> verified l) "chk-" in
  let l := set_verified l (verified l ++
             [new_checkpoint l checkpoint_id claim v coverage covered evidence stage None now_ms]) in
  Ok (set_open l (update_first (q_id_is open_id) (close_question checkpoint_id) (open l))).

(** [TaskLedgerOp::SetStatus].  A conditional assignment of the source is the
    assignment of a conditional here. *)
Definition apply_set_status (l : SessionTaskLedger) (s : TaskLedgerStatus)
    (awaiting : option AwaitingInteractionRef) (reason : option string)
    : ledger_result SessionTaskLedger :=
  let? _ := ensure_created l in
  let? l :=
    match s with
    | Status.AwaitingUser =>
        let? awaiting := ok_or awaiting LErr.AwaitingRequiresInteraction in
        reject? negb (non_empty (interaction_id awaiting))
          with LErr.AwaitingRequiresInteraction in
        let l := set_awaiting l (if mem awaiting (awaiting_interactions l)
                                 then awaiting_interactions l
                                 else awaiting_interactions l ++ [awaiting]) in
        let? _ := require_next_for_status l Status.Active in
        Ok l
    | Status.Blocked =>
        let? r := ok_or reason LErr.EmptyBlockedReason in
        reject? negb (non_empty r) with LErr.EmptyBlockedReason in
        Ok (set_blocked_reason l reason)
    | Status.Active =>
        reject? bool_decide (awaiting_interactions l ≠ [])
          with LErr.StatusConflictsWithAwaitingInteractions s (length (awaiting_interactions l)) in
        Ok (set_blocked_reason l None)
    | Status.Interrupted =>
        Ok (set_awaiting (set_next l (set_pre_interrupt <$> next l)) [])
    | Status.Completed =>
        let? _ := validate_completion l (uncovered_criteria l) in
        Ok (set_next (set_blocked_reason l None) None)
    end in
  let l := set_uncovered l
             (if bool_decide (status l = Status.Completed) &&
                 negb (bool_decide (s = Status.Completed))
              then [] else uncovered_criteria l) in
  let? _ := require_next_for_status l s in
  Ok (set_status l s).

Definition interaction_is (k : AwaitingInteractionKind) (id : string) (r : AwaitingInteractionRef)
    : bool := bool_decide (kind r = k) && bool_decide (interaction_id r = id).

(** [TaskLedgerOp::ResolveInteraction] *)
Definition apply_resolve_interaction (l : SessionTaskLedger) (k : AwaitingInteractionKind) id
    : ledger_result SessionTaskLedger :=
  let? _ := ensure_created l in
  let before := length (awaiting_interactions l) in
  let l := set_awaiting l
             (filter (λ r, Is_true (negb (interaction_is k id r))) (awaiting_interactions l)) in
  reject? bool_decide (length (awaiting_interactions l) = before)
    with LErr.UnknownAwaitingInteraction id in
  Ok (set_status l (if bool_decide (awaiting_interactions l = []) &&
                       bool_decide (status l = Status.AwaitingUser)
                    then Status.Active else status l)).

Definition apply_create (l : SessionTaskLedger) (g : TaskGoal) (statement : string) now_ms
    : ledger_result SessionTaskLedger :=
  reject? negb (bool_decide (revision l = 0%Z)) || bool_decide (is_Some (goal l))
    with LErr.AlreadyCreated in
  let? _ := validate_goal g in
  reject? negb (non_empty statement) with LErr.EmptyStatement in
  let l := set_goal_generation (set_goal l (Some g)) 1 in
  let l := set_next l (Some (next_from_statement statement Actor.User now_ms)) in
  Ok (set_status l Status.Active).

Definition apply_set_goal (l : SessionTaskLedger) (g : TaskGoal) : ledger_result SessionTaskLedger :=
  let? _ := ensure_created l in
  let? _ := validate_goal g in
  let l := set_goal l (Some g) in
  let l := set_goal_generation l (Z.max (u64_saturating_add (goal_generation l) 1) 1) in
  Ok (set_uncovered l []).

Definition apply_op (l : SessionTaskLedger) (op : TaskLedgerOp) (now_ms : Z)
    : ledger_result SessionTaskLedger :=
  match op with
  | Op.Create g statement => apply_create l g statement now_ms
  | Op.SetGoal g => apply_set_goal l g
  | Op.AddCore statement live actor => apply_add_core l statement live actor now_ms
  | Op.SwapCoreLive slot statement actor => apply_swap_core l slot statement actor now_ms
  | Op.AddCheckpoint claim v coverage covered evidence stage supersedes =>
      apply_add_checkpoint l claim v coverage covered evidence stage supersedes now_ms
  | Op.OpenQuestion question settled_by => apply_open_question l question settled_by now_ms
  | Op.CloseOpenWithCheckpoint open_id claim v coverage covered evidence stage =>
      apply_close_open l open_id claim v coverage covered evidence stage now_ms
  | Op.SetNext statement actor =>
      let? _ := ensure_created l in
      reject? negb (non_empty statement) with LErr.EmptyStatement in
      Ok (set_next l (Some (next_from_statement statement (actor_or actor Actor.User) now_ms)))
  | Op.SetStatus s awaiting reason => apply_set_status l s awaiting reason
  | Op.ResolveInteraction k id => apply_resolve_interaction l k id
  | Op.Interrupt =>
      let? _ := ensure_created l in
      let l := set_next l (set_pre_interrupt <$> next l) in
      Ok (set_awaiting (set_status l Status.Interrupted) [])
  | Op.Complete uncovered =>
      let? _ := ensure_created l in
      let? _ := validate_completion l uncovered in
      let l := set_status (set_uncovered l uncovered) Status.Completed in
      Ok (set_next (set_blocked_reason l None) None)
  end.

(** [staged.revision = self.revision + 1; staged.updated_at = now_ms] *)
Definition stamp (staged : SessionTaskLedger) (rev now_ms : Z) : SessionTaskLedger :=
  set_updated_at (set_revision staged (u64_add rev 1)) now_ms.

Definition apply_ops (l : SessionTaskLedger) (ops : list TaskLedgerOp) (now_ms : Z)
    : ledger_result SessionTaskLedger :=
  fold_result (λ l op, apply_op l op now_ms) l ops.

(** [SessionTaskLedger::apply_batch]: the returned result and [self] after the call. *)
Definition apply_batch (self : SessionTaskLedger) (expected_revision : Z)
    (ops : list TaskLedgerOp) (now_ms : Z) : ledger_result Z * SessionTaskLedger :=
  if bool_decide (revision self = expected_revision) then
    let outcome :=
      let? staged := apply_ops self ops now_ms in
      let? _ := validate_snapshot staged in
      Ok (stamp staged (revision self) now_ms) in
    match outcome with
    | Ok staged => (Ok (revision staged), staged)
    | Err e => (Err e, self)
    end
  else (Err (LErr.RevisionConflict expected_revision (revision self)), self).

(** [SessionTaskLedger::apply] *)
Definition apply (self : SessionTaskLedger) (expected_revision : Z) (op : TaskLedgerOp)
    (now_ms : Z) : ledger_result Z * SessionTaskLedger :=
  apply_batch self expected_revision [op] now_ms.

(** [SessionTaskLedger::start_goal] *)
Definition start_goal (self : SessionTaskLedger) (expected_revision : Z) (g : TaskGoal)
    (statement : string) (now_ms : Z) : ledger_result Z * SessionTaskLedger :=
  if bool_decide (revision self = expected_revision) then
    let outcome :=
      let? _ := validate_goal g in
      reject? negb (non_empty statement) with LErr.EmptyStatement in
      let generation :=
        match goal self with
        | Some _ => Z.max (u64_saturating_add (goal_generation self) 1) 1
        | None => 1%Z
        end in
      let l := set_goal (set_goal_generation self generation) (Some g) in
      let l := set_awaiting (set_open l []) [] in
      let l := set_uncovered (set_blocked_reason l None) [] in
      let l := set_next l (Some (next_from_statement statement Actor.User now_ms)) in
      let staged := set_status l Status.Active in
      let? _ := validate_snapshot staged in
      Ok (stamp staged (revision self) now_ms) in
    match outcome with
    | Ok staged => (Ok (revision staged), staged)
    | Err e => (Err e, self)
    end
  else (Err (LErr.RevisionConflict expected_revision (revision self)), self).

(** ** Read projection *)

Record TaskLedgerCheckpointProjection := {
  proj_checkpoint : VerifiedCheckpoint;
  proj_verifier_label : string;
}.

Record TaskLedgerProjection := {
  proj_live_core : list CoreConstraint;
  proj_open_questions : list OpenQuestion;
  proj_current_checkpoints : list TaskLedgerCheckpointProjection;
  proj_missing_acceptance_criteria : list string;
}.

(** [TaskLedgerProjection::from] *)
Definition ledger_projection (l : SessionTaskLedger) : TaskLedgerProjection := {|
  proj_live_core := live_core l;
  proj_open_questions := open_questions l;
  proj_current_checkpoints :=
    (λ c, {| proj_checkpoint := c; proj_verifier_label := verifier_describe (chk_verifier c) |})
      <$> current_checkpoints l;
  proj_missing_acceptance_criteria := missing_acceptance_criteria l (uncovered_criteria l);
|}.

(** ** Error messages *)

(** [{status:?}] *)
Definition status_debug (s : TaskLedgerStatus) : string :=
  match s with
  | Status.Active => "Active"
  | Status.AwaitingUser => "AwaitingUser"
  | Status.Blocked => "Blocked"
  | Status.Interrupted => "Interrupted"
  | Status.Completed => "Completed"
  end.

Definition dec_Z (z : Z) : string := dec_string (Z.to_N z).
Definition dec_nat (n : nat) : string := dec_string (N.of_nat n).

(** [Display for TaskLedgerError] *)
Definition ledger_error_display (e : TaskLedgerError) : string :=
  match e with
  | LErr.RevisionConflict expected actual =>
      "revision conflict: expected " +:+ dec_Z expected +:+ ", ledger is at " +:+ dec_Z actual
  | LErr.NotCreated => "ledger not created for this session"
  | LErr.AlreadyCreated => "ledger already created for this session"
  | LErr.EmptyGoalStatement => "goal statement must not be empty"
  | LErr.EmptyStatement => "statement must not be empty"
  | LErr.EmptyClaim => "checkpoint claim must not be empty"
  | LErr.EmptyCoverageScope => "checkpoint coverage scope must not be empty"
  | LErr.EmptyVerifierDetail => "verifier detail must not be empty"
  | LErr.EmptyQuestion => "open question must not be empty"
  | LErr.EmptySettledBy => "open question requires a settling condition"
  | LErr.EmptyBlockedReason => "blocked status requires a reason"
  | LErr.AwaitingRequiresInteraction =>
      "awaiting_user status requires an interaction kind and id"
  | LErr.StatusRequiresNext s =>
      "status " +:+ status_debug s +:+ " requires a non-empty next action"
  | LErr.UnknownOpenQuestion id => "unknown open question " +:+ id
  | LErr.OpenQuestionAlreadyClosed id => "open question " +:+ id +:+ " is already closed"
  | LErr.UnknownCheckpoint id => "unknown checkpoint " +:+ id
  | LErr.LiveSetFull => "core live set already holds two entries"
  | LErr.LiveSlotOutOfBounds slot => "live core slot must be 1 or 2, got " +:+ dec_Z slot
  | LErr.DuplicateSupersede id => "checkpoint " +:+ id +:+ " is already superseded"
  | LErr.CompleteWithOpenQuestions n =>
      "cannot complete with " +:+ dec_nat n +:+
      " open question(s); close them with checkpoints or keep the ledger active"
  | LErr.CompleteWithoutEvidence =>
      "cannot complete a goal with acceptance criteria and no verified checkpoints; pass `uncovered` explicitly instead"
  | LErr.CriterionNotCovered criterion =>
      "acceptance criterion not covered by any checkpoint and not declared uncovered: "
      +:+ criterion
  | LErr.UnknownAcceptanceCriterion criterion =>
      "unknown acceptance criterion: " +:+ criterion
  | LErr.StatusConflictsWithAwaitingInteractions s n =>
      "status " +:+ status_debug s +:+ " conflicts with " +:+ dec_nat n +:+
      " pending interaction(s); resolve them or interrupt the run"
  | LErr.CompleteWithAwaitingInteractions n =>
      "cannot complete with " +:+ dec_nat n +:+ " pending interaction(s)"
  | LErr.CompletedWithNext => "completed status cannot retain a next action"
  | LErr.UnknownAwaitingInteraction id => "no awaited interaction with id " +:+ id
  end.
