(* ===== verification/TaskLedgerIds.v ===== *)
(** * Sequential ids and the core live set

    The ids [next_sequential_id] hands out are fresh and consecutive, and the
    swap of a live core entry keeps the id set and the live bound. *)

From S2P Require Import Prelude TaskLedger.

(** The ids a counter that started at 1 has handed out after [n] calls. *)
Definition seq_id (prefix : string) (i : nat) : string := prefix +:+ dec_string_02 (N.of_nat i).
Definition seq_ids (prefix : string) (n : nat) : list string := seq_id prefix <$> seq 1 n.

(** The number of live entries of a core list. *)
Definition live_count (cs : list CoreConstraint) : nat :=
  length (filter (λ c, Is_true (core_live c)) cs).

(** The largest index an id counter can reach without wrapping its [u32]. *)
Definition max_id_count : N := 2 ^ 32 - 2.

(** ** Freshness *)

Section ids.
Context (prefix : string).

Lemma id_numbers_app l k : id_numbers (l ++ k) prefix = id_numbers l prefix ++ id_numbers k prefix.
Proof. unfold id_numbers. by rewrite !omap_app. Qed.

Lemma id_number_seq_id i :
  (N.of_nat i < 2 ^ 32)%N → id_numbers [seq_id prefix i] prefix = [N.of_nat i].
Proof.
  intros Hi. unfold id_numbers, seq_id. simpl. rewrite strip_prefix_app. simpl.
  by rewrite parse_u32_dec_string_02.
Qed.

Lemma id_numbers_bounded l n : n ∈ id_numbers l prefix → (n < 2 ^ 32)%N.
Proof.
  unfold id_numbers. intros (t&_&Ht)%list_elem_of_omap. unfold parse_u32 in Ht.
  repeat case_match; simplify_eq; by apply N.ltb_lt.
Qed.

Lemma foldr_max_ge (ns : list N) n : n ∈ ns → (n ≤ foldr N.max 0 ns)%N.
Proof. induction 1; simpl; lia. Qed.

Lemma foldr_max_lt (ns : list N) b : (0 < b)%N → Forall (λ n, n < b)%N ns → (foldr N.max 0 ns < b)%N.
Proof. intros Hb. induction 1; simpl; lia. Qed.

Lemma next_number_spec existing :
  (foldr N.max 0 (id_numbers existing prefix) < 2 ^ 32 - 1)%N →
  next_number existing prefix = (foldr N.max 0 (id_numbers existing prefix) + 1)%N.
Proof. intros H. unfold next_number, u32_add. rewrite Z.mod_small; lia. Qed.

Lemma next_id_fresh existing :
  (foldr N.max 0 (id_numbers existing prefix) < 2 ^ 32 - 1)%N →
  next_sequential_id existing prefix ∉ existing.
Proof.
  intros Hlt Hin. unfold next_sequential_id in Hin. rewrite next_number_spec in Hin by done.
  set (m := foldr N.max 0%N (id_numbers existing prefix)) in *.
  assert ((m + 1)%N ∈ id_numbers existing prefix) as Hm.
  { unfold id_numbers. apply list_elem_of_omap.
    eexists. split; [|apply parse_u32_dec_string_02; lia].
    apply list_elem_of_omap. eexists. split; [exact Hin|]. apply strip_prefix_app. }
  apply foldr_max_ge in Hm. lia.
Qed.

Lemma id_numbers_seq_ids n :
  (N.of_nat n < 2 ^ 32)%N → id_numbers (seq_ids prefix n) prefix = N.of_nat <$> seq 1 n.
Proof.
  unfold seq_ids. induction n as [|n IH]; intros Hn; [done|].
  rewrite !seq_S, !fmap_app, id_numbers_app, IH by lia. f_equal.
  apply id_number_seq_id. lia.
Qed.

Lemma foldr_max_app ns ms :
  foldr N.max 0%N (ns ++ ms) = N.max (foldr N.max 0%N ns) (foldr N.max 0%N ms).
Proof. induction ns as [|n ns IH]; simpl; [by rewrite N.max_0_l|]. rewrite IH. lia. Qed.

Lemma foldr_max_seq n : foldr N.max 0%N (N.of_nat <$> seq 1 n) = N.of_nat n.
Proof.
  induction n as [|n IH]; [done|].
  rewrite seq_S, fmap_app, foldr_max_app, IH. simpl. lia.
Qed.

Lemma foldr_max_perm ns ms : ns ≡ₚ ms → foldr N.max 0%N ns = foldr N.max 0%N ms.
Proof. induction 1; simpl; lia. Qed.

Lemma next_id_seq ids n :
  ids ≡ₚ seq_ids prefix n → (N.of_nat n ≤ max_id_count)%N →
  next_sequential_id ids prefix = seq_id prefix (S n).
Proof.
  unfold max_id_count. intros Hids Hn. unfold next_sequential_id, seq_id.
  assert (foldr N.max 0%N (id_numbers ids prefix) = N.of_nat n) as Hmax.
  { rewrite <- foldr_max_seq, <- id_numbers_seq_ids by lia.
    apply foldr_max_perm. unfold id_numbers. by rewrite Hids. }
  rewrite next_number_spec; rewrite Hmax; [|lia]. do 2 f_equal. lia.
Qed.

Lemma seq_ids_S n : seq_ids prefix (S n) = seq_ids prefix n ++ [seq_id prefix (S n)].
Proof. unfold seq_ids. by rewrite seq_S, fmap_app. Qed.

Lemma length_seq_ids n : length (seq_ids prefix n) = n.
Proof. unfold seq_ids. by rewrite length_fmap, length_seq. Qed.

Lemma seq_id_inj i j :
  (N.of_nat i < 2 ^ 32)%N → (N.of_nat j < 2 ^ 32)%N → seq_id prefix i = seq_id prefix j → i = j.
Proof.
  intros Hi Hj H. pose proof (id_number_seq_id i Hi) as Ei. rewrite H, id_number_seq_id in Ei by done.
  simplify_eq. lia.
Qed.

Lemma NoDup_seq_ids n : (N.of_nat n < 2 ^ 32)%N → NoDup (seq_ids prefix n).
Proof.
  intros Hn. apply (NoDup_fmap_1 (λ s, foldr N.max 0%N (id_numbers [s] prefix))).
  unfold seq_ids. rewrite <- list_fmap_compose.
  rewrite (list_fmap_ext _ N.of_nat); [apply NoDup_fmap; [apply _|apply NoDup_seq]|].
  intros i x (->&Hx)%lookup_seq. cbn [compose]. simpl. rewrite id_number_seq_id by lia. simpl. lia.
Qed.
End ids.

(** The next id depends on the ids in use, not on their order. *)
#[export] Instance next_sequential_id_perm :
  Proper ((≡ₚ) ==> (=) ==> (=)) next_sequential_id.
Proof.
  intros l k Hlk p ? <-. unfold next_sequential_id, next_number, id_numbers.
  do 5 f_equal. apply foldr_max_perm. by rewrite Hlk.
Qed.

(** ** The live core set *)

Lemma live_count_app cs ds : live_count (cs ++ ds) = live_count cs + live_count ds.
Proof. unfold live_count. by rewrite filter_app, length_app. Qed.

Lemma live_count_cons c cs : live_count (c :: cs) = (if core_live c then 1 else 0) + live_count cs.
Proof. unfold live_count. rewrite filter_cons. destruct (core_live c); by case_decide. Qed.

Lemma live_count_perm cs ds : cs ≡ₚ ds → live_count cs = live_count ds.
Proof. intros H. unfold live_count. by rewrite H. Qed.

Lemma length_live_positions i cs : length (live_positions_from i cs) = live_count cs.
Proof.
  revert i. induction cs as [|c cs IH]; intros i; [done|].
  rewrite live_count_cons. simpl. destruct (core_live c); simpl; by rewrite IH.
Qed.

Lemma live_positions_lookup i cs k j :
  live_positions_from i cs !! k = Some j →
  i ≤ j ∧ ∃ c, cs !! (j - i) = Some c ∧ core_live c = true.
Proof.
  revert i k. induction cs as [|c cs IH]; intros i k; [done|]. simpl.
  destruct (core_live c) eqn:Hc.
  - destruct k as [|k]; simpl.
    + intros [= ->]. split; [lia|]. exists c. by rewrite Nat.sub_diag.
    + intros (Hij&d&Hd&Hl)%IH. split; [lia|]. exists d. split; [|done].
      by replace (j - i) with (S (j - S i)) by lia.
  - intros (Hij&d&Hd&Hl)%IH. split; [lia|]. exists d. split; [|done].
    by replace (j - i) with (S (j - S i)) by lia.
Qed.

Lemma live_count_park (cs : list CoreConstraint) (i : nat) c :
  cs !! i = Some c → core_live c = true → S (live_count (alter park i cs)) = live_count cs.
Proof.
  revert i. induction cs as [|d cs IH]; intros [|i] Hi Hc; simplify_eq/=;
    rewrite !live_count_cons; simpl; [by rewrite Hc|]. rewrite <- (IH i) by done. lia.
Qed.

Lemma core_ids_park (cs : list CoreConstraint) (i : nat) : core_id <$> alter park i cs = core_id <$> cs.
Proof. revert i. induction cs; intros []; f_equal/=; auto. Qed.

(** The parked list of a swap: same ids, and at most [slot - 1] live entries
    before the incoming one. *)
Definition swap_parked (cs : list CoreConstraint) (slot : Z) : list CoreConstraint :=
  match live_positions_from 0 cs !! Z.to_nat (slot - 1) with
  | Some i => alter park i cs
  | None => cs
  end.

Lemma swap_parked_ids cs slot : core_id <$> swap_parked cs slot = core_id <$> cs.
Proof. unfold swap_parked. case_match; [apply core_ids_park|done]. Qed.

Lemma swap_parked_live cs slot :
  (1 ≤ slot ≤ 2)%Z → live_count cs ≤ 2 → live_count (swap_parked cs slot) ≤ 1.
Proof.
  intros Hs Hl. unfold swap_parked. case_match eqn:E.
  - apply live_positions_lookup in E as (_&c&Hc&Hlive). rewrite Nat.sub_0_r in Hc.
    pose proof (live_count_park cs _ c Hc Hlive). lia.
  - apply lookup_ge_None in E. rewrite length_live_positions in E. lia.
Qed.

(** A swap either reinstates an existing entry in place of itself or adds one
    fresh entry. *)
Lemma swap_core_cases cs slot statement act now :
  (∃ c c' rest, swap_parked cs slot ≡ₚ c :: rest ∧ core_statement c = statement ∧
     core_id c' = core_id c ∧ core_statement c' = statement ∧ core_live c' = true ∧
     swap_core cs slot statement act now ≡ₚ c' :: rest) ∨
  (∃ c', core_id c' = next_sequential_id (core_id <$> swap_parked cs slot) "core-" ∧
     core_statement c' = statement ∧ core_live c' = true ∧
     swap_core cs slot statement act now ≡ₚ c' :: swap_parked cs slot).
Proof.
  unfold swap_core. fold (swap_parked cs slot). set (pk := swap_parked cs slot).
  destruct (position _ pk) as [i|] eqn:Hp.
  - apply position_Some in Hp as (a&c&b&Hpk&<-&Hc&_).
    assert (pk !! length a = Some c) as Hi by (rewrite Hpk; apply list_lookup_middle; done).
    rewrite Hi. apply bool_decide_eq_true in Hc. left.
    eexists c, _, (remove_at (length a) pk). rewrite insert_at_Permutation.
    split_and!; [by rewrite remove_at_Permutation|done|..]; [| | |reflexivity]; done.
  - right. eexists. rewrite insert_at_Permutation. split_and!; [| | |reflexivity]; done.
Qed.

Lemma swap_core_live cs slot statement act now :
  (1 ≤ slot ≤ 2)%Z → live_count cs ≤ 2 → live_count (swap_core cs slot statement act now) ≤ 2.
Proof.
  intros Hs Hl. pose proof (swap_parked_live cs slot Hs Hl) as Hp.
  destruct (swap_core_cases cs slot statement act now)
    as [(c&c'&rest&Hpk&_&_&_&_&->%live_count_perm)|(c'&_&_&_&->%live_count_perm)];
    [apply live_count_perm in Hpk; rewrite Hpk in Hp|]; rewrite live_count_cons in *;
    destruct (core_live c'); lia.
Qed.

(** Ids stay the consecutive ones the counter has handed out. *)
Lemma swap_core_ids cs slot statement act now :
  core_id <$> cs ≡ₚ seq_ids "core-" (length cs) →
  (N.of_nat (length (swap_core cs slot statement act now)) ≤ max_id_count)%N →
  core_id <$> swap_core cs slot statement act now
    ≡ₚ seq_ids "core-" (length (swap_core cs slot statement act now)).
Proof.
  intros Hids Hfit. rewrite <- (swap_parked_ids cs slot) in Hids.
  assert (length (swap_parked cs slot) = length cs) as Hlen.
  { unfold swap_parked. case_match; by rewrite ?length_alter. }
  destruct (swap_core_cases cs slot statement act now)
    as [(c&c'&rest&Hpk&_&Hid&_&_&Hsw)|(c'&Hid&_&_&Hsw)];
    rewrite Hsw in Hfit |- *; rewrite fmap_cons.
  - rewrite Hid. rewrite Hpk in Hids. rewrite Hids.
    apply Permutation_length in Hpk. by rewrite <- Hlen, Hpk.
  - rewrite Hid. simpl length. simpl in Hfit. rewrite seq_ids_S, Hlen, <- Permutation_cons_append.
    rewrite (next_id_seq _ _ (length cs)); [|done|lia]. by rewrite Hids.
Qed.

Lemma swap_core_length cs slot statement act now :
  length cs ≤ length (swap_core cs slot statement act now).
Proof.
  assert (length (swap_parked cs slot) = length cs) as Hlen.
  { unfold swap_parked. case_match; by rewrite ?length_alter. }
  destruct (swap_core_cases cs slot statement act now)
    as [(c&c'&rest&Hpk&_&_&_&_&Hsw)|(c'&_&_&_&Hsw)]; rewrite Hsw.
  - apply Permutation_length in Hpk. simpl in *. lia.
  - simpl. lia.
Qed.
