(* ===== verification/TaskLedgerGate.v ===== *)
(** * The completion gate

    [validate_completion] characterised by the conditions it checks, and its
    agreement with the [missing_acceptance_criteria] projection the delivery
    report shows. *)

From S2P Require Import Prelude TaskLedger.

(** What a snapshot must show before its goal may be declared complete, given
    the criteria the completion leaves explicitly uncovered. *)
Record completable (l : SessionTaskLedger) (uncovered : list string) : Prop := {
  cp_no_open : open_questions l = [];
  cp_no_waits : awaiting_interactions l = [];
  cp_uncovered_known : ∀ r, r ∈ uncovered → r ∈ goal_criteria l;
  cp_covered_known : ∀ c r, c ∈ current_checkpoints l → r ∈ chk_covered_criteria c →
    r ∈ goal_criteria l;
  cp_evidence : goal_criteria l = [] → current_checkpoints l ≠ [];
  cp_covered : ∀ r, r ∈ goal_criteria l → r ∈ covered_by_current l ∨ r ∈ uncovered;
}.

Lemma references_Ok criteria references :
  validate_criteria_references criteria references = Ok tt ↔
  ∀ r, r ∈ references → r ∈ criteria.
Proof.
  unfold validate_criteria_references. rewrite for_each_Ok, Forall_forall.
  split; intros H r Hr; specialize (H r Hr); simpl in *.
  - destruct (mem r criteria) eqn:E; [by apply mem_true in E|done].
  - apply mem_true in H. by rewrite H.
Qed.

Lemma unit_result_Ok {E} (r : result E unit) (u : unit) : r = Ok u ↔ r = Ok tt.
Proof. by destruct u. Qed.

Lemma covered_loop_Ok covered uncovered criteria :
  for_each (λ criterion : string,
    reject? (negb (mem criterion covered) && negb (mem criterion uncovered))
      with LErr.CriterionNotCovered criterion in Ok tt) criteria = Ok tt ↔
  ∀ r, r ∈ criteria → r ∈ covered ∨ r ∈ uncovered.
Proof.
  rewrite for_each_Ok, Forall_forall.
  split; intros H r Hr; specialize (H r Hr); simpl in *.
  - rewrite <- !mem_true. destruct (mem r covered), (mem r uncovered); naive_solver.
  - rewrite <- !mem_true in H. destruct (mem r covered), (mem r uncovered); naive_solver.
Qed.

Lemma covered_known_Ok criteria cs :
  for_each (λ c, validate_criteria_references criteria (chk_covered_criteria c)) cs = Ok tt ↔
  ∀ c r, c ∈ cs → r ∈ chk_covered_criteria c → r ∈ criteria.
Proof.
  rewrite for_each_Ok, Forall_forall. setoid_rewrite references_Ok. naive_solver.
Qed.

Lemma validate_completion_Ok l uncovered :
  validate_completion l uncovered = Ok tt ↔ completable l uncovered.
Proof.
  unfold validate_completion. split.
  - intros H. inv_result. apply bool_decide_eq_false in Hb, Hb0.
    rewrite references_Ok in Hr. rewrite covered_known_Ok in Hr0.
    assert (open_questions l = []) as Ho by (destruct (open_questions l); simpl in *; [done|lia]).
    apply dec_stable in Hb0.
    split; [done..| |]; destruct (goal_criteria l) eqn:Eg; try done.
    + destruct (current_checkpoints l); [done|]. by intros.
    + set_solver.
    + rewrite covered_loop_Ok in H. exact H.
  - intros [H1 H2 H3 H4 H5 H6]. rewrite H1, H2. simpl.
    rewrite ?bool_decide_eq_false_2 by (auto; lia).
    rewrite (proj2 (references_Ok _ _) H3). simpl.
    rewrite (proj2 (covered_known_Ok _ _) H4). simpl.
    destruct (goal_criteria l) eqn:Eg.
    + destruct (current_checkpoints l); [by destruct H5|done].
    + by apply covered_loop_Ok.
Qed.

Lemma missing_criteria_spec l uncovered r :
  r ∈ missing_acceptance_criteria l uncovered ↔
  r ∈ goal_criteria l ∧ r ∉ covered_by_current l ∧ r ∉ uncovered.
Proof.
  unfold missing_acceptance_criteria, goal_criteria. destruct (goal l); [|set_solver].
  rewrite list_elem_of_filter, Is_true_true, andb_true_iff, !negb_true_iff, !mem_false. tauto.
Qed.

Lemma missing_criteria_nil l uncovered :
  missing_acceptance_criteria l uncovered = [] ↔
  ∀ r, r ∈ goal_criteria l → r ∈ covered_by_current l ∨ r ∈ uncovered.
Proof.
  split.
  - intros H r Hr. destruct (decide (r ∈ covered_by_current l)); [by left|].
    destruct (decide (r ∈ uncovered)); [by right|].
    exfalso. assert (r ∈ missing_acceptance_criteria l uncovered) as Hm
      by by apply missing_criteria_spec. rewrite H in Hm. set_solver.
  - intros H. destruct (missing_acceptance_criteria l uncovered) as [|r rs] eqn:E; [done|].
    assert (r ∈ missing_acceptance_criteria l uncovered) as Hm by (rewrite E; set_solver).
    apply missing_criteria_spec in Hm as (Hr&Hc&Hu). destruct (H r Hr); done.
Qed.

Lemma covered_by_current_spec l r :
  r ∈ covered_by_current l ↔
  ∃ c, c ∈ verified l ∧ chk_goal_generation c = goal_generation l ∧
       chk_superseded_by c = None ∧ r ∈ chk_covered_criteria c.
Proof.
  unfold covered_by_current, current_checkpoints. rewrite list_elem_of_bind. setoid_rewrite list_elem_of_filter.
  unfold is_current. setoid_rewrite Is_true_true. setoid_rewrite andb_true_iff.
  setoid_rewrite bool_decide_eq_true. naive_solver.
Qed.

Lemma completion_ready_true l : completion_ready l = true ↔ completable l [].
Proof.
  rewrite <- validate_completion_Ok. unfold completion_ready.
  destruct (validate_completion l []) as [[]|]; naive_solver.
Qed.
