(* ===== verification/TaskLedgerInv.v ===== *)
(** * Invariants of the session task ledger

    The rules the module comment of task_ledger.rs states, as predicates on
    snapshots, with their preservation by every operation.  The history
    relations say what a committed transaction may do to the checkpoints and
    the open questions that were there before it. *)

From S2P Require Import Prelude TaskLedger TaskLedgerIds TaskLedgerGate.

(** ** The invariant *)

(** At most two live core entries; ids are the consecutive values of their
    counters (in order for the append-only lists). *)
Record ids_inv (l : SessionTaskLedger) : Prop := {
  inv_live : live_count (core l) ≤ 2;
  inv_core_ids : core_id <$> core l ≡ₚ seq_ids "core-" (length (core l));
  inv_chk_ids : chk_id <$> verified l = seq_ids "chk-" (length (verified l));
  inv_open_ids : q_id <$> open l = seq_ids "open-" (length (open l));
}.

(** Corrections point both ways, and a closed question names a checkpoint. *)
Record links_inv (l : SessionTaskLedger) : Prop := {
  inv_superseded : ∀ c d, c ∈ verified l → chk_superseded_by c = Some d →
    ∃ c', c' ∈ verified l ∧ chk_id c' = d ∧ chk_supersedes c' = Some (chk_id c);
  inv_supersedes : ∀ c d, c ∈ verified l → chk_supersedes c = Some d →
    ∃ c', c' ∈ verified l ∧ chk_id c' = d ∧ chk_superseded_by c' = Some (chk_id c);
  inv_closed : ∀ q d, q ∈ open l → q_closed_by_checkpoint_id q = Some d →
    d ∈ chk_id <$> verified l;
}.

(** Checkpoints belong to goal generations that have existed. *)
Record generation_inv (l : SessionTaskLedger) : Prop := {
  inv_goal_generation : (0 ≤ goal_generation l ≤ u64_max)%Z;
  inv_created : is_Some (goal l) → (1 ≤ goal_generation l)%Z;
  inv_uncreated : goal l = None → verified l = [] ∧ core l = [] ∧ open l = [];
  inv_chk_generation : ∀ c, c ∈ verified l → (1 ≤ chk_goal_generation c ≤ goal_generation l)%Z;
}.

(** Plans are named, waits are named and recorded once. *)
Record plan_inv (l : SessionTaskLedger) : Prop := {
  inv_next : ∀ n, next l = Some n → non_empty (next_statement n) = true;
  inv_awaiting_next : status l = Status.AwaitingUser → has_next l = true;
  inv_awaiting_NoDup : NoDup (awaiting_interactions l);
  inv_awaiting_named : ∀ r, r ∈ awaiting_interactions l → non_empty (interaction_id r) = true;
}.

Record ledger_inv (l : SessionTaskLedger) : Prop := {
  inv_ids : ids_inv l;
  inv_links : links_inv l;
  inv_generation : generation_inv l;
  inv_plan : plan_inv l;
}.

(** The id counters are below their [u32] limit. *)
Definition fits (l : SessionTaskLedger) : Prop :=
  (N.of_nat (length (core l)) ≤ max_id_count)%N ∧
  (N.of_nat (length (verified l)) ≤ max_id_count)%N ∧
  (N.of_nat (length (open l)) ≤ max_id_count)%N.

(** ** What a transaction may do to the history *)

(** A recorded checkpoint only ever gains its forward pointer. *)
Definition chk_extends (c c' : VerifiedCheckpoint) : Prop :=
  c' = c ∨ (chk_superseded_by c = None ∧ ∃ d, c' = mark_superseded d c).

Definition history_extends (V V' : list VerifiedCheckpoint) : Prop :=
  ∃ W new, V' = W ++ new ∧ Forall2 chk_extends V W.

(** The ids of the checkpoints [l'] has beyond those of [l]. *)
Definition new_checkpoint_ids (l l' : SessionTaskLedger) : list string :=
  drop (length (verified l)) (chk_id <$> verified l').

(** A recorded question only ever closes, and against a new checkpoint. *)
Definition q_extends (l l' : SessionTaskLedger) (q q' : OpenQuestion) : Prop :=
  q' = q ∨
  (is_open q = true ∧ ∃ d, q' = close_question d q ∧ d ∈ new_checkpoint_ids l l').

Record transaction_rel (l l' : SessionTaskLedger) : Prop := {
  tr_history : history_extends (verified l) (verified l');
  tr_open : ∃ W new, open l' = W ++ new ∧ Forall2 (q_extends l l') (open l) W;
}.

(** ** Automation *)

Create HintDb ledger discriminated.

(** Opens the equation of a successful operation. *)
Ltac open_op H :=
  unfold apply_op, apply_create, apply_set_goal, apply_add_core, apply_swap_core,
    apply_add_checkpoint, apply_open_question, apply_close_open, apply_set_status,
    apply_resolve_interaction, ensure_created in H.

Ltac op_cases op H :=
  destruct op as [g statement|g|statement live actor|slot statement actor
    |claim v coverage covered evidence stage [sid|]|question settled_by
    |open_id claim v coverage covered evidence stage|k id|statement actor
    |[| | | |] awaiting reason| |uncovered];
  open_op H; inv_result; simpl in *.

Ltac ledger_simpl := repeat (case_match; simpl in * ); simpl in *.

(** ** History relations are preorders *)

#[export] Instance chk_extends_preorder : PreOrder chk_extends.
Proof.
  split; [by left|]. intros c c1 c2 [->|(Hn&d&->)] H2; [done|]. right. split; [done|].
  destruct H2 as [->|(Hd&_)]; [by exists d|done].
Qed.

Lemma history_extends_length V V' : history_extends V V' → length V ≤ length V'.
Proof. intros (W&new&->&HW%Forall2_length). rewrite length_app. lia. Qed.

#[export] Instance history_extends_preorder : PreOrder history_extends.
Proof.
  split.
  - intros V. exists V, []. rewrite app_nil_r. split; [done|]. by apply Forall_Forall2_diag, Forall_true.
  - intros V V1 V2 (W&new&->&HW) (W'&new'&->&HW').
    apply Forall2_app_inv_l in HW' as (W1&W2&H1&H2&->).
    exists W1, (W2 ++ new'). rewrite (assoc_L (++)). split; [done|].
    by eapply Forall2_trans; [intros ???; apply transitivity|..].
Qed.

Lemma chk_extends_id c c' : chk_extends c c' → chk_id c' = chk_id c.
Proof. by intros [->|(_&d&->)]. Qed.

Lemma history_extends_ids V V' : history_extends V V' → ∃ k, chk_id <$> V' = (chk_id <$> V) ++ k.
Proof.
  intros (W&new&->&HW). exists (chk_id <$> new). rewrite fmap_app. f_equal.
  induction HW as [|c c' V W Hc _ IH]; csimpl; [done|]. by rewrite IH, (chk_extends_id c c').
Qed.

Lemma new_checkpoint_ids_l l l1 l2 d :
  history_extends (verified l1) (verified l2) →
  d ∈ new_checkpoint_ids l l1 → d ∈ new_checkpoint_ids l l2.
Proof.
  intros (k&Hk)%history_extends_ids. unfold new_checkpoint_ids. rewrite Hk, drop_app, elem_of_app. auto.
Qed.

Lemma new_checkpoint_ids_r l l1 l2 d :
  history_extends (verified l) (verified l1) →
  d ∈ new_checkpoint_ids l1 l2 → d ∈ new_checkpoint_ids l l2.
Proof.
  intros Hlen%history_extends_length. unfold new_checkpoint_ids.
  replace (length (verified l1)) with
    (length (verified l) + (length (verified l1) - length (verified l))) by lia.
  rewrite <- drop_drop. intros (i&Hi)%list_elem_of_lookup.
  rewrite lookup_drop in Hi. apply list_elem_of_lookup. eauto.
Qed.

#[export] Instance transaction_rel_preorder : PreOrder transaction_rel.
Proof.
  split.
  - intros l. split; [done|]. exists (open l), []. rewrite app_nil_r. split; [done|].
    apply Forall_Forall2_diag, Forall_true. by left.
  - intros l l1 l2 [Hh (W&new&E&HW)] [Hh' (W'&new'&E'&HW')]. split; [by trans (verified l1)|].
    rewrite E in HW'. apply Forall2_app_inv_l in HW' as (W1&W2&H1&H2&->).
    exists W1, (W2 ++ new'). rewrite (assoc_L (++)). split; [done|].
    eapply Forall2_trans; [|exact HW|exact H1].
    intros q q1 q2 Hq Hq1. destruct Hq as [->|(Ho&d&->&Hd)].
    + destruct Hq1 as [->|(Ho&d&->&Hd)]; [by left|right]. split; [done|].
      exists d. split; [done|]. by eapply new_checkpoint_ids_r.
    + right. split; [done|]. exists d. split; [|by eapply new_checkpoint_ids_l].
      by destruct Hq1 as [->|(?&?)].
Qed.

(** ** Every operation respects the history *)

Lemma history_extends_app V new : history_extends V (V ++ new).
Proof. exists V, new. split; [done|]. by apply Forall_Forall2_diag, Forall_true. Qed.

Lemma history_extends_supersede V sid d new t :
  find_first (id_is sid) V = Some t → chk_superseded_by t = None →
  history_extends V (update_first (id_is sid) (mark_superseded d) V ++ new).
Proof.
  intros (a&b&->&Ht&Ha)%find_first_Some Hn. rewrite update_first_split by done.
  eexists _, new. split; [done|].
  apply Forall2_app; [by apply Forall_Forall2_diag, Forall_true|].
  constructor; [|by apply Forall_Forall2_diag, Forall_true]. right. eauto.
Qed.

Lemma transaction_same_open l l' :
  open l' = open l → history_extends (verified l) (verified l') → transaction_rel l l'.
Proof.
  intros Ho Hh. split; [done|]. exists (open l), []. rewrite app_nil_r, Ho. split; [done|].
  apply Forall_Forall2_diag, Forall_true. by left.
Qed.
#[export] Hint Resolve transaction_same_open history_extends_app : ledger.

Lemma transaction_close l open_id id chk t :
  chk_id chk = id →
  find_first (q_id_is open_id) (open l) = Some t → is_open t = true →
  transaction_rel l (set_open (set_verified l (verified l ++ [chk]))
                       (update_first (q_id_is open_id) (close_question id) (open l))).
Proof.
  intros Hid (a&b&Ho&Ht&Ha)%find_first_Some Hopen. split; simpl; [auto with ledger|].
  rewrite Ho, update_first_split by done. eexists _, []. rewrite app_nil_r. split; [done|].
  assert (∀ q l', q_extends l l' q q) as Hrefl by by left.
  apply Forall2_app; [by apply Forall_Forall2_diag, Forall_true|].
  constructor; [|by apply Forall_Forall2_diag, Forall_true].
  right. split; [done|]. exists id. split; [done|].
  unfold new_checkpoint_ids. simpl. rewrite fmap_app, drop_app_length' by by rewrite length_fmap.
  rewrite <- Hid. by left.
Qed.

Lemma apply_op_transaction l op now l' : apply_op l op now = Ok l' → transaction_rel l l'.
Proof.
  intros H. op_cases op H; try by apply transaction_same_open.
  - apply transaction_same_open; simpl; [done|].
    eapply history_extends_supersede; [done|]. by apply bool_decide_eq_false, dec_stable in Hb.
  - apply transaction_same_open; simpl; auto with ledger.
  - split; simpl; [done|]. eexists _, _. split; [done|].
    apply Forall_Forall2_diag, Forall_true. by left.
  - eapply transaction_close; [done..|]. by destruct (is_open _).
Qed.

Lemma apply_ops_transaction l ops now l' : apply_ops l ops now = Ok l' → transaction_rel l l'.
Proof. apply fold_result_rel; [apply _|]. intros; by eapply apply_op_transaction. Qed.

(** ** Every operation preserves the invariants *)

Lemma fits_mono l l' : length (core l) ≤ length (core l') → length (verified l) ≤ length (verified l') →
  length (open l) ≤ length (open l') → fits l' → fits l.
Proof. unfold fits. lia. Qed.

Lemma apply_op_fits l op now l' : apply_op l op now = Ok l' → fits l' → fits l.
Proof.
  intros H. op_cases op H; intros F; eapply fits_mono; try exact F; repeat case_match; simpl;
    rewrite ?length_app, ?length_update_first; simpl; try lia; apply swap_core_length.
Qed.

Lemma live_core_count l : length (live_core l) = live_count (core l).
Proof. done. Qed.

Lemma ids_snoc ids prefix n :
  ids = seq_ids prefix n → (N.of_nat (S n) ≤ max_id_count)%N →
  ids ++ [next_sequential_id ids prefix] = seq_ids prefix (S n).
Proof. intros -> Hn. rewrite seq_ids_S, (next_id_seq _ _ n); [done..|lia]. Qed.

Lemma add_core_ids l statement live act now :
  ids_inv l → (live && bool_decide (2 ≤ length (live_core l))) = false →
  (N.of_nat (S (length (core l))) ≤ max_id_count)%N →
  ids_inv (set_core l (core l ++
    [{| core_id := next_sequential_id (core_id <$> core l) "core-"; core_statement := statement;
        core_live := live; core_set_by := act; core_set_at := now |}])).
Proof.
  intros [Hl Hc Hv Ho] Hfull Hfit. split; simpl; [| |done..].
  - rewrite live_count_app, live_count_cons. simpl. unfold live_count at 2. simpl.
    rewrite live_core_count in Hfull. destruct live; simpl in *; [|lia].
    apply bool_decide_eq_false in Hfull. lia.
  - rewrite fmap_app, length_app, Nat.add_comm. simpl.
    rewrite Hc, seq_ids_S, (next_id_seq _ _ (length (core l))); [done..|lia].
Qed.

Lemma apply_op_ids l op now l' :
  apply_op l op now = Ok l' → fits l' → ids_inv l → ids_inv l'.
Proof.
  intros H. op_cases op H; intros (Fc&Fv&Fo) I; simpl in *;
    try (by destruct I; split).
  - apply add_core_ids; [done..|]. rewrite length_app in Fc. simpl in Fc. lia.
  - destruct I as [Il Ic Iv Io]. split; simpl; [| |done..].
    + apply swap_core_live; [|done]. apply andb_false_iff in Hb0.
      destruct Hb0 as [E|E]; apply negb_false_iff, bool_decide_eq_true in E; lia.
    + by apply swap_core_ids.
  - destruct I as [Il Ic Iv Io]. split; simpl; [done..| |done].
    rewrite fmap_app, fmap_update_first by done. rewrite length_app, length_update_first in *.
    simpl in *. rewrite Nat.add_comm in *. by apply ids_snoc.
  - destruct I as [Il Ic Iv Io]. split; simpl; [done..| |done].
    rewrite fmap_app, length_app in *. simpl in *. rewrite Nat.add_comm in *. by apply ids_snoc.
  - destruct I as [Il Ic Iv Io]. split; simpl; [done..|].
    rewrite fmap_app, length_app in *. simpl in *. rewrite Nat.add_comm in *. by apply ids_snoc.
  - destruct I as [Il Ic Iv Io]. split; simpl; [done..| |].
    + rewrite fmap_app, length_app in *. simpl in *. rewrite Nat.add_comm in *. by apply ids_snoc.
    + by rewrite fmap_update_first, length_update_first.
Qed.

(** Links survive an unrelated new checkpoint. *)
Lemma links_snoc l c :
  links_inv l → chk_supersedes c = None → chk_superseded_by c = None →
  links_inv (set_verified l (verified l ++ [c])).
Proof.
  intros [H1 H2 H3] Hs Hsb. split; simpl.
  - intros x d [Hx|Hx%list_elem_of_singleton]%elem_of_app Hd; [|congruence].
    destruct (H1 x d) as (y&Hy&?); [done..|]. exists y. rewrite elem_of_app. auto.
  - intros x d [Hx|Hx%list_elem_of_singleton]%elem_of_app Hd; [|congruence].
    destruct (H2 x d) as (y&Hy&?); [done..|]. exists y. rewrite elem_of_app. auto.
  - intros q d Hq Hd. rewrite fmap_app, elem_of_app. left. eauto.
Qed.

(** A correction links the corrected entry and the correcting one. *)
Lemma links_supersede l sid t id c :
  chk_id c = id → links_inv l → find_first (id_is sid) (verified l) = Some t → chk_superseded_by t = None →
  chk_supersedes c = Some sid → chk_superseded_by c = None →
  links_inv (set_verified l (update_first (id_is sid) (mark_superseded id) (verified l) ++ [c])).
Proof.
  intros <- [H1 H2 H3] Hf Hn Hs Hsb.
  apply find_first_Some in Hf as (a&b&Hv&Ht&Ha). apply bool_decide_eq_true in Ht as Hid.
  rewrite Hv, update_first_split by done.
  set (V' := (a ++ mark_superseded (chk_id c) t :: b) ++ [c]).
  assert (∀ x, x ∈ verified l → x ≠ t → x ∈ V') as Hold.
  { intros x. rewrite Hv. subst V'. set_solver. }
  assert (mark_superseded (chk_id c) t ∈ V') as Hm by (subst V'; set_solver).
  assert (c ∈ V') as Hc by (subst V'; set_solver).
  assert (∀ x, x ∈ V' → x = c ∨ x = mark_superseded (chk_id c) t ∨ (x ∈ verified l)) as Hinv.
  { intros x. rewrite Hv. subst V'. set_solver. }
  assert (t ∈ verified l) as Htin by (rewrite Hv; set_solver).
  split; simpl.
  - intros x d [->|[->|Hx]]%Hinv Hd; [congruence|simpl in *; simplify_eq; by exists c|].
    destruct (H1 x d Hx Hd) as (y&Hy&Hyd&Hys).
    destruct (decide (y = t)) as [->|]; [|by exists y; auto].
    eexists. split_and!; [exact Hm|done..].
  - intros x d [->|[->|Hx]]%Hinv Hd.
    + eexists. split_and!; [exact Hm|simpl; congruence|done].
    + destruct (H2 t d Htin Hd) as (y&Hy&Hyd&Hys). exists y. split_and!; [|done..].
      apply Hold; [done|congruence].
    + destruct (H2 x d Hx Hd) as (y&Hy&Hyd&Hys). exists y. split_and!; [|done..].
      apply Hold; [done|congruence].
  - intros q d Hq Hd. specialize (H3 q d Hq Hd). rewrite Hv in H3. subst V'.
    rewrite !fmap_app, fmap_cons in *. set_solver.
Qed.

Lemma links_close l id open_id :
  links_inv l → id ∈ chk_id <$> verified l →
  links_inv (set_open l (update_first (q_id_is open_id) (close_question id) (open l))).
Proof.
  intros [H1 H2 H3] Hid. split; simpl; [done..|].
  intros q d Hq Hd.
  assert (q ∈ open l ∨ ∃ q0, q = close_question id q0) as [Hin|(q0&->)]; [|by eauto|].
  { clear -Hq. induction (open l) as [|x O IH]; simpl in *; [set_solver|].
    destruct (q_id_is open_id x); set_solver. }
  simpl in Hd. by simplify_eq.
Qed.

Lemma apply_op_links l op now l' : apply_op l op now = Ok l' → links_inv l → links_inv l'.
Proof.
  intros H. op_cases op H; intros I; try (by destruct I; split).
  - eapply links_supersede; [|done..| |done|done]; [done|]. by apply bool_decide_eq_false, dec_stable in Hb.
  - by apply links_snoc.
  - destruct I as [H1 H2 H3]. split; simpl; [done..|].
    intros q d [Hq|Hq%list_elem_of_singleton]%elem_of_app Hd; [eauto|by subst].
  - pose proof (links_snoc l (new_checkpoint l (next_sequential_id (chk_id <$> verified l) "chk-")
      claim v coverage covered evidence stage None now) I eq_refl eq_refl) as I'.
    eapply links_close in I'; [exact I'|]. simpl. rewrite fmap_app. set_solver.
Qed.

Lemma apply_op_created l op now l' : apply_op l op now = Ok l' → is_Some (goal l').
Proof. intros H. op_cases op H; repeat case_match; simpl in *; simplify_eq; eauto. Qed.

Lemma saturating_generation g :
  (0 ≤ g ≤ u64_max)%Z →
  (1 ≤ Z.max (u64_saturating_add g 1) 1 ≤ u64_max ∧ g ≤ Z.max (u64_saturating_add g 1) 1)%Z.
Proof. unfold u64_saturating_add, u64_max. lia. Qed.

Lemma generation_append l c :
  generation_inv l → is_Some (goal l) → chk_goal_generation c = goal_generation l →
  generation_inv (set_verified l (verified l ++ [c])).
Proof.
  intros [H1 H2 H3 H4] Hg Hc. split; simpl; [done..|by destruct Hg as [? ->]|].
  intros x [Hx|Hx%list_elem_of_singleton]%elem_of_app; [auto|]. subst. specialize (H2 Hg). lia.
Qed.

Lemma elem_of_update_first {A} (P : A → bool) f l y :
  y ∈ update_first P f l → y ∈ l ∨ ∃ x, x ∈ l ∧ y = f x.
Proof.
  induction l as [|x l IH]; simpl; [set_solver|]. destruct (P x).
  - intros [->|Hy]%elem_of_cons; [right; exists x; set_solver|set_solver].
  - intros [->|Hy]%elem_of_cons; [set_solver|]. destruct (IH Hy) as [|(z&?&->)]; set_solver.
Qed.

Lemma generation_frame l l' :
  goal_generation l' = goal_generation l → verified l' = verified l →
  is_Some (goal l) → is_Some (goal l') → generation_inv l → generation_inv l'.
Proof.
  intros E1 E2 Hg [g Hg'] [H1 H2 H3 H4]. split; rewrite ?E1, ?E2; auto. congruence.
Qed.

Lemma ensure_created_Some l : ensure_created l = Ok tt → is_Some (goal l).
Proof. unfold ensure_created. case_match; naive_solver. Qed.

Lemma apply_op_generation l op now l' :
  apply_op l op now = Ok l' → generation_inv l → generation_inv l'.
Proof.
  intros H. assert (is_Some (goal l')) as [g' Hg'] by by eapply apply_op_created.
  op_cases op H; intros I;
    try (apply (generation_frame l); simpl in *; eauto using ensure_created_Some; by case_match; eauto).
  - apply orb_false_iff in Hb as [_ Hb]. apply bool_decide_eq_false, eq_None_not_Some in Hb.
    destruct I as [_ _ Hu _]. destruct (Hu Hb) as (Hv&Hc&Ho).
    split; simpl; [unfold u64_max; lia|lia|done|]. rewrite Hv. set_solver.
  - case_match eqn:Eg; [|done]. destruct I as [H1 _ _ H4].
    destruct (saturating_generation _ H1) as [Hlo Hhi].
    split; simpl; [lia|lia|done|]. intros c Hc. specialize (H4 c Hc). lia.
  - destruct I as [H1 H2 H3 H4]. split; simpl; [done..|congruence|].
    intros c [Hc|Hc%list_elem_of_singleton]%elem_of_app.
    + apply elem_of_update_first in Hc as [Hc|(x&Hx&->)]; simpl; auto.
    + subst. simpl. rewrite Hg' in H2. specialize (H2 (mk_is_Some _ _ eq_refl)). lia.
  - by apply generation_append.
  - assert (is_Some (goal l)) as Hg by by eexists.
    pose proof (generation_append l (new_checkpoint l
      (next_sequential_id (chk_id <$> verified l) "chk-") claim v coverage covered evidence stage
      None now) I Hg eq_refl) as [? ? ? ?]. split; simpl in *; [done..|congruence|done].
Qed.

Lemma has_next_Some l n : next l = Some n → non_empty (next_statement n) = true → has_next l = true.
Proof. unfold has_next. by intros ->. Qed.

Lemma plan_frame l l' :
  next l' = next l → awaiting_interactions l' = awaiting_interactions l →
  (status l' = Status.AwaitingUser → status l = Status.AwaitingUser) → plan_inv l → plan_inv l'.
Proof.
  intros E1 E2 Hs [P1 P2 P3 P4]. split; rewrite ?E1, ?E2; auto.
  intros Ha. unfold has_next. rewrite E1. apply (P2 (Hs Ha)).
Qed.

(** Setting a named plan. *)
Lemma plan_next l l' n :
  next l' = Some n → non_empty (next_statement n) = true →
  awaiting_interactions l' = awaiting_interactions l → plan_inv l → plan_inv l'.
Proof.
  intros E Hn E2 [P1 P2 P3 P4]. split; rewrite ?E, ?E2; auto; [congruence|].
  intros _. unfold has_next. by rewrite E.
Qed.

(** Leaving every wait. *)
Lemma plan_released l' :
  (∀ n, next l' = Some n → non_empty (next_statement n) = true) →
  awaiting_interactions l' = [] → status l' ≠ Status.AwaitingUser → plan_inv l'.
Proof. intros Hn E Hs. split; rewrite ?E; [done|done|constructor|set_solver]. Qed.

Lemma plan_interrupted l n :
  plan_inv l → set_pre_interrupt <$> next l = Some n → non_empty (next_statement n) = true.
Proof. intros [P1 _ _ _] (m&Hm&->)%fmap_Some. by apply (P1 m). Qed.

Lemma plan_await l l' r :
  next l' = next l → status l' = Status.AwaitingUser →
  awaiting_interactions l' = (if mem r (awaiting_interactions l) then awaiting_interactions l
                              else awaiting_interactions l ++ [r]) →
  non_empty (interaction_id r) = true → has_next l = true → plan_inv l → plan_inv l'.
Proof.
  intros E1 E2 E3 Hr Hn [P1 P2 P3 P4]. split; rewrite ?E1, ?E3; auto.
  - intros _. unfold has_next in *. by rewrite E1.
  - case_match eqn:Em; [done|]. apply mem_false in Em. apply NoDup_app.
    split_and!; [done|set_solver|apply NoDup_singleton].
  - case_match; [done|]. intros x [Hx|Hx%list_elem_of_singleton]%elem_of_app; [auto|by subst].
Qed.

Lemma plan_resolve l l' k id :
  next l' = next l → (status l' = Status.AwaitingUser → status l = Status.AwaitingUser) →
  awaiting_interactions l' =
    filter (λ r, Is_true (negb (interaction_is k id r))) (awaiting_interactions l) →
  plan_inv l → plan_inv l'.
Proof.
  intros E1 Hs E2 [P1 P2 P3 P4]. split; rewrite ?E1, ?E2; auto.
  - intros Ha. unfold has_next. rewrite E1. by apply P2, Hs.
  - by apply NoDup_filter.
  - intros r [_ Hr]%list_elem_of_filter. auto.
Qed.

Lemma apply_op_plan l op now l' : apply_op l op now = Ok l' → plan_inv l → plan_inv l'.
Proof.
  intros H. op_cases op H; intros I; rewrite ?negb_false_iff in *;
    try (by apply (plan_frame l)).
  - by eapply (plan_next l).
  - apply (plan_resolve l _ k id); simpl; try done. by destruct (_ && _).
  - by eapply (plan_next l).
  - eapply (plan_await l); simpl; try done. 
    revert Hr1. change (has_next (set_awaiting l _)) with (has_next l). by destruct (has_next l).
  - apply plan_released; simpl; eauto using plan_interrupted.
  - rewrite validate_completion_Ok in *. destruct Hr1. by apply plan_released.
  - apply plan_released; simpl; eauto using plan_interrupted.
  - rewrite validate_completion_Ok in *. destruct Hr0. by apply plan_released.
Qed.

Lemma apply_op_inv l op now l' :
  apply_op l op now = Ok l' → fits l' → ledger_inv l → ledger_inv l'.
Proof.
  intros H F [I1 I2 I3 I4].
  split; eauto using apply_op_ids, apply_op_links, apply_op_generation, apply_op_plan.
Qed.
