(* ===== verification/TaskLedgerProps.v ===== *)
(** * Properties of the session task ledger

    What task_ledger.rs promises its callers: transactions are atomic and
    guarded by the revision, every ledger the operations can produce is well
    formed, recorded history is only extended, and completion means covered
    acceptance criteria. *)

From S2P Require Import Prelude TaskLedger TaskLedgerIds TaskLedgerGate TaskLedgerInv.

(** ** Transactions *)

(** What a committed snapshot satisfies besides [ledger_inv]. *)
Record snapshot_wf (l : SessionTaskLedger) : Prop := {
  wf_created : is_Some (goal l);
  wf_planned : status l = Status.Active ∨ status l = Status.Blocked → has_next l = true;
  wf_waiting : status l = Status.AwaitingUser ↔ awaiting_interactions l ≠ [];
  wf_completed : status l = Status.Completed →
    next l = None ∧ completable l (uncovered_criteria l);
}.

(** The ledgers of a session: from the empty one by transactions and goal
    starts, successful or not, while the id counters are in range. *)
Inductive reachable (sid : string) : SessionTaskLedger → Prop :=
| reachable_empty : reachable sid (ledger_empty sid)
| reachable_batch l rev ops now r l' :
    reachable sid l → apply_batch l rev ops now = (r, l') → fits l' → reachable sid l'
| reachable_start l rev g statement now r l' :
    reachable sid l → start_goal l rev g statement now = (r, l') → fits l' → reachable sid l'.

Lemma validate_snapshot_wf l :
  validate_snapshot l = Ok tt → is_Some (goal l) → snapshot_wf l.
Proof.
  unfold validate_snapshot. intros H Hg. inv_result.
  assert (status l = Status.Active ∨ status l = Status.Blocked → has_next l = true) as Hn.
  { intros [Es|Es]; rewrite Es in Hr; simpl in Hr; by destruct (has_next l). }
  destruct (decide (status l = Status.Completed)) as [Es|Es].
  - rewrite Es in H. destruct (next l) eqn:En; [done|]. apply validate_completion_Ok in H.
    destruct H as [? Hw] eqn:HC. clear HC.
    split; [done..| |]; rewrite ?Es, ?Hw; [by split|by repeat split].
  - split; [done..| |done].
    destruct (status l) eqn:Hs; try done; by destruct (awaiting_interactions l).
Qed.

Lemma validate_snapshot_created l : validate_snapshot l = Ok tt →
  goal l = None → next l = None → status l ≠ Status.Active.
Proof.
  unfold validate_snapshot, require_next_for_status, has_next. intros H _ Hn Hs.
  by rewrite Hs, Hn in H.
Qed.

(** The staged ledger of a successful transaction. *)
Lemma apply_batch_Ok l rev ops now r l' :
  apply_batch l rev ops now = (Ok r, l') →
  rev = revision l ∧ r = revision l' ∧
  ∃ staged, apply_ops l ops now = Ok staged ∧ validate_snapshot staged = Ok tt ∧
    l' = stamp staged (revision l) now.
Proof.
  unfold apply_batch. case_bool_decide as Hrev; [|done].
  destruct (apply_ops l ops now) as [staged|e]; simpl; [|done].
  destruct (validate_snapshot staged) as [[]|e] eqn:Hv; simpl; [|done].
  intros [= <- <-]. eauto 10.
Qed.

Lemma apply_batch_Err l rev ops now e l' : apply_batch l rev ops now = (Err e, l') → l' = l.
Proof.
  unfold apply_batch. case_bool_decide; [|congruence].
  destruct (rbind _ _); congruence.
Qed.

Definition goal_started (l : SessionTaskLedger) (g : TaskGoal) (statement : string) (now : Z)
    : SessionTaskLedger := {|
  session_id := session_id l; revision := u64_add (revision l) 1;
  goal_generation := match goal l with
                     | Some _ => Z.max (u64_saturating_add (goal_generation l) 1) 1
                     | None => 1%Z end;
  goal := Some g; core := core l; verified := verified l; open := [];
  next := Some (next_from_statement statement Actor.User now); status := Status.Active;
  awaiting_interactions := []; blocked_reason := None; uncovered_criteria := [];
  updated_at := now |}.

(** A goal start succeeds exactly on a valid goal and plan at the expected
    revision. *)
Lemma start_goal_cases l rev g statement now :
  start_goal l rev g statement now =
    if bool_decide (revision l = rev)
    then match validate_goal g with
         | Err e => (Err e, l)
         | Ok _ => if non_empty statement
                   then (Ok (u64_add (revision l) 1), goal_started l g statement now)
                   else (Err LErr.EmptyStatement, l)
         end
    else (Err (LErr.RevisionConflict rev (revision l)), l).
Proof.
  unfold start_goal. case_bool_decide; [|done]. destruct (validate_goal g); simpl; [|done].
  destruct (non_empty statement) eqn:Hs; simpl; [|done].
  unfold validate_snapshot, require_next_for_status, has_next. simpl. by rewrite Hs.
Qed.

Lemma start_goal_Ok l rev g statement now r l' :
  start_goal l rev g statement now = (Ok r, l') →
  rev = revision l ∧ r = revision l' ∧ validate_goal g = Ok tt ∧ non_empty statement = true ∧
  l' = goal_started l g statement now.
Proof.
  rewrite start_goal_cases. case_bool_decide; [|done].
  destruct (validate_goal g) as [[]|]; [|done]. destruct (non_empty statement); [|done].
  intros [= <- <-]. done.
Qed.

Lemma start_goal_Err l rev g statement now e l' :
  start_goal l rev g statement now = (Err e, l') → l' = l.
Proof.
  rewrite start_goal_cases. case_bool_decide; [|congruence].
  destruct (validate_goal g); [|congruence]. destruct (non_empty statement); congruence.
Qed.

(** ** Invariants of transactions *)

Lemma apply_ops_fits l ops now l' : apply_ops l ops now = Ok l' → fits l' → fits l.
Proof.
  revert l. induction ops as [|op ops IH]; intros l H F; unfold apply_ops in H; simpl in H;
    inv_result; [done|]. eapply apply_op_fits, IH; eauto.
Qed.

Lemma apply_ops_inv l ops now l' :
  apply_ops l ops now = Ok l' → fits l' → ledger_inv l → ledger_inv l'.
Proof.
  revert l. induction ops as [|op ops IH]; intros l H F I; unfold apply_ops in H; simpl in H;
    inv_result; [done|]. eapply (IH a), (apply_op_inv l op now a); eauto using apply_ops_fits.
Qed.

Lemma apply_ops_created l ops now l' :
  apply_ops l ops now = Ok l' → is_Some (goal l) → is_Some (goal l').
Proof.
  intros H Hg. unfold apply_ops in H.
  refine (fold_result_ind (λ l, is_Some (goal l)) _ _ _ _ _ Hg H).
  intros; by eapply apply_op_created.
Qed.

Lemma ledger_inv_stamp l rev now : ledger_inv l → ledger_inv (stamp l rev now).
Proof. intros [[] [] [] []]. split; by split. Qed.

Lemma snapshot_wf_stamp l rev now : snapshot_wf l → snapshot_wf (stamp l rev now).
Proof. intros [? ? ? H]. split; try done. intros Hs. destruct (H Hs) as [? []]. split; [done|by split]. Qed.

Lemma ledger_inv_empty sid : ledger_inv (ledger_empty sid).
Proof.
  split; split; simpl; unfold u64_max; try set_solver; try constructor; try lia; try done.
Qed.

Lemma goal_started_inv l g statement now :
  non_empty statement = true → ledger_inv l → ledger_inv (goal_started l g statement now).
Proof.
  intros Hs [[] [L1 L2 L3] [G1 G2 G3 G4] []]. destruct (saturating_generation _ G1) as [Hlo Hhi].
  split; split; cbn [goal_started core verified open goal next status awaiting_interactions
    goal_generation]; try done.
  - intros q d []%not_elem_of_nil.
  - case_match; [lia|by vm_compute].
  - intros _. case_match; lia.
  - intros c Hc. case_match eqn:Eg; [specialize (G4 c Hc); lia|].
    destruct (G3 eq_refl) as [E _]. rewrite E in Hc. by apply not_elem_of_nil in Hc.
  - by intros n [= <-].
  - constructor.
  - intros r []%not_elem_of_nil.
Qed.

Lemma goal_started_wf l g statement now :
  non_empty statement = true → snapshot_wf (goal_started l g statement now).
Proof. intros Hs. by split. Qed.

Lemma apply_batch_inv l rev ops now r l' :
  apply_batch l rev ops now = (r, l') → fits l' → ledger_inv l → ledger_inv l'.
Proof.
  destruct r as [r|e]; [|by intros ->%apply_batch_Err].
  intros (_&_&staged&Hops&_&->)%apply_batch_Ok F I. by eapply ledger_inv_stamp, apply_ops_inv.
Qed.

Lemma start_goal_inv l rev g statement now r l' :
  start_goal l rev g statement now = (r, l') → ledger_inv l → ledger_inv l'.
Proof.
  destruct r as [r|e]; [|by intros ->%start_goal_Err].
  intros (_&_&_&Hs&->)%start_goal_Ok I. by apply goal_started_inv.
Qed.

Lemma reachable_ledger_inv sid l : reachable sid l → ledger_inv l.
Proof.
  induction 1; eauto using ledger_inv_empty, apply_batch_inv, start_goal_inv.
Qed.

(** A transaction on the empty ledger that commits has created it. *)
Lemma apply_ops_empty_created sid ops now l' :
  apply_ops (ledger_empty sid) ops now = Ok l' → validate_snapshot l' = Ok tt → is_Some (goal l').
Proof.
  destruct ops as [|op ops]; unfold apply_ops; simpl; intros H Hv.
  - by inv_result.
  - inv_result. eapply (apply_ops_created a); [exact H|by eapply apply_op_created].
Qed.

Lemma reachable_empty_or_wf sid l : reachable sid l → l = ledger_empty sid ∨ snapshot_wf l.
Proof.
  induction 1 as [|l rev ops now r l' _ IH H _|l rev g statement now r l' _ IH H _]; [by left|..].
  - destruct r as [r|e]; [|by apply apply_batch_Err in H; subst].
    apply apply_batch_Ok in H as (_&_&staged&Hops&Hv&->). right.
    apply snapshot_wf_stamp, validate_snapshot_wf; [done|].
    destruct IH as [->|[Hc _ _ _]]; [by eapply apply_ops_empty_created|by eapply apply_ops_created].
  - destruct r as [r|e]; [|by apply start_goal_Err in H; subst].
    apply start_goal_Ok in H as (_&_&_&Hs&->). right. by apply goal_started_wf.
Qed.

(** One call on the ledger authority's snapshot, successful or not. *)
Definition ledger_step (l l' : SessionTaskLedger) : Prop :=
  (∃ rev ops now r, apply_batch l rev ops now = (r, l')) ∨
  (∃ rev g statement now r, start_goal l rev g statement now = (r, l')).

Lemma apply_batch_transaction l rev ops now r l' :
  apply_batch l rev ops now = (r, l') → transaction_rel l l'.
Proof.
  destruct r as [r|e]; [|by intros ->%apply_batch_Err].
  intros (_&_&staged&Hops%apply_ops_transaction&_&->)%apply_batch_Ok. by destruct Hops.
Qed.

Lemma ledger_step_history l l' : ledger_step l l' → history_extends (verified l) (verified l').
Proof.
  intros [(rev&ops&now&r&H)|(rev&g&statement&now&r&H)]; [by apply apply_batch_transaction in H as []|].
  destruct r as [r|e]; [|by apply start_goal_Err in H as ->].
  by apply start_goal_Ok in H as (_&_&_&_&->).
Qed.

(** A criterion the loop of the gate rejects is the first missing one. *)
Lemma covered_loop_Err covered uncovered criteria c :
  for_each (λ criterion : string,
    reject? (negb (mem criterion covered) && negb (mem criterion uncovered))
      with LErr.CriterionNotCovered criterion in Ok tt) criteria = Err (LErr.CriterionNotCovered c) →
  head (filter (λ criterion, Is_true (negb (mem criterion covered) && negb (mem criterion uncovered)))
          criteria) = Some c.
Proof.
  induction criteria as [|x criteria IH]; simpl; [done|]. rewrite filter_cons.
  destruct (negb (mem x covered) && negb (mem x uncovered)) eqn:E; simpl; [|done].
  by intros [= ->].
Qed.

Lemma references_Err criteria references e :
  validate_criteria_references criteria references = Err e →
  ∃ r, e = LErr.UnknownAcceptanceCriterion r.
Proof.
  intros (_&r&_&_&_&H)%for_each_Err. destruct (mem r criteria); simplify_eq/=. eauto.
Qed.

Lemma goal_started_current l g statement now :
  generation_inv l → (goal_generation l < u64_max)%Z →
  current_checkpoints (goal_started l g statement now) = [].
Proof.
  intros [G1 G2 G3 G4] Hlt. unfold current_checkpoints. apply elem_of_nil_inv.
  intros c [Hc Hin]%list_elem_of_filter. unfold is_current in Hc. simpl in Hc, Hin.
  apply Is_true_true, andb_true_iff in Hc as [Hc _]. apply bool_decide_eq_true in Hc.
  specialize (G4 c Hin). destruct (goal l) eqn:Eg.
  - revert Hc. unfold u64_saturating_add. lia.
  - destruct (G3 eq_refl) as [E _]. rewrite E in Hin. by apply not_elem_of_nil in Hin.
Qed.

(** ** Properties *)

(** C1. Every ledger a session can reach through transactions and goal starts is
    well formed: at most two live core entries, ids that are exactly the values
    of their counters, correction links that point both ways, closed questions
    that name a recorded checkpoint, evidence of generations that existed, named
    plans and waits; and, once created, a status that agrees with the plan, the
    pending interactions and the completion gate. *)
Theorem ledger_reachable_wellformed sid l :
  reachable sid l → ledger_inv l ∧ (l = ledger_empty sid ∨ snapshot_wf l).
Proof. intros H. split; [by eapply reachable_ledger_inv|by apply reachable_empty_or_wf]. Qed.

(** C2. Completion means evidence.  In every reachable ledger whose status is
    Completed no question is open, no interaction is pending, nothing is planned,
    and every acceptance criterion of the goal is either covered by a checkpoint of
    the current goal generation that no correction supersedes, or was declared
    uncovered. *)
Theorem completed_ledger_is_covered sid l :
  reachable sid l → status l = Status.Completed →
  open_questions l = [] ∧ awaiting_interactions l = [] ∧ next l = None ∧
  ∀ r, r ∈ goal_criteria l →
    r ∈ uncovered_criteria l ∨
    ∃ c, c ∈ verified l ∧ chk_goal_generation c = goal_generation l ∧
         chk_superseded_by c = None ∧ r ∈ chk_covered_criteria c.
Proof.
  intros [->|[_ _ _ Hc]]%reachable_empty_or_wf Hs; [done|].
  destruct (Hc Hs) as [Hn [Ho Hw _ _ _ Hcov]]. split_and!; [done..|]. intros r Hr.
  destruct (Hcov r Hr) as [H|H]; [right; by apply covered_by_current_spec|by left].
Qed.

(** C3. Recorded evidence is append only: whatever calls are made on a ledger, its
    checkpoints stay in place and unchanged, except that one without a correction may gain
    the id of its correction; new ones come after them. *)
Theorem checkpoint_history_append_only l l' :
  rtc ledger_step l l' → history_extends (verified l) (verified l').
Proof. induction 1 as [|l l1 l2 H _ IH]; [done|]. trans (verified l1); auto using ledger_step_history. Qed.

(** In one transaction a question recorded before it keeps its place and its text, and
    is either unchanged or, if it was open, closed by a checkpoint that the same transaction
    recorded. *)
Lemma questions_close_with_new_evidence l rev ops now r l' i q :
  apply_batch l rev ops now = (r, l') → open l !! i = Some q →
  ∃ q', open l' !! i = Some q' ∧
    (q' = q ∨ is_open q = true ∧
      ∃ d, q' = close_question d q ∧ d ∈ new_checkpoint_ids l l').
Proof.
  intros [_ (W&new&->&HW)]%apply_batch_transaction Hq.
  destruct (Forall2_lookup_l _ _ _ _ _ HW Hq) as (q'&Hq'&Hext).
  exists q'. split; [by apply lookup_app_l_Some|exact Hext].
Qed.

(** Transactions are atomic and serialised by the revision: a failed one leaves the
    ledger as it was; a successful one was made against the current revision, moves it by
    one, and makes every later attempt against the old revision fail with a conflict that
    reports the new one. *)
Lemma apply_batch_compare_and_swap l rev ops now res l' :
  (0 ≤ revision l ≤ u64_max)%Z → apply_batch l rev ops now = (res, l') →
  match res with
  | Err _ => l' = l
  | Ok r => rev = revision l ∧ r = u64_add rev 1 ∧ revision l' = r ∧
            ∀ ops' now', apply_batch l' rev ops' now' = (Err (LErr.RevisionConflict rev r), l')
  end.
Proof.
  intros Hrev H. destruct res as [r|e]; [|by eapply apply_batch_Err].
  apply apply_batch_Ok in H as (->&->&staged&_&_&->). split_and!; try done.
  intros ops' now'. unfold apply_batch. rewrite bool_decide_eq_false_2; [done|]. simpl.
  unfold u64_add, u64_max in *. intros E.
  destruct (decide (revision l + 1 = 2 ^ 64)%Z) as [E'|E'].
  - rewrite E', Z_mod_same_full in E. lia.
  - rewrite Z.mod_small in E; lia.
Qed.

(** The completion operation implements its specification exactly: it succeeds on a
    created ledger if and only if no question is open, nothing is awaited, only known criteria
    are referenced, and every criterion is covered by current evidence or declared uncovered
    (some current evidence, when there are no criteria); and it then records the
    declaration and drops the plan and the blocker. *)
Lemma complete_op_spec l uncovered now l' :
  apply_op l (Op.Complete uncovered) now = Ok l' ↔
  is_Some (goal l) ∧ completable l uncovered ∧
  l' = set_next (set_blocked_reason (set_status (set_uncovered l uncovered) Status.Completed) None) None.
Proof.
  rewrite <- validate_completion_Ok. simpl. unfold ensure_created. split.
  - intros H. inv_result. split_and!; try done. by destruct (goal l).
  - intros ([g ->]&->&->). done.
Qed.

(** When the gate rejects a completion for a missing criterion, it names the first
    criterion of the list that the read projection shows as missing. *)
Lemma completion_error_is_first_missing l uncovered c :
  validate_completion l uncovered = Err (LErr.CriterionNotCovered c) →
  head (missing_acceptance_criteria l uncovered) = Some c.
Proof.
  unfold validate_completion. intros H.
  repeat match type of H with
  | (if ?b then _ else _) = _ => destruct b; [done|]
  | rbind ?r _ = _ => destruct r eqn:?; simpl in H
  end; simplify_eq.
  - unfold missing_acceptance_criteria, goal_criteria in *. destruct (goal l) as [g|]; simpl in *.
    + destruct (acceptance_criteria g) as [|x criteria]; [by case_match|].
      by apply covered_loop_Err in H.
    + by case_match.
  - match goal with H : for_each _ _ = Err _ |- _ =>
      apply for_each_Err in H as (_&?&_&_&_&[? ?]%references_Err) end. done.
  - match goal with H : _ = Err _ |- _ => apply references_Err in H as [? ?] end. done.
Qed.

(** A goal started over an earlier one begins without evidence: it keeps the recorded
    checkpoints and core entries, but none of them counts for the new goal, every criterion
    of the new goal is missing, and the goal cannot be completed without declaring so. *)
Lemma start_goal_resets_evidence sid l rev g statement now r l' :
  reachable sid l → (goal_generation l < u64_max)%Z →
  start_goal l rev g statement now = (Ok r, l') →
  verified l' = verified l ∧ core l' = core l ∧ open l' = [] ∧ goal l' = Some g ∧
  current_checkpoints l' = [] ∧
  missing_acceptance_criteria l' [] = acceptance_criteria g ∧ completion_ready l' = false.
Proof.
  intros [_ _ HG _]%reachable_ledger_inv Hlt (_&_&_&_&->)%start_goal_Ok.
  pose proof (goal_started_current l g statement now HG Hlt) as Hcur.
  split_and!; try done.
  - unfold missing_acceptance_criteria, covered_by_current. rewrite Hcur. simpl.
    induction (acceptance_criteria g) as [|x xs IH]; [done|].
    rewrite filter_cons, decide_True by done. by f_equal.
  - destruct (completion_ready _) eqn:Hr; [|done].
    apply completion_ready_true in Hr as [_ _ _ _ Hev Hcov]. exfalso.
    destruct (acceptance_criteria g) as [|x xs] eqn:Hx; [by apply Hev|].
    destruct (Hcov x) as [H|H].
    + unfold goal_criteria. simpl. rewrite Hx. by left.
    + unfold covered_by_current in H. rewrite Hcur in H. by apply not_elem_of_nil in H.
    + by apply not_elem_of_nil in H.
Qed.

(** Swapping a live constraint keeps the two-slot rule and loses nothing: on a
    well-formed ledger a successful swap leaves at most two live entries, one of which states
    the swapped-in constraint, every id survives, and at most one entry is new. *)
Lemma swap_core_keeps_constraints l slot statement actor now l' :
  ledger_inv l → apply_op l (Op.SwapCoreLive slot statement actor) now = Ok l' →
  live_count (core l') ≤ 2 ∧
  (∃ c, c ∈ live_core l' ∧ core_statement c = statement) ∧
  core_id <$> core l ⊆ core_id <$> core l' ∧
  length (core l) ≤ length (core l') ≤ S (length (core l)).
Proof.
  intros [[Hlive _ _ _] _ _ _] H. simpl in H. unfold apply_swap_core, ensure_created in H.
  inv_result. simpl. set (act := actor_or actor Actor.System).
  assert (1 ≤ slot ≤ 2)%Z as Hslot.
  { apply andb_false_iff in Hb0 as [E|E]; apply negb_false_iff, bool_decide_eq_true in E; lia. }
  pose proof (swap_core_live (core l) slot statement act now Hslot Hlive) as Hl2.
  pose proof (swap_parked_ids (core l) slot) as Hids.
  assert (length (swap_parked (core l) slot) = length (core l)) as Hlen.
  { by rewrite <- (length_fmap core_id), Hids, length_fmap. }
  split_and!; [done|..|apply swap_core_length|]; rewrite <- ?Hids, <- ?Hlen;
    destruct (swap_core_cases (core l) slot statement act now)
      as [(c&c'&rest&Hpk&_&Hi&Hs&Hv&Hsw)|(c'&_&Hs&Hv&Hsw)].
  - exists c'. split; [|done]. apply list_elem_of_filter. cbn [core set_core].
    rewrite Hsw.
    split; [by rewrite Hv|by left].
  - exists c'. split; [|done]. apply list_elem_of_filter. cbn [core set_core].
    rewrite Hsw.
    split; [by rewrite Hv|by left].
  - rewrite Hsw, Hpk, !fmap_cons, Hi. done.
  - rewrite Hsw, fmap_cons. set_solver.
  - rewrite Hsw, Hpk. simpl. lia.
  - rewrite Hsw. simpl. lia.
Qed.

(** The two ways to interrupt a run, the [Interrupt] operation and setting the status to
    Interrupted, agree on every created ledger except a completed one: there the status
    operation also forgets the criteria declared uncovered, and [Interrupt] keeps them. *)
Lemma interrupt_and_set_status_agree l awaiting reason now :
  apply_op l (Op.SetStatus Status.Interrupted awaiting reason) now =
  let? l' := apply_op l Op.Interrupt now in
  Ok (if bool_decide (status l = Status.Completed) then set_uncovered l' [] else l').
Proof.
  simpl. unfold apply_set_status, ensure_created. destruct (goal l); simpl; [|done].
  rewrite andb_true_r. by case_bool_decide.
Qed.

(** *** Concrete ledgers *)

Definition demo_goal : TaskGoal := {|
  goal_statement := "ship"; acceptance_criteria := ["builds"; "tests pass"];
  criterion_checks := [{| check_criterion := "builds"; check_command := "cargo build" |}];
  goal_set_by := Actor.User; goal_set_at := 1 |}.

Definition demo_checkpoint (covered : list string) (supersedes : option string) : TaskLedgerOp :=
  Op.AddCheckpoint "built" (Verifier.DeterministicCheck "cargo build")
    {| coverage_scope := "workspace" |} covered [] None supersedes.

Definition demo_create : list TaskLedgerOp :=
  [Op.Create demo_goal "write code"; demo_checkpoint ["builds"] None;
   Op.OpenQuestion "which port?" "user answer"; Op.AddCore "no network" true None].

Definition demo_close : list TaskLedgerOp :=
  [Op.CloseOpenWithCheckpoint "open-01" "port chosen" (Verifier.UserConfirmation "ann")
     {| coverage_scope := "port" |} [] [] None;
   demo_checkpoint ["builds"] (Some "chk-01"); Op.Complete ["tests pass"]].

Definition demo1 : SessionTaskLedger := snd (apply_batch (ledger_empty "s") 0 demo_create 10).
Definition demo2 : SessionTaskLedger := snd (apply_batch demo1 1 demo_close 20).
Definition demo3 : SessionTaskLedger := snd (start_goal demo2 2 demo_goal "again" 30).

Lemma fits_small l :
  length (core l) ≤ 100 → length (verified l) ≤ 100 → length (open l) ≤ 100 → fits l.
Proof. unfold fits, max_id_count. intros. change (2 ^ 32 - 2)%N with 4294967294%N. lia. Qed.

Lemma demo1_reachable : reachable "s" demo1.
Proof.
  eapply (reachable_batch "s" (ledger_empty "s") 0 demo_create 10 (Ok 1%Z)); [constructor|by vm_compute|].
  apply fits_small; by vm_compute; lia.
Qed.

Lemma demo2_reachable : reachable "s" demo2.
Proof.
  eapply (reachable_batch "s" demo1 1 demo_close 20 (Ok 2%Z)); [apply demo1_reachable|by vm_compute|].
  apply fits_small; by vm_compute; lia.
Qed.

(** Question ids are reused across goals: after a goal start an [open-01] closed by the
    earlier goal's checkpoint and a new question of the new goal carry the same id. *)
Lemma open_question_id_reused_after_start_goal :
  q_id <$> open demo2 = ["open-01"] ∧
  (let l := snd (apply_batch demo3 3 [Op.OpenQuestion "which host?" "user answer"] 40) in
   goal_generation l = 2%Z ∧ q_id <$> open l = ["open-01"] ∧
   q_question <$> open l = ["which host?"]).
Proof. by vm_compute. Qed.

(** A wait that ends a block leaves the blocker behind: after Blocked, a wait for the user
    and its resolution the ledger is Active and still carries the reason of the block. *)
Lemma resolve_leaves_stale_blocker :
  let r := {| kind := InteractionKind.Question; interaction_id := "q1" |} in
  let ops := [Op.SetStatus Status.Blocked None (Some "no disk");
              Op.SetStatus Status.AwaitingUser (Some r) None;
              Op.ResolveInteraction InteractionKind.Question "q1"] in
  let '(res, l) := apply_batch demo1 1 ops 20 in
  res = Ok 2%Z ∧ status l = Status.Active ∧ blocked_reason l = Some "no disk".
Proof. by vm_compute. Qed.

(** ** Witnesses *)

Lemma ledger_reachable_wellformed_witness :
  status demo2 = Status.Completed ∧ ledger_inv demo2 ∧ (demo2 = ledger_empty "s" ∨ snapshot_wf demo2).
Proof.
  split; [by vm_compute|]. apply (ledger_reachable_wellformed "s" demo2), demo2_reachable.
Defined.

Lemma completed_ledger_is_covered_witness :
  reachable "s" demo2 ∧ status demo2 = Status.Completed ∧ next demo2 = None.
Proof.
  assert (status demo2 = Status.Completed) as Hs by by vm_compute.
  split; [apply demo2_reachable|]. split; [exact Hs|].
  apply (completed_ledger_is_covered "s" demo2 demo2_reachable Hs).
Defined.

Lemma checkpoint_history_append_only_witness :
  length (verified demo2) = 3 ∧ history_extends (verified demo1) (verified demo3).
Proof.
  split; [by vm_compute|]. apply (checkpoint_history_append_only demo1 demo3).
  eapply rtc_l; [|eapply rtc_once].
  - left. exists 1%Z, demo_close, 20%Z, (Ok 2%Z). by vm_compute.
  - right. exists 2%Z, demo_goal, "again", 30%Z, (Ok 3%Z). by vm_compute.
Defined.
