(* ===== verification/TaskLedgerReducer.v ===== *)
(** * The seam reducer

    crates/agendao-server/src/session_runtime/task_ledger_reducer.rs and the
    tool batch summary of crates/agendao-types/src/repair.rs: typed execution
    facts become candidate operations on the ledger ([reduce]); the typed
    delivery report and the prompt projection read it back.  The theorems say
    that seams are opt-in and idempotent, that no seam can create criterion
    coverage, and that a seam completes only a fully evidenced goal.  The
    field [repair_events] of the summary is left out: nothing here reads it. *)

From S2P Require Import Prelude TaskLedger TaskLedgerIds TaskLedgerGate TaskLedgerInv TaskLedgerProps.

(** ** Tool batch summaries *)

Module GoalStatus.
Inductive ToolBatchGoalStatus := Advanced | Blocked | Mixed | NoProgress.
#[export] Instance goal_status_eq_dec : EqDecision ToolBatchGoalStatus.
Proof. solve_decision. Defined.
End GoalStatus.
Export (hints) GoalStatus.
Abbreviation ToolBatchGoalStatus := GoalStatus.ToolBatchGoalStatus.

Module BlockReason.
Inductive ToolBatchBlockReason :=
| InvalidArguments | PermissionDenied | Timeout | ProviderRejected | ToolExecutionError
| UserInputRequired | Unknown.
End BlockReason.
Abbreviation ToolBatchBlockReason := BlockReason.ToolBatchBlockReason.

(** [ToolBatchBlockReason::as_str] *)
Definition block_reason_as_str (r : ToolBatchBlockReason) : string :=
  match r with
  | BlockReason.InvalidArguments => "invalid_arguments"
  | BlockReason.PermissionDenied => "permission_denied"
  | BlockReason.Timeout => "timeout"
  | BlockReason.ProviderRejected => "provider_rejected"
  | BlockReason.ToolExecutionError => "tool_execution_error"
  | BlockReason.UserInputRequired => "user_input_required"
  | BlockReason.Unknown => "unknown"
  end.

(** [format!("{reason:?}")] *)
Definition block_reason_debug (r : ToolBatchBlockReason) : string :=
  match r with
  | BlockReason.InvalidArguments => "InvalidArguments"
  | BlockReason.PermissionDenied => "PermissionDenied"
  | BlockReason.Timeout => "Timeout"
  | BlockReason.ProviderRejected => "ProviderRejected"
  | BlockReason.ToolExecutionError => "ToolExecutionError"
  | BlockReason.UserInputRequired => "UserInputRequired"
  | BlockReason.Unknown => "Unknown"
  end.

Record ToolBatchFollowUpItem := { follow_up_kind : string; follow_up_text : string }.

Record ToolBatchSummary := {
  tools_used : list string;
  success_count : Z;
  error_count : Z;
  error_kinds : list string;
  batch_goal_status : ToolBatchGoalStatus;
  blocked_by : list ToolBatchBlockReason;
  artifacts_created : list string;
  pending_follow_up : list ToolBatchFollowUpItem;
  unresolved_items : list string;
  recommended_next_step : option string;
}.

(** [ToolBatchSummary::empty] *)
Definition summary_empty : ToolBatchSummary := {|
  tools_used := []; success_count := 0; error_count := 0; error_kinds := [];
  batch_goal_status := GoalStatus.NoProgress; blocked_by := []; artifacts_created := [];
  pending_follow_up := []; unresolved_items := []; recommended_next_step := None |}.

Definition has_meaningful_progress (s : ToolBatchSummary) : bool :=
  (0 <? success_count s)%Z && (error_count s =? 0)%Z.

Definition is_blocked (s : ToolBatchSummary) : bool :=
  match blocked_by s with [] => false | _ :: _ => true end.

Definition goal_status_str (s : ToolBatchGoalStatus) : string :=
  match s with
  | GoalStatus.Advanced => "advanced"
  | GoalStatus.Blocked => "blocked"
  | GoalStatus.Mixed => "mixed"
  | GoalStatus.NoProgress => "no_progress"
  end.

(** [ToolBatchSummary::format_for_context] *)
Definition format_for_context (s : ToolBatchSummary) : string :=
  str_join (String (Ascii.ascii_of_nat 10) "") (
    ["<tool-batch-summary>"] ++
    (if decide (tools_used s = []) then []
     else ["  tools: " +:+ str_join ", " (tools_used s)]) ++
    ["  goal_status: " +:+ goal_status_str (batch_goal_status s)] ++
    (if (0 <? success_count s)%Z || (0 <? error_count s)%Z
     then ["  success: " +:+ dec_Z (success_count s) +:+ "  errors: " +:+ dec_Z (error_count s)]
     else []) ++
    (if is_blocked s
     then ["  blocked_by: " +:+ str_join ", " (block_reason_as_str <$> blocked_by s)] else []) ++
    (if decide (artifacts_created s = []) then []
     else ["  artifacts: " +:+ str_join ", " (artifacts_created s)]) ++
    (match recommended_next_step s with
     | Some next => ["  next_step: " +:+ next] | None => [] end) ++
    (if decide (unresolved_items s = []) then []
     else ["  unresolved: " +:+ str_join "; " (unresolved_items s)]) ++
    ["</tool-batch-summary>"]).

(** ** Seam facts *)

Module Seam.
Inductive TaskLedgerSeamFact :=
| RunStarted
| ToolBatchCompleted (summary : ToolBatchSummary)
| RecoveryInterrupted
| FinalResponseCommitted
| InteractionAwaiting (kind : AwaitingInteractionKind) (interaction_id : string)
| InteractionResolved (kind : AwaitingInteractionKind) (interaction_id : string)
| EvaluatorGateCompleted (node_path : string) (passed : bool) (goal_generation : Z).
End Seam.
Abbreviation TaskLedgerSeamFact := Seam.TaskLedgerSeamFact.

(** ** Reduction *)

Definition batch_settled_by (summary : ToolBatchSummary) : string :=
  match pending_follow_up summary with
  | follow_up :: _ => follow_up_text follow_up
  | [] => "next tool batch resolving this item"
  end.

Definition reduce_tool_batch (summary : ToolBatchSummary) (snapshot : SessionTaskLedger)
    : list TaskLedgerOp :=
  (unresolved_items summary ≫= λ unresolved,
     if existsb (λ q, bool_decide (q_question q = unresolved)) (open_questions snapshot) then []
     else [Op.OpenQuestion unresolved (batch_settled_by summary)]) ++
  (match recommended_next_step summary with
   | Some next_step => if bool_decide (trim next_step = "") then []
                       else [Op.SetNext next_step (Some Actor.Model)]
   | None => []
   end) ++
  (match batch_goal_status summary, blocked_by summary with
   | GoalStatus.Blocked, reason :: _ =>
       [Op.SetStatus Status.Blocked None (Some (block_reason_debug reason))]
   | _, _ => []
   end).

Definition reduce (fact : TaskLedgerSeamFact) (snapshot : SessionTaskLedger) : list TaskLedgerOp :=
  match goal snapshot with
  | None => []
  | Some _ =>
    match fact with
    | Seam.RunStarted =>
        if bool_decide (status snapshot = Status.Interrupted)
        then [Op.SetStatus Status.Active None None] else []
    | Seam.ToolBatchCompleted summary => reduce_tool_batch summary snapshot
    | Seam.RecoveryInterrupted =>
        if bool_decide (status snapshot = Status.Interrupted) then [] else [Op.Interrupt]
    | Seam.FinalResponseCommitted =>
        if completion_ready snapshot && negb (bool_decide (status snapshot = Status.Completed))
        then [Op.Complete []] else []
    | Seam.EvaluatorGateCompleted node_path passed generation =>
        if passed && bool_decide (generation = goal_generation snapshot)
        then [Op.AddCheckpoint ("scheduler evaluation passed at `" +:+ node_path +:+ "`")
                (Verifier.Evaluator "scheduler-engine")
                {| coverage_scope := "scheduler node evaluation: " +:+ node_path |}
                [] [] (Some node_path) None]
        else []
    | Seam.InteractionAwaiting k id =>
        let reference := {| kind := k; interaction_id := id |} in
        if mem reference (awaiting_interactions snapshot) then []
        else [Op.SetStatus Status.AwaitingUser (Some reference) None]
    | Seam.InteractionResolved k id =>
        if existsb (interaction_is k id) (awaiting_interactions snapshot)
        then [Op.ResolveInteraction k id] else []
    end
  end.

(** ** Reading the ledger back *)

Record DeliveryGateReport := {
  open_questions_outstanding : list string;
  no_verified_checkpoints : bool;
  report_missing_acceptance_criteria : list string;
  report_uncovered_criteria : list string;
}.

Definition final_delivery_gate (snapshot : SessionTaskLedger) : DeliveryGateReport := {|
  open_questions_outstanding :=
    (λ q, q_id q +:+ ": " +:+ q_question q) <$> open_questions snapshot;
  no_verified_checkpoints := match current_checkpoints snapshot with [] => true | _ => false end;
  report_missing_acceptance_criteria :=
    missing_acceptance_criteria snapshot (uncovered_criteria snapshot);
  report_uncovered_criteria := uncovered_criteria snapshot;
|}.

(** One double quote. *)
Definition dq : string := String (Ascii.ascii_of_nat 34) "".

Definition render_ledger_projection (snapshot : SessionTaskLedger) : option string :=
  match goal snapshot with
  | Some g =>
    if bool_decide (revision snapshot = 0%Z) then None
    else Some (str_join (String (Ascii.ascii_of_nat 10) "") (
      ["<task-ledger revision=" +:+ dq +:+ dec_Z (revision snapshot) +:+ dq +:+ " status=" +:+ dq
         +:+ status_debug (status snapshot) +:+ dq +:+ " authority=" +:+ dq +:+ "server" +:+ dq
         +:+ " writable=" +:+ dq +:+ "false" +:+ dq +:+ ">";
       "This typed block is the only task-ledger authority. Do not create or update task-ledger.txt, WORKSPACE.md, or any local mirror; make progress in the requested artifacts instead.";
       "Goal: " +:+ goal_statement g] ++
      (if decide (acceptance_criteria g = []) then []
       else ["Accept: " +:+ str_join " | " (acceptance_criteria g)]) ++
      ((λ c, "Core(live): " +:+ core_statement c) <$> live_core snapshot) ++
      (match last (current_checkpoints snapshot) with
       | Some latest =>
           ["Verified[" +:+ chk_id latest +:+ "]: " +:+ chk_claim latest +:+ " (by "
            +:+ verifier_describe (chk_verifier latest) +:+ ", covered: "
            +:+ coverage_scope (chk_coverage latest) +:+ ")"]
       | None => []
       end) ++
      ((λ q, "Open[" +:+ q_id q +:+ "]: " +:+ q_question q +:+ " — settled by: "
             +:+ q_settled_by q) <$> take 3 (open_questions snapshot)) ++
      (match next snapshot with Some n => ["Next: " +:+ next_statement n] | None => [] end) ++
      ["</task-ledger>"]))
  | None => None
  end.

(** A committed seam: the transaction of [reduce fact l] at the revision it was read. *)
Definition commit_seam (fact : TaskLedgerSeamFact) (l : SessionTaskLedger) (now : Z)
    : ledger_result Z * SessionTaskLedger :=
  apply_batch l (revision l) (reduce fact l) now.

(** ** What seams may do *)

(** The operations seams produce: none of them touches the goal, closes a question,
    corrects a checkpoint or covers a criterion, and only the final response completes. *)
Definition seam_op (final : bool) (op : TaskLedgerOp) : bool :=
  match op with
  | Op.OpenQuestion _ _ | Op.SetNext _ _ | Op.ResolveInteraction _ _ | Op.Interrupt => true
  | Op.SetStatus s _ _ => negb (bool_decide (s = Status.Completed))
  | Op.AddCheckpoint _ _ _ covered _ _ supersedes =>
      bool_decide (covered = []) && bool_decide (supersedes = None)
  | Op.Complete uncovered => final && bool_decide (uncovered = [])
  | _ => false
  end.

Definition is_final (fact : TaskLedgerSeamFact) : bool :=
  match fact with Seam.FinalResponseCommitted => true | _ => false end.

Lemma reduce_tool_batch_ops summary l op :
  op ∈ reduce_tool_batch summary l →
  match op with
  | Op.OpenQuestion q _ => q ∈ unresolved_items summary ∧ q ∉ q_question <$> open_questions l
  | Op.SetNext _ _ => True
  | Op.SetStatus s _ _ => s = Status.Blocked
  | _ => False
  end.
Proof.
  unfold reduce_tool_batch. rewrite !elem_of_app, list_elem_of_bind.
  intros [(q&Hop&Hq)|[H|H]].
  - destruct (existsb _ _) eqn:E; [by apply not_elem_of_nil in Hop|].
    apply list_elem_of_singleton in Hop as ->. split; [done|].
    intros (x&->&Hx)%list_elem_of_fmap. apply not_true_iff_false in E. apply E.
    apply existsb_exists. exists x. rewrite bool_decide_eq_true. by rewrite <- list_elem_of_In.
  - destruct (recommended_next_step summary); [|by apply not_elem_of_nil in H].
    case_bool_decide; [by apply not_elem_of_nil in H|]. by apply list_elem_of_singleton in H as ->.
  - destruct (batch_goal_status summary); try by apply not_elem_of_nil in H.
    destruct (blocked_by summary); [by apply not_elem_of_nil in H|].
    by apply list_elem_of_singleton in H as ->.
Qed.

Lemma reduce_seam_ops fact l : Forall (λ op, seam_op (is_final fact) op = true) (reduce fact l).
Proof.
  unfold reduce. destruct (goal l); [|constructor].
  destruct fact; simpl; try (case_match; by repeat constructor).
  apply Forall_forall. intros op Hop%reduce_tool_batch_ops. by destruct op; simplify_eq/=.
Qed.

Lemma seam_op_frame final l op now l' :
  seam_op final op = true → apply_op l op now = Ok l' →
  goal l' = goal l ∧ goal_generation l' = goal_generation l ∧
  covered_by_current l' = covered_by_current l.
Proof.
  intros Hs H. op_cases op H; try done; split_and!; try done;
    apply andb_true_iff in Hs as [->%bool_decide_eq_true Hs]; try done.
  unfold covered_by_current, current_checkpoints. cbn [set_verified verified].
  rewrite filter_app, bind_app.
  match goal with |- _ ++ ?x = _ => assert (x = []) as -> end; [|apply app_nil_r].
  rewrite filter_cons. by case_decide.
Qed.

Lemma seam_op_status l op now l' :
  seam_op false op = true → apply_op l op now = Ok l' →
  status l ≠ Status.Completed → status l' ≠ Status.Completed.
Proof.
  intros Hs H Hl. op_cases op H; try done. by destruct (_ && _).
Qed.

Lemma seam_ops_frame final ops l now l' :
  Forall (λ op, seam_op final op = true) ops → apply_ops l ops now = Ok l' →
  goal l' = goal l ∧ goal_generation l' = goal_generation l ∧
  covered_by_current l' = covered_by_current l.
Proof.
  unfold apply_ops. revert l. induction ops as [|op ops IH]; simpl; intros l Hops H;
    inv_result; [done|]. inversion Hops; subst.
  destruct (IH a) as (->&->&->); [done..|]. by eapply seam_op_frame.
Qed.

Lemma seam_ops_status ops l now l' :
  Forall (λ op, seam_op false op = true) ops → apply_ops l ops now = Ok l' →
  status l ≠ Status.Completed → status l' ≠ Status.Completed.
Proof.
  unfold apply_ops. revert l. induction ops as [|op ops IH]; simpl; intros l Hops H Hl;
    inv_result; [done|]. inversion Hops; subst. eapply (IH a); eauto using seam_op_status.
Qed.

Lemma apply_complete_ready l now :
  is_Some (goal l) → completable l [] →
  ∃ l', apply_batch l (revision l) [Op.Complete []] now = (Ok (revision l'), l') ∧
    status l' = Status.Completed ∧ uncovered_criteria l' = [].
Proof.
  intros [g Hg] Hc%validate_completion_Ok. unfold apply_batch. rewrite bool_decide_eq_true_2 by done.
  unfold apply_ops. simpl. unfold ensure_created. rewrite Hg. simpl. rewrite Hc. simpl.
  match goal with |- context [validate_snapshot ?s] =>
    assert (validate_snapshot s = Ok tt) as -> end; [exact Hc|]. simpl. by eexists (stamp _ _ _).
Qed.

(** Seam operations never drop an open question. *)
Definition asked (l : SessionTaskLedger) : list string := q_question <$> open_questions l.

Lemma seam_op_asked final l op now l' :
  seam_op final op = true → apply_op l op now = Ok l' →
  ∀ q, q ∈ asked l ∨ (∃ s, op = Op.OpenQuestion q s) → q ∈ asked l'.
Proof.
  intros Hs H q Hq. unfold asked, open_questions in *.
  op_cases op H; try done; try (destruct Hq as [Hq|[? ?]]; [exact Hq|done]).
  rewrite filter_app, fmap_app, elem_of_app.
  destruct Hq as [Hq|[s [= <- <-]]]; [by left|right]. rewrite filter_cons. simpl. by left.
Qed.

Lemma seam_ops_asked final ops l now l' q :
  Forall (λ op, seam_op final op = true) ops → apply_ops l ops now = Ok l' →
  q ∈ asked l ∨ (∃ s, Op.OpenQuestion q s ∈ ops) → q ∈ asked l'.
Proof.
  unfold apply_ops. revert l. induction ops as [|op ops IH]; simpl; intros l Hops H Hq; inv_result.
  - destruct Hq as [Hq|[s Hs]]; [done|by apply not_elem_of_nil in Hs].
  - inversion Hops; subst. apply (IH a); [done..|].
    destruct Hq as [Hq|[s [<-|Hs]%elem_of_cons]]; [left|left|right; eauto];
      eapply seam_op_asked; eauto.
Qed.

Lemma batch_asks summary l u :
  u ∈ unresolved_items summary →
  u ∈ asked l ∨ ∃ s, Op.OpenQuestion u s ∈ reduce_tool_batch summary l.
Proof.
  intros Hu. destruct (existsb (λ q, bool_decide (q_question q = u)) (open_questions l)) eqn:E.
  - left. apply existsb_exists in E as (x&Hx&->%bool_decide_eq_true%symmetry).
    apply list_elem_of_fmap_2, list_elem_of_In, Hx.
  - right. exists (batch_settled_by summary). unfold reduce_tool_batch.
    rewrite elem_of_app, list_elem_of_bind. left. exists u. rewrite E. split; [by left|done].
Qed.

(** ** Properties *)

(** No seam can create acceptance evidence: a committed seam leaves the goal, its
    generation and the set of criteria covered by current checkpoints exactly as they were, so
    the list of missing criteria is the same before and after it. *)
Lemma seams_never_cover_criteria fact l now r l' uncovered :
  commit_seam fact l now = (Ok r, l') →
  goal l' = goal l ∧ goal_generation l' = goal_generation l ∧
  covered_by_current l' = covered_by_current l ∧
  missing_acceptance_criteria l' uncovered = missing_acceptance_criteria l uncovered.
Proof.
  intros (_&_&staged&H&_&->)%apply_batch_Ok.
  destruct (seam_ops_frame _ _ _ _ _ (reduce_seam_ops fact l) H) as (Hg&Hgen&Hc).
  assert (covered_by_current (stamp staged (revision l) now) = covered_by_current l) as Hc' by done.
  split_and!; [done..|]. unfold missing_acceptance_criteria. rewrite Hc'. simpl. by rewrite Hg.
Qed.

(** A seam completes a ledger that was not completed if and only if it is the final
    response and the completion gate holds without any criterion declared uncovered; and
    then it does commit. *)
Lemma seam_completes_iff_final_and_ready fact l now :
  is_Some (goal l) → status l ≠ Status.Completed →
  (∃ r l', commit_seam fact l now = (Ok r, l') ∧ status l' = Status.Completed) ↔
  fact = Seam.FinalResponseCommitted ∧ completable l [].
Proof.
  intros [g Hg] Hs. split.
  - intros (r&l'&H&Hl'). destruct (is_final fact) eqn:Hf.
    + destruct fact; try done. split; [done|]. apply completion_ready_true.
      destruct (completion_ready l) eqn:Hr; [done|]. exfalso.
      unfold commit_seam, reduce in H. rewrite Hg, Hr in H. simpl in H.
      apply apply_batch_Ok in H as (_&_&staged&H&_&->). unfold apply_ops in H. simpl in H.
      inv_result. done.
    + exfalso. apply apply_batch_Ok in H as (_&_&staged&H&_&->).
      eapply seam_ops_status; [|exact H|exact Hs|exact Hl'].
      pose proof (reduce_seam_ops fact l) as Hops. by rewrite Hf in Hops.
  - intros [-> Hc]. unfold commit_seam, reduce. rewrite Hg.
    rewrite (proj2 (completion_ready_true l) Hc), (bool_decide_eq_false_2 _ Hs). simpl.
    destruct (apply_complete_ready l now) as (l'&H&?&_); [by eexists|done|]. eauto.
Qed.

Lemma apply_ops_single l op now l' : apply_ops l [op] now = Ok l' → apply_op l op now = Ok l'.
Proof. unfold apply_ops. cbn [fold_result]. by destruct (apply_op l op now). Qed.

Lemma apply_ops_nil l now l' : apply_ops l [] now = Ok l' → l' = l.
Proof. unfold apply_ops. simpl. congruence. Qed.

(** Seams are idempotent: once a lifecycle or interaction fact, or a failed evaluation, is
    committed, observing the same fact again produces no operation, so it neither bumps the
    revision nor changes the ledger. *)
Lemma lifecycle_seams_idempotent fact l now r l' :
  match fact with
  | Seam.ToolBatchCompleted _ | Seam.EvaluatorGateCompleted _ true _ => False
  | _ => True
  end →
  commit_seam fact l now = (Ok r, l') → reduce fact l' = [].
Proof.
  intros Hf (_&_&staged&H&_&->)%apply_batch_Ok.
  destruct (decide (reduce fact l = [])) as [E|E].
  - rewrite E in H. unfold apply_ops in H. simpl in H. inv_result. exact E.
  - unfold reduce in *. destruct (goal l) as [g|] eqn:Hg; [|done].
    change (goal (stamp staged (revision l) now)) with (goal staged).
    destruct (goal staged); [|done].
    destruct fact as [|s| | |k id|k id|path [] gen]; try done;
      match type of E with (if ?b then _ else _) ≠ _ => destruct b eqn:Eb; try done end;
      apply apply_ops_single in H; simpl in H; unfold apply_set_status, apply_resolve_interaction in H;
      simpl in H; inv_result; simpl.
    + done.
    + done.
    + by rewrite andb_false_r.
    + rewrite Eb, (proj2 (mem_true _ _)); [done|set_solver].
    + destruct (existsb _ (filter _ _)) eqn:Ex; [|done]. apply existsb_exists in Ex as (x&Hx&Hk).
      apply list_elem_of_In, list_elem_of_filter in Hx as [Hn _]. by rewrite Hk in Hn.
Qed.

(** A tool batch reports each unresolved item once: after its seam is committed every
    unresolved item of the batch is an open question, and reducing the same batch again opens
    no further question. *)
Lemma tool_batch_asks_once summary l now r l' :
  is_Some (goal l) → commit_seam (Seam.ToolBatchCompleted summary) l now = (Ok r, l') →
  (∀ u, u ∈ unresolved_items summary → u ∈ asked l') ∧
  (∀ q s, Op.OpenQuestion q s ∉ reduce (Seam.ToolBatchCompleted summary) l').
Proof.
  intros [g Hg] (_&_&staged&H&_&->)%apply_batch_Ok.
  pose proof (reduce_seam_ops (Seam.ToolBatchCompleted summary) l) as Hops.
  unfold reduce in H, Hops. rewrite Hg in H, Hops.
  assert (∀ u, u ∈ unresolved_items summary → u ∈ asked staged) as Hasked.
  { intros u Hu. eapply seam_ops_asked; [exact Hops|exact H|by apply batch_asks]. }
  split; [exact Hasked|]. intros q s Hin. unfold reduce in Hin.
  destruct (goal (stamp _ _ _)); [|by apply not_elem_of_nil in Hin].
  apply reduce_tool_batch_ops in Hin as [Hu Hnot]. apply Hnot, Hasked, Hu.
Qed.

(** A tool batch whose failure blocked the goal does block the ledger: when its seam
    commits, the ledger is Blocked with the first reason the batch gives, and its plan is the
    recommended next step if the batch names one, otherwise the plan it had. *)
Lemma blocked_batch_blocks summary l now r l' reason reasons :
  is_Some (goal l) → batch_goal_status summary = GoalStatus.Blocked →
  blocked_by summary = reason :: reasons →
  commit_seam (Seam.ToolBatchCompleted summary) l now = (Ok r, l') →
  status l' = Status.Blocked ∧ blocked_reason l' = Some (block_reason_debug reason) ∧
  next_statement <$> next l' =
    match recommended_next_step summary with
    | Some step => if bool_decide (trim step = "") then next_statement <$> next l else Some step
    | None => next_statement <$> next l
    end.
Proof.
  intros [g Hg] Hs Hb (_&_&staged&H&_&->)%apply_batch_Ok. unfold reduce in H. rewrite Hg in H.
  unfold reduce_tool_batch in H. rewrite Hs, Hb in H. unfold apply_ops in H.
  rewrite fold_result_app in H. apply rbind_Ok in H as (l1&H1&H).
  rewrite fold_result_app in H. apply rbind_Ok in H as (l2&H2&H).
  apply apply_ops_single in H. simpl in H. unfold apply_set_status in H. simpl in H. inv_result. simpl.
  split_and!; [done..|].
  assert (next l1 = next l) as <-.
  { refine (fold_result_ind (λ l1, next l1 = next l) _ _ _ _ _ eq_refl H1).
    intros a op b (u&Hu&_)%list_elem_of_bind <- Hop. destruct (existsb _ _).
    - by apply not_elem_of_nil in Hu.
    - apply list_elem_of_singleton in Hu as ->. simpl in Hop. unfold apply_open_question in Hop.
      inv_result. done. }
  destruct (recommended_next_step summary) as [step|]; [|by apply apply_ops_nil in H2 as ->].
  destruct (bool_decide (trim step = "")); [by apply apply_ops_nil in H2 as ->|].
  apply apply_ops_single in H2. simpl in H2. inv_result. done.
Qed.

(** *** Concrete seams *)

Definition demo_batch : ToolBatchSummary := {|
  tools_used := ["bash"]; success_count := 0; error_count := 1; error_kinds := ["timeout"];
  batch_goal_status := GoalStatus.Blocked; blocked_by := [BlockReason.Timeout];
  artifacts_created := []; pending_follow_up := []; unresolved_items := ["tests hang"; "which port?"];
  recommended_next_step := Some "bisect the hang" |}.

Definition demo_ready : SessionTaskLedger :=
  snd (apply_batch (ledger_empty "s") 0
    [Op.Create demo_goal "w"; demo_checkpoint ["builds"; "tests pass"] None] 5).
