(* ===== verification/TaskLedgerStall.v ===== *)
(** * Stall detection and bounded replanning

    crates/agendao-server/src/session_runtime/task_ledger_stall.rs: the
    observation window over ledger frames, the per-session control state and
    its evaluation, and the registry of controls.  The theorems bound the
    automatic actions of a run, say when one may be taken, and show that a run
    that never moves is replanned twice and then blocked. *)

From S2P Require Import Prelude TaskLedger TaskLedgerIds TaskLedgerGate TaskLedgerInv TaskLedgerProps TaskLedgerReducer.

Definition WINDOW : nat := 3.
Definition MAX_REPLAN_ATTEMPTS : Z := 2.
Definition REPLAN_DEADLINE_MS : Z := 120000.

Record StallFrame := {
  frame_next : option string;
  frame_verified : nat;
  frame_open : nat;
}.

(** [StallWindow]: the deque, oldest frame first. *)
Definition StallWindow := list StallFrame.

Module StallPhase.
Inductive StallPhase := Healthy | Suspected | Stalled | Replanning | Blocked.
End StallPhase.
Abbreviation StallPhase := StallPhase.StallPhase.

Module StallAction.
Inductive StallAction :=
| None
| Replan (attempt : Z) (next_statement steering : string)
| Block (reason : string).
End StallAction.
Abbreviation StallAction := StallAction.StallAction.

Module Obs.
Inductive StallObservation :=
| NextUnchanged (seams : nat)
| NoNewVerification (seams : nat)
| OpenCountGrowing (seams : nat)
| VerifiedGrowingButNextUnchanged (seams : nat).
#[export] Instance observation_eq_dec : EqDecision StallObservation.
Proof. solve_decision. Defined.
End Obs.
Export (hints) Obs.
Abbreviation StallObservation := Obs.StallObservation.

Record StallDecision := {
  decision_phase : StallPhase;
  decision_observations : list StallObservation;
  decision_replan_attempts : Z;
  decision_deadline_at_ms : Z;
  decision_action : StallAction;
}.

Record SessionStallControl := {
  window : StallWindow;
  phase : StallPhase;
  consecutive_hits : Z;
  replan_attempts : Z;
  deadline_at_ms : Z;
}.

(** [SessionStallControl::default] *)
Definition stall_default : SessionStallControl := {|
  window := []; phase := StallPhase.Healthy; consecutive_hits := 0; replan_attempts := 0;
  deadline_at_ms := 0 |}.

(** ** The window *)

Fixpoint windows2_all (R : nat → nat → bool) (xs : list nat) : bool :=
  match xs with
  | x :: (y :: _) as xs' => R x y && windows2_all R xs'
  | _ => true
  end.

(** [observe] *)
Definition observe (frames : StallWindow) : list StallObservation :=
  if bool_decide (length frames < WINDOW) then []
  else
    let nexts := frame_next <$> frames in
    let next_unchanged :=
      match head nexts with Some (Some _) => true | _ => false end &&
      bool_decide (length (remove_dups nexts) = 1) in
    let verified_flat :=
      bool_decide (frame_verified <$> head frames = frame_verified <$> last frames) in
    let opens := frame_open <$> frames in
    let opens_growing := windows2_all Nat.ltb opens in
    (if next_unchanged then [Obs.NextUnchanged WINDOW] else []) ++
    (if verified_flat then [Obs.NoNewVerification WINDOW] else []) ++
    (if opens_growing then [Obs.OpenCountGrowing WINDOW] else []) ++
    (if next_unchanged && negb verified_flat
     then [Obs.VerifiedGrowingButNextUnchanged WINDOW] else []).

(** Frames that neither count nor accrue. *)
Definition suppressed (l : SessionTaskLedger) : bool :=
  match status l with Status.AwaitingUser | Status.Interrupted => true | _ => false end.

Definition frame_of (l : SessionTaskLedger) : StallFrame := {|
  frame_next := next_statement <$> next l;
  frame_verified := length (verified l);
  frame_open := length (open_questions l) |}.

(** [StallWindow::push_frame] *)
Definition push_frame (frames : StallWindow) (l : SessionTaskLedger)
    : StallWindow * list StallObservation :=
  if suppressed l then (frames, [])
  else
    let frames := frames ++ [frame_of l] in
    let frames := if bool_decide (WINDOW < length frames) then tail frames else frames in
    (frames, observe frames).

(** [StallWindow::record] *)
Definition window_record (frames : StallWindow) (l : SessionTaskLedger)
    : StallWindow * list StallObservation := push_frame [] l.

(** ** Control *)

(** [SessionStallControl::decision] *)
Definition decision (c : SessionStallControl) (observations : list StallObservation)
    (action : StallAction) : StallDecision := {|
  decision_phase := phase c; decision_observations := observations;
  decision_replan_attempts := replan_attempts c; decision_deadline_at_ms := deadline_at_ms c;
  decision_action := action |}.

Definition with_window (c : SessionStallControl) w := {|
  window := w; phase := phase c; consecutive_hits := consecutive_hits c;
  replan_attempts := replan_attempts c; deadline_at_ms := deadline_at_ms c |}.
Definition with_phase (c : SessionStallControl) p := {|
  window := window c; phase := p; consecutive_hits := consecutive_hits c;
  replan_attempts := replan_attempts c; deadline_at_ms := deadline_at_ms c |}.
Definition with_hits (c : SessionStallControl) h := {|
  window := window c; phase := phase c; consecutive_hits := h;
  replan_attempts := replan_attempts c; deadline_at_ms := deadline_at_ms c |}.
Definition with_attempts (c : SessionStallControl) a := {|
  window := window c; phase := phase c; consecutive_hits := consecutive_hits c;
  replan_attempts := a; deadline_at_ms := deadline_at_ms c |}.
Definition with_deadline (c : SessionStallControl) d := {|
  window := window c; phase := phase c; consecutive_hits := consecutive_hits c;
  replan_attempts := replan_attempts c; deadline_at_ms := d |}.

Definition is_no_new_verification (o : StallObservation) : bool :=
  match o with Obs.NoNewVerification _ => true | _ => false end.
Definition is_repeated_direction (o : StallObservation) : bool :=
  match o with Obs.NextUnchanged _ | Obs.OpenCountGrowing _ => true | _ => false end.

Definition replan_next (attempt : Z) : string :=
  "Replan attempt " +:+ dec_Z attempt +:+
  ": run one different discriminating check before repeating the prior action".
Definition replan_steering (attempt : Z) : string :=
  "Task governance detected repeated typed stall evidence. Replan attempt " +:+ dec_Z attempt
  +:+ "/" +:+ dec_Z MAX_REPLAN_ATTEMPTS +:+
  ": change strategy now. Run a different discriminating check; then either make concrete progress or name a specific blocker. Do not repeat the previous action unchanged.".

(** [SessionStallControl::evaluate] *)
Definition evaluate (c : SessionStallControl) (l : SessionTaskLedger) (run_started : bool)
    (now_ms : Z) (auto_replan cancelled : bool) : SessionStallControl * StallDecision :=
  if run_started then
    let c := with_phase c StallPhase.Healthy in
    let c := with_attempts (with_hits c 0) 0 in
    let c := with_deadline c (i64_saturating_add now_ms REPLAN_DEADLINE_MS) in
    let '(w, observations) := window_record (window c) l in
    let c := with_window c w in
    (c, decision c observations StallAction.None)
  else if negb auto_replan then
    let c := with_hits (with_phase (with_window c []) StallPhase.Healthy) 0 in
    (c, decision c [] StallAction.None)
  else
    let '(w, observations) := push_frame (window c) l in
    let c := with_window c w in
    if suppressed l then (c, decision c observations StallAction.None)
    else if bool_decide (status l = Status.Blocked) then
      let c := with_phase c StallPhase.Blocked in
      (c, decision c observations StallAction.None)
    else
      let no_new_verification := existsb is_no_new_verification observations in
      let repeated_direction := existsb is_repeated_direction observations in
      if negb (no_new_verification && repeated_direction) then
        let c := with_hits (with_phase c StallPhase.Healthy) 0 in
        (c, decision c observations StallAction.None)
      else
        let c := with_hits c (u32_saturating_add (consecutive_hits c) 1) in
        if bool_decide (consecutive_hits c = 1%Z) then
          let c := with_phase c StallPhase.Suspected in
          (c, decision c observations StallAction.None)
        else
          let c := with_phase c StallPhase.Stalled in
          if cancelled then (c, decision c observations StallAction.None)
          else if (deadline_at_ms c <=? now_ms)%Z then
            let c := with_phase c StallPhase.Blocked in
            (c, decision c observations
                  (StallAction.Block "automatic replanning deadline exhausted"))
          else if (MAX_REPLAN_ATTEMPTS <=? replan_attempts c)%Z then
            let c := with_phase c StallPhase.Blocked in
            (c, decision c observations
                  (StallAction.Block ("automatic replanning budget exhausted after "
                     +:+ dec_Z MAX_REPLAN_ATTEMPTS +:+ " attempts")))
          else
            let c := with_attempts c (u32_add (replan_attempts c) 1) in
            let c := with_phase c StallPhase.Replanning in
            let attempt := replan_attempts c in
            (c, decision c observations
                  (StallAction.Replan attempt (replan_next attempt) (replan_steering attempt))).

(** [SessionStallControl::rebaseline] *)
Definition control_rebaseline (c : SessionStallControl) (l : SessionTaskLedger)
    : SessionStallControl :=
  with_hits (with_window c (fst (push_frame [] l))) 0.

(** ** Registry *)

Definition StallWindows := gmap string SessionStallControl.

(** [StallWindows::record] *)
Definition stall_record (ws : StallWindows) (sid : string) (l : SessionTaskLedger)
    (run_started : bool) (now_ms : Z) (auto_replan cancelled : bool)
    : StallWindows * StallDecision :=
  if bool_decide (revision l = 0%Z) then
    (ws, {| decision_phase := StallPhase.Healthy; decision_observations := [];
            decision_replan_attempts := 0; decision_deadline_at_ms := 0;
            decision_action := StallAction.None |})
  else
    let '(c, d) := evaluate (default stall_default (ws !! sid)) l run_started now_ms
                     auto_replan cancelled in
    (<[sid := c]> ws, d).

(** [StallWindows::rebaseline] *)
Definition stall_rebaseline (ws : StallWindows) (sid : string) (l : SessionTaskLedger)
    : StallWindows :=
  <[sid := control_rebaseline (default stall_default (ws !! sid)) l]> ws.

(** [StallWindows::forget] *)
Definition stall_forget (ws : StallWindows) (sid : string) : StallWindows := delete sid ws.

(** ** Observations *)

Lemma remove_dups_cons_in {A} `{EqDecision A} (x : A) l :
  x ∈ l → remove_dups (x :: l) = remove_dups l.
Proof. intros H. simpl. by destruct (decide_rel (∈) x l). Qed.

(** One distinct value: every element equals the first. *)
Lemma remove_dups_single {A} `{EqDecision A} (x : A) l :
  length (remove_dups (x :: l)) = 1 ↔ Forall (eq x) l.
Proof.
  split.
  - intros H. destruct (remove_dups (x :: l)) as [|y [|]] eqn:E; try done.
    assert (∀ z, z ∈ x :: l → z = y) as Hall.
    { intros z Hz%elem_of_remove_dups. rewrite E in Hz. by apply list_elem_of_singleton in Hz. }
    rewrite (Hall x) by by left. apply Forall_forall. intros z Hz. symmetry. apply Hall. by right.
  - induction 1 as [|y l <- _ IH]; [done|]. rewrite remove_dups_cons_in by by left. done.
Qed.

Lemma observe_short frames : length frames < WINDOW → observe frames = [].
Proof. intros H. unfold observe. by rewrite bool_decide_eq_true_2. Qed.

Lemma elem_of_guard {A} (b : bool) (x o : A) : o ∈ (if b then [x] else []) ↔ b = true ∧ o = x.
Proof. destruct b; set_solver. Qed.

Lemma observe_full f1 f2 f3 o :
  o ∈ observe [f1; f2; f3] ↔
  o = Obs.NextUnchanged WINDOW ∧ is_Some (frame_next f1) ∧
    frame_next f1 = frame_next f2 ∧ frame_next f1 = frame_next f3 ∨
  o = Obs.NoNewVerification WINDOW ∧ frame_verified f1 = frame_verified f3 ∨
  o = Obs.OpenCountGrowing WINDOW ∧ frame_open f1 < frame_open f2 < frame_open f3 ∨
  o = Obs.VerifiedGrowingButNextUnchanged WINDOW ∧ frame_verified f1 ≠ frame_verified f3 ∧
    is_Some (frame_next f1) ∧ frame_next f1 = frame_next f2 ∧ frame_next f1 = frame_next f3.
Proof.
  unfold observe. rewrite (bool_decide_eq_false_2 (_ < _)) by (unfold WINDOW; simpl; lia).
  cbn [fmap list_fmap head last].
  set (nu := (_ && bool_decide (length (remove_dups _) = 1))).
  assert (nu = true ↔ is_Some (frame_next f1) ∧ frame_next f1 = frame_next f2 ∧
            frame_next f1 = frame_next f3) as Hnu.
  { subst nu. rewrite andb_true_iff, bool_decide_eq_true, remove_dups_single, !Forall_cons.
    rewrite Forall_nil. destruct (frame_next f1) as [n|].
    - assert (is_Some (Some n)) by eauto. intuition.
    - split; [by intros [? _]|by intros [[? ?] _]]. }
  assert (Some (frame_verified f1) = Some (frame_verified f3) ↔
            frame_verified f1 = frame_verified f3) as Hvf by (split; [by intros [= ->]|by intros ->]).
  assert (windows2_all Nat.ltb [frame_open f1; frame_open f2; frame_open f3] = true ↔
            frame_open f1 < frame_open f2 < frame_open f3) as Hop.
  { simpl. rewrite !andb_true_iff, !Nat.ltb_lt. tauto. }
  rewrite !elem_of_app, !elem_of_guard, andb_true_iff, negb_true_iff, Hnu, Hop.
  rewrite bool_decide_eq_true, bool_decide_eq_false. simpl. tauto.
Qed.

(** ** Invariant of a control *)

Record control_ok (c : SessionStallControl) : Prop := {
  co_window : length (window c) ≤ WINDOW;
  co_attempts : (0 ≤ replan_attempts c ≤ MAX_REPLAN_ATTEMPTS)%Z;
}.

Lemma control_ok_default : control_ok stall_default.
Proof. split; vm_compute; [lia|done]. Qed.

Lemma push_frame_length frames l : length frames ≤ WINDOW → length (fst (push_frame frames l)) ≤ WINDOW.
Proof.
  unfold push_frame. destruct (suppressed l); [done|]. simpl. intros H.
  case_bool_decide; [|lia]. destruct frames; simpl in *; [lia|].
  rewrite length_app. simpl. unfold WINDOW in *. lia.
Qed.

(** The case analysis of an evaluation, by its equations. *)
Ltac eval_cases :=
  repeat match goal with
  | |- context [push_frame ?w ?l] => let w' := fresh "w" in let o := fresh "obs" in
      destruct (push_frame w l) as [w' o] eqn:?; simpl
  | |- context [if ?b then _ else _] => destruct b eqn:?; simpl
  end.

Lemma evaluate_ok c l rs now auto cancelled :
  control_ok c → control_ok (fst (evaluate c l rs now auto cancelled)).
Proof.
  intros [Hw Ha]. pose proof (push_frame_length (window c) l Hw) as Hpush.
  pose proof (push_frame_length [] l (Nat.le_0_l _)) as Hpush0.
  unfold evaluate, window_record. eval_cases; split; simpl in *; try done; try lia;
    unfold MAX_REPLAN_ATTEMPTS, u32_add, WINDOW in *; simpl in *; try lia.
  all: rewrite Z.mod_small; lia.
Qed.

(** ** Runs of one session's control *)

Inductive stall_event :=
| Evaluated (l : SessionTaskLedger) (run_started : bool) (now : Z) (auto_replan cancelled : bool)
| Rebaselined (l : SessionTaskLedger).

Definition stall_step (c : SessionStallControl) (e : stall_event)
    : SessionStallControl * option StallDecision :=
  match e with
  | Evaluated l rs now auto cancelled =>
      let '(c', d) := evaluate c l rs now auto cancelled in (c', Some d)
  | Rebaselined l => (control_rebaseline c l, None)
  end.

Fixpoint stall_run (c : SessionStallControl) (es : list stall_event)
    : SessionStallControl * list StallDecision :=
  match es with
  | [] => (c, [])
  | e :: es' =>
      let '(c', d) := stall_step c e in
      let '(c'', ds) := stall_run c' es' in
      (c'', match d with Some d => d :: ds | None => ds end)
  end.

Definition is_replan (d : StallDecision) : bool :=
  match decision_action d with StallAction.Replan _ _ _ => true | _ => false end.

Definition starts_run (e : stall_event) : bool :=
  match e with Evaluated _ rs _ _ _ => rs | Rebaselined _ => false end.

Definition replans (ds : list StallDecision) : Z :=
  Z.of_nat (length (filter (λ d, Is_true (is_replan d)) ds)).

Lemma rebaseline_ok c l : control_ok c → control_ok (control_rebaseline c l).
Proof. intros [Hw Ha]. split; simpl; [by apply push_frame_length, Nat.le_0_l|done]. Qed.

(** Every replan of a running run is counted in the control. *)
Lemma evaluate_replans c l now auto cancelled c' d :
  control_ok c → evaluate c l false now auto cancelled = (c', d) →
  replan_attempts c' = (replan_attempts c + if is_replan d then 1 else 0)%Z ∧
  deadline_at_ms c' = deadline_at_ms c.
Proof.
  intros [Hw Ha]. unfold evaluate. eval_cases; intros [= <- <-]; simpl; split; try done; try lia.
  unfold MAX_REPLAN_ATTEMPTS, u32_add in *. apply Z.leb_gt in Heqb6. rewrite Z.mod_small; lia.
Qed.

Lemma stall_run_replans c es c' ds :
  control_ok c → Forall (λ e, starts_run e = false) es → stall_run c es = (c', ds) →
  control_ok c' ∧ replan_attempts c' = (replan_attempts c + replans ds)%Z ∧
  deadline_at_ms c' = deadline_at_ms c.
Proof.
  intros Hc Hes. revert c c' ds Hc. induction Hes as [|e es He _ IH]; intros c c' ds Hc; simpl.
  { intros [= <- <-]. split_and!; [done|unfold replans; simpl; lia|done]. }
  destruct (stall_step c e) as [c1 d] eqn:E1. destruct (stall_run c1 es) as [c2 ds'] eqn:E2.
  intros [= <- <-]. destruct e as [l rs now auto canc|l]; simpl in *; subst.
  - destruct (evaluate c l false now auto canc) as [c3 d3] eqn:E3. injection E1 as <- <-.
    pose proof (evaluate_ok c l false now auto canc Hc) as Hc3. rewrite E3 in Hc3.
    destruct (evaluate_replans _ _ _ _ _ _ _ Hc E3) as [Ha Hd].
    destruct (IH _ _ _ Hc3 E2) as (?&Ha2&Hd2). simpl in *. split_and!; [done| |congruence].
    unfold replans in *. rewrite filter_cons, Ha2, Ha. destruct (is_replan d3); simpl; lia.
  - injection E1 as <- <-. destruct (IH _ _ _ (rebaseline_ok c l Hc) E2) as (?&Ha2&Hd2). done.
Qed.

Lemma push_frame_full w l f1 f2 f3 obs :
  push_frame w l = ([f1; f2; f3], obs) → suppressed l = false →
  f3 = frame_of l ∧ obs = observe [f1; f2; f3].
Proof.
  unfold push_frame. intros H Hs. rewrite Hs in H. injection H as Hw <-. split; [|by rewrite Hw].
  assert (last (if bool_decide (WINDOW < length (w ++ [frame_of l])) then tail (w ++ [frame_of l])
                else w ++ [frame_of l]) = Some (frame_of l)) as Hl.
  { case_bool_decide; [|by rewrite last_snoc]. destruct w as [|x [|y w]]; simpl in *.
    - unfold WINDOW in *; lia.
    - done.
    - by rewrite app_comm_cons, last_snoc. }
  rewrite Hw in Hl. by injection Hl.
Qed.

Lemma observe_nonempty_full w :
  length w ≤ WINDOW → observe w ≠ [] → ∃ f1 f2 f3, w = [f1; f2; f3].
Proof.
  intros Hl Ho. destruct w as [|f1 [|f2 [|f3 [|f4 w]]]]; simpl in Hl; unfold WINDOW in Hl; try lia;
    try (exfalso; apply Ho, observe_short; unfold WINDOW; simpl; lia). eauto.
Qed.

(** A run whose frame never changes accumulates the two standing observations. *)
Lemma observe_same f : is_Some (frame_next f) →
  existsb is_no_new_verification (observe [f; f; f]) && existsb is_repeated_direction (observe [f; f; f]) = true.
Proof.
  intros Hn. apply andb_true_iff. split; apply existsb_exists; eexists;
    (split; [apply list_elem_of_In, observe_full|]).
  - right; left. split; [reflexivity|done].
  - done.
  - left. split; [reflexivity|]. by split.
  - done.
Qed.

(** A ledger that is running and has a plan. *)
Definition running (l : SessionTaskLedger) : Prop := status l = Status.Active ∧ is_Some (next l).

Definition budget_exhausted : StallAction :=
  StallAction.Block ("automatic replanning budget exhausted after " +:+ dec_Z MAX_REPLAN_ATTEMPTS
    +:+ " attempts").

Definition based_on (l : SessionTaskLedger) (a d : Z) (c : SessionStallControl) : Prop :=
  window c = [frame_of l] ∧ replan_attempts c = a ∧ deadline_at_ms c = d.

Lemma suppressed_running l : running l → suppressed l = false.
Proof. intros [Hs _]. unfold suppressed. by rewrite Hs. Qed.

Lemma push_frame_running w l : running l → length w < WINDOW →
  push_frame w l = (w ++ [frame_of l], observe (w ++ [frame_of l])).
Proof.
  intros Hr Hw. unfold push_frame. rewrite (suppressed_running l Hr), bool_decide_eq_false_2; [done|].
  rewrite length_app. simpl. lia.
Qed.

(** The evaluation of a running ledger whose push makes the window [w]. *)
Lemma evaluate_running c l now w : running l →
  push_frame (window c) l = (w, observe w) →
  evaluate c l false now true false =
    let c := with_window c w in
    let observations := observe w in
    if negb (existsb is_no_new_verification observations &&
             existsb is_repeated_direction observations) then
      let c := with_hits (with_phase c StallPhase.Healthy) 0 in
      (c, decision c observations StallAction.None)
    else
      let c := with_hits c (u32_saturating_add (consecutive_hits c) 1) in
      if bool_decide (consecutive_hits c = 1%Z) then
        let c := with_phase c StallPhase.Suspected in
        (c, decision c observations StallAction.None)
      else if (deadline_at_ms c <=? now)%Z then
        let c := with_phase c StallPhase.Blocked in
        (c, decision c observations
              (StallAction.Block "automatic replanning deadline exhausted"))
      else if (MAX_REPLAN_ATTEMPTS <=? replan_attempts c)%Z then
        let c := with_phase c StallPhase.Blocked in (c, decision c observations budget_exhausted)
      else
        let attempt := u32_add (replan_attempts c) 1 in
        let c := with_phase (with_attempts c attempt) StallPhase.Replanning in
        (c, decision c observations
              (StallAction.Replan attempt (replan_next attempt) (replan_steering attempt))).
Proof.
  intros Hr Hp. unfold evaluate. cbn [negb]. rewrite Hp, (suppressed_running l Hr).
  destruct Hr as [-> _]. done.
Qed.

Lemma frame_named l : running l → is_Some (frame_next (frame_of l)).
Proof. intros [_ [n Hn]]. simpl. rewrite Hn. by eexists. Qed.

Lemma evaluate_quiet c l now : running l → window c = [frame_of l] →
  ∃ c' d, evaluate c l false now true false = (c', d) ∧ decision_action d = StallAction.None ∧
    window c' = [frame_of l; frame_of l] ∧ consecutive_hits c' = 0%Z ∧
    replan_attempts c' = replan_attempts c ∧ deadline_at_ms c' = deadline_at_ms c.
Proof.
  intros Hr Hw.
  rewrite (evaluate_running _ _ _ [frame_of l; frame_of l]); [|done|].
  - cbv zeta. rewrite observe_short by (unfold WINDOW; simpl; lia). simpl. eauto 10.
  - rewrite Hw, push_frame_running; [done..|unfold WINDOW; simpl; lia].
Qed.

Lemma evaluate_suspect c l now : running l → window c = [frame_of l; frame_of l] →
  consecutive_hits c = 0%Z →
  ∃ c' d, evaluate c l false now true false = (c', d) ∧ decision_action d = StallAction.None ∧
    decision_phase d = StallPhase.Suspected ∧
    window c' = [frame_of l; frame_of l; frame_of l] ∧ consecutive_hits c' = 1%Z ∧
    replan_attempts c' = replan_attempts c ∧ deadline_at_ms c' = deadline_at_ms c.
Proof.
  intros Hr Hw Hh.
  rewrite (evaluate_running _ _ _ [frame_of l; frame_of l; frame_of l]); [|done|].
  - cbv zeta. rewrite observe_same by by apply frame_named. cbn. rewrite Hh. simpl. eauto 10.
  - rewrite Hw, push_frame_running; [done..|unfold WINDOW; simpl; lia].
Qed.

Lemma evaluate_act c l now : running l → control_ok c → window c = [frame_of l; frame_of l; frame_of l] →
  consecutive_hits c = 1%Z → (now < deadline_at_ms c)%Z →
  ∃ c' d, evaluate c l false now true false = (c', d) ∧ deadline_at_ms c' = deadline_at_ms c ∧
    if decide (replan_attempts c = MAX_REPLAN_ATTEMPTS)
    then decision_action d = budget_exhausted
    else let a := (replan_attempts c + 1)%Z in replan_attempts c' = a ∧
         decision_action d = StallAction.Replan a (replan_next a) (replan_steering a).
Proof.
  intros Hr [_ Ha] Hw Hh Hd.
  rewrite (evaluate_running _ _ _ [frame_of l; frame_of l; frame_of l]); [|done|].
  - cbv zeta. rewrite observe_same by by apply frame_named. cbn [negb]. cbn. rewrite Hh.
    rewrite (bool_decide_eq_false_2 (_ = 1%Z)) by done. rewrite (proj2 (Z.leb_gt _ now)) by done.
    case_decide as Hm.
    + rewrite (proj2 (Z.leb_le _ _)) by (rewrite Hm; done). eauto 10.
    + rewrite (proj2 (Z.leb_gt _ _)) by lia.
      assert (u32_add (replan_attempts c) 1 = replan_attempts c + 1)%Z as ->.
      { unfold u32_add, MAX_REPLAN_ATTEMPTS in *. rewrite Z.mod_small; lia. }
      eauto 10.
  - rewrite Hw. unfold push_frame. by rewrite (suppressed_running l Hr).
Qed.

(** Three frames of an unchanged ledger: nothing, a suspicion, an action. *)
Definition idle (l : SessionTaskLedger) (ts : Z * Z * Z) : list stall_event :=
  let '(t1, t2, t3) := ts in
  [Evaluated l false t1 true false; Evaluated l false t2 true false; Evaluated l false t3 true false].

Lemma stall_run_app c es fs :
  stall_run c (es ++ fs) =
    let '(c', ds) := stall_run c es in
    let '(c'', ds') := stall_run c' fs in (c'', ds ++ ds').
Proof.
  revert c. induction es as [|e es IH]; intros c; simpl; [by destruct (stall_run c fs)|].
  destruct (stall_step c e) as [c1 d]. rewrite IH. destruct (stall_run c1 es) as [c2 ds].
  destruct (stall_run c2 fs) as [c3 ds']. by destruct d.
Qed.

Lemma stalled_round c l ts :
  running l → control_ok c → window c = [frame_of l] → (snd ts < deadline_at_ms c)%Z →
  ∃ c' ds, stall_run c (idle l ts) = (c', ds) ∧ control_ok c' ∧
    deadline_at_ms c' = deadline_at_ms c ∧
    if decide (replan_attempts c = MAX_REPLAN_ATTEMPTS)
    then decision_action <$> ds = [StallAction.None; StallAction.None; budget_exhausted]
    else let a := (replan_attempts c + 1)%Z in replan_attempts c' = a ∧
         decision_action <$> ds = [StallAction.None; StallAction.None;
                                   StallAction.Replan a (replan_next a) (replan_steering a)].
Proof.
  destruct ts as [[t1 t2] t3]. intros Hr Hc Hw Ht. simpl in Ht.
  destruct (evaluate_quiet c l t1) as (c1&d1&E1&A1&W1&H1&R1&D1); [done..|].
  destruct (evaluate_suspect c1 l t2) as (c2&d2&E2&A2&_&W2&H2&R2&D2); [done..|].
  pose proof (evaluate_ok c l false t1 true false Hc) as Hc1. rewrite E1 in Hc1.
  pose proof (evaluate_ok c1 l false t2 true false Hc1) as Hc2. rewrite E2 in Hc2.
  destruct (evaluate_act c2 l t3) as (c3&d3&E3&D3&H3); [done..|congruence|].
  pose proof (evaluate_ok c2 l false t3 true false Hc2) as Hc3. rewrite E3 in Hc3.
  unfold idle. cbn [stall_run stall_step]. rewrite E1. cbv beta iota. rewrite E2. cbv beta iota. rewrite E3.
  eexists _, _. split; [reflexivity|]. split; [exact Hc3|].
  split; [congruence|]. rewrite R2, R1 in H3. csimpl. rewrite A1, A2.
  case_decide; [by rewrite H3|]. destruct H3 as [-> ->]. done.
Qed.

(** ** Properties *)

(** Automatic replanning is bounded: between two run starts, whatever frames, clock
    readings, cancellations and rebaselines come in whatever order, at most two replan actions
    are decided, the deadline does not move, and the window never holds more than three
    frames. *)
Lemma replans_bounded_per_run c l now auto cancelled c0 d es c' ds :
  control_ok c → evaluate c l true now auto cancelled = (c0, d) →
  Forall (λ e, starts_run e = false) es → stall_run c0 es = (c', ds) →
  (replans ds ≤ MAX_REPLAN_ATTEMPTS)%Z ∧
  deadline_at_ms c' = i64_saturating_add now REPLAN_DEADLINE_MS ∧ length (window c') ≤ WINDOW.
Proof.
  intros Hc H0 Hes Hrun. pose proof (evaluate_ok c l true now auto cancelled Hc) as Hc0.
  rewrite H0 in Hc0. simpl in Hc0.
  destruct (stall_run_replans _ _ _ _ Hc0 Hes Hrun) as ([Hw Ha']&Ha&Hd).
  assert (replan_attempts c0 = 0%Z ∧ deadline_at_ms c0 = i64_saturating_add now REPLAN_DEADLINE_MS)
    as [E1 E2].
  { unfold evaluate, window_record in H0. destruct (push_frame [] l). by injection H0 as <- <-. }
  rewrite E1 in Ha. split_and!; [lia|congruence|done].
Qed.

(** A replan is only decided on evidence and while it is allowed: the run was not just
    started, it is an automatically replanned one, its token is live, its deadline is in the
    future, and the window holds three frames, the last being the current ledger, over which no
    checkpoint was added while either the same next action stood or the open questions kept
    growing; and the evidence had already been seen at least once. *)
Lemma replan_requires_evidence c l rs now auto cancelled c' d attempt statement steering :
  control_ok c → evaluate c l rs now auto cancelled = (c', d) →
  decision_action d = StallAction.Replan attempt statement steering →
  rs = false ∧ auto = true ∧ cancelled = false ∧ (now < deadline_at_ms c)%Z ∧
  suppressed l = false ∧ status l ≠ Status.Blocked ∧
  attempt = (replan_attempts c + 1)%Z ∧ (attempt ≤ MAX_REPLAN_ATTEMPTS)%Z ∧
  consecutive_hits c ≠ 0%Z ∧
  ∃ f1 f2 f3, window c' = [f1; f2; f3] ∧ f3 = frame_of l ∧ frame_verified f1 = frame_verified f3 ∧
    (is_Some (frame_next f1) ∧ frame_next f1 = frame_next f2 ∧ frame_next f1 = frame_next f3 ∨
     frame_open f1 < frame_open f2 < frame_open f3).
Proof.
  intros Hc H Hact. pose proof (evaluate_ok c l rs now auto cancelled Hc) as [Hw' Ha'].
  rewrite H in Hw', Ha'. simpl in Hw', Ha'.
  unfold evaluate in H. destruct rs; [destruct (window_record _ _); by injection H as <- <-|].
  destruct auto; simpl in H; [|by injection H as <- <-].
  destruct (push_frame (window c) l) as [w obs] eqn:Hp.
  destruct (suppressed l) eqn:Hs; [by injection H as <- <-|].
  case_bool_decide as Hb; [by injection H as <- <-|].
  destruct (existsb is_no_new_verification obs && existsb is_repeated_direction obs) eqn:Hev;
    simpl in H; [|by injection H as <- <-].
  case_bool_decide as Hh; [by injection H as <- <-|].
  destruct cancelled; [by injection H as <- <-|].
  destruct (deadline_at_ms c <=? now)%Z eqn:Hd; [by injection H as <- <-|].
  destruct (MAX_REPLAN_ATTEMPTS <=? replan_attempts c)%Z eqn:Hm; [by injection H as <- <-|].
  injection H as <- <-. simpl in *. injection Hact as <- _ _.
  apply Z.leb_gt in Hd, Hm. destruct Hc as [Hcw Hca].
  assert (u32_add (replan_attempts c) 1 = replan_attempts c + 1)%Z as ->.
  { unfold u32_add, MAX_REPLAN_ATTEMPTS in *. rewrite Z.mod_small; lia. }
  split_and!; try done; [lia|intros E; rewrite E in Hh; by vm_compute in Hh|].
  apply andb_true_iff in Hev as [Hv Hr].
  assert (obs = observe w) as Hobs.
  { unfold push_frame in Hp. rewrite Hs in Hp. injection Hp as <- <-. done. }
  destruct (observe_nonempty_full w Hw') as (f1&f2&f3&->).
  { intros E. rewrite Hobs, E in Hv. done. }
  destruct (push_frame_full _ _ _ _ _ _ Hp Hs) as [Hf3 _].
  rewrite Hobs in Hv, Hr. apply existsb_exists in Hv as (o1&Ho1&Hk1), Hr as (o2&Ho2&Hk2).
  apply list_elem_of_In, observe_full in Ho1, Ho2.
  exists f1, f2, f3. split_and!; [done..| |].
  - destruct Ho1 as [[-> _]|[[-> ?]|[[-> _]|[-> _]]]]; done.
  - destruct Ho2 as [[-> ?]|[[-> _]|[[-> ?]|[-> _]]]]; try done; auto.
Qed.

(** C6. A run that makes no progress ends blocked: started on a running ledger with a live token
    and watched before its deadline, a run whose ledger never changes between actions decides
    exactly this: nothing, a suspicion, replan 1; then (on the replanned ledger) nothing,
    a suspicion, replan 2; then nothing, a suspicion, and the block for the exhausted budget. *)
Theorem stalled_run_replans_twice_then_blocks c l0 l1 l2 now ts0 ts1 ts2 :
  control_ok c → running l0 → running l1 → running l2 →
  let deadline := i64_saturating_add now REPLAN_DEADLINE_MS in
  (snd ts0 < deadline)%Z → (snd ts1 < deadline)%Z → (snd ts2 < deadline)%Z →
  decision_action <$> snd (stall_run c
    (Evaluated l0 true now true false :: idle l0 ts0 ++ Rebaselined l1 ::
     idle l1 ts1 ++ Rebaselined l2 :: idle l2 ts2)) =
  [StallAction.None;
   StallAction.None; StallAction.None; StallAction.Replan 1 (replan_next 1) (replan_steering 1);
   StallAction.None; StallAction.None; StallAction.Replan 2 (replan_next 2) (replan_steering 2);
   StallAction.None; StallAction.None; budget_exhausted].
Proof.
  intros Hc R0 R1 R2 deadline T0 T1 T2.
  assert (∀ l, running l → push_frame [] l = ([frame_of l], [])) as Hbase.
  { intros l Hl. rewrite push_frame_running; [done..|unfold WINDOW; simpl; lia]. }
  assert (∀ a l, control_ok a → running l → control_ok (control_rebaseline a l) ∧
            window (control_rebaseline a l) = [frame_of l]) as Hre.
  { intros a l Ha Hl. split; [by apply rebaseline_ok|]. unfold control_rebaseline. by rewrite Hbase. }
  cbn [stall_run stall_step]. unfold evaluate, window_record. rewrite (Hbase l0 R0).
  set (c0 := with_window _ [frame_of l0]).
  assert (control_ok c0) as Hc0 by (split; vm_compute; [lia|done]).
  rewrite stall_run_app.
  destruct (stalled_round c0 l0 ts0) as (c1&ds1&->&Hc1&D1&A1); [done..|].
  rewrite decide_False in A1 by done. destruct A1 as [N1 A1].
  cbn [stall_run stall_step]. rewrite stall_run_app. destruct (Hre c1 l1 Hc1 R1) as [Hr1 Hw1].
  destruct (stalled_round (control_rebaseline c1 l1) l1 ts1) as (c2&ds2&->&Hc2&D2&A2);
    [done..|cbn; by rewrite D1|].
  change (replan_attempts (control_rebaseline c1 l1)) with (replan_attempts c1) in A2.
  rewrite N1 in A2. cbn in A2. destruct A2 as [N2 A2].
  cbn [stall_run stall_step]. destruct (Hre c2 l2 Hc2 R2) as [Hr2 Hw2].
  destruct (stalled_round (control_rebaseline c2 l2) l2 ts2) as (c3&ds3&->&_&_&A3);
    [done..|cbn; rewrite D2; cbn; by rewrite D1|].
  change (replan_attempts (control_rebaseline c2 l2)) with (replan_attempts c2) in A3.
  rewrite N2 in A3. cbn in A3.
  cbn [snd]. rewrite fmap_cons, !fmap_app, A1, A2, A3. done.
Qed.

(** Waiting uses up the replanning deadline: the window ignores the frames of a wait, but the
    deadline is fixed at the run start, so the same stall evidence decides a replan when the user
    answers at once and a block, with no replan attempted, when the answer takes two minutes. *)
Lemma waiting_consumes_replan_deadline :
  let waiting := set_status (set_awaiting demo1
    [{| kind := InteractionKind.Question; interaction_id := "q1" |}]) Status.AwaitingUser in
  let trace t := [Evaluated demo1 true 0 true false; Evaluated waiting false 1000 true false] ++
                 idle demo1 (t, t, t)%Z in
  let outcome t := let '(c, ds) := stall_run stall_default (trace t) in
    (replan_attempts c, decision_action <$> last ds) in
  outcome 2000%Z = (1%Z, Some (StallAction.Replan 1 (replan_next 1) (replan_steering 1))) ∧
  outcome 121000%Z = (0%Z, Some (StallAction.Block "automatic replanning deadline exhausted")).
Proof. by vm_compute. Qed.

(** ** Witnesses *)

Lemma demo1_running : running demo1.
Proof. split; [by vm_compute|by eexists]. Qed.

Lemma stalled_run_replans_twice_then_blocks_witness :
  last (decision_action <$> snd (stall_run stall_default
    (Evaluated demo1 true 0 true false :: idle demo1 (1, 2, 3)%Z ++ Rebaselined demo1 ::
     idle demo1 (4, 5, 6)%Z ++ Rebaselined demo1 :: idle demo1 (7, 8, 9)%Z))) = Some budget_exhausted.
Proof.
  rewrite (stalled_run_replans_twice_then_blocks stall_default demo1 demo1 demo1 0 (1, 2, 3)%Z
    (4, 5, 6)%Z (7, 8, 9)%Z control_ok_default demo1_running demo1_running demo1_running);
    [reflexivity|by vm_compute..].
Defined.
