(* ===== verification/LedgerAuthority.v ===== *)
(** * The server-side ledger authority

    crates/agendao-server/src/session_runtime/task_ledger.rs, the dispatch and
    verification paths of task_ledger_reducer.rs, [record_stall_frame] of
    task_ledger_stall.rs, the steering queue of steering.rs and the
    auto-continuation planner of routes/session/prompt.rs.

    The session record's metadata is the ledger.  Each function here is one
    critical section of the sessions mutex, or their composition in the order
    of the code; a cancellation token is the answer it gives at each read.
    Around them [server_step] lets tasks replace whole rows by clones taken earlier, and lets
    sessions be created and deleted.  Persistence to storage and the telemetry of steering are not
    modelled.
    serde_json is a parameter: the encoders and decoders of the values stored
    in the metadata, with the round trip of the ledger as a hypothesis. *)

From S2P Require Import Prelude TaskLedger TaskLedgerIds TaskLedgerGate TaskLedgerInv TaskLedgerProps TaskLedgerReducer TaskLedgerStall.

(** ** Errors and causes *)

Module ApiErr.
Inductive ApiError :=
| SessionNotFound (id : string)
| NotFound (what : string)
| PermissionDenied (what : string)
| BadRequest (message : string)
| RevisionConflict (resource : string) (expected actual : Z)
| ProviderError (message : string)
| InvalidRequest (message : string)
| InternalError (message : string).
End ApiErr.
Abbreviation ApiError := ApiErr.ApiError.

Definition map_ledger_error (sid : string) (error : TaskLedgerError) : ApiError :=
  match error with
  | LErr.RevisionConflict expected actual =>
      ApiErr.RevisionConflict ("task-ledger:" +:+ sid) expected actual
  | other => ApiErr.BadRequest (ledger_error_display other)
  end.

Definition cause_for_seam (fact : TaskLedgerSeamFact) : TaskLedgerCause :=
  match fact with
  | Seam.RunStarted => Cause.Recovery
  | Seam.ToolBatchCompleted _ => Cause.StatusChanged
  | Seam.RecoveryInterrupted => Cause.StatusChanged
  | Seam.FinalResponseCommitted => Cause.StatusChanged
  | Seam.InteractionAwaiting _ _ | Seam.InteractionResolved _ _ => Cause.StatusChanged
  | Seam.EvaluatorGateCompleted _ _ _ => Cause.CheckpointAdded
  end.

Definition validate_actor (actor : option TaskLedgerActor) : result ApiError unit :=
  if bool_decide (actor = Some Actor.User) then Ok tt
  else Err (ApiErr.BadRequest "external task-ledger writes must use actor=user; model/evaluator/system provenance is reserved for internal seams").

Definition validate_external_op (op : TaskLedgerOp) : result ApiError unit :=
  match op with
  | Op.Create g _ | Op.SetGoal g => validate_actor (Some (goal_set_by g))
  | Op.AddCore _ _ actor | Op.SwapCoreLive _ _ actor | Op.SetNext _ actor => validate_actor actor
  | Op.AddCheckpoint _ v _ _ _ _ _ | Op.CloseOpenWithCheckpoint _ _ v _ _ _ _ =>
      match v with
      | Verifier.UserConfirmation actor =>
          if bool_decide (actor = "user") then Ok tt
          else Err (ApiErr.BadRequest "external user_confirmation verifier actor must be `user`")
      | Verifier.DeterministicCheck _ | Verifier.Evaluator _ =>
          Err (ApiErr.BadRequest "machine verifier types (deterministic_check/evaluator) cannot be submitted over the wire; use user_confirmation or let the server's seams produce them")
      end
  | Op.SetStatus _ _ _ | Op.ResolveInteraction _ _ | Op.Interrupt | Op.Complete _ =>
      Err (ApiErr.BadRequest "task-ledger lifecycle operations are reserved for internal execution seams")
  | Op.OpenQuestion _ _ => Ok tt
  end.

Definition cause_for_op (op : TaskLedgerOp) : TaskLedgerCause :=
  match op with
  | Op.Create _ _ => Cause.Created
  | Op.SetGoal _ => Cause.GoalUpdated
  | Op.AddCore _ _ _ | Op.SwapCoreLive _ _ _ => Cause.CoreUpdated
  | Op.AddCheckpoint _ _ _ _ _ _ _ => Cause.CheckpointAdded
  | Op.OpenQuestion _ _ => Cause.OpenAdded
  | Op.CloseOpenWithCheckpoint _ _ _ _ _ _ _ => Cause.OpenClosed
  | Op.SetNext _ _ => Cause.NextUpdated
  | Op.SetStatus _ _ _ | Op.ResolveInteraction _ _ | Op.Interrupt | Op.Complete _ =>
      Cause.StatusChanged
  end.

(** ** Steering queue *)

Record PendingSteeringMessage := {
  steer_id : string;
  owner_session_id : string;
  steer_text : string;
  steer_created_at : Z;
  source_session_id : option string;
  deliver_at : string;
}.

(** [SessionSteeringQueueStore] *)
Definition SteeringStore := gmap string (list PendingSteeringMessage).

Definition steering_enqueue (s : SteeringStore) (owner : string) (m : PendingSteeringMessage)
    : SteeringStore := <[owner := default [] (s !! owner) ++ [m]]> s.

Definition steering_drain (s : SteeringStore) (owner : string)
    : SteeringStore * list PendingSteeringMessage := (delete owner s, default [] (s !! owner)).

Definition steering_pending_count (s : SteeringStore) (owner : string) : nat :=
  length (default [] (s !! owner)).

(** ** Continuation state *)

Definition AUTO_CONTINUATION_STAGNATION_LIMIT : Z := 3.

Record TaskLedgerAutoContinuationState := {
  cont_goal_generation : Z;
  cont_rounds : Z;
  cont_last_fingerprint : string;
  cont_stagnant_rounds : Z;
}.

Module Stop.
Inductive AutoContinuationStop := Cancelled | Completed | AwaitingUser | Blocked | NoGoal | NoNext.
End Stop.
Abbreviation AutoContinuationStop := Stop.AutoContinuationStop.

Module Plan.
Inductive AutoContinuationPlan :=
| Continue (state : TaskLedgerAutoContinuationState)
| Stop (stop : AutoContinuationStop)
| Block (state : TaskLedgerAutoContinuationState) (reason : string).
End Plan.
Abbreviation AutoContinuationPlan := Plan.AutoContinuationPlan.

(** The tuple the fingerprint serialises. *)
Definition fingerprint_data (l : SessionTaskLedger)
    : Z * TaskLedgerStatus * option string * option string * list string * list string :=
  (goal_generation l, status l, blocked_reason l, next_statement <$> next l,
   q_id <$> open_questions l, chk_id <$> current_checkpoints l).

Definition task_ledger_auto_resume_message (l : SessionTaskLedger) : string :=
  let g := match goal l with Some g => goal_statement g | None => "the current goal" end in
  let n := match next l with Some n => next_statement n | None => "the next concrete action" end in
  let nl := String (Ascii.ascii_of_nat 10) "" in
  "Continue the current server-authoritative TaskLedger goal autonomously." +:+ nl +:+ nl +:+
  "Goal: " +:+ g +:+ nl +:+ "Next: " +:+ n +:+ nl +:+ nl +:+
  "Perform the next concrete work, inspect actual results, and verify completion. Do not stop merely because the previous scheduler turn reached its step, token, or active-time budget. If the goal is not complete, leave a truthful Next action in the Ledger.".

(** What a continuation queues: the message and the goal generation it belongs to. *)
Record QueuedFollowupPrompt := {
  followup_message : string;
  followup_model : string;
  followup_variant : option string;
  followup_goal_generation : Z;
}.

(** ** Server state *)

Definition TASK_LEDGER_AUTO_CONTINUATION_METADATA_KEY : string := "task_ledger_auto_continuation".
Definition CONFLICT_COUNT_KEY : string := "task_ledger_revision_conflict_count".
Definition STALL_OBSERVATION_KEY : string := "stall_observation".

(** [ServerEvent::TaskLedgerReplaced] *)
Record LedgerReplaced := {
  ev_session_id : string;
  ev_ledger : SessionTaskLedger;
  ev_cause : TaskLedgerCause;
}.

(** A cancellation token, by what its n-th read in an operation answers. *)
Definition Token := option (nat → bool).
Definition is_cancelled (t : Token) (n : nat) : bool :=
  match t with Some f => f n | None => false end.

Section authority.
Context {Value : Type}.
Context (ledger_to_value : SessionTaskLedger → option Value).
Context (ledger_from_value : Value → option SessionTaskLedger).
Context (cont_to_value : TaskLedgerAutoContinuationState → option Value).
Context (cont_from_value : Value → option TaskLedgerAutoContinuationState).
Context (as_u64 : Value → option Z) (json_u64 : Z → Value).
Context (decision_to_value : StallDecision → Value).
Context (to_json_string : Z * TaskLedgerStatus * option string * option string *
                          list string * list string → option string).

Record Session := {
  directory : string;
  metadata : gmap string Value;
}.

Record ServerState := {
  sessions : gmap string Session;
  stall_windows : StallWindows;
  steering_store : SteeringStore;
  event_log : list LedgerReplaced;
}.

Definition with_sessions (st : ServerState) s := {|
  sessions := s; stall_windows := stall_windows st; steering_store := steering_store st;
  event_log := event_log st |}.
Definition with_windows (st : ServerState) w := {|
  sessions := sessions st; stall_windows := w; steering_store := steering_store st;
  event_log := event_log st |}.
Definition with_steering (st : ServerState) s := {|
  sessions := sessions st; stall_windows := stall_windows st; steering_store := s;
  event_log := event_log st |}.

(** [Session::insert_metadata] on the stored session *)
Definition insert_metadata (st : ServerState) (sid : string) (s : Session) (key : string) (v : Value)
    : ServerState :=
  with_sessions st (<[sid := {| directory := directory s; metadata := <[key := v]> (metadata s) |}]>
                      (sessions st)).

(** [Session::remove_metadata] *)
Definition remove_metadata (s : Session) (key : string) : Session :=
  {| directory := directory s; metadata := delete key (metadata s) |}.

Definition ledger_snapshot_from_record (sid : string) (raw : option Value) : SessionTaskLedger :=
  match raw with
  | Some value => match ledger_from_value value with
                  | Some ledger => set_session_id ledger sid
                  | None => ledger_empty sid
                  end
  | None => ledger_empty sid
  end.

(** The snapshot of a session record. *)
Definition session_ledger (sid : string) (s : Session) : SessionTaskLedger :=
  ledger_snapshot_from_record sid (metadata s !! TASK_LEDGER_METADATA_KEY).

Definition task_ledger_snapshot (st : ServerState) (sid : string)
    : result ApiError SessionTaskLedger :=
  let? s := ok_or (sessions st !! sid) (ApiErr.SessionNotFound sid) in
  Ok (session_ledger sid s).

(** Insert the snapshot and publish it, under the sessions lock. *)
Definition commit_snapshot_in_memory (st : ServerState) (sid : string) (s : Session)
    (snapshot : SessionTaskLedger) (cause : TaskLedgerCause) : result ApiError ServerState :=
  let? v := ok_or (ledger_to_value snapshot)
              (ApiErr.InternalError "failed to serialize task ledger") in
  let st := insert_metadata st sid s TASK_LEDGER_METADATA_KEY v in
  Ok {| sessions := sessions st; stall_windows := stall_windows st;
        steering_store := steering_store st;
        event_log := event_log st ++
          [{| ev_session_id := sid; ev_ledger := snapshot; ev_cause := cause |}] |}.

(** ** Writes *)

Definition apply_task_ledger_op_unless_cancelled (st : ServerState) (sid : string)
    (expected_revision : Z) (op : TaskLedgerOp) (now_ms : Z) (cancelled : bool)
    : result ApiError (option (SessionTaskLedger * TaskLedgerCause)) * ServerState :=
  let cause := cause_for_op op in
  if cancelled then (Ok None, st)
  else
    match sessions st !! sid with
    | None => (Err (ApiErr.SessionNotFound sid), st)
    | Some s =>
        match apply (session_ledger sid s) expected_revision op now_ms with
        | (Err error, _) =>
            let st :=
              match error with
              | LErr.RevisionConflict _ _ =>
                  let count := default 0%Z (metadata s !! CONFLICT_COUNT_KEY ≫= as_u64) in
                  insert_metadata st sid s CONFLICT_COUNT_KEY (json_u64 (u64_saturating_add count 1))
              | _ => st
              end in
            (Err (map_ledger_error sid error), st)
        | (Ok _, ledger) =>
            match commit_snapshot_in_memory st sid s ledger cause with
            | Ok st' => (Ok (Some (ledger, cause)), st')
            | Err e => (Err e, st)
            end
        end
    end.

Definition apply_task_ledger_op (st : ServerState) (sid : string) (expected_revision : Z)
    (op : TaskLedgerOp) (now_ms : Z)
    : result ApiError (SessionTaskLedger * TaskLedgerCause) * ServerState :=
  let '(r, st) := apply_task_ledger_op_unless_cancelled st sid expected_revision op now_ms false in
  (let? o := r in ok_or o (ApiErr.InternalError "unguarded ledger write was cancelled"), st).

Definition start_task_goal (st : ServerState) (sid statement : string) (now_ms : Z)
    : result ApiError SessionTaskLedger * ServerState :=
  let statement := trim statement in
  if bool_decide (statement = "") then
    (Err (ApiErr.BadRequest "goal description must not be empty"), st)
  else
    match sessions st !! sid with
    | None => (Err (ApiErr.SessionNotFound sid), st)
    | Some s =>
        let ledger := session_ledger sid s in
        if bool_decide (awaiting_interactions ledger ≠ []) then
          (Err (ApiErr.BadRequest "cannot replace the session goal while permission or question interactions are unresolved"), st)
        else
          let g := {| goal_statement := statement; acceptance_criteria := [];
                      criterion_checks := []; goal_set_by := Actor.User; goal_set_at := now_ms |} in
          match start_goal ledger (revision ledger) g statement now_ms with
          | (Err error, _) => (Err (map_ledger_error sid error), st)
          | (Ok _, ledger') =>
              let cause := match goal ledger with Some _ => Cause.GoalUpdated | None => Cause.Created end in
              let s := remove_metadata s TASK_LEDGER_AUTO_CONTINUATION_METADATA_KEY in
              let st := with_sessions st (<[sid := s]> (sessions st)) in
              match commit_snapshot_in_memory st sid s ledger' cause with
              | Ok st' => (Ok ledger', st')
              | Err e => (Err e, st)
              end
          end
    end.

(** ** Seam dispatch *)

Inductive SeamOutcome :=
| SeamNoSession
| SeamNoOps (frame_ledger : SessionTaskLedger)
| SeamDropped
| SeamCommitted (staged : SessionTaskLedger).

(** The critical section of [dispatch_seam_with_control]. *)
Definition seam_section (st : ServerState) (sid : string) (fact : TaskLedgerSeamFact) (now_ms : Z)
    : SeamOutcome * ServerState :=
  match sessions st !! sid with
  | None => (SeamNoSession, st)
  | Some s =>
      let snapshot := session_ledger sid s in
      match reduce fact snapshot with
      | [] => (SeamNoOps snapshot, st)
      | ops =>
          match apply_batch snapshot (revision snapshot) ops now_ms with
          | (Err _, _) => (SeamDropped, st)
          | (Ok _, staged) =>
              match commit_snapshot_in_memory st sid s staged (cause_for_seam fact) with
              | Ok st' => (SeamCommitted staged, st')
              | Err _ => (SeamDropped, st)
              end
          end
      end
  end.

(** [enqueue_system_steering]; the message id comes from a UUID. *)
Definition enqueue_system_steering (st : ServerState) (sid text id_prefix uuid : string) (now_ms : Z)
    : ServerState :=
  with_steering st (steering_enqueue (steering_store st) sid {|
    steer_id := id_prefix +:+ "_" +:+ uuid; owner_session_id := sid; steer_text := text;
    steer_created_at := now_ms; source_session_id := None;
    deliver_at := "next_tool_boundary" |}).

(** [record_stall_frame]: the decision, its trace in the session metadata, and the action it
    calls for, each behind the token. *)
Definition record_stall_frame (st : ServerState) (ledger : SessionTaskLedger)
    (run_started auto_replan : bool) (tok : Token) (now_ms now_op : Z) (uuid : string) : ServerState :=
  let sid := session_id ledger in
  let '(ws, d) := stall_record (stall_windows st) sid ledger run_started now_ms auto_replan
                    (is_cancelled tok 0) in
  let st := with_windows st ws in
  match decision_observations d, decision_action d with
  | [], StallAction.None => st
  | _, action =>
      let st := match sessions st !! sid with
                | Some s => insert_metadata st sid s STALL_OBSERVATION_KEY (decision_to_value d)
                | None => st
                end in
      match action with
      | StallAction.Replan _ next_statement steering =>
          if is_cancelled tok 1 then st
          else
            match apply_task_ledger_op_unless_cancelled st sid (revision ledger)
                    (Op.SetNext next_statement (Some Actor.System)) now_op (is_cancelled tok 2) with
            | (Ok (Some (snapshot, _)), st') =>
                let st' := with_windows st' (stall_rebaseline (stall_windows st') sid snapshot) in
                if is_cancelled tok 3 then st'
                else enqueue_system_steering st' sid steering "steer_replan" uuid now_op
            | (_, st') => st'
            end
      | StallAction.Block reason =>
          if is_cancelled tok 1 then st
          else snd (apply_task_ledger_op_unless_cancelled st sid (revision ledger)
                      (Op.SetStatus Status.Blocked None (Some reason)) now_op (is_cancelled tok 2))
      | StallAction.None => st
      end
  end.

Definition feeds_window (fact : TaskLedgerSeamFact) : bool :=
  match fact with Seam.ToolBatchCompleted _ | Seam.RunStarted => true | _ => false end.

Definition is_run_started (fact : TaskLedgerSeamFact) : bool :=
  match fact with Seam.RunStarted => true | _ => false end.

Definition dispatch_seam_with_control (st : ServerState) (sid : string) (fact : TaskLedgerSeamFact)
    (auto_replan : bool) (tok : Token) (now_ms now_frame now_op : Z) (uuid : string)
    : option SessionTaskLedger * ServerState :=
  match seam_section st sid fact now_ms with
  | (SeamNoSession, st) | (SeamDropped, st) => (None, st)
  | (SeamNoOps frame_ledger, st) =>
      (None, if feeds_window fact
             then record_stall_frame st frame_ledger (is_run_started fact) auto_replan tok
                    now_frame now_op uuid
             else st)
  | (SeamCommitted staged, st) =>
      (Some staged, record_stall_frame st staged (is_run_started fact) auto_replan tok
                      now_frame now_op uuid)
  end.

Definition dispatch_seam (st : ServerState) (sid : string) (fact : TaskLedgerSeamFact)
    (now_ms now_frame now_op : Z) (uuid : string) : option SessionTaskLedger * ServerState :=
  dispatch_seam_with_control st sid fact false None now_ms now_frame now_op uuid.

Definition dispatch_run_seam (st : ServerState) (sid : string) (fact : TaskLedgerSeamFact)
    (auto_replan : bool) (tok : nat → bool) (now_ms now_frame now_op : Z) (uuid : string)
    : option SessionTaskLedger * ServerState :=
  dispatch_seam_with_control st sid fact auto_replan (Some tok) now_ms now_frame now_op uuid.

(** [dispatch_interaction]: the lifecycle of a permission or a question. *)
Definition dispatch_interaction (st : ServerState) (sid : string) (k : AwaitingInteractionKind)
    (id : string) (resolved : bool) (now_ms now_frame now_op : Z) (uuid : string) : ServerState :=
  let fact := if resolved then Seam.InteractionResolved k id else Seam.InteractionAwaiting k id in
  snd (dispatch_seam st sid fact now_ms now_frame now_op uuid).

(** ** Criterion verification *)

Inductive CriterionVerificationOutcome := NotRequired | Passed | Failed | CancelledOutcome.

Definition allows_final_commit (o : CriterionVerificationOutcome) : bool :=
  match o with NotRequired | Passed => true | _ => false end.

(** What running one check command can come to. *)
Inductive CheckRun := SpawnFailed | WaitFailed | Exited (success : bool) | TimedOut | RunCancelled.

(** Reading the goal, the directory and the revision under the lock. *)
Definition verify_begin (st : ServerState) (sid : string) (cancelled : bool)
    : result CriterionVerificationOutcome (TaskGoal * string * Z) :=
  if cancelled then Err CancelledOutcome
  else
    match sessions st !! sid with
    | None => Err NotRequired
    | Some s =>
        let snapshot := session_ledger sid s in
        match goal snapshot with
        | None => Err NotRequired
        | Some g =>
            if bool_decide (criterion_checks g = []) || bool_decide (status snapshot = Status.Completed)
            then Err NotRequired
            else Ok (g, directory s, revision snapshot)
        end
    end.

Definition check_op (dir : string) (check : CriterionCheck) : TaskLedgerOp :=
  Op.AddCheckpoint ("deterministic check passed: " +:+ check_command check)
    (Verifier.DeterministicCheck (check_command check))
    {| coverage_scope := "exit 0 in " +:+ dir |} [check_criterion check] [] None None.

(** The loop over the bound checks; [run] is the sandboxed execution of a command. *)
Fixpoint run_checks (run : string → string → CheckRun) (dir : string) (checks : list CriterionCheck)
    : result CriterionVerificationOutcome (list TaskLedgerOp) :=
  match checks with
  | [] => Ok []
  | check :: checks' =>
      match run (check_command check) dir with
      | SpawnFailed | WaitFailed | TimedOut => Err Failed
      | RunCancelled => Err CancelledOutcome
      | Exited passed =>
          reject? negb passed with Failed in
          let? ops := run_checks run dir checks' in
          Ok (check_op dir check :: ops)
      end
  end.

(** Committing the evidence under the lock, against the revision read first. *)
Definition verify_commit (st : ServerState) (sid : string) (rev : Z) (ops : list TaskLedgerOp)
    (now_ms : Z) (cancelled : bool) : CriterionVerificationOutcome * ServerState :=
  if cancelled then (CancelledOutcome, st)
  else
    match sessions st !! sid with
    | None => (Failed, st)
    | Some s =>
        match apply_batch (session_ledger sid s) rev ops now_ms with
        | (Err _, _) => (Failed, st)
        | (Ok _, staged) =>
            match commit_snapshot_in_memory st sid s staged Cause.CheckpointAdded with
            | Ok st' => (Passed, st')
            | Err _ => (Failed, st)
            end
        end
    end.

(** [verify_goal_criteria]; [others] is what the rest of the server does to the state while the
    checks run. *)
Definition verify_goal_criteria (st : ServerState) (others : ServerState → ServerState)
    (run : string → string → CheckRun) (sid : string) (tok : Token) (now_ms : Z)
    : CriterionVerificationOutcome * ServerState :=
  match verify_begin st sid (is_cancelled tok 0) with
  | Err o => (o, st)
  | Ok (g, dir, rev) =>
      match run_checks run dir (criterion_checks g) with
      | Err o => (o, others st)
      | Ok ops =>
          if is_cancelled tok 1 then (CancelledOutcome, others st)
          else verify_commit (others st) sid rev ops now_ms (is_cancelled tok 2)
      end
  end.

(** ** Auto-continuation *)

Definition task_ledger_continuation_fingerprint (l : SessionTaskLedger) : string :=
  default "" (to_json_string (fingerprint_data l)).

Definition stagnation_reason (n : Z) (statement : string) : string :=
  "automatic continuation made no authoritative TaskLedger progress for " +:+ dec_Z n +:+
  " consecutive rounds; next action was `" +:+ statement +:+ "`".

Definition plan_task_ledger_auto_continuation (previous : option TaskLedgerAutoContinuationState)
    (l : SessionTaskLedger) (cancelled : bool) : AutoContinuationPlan :=
  if cancelled then Plan.Stop Stop.Cancelled
  else
    match goal l with
    | None => Plan.Stop Stop.NoGoal
    | Some _ =>
      match status l with
      | Status.Completed => Plan.Stop Stop.Completed
      | Status.AwaitingUser => Plan.Stop Stop.AwaitingUser
      | Status.Blocked => Plan.Stop Stop.Blocked
      | Status.Interrupted => Plan.Stop Stop.Cancelled
      | Status.Active =>
        match next l with
        | None => Plan.Stop Stop.NoNext
        | Some n =>
          if bool_decide (trim (next_statement n) = "") then Plan.Stop Stop.NoNext
          else
            let fingerprint := task_ledger_continuation_fingerprint l in
            let '(rounds, stagnant_rounds) :=
              match previous with
              | Some previous =>
                  if bool_decide (cont_goal_generation previous = goal_generation l) then
                    (u32_saturating_add (cont_rounds previous) 1,
                     if bool_decide (cont_last_fingerprint previous = fingerprint)
                     then u32_saturating_add (cont_stagnant_rounds previous) 1 else 0%Z)
                  else (1%Z, 0%Z)
              | None => (1%Z, 0%Z)
              end in
            let state := {| cont_goal_generation := goal_generation l; cont_rounds := rounds;
                            cont_last_fingerprint := fingerprint;
                            cont_stagnant_rounds := stagnant_rounds |} in
            if (AUTO_CONTINUATION_STAGNATION_LIMIT <=? cont_stagnant_rounds state)%Z
            then Plan.Block state (stagnation_reason (cont_stagnant_rounds state) (next_statement n))
            else Plan.Continue state
        end
      end
    end.

Definition load_task_ledger_auto_continuation_state (s : Session)
    : option TaskLedgerAutoContinuationState :=
  metadata s !! TASK_LEDGER_AUTO_CONTINUATION_METADATA_KEY ≫= cont_from_value.

Definition store_task_ledger_auto_continuation_state (st : ServerState) (sid : string) (s : Session)
    (state : TaskLedgerAutoContinuationState) : ServerState :=
  match cont_to_value state with
  | Some v => insert_metadata st sid s TASK_LEDGER_AUTO_CONTINUATION_METADATA_KEY v
  | None => st
  end.

Definition clear_task_ledger_auto_continuation_state (st : ServerState) (sid : string) (s : Session)
    : ServerState :=
  with_sessions st
    (<[sid := remove_metadata s TASK_LEDGER_AUTO_CONTINUATION_METADATA_KEY]> (sessions st)).

(** The planning section of [prepare_task_ledger_auto_continuation]. *)
Definition continuation_section (st : ServerState) (sid : string) (cancelled : bool)
    : option (AutoContinuationPlan * SessionTaskLedger) * ServerState :=
  match sessions st !! sid with
  | None => (None, st)
  | Some s =>
      let ledger := session_ledger sid s in
      let plan := plan_task_ledger_auto_continuation (load_task_ledger_auto_continuation_state s)
                    ledger cancelled in
      let st :=
        match plan with
        | Plan.Continue next_state => store_task_ledger_auto_continuation_state st sid s next_state
        | Plan.Block _ _ => clear_task_ledger_auto_continuation_state st sid s
        | Plan.Stop (Stop.Completed | Stop.Blocked | Stop.Cancelled | Stop.NoGoal) =>
            clear_task_ledger_auto_continuation_state st sid s
        | Plan.Stop (Stop.AwaitingUser | Stop.NoNext) => st
        end in
      (Some (plan, ledger), st)
  end.

(** [prepare_task_ledger_auto_continuation]; [others] is what happens between the planning
    section and the block write. *)
Definition prepare_task_ledger_auto_continuation (st : ServerState)
    (others : ServerState → ServerState) (sid provider model : string) (variant : option string)
    (cancelled : bool) (now_ms : Z) : option QueuedFollowupPrompt * ServerState :=
  match continuation_section st sid cancelled with
  | (None, st) => (None, st)
  | (Some (Plan.Continue _, ledger), st) =>
      (Some {| followup_message := task_ledger_auto_resume_message ledger;
               followup_model := provider +:+ "/" +:+ model; followup_variant := variant;
               followup_goal_generation := goal_generation ledger |}, st)
  | (Some (Plan.Block _ reason, ledger), st) =>
      (None, snd (apply_task_ledger_op (others st) sid (revision ledger)
                    (Op.SetStatus Status.Blocked None (Some reason)) now_ms))
  | (Some (Plan.Stop _, _), st) => (None, st)
  end.

(** ** Atomic steps *)

(** The steps other tasks may see between: each is one critical section of the sessions lock,
    or of the lock of the stall registry or of the steering store. *)
Inductive authority_step (st : ServerState) : ServerState → Prop :=
| step_seam sid fact now : authority_step st (snd (seam_section st sid fact now))
| step_op sid rev op now cancelled :
    authority_step st (snd (apply_task_ledger_op_unless_cancelled st sid rev op now cancelled))
| step_start sid statement now : authority_step st (snd (start_task_goal st sid statement now))
| step_verify sid rev ops now cancelled :
    authority_step st (snd (verify_commit st sid rev ops now cancelled))
| step_continuation sid cancelled : authority_step st (snd (continuation_section st sid cancelled))
| step_observation sid s v :
    sessions st !! sid = Some s → authority_step st (insert_metadata st sid s STALL_OBSERVATION_KEY v)
| step_windows ws : authority_step st (with_windows st ws)
| step_steering q : authority_step st (with_steering st q).

(** The ledger a session stores, and what was published for it. *)
Definition ledger_at (st : ServerState) (sid : string) : option SessionTaskLedger :=
  session_ledger sid <$> sessions st !! sid.

Definition events_of (st : ServerState) (sid : string) : list SessionTaskLedger :=
  ev_ledger <$> filter (λ e, ev_session_id e = sid) (event_log st).

(** Events that follow a ledger one transaction and one revision at a time. *)
Fixpoint event_chain (l : SessionTaskLedger) (evs : list SessionTaskLedger)
    (final : SessionTaskLedger) : Prop :=
  match evs with
  | [] => final = l
  | e :: evs' => ledger_step l e ∧ revision e = u64_add (revision l) 1 ∧ event_chain e evs' final
  end.

(** What a step does to one session: nothing, or one published transaction. *)
Definition session_moves (st st' : ServerState) (sid : string) : Prop :=
  (ledger_at st' sid = ledger_at st sid ∧ events_of st' sid = events_of st sid) ∨
  ∃ l l', ledger_at st sid = Some l ∧ ledger_at st' sid = Some l' ∧ ledger_step l l' ∧
    revision l' = u64_add (revision l) 1 ∧ events_of st' sid = events_of st sid ++ [l'].

Hypothesis ledger_codec : ∀ l v, ledger_to_value l = Some v → ledger_from_value v = Some l.

Lemma moves_refl st sid : session_moves st st sid.
Proof. by left. Qed.

Lemma moves_same_sessions st st' sid :
  sessions st' = sessions st → event_log st' = event_log st → session_moves st st' sid.
Proof. intros E1 E2. left. unfold ledger_at, events_of. by rewrite E1, E2. Qed.

Lemma session_ledger_metadata sid s s' :
  metadata s' !! TASK_LEDGER_METADATA_KEY = metadata s !! TASK_LEDGER_METADATA_KEY →
  session_ledger sid s' = session_ledger sid s.
Proof. unfold session_ledger. by intros ->. Qed.

(** A write to another key of the session. *)
Lemma moves_other_key st sid0 s s' sid :
  sessions st !! sid0 = Some s →
  metadata s' !! TASK_LEDGER_METADATA_KEY = metadata s !! TASK_LEDGER_METADATA_KEY →
  session_moves st (with_sessions st (<[sid0 := s']> (sessions st))) sid.
Proof.
  intros Hs Hm. left. split; [|done]. unfold ledger_at. simpl.
  destruct (decide (sid = sid0)) as [->|].
  - rewrite lookup_insert_eq, Hs. simpl. by rewrite (session_ledger_metadata _ _ _ Hm).
  - by rewrite lookup_insert_ne.
Qed.

Lemma moves_insert_metadata st sid0 s key v sid :
  sessions st !! sid0 = Some s → key ≠ TASK_LEDGER_METADATA_KEY →
  session_moves st (insert_metadata st sid0 s key v) sid.
Proof. intros Hs Hk. eapply moves_other_key; [done|]. simpl. by rewrite lookup_insert_ne. Qed.

Lemma session_ledger_id sid s : session_id (session_ledger sid s) = sid.
Proof. unfold session_ledger, ledger_snapshot_from_record. by repeat case_match. Qed.

Lemma set_session_id_same l : set_session_id l (session_id l) = l.
Proof. by destruct l. Qed.

Lemma apply_op_session_id l op now l' : apply_op l op now = Ok l' → session_id l' = session_id l.
Proof. intros H. op_cases op H; done. Qed.

Lemma ledger_step_session_id l l' : ledger_step l l' → session_id l' = session_id l.
Proof.
  intros [(rev&ops&now&r&H)|(rev&g&statement&now&r&H)].
  - destruct r as [r|e]; [|by apply apply_batch_Err in H as ->].
    apply apply_batch_Ok in H as (_&_&staged&H&_&->). simpl. unfold apply_ops in H.
    refine (fold_result_ind (λ s, session_id s = session_id l) _ _ _ _ _ eq_refl H).
    intros a op b _ <- Hop. by eapply apply_op_session_id.
  - destruct r as [r|e]; [|by apply start_goal_Err in H as ->].
    by apply start_goal_Ok in H as (_&_&_&_&->).
Qed.

(** Committing a transaction of the stored ledger. *)
Lemma commit_moves st sid0 s s' l' cause st' sid :
  sessions st !! sid0 = Some s →
  metadata s' !! TASK_LEDGER_METADATA_KEY = metadata s !! TASK_LEDGER_METADATA_KEY →
  ledger_step (session_ledger sid0 s) l' →
  revision l' = u64_add (revision (session_ledger sid0 s)) 1 →
  commit_snapshot_in_memory (with_sessions st (<[sid0 := s']> (sessions st))) sid0 s' l' cause = Ok st' →
  session_moves st st' sid.
Proof.
  intros Hs Hm Hstep Hrev. unfold commit_snapshot_in_memory.
  destruct (ledger_to_value l') as [v|] eqn:Hv; [|done]. simpl. intros [= <-].
  unfold session_moves, ledger_at, events_of. simpl. rewrite filter_app, fmap_app, filter_cons. simpl.
  rewrite insert_insert_eq.
  destruct (decide (sid = sid0)) as [->|Hne].
  - right. exists (session_ledger sid0 s), l'. rewrite Hs, lookup_insert_eq. simpl.
    rewrite decide_True by done. split_and!; try done.
    unfold session_ledger, ledger_snapshot_from_record. simpl.
    rewrite lookup_insert_eq, (ledger_codec _ _ Hv). f_equal.
    rewrite <- (session_ledger_id sid0 s), <- (ledger_step_session_id _ _ Hstep).
    apply set_session_id_same.
  - left. rewrite lookup_insert_ne by done. rewrite decide_False by congruence. simpl.
    by rewrite app_nil_r.
Qed.

Lemma with_sessions_same st sid s : sessions st !! sid = Some s →
  with_sessions st (<[sid := s]> (sessions st)) = st.
Proof. intros H. unfold with_sessions. rewrite insert_id by done. by destruct st. Qed.

Lemma commit_batch_moves st sid0 s rev ops now r l' cause st' sid :
  sessions st !! sid0 = Some s →
  apply_batch (session_ledger sid0 s) rev ops now = (Ok r, l') →
  commit_snapshot_in_memory st sid0 s l' cause = Ok st' → session_moves st st' sid.
Proof.
  intros Hs Hb Hc. rewrite <- (with_sessions_same st sid0 s Hs) in Hc.
  eapply (commit_moves st sid0 s s); [done..| | |exact Hc].
  - left. eauto.
  - by apply apply_batch_Ok in Hb as (_&_&staged&_&_&->).
Qed.

Lemma authority_step_moves st st' sid : authority_step st st' → session_moves st st' sid.
Proof.
  intros [sid0 fact now|sid0 rev op now canc|sid0 statement now|sid0 rev ops now canc|sid0 canc
         |sid0 s v Hs|ws|q].
  - unfold seam_section. destruct (sessions st !! sid0) as [s|] eqn:Hs; [|apply moves_refl].
    destruct (reduce fact _) as [|op ops]; [apply moves_refl|].
    destruct (apply_batch _ _ _ _) as [[r|e] l'] eqn:Hb; [|apply moves_refl].
    destruct (commit_snapshot_in_memory _ _ _ _ _) as [st1|e] eqn:Hc; [|apply moves_refl].
    by eapply commit_batch_moves.
  - unfold apply_task_ledger_op_unless_cancelled. destruct canc; [apply moves_refl|].
    destruct (sessions st !! sid0) as [s|] eqn:Hs; [|apply moves_refl].
    destruct (apply _ _ _ _) as [[r|e] l'] eqn:Hb.
    + destruct (commit_snapshot_in_memory _ _ _ _ _) as [st1|e] eqn:Hc; [|apply moves_refl].
      by eapply commit_batch_moves.
    + destruct e; try apply moves_refl. by apply moves_insert_metadata.
  - unfold start_task_goal. case_bool_decide; [apply moves_refl|].
    destruct (sessions st !! sid0) as [s|] eqn:Hs; [|apply moves_refl].
    case_bool_decide; [apply moves_refl|].
    destruct (start_goal _ _ _ _ _) as [[r|e] l'] eqn:Hb; [|apply moves_refl].
    destruct (commit_snapshot_in_memory _ _ _ _ _) as [st1|e] eqn:Hc.
    + eapply (commit_moves st sid0 s); [done| | | |exact Hc].
      * simpl. by rewrite lookup_delete_ne.
      * right. eauto 10.
      * by apply start_goal_Ok in Hb as (_&_&_&_&->).
    + apply (moves_other_key _ _ s); [done|]. simpl. by rewrite lookup_delete_ne.
  - unfold verify_commit. destruct canc; [apply moves_refl|].
    destruct (sessions st !! sid0) as [s|] eqn:Hs; [|apply moves_refl].
    destruct (apply_batch _ _ _ _) as [[r|e] l'] eqn:Hb; [|apply moves_refl].
    destruct (commit_snapshot_in_memory _ _ _ _ _) as [st1|e] eqn:Hc; [|apply moves_refl].
    by eapply commit_batch_moves.
  - unfold continuation_section. destruct (sessions st !! sid0) as [s|] eqn:Hs; [|apply moves_refl].
    assert (session_moves st (clear_task_ledger_auto_continuation_state st sid0 s) sid).
    { eapply moves_other_key; [done|]. simpl. by rewrite lookup_delete_ne. }
    destruct (plan_task_ledger_auto_continuation _ _ _) as [state|[]|]; simpl; try done;
      try apply moves_refl.
    unfold store_task_ledger_auto_continuation_state.
    destruct (cont_to_value state); [by apply moves_insert_metadata|apply moves_refl].
  - by apply moves_insert_metadata.
  - by apply moves_same_sessions.
  - by apply moves_same_sessions.
Qed.

Lemma event_chain_snoc l evs m m' :
  event_chain l evs m → ledger_step m m' → revision m' = u64_add (revision m) 1 →
  event_chain l (evs ++ [m']) m'.
Proof.
  revert l. induction evs as [|e evs IH]; intros l; simpl; [by intros -> ? ?|].
  intros (?&?&?) ??. split_and!; auto.
Qed.

Lemma event_chain_rtc l evs m : event_chain l evs m → rtc ledger_step l m.
Proof.
  revert l. induction evs as [|e evs IH]; intros l; simpl; [by intros ->|].
  intros (?&_&?). eapply rtc_l; eauto.
Qed.

(** ** The operations of the authority are sequences of atomic steps *)

Lemma record_stall_frame_steps st l rs auto tok now now_op uuid :
  rtc authority_step st (record_stall_frame st l rs auto tok now now_op uuid).
Proof.
  unfold record_stall_frame. destruct (stall_record _ _ _ _ _ _ _) as [ws d].
  assert (rtc authority_step st (with_windows st ws)) as Hw by apply rtc_once, step_windows.
  set (st1 := with_windows st ws) in *.
  set (st2 := match sessions st1 !! session_id l with Some s => _ | None => st1 end).
  assert (rtc authority_step st st2) as H2.
  { subst st2. destruct (sessions st1 !! _) as [s|] eqn:Hs; [|done].
    eapply rtc_r; [exact Hw|by apply step_observation]. }
  clearbody st2.
  assert (∀ rev op c, rtc authority_step st
            (snd (apply_task_ledger_op_unless_cancelled st2 (session_id l) rev op now_op c))) as Hop.
  { intros. eapply rtc_r; [exact H2|apply step_op]. }
  assert (∀ n text, rtc authority_step st
            match apply_task_ledger_op_unless_cancelled st2 (session_id l) (revision l)
                    (Op.SetNext n (Some Actor.System)) now_op (is_cancelled tok 2) with
            | (Ok (Some (snapshot, _)), st') =>
                let st' := with_windows st' (stall_rebaseline (stall_windows st') (session_id l) snapshot) in
                if is_cancelled tok 3 then st'
                else enqueue_system_steering st' (session_id l) text "steer_replan" uuid now_op
            | (_, st') => st'
            end) as Hreplan.
  { intros n text. pose proof (Hop (revision l) (Op.SetNext n (Some Actor.System)) (is_cancelled tok 2)) as H3.
    destruct (apply_task_ledger_op_unless_cancelled _ _ _ _ _ _) as [[[[m c]|]|e] st3]; try done.
    simpl in H3. assert (∀ ws, rtc authority_step st (with_windows st3 ws)) as H4.
    { intros. eapply rtc_r; [exact H3|apply step_windows]. }
    destruct (is_cancelled tok 3); [apply H4|]. eapply rtc_r; [apply H4|apply step_steering]. }
  destruct (decision_observations d), (decision_action d); try done;
    destruct (is_cancelled tok 1); done.
Qed.

(** Every entry point of the authority is a sequence of atomic steps, so whatever the
    interleaving theorems say of steps holds of the operations: dispatching a seam with its stall
    control, verifying criteria around anything the rest of the server does in the meantime, and
    preparing an auto-continuation. *)
Lemma operations_refine_atomic_steps st others sid fact auto tok now now1 now2 uuid run
    provider model variant cancelled :
  (∀ s, rtc authority_step s (others s)) →
  rtc authority_step st (snd (dispatch_seam_with_control st sid fact auto tok now now1 now2 uuid)) ∧
  rtc authority_step st (snd (verify_goal_criteria st others run sid tok now)) ∧
  rtc authority_step st (snd (prepare_task_ledger_auto_continuation st others sid provider model
                                variant cancelled now)).
Proof.
  intros Ho. split_and!.
  - unfold dispatch_seam_with_control. pose proof (step_seam st sid fact now) as H1.
    destruct (seam_section st sid fact now) as [o st1]. simpl in H1.
    destruct o as [|fl| |l]; simpl; try by apply rtc_once.
    + destruct (feeds_window fact); [|by apply rtc_once].
      eapply rtc_l; [exact H1|apply record_stall_frame_steps].
    + eapply rtc_l; [exact H1|apply record_stall_frame_steps].
  - unfold verify_goal_criteria. destruct (verify_begin _ _ _) as [[[g dir] rev]|o]; [|done].
    destruct (run_checks _ _ _) as [ops|o]; [|apply Ho].
    destruct (is_cancelled tok 1); [apply Ho|]. eapply rtc_r; [apply Ho|apply step_verify].
  - unfold prepare_task_ledger_auto_continuation. pose proof (step_continuation st sid cancelled) as H1.
    destruct (continuation_section st sid cancelled) as [[[[state|stop|state reason] l]|] st1];
      simpl in *; try by apply rtc_once.
    eapply rtc_l; [exact H1|]. unfold apply_task_ledger_op.
    pose proof (step_op (others st1) sid (revision l) (Op.SetStatus Status.Blocked None (Some reason))
      now false) as H2.
    destruct (apply_task_ledger_op_unless_cancelled _ _ _ _ _ _) as [r st2]. simpl in *.
    eapply rtc_r; [apply Ho|exact H2].
Qed.

(** ** Whole-session write-backs

    A task that works on a session clones its row, edits the clone and hands it back with
    [SessionManager::update], which replaces the row whatever was committed to it meanwhile
    (routes/session/prompt.rs:1429, 2039 and 2244, with the clone of 1880); a session may also be
    created and deleted.  None of these publishes a ledger. *)

(** [SessionManager::update] of a session, by what it does to the row. *)
Definition write_back_session (st : ServerState) (sid : string) (s : Session) : ServerState :=
  with_sessions st (<[sid := s]> (sessions st)).

(** [SessionManager::delete], by what it does to the row. *)
Definition drop_session (st : ServerState) (sid : string) : ServerState :=
  with_sessions st (delete sid (sessions st)).

(** The state, the clones that tasks hold, every id a session ever had (they are random and do
    not repeat) and, as a record of the proof only, the ledgers that a write-back or a deletion
    took out of the store. *)
Record TaskServer := {
  ts_state : ServerState;
  ts_clones : list (string * Session);
  ts_known : gset string;
  ts_discarded : list (string * SessionTaskLedger);
}.

(** What a write-back of [s] discards: the stored ledger, where it is not the one of the clone. *)
Definition discards (st : ServerState) (sid : string) (s : Session)
    : list (string * SessionTaskLedger) :=
  match sessions st !! sid with
  | Some old => if decide (session_ledger sid old = session_ledger sid s) then []
                else [(sid, session_ledger sid old)]
  | None => []
  end.

Inductive server_step (a : TaskServer) : TaskServer → Prop :=
| ss_authority st' : authority_step (ts_state a) st' →
    server_step a {| ts_state := st'; ts_clones := ts_clones a; ts_known := ts_known a;
                     ts_discarded := ts_discarded a |}
| ss_clone sid s : sessions (ts_state a) !! sid = Some s →
    server_step a {| ts_state := ts_state a; ts_clones := (sid, s) :: ts_clones a;
                     ts_known := ts_known a; ts_discarded := ts_discarded a |}
| ss_edit i sid s s' : ts_clones a !! i = Some (sid, s) →
    metadata s' !! TASK_LEDGER_METADATA_KEY = metadata s !! TASK_LEDGER_METADATA_KEY →
    server_step a {| ts_state := ts_state a; ts_clones := <[i := (sid, s')]> (ts_clones a);
                     ts_known := ts_known a; ts_discarded := ts_discarded a |}
| ss_write_back sid s : (sid, s) ∈ ts_clones a →
    server_step a {| ts_state := write_back_session (ts_state a) sid s; ts_clones := ts_clones a;
                     ts_known := ts_known a;
                     ts_discarded := ts_discarded a ++ discards (ts_state a) sid s |}
| ss_create sid s : sid ∉ ts_known a →
    server_step a {| ts_state := write_back_session (ts_state a) sid s; ts_clones := ts_clones a;
                     ts_known := {[sid]} ∪ ts_known a; ts_discarded := ts_discarded a |}
| ss_delete sid s : sessions (ts_state a) !! sid = Some s →
    server_step a {| ts_state := drop_session (ts_state a) sid; ts_clones := ts_clones a;
                     ts_known := ts_known a;
                     ts_discarded := ts_discarded a ++ [(sid, session_ledger sid s)] |}.

(** Events each of which continues the first ledger or one published before. *)
Definition event_tree (l0 : SessionTaskLedger) (evs : list SessionTaskLedger) : Prop :=
  ∀ i e, evs !! i = Some e → ∃ l, l ∈ l0 :: take i evs ∧
    ledger_step l e ∧ revision e = u64_add (revision l) 1.

Lemma event_tree_snoc l0 evs l e :
  event_tree l0 evs → l ∈ l0 :: evs → ledger_step l e → revision e = u64_add (revision l) 1 →
  event_tree l0 (evs ++ [e]).
Proof.
  intros Ht Hl Hs Hr i x Hx. apply lookup_app_Some in Hx as [Hx|[Hlen Hx]].
  - destruct (Ht i x Hx) as (y&Hy&?). exists y. split; [|done].
    rewrite take_app_le by (apply lookup_lt_Some in Hx; lia). done.
  - apply list_lookup_singleton_Some in Hx as [Hi <-]. exists l. split; [|done].
    assert (i = length evs) as -> by lia. by rewrite take_app_length.
Qed.

Lemma event_tree_history l0 evs l :
  event_tree l0 evs → l ∈ l0 :: evs → history_extends (verified l0) (verified l).
Proof.
  intros Ht. assert (∀ n i e, i < n → evs !! i = Some e → history_extends (verified l0) (verified e))
    as Hall.
  { induction n as [|n IH]; intros i e Hi He; [lia|].
    destruct (Ht i e He) as (l1&Hl1&Hstep&_). trans (verified l1); [|by apply ledger_step_history].
    apply elem_of_cons in Hl1 as [->|(j&Hj)%list_elem_of_lookup]; [done|].
    apply lookup_take_Some in Hj as [Hj Hlt]. by apply (IH j); [lia|]. }
  intros [->|(i&Hi)%list_elem_of_lookup]%elem_of_cons; [done|]. by apply (Hall (S i) i); [lia|].
Qed.

(** What every run keeps about a session that is there at its start. *)
Record server_inv (sid : string) (l0 : SessionTaskLedger) (a : TaskServer) : Prop := {
  inv_known : sid ∈ ts_known a;
  inv_tree : event_tree l0 (events_of (ts_state a) sid);
  inv_clones : ∀ s, (sid, s) ∈ ts_clones a →
    session_ledger sid s ∈ l0 :: events_of (ts_state a) sid;
  inv_stored : ∀ l, ledger_at (ts_state a) sid = Some l → l ∈ l0 :: events_of (ts_state a) sid;
  inv_chain : sid ∉ (ts_discarded a).*1 →
    ∃ l, ledger_at (ts_state a) sid = Some l ∧ event_chain l0 (events_of (ts_state a) sid) l;
}.

Lemma ledger_at_write_back st sid0 s sid :
  ledger_at (write_back_session st sid0 s) sid =
    if decide (sid = sid0) then Some (session_ledger sid s) else ledger_at st sid.
Proof.
  unfold ledger_at. simpl. case_decide as E; [subst; by rewrite lookup_insert_eq|].
  by rewrite lookup_insert_ne.
Qed.

Lemma server_inv_authority sid l0 a st' :
  server_inv sid l0 a → authority_step (ts_state a) st' →
  server_inv sid l0 {| ts_state := st'; ts_clones := ts_clones a; ts_known := ts_known a;
                       ts_discarded := ts_discarded a |}.
Proof.
  intros [Hk Ht Hc Hs Hch] H.
  destruct (authority_step_moves _ _ sid H) as [[E1 E2]|(l&l'&Hl&Hl'&Hst&Hr&E2)].
  - split; simpl; rewrite ?E1, ?E2; done.
  - split; simpl; rewrite ?Hl', ?E2; [done|..].
    + by eapply event_tree_snoc; [|apply Hs| |].
    + intros s Hin. apply Hc in Hin. set_solver.
    + intros ? [= <-]. set_solver.
    + intros Hd. destruct (Hch Hd) as (m&Hm&Hmc). assert (m = l) as -> by congruence.
      exists l'. split; [done|]. by eapply event_chain_snoc.
Qed.

Lemma server_inv_write_back sid l0 a sid0 s :
  server_inv sid l0 a → (sid0, s) ∈ ts_clones a →
  server_inv sid l0 {| ts_state := write_back_session (ts_state a) sid0 s; ts_clones := ts_clones a;
                       ts_known := ts_known a;
                       ts_discarded := ts_discarded a ++ discards (ts_state a) sid0 s |}.
Proof.
  intros [Hk Ht Hc Hs Hch] Hin. split; simpl; [done|done|done|..].
  - intros l. rewrite ledger_at_write_back. case_decide as E; [subst|apply Hs]. intros [= <-]. by apply Hc.
  - rewrite fmap_app. intros [Hd Hd2]%not_elem_of_app. destruct (Hch Hd) as (l&Hl&Hlc).
    rewrite ledger_at_write_back. case_decide as E; [subst sid0|by exists l].
    exists l. split; [|done]. unfold ledger_at, discards in *.
    destruct (sessions (ts_state a) !! sid) as [old|]; [|done]. simpl in Hl. case_decide as E; [congruence|].
    exfalso. apply Hd2. simpl. by left.
Qed.

Lemma server_inv_step sid l0 a b : server_inv sid l0 a → server_step a b → server_inv sid l0 b.
Proof.
  intros Hinv [st' H|sid0 s H|i sid0 s s' H Hm|sid0 s H|sid0 s H|sid0 s H].
  - by apply server_inv_authority.
  - destruct Hinv as [Hk Ht Hc Hs Hch]. split; simpl; try done.
    intros x [[= <- <-]|Hx]%elem_of_cons; [|by apply Hc]. apply Hs. unfold ledger_at. by rewrite H.
  - destruct Hinv as [Hk Ht Hc Hs Hch]. split; simpl; try done.
    intros x Hx. apply list_elem_of_lookup in Hx as (j&Hj).
    apply list_lookup_insert_Some in Hj as [(->&[= <- <-]&_)|[_ Hj]].
    + rewrite (session_ledger_metadata _ _ _ Hm). apply Hc. by eapply list_elem_of_lookup_2.
    + apply Hc. by eapply list_elem_of_lookup_2.
  - by apply server_inv_write_back.
  - destruct Hinv as [Hk Ht Hc Hs Hch]. assert (sid ≠ sid0) as Hne by by intros ->.
    split; simpl; [set_solver|done|done|..]; setoid_rewrite ledger_at_write_back;
      setoid_rewrite decide_False; done.
  - destruct Hinv as [Hk Ht Hc Hs Hch].
    assert (∀ x, x ≠ sid0 → ledger_at (drop_session (ts_state a) sid0) x = ledger_at (ts_state a) x) as Hne.
    { intros x Hx. unfold ledger_at. simpl. by rewrite lookup_delete_ne. }
    split; simpl; [done|done|done|..].
    + intros l. destruct (decide (sid = sid0)) as [->|E].
      * unfold ledger_at. simpl. by rewrite lookup_delete_eq.
      * rewrite Hne by done. apply Hs.
    + rewrite fmap_app. simpl. intros [Hd Hd2]%not_elem_of_app.
      rewrite Hne by (intros ->; apply Hd2; by left). by apply Hch.
Qed.

(** C4. What the event bus tells about a session's ledger, under every interleaving of the
    critical sections of the server's tasks with whole-session write-backs (a task replaces the
    row by a clone it took earlier), creations and deletions.  From a state with an empty log and
    no clones out, where the session stores [l0]: every replacement event of the session is a
    transaction, with the next revision, on [l0] or on a ledger published before it; what the
    session stores, if it is stored, is [l0] or one of the published ledgers, and extends the
    evidence of [l0]; and as long as no write-back of a clone with an outdated ledger and no
    deletion has discarded a ledger of the session, the events are successive transactions and
    the last one (or [l0]) is exactly what the session stores. *)
Theorem event_log_is_commit_order a b sid l0 :
  rtc server_step a b → event_log (ts_state a) = [] → ts_clones a = [] → sid ∈ ts_known a →
  ledger_at (ts_state a) sid = Some l0 →
  event_tree l0 (events_of (ts_state b) sid) ∧
  (∀ l, ledger_at (ts_state b) sid = Some l →
     l ∈ l0 :: events_of (ts_state b) sid ∧ history_extends (verified l0) (verified l)) ∧
  (sid ∉ (ts_discarded b).*1 →
     ∃ l, ledger_at (ts_state b) sid = Some l ∧ event_chain l0 (events_of (ts_state b) sid) l ∧
          history_extends (verified l0) (verified l)).
Proof.
  intros H Hlog Hcl Hk Hl.
  assert (server_inv sid l0 b) as [_ Ht _ Hs Hch].
  { refine (rtc_ind_r (server_inv sid l0) a _ _ b H).
    - assert (events_of (ts_state a) sid = []) as E by (unfold events_of; by rewrite Hlog).
      split; rewrite ?E, ?Hcl, ?Hl; [done|done|by intros ? ?%not_elem_of_nil|..].
      + intros ? [= <-]. by left.
      + intros _. by exists l0.
    - intros x y _ Hstep Hinv. by eapply server_inv_step. }
  assert (∀ l, ledger_at (ts_state b) sid = Some l → history_extends (verified l0) (verified l)) as Hh.
  { intros l Hat. by eapply event_tree_history; [|apply Hs]. }
  split_and!; [done|auto|]. intros Hd. destruct (Hch Hd) as (l&Hat&Hlc). eauto.
Qed.

(** ** Criterion verification *)

Lemma run_checks_Ok run dir checks ops :
  run_checks run dir checks = Ok ops →
  ops = check_op dir <$> checks ∧ Forall (λ c, run (check_command c) dir = Exited true) checks.
Proof.
  revert ops. induction checks as [|c checks IH]; simpl; intros ops H; [by simplify_eq|].
  destruct (run (check_command c) dir) as [| |[]| |] eqn:Hr; simpl in H; try done.
  apply rbind_Ok in H as (ops'&Hops&[= <-]). destruct (IH _ Hops) as [-> ?].
  split; [done|by constructor].
Qed.

Lemma check_op_adds dir check l now l' :
  apply_op l (check_op dir check) now = Ok l' →
  goal_generation l' = goal_generation l ∧
  (∀ c, c ∈ current_checkpoints l → c ∈ current_checkpoints l') ∧
  ∃ c, c ∈ current_checkpoints l' ∧ check_criterion check ∈ chk_covered_criteria c ∧
       chk_verifier c = Verifier.DeterministicCheck (check_command check).
Proof.
  simpl. unfold apply_add_checkpoint. intros H. inv_result. split; [done|].
  unfold current_checkpoints. cbn [set_verified verified].
  split.
  - intros c [Hc Hin]%list_elem_of_filter. apply list_elem_of_filter. split; [done|].
    apply elem_of_app. by left.
  - eexists. rewrite list_elem_of_filter. split; [split; [|apply elem_of_app; right; by left]|].
    + unfold is_current. simpl. by rewrite bool_decide_eq_true_2.
    + split; [by left|done].
Qed.

Lemma check_ops_add dir checks l now l' :
  apply_ops l (check_op dir <$> checks) now = Ok l' →
  (∀ c, c ∈ current_checkpoints l → c ∈ current_checkpoints l') ∧
  ∀ check, check ∈ checks → ∃ c, c ∈ current_checkpoints l' ∧
    check_criterion check ∈ chk_covered_criteria c ∧
    chk_verifier c = Verifier.DeterministicCheck (check_command check).
Proof.
  unfold apply_ops. revert l. induction checks as [|check checks IH]; intros l; cbn [fmap list_fmap fold_result].
  { intros [= <-]. split; [done|]. by intros ? ?%not_elem_of_nil. }
  intros (l1&H1&H)%rbind_Ok. destruct (check_op_adds _ _ _ _ _ H1) as (_&Hk&c&Hc&Hcov&Hv).
  destruct (IH _ H) as [Hk2 Hnew]. split; [by auto|].
  intros x [->|Hx]%elem_of_cons; [|by apply Hnew]. exists c. auto.
Qed.

(** Only commands that exited 0 produce criterion evidence, and a passed verification is all
    of it: if the outcome is Passed, every check bound to the goal read at the start was run and
    exited 0, and the ledger then stored holds for each of them a current checkpoint that covers its
    criterion and names its command; any other outcome leaves the state as the rest of the server
    made it. *)
Lemma verification_covers_checked_criteria st others run sid tok now o st' :
  verify_goal_criteria st others run sid tok now = (o, st') →
  match o with
  | Passed => ∃ l0 g dir l', ledger_at st sid = Some l0 ∧ goal l0 = Some g ∧
      Forall (λ c, run (check_command c) dir = Exited true) (criterion_checks g) ∧
      ledger_at st' sid = Some l' ∧
      ∀ check, check ∈ criterion_checks g → ∃ c, c ∈ current_checkpoints l' ∧
        check_criterion check ∈ chk_covered_criteria c ∧
        chk_verifier c = Verifier.DeterministicCheck (check_command check)
  | _ => st' = st ∨ st' = others st
  end.
Proof.
  unfold verify_goal_criteria, verify_begin. intros H.
  destruct (is_cancelled tok 0); [injection H as <- <-; by left|].
  destruct (sessions st !! sid) as [s|] eqn:Hs; [|injection H as <- <-; by left].
  destruct (goal (session_ledger sid s)) as [g|] eqn:Hg; [|injection H as <- <-; by left].
  destruct (_ || _); [injection H as <- <-; by left|].
  destruct (run_checks run (directory s) (criterion_checks g)) as [ops|e] eqn:Hrun.
  2: { injection H as <- <-. revert Hrun. clear. generalize (criterion_checks g).
       induction l as [|c l IH]; simpl; [done|]. destruct (run _ _) as [| |[]| |]; simpl;
         try (intros [= <-]; by right). destruct (run_checks _ _ l); simpl; [done|].
       intros [= <-]. by apply IH. }
  apply run_checks_Ok in Hrun as [-> Hall].
  destruct (is_cancelled tok 1); [injection H as <- <-; by right|].
  unfold verify_commit in H. destruct (is_cancelled tok 2); [injection H as <- <-; by right|].
  destruct (sessions (others st) !! sid) as [s2|] eqn:Hs2; [|injection H as <- <-; by right].
  destruct (apply_batch _ _ _ _) as [[r|e] l'] eqn:Hb; [|injection H as <- <-; by right].
  destruct (commit_snapshot_in_memory _ _ _ _ _) as [st2|e] eqn:Hc; [|injection H as <- <-; by right].
  injection H as <- <-. exists (session_ledger sid s), g, (directory s), l'.
  split_and!; [unfold ledger_at; by rewrite Hs|done..| |].
  - pose proof (commit_batch_moves (others st) sid s2 _ _ _ _ _ _ _ sid Hs2 Hb Hc) as Hm.
    unfold commit_snapshot_in_memory in Hc. destruct (ledger_to_value l') as [v|] eqn:Hv; [|done].
    simpl in Hc. injection Hc as <-. unfold ledger_at. simpl. rewrite lookup_insert_eq. simpl.
    unfold session_ledger, ledger_snapshot_from_record. simpl.
    rewrite lookup_insert_eq, (ledger_codec _ _ Hv). f_equal.
    assert (session_id l' = sid) as <-; [|apply set_session_id_same].
    rewrite <- (session_ledger_id sid s2). apply ledger_step_session_id. left. eauto.
  - apply apply_batch_Ok in Hb as (_&_&staged&H&_&->).
    destruct (check_ops_add _ _ _ _ _ H) as [_ Hnew]. intros check Hcheck.
    destruct (Hnew check Hcheck) as (c&Hin&?&?). by exists c.
Qed.

(** ** Cancellation *)

(** Stop wins the race against a stall action: if the token is cancelled when the action
    reaches the ledger write, recording the frame changes no session's ledger and publishes no
    event, whatever the earlier reads of the token answered and whatever was decided. *)
Lemma cancelled_stall_action_writes_nothing st l rs auto tok now now_op uuid :
  is_cancelled tok 2 = true →
  let st' := record_stall_frame st l rs auto tok now now_op uuid in
  event_log st' = event_log st ∧ ∀ sid, ledger_at st' sid = ledger_at st sid.
Proof.
  intros Hc. cbv zeta. unfold record_stall_frame. rewrite Hc.
  destruct (stall_record _ _ _ _ _ _ _) as [ws d].
  set (st1 := with_windows st ws).
  set (st2 := match sessions st1 !! session_id l with Some s => _ | None => st1 end).
  assert (event_log st2 = event_log st ∧ ∀ sid, ledger_at st2 sid = ledger_at st sid) as [E2 L2].
  { subst st2. destruct (sessions st1 !! session_id l) as [s|] eqn:Hs; [|done]. split; [done|].
    intros sid. destruct (moves_insert_metadata st1 (session_id l) s STALL_OBSERVATION_KEY
      (decision_to_value d) sid Hs) as [[H _]|(?&?&_&_&_&_&H)]; [done|exact H|].
    exfalso. revert H. unfold events_of. simpl. intros H%(f_equal length).
    rewrite length_app in H. simpl in H. lia. }
  clearbody st2. unfold apply_task_ledger_op_unless_cancelled.
  destruct (decision_observations d), (decision_action d); try done;
    destruct (is_cancelled tok 1); done.
Qed.

(** ** Stall decisions *)

(** The ledger operation a stall action stands for, and what it is to leave in the ledger. *)
Definition stall_op (action : StallAction) : option TaskLedgerOp :=
  match action with
  | StallAction.Replan _ statement _ => Some (Op.SetNext statement (Some Actor.System))
  | StallAction.Block reason => Some (Op.SetStatus Status.Blocked None (Some reason))
  | StallAction.None => None
  end.

Definition stall_effect (action : StallAction) (l l' : SessionTaskLedger) : Prop :=
  match action with
  | StallAction.Replan _ statement _ =>
      next_statement <$> next l' = Some statement ∧
      prov_actor ∘ next_provenance <$> next l' = Some Actor.System ∧ status l' = status l
  | StallAction.Block reason =>
      status l' = Status.Blocked ∧ blocked_reason l' = Some reason
  | StallAction.None => False
  end.

(** The texts queued for a session. *)
Definition steering_texts (st : ServerState) (sid : string) : list string :=
  steer_text <$> default [] (steering_store st !! sid).

(** Sessions other than [sid] keep their rows, their events and their queues. *)
Definition only_touches (sid : string) (st st' : ServerState) : Prop :=
  ∀ other, other ≠ sid → sessions st' !! other = sessions st !! other ∧
    events_of st' other = events_of st other ∧ steering_texts st' other = steering_texts st other.

Lemma only_touches_trans sid st1 st2 st3 :
  only_touches sid st1 st2 → only_touches sid st2 st3 → only_touches sid st1 st3.
Proof.
  intros H1 H2 o Ho. destruct (H1 o Ho) as (?&?&?), (H2 o Ho) as (?&?&?). by split_and!; etrans.
Qed.

Lemma stall_op_effect action op l now r l' :
  stall_op action = Some op → apply l (revision l) op now = (Ok r, l') → stall_effect action l l'.
Proof.
  intros Ho (_&_&staged&H&_&->)%apply_batch_Ok. unfold apply_ops in H. simpl in H.
  apply rbind_Ok in H as (l1&H&[= <-]). destruct action; simplify_eq/=.
  - apply rbind_Ok in H as ([]&_&H). destruct (negb _); [done|]. simplify_eq/=. done.
  - unfold apply_set_status in H. inv_result. done.
Qed.

(** Writing one operation, with the token read as not cancelled. *)
Lemma apply_op_outcome st sid rev op now cur :
  (∀ l, is_Some (ledger_to_value l)) → ledger_at st sid = Some cur →
  ∃ r st', apply_task_ledger_op_unless_cancelled st sid rev op now false = (r, st') ∧
    only_touches sid st st' ∧ stall_windows st' = stall_windows st ∧
    steering_store st' = steering_store st ∧
    match apply cur rev op now with
    | (Ok _, l') => r = Ok (Some (l', cause_for_op op)) ∧
        ledger_at st' sid = Some l' ∧ events_of st' sid = events_of st sid ++ [l']
    | (Err _, _) => (∃ e, r = Err e) ∧ ledger_at st' sid = Some cur ∧ event_log st' = event_log st
    end.
Proof.
  intros Henc Hcur. unfold apply_task_ledger_op_unless_cancelled.
  assert (Hat := Hcur). unfold ledger_at in Hcur.
  destruct (sessions st !! sid) as [s|] eqn:Hs; [|done].
  simpl in Hcur. injection Hcur as Hcur. rewrite Hcur.
  destruct (apply cur rev op now) as [[r|e] l'] eqn:Ha.
  - destruct (Henc l') as [v Hv]. unfold commit_snapshot_in_memory. rewrite Hv. cbn [rbind].
    do 2 eexists. split; [done|]. unfold only_touches, ledger_at, events_of. simpl.
    split_and!; [|done..|rewrite lookup_insert_eq|].
    + intros o Ho. split_and!; [by rewrite lookup_insert_ne| |done].
      rewrite filter_app, fmap_app, filter_cons, decide_False by (simpl; congruence).
      by rewrite app_nil_r.
    + simpl. unfold session_ledger, ledger_snapshot_from_record. simpl.
      rewrite lookup_insert_eq, (ledger_codec _ _ Hv). f_equal.
      assert (session_id l' = sid) as <-; [|apply set_session_id_same].
      rewrite <- (session_ledger_id sid s), Hcur. apply ledger_step_session_id. left.
      unfold apply in Ha. eauto.
    + by rewrite filter_app, fmap_app, filter_cons, decide_True.
  - assert (only_touches sid st st) as Hrefl by by intros o Ho.
    destruct e; do 2 eexists; (split; [reflexivity|]); split_and!; eauto.
    + intros o Ho. split_and!; [|done..]. simpl. by rewrite lookup_insert_ne.
    + unfold ledger_at. simpl. rewrite lookup_insert_eq. simpl. rewrite <- Hcur. f_equal.
      apply session_ledger_metadata. simpl. by rewrite lookup_insert_ne.
Qed.

(** The frame up to its action: the windows are advanced and the decision is noted. *)
Lemma stall_noted st sid d ws cur :
  ledger_at st sid = Some cur →
  let st1 := with_windows st ws in
  let st2 := match sessions st1 !! sid with
             | Some s => insert_metadata st1 sid s STALL_OBSERVATION_KEY (decision_to_value d)
             | None => st1
             end in
  only_touches sid st st2 ∧ ledger_at st2 sid = Some cur ∧ event_log st2 = event_log st ∧
  stall_windows st2 = ws ∧ steering_store st2 = steering_store st.
Proof.
  intros Hcur. cbv zeta. simpl. unfold ledger_at in *.
  destruct (sessions st !! sid) as [s|] eqn:Hs; [|done]. simpl in *. rewrite lookup_insert_eq. simpl.
  split_and!; [|..|done|done|done].
  - intros o Ho. split_and!; [|done..]. simpl. by rewrite lookup_insert_ne.
  - rewrite <- Hcur. f_equal. apply session_ledger_metadata. simpl. by rewrite lookup_insert_ne.
Qed.

Lemma lookup_enqueue (q : SteeringStore) owner m sid :
  steering_enqueue q owner m !! sid =
    if decide (sid = owner) then Some (default [] (q !! owner) ++ [m]) else q !! sid.
Proof.
  unfold steering_enqueue. case_decide as E; [subst; apply lookup_insert_eq|].
  by apply lookup_insert_ne.
Qed.

(** Queueing a text for a session, after its window started over. *)
Lemma steering_queued st sid ws text prefix uuid now :
  let st' := enqueue_system_steering (with_windows st ws) sid text prefix uuid now in
  only_touches sid st st' ∧ steering_texts st' sid = steering_texts st sid ++ [text].
Proof.
  unfold only_touches, steering_texts. simpl. split.
  - intros o Ho. by rewrite lookup_enqueue, decide_False.
  - rewrite lookup_enqueue, decide_True by done. simpl. by rewrite fmap_app.
Qed.

Lemma same_for_observations {A} (obs : list StallObservation) (x : A) :
  match obs with [] => x | _ :: _ => x end = x.
Proof. by destruct obs. Qed.

(** C5. What the stall control decides is what happens to the ledger, and nothing else is.
    Recording a frame touches no other session and queues nothing for one.  Where the decision
    calls for an operation (a replan sets the next action in the name of the system, a block
    blocks the goal with its reason) and the token is read as not cancelled twice, the operation
    is applied to the ledger [cur] stored at that moment against the revision the frame was
    decided on: if the ledger moved on meanwhile, or refuses the operation, the ledger and the
    event log stay; otherwise exactly the resulting ledger is stored and published, it has the
    decided content, and after a replan the stall window starts over from it and its steering
    text is queued, unless the token is cancelled by then.  In every other case the ledger, the
    log and the queue stay as they were. *)
Theorem stall_decisions_reach_the_ledger st l rs auto tok now now_op uuid cur :
  (∀ x, is_Some (ledger_to_value x)) → ledger_at st (session_id l) = Some cur →
  let sid := session_id l in
  let '(ws, d) := stall_record (stall_windows st) sid l rs now auto (is_cancelled tok 0) in
  let st' := record_stall_frame st l rs auto tok now now_op uuid in
  let untouched := ledger_at st' sid = Some cur ∧ event_log st' = event_log st ∧
                   stall_windows st' = ws ∧ steering_store st' = steering_store st in
  only_touches sid st st' ∧
  match stall_op (decision_action d) with
  | None => untouched
  | Some op =>
      if is_cancelled tok 1 || is_cancelled tok 2 then untouched
      else match apply cur (revision l) op now_op with
           | (Err _, _) => untouched
           | (Ok _, l') =>
               revision l = revision cur ∧ ledger_at st' sid = Some l' ∧
               events_of st' sid = events_of st sid ++ [l'] ∧ stall_effect (decision_action d) cur l' ∧
               match decision_action d with
               | StallAction.Replan _ _ text =>
                   stall_windows st' = stall_rebaseline ws sid l' ∧
                   steering_texts st' sid = steering_texts st sid ++
                     (if is_cancelled tok 3 then [] else [text])
               | _ => stall_windows st' = ws ∧ steering_store st' = steering_store st
               end
           end
  end.
Proof.
  intros Henc Hcur. cbv zeta. unfold record_stall_frame.
  destruct (stall_record _ _ _ _ _ _ _) as [ws d].
  pose proof (stall_noted st (session_id l) d ws cur Hcur) as Hn. cbv zeta in Hn.
  set (st1 := with_windows st ws) in *.
  set (st2 := match sessions st1 !! session_id l with Some s => _ | None => st1 end) in *.
  destruct Hn as (T2&L2&E2&W2&Q2).
  assert (events_of st2 (session_id l) = events_of st (session_id l)) as Ev2 by (unfold events_of; by rewrite E2).
  assert (steering_texts st2 (session_id l) = steering_texts st (session_id l)) as St2
    by (unfold steering_texts; by rewrite Q2).
  clearbody st2.
  assert (∀ op r l', stall_op (decision_action d) = Some op →
    apply cur (revision l) op now_op = (Ok r, l') →
    revision l = revision cur ∧ stall_effect (decision_action d) cur l') as Heff.
  { intros op r l' Ho Ha. assert (revision l = revision cur) as E by (by apply apply_batch_Ok in Ha as (->&_)).
    rewrite E in Ha. split; [done|]. by eapply stall_op_effect. }
  destruct (decision_action d) as [|attempt statement text|reason]; simpl in *.
  - destruct (decision_observations d); split_and!; done.
  - rewrite same_for_observations.
    destruct (is_cancelled tok 1); [by split_and!|]. destruct (is_cancelled tok 2); [by split_and!|].
    destruct (apply_op_outcome st2 (session_id l) (revision l) (Op.SetNext statement (Some Actor.System))
      now_op cur Henc L2) as (r&st3&->&T3&W3&Q3&H3). simpl.
    pose proof (only_touches_trans _ _ _ _ T2 T3) as T4.
    destruct (apply cur _ _ _) as [[rv|e] l'] eqn:Ha.
    + destruct H3 as (->&L3&E3). destruct (Heff _ _ _ eq_refl Ha) as [Hr He].
      rewrite W3, W2. destruct (is_cancelled tok 3).
      * split_and!; try done; [by rewrite <- Ev2|by apply He..|].
        unfold steering_texts in *. simpl. rewrite Q3, app_nil_r. by rewrite <- St2.
      * destruct (steering_queued st3 (session_id l) (stall_rebaseline ws (session_id l) l') text
          "steer_replan" uuid now_op) as [T5 S5].
        split_and!; try done; [by eapply only_touches_trans|by rewrite <- Ev2|by apply He..|].
        rewrite S5. f_equal. unfold steering_texts in *. by rewrite Q3, <- St2.
    + destruct H3 as ([e' ->]&L3&E3). split_and!; try done; congruence.
  - rewrite same_for_observations.
    destruct (is_cancelled tok 1); [by split_and!|]. destruct (is_cancelled tok 2); [by split_and!|].
    destruct (apply_op_outcome st2 (session_id l) (revision l)
      (Op.SetStatus Status.Blocked None (Some reason)) now_op cur Henc L2) as (r&st3&->&T3&W3&Q3&H3). simpl.
    pose proof (only_touches_trans _ _ _ _ T2 T3) as T4.
    destruct (apply cur _ _ _) as [[rv|e] l'] eqn:Ha.
    + destruct H3 as (->&L3&E3). destruct (Heff _ _ _ eq_refl Ha) as [Hr He].
      split_and!; try done; try apply He; congruence.
    + destruct H3 as (_&L3&E3). split_and!; try done; congruence.
Qed.

(** ** Auto-continuation *)

(** A goal the continuation loop may work on. *)
Definition continuable (l : SessionTaskLedger) : Prop :=
  is_Some (goal l) ∧ status l = Status.Active ∧
  ∃ n, next l = Some n ∧ trim (next_statement n) ≠ "".

Definition no_progress (l l' : SessionTaskLedger) : Prop := fingerprint_data l = fingerprint_data l'.

Lemma plan_continuable prev l : continuable l →
  plan_task_ledger_auto_continuation prev l false =
    let fingerprint := task_ledger_continuation_fingerprint l in
    let '(rounds, stagnant) :=
      match prev with
      | Some p => if bool_decide (cont_goal_generation p = goal_generation l)
                  then (u32_saturating_add (cont_rounds p) 1,
                        if bool_decide (cont_last_fingerprint p = fingerprint)
                        then u32_saturating_add (cont_stagnant_rounds p) 1 else 0%Z)
                  else (1%Z, 0%Z)
      | None => (1%Z, 0%Z)
      end in
    let s := {| cont_goal_generation := goal_generation l; cont_rounds := rounds;
                cont_last_fingerprint := fingerprint; cont_stagnant_rounds := stagnant |} in
    if (AUTO_CONTINUATION_STAGNATION_LIMIT <=? stagnant)%Z
    then Plan.Block s (stagnation_reason stagnant (default "" (next_statement <$> next l)))
    else Plan.Continue s.
Proof.
  intros ([g Hg]&Hs&n&Hn&Ht). unfold plan_task_ledger_auto_continuation.
  rewrite Hg, Hs, Hn, bool_decide_eq_false_2 by done. simpl.
  destruct prev as [p|]; [|done]. by destruct (bool_decide (cont_goal_generation p = _)).
Qed.

Lemma plan_stagnant l l' rounds k : continuable l' → no_progress l l' → (0 ≤ k < 3)%Z →
  plan_task_ledger_auto_continuation
    (Some {| cont_goal_generation := goal_generation l; cont_rounds := rounds;
             cont_last_fingerprint := task_ledger_continuation_fingerprint l;
             cont_stagnant_rounds := k |}) l' false =
  let s := {| cont_goal_generation := goal_generation l'; cont_rounds := u32_saturating_add rounds 1;
              cont_last_fingerprint := task_ledger_continuation_fingerprint l';
              cont_stagnant_rounds := k + 1 |} in
  if decide (k = 2)%Z
  then Plan.Block s (stagnation_reason 3 (default "" (next_statement <$> next l')))
  else Plan.Continue s.
Proof.
  intros Hl' Hnp Hk. rewrite plan_continuable by done. simpl.
  assert (task_ledger_continuation_fingerprint l = task_ledger_continuation_fingerprint l') as ->.
  { unfold task_ledger_continuation_fingerprint. by rewrite Hnp. }
  unfold no_progress, fingerprint_data in Hnp. injection Hnp as -> _ _ _ _ _.
  rewrite !bool_decide_eq_true_2 by done.
  assert (u32_saturating_add k 1 = k + 1)%Z as ->.
  { unfold u32_saturating_add, u32_max. lia. }
  unfold AUTO_CONTINUATION_STAGNATION_LIMIT. case_decide as E.
  - by subst.
  - rewrite (proj2 (Z.leb_gt _ _)) by lia. done.
Qed.

(** The goal loop continues only live goals and gives up on the third stagnant round.  A plan
    to continue means the run was not cancelled and the goal is Active with a named next action;
    and from a fresh start (no state, or the state of another goal generation), four
    consecutive rounds without authoritative progress plan exactly continue, continue, continue,
    block. *)
Lemma continuation_blocks_after_three_stagnant_rounds prev l0 l1 l2 l3 :
  (∀ p l c s, plan_task_ledger_auto_continuation p l c = Plan.Continue s → c = false ∧ continuable l) ∧
  (continuable l0 → continuable l1 → continuable l2 → continuable l3 →
   no_progress l0 l1 → no_progress l1 l2 → no_progress l2 l3 →
   (∀ p, prev = Some p → cont_goal_generation p ≠ goal_generation l0) →
   ∃ s0 s1 s2 s3 reason,
     plan_task_ledger_auto_continuation prev l0 false = Plan.Continue s0 ∧
     plan_task_ledger_auto_continuation (Some s0) l1 false = Plan.Continue s1 ∧
     plan_task_ledger_auto_continuation (Some s1) l2 false = Plan.Continue s2 ∧
     plan_task_ledger_auto_continuation (Some s2) l3 false = Plan.Block s3 reason ∧
     cont_stagnant_rounds s3 = 3%Z).
Proof.
  split.
  - intros p l c s. unfold plan_task_ledger_auto_continuation, continuable.
    destruct c; [done|]. destruct (goal l) eqn:Hg; [|done]. destruct (status l); try done.
    destruct (next l) as [n|]; [|done]. case_bool_decide; [done|]. intros _.
    split; [done|]. split_and!; [by eexists|done|eauto].
  - intros C0 C1 C2 C3 N1 N2 N3 Hfresh.
    assert (plan_task_ledger_auto_continuation prev l0 false = Plan.Continue
      {| cont_goal_generation := goal_generation l0; cont_rounds := 1;
         cont_last_fingerprint := task_ledger_continuation_fingerprint l0;
         cont_stagnant_rounds := 0 |}) as P0.
    { rewrite plan_continuable by done. destruct prev as [p|]; [|done].
      by rewrite bool_decide_eq_false_2 by by apply Hfresh. }
    do 5 eexists. split_and!; [exact P0| | | |].
    + by rewrite (plan_stagnant l0 l1) by done.
    + by rewrite (plan_stagnant l1 l2) by done.
    + by rewrite (plan_stagnant l2 l3) by done.
    + done.
Qed.
End authority.

Arguments Session : clear implicits.
Arguments ServerState : clear implicits.

(** ** External writes *)

Lemma external_verifier (v : VerifierRef) (e1 e2 : ApiError) :
  match v with
  | Verifier.UserConfirmation actor => if bool_decide (actor = "user") then Ok tt else Err e1
  | Verifier.DeterministicCheck _ | Verifier.Evaluator _ => Err e2
  end = Ok tt → v = Verifier.UserConfirmation "user".
Proof. destruct v as [|d|u]; try done. case_bool_decide; [by subst|done]. Qed.

(** Callers outside the server can only speak as the user: an operation that passes
    [validate_external_op] and applies leaves every status, except that creating a ledger starts
    it, and every pending interaction as it was; every checkpoint it adds is a confirmation by the
    user, and a plan or goal it changes is attributed to the user. *)
Lemma external_ops_speak_as_user l op now l' :
  validate_external_op op = Ok tt → apply_op l op now = Ok l' →
  (status l' = status l ∨ goal l = None ∧ status l' = Status.Active) ∧
  awaiting_interactions l' = awaiting_interactions l ∧
  (∀ c, c ∈ verified l' → chk_verifier c = Verifier.UserConfirmation "user" ∨
        ∃ c0, c0 ∈ verified l ∧ chk_extends c0 c) ∧
  (next l' = next l ∨ prov_actor ∘ next_provenance <$> next l' = Some Actor.User) ∧
  (goal l' = goal l ∨ goal_set_by <$> goal l' = Some Actor.User).
Proof.
  intros Hv H.
  assert (∀ c, c ∈ verified l → chk_verifier c = Verifier.UserConfirmation "user" ∨
            ∃ c0, c0 ∈ verified l ∧ chk_extends c0 c) as Hold.
  { intros c Hc. right. exists c. by split; [|left]. }
  assert (∀ actor, validate_actor (Some actor) = Ok tt → actor = Actor.User) as Hactor.
  { intros actor. unfold validate_actor. case_bool_decide as E; [by injection E|done]. }
  op_cases op H; try done; split_and!; auto.
  - right. split; [|done]. apply orb_false_iff in Hb as [_ E].
    apply bool_decide_eq_false in E. destruct (goal l); [|done]. exfalso. apply E. by eexists.
  - right. by rewrite (Hactor _ Hv).
  - right. by rewrite (Hactor _ Hv).
  - intros c [Hc|Hc%list_elem_of_singleton]%elem_of_app.
    + right. apply find_first_Some in Ho as (V1&V2&HV&Ht&Hpre). rewrite HV in Hc |- *.
      rewrite update_first_split in Hc by done.
      apply bool_decide_eq_false, dec_stable in Hb.
      apply elem_of_app in Hc as [Hc|[->|Hc]%elem_of_cons].
      * exists c. split; [set_solver|by left].
      * eexists. split; [|right; split; [exact Hb|by eexists]]. set_solver.
      * exists c. split; [set_solver|by left].
    + left. subst. by apply external_verifier in Hv.
  - intros c [Hc|Hc%list_elem_of_singleton]%elem_of_app; [auto|]. left. subst. by apply external_verifier in Hv.
  - intros c [Hc|Hc%list_elem_of_singleton]%elem_of_app; [auto|]. left. subst. by apply external_verifier in Hv.
  - right. unfold validate_actor in Hv. case_bool_decide as E; [|done]. by subst.
Qed.

(** ** A concrete value type and server *)

Inductive DemoValue :=
| DLedger (l : SessionTaskLedger)
| DCont (c : TaskLedgerAutoContinuationState)
| DNum (z : Z)
| DDecision (d : StallDecision).

Definition demo_of_ledger (l : SessionTaskLedger) : option DemoValue := Some (DLedger l).
Definition demo_to_ledger (v : DemoValue) : option SessionTaskLedger :=
  match v with DLedger l => Some l | _ => None end.
Definition demo_of_cont (c : TaskLedgerAutoContinuationState) : option DemoValue := Some (DCont c).
Definition demo_to_cont (v : DemoValue) : option TaskLedgerAutoContinuationState :=
  match v with DCont c => Some c | _ => None end.
Definition demo_as_u64 (v : DemoValue) : option Z := match v with DNum z => Some z | _ => None end.

(** A rendering of the fingerprint data: its strings, separated. *)
Definition demo_json (d : Z * TaskLedgerStatus * option string * option string * list string *
    list string) : option string :=
  let '(g, s, b, n, qs, cs) := d in
  Some (str_join "|" [dec_Z g; status_debug s; default "" b; default "" n; str_join "," qs; str_join "," cs]).

Lemma demo_codec l v : demo_of_ledger l = Some v → demo_to_ledger v = Some l.
Proof. by intros [= <-]. Qed.

Definition demo_server : ServerState DemoValue := {|
  sessions := {[ "s" := {| directory := "/w"; metadata := {[ "task_ledger" := DLedger demo1 ]} |} ]};
  stall_windows := ∅; steering_store := ∅; event_log := [] |}.

Definition demo_run (command dir : string) : CheckRun := Exited true.

(** A server on which a task has cloned the session. *)
Definition demo_tasks : TaskServer :=
  {| ts_state := demo_server; ts_clones := []; ts_known := {[ "s" ]}; ts_discarded := [] |}.

Abbreviation demo_step :=
  (server_step demo_of_ledger demo_to_ledger demo_of_cont demo_to_cont demo_as_u64 DNum demo_json).
Abbreviation demo_seam st :=
  (snd (seam_section demo_of_ledger demo_to_ledger st "s" Seam.RecoveryInterrupted 50)).
Abbreviation demo_row st := (default {| directory := ""; metadata := ∅ |} (sessions st !! "s")).

(** One seam commits, and the row is cloned and written back after it. *)
Definition demo_fresh : TaskServer :=
  let st := demo_seam demo_server in
  {| ts_state := write_back_session st "s" (demo_row st); ts_clones := [("s", demo_row st)];
     ts_known := {[ "s" ]}; ts_discarded := [] |}.

(** The row is cloned, a seam commits and publishes, and the clone is written back. *)
Definition demo_stale : TaskServer :=
  let st := demo_seam demo_server in
  {| ts_state := write_back_session st "s" (demo_row demo_server);
     ts_clones := [("s", demo_row demo_server)];
     ts_known := {[ "s" ]}; ts_discarded := discards demo_to_ledger st "s" (demo_row demo_server) |}.

Lemma demo_fresh_reachable : rtc demo_step demo_tasks demo_fresh.
Proof.
  set (st := demo_seam demo_server).
  transitivity {| ts_state := st; ts_clones := []; ts_known := {[ "s" ]}; ts_discarded := [] |}.
  { apply rtc_once, (ss_authority _ _ _ _ _ _ _ demo_tasks st), step_seam. }
  eapply rtc_l; [apply (ss_clone _ _ _ _ _ _ _ _ "s" (demo_row st)); by vm_compute|].
  apply rtc_once. exact (ss_write_back _ _ _ _ _ _ _
    {| ts_state := st; ts_clones := [("s", demo_row st)]; ts_known := {[ "s" ]}; ts_discarded := [] |}
    "s" (demo_row st) (list_elem_of_here _ _)).
Qed.

Lemma demo_stale_reachable : rtc demo_step demo_tasks demo_stale.
Proof.
  eapply rtc_l; [apply (ss_clone _ _ _ _ _ _ _ _ "s" (demo_row demo_server)); by vm_compute|].
  eapply rtc_l; [apply ss_authority, (step_seam _ _ _ _ _ _ _ _ "s" Seam.RecoveryInterrupted 50)|].
  apply rtc_once. exact (ss_write_back _ _ _ _ _ _ _
    {| ts_state := demo_seam demo_server; ts_clones := [("s", demo_row demo_server)];
       ts_known := {[ "s" ]}; ts_discarded := [] |}
    "s" (demo_row demo_server) (list_elem_of_here _ _)).
Qed.

(** A commit that was published is lost: the run above ends with one replacement event and the
    ledger that was stored before it. *)
Lemma stale_write_back_loses_commits :
  rtc demo_step demo_tasks demo_stale ∧
  length (events_of (ts_state demo_stale) "s") = 1 ∧
  ledger_at demo_to_ledger (ts_state demo_stale) "s" = ledger_at demo_to_ledger demo_server "s" ∧
  last (events_of (ts_state demo_stale) "s") ≠ ledger_at demo_to_ledger (ts_state demo_stale) "s".
Proof. split; [apply demo_stale_reachable|]. by vm_compute. Qed.

Lemma event_log_is_commit_order_witness :
  length (events_of (ts_state demo_fresh) "s") = 1 ∧ ts_discarded demo_fresh = [] ∧
  event_tree demo1 (events_of (ts_state demo_fresh) "s") ∧
  (∀ l, ledger_at demo_to_ledger (ts_state demo_fresh) "s" = Some l →
     l ∈ demo1 :: events_of (ts_state demo_fresh) "s" ∧ history_extends (verified demo1) (verified l)) ∧
  ("s" ∉ (ts_discarded demo_fresh).*1 →
     ∃ l, ledger_at demo_to_ledger (ts_state demo_fresh) "s" = Some l ∧
          event_chain demo1 (events_of (ts_state demo_fresh) "s") l ∧
          history_extends (verified demo1) (verified l)).
Proof.
  split; [by vm_compute|split; [done|]].
  apply (event_log_is_commit_order demo_of_ledger demo_to_ledger demo_of_cont demo_to_cont demo_as_u64
    DNum demo_json demo_codec demo_tasks); [apply demo_fresh_reachable|done|done|set_solver|by vm_compute].
Defined.

(** The session has made no progress for two frames; the third one asks for a replan. *)
Definition demo_stalled : ServerState DemoValue :=
  with_windows demo_server {[ "s" := fst (stall_run stall_default
    [Evaluated demo1 true 0 true false; Evaluated demo1 false 1 true false;
     Evaluated demo1 false 2 true false]) ]}.

Definition demo_replanned : ServerState DemoValue :=
  record_stall_frame demo_of_ledger demo_to_ledger demo_as_u64 DNum DDecision demo_stalled
    demo1 false true None 3 4 "u".

Lemma stall_decisions_reach_the_ledger_witness :
  steering_texts demo_replanned "s" = [replan_steering 1] ∧
  (next_statement <$> (ledger_at demo_to_ledger demo_replanned "s" ≫= next)) = Some (replan_next 1) ∧
  only_touches "s" demo_stalled demo_replanned.
Proof.
  split; [by vm_compute|split; [by vm_compute|]].
  assert (ledger_at demo_to_ledger demo_stalled (session_id demo1) = Some demo1) as Hcur by by vm_compute.
  pose proof (stall_decisions_reach_the_ledger demo_of_ledger demo_to_ledger demo_as_u64 DNum DDecision
    demo_codec demo_stalled demo1 false true None 3 4 "u" demo1 (λ x, mk_is_Some _ _ eq_refl) Hcur) as H.
  cbv zeta in H. destruct (stall_record _ _ _ _ _ _ _) as [ws d]. exact (proj1 H).
Defined.
