(* ===== verification/ShellCommand.v ===== *)
(** * Shell commands: arity prefixes and permission scopes

    crates/agendao-permission/src/arity.rs and the command parser of
    crates/agendao-tool/src/bash.rs: how a shell command becomes the patterns,
    the "always allow" prefixes and the scope key that a permission request
    carries.  A slice past the end of a vector is a panic in the source; it is
    [None] here.  The environment variable HOME is a parameter. *)

From S2P Require Import Prelude.

(** ** Arity prefixes *)

Definition ARITY : list (string * nat) :=
  [("cat", 1); ("cd", 1); ("chmod", 1); ("chown", 1); ("cp", 1); ("echo", 1); ("env", 1);
   ("export", 1); ("grep", 1); ("kill", 1); ("killall", 1); ("ln", 1); ("ls", 1); ("mkdir", 1);
   ("mv", 1); ("ps", 1); ("pwd", 1); ("rm", 1); ("rmdir", 1); ("sleep", 1); ("source", 1);
   ("tail", 1); ("touch", 1); ("unset", 1); ("which", 1); ("aws", 3); ("az", 3); ("bazel", 2);
   ("brew", 2); ("bun", 2); ("bun run", 3); ("bun x", 3); ("cargo", 2); ("cargo add", 3);
   ("cargo run", 3); ("cdk", 2); ("cf", 2); ("cmake", 2); ("composer", 2); ("consul", 2);
   ("consul kv", 3); ("crictl", 2); ("deno", 2); ("deno task", 3); ("doctl", 3); ("docker", 2);
   ("docker builder", 3); ("docker compose", 3); ("docker container", 3); ("docker image", 3);
   ("docker network", 3); ("docker volume", 3); ("eksctl", 2); ("eksctl create", 3);
   ("firebase", 2); ("flyctl", 2); ("gcloud", 3); ("gh", 3); ("git", 2); ("git config", 3);
   ("git remote", 3); ("git stash", 3); ("go", 2); ("gradle", 2); ("helm", 2); ("heroku", 2);
   ("hugo", 2); ("ip", 2); ("ip addr", 3); ("ip link", 3); ("ip netns", 3); ("ip route", 3);
   ("kind", 2); ("kind create", 3); ("kubectl", 2); ("kubectl kustomize", 3);
   ("kubectl rollout", 3); ("kustomize", 2); ("make", 2); ("mc", 2); ("mc admin", 3);
   ("minikube", 2); ("mongosh", 2); ("mysql", 2); ("mvn", 2); ("ng", 2); ("npm", 2);
   ("npm exec", 3); ("npm init", 3); ("npm run", 3); ("npm view", 3); ("nvm", 2); ("nx", 2);
   ("openssl", 2); ("openssl req", 3); ("openssl x509", 3); ("pip", 2); ("pipenv", 2);
   ("pnpm", 2); ("pnpm dlx", 3); ("pnpm exec", 3); ("pnpm run", 3); ("poetry", 2); ("podman", 2);
   ("podman container", 3); ("podman image", 3); ("psql", 2); ("pulumi", 2); ("pulumi stack", 3);
   ("pyenv", 2); ("python", 2); ("rake", 2); ("rbenv", 2); ("redis-cli", 2); ("rustup", 2);
   ("serverless", 2); ("sfdx", 3); ("skaffold", 2); ("sls", 2); ("sst", 2); ("swift", 2);
   ("systemctl", 2); ("terraform", 2); ("terraform workspace", 3); ("tmux", 2); ("turbo", 2);
   ("ufw", 2); ("vault", 2); ("vault auth", 3); ("vault kv", 3); ("vercel", 2); ("volta", 2);
   ("wp", 2); ("yarn", 2); ("yarn dlx", 3); ("yarn run", 3)].

(** [tokens[..n]], which panics past the end *)
Definition slice_to {A} (n : nat) (l : list A) : option (list A) :=
  if bool_decide (n ≤ length l) then Some (take n l) else None.

Definition arity_of (prefix : string) : option nat :=
  snd <$> find_first (λ e, bool_decide (e.1 = prefix)) ARITY.

(** The loop of [BashArity::prefix], [len] counting down. *)
Fixpoint arity_search (tokens : list string) (len : nat) : option nat :=
  match len with
  | O => None
  | S len' =>
      match arity_of (str_join " " (take len tokens)) with
      | Some arity => Some arity
      | None => arity_search tokens len'
      end
  end.

(** [BashArity::prefix] *)
Definition bash_arity_prefix (tokens : list string) : option (list string) :=
  match arity_search tokens (length tokens) with
  | Some arity => slice_to arity tokens
  | None => if bool_decide (tokens = []) then Some [] else slice_to 1 tokens
  end.

(** ** Tokenization *)

Definition char_eq (c : string) (d : string) : bool := bool_decide (c = d).

(** One double quote, one single quote and one backslash. *)
Definition dquote : string := String (Ascii.ascii_of_nat 34) "".
Definition squote : string := String (Ascii.ascii_of_nat 39) "".
Definition backslash : string := String (Ascii.ascii_of_nat 92) "".

(** The loop of [split_shell_segments] over the characters; [current] is the text from
    [start] to here. *)
Fixpoint segments_loop (in_single in_double : bool) (current : list string) (cs : list string)
    : list string :=
  match cs with
  | [] => if bool_decide (current = []) then [] else [trim (str_concat current)]
  | ch :: cs' =>
      if char_eq ch squote && negb in_double
      then segments_loop (negb in_single) in_double (current ++ [ch]) cs'
      else if char_eq ch dquote && negb in_single
      then segments_loop in_single (negb in_double) (current ++ [ch]) cs'
      else if (char_eq ch ";" || char_eq ch "|" || char_eq ch "&") && negb in_single && negb in_double
      then
        let is_double := (char_eq ch "|" || char_eq ch "&") &&
                         match cs' with next :: _ => char_eq next ch | [] => false end in
        (if bool_decide (current = []) then [] else [trim (str_concat current)]) ++
        match is_double, cs' with
        | true, _ :: cs'' => segments_loop in_single in_double [] cs''
        | _, _ => segments_loop in_single in_double [] cs'
        end
      else segments_loop in_single in_double (current ++ [ch]) cs'
  end.

Definition split_shell_segments (command : string) : list string :=
  filter (λ segment, segment ≠ "") (segments_loop false false [] (chars command)).

(** The loop of [split_shell_words]. *)
Fixpoint words_loop (in_single in_double escaped : bool) (current : list string) (cs : list string)
    : list string :=
  match cs with
  | [] => if bool_decide (current = []) then [] else [str_concat current]
  | ch :: cs' =>
      if escaped then words_loop in_single in_double false (current ++ [ch]) cs'
      else if char_eq ch backslash && negb in_single
      then words_loop in_single in_double true current cs'
      else if char_eq ch squote && negb in_double
      then words_loop (negb in_single) in_double false current cs'
      else if char_eq ch dquote && negb in_single
      then words_loop in_single (negb in_double) false current cs'
      else if is_whitespace ch && negb in_single && negb in_double
      then (if bool_decide (current = []) then [] else [str_concat current]) ++
           words_loop in_single in_double false [] cs'
      else words_loop in_single in_double false (current ++ [ch]) cs'
  end.

Definition split_shell_words (command : string) : list string :=
  words_loop false false false [] (chars command).

(** ** Parsing a command *)

Record ParsedCommand := {
  patterns : gset string;
  always : gset string;
  directories : list string;
}.

Definition PATH_COMMANDS : list string :=
  ["cd"; "rm"; "cp"; "mv"; "mkdir"; "touch"; "chmod"; "chown"; "cat"].

(** The path an argument of a path command names. *)
Definition argument_path (home : option string) (arg : string) : string :=
  if starts_with "/" arg then arg
  else match strip_prefix "~" arg, home with
       | Some rest, Some home => home +:+ rest
       | _, _ => arg
       end.

Definition segment_directories (home : option string) (executable : string) (args : list string)
    : list string :=
  if mem executable PATH_COMMANDS
  then argument_path home <$>
         filter (λ arg, Is_true (negb (starts_with "-" arg ||
                                       (bool_decide (executable = "chmod") && starts_with "+" arg))))
           args
  else [].

Definition always_pattern (prefix : list string) : string := str_join " " prefix +:+ " *".

Definition parse_segment (home : option string) (result : ParsedCommand) (segment : string)
    : option ParsedCommand :=
  let tokens := split_shell_words segment in
  match tokens with
  | [] => Some result
  | executable :: args =>
      let directories' := directories result ++ segment_directories home executable args in
      if bool_decide (executable = "cd")
      then Some {| patterns := patterns result; always := always result;
                   directories := directories' |}
      else
        prefix ← bash_arity_prefix tokens;
        Some {| patterns := {[ trim segment ]} ∪ patterns result;
                always := {[ always_pattern prefix ]} ∪ always result;
                directories := directories' |}
  end.

Fixpoint parse_segments (home : option string) (result : ParsedCommand) (segments : list string)
    : option ParsedCommand :=
  match segments with
  | [] => Some result
  | segment :: segments' =>
      result ← parse_segment home result segment; parse_segments home result segments'
  end.

Definition parse_bash_command (home : option string) (command : string) : option ParsedCommand :=
  result ← parse_segments home {| patterns := ∅; always := ∅; directories := [] |}
             (split_shell_segments command);
  if bool_decide (patterns result = ∅) && negb (bool_decide (trim command = "")) then
    let tokens := split_shell_words command in
    if bool_decide (tokens = []) then Some result
    else
      prefix ← bash_arity_prefix tokens;
      Some {| patterns := {[ trim command ]} ∪ patterns result;
              always := {[ always_pattern prefix ]} ∪ always result;
              directories := directories result |}
  else Some result.

(** ** Scope keys *)

Definition ascii_lower (c : Ascii.ascii) : Ascii.ascii :=
  let n := Ascii.N_of_ascii c in
  if (65 <=? n)%N && (n <=? 90)%N then Ascii.ascii_of_N (n + 32) else c.

(** [s.to_ascii_lowercase()] *)
Fixpoint to_ascii_lowercase (s : string) : string :=
  match s with
  | EmptyString => EmptyString
  | String c s' => String (ascii_lower c) (to_ascii_lowercase s')
  end.

(** The components of a Unix path, without empty and [.] ones. *)
Fixpoint path_components_from (current : string) (s : string) : list string :=
  match s with
  | EmptyString => [current]
  | String c s' => if bool_decide (c = Ascii.ascii_of_nat 47) then current :: path_components_from "" s'
                   else path_components_from (current +:+ String c "") s'
  end.

(** [Path::new(s).file_name()] on Unix *)
Definition file_name (s : string) : option string :=
  match last (filter (λ c, c ≠ "" ∧ c ≠ ".") (path_components_from "" s)) with
  | Some c => if bool_decide (c = "..") then None else Some c
  | None => None
  end.

(** The family of one simple command: its executable and first argument. *)
Definition command_family (pattern : string) : option string :=
  match split_shell_words pattern with
  | [] => None
  | executable :: args =>
      let executable := trim executable in
      if bool_decide (executable = "") then None
      else
        let prefix := to_ascii_lowercase (default executable (file_name executable)) in
        Some (match args with
              | argument :: _ =>
                  if bool_decide (trim argument = "") then prefix
                  else prefix +:+ "/" +:+ to_ascii_lowercase argument
              | [] => prefix
              end)
  end.

(** [ParsedCommand::command_prefix_scope_key] *)
Definition command_prefix_scope_key (p : ParsedCommand) : option string :=
  match sort_dedup (omap command_family (elements (patterns p))) with
  | [] => None
  | prefixes => Some ("cmd:" +:+ str_join "+" prefixes)
  end.

(** [command_family_scope_key] *)
Definition command_family_scope_key (home : option string) (command : string)
    : option (option string) :=
  command_prefix_scope_key <$> parse_bash_command home command.

(** ** Lemmas *)

Lemma arity_of_elem prefix n : arity_of prefix = Some n → (prefix, n) ∈ ARITY.
Proof.
  unfold arity_of. intros (e&He&->)%fmap_Some. destruct (find_first_elem _ _ _ He) as [Hin Hp].
  apply bool_decide_eq_true in Hp as <-. by destruct e.
Qed.

Lemma ARITY_range : Forall (λ e, 1 ≤ e.2 ≤ 3) ARITY.
Proof. apply (bool_decide_unpack _). by vm_compute. Qed.

Lemma arity_search_range tokens len n : arity_search tokens len = Some n → 1 ≤ n ≤ 3.
Proof.
  induction len as [|len IH]; cbn [arity_search]; [done|].
  destruct (arity_of _) as [a|] eqn:E; [|done]. intros [= <-].
  apply arity_of_elem in E.
  pose proof (proj1 (Forall_forall _ _) ARITY_range _ E). done.
Qed.

(** ** Word splitting *)

(** A word in single quotes, as a shell user writes it. *)
Definition quoted (w : string) : string := squote +:+ w +:+ squote.

(** Text that single quotes can carry: well-formed, not empty, without a single quote. *)
Definition quotable (w : string) : Prop :=
  w ≠ "" ∧ is_continuation w = false ∧ squote ∉ chars w.

Lemma words_in_quotes cs rest current :
  squote ∉ cs →
  words_loop true false false current (cs ++ squote :: rest) =
  words_loop false false false (current ++ cs) rest.
Proof.
  revert current. induction cs as [|c cs IH]; intros current Hq.
  - rewrite app_nil_r. simpl. done.
  - apply not_elem_of_cons in Hq as [Hc Hq]. cbn [app words_loop]. unfold char_eq at 1 2.
    rewrite andb_false_r. rewrite bool_decide_eq_false_2 by done. cbn [andb].
    rewrite !andb_false_r. cbn [andb]. rewrite IH by done. by rewrite <- app_assoc.
Qed.

Lemma words_quoted w rest : quotable w →
  words_loop false false false [] (squote :: chars w ++ squote :: rest) =
  words_loop false false false (chars w) rest.
Proof.
  intros (_&_&Hq). cbn [words_loop]. simpl (char_eq squote _). cbn [andb negb].
  rewrite (words_in_quotes (chars w) rest [] Hq). done.
Qed.

Lemma chars_quoted w t : quotable w → is_continuation t = false →
  chars (quoted w +:+ t) = squote :: chars w ++ squote :: chars t.
Proof.
  intros (Hw&Hc&_) Ht. unfold quoted. rewrite !str_app_assoc.
  change (squote +:+ (w +:+ (squote +:+ t))) with (String (Ascii.ascii_of_nat 39) (w +:+ (squote +:+ t))).
  rewrite chars_ascii.
  - rewrite chars_app_ascii by done. f_equal. f_equal.
    change (squote +:+ t) with (String (Ascii.ascii_of_nat 39) t). by rewrite chars_ascii.
  - destruct w as [|c w]; [done|]. by rewrite str_app_cons.
Qed.

Lemma quotable_chars w : quotable w → chars w ≠ [].
Proof. intros (Hw&_) E. apply Hw. by rewrite <- (str_concat_chars w), E. Qed.

(** ** Properties *)

(** The arity table never points past three tokens and never at none: the "always allow"
    prefix of a command is a non-empty leading part of its tokens whenever it is computed, and it
    is computed for every command of at least three tokens. *)
Lemma arity_prefix_is_leading_part tokens :
  (∀ p, bash_arity_prefix tokens = Some p → p = take (length p) tokens ∧ (tokens ≠ [] → p ≠ [])) ∧
  (3 ≤ length tokens → is_Some (bash_arity_prefix tokens)).
Proof.
  unfold bash_arity_prefix, slice_to. split.
  - intros p H. destruct (arity_search tokens (length tokens)) as [n|] eqn:E.
    + apply arity_search_range in E. case_bool_decide as Hn; [|done]. injection H as <-.
      rewrite length_take_le by done. split; [done|]. destruct n; [lia|]. by destruct tokens.
    + case_bool_decide; [injection H as <-; done|]. case_bool_decide; [|done]. injection H as <-.
      rewrite length_take_le by done. split; [done|]. by destruct tokens.
  - intros Hlen. destruct (arity_search tokens (length tokens)) as [n|] eqn:E.
    + apply arity_search_range in E. rewrite bool_decide_eq_true_2 by lia. eauto.
    + case_bool_decide; [eauto|]. rewrite bool_decide_eq_true_2 by lia. eauto.
Qed.

(** Authorizing a bare multi-word tool panics: for every single-word entry of the arity table
    that expects two or three tokens (git, make, cargo, npm, python, docker and so on), parsing
    the command that consists of just that word slices past the end of its tokens. *)
Lemma bare_tool_commands_panic :
  Forall (λ e, 2 ≤ e.2 → contains " " e.1 = false → parse_bash_command None e.1 = None) ARITY ∧
  ("make", 2) ∈ ARITY ∧ ("git", 2) ∈ ARITY.
Proof.
  split; [|split; apply (bool_decide_unpack _); by vm_compute].
  assert (Forall (λ e, Is_true (bool_decide (e.2 < 2) || contains " " e.1 ||
            match parse_bash_command None e.1 with None => true | Some _ => false end)) ARITY) as H.
  { apply (bool_decide_unpack _). by vm_compute. }
  eapply Forall_impl; [exact H|]. intros e He H2 Hc. simpl in He.
  rewrite bool_decide_eq_false_2, Hc in He by lia. simpl in He. by destruct (parse_bash_command None e.1).
Qed.

(** Word splitting undoes single quoting: quoting non-empty words that contain no single quote
    and joining them with spaces gives a command whose words are those words, whatever spaces,
    double quotes, backslashes or separators they contain. *)
Lemma split_words_of_quoted ws :
  Forall quotable ws → split_shell_words (str_join " " (quoted <$> ws)) = ws.
Proof.
  unfold split_shell_words. induction 1 as [|w ws Hw _ IH]; [done|].
  pose proof (quotable_chars w Hw) as Hne. destruct ws as [|w' ws].
  - cbn [fmap list_fmap str_join]. rewrite <- (str_app_nil_r (quoted w)), chars_quoted, words_quoted by done.
    cbn [chars words_loop]. by rewrite bool_decide_eq_false_2, str_concat_chars by done.
  - set (tail := str_join " " (quoted <$> w' :: ws)) in *.
    assert (is_continuation tail = false) as Ht by (subst tail; by destruct ws).
    change (str_join " " (quoted <$> w :: w' :: ws)) with (quoted w +:+ String (Ascii.ascii_of_nat 32) tail).
    rewrite chars_quoted, words_quoted by done. rewrite chars_ascii by done.
    assert (words_loop false false false (chars w) (" " :: chars tail)
      = w :: words_loop false false false [] (chars tail)) as E.
    { cbn [words_loop]. simpl (char_eq " " _). rewrite bool_decide_eq_false_2 by done.
      simpl (is_whitespace " "). cbn. by rewrite str_concat_chars. }
    etransitivity; [exact E|]. by rewrite IH.
Qed.

(** The segment splitter does not read commands as a shell does: it ends a quote at an escaped
    quote and does not end a command at a newline, so a second command can hide in the segment of
    a first one, and the scope key an approval is stored under is that of the first command
    alone. *)
Lemma hidden_command_shares_scope :
  let escaped := "echo hi " +:+ backslash +:+ dquote +:+ "; rm -rf x; " +:+ backslash +:+ dquote in
  let newline := "echo hi" +:+ String (Ascii.ascii_of_nat 10) "rm -rf x" in
  split_shell_segments escaped = [escaped] ∧ split_shell_segments newline = [newline] ∧
  command_family_scope_key None escaped = command_family_scope_key None "echo hi" ∧
  command_family_scope_key None newline = command_family_scope_key None "echo hi" ∧
  command_family_scope_key None "echo hi" = Some (Some "cmd:echo/hi").
Proof. by vm_compute. Qed.
