(* ===== verification/Permission.v ===== *)
(** * Permission rules

    crates/agendao-permission/src/matching.rs and ruleset.rs: wildcard patterns,
    rule lists, their evaluation, and the built-in rulesets of the agents.  A
    configuration is given as the list of its entries in the order the source
    iterates them, which for a [HashMap] is any order.  The user's home directory
    is a parameter. *)

From S2P Require Import Prelude.

(** ** Matching *)

Definition star : string := "*".

Definition wildcard_match (text pattern : string) : bool :=
  if bool_decide (pattern = star) then true
  else if starts_with star pattern && ends_with star pattern then
    contains (str_take (String.length pattern - 2) (str_drop 1 pattern)) text
  else
    match strip_prefix star pattern with
    | Some suffix => ends_with suffix text
    | None =>
        match strip_suffix star pattern with
        | Some prefix => starts_with prefix text
        | None => bool_decide (text = pattern)
        end
    end.

(** ** Rules *)

Module Action.
Inductive PermissionAction := Allow | Deny | Ask.
#[export] Instance action_eq_dec : EqDecision PermissionAction.
Proof. solve_decision. Defined.
End Action.
Export (hints) Action.
Abbreviation PermissionAction := Action.PermissionAction.

Record PermissionRule := {
  rule_permission : string;
  rule_pattern : string;
  rule_action : PermissionAction;
}.
#[export] Instance rule_eq_dec : EqDecision PermissionRule.
Proof. solve_decision. Defined.

Definition PermissionRuleset := list PermissionRule.

Definition rule (permission pattern : string) (action : PermissionAction) : PermissionRule :=
  {| rule_permission := permission; rule_pattern := pattern; rule_action := action |}.

Module Config.
Inductive ConfigValue :=
| Action (action : PermissionAction)
| Patterns (patterns : list (string * PermissionAction)).
End Config.
Abbreviation ConfigValue := Config.ConfigValue.

Definition ConfigPermission := list (string * ConfigValue).

(** [expand] *)
Definition expand (home : option string) (pattern : string) : string :=
  match home with
  | None => pattern
  | Some home =>
      if starts_with "~/" pattern then home +:+ str_drop 1 pattern
      else if bool_decide (pattern = "~") then home
      else if starts_with "$HOME/" pattern then home +:+ str_drop 5 pattern
      else pattern
  end.

Definition from_config (home : option string) (permission : ConfigPermission) : PermissionRuleset :=
  permission ≫= λ e,
    match e.2 with
    | Config.Action action => [rule e.1 star action]
    | Config.Patterns patterns => (λ p, rule e.1 (expand home p.1) p.2) <$> patterns
    end.

Definition merge (rulesets : list PermissionRuleset) : PermissionRuleset := mjoin rulesets.

Definition rule_matches (permission pattern : string) (r : PermissionRule) : bool :=
  wildcard_match permission (rule_permission r) && wildcard_match pattern (rule_pattern r).

Definition evaluate (permission pattern : string) (rulesets : list PermissionRuleset)
    : PermissionRule :=
  default (rule permission star Action.Ask)
    (find_first (rule_matches permission pattern) (reverse (merge rulesets))).

(** The loop of [combine_actions] with its accumulator. *)
Fixpoint combine_loop (combined : PermissionAction) (actions : list PermissionAction)
    : PermissionAction :=
  match actions with
  | [] => combined
  | Action.Deny :: _ => Action.Deny
  | Action.Ask :: actions' => combine_loop Action.Ask actions'
  | Action.Allow :: actions' => combine_loop combined actions'
  end.

Definition combine_actions (actions : list PermissionAction) : PermissionAction :=
  combine_loop Action.Allow actions.

Definition evaluate_permission_patterns (permission : string) (patterns : list string)
    (rulesets : list PermissionRuleset) : PermissionAction :=
  match patterns with
  | [] => rule_action (evaluate permission star rulesets)
  | _ => combine_actions ((λ p, rule_action (evaluate permission p rulesets)) <$> patterns)
  end.

Definition tool_to_permission (tool : string) : string :=
  if mem tool ["write"; "edit"; "multiedit"; "apply_patch"; "patch"] then "edit"
  else if bool_decide (tool = "ls") then "list"
  else tool.

(** [PermissionEngine::evaluate_tool_with_patterns] *)
Definition evaluate_tool_with_patterns (tool : string) (patterns allowed_tools : list string)
    (rulesets : list PermissionRuleset) : PermissionAction :=
  if negb (bool_decide (allowed_tools = [])) && negb (mem tool allowed_tools) then Action.Deny
  else evaluate_permission_patterns (tool_to_permission tool) patterns rulesets.

(** [PermissionEngine::evaluate_tool] *)
Definition evaluate_tool (tool : string) (allowed_tools : list string)
    (rulesets : list PermissionRuleset) : PermissionAction :=
  evaluate_tool_with_patterns tool [] allowed_tools rulesets.

Definition evaluate_tool_permission (tool : string) (allowed_tools : list string)
    (rulesets : list PermissionRuleset) : PermissionAction :=
  evaluate_tool tool allowed_tools rulesets.

Definition evaluate_tool_permission_with_patterns (tool : string) (patterns allowed_tools : list string)
    (rulesets : list PermissionRuleset) : PermissionAction :=
  evaluate_tool_with_patterns tool patterns allowed_tools rulesets.

(** [disabled]: the tools whose last matching rule denies everything. *)
Definition disabled (tools : list string) (ruleset : PermissionRuleset) : gset string :=
  list_to_set (filter (λ tool, Is_true
    match find_first (λ r, wildcard_match (tool_to_permission tool) (rule_permission r))
            (reverse ruleset) with
    | Some r => bool_decide (rule_pattern r = star) && bool_decide (rule_action r = Action.Deny)
    | None => false
    end) tools).

(** ** Built-in rulesets *)

Definition default_ruleset : PermissionRuleset :=
  [rule "*" "*" Action.Allow; rule "doom_loop" "*" Action.Ask;
   rule "external_directory" "*" Action.Ask; rule "question" "*" Action.Deny;
   rule "read" "*.env" Action.Ask; rule "read" "*.env.*" Action.Ask;
   rule "read" "*.env.example" Action.Allow].

Definition build_specific : PermissionRuleset := [rule "question" "*" Action.Allow].
Definition plan_specific : PermissionRuleset :=
  [rule "question" "*" Action.Allow; rule "edit" "*" Action.Deny].
Definition explore_specific : PermissionRuleset :=
  [rule "*" "*" Action.Deny; rule "grep" "*" Action.Allow; rule "glob" "*" Action.Allow;
   rule "list" "*" Action.Allow; rule "bash" "*" Action.Allow; rule "webfetch" "*" Action.Allow;
   rule "websearch" "*" Action.Allow; rule "codesearch" "*" Action.Allow;
   rule "ast_grep_search" "*" Action.Allow; rule "read" "*" Action.Allow].

Definition build_agent_ruleset (agent : string) (user : PermissionRuleset) : PermissionRuleset :=
  if bool_decide (agent = "build") then merge [default_ruleset; build_specific; user]
  else if bool_decide (agent = "plan") then merge [default_ruleset; plan_specific; user]
  else if bool_decide (agent = "explore") then merge [explore_specific; user]
  else merge [default_ruleset; user].

(** ** Matching against globs *)

(** The glob language: a star stands for any text, every other character for itself. *)
Inductive glob : string → string → Prop :=
| glob_nil : glob "" ""
| glob_char c p t : c ≠ Ascii.ascii_of_nat 42 → glob p t → glob (String c p) (String c t)
| glob_star p a t : glob p t → glob (String (Ascii.ascii_of_nat 42) p) (a +:+ t).

Fixpoint star_free (s : string) : bool :=
  match s with
  | EmptyString => true
  | String c s' => negb (bool_decide (c = Ascii.ascii_of_nat 42)) && star_free s'
  end.

(** A pattern of the shapes the matcher documents: at most one star at each end. *)
Definition simple_pattern (p : string) : Prop :=
  ∃ m, star_free m = true ∧ (p = m ∨ p = star +:+ m ∨ p = m +:+ star ∨ p = star +:+ m +:+ star).

Lemma glob_literal m p t : star_free m = true → glob (m +:+ p) t ↔ ∃ t', t = m +:+ t' ∧ glob p t'.
Proof.
  revert t. induction m as [|c m IH]; intros t; cbn [star_free].
  { intros _. change ("" +:+ p) with p. split; [by exists t|]. by intros (t'&->&?). }
  intros [Hc Hm]%andb_true_iff. apply negb_true_iff, bool_decide_eq_false in Hc.
  rewrite str_app_cons. split.
  - inversion 1; subst; [|done]. apply IH in H4 as (t'&->&Ht'); [|done]. by exists t'.
  - intros (t'&->&Ht'). rewrite str_app_cons. constructor; [done|]. apply IH; [done|]. eauto.
Qed.

Lemma glob_empty t : glob "" t ↔ t = "".
Proof. split; [by inversion 1|intros ->; constructor]. Qed.

Lemma glob_star_iff p t : glob (star +:+ p) t ↔ ∃ a t', t = a +:+ t' ∧ glob p t'.
Proof.
  change (star +:+ p) with (String (Ascii.ascii_of_nat 42) p). split.
  - inversion 1; subst; [done|]. eauto.
  - intros (a&t'&->&?). by constructor.
Qed.

Lemma glob_literal_only m t : star_free m = true → glob m t ↔ t = m.
Proof.
  intros Hm. rewrite <- (str_app_nil_r m) at 1. rewrite glob_literal by done. setoid_rewrite glob_empty.
  split; [intros (?&->&->); by rewrite str_app_nil_r|intros ->; exists ""; by rewrite str_app_nil_r].
Qed.

Lemma glob_any t : glob star t.
Proof. change star with (star +:+ ""). apply glob_star_iff. exists t, "". by rewrite str_app_nil_r; split; [|constructor]. Qed.

Lemma star_free_starts m : star_free m = true → starts_with star m = false.
Proof.
  intros Hm. destruct (starts_with star m) eqn:E; [|done]. apply starts_with_true in E as [t ->]. done.
Qed.

Lemma star_free_app a b : star_free (a +:+ b) = star_free a && star_free b.
Proof. induction a as [|c a IH]; [done|]. rewrite str_app_cons. simpl. by rewrite IH, andb_assoc. Qed.

Lemma star_free_ends m : star_free m = true → ends_with star m = false.
Proof.
  intros Hm. destruct (ends_with star m) eqn:E; [|done]. apply ends_with_true in E as [t ->].
  rewrite star_free_app in Hm. apply andb_true_iff in Hm as [_ ?]. done.
Qed.

Lemma strip_prefix_None p s : starts_with p s = false → strip_prefix p s = None.
Proof. unfold starts_with. by destruct (strip_prefix p s). Qed.

Lemma strip_suffix_None p s : ends_with p s = false → strip_suffix p s = None.
Proof. unfold ends_with. by destruct (strip_suffix p s). Qed.

Lemma strip_suffix_app p t : strip_suffix p (t +:+ p) = Some t.
Proof. by apply strip_suffix_Some. Qed.

Lemma starts_with_star p : starts_with star (star +:+ p) = true.
Proof. apply starts_with_true. eauto. Qed.

Lemma ends_with_star p : ends_with star (p +:+ star) = true.
Proof. apply ends_with_true. eauto. Qed.

(** Matching is reflexive: a pattern matches itself as a text. *)
Lemma wildcard_match_refl p : wildcard_match p p = true.
Proof.
  unfold wildcard_match. case_bool_decide; [done|].
  destruct (starts_with star p && ends_with star p) eqn:E.
  - apply andb_true_iff in E as [[t ->]%starts_with_true _]. apply contains_true.
    change (str_drop 1 (star +:+ t)) with t. exists star, (str_drop (String.length (star +:+ t) - 2) t).
    by rewrite str_take_drop.
  - destruct (strip_prefix star p) as [s|] eqn:E1.
    { apply strip_prefix_Some in E1 as ->. apply ends_with_true. eauto. }
    destruct (strip_suffix star p) as [s|] eqn:E2.
    { apply strip_suffix_Some in E2 as ->. apply starts_with_true. eauto. }
    by apply bool_decide_eq_true.
Qed.

Lemma wildcard_match_star t : wildcard_match t star = true.
Proof. done. Qed.

(** ** Evaluation *)

Lemma find_first_reverse {A} (P : A → bool) l r :
  find_first P (reverse l) = Some r ↔
  ∃ l1 l2, l = l1 ++ r :: l2 ∧ P r = true ∧ Forall (λ x, P x = false) l2.
Proof.
  rewrite find_first_Some. split.
  - intros (a&b&Hl&Hr&Ha). apply (f_equal reverse) in Hl.
    rewrite reverse_involutive, reverse_app, reverse_cons, <- app_assoc in Hl. simpl in Hl.
    exists (reverse b), (reverse a). split_and!; [done..|]. by apply Forall_reverse.
  - intros (l1&l2&->&Hr&H2). exists (reverse l2), (reverse l1).
    rewrite reverse_app, reverse_cons, <- app_assoc. split_and!; [done..|]. by apply Forall_reverse.
Qed.

Lemma find_first_reverse_None {A} (P : A → bool) l :
  find_first P (reverse l) = None ↔ Forall (λ x, P x = false) l.
Proof. rewrite find_first_None. split; [intros H%Forall_reverse; by rewrite reverse_involutive in H|by apply Forall_reverse]. Qed.

(** Appending a ruleset: its own decision wins when it has one. *)
Lemma find_first_app {A} (P : A → bool) l k :
  find_first P (l ++ k) = match find_first P l with Some x => Some x | None => find_first P k end.
Proof. induction l as [|x l IH]; simpl; [done|]. by destruct (P x). Qed.

Lemma evaluate_action_perm permission pattern rs rs' a :
  rs ≡ₚ rs' → (∀ r, r ∈ rs → rule_matches permission pattern r = true → rule_action r = a) →
  rule_action (evaluate permission pattern [rs]) = rule_action (evaluate permission pattern [rs']).
Proof.
  intros Hp Ha. unfold evaluate, merge. simpl. rewrite !app_nil_r.
  destruct (find_first _ (reverse rs)) as [r|] eqn:E, (find_first _ (reverse rs')) as [r'|] eqn:E'; simpl.
  - apply find_first_reverse in E as (?&?&->&Hr&_), E' as (?&?&->&Hr'&_).
    rewrite (Ha r), (Ha r'); try done; [rewrite Hp|]; set_solver.
  - apply find_first_reverse in E as (?&?&->&Hr&_). apply find_first_reverse_None in E'.
    rewrite Forall_forall in E'. rewrite E' in Hr; [done|]. rewrite <- Hp. set_solver.
  - apply find_first_reverse in E' as (?&?&->&Hr&_). apply find_first_reverse_None in E.
    rewrite Forall_forall in E. rewrite E in Hr; [done|]. rewrite Hp. set_solver.
  - done.
Qed.

Lemma from_config_perm home c c' : c ≡ₚ c' → from_config home c ≡ₚ from_config home c'.
Proof. unfold from_config. by intros ->. Qed.

Lemma combine_loop_spec acc actions :
  combine_loop acc actions =
    if bool_decide (Action.Deny ∈ actions) then Action.Deny
    else if bool_decide (Action.Ask ∈ actions) then Action.Ask else acc.
Proof.
  revert acc. induction actions as [|x actions IH]; intros acc; [done|].
  assert (∀ a, a ≠ x → bool_decide (a ∈ x :: actions) = bool_decide (a ∈ actions)) as Hne.
  { intros a Ha. apply bool_decide_ext. rewrite elem_of_cons. naive_solver. }
  destruct x; cbn [combine_loop].
  - by rewrite IH, !Hne by done.
  - by rewrite bool_decide_eq_true_2 by by left.
  - rewrite IH, Hne by done. rewrite (bool_decide_eq_true_2 (Action.Ask ∈ Action.Ask :: _)) by by left.
    by repeat case_bool_decide.
Qed.

(** ** Properties *)

(** On every pattern of the documented shapes (at most one star at each end and none inside)
    the wildcard matcher decides exactly the glob language, in which a star stands for any
    text. *)
Lemma wildcard_match_is_glob p t :
  simple_pattern p → wildcard_match t p = true ↔ glob p t.
Proof.
  intros (m&Hm&Hp). unfold wildcard_match.
  pose proof (star_free_starts m Hm) as Hs. pose proof (star_free_ends m Hm) as He.
  destruct Hp as [-> | [-> | [-> | ->]]].
  - rewrite bool_decide_eq_false_2 by (intros ->; done). rewrite Hs. cbn [andb].
    rewrite strip_prefix_None, strip_suffix_None by done.
    rewrite bool_decide_eq_true. symmetry. by apply glob_literal_only.
  - case_bool_decide as E; [split; [intros _; rewrite E; apply glob_any|done]|].
    assert (ends_with star (star +:+ m) = false) as ->.
    { destruct (ends_with star (star +:+ m)) eqn:E2; [|done]. apply ends_with_true in E2 as [u Hu].
      destruct u as [|c u]; [by destruct (E Hu)|]. rewrite str_app_cons in Hu.
      change (star +:+ m) with (String (Ascii.ascii_of_nat 42) m) in Hu. injection Hu as _ ->.
      by rewrite ends_with_star in He. }
    rewrite andb_false_r, strip_prefix_app, ends_with_true, glob_star_iff.
    setoid_rewrite glob_literal_only; [|done].
    split; [intros [a ->]; eauto|intros (a&?&->&->); eauto].
  - case_bool_decide as E; [split; [intros _; rewrite E; apply glob_any|done]|].
    assert (starts_with star (m +:+ star) = false) as Hst.
    { destruct (starts_with star (m +:+ star)) eqn:E2; [|done]. apply starts_with_true in E2 as [u Hu].
      destruct m as [|c m]; [done|]. rewrite str_app_cons in Hu. by injection Hu as -> _. }
    rewrite Hst. cbn [andb]. rewrite (strip_prefix_None _ _ Hst), strip_suffix_app, starts_with_true.
    rewrite glob_literal by done.
    split; [intros [u ->]; exists u; split; [done|apply glob_any]|intros (u&->&_); eauto].
  - rewrite bool_decide_eq_false_2.
    2: { intros E%(f_equal String.length). rewrite !str_length_app in E. simpl in E. lia. }
    rewrite starts_with_star. rewrite <- (str_app_assoc star m star), ends_with_star. cbn [andb].
    rewrite str_app_assoc, !str_length_app. simpl (String.length star).
    change (str_drop 1 (star +:+ (m +:+ star))) with (m +:+ star).
    replace (1 + (String.length m + 1) - 2) with (String.length m) by lia.
    rewrite str_take_app, contains_true, glob_star_iff. setoid_rewrite glob_literal; [|done].
    split.
    + intros (a&b&->). exists a, (m +:+ b). split; [done|]. exists b. split; [done|apply glob_any].
    + intros (a&?&->&b&->&_). eauto.
Qed.

(** The last matching rule decides: a request is answered by a rule of the merged list that
    matches it and that no later rule matches, or by Ask when none matches; so the rules of a
    user, merged last into an agent's ruleset, always override the built-in ones. *)
Lemma last_matching_rule_decides permission pattern rulesets user agent :
  (∀ r, evaluate permission pattern rulesets = r →
     (∃ l1 l2, merge rulesets = l1 ++ r :: l2 ∧ rule_matches permission pattern r = true ∧
        Forall (λ x, rule_matches permission pattern x = false) l2) ∨
     (Forall (λ x, rule_matches permission pattern x = false) (merge rulesets) ∧
      r = rule permission star Action.Ask)) ∧
  (Exists (λ x, rule_matches permission pattern x = true) user →
   evaluate permission pattern [build_agent_ruleset agent user] = evaluate permission pattern [user]).
Proof.
  split.
  - intros r <-. unfold evaluate.
    destruct (find_first _ (reverse (merge rulesets))) as [r|] eqn:E; simpl.
    + left. by apply find_first_reverse.
    + right. split; [by apply find_first_reverse_None|done].
  - intros Hex. unfold evaluate.
    assert (is_Some (find_first (rule_matches permission pattern) (reverse user))) as [r Hr].
    { destruct (find_first _ (reverse user)) eqn:E; [eauto|]. apply find_first_reverse_None in E.
      exfalso. apply Exists_exists in Hex as (x&Hx&Hm). rewrite Forall_forall in E.
      rewrite E in Hm; done. }
    assert (∀ base, find_first (rule_matches permission pattern) (reverse (base ++ user)) = Some r) as Hb.
    { intros base. by rewrite reverse_app, find_first_app, Hr. }
    assert (∃ base, build_agent_ruleset agent user = base ++ user) as [base ->].
    { unfold build_agent_ruleset. repeat case_bool_decide; unfold merge; simpl; rewrite app_nil_r.
      - by exists (default_ruleset ++ build_specific).
      - by exists (default_ruleset ++ plan_specific).
      - by exists explore_specific.
      - by exists default_ruleset. }
    unfold merge. simpl. by rewrite !app_nil_r, Hb, Hr.
Qed.

(** A request over several patterns is as restricted as its most restricted pattern, whatever
    their order: denied if one of them is denied, otherwise asked if one of them is asked, and
    allowed only if every one of them is allowed. *)
Lemma patterns_combine_to_strictest permission patterns rulesets :
  patterns ≠ [] →
  let actions := (λ p, rule_action (evaluate permission p rulesets)) <$> patterns in
  evaluate_permission_patterns permission patterns rulesets =
    if bool_decide (Action.Deny ∈ actions) then Action.Deny
    else if bool_decide (Action.Ask ∈ actions) then Action.Ask else Action.Allow.
Proof. intros Hne actions. destruct patterns; [done|]. apply combine_loop_spec. Qed.

(** A configuration is a hash map, and its decisions depend on the iteration order of that map
    exactly when two of its rules disagree about a request: if all rules that match it give the
    same action, every order gives that answer; but a config that allows everything and denies
    bash answers a bash request with Allow or with Deny depending on the order. *)
Lemma config_order_matters :
  (∀ home c c' permission pattern a, c ≡ₚ c' →
     (∀ r, r ∈ from_config home c → rule_matches permission pattern r = true → rule_action r = a) →
     rule_action (evaluate permission pattern [from_config home c]) =
     rule_action (evaluate permission pattern [from_config home c'])) ∧
  let c := [("*", Config.Action Action.Allow); ("bash", Config.Action Action.Deny)] in
  let c' := [("bash", Config.Action Action.Deny); ("*", Config.Action Action.Allow)] in
  c ≡ₚ c' ∧ NoDup c.*1 ∧
  rule_action (evaluate "bash" "ls" [from_config None c]) = Action.Deny ∧
  rule_action (evaluate "bash" "ls" [from_config None c']) = Action.Allow.
Proof.
  split.
  - intros home c c' permission pattern a Hp Ha.
    by apply (evaluate_action_perm _ _ _ _ a); [by apply from_config_perm|].
  - split_and!; [apply Permutation_swap|apply (bool_decide_unpack _); by vm_compute|by vm_compute..].
Qed.

(** The read-only agents cannot write by default: under the plan agent's ruleset every tool of
    the edit family is denied whatever paths it names, and under the explore agent's ruleset every
    tool outside its list of read, search and shell tools is denied. *)
Lemma read_only_agents_deny tool patterns :
  (tool ∈ ["write"; "edit"; "multiedit"; "apply_patch"; "patch"] →
   evaluate_tool_with_patterns tool patterns [] [build_agent_ruleset "plan" []] = Action.Deny) ∧
  (tool_to_permission tool ∉ ["grep"; "glob"; "list"; "bash"; "webfetch"; "websearch"; "codesearch";
                              "ast_grep_search"; "read"] →
   evaluate_tool_with_patterns tool patterns [] [build_agent_ruleset "explore" []] = Action.Deny).
Proof.
  unfold evaluate_tool_with_patterns. simpl (negb _ && _).
  assert (∀ permission rulesets,
    (∀ p, rule_action (evaluate permission p rulesets) = Action.Deny) →
    evaluate_permission_patterns permission patterns rulesets = Action.Deny) as Hall.
  { intros permission rulesets H. unfold evaluate_permission_patterns, combine_actions.
    destruct patterns as [|p ps]; [apply H|]. rewrite combine_loop_spec, bool_decide_eq_true_2; [done|].
    rewrite fmap_cons, H. by left. }
  split.
  - intros Ht. unfold tool_to_permission. rewrite (proj2 (mem_true _ _) Ht). by apply Hall.
  - intros Hp. apply Hall. intros p. unfold evaluate.
    assert (merge [build_agent_ruleset "explore" []] = explore_specific) as -> by by vm_compute.
    set (names := ["read"; "ast_grep_search"; "codesearch"; "websearch"; "webfetch"; "bash"; "list";
                   "glob"; "grep"]).
    change (reverse explore_specific) with
      (((λ q, rule q "*" Action.Allow) <$> names) ++ [rule "*" "*" Action.Deny]).
    assert (Forall (λ q, starts_with star q = false ∧ ends_with star q = false ∧ q ≠ star) names) as Hn.
    { apply (bool_decide_unpack _). by vm_compute. }
    rewrite find_first_app, (proj2 (find_first_None _ _)); [done|].
    apply Forall_fmap, Forall_forall. intros q Hq. rewrite Forall_forall in Hn.
    destruct (Hn q Hq) as (Hs&He&Hst). apply andb_false_iff. left. simpl.
    unfold wildcard_match. rewrite bool_decide_eq_false_2, Hs by done. cbn [andb].
    rewrite strip_prefix_None, strip_suffix_None by done. apply bool_decide_eq_false. intros E.
    apply Hp. rewrite E. clear -Hq. set_solver.
Qed.
