(* ===== verification/PermissionEngine.v ===== *)
(** * The permission engine

    crates/agendao-permission/src/engine.rs: pending requests, grants for a
    session and for a turn, and the ask / respond life cycle.  The plugin hook is
    the status string it returns; serde_json's rendering of a grant key and the
    iteration order of the pending map are parameters.  The opaque JSON metadata
    of a request, which no decision reads, is left out. *)

From S2P Require Import Prelude Permission.

(** ** Data *)

Module PClass.
Inductive PermissionClass := InspectRead | WorkspaceWrite | ExternalAccess | DangerousExec.
#[export] Instance class_eq_dec : EqDecision PermissionClass.
Proof. solve_decision. Defined.
End PClass.
Export (hints) PClass.
Abbreviation PermissionClass := PClass.PermissionClass.

Definition class_as_str (c : PermissionClass) : string :=
  match c with
  | PClass.InspectRead => "inspect_read"
  | PClass.WorkspaceWrite => "workspace_write"
  | PClass.ExternalAccess => "external_access"
  | PClass.DangerousExec => "dangerous_exec"
  end.

Module Lifetime.
Inductive PermissionLifetime := Once | Turn | Session.
End Lifetime.
Abbreviation PermissionLifetime := Lifetime.PermissionLifetime.

Definition lifetime_as_str (l : PermissionLifetime) : string :=
  match l with Lifetime.Once => "once" | Lifetime.Turn => "turn" | Lifetime.Session => "session" end.

Module Matcher.
Inductive PermissionMatcherKind := ScopeOnly | ExactInput | StructuredFamily | SemanticPattern.
End Matcher.
Abbreviation PermissionMatcherKind := Matcher.PermissionMatcherKind.

Definition matcher_as_str (m : PermissionMatcherKind) : string :=
  match m with
  | Matcher.ScopeOnly => "scope_only"
  | Matcher.ExactInput => "exact_input"
  | Matcher.StructuredFamily => "structured_family"
  | Matcher.SemanticPattern => "semantic_pattern"
  end.

Module Pattern.
Inductive Pattern := Single (s : string) | Multiple (v : list string).
End Pattern.
Abbreviation Pattern := Pattern.Pattern.

Module Response.
Inductive Response := Once | Turn | Always | Reject.
End Response.
Abbreviation Response := Response.Response.
#[export] Instance response_eq_dec : EqDecision Response.
Proof. solve_decision. Defined.

Inductive AskOutcome := Granted | Pending.

Record PermissionGrantDescriptor := {
  desc_class : option PermissionClass;
  desc_scope_key : option string;
  desc_matcher_kind : option PermissionMatcherKind;
  desc_matcher_key : option string;
  desc_origin_tool : option string;
  desc_risk_tags : list string;
}.

(** [PermissionGrantDescriptor::default] *)
Definition descriptor_default : PermissionGrantDescriptor := {|
  desc_class := None; desc_scope_key := None; desc_matcher_kind := None; desc_matcher_key := None;
  desc_origin_tool := None; desc_risk_tags := [] |}.

Record PermissionInfo := {
  info_id : string;
  info_permission_type : string;
  info_pattern : option Pattern;
  info_descriptor : PermissionGrantDescriptor;
  info_supported_lifetimes : list PermissionLifetime;
  info_session_id : string;
  info_message_id : string;
  info_call_id : option string;
  info_message : string;
  info_time_created : Z;
}.

Record PermissionGrantKey := {
  key_class : option PermissionClass;
  key_scope_key : option string;
  key_matcher_kind : option PermissionMatcherKind;
  key_matcher_key : option string;
}.

Module PErr.
Inductive PermissionError :=
| NotFound (session_id permission_id : string)
| Rejected (session_id permission_id : string) (tool_call_id : option string).
End PErr.
Abbreviation PermissionError := PErr.PermissionError.

Record PermissionEngine := {
  pending : gmap string (gmap string PermissionInfo);
  approved : gmap string (gset string);
  turn_approved : gmap string (gset string);
}.

(** [PermissionEngine::new] *)
Definition engine_new : PermissionEngine := {| pending := ∅; approved := ∅; turn_approved := ∅ |}.

Definition with_pending (e : PermissionEngine) p :=
  {| pending := p; approved := approved e; turn_approved := turn_approved e |}.

Section engine.
Context (key_to_json : PermissionGrantKey → option string).
Context (in_order : gmap string (gmap string PermissionInfo) → list (string * gmap string PermissionInfo)).

(** ** Grant keys *)

Definition scope_namespace (class : option PermissionClass) (permission_type : string) : string :=
  match class with Some c => class_as_str c | None => permission_type end.

Definition serialize_key (k : PermissionGrantKey) : string :=
  match key_to_json k with
  | Some s => s
  | None =>
      default "unknown" (class_as_str <$> key_class k) +:+ "|" +:+ default "*" (key_scope_key k) +:+
      "|" +:+ default "legacy" (matcher_as_str <$> key_matcher_kind k) +:+ "|" +:+
      default "*" (key_matcher_key k)
  end.

Definition patterns_of (pattern : option Pattern) : list string :=
  match pattern with
  | None => []
  | Some (Pattern.Single s) => [s]
  | Some (Pattern.Multiple v) => v
  end.

Definition legacy_to_keys (class : option PermissionClass) (scope_key : option string)
    (pattern : option Pattern) (permission_type : string) : list string :=
  match scope_key with
  | Some scope_key =>
      if bool_decide (trim scope_key = "")
      then match pattern with None => [permission_type] | p => patterns_of p end
      else [scope_namespace class permission_type +:+ "|" +:+ scope_key]
  | None => match pattern with None => [permission_type] | p => patterns_of p end
  end.

(** A key given and not blank, trimmed. *)
Definition present (s : option string) : option string :=
  s ≫= λ s, let t := trim s in if bool_decide (t = "") then None else Some t.

Definition scope_keys (d : PermissionGrantDescriptor) : list string :=
  match present (desc_scope_key d), desc_matcher_kind d with
  | Some scope_key, (None | Some Matcher.ScopeOnly) =>
      [serialize_key {| key_class := desc_class d; key_scope_key := Some scope_key;
                        key_matcher_kind := Some Matcher.ScopeOnly;
                        key_matcher_key := Some scope_key |}]
  | _, _ => []
  end.

Definition matcher_keys (d : PermissionGrantDescriptor) : list string :=
  match desc_matcher_kind d with
  | None | Some Matcher.ScopeOnly => []
  | Some kind =>
      match present (desc_matcher_key d) with
      | Some matcher_key =>
          [serialize_key {| key_class := desc_class d; key_scope_key := desc_scope_key d;
                            key_matcher_kind := Some kind; key_matcher_key := Some matcher_key |}]
      | None => []
      end
  end.

Definition descriptor_to_keys (d : PermissionGrantDescriptor) (pattern : option Pattern)
    (permission_type : string) : list string :=
  let keys := scope_keys d ++ matcher_keys d in
  let legacy := legacy_to_keys (desc_class d) (desc_scope_key d) pattern permission_type in
  if bool_decide (keys = []) then legacy else sort_dedup (keys ++ legacy).

(** [covered]: every key matches some approved key, read as a wildcard pattern. *)
Definition covered (keys : list string) (granted : gset string) : bool :=
  forallb (λ k, existsb (λ p, wildcard_match k p) (elements granted)) keys.

(** ** Operations *)

Definition is_approved (e : PermissionEngine) (sid : string) (d : PermissionGrantDescriptor)
    (pattern : option Pattern) (permission_type : string) : bool :=
  covered (descriptor_to_keys d pattern permission_type) (default ∅ (approved e !! sid)).

Definition is_turn_approved (e : PermissionEngine) (sid : string) (d : PermissionGrantDescriptor)
    (pattern : option Pattern) (permission_type : string) : bool :=
  covered (descriptor_to_keys d pattern permission_type) (default ∅ (turn_approved e !! sid)).

Definition grant (e : PermissionEngine) (sid : string) (d : PermissionGrantDescriptor)
    (permission_type : string) (pattern : option Pattern) : PermissionEngine := {|
  pending := pending e;
  approved := <[sid := list_to_set (descriptor_to_keys d pattern permission_type) ∪
                       default ∅ (approved e !! sid)]> (approved e);
  turn_approved := turn_approved e |}.

Definition grant_turn (e : PermissionEngine) (sid : string) (d : PermissionGrantDescriptor)
    (permission_type : string) (pattern : option Pattern) : PermissionEngine := {|
  pending := pending e;
  approved := approved e;
  turn_approved := <[sid := list_to_set (descriptor_to_keys d pattern permission_type) ∪
                            default ∅ (turn_approved e !! sid)]> (turn_approved e) |}.

Definition grant_patterns (e : PermissionEngine) (sid permission_type : string)
    (patterns : list string) : PermissionEngine :=
  let pattern := match patterns with
                 | [] => None
                 | [single] => Some (Pattern.Single single)
                 | _ => Some (Pattern.Multiple patterns)
                 end in
  grant e sid descriptor_default permission_type pattern.

(** [evaluate_ask]: grants and rules only. *)
Definition evaluate_ask (e : PermissionEngine) (info : PermissionInfo)
    (rulesets : list PermissionRuleset) : result PermissionError (option AskOutcome) :=
  if bool_decide (desc_class (info_descriptor info) = Some PClass.InspectRead) then Ok (Some Granted)
  else if is_approved e (info_session_id info) (info_descriptor info) (info_pattern info)
            (info_permission_type info) then Ok (Some Granted)
  else if is_turn_approved e (info_session_id info) (info_descriptor info) (info_pattern info)
            (info_permission_type info) then Ok (Some Granted)
  else
    match evaluate_permission_patterns (info_permission_type info) (patterns_of (info_pattern info))
            rulesets with
    | Action.Allow => Ok (Some Granted)
    | Action.Deny =>
        Err (PErr.Rejected (info_session_id info) (info_id info) (info_call_id info))
    | Action.Ask => Ok None
    end.

(** [commit_ask]: grants again, then the hook's status, then registration. *)
Definition commit_ask (e : PermissionEngine) (info : PermissionInfo) (hook_status : string)
    : result PermissionError AskOutcome * PermissionEngine :=
  let sid := info_session_id info in
  if is_approved e sid (info_descriptor info) (info_pattern info) (info_permission_type info) ||
     is_turn_approved e sid (info_descriptor info) (info_pattern info) (info_permission_type info)
  then (Ok Granted, e)
  else if bool_decide (hook_status = "allow") then (Ok Granted, e)
  else if bool_decide (hook_status = "deny")
  then (Err (PErr.Rejected sid (info_id info) (info_call_id info)), e)
  else (Ok Pending,
        with_pending e (<[sid := <[info_id info := info]> (default ∅ (pending e !! sid))]> (pending e))).

(** [ask_with_rules], given what the hook would answer. *)
Definition ask_with_rules (e : PermissionEngine) (info : PermissionInfo)
    (rulesets : list PermissionRuleset) (hook_status : string)
    : result PermissionError AskOutcome * PermissionEngine :=
  match evaluate_ask e info rulesets with
  | Err err => (Err err, e)
  | Ok (Some outcome) => (Ok outcome, e)
  | Ok None => commit_ask e info hook_status
  end.

(** [ask] *)
Definition ask (e : PermissionEngine) (info : PermissionInfo) (hook_status : string)
    : result PermissionError AskOutcome * PermissionEngine :=
  ask_with_rules e info [] hook_status.

Definition respond (e : PermissionEngine) (sid permission_id : string) (response : Response)
    : result PermissionError unit * PermissionEngine :=
  match pending e !! sid with
  | None => (Err (PErr.NotFound sid permission_id), e)
  | Some session_pending =>
      match session_pending !! permission_id with
      | None => (Err (PErr.NotFound sid permission_id), e)
      | Some info =>
          let e := with_pending e (<[sid := delete permission_id session_pending]> (pending e)) in
          match response with
          | Response.Reject => (Err (PErr.Rejected sid permission_id (info_call_id info)), e)
          | Response.Always =>
              (Ok tt, grant e sid (info_descriptor info) (info_permission_type info) (info_pattern info))
          | Response.Turn =>
              (Ok tt, grant_turn e sid (info_descriptor info) (info_permission_type info)
                        (info_pattern info))
          | Response.Once => (Ok tt, e)
          end
      end
  end.

(** [find] *)
Definition find (e : PermissionEngine) (permission_id : string) : option PermissionInfo :=
  head (omap (λ items, items.2 !! permission_id) (in_order (pending e))).

(** The first session that has the request pending. *)
Definition owner_of (e : PermissionEngine) (permission_id : string) : option string :=
  fst <$> find_first (λ items, bool_decide (is_Some (items.2 !! permission_id))) (in_order (pending e)).

Definition respond_by_id (e : PermissionEngine) (permission_id : string) (response : Response)
    : result PermissionError PermissionInfo * PermissionEngine :=
  match owner_of e permission_id with
  | None => (Err (PErr.NotFound "*" permission_id), e)
  | Some sid =>
      match find e permission_id with
      | None => (Err (PErr.NotFound sid permission_id), e)
      | Some info =>
          let '(r, e) := respond e sid permission_id response in
          (let? _ := r in Ok info, e)
      end
  end.

Definition remove_pending (e : PermissionEngine) (permission_id : string)
    : option PermissionInfo * PermissionEngine :=
  match owner_of e permission_id with
  | None => (None, e)
  | Some sid =>
      match pending e !! sid with
      | None => (None, e)
      | Some items =>
          match items !! permission_id with
          | None => (None, e)
          | Some info =>
              let items := delete permission_id items in
              (Some info, with_pending e (if bool_decide (items = ∅) then delete sid (pending e)
                                          else <[sid := items]> (pending e)))
          end
      end
  end.

Definition clear_session (e : PermissionEngine) (sid : string) : PermissionEngine := {|
  pending := delete sid (pending e); approved := delete sid (approved e);
  turn_approved := delete sid (turn_approved e) |}.

Definition clear_turn (e : PermissionEngine) (sid : string) : PermissionEngine := {|
  pending := pending e; approved := approved e; turn_approved := delete sid (turn_approved e) |}.

(** [list]: every pending request, by id. *)
Definition info_leb (a b : PermissionInfo) : Prop := str_leb (info_id a) (info_id b).
#[local] Instance info_leb_dec a b : Decision (info_leb a b).
Proof. unfold info_leb. apply _. Defined.
Definition list_pending (e : PermissionEngine) : list PermissionInfo :=
  merge_sort info_leb (in_order (pending e) ≫= λ items, (map_to_list items.2).*2).

(** ** Calls *)

Inductive engine_call :=
| CAsk (info : PermissionInfo) (rulesets : list PermissionRuleset) (hook_status : string)
| CRespond (sid permission_id : string) (response : Response)
| CRespondById (permission_id : string) (response : Response)
| CRemovePending (permission_id : string)
| CGrantPatterns (sid permission_type : string) (patterns : list string)
| CClearSession (sid : string)
| CClearTurn (sid : string).

Definition engine_step (e : PermissionEngine) (c : engine_call) : PermissionEngine :=
  match c with
  | CAsk info rulesets hook_status => snd (ask_with_rules e info rulesets hook_status)
  | CRespond sid permission_id response => snd (respond e sid permission_id response)
  | CRespondById permission_id response => snd (respond_by_id e permission_id response)
  | CRemovePending permission_id => snd (remove_pending e permission_id)
  | CGrantPatterns sid permission_type patterns => grant_patterns e sid permission_type patterns
  | CClearSession sid => clear_session e sid
  | CClearTurn sid => clear_turn e sid
  end.

Definition engine_run (e : PermissionEngine) (cs : list engine_call) : PermissionEngine :=
  foldl engine_step e cs.

(** The keys granted to a session. *)
Definition grants (m : gmap string (gset string)) (sid : string) : gset string := default ∅ (m !! sid).

Definition clears_session (sid : string) (c : engine_call) : bool :=
  match c with CClearSession s => bool_decide (s = sid) | _ => false end.
Definition clears_turn (sid : string) (c : engine_call) : bool :=
  match c with CClearSession s | CClearTurn s => bool_decide (s = sid) | _ => false end.

(** The calls that can add a grant to a session: an Always answer or an explicit grant for the
    session, a Turn answer for the turn. *)
Definition answers (sid : string) (r : Response) (c : engine_call) : bool :=
  match c with
  | CRespond s _ r' => bool_decide (s = sid) && bool_decide (r' = r)
  | CRespondById _ r' => bool_decide (r' = r)
  | _ => false
  end.
Definition consents_session (sid : string) (c : engine_call) : bool :=
  match c with
  | CGrantPatterns s _ _ => bool_decide (s = sid)
  | _ => answers sid Response.Always c
  end.
Definition consents_turn (sid : string) (c : engine_call) : bool := answers sid Response.Turn c.

(** The keys of a request. *)
Definition request_keys (info : PermissionInfo) : list string :=
  descriptor_to_keys (info_descriptor info) (info_pattern info) (info_permission_type info).

Lemma covered_spec keys granted :
  covered keys granted = true ↔
  ∀ k, k ∈ keys → ∃ p, p ∈ granted ∧ wildcard_match k p = true.
Proof.
  unfold covered. rewrite forallb_forall. setoid_rewrite existsb_exists.
  setoid_rewrite <- list_elem_of_In. by setoid_rewrite elem_of_elements.
Qed.

Lemma covered_mono keys g g' : g ⊆ g' → covered keys g = true → covered keys g' = true.
Proof. rewrite !covered_spec. intros Hs H k Hk. destruct (H k Hk) as (p&?&?). exists p. set_solver. Qed.

Lemma covered_own keys g : list_to_set keys ⊆ g → covered keys g = true.
Proof.
  intros Hs. apply covered_spec. intros k Hk. exists k. split; [|apply wildcard_match_refl].
  apply Hs, elem_of_list_to_set, Hk.
Qed.

Lemma grants_insert m sid g sid' :
  grants (<[sid := g]> m) sid' = if bool_decide (sid = sid') then g else grants m sid'.
Proof.
  unfold grants. case_bool_decide; [subst; by rewrite lookup_insert_eq|by rewrite lookup_insert_ne].
Qed.

Lemma grants_delete m sid sid' : sid ≠ sid' → grants (delete sid m) sid' = grants m sid'.
Proof. intros. unfold grants. by rewrite lookup_delete_ne. Qed.

Lemma ask_grants e info rulesets hook :
  approved (snd (ask_with_rules e info rulesets hook)) = approved e ∧
  turn_approved (snd (ask_with_rules e info rulesets hook)) = turn_approved e.
Proof.
  unfold ask_with_rules, commit_ask.
  destruct (evaluate_ask e info rulesets) as [[o|]|]; simpl; try done.
  by repeat (case_match; simpl).
Qed.

(** What a response does to the grants. *)
Lemma respond_grants e sid id r :
  let e' := snd (respond e sid id r) in
  (approved e' = approved e ∧ turn_approved e' = turn_approved e) ∨
  ∃ info, pending e !! sid ≫= (.!! id) = Some info ∧
    (r = Response.Always ∧ turn_approved e' = turn_approved e ∧
     approved e' = <[sid := list_to_set (request_keys info) ∪ grants (approved e) sid]> (approved e) ∨
     r = Response.Turn ∧ approved e' = approved e ∧
     turn_approved e' =
       <[sid := list_to_set (request_keys info) ∪ grants (turn_approved e) sid]> (turn_approved e)).
Proof.
  unfold respond. destruct (pending e !! sid) as [items|]; simpl; [|by left].
  destruct (items !! id) as [info|]; simpl; [|by left].
  destruct r; simpl; [by left|right|right|by left]; exists info; (split; [done|]); [by right|by left].
Qed.

Lemma respond_by_id_step e id r :
  snd (respond_by_id e id r) = e ∨ ∃ sid, snd (respond_by_id e id r) = snd (respond e sid id r).
Proof.
  unfold respond_by_id. destruct (owner_of e id) as [sid|]; [|by left].
  destruct (find e id); [|by left]. right. exists sid. by destruct (respond e sid id r).
Qed.

Lemma remove_pending_grants e id :
  approved (snd (remove_pending e id)) = approved e ∧
  turn_approved (snd (remove_pending e id)) = turn_approved e.
Proof. unfold remove_pending. by repeat (case_match; simpl). Qed.

(** Grants only grow, except by the clears. *)
Lemma respond_grow e sid0 id r sid :
  grants (approved e) sid ⊆ grants (approved (snd (respond e sid0 id r))) sid ∧
  grants (turn_approved e) sid ⊆ grants (turn_approved (snd (respond e sid0 id r))) sid.
Proof.
  destruct (respond_grants e sid0 id r) as [[-> ->]|(info&_&[(_&->&->)|(_&->&->)])]; [done|..];
    rewrite grants_insert; case_bool_decide; subst; set_solver.
Qed.

Lemma engine_step_grow e c sid :
  (clears_session sid c = false → grants (approved e) sid ⊆ grants (approved (engine_step e c)) sid) ∧
  (clears_turn sid c = false →
     grants (turn_approved e) sid ⊆ grants (turn_approved (engine_step e c)) sid).
Proof.
  destruct c as [info rs hook|sid0 id r|id r|id|sid0 t ps|sid0|sid0]; simpl.
  - by destruct (ask_grants e info rs hook) as [-> ->].
  - by destruct (respond_grow e sid0 id r sid).
  - destruct (respond_by_id_step e id r) as [->|[sid0 ->]]; [done|].
    by destruct (respond_grow e sid0 id r sid).
  - by destruct (remove_pending_grants e id) as [-> ->].
  - unfold grant_patterns, grant. simpl. split; [|done]. intros _. rewrite grants_insert.
    case_bool_decide; subst; unfold grants; set_solver.
  - by split; intros H%bool_decide_eq_false; rewrite grants_delete.
  - split; [done|]. intros H%bool_decide_eq_false. by rewrite grants_delete.
Qed.

Lemma engine_run_grow e cs sid :
  (Forall (λ c, clears_session sid c = false) cs →
     grants (approved e) sid ⊆ grants (approved (engine_run e cs)) sid) ∧
  (Forall (λ c, clears_turn sid c = false) cs →
     grants (turn_approved e) sid ⊆ grants (turn_approved (engine_run e cs)) sid).
Proof.
  revert e. induction cs as [|c cs IH]; intros e; [done|]. simpl.
  destruct (engine_step_grow e c sid) as [H1 H2], (IH (engine_step e c)) as [I1 I2].
  split; intros [Hc Hf]%Forall_cons.
  - etrans; [by apply H1|by apply I1].
  - etrans; [by apply H2|by apply I2].
Qed.

Lemma evaluate_ask_approved e info rulesets :
  is_approved e (info_session_id info) (info_descriptor info) (info_pattern info)
    (info_permission_type info) = true ∨
  is_turn_approved e (info_session_id info) (info_descriptor info) (info_pattern info)
    (info_permission_type info) = true →
  evaluate_ask e info rulesets = Ok (Some Granted).
Proof.
  unfold evaluate_ask. case_bool_decide; [done|]. destruct (is_approved _ _ _ _ _); [done|].
  by intros [Hx | ->].
Qed.

(** Without consent grants do not grow. *)
Lemma respond_shrink e sid0 id r sid :
  (sid0 ≠ sid ∨ r ≠ Response.Always →
     grants (approved (snd (respond e sid0 id r))) sid = grants (approved e) sid) ∧
  (sid0 ≠ sid ∨ r ≠ Response.Turn →
     grants (turn_approved (snd (respond e sid0 id r))) sid = grants (turn_approved e) sid).
Proof.
  destruct (respond_grants e sid0 id r) as [[-> ->]|(info&_&[(->&->&->)|(->&->&->)])]; [done|..];
    (split; [intros [H|H]|intros [H|H]]); try done; rewrite grants_insert, bool_decide_eq_false_2; done.
Qed.

Lemma engine_step_shrink e c sid :
  (consents_session sid c = false →
     grants (approved (engine_step e c)) sid ⊆ grants (approved e) sid) ∧
  (consents_turn sid c = false →
     grants (turn_approved (engine_step e c)) sid ⊆ grants (turn_approved e) sid).
Proof.
  destruct c as [info rs hook|sid0 id r|id r|id|sid0 t ps|sid0|sid0]; simpl.
  - by destruct (ask_grants e info rs hook) as [-> ->].
  - destruct (respond_shrink e sid0 id r sid) as [H1 H2]. unfold consents_turn. simpl.
    rewrite !andb_false_iff, !bool_decide_eq_false. by split; intros H; [rewrite H1|rewrite H2].
  - unfold consents_turn. simpl. rewrite !bool_decide_eq_false.
    destruct (respond_by_id_step e id r) as [->|[sid0 ->]]; [done|].
    destruct (respond_shrink e sid0 id r sid) as [H1 H2].
    by split; intros H; [rewrite H1 by auto|rewrite H2 by auto].
  - by destruct (remove_pending_grants e id) as [-> ->].
  - unfold grant_patterns, grant. simpl. split; [|done]. intros H%bool_decide_eq_false.
    by rewrite grants_insert, bool_decide_eq_false_2.
  - split; intros _; destruct (decide (sid0 = sid)) as [->|]; rewrite ?grants_delete by done; try done;
      unfold grants; rewrite lookup_delete_eq; set_solver.
  - split; [done|]. intros _. destruct (decide (sid0 = sid)) as [->|]; rewrite ?grants_delete by done;
      [|done]. unfold grants. rewrite lookup_delete_eq. set_solver.
Qed.

Lemma engine_run_shrink e cs sid :
  (Forall (λ c, consents_session sid c = false) cs →
     grants (approved (engine_run e cs)) sid ⊆ grants (approved e) sid) ∧
  (Forall (λ c, consents_turn sid c = false) cs →
     grants (turn_approved (engine_run e cs)) sid ⊆ grants (turn_approved e) sid).
Proof.
  revert e. induction cs as [|c cs IH]; intros e; [done|]. simpl.
  destruct (engine_step_shrink e c sid) as [H1 H2], (IH (engine_step e c)) as [I1 I2].
  split; intros [Hc Hf]%Forall_cons.
  - etrans; [by apply I1|by apply H1].
  - etrans; [by apply I2|by apply H2].
Qed.

(** What is asked is decided by the grants of the session and the rules. *)
Lemma evaluate_ask_grants e e' info rulesets :
  grants (approved e) (info_session_id info) = grants (approved e') (info_session_id info) →
  grants (turn_approved e) (info_session_id info) = grants (turn_approved e') (info_session_id info) →
  evaluate_ask e info rulesets = evaluate_ask e' info rulesets.
Proof. unfold evaluate_ask, is_approved, is_turn_approved, grants. by intros -> ->. Qed.

Lemma engine_run_app e cs1 cs2 : engine_run e (cs1 ++ cs2) = engine_run (engine_run e cs1) cs2.
Proof. apply foldl_app. Qed.

(** After the clear and without new consent, nothing is left of a turn or of a session. *)
Lemma cleared_turn_stays_empty e cs1 c cs2 sid :
  clears_turn sid c = true → Forall (λ c, consents_turn sid c = false) cs2 →
  grants (turn_approved (engine_run e (cs1 ++ c :: cs2))) sid = ∅.
Proof.
  intros Hc Hcs. rewrite engine_run_app. change (c :: cs2) with ([c] ++ cs2). rewrite engine_run_app.
  apply set_eq. intros k. split; [|set_solver].
  intros Hk%(proj2 (engine_run_shrink _ cs2 sid) Hcs). revert Hk. simpl. unfold grants.
  destruct c; simpl in Hc |- *; try done; apply bool_decide_eq_true in Hc as ->;
    by rewrite lookup_delete_eq.
Qed.

Lemma cleared_session_stays_empty e cs1 cs2 sid :
  Forall (λ c, consents_session sid c = false) cs2 →
  grants (approved (engine_run e (cs1 ++ CClearSession sid :: cs2))) sid = ∅.
Proof.
  intros Hcs. rewrite engine_run_app. change (?c :: cs2) with ([c] ++ cs2). rewrite engine_run_app.
  apply set_eq. intros k. split; [|set_solver].
  intros Hk%(proj1 (engine_run_shrink _ cs2 sid) Hcs). revert Hk. simpl. unfold grants.
  by rewrite lookup_delete_eq.
Qed.

Lemma session_grants_kept e cs sid :
  Forall (λ c, consents_session sid c = false ∧ clears_session sid c = false) cs →
  grants (approved (engine_run e cs)) sid = grants (approved e) sid.
Proof.
  intros H. apply (anti_symm (⊆)); [apply engine_run_shrink|apply engine_run_grow];
    (eapply Forall_impl; [exact H|]); by intros ? [].
Qed.

(** ** Properties *)

(** C7. Answers last exactly as long as they promise.  A request answered Always is granted when
    asked again, under any rules, after any calls that do not clear its session; once the session
    is cleared, and until somebody consents again, its requests are decided as by an engine that
    never granted anything.  One answered Turn is granted after any calls that clear neither its
    session nor its turn; once the turn is cleared, and without new consent, the requests of the
    session are decided as before the answer, less what earlier Turn answers had granted.  An
    answer of Once, or a rejection, leaves every grant as it was; and once answered a request is no
    longer pending, so a second answer finds nothing. *)
Theorem answers_last_their_lifetime e sid id info r e' res :
  pending e !! sid ≫= (.!! id) = Some info → info_session_id info = sid →
  respond e sid id r = (res, e') →
  (∀ cs rulesets, r = Response.Always → Forall (λ c, clears_session sid c = false) cs →
     evaluate_ask (engine_run e' cs) info rulesets = Ok (Some Granted)) ∧
  (∀ cs1 cs2 asked rulesets, info_session_id asked = sid →
     Forall (λ c, consents_session sid c = false ∧ consents_turn sid c = false) cs2 →
     evaluate_ask (engine_run e' (cs1 ++ CClearSession sid :: cs2)) asked rulesets =
       evaluate_ask engine_new asked rulesets) ∧
  (∀ cs rulesets, r = Response.Turn → Forall (λ c, clears_turn sid c = false) cs →
     evaluate_ask (engine_run e' cs) info rulesets = Ok (Some Granted)) ∧
  (∀ cs1 cs2 asked rulesets, r = Response.Turn → info_session_id asked = sid →
     Forall (λ c, consents_session sid c = false ∧ clears_session sid c = false) (cs1 ++ cs2) →
     Forall (λ c, consents_turn sid c = false) cs2 →
     evaluate_ask (engine_run e' (cs1 ++ CClearTurn sid :: cs2)) asked rulesets =
       evaluate_ask {| pending := pending e; approved := approved e;
                       turn_approved := delete sid (turn_approved e) |} asked rulesets) ∧
  (r = Response.Once ∨ r = Response.Reject →
     approved e' = approved e ∧ turn_approved e' = turn_approved e) ∧
  (∀ r', respond e' sid id r' = (Err (PErr.NotFound sid id), e')).
Proof.
  intros Hp <- H. destruct (pending e !! info_session_id info) as [items|] eqn:Hs; [|done]. simpl in Hp.
  unfold respond in H. rewrite Hs, Hp in H. split_and!.
  - intros cs rulesets -> Hcs. injection H as _ <-. apply evaluate_ask_approved. left.
    unfold is_approved. apply covered_own. etrans; [|by apply engine_run_grow].
    simpl. rewrite grants_insert, bool_decide_eq_true_2 by done. set_solver.
  - intros cs1 cs2 asked rulesets Ha Hcs.
    assert (Forall (λ c, consents_session (info_session_id info) c = false) cs2) as H1
      by (eapply Forall_impl; [exact Hcs|]; by intros ? []).
    assert (Forall (λ c, consents_turn (info_session_id info) c = false) cs2) as H2
      by (eapply Forall_impl; [exact Hcs|]; by intros ? []).
    apply evaluate_ask_grants; rewrite Ha; [by apply cleared_session_stays_empty|].
    apply cleared_turn_stays_empty; [|done]. simpl. by apply bool_decide_eq_true_2.
  - intros cs rulesets -> Hcs. injection H as _ <-. apply evaluate_ask_approved. right.
    unfold is_turn_approved. apply covered_own. etrans; [|by apply engine_run_grow].
    simpl. rewrite grants_insert, bool_decide_eq_true_2 by done. set_solver.
  - intros cs1 cs2 asked rulesets -> Ha Hk Hcs. apply evaluate_ask_grants; rewrite Ha.
    + rewrite session_grants_kept; [by injection H as _ <-|].
      apply Forall_app in Hk as [Hk1 Hk2]. apply Forall_app. split; [done|]. by constructor.
    + simpl. rewrite cleared_turn_stays_empty; [|simpl; by apply bool_decide_eq_true_2|done].
      unfold grants. by rewrite lookup_delete_eq.
  - intros [-> | ->]; by injection H as _ <-.
  - intros r'. assert (pending e' = <[info_session_id info := delete id items]> (pending e)) as Hp'.
    { destruct r; by injection H as _ <-. }
    unfold respond. by rewrite Hp', lookup_insert_eq, lookup_delete_eq.
Qed.

(** C8. Only consent creates grants, and only in its own session: a call adds a session grant only
    if it is an Always answer to a request then pending in that session, adding exactly the keys
    of that request, or an explicit grant of patterns to that session; asking, rules, hooks,
    rejections and removals never add one. *)
Theorem grants_need_consent e c sid k :
  k ∈ grants (approved (engine_step e c)) sid → k ∉ grants (approved e) sid →
  (∃ id info, (c = CRespond sid id Response.Always ∨ c = CRespondById id Response.Always) ∧
     pending e !! sid ≫= (.!! id) = Some info ∧ k ∈ request_keys info) ∨
  (∃ t ps, c = CGrantPatterns sid t ps).
Proof.
  intros Hin Hout.
  assert (∀ sid0 id r, k ∈ grants (approved (snd (respond e sid0 id r))) sid →
    sid0 = sid ∧ r = Response.Always ∧
    ∃ info, pending e !! sid ≫= (.!! id) = Some info ∧ k ∈ request_keys info) as Hr.
  { intros sid0 id r Hk. destruct (respond_grants e sid0 id r)
      as [[E _] | (info&Hi&[(->&_&E) | (_&E&_)])]; rewrite E in Hk; try done.
    rewrite grants_insert in Hk. case_bool_decide; [subst|done].
    apply elem_of_union in Hk as [Hk|Hk]; [|done]. split_and!; [done..|].
    exists info. split; [done|]. by apply elem_of_list_to_set in Hk. }
  destruct c as [info rs hook|sid0 id r|id r|id|sid0 t ps|sid0|sid0]; simpl in Hin.
  - destruct (ask_grants e info rs hook) as [E _]. by rewrite E in Hin.
  - apply Hr in Hin as (->&->&info&?&?). left. exists id, info. auto.
  - destruct (respond_by_id_step e id r) as [E|[sid0 E]]; rewrite E in Hin; [done|].
    apply Hr in Hin as (->&->&info&?&?). left. exists id, info. auto.
  - destruct (remove_pending_grants e id) as [E _]. by rewrite E in Hin.
  - unfold grant_patterns, grant in Hin. simpl in Hin. rewrite grants_insert in Hin.
    case_bool_decide; [subst; right; eauto|done].
  - destruct (decide (sid0 = sid)) as [->|Hne]; [|by rewrite grants_delete in Hin].
    unfold grants in Hin. rewrite lookup_delete_eq in Hin. set_solver.
  - done.
Qed.

(** A request identified by its pattern alone. *)
Definition pattern_only (info : PermissionInfo) (p : string) : Prop :=
  present (desc_scope_key (info_descriptor info)) = None ∧
  desc_matcher_kind (info_descriptor info) = None ∧ info_pattern info = Some (Pattern.Single p).

Lemma pattern_only_keys info p : pattern_only info p → request_keys info = [p].
Proof.
  intros (Hs&Hm&Hp). unfold request_keys, descriptor_to_keys, scope_keys, matcher_keys.
  rewrite Hs, Hm, Hp. simpl. unfold legacy_to_keys, present in *.
  destruct (desc_scope_key _) as [k|]; [|done]. simpl in Hs. by case_bool_decide.
Qed.

(** A grant of a pattern forgets what it was for: after an Always answer to a request that is
    identified by its pattern, every request of the session that is identified by a text the
    pattern matches is granted, whatever its permission type, its class or the rules that deny
    it. *)
Lemma pattern_grant_ignores_permission_type e sid id info p e' info' t rulesets :
  pending e !! sid ≫= (.!! id) = Some info → pattern_only info p →
  respond e sid id Response.Always = (Ok tt, e') →
  info_session_id info' = sid → pattern_only info' t → wildcard_match t p = true →
  evaluate_ask e' info' rulesets = Ok (Some Granted).
Proof.
  intros Hp Hi Hr <- Hi' Hm. apply evaluate_ask_approved. left. unfold is_approved.
  change (descriptor_to_keys _ _ _) with (request_keys info'). rewrite (pattern_only_keys _ _ Hi').
  unfold respond in Hr. destruct (pending e !! _) as [items|]; [|done]. simpl in Hp. rewrite Hp in Hr.
  injection Hr as <-. apply covered_spec. intros k ->%list_elem_of_singleton.
  exists p. split; [|done]. simpl. change (default ∅ (?m !! ?s)) with (grants m s).
  rewrite grants_insert, bool_decide_eq_true_2 by done.
  change (descriptor_to_keys _ _ _) with (request_keys info). rewrite (pattern_only_keys _ _ Hi).
  set_solver.
Qed.
End engine.

(** ** A concrete engine *)

Definition demo_key_json (k : PermissionGrantKey) : option string :=
  Some ("{" +:+ default "null" (class_as_str <$> key_class k) +:+ "," +:+
        default "null" (key_scope_key k) +:+ "," +:+
        default "null" (matcher_as_str <$> key_matcher_kind k) +:+ "," +:+
        default "null" (key_matcher_key k) +:+ "}").

Definition demo_info (permission_type pattern : string) : PermissionInfo := {|
  info_id := "p1"; info_permission_type := permission_type;
  info_pattern := Some (Pattern.Single pattern); info_descriptor := descriptor_default;
  info_supported_lifetimes := [Lifetime.Once; Lifetime.Session]; info_session_id := "s";
  info_message_id := "m"; info_call_id := None; info_message := "may I"; info_time_created := 0 |}.

Definition demo_engine : PermissionEngine :=
  snd (ask_with_rules demo_key_json engine_new (demo_info "external_directory" "/tmp/*") [] "ask").

Lemma answers_last_their_lifetime_witness :
  evaluate_ask demo_key_json
    (engine_run demo_key_json map_to_list
       (snd (respond demo_key_json demo_engine "s" "p1" Response.Always)) [CClearTurn "s"])
    (demo_info "external_directory" "/tmp/*") [[rule "*" "*" Action.Deny]] = Ok (Some Granted).
Proof.
  apply (proj1 (answers_last_their_lifetime demo_key_json map_to_list demo_engine "s" "p1"
    (demo_info "external_directory" "/tmp/*") Response.Always _ (Ok tt)
    ltac:(by vm_compute) eq_refl (surjective_pairing _))); [done|by repeat constructor].
Defined.

Lemma grants_need_consent_witness :
  ∃ info, pending demo_engine !! "s" ≫= (.!! "p1") = Some info ∧
    "/tmp/*" ∈ request_keys demo_key_json info.
Proof.
  destruct (grants_need_consent demo_key_json map_to_list demo_engine
    (CRespond "s" "p1" Response.Always) "s" "/tmp/*") as [(id&info&[[= <-]|[=]]&Hp&Hk)|(?&?&[=])].
  - apply (bool_decide_unpack _). by vm_compute.
  - apply (bool_decide_unpack _). by vm_compute.
  - by exists info.
Defined.
