(* ===== verification/BlueprintGraph.v ===== *)
(** * Graph searches of the blueprint validator

    The searches of crates/agendao-orchestrator/src/blueprint/validate.rs over
    the edges of one graph: [reachable_from], [path_exists], [reject_cycles] and
    the recursion of [graph_depth].  A graph is its successor function, [None]
    where the map has no node, and the list of its keys.  Loops and recursions
    take fuel; each section ends with the fuel that is always enough. *)

From S2P Require Import Prelude.

Abbreviation NodeId := string.

Section graph.
Context (succ : NodeId → option (list NodeId)).

Definition edge (x y : NodeId) : Prop := ∃ l, succ x = Some l ∧ y ∈ l.

(** ** Searches with a stack *)

(** The loop of [reachable_from]; the stack's top is the head of the list. *)
Fixpoint reach_loop (fuel : nat) (visited : gset NodeId) (stack : list NodeId)
    : option (gset NodeId) :=
  match fuel with
  | O => None
  | S fuel' =>
      match stack with
      | [] => Some visited
      | node_id :: stack' =>
          if bool_decide (node_id ∈ visited) then reach_loop fuel' visited stack'
          else
            let visited' := {[ node_id ]} ∪ visited in
            match succ node_id with
            | Some targets => reach_loop fuel' visited' (reverse targets ++ stack')
            | None => reach_loop fuel' visited' stack'
            end
      end
  end.

(** The inner loop of [path_exists]: the stack it leaves, unless it meets the target. *)
Fixpoint push_unless (target : NodeId) (targets stack : list NodeId) : option (list NodeId) :=
  match targets with
  | [] => Some stack
  | next :: targets' =>
      if bool_decide (next = target) then None else push_unless target targets' (next :: stack)
  end.

(** The outer loop of [path_exists]. *)
Fixpoint path_loop (target : NodeId) (fuel : nat) (visited : gset NodeId) (stack : list NodeId)
    : option bool :=
  match fuel with
  | O => None
  | S fuel' =>
      match stack with
      | [] => Some false
      | node_id :: stack' =>
          if bool_decide (node_id ∈ visited) then path_loop target fuel' visited stack'
          else
            let visited' := {[ node_id ]} ∪ visited in
            match succ node_id with
            | None => path_loop target fuel' visited' stack'
            | Some targets =>
                match push_unless target targets stack' with
                | None => Some true
                | Some stack'' => path_loop target fuel' visited' stack''
                end
            end
      end
  end.

(** ** Depth-first search *)

(** What [visit] of [reject_cycles] returns: the sets it leaves, or the node it meets again. *)
Definition visit_result : Type := option (result NodeId (gset NodeId * gset NodeId)).

(** The loop of [visit] over the targets that are nodes of the graph. *)
Fixpoint visit_targets (visit : NodeId → gset NodeId → gset NodeId → visit_result)
    (targets : list NodeId) (visiting visited : gset NodeId) : visit_result :=
  match targets with
  | [] => Some (Ok (visiting, visited))
  | target :: targets' =>
      if bool_decide (succ target = None) then visit_targets visit targets' visiting visited
      else
        match visit target visiting visited with
        | Some (Ok (visiting, visited)) => visit_targets visit targets' visiting visited
        | other => other
        end
  end.

(** [visit] of [reject_cycles] *)
Fixpoint cycle_visit (fuel : nat) (node_id : NodeId) (visiting visited : gset NodeId) : visit_result :=
  match fuel with
  | O => None
  | S fuel' =>
      if bool_decide (node_id ∈ visited) then Some (Ok (visiting, visited))
      else if bool_decide (node_id ∈ visiting) then Some (Err node_id)
      else
        match visit_targets (cycle_visit fuel') (default [] (succ node_id))
                ({[ node_id ]} ∪ visiting) visited with
        | Some (Ok (visiting, visited)) =>
            Some (Ok (visiting ∖ {[ node_id ]}, {[ node_id ]} ∪ visited))
        | other => other
        end
  end.

(** The loop of [reject_cycles] over the keys. *)
Fixpoint cycle_roots (fuel : nat) (keys : list NodeId) (visiting visited : gset NodeId)
    : option (result NodeId unit) :=
  match keys with
  | [] => Some (Ok tt)
  | node_id :: keys' =>
      match cycle_visit fuel node_id visiting visited with
      | Some (Ok (visiting, visited)) => cycle_roots fuel keys' visiting visited
      | Some (Err node_id) => Some (Err node_id)
      | None => None
      end
  end.

(** The successors' greatest depth, for [visit] of [graph_depth]. *)
Fixpoint deepest (visit : NodeId → gmap NodeId Z → option (Z * gmap NodeId Z))
    (targets : list NodeId) (best : Z) (memo : gmap NodeId Z) : option (Z * gmap NodeId Z) :=
  match targets with
  | [] => Some (best, memo)
  | next :: targets' =>
      r ← visit next memo;
      deepest visit targets' (Z.max best r.1) r.2
  end.

(** [visit] of [graph_depth], given each node's nested depth ([None] where that recursion does
    not end): the depth and the memo table it leaves. *)
Fixpoint depth_visit (nested : NodeId → option Z) (fuel : nat) (node_id : NodeId)
    (memo : gmap NodeId Z) : option (Z * gmap NodeId Z) :=
  match fuel with
  | O => None
  | S fuel' =>
      match memo !! node_id with
      | Some depth => Some (depth, memo)
      | None =>
          match succ node_id with
          | None => Some (0%Z, memo)
          | Some targets =>
              n ← nested node_id;
              r ← deepest (depth_visit nested fuel') targets 0%Z memo;
              let depth := u32_add (u32_add 1 n) r.1 in
              Some (depth, <[node_id := depth]> r.2)
          end
      end
  end.

(** ** Stack searches compute reachability *)

Context (keys : list NodeId).
Context (Hkeys : ∀ x, is_Some (succ x) ↔ x ∈ keys).

(** Edges still to be pushed. *)
Definition pending_edges (visited : gset NodeId) : nat :=
  sum_list_with (λ k, if bool_decide (k ∈ visited) then 0 else length (default [] (succ k))) keys.

Definition push_bound : nat := S (S (pending_edges ∅)).

Lemma pending_edges_visit visited x :
  x ∉ visited →
  pending_edges ({[ x ]} ∪ visited) + length (default [] (succ x)) ≤ pending_edges visited.
Proof.
  intros Hx.
  assert (∀ l, sum_list_with (λ k, if bool_decide (k ∈ {[ x ]} ∪ visited) then 0
                                   else length (default [] (succ k))) l ≤
               sum_list_with (λ k, if bool_decide (k ∈ visited) then 0
                                   else length (default [] (succ k))) l) as Hle.
  { induction l as [|k l IH]; simpl; [lia|]. repeat case_bool_decide; try lia. set_solver. }
  unfold pending_edges. destruct (succ x) as [ts|] eqn:Hs; simpl.
  2: { rewrite Nat.add_0_r. apply Hle. }
  assert (x ∈ keys) as (l1&l2&->)%list_elem_of_split by (apply Hkeys; by rewrite Hs).
  rewrite !sum_list_with_app. cbn [sum_list_with].
  rewrite (bool_decide_eq_true_2 (x ∈ _ ∪ _)) by set_solver.
  rewrite (bool_decide_eq_false_2 (x ∈ visited)) by done. rewrite Hs. simpl.
  pose proof (Hle l1). pose proof (Hle l2). lia.
Qed.

Lemma reach_loop_total fuel visited stack :
  pending_edges visited + length stack < fuel → is_Some (reach_loop fuel visited stack).
Proof.
  revert visited stack. induction fuel as [|fuel IH]; intros visited stack Hf; [lia|]. cbn [reach_loop].
  destruct stack as [|x stack]; [done|]. cbn [length] in Hf.
  case_bool_decide as Hx; [apply IH; lia|].
  pose proof (pending_edges_visit _ _ Hx) as Hp.
  destruct (succ x) as [ts|]; apply IH; [rewrite length_app, length_reverse|]; simpl in Hp; lia.
Qed.

(** What a search keeps: everything met is reachable, the start is met, and
    edges from visited nodes lead to nodes met. *)
Definition search_inv (start : NodeId) (visited : gset NodeId) (stack : list NodeId) : Prop :=
  (∀ x, x ∈ visited ∨ x ∈ stack → rtc edge start x) ∧
  (start ∈ visited ∨ start ∈ stack) ∧
  (∀ x y, x ∈ visited → edge x y → y ∈ visited ∨ y ∈ stack).

Lemma search_inv_init start : search_inv start ∅ [start].
Proof. split_and!; [|set_solver..]. intros x [?|?]; [set_solver|]. assert (x = start) as -> by set_solver. done. Qed.

Lemma search_inv_skip start visited x stack :
  search_inv start visited (x :: stack) → x ∈ visited → search_inv start visited stack.
Proof. intros (H1&H2&H3) Hx. split_and!; set_solver. Qed.

Lemma search_inv_visit start visited x stack stack' :
  search_inv start visited (x :: stack) →
  (∀ y, y ∈ stack' ↔ y ∈ stack ∨ edge x y) →
  search_inv start ({[ x ]} ∪ visited) stack'.
Proof.
  intros (H1&H2&H3) Hs. split_and!.
  - intros y [Hy|[Hy|Hy]%Hs]; [apply H1; set_solver..|]. eapply rtc_r, Hy; apply H1; set_solver.
  - rewrite Hs. set_solver.
  - intros y z Hy Hz. rewrite Hs. apply elem_of_union in Hy as [->%elem_of_singleton|Hy]; [by right; right|].
    destruct (H3 y z Hy Hz); set_solver.
Qed.

Lemma search_inv_done start visited : search_inv start visited [] → ∀ x, x ∈ visited ↔ rtc edge start x.
Proof.
  intros (H1&H2&H3) x. split; [by auto|]. intros Hr.
  revert x Hr. apply rtc_ind_r; [set_solver|]. intros y z _ Hyz IH.
  destruct (H3 y z IH Hyz); set_solver.
Qed.

Lemma edge_succ x ts y : succ x = Some ts → edge x y ↔ y ∈ ts.
Proof. intros Hs. unfold edge. rewrite Hs. naive_solver. Qed.

Lemma edge_none x y : succ x = None → ¬ edge x y.
Proof. intros Hs (l&Hl&_). congruence. Qed.

Lemma reach_loop_spec fuel start visited stack r :
  search_inv start visited stack → reach_loop fuel visited stack = Some r →
  ∀ x, x ∈ r ↔ rtc edge start x.
Proof.
  revert visited stack. induction fuel as [|fuel IH]; [done|]; cbn [reach_loop].
  intros visited [|x stack] Hi H; [injection H as <-; by apply search_inv_done|].
  case_bool_decide as Hx; [by eapply IH, H; eapply search_inv_skip|].
  destruct (succ x) as [ts|] eqn:Hs; eapply IH, H; eapply search_inv_visit; [done| |done|].
  - intros y. rewrite elem_of_app, elem_of_reverse, (edge_succ x ts) by done. tauto.
  - intros y. pose proof (edge_none x y Hs); tauto.
Qed.

(** With the fuel given the loop of [reachable_from] ends, with the nodes reachable. *)
Lemma reach_complete start :
  ∃ r, reach_loop push_bound ∅ [start] = Some r ∧ ∀ x, x ∈ r ↔ rtc edge start x.
Proof.
  destruct (reach_loop_total push_bound ∅ [start]) as [r Hr]; [simpl; unfold push_bound; lia|].
  exists r. split; [done|]. eapply reach_loop_spec; [apply search_inv_init|done].
Qed.

Lemma push_unless_Some target ts stack stack' :
  push_unless target ts stack = Some stack' → stack' = reverse ts ++ stack ∧ target ∉ ts.
Proof.
  revert stack. induction ts as [|t ts IH]; intros stack; simpl; [intros [= <-]; split; [done|set_solver]|].
  case_bool_decide; [done|]. intros [-> Hn]%IH. rewrite reverse_cons, <- app_assoc.
  split; [done|set_solver].
Qed.

Lemma push_unless_None target ts stack : push_unless target ts stack = None → target ∈ ts.
Proof.
  revert stack. induction ts as [|t ts IH]; intros stack; simpl; [done|].
  case_bool_decide; [subst; by left|]. intros Ht%IH. by right.
Qed.

Lemma path_loop_total target fuel visited stack :
  pending_edges visited + length stack < fuel → is_Some (path_loop target fuel visited stack).
Proof.
  revert visited stack. induction fuel as [|fuel IH]; intros visited stack Hf; [lia|]. cbn [path_loop].
  destruct stack as [|x stack]; [done|]. cbn [length] in Hf.
  case_bool_decide as Hx; [apply IH; lia|].
  pose proof (pending_edges_visit _ _ Hx) as Hp.
  destruct (succ x) as [ts|]; simpl in Hp; [|apply IH; lia].
  destruct (push_unless target ts stack) as [stack'|] eqn:E; [|done].
  apply push_unless_Some in E as [-> _]. apply IH. rewrite length_app, length_reverse. lia.
Qed.

Lemma path_loop_spec target fuel start visited stack b :
  search_inv start visited stack → target ≠ start → (∀ x, x ∈ visited → ¬ edge x target) →
  path_loop target fuel visited stack = Some b → b = true ↔ rtc edge start target.
Proof.
  revert visited stack. induction fuel as [|fuel IH]; [done|]; cbn [path_loop].
  intros visited [|x stack] Hi Hne Ht H.
  { injection H as <-. split; [done|]. intros Hr. exfalso.
    destruct (rtc_inv_r _ _ Hr) as [Heq|(y&Hy&He)]; [done|].
    apply (Ht y); [by apply (search_inv_done start)|done]. }
  case_bool_decide as Hx; [by eapply IH; [eapply search_inv_skip|..]|].
  destruct (succ x) as [ts|] eqn:Hs.
  - destruct (push_unless target ts stack) as [stack'|] eqn:E.
    + apply push_unless_Some in E as [-> Hn]. eapply IH, H; [eapply search_inv_visit; [done|]|done|].
      * intros y. rewrite elem_of_app, elem_of_reverse, (edge_succ x ts) by done. tauto.
      * intros y [->%elem_of_singleton|Hy]%elem_of_union; [by rewrite (edge_succ x ts)|by apply Ht].
    + injection H as <-. split; [|done]. intros _. apply push_unless_None in E.
      eapply rtc_r; [apply Hi; right; by left|by apply (edge_succ x ts)].
  - eapply IH, H; [eapply search_inv_visit; [done|]|done|].
    + intros y. pose proof (edge_none x y Hs); tauto.
    + intros y [->%elem_of_singleton|Hy]%elem_of_union; [by apply edge_none|by apply Ht].
Qed.

(** With the fuel given the loop of [path_exists] ends, and decides reachability. *)
Lemma path_complete start target : target ≠ start →
  ∃ b, path_loop target push_bound ∅ [start] = Some b ∧ (b = true ↔ rtc edge start target).
Proof.
  intros Hne. destruct (path_loop_total target push_bound ∅ [start]) as [b Hb];
    [simpl; unfold push_bound; lia|].
  exists b. split; [done|].
  eapply path_loop_spec; [apply search_inv_init|done| |done]. set_solver.
Qed.

(** ** Depth-first search decides acyclicity *)

(** An edge to a node of the graph. *)
Definition edge_in (x y : NodeId) : Prop := edge x y ∧ is_Some (succ y).

(** A list that has every node's successors after it. *)
Inductive topo : list NodeId → Prop :=
| topo_nil : topo []
| topo_cons x l : is_Some (succ x) → x ∉ l → (∀ y, edge_in x y → y ∈ l) → topo l → topo (x :: l).

Lemma topo_closed l x y : topo l → x ∈ l → edge_in x y → y ∈ l.
Proof.
  clear keys Hkeys.
  induction 1 as [|z l _ Hz Hs _ IH]; [set_solver|].
  intros [->|Hx]%elem_of_cons He; [by right; apply Hs|right; by apply IH].
Qed.

Lemma topo_closed_tc l x y : topo l → x ∈ l → tc edge_in x y → y ∈ l.
Proof.
  clear keys Hkeys. intros Ht Hx Hr. revert Hx. induction Hr; eauto using topo_closed. Qed.

Lemma topo_acyclic l x : topo l → x ∈ l → ¬ tc edge_in x x.
Proof.
  clear keys Hkeys.
  induction 1 as [|z l _ Hz Hs Hl IH]; [set_solver|].
  intros [->|Hx]%elem_of_cons Hr; [|by apply IH].
  apply Hz. inversion Hr as [? ? He|? w ? He Hw]; subst; [by apply Hs|].
  by eapply topo_closed_tc, Hw; [done|apply Hs].
Qed.

(** What a visit keeps and promises. *)
Definition visit_pre (x : NodeId) (visiting visited : gset NodeId) : Prop :=
  (∀ v, v ∈ visiting → tc edge_in v x) ∧ (∃ l, topo l ∧ visited = list_to_set l) ∧ visiting ## visited.

Definition visit_post (visiting visited : gset NodeId) (goal : NodeId → Prop)
    (r : result NodeId (gset NodeId * gset NodeId)) : Prop :=
  match r with
  | Ok (v1, v2) => v1 = visiting ∧ (∃ l, topo l ∧ v2 = list_to_set l) ∧ visited ⊆ v2 ∧
                   (∀ y, goal y → y ∈ v2) ∧ visiting ## v2
  | Err m => tc edge_in m m
  end.

Lemma visit_targets_spec visit targets visiting visited r :
  (∀ y v1 v2 r, visit_pre y v1 v2 → is_Some (succ y) → visit y v1 v2 = Some r →
     visit_post v1 v2 (λ z, z = y) r) →
  (∀ y, y ∈ targets → is_Some (succ y) → ∀ v, v ∈ visiting → tc edge_in v y) →
  (∃ l, topo l ∧ visited = list_to_set l) → visiting ## visited →
  visit_targets visit targets visiting visited = Some r →
  visit_post visiting visited (λ y, y ∈ targets ∧ is_Some (succ y)) r.
Proof.
  intros Hv. revert visited. induction targets as [|t ts IH]; intros visited Hp Ht Hd; cbn [visit_targets].
  { intros [= <-]. split_and!; [done..|set_solver|done]. }
  case_bool_decide as Hs.
  { intros H. apply IH in H; [|set_solver|done..]. destruct r as [[v1 v2]|m]; [|done].
    destruct H as (->&?&?&Hg&?). split_and!; [done..| |done].
    intros y [[->|Hy]%elem_of_cons [? Hy']]; [congruence|by apply Hg]. }
  assert (is_Some (succ t)) as Hsome by (destruct (succ t); [eauto|done]).
  destruct (visit t visiting visited) as [r'|] eqn:E; [|done].
  apply Hv in E; [|split_and!; [apply Hp; [by left|done]|done..]|done].
  destruct r' as [[v1 v2]|m]; [|intros [= <-]; done].
  destruct E as (->&Hl&Hsub&Hg&Hd'). intros H. apply IH in H; [|set_solver|done..].
  destruct r as [[w1 w2]|m]; [|done]. destruct H as (->&?&?&Hg2&?).
  split_and!; [done..|set_solver| |done].
  intros y [[->|Hy]%elem_of_cons Hy']; [|by apply Hg2]. specialize (Hg t eq_refl). set_solver.
Qed.

Lemma cycle_visit_spec fuel x visiting visited r :
  visit_pre x visiting visited → is_Some (succ x) →
  cycle_visit fuel x visiting visited = Some r → visit_post visiting visited (λ y, y = x) r.
Proof.
  revert x visiting visited r.
  induction fuel as [|fuel IH]; [done|]; intros x visiting visited r (Hp&Ht&Hd) Hx; cbn [cycle_visit].
  case_bool_decide as Hvd; [intros [= <-]; split_and!; [done..|by intros y ->|done]|].
  case_bool_decide as Hvg; [intros [= <-]; by apply Hp|].
  destruct (visit_targets _ _ _ _) as [r'|] eqn:E; [|done].
  apply visit_targets_spec in E; [|by intros; eapply IH| |done|set_solver].
  2: { intros y Hy Hys v. assert (edge_in x y) as He.
       { split; [|done]. destruct (succ x) as [ts|] eqn:Hs; simpl in Hy; [by exists ts|set_solver]. }
       intros [->%elem_of_singleton|Hv]%elem_of_union; [by constructor|].
       eapply tc_r; [by apply Hp|done]. }
  destruct r' as [[v1 v2]|m]; [|by intros [= <-]]. intros [= <-].
  destruct E as (->&(l&Hl&->)&Hsub&Hg&Hd'). split_and!.
  - set_solver.
  - exists (x :: l). split; [|by rewrite list_to_set_cons].
    constructor; [done|set_solver| |done]. intros y [(ts&Hts&Hy) Hys].
    rewrite Hts in Hg. specialize (Hg y). set_solver.
  - set_solver.
  - set_solver.
  - set_solver.
Qed.

Lemma visit_targets_total visit visiting targets visited :
  (∀ y v2, is_Some (succ y) → is_Some (visit y visiting v2)) →
  (∀ y v2 w1 w2, visit y visiting v2 = Some (Ok (w1, w2)) → w1 = visiting) →
  is_Some (visit_targets visit targets visiting visited).
Proof.
  intros Ht Hs. revert visited. induction targets as [|t ts IH]; intros visited; cbn [visit_targets]; [done|].
  case_bool_decide as Hn; [apply IH|].
  destruct (Ht t visited) as [[[w1 w2]|m] E]; [destruct (succ t); [eauto|done]| |]; rewrite E; [|done].
  by rewrite (Hs _ _ _ _ E).
Qed.

(** A visit leaves the path to the node as it was. *)
Lemma cycle_visit_visiting fuel x visiting visited w1 w2 :
  cycle_visit fuel x visiting visited = Some (Ok (w1, w2)) → w1 = visiting.
Proof.
  revert x visiting visited w1 w2. induction fuel as [|fuel IH]; [done|]. intros x visiting visited w1 w2.
  cbn [cycle_visit]. case_bool_decide; [congruence|]. case_bool_decide; [congruence|].
  assert (∀ targets visiting visited v1 v2,
    visit_targets (cycle_visit fuel) targets visiting visited = Some (Ok (v1, v2)) → v1 = visiting) as Hv.
  { clear -IH. induction targets as [|t ts IHt]; intros visiting visited v1 v2; cbn [visit_targets]; [congruence|].
    case_bool_decide; [apply IHt|].
    destruct (cycle_visit fuel t visiting visited) as [[[u1 u2]|]|] eqn:E; [|congruence..].
    apply IH in E as ->. apply IHt. }
  destruct (visit_targets _ _ _ _) as [[[v1 v2]|]|] eqn:E; [|done..].
  apply Hv in E as ->. intros [= <- _]. set_solver.
Qed.

(** Nesting never goes deeper than the number of nodes. *)
Lemma cycle_visit_total fuel x visiting visited :
  is_Some (succ x) → size (list_to_set keys ∖ visiting : gset NodeId) < fuel →
  is_Some (cycle_visit fuel x visiting visited).
Proof.
  revert x visiting visited. induction fuel as [|fuel IH]; intros x visiting visited Hx Hf; [lia|].
  cbn [cycle_visit]. case_bool_decide; [done|]. case_bool_decide as Hv; [done|].
  destruct (visit_targets_total (cycle_visit fuel) ({[ x ]} ∪ visiting) (default [] (succ x)) visited)
    as [[[w1 w2]|m] E].
  - intros y v2 Hy. apply IH; [done|]. apply Nat.lt_le_trans with
      (size (list_to_set keys ∖ visiting : gset NodeId)); [|lia].
    apply subset_size. apply Hkeys in Hx. set_solver.
  - intros. by eapply cycle_visit_visiting.
  - by rewrite E.
  - by rewrite E.
Qed.

Lemma cycle_roots_spec fuel roots l :
  (∀ x, x ∈ roots → is_Some (succ x)) → topo l → length keys < fuel →
  ∃ r, cycle_roots fuel roots ∅ (list_to_set l) = Some r ∧
    match r with
    | Ok _ => ∃ l', topo l' ∧ l ⊆ l' ∧ roots ⊆ l'
    | Err m => tc edge_in m m
    end.
Proof.
  intros Hr Ht Hf. revert l Ht. induction roots as [|x roots IH]; intros l Ht; cbn [cycle_roots].
  { eexists. split; [done|]. exists l. split_and!; [done..|set_solver]. }
  destruct (cycle_visit_total fuel x ∅ (list_to_set l)) as [r E].
  { apply Hr. by left. }
  { rewrite difference_empty_L. apply Nat.le_lt_trans with (length keys); [|done].
    clear. induction keys as [|k ks IHk]; simpl; [done|].
    rewrite size_union_alt, size_singleton.
    assert (size (list_to_set ks ∖ {[k]} : gset NodeId) ≤ size (list_to_set ks : gset NodeId)); [|lia].
    apply subseteq_size. set_solver. }
  rewrite E. apply cycle_visit_spec in E;
    [|split_and!; [set_solver|by exists l|set_solver]|apply Hr; by left].
  destruct r as [[v1 v2]|m]; [|by eexists].
  destruct E as (->&(l1&Hl1&->)&Hsub&Hg&_).
  destruct (IH ltac:(intros; apply Hr; by right) l1 Hl1) as (r&Hr'&Hres).
  exists r. split; [done|]. destruct r; [|done]. destruct Hres as (l2&?&?&?).
  exists l2. specialize (Hg x eq_refl). split_and!; [done|set_solver..].
Qed.

Lemma topo_keys l : topo l → NoDup l ∧ l ⊆ keys.
Proof.
  induction 1 as [|x l Hx Hn _ _ [IHn IHk]]; [split; [constructor|set_solver]|].
  split; [by constructor|]. apply Hkeys in Hx. set_solver.
Qed.

Lemma topo_length l : topo l → length l ≤ length keys.
Proof. intros [Hn Hk]%topo_keys. by apply submseteq_length, NoDup_submseteq. Qed.

(** With the fuel given [reject_cycles] ends: with an order of the nodes that every edge follows,
    or with a node on a cycle. *)
Lemma cycle_complete :
  ∃ r, cycle_roots (S (length keys)) keys ∅ ∅ = Some r ∧
    match r with
    | Ok _ => ∃ l, topo l ∧ ∀ x, x ∈ keys → x ∈ l
    | Err m => tc edge_in m m
    end.
Proof.
  destruct (cycle_roots_spec (S (length keys)) keys []) as (r&Hr&Hres); [|constructor|lia|].
  { intros x Hx. by apply Hkeys. }
  exists r. split; [done|]. destruct r; [|done]. destruct Hres as (l&?&?&?). by exists l.
Qed.

(** ** Depth is the greatest weight of a walk *)

(** Walks from a node along edges, over nodes of the graph; a walk may stop anywhere. *)
Inductive walk : NodeId → list NodeId → Prop :=
| walk_nil x : walk x []
| walk_last x : is_Some (succ x) → walk x [x]
| walk_step x y p : edge x y → walk y p → walk x (x :: p).

Lemma walk_inv x y p : walk x (y :: p) → y = x ∧ is_Some (succ x).
Proof. inversion 1 as [| |? z ? (ts&Hts&_)]; subst; split; eauto. Qed.

Lemma walk_reach x p y : walk x p → y ∈ p → rtc edge_in x y ∧ is_Some (succ y).
Proof.
  induction 1 as [x|x Hx|x z p He Hw IH]; [set_solver|intros ->%list_elem_of_singleton; by split|].
  intros [->|Hy]%elem_of_cons; [split; [done|]; destruct He as (ts&?&_); eauto|].
  destruct (IH Hy) as [Hr Hs]. split; [|done]. eapply rtc_l, Hr. split; [done|].
  destruct p as [|w p]; [set_solver|]. by apply walk_inv in Hw as [-> ?].
Qed.

(** In an acyclic graph a walk meets no node twice. *)
Lemma walk_NoDup l x p : topo l → (∀ y, y ∈ keys → y ∈ l) → walk x p → NoDup p.
Proof.
  intros Ht Hk. induction 1 as [x|x Hx|x z p He Hw IH]; [constructor|apply NoDup_singleton|].
  constructor; [|done]. intros Hx. destruct (walk_reach _ _ _ Hw Hx) as [Hr Hs].
  apply (topo_acyclic l x Ht); [by apply Hk, Hkeys|].
  eapply tc_rtc_r; [|done]. constructor. split; [done|].
  destruct p as [|w p]; [set_solver|]. by apply walk_inv in Hw as [-> ?].
Qed.

Section depth.
Context (nested : NodeId → option Z).
Context (Hnested : ∀ x, x ∈ keys → ∃ n, nested x = Some n ∧ (0 ≤ n)%Z).

Definition node_weight (x : NodeId) : Z := 1 + default 0%Z (nested x).

Fixpoint weight (p : list NodeId) : Z :=
  match p with [] => 0 | x :: p' => node_weight x + weight p' end.

Lemma node_weight_pos x : x ∈ keys → (1 ≤ node_weight x)%Z.
Proof. intros (n&Hn&?)%Hnested. unfold node_weight. rewrite Hn. simpl. lia. Qed.

Lemma weight_submseteq p q : p ⊆+ q → q ⊆ keys → (weight p ≤ weight q)%Z.
Proof.
  induction 1 as [|x p q Hpq IH|x y p|x p q Hpq IH|p q r Hpq IH Hqr IH']; intros Hq; simpl; try lia.
  - specialize (IH ltac:(set_solver)). lia.
  - specialize (IH ltac:(set_solver)). pose proof (node_weight_pos x ltac:(set_solver)). lia.
  - etrans; [apply IH|by apply IH']. intros x Hx. apply Hq. by eapply elem_of_submseteq.
Qed.

(** In an acyclic graph no walk weighs more than all the nodes together. *)
Lemma walk_weight l x p : topo l → (∀ y, y ∈ keys → y ∈ l) → walk x p → (weight p ≤ weight keys)%Z.
Proof.
  intros Ht Hk Hw. apply weight_submseteq; [|done]. apply NoDup_submseteq; [by eapply walk_NoDup|].
  intros y Hy. apply Hkeys. by eapply walk_reach.
Qed.

Context (Hbound : ∀ x p, walk x p → (weight p < 2 ^ 32)%Z).

Definition greatest (x : NodeId) (d : Z) : Prop :=
  (∀ p, walk x p → (weight p ≤ d)%Z) ∧ ∃ p, walk x p ∧ weight p = d.

Lemma greatest_missing x : succ x = None → greatest x 0.
Proof.
  intros Hx. split; [|exists []; split; [constructor|done]].
  intros p Hp. inversion Hp as [|? [? Hs]|? y q He]; subst; [done|congruence|].
  by apply edge_none in He.
Qed.

Lemma greatest_nonneg x d : greatest x d → (0 ≤ d)%Z.
Proof. intros [H _]. apply (H []). constructor. Qed.

Lemma greatest_node x ts b :
  succ x = Some ts →
  (∀ y, y ∈ ts → ∃ d, greatest y d ∧ (d ≤ b)%Z) → (b = 0%Z ∨ ∃ y, y ∈ ts ∧ greatest y b) →
  greatest x (node_weight x + b).
Proof.
  intros Hs Hle Hb.
  assert (0 ≤ b)%Z as Hb0 by (destruct Hb as [->|(y&_&?%greatest_nonneg)]; lia).
  assert (x ∈ keys) as Hx by (apply Hkeys; by rewrite Hs).
  destruct (Hnested x Hx) as (n&Hn&Hn0). split.
  - intros p Hp. inversion Hp as [|? _|? y q He Hq]; subst; simpl;
      unfold node_weight; rewrite ?Hn; simpl; [lia..|].
    apply (edge_succ x ts) in He; [|done]. destruct (Hle y He) as (d&[Hd _]&?). specialize (Hd q Hq). lia.
  - destruct Hb as [->|(y&Hy&[_ (p&Hp&Hw)])].
    + exists [x]. split; [constructor; by rewrite Hs|done].
    + exists (x :: p). split; [econstructor; [|done]; by apply (edge_succ x ts)|simpl; lia].
Qed.

Definition memo_ok (memo : gmap NodeId Z) : Prop := ∀ x d, memo !! x = Some d → greatest x d.

Lemma deepest_spec visit targets best memo b memo' :
  (∀ y m d m', memo_ok m → visit y m = Some (d, m') → memo_ok m' ∧ greatest y d) →
  memo_ok memo → (0 ≤ best)%Z → deepest visit targets best memo = Some (b, memo') →
  memo_ok memo' ∧ (best ≤ b)%Z ∧ (∀ y, y ∈ targets → ∃ d, greatest y d ∧ (d ≤ b)%Z) ∧
  (b = best ∨ ∃ y, y ∈ targets ∧ greatest y b).
Proof.
  intros Hv. revert best memo. induction targets as [|t ts IH]; intros best memo Hm Hb; simpl.
  { intros [= <- <-]. split_and!; [done..|set_solver|by left]. }
  destruct (visit t memo) as [[d m1]|] eqn:E; [|done]. simpl.
  apply Hv in E as [Hm1 Hd]; [|done]. intros H. apply IH in H as (?&?&Hts&Hor); [|done|lia].
  split_and!; [done|lia| |].
  - intros y [->|Hy]%elem_of_cons; [exists d; split; [done|lia]|by apply Hts].
  - destruct Hor as [Hor|(y&?&?)]; [|right; exists y; split; [by right|done]].
    destruct (Z.max_spec best d) as [[_ Hmx]|[_ Hmx]]; rewrite Hmx in Hor; subst; [|by left].
    right. exists t. split; [by left|done].
Qed.

Lemma depth_visit_spec fuel x memo d memo' :
  memo_ok memo → depth_visit nested fuel x memo = Some (d, memo') → memo_ok memo' ∧ greatest x d.
Proof.
  revert x memo d memo'. induction fuel as [|fuel IH]; [done|]. intros x memo d memo' Hm. cbn [depth_visit].
  destruct (memo !! x) as [d0|] eqn:Hx; [intros [= <- <-]; split; [done|by apply Hm]|].
  destruct (succ x) as [ts|] eqn:Hs; [|intros [= <- <-]; split; [done|by apply greatest_missing]].
  destruct (Hnested x) as (n&Hn&Hn0); [apply Hkeys; by rewrite Hs|]. rewrite Hn. simpl.
  destruct (deepest _ _ _ _) as [[b m1]|] eqn:E; [|done]. simpl.
  apply deepest_spec in E as (Hm1&Hb&Hle&Hor); [|by intros; eapply IH|done|lia].
  assert (greatest x (node_weight x + b)) as Hg by by eapply greatest_node.
  assert (u32_add (u32_add 1 n) b = node_weight x + b)%Z as ->.
  { destruct Hg as [_ (p&Hp&Hw)]. pose proof (Hbound x p Hp).
    assert (node_weight x = 1 + n)%Z as Hw' by (unfold node_weight; by rewrite Hn).
    unfold u32_add. rewrite (Z.mod_small (1 + n)) by lia. rewrite Z.mod_small by lia. lia. }
  intros [= <- <-]. split; [|done]. intros y d' Hy.
  destruct (decide (x = y)) as [->|Hne].
  - rewrite lookup_insert_eq in Hy. by simplify_eq.
  - rewrite lookup_insert_ne in Hy by done. by apply Hm1.
Qed.

Lemma deepest_total visit targets best memo :
  (∀ y m, y ∈ targets → is_Some (visit y m)) → is_Some (deepest visit targets best memo).
Proof.
  revert best memo. induction targets as [|t ts IH]; intros best memo Hv; simpl; [done|].
  destruct (Hv t memo ltac:(by left)) as [[d m] ->]. simpl. apply IH. intros. apply Hv. by right.
Qed.

Lemma depth_visit_total l fuel x memo :
  topo l → succ x = None ∨ x ∈ l → length l < fuel → is_Some (depth_visit nested fuel x memo).
Proof.
  intros Ht. revert fuel x memo. induction Ht as [|z l Hz Hn Hs Ht IH]; intros fuel x memo Hx Hf;
    (destruct fuel as [|fuel]; [simpl in Hf; lia|]).
  - cbn [depth_visit]. destruct (memo !! x); [done|]. destruct Hx as [->|Hx]; [done|set_solver].
  - destruct (decide (x = z)) as [->|Hne]; [|apply IH; [set_solver|simpl in Hf; lia]].
    cbn [depth_visit]. destruct (memo !! z); [done|]. destruct (succ z) as [ts|] eqn:Hsz; [|done].
    destruct (Hnested z) as (n&->&_); [apply Hkeys; by rewrite Hsz|]. simpl.
    destruct (deepest_total (depth_visit nested fuel) ts 0 memo) as [[b m] ->]; [|done].
    intros y m Hy. apply IH; [|simpl in Hf; lia].
    destruct (succ y) as [ys|] eqn:Hsy; [|by left]. right. apply Hs.
    split; [by apply (edge_succ z ts)|by rewrite Hsy].
Qed.
End depth.
End graph.
