(* ===== verification/Blueprint.v ===== *)
(** * Scheduler blueprints and their validation

    crates/agendao-orchestrator/src/blueprint/types.rs, blueprint/validate.rs,
    catalog.rs and policy.rs: graphs of agent, parallel, gate, loop and end nodes,
    the catalog and the policy they are checked against, and the validator.  A
    [BTreeMap] is the list of its entries and a [BTreeSet] the list of its
    elements, both in ascending order, which is the order the source iterates
    them.  The blueprint fingerprint (SHA-256 of the JSON text) is a parameter. *)

From S2P Require Import Prelude BlueprintGraph.

(** ** Maps as ordered lists of entries *)

(** [map.get(key)] *)
Definition map_get {A} (key : string) (m : list (string * A)) : option A :=
  snd <$> find_first (λ e, bool_decide (e.1 = key)) m.

(** [map.contains_key(key)] *)
Definition contains_key {A} (m : list (string * A)) (key : string) : bool :=
  bool_decide (is_Some (map_get key m)).

(** [map.insert(key, value)] on an ordered map *)
Fixpoint map_insert {A} (key : string) (value : A) (m : list (string * A)) : list (string * A) :=
  match m with
  | [] => [(key, value)]
  | e :: m' =>
      if bool_decide (e.1 = key) then (key, value) :: m'
      else if bool_decide (str_leb key e.1) then (key, value) :: m
      else e :: map_insert key value m'
  end.

(** [BTreeMap::from([..])]: a later entry replaces an earlier one of the same key. *)
Definition map_from {A} (l : list (string * A)) : list (string * A) :=
  fold_left (λ m e, map_insert e.1 e.2 m) l [].

(** [vec.len() as u32] *)
Definition len_u32 {A} (l : list A) : Z := (Z.of_nat (length l) mod 2 ^ 32)%Z.

(** ** The catalog *)

Module Effect.
Inductive EffectClass := ReadOnly | WorkspaceMutation | ProcessExecution | Network | ExternalMutation.
#[export] Instance effect_eq_dec : EqDecision EffectClass.
Proof. solve_decision. Defined.
Definition debug (e : EffectClass) : string :=
  match e with
  | ReadOnly => "ReadOnly" | WorkspaceMutation => "WorkspaceMutation"
  | ProcessExecution => "ProcessExecution" | Network => "Network"
  | ExternalMutation => "ExternalMutation"
  end.
End Effect.
Export (hints) Effect.
Abbreviation EffectClass := Effect.EffectClass.

Module ToolPermission.
Inductive PermissionClass := Automatic | Ask | DenyByDefault.
End ToolPermission.

Module EvaluatorKind.
Inductive EvaluatorKind := Deterministic | ModelJudge | Metric.
End EvaluatorKind.
Abbreviation EvaluatorKind := EvaluatorKind.EvaluatorKind.

Module CapabilityKind.
Inductive CapabilityKind := WorkspaceCheckpoint | ArtifactStore.
#[export] Instance capability_kind_eq_dec : EqDecision CapabilityKind.
Proof. solve_decision. Defined.
End CapabilityKind.
Export (hints) CapabilityKind.
Abbreviation CapabilityKind := CapabilityKind.CapabilityKind.

Module ModelCapability.
Inductive ModelCapability := ToolCalls | Reasoning | Attachments | StructuredOutput.
#[export] Instance model_capability_eq_dec : EqDecision ModelCapability.
Proof. solve_decision. Defined.
Definition debug (c : ModelCapability) : string :=
  match c with
  | ToolCalls => "ToolCalls" | Reasoning => "Reasoning" | Attachments => "Attachments"
  | StructuredOutput => "StructuredOutput"
  end.
End ModelCapability.
Export (hints) ModelCapability.
Abbreviation ModelCapability := ModelCapability.ModelCapability.

Record AgentCatalogEntry := {
  ae_id : string;
  ae_system_policy : string;
  ae_max_steps : Z;
  ae_available_skills : list string;
  ae_available_tools : list string;
  ae_model_capabilities : list ModelCapability;
}.

Record SkillCatalogEntry := {
  se_id : string;
  se_summary : string;
  se_content_fingerprint : string;
  se_capability_tags : list string;
  se_requires_tools : list string;
  se_fallback_for_tools : list string;
  se_requires_toolsets : list string;
  se_fallback_for_toolsets : list string;
  se_hydrated_prompt : option string;
}.

Record ToolCatalogEntry := {
  te_id : string;
  te_effect : EffectClass;
  te_permission : ToolPermission.PermissionClass;
}.

Record EvaluatorCatalogEntry := { ee_id : string; ee_kind : EvaluatorKind }.

Record CapabilityCatalogEntry := {
  ce_id : string;
  ce_kind : CapabilityKind;
  ce_effect : EffectClass;
}.

Record SchedulerCatalog := {
  cat_revision : string;
  cat_agents : list (string * AgentCatalogEntry);
  cat_skills : list (string * SkillCatalogEntry);
  cat_tools : list (string * ToolCatalogEntry);
  cat_evaluators : list (string * EvaluatorCatalogEntry);
  cat_capabilities : list (string * CapabilityCatalogEntry);
}.

(** ** Blueprints *)

Record AgentNode := {
  an_agent : string;
  an_skills : list string;
  an_tools : list string;
  an_required_model_capabilities : list ModelCapability;
  an_max_steps : Z;
  an_next : NodeId;
}.

Module FailureMode.
Inductive ParallelFailureMode := FailFast | Collect.
#[export] Instance failure_mode_eq_dec : EqDecision ParallelFailureMode.
Proof. solve_decision. Defined.
End FailureMode.
Export (hints) FailureMode.
Abbreviation ParallelFailureMode := FailureMode.ParallelFailureMode.

Record ParallelNode := {
  pn_branches : list NodeId;
  pn_join : NodeId;
  pn_max_parallelism : Z;
  pn_failure_mode : ParallelFailureMode;
}.

Record GateNode := {
  gn_evaluator : string;
  gn_on_pass : NodeId;
  gn_on_fail : NodeId;
  gn_on_indeterminate : NodeId;
}.

Module Source.
Inductive ResultSource :=
| LastNode
| Named (node : NodeId)
| Artifact (capability name : string).
End Source.
Abbreviation ResultSource := Source.ResultSource.

Record EndNode := { en_result : ResultSource }.

(** A loop node over bodies of type [G], and a graph of nodes of type [N]: the recursion of
    [NodeSpec] passes through both. *)
Record LoopOf (G : Type) := {
  ln_body : G;
  ln_evaluator : string;
  ln_max_iterations : Z;
  ln_checkpoint : option string;
  ln_on_satisfied : NodeId;
  ln_on_exhausted : NodeId;
}.
Arguments ln_body {G}.
Arguments ln_evaluator {G}.
Arguments ln_max_iterations {G}.
Arguments ln_checkpoint {G}.
Arguments ln_on_satisfied {G}.
Arguments ln_on_exhausted {G}.

Record GraphOf (N : Type) := { g_entry : NodeId; g_nodes : list (NodeId * N) }.
Arguments g_entry {N}.
Arguments g_nodes {N}.

Module Node.
Inductive NodeSpec :=
| Agent (agent : AgentNode)
| Parallel (parallel : ParallelNode)
| Gate (gate : GateNode)
| Loop (loop_node : LoopOf (GraphOf NodeSpec))
| End (e : EndNode).
End Node.
Abbreviation NodeSpec := Node.NodeSpec.

Definition SchedulerGraph : Type := GraphOf NodeSpec.
Definition LoopNode : Type := LoopOf SchedulerGraph.

Module Output.
Inductive OutputFormat := Text | Markdown | Json.
End Output.

Record OutputContract := {
  oc_format : Output.OutputFormat;
  oc_include_usage : bool;
  oc_include_artifact_refs : bool;
}.

Record ExecutionLimits := {
  max_model_calls : Z;
  max_tool_calls : Z;
  max_total_tokens : Z;
  max_wall_time_ms : Z;
  max_parallelism : Z;
  max_graph_nodes : Z;
  max_graph_depth : Z;
  max_loop_iterations : Z;
  max_agent_steps : Z;
}.

Inductive BlueprintSchemaVersion := V1.

Record SchedulerBlueprint := {
  bp_schema : BlueprintSchemaVersion;
  bp_name : string;
  bp_entry : NodeId;
  bp_nodes : list (NodeId * NodeSpec);
  bp_limits : ExecutionLimits;
  bp_output : OutputContract;
}.

(** ** The policy *)

Record WorkspaceLimits := {
  wl_max_files : Z;
  wl_max_total_bytes : Z;
  wl_min_free_disk_bytes : Z;
  wl_operation_timeout_ms : Z;
}.

Record PolicyEnvelope := {
  pol_hard_limits : ExecutionLimits;
  pol_allowed_tools : list string;
  pol_allowed_effects : list EffectClass;
  pol_allowed_capabilities : list string;
  pol_workspace_limits : WorkspaceLimits;
}.

(** The derived order of [EffectClass]. *)
Definition effects_in_order : list EffectClass :=
  [Effect.ReadOnly; Effect.WorkspaceMutation; Effect.ProcessExecution; Effect.Network;
   Effect.ExternalMutation].

(** [PolicyEnvelope::allow_catalog] *)
Definition allow_catalog (hard_limits : ExecutionLimits) (catalog : SchedulerCatalog)
    : PolicyEnvelope := {|
  pol_hard_limits := hard_limits;
  pol_allowed_tools := (cat_tools catalog).*1;
  pol_allowed_effects :=
    filter (λ e, e ∈ (te_effect ∘ snd <$> cat_tools catalog) ++
                     (ce_effect ∘ snd <$> cat_capabilities catalog)) effects_in_order;
  pol_allowed_capabilities := (cat_capabilities catalog).*1;
  pol_workspace_limits := {|
    wl_max_files := 10000; wl_max_total_bytes := 1073741824;
    wl_min_free_disk_bytes := 536870912; wl_operation_timeout_ms := 30000 |} |}.

(** ** Validation errors *)

Module BErr.
Inductive BlueprintValidationError :=
| InvalidIdentifier (kind value : string)
| EmptyCatalogRevision
| CatalogIdMismatch (kind key entry_id : string)
| InvalidSkillMetadata (skill field : string) (maximum : Z)
| InvalidCatalogReference (agent kind reference : string)
| InvalidPolicyReference (kind reference : string)
| ZeroLimit (field : string)
| LimitExceeded (field : string) (requested maximum : Z)
| EmptyGraph (scope : string)
| MissingEntry (scope node : string)
| MissingTarget (scope node target : string)
| UnreachableNode (scope node : string)
| OrdinaryCycle (scope node : string)
| MissingEnd (scope : string)
| UnknownAgent (node agent : string)
| UnknownSkill (node skill : string)
| SkillUnavailable (node agent skill : string)
| UnknownTool (node tool : string)
| ToolUnavailable (node agent tool : string)
| ToolDenied (node tool : string)
| EffectDenied (node tool effect : string)
| ModelCapabilityUnavailable (node agent capability : string)
| InvalidAgentSteps (node : string) (steps maximum : Z)
| InvalidParallelBranches (node : string)
| InvalidParallelism (node : string) (value maximum : Z)
| ParallelJoinUnreachable (node branch join : string)
| UnknownEvaluator (node evaluator : string)
| InvalidLoopIterations (node : string) (value maximum : Z)
| UnknownCapability (node capability : string)
| CapabilityDenied (node capability : string)
| CapabilityEffectDenied (node capability effect : string)
| InvalidCheckpointCapability (node capability : string)
| InvalidArtifactCapability (node capability : string)
| InvalidResultSource (node reason : string)
| TooManyNodes (actual maximum : Z)
| GraphTooDeep (actual maximum : Z)
| Canonicalization (message : string).
End BErr.
Abbreviation BlueprintValidationError := BErr.BlueprintValidationError.

(** ** Identifiers, metadata and limits *)

Definition MAX_IDENTIFIER_LEN : nat := 128.
Definition MAX_SKILL_SUMMARY_CHARS : nat := 1024.
Definition MAX_FINGERPRINT_CHARS : nat := 256.

Definition check : Type := result BlueprintValidationError unit.

Definition validate_identifier (kind value : string) : check :=
  let trimmed := trim value in
  if bool_decide (trimmed = "") || negb (bool_decide (trimmed = value)) ||
     bool_decide (MAX_IDENTIFIER_LEN < String.length value)
  then Err (BErr.InvalidIdentifier kind value)
  else Ok tt.

Definition validate_catalog_key (kind key entry_id : string) : check :=
  let? _ := validate_identifier kind key in
  let? _ := validate_identifier kind entry_id in
  reject? negb (bool_decide (key = entry_id)) with BErr.CatalogIdMismatch kind key entry_id in
  Ok tt.

Definition validate_skill_metadata (skill field value : string) (maximum : nat) : check :=
  if bool_decide (value = "") || negb (bool_decide (trim value = value)) ||
     bool_decide (maximum < length (chars value))
  then Err (BErr.InvalidSkillMetadata skill field (Z.of_nat maximum))
  else Ok tt.

Definition limit_values (limits : ExecutionLimits) : list (string * Z) :=
  [("max_model_calls", max_model_calls limits); ("max_tool_calls", max_tool_calls limits);
   ("max_total_tokens", max_total_tokens limits); ("max_wall_time_ms", max_wall_time_ms limits);
   ("max_parallelism", max_parallelism limits); ("max_graph_nodes", max_graph_nodes limits);
   ("max_graph_depth", max_graph_depth limits); ("max_loop_iterations", max_loop_iterations limits);
   ("max_agent_steps", max_agent_steps limits)].

Definition validate_limits (limits : ExecutionLimits) : check :=
  for_each (λ v : string * Z,
    reject? bool_decide (v.2 = 0%Z) with BErr.ZeroLimit v.1 in Ok tt) (limit_values limits).

Definition compare_limits (requested maximum : ExecutionLimits) : check :=
  for_each (λ v : (string * Z) * (string * Z),
    reject? bool_decide (v.2.2 < v.1.2)%Z with BErr.LimitExceeded v.1.1 v.1.2 v.2.2 in Ok tt)
    (zip (limit_values requested) (limit_values maximum)).

(** ** Searches over the edges of a graph *)

Definition outgoing (node : NodeSpec) : list NodeId :=
  match node with
  | Node.Agent agent => [an_next agent]
  | Node.Parallel parallel => pn_branches parallel ++ [pn_join parallel]
  | Node.Gate gate => [gn_on_pass gate; gn_on_fail gate; gn_on_indeterminate gate]
  | Node.Loop loop_node => [ln_on_satisfied loop_node; ln_on_exhausted loop_node]
  | Node.End _ => []
  end.

Definition keys (graph : SchedulerGraph) : list NodeId := (g_nodes graph).*1.

Definition successors (graph : SchedulerGraph) (node_id : NodeId) : option (list NodeId) :=
  outgoing <$> map_get node_id (g_nodes graph).

Definition reachable_from (graph : SchedulerGraph) (start : NodeId) : gset NodeId :=
  default ∅ (reach_loop (successors graph) (push_bound (successors graph) (keys graph)) ∅ [start]).

Definition path_exists (graph : SchedulerGraph) (start target : NodeId) : bool :=
  if bool_decide (start = target) then true
  else default false (path_loop (successors graph) target
                        (push_bound (successors graph) (keys graph)) ∅ [start]).

Definition reject_cycles (graph : SchedulerGraph) (scope : string) : check :=
  match cycle_roots (successors graph) (S (length (keys graph))) (keys graph) ∅ ∅ with
  | Some (Err node_id) => Err (BErr.OrdinaryCycle scope node_id)
  | _ => Ok tt
  end.

(** [recursive_node_count] of a graph, given that of a node. *)
Definition node_count_with (nested : NodeSpec → Z) (graph : SchedulerGraph) : Z :=
  fold_left (λ count e, u32_add count (nested e.2)) (g_nodes graph) (len_u32 (g_nodes graph)).

Fixpoint nested_count (node : NodeSpec) : Z :=
  match node with
  | Node.Loop loop_node => node_count_with nested_count (ln_body loop_node)
  | _ => 0
  end.

Definition recursive_node_count (graph : SchedulerGraph) : Z := node_count_with nested_count graph.

(** [graph_depth], given the depth nested in a node; [None] where the recursion never ends. *)
Definition depth_with (nested : NodeSpec → option Z) (graph : SchedulerGraph) : option Z :=
  let table := (λ e, (e.1, nested e.2)) <$> g_nodes graph in
  fst <$> depth_visit (successors graph) (λ node_id, mjoin (map_get node_id table))
            (S (length (keys graph))) (g_entry graph) ∅.

Fixpoint nested_depth (node : NodeSpec) : option Z :=
  match node with
  | Node.Loop loop_node => depth_with nested_depth (ln_body loop_node)
  | _ => Some 0%Z
  end.

Definition graph_depth (graph : SchedulerGraph) : option Z := depth_with nested_depth graph.

(** ** The validator *)

Section validator.
Context (catalog : SchedulerCatalog) (policy : PolicyEnvelope) (limits : ExecutionLimits).

Definition validate_agent_entry (e : string * AgentCatalogEntry) : check :=
  let? _ := validate_catalog_key "agent" e.1 (ae_id e.2) in
  let? _ := for_each (λ skill,
    reject? negb (contains_key (cat_skills catalog) skill)
      with BErr.InvalidCatalogReference e.1 "skill" skill in Ok tt) (ae_available_skills e.2) in
  for_each (λ tool,
    reject? negb (contains_key (cat_tools catalog) tool)
      with BErr.InvalidCatalogReference e.1 "tool" tool in Ok tt) (ae_available_tools e.2).

Definition validate_skill_entry (e : string * SkillCatalogEntry) : check :=
  let? _ := validate_catalog_key "skill" e.1 (se_id e.2) in
  let? _ := validate_skill_metadata e.1 "summary" (se_summary e.2) MAX_SKILL_SUMMARY_CHARS in
  let? _ := validate_skill_metadata e.1 "fingerprint" (se_content_fingerprint e.2)
              MAX_FINGERPRINT_CHARS in
  for_each (validate_identifier "skill capability tag") (se_capability_tags e.2).

Definition validate_catalog : check :=
  let? _ := match validate_identifier "catalog revision" (cat_revision catalog) with
            | Ok _ => Ok tt
            | Err _ => Err BErr.EmptyCatalogRevision
            end in
  let? _ := for_each validate_agent_entry (cat_agents catalog) in
  let? _ := for_each validate_skill_entry (cat_skills catalog) in
  let? _ := for_each (λ e, validate_catalog_key "tool" e.1 (te_id e.2)) (cat_tools catalog) in
  let? _ := for_each (λ e, validate_catalog_key "evaluator" e.1 (ee_id e.2))
              (cat_evaluators catalog) in
  for_each (λ e, validate_catalog_key "capability" e.1 (ce_id e.2)) (cat_capabilities catalog).

Definition validate_policy_references : check :=
  let? _ := for_each (λ tool,
    reject? negb (contains_key (cat_tools catalog) tool)
      with BErr.InvalidPolicyReference "tool" tool in Ok tt) (pol_allowed_tools policy) in
  for_each (λ capability,
    reject? negb (contains_key (cat_capabilities catalog) capability)
      with BErr.InvalidPolicyReference "capability" capability in Ok tt)
    (pol_allowed_capabilities policy).

Definition require_evaluator (node evaluator : string) : check :=
  reject? negb (contains_key (cat_evaluators catalog) evaluator)
    with BErr.UnknownEvaluator node evaluator in Ok tt.

Definition require_capability (node capability_id : string)
    : result BlueprintValidationError CapabilityCatalogEntry :=
  let? capability := ok_or (map_get capability_id (cat_capabilities catalog))
                       (BErr.UnknownCapability node capability_id) in
  reject? negb (mem capability_id (pol_allowed_capabilities policy))
    with BErr.CapabilityDenied node capability_id in
  reject? negb (mem (ce_effect capability) (pol_allowed_effects policy))
    with BErr.CapabilityEffectDenied node capability_id (Effect.debug (ce_effect capability)) in
  Ok capability.

(** The [Agent] arm of [validate_node]. *)
Definition validate_agent_node (node_path : string) (agent_node : AgentNode) : check :=
  let? agent := ok_or (map_get (an_agent agent_node) (cat_agents catalog))
                  (BErr.UnknownAgent node_path (an_agent agent_node)) in
  let maximum := Z.min (max_agent_steps limits) (ae_max_steps agent) in
  reject? bool_decide (an_max_steps agent_node = 0%Z) || bool_decide (maximum < an_max_steps agent_node)%Z
    with BErr.InvalidAgentSteps node_path (an_max_steps agent_node) maximum in
  let? _ := for_each (λ skill,
    reject? negb (contains_key (cat_skills catalog) skill) with BErr.UnknownSkill node_path skill in
    reject? negb (mem skill (ae_available_skills agent))
      with BErr.SkillUnavailable node_path (ae_id agent) skill in
    Ok tt) (an_skills agent_node) in
  let? _ := for_each (λ tool_id,
    let? tool := ok_or (map_get tool_id (cat_tools catalog)) (BErr.UnknownTool node_path tool_id) in
    reject? negb (mem tool_id (ae_available_tools agent))
      with BErr.ToolUnavailable node_path (ae_id agent) tool_id in
    reject? negb (mem tool_id (pol_allowed_tools policy)) with BErr.ToolDenied node_path tool_id in
    reject? negb (mem (te_effect tool) (pol_allowed_effects policy))
      with BErr.EffectDenied node_path tool_id (Effect.debug (te_effect tool)) in
    Ok tt) (an_tools agent_node) in
  for_each (λ capability,
    reject? negb (mem capability (ae_model_capabilities agent))
      with BErr.ModelCapabilityUnavailable node_path (ae_id agent) (ModelCapability.debug capability) in
    Ok tt) (an_required_model_capabilities agent_node).

(** The [Parallel] arm. *)
Definition validate_parallel_node (graph : SchedulerGraph) (node_path : string)
    (parallel : ParallelNode) : check :=
  let unique := size (list_to_set (pn_branches parallel) : gset NodeId) in
  reject? bool_decide (unique < 2) || negb (bool_decide (unique = length (pn_branches parallel)))
    with BErr.InvalidParallelBranches node_path in
  let maximum := Z.min (max_parallelism limits) (len_u32 (pn_branches parallel)) in
  reject? bool_decide (pn_max_parallelism parallel = 0%Z) ||
          bool_decide (maximum < pn_max_parallelism parallel)%Z
    with BErr.InvalidParallelism node_path (pn_max_parallelism parallel) maximum in
  for_each (λ branch,
    reject? contains_key (g_nodes graph) branch && contains_key (g_nodes graph) (pn_join parallel) &&
            negb (path_exists graph branch (pn_join parallel))
      with BErr.ParallelJoinUnreachable node_path branch (pn_join parallel) in
    Ok tt) (pn_branches parallel).

(** The [Loop] arm, before its body. *)
Definition validate_loop_header {G} (node_path : string) (loop_node : LoopOf G) : check :=
  let? _ := require_evaluator node_path (ln_evaluator loop_node) in
  reject? bool_decide (ln_max_iterations loop_node = 0%Z) ||
          bool_decide (max_loop_iterations limits < ln_max_iterations loop_node)%Z
    with BErr.InvalidLoopIterations node_path (ln_max_iterations loop_node)
           (max_loop_iterations limits) in
  match ln_checkpoint loop_node with
  | None => Ok tt
  | Some capability_id =>
      let? capability := require_capability node_path capability_id in
      reject? negb (bool_decide (ce_kind capability = CapabilityKind.WorkspaceCheckpoint))
        with BErr.InvalidCheckpointCapability node_path capability_id in
      Ok tt
  end.

(** The [End] arm. *)
Definition validate_end_node (graph : SchedulerGraph) (node_path : string) (e : EndNode) : check :=
  match en_result e with
  | Source.LastNode => Ok tt
  | Source.Named source =>
      reject? negb (contains_key (g_nodes graph) source)
        with BErr.InvalidResultSource node_path ("named node '" +:+ source +:+ "' does not exist") in
      Ok tt
  | Source.Artifact capability name =>
      reject? bool_decide (trim name = "")
        with BErr.InvalidResultSource node_path "artifact name is empty" in
      let? resolved := require_capability node_path capability in
      reject? negb (bool_decide (ce_kind resolved = CapabilityKind.ArtifactStore))
        with BErr.InvalidArtifactCapability node_path capability in
      Ok tt
  end.

(** [validate_graph], given [validate_node]. *)
Definition validate_graph_with
    (validate_node : SchedulerGraph → string → NodeId → NodeSpec → check)
    (graph : SchedulerGraph) (scope : string) : check :=
  reject? bool_decide (g_nodes graph = []) with BErr.EmptyGraph scope in
  let? _ := validate_identifier "node" (g_entry graph) in
  reject? negb (contains_key (g_nodes graph) (g_entry graph))
    with BErr.MissingEntry scope (g_entry graph) in
  let? _ := for_each (λ e : NodeId * NodeSpec,
    let? _ := validate_identifier "node" e.1 in
    let? _ := validate_node graph scope e.1 e.2 in
    for_each (λ target,
      reject? negb (contains_key (g_nodes graph) target) with BErr.MissingTarget scope e.1 target in
      Ok tt) (outgoing e.2)) (g_nodes graph) in
  let? _ := reject_cycles graph scope in
  let reachable := reachable_from graph (g_entry graph) in
  let? _ := for_each (λ node_id,
    reject? negb (bool_decide (node_id ∈ reachable)) with BErr.UnreachableNode scope node_id in
    Ok tt) (keys graph) in
  reject? negb (existsb (λ e, match e.2 with Node.End _ => true | _ => false end) (g_nodes graph))
    with BErr.MissingEnd scope in
  Ok tt.

Fixpoint validate_node (graph : SchedulerGraph) (scope : string) (node_id : NodeId) (node : NodeSpec)
    {struct node} : check :=
  let node_path := scope +:+ "/" +:+ node_id in
  match node with
  | Node.Agent agent_node => validate_agent_node node_path agent_node
  | Node.Parallel parallel => validate_parallel_node graph node_path parallel
  | Node.Gate gate => require_evaluator node_path (gn_evaluator gate)
  | Node.Loop loop_node =>
      let? _ := validate_loop_header node_path loop_node in
      validate_graph_with validate_node (ln_body loop_node) (node_path +:+ "/body")
  | Node.End e => validate_end_node graph node_path e
  end.

Definition validate_graph : SchedulerGraph → string → check := validate_graph_with validate_node.
End validator.

(** [Validator::validate]; [None] where the depth recursion would never end. *)
Definition validate (blueprint : SchedulerBlueprint) (catalog : SchedulerCatalog)
    (policy : PolicyEnvelope) : option check :=
  let root := {| g_entry := bp_entry blueprint; g_nodes := bp_nodes blueprint |} in
  let node_count := recursive_node_count root in
  match
    let? _ := validate_identifier "blueprint" (bp_name blueprint) in
    let? _ := validate_catalog catalog in
    let? _ := validate_policy_references catalog policy in
    let? _ := validate_limits (pol_hard_limits policy) in
    let? _ := validate_limits (bp_limits blueprint) in
    let? _ := compare_limits (bp_limits blueprint) (pol_hard_limits policy) in
    let? _ := validate_graph catalog policy (bp_limits blueprint) root "root" in
    reject? bool_decide (max_graph_nodes (bp_limits blueprint) < node_count)%Z
      with BErr.TooManyNodes node_count (max_graph_nodes (bp_limits blueprint)) in
    Ok tt
  with
  | Err e => Some (Err e)
  | Ok _ =>
      depth ← graph_depth root;
      Some (reject? bool_decide (max_graph_depth (bp_limits blueprint) < depth)%Z
              with BErr.GraphTooDeep depth (max_graph_depth (bp_limits blueprint)) in
            Ok tt)
  end.

(** [ValidatedBlueprint::new]: the blueprint with its fingerprint. *)
Definition validated_new {F} (fingerprint : SchedulerBlueprint → result string F)
    (blueprint : SchedulerBlueprint) (catalog : SchedulerCatalog) (policy : PolicyEnvelope)
    : option (result BlueprintValidationError (SchedulerBlueprint * F)) :=
  r ← validate blueprint catalog policy;
  Some (let? _ := r in
        match fingerprint blueprint with
        | Ok f => Ok (blueprint, f)
        | Err message => Err (BErr.Canonicalization message)
        end).
