(* ===== verification/BlueprintSpec.v ===== *)
(** * What a validated blueprint is

    The declarative reading of the validator of Blueprint.v (acyclic graphs whose
    nodes are all reachable, known and permitted references, limits in range, at
    every level of loop bodies), and the theorems that the validator decides it,
    that it always ends, and what its bounds mean. *)

From S2P Require Import Prelude BlueprintGraph Blueprint.

(** ** Maps *)

Lemma map_get_Some_elem {A} key (m : list (string * A)) a : map_get key m = Some a → (key, a) ∈ m.
Proof.
  unfold map_get. intros ([k x]&H&->)%fmap_Some. apply find_first_elem in H as [Hin Hk].
  by apply bool_decide_eq_true in Hk as <-.
Qed.

Lemma map_get_elem {A} key (m : list (string * A)) : is_Some (map_get key m) ↔ key ∈ m.*1.
Proof.
  split.
  - intros [a H%map_get_Some_elem]. by apply (list_elem_of_fmap_2 fst) in H.
  - intros ([k a]&->&Hin)%list_elem_of_fmap. unfold map_get.
    destruct (find_first _ m) eqn:E; [by eexists|].
    apply find_first_None in E. rewrite Forall_forall in E. specialize (E _ Hin). simpl in E.
    by apply bool_decide_eq_false in E.
Qed.

Lemma map_get_NoDup {A} key (m : list (string * A)) a :
  NoDup m.*1 → map_get key m = Some a ↔ (key, a) ∈ m.
Proof.
  intros Hn. split; [apply map_get_Some_elem|]. intros Hin.
  destruct (map_get key m) as [b|] eqn:E.
  - apply map_get_Some_elem in E. f_equal. clear -Hn Hin E.
    induction m as [|[k c] m IH]; [set_solver|]. rewrite fmap_cons in Hn.
    apply NoDup_cons in Hn as [Hk Hn].
    apply elem_of_cons in Hin as [Hin|Hin], E as [E|E]; simplify_eq/=; [done|..].
    + by apply (list_elem_of_fmap_2 fst) in E.
    + by apply (list_elem_of_fmap_2 fst) in Hin.
    + by apply IH.
  - apply (list_elem_of_fmap_2 fst), map_get_elem in Hin as [? Hin]. simpl in Hin. congruence.
Qed.

Lemma contains_key_true {A} (m : list (string * A)) key : contains_key m key = true ↔ is_Some (map_get key m).
Proof. apply bool_decide_eq_true. Qed.

(** Checks in reading order. *)
Lemma check_cons (b : bool) (e : BlueprintValidationError) (k : check) :
  (if b then Err e else k) = Ok tt ↔ b = false ∧ k = Ok tt.
Proof. destruct b; naive_solver. Qed.

Lemma check_bind (c : check) (k : check) : (let? _ := c in k) = Ok tt ↔ c = Ok tt ∧ k = Ok tt.
Proof. destruct c as [[]|]; simpl; naive_solver. Qed.

Lemma check_all {A} (c : A → check) l : for_each c l = Ok tt ↔ ∀ x, x ∈ l → c x = Ok tt.
Proof. by rewrite for_each_Ok, Forall_forall. Qed.

(** ** Searches of one graph *)

Lemma successors_keys g x : is_Some (successors g x) ↔ x ∈ keys g.
Proof. unfold successors. by rewrite fmap_is_Some, map_get_elem. Qed.

Abbreviation g_edge g := (edge (successors g)).
Abbreviation g_edge_in g := (edge_in (successors g)).

Definition acyclic (g : SchedulerGraph) : Prop := ∀ x, ¬ tc (g_edge_in g) x x.

Lemma reachable_from_spec g start x : x ∈ reachable_from g start ↔ rtc (g_edge g) start x.
Proof.
  unfold reachable_from.
  destruct (reach_complete (successors g) (keys g) (successors_keys g) start) as (r&->&H). apply H.
Qed.

Lemma path_exists_spec g start target : path_exists g start target = true ↔ rtc (g_edge g) start target.
Proof.
  unfold path_exists. case_bool_decide as E; [subst; done|].
  destruct (path_complete (successors g) (keys g) (successors_keys g) start target) as (b&->&H); [done|].
  apply H.
Qed.

Lemma reject_cycles_spec g scope :
  match reject_cycles g scope with
  | Ok _ => ∃ l, topo (successors g) l ∧ ∀ x, x ∈ keys g → x ∈ l
  | Err e => ∃ m, e = BErr.OrdinaryCycle scope m ∧ tc (g_edge_in g) m m
  end.
Proof.
  unfold reject_cycles.
  destruct (cycle_complete (successors g) (keys g) (successors_keys g)) as ([r|m]&->&H); [done|eauto].
Qed.

Lemma reject_cycles_acyclic g scope : reject_cycles g scope = Ok tt ↔ acyclic g.
Proof.
  pose proof (reject_cycles_spec g scope) as H.
  destruct (reject_cycles g scope) as [[]|e]; split; try done.
  - intros _ x Hx. destruct H as (l&Ht&Hk). apply (topo_acyclic _ l x Ht); [|done].
    apply Hk, successors_keys. inversion Hx as [? ? [(?&?&_) _]|? ? ? [(?&?&_) _]]; eauto.
  - intros Ha. destruct H as (m&_&Hm). by destruct (Ha m).
Qed.

(** ** The specification *)

Section spec.
Context (catalog : SchedulerCatalog) (policy : PolicyEnvelope) (limits : ExecutionLimits).

Definition identifier_ok (value : string) : Prop :=
  value ≠ "" ∧ trim value = value ∧ String.length value ≤ MAX_IDENTIFIER_LEN.

(** A tool an agent node may use: known, exposed by the agent, and permitted with its effect. *)
Definition tool_ok (agent : AgentCatalogEntry) (tool : string) : Prop :=
  ∃ entry, map_get tool (cat_tools catalog) = Some entry ∧ tool ∈ ae_available_tools agent ∧
    tool ∈ pol_allowed_tools policy ∧ te_effect entry ∈ pol_allowed_effects policy.

Definition agent_ok (a : AgentNode) : Prop :=
  ∃ agent, map_get (an_agent a) (cat_agents catalog) = Some agent ∧
    an_max_steps a ≠ 0%Z ∧ (an_max_steps a ≤ max_agent_steps limits)%Z ∧
    (an_max_steps a ≤ ae_max_steps agent)%Z ∧
    (∀ skill, skill ∈ an_skills a →
       is_Some (map_get skill (cat_skills catalog)) ∧ skill ∈ ae_available_skills agent) ∧
    (∀ tool, tool ∈ an_tools a → tool_ok agent tool) ∧
    (∀ c, c ∈ an_required_model_capabilities a → c ∈ ae_model_capabilities agent).

Definition parallel_ok (g : SchedulerGraph) (p : ParallelNode) : Prop :=
  NoDup (pn_branches p) ∧ 2 ≤ length (pn_branches p) ∧
  pn_max_parallelism p ≠ 0%Z ∧ (pn_max_parallelism p ≤ max_parallelism limits)%Z ∧
  (pn_max_parallelism p ≤ len_u32 (pn_branches p))%Z ∧
  ∀ branch, branch ∈ pn_branches p → branch ∈ keys g → pn_join p ∈ keys g →
    rtc (g_edge g) branch (pn_join p).

Definition capability_ok (id : string) (kind : CapabilityKind) : Prop :=
  ∃ entry, map_get id (cat_capabilities catalog) = Some entry ∧
    id ∈ pol_allowed_capabilities policy ∧ ce_effect entry ∈ pol_allowed_effects policy ∧
    ce_kind entry = kind.

Definition evaluator_ok (id : string) : Prop := is_Some (map_get id (cat_evaluators catalog)).

Definition loop_ok (l : LoopNode) : Prop :=
  evaluator_ok (ln_evaluator l) ∧
  ln_max_iterations l ≠ 0%Z ∧ (ln_max_iterations l ≤ max_loop_iterations limits)%Z ∧
  ∀ id, ln_checkpoint l = Some id → capability_ok id CapabilityKind.WorkspaceCheckpoint.

Definition end_ok (g : SchedulerGraph) (e : EndNode) : Prop :=
  match en_result e with
  | Source.LastNode => True
  | Source.Named source => source ∈ keys g
  | Source.Artifact capability name =>
      trim name ≠ "" ∧ capability_ok capability CapabilityKind.ArtifactStore
  end.

Definition node_ok (g : SchedulerGraph) (n : NodeSpec) : Prop :=
  match n with
  | Node.Agent a => agent_ok a
  | Node.Parallel p => parallel_ok g p
  | Node.Gate gate => evaluator_ok (gn_evaluator gate)
  | Node.Loop l => loop_ok l
  | Node.End e => end_ok g e
  end.

(** The shape of one graph: its entry and the targets of its edges are nodes, every node is
    reached, no edge closes a cycle, and the graph can end. *)
Definition shape_ok (g : SchedulerGraph) : Prop :=
  g_entry g ∈ keys g ∧
  (∀ id n target, (id, n) ∈ g_nodes g → target ∈ outgoing n → target ∈ keys g) ∧
  acyclic g ∧
  (∀ x, x ∈ keys g → rtc (g_edge g) (g_entry g) x) ∧
  (∃ id e, (id, Node.End e) ∈ g_nodes g).

Inductive graph_ok : SchedulerGraph → Prop :=
| graph_ok_intro g :
    shape_ok g →
    (∀ x, x ∈ g_entry g :: keys g → identifier_ok x) →
    (∀ id n, (id, n) ∈ g_nodes g → node_ok g n) →
    (∀ id l, (id, Node.Loop l) ∈ g_nodes g → graph_ok (ln_body l)) →
    graph_ok g.
End spec.

(** Induction on graphs: a property of a graph from that of its loop bodies. *)
Lemma graph_nesting_ind (P : SchedulerGraph → Prop) :
  (∀ g, (∀ id l, (id, Node.Loop l) ∈ g_nodes g → P (ln_body l)) → P g) → ∀ g, P g.
Proof.
  intros H.
  assert (∀ n, match n with Node.Loop l => P (ln_body l) | _ => True end) as Hn.
  { fix IH 1. intros [a|p|gate|l|e]; try exact I. destruct l as [[entry nodes] ev mi cp os oe]. simpl.
    apply H. simpl. clear -IH. induction nodes as [|[id' n] nodes IHn]; intros id l Hin.
    - by apply not_elem_of_nil in Hin.
    - apply elem_of_cons in Hin as [E|Hin]; [|by eapply IHn].
      injection E as _ E. specialize (IH n). rewrite <- E in IH. exact IH. }
  intros g. apply H. intros id l _. exact (Hn (Node.Loop l)).
Qed.

(** ** The validator decides the specification *)

Section decides.
Context (catalog : SchedulerCatalog) (policy : PolicyEnvelope) (limits : ExecutionLimits).

Lemma negb_contains {A} (m : list (string * A)) key : negb (contains_key m key) = false ↔ is_Some (map_get key m).
Proof. by rewrite negb_false_iff, contains_key_true. Qed.

Lemma negb_mem {A} `{EqDecision A} (x : A) l : negb (mem x l) = false ↔ x ∈ l.
Proof. by rewrite negb_false_iff, mem_true. Qed.

Lemma negb_decide P `{Decision P} : negb (bool_decide P) = false ↔ P.
Proof. by rewrite negb_false_iff, bool_decide_eq_true. Qed.

Lemma check_ok_or {A} (o : option A) e (k : A → check) :
  (let? x := ok_or o e in k x) = Ok tt ↔ ∃ x, o = Some x ∧ k x = Ok tt.
Proof. destruct o; simpl; naive_solver. Qed.

Lemma validate_identifier_Ok kind value : validate_identifier kind value = Ok tt ↔ identifier_ok value.
Proof.
  unfold validate_identifier, identifier_ok. cbv zeta.
  rewrite check_cons, !orb_false_iff, negb_decide, !bool_decide_eq_false. split.
  - intros [[[H1 H2] H3] _]. split_and!; [congruence|done|lia].
  - intros (H1&H2&H3). split_and!; [congruence|done|lia|done].
Qed.

Lemma validate_agent_node_Ok path a :
  validate_agent_node catalog policy limits path a = Ok tt ↔ agent_ok catalog policy limits a.
Proof.
  unfold validate_agent_node, agent_ok. rewrite check_ok_or. apply exist_proper; intros agent.
  apply and_iff_compat_l. cbv zeta.
  rewrite check_cons, orb_false_iff, !bool_decide_eq_false, !check_bind, !check_all.
  assert (∀ skill : string,
    (reject? negb (contains_key (cat_skills catalog) skill) with BErr.UnknownSkill path skill in
     reject? negb (mem skill (ae_available_skills agent))
       with BErr.SkillUnavailable path (ae_id agent) skill in Ok tt) = (Ok tt : check) ↔
    is_Some (map_get skill (cat_skills catalog)) ∧ skill ∈ ae_available_skills agent) as Hs.
  { intros skill. rewrite !check_cons, negb_contains, negb_mem. tauto. }
  setoid_rewrite Hs. setoid_rewrite check_ok_or. unfold tool_ok.
  repeat setoid_rewrite check_cons. setoid_rewrite negb_mem. split.
  - intros ([H1 H2]&H3&H4&H5). split_and!; [done|lia|lia|done| |].
    + intros tool Ht. destruct (H4 tool Ht) as (t&?&?&?&?&_). by exists t.
    + intros c Hc. by destruct (H5 c Hc).
  - intros (H1&H2&H3&H4&H5&H6). split_and!; [done|lia|done| |].
    + intros tool Ht. destruct (H5 tool Ht) as (t&?&?&?&?). by exists t.
    + intros c Hc. split; [by apply H6|done].
Qed.

Lemma size_unique (l : list NodeId) : size (list_to_set l : gset NodeId) = length l ↔ NoDup l.
Proof.
  split; [|intros; by apply size_list_to_set].
  induction l as [|x l IH]; [constructor|]. simpl. rewrite size_union_alt, size_singleton.
  assert (∀ k, size (list_to_set k : gset NodeId) ≤ length k) as Hle.
  { clear. induction k as [|x k IH]; simpl; [done|]. rewrite size_union_alt, size_singleton.
    assert (size (list_to_set k ∖ {[x]} : gset NodeId) ≤ size (list_to_set k : gset NodeId)); [|lia].
    apply subseteq_size. set_solver. }
  specialize (Hle l). intros E.
  assert (size (list_to_set l ∖ {[x]} : gset NodeId) ≤ size (list_to_set l : gset NodeId)) as Hs
    by (apply subseteq_size; set_solver).
  destruct (decide (x ∈ l)) as [Hx|Hx].
  - exfalso. assert (size (list_to_set l ∖ {[x]} : gset NodeId) < size (list_to_set l : gset NodeId)); [|lia].
    apply subset_size. set_solver.
  - constructor; [done|]. apply IH. lia.
Qed.

Lemma validate_parallel_node_Ok g path p :
  validate_parallel_node limits g path p = Ok tt ↔ parallel_ok limits g p.
Proof.
  unfold validate_parallel_node, parallel_ok. cbv zeta.
  rewrite !check_cons, !orb_false_iff, negb_decide, !bool_decide_eq_false, check_all, size_unique.
  setoid_rewrite check_cons. setoid_rewrite andb_false_iff. setoid_rewrite andb_false_iff.
  setoid_rewrite negb_false_iff. setoid_rewrite path_exists_spec.
  split.
  - intros ([H1 H2]&[H3 H4]&H5). split_and!; [done| |done|lia|lia|].
    + rewrite <- (proj2 (size_unique (pn_branches p)) H2). lia.
    + intros b Hb Hk Hj. destruct (H5 b Hb) as [[[H|H]|H] _]; [..|done]; exfalso.
      * apply map_get_elem in Hk. apply contains_key_true in Hk. congruence.
      * apply map_get_elem in Hj. apply contains_key_true in Hj. congruence.
  - intros (H1&H2&H3&H4&H5&H6). split_and!; [|done|done|lia|].
    + rewrite (proj2 (size_unique _) H1). lia.
    + intros b Hb. split; [|done]. specialize (H6 b Hb).
      destruct (contains_key (g_nodes g) b) eqn:E1; [|tauto].
      destruct (contains_key (g_nodes g) (pn_join p)) eqn:E2; [|tauto].
      apply contains_key_true, map_get_elem in E1, E2. right. by apply H6.
Qed.

Lemma require_evaluator_Ok path ev : require_evaluator catalog path ev = Ok tt ↔ evaluator_ok catalog ev.
Proof. unfold require_evaluator. rewrite check_cons, negb_contains. unfold evaluator_ok. tauto. Qed.

Lemma require_capability_Ok path id kind (e : CapabilityCatalogEntry → BlueprintValidationError) :
  (let? c := require_capability catalog policy path id in
   reject? negb (bool_decide (ce_kind c = kind)) with e c in Ok tt) = Ok tt ↔
  capability_ok catalog policy id kind.
Proof.
  unfold require_capability, capability_ok. destruct (map_get id _) as [c|]; simpl; [|naive_solver].
  destruct (mem id _) eqn:E1; simpl.
  - apply mem_true in E1. destruct (mem (ce_effect c) _) eqn:E2; simpl.
    + apply mem_true in E2. rewrite check_cons, negb_decide. naive_solver.
    + apply mem_false in E2. naive_solver.
  - apply mem_false in E1. naive_solver.
Qed.

Lemma validate_loop_header_Ok path (l : LoopNode) :
  validate_loop_header catalog policy limits path l = Ok tt ↔ loop_ok catalog policy limits l.
Proof.
  unfold validate_loop_header, loop_ok.
  rewrite check_bind, check_cons, require_evaluator_Ok, orb_false_iff, !bool_decide_eq_false.
  destruct (ln_checkpoint l) as [id|].
  - rewrite (require_capability_Ok path id). split; [intros (?&[? ?]&?)|intros (?&?&?&Hc)].
    + split_and!; [done..|lia|]. by intros ? [= <-].
    + split_and!; [done..|lia|]. by apply Hc.
  - split; [intros (?&[? ?]&_)|intros (?&?&?&_)]; split_and!; try done; lia.
Qed.

Lemma validate_end_node_Ok g path e :
  validate_end_node catalog policy g path e = Ok tt ↔ end_ok catalog policy g e.
Proof.
  unfold validate_end_node, end_ok. destruct (en_result e) as [|source|capability name].
  - done.
  - rewrite check_cons, negb_contains, map_get_elem. unfold keys. tauto.
  - rewrite check_cons, bool_decide_eq_false, (require_capability_Ok path capability). done.
Qed.

Lemma has_end (nodes : list (NodeId * NodeSpec)) :
  existsb (λ e, match e.2 with Node.End _ => true | _ => false end) nodes = true ↔
  ∃ id e, (id, Node.End e) ∈ nodes.
Proof.
  rewrite existsb_exists. setoid_rewrite <- list_elem_of_In. split.
  - intros ([id n]&Hin&Hn). simpl in Hn. destruct n; try done. eauto.
  - intros (id&e&Hin). exists (id, Node.End e). done.
Qed.

(** The checks of one graph, around those of its nodes. *)
Lemma validate_graph_with_Ok vn g scope :
  validate_graph_with vn g scope = Ok tt ↔
  shape_ok g ∧ (∀ x, x ∈ g_entry g :: keys g → identifier_ok x) ∧
  (∀ id n, (id, n) ∈ g_nodes g → vn g scope id n = Ok tt).
Proof.
  unfold validate_graph_with, shape_ok. cbv zeta.
  rewrite check_cons, bool_decide_eq_false, check_bind, check_cons, !check_bind, check_cons, !check_all.
  rewrite validate_identifier_Ok, negb_contains, map_get_elem, reject_cycles_acyclic,
    negb_false_iff, has_end.
  setoid_rewrite check_bind. setoid_rewrite check_bind. setoid_rewrite validate_identifier_Ok.
  setoid_rewrite check_all.
  setoid_rewrite check_cons. setoid_rewrite negb_contains. setoid_rewrite map_get_elem.
  setoid_rewrite negb_decide. setoid_rewrite reachable_from_spec.
  split.
  - intros (Hne&Hid&Hentry&Hnodes&Hac&Hreach&Hend&_). split_and!; [done| |done|naive_solver|done| |].
    + intros id n t Hin Ht. by apply (proj2 (proj2 (Hnodes (id, n) Hin))).
    + intros x [->|Hx]%elem_of_cons; [done|].
      apply list_elem_of_fmap in Hx as ([id n]&->&Hin). apply (Hnodes _ Hin).
    + intros id n Hin. apply (Hnodes (id, n) Hin).
  - intros ((Hentry&Ht&Hac&Hreach&Hend)&Hid&Hvn). split_and!; [|by apply Hid; left|done| |done| |done..].
    + intros E. unfold keys in Hentry. rewrite E in Hentry. by apply not_elem_of_nil in Hentry.
    + intros [id n] Hin. split_and!; [|by apply Hvn|].
      * apply Hid. right. by apply (list_elem_of_fmap_2 fst) in Hin.
      * intros t Hto. split; [by eapply Ht|done].
    + intros x Hx. split; [by apply Hreach|done].
Qed.

Lemma validate_node_Ok g scope id n :
  validate_node catalog policy limits g scope id n = Ok tt ↔
  node_ok catalog policy limits g n ∧
  match n with
  | Node.Loop l => validate_graph catalog policy limits (ln_body l) (scope +:+ "/" +:+ id +:+ "/body") = Ok tt
  | _ => True
  end.
Proof.
  destruct n as [a|p|gate|l|e]; cbn [validate_node node_ok].
  - rewrite validate_agent_node_Ok. tauto.
  - rewrite validate_parallel_node_Ok. tauto.
  - rewrite require_evaluator_Ok. tauto.
  - rewrite check_bind, validate_loop_header_Ok. by rewrite !str_app_assoc.
  - rewrite validate_end_node_Ok. tauto.
Qed.

Lemma validate_graph_Ok g scope :
  validate_graph catalog policy limits g scope = Ok tt ↔ graph_ok catalog policy limits g.
Proof.
  revert scope. induction g as [g IH] using graph_nesting_ind. intros scope.
  unfold validate_graph. rewrite validate_graph_with_Ok. setoid_rewrite validate_node_Ok. split.
  - intros (Hs&Hid&Hn). constructor; [done|done|by intros id n Hin; apply (Hn id n)|].
    intros id l Hin. apply (IH id l Hin (scope +:+ "/" +:+ id +:+ "/body")). apply (Hn _ _ Hin).
  - inversion 1 as [? Hs Hid Hn Hl]; subst. split_and!; [done..|].
    intros id n Hin. split; [by eapply Hn|]. destruct n; try done. eapply IH; [done|]. by eapply Hl.
Qed.
End decides.

(** ** Sizes *)

(** The nodes of a graph and of all bodies inside it, given those inside a node. *)
Definition total_with (nested : NodeSpec → Z) (g : SchedulerGraph) : Z :=
  foldr (λ e acc, 1 + nested e.2 + acc)%Z 0%Z (g_nodes g).

Fixpoint nested_total (n : NodeSpec) : Z :=
  match n with Node.Loop l => total_with nested_total (ln_body l) | _ => 0 end.

Definition total_nodes (g : SchedulerGraph) : Z := total_with nested_total g.

(** The keys of a map are distinct, in a graph and in the bodies of its loops. *)
Inductive distinct_keys : SchedulerGraph → Prop :=
| distinct_keys_intro g :
    NoDup (keys g) → (∀ id l, (id, Node.Loop l) ∈ g_nodes g → distinct_keys (ln_body l)) →
    distinct_keys g.

(** Walks that also walk once through the bodies of the loops they meet, and how many nodes they
    visit: what one pass over a blueprint may execute. *)
Inductive deep_walk : SchedulerGraph → NodeId → Z → Prop :=
| deep_stop g x : deep_walk g x 0
| deep_last g x node n :
    map_get x (g_nodes g) = Some node → deep_inside node n → deep_walk g x (1 + n)
| deep_step g x node n y m :
    map_get x (g_nodes g) = Some node → deep_inside node n →
    y ∈ outgoing node → deep_walk g y m → deep_walk g x (1 + n + m)
with deep_inside : NodeSpec → Z → Prop :=
| inside_none node : deep_inside node 0
| inside_loop l n :
    deep_walk (ln_body l) (g_entry (ln_body l)) n → deep_inside (Node.Loop l) n.

Lemma foldr_total_bounds (f : NodeSpec → Z) (nodes : list (NodeId * NodeSpec)) :
  (∀ id n, (id, n) ∈ nodes → 0 ≤ f n)%Z →
  (Z.of_nat (length nodes) ≤ foldr (λ e acc, 1 + f e.2 + acc) 0 nodes)%Z ∧
  ∀ id n, (id, n) ∈ nodes → (f n < foldr (λ e acc, 1 + f e.2 + acc) 0 nodes)%Z.
Proof.
  induction nodes as [|[id n] nodes IH]; intros Hf; simpl; [split; [lia|set_solver]|].
  destruct IH as [IH1 IH2]; [intros; eapply Hf; by right|].
  pose proof (Hf id n ltac:(by left)). split; [lia|].
  intros id' n' [E|Hin]%elem_of_cons; [simplify_eq; lia|]. specialize (IH2 _ _ Hin). lia.
Qed.

Lemma total_nodes_nonneg g : (0 ≤ total_nodes g)%Z.
Proof.
  induction g as [g IH] using graph_nesting_ind.
  destruct (foldr_total_bounds nested_total (g_nodes g)) as [H _]; [|unfold total_nodes, total_with; lia].
  intros id n Hin. destruct n; simpl; try lia. by eapply IH.
Qed.

Lemma nested_total_nonneg n : (0 ≤ nested_total n)%Z.
Proof. destruct n; simpl; try lia. apply total_nodes_nonneg. Qed.

Lemma nested_total_lt g id n : (id, n) ∈ g_nodes g → (nested_total n < total_nodes g)%Z.
Proof. intros. eapply foldr_total_bounds; [|done]. intros. apply nested_total_nonneg. Qed.

Lemma fold_count (nested : NodeSpec → Z) (nodes : list (NodeId * NodeSpec)) acc :
  (∀ id n, (id, n) ∈ nodes → nested n = nested_total n) → (0 ≤ acc)%Z →
  (acc + foldr (λ e acc, nested_total e.2 + acc) 0 nodes < 2 ^ 32)%Z →
  fold_left (λ count e, u32_add count (nested e.2)) nodes acc =
  (acc + foldr (λ e acc, nested_total e.2 + acc) 0 nodes)%Z.
Proof.
  revert acc. induction nodes as [|[id n] nodes IH]; intros acc Hn Ha Hb; simpl; [lia|].
  simpl in Hb. rewrite (Hn id n) by by left. pose proof (nested_total_nonneg n).
  assert (0 ≤ foldr (λ e acc, nested_total e.2 + acc) 0 nodes)%Z.
  { clear. induction nodes as [|[id n] nodes IH]; simpl; [lia|]. pose proof (nested_total_nonneg n). lia. }
  unfold u32_add at 2. rewrite Z.mod_small by lia.
  rewrite IH; [lia| |lia..]. intros id' n' Hin. apply (Hn id'). by right.
Qed.

(** [recursive_node_count] counts every node, as long as 32 bits hold the count. *)
Lemma recursive_node_count_total g :
  (total_nodes g < 2 ^ 32)%Z → recursive_node_count g = total_nodes g.
Proof.
  induction g as [g IH] using graph_nesting_ind. intros Hb.
  assert (∀ l : list (NodeId * NodeSpec), foldr (λ e acc, 1 + nested_total e.2 + acc) 0 l =
            Z.of_nat (length l) + foldr (λ e acc, nested_total e.2 + acc) 0 l)%Z as Hsplit.
  { induction l as [|e l IHl]; cbn [foldr length]; lia. }
  assert (0 ≤ foldr (λ e acc, nested_total e.2 + acc) 0 (g_nodes g))%Z.
  { generalize (g_nodes g). induction l as [|[id n] l IHl]; simpl; [lia|].
    pose proof (nested_total_nonneg n). lia. }
  assert (total_nodes g = Z.of_nat (length (g_nodes g)) +
            foldr (λ e acc, nested_total e.2 + acc) 0 (g_nodes g))%Z as Ht.
  { unfold total_nodes, total_with. by rewrite Hsplit. }
  unfold recursive_node_count, node_count_with, len_u32. rewrite Z.mod_small by lia.
  rewrite fold_count; [by rewrite Ht| |lia|lia].
  intros id n Hin. destruct n; try done. apply (IH _ _ Hin).
  pose proof (nested_total_lt _ _ _ Hin) as Hlt. cbn [nested_total] in Hlt. unfold total_nodes in *. lia.
Qed.

(** ** Depth *)

Lemma map_get_fmap {A B} (f : A → B) key (m : list (string * A)) :
  map_get key ((λ e, (e.1, f e.2)) <$> m) = f <$> map_get key m.
Proof.
  unfold map_get. induction m as [|[k a] m IH]; [done|]. cbn [fmap list_fmap find_first fst].
  case_bool_decide; [done|]. apply IH.
Qed.

(** The nested depth of each node of a graph, as [graph_depth] reads it. *)
Definition nested_at (g : SchedulerGraph) (x : NodeId) : option Z :=
  mjoin (map_get x ((λ e, (e.1, nested_depth e.2)) <$> g_nodes g)).

Lemma nested_at_node g x node : map_get x (g_nodes g) = Some node → nested_at g x = nested_depth node.
Proof. intros Hx. unfold nested_at. by rewrite map_get_fmap, Hx. Qed.

(** What the depth of a graph is. *)
Definition depth_spec (g : SchedulerGraph) (d : Z) : Prop :=
  graph_depth g = Some d ∧ (0 ≤ d ≤ total_nodes g)%Z ∧ deep_walk g (g_entry g) d ∧
  ∀ n, deep_walk g (g_entry g) n → (n ≤ d)%Z.

Section depth.
Context (g : SchedulerGraph).
Context (Hdistinct : NoDup (keys g)) (Hsmall : (total_nodes g < 2 ^ 32)%Z).
Context (Hbody : ∀ id l, (id, Node.Loop l) ∈ g_nodes g → ∃ d, depth_spec (ln_body l) d).

Lemma nested_known id node : (id, node) ∈ g_nodes g →
  ∃ n, nested_depth node = Some n ∧ (0 ≤ n ≤ nested_total node)%Z ∧ deep_inside node n ∧
    ∀ m, deep_inside node m → (m ≤ n)%Z.
Proof.
  intros Hin. destruct node as [a|p|gate|l|e];
    try (exists 0%Z; split_and!; [done..|constructor|by inversion 1]).
  destruct (Hbody id l Hin) as (d&Hd&Hr&Hw&Hmax). exists d. split_and!; [done|apply Hr..|by constructor|].
  inversion 1; subst; [lia|by apply Hmax].
Qed.

Lemma nested_at_known x : x ∈ keys g → ∃ n, nested_at g x = Some n ∧ (0 ≤ n)%Z.
Proof.
  intros [node Hx]%map_get_elem. rewrite (nested_at_node _ _ _ Hx).
  apply map_get_Some_elem in Hx. destruct (nested_known _ _ Hx) as (n&?&?&_). exists n. split; [done|lia].
Qed.

Abbreviation g_weight := (weight (nested_at g)).

Lemma weight_total : (g_weight (keys g) ≤ total_nodes g)%Z.
Proof.
  unfold total_nodes, total_with, keys.
  assert (∀ l, l ⊆ g_nodes g →
    (g_weight l.*1 ≤ foldr (λ e acc, 1 + nested_total e.2 + acc) 0 l)%Z) as H; [|by apply H].
  induction l as [|[id node] l IH]; intros Hl; [done|]. cbn [fmap list_fmap weight foldr fst snd].
  specialize (IH ltac:(set_solver)).
  assert ((id, node) ∈ g_nodes g) as Hin by (apply Hl; by left).
  destruct (nested_known _ _ Hin) as (n&Hn&?&_). unfold node_weight.
  rewrite (nested_at_node g id node), Hn by by apply map_get_NoDup. simpl.
  change (fst <$> l) with l.*1. lia.
Qed.

Lemma walk_deep x p : walk (successors g) x p → deep_walk g x (g_weight p).
Proof.
  assert (∀ x, is_Some (successors g x) → ∃ node, map_get x (g_nodes g) = Some node ∧
    deep_inside node (default 0%Z (nested_at g x))) as Hnode.
  { intros y [ts (node&Hy&_)%fmap_Some]. exists node. split; [done|].
    rewrite (nested_at_node _ _ _ Hy). apply map_get_Some_elem in Hy.
    by destruct (nested_known _ _ Hy) as (n&->&_&?&_). }
  induction 1 as [x|x Hx|x y p He Hw IH]; simpl; [constructor|..].
  - destruct (Hnode x Hx) as (node&Hget&Hins). rewrite Z.add_0_r. by eapply deep_last.
  - destruct He as (ts&Hts&Hy). destruct (Hnode x ltac:(eauto)) as (node&Hget&Hins).
    eapply deep_step; [done..| |done]. unfold successors in Hts. rewrite Hget in Hts. simpl in Hts. by simplify_eq.
Qed.

Lemma deep_walk_weight x n : deep_walk g x n → ∃ p, walk (successors g) x p ∧ (n ≤ g_weight p)%Z.
Proof.
  assert (∀ x node n, map_get x (g_nodes g) = Some node → deep_inside node n →
    (n ≤ default 0 (nested_at g x))%Z) as Hle.
  { intros y node m Hy Hm. rewrite (nested_at_node _ _ _ Hy). apply map_get_Some_elem in Hy.
    destruct (nested_known _ _ Hy) as (k&->&_&_&Hk). by apply Hk. }
  remember g as g' eqn:Eg. induction 1 as [g'' x|g'' x node n Hx Hn|g'' x node n y m Hx Hn Hy Hm IH]; subst g''.
  - exists []. split; [constructor|done].
  - exists [x]. split; [constructor; apply successors_keys, map_get_elem; by rewrite Hx|].
    simpl. unfold node_weight. specialize (Hle _ _ _ Hx Hn). lia.
  - destruct IH as (p&Hp&Hw); [done..|]. exists (x :: p). split.
    + econstructor; [|done]. exists (outgoing node). split; [|done]. unfold successors. by rewrite Hx.
    + simpl. unfold node_weight. specialize (Hle _ _ _ Hx Hn). lia.
Qed.

Lemma graph_depth_level : acyclic g → ∃ d, depth_spec g d.
Proof.
  intros Ha. pose proof (reject_cycles_spec g "") as Hc.
  rewrite (proj2 (reject_cycles_acyclic g "") Ha) in Hc. destruct Hc as (l&Ht&Hk).
  pose proof (successors_keys g) as Hs.
  pose proof nested_at_known as Hn.
  assert (∀ x p, walk (successors g) x p → (g_weight p ≤ total_nodes g)%Z) as Hb.
  { intros x p Hp. etrans; [by eapply (walk_weight _ _ Hs _ Hn)|apply weight_total]. }
  assert (∀ x p, walk (successors g) x p → (g_weight p < 2 ^ 32)%Z) as Hb'.
  { intros x p Hp. specialize (Hb x p Hp). lia. }
  destruct (depth_visit_total _ _ Hs (nested_at g) Hn Hb' l (S (length (keys g))) (g_entry g) ∅)
    as [[d memo] Hd]; [done| |pose proof (topo_length _ _ Hs l Ht); lia|].
  { destruct (successors g (g_entry g)) eqn:E; [right|by left]. apply Hk, Hs. by rewrite E. }
  pose proof Hd as Hg. apply (depth_visit_spec _ _ Hs _ Hn Hb') in Hg as [_ [Hmax (p&Hp&Hw)]]; [|done].
  exists d. split_and!.
  - unfold graph_depth, depth_with. fold (nested_at g). by rewrite Hd.
  - apply (Hmax []). constructor.
  - rewrite <- Hw. by eapply Hb.
  - rewrite <- Hw. by apply walk_deep.
  - intros n (q&Hq&Hn')%deep_walk_weight. specialize (Hmax q Hq). lia.
Qed.
End depth.

(** On acyclic graphs, bodies included, [graph_depth] ends with the greatest walk. *)
Lemma graph_depth_spec catalog policy limits g :
  graph_ok catalog policy limits g → distinct_keys g → (total_nodes g < 2 ^ 32)%Z →
  ∃ d, depth_spec g d.
Proof.
  induction g as [g IH] using graph_nesting_ind. intros Hok Hd Hs.
  inversion Hok as [? (_&_&Ha&_) _ _ Hbodies]; subst. inversion Hd as [? Hn Hdb]; subst.
  apply graph_depth_level; [done..| |done]. intros id l Hin.
  eapply IH; [done|by eapply Hbodies|by eapply Hdb|].
  pose proof (nested_total_lt _ _ _ Hin) as Hlt. cbn [nested_total] in Hlt. unfold total_nodes in *. lia.
Qed.
