(* ===== verification/BlueprintProps.v ===== *)
(** * Properties of blueprint validation

    The whole validator against its specification: it ends, it accepts exactly the
    blueprints of the specification, and what an accepted blueprint may name and
    spend stays inside the policy envelope. *)

From S2P Require Import Prelude BlueprintGraph Blueprint BlueprintSpec.

(** ** The specification of a blueprint *)

Definition entry_ok (key id : string) : Prop := identifier_ok key ∧ key = id.

Definition metadata_ok (value : string) (maximum : nat) : Prop :=
  value ≠ "" ∧ trim value = value ∧ length (chars value) ≤ maximum.

Definition catalog_ok (c : SchedulerCatalog) : Prop :=
  identifier_ok (cat_revision c) ∧
  (∀ key e, (key, e) ∈ cat_agents c → entry_ok key (ae_id e) ∧
     (∀ s, s ∈ ae_available_skills e → is_Some (map_get s (cat_skills c))) ∧
     (∀ t, t ∈ ae_available_tools e → is_Some (map_get t (cat_tools c)))) ∧
  (∀ key e, (key, e) ∈ cat_skills c → entry_ok key (se_id e) ∧
     metadata_ok (se_summary e) MAX_SKILL_SUMMARY_CHARS ∧
     metadata_ok (se_content_fingerprint e) MAX_FINGERPRINT_CHARS ∧
     (∀ t, t ∈ se_capability_tags e → identifier_ok t)) ∧
  (∀ key e, (key, e) ∈ cat_tools c → entry_ok key (te_id e)) ∧
  (∀ key e, (key, e) ∈ cat_evaluators c → entry_ok key (ee_id e)) ∧
  (∀ key e, (key, e) ∈ cat_capabilities c → entry_ok key (ce_id e)).

Definition policy_ok (c : SchedulerCatalog) (p : PolicyEnvelope) : Prop :=
  (∀ t, t ∈ pol_allowed_tools p → is_Some (map_get t (cat_tools c))) ∧
  (∀ x, x ∈ pol_allowed_capabilities p → is_Some (map_get x (cat_capabilities c))).

Definition limits_ok (l : ExecutionLimits) : Prop :=
  max_model_calls l ≠ 0%Z ∧ max_tool_calls l ≠ 0%Z ∧ max_total_tokens l ≠ 0%Z ∧
  max_wall_time_ms l ≠ 0%Z ∧ max_parallelism l ≠ 0%Z ∧ max_graph_nodes l ≠ 0%Z ∧
  max_graph_depth l ≠ 0%Z ∧ max_loop_iterations l ≠ 0%Z ∧ max_agent_steps l ≠ 0%Z.

Definition limits_within (l h : ExecutionLimits) : Prop :=
  (max_model_calls l ≤ max_model_calls h ∧ max_tool_calls l ≤ max_tool_calls h ∧
   max_total_tokens l ≤ max_total_tokens h ∧ max_wall_time_ms l ≤ max_wall_time_ms h ∧
   max_parallelism l ≤ max_parallelism h ∧ max_graph_nodes l ≤ max_graph_nodes h ∧
   max_graph_depth l ≤ max_graph_depth h ∧ max_loop_iterations l ≤ max_loop_iterations h ∧
   max_agent_steps l ≤ max_agent_steps h)%Z.

(** The root graph of a blueprint. *)
Definition root (b : SchedulerBlueprint) : SchedulerGraph :=
  {| g_entry := bp_entry b; g_nodes := bp_nodes b |}.

(** What holds of every blueprint a program can build: its maps have distinct keys, and its nodes
    fit a 32-bit count. *)
Definition representable (b : SchedulerBlueprint) : Prop :=
  distinct_keys (root b) ∧ (total_nodes (root b) < 2 ^ 32)%Z.

Definition blueprint_ok (b : SchedulerBlueprint) (c : SchedulerCatalog) (p : PolicyEnvelope) : Prop :=
  identifier_ok (bp_name b) ∧ catalog_ok c ∧ policy_ok c p ∧
  limits_ok (pol_hard_limits p) ∧ limits_ok (bp_limits b) ∧
  limits_within (bp_limits b) (pol_hard_limits p) ∧
  graph_ok c p (bp_limits b) (root b) ∧
  (total_nodes (root b) ≤ max_graph_nodes (bp_limits b))%Z ∧
  (∀ n, deep_walk (root b) (bp_entry b) n → (n ≤ max_graph_depth (bp_limits b))%Z).

(** The nodes of a graph and of the bodies inside it. *)
Inductive node_in : SchedulerGraph → SchedulerGraph → NodeSpec → Prop :=
| node_here g id n : (id, n) ∈ g_nodes g → node_in g g n
| node_nested g id l h n : (id, Node.Loop l) ∈ g_nodes g → node_in (ln_body l) h n → node_in g h n.

(** ** Lemmas *)

Lemma validate_catalog_key_Ok kind key id : validate_catalog_key kind key id = Ok tt ↔ entry_ok key id.
Proof.
  unfold validate_catalog_key, entry_ok.
  rewrite !check_bind, !validate_identifier_Ok, check_cons, negb_decide. naive_solver.
Qed.

Lemma validate_skill_metadata_Ok skill field value maximum :
  validate_skill_metadata skill field value maximum = Ok tt ↔ metadata_ok value maximum.
Proof.
  unfold validate_skill_metadata, metadata_ok.
  rewrite check_cons, !orb_false_iff, negb_decide, !bool_decide_eq_false. split.
  - intros [[[H1 H2] H3] _]. split_and!; [done|done|lia].
  - intros (H1&H2&H3). split_and!; [done|done|lia|done].
Qed.

(** A check of every entry of a map. *)
Lemma check_entries {A} (m : list (string * A)) (c : string * A → check) (P : string → A → Prop) :
  (∀ key a, c (key, a) = Ok tt ↔ P key a) → for_each c m = Ok tt ↔ ∀ key a, (key, a) ∈ m → P key a.
Proof.
  intros H. rewrite check_all. split; [intros Hc key a Hin; by apply H, Hc|].
  intros Hc [key a] Hin. by apply H, Hc.
Qed.

Lemma check_references {A} (m : list (string * A)) (e : string → BlueprintValidationError) refs :
  for_each (λ x, reject? negb (contains_key m x) with e x in Ok tt) refs = Ok tt ↔
  ∀ x, x ∈ refs → is_Some (map_get x m).
Proof. rewrite check_all. setoid_rewrite check_cons. setoid_rewrite negb_contains. naive_solver. Qed.

Lemma validate_catalog_Ok c : validate_catalog c = Ok tt ↔ catalog_ok c.
Proof.
  unfold validate_catalog, catalog_ok. rewrite !check_bind.
  rewrite (check_entries (cat_agents c) _ (λ key e, entry_ok key (ae_id e) ∧
     (∀ s, s ∈ ae_available_skills e → is_Some (map_get s (cat_skills c))) ∧
     (∀ t, t ∈ ae_available_tools e → is_Some (map_get t (cat_tools c))))).
  2: { intros key e. unfold validate_agent_entry.
       by rewrite !check_bind, validate_catalog_key_Ok, !check_references. }
  rewrite (check_entries (cat_skills c) _ (λ key e, entry_ok key (se_id e) ∧
     metadata_ok (se_summary e) MAX_SKILL_SUMMARY_CHARS ∧
     metadata_ok (se_content_fingerprint e) MAX_FINGERPRINT_CHARS ∧
     (∀ t, t ∈ se_capability_tags e → identifier_ok t))).
  2: { intros key e. unfold validate_skill_entry.
       rewrite !check_bind, validate_catalog_key_Ok, !validate_skill_metadata_Ok, check_all.
       by setoid_rewrite validate_identifier_Ok. }
  rewrite (check_entries (cat_tools c) _ (λ key e, entry_ok key (te_id e))),
    (check_entries (cat_evaluators c) _ (λ key e, entry_ok key (ee_id e))),
    (check_entries (cat_capabilities c) _ (λ key e, entry_ok key (ce_id e)))
    by (intros; apply validate_catalog_key_Ok).
  rewrite <- (validate_identifier_Ok "catalog revision").
  destruct (validate_identifier _ _) as [[]|]; naive_solver.
Qed.

Lemma validate_policy_references_Ok c p : validate_policy_references c p = Ok tt ↔ policy_ok c p.
Proof. unfold validate_policy_references, policy_ok. by rewrite check_bind, !check_references. Qed.

Lemma validate_limits_Ok l : validate_limits l = Ok tt ↔ limits_ok l.
Proof.
  unfold validate_limits, limits_ok. simpl.
  rewrite !check_bind, !check_cons, !bool_decide_eq_false. tauto.
Qed.

Lemma compare_limits_Ok l h : compare_limits l h = Ok tt ↔ limits_within l h.
Proof.
  unfold compare_limits, limits_within. simpl.
  rewrite !check_bind, !check_cons, !bool_decide_eq_false, !Z.nlt_ge. tauto.
Qed.

(** Where a node of a valid graph is, and that it is valid there. *)
Lemma graph_ok_node_in c p limits g h n :
  graph_ok c p limits g → node_in g h n → node_ok c p limits h n.
Proof.
  intros Hg Hn. revert Hg. induction Hn as [g id n Hin|g id l h n Hin _ IH]; intros Hg;
    inversion Hg as [? _ _ Hok Hbodies]; subst; [by eapply Hok|by eapply IH, Hbodies].
Qed.

Lemma validate_spec b c p : representable b →
  ∃ r, validate b c p = Some r ∧ (r = Ok tt ↔ blueprint_ok b c p).
Proof.
  intros [Hd Hs]. unfold validate, blueprint_ok. fold (root b).
  set (pre := rbind _ _). assert (pre = Ok tt ↔
    identifier_ok (bp_name b) ∧ catalog_ok c ∧ policy_ok c p ∧ limits_ok (pol_hard_limits p) ∧
    limits_ok (bp_limits b) ∧ limits_within (bp_limits b) (pol_hard_limits p) ∧
    graph_ok c p (bp_limits b) (root b) ∧
    (total_nodes (root b) ≤ max_graph_nodes (bp_limits b))%Z) as Hpre.
  { subst pre. rewrite !check_bind, check_cons, bool_decide_eq_false, Z.nlt_ge.
    rewrite validate_identifier_Ok, validate_catalog_Ok, validate_policy_references_Ok,
      !validate_limits_Ok, compare_limits_Ok, validate_graph_Ok.
    rewrite recursive_node_count_total by done. tauto. }
  destruct pre as [[]|e].
  - destruct (proj1 Hpre eq_refl) as (H1&H2&H3&H4&H5&H6&H7&H8).
    destruct (graph_depth_spec _ _ _ _ H7 Hd Hs) as (d&Hdepth&_&Hwalk&Hmax). rewrite Hdepth. simpl.
    eexists. split; [done|]. rewrite check_cons, bool_decide_eq_false, Z.nlt_ge. split.
    + intros [Hle _]. split_and!; try done. intros n Hn. etrans; [by apply Hmax|done].
    + intros (_&_&_&_&_&_&_&_&Hn). split; [|done]. by apply Hn.
  - exists (Err e). split; [done|]. split; [done|]. intros (?&?&?&?&?&?&?&?&_).
    assert (Err e = Ok tt) as [=]. apply Hpre. tauto.
Qed.

(** ** Properties *)

(** C9. Validation ends and decides its specification: for every blueprint that can be built, with
    any catalog and policy, the validator returns (the depth recursion, which would not end on a
    cyclic graph, is only reached on acyclic ones), and it accepts exactly the blueprints whose
    identifiers, catalog, policy references and limits are well formed, whose graphs at every
    level of loop bodies are closed, reachable, acyclic and able to end with every node valid, that
    have at most the allowed number of nodes, and none of whose walks is longer than the allowed
    depth. *)
Theorem validate_decides_specification b c p : representable b →
  ∃ r, validate b c p = Some r ∧ (r = Ok tt ↔ blueprint_ok b c p).
Proof. apply validate_spec. Qed.

(** The graph searches of the validator are exact on every graph, valid or not: the reachable
    set is the reflexive transitive closure of the edges, a path exists exactly if the closure has
    it, the cycle check accepts exactly the acyclic graphs, and the node it reports lies on a
    cycle. *)
Lemma graph_searches_are_exact g scope :
  (∀ start x, x ∈ reachable_from g start ↔ rtc (edge (successors g)) start x) ∧
  (∀ start target, path_exists g start target = true ↔ rtc (edge (successors g)) start target) ∧
  (reject_cycles g scope = Ok tt ↔ ∀ x, ¬ tc (edge_in (successors g)) x x) ∧
  (∀ e, reject_cycles g scope = Err e →
     ∃ x, e = BErr.OrdinaryCycle scope x ∧ tc (edge_in (successors g)) x x).
Proof.
  split_and!; [intros; apply reachable_from_spec|intros; apply path_exists_spec|
               apply reject_cycles_acyclic|].
  intros e He. pose proof (reject_cycles_spec g scope) as H. by rewrite He in H.
Qed.

(** A validated blueprint stays inside the policy envelope at every level of nesting: an agent
    node runs at most the hard limit of steps, and each of its tools is known, exposed by its
    agent, allowed by the policy and has an allowed effect; a parallel node is at most as wide and
    a loop repeats at most as often as the hard limits say; and the capabilities that loops and end
    nodes use are allowed, with their effects, and of the right kind. *)
Lemma validated_nodes_respect_policy b c p h n :
  representable b → validate b c p = Some (Ok tt) → node_in (root b) h n →
  match n with
  | Node.Agent a =>
      (an_max_steps a ≤ max_agent_steps (pol_hard_limits p))%Z ∧
      ∃ agent, map_get (an_agent a) (cat_agents c) = Some agent ∧
        ∀ t, t ∈ an_tools a → t ∈ ae_available_tools agent ∧ t ∈ pol_allowed_tools p ∧
          ∃ e, map_get t (cat_tools c) = Some e ∧ te_effect e ∈ pol_allowed_effects p
  | Node.Parallel q => (pn_max_parallelism q ≤ max_parallelism (pol_hard_limits p))%Z
  | Node.Gate gate => is_Some (map_get (gn_evaluator gate) (cat_evaluators c))
  | Node.Loop l =>
      (ln_max_iterations l ≤ max_loop_iterations (pol_hard_limits p))%Z ∧
      ∀ id, ln_checkpoint l = Some id → capability_ok c p id CapabilityKind.WorkspaceCheckpoint
  | Node.End e =>
      ∀ id name, en_result e = Source.Artifact id name → capability_ok c p id CapabilityKind.ArtifactStore
  end.
Proof.
  intros Hr Hv Hin. destruct (validate_spec b c p Hr) as (r&Hv'&Hok). rewrite Hv in Hv'.
  injection Hv' as <-. destruct (proj1 Hok eq_refl) as (_&_&_&_&_&Hw&Hg&_).
  pose proof (graph_ok_node_in _ _ _ _ _ _ Hg Hin) as Hn. clear -Hn Hw.
  destruct Hw as (_&_&_&_&Hw5&_&_&Hw8&Hw9). destruct n as [a|q|gate|l|e]; simpl in Hn.
  - destruct Hn as (agent&Ha&_&?&_&_&Ht&_). split; [lia|]. exists agent. split; [done|].
    intros t (entry&?&?&?&?)%Ht. eauto.
  - destruct Hn as (_&_&_&?&_). lia.
  - done.
  - destruct Hn as (_&_&?&?). split; [by etrans|done].
  - unfold end_ok in Hn. intros id name E. rewrite E in Hn. apply Hn.
Qed.

(** ** A concrete blueprint *)

Definition demo_limits : ExecutionLimits := {|
  max_model_calls := 32; max_tool_calls := 64; max_total_tokens := 200000; max_wall_time_ms := 300000;
  max_parallelism := 4; max_graph_nodes := 32; max_graph_depth := 16; max_loop_iterations := 6;
  max_agent_steps := 12 |}.

Definition demo_catalog : SchedulerCatalog := {|
  cat_revision := "catalog-1";
  cat_agents := [("worker", {|
    ae_id := "worker"; ae_system_policy := "Inspect evidence before changing code.";
    ae_max_steps := 12; ae_available_skills := ["audit"]; ae_available_tools := ["read"; "write"];
    ae_model_capabilities := [ModelCapability.ToolCalls; ModelCapability.Reasoning] |})];
  cat_skills := [("audit", {|
    se_id := "audit"; se_summary := "Audit a repository with evidence";
    se_content_fingerprint := "skill-audit-v1"; se_capability_tags := ["code-review"];
    se_requires_tools := []; se_fallback_for_tools := []; se_requires_toolsets := [];
    se_fallback_for_toolsets := []; se_hydrated_prompt := None |})];
  cat_tools := [("read", {| te_id := "read"; te_effect := Effect.ReadOnly;
                            te_permission := ToolPermission.Automatic |});
                ("write", {| te_id := "write"; te_effect := Effect.WorkspaceMutation;
                             te_permission := ToolPermission.Ask |})];
  cat_evaluators := [("quality", {| ee_id := "quality"; ee_kind := EvaluatorKind.Deterministic |})];
  cat_capabilities := [("artifacts", {| ce_id := "artifacts"; ce_kind := CapabilityKind.ArtifactStore;
                                        ce_effect := Effect.WorkspaceMutation |});
                       ("checkpoint", {| ce_id := "checkpoint";
                                         ce_kind := CapabilityKind.WorkspaceCheckpoint;
                                         ce_effect := Effect.WorkspaceMutation |})] |}.

Definition demo_policy : PolicyEnvelope := allow_catalog demo_limits demo_catalog.

Definition demo_agent (next : NodeId) : NodeSpec := Node.Agent {|
  an_agent := "worker"; an_skills := ["audit"]; an_tools := ["read"];
  an_required_model_capabilities := [ModelCapability.ToolCalls]; an_max_steps := 4; an_next := next |}.

Definition demo_end : NodeSpec := Node.End {| en_result := Source.LastNode |}.

Definition demo_loop : LoopNode := {|
  ln_body := {| g_entry := "experiment";
                g_nodes := [("experiment", demo_agent "stop"); ("stop", demo_end)] |};
  ln_evaluator := "quality"; ln_max_iterations := 3; ln_checkpoint := Some "checkpoint";
  ln_on_satisfied := "done"; ln_on_exhausted := "done" |}.

(** Two branches, their join, and a loop. *)
Definition demo_blueprint : SchedulerBlueprint := {|
  bp_schema := V1; bp_name := "demo"; bp_entry := "fan";
  bp_nodes := [("a", demo_agent "join"); ("b", demo_agent "join"); ("done", demo_end);
               ("fan", Node.Parallel {| pn_branches := ["a"; "b"]; pn_join := "join";
                                        pn_max_parallelism := 2;
                                        pn_failure_mode := FailureMode.Collect |});
               ("join", demo_agent "loop"); ("loop", Node.Loop demo_loop)];
  bp_limits := demo_limits;
  bp_output := {| oc_format := Output.Markdown; oc_include_usage := true;
                  oc_include_artifact_refs := true |} |}.

Lemma demo_representable : representable demo_blueprint.
Proof.
  split; [|by vm_compute]. constructor; [apply (bool_decide_unpack _); by vm_compute|].
  intros id l Hin. cbn in Hin. rewrite !elem_of_cons in Hin.
  destruct Hin as [E|[E|[E|[E|[E|[E|Hin]]]]]]; try discriminate E; [|by apply not_elem_of_nil in Hin].
  injection E as -> ->. constructor; [apply (bool_decide_unpack _); by vm_compute|].
  intros id l Hin. cbn in Hin. rewrite !elem_of_cons in Hin.
  destruct Hin as [E|[E|Hin]]; try discriminate E. by apply not_elem_of_nil in Hin.
Qed.

Lemma validate_decides_specification_witness : blueprint_ok demo_blueprint demo_catalog demo_policy.
Proof.
  destruct (validate_decides_specification demo_blueprint demo_catalog demo_policy demo_representable)
    as (r&Hv&Hok).
  apply Hok. assert (Some r = Some (Ok tt)) as [= ->]; [|done]. rewrite <- Hv. by vm_compute.
Defined.
