(* ===== verification/SchedulerLoop.v ===== *)
(** * The agent loop and its budget

    The data of crates/agendao-orchestrator/src/context.rs and
    agent_loop/conversation.rs, and agent_loop/loop_impl.rs: the execution budget
    and [AgentLoop::run].  Code runs in a monad over the state of the backends (an
    arbitrary type [W]: model, tools, observer, clock, cancellation), the usage the
    budget counts, and a trace of the effects attempted, oldest first.  A
    [tokio::select!] asks the world which of its futures finishes first.  The
    prompt surface, JSON values and provider messages are opaque. *)

From S2P Require Import Prelude BlueprintGraph Blueprint.

(** ** Usage, results and handoffs *)

Record Usage := {
  model_calls : Z;
  tool_calls : Z;
  input_tokens : Z;
  output_tokens : Z;
  reasoning_tokens : Z;
  cache_read_tokens : Z;
  cache_miss_tokens : Z;
  cache_write_tokens : Z;
}.

Definition usage_default : Usage := {|
  model_calls := 0; tool_calls := 0; input_tokens := 0; output_tokens := 0; reasoning_tokens := 0;
  cache_read_tokens := 0; cache_miss_tokens := 0; cache_write_tokens := 0 |}.

Definition total_tokens (u : Usage) : Z := u64_saturating_add (input_tokens u) (output_tokens u).

(** [Usage::merge] *)
Definition usage_merge (u other : Usage) : Usage := {|
  model_calls := u32_saturating_add (model_calls u) (model_calls other);
  tool_calls := u32_saturating_add (tool_calls u) (tool_calls other);
  input_tokens := u64_saturating_add (input_tokens u) (input_tokens other);
  output_tokens := u64_saturating_add (output_tokens u) (output_tokens other);
  reasoning_tokens := u64_saturating_add (reasoning_tokens u) (reasoning_tokens other);
  cache_read_tokens := u64_saturating_add (cache_read_tokens u) (cache_read_tokens other);
  cache_miss_tokens := u64_saturating_add (cache_miss_tokens u) (cache_miss_tokens other);
  cache_write_tokens := u64_saturating_add (cache_write_tokens u) (cache_write_tokens other) |}.

(** The token counters of [other] added to [u], calls unchanged. *)
Definition add_tokens (u other : Usage) : Usage := {|
  model_calls := model_calls u; tool_calls := tool_calls u;
  input_tokens := u64_saturating_add (input_tokens u) (input_tokens other);
  output_tokens := u64_saturating_add (output_tokens u) (output_tokens other);
  reasoning_tokens := u64_saturating_add (reasoning_tokens u) (reasoning_tokens other);
  cache_read_tokens := u64_saturating_add (cache_read_tokens u) (cache_read_tokens other);
  cache_miss_tokens := u64_saturating_add (cache_miss_tokens u) (cache_miss_tokens other);
  cache_write_tokens := u64_saturating_add (cache_write_tokens u) (cache_write_tokens other) |}.

Definition count_model_call (u : Usage) : Usage := {|
  model_calls := u32_add (model_calls u) 1; tool_calls := tool_calls u;
  input_tokens := input_tokens u; output_tokens := output_tokens u;
  reasoning_tokens := reasoning_tokens u; cache_read_tokens := cache_read_tokens u;
  cache_miss_tokens := cache_miss_tokens u; cache_write_tokens := cache_write_tokens u |}.

Definition count_tool_call (u : Usage) : Usage := {|
  model_calls := model_calls u; tool_calls := u32_add (tool_calls u) 1;
  input_tokens := input_tokens u; output_tokens := output_tokens u;
  reasoning_tokens := reasoning_tokens u; cache_read_tokens := cache_read_tokens u;
  cache_miss_tokens := cache_miss_tokens u; cache_write_tokens := cache_write_tokens u |}.

Record ArtifactRef := { ar_id : string; ar_media_type : string }.

Record HandoffPacket := {
  hp_goal : string;
  hp_constraints : list string;
  hp_inputs : gmap string string;
  hp_artifact_refs : list ArtifactRef;
}.

Record NodeResult := {
  nr_summary : string;
  nr_output : option string;
  nr_artifact_refs : list ArtifactRef;
  nr_usage : Usage;
}.

Definition node_result_default : NodeResult := {|
  nr_summary := ""; nr_output := None; nr_artifact_refs := []; nr_usage := usage_default |}.

(** One step of [NodeResult::combine]. *)
Definition combine_step (combined result : NodeResult) : NodeResult := {|
  nr_summary :=
    if bool_decide (nr_summary result = "") then nr_summary combined
    else (if bool_decide (nr_summary combined = "") then ""
          else nr_summary combined +:+ String (Ascii.ascii_of_nat 10) "") +:+ nr_summary result;
  nr_output := match nr_output result with Some o => Some o | None => nr_output combined end;
  nr_artifact_refs := nr_artifact_refs combined ++ nr_artifact_refs result;
  nr_usage := usage_merge (nr_usage combined) (nr_usage result) |}.

(** [NodeResult::combine] *)
Definition combine (results : list NodeResult) : NodeResult :=
  fold_left combine_step results node_result_default.

(** ** Events *)

Inductive Evaluation := Pass | Fail | Indeterminate.
#[export] Instance evaluation_eq_dec : EqDecision Evaluation.
Proof. solve_decision. Defined.

Module Event.
Inductive ExecutionEvent :=
| RunStarted
| NodeStarted (path : string)
| NodeCompleted (path : string)
| LoopIteration (path : string) (iteration : Z)
| Evaluated (path : string) (outcome : Evaluation)
| RunCompleted (usage : Usage)
| RunFailed (message : string).
End Event.
Abbreviation ExecutionEvent := Event.ExecutionEvent.

Record CheckpointRequest := {
  cr_capability : string;
  cr_workspace_root : string;
  cr_scope : string;
  cr_iteration : Z;
  cr_limits : WorkspaceLimits;
}.

Record CheckpointHandle := {
  ch_capability : string;
  ch_workspace_root : string;
  ch_id : string;
  ch_iteration : Z;
}.

Record RestoreRequest := { rr_checkpoint : CheckpointHandle; rr_limits : WorkspaceLimits }.

Record ArtifactRequest := {
  arq_capability : string;
  arq_workspace_root : string;
  arq_name : string;
  arq_content : string;
  arq_limits : WorkspaceLimits;
}.

Inductive RunDisposition := Commit | Rollback.

(** What the trace records, when it is attempted. *)
Module Effect_.
Inductive effect :=
| Model (path agent : string)
| Tool (path agent tool : string)
| Evaluate (evaluator : string)
| Checkpoint (request : CheckpointRequest)
| Restore (request : RestoreRequest)
| Artifact (request : ArtifactRequest)
| Finalize (disposition : RunDisposition)
| Emit (event : ExecutionEvent).
End Effect_.
Abbreviation effect := Effect_.effect.

(** ** Conversations *)

Section types.
Context (Json : Type).

Record ToolCall := { tc_id : string; tc_tool : string; tc_arguments : Json }.

Record ToolExecution := {
  tx_output : string;
  tx_title : option string;
  tx_metadata : option Json;
  tx_is_error : bool;
}.

Record AssistantTurn := {
  at_content : option string;
  at_reasoning : option string;
  at_tool_calls : list ToolCall;
  at_usage : Usage;
  at_finish_reason : option string;
  at_reasoning_continuation : option string;
}.

Inductive ConversationItem :=
| User (content : string)
| Assistant (turn : AssistantTurn)
| ToolResult (call_id output : string) (is_error : bool).
End types.
Arguments tc_id {Json}.
Arguments tc_tool {Json}.
Arguments tc_arguments {Json}.
Arguments tx_output {Json}.
Arguments tx_title {Json}.
Arguments tx_metadata {Json}.
Arguments tx_is_error {Json}.
Arguments at_content {Json}.
Arguments at_reasoning {Json}.
Arguments at_tool_calls {Json}.
Arguments at_usage {Json}.
Arguments at_finish_reason {Json}.
Arguments at_reasoning_continuation {Json}.
Arguments User {Json}.
Arguments Assistant {Json}.
Arguments ToolResult {Json}.

(** ** Errors *)

Section errors.
Context (ProviderErrorSummary : Type) (provider_message : ProviderErrorSummary → string).

Inductive ModelBackendError := Provider (summary : ProviderErrorSummary) | Message (message : string).

Definition model_error_text (e : ModelBackendError) : string :=
  match e with Provider summary => provider_message summary | Message message => message end.

Inductive AgentLoopError :=
| Cancelled
| DeadlineExceeded
| ModelCallBudgetExceeded
| ToolCallBudgetExceeded
| TokenBudgetExceeded
| StepLimitExceeded (steps : Z)
| ModelFailed (e : ModelBackendError)
| ToolFailed (tool message : string)
| UndeclaredTool (tool : string)
| Prompt (message : string)
| Observer (message : string).

(** [AgentLoopError]'s message *)
Definition agent_error_text (e : AgentLoopError) : string :=
  match e with
  | Cancelled => "execution was cancelled"
  | DeadlineExceeded => "execution deadline exceeded"
  | ModelCallBudgetExceeded => "model call budget exceeded"
  | ToolCallBudgetExceeded => "tool call budget exceeded"
  | TokenBudgetExceeded => "token budget exceeded"
  | StepLimitExceeded steps =>
      "agent reached its " +:+ dec_string (Z.to_N steps) +:+
      "-step limit without a final response; completed step history and tool results were preserved, and the session can continue in a new turn"
  | ModelFailed e => "model invocation failed: " +:+ model_error_text e
  | ToolFailed tool message => "tool '" +:+ tool +:+ "' failed: " +:+ message
  | UndeclaredTool tool => "model requested undeclared tool '" +:+ tool +:+ "'"
  | Prompt message => "prompt surface construction failed: " +:+ message
  | Observer message => "agent loop observer failed: " +:+ message
  end.
End errors.
Arguments Provider {ProviderErrorSummary}.
Arguments Message {ProviderErrorSummary}.
Arguments Cancelled {ProviderErrorSummary}.
Arguments DeadlineExceeded {ProviderErrorSummary}.
Arguments ModelCallBudgetExceeded {ProviderErrorSummary}.
Arguments ToolCallBudgetExceeded {ProviderErrorSummary}.
Arguments TokenBudgetExceeded {ProviderErrorSummary}.
Arguments StepLimitExceeded {ProviderErrorSummary}.
Arguments ModelFailed {ProviderErrorSummary}.
Arguments ToolFailed {ProviderErrorSummary}.
Arguments UndeclaredTool {ProviderErrorSummary}.
Arguments Prompt {ProviderErrorSummary}.
Arguments Observer {ProviderErrorSummary}.

(** ** The state of a run *)

Record St (W : Type) := { world : W; usage : Usage; trace : list effect }.
Arguments world {W}.
Arguments usage {W}.
Arguments trace {W}.

Definition M (W E A : Type) : Type := St W → result E A * St W.

Section monad.
Context {W : Type}.

Definition mret {E A} (a : A) : M W E A := λ s, (Ok a, s).
Definition merr {E A} (e : E) : M W E A := λ s, (Err e, s).
Definition mbind {E A B} (m : M W E A) (k : A → M W E B) : M W E B :=
  λ s, match m s with (Ok a, s') => k a s' | (Err e, s') => (Err e, s') end.
(** [result.map_err(f)?] *)
Definition map_err {E F A} (f : E → F) (m : M W E A) : M W F A :=
  λ s, match m s with (Ok a, s') => (Ok a, s') | (Err e, s') => (Err (f e), s') end.
(** [match m.await { Ok .. Err .. }]: the outcome as a value. *)
Definition catch {E F A} (m : M W E A) : M W F (result E A) := λ s, let '(r, s') := m s in (Ok r, s').
(** A question to the world. *)
Definition ask_world {E A} (f : W → A * W) : M W E A :=
  λ s, let '(a, w) := f (world s) in (Ok a, {| world := w; usage := usage s; trace := trace s |}).
(** A question the world may refuse. *)
Definition call_world {E A} (f : W → result E A * W) : M W E A :=
  λ s, let '(r, w) := f (world s) in (r, {| world := w; usage := usage s; trace := trace s |}).
Definition log {E} (e : effect) : M W E unit :=
  λ s, (Ok tt, {| world := world s; usage := usage s; trace := trace s ++ [e] |}).
Definition get_usage {E} : M W E Usage := λ s, (Ok (usage s), s).
Definition put_usage {E} (u : Usage) : M W E unit :=
  λ s, (Ok tt, {| world := world s; usage := u; trace := trace s |}).
End monad.

Declare Scope run_scope.
Open Scope run_scope.
Notation "'let!' x := m 'in' k" := (mbind m (fun x => k))
  (at level 10, x binder, m at level 100, k at level 200) : run_scope.
Notation "'fail!' b 'with' e 'in' k" := (if (b : bool) then merr e else k)
  (at level 10, b at level 100, e at level 100, k at level 200) : run_scope.

(** [for x in xs { step(x)?; }] over an accumulator. *)
Fixpoint mfold {W E A S} (step : S → A → M W E S) (acc : S) (xs : list A) : M W E S :=
  match xs with
  | [] => mret acc
  | x :: xs' => let! acc' := step acc x in mfold step acc' xs'
  end.

(** ** Backends *)

Record AgentObservationContext := {
  oc_node_path : string;
  oc_agent : string;
  oc_step : Z;
  oc_max_steps : Z;
}.

(** Which branch of a [select!] completes first. *)
Inductive winner := CancelFirst | DeadlineFirst | OperationFirst.

Record ModelRequest (PromptSurface MessageT : Type) := {
  mr_agent : string;
  mr_skills : list string;
  mr_tools : list string;
  mr_prompt : PromptSurface;
  mr_reasoning_continuation : option string;
  mr_conversation_seed : list MessageT;
}.

Record EvaluationOutcome := { eo_evaluation : Evaluation; eo_usage : Usage }.

(** The traits and flags a run talks to: [ModelBackend], [ToolBackend], [AgentLoopObserver],
    [EvaluatorBackend], [CapabilityBackend], [CancellationFlag] and the clock; [completion] is the
    order in which concurrent branches finish, and [build_prompt] the prompt surface. *)
Record Backends (W Json PromptSurface MessageT ProviderErrorSummary : Type) := {
  is_cancelled : W → bool * W;
  deadline_passed : W → bool * W;
  first_of : W → winner * W;
  build_prompt : AgentNode → string → HandoffPacket → list (ConversationItem Json) → option string →
    W → result string PromptSurface * W;
  invoke : ModelRequest PromptSurface MessageT → AgentObservationContext →
    W → result (ModelBackendError ProviderErrorSummary) (AssistantTurn Json) * W;
  execute : AgentObservationContext → ToolCall Json → W → result string (ToolExecution Json) * W;
  step_started : AgentObservationContext → Z → W → result string unit * W;
  take_boundary_inputs : AgentObservationContext → W → result string (list string) * W;
  assistant_turn : AgentObservationContext → AssistantTurn Json → W → result string unit * W;
  tool_started : AgentObservationContext → ToolCall Json → W → result string unit * W;
  tool_finished : AgentObservationContext → ToolCall Json → ToolExecution Json →
    W → result string unit * W;
  step_finished : AgentObservationContext → Z → Usage → W → result string unit * W;
  evaluate_candidate : string → NodeResult → W → result string EvaluationOutcome * W;
  checkpoint : CheckpointRequest → W → result string CheckpointHandle * W;
  restore : RestoreRequest → W → result string unit * W;
  store_artifact : ArtifactRequest → W → result string string * W;
  finalize : RunDisposition → W → result string unit * W;
  completion : list NodeId → W → list NodeId * W;
}.
Arguments is_cancelled {_ _ _ _ _}.
Arguments deadline_passed {_ _ _ _ _}.
Arguments first_of {_ _ _ _ _}.
Arguments build_prompt {_ _ _ _ _}.
Arguments invoke {_ _ _ _ _}.
Arguments execute {_ _ _ _ _}.
Arguments step_started {_ _ _ _ _}.
Arguments take_boundary_inputs {_ _ _ _ _}.
Arguments assistant_turn {_ _ _ _ _}.
Arguments tool_started {_ _ _ _ _}.
Arguments tool_finished {_ _ _ _ _}.
Arguments step_finished {_ _ _ _ _}.
Arguments evaluate_candidate {_ _ _ _ _}.
Arguments checkpoint {_ _ _ _ _}.
Arguments restore {_ _ _ _ _}.
Arguments store_artifact {_ _ _ _ _}.
Arguments finalize {_ _ _ _ _}.
Arguments completion {_ _ _ _ _}.

(** [scheduler_tool_call_id] *)
Definition scheduler_tool_call_id (context : AgentObservationContext) (provider_call_id : string) : string :=
  let prefix := "scheduler:" +:+ oc_node_path context +:+ ":" +:+
                dec_string (Z.to_N (oc_step context)) +:+ ":" in
  if starts_with prefix provider_call_id then provider_call_id else prefix +:+ provider_call_id.

Section agent_loop.
Context {W Json PromptSurface MessageT ProviderErrorSummary : Type}.
Context (backends : Backends W Json PromptSurface MessageT ProviderErrorSummary).
Context (limits : ExecutionLimits).

Abbreviation error := (AgentLoopError ProviderErrorSummary).
Abbreviation run A := (M W error A).

(** ** The budget *)

Definition check_time : run unit :=
  let! passed := ask_world (deadline_passed backends) in
  fail! passed with DeadlineExceeded in mret tt.

Definition reserve_model_call : run unit :=
  let! _ := check_time in
  let! u := get_usage in
  fail! bool_decide (max_model_calls limits ≤ model_calls u)%Z with ModelCallBudgetExceeded in
  put_usage (count_model_call u).

Definition reserve_tool_call : run unit :=
  let! _ := check_time in
  let! u := get_usage in
  fail! bool_decide (max_tool_calls limits ≤ tool_calls u)%Z with ToolCallBudgetExceeded in
  put_usage (count_tool_call u).

Definition record_tokens (spent : Usage) : run unit :=
  let! _ := check_time in
  let! u := get_usage in
  let total := add_tokens u spent in
  let! _ := put_usage total in
  fail! bool_decide (max_total_tokens limits < total_tokens total)%Z with TokenBudgetExceeded in
  mret tt.

Definition check_cancelled : run unit :=
  let! cancelled := ask_world (is_cancelled backends) in
  fail! cancelled with Cancelled in mret tt.

(** A [select!] of cancellation, the deadline and an operation. *)
Definition select {A} (operation : run A) : run A :=
  let! first := ask_world (first_of backends) in
  match first with
  | CancelFirst => merr Cancelled
  | DeadlineFirst => merr DeadlineExceeded
  | OperationFirst => operation
  end.

Definition observe (f : W → result string unit * W) : run unit := map_err Observer (call_world f).

(** ** One step *)

(** One tool call of a turn; the accumulator is the results and the local usage. *)
Definition run_tool_call (node : AgentNode) (observation : AgentObservationContext)
    (acc : list (ConversationItem Json) * Usage) (call : ToolCall Json)
    : run (list (ConversationItem Json) * Usage) :=
  let! _ := check_cancelled in
  fail! negb (mem (tc_tool call) (an_tools node)) with UndeclaredTool (tc_tool call) in
  let! _ := reserve_tool_call in
  let local_usage := count_tool_call acc.2 in
  let! _ := observe (tool_started backends observation call) in
  let! _ := log (Effect_.Tool (oc_node_path observation) (oc_agent observation) (tc_tool call)) in
  let! output := select (map_err (ToolFailed (tc_tool call))
                           (call_world (execute backends observation call))) in
  let! _ := observe (tool_finished backends observation call output) in
  mret (acc.1 ++ [ToolResult (tc_id call) (tx_output output) (tx_is_error output)], local_usage).

Record LoopState := {
  ls_conversation : list (ConversationItem Json);
  ls_continuation : option string;
  ls_local_usage : Usage;
}.

Record AgentRunOutcome := {
  aro_result : NodeResult;
  aro_conversation : list (ConversationItem Json);
}.

(** The turn with its calls' ids qualified. *)
Definition qualify_calls (observation : AgentObservationContext) (turn : AssistantTurn Json)
    : AssistantTurn Json := {|
  at_content := at_content turn; at_reasoning := at_reasoning turn;
  at_tool_calls := (λ call, {| tc_id := scheduler_tool_call_id observation (tc_id call);
                               tc_tool := tc_tool call; tc_arguments := tc_arguments call |}) <$>
                     at_tool_calls turn;
  at_usage := at_usage turn; at_finish_reason := at_finish_reason turn;
  at_reasoning_continuation := at_reasoning_continuation turn |}.

(** The body of the loop of [run]: the outcome of the run, or the state of the next step. *)
Definition run_step (node : AgentNode) (handoff : HandoffPacket) (conversation_seed : list MessageT)
    (node_path : string) (step : Z) (st : LoopState) : run (AgentRunOutcome + LoopState) :=
  let observation := {| oc_node_path := node_path; oc_agent := an_agent node; oc_step := step;
                        oc_max_steps := an_max_steps node |} in
  let! _ := check_cancelled in
  let! _ := observe (step_started backends observation step) in
  let! boundary_inputs := map_err Observer (call_world (take_boundary_inputs backends observation)) in
  let conversation := ls_conversation st ++ (User <$> boundary_inputs) in
  let! _ := reserve_model_call in
  let local_usage := count_model_call (ls_local_usage st) in
  let! prompt := map_err Prompt
    (call_world (build_prompt backends node node_path handoff conversation (ls_continuation st))) in
  let model_request := {| mr_agent := an_agent node; mr_skills := an_skills node;
    mr_tools := an_tools node; mr_prompt := prompt; mr_reasoning_continuation := ls_continuation st;
    mr_conversation_seed := conversation_seed |} in
  let! _ := log (Effect_.Model node_path (an_agent node)) in
  let! turn := select (map_err ModelFailed (call_world (invoke backends model_request observation))) in
  let turn := qualify_calls observation turn in
  let! _ := check_cancelled in
  let! _ := record_tokens (at_usage turn) in
  let local_usage := add_tokens local_usage (at_usage turn) in
  let! _ := observe (assistant_turn backends observation turn) in
  if bool_decide (length (at_tool_calls turn) = 0) then
    let! _ := observe (step_finished backends observation step local_usage) in
    let output := default "" (at_content turn) in
    mret (inl {| aro_result := {| nr_summary := output; nr_output := Some output;
                                  nr_artifact_refs := []; nr_usage := local_usage |};
                 aro_conversation := conversation ++ [Assistant turn] |})
  else
    let! calls := mfold (run_tool_call node observation) ([], local_usage) (at_tool_calls turn) in
    let! _ := observe (step_finished backends observation step calls.2) in
    mret (inr {| ls_conversation := conversation ++ [Assistant turn] ++ calls.1;
                 ls_continuation := at_reasoning_continuation turn;
                 ls_local_usage := calls.2 |}).

(** The loop [for step in 1..=max_steps], with the steps left. *)
Fixpoint run_steps (node : AgentNode) (handoff : HandoffPacket) (conversation_seed : list MessageT)
    (node_path : string) (step : Z) (left : nat) (st : LoopState) : run AgentRunOutcome :=
  match left with
  | O => merr (StepLimitExceeded (an_max_steps node))
  | S left' =>
      let! next := run_step node handoff conversation_seed node_path step st in
      match next with
      | inl outcome => mret outcome
      | inr st' => run_steps node handoff conversation_seed node_path (step + 1) left' st'
      end
  end.

(** [AgentLoop::run] *)
Definition agent_run (node : AgentNode) (handoff : HandoffPacket) (conversation_seed : list MessageT)
    (node_path : string) : run AgentRunOutcome :=
  run_steps node handoff conversation_seed node_path 1 (Z.to_nat (an_max_steps node))
    {| ls_conversation := []; ls_continuation := None; ls_local_usage := usage_default |}.
End agent_loop.
