(* ===== verification/SchedulerEngine.v ===== *)
(** * The scheduler engine

    crates/agendao-orchestrator/src/engine.rs: [SchedulerEngine::run] and
    [execute_graph] over the monad of SchedulerLoop.v.  The recursion takes fuel,
    one unit per node of a walk; running out of it is an outcome of its own that no
    error path of the code sees.  Concurrent branches are run one after the other
    in the order the world says they complete. *)

From S2P Require Import Prelude BlueprintGraph Blueprint SchedulerLoop.

(** ** Errors *)

Section errors.
Context (ProviderErrorSummary : Type) (provider_message : ProviderErrorSummary → string).

Inductive EngineError :=
| Agent (e : AgentLoopError ProviderErrorSummary)
| Evaluator (evaluator message : string)
| Capability (capability message : string)
| MissingNode (node : string)
| ParallelBranch (branch message : string)
| MissingResult (node : string)
| CatalogFingerprint (message : string)
| Cleanup (execution message : string).

(** [EngineError]'s message *)
Definition engine_error_text (e : EngineError) : string :=
  match e with
  | Agent e => agent_error_text ProviderErrorSummary provider_message e
  | Evaluator evaluator message => "evaluator '" +:+ evaluator +:+ "' failed: " +:+ message
  | Capability capability message => "capability '" +:+ capability +:+ "' failed: " +:+ message
  | MissingNode node => "execution reached missing node '" +:+ node +:+ "'"
  | ParallelBranch branch message => "parallel branch '" +:+ branch +:+ "' failed: " +:+ message
  | MissingResult node => "end node requests unavailable result from '" +:+ node +:+ "'"
  | CatalogFingerprint message => "catalog fingerprint failed: " +:+ message
  | Cleanup execution message =>
      "capability cleanup failed after " +:+ execution +:+ ": " +:+ message
  end.

(** How a run of the model stops short: out of fuel, or with an error of the code. *)
Inductive stop := OutOfFuel | Failed (e : EngineError).
End errors.
Arguments Agent {ProviderErrorSummary}.
Arguments Evaluator {ProviderErrorSummary}.
Arguments Capability {ProviderErrorSummary}.
Arguments MissingNode {ProviderErrorSummary}.
Arguments ParallelBranch {ProviderErrorSummary}.
Arguments MissingResult {ProviderErrorSummary}.
Arguments CatalogFingerprint {ProviderErrorSummary}.
Arguments Cleanup {ProviderErrorSummary}.
Arguments OutOfFuel {ProviderErrorSummary}.
Arguments Failed {ProviderErrorSummary}.

(** ** Branch states and handoffs *)

Definition with_inputs (h : HandoffPacket) (inputs : gmap string string) : HandoffPacket := {|
  hp_goal := hp_goal h; hp_constraints := hp_constraints h; hp_inputs := inputs;
  hp_artifact_refs := hp_artifact_refs h |}.

Definition handoff_from_result (previous : HandoffPacket) (result : NodeResult) : HandoffPacket := {|
  hp_goal := hp_goal previous; hp_constraints := hp_constraints previous;
  hp_inputs := <["previous.summary" := nr_summary result]> (hp_inputs previous);
  hp_artifact_refs := nr_artifact_refs result |}.

Definition loop_handoff (previous : HandoffPacket) (result : option NodeResult) (iteration : Z)
    : HandoffPacket :=
  let next := with_inputs previous
    (<["scheduler.iteration" := dec_string (Z.to_N (u32_add iteration 1))]> (hp_inputs previous)) in
  match result with Some result => handoff_from_result next result | None => next end.

Record BranchState (MessageT : Type) := {
  bs_handoff : HandoffPacket;
  bs_conversation_seed : list MessageT;
  bs_last : option NodeResult;
  bs_results : gmap string NodeResult;
}.
Arguments bs_handoff {MessageT}.
Arguments bs_conversation_seed {MessageT}.
Arguments bs_last {MessageT}.
Arguments bs_results {MessageT}.

Section engine.
Context {W Json PromptSurface MessageT ProviderErrorSummary : Type}.
Context (provider_message : ProviderErrorSummary → string).
Context (backends : Backends W Json PromptSurface MessageT ProviderErrorSummary).
Context (catalog : SchedulerCatalog) (policy : PolicyEnvelope).

Abbreviation state := (BranchState MessageT).
Abbreviation error := (EngineError ProviderErrorSummary).
Abbreviation run A := (M W (stop ProviderErrorSummary) A).
Abbreviation text := (engine_error_text ProviderErrorSummary provider_message).

(** [BranchState::new] *)
Definition branch_new (handoff : HandoffPacket) (conversation_seed : list MessageT) : state := {|
  bs_handoff := handoff; bs_conversation_seed := conversation_seed; bs_last := None; bs_results := ∅ |}.

(** [BranchState::record] *)
Definition record_result (node : string) (result : NodeResult) (st : state) : state := {|
  bs_handoff := handoff_from_result (bs_handoff st) result;
  bs_conversation_seed := bs_conversation_seed st; bs_last := Some result;
  bs_results := <[node := result]> (bs_results st) |}.

(** [BranchState::fork_for] *)
Definition fork_for (branch : NodeId) (st : state) : state :=
  branch_new (with_inputs (bs_handoff st) (<["scheduler.branch" := branch]> (hp_inputs (bs_handoff st)))) [].

(** [state.results.extend(results)] *)
Definition extend_results (results : gmap string NodeResult) (st : state) : state := {|
  bs_handoff := bs_handoff st; bs_conversation_seed := bs_conversation_seed st;
  bs_last := bs_last st; bs_results := results ∪ bs_results st |}.

Definition set_handoff (handoff : HandoffPacket) (st : state) : state := {|
  bs_handoff := handoff; bs_conversation_seed := bs_conversation_seed st; bs_last := bs_last st;
  bs_results := bs_results st |}.

(** [mem::take(&mut state.conversation_seed)], what remains *)
Definition clear_seed (st : state) : state := {|
  bs_handoff := bs_handoff st; bs_conversation_seed := []; bs_last := bs_last st;
  bs_results := bs_results st |}.

Definition fail {A} (e : error) : run A := merr (Failed e).
Definition emit (event : ExecutionEvent) : run unit := log (Effect_.Emit event).
(** The [?] on an [AgentLoopError]. *)
Definition agent_errors {A} (m : M W (AgentLoopError ProviderErrorSummary) A) : run A :=
  map_err (λ e, Failed (Agent e)) m.

Definition candidate_of (st : state) : NodeResult := default node_result_default (bs_last st).

Section run.
Context (limits : ExecutionLimits) (workspace_root : string).

(** [evaluate_with_deadline] *)
Definition evaluate_with_deadline (evaluator : string) (candidate : NodeResult) : run Evaluation :=
  let is_model_judge :=
    match map_get evaluator (cat_evaluators catalog) with
    | Some entry => match ee_kind entry with EvaluatorKind.ModelJudge => true | _ => false end
    | None => false
    end in
  let! _ := agent_errors (if is_model_judge : bool then reserve_model_call backends limits else mret tt) in
  let! _ := log (Effect_.Evaluate evaluator) in
  let! first := ask_world (first_of backends) in
  match first with
  | CancelFirst => fail (Agent Cancelled)
  | DeadlineFirst => fail (Agent DeadlineExceeded)
  | OperationFirst =>
      let! outcome := map_err (λ m, Failed (Evaluator evaluator m))
                        (call_world (evaluate_candidate backends evaluator candidate)) in
      let! _ := agent_errors (record_tokens backends limits (eo_usage outcome)) in
      mret (eo_evaluation outcome)
  end.

(** [restore_checkpoint] *)
Definition restore_checkpoint (handle : CheckpointHandle) : run unit :=
  let request := {| rr_checkpoint := handle; rr_limits := pol_workspace_limits policy |} in
  let! _ := log (Effect_.Restore request) in
  map_err (λ m, Failed (Capability (ch_capability handle) m)) (call_world (restore backends request)).

Definition restore_if_taken (taken : option CheckpointHandle) : run unit :=
  match taken with Some handle => restore_checkpoint handle | None => mret tt end.

(** The checkpoint at the start of an iteration. *)
Definition take_checkpoint (node_path : string) (capability : option string) (iteration : Z)
    : run (option CheckpointHandle) :=
  match capability with
  | None => mret None
  | Some capability =>
      let! _ := agent_errors (check_cancelled backends) in
      let request := {| cr_capability := capability; cr_workspace_root := workspace_root;
                        cr_scope := node_path; cr_iteration := u32_add iteration 1;
                        cr_limits := pol_workspace_limits policy |} in
      let! _ := log (Effect_.Checkpoint request) in
      let! handle := map_err (λ m, Failed (Capability capability m))
                       (call_world (checkpoint backends request)) in
      let! _ := agent_errors (check_cancelled backends) in
      let! _ := agent_errors (check_time backends) in
      mret (Some handle)
  end.

(** What follows an outcome that may have failed: on an error of the code, the checkpoint is
    restored before the error is returned. *)
Definition or_restore {A} (taken : option CheckpointHandle) (m : run A) : run A :=
  let! r := catch m in
  match r with
  | Ok a => mret a
  | Err OutOfFuel => merr OutOfFuel
  | Err (Failed e) => let! _ := restore_if_taken taken in fail e
  end.

(** One iteration of a loop node: whether the evaluator passed it, and the state after it. *)
Definition loop_iteration (exec_body : string → state → run state) (loop_node : LoopNode)
    (node_path : string) (iteration : Z) (st : state) : run (bool * state) :=
  let! _ := emit (Event.LoopIteration node_path (u32_add iteration 1)) in
  let! taken := take_checkpoint node_path (ln_checkpoint loop_node) iteration in
  let loop_state := branch_new (loop_handoff (bs_handoff st) (bs_last st) iteration) [] in
  let scope := node_path +:+ "/iteration-" +:+ dec_string (Z.to_N (u32_add iteration 1)) in
  let! completed := or_restore taken (exec_body scope loop_state) in
  let candidate := candidate_of completed in
  let st := record_result node_path candidate (extend_results (bs_results completed) st) in
  let! evaluation := or_restore taken (evaluate_with_deadline (ln_evaluator loop_node) candidate) in
  let! _ := emit (Event.Evaluated node_path evaluation) in
  match evaluation with
  | Pass => mret (true, st)
  | Fail | Indeterminate =>
      let! _ := restore_if_taken taken in
      mret (false, set_handoff (handoff_from_result (bs_handoff st) candidate) st)
  end.

(** [for iteration in 0..max_iterations], with the iterations left. *)
Fixpoint loop_iterations (exec_body : string → state → run state) (loop_node : LoopNode)
    (node_path : string) (iteration : Z) (left : nat) (st : state) : run (bool * state) :=
  match left with
  | O => mret (false, st)
  | S left' =>
      let! r := loop_iteration exec_body loop_node node_path iteration st in
      if r.1 : bool then mret r
      else loop_iterations exec_body loop_node node_path (iteration + 1) left' r.2
  end.

(** The branches of a parallel node, in the order they complete: successes by branch and
    failures. *)
Fixpoint collect_branches (exec_branch : NodeId → run state) (failure_mode : ParallelFailureMode)
    (branches : list NodeId) (successes : list (NodeId * state)) (failures : list (NodeId * error))
    : run (list (NodeId * state) * list (NodeId * error)) :=
  match branches with
  | [] => mret (successes, failures)
  | branch :: branches' =>
      let! r := catch (exec_branch branch) in
      match r with
      | Ok st => collect_branches exec_branch failure_mode branches' (map_insert branch st successes) failures
      | Err OutOfFuel => merr OutOfFuel
      | Err (Failed e) =>
          match failure_mode with
          | FailureMode.FailFast => fail (ParallelBranch branch (text e))
          | FailureMode.Collect =>
              collect_branches exec_branch failure_mode branches' successes (failures ++ [(branch, e)])
          end
      end
  end.

Definition failure_result (f : NodeId * error) : NodeResult := {|
  nr_summary := "branch " +:+ f.1 +:+ " failed: " +:+ text f.2; nr_output := None;
  nr_artifact_refs := []; nr_usage := usage_default |}.

(** What the parallel node leaves after its branches. *)
Definition join_branches (node_path : string) (successes : list (NodeId * state))
    (failures : list (NodeId * error)) (st : state) : state :=
  let failures := merge_sort (λ a b, str_leb a.1 b.1) failures in
  let branch_results := omap (λ s, bs_last s.2) successes ++ (failure_result <$> failures) in
  let st := fold_left (λ st s, extend_results (bs_results s.2) st) successes st in
  record_result node_path (combine branch_results) st.

(** The [End] arm: the result of the graph. *)
Definition end_result (scope : string) (e : EndNode) (st : state) : run NodeResult :=
  match en_result e with
  | Source.LastNode => mret (candidate_of st)
  | Source.Named source =>
      match bs_results st !! (scope +:+ "/" +:+ source) with
      | Some result => mret result
      | None => fail (MissingResult source)
      end
  | Source.Artifact capability name =>
      let candidate := candidate_of st in
      let content := default (nr_summary candidate) (nr_output candidate) in
      let! _ := agent_errors (check_cancelled backends) in
      let request := {| arq_capability := capability; arq_workspace_root := workspace_root;
                        arq_name := name; arq_content := content;
                        arq_limits := pol_workspace_limits policy |} in
      let! _ := log (Effect_.Artifact request) in
      let! artifact_id := map_err (λ m, Failed (Capability capability m))
                            (call_world (store_artifact backends request)) in
      let! _ := agent_errors (check_cancelled backends) in
      let! _ := agent_errors (check_time backends) in
      mret {| nr_summary := "artifact:" +:+ artifact_id; nr_output := None;
              nr_artifact_refs := [{| ar_id := artifact_id; ar_media_type := "text/plain" |}];
              nr_usage := usage_default |}
  end.

(** [execute_graph] *)
Fixpoint execute_graph (fuel : nat) (graph : SchedulerGraph) (current : NodeId)
    (stop_before : option NodeId) (scope : string) (st : state) : run state :=
  match fuel with
  | O => merr OutOfFuel
  | S fuel' =>
      if bool_decide (stop_before = Some current) then mret st
      else
        let! _ := agent_errors (check_time backends) in
        let! _ := agent_errors (check_cancelled backends) in
        match map_get current (g_nodes graph) with
        | None => fail (MissingNode current)
        | Some node =>
            let node_path := scope +:+ "/" +:+ current in
            let! _ := emit (Event.NodeStarted node_path) in
            match node with
            | Node.Agent agent =>
                let! outcome := agent_errors
                  (agent_run backends limits agent (bs_handoff st) (bs_conversation_seed st) node_path) in
                let st := record_result node_path (aro_result outcome) (clear_seed st) in
                let! _ := emit (Event.NodeCompleted node_path) in
                execute_graph fuel' graph (an_next agent) stop_before scope st
            | Node.Parallel parallel =>
                let! order := ask_world (completion backends (pn_branches parallel)) in
                let! r := collect_branches
                  (λ branch, execute_graph fuel' graph branch (Some (pn_join parallel)) scope
                               (fork_for branch st))
                  (pn_failure_mode parallel) order [] [] in
                let st := join_branches node_path r.1 r.2 st in
                let! _ := emit (Event.NodeCompleted node_path) in
                let st := set_handoff (handoff_from_result (bs_handoff st) (candidate_of st)) st in
                execute_graph fuel' graph (pn_join parallel) stop_before scope st
            | Node.Gate gate =>
                let! evaluation := evaluate_with_deadline (gn_evaluator gate) (candidate_of st) in
                let! _ := emit (Event.Evaluated node_path evaluation) in
                let! _ := emit (Event.NodeCompleted node_path) in
                let next := match evaluation with
                            | Pass => gn_on_pass gate
                            | Fail => gn_on_fail gate
                            | Indeterminate => gn_on_indeterminate gate
                            end in
                execute_graph fuel' graph next stop_before scope st
            | Node.Loop loop_node =>
                let! r := loop_iterations
                  (λ scope st, execute_graph fuel' (ln_body loop_node) (g_entry (ln_body loop_node))
                                 None scope st)
                  loop_node node_path 0 (Z.to_nat (ln_max_iterations loop_node)) st in
                let next := if r.1 : bool then ln_on_satisfied loop_node
                            else ln_on_exhausted loop_node in
                let! _ := emit (Event.NodeCompleted node_path) in
                execute_graph fuel' graph next stop_before scope r.2
            | Node.End e =>
                let! result := end_result scope e st in
                let! _ := emit (Event.NodeCompleted node_path) in
                mret (record_result node_path result st)
            end
        end
  end.
End run.

(** ** A run *)

Record RunRequest := {
  req_handoff : HandoffPacket;
  req_conversation_seed : list MessageT;
  req_workspace_root : string;
  req_workspace_summary : string;
}.

Record RunOutcome := {
  ro_result : NodeResult;
  ro_node_results : gmap string NodeResult;
  ro_usage : Usage;
}.

(** [SchedulerEngine::run] of a validated blueprint. *)
Definition engine_run {F} (catalog_fingerprint : SchedulerCatalog → result string F) (fuel : nat)
    (blueprint : SchedulerBlueprint) (request : RunRequest) : run RunOutcome :=
  let graph := {| g_entry := bp_entry blueprint; g_nodes := bp_nodes blueprint |} in
  let limits := bp_limits blueprint in
  match catalog_fingerprint catalog with
  | Err message => fail (CatalogFingerprint message)
  | Ok _ =>
      let! _ := put_usage usage_default in
      let st := branch_new (req_handoff request) (req_conversation_seed request) in
      let! _ := emit Event.RunStarted in
      let! execution := catch (execute_graph limits (req_workspace_root request) fuel graph
                                 (g_entry graph) None "root" st) in
      match execution with
      | Err OutOfFuel => merr OutOfFuel
      | Err (Failed e) =>
          let! _ := log (Effect_.Finalize Rollback) in
          let! cleaned := catch (E := string) (call_world (finalize backends Rollback)) in
          match cleaned with
          | Err message =>
              let cleanup := Cleanup (text e) message in
              let! _ := emit (Event.RunFailed (text cleanup)) in
              fail cleanup
          | Ok _ =>
              let! _ := emit (Event.RunFailed (text e)) in
              fail e
          end
      | Ok st =>
          let! _ := log (Effect_.Finalize Commit) in
          let! cleaned := catch (E := string) (call_world (finalize backends Commit)) in
          match cleaned with
          | Err message =>
              let e := Cleanup "successful execution" message in
              let! _ := emit (Event.RunFailed (text e)) in
              fail e
          | Ok _ =>
              let! u := get_usage in
              let! _ := emit (Event.RunCompleted u) in
              mret {| ro_result := candidate_of st; ro_node_results := bs_results st; ro_usage := u |}
          end
      end
  end.
End engine.
