(* ===== verification/SchedulerProps.v ===== *)
(** * Properties of scheduler runs

    A small program logic for the monad of SchedulerLoop.v (triples with a
    postcondition for values and one for errors), one traversal of the agent loop
    and of the engine with it, and what follows for runs of validated blueprints:
    they end, stay inside the policy and the budget, and finalize once. *)

From S2P Require Import Prelude BlueprintGraph Blueprint BlueprintSpec BlueprintProps SchedulerLoop SchedulerEngine.

(** ** Triples *)

Definition triple {W E A} (pre : St W → Prop) (m : M W E A) (post : A → St W → Prop)
    (epost : E → St W → Prop) : Prop :=
  ∀ s, pre s → match m s with (Ok a, s') => post a s' | (Err e, s') => epost e s' end.

Section triples.
Context {W : Type}.
Implicit Types I : St W → Prop.

Lemma triple_ret {E A} (a : A) (post : A → St W → Prop) (epost : E → St W → Prop) :
  triple (post a) (mret a) post epost.
Proof. by intros s. Qed.

Lemma triple_err {E A} (e : E) (post : A → St W → Prop) (epost : E → St W → Prop) :
  triple (epost e) (merr e) post epost.
Proof. by intros s. Qed.

Lemma triple_bind {E A B} pre mid post (epost : E → St W → Prop) (m : M W E A) (k : A → M W E B) :
  triple pre m mid epost → (∀ a, triple (mid a) (k a) post epost) → triple pre (mbind m k) post epost.
Proof.
  intros Hm Hk s Hs. unfold mbind. specialize (Hm s Hs). destruct (m s) as [[a|e] s']; [by apply Hk|done].
Qed.

Lemma triple_map_err {E F A} (f : E → F) pre post (epost : F → St W → Prop) (m : M W E A) :
  triple pre m post (λ e, epost (f e)) → triple pre (map_err f m) post epost.
Proof. intros Hm s Hs. unfold map_err. specialize (Hm s Hs). by destruct (m s) as [[a|e] s']. Qed.

Lemma triple_catch {E F A} pre (post : result E A → St W → Prop) (epost : F → St W → Prop) (m : M W E A) :
  triple pre m (λ a, post (Ok a)) (λ e, post (Err e)) → triple pre (catch m) post epost.
Proof. intros Hm s Hs. unfold catch. specialize (Hm s Hs). by destruct (m s) as [[a|e] s']. Qed.

Lemma triple_weaken {E A} (pre pre' : St W → Prop) post post' (epost epost' : E → St W → Prop) (m : M W E A) :
  (∀ s, pre' s → pre s) → (∀ a s, post a s → post' a s) → (∀ e s, epost e s → epost' e s) →
  triple pre m post epost → triple pre' m post' epost'.
Proof.
  intros H1 H2 H3 Hm s Hs. specialize (Hm s (H1 s Hs)). destruct (m s) as [[a|e] s']; auto.
Qed.

(** [m] keeps [I] whatever it returns, and its errors satisfy [Q]. *)
Definition keeps {E A} I (m : M W E A) (Q : E → Prop) : Prop :=
  triple I m (λ _, I) (λ e s, I s ∧ Q e).

Lemma keeps_bind {E A B} I (Q : E → Prop) (m : M W E A) (k : A → M W E B) :
  keeps I m Q → (∀ a, keeps I (k a) Q) → keeps I (mbind m k) Q.
Proof. intros Hm Hk. by eapply triple_bind. Qed.

Lemma keeps_ret {E A} I (Q : E → Prop) (a : A) : keeps I (mret a) Q.
Proof. by intros s Hs. Qed.

Lemma keeps_err {E A} I (Q : E → Prop) (e : E) : Q e → keeps I (merr (A := A) e) Q.
Proof. by intros HQ s Hs. Qed.

Lemma keeps_map_err {E F A} I (f : E → F) (Q : F → Prop) (m : M W E A) :
  keeps I m (λ e, Q (f e)) → keeps I (map_err f m) Q.
Proof. apply (triple_map_err f I (λ _, I) (λ e s, I s ∧ Q e)). Qed.

Lemma keeps_impl {E A} I (Q Q' : E → Prop) (m : M W E A) : (∀ e, Q e → Q' e) → keeps I m Q → keeps I m Q'.
Proof. intros H. apply triple_weaken; [done..|]. intros e s [??]. auto. Qed.

(** What a state says when the world is forgotten. *)
Definition worldless I : Prop :=
  ∀ s w, I s → I {| world := w; usage := usage s; trace := trace s |}.

Lemma keeps_ask {E A} I (Q : E → Prop) (f : W → A * W) : worldless I → keeps I (ask_world f) Q.
Proof. intros H s Hs. unfold ask_world. destruct (f (world s)). by apply H. Qed.

Lemma keeps_call {E A} I (Q : E → Prop) (f : W → result E A * W) :
  worldless I → (∀ e, Q e) → keeps I (call_world f) Q.
Proof. intros H HQ s Hs. unfold call_world. destruct (f (world s)) as [[a|e] w]; [|split; [|done]]; by apply H. Qed.

Lemma keeps_mfold {E A S} I (Q : E → Prop) (step : S → A → M W E S) xs acc :
  (∀ acc x, x ∈ xs → keeps I (step acc x) Q) → keeps I (mfold step acc xs) Q.
Proof.
  revert acc. induction xs as [|x xs IH]; intros acc Hs; [apply keeps_ret|].
  apply keeps_bind; [apply Hs; by left|]. intros acc'. apply IH. intros. apply Hs. by right.
Qed.
End triples.

(** Opens a sequence of steps that each keep the invariant. *)
Ltac keep_step :=
  match goal with
  | |- keeps _ (mbind _ _) _ => apply keeps_bind; [|intros ?]
  | |- keeps _ (mret _) _ => apply keeps_ret
  | |- keeps _ (map_err _ _) _ => apply keeps_map_err
  | |- keeps _ (ask_world _) _ => apply keeps_ask
  | |- keeps _ (if ?b then _ else _) _ => destruct b
  | |- keeps _ (match ?x with _ => _ end) _ => destruct x
  end.

(** ** The invariant of a run *)

Definition is_model (e : effect) : bool := match e with Effect_.Model _ _ => true | _ => false end.
Definition is_tool (e : effect) : bool := match e with Effect_.Tool _ _ _ => true | _ => false end.

Definition count (p : effect → bool) (l : list effect) : Z := Z.of_nat (length (filter (λ e, Is_true (p e)) l)).

Lemma count_snoc p l e : count p (l ++ [e]) = (count p l + if p e then 1 else 0)%Z.
Proof.
  unfold count. rewrite filter_app, length_app, filter_cons, filter_nil.
  case_decide; destruct (p e); simpl in *; try done; lia.
Qed.

Section traversal.
Context {W Json PromptSurface MessageT ProviderErrorSummary : Type}.
Context (provider_message : ProviderErrorSummary → string).
Context (backends : Backends W Json PromptSurface MessageT ProviderErrorSummary).
Context (catalog : SchedulerCatalog) (policy : PolicyEnvelope) (limits : ExecutionLimits).
Context (Hlimits : (max_model_calls limits < 2 ^ 32 ∧ max_tool_calls limits < 2 ^ 32)%Z).
Context (P : effect → Prop).

(** Calls attempted are calls reserved, with [m] model and [t] tool calls reserved and not yet
    attempted, the budget is not overspent, and every effect satisfies [P]. *)
Definition budgeted (m t : Z) (s : St W) : Prop :=
  (0 ≤ count is_model (trace s) + m ≤ model_calls (usage s))%Z ∧
  (model_calls (usage s) ≤ Z.max 0 (max_model_calls limits))%Z ∧
  (0 ≤ count is_tool (trace s) + t ≤ tool_calls (usage s))%Z ∧
  (tool_calls (usage s) ≤ Z.max 0 (max_tool_calls limits))%Z ∧ Forall P (trace s).

Lemma budgeted_worldless m t : worldless (budgeted m t).
Proof. by intros s w Hs. Qed.

Lemma budgeted_log {E} (Q : E → Prop) e m t :
  P e → triple (budgeted (m + if is_model e then 1 else 0) (t + if is_tool e then 1 else 0))
    (log e) (λ _, budgeted m t) (λ e' s, budgeted m t s ∧ Q e').
Proof.
  intros HP s (?&?&?&?&HF). unfold budgeted. cbn [log trace usage].
  rewrite !count_snoc. split_and!; try lia. by apply Forall_app_2; [|constructor].
Qed.

Lemma log_tool {E} path agent tool : P (Effect_.Tool path agent tool) →
  triple (budgeted 0 1) (log (Effect_.Tool path agent tool)) (λ _, budgeted 0 0)
    (λ (_ : E) s, budgeted 0 0 s ∧ True).
Proof. exact (budgeted_log (λ _, True) (Effect_.Tool path agent tool) 0 0). Qed.

Lemma log_model {E} path agent : P (Effect_.Model path agent) →
  triple (budgeted 1 0) (log (Effect_.Model path agent)) (λ _, budgeted 0 0)
    (λ (_ : E) s, budgeted 0 0 s ∧ True).
Proof. exact (budgeted_log (λ _, True) (Effect_.Model path agent) 0 0). Qed.

Lemma keeps_log {E} (Q : E → Prop) e :
  P e → is_model e = false → is_tool e = false → keeps (budgeted 0 0) (log e) Q.
Proof. intros HP Hm Ht. pose proof (budgeted_log Q e 0 0 HP) as H. by rewrite Hm, Ht in H. Qed.

Lemma keeps_check_time m t : keeps (budgeted m t) (check_time backends) (λ _, True).
Proof. unfold check_time. repeat keep_step; [apply budgeted_worldless|by apply keeps_err]. Qed.

Lemma keeps_check_cancelled m t : keeps (budgeted m t) (check_cancelled backends) (λ _, True).
Proof. unfold check_cancelled. repeat keep_step; [apply budgeted_worldless|by apply keeps_err]. Qed.

Lemma reserve_model_spec : triple (budgeted 0 0) (reserve_model_call backends limits)
  (λ _, budgeted 1 0) (λ e s, budgeted 0 0 s ∧ True).
Proof.
  unfold reserve_model_call. eapply triple_bind; [apply keeps_check_time|]. intros _ s Hs.
  unfold mbind, get_usage. case_bool_decide as Hb; [by split|].
  destruct Hs as (?&?&?&?&?). unfold budgeted, put_usage. simpl.
  unfold u32_add. rewrite Z.mod_small by lia. split_and!; try lia; done.
Qed.

Lemma reserve_tool_spec : triple (budgeted 0 0) (reserve_tool_call backends limits)
  (λ _, budgeted 0 1) (λ e s, budgeted 0 0 s ∧ True).
Proof.
  unfold reserve_tool_call. eapply triple_bind; [apply keeps_check_time|]. intros _ s Hs.
  unfold mbind, get_usage. case_bool_decide as Hb; [by split|].
  destruct Hs as (?&?&?&?&?). unfold budgeted, put_usage. simpl.
  unfold u32_add. rewrite Z.mod_small by lia. split_and!; try lia; done.
Qed.

(** A reservation that is never spent is still within the budget. *)
Lemma budgeted_less m t s : (0 ≤ m)%Z → (0 ≤ t)%Z → budgeted m t s → budgeted 0 0 s.
Proof.
  intros Hm Ht (?&?&?&?&?). unfold budgeted.
  assert (∀ p l, 0 ≤ count p l)%Z by (intros; unfold count; lia). split_and!; try lia; auto.
  - pose proof (H4 is_model (trace s)). lia.
  - pose proof (H4 is_tool (trace s)). lia.
Qed.

Lemma keeps_reserved {E A} m t (Q : E → Prop) (c : M W E A) : (0 ≤ m)%Z → (0 ≤ t)%Z →
  keeps (budgeted m t) c Q →
  triple (budgeted m t) c (λ _, budgeted m t) (λ e s, budgeted 0 0 s ∧ Q e).
Proof.
  intros Hm Ht. apply triple_weaken; [done|done|]. intros e s [Hs HQ].
  split; [by eapply budgeted_less, Hs|done].
Qed.

Lemma keeps_record_tokens spent : keeps (budgeted 0 0) (record_tokens backends limits spent) (λ _, True).
Proof.
  unfold record_tokens. apply keeps_bind; [apply keeps_check_time|]. intros _ s Hs.
  unfold mbind, get_usage, put_usage. by case_bool_decide; [split|].
Qed.

Lemma keeps_observe m t f : keeps (budgeted m t) (observe (W := W) (ProviderErrorSummary := ProviderErrorSummary) f) (λ _, True).
Proof. unfold observe. apply keeps_map_err, keeps_call; [apply budgeted_worldless|done]. Qed.

Lemma keeps_select {A} (m : M W (AgentLoopError ProviderErrorSummary) A) :
  keeps (budgeted 0 0) m (λ _, True) → keeps (budgeted 0 0) (select backends m) (λ _, True).
Proof.
  intros Hm. unfold select. apply keeps_bind; [apply keeps_ask, budgeted_worldless|].
  intros [| |]; [by apply keeps_err..|done].
Qed.

(** ** The agent loop *)

Context (HP_model : ∀ path agent, P (Effect_.Model path agent)).

Lemma keeps_run_tool_call node observation acc call :
  oc_agent observation = an_agent node →
  (∀ tool, tool ∈ an_tools node → P (Effect_.Tool (oc_node_path observation) (an_agent node) tool)) →
  keeps (budgeted 0 0) (run_tool_call backends limits node observation acc call) (λ _, True).
Proof.
  intros Hobs HP. unfold run_tool_call. apply keeps_bind; [apply keeps_check_cancelled|intros _].
  destruct (mem (tc_tool call) (an_tools node)) eqn:Em; [|by apply keeps_err]. apply mem_true in Em.
  unfold keeps. eapply triple_bind; [apply reserve_tool_spec|intros []]. cbv zeta.
  eapply (triple_bind _ (λ _, budgeted 0 1)).
  { apply keeps_reserved; [done..|apply keeps_observe]. }
  intros []. eapply (triple_bind _ (λ _, budgeted 0 0)).
  { rewrite Hobs. by apply log_tool, HP. }
  intros [].
  change (keeps (budgeted 0 0)
    (let! output := select backends (map_err (ToolFailed (tc_tool call))
                           (call_world (execute backends observation call))) in
     let! _ := observe (tool_finished backends observation call output) in
     mret (acc.1 ++ [ToolResult (tc_id call) (tx_output output) (tx_is_error output)],
           count_tool_call acc.2)) (λ _, True)).
  apply keeps_bind; [apply keeps_select, keeps_map_err, keeps_call; [apply budgeted_worldless|done]|intros output].
  apply keeps_bind; [apply keeps_observe|intros _]. apply keeps_ret.
Qed.

Lemma keeps_run_step node handoff seed path step st :
  (∀ tool, tool ∈ an_tools node → P (Effect_.Tool path (an_agent node) tool)) →
  keeps (budgeted 0 0) (run_step backends limits node handoff seed path step st) (λ _, True).
Proof.
  intros HP. unfold run_step. cbv zeta.
  apply keeps_bind; [apply keeps_check_cancelled|intros _].
  apply keeps_bind; [apply keeps_observe|intros _].
  apply keeps_bind; [apply keeps_map_err, keeps_call; [apply budgeted_worldless|done]|intros inputs].
  unfold keeps at 1. eapply triple_bind; [apply reserve_model_spec|intros []].
  eapply (triple_bind _ (λ _, budgeted 1 0)).
  { apply keeps_reserved; [done..|]. apply keeps_map_err, keeps_call; [apply budgeted_worldless|done]. }
  intros prompt.
  eapply (triple_bind _ (λ _, budgeted 0 0)); [by apply log_model, HP_model|intros []].
  match goal with |- triple (budgeted 0 0) ?m _ _ => change (keeps (budgeted 0 0) m (λ _, True)) end.
  apply keeps_bind; [apply keeps_select, keeps_map_err, keeps_call; [apply budgeted_worldless|done]|intros turn].
  apply keeps_bind; [apply keeps_check_cancelled|intros _].
  apply keeps_bind; [apply keeps_record_tokens|intros _].
  apply keeps_bind; [apply keeps_observe|intros _].
  case_bool_decide.
  - apply keeps_bind; [apply keeps_observe|intros _]. apply keeps_ret.
  - apply keeps_bind; [apply keeps_mfold; intros; by apply keeps_run_tool_call|intros calls].
    apply keeps_bind; [apply keeps_observe|intros _]. apply keeps_ret.
Qed.

Lemma keeps_agent_run node handoff seed path :
  (∀ tool, tool ∈ an_tools node → P (Effect_.Tool path (an_agent node) tool)) →
  keeps (budgeted 0 0) (agent_run backends limits node handoff seed path) (λ _, True).
Proof.
  intros HP. unfold agent_run. generalize 1%Z as step, (Z.to_nat (an_max_steps node)) as left.
  match goal with |- ∀ _ _, keeps _ (run_steps _ _ _ _ _ _ _ _ ?st) _ => generalize st end.
  intros st step left. revert st step. induction left as [|left IH]; intros st step; [by apply keeps_err|].
  cbn [run_steps]. apply keeps_bind; [by apply keeps_run_step|]. intros [outcome|st']; [apply keeps_ret|apply IH].
Qed.

(** ** The engine *)

Context (HP_emit : ∀ event, P (Effect_.Emit event)).
Context (HP_evaluate : ∀ evaluator, P (Effect_.Evaluate evaluator)).
Context (HP_restore : ∀ request, P (Effect_.Restore request)).
Context (HP_tool : ∀ path a tool, agent_ok catalog policy limits a → tool ∈ an_tools a →
  P (Effect_.Tool path (an_agent a) tool)).
Context (HP_checkpoint : ∀ request,
  capability_ok catalog policy (cr_capability request) CapabilityKind.WorkspaceCheckpoint →
  P (Effect_.Checkpoint request)).
Context (HP_artifact : ∀ request,
  capability_ok catalog policy (arq_capability request) CapabilityKind.ArtifactStore →
  P (Effect_.Artifact request)).
Context (Horder : ∀ l w, (completion backends l w).1 ⊆ l).

Abbreviation I := (budgeted 0 0).

(** The outcomes a run of a validated blueprint may have. *)
Definition fine (e : stop ProviderErrorSummary) : Prop :=
  match e with OutOfFuel | Failed (MissingNode _) => False | _ => True end.

Lemma keeps_agent_errors {A} (m : M W (AgentLoopError ProviderErrorSummary) A) :
  keeps I m (λ _, True) → keeps I (agent_errors m) fine.
Proof. intros H. by apply keeps_map_err. Qed.

Lemma keeps_emit event : keeps I (emit (ProviderErrorSummary := ProviderErrorSummary) event) fine.
Proof. apply keeps_log; [apply HP_emit|done..]. Qed.

Lemma keeps_fail {A} e : fine (Failed e) → keeps I (fail (W := W) (A := A) e) fine.
Proof. intros. by apply keeps_err. Qed.

Lemma keeps_evaluate evaluator candidate :
  keeps I (evaluate_with_deadline backends catalog limits evaluator candidate) fine.
Proof.
  unfold evaluate_with_deadline. cbv zeta. apply keeps_bind.
  { apply keeps_agent_errors. destruct (match _ with Some _ => _ | None => _ end); [|apply keeps_ret].
    eapply triple_weaken, reserve_model_spec; [done| |done].
    intros [] s Hs. by eapply budgeted_less in Hs. }
  intros _. apply keeps_bind; [by apply keeps_log|intros _].
  apply keeps_bind; [apply keeps_ask, budgeted_worldless|]. intros [| |]; [by apply keeps_fail..|].
  apply keeps_bind; [apply keeps_map_err, keeps_call; [apply budgeted_worldless|done]|intros outcome].
  apply keeps_bind; [apply keeps_agent_errors, keeps_record_tokens|intros _]. apply keeps_ret.
Qed.

Lemma keeps_restore taken : keeps I (restore_if_taken (ProviderErrorSummary := ProviderErrorSummary) backends policy taken) fine.
Proof.
  destruct taken as [handle|]; [|apply keeps_ret]. unfold restore_if_taken, restore_checkpoint. cbv zeta.
  apply keeps_bind; [by apply keeps_log|intros _].
  apply keeps_map_err, keeps_call; [apply budgeted_worldless|done].
Qed.

Lemma keeps_take_checkpoint root path capability iteration :
  (∀ id, capability = Some id → capability_ok catalog policy id CapabilityKind.WorkspaceCheckpoint) →
  keeps I (take_checkpoint backends policy root path capability iteration) fine.
Proof.
  intros Hc. destruct capability as [id|]; [|apply keeps_ret]. unfold take_checkpoint. cbv zeta.
  apply keeps_bind; [apply keeps_agent_errors, keeps_check_cancelled|intros _].
  apply keeps_bind; [apply keeps_log; [apply HP_checkpoint, Hc|..]; done|intros _].
  apply keeps_bind; [apply keeps_map_err, keeps_call; [apply budgeted_worldless|done]|intros handle].
  apply keeps_bind; [apply keeps_agent_errors, keeps_check_cancelled|intros _].
  apply keeps_bind; [apply keeps_agent_errors, keeps_check_time|intros _]. apply keeps_ret.
Qed.

Lemma keeps_or_restore {A} taken (m : M W (stop ProviderErrorSummary) A) :
  keeps I m fine → keeps I (or_restore backends policy taken m) fine.
Proof.
  intros Hm. unfold or_restore, keeps.
  eapply (triple_bind _ (λ r s, I s ∧ match r with Ok _ => True | Err e => fine e end)).
  { apply triple_catch. eapply triple_weaken, Hm; [done|by intros|by intros]. }
  intros [a|[|e]] s [Hs Hf]; [done|done|].
  apply (keeps_bind I fine _ _ (keeps_restore taken) (λ _, keeps_fail e Hf) s Hs).
Qed.

Lemma keeps_loop_iteration exec_body root (l : LoopNode) path iteration st :
  loop_ok catalog policy limits l → (∀ scope st, keeps I (exec_body scope st) fine) →
  keeps I (loop_iteration (MessageT := MessageT) backends catalog policy limits root exec_body l path iteration st) fine.
Proof.
  intros (_&_&_&Hc) Hb. unfold loop_iteration. cbv zeta.
  apply keeps_bind; [apply keeps_emit|intros _].
  apply keeps_bind; [by apply keeps_take_checkpoint|intros taken].
  apply keeps_bind; [by apply keeps_or_restore|intros completed].
  apply keeps_bind; [apply keeps_or_restore, keeps_evaluate|intros evaluation].
  apply keeps_bind; [apply keeps_emit|intros _].
  destruct evaluation; [apply keeps_ret|..];
    (apply keeps_bind; [apply keeps_restore|intros _]; apply keeps_ret).
Qed.

Lemma keeps_loop_iterations exec_body root (l : LoopNode) path iteration left st :
  loop_ok catalog policy limits l → (∀ scope st, keeps I (exec_body scope st) fine) →
  keeps I (loop_iterations (MessageT := MessageT) backends catalog policy limits root exec_body l path iteration left st) fine.
Proof.
  intros Hl Hb. revert iteration st. induction left as [|left IH]; intros iteration st; [apply keeps_ret|].
  cbn [loop_iterations]. apply keeps_bind; [by apply keeps_loop_iteration|]. intros [[] st']; [apply keeps_ret|apply IH].
Qed.

Lemma keeps_collect exec_branch mode branches successes failures :
  (∀ b, b ∈ branches → keeps I (exec_branch b) fine) →
  keeps I (collect_branches (W := W) (MessageT := MessageT) provider_message exec_branch mode branches successes failures) fine.
Proof.
  revert successes failures. induction branches as [|b bs IH]; intros successes failures Hb; [apply keeps_ret|].
  cbn [collect_branches]. unfold keeps.
  eapply (triple_bind _ (λ r s, I s ∧ match r with Ok _ => True | Err e => fine e end)).
  { apply triple_catch. eapply triple_weaken, (Hb b); [done|by intros|by intros|by left]. }
  assert (∀ b, b ∈ bs → keeps I (exec_branch b) fine) as Hbs by (intros; apply Hb; by right).
  intros [a|[|e]] s [Hs Hf]; [by apply (IH _ _ Hbs s Hs)|done|].
  destruct mode; [done|by apply (IH _ _ Hbs s Hs)].
Qed.

Lemma keeps_end_result g root scope e st : end_ok catalog policy g e →
  keeps I (end_result (MessageT := MessageT) backends policy root scope e st) fine.
Proof.
  intros He. unfold end_result. unfold end_ok in He. destruct (en_result e) as [|source|capability name].
  - apply keeps_ret.
  - destruct (_ !! _); [apply keeps_ret|by apply keeps_fail].
  - destruct He as [_ Hc]. cbv zeta.
    apply keeps_bind; [apply keeps_agent_errors, keeps_check_cancelled|intros _].
    apply keeps_bind; [apply keeps_log; [by apply HP_artifact|done..]|intros _].
    apply keeps_bind; [apply keeps_map_err, keeps_call; [apply budgeted_worldless|done]|intros id].
    apply keeps_bind; [apply keeps_agent_errors, keeps_check_cancelled|intros _].
    apply keeps_bind; [apply keeps_agent_errors, keeps_check_time|intros _]. apply keeps_ret.
Qed.

(** Fuel above the length of every deep walk is enough, whatever the backends answer. *)
Lemma keeps_execute_graph fuel root g x stop_before scope st :
  graph_ok catalog policy limits g → x ∈ keys g → (∀ n, deep_walk g x n → n < Z.of_nat fuel)%Z →
  keeps I (execute_graph provider_message backends catalog policy limits root fuel g x stop_before scope st) fine.
Proof.
  revert g x stop_before scope st. induction fuel as [|fuel IH]; intros g x stop_before scope st Hg Hx Hf.
  { specialize (Hf 0%Z (deep_stop g x)). lia. }
  cbn [execute_graph]. case_bool_decide; [apply keeps_ret|].
  apply keeps_bind; [apply keeps_agent_errors, keeps_check_time|intros _].
  apply keeps_bind; [apply keeps_agent_errors, keeps_check_cancelled|intros _].
  apply map_get_elem in Hx as [node Hx]. rewrite Hx.
  inversion Hg as [? (_&Ht&_) _ Hok Hbodies]; subst.
  pose proof (map_get_Some_elem _ _ _ Hx) as Hin. specialize (Hok _ _ Hin).
  assert (∀ y stop scope st, y ∈ outgoing node →
    keeps I (execute_graph provider_message backends catalog policy limits root fuel g y stop scope st) fine) as Hnext.
  { intros y stop sc st' Hy. apply IH; [done|by eapply Ht|]. intros n Hn.
    specialize (Hf (1 + 0 + n)%Z ltac:(by eapply deep_step; [|constructor|..])). lia. }
  cbv zeta. apply keeps_bind; [apply keeps_emit|intros _].
  destruct node as [a|p|gate|l|e]; simpl in Hok, Hnext.
  - apply keeps_bind; [apply keeps_agent_errors, keeps_agent_run; auto|intros outcome].
    apply keeps_bind; [apply keeps_emit|intros _]. apply Hnext. by left.
  - unfold keeps. eapply (triple_bind _ (λ order s, I s ∧ order ⊆ pn_branches p)).
    { intros s Hs. unfold ask_world. specialize (Horder (pn_branches p) (world s)).
      destruct (completion _ _ _) as [order w]. by split. }
    intros order s [Hs Ho]. revert s Hs.
    match goal with |- ∀ s, I s → match ?m s with _ => _ end => change (keeps I m fine) end.
    apply keeps_bind; [apply keeps_collect; intros b Hb; apply Hnext; set_solver|intros r].
    apply keeps_bind; [apply keeps_emit|intros _]. apply Hnext. set_solver.
  - apply keeps_bind; [apply keeps_evaluate|intros evaluation].
    apply keeps_bind; [apply keeps_emit|intros _]. apply keeps_bind; [apply keeps_emit|intros _].
    apply Hnext. destruct evaluation; set_solver.
  - apply keeps_bind.
    + apply keeps_loop_iterations; [done|]. intros sc st'. pose proof (Hbodies _ _ Hin) as Hbody.
      apply IH; [done|by inversion Hbody as [? (?&_) _ _ _]|]. intros n Hn.
      specialize (Hf (1 + n)%Z ltac:(eapply deep_last; [done|by constructor])). lia.
    + intros [pass st']. apply keeps_bind; [apply keeps_emit|intros _]. apply Hnext. destruct pass; set_solver.
  - apply keeps_bind; [by eapply keeps_end_result|intros result].
    apply keeps_bind; [apply keeps_emit|intros _]. apply keeps_ret.
Qed.
End traversal.

(** ** Runs *)

(** Opens the steps of a run at a state. *)
Ltac open_run :=
  unfold mbind, catch, call_world, emit, log, get_usage, mret, fail, merr; cbn [world usage trace].

(** The call limits are 32-bit values. *)
Definition limits_u32 (l : ExecutionLimits) : Prop :=
  (max_model_calls l < 2 ^ 32 ∧ max_tool_calls l < 2 ^ 32)%Z.

(** One unit more than the allowed graph depth. *)
Definition run_fuel (b : SchedulerBlueprint) : nat := S (Z.to_nat (max_graph_depth (bp_limits b))).

(** An effect that the policy permits. *)
Definition permitted (c : SchedulerCatalog) (p : PolicyEnvelope) (e : effect) : Prop :=
  match e with
  | Effect_.Tool _ agent tool =>
      ∃ entry agent_entry, map_get tool (cat_tools c) = Some entry ∧
        map_get agent (cat_agents c) = Some agent_entry ∧ tool ∈ ae_available_tools agent_entry ∧
        tool ∈ pol_allowed_tools p ∧ te_effect entry ∈ pol_allowed_effects p
  | Effect_.Checkpoint request => capability_ok c p (cr_capability request) CapabilityKind.WorkspaceCheckpoint
  | Effect_.Artifact request => capability_ok c p (arq_capability request) CapabilityKind.ArtifactStore
  | _ => True
  end.

Definition not_finalize (e : effect) : Prop := match e with Effect_.Finalize _ => False | _ => True end.

Section runs.
Context {W Json PromptSurface MessageT ProviderErrorSummary F : Type}.
Context (provider_message : ProviderErrorSummary → string).
Context (backends : Backends W Json PromptSurface MessageT ProviderErrorSummary).
Context (fingerprint : SchedulerCatalog → result string F).

Implicit Types (b : SchedulerBlueprint) (c : SchedulerCatalog) (p : PolicyEnvelope) (s : St W).

Abbreviation text := (engine_error_text ProviderErrorSummary provider_message).

(** The execution inside a run, from a fresh budget and an empty trace. *)
Lemma execution_spec b c p (P : effect → Prop) root_dir st s :
  representable b → validate b c p = Some (Ok tt) → limits_u32 (bp_limits b) →
  (∀ l w, (completion backends l w).1 ≡ₚ l) →
  (∀ e, permitted c p e → not_finalize e → P e) → budgeted (bp_limits b) P 0 0 s →
  match execute_graph (MessageT := MessageT) provider_message backends c p (bp_limits b) root_dir
          (run_fuel b) (root b) (bp_entry b) None "root" st s with
  | (Ok _, s') => budgeted (bp_limits b) P 0 0 s'
  | (Err e, s') => budgeted (bp_limits b) P 0 0 s' ∧ fine e
  end.
Proof.
  intros Hr Hv Hl Ho HP Hs. destruct (validate_spec b c p Hr) as (r&Hv'&Hok). rewrite Hv in Hv'.
  injection Hv' as <-. destruct (proj1 Hok eq_refl) as (_&_&_&_&_&_&Hg&_&Hd).
  assert (bp_entry b ∈ keys (root b)) as Hentry by (inversion Hg as [? (?&_) _ _ _]; done).
  apply (keeps_execute_graph provider_message backends c p (bp_limits b) Hl P); try done;
    try (intros; by apply HP).
  - intros path a tool (agent&Ha&_&_&_&_&Ht&_) Hin. apply HP; [|done].
    destruct (Ht tool Hin) as (entry&?&?&?&?). by exists entry, agent.
  - intros l w. by rewrite (Ho l w).
  - intros n Hn. unfold run_fuel. specialize (Hd n Hn). lia.
Qed.

(** The states a run passes through: the outcome of its execution, its one finalization, and its
    last event. *)
Lemma engine_run_inv b c p (P : effect → Prop) request s r s' :
  representable b → validate b c p = Some (Ok tt) → limits_u32 (bp_limits b) →
  (∀ l w, (completion backends l w).1 ≡ₚ l) →
  (∀ e, permitted c p e → not_finalize e → P e) → trace s = [] →
  engine_run provider_message backends c p fingerprint (run_fuel b) b request s = (r, s') →
  (∃ m, fingerprint c = Err m ∧ r = Err (Failed (CatalogFingerprint m)) ∧ s' = s) ∨
  ∃ pre d ev, trace s' = pre ++ [Effect_.Finalize d; Effect_.Emit ev] ∧ Forall P pre ∧
    (count is_model (trace s') ≤ Z.max 0 (max_model_calls (bp_limits b)))%Z ∧
    (count is_tool (trace s') ≤ Z.max 0 (max_tool_calls (bp_limits b)))%Z ∧
    match r with
    | Ok out => d = Commit ∧ ev = Event.RunCompleted (ro_usage out)
    | Err (Failed e) => ev = Event.RunFailed (text e) ∧ (∀ x, e ≠ MissingNode x) ∧
        (d = Commit → ∃ m, e = Cleanup "successful execution" m)
    | Err OutOfFuel => False
    end.
Proof.
  intros Hr Hv Hl Ho HP Htr. unfold engine_run. fold (root b).
  destruct (fingerprint c) as [f|m]; [|intros [= <- <-]; left; by exists m].
  unfold mbind at 1, put_usage. cbn [world trace]. unfold mbind at 1. cbn [emit log world usage trace].
  rewrite Htr. set (s0 := {| world := world s; usage := _; trace := _ |}).
  set (st := branch_new _ _).
  assert (budgeted (bp_limits b) P 0 0 s0) as H0.
  { subst s0. unfold budgeted. simpl. unfold count. simpl. split_and!; try lia.
    constructor; [by apply HP|constructor]. }
  pose proof (execution_spec b c p P (req_workspace_root request) st s0 Hr Hv Hl Ho HP H0) as Hx.
  change (g_entry (root b)) with (bp_entry b). unfold mbind at 1. unfold catch at 1. intros H. right. revert H.
  assert (∀ s1 d ev, budgeted (bp_limits b) P 0 0 s1 →
    let t := (trace s1 ++ [Effect_.Finalize d]) ++ [Effect_.Emit ev] in
    t = trace s1 ++ [Effect_.Finalize d; Effect_.Emit ev] ∧ Forall P (trace s1) ∧
    (count is_model t ≤ Z.max 0 (max_model_calls (bp_limits b)))%Z ∧
    (count is_tool t ≤ Z.max 0 (max_tool_calls (bp_limits b)))%Z) as Hend.
  { intros s1 d ev (?&?&?&?&?). simpl. rewrite !count_snoc, <- app_assoc. simpl. split_and!; [done|done|lia|lia]. }
  destruct (execute_graph _ _ _ _ _ _ _ _ _ _ _ _ s0) as [[st'|[|e]] s1].
  - open_run. destruct (finalize backends Commit (world s1)) as [[[]|m] w]; open_run; intros [= <- <-];
      eexists (trace s1), Commit, _;
      (edestruct (Hend s1 Commit) as (Ht&HF&Hm&Hto); [exact Hx|]);
      (split; [exact Ht|split; [exact HF|split; [exact Hm|split; [exact Hto|]]]]); [done|].
    split_and!; [done|done|by exists m].
  - by destruct Hx.
  - destruct Hx as [Hx Hf]. open_run. destruct (finalize backends Rollback (world s1)) as [[[]|m] w]; open_run;
      intros [= <- <-]; eexists (trace s1), Rollback, _;
      (edestruct (Hend s1 Rollback) as (Ht&HF&Hm&Hto); [exact Hx|]);
      (split; [exact Ht|split; [exact HF|split; [exact Hm|split; [exact Hto|]]]]);
      (split_and!; [done| |done]); [|done]. by intros x ->.
Qed.

(** ** Properties *)

(** C10. A run of a validated blueprint always ends, whatever the backends answer: with the allowed
    graph depth plus one as fuel the engine never runs out of it, it never reaches a node that does
    not exist, and unless the catalog cannot be fingerprinted it finalizes exactly once, after every
    other effect, followed only by the event that reports the outcome; it commits if the execution
    succeeded, and the only error of a committed run is the failure of that commit. *)
Theorem validated_run_ends_and_finalizes_once b c p request s r s' :
  representable b → validate b c p = Some (Ok tt) → limits_u32 (bp_limits b) →
  (∀ l w, (completion backends l w).1 ≡ₚ l) → trace s = [] →
  engine_run provider_message backends c p fingerprint (run_fuel b) b request s = (r, s') →
  (∃ m, fingerprint c = Err m ∧ r = Err (Failed (CatalogFingerprint m)) ∧ s' = s) ∨
  ∃ pre d ev, trace s' = pre ++ [Effect_.Finalize d; Effect_.Emit ev] ∧ Forall not_finalize pre ∧
    match r with
    | Ok out => d = Commit ∧ ev = Event.RunCompleted (ro_usage out)
    | Err (Failed e) => ev = Event.RunFailed (text e) ∧ (∀ x, e ≠ MissingNode x) ∧
        (d = Commit → ∃ m, e = Cleanup "successful execution" m)
    | Err OutOfFuel => False
    end.
Proof.
  intros Hr Hv Hl Ho Ht H.
  destruct (engine_run_inv b c p not_finalize request s r s' Hr Hv Hl Ho) as [?|(pre&d&ev&?&?&_&_&?)];
    [by intros|done|done|by left|right; by exists pre, d, ev].
Qed.

(** C11. A run of a validated blueprint stays inside its policy and its budget, whatever the models
    ask for: every tool it executes is known, exposed by the agent that called it, allowed by the
    policy and has an allowed effect; every checkpoint and artifact goes to an allowed capability of
    the right kind; and it attempts at most as many model calls and tool calls as the policy's hard
    limits. *)
Theorem validated_run_respects_policy_and_budget b c p request s r s' :
  representable b → validate b c p = Some (Ok tt) → limits_u32 (bp_limits b) →
  (∀ l w, (completion backends l w).1 ≡ₚ l) → trace s = [] →
  engine_run provider_message backends c p fingerprint (run_fuel b) b request s = (r, s') →
  Forall (permitted c p) (trace s') ∧
  (count is_model (trace s') ≤ Z.max 0 (max_model_calls (pol_hard_limits p)))%Z ∧
  (count is_tool (trace s') ≤ Z.max 0 (max_tool_calls (pol_hard_limits p)))%Z.
Proof.
  intros Hr Hv Hl Ho Ht H.
  destruct (engine_run_inv b c p (permitted c p) request s r s' Hr Hv Hl Ho)
    as [(m&_&_&->)|(pre&d&ev&Htr&Hp&Hm&Hto&_)]; [by intros|done|done| |].
  { rewrite Ht. unfold count. simpl. split_and!; [constructor|lia..]. }
  destruct (validate_spec b c p Hr) as (r0&Hv'&Hok). rewrite Hv in Hv'. injection Hv' as <-.
  destruct (proj1 Hok eq_refl) as (_&_&_&_&_&(?&?&_)&_). split_and!; [|lia..].
  rewrite Htr. apply Forall_app_2; [done|]. by repeat constructor.
Qed.
End runs.

(** ** A concrete run *)

(** Backends whose model asks for the tool [read] on every other invocation; the world counts the
    invocations. *)
Definition demo_backends : Backends nat unit unit unit string := {|
  is_cancelled := λ w, (false, w);
  deadline_passed := λ w, (false, w);
  first_of := λ w, (OperationFirst, w);
  build_prompt := λ _ _ _ _ _ w, (Ok tt, w);
  invoke := λ _ _ w,
    (Ok {| at_content := Some "done"; at_reasoning := None;
           at_tool_calls := if Nat.even w then [{| tc_id := "1"; tc_tool := "read"; tc_arguments := tt |}]
                            else [];
           at_usage := usage_default; at_finish_reason := None; at_reasoning_continuation := None |}, S w);
  execute := λ _ _ w, (Ok {| tx_output := "text"; tx_title := None; tx_metadata := None;
                             tx_is_error := false |}, w);
  step_started := λ _ _ w, (Ok tt, w);
  take_boundary_inputs := λ _ w, (Ok [], w);
  assistant_turn := λ _ _ w, (Ok tt, w);
  tool_started := λ _ _ w, (Ok tt, w);
  tool_finished := λ _ _ _ w, (Ok tt, w);
  step_finished := λ _ _ _ w, (Ok tt, w);
  evaluate_candidate := λ _ _ w, (Ok {| eo_evaluation := if bool_decide (w < 9) then Fail else Pass;
                                        eo_usage := usage_default |}, w);
  checkpoint := λ r w, (Ok {| ch_capability := cr_capability r; ch_workspace_root := "/w"; ch_id := "c";
                              ch_iteration := cr_iteration r |}, w);
  restore := λ _ w, (Ok tt, w);
  store_artifact := λ _ w, (Ok "artifact", w);
  finalize := λ _ w, (Ok tt, w);
  completion := λ l w, (reverse l, w) |}.

Definition demo_request : RunRequest (MessageT := unit) := {|
  req_handoff := {| hp_goal := "goal"; hp_constraints := []; hp_inputs := ∅; hp_artifact_refs := [] |};
  req_conversation_seed := []; req_workspace_root := "/w"; req_workspace_summary := "" |}.

Definition demo_start : St nat := {| world := 0; usage := usage_default; trace := [] |}.

Definition demo_run := engine_run (λ m : string, m) demo_backends demo_catalog demo_policy
  (λ _, Ok tt) (run_fuel demo_blueprint) demo_blueprint demo_request demo_start.

(** The run calls ten models and five tools, and tries the loop twice. *)
Example demo_run_counts :
  is_ok demo_run.1 = true ∧ count is_model (trace demo_run.2) = 10%Z ∧
  count is_tool (trace demo_run.2) = 5%Z ∧
  length (filter (λ e, Is_true match e with Effect_.Checkpoint _ => true | _ => false end)
            (trace demo_run.2)) = 2.
Proof. by vm_compute. Qed.

Lemma demo_completion l w : (completion demo_backends l w).1 ≡ₚ l.
Proof. apply reverse_Permutation. Qed.

Lemma validated_run_ends_and_finalizes_once_witness :
  ∃ pre d ev, trace demo_run.2 = pre ++ [Effect_.Finalize d; Effect_.Emit ev] ∧ Forall not_finalize pre.
Proof.
  destruct (validated_run_ends_and_finalizes_once (λ m : string, m) demo_backends
    (λ _ : SchedulerCatalog, Ok tt) demo_blueprint demo_catalog demo_policy demo_request demo_start
    demo_run.1 demo_run.2 demo_representable ltac:(by vm_compute) ltac:(by vm_compute)
    demo_completion eq_refl (surjective_pairing _)) as [(m&[=]&_)|(pre&d&ev&Ht&Hp&_)].
  exists pre, d, ev. split; [exact Ht|exact Hp].
Defined.

Lemma validated_run_respects_policy_and_budget_witness :
  Forall (permitted demo_catalog demo_policy) (trace demo_run.2) ∧
  (count is_model (trace demo_run.2) ≤ 32)%Z ∧ (count is_tool (trace demo_run.2) ≤ 64)%Z.
Proof.
  apply (validated_run_respects_policy_and_budget (λ m : string, m) demo_backends
    (λ _ : SchedulerCatalog, Ok tt) demo_blueprint demo_catalog demo_policy demo_request demo_start
    demo_run.1 demo_run.2 demo_representable ltac:(by vm_compute) ltac:(by vm_compute)
    demo_completion eq_refl (surjective_pairing _)).
Defined.
