(* ===== verification/Templates.v ===== *)
(** * Scheduler templates

    crates/agendao-orchestrator/src/templates.rs: the five blueprints the product
    builds itself (direct, plan, coordinate, verify, autoresearch) from a handful of
    parameters, and the theorem that says exactly when the validator of Blueprint.v
    accepts what they build.  [BTreeMap]s and [BTreeSet]s are ordered lists, as in
    Blueprint.v. *)

From Stdlib Require Import DecimalFacts DecimalPos DecimalN.
From S2P Require Import Prelude BlueprintGraph Blueprint BlueprintSpec BlueprintProps.

Module Template.
Inductive TemplateId := Direct | Plan | Coordinate | Verify | Autoresearch.
#[export] Instance template_id_eq_dec : EqDecision TemplateId.
Proof. solve_decision. Defined.

Inductive TemplateError :=
| MissingEvaluator (template : TemplateId)
| TooFewCollaborators.
End Template.
Export (hints) Template.
Abbreviation TemplateId := Template.TemplateId.
Abbreviation TemplateError := Template.TemplateError.

Record TemplateParameters := {
  tp_name : string;
  tp_primary_agent : string;
  tp_planning_agent : option string;
  tp_collaborators : list string;
  tp_agent_skills : list (string * list string);
  tp_agent_tools : list (string * list string);
  tp_agent_max_steps : list (string * Z);
  tp_evaluator : option string;
  tp_checkpoint : option string;
  tp_limits : ExecutionLimits;
  tp_output : OutputContract;
}.

Section templates.
Context (parameters : TemplateParameters).

Definition blueprint (entry : string) (nodes : list (NodeId * NodeSpec)) : SchedulerBlueprint := {|
  bp_schema := V1; bp_name := tp_name parameters; bp_entry := entry; bp_nodes := nodes;
  bp_limits := tp_limits parameters; bp_output := tp_output parameters |}.

Definition agent (agent : string) (next : string) : NodeSpec := Node.Agent {|
  an_agent := agent;
  an_skills := default [] (map_get agent (tp_agent_skills parameters));
  an_tools := default [] (map_get agent (tp_agent_tools parameters));
  an_required_model_capabilities := [];
  an_max_steps := Z.min (default (max_agent_steps (tp_limits parameters))
                           (map_get agent (tp_agent_max_steps parameters)))
                    (max_agent_steps (tp_limits parameters));
  an_next := next |}.

Definition end_ : NodeSpec := Node.End {| en_result := Source.LastNode |}.

Definition direct : SchedulerBlueprint :=
  blueprint "execute"
    (map_from [("execute", agent (tp_primary_agent parameters) "done"); ("done", end_)]).

Definition plan : SchedulerBlueprint :=
  let planner := default (tp_primary_agent parameters) (tp_planning_agent parameters) in
  blueprint "plan"
    (map_from [("plan", agent planner "execute");
               ("execute", agent (tp_primary_agent parameters) "done"); ("done", end_)]).

(** [format!("branch-{}", index + 1)] *)
Definition branch_id (index : nat) : NodeId := "branch-" +:+ dec_string (N.of_nat (index + 1)).

Definition coordinate : result TemplateError SchedulerBlueprint :=
  reject? bool_decide (length (tp_collaborators parameters) < 2)
    with Template.TooFewCollaborators in
  let branches := imap (λ index _, branch_id index) (tp_collaborators parameters) in
  let nodes := fold_left (λ nodes e, map_insert e.1 (agent e.2 "synthesize") nodes)
                 (imap (λ index collaborator, (branch_id index, collaborator))
                    (tp_collaborators parameters)) [] in
  let nodes := map_insert "coordinate"
    (Node.Parallel {|
       pn_max_parallelism := Z.min (max_parallelism (tp_limits parameters)) (len_u32 branches);
       pn_branches := branches; pn_join := "synthesize";
       pn_failure_mode := FailureMode.Collect |}) nodes in
  let nodes := map_insert "synthesize" (agent (tp_primary_agent parameters) "done") nodes in
  let nodes := map_insert "done" end_ nodes in
  Ok (blueprint "coordinate" nodes).

Definition verify : result TemplateError SchedulerBlueprint :=
  let? evaluator := ok_or (tp_evaluator parameters) (Template.MissingEvaluator Template.Verify) in
  Ok (blueprint "execute"
        (map_from [("execute", agent (tp_primary_agent parameters) "verify");
                   ("verify", Node.Gate {| gn_evaluator := evaluator; gn_on_pass := "accepted";
                                           gn_on_fail := "rejected";
                                           gn_on_indeterminate := "uncertain" |});
                   ("accepted", end_); ("rejected", end_); ("uncertain", end_)])).

Definition autoresearch : result TemplateError SchedulerBlueprint :=
  let? evaluator := ok_or (tp_evaluator parameters)
                      (Template.MissingEvaluator Template.Autoresearch) in
  let body : SchedulerGraph := {|
    g_entry := "experiment";
    g_nodes := map_from [("experiment", agent (tp_primary_agent parameters) "iteration-done");
                         ("iteration-done", end_)] |} in
  Ok (blueprint "research"
        (map_from [("research", Node.Loop {|
                      ln_body := body; ln_evaluator := evaluator;
                      ln_max_iterations := max_loop_iterations (tp_limits parameters);
                      ln_checkpoint := tp_checkpoint parameters;
                      ln_on_satisfied := "accepted"; ln_on_exhausted := "exhausted" |});
                   ("accepted", end_); ("exhausted", end_)])).

Definition build_template (template : TemplateId) : result TemplateError SchedulerBlueprint :=
  match template with
  | Template.Direct => Ok direct
  | Template.Plan => Ok plan
  | Template.Coordinate => coordinate
  | Template.Verify => verify
  | Template.Autoresearch => autoresearch
  end.
End templates.

(** ** What the validator asks of the parameters *)

(** The agents a template runs, and the evaluator and checkpoint it uses. *)
Definition template_agents (t : TemplateId) (ps : TemplateParameters) : list string :=
  match t with
  | Template.Plan => [default (tp_primary_agent ps) (tp_planning_agent ps); tp_primary_agent ps]
  | Template.Coordinate => tp_primary_agent ps :: tp_collaborators ps
  | _ => [tp_primary_agent ps]
  end.

Definition template_evaluator (t : TemplateId) (ps : TemplateParameters) : option string :=
  match t with Template.Verify | Template.Autoresearch => tp_evaluator ps | _ => None end.

Definition template_checkpoint (t : TemplateId) (ps : TemplateParameters) : option string :=
  match t with Template.Autoresearch => tp_checkpoint ps | _ => None end.

(** The nodes of a template's blueprint, bodies included, and its depth. *)
Definition template_size (t : TemplateId) (ps : TemplateParameters) : Z :=
  match t with
  | Template.Direct => 2
  | Template.Plan => 3
  | Template.Coordinate => 3 + Z.of_nat (length (tp_collaborators ps))
  | Template.Verify | Template.Autoresearch => 5
  end.

Definition template_depth (t : TemplateId) : Z :=
  match t with
  | Template.Direct => 2
  | Template.Plan | Template.Verify => 3
  | Template.Coordinate | Template.Autoresearch => 4
  end.

(** An agent as the parameters configure it: known, allowed at least one step and no more than the
    catalog does, with skills and tools it has and the policy permits. *)
Definition agent_usable (c : SchedulerCatalog) (p : PolicyEnvelope) (ps : TemplateParameters)
    (a : string) : Prop :=
  ∃ entry, map_get a (cat_agents c) = Some entry ∧
    map_get a (tp_agent_max_steps ps) ≠ Some 0%Z ∧
    (max_agent_steps (tp_limits ps) ≤ ae_max_steps entry ∨
     ∃ steps, map_get a (tp_agent_max_steps ps) = Some steps ∧ steps ≤ ae_max_steps entry)%Z ∧
    (∀ skills skill, map_get a (tp_agent_skills ps) = Some skills → skill ∈ skills →
       is_Some (map_get skill (cat_skills c)) ∧ skill ∈ ae_available_skills entry) ∧
    (∀ tools tool, map_get a (tp_agent_tools ps) = Some tools → tool ∈ tools →
       tool_ok c p entry tool).

Definition template_ok (t : TemplateId) (ps : TemplateParameters) (c : SchedulerCatalog)
    (p : PolicyEnvelope) : Prop :=
  identifier_ok (tp_name ps) ∧ catalog_ok c ∧ policy_ok c p ∧
  limits_ok (pol_hard_limits p) ∧ limits_ok (tp_limits ps) ∧
  limits_within (tp_limits ps) (pol_hard_limits p) ∧
  (∀ a, a ∈ template_agents t ps → agent_usable c p ps a) ∧
  (∀ e, template_evaluator t ps = Some e → evaluator_ok c e) ∧
  (∀ id, template_checkpoint t ps = Some id →
     capability_ok c p id CapabilityKind.WorkspaceCheckpoint) ∧
  (template_size t ps ≤ max_graph_nodes (tp_limits ps))%Z ∧
  (template_depth t ≤ max_graph_depth (tp_limits ps))%Z.

(** ** Ordered maps *)

Lemma map_insert_Permutation {A} key (v : A) m : key ∉ m.*1 → map_insert key v m ≡ₚ (key, v) :: m.
Proof.
  induction m as [|e m IH]; [done|]. rewrite fmap_cons, not_elem_of_cons. intros [Hk Hm]. simpl.
  rewrite bool_decide_eq_false_2 by congruence. case_bool_decide; [done|].
  rewrite IH by done. apply Permutation_swap.
Qed.

Lemma map_from_Permutation {A} (l : list (string * A)) : NoDup l.*1 → map_from l ≡ₚ l.
Proof.
  unfold map_from. intros Hn.
  assert (∀ m, NoDup (l ++ m).*1 →
    fold_left (λ m e, map_insert e.1 e.2 m) l m ≡ₚ l ++ m) as H.
  { clear Hn. induction l as [|[k v] l IH]; [done|]. intros m. rewrite <- app_comm_cons, fmap_cons.
    intros [Hk Hn]%NoDup_cons. simpl. rewrite fmap_app, elem_of_app in Hk.
    rewrite IH; rewrite map_insert_Permutation by tauto.
    - by rewrite Permutation_middle.
    - rewrite <- Permutation_middle, fmap_cons. apply NoDup_cons. split; [|done].
      rewrite fmap_app, elem_of_app. tauto. }
  specialize (H []). rewrite app_nil_r in H. by apply H.
Qed.

(** ** Branch names *)

Lemma branch_id_ok i : (Z.of_nat i < 2 ^ 32)%Z → identifier_ok (branch_id i).
Proof.
  intros Hi. unfold branch_id. split_and!; [done| |].
  - apply graphic_trim. rewrite graphic_app. unfold dec_string. by rewrite graphic_uint.
  - rewrite str_length_app. pose proof (dec_string_length_bits (N.of_nat (i + 1)) 33) as H.
    unfold MAX_IDENTIFIER_LEN. change (String.length "branch-") with 7.
    assert (N.of_nat (i + 1) < 2 ^ N.of_nat 33)%N as Hb; [|specialize (H Hb); lia].
    change (2 ^ N.of_nat 33)%N with 8589934592%N. lia.
Qed.

Lemma branch_id_inj i j : branch_id i = branch_id j → i = j.
Proof.
  unfold branch_id. intros H. assert (dec_string (N.of_nat (i + 1)) = dec_string (N.of_nat (j + 1))) as E.
  { apply (f_equal (strip_prefix "branch-")) in H. rewrite !strip_prefix_app in H. by injection H. }
  apply dec_string_inj in E. lia.
Qed.

Lemma imap_NoDup {A B} (f : nat → A → B) (l : list A) :
  (∀ i j x y, f i x = f j y → i = j) → NoDup (imap f l).
Proof.
  intros H. apply NoDup_alt. intros i j x Hi Hj. rewrite list_lookup_imap in Hi, Hj.
  destruct (l !! i), (l !! j); simplify_eq/=. naive_solver.
Qed.

Lemma imap_nodes {A} (f : nat → NodeId) (n : A → NodeSpec) (l : list A) (m : list (NodeId * NodeSpec)) :
  fold_left (λ nodes e, map_insert e.1 (n e.2) nodes) (imap (λ i x, (f i, x)) l) m =
  fold_left (λ m e, map_insert e.1 e.2 m) (imap (λ i x, (f i, n x)) l) m.
Proof. revert f m. induction l as [|x l IH]; intros f m; [done|]. simpl. apply (IH (f ∘ S)). Qed.

(** ** Graphs with a measure *)

Lemma deep_inside_flat n m : (∀ l, n ≠ Node.Loop l) → deep_inside n m → m = 0%Z.
Proof. intros Hn. inversion 1; subst; [done|]. by edestruct Hn. Qed.

(** A graph whose nodes are [nodes], in any order, with a measure that every edge lowers by what the
    node it leaves may execute. *)
Record measured (g : SchedulerGraph) (nodes : list (NodeId * NodeSpec)) (h : NodeId → Z) : Prop := {
  m_nodes : g_nodes g ≡ₚ nodes;
  m_distinct : NoDup nodes.*1;
  m_ids : ∀ x, x ∈ nodes.*1 → identifier_ok x;
  m_entry : g_entry g ∈ nodes.*1;
  m_pos : ∀ x, (0 ≤ h x)%Z;
  m_step : ∀ id n m, (id, n) ∈ nodes → deep_inside n m →
    (1 + m ≤ h id)%Z ∧ ∀ y, y ∈ outgoing n → y ∈ nodes.*1 ∧ (1 + m + h y ≤ h id)%Z;
  m_reached : ∀ x, x ∈ nodes.*1 →
    x = g_entry g ∨ (h x < h (g_entry g))%Z ∧ ∃ id n, (id, n) ∈ nodes ∧ x ∈ outgoing n;
  m_end : ∃ id e, (id, Node.End e) ∈ nodes;
}.

Section measured.
Context g nodes h (M : measured g nodes h).

Lemma measured_keys x : x ∈ keys g ↔ x ∈ nodes.*1.
Proof. unfold keys. by rewrite (m_nodes _ _ _ M). Qed.

Lemma measured_elem id n : (id, n) ∈ g_nodes g ↔ (id, n) ∈ nodes.
Proof. by rewrite (m_nodes _ _ _ M). Qed.

Lemma measured_NoDup : NoDup (keys g).
Proof. unfold keys. rewrite (m_nodes _ _ _ M). apply (m_distinct _ _ _ M). Qed.

Lemma measured_get id n : (id, n) ∈ nodes → map_get id (g_nodes g) = Some n.
Proof. intros H. apply map_get_NoDup; [apply measured_NoDup|by apply measured_elem]. Qed.

Lemma measured_edge id n y : (id, n) ∈ nodes → y ∈ outgoing n → edge (successors g) id y.
Proof. intros H Hy. exists (outgoing n). unfold successors. by rewrite (measured_get id n). Qed.

Lemma measured_edge_lower x y : edge (successors g) x y → y ∈ nodes.*1 ∧ (h y < h x)%Z.
Proof.
  intros (l&Hl&Hy). apply fmap_Some in Hl as (n&Hn%map_get_Some_elem&->).
  apply measured_elem in Hn. destruct (m_step _ _ _ M _ _ _ Hn (inside_none n)) as [_ H].
  destruct (H y Hy). split; [done|lia].
Qed.

Lemma measured_acyclic : acyclic g.
Proof.
  intros x. assert (∀ y, tc (edge_in (successors g)) x y → (h y < h x)%Z) as H.
  { intros y Hy. induction Hy as [x y [Hxy _]|x y z [Hxy _] _ IH]; apply measured_edge_lower in Hxy; lia. }
  intros Hx%H. lia.
Qed.

Lemma measured_reached x : x ∈ nodes.*1 → rtc (edge (successors g)) (g_entry g) x.
Proof.
  intros Hx. assert (∃ k, k = Z.to_nat (h (g_entry g) - h x)) as [k Hk] by eauto.
  revert x Hx Hk. induction (lt_wf k) as [k _ IH]. intros x Hx ->.
  destruct (m_reached _ _ _ M x Hx) as [->|(Hlt&id&n&Hin&Hy)]; [done|].
  pose proof (measured_edge _ _ _ Hin Hy) as He. destruct (measured_edge_lower _ _ He).
  eapply rtc_r; [|exact He]. eapply IH; [|by apply (list_elem_of_fmap_2 fst) in Hin|done]. lia.
Qed.

Lemma measured_shape : shape_ok g.
Proof.
  unfold shape_ok. setoid_rewrite measured_keys. setoid_rewrite measured_elem. split_and!.
  - apply (m_entry _ _ _ M).
  - intros id n y Hin Hy. apply (m_step _ _ _ M _ _ _ Hin (inside_none n)), Hy.
  - apply measured_acyclic.
  - apply measured_reached.
  - apply (m_end _ _ _ M).
Qed.

(** The measure bounds what a walk executes. *)
Lemma measured_depth x n : deep_walk g x n → (n ≤ h x)%Z.
Proof.
  assert (∀ g', g' = g → deep_walk g' x n → (n ≤ h x)%Z) as H; [|by apply H].
  intros g' E Hw. induction Hw as [g0 x|g0 x node n Hn Hi|g0 x node n y m Hn Hi Hy Hw IH]; subst g0.
  - apply (m_pos _ _ _ M).
  - apply map_get_Some_elem, measured_elem in Hn. by apply (m_step _ _ _ M _ _ _ Hn).
  - apply map_get_Some_elem, measured_elem in Hn. destruct (m_step _ _ _ M _ _ _ Hn Hi) as [_ H].
    destruct (H y Hy). specialize (IH eq_refl). lia.
Qed.

Lemma measured_walk_last id n : (id, n) ∈ nodes → deep_walk g id 1.
Proof. intros H%measured_get. apply (deep_last _ _ n 0); [done|constructor]. Qed.

Lemma measured_walk_step id n m y k : (id, n) ∈ nodes → deep_inside n m → y ∈ outgoing n →
  deep_walk g y (k - 1 - m) → deep_walk g id k.
Proof.
  intros H%measured_get Hi Hy Hw. replace k with (1 + m + (k - 1 - m))%Z by lia. by eapply deep_step.
Qed.
End measured.

(** ** The graphs of the templates *)

Section graphs.
Context (ps : TemplateParameters).

Abbreviation primary := (tp_primary_agent ps).

Definition direct_nodes : list (NodeId * NodeSpec) :=
  [("execute", agent ps primary "done"); ("done", end_)].

Definition plan_nodes : list (NodeId * NodeSpec) :=
  [("plan", agent ps (default primary (tp_planning_agent ps)) "execute");
   ("execute", agent ps primary "done"); ("done", end_)].

Definition verify_nodes (evaluator : string) : list (NodeId * NodeSpec) :=
  [("execute", agent ps primary "verify");
   ("verify", Node.Gate {| gn_evaluator := evaluator; gn_on_pass := "accepted";
                           gn_on_fail := "rejected"; gn_on_indeterminate := "uncertain" |});
   ("accepted", end_); ("rejected", end_); ("uncertain", end_)].

Definition body_nodes : list (NodeId * NodeSpec) :=
  [("experiment", agent ps primary "iteration-done"); ("iteration-done", end_)].

Definition research_body : SchedulerGraph :=
  {| g_entry := "experiment"; g_nodes := map_from body_nodes |}.

Definition research_loop (evaluator : string) : LoopNode := {|
  ln_body := research_body; ln_evaluator := evaluator;
  ln_max_iterations := max_loop_iterations (tp_limits ps); ln_checkpoint := tp_checkpoint ps;
  ln_on_satisfied := "accepted"; ln_on_exhausted := "exhausted" |}.

Definition research_nodes (evaluator : string) : list (NodeId * NodeSpec) :=
  [("research", Node.Loop (research_loop evaluator)); ("accepted", end_); ("exhausted", end_)].

Definition branch_ids : list NodeId := imap (λ index _, branch_id index) (tp_collaborators ps).

Definition branch_nodes : list (NodeId * NodeSpec) :=
  imap (λ index a, (branch_id index, agent ps a "synthesize")) (tp_collaborators ps).

Definition fan_node : ParallelNode := {|
  pn_max_parallelism := Z.min (max_parallelism (tp_limits ps)) (len_u32 branch_ids);
  pn_branches := branch_ids; pn_join := "synthesize"; pn_failure_mode := FailureMode.Collect |}.

Definition coordinate_nodes : list (NodeId * NodeSpec) :=
  [("done", end_); ("synthesize", agent ps primary "done"); ("coordinate", Node.Parallel fan_node)] ++
  branch_nodes.

Definition rank (table : list (NodeId * Z)) (x : NodeId) : Z := default 0%Z (map_get x table).

Lemma rank_pos table x : Forall (λ e, 0 ≤ e.2)%Z table → (0 ≤ rank table x)%Z.
Proof.
  intros H. unfold rank. destruct (map_get x table) eqn:E; simpl; [|lia].
  apply map_get_Some_elem in E. rewrite Forall_forall in H. by apply (H _ E).
Qed.

Lemma deep_inside_agent a next m : deep_inside (agent ps a next) m → m = 0%Z.
Proof. by apply deep_inside_flat. Qed.

Lemma deep_inside_end m : deep_inside end_ m → m = 0%Z.
Proof. by apply deep_inside_flat. Qed.
End graphs.

(** Cases of a membership in a literal list. *)
Ltac list_cases H :=
  repeat (apply elem_of_cons in H as [H|H]); [..|try by apply not_elem_of_nil in H].

(** The obligations of [measured] for a literal list of nodes. *)
Ltac literal_case :=
  match goal with Hi : deep_inside _ ?m |- _ =>
    assert (m = 0%Z) as -> by (by apply deep_inside_flat in Hi)
  end;
  (split; [by vm_compute|]);
  let y := fresh "y" in let Hy := fresh "Hy" in
  intros y Hy; cbn in Hy; list_cases Hy; subst y;
  (split; [apply (bool_decide_unpack _); by vm_compute|by vm_compute]).

Ltac literal_step :=
  let id := fresh "id" in let n := fresh "n" in let m := fresh "m" in
  let Hin := fresh "Hin" in let Hi := fresh "Hi" in
  intros id n m Hin Hi; list_cases Hin; injection Hin as -> ->; literal_case.

Ltac elem_pick := apply list_elem_of_here + (apply list_elem_of_further; elem_pick).

Ltac literal_reached :=
  let x := fresh "x" in let Hx := fresh "Hx" in
  intros x Hx; cbn in Hx; list_cases Hx; subst x;
  first [by left
        |right; split; [by vm_compute|]; do 2 eexists;
           (split; [elem_pick|cbn; solve [elem_pick]])].

Ltac literal_measure :=
  constructor;
  [ apply map_from_Permutation; apply (bool_decide_unpack _); by vm_compute
  | apply (bool_decide_unpack _); by vm_compute
  | let H := fresh "H" in let x := fresh "x" in
    intros x H; cbn in H; list_cases H; subst x; (split_and!; [done|by vm_compute|apply Nat.leb_le; by vm_compute])
  | apply (bool_decide_unpack _); by vm_compute
  | intros; apply rank_pos; repeat constructor; simpl; lia
  | try literal_step
  | literal_reached
  | do 2 eexists; elem_pick ].

Section measures.
Context (ps : TemplateParameters).

Lemma direct_measured :
  measured (root (direct ps)) (direct_nodes ps) (rank [("execute", 2%Z); ("done", 1%Z)]).
Proof. literal_measure. Qed.

Lemma plan_measured :
  measured (root (plan ps)) (plan_nodes ps) (rank [("plan", 3%Z); ("execute", 2%Z); ("done", 1%Z)]).
Proof. literal_measure. Qed.

Lemma body_measured :
  measured (research_body ps) (body_nodes ps)
    (rank [("experiment", 2%Z); ("iteration-done", 1%Z)]).
Proof. literal_measure. Qed.

Lemma verify_measured evaluator :
  measured {| g_entry := "execute"; g_nodes := map_from (verify_nodes ps evaluator) |}
    (verify_nodes ps evaluator)
    (rank [("execute", 3%Z); ("verify", 2%Z); ("accepted", 1%Z); ("rejected", 1%Z);
           ("uncertain", 1%Z)]).
Proof. literal_measure. Qed.

Lemma research_measured evaluator :
  measured {| g_entry := "research"; g_nodes := map_from (research_nodes ps evaluator) |}
    (research_nodes ps evaluator)
    (rank [("research", 4%Z); ("accepted", 1%Z); ("exhausted", 1%Z)]).
Proof.
  literal_measure. intros id n m Hin Hi. list_cases Hin; injection Hin as -> ->; [|literal_case..].
  assert (m ≤ 2)%Z as Hm.
  { inversion Hi as [|? n Hw]; subst; [lia|]. exact (measured_depth _ _ _ body_measured _ _ Hw). }
  split; [change (1 + m ≤ 4)%Z; lia|]. intros y Hy. cbn in Hy. list_cases Hy; subst y;
    (split; [apply (bool_decide_unpack _); by vm_compute|change (1 + m + 1 ≤ 4)%Z; lia]).
Qed.
End measures.

(** ** The coordinate template *)

Section coordinate.
Context (ps : TemplateParameters).
Context (Hmany : 2 ≤ length (tp_collaborators ps)).
Context (Hfits : (Z.of_nat (length (tp_collaborators ps)) < 2 ^ 32)%Z).

Definition coordinate_rank (x : NodeId) : Z :=
  default 3%Z (map_get x [("coordinate", 4%Z); ("synthesize", 2%Z); ("done", 1%Z)]).

Lemma branch_keys : (branch_nodes ps).*1 = branch_ids ps.
Proof. unfold branch_nodes, branch_ids. by rewrite fmap_imap. Qed.

Lemma elem_of_branch_ids x : x ∈ branch_ids ps ↔ ∃ i, i < length (tp_collaborators ps) ∧ x = branch_id i.
Proof.
  unfold branch_ids. rewrite elem_of_lookup_imap. split.
  - intros (i&a&->&Hi). exists i. split; [by eapply lookup_lt_Some|done].
  - intros (i&Hi&->). apply lookup_lt_is_Some in Hi as [a Ha]. by exists i, a.
Qed.

Lemma branch_ids_NoDup : NoDup (branch_ids ps).
Proof. apply imap_NoDup. intros i j _ _. apply branch_id_inj. Qed.

Lemma coordinate_keys :
  (coordinate_nodes ps).*1 = ["done"; "synthesize"; "coordinate"] ++ branch_ids ps.
Proof. unfold coordinate_nodes. by rewrite fmap_app, branch_keys. Qed.

Lemma coordinate_NoDup : NoDup (coordinate_nodes ps).*1.
Proof.
  rewrite coordinate_keys. apply NoDup_app. split_and!.
  - apply (bool_decide_unpack _). by vm_compute.
  - intros x Hx (i&_&->)%elem_of_branch_ids. cbn in Hx. by list_cases Hx.
  - apply branch_ids_NoDup.
Qed.

Lemma coordinate_rank_branch i : coordinate_rank (branch_id i) = 3%Z.
Proof. done. Qed.

Lemma coordinate_built :
  ∃ nodes, coordinate ps = Ok (blueprint ps "coordinate" nodes) ∧ nodes ≡ₚ coordinate_nodes ps.
Proof.
  unfold coordinate. rewrite bool_decide_eq_false_2 by lia. eexists. split; [done|].
  rewrite (imap_nodes branch_id (λ a, agent ps a "synthesize")). fold (branch_nodes ps) (map_from (branch_nodes ps)) (branch_ids ps) (fan_node ps).
  pose proof coordinate_NoDup as Hn. unfold coordinate_nodes in *.
  pose proof (map_from_Permutation (branch_nodes ps)) as Hb.
  rewrite branch_keys in Hb. specialize (Hb branch_ids_NoDup).
  cbn in Hn. apply NoDup_cons in Hn as [Hd Hn]. apply NoDup_cons in Hn as [Hs Hn].
  apply NoDup_cons in Hn as [Hc _].
  assert (map_insert "coordinate" (Node.Parallel (fan_node ps)) (map_from (branch_nodes ps)) ≡ₚ
    ("coordinate", Node.Parallel (fan_node ps)) :: branch_nodes ps) as E1.
  { by rewrite map_insert_Permutation by (by rewrite Hb); rewrite Hb. }
  assert (map_insert "synthesize" (agent ps (tp_primary_agent ps) "done")
    (map_insert "coordinate" (Node.Parallel (fan_node ps)) (map_from (branch_nodes ps))) ≡ₚ
    ("synthesize", agent ps (tp_primary_agent ps) "done") ::
    ("coordinate", Node.Parallel (fan_node ps)) :: branch_nodes ps) as E2.
  { by rewrite map_insert_Permutation by (by rewrite E1); rewrite E1. }
  by rewrite map_insert_Permutation by (by rewrite E2); rewrite E2.
Qed.

Lemma coordinate_measured nodes : nodes ≡ₚ coordinate_nodes ps →
  measured {| g_entry := "coordinate"; g_nodes := nodes |} (coordinate_nodes ps) coordinate_rank.
Proof.
  intros Hp. constructor; cbn [g_entry g_nodes].
  - done.
  - apply coordinate_NoDup.
  - intros x Hx. rewrite coordinate_keys in Hx.
    apply elem_of_app in Hx as [Hx|(i&Hi&->)%elem_of_branch_ids]; [|apply branch_id_ok; lia].
    cbn in Hx. list_cases Hx; subst x; (split_and!; [done|by vm_compute|apply Nat.leb_le; by vm_compute]).
  - right. right. left.
  - intros x. unfold coordinate_rank. destruct (map_get x _) eqn:E; simpl; [|lia].
    apply map_get_Some_elem in E. by list_cases E; simplify_eq.
  - intros id n m Hin Hi. apply elem_of_app in Hin as [Hin|Hin].
    + list_cases Hin; injection Hin as -> ->; apply deep_inside_flat in Hi as ->; try done;
        (split; [by vm_compute|]); intros y Hy.
      * by apply not_elem_of_nil in Hy.
      * list_cases Hy; subst y. split; [left|by vm_compute].
      * apply elem_of_app in Hy as [Hy|Hy].
        -- split; [|apply elem_of_branch_ids in Hy as (i&_&->); by vm_compute].
           rewrite coordinate_keys. by right; right; right.
        -- list_cases Hy; subst y. split; [right; left|by vm_compute].
    + apply elem_of_lookup_imap in Hin as (i&a&[= -> ->]&_). apply deep_inside_flat in Hi as ->; [|done].
      split; [done|]. intros y Hy. list_cases Hy; subst y. split; [right; left|done].
  - intros x Hx. rewrite coordinate_keys in Hx.
    apply elem_of_cons in Hx as [->|Hx]; [right; split; [done|]|].
    { exists "synthesize". eexists. split; [right; left|by left]. }
    apply elem_of_cons in Hx as [->|Hx]; [right; split; [done|]|].
    { exists "coordinate". eexists. split; [right; right; left|]. apply elem_of_app. right. by left. }
    apply elem_of_cons in Hx as [->|Hx]; [by left|right].
    split; [by apply elem_of_branch_ids in Hx as (i&_&->)|].
    exists "coordinate". eexists. split; [right; right; left|]. apply elem_of_app. by left.
  - exists "done". eexists. left.
Qed.
End coordinate.

(** ** When a template validates *)

Section validates.
Context (ps : TemplateParameters) (c : SchedulerCatalog) (p : PolicyEnvelope).

Abbreviation limits := (tp_limits ps).

Lemma total_nodes_Permutation g nodes : g_nodes g ≡ₚ nodes →
  total_nodes g = foldr (λ e acc, 1 + nested_total e.2 + acc)%Z 0%Z nodes.
Proof. unfold total_nodes, total_with. induction 1; simpl; lia. Qed.

Lemma measured_graph_ok g nodes h : measured g nodes h →
  graph_ok c p limits g ↔
  (∀ id n, (id, n) ∈ nodes → node_ok c p limits g n) ∧
  (∀ id l, (id, Node.Loop l) ∈ nodes → graph_ok c p limits (ln_body l)).
Proof.
  intros M. split.
  - inversion 1 as [? _ _ Hn Hl]; subst. split; intros; [eapply Hn|eapply Hl]; by apply (measured_elem _ _ _ M).
  - intros [Hn Hl]. constructor; [by eapply measured_shape| | |].
    + intros x Hx. apply (m_ids _ _ _ M). apply elem_of_cons in Hx as [->|Hx]; [apply (m_entry _ _ _ M)|].
      by apply (measured_keys _ _ _ M).
    + intros id n Hin%(measured_elem _ _ _ M). by eapply Hn.
    + intros id l Hin%(measured_elem _ _ _ M). by eapply Hl.
Qed.

Lemma agent_node_ok g a next : (0 < max_agent_steps limits)%Z →
  node_ok c p limits g (agent ps a next) ↔ agent_usable c p ps a.
Proof.
  intros Hl. cbn. unfold agent_ok, agent_usable. cbn. apply exist_proper; intros entry.
  apply and_iff_compat_l. split.
  - intros (H1&H2&H3&H4&H5&_). split_and!.
    + intros E. rewrite E in H1. simpl in H1. lia.
    + destruct (map_get a (tp_agent_max_steps ps)) as [s|]; cbn [default from_option id] in *; [|left; lia].
      destruct (Z.min_spec s (max_agent_steps limits)) as [[? E]|[? E]]; rewrite E in *; eauto.
    + intros l x E. rewrite E in H4. apply H4.
    + intros l x E. rewrite E in H5. apply H5.
  - intros (H1&H2&H3&H4). split_and!.
    + destruct (map_get a (tp_agent_max_steps ps)) as [s|]; simpl; [|lia].
      assert (s ≠ 0%Z) by congruence. lia.
    + lia.
    + destruct H2 as [H2|(s&E&H2)]; [lia|]. rewrite E. simpl. lia.
    + destruct (map_get a (tp_agent_skills ps)) as [l|] eqn:E; simpl; [intros x Hx; by apply (H3 l)|].
      intros x Hx. by apply not_elem_of_nil in Hx.
    + destruct (map_get a (tp_agent_tools ps)) as [l|] eqn:E; simpl; [intros x Hx; by apply (H4 l)|].
      intros x Hx. by apply not_elem_of_nil in Hx.
    + intros x Hx. by apply not_elem_of_nil in Hx.
Qed.

Lemma end_node_ok g : node_ok c p limits g end_ ↔ True.
Proof. done. Qed.

(** A blueprint whose graph is measured by its depth validates exactly if its parameters do. *)
Lemma assembled entry nodes L h size (P : Prop) :
  let b := blueprint ps entry nodes in
  measured (root b) L h →
  (∀ id l, (id, Node.Loop l) ∈ L → distinct_keys (ln_body l)) →
  foldr (λ e acc, 1 + nested_total e.2 + acc)%Z 0%Z L = size → (size < 2 ^ 32)%Z →
  deep_walk (root b) entry (h entry) →
  (limits_ok limits → graph_ok c p limits (root b) ↔ P) →
  ∃ r, validate b c p = Some r ∧
    (r = Ok tt ↔ identifier_ok (tp_name ps) ∧ catalog_ok c ∧ policy_ok c p ∧
       limits_ok (pol_hard_limits p) ∧ limits_ok limits ∧ limits_within limits (pol_hard_limits p) ∧
       P ∧ (size ≤ max_graph_nodes limits)%Z ∧ (h entry ≤ max_graph_depth limits)%Z).
Proof.
  intros b M Hd Hs Hfit Hw HP.
  assert (representable b) as Hr.
  { split; [|by rewrite (total_nodes_Permutation _ _ (m_nodes _ _ _ M)), Hs].
    constructor; [by eapply measured_NoDup|]. intros id l Hin. eapply Hd. by apply (measured_elem _ _ _ M). }
  destruct (validate_spec b c p Hr) as (r&Hv&Hok). exists r. split; [done|].
  rewrite Hok. unfold blueprint_ok. subst b. simpl bp_limits. simpl bp_name. simpl bp_entry.
  rewrite (total_nodes_Permutation _ _ (m_nodes _ _ _ M)), Hs.
  assert ((∀ n, deep_walk (root (blueprint ps entry nodes)) entry n →
             (n ≤ max_graph_depth limits)%Z) ↔ (h entry ≤ max_graph_depth limits)%Z) as ->.
  { split; [by intros H; apply H|]. intros H n Hn. etrans; [by eapply measured_depth|done]. }
  naive_solver.
Qed.

(** What holds of every parameter record a program can build: its agent steps are unsigned and the
    nodes of its blueprint fit a 32-bit count. *)
Definition parameters_representable : Prop :=
  (0 ≤ max_agent_steps limits)%Z ∧ (Z.of_nat (length (tp_collaborators ps)) + 3 < 2 ^ 32)%Z.

Lemma forall_one {A} (x : A) (P : A → Prop) : (∀ y, y ∈ [x] → P y) ↔ P x.
Proof. set_solver. Qed.

Lemma forall_Some {A} (x : A) (P : A → Prop) : (∀ y, Some x = Some y → P y) ↔ P x.
Proof. split; [by intros H; apply H|]. by intros H y [= <-]. Qed.

Lemma forall_cons {A} (x : A) l (P : A → Prop) : (∀ y, y ∈ x :: l → P y) ↔ P x ∧ ∀ y, y ∈ l → P y.
Proof. set_solver. Qed.

Lemma nodes_cons id n (l : list (NodeId * NodeSpec)) (P : NodeSpec → Prop) :
  (∀ i m, (i, m) ∈ (id, n) :: l → P m) ↔ P n ∧ ∀ i m, (i, m) ∈ l → P m.
Proof.
  split.
  - intros H. split; [apply (H id n); left|]. intros i m Hin. apply (H i m). by right.
  - intros [Hn Hl] i m [[= -> ->]|Hin]%elem_of_cons; [done|by eapply Hl].
Qed.

Lemma nodes_nil (P : NodeSpec → Prop) : (∀ (i : NodeId) m, (i, m) ∈ [] → P m) ↔ True.
Proof. split; [done|]. intros _ i m H. by apply not_elem_of_nil in H. Qed.

Lemma loops_cons id n (l : list (NodeId * NodeSpec)) (P : SchedulerGraph → Prop) :
  (∀ i b, (i, Node.Loop b) ∈ (id, n) :: l → P (ln_body b)) ↔
  match n with Node.Loop b => P (ln_body b) | _ => True end ∧
  ∀ i b, (i, Node.Loop b) ∈ l → P (ln_body b).
Proof.
  split.
  - intros H. split; [destruct n; try done; apply (H id); left|]. intros i b Hin. apply (H i). by right.
  - intros [Hn Hl] i b [[= -> <-]|Hin]%elem_of_cons; [done|by eapply Hl].
Qed.

Lemma loops_nil (P : SchedulerGraph → Prop) : (∀ (i : NodeId) b, (i, Node.Loop b) ∈ [] → P (ln_body b)) ↔ True.
Proof. split; [done|]. intros _ i m H. by apply not_elem_of_nil in H. Qed.

Definition parts_ok (t : TemplateId) : Prop :=
  (∀ a, a ∈ template_agents t ps → agent_usable c p ps a) ∧
  (∀ e, template_evaluator t ps = Some e → evaluator_ok c e) ∧
  (∀ id, template_checkpoint t ps = Some id →
     capability_ok c p id CapabilityKind.WorkspaceCheckpoint).

(** [assembled] for a template. *)
Lemma assembled_template t entry nodes L h :
  let b := blueprint ps entry nodes in
  measured (root b) L h → h entry = template_depth t →
  (∀ id l, (id, Node.Loop l) ∈ L → distinct_keys (ln_body l)) →
  foldr (λ e acc, 1 + nested_total e.2 + acc)%Z 0%Z L = template_size t ps →
  (template_size t ps < 2 ^ 32)%Z →
  deep_walk (root b) entry (h entry) →
  ((0 < max_agent_steps limits)%Z → limits_ok limits → graph_ok c p limits (root b) ↔ parts_ok t) →
  (0 ≤ max_agent_steps limits)%Z →
  ∃ r, validate b c p = Some r ∧ (r = Ok tt ↔ template_ok t ps c p).
Proof.
  intros b M Hh Hd Hs Hfit Hw HP Hsteps.
  destruct (assembled entry nodes L h (template_size t ps) (parts_ok t) M Hd Hs Hfit Hw) as (r&Hv&Hr).
  - intros Hl. apply HP; [|done]. unfold limits_ok in Hl. lia.
  - exists r. split; [done|]. rewrite Hr, Hh. unfold template_ok, parts_ok. tauto.
Qed.

Ltac literal_walk M :=
  repeat first
    [ apply (measured_walk_last _ _ _ M _ end_); solve [elem_pick]
    | eapply (measured_walk_step _ _ _ M);
        [elem_pick|apply inside_none|cbn; apply list_elem_of_here|] ].

(** The nodes of a graph one by one, down to its agents. *)
Ltac graph_nodes M :=
  rewrite (measured_graph_ok _ _ _ M);
  cbv beta delta [direct_nodes plan_nodes verify_nodes body_nodes research_nodes];
  repeat rewrite (nodes_cons _ _ _ (node_ok c p limits _));
  repeat rewrite (loops_cons _ _ _ (graph_ok c p limits));
  rewrite (nodes_nil (node_ok c p limits _)), (loops_nil (graph_ok c p limits));
  rewrite !end_node_ok, ?agent_node_ok by done; cbv beta iota delta [agent end_].

Lemma body_graph_ok : (0 < max_agent_steps limits)%Z →
  graph_ok c p limits (research_body ps) ↔ agent_usable c p ps (tp_primary_agent ps).
Proof.
  intros Hs. unfold research_body. graph_nodes (body_measured ps). tauto.
Qed.

Lemma research_loop_ok evaluator : limits_ok limits →
  loop_ok c p limits (research_loop ps evaluator) ↔
  evaluator_ok c evaluator ∧ ∀ id, tp_checkpoint ps = Some id →
    capability_ok c p id CapabilityKind.WorkspaceCheckpoint.
Proof. intros Hl. unfold loop_ok, limits_ok in *. cbn. split; [tauto|]. intros []. split_and!; tauto || lia. Qed.

Lemma branch_node i a : tp_collaborators ps !! i = Some a →
  (branch_id i, agent ps a "synthesize") ∈ coordinate_nodes ps.
Proof. intros Ha. apply elem_of_app. right. apply elem_of_lookup_imap. by exists i, a. Qed.

Lemma fan_ok nodes : limits_ok limits → nodes ≡ₚ coordinate_nodes ps →
  2 ≤ length (tp_collaborators ps) → (Z.of_nat (length (tp_collaborators ps)) < 2 ^ 32)%Z →
  parallel_ok limits {| g_entry := "coordinate"; g_nodes := nodes |} (fan_node ps).
Proof.
  intros Hl Hp H2 Hfit. unfold parallel_ok, limits_ok in *.
  assert (length (branch_ids ps) = length (tp_collaborators ps)) as Hlen by apply length_imap.
  assert (len_u32 (branch_ids ps) = Z.of_nat (length (tp_collaborators ps))) as Hu.
  { unfold len_u32. rewrite Hlen. apply Z.mod_small. lia. }
  cbn. split_and!; [apply branch_ids_NoDup|lia|lia|lia|lia|].
  intros branch (i&Hi&->)%elem_of_branch_ids _ _. apply rtc_once.
  apply lookup_lt_is_Some in Hi as [a Ha].
  apply (measured_edge _ _ _ (coordinate_measured ps H2 Hfit nodes Hp) _ (agent ps a "synthesize"));
    [by apply branch_node|by left].
Qed.

Lemma coordinate_total :
  foldr (λ e acc, 1 + nested_total e.2 + acc)%Z 0%Z (coordinate_nodes ps) =
  template_size Template.Coordinate ps.
Proof.
  assert (∀ (f : nat → string → NodeId * NodeSpec) (l : list string),
    (∀ i a, nested_total (f i a).2 = 0%Z) →
    foldr (λ e acc, 1 + nested_total e.2 + acc)%Z 0%Z (imap f l) = Z.of_nat (length l)) as H.
  { intros f l. revert f. induction l as [|a l IH]; intros f Hf; [done|].
    rewrite imap_cons. cbn [foldr length]. rewrite IH, Hf by (intros; apply Hf). lia. }
  unfold coordinate_nodes, branch_nodes. rewrite foldr_app, H by done. cbn -[Z.of_nat Z.add]. lia.
Qed.

Lemma coordinate_walk nodes : 
  2 ≤ length (tp_collaborators ps) →
  measured {| g_entry := "coordinate"; g_nodes := nodes |} (coordinate_nodes ps) coordinate_rank →
  deep_walk {| g_entry := "coordinate"; g_nodes := nodes |} "coordinate" 4.
Proof.
  intros H2 M. destruct (lookup_lt_is_Some_2 (tp_collaborators ps) 0) as [a Ha]; [lia|].
  eapply (measured_walk_step _ _ _ M _ (Node.Parallel (fan_node ps)) 0 (branch_id 0));
    [solve [elem_pick]|apply inside_none| |].
  { apply elem_of_app. left. apply elem_of_branch_ids. exists 0. split; [lia|done]. }
  eapply (measured_walk_step _ _ _ M _ (agent ps a "synthesize") 0);
    [by apply branch_node|apply inside_none|cbn; apply list_elem_of_here|].
  literal_walk M.
Qed.

Lemma coordinate_parts g : limits_ok limits → (0 < max_agent_steps limits)%Z →
  parallel_ok limits g (fan_node ps) →
  ((∀ id n, (id, n) ∈ coordinate_nodes ps → node_ok c p limits g n) ∧
   (∀ id l, (id, Node.Loop l) ∈ coordinate_nodes ps → graph_ok c p limits (ln_body l))) ↔
  parts_ok Template.Coordinate.
Proof.
  intros Hl Hs Hf. unfold parts_ok. cbn [template_agents template_evaluator template_checkpoint].
  rewrite forall_cons. split.
  - intros [Hn _]. split_and!; [| |done..].
    + apply (agent_node_ok g _ "done" Hs), (Hn "synthesize"). solve [elem_pick].
    + intros a [i Ha]%list_elem_of_lookup. apply (agent_node_ok g _ "synthesize" Hs), (Hn (branch_id i)).
      by apply branch_node.
  - intros ([Hp Hc]&_). split.
    + intros id n [Hin|Hin]%elem_of_app.
      * list_cases Hin; injection Hin as -> ->; [done|by apply agent_node_ok|done].
      * apply elem_of_lookup_imap in Hin as (i&a&[= -> ->]&Ha). apply agent_node_ok; [done|].
        apply Hc. by apply list_elem_of_lookup_2 in Ha.
    + intros id l [Hin|Hin]%elem_of_app; [by list_cases Hin|].
      by apply elem_of_lookup_imap in Hin as (?&?&[=]&_).
Qed.

Lemma research_walk evaluator :
  deep_walk {| g_entry := "research"; g_nodes := map_from (research_nodes ps evaluator) |} "research" 4.
Proof.
  eapply (measured_walk_step _ _ _ (research_measured ps evaluator) _ _ 2);
    [apply list_elem_of_here|apply inside_loop|cbn; apply list_elem_of_here|].
  - literal_walk (body_measured ps).
  - literal_walk (research_measured ps evaluator).
Qed.

Lemma template_spec t b : parameters_representable → build_template ps t = Ok b →
  ∃ r, validate b c p = Some r ∧ (r = Ok tt ↔ template_ok t ps c p).
Proof.
  intros [Hsteps Hfits]. destruct t; cbn [build_template].
  - intros [= <-].
    apply (assembled_template Template.Direct _ _ _ _ (direct_measured ps)); [done| |done|done| | |done].
    + intros id l Hin. by list_cases Hin.
    + literal_walk (direct_measured ps).
    + intros Hs Hl. graph_nodes (direct_measured ps). unfold parts_ok. cbn.
      rewrite forall_one. naive_solver.
  - intros [= <-].
    apply (assembled_template Template.Plan _ _ _ _ (plan_measured ps)); [done| |done|done| | |done].
    + intros id l Hin. by list_cases Hin.
    + literal_walk (plan_measured ps).
    + intros Hs Hl. graph_nodes (plan_measured ps). unfold parts_ok. cbn.
      rewrite forall_cons, forall_one. naive_solver.
  - intros Hb. destruct (decide (2 ≤ length (tp_collaborators ps))) as [H2|H2].
    2: { unfold coordinate in Hb. rewrite bool_decide_eq_true_2 in Hb by lia. done. }
    destruct (coordinate_built ps) as (nodes&Hc&Hp); [done|].
    rewrite Hc in Hb. injection Hb as <-.
    assert (Z.of_nat (length (tp_collaborators ps)) < 2 ^ 32)%Z as Hfit by lia.
    pose proof (coordinate_measured ps H2 Hfit nodes Hp) as M.
    apply (assembled_template Template.Coordinate "coordinate" nodes _ _ M);
      [done| |apply coordinate_total|cbn; lia|by apply coordinate_walk| |done].
    + intros id l [Hin|Hin]%elem_of_app; [by list_cases Hin|].
      by apply elem_of_lookup_imap in Hin as (?&?&[=]&_).
    + intros Hs Hl. rewrite (measured_graph_ok _ _ _ M). apply coordinate_parts; [done..|].
      by apply fan_ok.
  - destruct (tp_evaluator ps) as [ev|] eqn:Hev; unfold verify; rewrite Hev; [|done]. intros [= <-].
    apply (assembled_template Template.Verify _ _ _ _ (verify_measured ps ev)); [done| |done|done| | |done].
    + intros id l Hin. by list_cases Hin.
    + literal_walk (verify_measured ps ev).
    + intros Hs Hl. graph_nodes (verify_measured ps ev). unfold parts_ok. cbn. rewrite Hev, forall_one.
      naive_solver.
  - destruct (tp_evaluator ps) as [ev|] eqn:Hev; unfold autoresearch; rewrite Hev; [|done]. intros [= <-].
    apply (assembled_template Template.Autoresearch _ _ _ _ (research_measured ps ev)); [done| |done|done| | |done].
    + intros id l Hin. list_cases Hin; [|discriminate Hin|discriminate Hin].
      assert (l = research_loop ps ev) as -> by congruence.
      constructor; [apply (measured_NoDup _ _ _ (body_measured ps))|].
      intros id' l Hl%(measured_elem _ _ _ (body_measured ps)). list_cases Hl; discriminate Hl.
    + apply research_walk.
    + intros Hs Hl. graph_nodes (research_measured ps ev). unfold parts_ok. cbn.
      rewrite Hev, (forall_Some ev (evaluator_ok c)), forall_one, body_graph_ok, (research_loop_ok ev Hl)
        by done. tauto.
Qed.
End validates.

(** ** Properties *)

(** The templates are sound for every parameter record: a template that is built is accepted by
    the validator, under any catalog and policy, exactly if its parameters are: well-formed name,
    catalog, policy and limits, every agent it runs usable as configured, its evaluator and
    checkpoint known and permitted, and room for its nodes and its depth.  So no template ever
    fails for the shape of its graph, whatever the number of collaborators.  It is not built
    exactly if a verifying template has no evaluator or a coordinating one fewer than two
    collaborators, and the error says which. *)
Lemma templates_validate_iff_parameters_ok ps c p t : parameters_representable ps →
  match build_template ps t with
  | Ok b => ∃ r, validate b c p = Some r ∧ (r = Ok tt ↔ template_ok t ps c p)
  | Err (Template.MissingEvaluator t') =>
      t' = t ∧ (t = Template.Verify ∨ t = Template.Autoresearch) ∧ tp_evaluator ps = None
  | Err Template.TooFewCollaborators =>
      t = Template.Coordinate ∧ length (tp_collaborators ps) < 2
  end.
Proof.
  intros Hr. destruct (build_template ps t) as [b|e] eqn:E; [by apply template_spec|].
  destruct t; try discriminate E; cbn in E.
  - unfold coordinate in E. case_bool_decide; [|done]. injection E as <-. split; [done|lia].
  - unfold verify in E. destruct (tp_evaluator ps); [done|]. injection E as <-. auto.
  - unfold autoresearch in E. destruct (tp_evaluator ps); [done|]. injection E as <-. auto.
Qed.

Definition demo_parameters : TemplateParameters := {|
  tp_name := "demo"; tp_primary_agent := "worker"; tp_planning_agent := None;
  tp_collaborators := ["worker"; "worker"]; tp_agent_skills := [];
  tp_agent_tools := [("worker", ["read"])]; tp_agent_max_steps := [("worker", 2%Z)];
  tp_evaluator := Some "quality"; tp_checkpoint := Some "checkpoint";
  tp_limits := demo_limits; tp_output := bp_output demo_blueprint |}.

(** The five templates of the same parameters validate. *)
Example demo_templates :
  Forall (λ t, match build_template demo_parameters t with
               | Ok b => validate b demo_catalog demo_policy = Some (Ok tt)
               | Err _ => False
               end)
    [Template.Direct; Template.Plan; Template.Coordinate; Template.Verify; Template.Autoresearch].
Proof. repeat constructor; by vm_compute. Qed.
