(* ===== verification/TextLines.v ===== *)
(** * Text: lines, searches and replacements

    The string functions of Rust's standard library that the patch and edit tools
    share, on strings as lists of UTF-8 bytes: [split(char)], [lines], [find],
    [rfind], [matches] and [replace], with their round trips. *)

From S2P Require Import Prelude.

Definition newline : Ascii.ascii := Ascii.ascii_of_nat 10.
Definition carriage_return : Ascii.ascii := Ascii.ascii_of_nat 13.
Definition nl : string := String newline "".
Definition cr : string := String carriage_return "".

(** [s.split(c)] for an ASCII character [c] *)
Fixpoint split_on (c : Ascii.ascii) (s : string) : list string :=
  match s with
  | EmptyString => [""]
  | String a s' =>
      if decide (a = c) then "" :: split_on c s'
      else match split_on c s' with
           | p :: ps => String a p :: ps
           | [] => [String a ""]
           end
  end.

(** The line before a line feed, without the carriage return that may end it. *)
Definition strip_cr (line : string) : string := default line (strip_suffix cr line).

(** [s.lines()]: no line after a final line feed. *)
Definition lines (s : string) : list string :=
  match reverse (split_on newline s) with
  | last :: rest => (strip_cr <$> reverse rest) ++ (if bool_decide (last = "") then [] else [last])
  | [] => []
  end.

(** [s.trim_start()] and [s.trim_end()] *)
Definition trim_start (s : string) : string := str_concat (drop_while is_whitespace (chars s)).
Definition trim_end (s : string) : string :=
  str_concat (reverse (drop_while is_whitespace (reverse (chars s)))).

(** [s.find(m)] as a byte index *)
Fixpoint find_sub (m s : string) : option nat :=
  if starts_with m s then Some 0
  else match s with
       | EmptyString => None
       | String _ s' => S <$> find_sub m s'
       end.

(** [s.rfind(m)] *)
Fixpoint rfind_sub (m s : string) : option nat :=
  match (match s with EmptyString => None | String _ s' => rfind_sub m s' end) with
  | Some i => Some (S i)
  | None => if starts_with m s then Some 0 else None
  end.

(** [s.replace(m, r)] for a non-empty [m]: the matches from the left that do not overlap; [skip] bytes
    of the last match remain. *)
Fixpoint replace_from (m r : string) (skip : nat) (s : string) : string :=
  match s with
  | EmptyString => ""
  | String c s' =>
      match skip with
      | S k => replace_from m r k s'
      | O => if starts_with m s then r +:+ replace_from m r (String.length m - 1) s'
             else String c (replace_from m r 0 s')
      end
  end.

(** An empty [m] matches between all characters and at both ends. *)
Definition str_replace (m r s : string) : string :=
  if bool_decide (m = "") then str_concat ((λ g, r +:+ g) <$> chars s) +:+ r
  else replace_from m r 0 s.

(** [s.matches(m).count()] *)
Fixpoint matches_from (m : string) (skip : nat) (s : string) : nat :=
  match s with
  | EmptyString => 0
  | String c s' =>
      match skip with
      | S k => matches_from m k s'
      | O => if starts_with m s then S (matches_from m (String.length m - 1) s')
             else matches_from m 0 s'
      end
  end.

Definition match_count (m s : string) : nat :=
  if bool_decide (m = "") then S (length (chars s)) else matches_from m 0 s.

(** ** Splitting and joining *)

Fixpoint has_char (c : Ascii.ascii) (s : string) : bool :=
  match s with
  | EmptyString => false
  | String a s' => bool_decide (a = c) || has_char c s'
  end.

Lemma has_char_app c s t : has_char c (s +:+ t) = has_char c s || has_char c t.
Proof. induction s as [|a s IH]; [done|]. rewrite str_app_cons. simpl. by rewrite IH, orb_assoc. Qed.

Lemma split_on_ne c s : split_on c s ≠ [].
Proof. destruct s as [|a s]; simpl; [done|]. case_decide; [done|]. by destruct (split_on c s). Qed.

Lemma split_on_join c s : str_join (String c "") (split_on c s) = s.
Proof.
  induction s as [|a s IH]; [done|]. simpl. pose proof (split_on_ne c s) as Hn. case_decide as E.
  - subst. destruct (split_on c s) as [|p ps]; [done|].
    change (str_join (String c "") ("" :: p :: ps)) with (String c (str_join (String c "") (p :: ps))).
    by rewrite IH.
  - destruct (split_on c s) as [|p ps]; [done|]. rewrite <- IH. by destruct ps.
Qed.

Lemma split_on_clean c s : Forall (λ p, has_char c p = false) (split_on c s).
Proof.
  induction s as [|a s IH]; simpl; [by repeat constructor|]. case_decide as E; [by constructor|].
  destruct (split_on c s) as [|p ps]; [by repeat constructor; simpl; rewrite bool_decide_eq_false_2|].
  inversion IH; subst. constructor; [|done]. simpl. by rewrite bool_decide_eq_false_2.
Qed.

Lemma split_on_app c p s : has_char c p = false → split_on c (p +:+ String c s) = p :: split_on c s.
Proof.
  induction p as [|a p IH]; simpl; [by rewrite decide_True|].
  intros [Ha Hp]%orb_false_iff. apply bool_decide_eq_false in Ha.
  rewrite decide_False by done. by rewrite IH.
Qed.

Lemma split_on_last c p : has_char c p = false → split_on c p = [p].
Proof.
  induction p as [|a p IH]; simpl; [done|]. intros [Ha Hp]%orb_false_iff.
  apply bool_decide_eq_false in Ha. rewrite decide_False by done. by rewrite IH.
Qed.

(** Joining pieces without the separator and splitting again. *)
Lemma split_on_of_join c ps : ps ≠ [] → Forall (λ p, has_char c p = false) ps →
  split_on c (str_join (String c "") ps) = ps.
Proof.
  intros Hn H. induction H as [|p ps Hp Hps IH]; [done|]. destruct ps as [|q ps].
  - by apply split_on_last.
  - change (str_join (String c "") (p :: q :: ps)) with (p +:+ String c (str_join (String c "") (q :: ps))).
    rewrite split_on_app by done. by rewrite IH.
Qed.

(** *** Lines *)

(** A line that survives: no line feed, and no carriage return at its end. *)
Definition clean_line (line : string) : Prop := has_char newline line = false ∧ strip_cr line = line.

(** The text of lines that each end with a line feed. *)
Definition text_of (ls : list string) : string := str_concat ((λ l, l +:+ nl) <$> ls).

Lemma split_text_of ls : Forall (λ l, has_char newline l = false) ls →
  split_on newline (text_of ls) = ls ++ [""].
Proof.
  unfold text_of. induction 1 as [|l ls Hl _ IH]; [done|]. cbn [fmap list_fmap str_concat fold_right].
  rewrite str_app_assoc. change (nl +:+ ?s) with (String newline s).
  rewrite split_on_app by done. cbn. by rewrite <- IH.
Qed.

Lemma lines_text_of ls : Forall clean_line ls → lines (text_of ls) = ls.
Proof.
  intros H. unfold lines. rewrite split_text_of by (eapply Forall_impl; [done|by intros ? []]).
  rewrite reverse_app. simpl. rewrite reverse_involutive, app_nil_r.
  induction H as [|l ls [_ Hl] _ IH]; [done|]. rewrite fmap_cons. by rewrite Hl, IH.
Qed.

Lemma lines_no_newline s : Forall (λ l, has_char newline l = false) (lines s).
Proof.
  unfold lines. pose proof (split_on_clean newline s) as H. apply Forall_reverse in H.
  destruct (reverse (split_on newline s)) as [|last rest]; [constructor|].
  inversion H as [|? ? Hl Hr]; subst. apply Forall_app. split.
  - apply Forall_fmap, Forall_reverse. eapply Forall_impl; [done|]. intros l Hc. simpl.
    unfold strip_cr. destruct (strip_suffix cr l) eqn:E; [|done]. simpl.
    apply strip_suffix_Some in E. subst l. rewrite has_char_app, orb_false_iff in Hc. tauto.
  - case_bool_decide; by repeat constructor.
Qed.

(** ** Searching *)

Lemma find_sub_Some m s i : find_sub m s = Some i →
  ∃ a b, s = a +:+ m +:+ b ∧ String.length a = i.
Proof.
  revert i. induction s as [|c s IH]; simpl; intros i.
  - destruct (starts_with m "") eqn:E; [|done]. intros [= <-].
    apply starts_with_true in E as [t ->]. by exists "", t.
  - destruct (starts_with m (String c s)) eqn:E.
    + intros [= <-]. apply starts_with_true in E as [t Ht]. by exists "", t.
    + intros (j&Hj&->)%fmap_Some. destruct (IH j Hj) as (a&b&->&<-). by exists (String c a), b.
Qed.

Lemma rfind_sub_Some m s i : rfind_sub m s = Some i →
  ∃ a b, s = a +:+ m +:+ b ∧ String.length a = i.
Proof.
  revert i. induction s as [|c s IH]; cbn [rfind_sub]; intros i.
  - destruct (starts_with m "") eqn:E; [|done]. intros [= <-].
    apply starts_with_true in E as [t ->]. by exists "", t.
  - destruct (rfind_sub m s) as [j|].
    + intros [= <-]. destruct (IH j eq_refl) as (a&b&->&<-). by exists (String c a), b.
    + destruct (starts_with m (String c s)) eqn:E; [|done]. intros [= <-].
      apply starts_with_true in E as [t Ht]. by exists "", t.
Qed.

(** The first occurrence has none before it, the last none after it. *)
Lemma find_sub_first m s a b : s = a +:+ m +:+ b →
  ∃ i, find_sub m s = Some i ∧ i ≤ String.length a.
Proof.
  revert s. induction a as [|c a IH]; intros s Hs.
  - exists 0. assert (starts_with m s = true) as E by (apply starts_with_true; by exists b).
    destruct s; simpl in *; by rewrite E.
  - subst s. rewrite str_app_cons. cbn [find_sub]. destruct (starts_with m _).
    + exists 0. simpl. split; [done|lia].
    + destruct (IH _ eq_refl) as (i&->&Hi). exists (S i). simpl. split; [done|lia].
Qed.

Lemma rfind_sub_last m s a b : s = a +:+ m +:+ b →
  ∃ i, rfind_sub m s = Some i ∧ String.length a ≤ i.
Proof.
  revert s. induction a as [|c a IH]; intros s Hs.
  - assert (starts_with m s = true) as E by (apply starts_with_true; by exists b).
    destruct s as [|c s]; cbn [rfind_sub]; rewrite E; [by exists 0|].
    destruct (rfind_sub m s); eexists; split; eauto; simpl; lia.
  - subst s. rewrite str_app_cons. cbn [rfind_sub].
    destruct (IH _ eq_refl) as (i&->&Hi). exists (S i). simpl. split; [done|lia].
Qed.

(** [find] and [rfind] agree exactly on a single occurrence. *)
Lemma unique_occurrence m s i : find_sub m s = Some i → rfind_sub m s = Some i →
  ∀ a b, s = a +:+ m +:+ b → String.length a = i.
Proof.
  intros Hf Hr a b Hs. destruct (find_sub_first m s a b Hs) as (j&Hj&?).
  destruct (rfind_sub_last m s a b Hs) as (k&Hk&?). rewrite Hf in Hj. rewrite Hr in Hk.
  simplify_eq. lia.
Qed.

Lemma find_sub_contains m s : contains m s = true ↔ is_Some (find_sub m s).
Proof.
  rewrite contains_true. split.
  - intros (a&b&Hs). destruct (find_sub_first m s a b Hs) as (i&->&_). by eexists.
  - intros [i Hi]. destruct (find_sub_Some m s i Hi) as (a&b&Hs&_). by exists a, b.
Qed.
