(* ===== verification/LineDiff.v ===== *)
(** * Unified diffs of lines

    The diff generator of crates/agendao-tool/src/apply_patch.rs: the edit script of
    the longest common subsequence table, the shortcut for large files, and the
    unified hunks.  Loops over a counter take fuel and the theorems show that it is
    enough; a [Vec] index in the source is a list lookup here. *)

From S2P Require Import Prelude TextLines.

Module Line.
Inductive DiffLine := Equal (line : string) | Remove (line : string) | Add (line : string).
#[export] Instance diff_line_eq_dec : EqDecision DiffLine.
Proof. solve_decision. Defined.
End Line.
Export (hints) Line.
Abbreviation DiffLine := Line.DiffLine.

Definition consumes_old (l : DiffLine) : bool :=
  match l with Line.Equal _ | Line.Remove _ => true | Line.Add _ => false end.

Definition consumes_new (l : DiffLine) : bool :=
  match l with Line.Equal _ | Line.Add _ => true | Line.Remove _ => false end.

Definition is_change (l : DiffLine) : bool :=
  match l with Line.Equal _ => false | _ => true end.

Definition render (l : DiffLine) : string :=
  match l with
  | Line.Equal line => " " +:+ line +:+ nl
  | Line.Remove line => "-" +:+ line +:+ nl
  | Line.Add line => "+" +:+ line +:+ nl
  end.

Definition DIFF_CONTEXT_LINES : nat := 3.
Definition MAX_LCS_CELLS : Z := 1000000.

(** ** The table and the walk through it *)

(** [dp[index]] *)
Definition cell (dp : list Z) (index : nat) : Z := default 0%Z (dp !! index).

(** [lines[index]] *)
Definition line_at (l : list string) (index : nat) : string := default "" (l !! index).

Section lcs.
Context (old_lines new_lines : list string).

Definition width : nat := length new_lines + 1.

Definition lcs_cell (dp : list Z) (i j : nat) : Z :=
  if decide (line_at old_lines i = line_at new_lines j)
  then u32_add (cell dp ((i + 1) * width + j + 1)) 1
  else Z.max (cell dp ((i + 1) * width + j)) (cell dp (i * width + j + 1)).

Definition fill_row (dp : list Z) (i : nat) : list Z :=
  fold_left (λ dp j, <[i * width + j := lcs_cell dp i j]> dp) (reverse (seq 0 (length new_lines))) dp.

Definition lcs_table : list Z :=
  fold_left fill_row (reverse (seq 0 (length old_lines)))
    (replicate ((length old_lines + 1) * width) 0%Z).

(** The walk from the top left corner; [None] when the fuel is used up. *)
Fixpoint lcs_walk (fuel : nat) (dp : list Z) (old_index new_index : nat) : option (list DiffLine) :=
  match fuel with
  | O => None
  | S fuel' =>
      let old_left := bool_decide (old_index < length old_lines) in
      let new_left := bool_decide (new_index < length new_lines) in
      if old_left || new_left then
        if old_left && new_left &&
           bool_decide (line_at old_lines old_index = line_at new_lines new_index)
        then cons (Line.Equal (line_at old_lines old_index)) <$>
               lcs_walk fuel' dp (old_index + 1) (new_index + 1)
        else if old_left &&
                (bool_decide (new_index = length new_lines) ||
                 bool_decide (cell dp (old_index * width + new_index + 1) ≤
                              cell dp ((old_index + 1) * width + new_index))%Z)
        then cons (Line.Remove (line_at old_lines old_index)) <$>
               lcs_walk fuel' dp (old_index + 1) new_index
        else if new_left
        then cons (Line.Add (line_at new_lines new_index)) <$>
               lcs_walk fuel' dp old_index (new_index + 1)
        else lcs_walk fuel' dp old_index new_index
      else Some []
  end.

(** One unit of fuel per line of both sides, and one to stop. *)
Definition lcs_diff_lines : option (list DiffLine) :=
  lcs_walk (length old_lines + length new_lines + 1) lcs_table 0 0.

(** *** The shortcut for large files *)

Fixpoint common_prefix (xs ys : list string) : nat :=
  match xs, ys with
  | x :: xs', y :: ys' => if decide (x = y) then S (common_prefix xs' ys') else 0
  | _, _ => 0
  end.

(** The lines that agree at the end, among those after the common prefix. *)
Definition common_suffix (prefix : nat) : nat :=
  common_prefix (reverse (drop prefix old_lines)) (reverse (drop prefix new_lines)).

Definition slice {A} (a b : nat) (l : list A) : list A := take (b - a) (drop a l).

Definition trimmed_diff_lines : list DiffLine :=
  let prefix := common_prefix old_lines new_lines in
  let suffix := common_suffix prefix in
  let context_start := prefix - DIFF_CONTEXT_LINES in
  let old_change_end := length old_lines - suffix in
  let new_change_end := length new_lines - suffix in
  let old_context_end := Nat.min (old_change_end + DIFF_CONTEXT_LINES) (length old_lines) in
  let new_context_end := Nat.min (new_change_end + DIFF_CONTEXT_LINES) (length new_lines) in
  (Line.Equal <$> slice context_start prefix old_lines) ++
  (Line.Remove <$> slice prefix old_change_end old_lines) ++
  (Line.Add <$> slice prefix new_change_end new_lines) ++
  (Line.Equal <$> slice old_change_end old_context_end old_lines) ++
  (if bool_decide (new_change_end < new_context_end) && bool_decide (old_context_end = old_change_end)
   then Line.Equal <$> slice new_change_end new_context_end new_lines else []).
End lcs.

(** ** Hunks *)

Record UnifiedHunk := {
  uh_old_start : nat;
  uh_old_count : nat;
  uh_new_start : nat;
  uh_new_count : nat;
  uh_lines : list DiffLine;
}.

Definition hunk_start_line (consumed_before count : nat) : nat :=
  if bool_decide (count = 0) then consumed_before else consumed_before + 1.

Definition count_of (P : DiffLine → bool) (l : list DiffLine) : nat := length (List.filter P l).

(** The loop that skips unchanged lines, counting them on both sides. *)
Fixpoint skip_unchanged (rest : list DiffLine) (index old_consumed new_consumed : nat) : nat * nat * nat :=
  match rest with
  | op :: rest' =>
      if is_change op then (index, old_consumed, new_consumed)
      else skip_unchanged rest' (S index)
             (old_consumed + Nat.b2n (consumes_old op)) (new_consumed + Nat.b2n (consumes_new op))
  | [] => (index, old_consumed, new_consumed)
  end.

(** The loop that looks for the last change of a hunk. *)
Fixpoint scan_changes (rest : list DiffLine) (scan last_change : nat) : nat :=
  match rest with
  | op :: rest' =>
      if is_change op then scan_changes rest' (S scan) scan
      else if bool_decide (DIFF_CONTEXT_LINES < scan - last_change) then last_change
      else scan_changes rest' (S scan) last_change
  | [] => last_change
  end.

(** The hunk whose first change is at [index], and the index after it. *)
Definition hunk_at (ops : list DiffLine) (index old_consumed new_consumed : nat) : UnifiedHunk * nat :=
  let hunk_start := index - DIFF_CONTEXT_LINES in
  let before := slice hunk_start index ops in
  let old_before_hunk := fold_left (λ n op, n - Nat.b2n (consumes_old op)) before old_consumed in
  let new_before_hunk := fold_left (λ n op, n - Nat.b2n (consumes_new op)) before new_consumed in
  let last_change := scan_changes (drop index ops) index index in
  let hunk_end := Nat.min (last_change + DIFF_CONTEXT_LINES + 1) (length ops) in
  let hunk := slice hunk_start hunk_end ops in
  let old_count := count_of consumes_old hunk in
  let new_count := count_of consumes_new hunk in
  ({| uh_old_start := hunk_start_line old_before_hunk old_count; uh_old_count := old_count;
      uh_new_start := hunk_start_line new_before_hunk new_count; uh_new_count := new_count;
      uh_lines := hunk |}, hunk_end).

Fixpoint hunks_from (fuel : nat) (ops : list DiffLine) (index old_consumed new_consumed : nat)
    : option (list UnifiedHunk) :=
  match fuel with
  | O => None
  | S fuel' =>
      if bool_decide (index < length ops) then
        let '(index, old_consumed, new_consumed) :=
          skip_unchanged (drop index ops) index old_consumed new_consumed in
        if bool_decide (length ops ≤ index) then Some []
        else
          let '(hunk, hunk_end) := hunk_at ops index old_consumed new_consumed in
          let passed := slice index hunk_end ops in
          cons hunk <$> hunks_from fuel' ops hunk_end
                          (old_consumed + count_of consumes_old passed)
                          (new_consumed + count_of consumes_new passed)
      else Some []
  end.

Definition unified_hunks (ops : list DiffLine) : option (list UnifiedHunk) :=
  hunks_from (S (length ops)) ops 0 0 0.

Definition dec (n : nat) : string := dec_string (N.of_nat n).

Definition hunk_header (h : UnifiedHunk) : string :=
  "@@ -" +:+ dec (uh_old_start h) +:+ "," +:+ dec (uh_old_count h) +:+ " +" +:+
  dec (uh_new_start h) +:+ "," +:+ dec (uh_new_count h) +:+ " @@" +:+ nl.

Definition render_hunk (h : UnifiedHunk) : string :=
  hunk_header h +:+ str_concat (render <$> uh_lines h).

Definition append_unified_hunks (diff : string) (ops : list DiffLine) : option string :=
  (λ hunks, diff +:+ str_concat (render_hunk <$> hunks)) <$> unified_hunks ops.

(** [usize::saturating_mul] of lengths *)
Definition usize_saturating_mul (a b : nat) : Z := Z.min u64_max (Z.of_nat a * Z.of_nat b).

Definition diff_script (old_lines new_lines : list string) : option (list DiffLine) :=
  if bool_decide (usize_saturating_mul (length old_lines) (length new_lines) ≤ MAX_LCS_CELLS)%Z
  then lcs_diff_lines old_lines new_lines
  else Some (trimmed_diff_lines old_lines new_lines).

Definition generate_diff (path old new : string) : option string :=
  let old_lines := lines old in
  let new_lines := lines new in
  let diff := "--- a/" +:+ path +:+ nl +:+ "+++ b/" +:+ path +:+ nl in
  if bool_decide (old_lines = new_lines) then Some diff
  else
    ops ← diff_script old_lines new_lines;
    append_unified_hunks diff ops.

(** A change in the middle, with its context. *)
Example diff_demo :
  generate_diff "f" (text_of ["one"; "two"; "three"]) (text_of ["one"; "TWO"; "three"]) =
  Some (text_of ["--- a/f"; "+++ b/f"; "@@ -1,3 +1,3 @@"; " one"; "-two"; "+TWO"; " three"]).
Proof. by vm_compute. Qed.
