(* ===== verification/LineDiffSpec.v ===== *)
(** * What a generated diff is

    The reference notions for LineDiff.v (edit scripts, common subsequences, the
    lines a hunk describes) and the proofs that the table computes the longest
    common subsequence, that the walk is a shortest edit script, and that the hunks
    partition its changes and describe both files at the lines of their headers. *)

From S2P Require Import Prelude TextLines LineDiff.

(** ** Edit scripts *)

(** The lines of one side of a script. *)
Fixpoint old_side (ops : list DiffLine) : list string :=
  match ops with
  | [] => []
  | (Line.Equal l | Line.Remove l) :: ops' => l :: old_side ops'
  | Line.Add _ :: ops' => old_side ops'
  end.

Fixpoint new_side (ops : list DiffLine) : list string :=
  match ops with
  | [] => []
  | (Line.Equal l | Line.Add l) :: ops' => l :: new_side ops'
  | Line.Remove _ :: ops' => new_side ops'
  end.

Fixpoint kept (ops : list DiffLine) : list string :=
  match ops with
  | [] => []
  | Line.Equal l :: ops' => l :: kept ops'
  | _ :: ops' => kept ops'
  end.

Definition changes (ops : list DiffLine) : list DiffLine := List.filter is_change ops.

(** [ops] turns [old] into [new]. *)
Definition edits (old new : list string) (ops : list DiffLine) : Prop :=
  old_side ops = old ∧ new_side ops = new.

Lemma old_side_app l k : old_side (l ++ k) = old_side l ++ old_side k.
Proof. induction l as [|[x|x|x] l IH]; simpl; by rewrite ?IH. Qed.
Lemma new_side_app l k : new_side (l ++ k) = new_side l ++ new_side k.
Proof. induction l as [|[x|x|x] l IH]; simpl; by rewrite ?IH. Qed.
Lemma changes_app l k : changes (l ++ k) = changes l ++ changes k.
Proof. apply List.filter_app. Qed.
Lemma count_of_app P l k : count_of P (l ++ k) = count_of P l + count_of P k.
Proof. unfold count_of. by rewrite List.filter_app, length_app. Qed.

Lemma count_of_one P op : count_of P [op] = Nat.b2n (P op).
Proof. unfold count_of. simpl. by destruct (P op). Qed.

Lemma length_old_side ops : length (old_side ops) = count_of consumes_old ops.
Proof. unfold count_of. induction ops as [|[l|l|l] ops IH]; simpl; auto. Qed.

Lemma length_new_side ops : length (new_side ops) = count_of consumes_new ops.
Proof. unfold count_of. induction ops as [|[l|l|l] ops IH]; simpl; auto. Qed.

Lemma kept_old ops : kept ops `sublist_of` old_side ops.
Proof. induction ops as [|[l|l|l] ops IH]; simpl; try exact IH; by constructor. Qed.

Lemma kept_new ops : kept ops `sublist_of` new_side ops.
Proof. induction ops as [|[l|l|l] ops IH]; simpl; try exact IH; by constructor. Qed.

Lemma length_changes ops :
  length (changes ops) + 2 * length (kept ops) = length (old_side ops) + length (new_side ops).
Proof.
  unfold changes. induction ops as [|[l|l|l] ops IH]; simpl in *; lia.
Qed.

(** ** Longest common subsequences *)

Fixpoint lcs (xs ys : list string) : nat :=
  match xs with
  | [] => 0
  | x :: xs' =>
      (fix go ys := match ys with
                    | [] => 0
                    | y :: ys' => if decide (x = y) then S (lcs xs' ys')
                                  else Nat.max (lcs xs' ys) (go ys')
                    end) ys
  end.

Lemma lcs_nil_r xs : lcs xs [] = 0.
Proof. by destruct xs. Qed.

Lemma lcs_cons x xs y ys :
  lcs (x :: xs) (y :: ys) =
  if decide (x = y) then S (lcs xs ys) else Nat.max (lcs xs (y :: ys)) (lcs (x :: xs) ys).
Proof. done. Qed.

Lemma lcs_longest xs ys s : s `sublist_of` xs → s `sublist_of` ys → length s ≤ lcs xs ys.
Proof.
  revert ys s. induction xs as [|x xs IH]; intros ys s Hx Hy.
  { apply sublist_nil_r in Hx as ->. simpl. lia. }
  revert s Hx Hy. induction ys as [|y ys IHy]; intros s Hx Hy.
  { apply sublist_nil_r in Hy as ->. simpl. lia. }
  rewrite lcs_cons. destruct (decide (x = y)) as [<-|Hne].
  - inversion Hx as [|? s' ? Hx'|? ? ? Hx']; subst.
    + apply le_n_S, IH; [done|]. inversion Hy as [|? ? ? Hy'|? ? ? Hy']; subst; [done|].
      etrans; [|exact Hy']. by constructor.
    + destruct s as [|z s]; [simpl; lia|]. simpl. apply le_n_S, IH.
      * etrans; [|exact Hx']. by constructor.
      * inversion Hy as [|? ? ? Hy'|? ? ? Hy']; subst; [done|]. etrans; [|exact Hy']. by constructor.
  - inversion Hx as [|? s' ? Hx'|? ? ? Hx']; subst.
    + inversion Hy as [|? ? ? Hy'|? ? ? Hy']; subst; [done|].
      etrans; [by apply IHy|]. apply Nat.le_max_r.
    + etrans; [by apply (IH (y :: ys))|]. apply Nat.le_max_l.
Qed.

Lemma lcs_le_l xs ys : lcs xs ys ≤ length xs.
Proof.
  revert ys. induction xs as [|x xs IH]; intros ys; [done|].
  induction ys as [|y ys IHy]; [simpl; lia|]. rewrite lcs_cons.
  pose proof (IH ys). pose proof (IH (y :: ys)). case_decide; simpl length in *; lia.
Qed.

Lemma lcs_le_r xs ys : lcs xs ys ≤ length ys.
Proof.
  revert ys. induction xs as [|x xs IH]; intros ys; [simpl; lia|].
  induction ys as [|y ys IHy]; [simpl; lia|]. rewrite lcs_cons.
  pose proof (IH ys). pose proof (IH (y :: ys)). case_decide; simpl length in *; lia.
Qed.

(** ** The table *)

Section table.
Context (old_lines new_lines : list string).

Abbreviation n := (length old_lines).
Abbreviation m := (length new_lines).
Abbreviation width := (LineDiff.width new_lines).

(** What a cell stands for. *)
Definition L (i j : nat) : nat := lcs (drop i old_lines) (drop j new_lines).

Lemma L_bottom j : L n j = 0.
Proof. unfold L. by rewrite drop_all. Qed.

Lemma L_right i : L i m = 0.
Proof. unfold L. by rewrite drop_all, lcs_nil_r. Qed.

Lemma drop_line l i : i < length l → drop i l = line_at l i :: drop (S i) l.
Proof.
  intros Hi. unfold line_at. destruct (lookup_lt_is_Some_2 l i Hi) as [x Hx].
  rewrite Hx. by apply drop_S.
Qed.

Lemma L_step i j : i < n → j < m →
  L i j = if decide (line_at old_lines i = line_at new_lines j) then S (L (S i) (S j))
          else Nat.max (L (S i) j) (L i (S j)).
Proof.
  intros Hi Hj. unfold L. rewrite (drop_line old_lines i), (drop_line new_lines j), lcs_cons by done.
  by rewrite <- (drop_line new_lines j), <- (drop_line old_lines i).
Qed.

Lemma index_inj i j i' j' : j ≤ m → j' ≤ m → i * width + j = i' * width + j' → i = i' ∧ j = j'.
Proof. unfold LineDiff.width. intros. assert (i = i') by nia. subst. lia. Qed.

Lemma index_lt i j : i ≤ n → j ≤ m → i * width + j < (n + 1) * width.
Proof. unfold LineDiff.width. nia. Qed.

Context (Hfit : (Z.of_nat (lcs old_lines new_lines) < 2 ^ 32)%Z).

Lemma L_mono i j : L i j ≤ lcs old_lines new_lines.
Proof.
  assert (∃ s, s `sublist_of` drop i old_lines ∧ s `sublist_of` drop j new_lines ∧ length s = L i j) as (s&Ho&Hn&<-).
  { unfold L. generalize (drop i old_lines) (drop j new_lines). clear. intros xs.
    induction xs as [|x xs IH]; intros ys; [exists []; split_and!; [done|apply sublist_nil_l|done]|].
    induction ys as [|y ys IHy]; [exists []; split_and!; [apply sublist_nil_l|done|done]|].
    rewrite lcs_cons. case_decide as E.
    - subst y. destruct (IH ys) as (s&?&?&<-). exists (x :: s). by split_and!; [constructor..|].
    - destruct (Nat.max_spec (lcs xs (y :: ys)) (lcs (x :: xs) ys)) as [[_ ->]|[_ ->]].
      + destruct IHy as (s&?&?&<-). exists s. by split_and!; [|constructor|].
      + destruct (IH (y :: ys)) as (s&?&?&<-). exists s. by split_and!; [constructor| |]. }
  apply lcs_longest; [etrans; [exact Ho|]|etrans; [exact Hn|]]; apply sublist_drop.
Qed.

(** The cells from row [i], column [j] on are final. *)
Definition filled (dp : list Z) (i j : nat) : Prop :=
  length dp = (n + 1) * width ∧
  ∀ i' j', i' ≤ n → j' ≤ m → i < i' ∨ (i' = i ∧ j ≤ j') ∨ j' = m →
    cell dp (i' * width + j') = Z.of_nat (L i' j').

Lemma filled_step dp i j : i < n → j < m → filled dp i (S j) →
  filled (<[i * width + j := lcs_cell old_lines new_lines dp i j]> dp) i j.
Proof.
  intros Hi Hj [Hlen Hd]. split; [by rewrite length_insert|]. intros i' j' Hi' Hj' Hc.
  unfold cell. destruct (decide (i' = i ∧ j' = j)) as [[-> ->]|Hne].
  - rewrite list_lookup_insert_eq by (rewrite Hlen; apply index_lt; lia). simpl.
    rewrite L_step by done. unfold lcs_cell.
    replace ((i + 1) * width + j + 1) with ((S i) * width + S j) by lia.
    replace ((i + 1) * width + j) with ((S i) * width + j) by lia.
    replace (i * width + j + 1) with (i * width + S j) by lia.
    rewrite !Hd by lia. case_decide; [|lia].
    unfold u32_add. rewrite Z.mod_small; [lia|]. pose proof (L_mono i j) as Hm.
    rewrite L_step, decide_True in Hm by done. lia.
  - rewrite list_lookup_insert_ne.
    + apply Hd; [done..|]. lia.
    + intros E. apply Hne. symmetry in E. by apply index_inj in E; [|lia..].
Qed.

Lemma filled_row dp i : i < n → filled dp (S i) 0 → filled (fill_row old_lines new_lines dp i) i 0.
Proof.
  intros Hi Hd.
  assert (∀ k dp, k ≤ m → filled dp i k →
    filled (fold_left (λ dp j, <[i * width + j := lcs_cell old_lines new_lines dp i j]> dp)
              (reverse (seq 0 k)) dp) i 0) as H.
  { intros k. induction k as [|k IH]; intros dp' Hk Hf; [done|].
    rewrite seq_S, reverse_app. simpl. apply IH; [lia|]. by apply filled_step. }
  apply H; [done|]. destruct Hd as [Hlen Hd]. split; [done|]. intros i' j' ? ? Hc. apply Hd; lia.
Qed.

Lemma table_filled : filled (lcs_table old_lines new_lines) 0 0.
Proof.
  unfold lcs_table.
  assert (∀ k dp, k ≤ n → filled dp k 0 →
    filled (fold_left (fill_row old_lines new_lines) (reverse (seq 0 k)) dp) 0 0) as H.
  { intros k. induction k as [|k IH]; intros dp Hk Hf; [done|].
    rewrite seq_S, reverse_app. simpl. apply IH; [lia|]. by apply filled_row. }
  apply H; [done|]. split; [by rewrite length_replicate|]. intros i' j' Hi' Hj' Hc.
  unfold cell. rewrite lookup_replicate_2 by (apply index_lt; lia). simpl.
  destruct Hc as [Hc|[[-> _]| ->]]; [lia| |].
  - by rewrite L_bottom.
  - by rewrite L_right.
Qed.

Lemma table_cell i j : i ≤ n → j ≤ m →
  cell (lcs_table old_lines new_lines) (i * width + j) = Z.of_nat (L i j).
Proof. intros. apply table_filled; [done..|]. lia. Qed.

(** ** The walk *)

(** The walk never runs out of fuel, its script edits one side into the other, and it keeps as many
    lines as a longest common subsequence has. *)
Lemma walk_spec fuel i j : i ≤ n → j ≤ m → (n - i) + (m - j) < fuel →
  ∃ ops, lcs_walk old_lines new_lines fuel (lcs_table old_lines new_lines) i j = Some ops ∧
    edits (drop i old_lines) (drop j new_lines) ops ∧ length (kept ops) = L i j.
Proof.
  revert i j. induction fuel as [|fuel IH]; intros i j Hi Hj Hf; [lia|].
  cbn [lcs_walk].
  destruct (decide (i < n)) as [Hin|Hin], (decide (j < m)) as [Hjm|Hjm];
    rewrite ?(bool_decide_eq_true_2 (i < n)), ?(bool_decide_eq_false_2 (i < n)),
      ?(bool_decide_eq_true_2 (j < m)), ?(bool_decide_eq_false_2 (j < m)) by lia; cbn [andb orb].
  - pose proof (L_step i j Hin Hjm) as HL. case_decide as E.
    + rewrite bool_decide_eq_true_2 by done.
      destruct (IH (i + 1) (j + 1)) as (ops&->&[Ho Hn]&Hk); [lia..|].
      eexists. split; [done|]. rewrite !Nat.add_1_r in *. unfold edits. cbn.
      rewrite (drop_line old_lines i), (drop_line new_lines j), Ho, Hn, Hk, HL, E by done. done.
    + rewrite (bool_decide_eq_false_2 (line_at _ _ = _)) by done.
      rewrite (bool_decide_eq_false_2 (j = m)) by lia. cbn [orb].
      replace (i * width + j + 1) with (i * width + S j) by lia.
      replace ((i + 1) * width + j) with ((S i) * width + j) by lia.
      rewrite !table_cell by lia. case_bool_decide as Hc.
      * destruct (IH (i + 1) j) as (ops&->&[Ho Hn]&Hk); [lia..|].
        eexists. split; [done|]. rewrite !Nat.add_1_r in *. unfold edits. cbn.
        rewrite (drop_line old_lines i), Ho, Hn, Hk by done. split; [done|lia].
      * destruct (IH i (j + 1)) as (ops&->&[Ho Hn]&Hk); [lia..|].
        eexists. split; [done|]. rewrite !Nat.add_1_r in *. unfold edits. cbn.
        rewrite (drop_line new_lines j), Ho, Hn, Hk by done. split; [done|lia].
  - assert (j = m) as -> by lia. rewrite (bool_decide_eq_true_2 (m = m)) by done. cbn [orb].
    destruct (IH (i + 1) m) as (ops&->&[Ho Hn]&Hk); [lia..|].
    eexists. split; [done|]. rewrite !Nat.add_1_r in *. unfold edits. cbn.
    rewrite (drop_line old_lines i), Ho, Hn, Hk, !L_right by done. done.
  - assert (i = n) as -> by lia.
    destruct (IH n (j + 1)) as (ops&->&[Ho Hn]&Hk); [lia..|].
    eexists. split; [done|]. rewrite !Nat.add_1_r in *. unfold edits. cbn.
    rewrite (drop_line new_lines j), Ho, Hn, Hk, !L_bottom by done. done.
  - assert (i = n) as -> by lia. assert (j = m) as -> by lia. exists [].
    unfold edits. rewrite !drop_all, L_right. done.
Qed.

(** The script of the walk, and that no other script has fewer changes. *)
Lemma lcs_diff_spec : ∃ ops, lcs_diff_lines old_lines new_lines = Some ops ∧
  edits old_lines new_lines ops ∧
  ∀ ops', edits old_lines new_lines ops' → length (changes ops) ≤ length (changes ops').
Proof.
  destruct (walk_spec (n + m + 1) 0 0) as (ops&Hw&[Ho Hn]&Hk); [lia..|].
  exists ops. split; [done|]. split; [done|]. intros ops' [Ho' Hn'].
  assert (length (kept ops') ≤ length (kept ops)) as Hle.
  { rewrite Hk. apply lcs_longest; simpl; [rewrite <- Ho'; apply kept_old|rewrite <- Hn'; apply kept_new]. }
  pose proof (length_changes ops) as H1. pose proof (length_changes ops') as H2.
  rewrite Ho, Hn, !drop_0 in H1. rewrite Ho', Hn' in H2. lia.
Qed.
End table.

(** ** Slices *)

Lemma slice_split {A} a b c (l : list A) : a ≤ b → b ≤ c → slice a c l = slice a b l ++ slice b c l.
Proof.
  intros. unfold slice. rewrite <- (take_drop (b - a) (take (c - a) (drop a l))).
  rewrite take_take, skipn_firstn_comm, drop_drop. f_equal; [f_equal; lia|].
  f_equal; [lia|f_equal; lia].
Qed.

Lemma slice_0 {A} b (l : list A) : slice 0 b l = take b l.
Proof. unfold slice. by rewrite drop_0, Nat.sub_0_r. Qed.

Lemma slice_end {A} a (l : list A) : slice a (length l) l = drop a l.
Proof. unfold slice. apply take_ge. by rewrite length_drop. Qed.

Lemma slice_empty {A} a (l : list A) : slice a a l = [].
Proof. unfold slice. by rewrite Nat.sub_diag. Qed.

Lemma slice_one {A} a (l : list A) x : l !! a = Some x → slice a (S a) l = [x].
Proof. intros H. unfold slice. rewrite (drop_S _ _ _ H). by replace (S a - a) with 1 by lia. Qed.

Lemma slice_past {A} a b (l : list A) : length l ≤ b → slice a b l = drop a l.
Proof. intros. unfold slice. apply take_ge. rewrite length_drop. lia. Qed.

Lemma drop_split {A} a b (l : list A) : a ≤ b → drop a l = slice a b l ++ drop b l.
Proof.
  intros. destruct (decide (b ≤ length l)) as [Hb|Hb].
  - by rewrite <- (slice_end a), <- (slice_end b), <- slice_split.
  - rewrite slice_past, (drop_ge _ b), app_nil_r by lia. done.
Qed.

Lemma take_split {A} a b (l : list A) : a ≤ b → take b l = take a l ++ slice a b l.
Proof. intros. rewrite <- !slice_0. apply slice_split; lia. Qed.

(** ** The hunks of a script *)

Section hunks.
Context (ops : list DiffLine).

Definition unchanged (a b : nat) : Prop := changes (slice a b ops) = [].

Lemma unchanged_within a b a' b' : a ≤ a' → a' ≤ b' → b' ≤ b → unchanged a b → unchanged a' b'.
Proof.
  unfold unchanged. intros. rewrite (slice_split a a' b), (slice_split a' b' b), !changes_app in H2 by lia.
  apply app_eq_nil in H2 as [_ H2]. by apply app_eq_nil in H2 as [H2 _].
Qed.

Lemma unchanged_app a b c : a ≤ b → b ≤ c → unchanged a b → unchanged b c → unchanged a c.
Proof.
  unfold unchanged. intros ? ? H1 H2. by rewrite (slice_split a b c), changes_app, H1, H2.
Qed.

Lemma unchanged_one a op : ops !! a = Some op → is_change op = false → unchanged a (S a).
Proof. intros H Ho. unfold unchanged. rewrite (slice_one a ops op H). unfold changes. simpl. by rewrite Ho. Qed.

Lemma drop_cons_lookup (a : nat) op rest : drop a ops = op :: rest →
  ops !! a = Some op ∧ drop (S a) ops = rest ∧ a < length ops.
Proof.
  intros H. assert (ops !! a = Some op) as Hl.
  { rewrite <- (Nat.add_0_r a), <- lookup_drop, H. done. }
  split_and!; [done| |by eapply lookup_lt_Some]. rewrite (drop_S _ _ _ Hl) in H. congruence.
Qed.

Lemma skip_unchanged_spec rest index o n : drop index ops = rest → index ≤ length ops →
  ∃ index', skip_unchanged rest index o n =
    (index', o + count_of consumes_old (slice index index' ops),
     n + count_of consumes_new (slice index index' ops)) ∧
    index ≤ index' ∧ index' ≤ length ops ∧ unchanged index index' ∧
    (index' < length ops → ∃ op, ops !! index' = Some op ∧ is_change op = true).
Proof.
  revert index o n. induction rest as [|op rest IH]; intros index o n Hr Hi; cbn [skip_unchanged].
  - exists index. unfold unchanged. rewrite slice_empty, !Nat.add_0_r. split_and!; try done.
    intros Hlt. apply (f_equal length) in Hr. rewrite length_drop in Hr. simpl in Hr. lia.
  - destruct (drop_cons_lookup _ _ _ Hr) as (Hop&Hr'&Hlt). destruct (is_change op) eqn:Hc.
    + exists index. unfold unchanged. rewrite slice_empty, !Nat.add_0_r. split_and!; eauto; lia.
    + destruct (IH (S index) (o + Nat.b2n (consumes_old op)) (n + Nat.b2n (consumes_new op)))
        as (i'&->&Hle&Hlen&Hu&Hend); [done|lia|].
      exists i'. rewrite (slice_split index (S index) i'), !count_of_app, (slice_one index ops op Hop) by lia.
      split_and!; try done; [|lia|].
      * rewrite !count_of_one. f_equal; [f_equal|]; lia.
      * eapply unchanged_app; [| |by eapply unchanged_one|done]; lia.
Qed.

(** The last change of a hunk: three unchanged lines or the end of the script follow it. *)
Lemma scan_changes_spec rest scan last : drop scan ops = rest → last < scan → scan ≤ length ops →
  unchanged (S last) scan →
  let lc := scan_changes rest scan last in
  last ≤ lc ∧ lc < length ops ∧ unchanged (S lc) (Nat.min (lc + 4) (length ops)).
Proof.
  revert scan last. induction rest as [|op rest IH]; intros scan last Hr Hl Hs Hu; cbn [scan_changes].
  - apply (f_equal length) in Hr. rewrite length_drop in Hr. simpl in Hr.
    cbv zeta. split_and!; [lia..|]. eapply unchanged_within; [..|exact Hu]; lia.
  - destruct (drop_cons_lookup _ _ _ Hr) as (Hop&Hr'&Hlt). destruct (is_change op) eqn:Hc.
    + destruct (IH (S scan) scan) as (?&?&?); [done|lia..| |split_and!; [lia|done..]].
      unfold unchanged. by rewrite slice_empty.
    + case_bool_decide as Hd; unfold DIFF_CONTEXT_LINES in Hd.
      * split_and!; [lia..|]. eapply unchanged_within; [..|exact Hu]; lia.
      * apply IH; [done|lia..|]. eapply unchanged_app; [| |exact Hu|by eapply unchanged_one]; lia.
Qed.

Lemma scan_from_change index op : ops !! index = Some op → is_change op = true →
  let lc := scan_changes (drop index ops) index index in
  index ≤ lc ∧ lc < length ops ∧ unchanged (S lc) (Nat.min (lc + 4) (length ops)).
Proof.
  intros Hop Hc. rewrite (drop_S _ _ _ Hop). cbn [scan_changes]. rewrite Hc.
  apply scan_changes_spec; [done|lia| |].
  - apply lookup_lt_Some in Hop. lia.
  - unfold unchanged. by rewrite slice_empty.
Qed.

(** A hunk is a slice of the script, and its header counts what comes before it. *)
Definition hunk_ok (h : UnifiedHunk) : Prop :=
  ∃ a b, a ≤ b ∧ uh_lines h = slice a b ops ∧
    uh_old_count h = count_of consumes_old (uh_lines h) ∧
    uh_new_count h = count_of consumes_new (uh_lines h) ∧
    uh_old_start h = hunk_start_line (count_of consumes_old (take a ops)) (uh_old_count h) ∧
    uh_new_start h = hunk_start_line (count_of consumes_new (take a ops)) (uh_new_count h).

Lemma fold_saturating_sub P (l : list DiffLine) c :
  fold_left (λ n op, n - Nat.b2n (P op)) l c = c - count_of P l.
Proof.
  revert c. induction l as [|op l IH]; intros c; simpl; [unfold count_of; simpl; lia|].
  rewrite IH. unfold count_of. simpl. destruct (P op); simpl; lia.
Qed.

Lemma count_of_take P a b : a ≤ b → count_of P (take b ops) - count_of P (slice a b ops) = count_of P (take a ops).
Proof. intros. rewrite (take_split a b), count_of_app by done. lia. Qed.

Lemma hunk_at_spec index op : ops !! index = Some op → is_change op = true →
  unchanged (index - 3) index →
  let r := hunk_at ops index (count_of consumes_old (take index ops)) (count_of consumes_new (take index ops)) in
  hunk_ok r.1 ∧ index < r.2 ∧ r.2 ≤ length ops ∧
  (r.2 < length ops → unchanged (r.2 - 3) r.2) ∧
  changes (uh_lines r.1) = changes (slice index r.2 ops).
Proof.
  intros Hop Hc Hu. destruct (scan_from_change index op Hop Hc) as (Hle&Hlt&Hun).
  unfold hunk_at, DIFF_CONTEXT_LINES. set (lc := scan_changes _ _ _) in *. cbv zeta. simpl.
  replace (lc + 3 + 1) with (lc + 4) by lia.
  rewrite !fold_saturating_sub, !count_of_take by lia.
  split_and!; [|lia|lia| |].
  - exists (index - 3), (Nat.min (lc + 4) (length ops)). split_and!; try done. lia.
  - intros Hlast. eapply unchanged_within; [..|exact Hun]; lia.
  - rewrite (slice_split (index - 3) index), changes_app by lia. unfold unchanged in Hu. by rewrite Hu.
Qed.
Lemma hunks_from_spec fuel index : index ≤ length ops →
  (index < length ops → unchanged (index - 3) index) → length ops - index < fuel →
  ∃ hs, hunks_from fuel ops index (count_of consumes_old (take index ops))
          (count_of consumes_new (take index ops)) = Some hs ∧
    Forall hunk_ok hs ∧ concat (changes ∘ uh_lines <$> hs) = changes (drop index ops).
Proof.
  revert index. induction fuel as [|fuel IH]; intros index Hi Hu Hf; [lia|]. cbn [hunks_from].
  case_bool_decide as Hlt.
  2: { exists []. rewrite drop_ge by lia. split_and!; [done|constructor|done]. }
  destruct (skip_unchanged_spec (drop index ops) index (count_of consumes_old (take index ops))
    (count_of consumes_new (take index ops))) as (i'&->&Hle&Hlen&Hun&Hend); [done|lia|].
  rewrite (drop_split index i'), changes_app by done. unfold unchanged in Hun. rewrite Hun.
  cbv beta iota. cbn [app]. rewrite <- !count_of_app, <- !(take_split index i') by done.
  case_bool_decide as Hge.
  { exists []. rewrite drop_ge by lia. split_and!; [done|constructor|done]. }
  destruct Hend as (op&Hop&Hc); [lia|].
  destruct (hunk_at_spec i' op Hop Hc) as (Hok&Hlt'&Hlen'&Hu'&Hch).
  { eapply (unchanged_within (index - 3) i'); [lia..|]. eapply unchanged_app; [| |by apply Hu|done]; lia. }
  destruct (hunk_at ops i' _ _) as [hunk hunk_end]. simpl in Hok, Hlt', Hlen', Hu', Hch.
  cbv beta iota zeta. rewrite <- !count_of_app, <- !(take_split i' hunk_end) by lia.
  destruct (IH hunk_end) as (hs&->&Hoks&Hcs); [lia|done|lia|].
  exists (hunk :: hs). split_and!; [done|by constructor|].
  rewrite fmap_cons. cbn. by rewrite Hcs, Hch, <- changes_app, <- drop_split by lia.
Qed.

Lemma unified_hunks_spec :
  ∃ hs, unified_hunks ops = Some hs ∧ Forall hunk_ok hs ∧
    concat (changes ∘ uh_lines <$> hs) = changes ops.
Proof.
  destruct (hunks_from_spec (S (length ops)) 0) as (hs&H&?&?); [lia|done|lia|].
  exists hs. by rewrite drop_0 in *.
Qed.
End hunks.

(** ** What a hunk says about the files *)

(** The index of the first line of a hunk's side, from its header. *)
Definition first_line (start count : nat) : nat := if bool_decide (count = 0) then start else start - 1.

(** The lines of the hunk are those of both files at the places its header names. *)
Definition hunk_describes (old new : list string) (h : UnifiedHunk) : Prop :=
  old_side (uh_lines h) =
    take (uh_old_count h) (drop (first_line (uh_old_start h) (uh_old_count h)) old) ∧
  new_side (uh_lines h) =
    take (uh_new_count h) (drop (first_line (uh_new_start h) (uh_new_count h)) new) ∧
  length (old_side (uh_lines h)) = uh_old_count h ∧
  length (new_side (uh_lines h)) = uh_new_count h.

Lemma first_line_start before count : first_line (hunk_start_line before count) count = before.
Proof. unfold first_line, hunk_start_line. case_bool_decide; lia. Qed.

Lemma hunk_ok_describes old new ops h : edits old new ops → hunk_ok ops h → hunk_describes old new h.
Proof.
  intros [<- <-] (a&b&Hab&Hl&Ho&Hn&Hos&Hns). unfold hunk_describes.
  rewrite Hos, Hns, !first_line_start, Ho, Hn, <- !length_old_side, <- !length_new_side, Hl.
  assert (ops = take a ops ++ slice a b ops ++ drop b ops) as E
    by (by rewrite <- (drop_split a b), take_drop).
  assert (old_side ops = old_side (take a ops) ++ old_side (slice a b ops) ++ old_side (drop b ops)) as ->
    by (by rewrite <- !old_side_app, <- E).
  assert (new_side ops = new_side (take a ops) ++ new_side (slice a b ops) ++ new_side (drop b ops)) as ->
    by (by rewrite <- !new_side_app, <- E).
  split_and!; [..|done|done]; by rewrite drop_app_length, take_app_length.
Qed.

(** ** The shortcut *)

Lemma common_prefix_spec xs ys :
  take (common_prefix xs ys) xs = take (common_prefix xs ys) ys ∧
  common_prefix xs ys ≤ length xs ∧ common_prefix xs ys ≤ length ys.
Proof.
  revert ys. induction xs as [|x xs IH]; intros [|y ys]; simpl; [split_and!; (done || lia)..|].
  case_decide as E; simpl; [|split_and!; (done || lia)]. destruct (IH ys) as (->&?&?). subst.
  split_and!; [done|lia..].
Qed.

Lemma old_side_fmap (f : string → DiffLine) l :
  (∀ x, old_side [f x] = [x]) → old_side (f <$> l) = l.
Proof.
  intros H. induction l as [|x l IH]; [done|]. change (f <$> x :: l) with ([f x] ++ (f <$> l)).
  by rewrite old_side_app, H, IH.
Qed.

Lemma new_side_fmap (f : string → DiffLine) l :
  (∀ x, new_side [f x] = [x]) → new_side (f <$> l) = l.
Proof.
  intros H. induction l as [|x l IH]; [done|]. change (f <$> x :: l) with ([f x] ++ (f <$> l)).
  by rewrite new_side_app, H, IH.
Qed.

Lemma old_side_adds l : old_side (Line.Add <$> l) = [].
Proof. by induction l. Qed.

Lemma new_side_removes l : new_side (Line.Remove <$> l) = [].
Proof. by induction l. Qed.

(** The script of the shortcut edits a window of both files, all but the last three lines of the
    common prefix before it. *)
Lemma trimmed_spec old new :
  ∃ pre o n suf, old = pre ++ o ++ suf ∧ new = pre ++ n ++ suf ∧
    edits o n (trimmed_diff_lines old new) ∧ length pre = common_prefix old new - 3.
Proof.
  destruct (common_prefix_spec old new) as (Hp&Hpo&Hpn).
  set (p := common_prefix old new) in *.
  destruct (common_prefix_spec (reverse (drop p old)) (reverse (drop p new))) as (Hs&Hso&Hsn).
  unfold trimmed_diff_lines, common_suffix, DIFF_CONTEXT_LINES. fold p.
  set (s := common_prefix (reverse (drop p old)) (reverse (drop p new))) in *.
  rewrite length_reverse, length_drop in Hso, Hsn. cbv zeta.
  assert (drop (length old - s) old = drop (length new - s) new) as Hsuf.
  { apply (f_equal reverse) in Hs. rewrite !take_reverse, !reverse_involutive, !length_drop, !drop_drop in Hs.
    replace (length old - s) with (p + (length old - p - s)) by lia.
    replace (length new - s) with (p + (length new - p - s)) by lia. done. }
  set (oe := Nat.min (length old - s + 3) (length old)).
  set (ne := Nat.min (length new - s + 3) (length new)).
  assert (slice (length old - s) oe old = slice (length new - s) ne new) as Hctx.
  { unfold slice. rewrite Hsuf. f_equal. lia. }
  assert (drop oe old = drop ne new) as Hrest.
  { replace oe with ((length old - s) + (oe - (length old - s))) by lia.
    replace ne with ((length new - s) + (ne - (length new - s))) by lia.
    rewrite <- !drop_drop, Hsuf. f_equal. lia. }
  assert (slice (p - 3) p old = slice (p - 3) p new) as Hpre.
  { unfold slice. rewrite !take_drop_commute. replace (p - 3 + (p - (p - 3))) with p by lia. by rewrite Hp. }
  assert (take (p - 3) old = take (p - 3) new) as Htake.
  { apply (f_equal (take (p - 3))) in Hp. rewrite !take_take in Hp. by rewrite Nat.min_l in Hp by lia. }
  exists (take (p - 3) old), (slice (p - 3) oe old), (slice (p - 3) ne new), (drop oe old).
  split_and!.
  - by rewrite <- (drop_split (p - 3) oe), take_drop by lia.
  - by rewrite Hrest, Htake, <- (drop_split (p - 3) ne), take_drop by lia.
  - assert ((if bool_decide (length new - s < ne) && bool_decide (oe = length old - s)
             then Line.Equal <$> slice (length new - s) ne new else []) = []) as ->.
    { case_bool_decide; [|done]. rewrite bool_decide_eq_false_2; [done|]. lia. }
    unfold edits. rewrite app_nil_r, !old_side_app, !new_side_app.
    rewrite !(old_side_fmap Line.Equal), !(old_side_fmap Line.Remove), !(new_side_fmap Line.Equal),
      !(new_side_fmap Line.Add), old_side_adds, new_side_removes by done.
    rewrite (slice_split (p - 3) p oe), (slice_split p (length old - s) oe) by lia.
    rewrite (slice_split (p - 3) p ne), (slice_split p (length new - s) ne) by lia.
    by rewrite Hpre, Hctx.
  - rewrite length_take. lia.
Qed.

(** ** Generated diffs *)

Definition diff_header (path : string) : string :=
  "--- a/" +:+ path +:+ nl +:+ "+++ b/" +:+ path +:+ nl.

Definition small (o n : list string) : Prop := (Z.of_nat (length o * length n) ≤ MAX_LCS_CELLS)%Z.

#[export] Instance small_dec o n : Decision (small o n).
Proof. unfold small. apply _. Defined.

Lemma small_table o n : small o n → (Z.of_nat (lcs o n) < 2 ^ 32)%Z.
Proof.
  unfold small, MAX_LCS_CELLS. intros H. pose proof (lcs_le_l o n). pose proof (lcs_le_r o n).
  change (2 ^ 32)%Z with 4294967296%Z. nia.
Qed.

Lemma diff_script_spec o n :
  ∃ ops, diff_script o n = Some ops ∧
    ∃ pre o' n' suf, o = pre ++ o' ++ suf ∧ n = pre ++ n' ++ suf ∧ edits o' n' ops ∧
      (small o n → pre = [] ∧ suf = [] ∧
         ∀ ops', edits o n ops' → length (changes ops) ≤ length (changes ops')) ∧
      (¬ small o n → length pre = common_prefix o n - 3).
Proof.
  unfold diff_script. destruct (decide (small o n)) as [Hs|Hs].
  - rewrite bool_decide_eq_true_2 by (unfold usize_saturating_mul, small in *; lia).
    destruct (lcs_diff_spec o n (small_table _ _ Hs)) as (ops&->&He&Hm). exists ops. split; [done|].
    exists [], o, n, []. rewrite !app_nil_r. by split_and!.
  - rewrite bool_decide_eq_false_2.
    + destruct (trimmed_spec o n) as (pre&o'&n'&suf&?&?&?&?). eexists. split; [done|].
      exists pre, o', n', suf. by split_and!.
    + unfold usize_saturating_mul, small, MAX_LCS_CELLS, u64_max in *. lia.
Qed.

(** C12. A generated diff is a correct diff: for any two texts the generator ends (the walk through
    the table and the hunk loop never run on), and unless the texts have the same lines the diff
    renders hunks whose changes, in order, are those of an edit script between the two files, each
    hunk giving the lines of both files at the line numbers of its header.  Up to a million table
    cells the script is a shortest one and the numbers count from the start of the files; beyond
    that it edits a window of both and the numbers count from the start of the window, three lines
    before the first difference. *)
Theorem generated_diff_is_correct path old new :
  let o := lines old in
  let n := lines new in
  (o = n ∧ generate_diff path old new = Some (diff_header path)) ∨
  (o ≠ n ∧ ∃ ops hs pre o' n' suf,
     generate_diff path old new = Some (diff_header path +:+ str_concat (render_hunk <$> hs)) ∧
     o = pre ++ o' ++ suf ∧ n = pre ++ n' ++ suf ∧ edits o' n' ops ∧
     concat (changes ∘ uh_lines <$> hs) = changes ops ∧ Forall (hunk_describes o' n') hs ∧
     (small o n → pre = [] ∧ suf = [] ∧
        ∀ ops', edits o n ops' → length (changes ops) ≤ length (changes ops')) ∧
     (¬ small o n → length pre = common_prefix o n - 3)).
Proof.
  cbv zeta. unfold generate_diff. case_bool_decide as E; [by left|right; split; [done|]].
  destruct (diff_script_spec (lines old) (lines new)) as (ops&->&pre&o'&n'&suf&?&?&He&?&?).
  destruct (unified_hunks_spec ops) as (hs&Hh&Hok&Hc). simpl.
  exists ops, hs, pre, o', n', suf. unfold append_unified_hunks. rewrite Hh. split_and!; try done.
  eapply Forall_impl; [exact Hok|]. intros h. by apply hunk_ok_describes.
Qed.

(** Two changes with four to six unchanged lines between them end up in two hunks that overlap,
    which a patch program does not accept. *)
Lemma close_changes_overlap :
  let old := ["a"; "1"; "2"; "3"; "4"; "5"; "b"] in
  let new := ["A"; "1"; "2"; "3"; "4"; "5"; "B"] in
  ∃ h k, (diff_script old new ≫= unified_hunks) = Some [h; k] ∧
    uh_old_start h = 1 ∧ uh_old_count h = 4 ∧ uh_old_start k = 4 ∧
    "3" ∈ old_side (uh_lines h) ∧ "3" ∈ old_side (uh_lines k).
Proof. do 2 eexists. split; [by vm_compute|]. split_and!; try done; set_solver. Qed.

(** The shortcut for large files numbers its lines from the start of its window: here the first
    difference is in line 6 and the header says line 1. *)
Lemma shortcut_numbers_from_window :
  let old := ["1"; "2"; "3"; "4"; "5"; "six"; "7"] in
  let new := ["1"; "2"; "3"; "4"; "5"; "SIX"; "7"] in
  ∃ h, unified_hunks (trimmed_diff_lines old new) = Some [h] ∧
    uh_lines h !! 0 = Some (Line.Equal "3") ∧ uh_old_start h = 1.
Proof. eexists. by split_and!; [vm_compute|..]. Qed.
