(* ===== verification/ApplyPatch.v ===== *)
(** * The patch tool: parsing and applying

    crates/agendao-tool/src/apply_patch.rs: the parsers of unified diffs and of model
    patches, and the application of hunks.  The regular expressions are matched by a
    third-party crate: each one is a field of [PatchSyntax], a function from a line
    to its captures.  The generator of diffs is in LineDiff.v. *)

From Stdlib Require Import DecimalString.
From S2P Require Import Prelude TextLines LineDiff.

Module PatchOp.
Inductive PatchOperation := Add | Update | Delete | Move (move_path : string).
#[export] Instance patch_operation_eq_dec : EqDecision PatchOperation.
Proof. solve_decision. Defined.
End PatchOp.
Export (hints) PatchOp.
Abbreviation PatchOperation := PatchOp.PatchOperation.

Definition is_add (op : PatchOperation) : bool :=
  match op with PatchOp.Add => true | _ => false end.

Module PLine.
Inductive PatchLine := Context | Remove | Add (line : string).
#[export] Instance patch_line_eq_dec : EqDecision PatchLine.
Proof. solve_decision. Defined.
End PLine.
Export (hints) PLine.
Abbreviation PatchLine := PLine.PatchLine.

(** Line numbers are [usize] values. *)
Record Hunk := {
  h_old_start : Z;
  h_old_count : Z;
  h_new_start : Z;
  h_new_count : Z;
  h_lines : list PatchLine;
}.

Record FilePatch := {
  fp_path : string;
  fp_operation : PatchOperation;
  fp_hunks : list Hunk;
}.

(** What the regular expressions of the source capture in a line. *)
Record PatchSyntax := {
  (** FILE_HEADER_RE: three dashes, spaces, the path without [a/] and without a date *)
  re_file_header : string → option string;
  (** NEW_FILE_HEADER_RE: three plus signs, spaces, the path without [b/] and without a date *)
  re_new_file_header : string → option string;
  (** HUNK_HEADER_RE: start and optional count of both sides *)
  re_hunk_header : string → option (string * option string * string * option string);
  (** RENAME_FROM_RE and RENAME_TO_RE *)
  re_rename_from : string → option string;
  re_rename_to : string → option string;
  (** BEGIN_FILE_RE, DELETE_FILE_RE, END_PATCH_RE and MOVE_TO_RE: lines of three stars *)
  re_begin_file : string → option string;
  re_delete_file : string → option string;
  re_end_patch : string → bool;
  re_move_to : string → option string;
}.

(** [s.parse::<usize>()]: an optional [+], at least one digit, no overflow. *)
Definition parse_usize (s : string) : option Z :=
  let digits := match strip_prefix "+" s with Some rest => rest | None => s end in
  if bool_decide (digits = EmptyString) then None
  else match NilEmpty.uint_of_string digits with
       | Some d => let n := Z.of_N (N.of_uint d) in if (n <? 2 ^ 64)%Z then Some n else None
       | None => None
       end.

(** [x as isize] *)
Definition as_isize (x : Z) : Z := if (x <? 2 ^ 63)%Z then x else (x - 2 ^ 64)%Z.

(** Wrapping [isize] addition. *)
Definition isize_add (a b : Z) : Z := ((a + b + 2 ^ 63) mod 2 ^ 64 - 2 ^ 63)%Z.

Section parse.
Context (syntax : PatchSyntax).

(** ** Unified diffs *)

(** The variables of the loop of [parse_multi_file_patch]. *)
Record ParseState := {
  ps_file_patches : list FilePatch;
  ps_current_file : option FilePatch;
  ps_current_hunk : option Hunk;
  ps_in_hunk : bool;
  ps_old_path : option string;
  ps_rename_from : option string;
  ps_rename_to : option string;
}.

Definition parse_start : ParseState := {|
  ps_file_patches := []; ps_current_file := None; ps_current_hunk := None; ps_in_hunk := false;
  ps_old_path := None; ps_rename_from := None; ps_rename_to := None |}.

Definition push_hunk (file : FilePatch) (hunk : option Hunk) : FilePatch := {|
  fp_path := fp_path file; fp_operation := fp_operation file;
  fp_hunks := fp_hunks file ++ match hunk with Some h => [h] | None => [] end |}.

(** [if !file.hunks.is_empty() { file_patches.push(file); }] *)
Definition push_file (file_patches : list FilePatch) (file : FilePatch) : list FilePatch :=
  if bool_decide (fp_hunks file = []) then file_patches else file_patches ++ [file].

(** The files completed when the current one ends. *)
Definition finish_file (s : ParseState) : list FilePatch :=
  match ps_current_file s with
  | Some file => push_file (ps_file_patches s) (push_hunk file (ps_current_hunk s))
  | None => ps_file_patches s
  end.

Definition on_diff_line (s : ParseState) : ParseState := {|
  ps_file_patches := finish_file s; ps_current_file := None; ps_current_hunk := None;
  ps_in_hunk := false; ps_old_path := None; ps_rename_from := None; ps_rename_to := None |}.

Definition on_rename_from (s : ParseState) (path : string) : ParseState := {|
  ps_file_patches := ps_file_patches s; ps_current_file := ps_current_file s;
  ps_current_hunk := ps_current_hunk s; ps_in_hunk := ps_in_hunk s; ps_old_path := ps_old_path s;
  ps_rename_from := Some path; ps_rename_to := ps_rename_to s |}.

Definition on_rename_to (s : ParseState) (path : string) : ParseState := {|
  ps_file_patches := ps_file_patches s; ps_current_file := ps_current_file s;
  ps_current_hunk := ps_current_hunk s; ps_in_hunk := ps_in_hunk s; ps_old_path := ps_old_path s;
  ps_rename_from := ps_rename_from s; ps_rename_to := Some path |}.

(** A [---] line: the hunk so far goes to the current file, if there is one. *)
Definition on_file_header (s : ParseState) (path : string) : ParseState := {|
  ps_file_patches := ps_file_patches s;
  ps_current_file := (λ file, push_hunk file (ps_current_hunk s)) <$> ps_current_file s;
  ps_current_hunk := match ps_current_file s with Some _ => None | None => ps_current_hunk s end;
  ps_in_hunk := false; ps_old_path := Some path;
  ps_rename_from := ps_rename_from s; ps_rename_to := ps_rename_to s |}.

Definition set_current_file (s : ParseState) (path : string) (operation : PatchOperation)
    : ParseState := {|
  ps_file_patches := ps_file_patches s;
  ps_current_file := Some {| fp_path := path; fp_operation := operation; fp_hunks := [] |};
  ps_current_hunk := ps_current_hunk s; ps_in_hunk := ps_in_hunk s; ps_old_path := ps_old_path s;
  ps_rename_from := ps_rename_from s; ps_rename_to := ps_rename_to s |}.

(** A [+++] line. *)
Definition on_new_file_header (s : ParseState) (new_path : string) : ParseState :=
  match ps_rename_from s, ps_rename_to s with
  | Some rename_from, Some rename_to => set_current_file s rename_from (PatchOp.Move rename_to)
  | _, _ =>
      let operation := if bool_decide (ps_old_path s = Some "/dev/null") then PatchOp.Add
                       else if bool_decide (new_path = "/dev/null") then PatchOp.Delete
                       else PatchOp.Update in
      let path := if is_add operation then new_path else default new_path (ps_old_path s) in
      if bool_decide (path = "/dev/null") || bool_decide (path = "") then s
      else set_current_file s path operation
  end.

Definition hunk_of_captures (c : string * option string * string * option string) : Hunk :=
  let '(old_start, old_count, new_start, new_count) := c in {|
  h_old_start := default 1%Z (parse_usize old_start);
  h_old_count := default 1%Z (default 1%Z ∘ parse_usize <$> old_count);
  h_new_start := default 1%Z (parse_usize new_start);
  h_new_count := default 1%Z (default 1%Z ∘ parse_usize <$> new_count);
  h_lines := [] |}.

(** A [@@] line: counted only inside a file. *)
Definition on_hunk_header (s : ParseState) (c : string * option string * string * option string)
    : ParseState :=
  match ps_current_file s with
  | Some file => {|
      ps_file_patches := ps_file_patches s;
      ps_current_file := Some (push_hunk file (ps_current_hunk s));
      ps_current_hunk := Some (hunk_of_captures c); ps_in_hunk := true; ps_old_path := ps_old_path s;
      ps_rename_from := ps_rename_from s; ps_rename_to := ps_rename_to s |}
  | None => s
  end.

(** A line inside a hunk. *)
Definition body_line (line : string) : option PatchLine :=
  if starts_with " " line || starts_with (String (Ascii.ascii_of_nat 9) "") line then Some PLine.Context
  else if starts_with "-" line && negb (starts_with "--- " line) then Some PLine.Remove
  else if starts_with "+" line && negb (starts_with "+++" line)
  then Some (PLine.Add (str_concat (drop 1 (chars line))))
  else None.

Definition push_line (h : Hunk) (line : PatchLine) : Hunk := {|
  h_old_start := h_old_start h; h_old_count := h_old_count h; h_new_start := h_new_start h;
  h_new_count := h_new_count h; h_lines := h_lines h ++ [line] |}.

Definition on_body_line (s : ParseState) (line : string) : ParseState :=
  match ps_in_hunk s, ps_current_hunk s, body_line line with
  | true, Some hunk, Some l => {|
      ps_file_patches := ps_file_patches s; ps_current_file := ps_current_file s;
      ps_current_hunk := Some (push_line hunk l); ps_in_hunk := true; ps_old_path := ps_old_path s;
      ps_rename_from := ps_rename_from s; ps_rename_to := ps_rename_to s |}
  | _, _, _ => s
  end.

Definition parse_line (s : ParseState) (line : string) : ParseState :=
  if starts_with "diff --git " line || starts_with "diff -" line then on_diff_line s
  else match re_rename_from syntax line with Some path => on_rename_from s path | None =>
  match re_rename_to syntax line with Some path => on_rename_to s path | None =>
  match re_file_header syntax line with Some path => on_file_header s path | None =>
  match re_new_file_header syntax line with Some path => on_new_file_header s path | None =>
  match re_hunk_header syntax line with Some captures => on_hunk_header s captures | None =>
  on_body_line s line
  end end end end end.

(** ** Model patches *)

Record ModelState := {
  ms_file_patches : list FilePatch;
  ms_current_file : option FilePatch;
  ms_content_lines : list string;
  ms_in_content : bool;
  ms_done : bool;
}.

Definition model_start : ModelState := {|
  ms_file_patches := []; ms_current_file := None; ms_content_lines := []; ms_in_content := false;
  ms_done := false |}.

(** The file patches once a new directive ends the current file: it counts only with content. *)
Definition flush_model_file (s : ModelState) : list FilePatch :=
  match ms_current_file s with
  | Some file => if bool_decide (ms_content_lines s = []) then ms_file_patches s
                 else ms_file_patches s ++ [file]
  | None => ms_file_patches s
  end.

(** The hunk of a whole file. *)
Definition content_hunk (content : string) : Hunk := {|
  h_old_start := 1; h_old_count := 0; h_new_start := 1;
  h_new_count := Z.of_nat (length (lines content)); h_lines := PLine.Add <$> lines content |}.

Definition model_line (s : ModelState) (line : string) : ModelState :=
  if ms_done s then s
  else if bool_decide (line = "*** Begin Patch") then s
  else match re_delete_file syntax line with
  | Some captured => {|
      ms_file_patches := flush_model_file s ++
        [{| fp_path := trim captured; fp_operation := PatchOp.Delete; fp_hunks := [] |}];
      ms_current_file := None; ms_content_lines := []; ms_in_content := false; ms_done := false |}
  | None =>
  match re_move_to syntax line with
  | Some captured => {|
      ms_file_patches := ms_file_patches s;
      ms_current_file := (λ file, {| fp_path := fp_path file;
                                     fp_operation := PatchOp.Move (trim captured);
                                     fp_hunks := fp_hunks file |}) <$> ms_current_file s;
      ms_content_lines := ms_content_lines s; ms_in_content := ms_in_content s; ms_done := false |}
  | None =>
  match re_begin_file syntax line with
  | Some captured => {|
      ms_file_patches := flush_model_file s;
      ms_current_file := Some {| fp_path := trim captured; fp_operation := PatchOp.Add; fp_hunks := [] |};
      ms_content_lines := []; ms_in_content := true; ms_done := false |}
  | None =>
      if bool_decide (line = "*** End File") then {|
        ms_file_patches :=
          match ms_current_file s with
          | Some file => ms_file_patches s ++
              [push_hunk file (Some (content_hunk (str_join nl (ms_content_lines s))))]
          | None => ms_file_patches s
          end;
        ms_current_file := None; ms_content_lines := []; ms_in_content := false; ms_done := false |}
      else if re_end_patch syntax line then {|
        ms_file_patches := ms_file_patches s; ms_current_file := ms_current_file s;
        ms_content_lines := ms_content_lines s; ms_in_content := ms_in_content s; ms_done := true |}
      else if ms_in_content s then {|
        ms_file_patches := ms_file_patches s; ms_current_file := ms_current_file s;
        ms_content_lines := ms_content_lines s ++ [line]; ms_in_content := true; ms_done := false |}
      else s
  end end end.

Definition parse_model_patch (patch_text : string) : list FilePatch :=
  ms_file_patches (fold_left model_line (lines patch_text) model_start).

Definition normalize_newlines (patch_text : string) : string :=
  str_replace cr nl (str_replace (cr +:+ nl) nl patch_text).

(** Neither parser ever fails: what it cannot read it skips. *)
Definition parse_multi_file_patch (patch_text : string) : list FilePatch :=
  let normalized := normalize_newlines patch_text in
  if starts_with "*** Begin Patch" (trim normalized) then parse_model_patch normalized
  else finish_file (fold_left parse_line (lines normalized) parse_start).
End parse.

(** ** Applying hunks *)

Definition added_lines (h : Hunk) : list string :=
  omap (λ l, match l with PLine.Add s => Some s | _ => None end) (h_lines h).

Definition remove_count (h : Hunk) : nat :=
  length (List.filter (λ l, match l with PLine.Remove => true | _ => false end) (h_lines h)).

(** One hunk on the lines so far and the offset of the earlier hunks. *)
Definition apply_hunk (st : list string * Z) (h : Hunk) : list string * Z :=
  let '(ls, offset) := st in
  let start := Z.max 0 (isize_add (isize_add (as_isize (h_old_start h)) offset) (-1)) in
  let insert_pos := Z.to_nat (Z.min start (Z.of_nat (length ls))) in
  let ls := if bool_decide (insert_pos + remove_count h ≤ length ls)
            then Nat.iter (remove_count h) (remove_at insert_pos) ls else ls in
  let ls := fold_left (λ ls e, insert_at (insert_pos + e.1) e.2 ls)
              (imap (λ i line, (i, line)) (added_lines h)) ls in
  (ls, isize_add offset (Z.of_nat (length (added_lines h)) - Z.of_nat (remove_count h))).

Definition apply_hunks (original : string) (hunks : list Hunk) : string :=
  str_join nl (fold_left apply_hunk hunks (lines original, 0%Z)).1.
