(* ===== verification/ApplyPatchSpec.v ===== *)
(** * What the patch tool reads and applies

    Proofs about ApplyPatch.v: patches rendered by the diff generator are read back,
    and which hunks are applied as they mean. *)

From Stdlib Require Import DecimalString.
From S2P Require Import Prelude TextLines LineDiff LineDiffSpec ApplyPatch.

(** ** Applying one hunk *)

Lemma remove_many (n pos : nat) (ls : list string) :
  Nat.iter n (remove_at pos) ls = take pos ls ++ drop (pos + n) ls.
Proof.
  revert ls. induction n as [|n IH]; intros ls; [by rewrite Nat.add_0_r, take_drop|].
  rewrite Nat.iter_succ_r, IH. unfold remove_at.
  destruct (decide (pos ≤ length ls)) as [Hp|Hp].
  - rewrite take_app_le, take_take, Nat.min_id by (rewrite length_take; lia).
    rewrite drop_app_ge, length_take, Nat.min_l, drop_drop by (rewrite ?length_take; lia).
    do 2 f_equal. lia.
  - rewrite !(take_ge ls pos), !(drop_ge ls (S pos)), app_nil_r by lia.
    rewrite take_ge, !drop_ge by lia. done.
Qed.

Lemma insert_many (added : list string) pos (ls : list string) : pos ≤ length ls →
  fold_left (λ ls e, insert_at (pos + e.1) e.2 ls) (imap (λ i line, (i, line)) added) ls =
  take pos ls ++ added ++ drop pos ls.
Proof.
  intros Hp.
  assert (∀ k pre ls', take (pos + k) ls' = pre → length pre = pos + k →
    fold_left (λ ls e, insert_at (pos + e.1) e.2 ls) (imap (λ i line, (k + i, line)) added) ls' =
    pre ++ added ++ drop (pos + k) ls') as H.
  { clear. induction added as [|x added IH]; intros k pre ls' Hpre Hlen; simpl.
    - by rewrite <- Hpre, take_drop.
    - rewrite Nat.add_0_r. unfold compose.
      rewrite (imap_ext _ (λ i line, (S k + i, line))) by (intros; simpl; f_equal; lia).
      rewrite (IH (S k) (pre ++ [x])).
      + rewrite <- app_assoc. simpl. do 3 f_equal. unfold insert_at. rewrite Hpre.
        rewrite drop_app_ge, Hlen by lia. by replace (pos + S k - (pos + k)) with 1 by lia.
      + unfold insert_at. rewrite Hpre, take_app_ge, Hlen by lia.
        by replace (pos + S k - (pos + k)) with 1 by lia.
      + rewrite length_app. simpl. lia. }
  specialize (H 0 (take pos ls) ls). rewrite Nat.add_0_r in H. apply H; [done|].
  rewrite length_take. lia.
Qed.

Lemma isize_small x : (- 2 ^ 63 ≤ x < 2 ^ 63)%Z → isize_add x 0 = x.
Proof. intros. unfold isize_add. rewrite Z.mod_small; lia. Qed.

Lemma isize_add_small a b : (- 2 ^ 63 ≤ a + b < 2 ^ 63)%Z → isize_add a b = (a + b)%Z.
Proof. intros. unfold isize_add. rewrite Z.mod_small; lia. Qed.

(** A hunk whose [old_start] is a line of the file replaces the lines there. *)
Lemma apply_hunk_at pre rest offset h :
  (h_old_start h + offset = Z.of_nat (length pre) + 1)%Z → (0 ≤ h_old_start h < 2 ^ 62)%Z →
  (- 2 ^ 62 ≤ offset < 2 ^ 62)%Z → remove_count h ≤ length rest →
  apply_hunk (pre ++ rest, offset) h =
  (pre ++ added_lines h ++ drop (remove_count h) rest,
   isize_add offset (Z.of_nat (length (added_lines h)) - Z.of_nat (remove_count h))).
Proof.
  intros Hs Hb Ho Hr. unfold apply_hunk.
  assert (as_isize (h_old_start h) = h_old_start h) as -> by (unfold as_isize; case_match; lia).
  rewrite (isize_add_small (h_old_start h)), isize_add_small by lia. rewrite Hs.
  replace (Z.max 0 (Z.of_nat (length pre) + 1 + -1))%Z with (Z.of_nat (length pre)) by lia.
  rewrite <- Nat2Z.inj_min, Nat2Z.id, length_app, Nat.min_l by lia.
  rewrite bool_decide_eq_true_2 by lia. rewrite remove_many.
  rewrite take_app_length, drop_app_ge by lia.
  replace (length pre + remove_count h - length pre) with (remove_count h) by lia.
  rewrite insert_many by (rewrite length_app; lia). by rewrite take_app_length, drop_app_length.
Qed.

(** A hunk written as runs: context, removals, additions, context. *)
Lemma remove_count_runs h c r added t :
  h_lines h = replicate c PLine.Context ++ replicate r PLine.Remove ++ (PLine.Add <$> added) ++
              replicate t PLine.Context →
  remove_count h = r.
Proof.
  intros Hh. unfold remove_count. rewrite Hh, !List.filter_app, !length_app.
  assert (∀ n, List.filter (λ l, match l with PLine.Remove => true | _ => false end)
                 (replicate n PLine.Context) = []) as Hc by (intros n; by induction n).
  assert (length (List.filter (λ l, match l with PLine.Remove => true | _ => false end)
                    (replicate r PLine.Remove)) = r) as Hr
    by (clear; induction r; simpl; auto).
  assert (List.filter (λ l, match l with PLine.Remove => true | _ => false end)
            (PLine.Add <$> added) = []) as Ha by (clear; by induction added).
  rewrite !Hc, Hr, Ha. simpl. lia.
Qed.

Lemma added_lines_runs h c r added t :
  h_lines h = replicate c PLine.Context ++ replicate r PLine.Remove ++ (PLine.Add <$> added) ++
              replicate t PLine.Context →
  added_lines h = added.
Proof.
  intros Hh. unfold added_lines. rewrite Hh, !omap_app.
  assert (∀ n, omap (λ l, match l with PLine.Add s => Some s | _ => None end)
                 (replicate n PLine.Context) = []) as Hc by (intros n; by induction n).
  assert (omap (λ l, match l with PLine.Add s => Some s | _ => None end)
            (replicate r PLine.Remove) = []) as Hr by (clear; by induction r).
  assert (omap (λ l, match l with PLine.Add s => Some s | _ => None end) (PLine.Add <$> added) = added)
    as Ha by (clear; induction added as [|x l IH]; [done|]; cbn in *; by rewrite IH).
  rewrite !Hc, Hr, Ha. by rewrite app_nil_r.
Qed.

(** ** Patches of blocks *)

(** Lines kept, then lines removed and the lines added in their place. *)
Record Block := { b_kept : list string; b_removed : list string; b_added : list string }.

Definition blocks_old (bs : list Block) : list string := bs ≫= λ b, b_kept b ++ b_removed b.
Definition blocks_new (bs : list Block) : list string := bs ≫= λ b, b_kept b ++ b_added b.

Lemma blocks_old_cons b bs : blocks_old (b :: bs) = (b_kept b ++ b_removed b) ++ blocks_old bs.
Proof. done. Qed.
Lemma blocks_new_cons b bs : blocks_new (b :: bs) = (b_kept b ++ b_added b) ++ blocks_new bs.
Proof. done. Qed.

(** The hunk of a block after [before] lines of the old file: it changes the block's lines and names
    the first of them in its header.  Context lines may come anywhere after that. *)
Definition hunk_of_block (before : nat) (b : Block) (h : Hunk) : Prop :=
  h_old_start h = (Z.of_nat before + Z.of_nat (length (b_kept b)) + 1)%Z ∧
  added_lines h = b_added b ∧ remove_count h = length (b_removed b).

Fixpoint hunks_of_blocks (before : nat) (bs : list Block) (hs : list Hunk) : Prop :=
  match bs, hs with
  | [], [] => True
  | b :: bs', h :: hs' =>
      hunk_of_block before b h ∧
      hunks_of_blocks (before + length (b_kept b) + length (b_removed b)) bs' hs'
  | _, _ => False
  end.

(** Small enough for every line number and offset to fit. *)
Definition fits_isize (old new : list string) : Prop :=
  (Z.of_nat (length old) < 2 ^ 61)%Z ∧ (Z.of_nat (length new) < 2 ^ 61)%Z.

Lemma apply_blocks bs hs tail done_old done_new :
  hunks_of_blocks (length done_old) bs hs →
  fits_isize (done_old ++ blocks_old bs ++ tail) (done_new ++ blocks_new bs ++ tail) →
  (fold_left apply_hunk hs
     (done_new ++ blocks_old bs ++ tail, Z.of_nat (length done_new) - Z.of_nat (length done_old))%Z).1 =
  done_new ++ blocks_new bs ++ tail.
Proof.
  revert hs done_old done_new. induction bs as [|b bs IH]; intros [|h hs] done_old done_new Hh Hfit;
    try done.
  destruct Hh as [(Hs&Ha&Hr) Hrest]. unfold fits_isize in Hfit.
  rewrite blocks_old_cons, blocks_new_cons in *. rewrite !length_app in Hfit. cbn [fold_left].
  replace (done_new ++ ((b_kept b ++ b_removed b) ++ blocks_old bs) ++ tail)
    with ((done_new ++ b_kept b) ++ (b_removed b ++ blocks_old bs ++ tail)) by (by rewrite <- !app_assoc).
  rewrite apply_hunk_at; [|rewrite ?length_app, ?Hs, ?Hr; lia..].
  rewrite Ha, Hr, drop_app_length, isize_add_small by lia.
  replace (done_new ++ ((b_kept b ++ b_added b) ++ blocks_new bs) ++ tail)
    with ((done_new ++ b_kept b ++ b_added b) ++ blocks_new bs ++ tail) by (by rewrite <- !app_assoc).
  rewrite <- (IH hs (done_old ++ b_kept b ++ b_removed b) (done_new ++ b_kept b ++ b_added b)).
  - f_equal. f_equal. f_equal; [by rewrite <- !app_assoc|]. rewrite !length_app. lia.
  - rewrite !length_app. by replace (length done_old + (length (b_kept b) + length (b_removed b)))
      with (length done_old + length (b_kept b) + length (b_removed b)) by lia.
  - unfold fits_isize. rewrite !length_app. lia.
Qed.

(** ** Reading back a rendered patch *)

(** What the documentation of the regex crate says of the expressions of the source. *)
Record syntax_laws (syntax : PatchSyntax) : Prop := {
  file_header_starts l p : re_file_header syntax l = Some p → starts_with "---" l = true;
  new_file_header_starts l p : re_new_file_header syntax l = Some p → starts_with "+++" l = true;
  hunk_header_starts l c : re_hunk_header syntax l = Some c → starts_with "@@ -" l = true;
  rename_from_starts l p : re_rename_from syntax l = Some p → starts_with "rename from " l = true;
  rename_to_starts l p : re_rename_to syntax l = Some p → starts_with "rename to " l = true;
  file_header_path p : graphic p = true → p ≠ "" → re_file_header syntax ("--- a/" +:+ p) = Some p;
  new_file_header_path p :
    graphic p = true → p ≠ "" → re_new_file_header syntax ("+++ b/" +:+ p) = Some p;
  hunk_header_numbers a b c d :
    re_hunk_header syntax ("@@ -" +:+ dec a +:+ "," +:+ dec b +:+ " +" +:+ dec c +:+ "," +:+ dec d +:+ " @@") =
    Some (dec a, Some (dec b), dec c, Some (dec d));
}.

(** A patch of one existing file, as the generator renders it below a [diff] line. *)
Record RenderedPatch := { rp_path : string; rp_hunks : list UnifiedHunk }.

Definition render_patch (p : RenderedPatch) : string :=
  "diff --git a/" +:+ rp_path p +:+ " b/" +:+ rp_path p +:+ nl +:+ diff_header (rp_path p) +:+
  str_concat (render_hunk <$> rp_hunks p).

(** A line of a hunk that no header can be taken for. *)
Definition safe_op (op : DiffLine) : Prop :=
  match op with
  | Line.Equal l => has_char newline l = false ∧ has_char carriage_return l = false
  | Line.Remove l =>
      has_char newline l = false ∧ has_char carriage_return l = false ∧ starts_with "--" l = false
  | Line.Add l =>
      has_char newline l = false ∧ has_char carriage_return l = false ∧ starts_with "++" l = false ∧
      is_continuation l = false
  end.

Definition safe_patch (p : RenderedPatch) : Prop :=
  graphic (rp_path p) = true ∧ rp_path p ≠ "" ∧ rp_path p ≠ "/dev/null" ∧ rp_hunks p ≠ [] ∧
  Forall (λ h, Forall safe_op (uh_lines h) ∧
    Forall (λ x, (Z.of_nat x < 2 ^ 64)%Z)
      [uh_old_start h; uh_old_count h; uh_new_start h; uh_new_count h]) (rp_hunks p).

(** What the parser makes of them. *)
Definition patch_line (op : DiffLine) : PatchLine :=
  match op with Line.Equal _ => PLine.Context | Line.Remove _ => PLine.Remove | Line.Add l => PLine.Add l end.

Definition read_hunk (h : UnifiedHunk) : Hunk := {|
  h_old_start := Z.of_nat (uh_old_start h); h_old_count := Z.of_nat (uh_old_count h);
  h_new_start := Z.of_nat (uh_new_start h); h_new_count := Z.of_nat (uh_new_count h);
  h_lines := patch_line <$> uh_lines h |}.

Definition read_patch (p : RenderedPatch) : FilePatch := {|
  fp_path := rp_path p; fp_operation := PatchOp.Update; fp_hunks := read_hunk <$> rp_hunks p |}.

(** *** The lines of a rendered patch *)

Definition op_line (op : DiffLine) : string :=
  match op with Line.Equal l => " " +:+ l | Line.Remove l => "-" +:+ l | Line.Add l => "+" +:+ l end.

Definition header_line (h : UnifiedHunk) : string :=
  "@@ -" +:+ dec (uh_old_start h) +:+ "," +:+ dec (uh_old_count h) +:+ " +" +:+
  dec (uh_new_start h) +:+ "," +:+ dec (uh_new_count h) +:+ " @@".

Definition hunk_text (h : UnifiedHunk) : list string := header_line h :: (op_line <$> uh_lines h).

Definition file_lines (p : RenderedPatch) : list string :=
  ["--- a/" +:+ rp_path p; "+++ b/" +:+ rp_path p] ++ (rp_hunks p ≫= hunk_text).

Definition patch_lines (p : RenderedPatch) : list string :=
  ("diff --git a/" +:+ rp_path p +:+ " b/" +:+ rp_path p) :: file_lines p.

Lemma text_of_app l k : text_of (l ++ k) = text_of l +:+ text_of k.
Proof. unfold text_of. by rewrite fmap_app, str_concat_app. Qed.

Lemma text_of_cons x l : text_of (x :: l) = x +:+ nl +:+ text_of l.
Proof. unfold text_of. cbn. by rewrite str_app_assoc. Qed.

Lemma text_of_bind {A} (f : A → list string) (l : list A) :
  text_of (l ≫= f) = str_concat ((text_of ∘ f) <$> l).
Proof. induction l as [|x l IH]; [done|]. by rewrite bind_cons, text_of_app, IH. Qed.

Lemma render_hunk_text h : render_hunk h = text_of (hunk_text h).
Proof.
  unfold render_hunk, hunk_text, hunk_header. rewrite text_of_cons. unfold header_line.
  assert (text_of (op_line <$> uh_lines h) = str_concat (render <$> uh_lines h)) as ->; [|by rewrite !str_app_assoc].
  unfold text_of. rewrite <- list_fmap_compose. f_equal. apply list_fmap_ext.
  intros _ [l|l|l] _; simpl; by rewrite str_app_assoc.
Qed.

Lemma render_patch_text p : render_patch p = text_of (patch_lines p).
Proof.
  unfold render_patch, patch_lines, file_lines, diff_header.
  rewrite text_of_cons, text_of_app, !text_of_cons, text_of_bind.
  assert ((text_of ∘ hunk_text) <$> rp_hunks p = render_hunk <$> rp_hunks p) as ->
    by (apply list_fmap_ext; intros _ h _; by rewrite render_hunk_text).
  by rewrite !str_app_assoc.
Qed.

(** *** Plain text *)

Definition plain_line (l : string) : Prop :=
  has_char newline l = false ∧ has_char carriage_return l = false.

Lemma plain_app s t : plain_line s → plain_line t → plain_line (s +:+ t).
Proof. intros [H1 H2] [H3 H4]. split; by rewrite has_char_app, ?H1, ?H2, ?H3, ?H4. Qed.

Lemma graphic_plain s : graphic s = true → plain_line s.
Proof.
  induction s as [|c s IH]; [done|]. simpl. rewrite !andb_true_iff. intros [[Hc _] Hs].
  destruct (IH Hs) as [H1 H2]. apply N.leb_le in Hc. split; simpl; rewrite ?H1, ?H2, orb_false_r.
  - apply bool_decide_eq_false. intros ->. by vm_compute in Hc.
  - apply bool_decide_eq_false. intros ->. by vm_compute in Hc.
Qed.

Lemma dec_plain n : plain_line (dec n).
Proof. apply graphic_plain, graphic_uint. Qed.

Lemma plain_clean l : plain_line l → clean_line l.
Proof.
  intros [Hn Hr]. split; [done|]. unfold strip_cr. destruct (strip_suffix cr l) eqn:E; [|done].
  apply strip_suffix_Some in E. subst l. rewrite has_char_app, orb_true_r in Hr. done.
Qed.

Lemma text_of_no_cr ls : Forall plain_line ls → has_char carriage_return (text_of ls) = false.
Proof.
  induction 1 as [|l ls [_ Hl] _ IH]; [done|]. rewrite text_of_cons, !has_char_app, Hl, IH. done.
Qed.

Lemma replace_absent c m r s : has_char c s = false → str_replace (String c m) r s = s.
Proof.
  intros H. unfold str_replace. rewrite bool_decide_eq_false_2 by done.
  induction s as [|a s IH]; [done|]. simpl in H. apply orb_false_iff in H as [Ha Hs].
  apply bool_decide_eq_false in Ha. cbn [replace_from]. unfold starts_with. cbn [strip_prefix].
  rewrite decide_False by done. by rewrite IH.
Qed.

Lemma normalize_plain ls : Forall plain_line ls → normalize_newlines (text_of ls) = text_of ls.
Proof.
  intros H%text_of_no_cr. unfold normalize_newlines.
  change (cr +:+ nl) with (String carriage_return nl). rewrite (replace_absent carriage_return nl) by done.
  unfold cr. by rewrite replace_absent.
Qed.

Lemma lines_plain ls : Forall plain_line ls → lines (text_of ls) = ls.
Proof. intros H. apply lines_text_of. eapply Forall_impl; [exact H|apply plain_clean]. Qed.

Lemma header_line_plain h : plain_line (header_line h).
Proof. unfold header_line. repeat (apply plain_app; [first [apply dec_plain|done]|]). done. Qed.

Lemma safe_op_plain op : safe_op op → plain_line (op_line op).
Proof. destruct op; simpl; intros H; apply plain_app; unfold plain_line; tauto. Qed.

Lemma patch_lines_plain p : safe_patch p → Forall plain_line (patch_lines p).
Proof.
  intros (Hp&_&_&_&Hh). pose proof (graphic_plain _ Hp) as Hpath.
  unfold patch_lines, file_lines. constructor; [|apply Forall_app; split].
  - by repeat (apply plain_app; [done|]).
  - repeat constructor; by apply plain_app.
  - apply Forall_forall. intros x (h&Hx&Hin)%list_elem_of_bind. pose proof (proj1 (Forall_forall _ _) Hh) as Hh'.
    destruct (Hh' h Hin) as [Hops _]. apply elem_of_cons in Hx as [->|Hx]; [apply header_line_plain|].
    apply list_elem_of_fmap in Hx as (op&->&Hop). rewrite Forall_forall in Hops. by apply safe_op_plain, Hops.
Qed.

(** *** The parser on the lines of a rendered patch *)

Section reading.
Context (syntax : PatchSyntax) (Laws : syntax_laws syntax).

Lemma no_capture {A} (re : string → option A) k l :
  (∀ a, re l = Some a → starts_with k l = true) → starts_with k l = false → re l = None.
Proof. intros H Hl. destruct (re l) as [a|]; [|done]. by rewrite (H a) in Hl. Qed.

(** No expression captures a line that starts like none of them. *)
Lemma parse_line_body s l :
  starts_with "diff -" l = false → starts_with "---" l = false → starts_with "+++" l = false →
  starts_with "@@ -" l = false → starts_with "rename " l = false →
  parse_line syntax s l = on_body_line s l.
Proof.
  intros Hd Hf Hn Hh Hr. unfold parse_line.
  assert (starts_with "diff --git " l = false) as ->.
  { apply not_true_iff_false. intros (t&->)%starts_with_true. by vm_compute in Hd. }
  assert (∀ k, starts_with ("rename " +:+ k) l = false) as Hrk.
  { intros k. apply not_true_iff_false. intros (t&->)%starts_with_true.
    rewrite str_app_assoc in Hr. apply not_true_iff_false in Hr. apply Hr, starts_with_true. eauto. }
  rewrite Hd. cbn [orb].
  rewrite (no_capture _ "rename from " l) by (done || apply Laws || apply (Hrk "from ")).
  rewrite (no_capture _ "rename to " l) by (done || apply Laws || apply (Hrk "to ")).
  rewrite (no_capture _ "---" l) by (done || apply Laws).
  rewrite (no_capture _ "+++" l) by (done || apply Laws).
  by rewrite (no_capture _ "@@ -" l) by (done || apply Laws).
Qed.

Lemma parse_op s op h : safe_op op → ps_in_hunk s = true → ps_current_hunk s = Some h →
  parse_line syntax s (op_line op) =
  {| ps_file_patches := ps_file_patches s; ps_current_file := ps_current_file s;
     ps_current_hunk := Some (push_line h (patch_line op)); ps_in_hunk := true;
     ps_old_path := ps_old_path s; ps_rename_from := ps_rename_from s;
     ps_rename_to := ps_rename_to s |}.
Proof.
  intros Hop Hin Hh. destruct op as [l|l|l]; cbn [op_line safe_op patch_line] in *.
  - rewrite parse_line_body by done. unfold on_body_line. by rewrite Hin, Hh.
  - destruct Hop as (_&_&Hl). rewrite parse_line_body by done.
    unfold on_body_line. rewrite Hin, Hh. unfold body_line.
    assert (starts_with "--- " ("-" +:+ l) = false) as ->; [|done].
    apply not_true_iff_false. intros (t&Ht)%starts_with_true.
    change (String (Ascii.ascii_of_nat 45) l = String (Ascii.ascii_of_nat 45) ("-- " +:+ t)) in Ht.
    injection Ht as ->. by vm_compute in Hl.
  - destruct Hop as (_&_&Hl&Hc). rewrite parse_line_body by done.
    unfold on_body_line. rewrite Hin, Hh. unfold body_line.
    assert (starts_with "+++" ("+" +:+ l) = false) as -> by exact Hl.
    assert (chars ("+" +:+ l) = "+" :: chars l) as ->.
    { change ("+" +:+ l) with (String (Ascii.ascii_of_nat 43) l). cbn [chars]. by rewrite Hc. }
    cbn. by rewrite drop_0, str_concat_chars.
Qed.

Lemma parse_ops s ops h : Forall safe_op ops → ps_in_hunk s = true → ps_current_hunk s = Some h →
  fold_left (parse_line syntax) (op_line <$> ops) s =
  {| ps_file_patches := ps_file_patches s; ps_current_file := ps_current_file s;
     ps_current_hunk := Some {| h_old_start := h_old_start h; h_old_count := h_old_count h;
                                h_new_start := h_new_start h; h_new_count := h_new_count h;
                                h_lines := h_lines h ++ (patch_line <$> ops) |};
     ps_in_hunk := true; ps_old_path := ps_old_path s; ps_rename_from := ps_rename_from s;
     ps_rename_to := ps_rename_to s |}.
Proof.
  intros Hops. revert s h. induction Hops as [|op ops Hop _ IH]; intros s h Hin Hh.
  - simpl. rewrite app_nil_r. destruct s, h. simpl in *. by subst.
  - rewrite fmap_cons. cbn [fold_left]. rewrite (parse_op _ _ h) by done.
    rewrite (IH _ (push_line h (patch_line op))) by done. simpl. by rewrite <- app_assoc.
Qed.

Lemma parse_usize_dec n : (Z.of_nat n < 2 ^ 64)%Z → parse_usize (dec n) = Some (Z.of_nat n).
Proof.
  intros Hn. unfold parse_usize, dec, dec_string.
  set (d := N.to_uint (N.of_nat n)). pose proof (to_uint_not_nil (N.of_nat n)) as Hnil. fold d in Hnil.
  assert (strip_prefix "+" (NilEmpty.string_of_uint d) = None) as -> by (by destruct d).
  rewrite bool_decide_eq_false_2 by (by destruct d). rewrite NilEmpty.usu.
  assert (N.of_uint d = N.of_nat n) as -> by apply DecimalN.Unsigned.of_to.
  rewrite nat_N_Z. by destruct (Z.ltb_spec (Z.of_nat n) (2 ^ 64)); [|lia].
Qed.

Definition hunk_numbers_fit (h : UnifiedHunk) : Prop :=
  Forall (λ x, (Z.of_nat x < 2 ^ 64)%Z) [uh_old_start h; uh_old_count h; uh_new_start h; uh_new_count h].

Lemma parse_header s file h : hunk_numbers_fit h → ps_current_file s = Some file →
  parse_line syntax s (header_line h) =
  {| ps_file_patches := ps_file_patches s;
     ps_current_file := Some (push_hunk file (ps_current_hunk s));
     ps_current_hunk := Some {| h_old_start := Z.of_nat (uh_old_start h);
                                h_old_count := Z.of_nat (uh_old_count h);
                                h_new_start := Z.of_nat (uh_new_start h);
                                h_new_count := Z.of_nat (uh_new_count h); h_lines := [] |};
     ps_in_hunk := true; ps_old_path := ps_old_path s; ps_rename_from := ps_rename_from s;
     ps_rename_to := ps_rename_to s |}.
Proof.
  intros Hfit Hf. unfold parse_line, header_line.
  rewrite (no_capture _ "rename from ") by (done || apply Laws).
  rewrite (no_capture _ "rename to ") by (done || apply Laws).
  rewrite (no_capture _ "---") by (done || apply Laws).
  rewrite (no_capture _ "+++") by (done || apply Laws).
  rewrite (hunk_header_numbers _ Laws). unfold on_hunk_header. rewrite Hf. cbn.
  unfold hunk_numbers_fit in Hfit. rewrite !Forall_cons in Hfit. destruct Hfit as (?&?&?&?&_).
  by rewrite !parse_usize_dec.
Qed.

(** The hunks of the current file, the open one included. *)
Definition file_hunks (s : ParseState) : list Hunk :=
  match ps_current_file s with
  | Some file => fp_hunks (push_hunk file (ps_current_hunk s))
  | None => []
  end.

Lemma parse_hunks hs s file :
  Forall (λ h, Forall safe_op (uh_lines h) ∧ hunk_numbers_fit h) hs → ps_current_file s = Some file →
  let s' := fold_left (parse_line syntax) (hs ≫= hunk_text) s in
  (∃ file', ps_current_file s' = Some file' ∧ fp_path file' = fp_path file ∧
            fp_operation file' = fp_operation file) ∧
  file_hunks s' = file_hunks s ++ (read_hunk <$> hs) ∧ ps_file_patches s' = ps_file_patches s ∧
  ps_rename_from s' = ps_rename_from s.
Proof.
  intros H. revert s file. induction H as [|h hs [Hops Hfit] _ IH]; intros s file Hf.
  - cbn. rewrite app_nil_r. split; [by exists file|done].
  - rewrite bind_cons. unfold hunk_text at 1. rewrite fold_left_app. cbn [fold_left].
    rewrite (parse_header _ file) by done. erewrite parse_ops by done. cbv zeta.
    match goal with |- context [fold_left _ (hs ≫= hunk_text) ?s1] =>
      destruct (IH s1 (push_hunk file (ps_current_hunk s)) eq_refl) as [(file'&Hf'&Hp&Hop) (Hh&Hfp&Hrf)]
    end.
    rewrite Hh, Hfp, Hrf. split; [|split; [|done]].
    + exists file'. split_and!; [exact Hf'|by rewrite Hp|by rewrite Hop].
    + unfold file_hunks. rewrite Hf. simpl. by rewrite <- !app_assoc.
Qed.

(** A file's lines below its [diff] line: whatever file was open before is gone. *)
Lemma parse_file s p : safe_patch p → ps_rename_from s = None →
  (ps_current_file s = None → ps_current_hunk s = None) →
  let s' := fold_left (parse_line syntax) (file_lines p) s in
  finish_file s' = ps_file_patches s ++ [read_patch p] ∧ ps_file_patches s' = ps_file_patches s ∧
  ps_rename_from s' = None ∧ is_Some (ps_current_file s').
Proof.
  intros (Hp&Hpn&Hdev&Hne&Hh) Hr Hch. unfold file_lines. cbn [fold_left app].
  assert (∀ t, parse_line syntax t ("--- a/" +:+ rp_path p) = on_file_header t (rp_path p)) as ->.
  { intros t. unfold parse_line. rewrite (no_capture _ "rename from ") by (done || apply Laws).
    rewrite (no_capture _ "rename to ") by (done || apply Laws).
    by rewrite (file_header_path _ Laws). }
  assert (∀ t, parse_line syntax t ("+++ b/" +:+ rp_path p) = on_new_file_header t (rp_path p)) as ->.
  { intros t. unfold parse_line. rewrite (no_capture _ "rename from ") by (done || apply Laws).
    rewrite (no_capture _ "rename to ") by (done || apply Laws).
    rewrite (no_capture _ "---") by (done || apply Laws).
    by rewrite (new_file_header_path _ Laws). }
  set (s0 := on_new_file_header _ _).
  assert (ps_current_file s0 = Some {| fp_path := rp_path p; fp_operation := PatchOp.Update; fp_hunks := [] |} ∧
    ps_current_hunk s0 = None ∧ ps_file_patches s0 = ps_file_patches s ∧ ps_rename_from s0 = None)
    as (Hf0&Hh0&Hp0&Hr0).
  { subst s0. unfold on_new_file_header. cbn. rewrite Hr, (bool_decide_eq_false_2 (Some _ = _)) by congruence.
    rewrite (bool_decide_eq_false_2 (rp_path p = "/dev/null")) by done.
    cbn. rewrite !bool_decide_eq_false_2 by done. cbn. split_and!; try done.
    destruct (ps_current_file s); [done|by apply Hch]. }
  destruct (parse_hunks (rp_hunks p) s0 _ Hh Hf0) as [(file'&Hf'&Hp'&Hop') (Hhs&Hfp&Hrf)].
  cbv zeta. rewrite Hfp, Hrf, Hf'. split_and!; [|done|done|by eexists].
  unfold finish_file. rewrite Hf'. unfold file_hunks in Hhs. rewrite Hf', Hf0, Hh0 in Hhs.
  simpl in Hhs. rewrite Hfp, Hp0. unfold push_file, read_patch.
  rewrite bool_decide_eq_false_2.
  - do 2 f_equal. unfold push_hunk. rewrite Hp', Hop'. simpl. by f_equal.
  - simpl. rewrite Hhs. by destruct (rp_hunks p).
Qed.

Lemma parse_patch s p : safe_patch p →
  finish_file (fold_left (parse_line syntax) (patch_lines p) s) = finish_file s ++ [read_patch p].
Proof.
  intros Hs. unfold patch_lines. cbn [fold_left].
  assert (parse_line syntax s ("diff --git a/" +:+ rp_path p +:+ " b/" +:+ rp_path p) = on_diff_line s) as ->
    by done.
  by apply (parse_file (on_diff_line s) p Hs).
Qed.

Lemma parse_files ps p s : Forall safe_patch (ps ++ [p]) → ps_rename_from s = None →
  (ps_current_file s = None → ps_current_hunk s = None) →
  finish_file (fold_left (parse_line syntax) ((ps ++ [p]) ≫= file_lines) s) =
  ps_file_patches s ++ [read_patch p].
Proof.
  revert s. induction ps as [|q ps IH]; intros s H Hr Hc; cbn [app] in H; inversion H as [|? ? Hq Hps]; subst.
  - cbn [app]. rewrite bind_cons, fold_left_app. cbn [mbind list_bind fold_left]. by apply parse_file.
  - cbn [app]. rewrite bind_cons, fold_left_app.
    destruct (parse_file s q Hq Hr Hc) as (_&Hfp&Hr'&[f Hf]). rewrite IH, Hfp; [done..|].
    by rewrite Hf.
Qed.

(** [trim] keeps a first character that is not white space. *)
Lemma trim_first c s : is_continuation s = false → is_whitespace (String c "") = false →
  ∃ t, trim (String c s) = String c t.
Proof.
  intros Hc Hw. rewrite trim_strip.
  assert (chars (String c s) = String c "" :: chars s) as -> by (cbn [chars]; by rewrite Hc).
  destruct (strip_spec is_whitespace (String c "" :: chars s)) as (a&b&Hl&Ha&Hb&_&_).
  destruct a as [|x a].
  - destruct (strip is_whitespace _) as [|y k] eqn:E.
    + simpl in Hl. rewrite <- Hl in Hb. inversion Hb. congruence.
    + simpl in Hl. injection Hl as <- _. by exists (str_concat k).
  - injection Hl as <- _. inversion Ha. congruence.
Qed.

(** The parser of unified diffs on plain lines that start with a [d] or a dash. *)
Lemma parse_plain ls : Forall plain_line ls →
  (∀ l ls', ls = l :: ls' → ∃ c r, l = String c r ∧ (c = Ascii.ascii_of_nat 100 ∨ c = Ascii.ascii_of_nat 45) ∧
                               is_continuation r = false ∧ r ≠ "") →
  parse_multi_file_patch syntax (text_of ls) = finish_file (fold_left (parse_line syntax) ls parse_start).
Proof.
  intros H Hfirst. unfold parse_multi_file_patch. rewrite normalize_plain, lines_plain by done.
  assert (starts_with "*** Begin Patch" (trim (text_of ls)) = false) as ->; [|done].
  destruct ls as [|l ls]; [done|]. destruct (Hfirst l ls eq_refl) as (c&r&->&Hc&Hr&Hne).
  rewrite text_of_cons. change (String c r +:+ ?x) with (String c (r +:+ x)).
  assert (is_continuation (r +:+ nl +:+ text_of ls) = false) as Hr' by (by destruct r).
  destruct Hc as [-> | ->].
  - by destruct (trim_first (Ascii.ascii_of_nat 100) (r +:+ nl +:+ text_of ls)) as [t ->].
  - by destruct (trim_first (Ascii.ascii_of_nat 45) (r +:+ nl +:+ text_of ls)) as [t ->].
Qed.

Lemma plain_bind (f : RenderedPatch → list string) ps :
  Forall safe_patch ps → (∀ p, safe_patch p → Forall plain_line (f p)) → Forall plain_line (ps ≫= f).
Proof.
  intros H Hf. apply Forall_forall. intros x (p&Hx&Hp)%list_elem_of_bind.
  pose proof (Hf p (proj1 (Forall_forall _ _) H p Hp)) as Hs. by apply (proj1 (Forall_forall _ _) Hs).
Qed.

Lemma file_lines_plain p : safe_patch p → Forall plain_line (file_lines p).
Proof. intros H%patch_lines_plain. by inversion H. Qed.

Lemma parse_rendered ps : Forall safe_patch ps →
  parse_multi_file_patch syntax (str_concat (render_patch <$> ps)) = read_patch <$> ps.
Proof.
  intros H. assert (str_concat (render_patch <$> ps) = text_of (ps ≫= patch_lines)) as ->.
  { rewrite text_of_bind. f_equal. apply list_fmap_ext. intros _ p _. apply render_patch_text. }
  rewrite parse_plain; [|by apply plain_bind, patch_lines_plain|].
  - assert (∀ s, finish_file (fold_left (parse_line syntax) (ps ≫= patch_lines) s) =
      finish_file s ++ (read_patch <$> ps)) as E; [|by rewrite E].
    induction H as [|p ps Hp _ IH]; intros s; [by rewrite app_nil_r|].
    rewrite bind_cons, fold_left_app, IH, parse_patch by done. by rewrite <- app_assoc.
  - intros l ls E. destruct ps as [|p ps]; [done|]. injection E as <- _.
    exists (Ascii.ascii_of_nat 100). eexists. by split_and!; [reflexivity|left|..].
Qed.

Lemma parse_files_undelimited ps p : Forall safe_patch (ps ++ [p]) →
  parse_multi_file_patch syntax (text_of ((ps ++ [p]) ≫= file_lines)) = [read_patch p].
Proof.
  intros H. rewrite parse_plain; [|by apply plain_bind, file_lines_plain|].
  - by rewrite parse_files.
  - intros l ls E. destruct ps as [|q ps]; injection E as <- _;
      exists (Ascii.ascii_of_nat 45); eexists; by split_and!; [reflexivity|right|..].
Qed.
End reading.
