(* ===== verification/ApplyPatchProps.v ===== *)
(** * Properties of the patch tool's texts

    Reading back what the generator renders, and applying what is read: which hunks
    change the lines they mean, and which do not. *)

From Stdlib Require Import DecimalString.
From S2P Require Import Prelude TextLines LineDiff LineDiffSpec ApplyPatch ApplyPatchSpec.

(** C13. What the tool renders it can read back: the text of any list of rendered file patches, each
    below a [diff] line with at least one hunk and with lines that no header can be taken for,
    parses to exactly these files, in order, with the same hunks and line numbers; and so does a
    single one without its [diff] line, the form the generator prints. *)
Theorem rendered_patches_read_back syntax ps p :
  syntax_laws syntax → Forall safe_patch ps → safe_patch p →
  parse_multi_file_patch syntax (str_concat (render_patch <$> ps)) = read_patch <$> ps ∧
  parse_multi_file_patch syntax (diff_header (rp_path p) +:+ str_concat (render_hunk <$> rp_hunks p)) =
    [read_patch p].
Proof.
  intros Hl Hps Hp. split; [by apply parse_rendered|].
  assert (diff_header (rp_path p) +:+ str_concat (render_hunk <$> rp_hunks p) =
    text_of (([] ++ [p]) ≫= file_lines)) as ->; 
    [|apply (parse_files_undelimited syntax Hl []); by constructor].
  cbn [app]. rewrite bind_cons. cbn [mbind list_bind]. rewrite app_nil_r. unfold file_lines, diff_header.
  rewrite text_of_app, !text_of_cons, text_of_bind.
  assert ((text_of ∘ hunk_text) <$> rp_hunks p = render_hunk <$> rp_hunks p) as ->
    by (apply list_fmap_ext; intros _ h _; by rewrite render_hunk_text).
  by rewrite !str_app_assoc.
Qed.

(** Without [diff] lines only the last file of a patch is read: a header of the next file
    replaces the current one, and the hunks read for it are lost without an error. *)
Lemma undelimited_files_are_lost syntax ps p :
  syntax_laws syntax → Forall safe_patch (ps ++ [p]) →
  parse_multi_file_patch syntax (text_of ((ps ++ [p]) ≫= file_lines)) = [read_patch p].
Proof. intros Hl. by apply parse_files_undelimited. Qed.

(** Hunks that start with their change are applied exactly: given any division of a file's lines
    into blocks, kept lines followed by removed ones, and a hunk for each block whose header names
    the first line it changes, applying the hunks in order replaces precisely the removed lines by
    the added ones, the offsets of earlier hunks included; the result loses the line feed at the
    end of the file. *)
Lemma hunks_replace_their_blocks original bs tail hs :
  lines original = blocks_old bs ++ tail → hunks_of_blocks 0 bs hs →
  fits_isize (blocks_old bs ++ tail) (blocks_new bs ++ tail) →
  apply_hunks original hs = str_join nl (blocks_new bs ++ tail).
Proof.
  intros Hl Hh Hfit. unfold apply_hunks. rewrite Hl.
  f_equal. exact (apply_blocks bs hs tail [] [] Hh Hfit).
Qed.

(** Context lines are not skipped: a hunk that starts with context, as every diff of the
    generator does unless the change is in the first line, replaces its first context lines
    instead of the lines it removes. *)
Lemma leading_context_is_overwritten original pre context removed added post trailing h :
  lines original = pre ++ context ++ removed ++ post →
  h_old_start h = (Z.of_nat (length pre) + 1)%Z →
  h_lines h = replicate (length context) PLine.Context ++ replicate (length removed) PLine.Remove ++
              (PLine.Add <$> added) ++ replicate trailing PLine.Context →
  (Z.of_nat (length (lines original)) < 2 ^ 61)%Z →
  apply_hunks original [h] =
  str_join nl (pre ++ added ++ drop (length removed) (context ++ removed ++ post)).
Proof.
  intros Hl Hs Hh Hfit. unfold apply_hunks. rewrite Hl in *. rewrite !length_app in Hfit. cbn [fold_left].
  pose proof (remove_count_runs _ _ _ _ _ Hh) as Hr. pose proof (added_lines_runs _ _ _ _ _ Hh) as Ha.
  rewrite apply_hunk_at; [|rewrite ?length_app; lia..]. simpl. by rewrite Hr, Ha.
Qed.

(** ** A concrete matcher *)

Fixpoint take_digits (s : string) : string * string :=
  match s with
  | String c s' => if (48 <=? Ascii.N_of_ascii c)%N && (Ascii.N_of_ascii c <? 58)%N
                   then let '(d, r) := take_digits s' in (String c d, r) else ("", s)
  | EmptyString => ("", "")
  end.

Definition path_after (prefix l : string) : option string :=
  p ← strip_prefix prefix l; if graphic p && negb (bool_decide (p = "")) then Some p else None.

(** Matchers that agree with the expressions of the source on the headers that the generator prints,
    on [/dev/null] headers, and on the directives of model patches. *)
Definition demo_syntax : PatchSyntax := {|
  re_file_header := λ l, match path_after "--- a/" l with Some p => Some p | None => path_after "--- " l end;
  re_new_file_header := λ l, match path_after "+++ b/" l with Some p => Some p | None => path_after "+++ " l end;
  re_hunk_header := λ l,
    r ← strip_prefix "@@ -" l; let '(a, r) := take_digits r in
    r ← strip_prefix "," r; let '(b, r) := take_digits r in
    r ← strip_prefix " +" r; let '(c, r) := take_digits r in
    r ← strip_prefix "," r; let '(d, r) := take_digits r in
    if starts_with " @@" r then Some (a, Some b, c, Some d) else None;
  re_rename_from := path_after "rename from ";
  re_rename_to := path_after "rename to ";
  re_begin_file := path_after "*** Begin File: ";
  re_delete_file := path_after "*** Delete File: ";
  re_end_patch := λ l, bool_decide (l = "*** End Patch");
  re_move_to := path_after "*** Move To: " |}.

Lemma path_after_starts prefix k l p :
  path_after (k +:+ prefix) l = Some p → starts_with k l = true.
Proof.
  unfold path_after. intros (r&Hr&_)%bind_Some. apply strip_prefix_Some in Hr as ->.
  rewrite str_app_assoc. apply starts_with_true. eauto.
Qed.

Lemma path_after_app prefix p : graphic p = true → p ≠ "" → path_after prefix (prefix +:+ p) = Some p.
Proof.
  intros Hp Hn. unfold path_after. rewrite strip_prefix_app. cbn. rewrite Hp.
  by rewrite bool_decide_eq_false_2.
Qed.

Lemma take_digits_dec n t : (take_digits t).1 = "" → (take_digits t).2 = t →
  take_digits (dec n +:+ t) = (dec n, t).
Proof.
  intros H1 H2. unfold dec, dec_string. destruct (take_digits t) as [x y] eqn:E. simpl in *. subst.
  assert (∀ d, take_digits (NilEmpty.string_of_uint d +:+ t) = (NilEmpty.string_of_uint d, t)) as H; [|done].
  intros d. induction d; [exact E|..]; cbn [NilEmpty.string_of_uint]; rewrite str_app_cons;
    cbn [take_digits]; rewrite IHd; done.
Qed.

Lemma demo_syntax_laws : syntax_laws demo_syntax.
Proof.
  split; cbn [demo_syntax re_file_header re_new_file_header re_hunk_header re_rename_from re_rename_to].
  - intros l p. destruct (path_after "--- a/" l) eqn:E; intros H.
    + by apply (path_after_starts " a/" "---") in E.
    + by apply (path_after_starts " " "---") in H.
  - intros l p. destruct (path_after "+++ b/" l) eqn:E; intros H.
    + by apply (path_after_starts " b/" "+++") in E.
    + by apply (path_after_starts " " "+++") in H.
  - intros l c H. unfold starts_with. destruct (strip_prefix "@@ -" l); done.
  - intros l p H. by apply (path_after_starts "" "rename from ") in H.
  - intros l p H. by apply (path_after_starts "" "rename to ") in H.
  - intros p Hp Hn. pose proof (path_after_app "--- a/" p Hp Hn) as H. by rewrite H.
  - intros p Hp Hn. pose proof (path_after_app "+++ b/" p Hp Hn) as H. by rewrite H.
  - intros a b c d.
    assert (∀ n t, take_digits t = ("", t) → take_digits (dec n +:+ t) = (dec n, t)) as Hd.
    { intros n t E. apply take_digits_dec; by rewrite E. }
    rewrite strip_prefix_app. cbn [mbind option_bind]. rewrite (Hd a) by done.
    rewrite strip_prefix_app. cbn [mbind option_bind]. rewrite (Hd b) by done.
    rewrite strip_prefix_app. cbn [mbind option_bind]. rewrite (Hd c) by done.
    rewrite strip_prefix_app. cbn [mbind option_bind]. by rewrite (Hd d) by done.
Qed.

(** ** Examples *)

Definition demo_old : string := text_of ["one"; "two"; "three"].
Definition demo_new : string := text_of ["one"; "TWO"; "three"].

(** A diff the tool generates, read back and applied to the old text, does not give the new one. *)
Lemma own_diff_misapplied :
  (λ d, apply_hunks demo_old ∘ fp_hunks <$> parse_multi_file_patch demo_syntax d) <$>
    generate_diff "f" demo_old demo_new = Some [str_join nl ["TWO"; "two"; "three"]].
Proof. by vm_compute. Qed.

(** A removed line that starts with two dashes is read as the header of another file. *)
Lemma removed_dashes_read_as_header :
  (λ d, length ∘ fp_hunks <$> parse_multi_file_patch demo_syntax d) <$>
    generate_diff "f" (text_of ["-- note"; "x"]) (text_of ["y"]) = Some [1] ∧
  (λ d, h_lines <$> (parse_multi_file_patch demo_syntax d ≫= fp_hunks)) <$>
    generate_diff "f" (text_of ["-- note"; "x"]) (text_of ["y"]) = Some [[]].
Proof. split; by vm_compute. Qed.

(** A section of a model patch that another directive ends, instead of its own end line, is read as
    a new file without any content. *)
Lemma unterminated_section_is_empty :
  parse_multi_file_patch demo_syntax (text_of ["*** Begin Patch"; "*** Begin File: a"; "text";
                                               "*** Begin File: b"; "more"; "*** End File"; "*** End Patch"]) =
  [{| fp_path := "a"; fp_operation := PatchOp.Add; fp_hunks := [] |};
   {| fp_path := "b"; fp_operation := PatchOp.Add; fp_hunks := [content_hunk "more"] |}].
Proof. by vm_compute. Qed.

Definition demo_hunk : UnifiedHunk := {|
  uh_old_start := 1; uh_old_count := 2; uh_new_start := 1; uh_new_count := 2;
  uh_lines := [Line.Remove "a"; Line.Add "A"; Line.Equal "b"] |}.

Definition demo_patch (path : string) : RenderedPatch := {| rp_path := path; rp_hunks := [demo_hunk] |}.

Lemma demo_patch_safe path : graphic path = true → path ≠ "" → path ≠ "/dev/null" →
  safe_patch (demo_patch path).
Proof. intros. split_and!; [done..|]. repeat constructor; by vm_compute. Qed.

Lemma rendered_patches_read_back_witness :
  parse_multi_file_patch demo_syntax
    (str_concat (render_patch <$> [demo_patch "x"; demo_patch "y"])) =
  [read_patch (demo_patch "x"); read_patch (demo_patch "y")].
Proof.
  apply (rendered_patches_read_back demo_syntax [demo_patch "x"; demo_patch "y"] (demo_patch "x")
           demo_syntax_laws); [|by apply demo_patch_safe].
  repeat constructor; by vm_compute.
Defined.

Definition demo_blocks : list Block :=
  [{| b_kept := []; b_removed := ["one"]; b_added := ["1"; "1.5"] |};
   {| b_kept := ["two"]; b_removed := ["three"]; b_added := [] |}].

Definition demo_hunks : list Hunk :=
  [{| h_old_start := 1; h_old_count := 1; h_new_start := 1; h_new_count := 2;
      h_lines := [PLine.Remove; PLine.Add "1"; PLine.Add "1.5"] |};
   {| h_old_start := 3; h_old_count := 1; h_new_start := 4; h_new_count := 0;
      h_lines := [PLine.Remove] |}].
