(* ===== verification/StateMonad.v ===== *)
(** * Fallible computations over a state

    The monad of code that changes a state and may fail ([?] keeps the changes made
    so far), and a program logic for it: triples with a postcondition for values and
    one for errors. *)

From S2P Require Import Prelude.

Definition stm (S E A : Type) : Type := S → result E A * S.

Definition st_ret {S E A} (a : A) : stm S E A := λ s, (Ok a, s).
Definition st_err {S E A} (e : E) : stm S E A := λ s, (Err e, s).
Definition st_bind {S E A B} (m : stm S E A) (k : A → stm S E B) : stm S E B :=
  λ s, match m s with (Ok a, s') => k a s' | (Err e, s') => (Err e, s') end.
Definition st_lift {S E A} (r : result E A) : stm S E A := λ s, (r, s).

Declare Scope stm_scope.
Delimit Scope stm_scope with stm.
Notation "'do!' x := m 'in' k" := (st_bind m (fun x => k))
  (at level 10, x binder, m at level 100, k at level 200) : stm_scope.
Open Scope stm_scope.

Fixpoint st_map {S E A B} (f : A → stm S E B) (xs : list A) : stm S E (list B) :=
  match xs with
  | [] => st_ret []
  | x :: xs => do! y := f x in do! ys := st_map f xs in st_ret (y :: ys)
  end.

(** ** Triples *)

Definition hoare {S E A} (pre : S → Prop) (m : stm S E A) (post : A → S → Prop) (epost : E → S → Prop)
    : Prop :=
  ∀ s, pre s → match m s with (Ok a, s') => post a s' | (Err e, s') => epost e s' end.

Section hoare.
Context {S E : Type}.
Implicit Types (pre : S → Prop) (epost : E → S → Prop).

Lemma hoare_ret {A} (a : A) pre (post : A → S → Prop) epost :
  (∀ s, pre s → post a s) → hoare pre (st_ret a) post epost.
Proof. intros H s. apply H. Qed.

Lemma hoare_err {A} (e : E) pre (post : A → S → Prop) epost :
  (∀ s, pre s → epost e s) → hoare pre (st_err e) post epost.
Proof. intros H s. apply H. Qed.

Lemma hoare_bind {A B} pre (mid : A → S → Prop) (post : B → S → Prop) epost (m : stm S E A) (k : A → stm S E B) :
  hoare pre m mid epost → (∀ a, hoare (mid a) (k a) post epost) → hoare pre (st_bind m k) post epost.
Proof.
  intros Hm Hk s Hs. unfold st_bind. specialize (Hm s Hs). destruct (m s) as [[a|e] s']; [by apply Hk|done].
Qed.

Lemma hoare_weaken {A} pre pre' (post post' : A → S → Prop) epost epost' (m : stm S E A) :
  (∀ s, pre' s → pre s) → (∀ a s, post a s → post' a s) → (∀ e s, epost e s → epost' e s) →
  hoare pre m post epost → hoare pre' m post' epost'.
Proof.
  intros H1 H2 H3 Hm s Hs. specialize (Hm s (H1 s Hs)). destruct (m s) as [[a|e] s']; auto.
Qed.

Lemma hoare_pre {A} pre (P : Prop) (post : A → S → Prop) epost (m : stm S E A) :
  (P → hoare pre m post epost) → hoare (λ s, pre s ∧ P) m post epost.
Proof. intros Hm s [Hs HP]. by apply Hm. Qed.

Lemma hoare_known {A} (R : Prop) pre (post : A → S → Prop) epost (m : stm S E A) :
  (∀ s, pre s → R) → (R → hoare pre m post epost) → hoare pre m post epost.
Proof. intros H1 H2 s Hs. by apply (H2 (H1 s Hs)). Qed.

(** Running [f] over a list, each run from a state that the earlier ones left. *)
Lemma hoare_map {A B} (I : S → Prop) (Q : A → B → Prop) epost (f : A → stm S E B) xs :
  (∀ x, x ∈ xs → hoare I (f x) (λ y s, I s ∧ Q x y) epost) →
  hoare I (st_map f xs) (λ ys s, I s ∧ Forall2 Q xs ys) epost.
Proof.
  induction xs as [|x xs IH]; intros Hf; simpl; [by intros s Hs|].
  eapply hoare_bind; [apply Hf, list_elem_of_here|]. intros y. apply hoare_pre. intros HQ.
  eapply hoare_bind; [apply IH; intros z Hz; by apply Hf, list_elem_of_further|].
  intros ys. apply hoare_pre. intros Hys s Hs. split; [done|by constructor].
Qed.
End hoare.
