(* ===== verification/FileSystem.v ===== *)
(** * Paths and the file system

    What the code uses of Rust's [std::path] and [std::fs] on Unix.  A [Path] is the
    list of its components, which is how Rust compares paths; a path that ends in a
    slash or in [/.] is the path without it.  The file system is a map from absolute
    locations (lists of names) to directories, files and symbolic links; names are
    looked up one at a time, links are followed, and a lookup that meets more than
    [MAX_LINKS] of them fails, as on Linux.  Hard links, permission bits and failures
    of the device are not modelled. *)

From S2P Require Import Prelude TextLines.

(** ** Paths *)

Module Comp.
Inductive Component := RootDir | CurDir | ParentDir | Normal (name : string).
#[global] Instance component_eq_dec : EqDecision Component.
Proof. solve_decision. Defined.
End Comp.
Abbreviation Component := Comp.Component.
Abbreviation Path := (list Component).

Definition slash : Ascii.ascii := Ascii.ascii_of_nat 47.

Definition part_component (part : string) : list Component :=
  if bool_decide (part = "") || bool_decide (part = ".") then []
  else if bool_decide (part = "..") then [Comp.ParentDir] else [Comp.Normal part].

(** [Path::new(s).components()]: a leading dot of a relative path is a component. *)
Definition components (s : string) : Path :=
  let parts := split_on slash s in
  let named := parts ≫= part_component in
  if starts_with "/" s then Comp.RootDir :: named
  else match parts with "." :: _ => Comp.CurDir :: named | _ => named end.

Definition is_absolute (p : Path) : bool :=
  match p with Comp.RootDir :: _ => true | _ => false end.

(** [base.join(p)], which is also [PathBuf::push]. *)
Definition join (base p : Path) : Path :=
  if is_absolute p then p
  else match base, p with
       | _ :: _, Comp.CurDir :: rest => base ++ rest
       | _, _ => base ++ p
       end.

Definition file_name (p : Path) : option string :=
  match last p with Some (Comp.Normal name) => Some name | _ => None end.

Definition parent (p : Path) : option Path :=
  match last p with Some Comp.RootDir | None => None | Some _ => Some (removelast p) end.

(** [PathBuf::pop] *)
Definition pop (p : Path) : Path := default p (parent p).

Fixpoint path_strip_prefix (p base : Path) : option Path :=
  match base, p with
  | [], _ => Some p
  | b :: base, c :: p => if bool_decide (b = c) then path_strip_prefix p base else None
  | _ :: _, [] => None
  end.

(** [p.starts_with(base)]: whole components, never a prefix of the text. *)
Definition path_starts_with (p base : Path) : bool :=
  match path_strip_prefix p base with Some _ => true | None => false end.

Definition component_text (c : Component) : string :=
  match c with
  | Comp.RootDir => "" | Comp.CurDir => "." | Comp.ParentDir => ".." | Comp.Normal name => name
  end.

(** The text of a path that was put together from its components. *)
Definition path_text (p : Path) : string :=
  match p with
  | [Comp.RootDir] => "/"
  | _ => str_join "/" (component_text <$> p)
  end.

(** ** The file system *)

(** An absolute location: the names on the way from the root. *)
Abbreviation Loc := (list string).

Module Node_.
Inductive Node := Dir | File (content : string) | Link (target : Path).
#[global] Instance node_eq_dec : EqDecision Node.
Proof. solve_decision. Defined.
End Node_.
Abbreviation Node := Node_.Node.

Record FS := { fs_nodes : gmap Loc Node; fs_cwd : Loc }.

Definition node (fs : FS) (k : Loc) : option Node :=
  if bool_decide (k = []) then Some Node_.Dir else fs_nodes fs !! k.

Definition put (fs : FS) (k : Loc) (n : Node) : FS :=
  {| fs_nodes := <[k := n]> (fs_nodes fs); fs_cwd := fs_cwd fs |}.

Definition unlink (fs : FS) (k : Loc) : FS :=
  {| fs_nodes := delete k (fs_nodes fs); fs_cwd := fs_cwd fs |}.

(** [std::io::ErrorKind], the kinds that arise here *)
Inductive IoError :=
  NotFound | NotADirectory | IsADirectory | FilesystemLoop | AlreadyExists | InvalidData | Uncategorized.
#[export] Instance io_error_eq_dec : EqDecision IoError.
Proof. solve_decision. Defined.

Definition MAX_LINKS : nat := 40.

(** The path lookup of the kernel: where a path leads, every symbolic link followed.
    With [create], the last name may be missing: the location it would be made at. *)
Fixpoint walk (fs : FS) (create : bool) (links : nat) : Loc → Path → result IoError Loc :=
  fix go cur todo :=
    match todo with
    | [] => Ok cur
    | Comp.RootDir :: rest => go [] rest
    | Comp.CurDir :: rest => go cur rest
    | Comp.ParentDir :: rest => go (removelast cur) rest
    | Comp.Normal name :: rest =>
        match node fs (cur ++ [name]) with
        | None => if create && bool_decide (rest = []) then Ok (cur ++ [name]) else Err NotFound
        | Some Node_.Dir => go (cur ++ [name]) rest
        | Some (Node_.File _) =>
            if bool_decide (rest = []) then Ok (cur ++ [name]) else Err NotADirectory
        | Some (Node_.Link target) =>
            match links with
            | O => Err FilesystemLoop
            | S links => walk fs create links cur (target ++ rest)
            end
        end
    end.

Definition lookup_path (fs : FS) (create : bool) (p : Path) : result IoError Loc :=
  if bool_decide (p = []) then Err NotFound else walk fs create MAX_LINKS (fs_cwd fs) p.

Definition path_of (k : Loc) : Path := Comp.RootDir :: (Comp.Normal <$> k).

(** [std::fs::canonicalize] *)
Definition canonicalize (fs : FS) (p : Path) : result IoError Path :=
  let? k := lookup_path fs false p in Ok (path_of k).

(** [std::fs::metadata]: the node a path leads to. *)
Definition metadata (fs : FS) (p : Path) : result IoError Node :=
  let? k := lookup_path fs false p in ok_or (node fs k) NotFound.

(** [Path::exists] *)
Definition path_exists (fs : FS) (p : Path) : bool := is_ok (metadata fs p).

(** [Path::is_dir] *)
Definition is_dir (fs : FS) (p : Path) : bool :=
  match metadata fs p with Ok Node_.Dir => true | _ => false end.

(** The directory that holds the last name of a path, and that name; [None] when the last
    component is no name. *)
Definition lookup_entry (fs : FS) (p : Path) : result IoError (option Loc) :=
  match file_name p with
  | None => let? _ := lookup_path fs false p in Ok None
  | Some name =>
      let? d := (if bool_decide (removelast p = []) then Ok (fs_cwd fs)
                 else lookup_path fs false (removelast p)) in
      match node fs d with
      | Some Node_.Dir => Ok (Some (d ++ [name]))
      | _ => Err NotADirectory
      end
  end.

(** [Path::symlink_metadata]: the last name is not followed. *)
Definition symlink_metadata (fs : FS) (p : Path) : result IoError Node :=
  let? entry := lookup_entry fs p in
  match entry with
  | Some k => ok_or (node fs k) NotFound
  | None => metadata fs p
  end.

(** [mkdir(2)] *)
Definition mkdir (fs : FS) (p : Path) : result IoError FS :=
  let? entry := lookup_entry fs p in
  match entry with
  | None => Err AlreadyExists
  | Some k => match node fs k with
              | Some _ => Err AlreadyExists
              | None => Ok (put fs k Node_.Dir)
              end
  end.

(** [std::fs::create_dir_all] on the reversed components; what was made stays made. *)
Fixpoint create_dirs (fs : FS) (rev_path : list Component) : result IoError unit * FS :=
  match rev_path with
  | [] => (Ok tt, fs)
  | c :: rest =>
      let p := reverse rev_path in
      let finish e fs := if is_dir fs p then (Ok tt, fs) else (Err e, fs) in
      match mkdir fs p with
      | Ok fs' => (Ok tt, fs')
      | Err NotFound =>
          match c with
          | Comp.RootDir => (Err Uncategorized, fs)
          | _ =>
              match create_dirs fs rest with
              | (Err e, fs) => (Err e, fs)
              | (Ok _, fs) => match mkdir fs p with
                              | Ok fs' => (Ok tt, fs')
                              | Err e => finish e fs
                              end
              end
          end
      | Err e => finish e fs
      end
  end.

Definition create_dir_all (fs : FS) (p : Path) : result IoError unit * FS :=
  create_dirs fs (reverse p).

(** [std::fs::write]: links are followed, a missing file is made, one that is there is replaced. *)
Definition write_file (fs : FS) (p : Path) (content : string) : result IoError FS :=
  let? k := lookup_path fs true p in
  match node fs k with
  | Some Node_.Dir => Err IsADirectory
  | _ => Ok (put fs k (Node_.File content))
  end.

(** [std::fs::remove_file]: removes a link, not what it leads to. *)
Definition remove_file (fs : FS) (p : Path) : result IoError FS :=
  let? entry := lookup_entry fs p in
  match entry with
  | None => Err IsADirectory
  | Some k => match node fs k with
              | None => Err NotFound
              | Some Node_.Dir => Err IsADirectory
              | Some _ => Ok (unlink fs k)
              end
  end.

(** *** UTF-8 *)

Definition byte_in (lo hi : nat) (c : Ascii.ascii) : bool :=
  (lo <=? Ascii.nat_of_ascii c) && (Ascii.nat_of_ascii c <=? hi).

(** [str::from_utf8]: well-formed byte sequences of table 3-7 of the Unicode standard. *)
Fixpoint valid_utf8 (s : string) : bool :=
  let cont := byte_in 128 191 in
  match s with
  | EmptyString => true
  | String a s1 =>
      if byte_in 0 127 a then valid_utf8 s1
      else match s1 with
      | EmptyString => false
      | String b s2 =>
          if byte_in 194 223 a then cont b && valid_utf8 s2
          else match s2 with
          | EmptyString => false
          | String c s3 =>
              if byte_in 224 224 a then byte_in 160 191 b && cont c && valid_utf8 s3
              else if byte_in 237 237 a then byte_in 128 159 b && cont c && valid_utf8 s3
              else if byte_in 225 239 a then cont b && cont c && valid_utf8 s3
              else match s3 with
              | EmptyString => false
              | String d s4 =>
                  (if byte_in 240 240 a then byte_in 144 191 b
                   else if byte_in 241 243 a then cont b
                   else if byte_in 244 244 a then byte_in 128 143 b else false)
                  && cont c && cont d && valid_utf8 s4
              end
          end
      end
  end.

(** [std::fs::read_to_string] *)
Definition read_to_string (fs : FS) (p : Path) : result IoError string :=
  let? n := metadata fs p in
  match n with
  | Node_.File content => if valid_utf8 content then Ok content else Err InvalidData
  | _ => Err IsADirectory
  end.

(** ** Paths as lists *)

Lemma path_strip_prefix_Some p base rest : path_strip_prefix p base = Some rest ↔ p = base ++ rest.
Proof.
  revert p. induction base as [|b base IH]; intros p;
    [destruct p; simpl; (split; [by intros [= ->]|by intros ->])|].
  destruct p as [|c p]; simpl; [done|]. case_bool_decide as E; [subst; rewrite IH; naive_solver|naive_solver].
Qed.

Lemma path_starts_with_true p base : path_starts_with p base = true ↔ base `prefix_of` p.
Proof.
  unfold path_starts_with. destruct (path_strip_prefix p base) as [rest|] eqn:E.
  - apply path_strip_prefix_Some in E as ->. split; [by exists rest|done].
  - split; [done|]. intros [rest Hr]. apply path_strip_prefix_Some in Hr. congruence.
Qed.

#[global] Instance normal_inj : Inj eq eq Comp.Normal.
Proof. by intros ?? [=]. Qed.

#[global] Instance path_of_inj : Inj eq eq path_of.
Proof. intros k l [= H]. by apply (inj (fmap Comp.Normal)) in H. Qed.

Lemma path_of_app k l : path_of (k ++ l) = path_of k ++ (Comp.Normal <$> l).
Proof. unfold path_of. by rewrite fmap_app. Qed.

Lemma path_of_prefix k l : path_of k `prefix_of` path_of l ↔ k `prefix_of` l.
Proof.
  split; intros [rest H].
  - injection H as H. apply fmap_app_inv in H as (k' & rest' & Hk & -> & ->).
    apply (inj (fmap Comp.Normal)) in Hk as <-. by exists rest'.
  - subst. exists (Comp.Normal <$> rest). by rewrite path_of_app.
Qed.

Lemma file_name_Some p name : file_name p = Some name ↔ ∃ d, p = d ++ [Comp.Normal name].
Proof.
  unfold file_name. split.
  - destruct (last p) as [[]|] eqn:E; intros [= <-]. by apply last_Some in E.
  - intros [d ->]. by rewrite last_snoc.
Qed.

Lemma removelast_snoc {A} (l : list A) x : removelast (l ++ [x]) = l.
Proof. rewrite removelast_app by done. by rewrite app_nil_r. Qed.

Lemma join_names p names : p ≠ [] → join p (Comp.Normal <$> names) = p ++ (Comp.Normal <$> names).
Proof. destruct names, p; done. Qed.

(** ** Where a path leads *)

(** [walk] as a relation that counts the links it follows. *)
Inductive leads (fs : FS) (create : bool) : Loc → Path → nat → Loc → Prop :=
| leads_done cur : leads fs create cur [] 0 cur
| leads_root cur rest n k : leads fs create [] rest n k → leads fs create cur (Comp.RootDir :: rest) n k
| leads_cur cur rest n k : leads fs create cur rest n k → leads fs create cur (Comp.CurDir :: rest) n k
| leads_parent cur rest n k : leads fs create (removelast cur) rest n k →
    leads fs create cur (Comp.ParentDir :: rest) n k
| leads_new cur name : create = true → node fs (cur ++ [name]) = None →
    leads fs create cur [Comp.Normal name] 0 (cur ++ [name])
| leads_dir cur name rest n k : node fs (cur ++ [name]) = Some Node_.Dir →
    leads fs create (cur ++ [name]) rest n k → leads fs create cur (Comp.Normal name :: rest) n k
| leads_file cur name content : node fs (cur ++ [name]) = Some (Node_.File content) →
    leads fs create cur [Comp.Normal name] 0 (cur ++ [name])
| leads_link cur name target rest n k : node fs (cur ++ [name]) = Some (Node_.Link target) →
    leads fs create cur (target ++ rest) n k → leads fs create cur (Comp.Normal name :: rest) (S n) k.

Lemma walk_eq fs create links cur todo :
  walk fs create links cur todo =
    match todo with
    | [] => Ok cur
    | Comp.RootDir :: rest => walk fs create links [] rest
    | Comp.CurDir :: rest => walk fs create links cur rest
    | Comp.ParentDir :: rest => walk fs create links (removelast cur) rest
    | Comp.Normal name :: rest =>
        match node fs (cur ++ [name]) with
        | None => if create && bool_decide (rest = []) then Ok (cur ++ [name]) else Err NotFound
        | Some Node_.Dir => walk fs create links (cur ++ [name]) rest
        | Some (Node_.File _) =>
            if bool_decide (rest = []) then Ok (cur ++ [name]) else Err NotADirectory
        | Some (Node_.Link target) =>
            match links with
            | O => Err FilesystemLoop
            | S links => walk fs create links cur (target ++ rest)
            end
        end
    end.
Proof. destruct links, todo as [|[] ?]; reflexivity. Qed.

Lemma walk_leads fs create links cur todo k :
  walk fs create links cur todo = Ok k ↔ ∃ n, n ≤ links ∧ leads fs create cur todo n k.
Proof.
  split.
  - revert cur todo. induction links as [links IHl] using lt_wf_ind. intros cur todo.
    revert cur. induction todo as [|c todo IH]; intros cur; rewrite walk_eq.
    { intros [= ->]. exists 0. split; [lia|constructor]. }
    destruct c as [| | |name]; [intros (n & ? & ?)%IH; exists n; split; [done|by constructor]..|].
    destruct (node fs (cur ++ [name])) as [[|content|target]|] eqn:E.
    + intros (n & ? & ?)%IH. exists n. split; [done|by apply leads_dir].
    + case_bool_decide; [|done]. subst. intros [= <-]. exists 0. split; [lia|by eapply leads_file].
    + destruct links as [|links]; [done|]. intros (n & ? & ?)%IHl; [|lia].
      exists (S n). split; [lia|by eapply leads_link].
    + destruct create; simpl; [|done]. case_bool_decide; [|done]. subst. intros [= <-].
      exists 0. split; [lia|by apply leads_new].
  - intros (n & Hn & H). revert links Hn.
    induction H as [| | | |? ? Hc E|? ? ? ? ? E|? ? ? E|? ? ? ? ? ? E ? IH]; intros links Hn;
      rewrite walk_eq; [by eauto..| | | |].
    + by rewrite E, Hc.
    + rewrite E. by eauto.
    + by rewrite E.
    + rewrite E. destruct links as [|links]; [lia|]. apply IH. lia.
Qed.

(** A well-formed file system is a tree: what has a node lies in a directory. *)
Record fs_wf (fs : FS) : Prop := {
  wf_tree : ∀ k name n, node fs (k ++ [name]) = Some n → node fs k = Some Node_.Dir;
  wf_cwd : node fs (fs_cwd fs) = Some Node_.Dir;
}.

Lemma node_root fs : node fs [] = Some Node_.Dir.
Proof. done. Qed.

Lemma node_prefix fs k l n : fs_wf fs → node fs (k ++ l) = Some n → l = [] ∨ node fs k = Some Node_.Dir.
Proof.
  intros Hwf. revert n. induction l as [|x l IH] using rev_ind; intros n; [by left|]. right.
  rewrite app_assoc in H. apply (wf_tree _ Hwf) in H as H'.
  destruct (IH _ H') as [->|]; [by rewrite app_nil_r in H'|done].
Qed.

Lemma removelast_dir fs k : fs_wf fs → node fs k = Some Node_.Dir → node fs (removelast k) = Some Node_.Dir.
Proof.
  intros Hwf H. induction k as [|x k _] using rev_ind; [done|].
  rewrite removelast_snoc. by eapply wf_tree.
Qed.

(** What a lookup that creates nothing finds is there, and is no link. *)
Lemma leads_present fs cur p n k : fs_wf fs → leads fs false cur p n k → node fs cur = Some Node_.Dir →
  node fs k = Some Node_.Dir ∨ ∃ content, node fs k = Some (Node_.File content).
Proof.
  intros Hwf. induction 1; intros Hc; try done; eauto using removelast_dir.
Qed.

Lemma leads_app fs create cur p n m q n' k :
  leads fs false cur p n m → (q = [] → m = k ∧ n' = 0) →
  (q ≠ [] → node fs m = Some Node_.Dir ∧ leads fs create m q n' k) →
  leads fs create cur (p ++ q) (n + n') k.
Proof.
  intros H. revert q n' k.
  induction H as [| | | |? ? Hc|? ? ? ? ? E ? IH|? ? ? E|? ? ? ? ? ? E ? IH]; intros q n' k' Hnil Hcons; simpl.
  - destruct q as [|c q]; [destruct (Hnil eq_refl) as [-> ->]; constructor|by apply Hcons].
  - constructor. eauto.
  - constructor. eauto.
  - constructor. eauto.
  - done.
  - apply leads_dir; eauto.
  - destruct q as [|c q].
    + destruct (Hnil eq_refl) as [<- ->]. by eapply leads_file.
    + destruct (Hcons ltac:(done)) as [Hd _]. congruence.
  - eapply leads_link; [done|]. rewrite app_assoc. by apply IH.
Qed.

(** A lookup goes through directories. *)
Lemma leads_split fs create cur p q n k : fs_wf fs → node fs cur = Some Node_.Dir →
  q ≠ [] → leads fs create cur (p ++ q) n k →
  ∃ m n1 n2, leads fs false cur p n1 m ∧ leads fs create m q n2 k ∧ n = n1 + n2 ∧
    node fs m = Some Node_.Dir.
Proof.
  intros Hwf Hcur Hq H. remember (p ++ q) as todo eqn:Et. revert p Hcur Et.
  induction H as [|? ? ? ? ? IH|? ? ? ? ? IH|? ? ? ? ? IH|? ? Hc E|? ? ? ? ? E ? IH|? ? ? E|? ? ? ? ? ? E ? IH];
    intros p Hcur Et; (destruct p as [|c p]; simpl in Et;
      [subst q; first [done|eexists _, 0, _; split_and!; [by constructor|by econstructor|done|done]]|]);
    simplify_eq/=; try (by destruct p, q);
    try (edestruct IH as (m & n1 & n2 & ? & ? & -> & ?); [by eauto using removelast_dir|done|];
      exists m, n1, n2; split_and!; [by constructor|done..]).
  destruct (IH (target ++ p)) as (m & n1 & n2 & ? & ? & -> & ?); [done|by rewrite app_assoc|].
  exists m, (S n1), n2. split_and!; [by eapply leads_link|done..].
Qed.

Lemma leads_det fs create cur p n k n' k' : leads fs create cur p n k → leads fs create cur p n' k' →
  k = k' ∧ n = n'.
Proof.
  intros H. revert n' k'. induction H; intros n' k' H'; inversion H'; simplify_eq; eauto.
  match goal with IH : ∀ n' k', _, H : leads _ _ cur _ _ k' |- _ => by destruct (IH _ _ H) as [-> ->] end.
Qed.

Lemma leads_names fs create k l : fs_wf fs → node fs k = Some Node_.Dir →
  (l = [] ∨ node fs (k ++ l) = Some Node_.Dir ∨ ∃ content, node fs (k ++ l) = Some (Node_.File content)) →
  leads fs create k (Comp.Normal <$> l) 0 (k ++ l).
Proof.
  intros Hwf. revert k. induction l as [|x l IH]; intros k Hk Hl; [rewrite app_nil_r; constructor|].
  rewrite cons_middle, app_assoc in Hl |- *.
  assert (∃ n, node fs ((k ++ [x]) ++ l) = Some n) as [n Hn] by naive_solver.
  destruct (node_prefix fs (k ++ [x]) l n Hwf Hn) as [->|Hd].
  - rewrite app_nil_r in *. destruct Hl as [?|[Hd|[content Hf]]]; [done| |by eapply leads_file].
    apply leads_dir; [done|constructor].
  - apply leads_dir; [done|]. apply IH; [done|]. naive_solver.
Qed.

(** ** Lookups *)

Lemma lookup_path_Ok fs create p k : lookup_path fs create p = Ok k ↔
  p ≠ [] ∧ ∃ n, n ≤ MAX_LINKS ∧ leads fs create (fs_cwd fs) p n k.
Proof.
  unfold lookup_path. case_bool_decide; [naive_solver|]. rewrite walk_leads. naive_solver.
Qed.

Definition present (fs : FS) (k : Loc) : Prop :=
  node fs k = Some Node_.Dir ∨ ∃ content, node fs k = Some (Node_.File content).

Section lookups.
Context (fs : FS) (Hwf : fs_wf fs).

Lemma lookup_path_present p k : lookup_path fs false p = Ok k → present fs k.
Proof.
  intros (_ & n & _ & H)%lookup_path_Ok. eapply leads_present; [done..|]. apply (wf_cwd _ Hwf).
Qed.

Lemma lookup_path_of create k : present fs k → lookup_path fs create (path_of k) = Ok k.
Proof.
  intros H. apply lookup_path_Ok. split; [done|]. exists 0. split; [lia|]. constructor.
  apply (leads_names fs create [] k); [done|done|by right].
Qed.

Lemma canonicalize_Ok p q : canonicalize fs p = Ok q ↔ ∃ k, lookup_path fs false p = Ok k ∧ q = path_of k.
Proof. unfold canonicalize. rewrite rbind_Ok. naive_solver. Qed.

Lemma canonicalize_path_of k : present fs k → canonicalize fs (path_of k) = Ok (path_of k).
Proof. intros H. apply canonicalize_Ok. exists k. by rewrite lookup_path_of. Qed.

Lemma metadata_Ok p n : metadata fs p = Ok n ↔ ∃ k, lookup_path fs false p = Ok k ∧ node fs k = Some n.
Proof.
  unfold metadata. rewrite rbind_Ok. split; intros (k & Hk & Hn); exists k; (split; [done|]).
  - by destruct (node fs k); simplify_eq/=.
  - by rewrite Hn.
Qed.

Lemma path_exists_true p : path_exists fs p = true ↔ ∃ k, lookup_path fs false p = Ok k.
Proof.
  unfold path_exists. split.
  - destruct (metadata fs p) eqn:E; [|done]. apply metadata_Ok in E as (k & ? & _). by exists k.
  - intros [k Hk]. destruct (lookup_path_present _ _ Hk) as [Hn|[content Hn]].
    + by rewrite (proj2 (metadata_Ok p Node_.Dir)) by eauto.
    + by rewrite (proj2 (metadata_Ok p (Node_.File content))) by eauto.
Qed.

Lemma lookup_entry_snoc d name : node fs d = Some Node_.Dir →
  lookup_entry fs (path_of (d ++ [name])) = Ok (Some (d ++ [name])).
Proof.
  intros Hd. unfold lookup_entry. rewrite path_of_app. cbn [fmap list_fmap].
  rewrite (proj2 (file_name_Some _ name)) by eauto. rewrite removelast_snoc.
  rewrite bool_decide_eq_false_2 by done. rewrite lookup_path_of by by left. cbn. by rewrite Hd.
Qed.

Lemma symlink_metadata_snoc d name : node fs d = Some Node_.Dir →
  symlink_metadata fs (path_of (d ++ [name])) = ok_or (node fs (d ++ [name])) NotFound.
Proof. intros Hd. unfold symlink_metadata. by rewrite lookup_entry_snoc. Qed.
End lookups.

(** ** Changes *)

Lemma node_put fs d name n j : node (put fs (d ++ [name]) n) j =
  if bool_decide (j = d ++ [name]) then Some n else node fs j.
Proof.
  unfold node, put. cbn. repeat case_bool_decide; subst; try done; [by destruct d|by simplify_map_eq|].
  by rewrite lookup_insert_ne.
Qed.

Lemma node_unlink fs d name j : node (unlink fs (d ++ [name])) j =
  if bool_decide (j = d ++ [name]) then None else node fs j.
Proof.
  unfold node, unlink. cbn. repeat case_bool_decide; subst; try done; [by destruct d|by simplify_map_eq|].
  by rewrite lookup_delete_ne.
Qed.

Lemma put_wf fs d name n : fs_wf fs → node fs d = Some Node_.Dir →
  (node fs (d ++ [name]) = None ∨ n = Node_.Dir ∨ node fs (d ++ [name]) ≠ Some Node_.Dir) →
  fs_wf (put fs (d ++ [name]) n).
Proof.
  intros Hwf Hd Hn.
  assert (Hchild : ∀ x m, n ≠ Node_.Dir → node fs ((d ++ [name]) ++ [x]) = Some m → False).
  { intros x m Hnd Hx%(wf_tree _ Hwf). destruct Hn as [?|[?|?]]; congruence. }
  assert (Hdn : ∀ x, d ≠ (d ++ [name]) ++ [x]).
  { intros x Hx. apply (f_equal length) in Hx. rewrite !length_app in Hx. simpl in Hx. lia. }
  split.
  - intros k x m. rewrite !node_put. case_bool_decide as E1.
    + apply app_inj_tail in E1 as [-> ->]. intros _. case_bool_decide as E2; [|done].
      exfalso. apply (f_equal length) in E2. rewrite length_app in E2. simpl in E2. lia.
    + intros Hm. case_bool_decide as E2; [|by eapply wf_tree].
      subst k. destruct (decide (n = Node_.Dir)) as [->|Hnd]; [done|]. exfalso. by eapply Hchild.
  - cbn. rewrite node_put. case_bool_decide as E; [|apply wf_cwd; done].
    pose proof (wf_cwd _ Hwf) as Hc. rewrite E in Hc. destruct Hn as [?|[->|?]]; congruence.
Qed.

Lemma unlink_wf fs d name : fs_wf fs → node fs (d ++ [name]) ≠ Some Node_.Dir →
  fs_wf (unlink fs (d ++ [name])).
Proof.
  intros Hwf Hn. split.
  - intros k x m. rewrite !node_unlink. case_bool_decide; [done|]. intros Hm%(wf_tree _ Hwf).
    case_bool_decide; [congruence|done].
  - cbn. rewrite node_unlink. case_bool_decide as E; [|by apply wf_cwd].
    rewrite <- E in Hn. by destruct (Hn (wf_cwd _ Hwf)).
Qed.

(** Nothing disappears and nothing but the text of a file changes. *)
Record grows (fs fs' : FS) : Prop := {
  gr_cwd : fs_cwd fs' = fs_cwd fs;
  gr_node : ∀ k n, node fs k = Some n →
    match n with Node_.File _ => ∃ c, node fs' k = Some (Node_.File c) | _ => node fs' k = Some n end;
}.

#[export] Instance grows_preorder : PreOrder grows.
Proof.
  split.
  - intros fs. split; [done|]. intros k [] H; eauto.
  - intros f g h [Hc1 Hn1] [Hc2 Hn2]. split; [congruence|]. intros k n H%Hn1. destruct n as [|c|t].
    + by apply Hn2 in H.
    + destruct H as [c' H%Hn2]. done.
    + by apply Hn2 in H.
Qed.

Lemma put_grows fs d name n : (node fs (d ++ [name]) = None ∨
  ∃ c c', node fs (d ++ [name]) = Some (Node_.File c) ∧ n = Node_.File c') → grows fs (put fs (d ++ [name]) n).
Proof.
  intros Hn. split; [done|]. intros k m Hm. rewrite node_put. case_bool_decide as E.
  - subst k. destruct Hn as [?|(c & c' & Hf & ->)]; [congruence|]. rewrite Hf in Hm.
    injection Hm as <-. eauto.
  - destruct m; eauto.
Qed.

Lemma grows_leads fs fs' cur p n k : grows fs fs' → leads fs false cur p n k → leads fs' false cur p n k.
Proof.
  intros [_ Hg]. induction 1 as [| | | | |? ? ? ? ? E|? ? ? E|? ? ? ? ? ? E]; try by econstructor.
  - apply Hg in E. by apply leads_dir.
  - apply Hg in E as [c E]. by eapply leads_file.
  - apply Hg in E. by eapply leads_link.
Qed.

Lemma grows_lookup fs fs' p k : grows fs fs' → lookup_path fs false p = Ok k → lookup_path fs' false p = Ok k.
Proof.
  intros Hg (Hp & n & Hn & Hl)%lookup_path_Ok. apply lookup_path_Ok. split; [done|]. exists n.
  split; [done|]. rewrite (gr_cwd _ _ Hg). by eapply grows_leads.
Qed.

Lemma grows_present fs fs' k : grows fs fs' → present fs k → present fs' k.
Proof.
  intros [_ Hg] [Hd|[c Hf]]; [left; by apply Hg in Hd|right]. by apply Hg in Hf.
Qed.

(** Where a lookup that may create ends: in a directory, or below one. *)
Lemma leads_entry fs create cur p n k : fs_wf fs → leads fs create cur p n k →
  node fs cur = Some Node_.Dir →
  node fs k = Some Node_.Dir ∨ ∃ d name, k = d ++ [name] ∧ node fs d = Some Node_.Dir ∧
    (node fs k = None ∨ ∃ c, node fs k = Some (Node_.File c)).
Proof.
  intros Hwf. induction 1; intros Hc; eauto using removelast_dir; right; eexists _, _; eauto.
Qed.

Lemma write_file_Ok fs p content fs' : fs_wf fs → write_file fs p content = Ok fs' →
  ∃ k, lookup_path fs true p = Ok k ∧ fs' = put fs k (Node_.File content) ∧ fs_wf fs' ∧ grows fs fs' ∧
    ∃ d name, k = d ++ [name].
Proof.
  intros Hwf (k & Hk & H)%rbind_Ok. exists k.
  assert (Hl := Hk). apply lookup_path_Ok in Hl as (_ & n & _ & Hl).
  apply leads_entry in Hl as [Hd|(d & name & -> & Hd & Hn)]; [|..|done|by apply wf_cwd].
  { by rewrite Hd in H. }
  assert (fs' = put fs (d ++ [name]) (Node_.File content)) as ->.
  { destruct Hn as [Hn|[c Hn]]; rewrite Hn in H; by injection H. }
  split_and!; [done|done| | |by eauto].
  - apply put_wf; [done|done|]. destruct Hn as [|[c ->]]; auto.
  - apply put_grows. destruct Hn as [|[c Hc]]; [by left|]. right. eauto.
Qed.

Lemma lookup_entry_Ok fs p k : fs_wf fs → lookup_entry fs p = Ok (Some k) →
  ∃ d name, k = d ++ [name] ∧ node fs d = Some Node_.Dir.
Proof.
  intros Hwf. unfold lookup_entry. destruct (file_name p) as [name|].
  - intros (d & _ & H)%rbind_Ok. destruct (node fs d) as [[]|] eqn:E; simplify_eq. eauto.
  - intros (? & _ & H)%rbind_Ok. done.
Qed.

Lemma mkdir_Ok fs p fs' : fs_wf fs → mkdir fs p = Ok fs' → fs_wf fs' ∧ grows fs fs'.
Proof.
  intros Hwf ([k|] & Hk & H)%rbind_Ok; [|done].
  destruct (lookup_entry_Ok _ _ _ Hwf Hk) as (d & name & -> & Hd).
  destruct (node fs (d ++ [name])) as [n|] eqn:E; [done|]. injection H as <-.
  split; [apply put_wf; auto|apply put_grows; by left].
Qed.

Lemma create_dirs_grows fs p : fs_wf fs → fs_wf (create_dirs fs p).2 ∧ grows fs (create_dirs fs p).2.
Proof.
  intros Hwf. induction p as [|c p IH]; [by split|]. cbn [create_dirs].
  destruct (mkdir fs (reverse (c :: p))) as [fs1|e] eqn:E1; [by eapply mkdir_Ok|].
  assert (Hfin : ∀ fs2 e', fs_wf fs2 → grows fs fs2 →
    fs_wf (if is_dir fs2 (reverse (c :: p)) then (Ok tt, fs2) else (Err (E := IoError) e', fs2)).2 ∧
    grows fs (if is_dir fs2 (reverse (c :: p)) then (Ok tt, fs2) else (Err (E := IoError) e', fs2)).2).
  { intros. by case_match. }
  destruct e; try by apply Hfin.
  destruct c; [by split|..]; (destruct (create_dirs fs p) as [[u|e] fs2]; cbn in IH; destruct IH as [Hwf2 Hg2];
    [|by split]);
    (destruct (mkdir fs2 _) as [fs3|e] eqn:E2; [|by apply Hfin]);
    (destruct (mkdir_Ok _ _ _ Hwf2 E2); split; [done|by etrans]).
Qed.

Lemma remove_file_Ok fs p fs' : fs_wf fs → remove_file fs p = Ok fs' →
  ∃ k, lookup_entry fs p = Ok (Some k) ∧ fs' = unlink fs k ∧ fs_wf fs'.
Proof.
  intros Hwf ([k|] & Hk & H)%rbind_Ok; [|done]. exists k.
  destruct (lookup_entry_Ok _ _ _ Hwf Hk) as (d & name & -> & Hd).
  destruct (node fs (d ++ [name])) as [[]|] eqn:E; simplify_eq;
    (split_and!; [done|done|apply unlink_wf; [done|by rewrite E]]).
Qed.
