(* ===== verification/FilePaths.v ===== *)
(** * Sandbox paths and the file path authority

    crates/agendao-sandbox/src/path.rs, crates/agendao-tool-core/src/file_path_authority.rs,
    the path resolution of [ToolContext] (agendao-tool-core/src/lib.rs) and
    crates/agendao-tool/src/path_guard.rs: how the path a model asks for becomes the
    location a file tool may open and the permission scope it asks for.  Error texts
    are values that keep what the source formats into them. *)

From S2P Require Import Prelude TextLines FileSystem.

(** ** Sandbox paths *)

Definition PROTECTED_METADATA_COMPONENTS : list string := [".git"; ".agendao"; ".agents"; ".codex"].

(** The messages of [PathViolation::InvalidInput]. *)
Module Invalid.
Inductive Message :=
| EmptyPath
| NulByte
| TildePath (raw : string)
| NoFinalComponent (path : Path)
| FinalComponentNotAName (path : Path)
| ComponentNotAName (path : Path)
| NoExistingAncestor (path : Path)
| NoParent (path : Path).
End Invalid.

Module Violation.
Inductive PathViolation :=
| LexicalEscape (raw : string)
| CanonicalEscape (root path : Path)
| SymlinkEscape (path target : Path)
| InvalidInput (message : Invalid.Message)
| Io (path : Path) (source : IoError).
End Violation.
Abbreviation PathViolation := Violation.PathViolation.

Record CreateTarget := {
  ct_parent : Path;
  ct_suffix : Path;
  ct_component : string;
  ct_existing : option Path;
}.

(** One component folded into the path so far. *)
Definition normalize_step (resolved : Path) (c : Component) : Path :=
  match c with
  | Comp.CurDir => resolved
  | Comp.ParentDir => pop resolved
  | other => join resolved [other]
  end.

Definition lexical_normalize (p : Path) : Path := fold_left normalize_step p [].

Definition nul : string := String Ascii.zero "".

(** [resolve_user_path] of path.rs *)
Definition resolve_sandbox_path (raw : string) (base : Path) : result PathViolation Path :=
  let raw := trim raw in
  reject? bool_decide (raw = "") with Violation.InvalidInput Invalid.EmptyPath in
  reject? contains nul raw with Violation.InvalidInput Invalid.NulByte in
  reject? starts_with "~" raw with Violation.InvalidInput (Invalid.TildePath raw) in
  let '(joined, enforce_base) :=
    match strip_prefix "workspace:" raw with
    | Some relative => (join base (components relative), true)
    | None => if is_absolute (components raw) then (components raw, false)
              else (join base (components raw), true)
    end in
  let normalized := lexical_normalize joined in
  reject? enforce_base && negb (path_starts_with normalized base) with Violation.LexicalEscape raw in
  Ok normalized.

Definition canonicalize_existing (fs : FS) (p : Path) : result PathViolation Path :=
  match canonicalize fs p with Ok q => Ok q | Err e => Err (Violation.Io p e) end.

Definition reserved_name (text : string) : bool := bool_decide (text = ".") || bool_decide (text = "..").

(** The loop of [resolve_create_target] on reversed components: the deepest existing ancestor
    and the names below it. *)
Fixpoint existing_ancestor (fs : FS) (p rev_current : Path) (suffix : list string)
    : result PathViolation (Path * list string) :=
  if path_exists fs (reverse rev_current) then Ok (reverse rev_current, suffix)
  else match rev_current with
       | Comp.Normal name :: rest =>
           reject? reserved_name name with Violation.InvalidInput (Invalid.ComponentNotAName p) in
           existing_ancestor fs p rest (name :: suffix)
       | _ => Err (Violation.InvalidInput (Invalid.NoExistingAncestor p))
       end.

Definition resolve_create_target (fs : FS) (p : Path) : result PathViolation CreateTarget :=
  let? component := ok_or (file_name p) (Violation.InvalidInput (Invalid.NoFinalComponent p)) in
  reject? reserved_name component with Violation.InvalidInput (Invalid.FinalComponentNotAName p) in
  let? found := existing_ancestor fs p (reverse p) [] in
  let? target := (match found.2 with
                  | [] => let? parent := ok_or (parent p) (Violation.InvalidInput (Invalid.NoParent p)) in
                          Ok (parent, [Comp.Normal component])
                  | suffix => Ok (found.1, Comp.Normal <$> suffix)
                  end) in
  let? parent_canon := canonicalize_existing fs target.1 in
  let absolute := join parent_canon target.2 in
  let? existing := (if is_ok (symlink_metadata fs absolute)
                    then let? q := canonicalize_existing fs absolute in Ok (Some q)
                    else Ok None) in
  Ok {| ct_parent := parent_canon; ct_suffix := target.2; ct_component := component;
        ct_existing := existing |}.

Definition assert_within_root (p root : Path) : result PathViolation string :=
  match path_strip_prefix p root with
  | Some relative => Ok (path_text relative)
  | None => Err (Violation.CanonicalEscape root p)
  end.

Definition assert_no_symlink_escape (fs : FS) (p root : Path) : result PathViolation unit :=
  let? canonical := canonicalize_existing fs p in
  if path_starts_with canonical root then Ok tt else Err (Violation.SymlinkEscape p canonical).

Definition workspace_scope (relative : string) : string :=
  default "." (find_first (λ segment, negb (bool_decide (segment = ""))) (split_on slash relative)).

Definition protected_metadata (p : Path) : option string :=
  let names := omap (λ c, match c with Comp.Normal name => Some name | _ => None end) p in
  match find_first (λ name, mem name PROTECTED_METADATA_COMPONENTS) names with
  | Some name => find_first (λ candidate, bool_decide (candidate = name)) PROTECTED_METADATA_COMPONENTS
  | None => None
  end.

(** ** The file path authority *)

Module FileLoc.
Inductive FilePathLocation := Workspace (relative : string) | External.
#[global] Instance location_eq_dec : EqDecision FilePathLocation.
Proof. solve_decision. Defined.
End FileLoc.
Abbreviation FilePathLocation := FileLoc.FilePathLocation.

Record AuthorizedFilePath := { operation_path : Path; location : FilePathLocation }.
#[export] Instance authorized_eq_dec : EqDecision AuthorizedFilePath.
Proof. solve_decision. Defined.

Definition display_path (a : AuthorizedFilePath) : string := path_text (operation_path a).

Definition is_external (a : AuthorizedFilePath) : bool :=
  match location a with FileLoc.External => true | _ => false end.

Definition external_parent (a : AuthorizedFilePath) : Path := pop (operation_path a).

Definition slashes (s : string) : string := str_replace "\" "/" s.

Definition external_fs_scope_key (path : string) : string := "fs:" +:+ slashes path.

Definition permission_scope_key (a : AuthorizedFilePath) : string :=
  match location a with
  | FileLoc.Workspace relative => "workspace:/" +:+ relative
  | FileLoc.External => external_fs_scope_key (display_path a)
  end.

(** [ToolError::ExecutionError] of the authority, by its format string. *)
Module PathErr.
Inductive PathError :=
| ResolveFile (path : Path) (err : PathViolation)
| ResolveCreateTarget (path : Path) (err : PathViolation)
| ResolveProjectRoot (root : Path) (err : PathViolation)
| DeriveWorkspacePath.
End PathErr.
Abbreviation PathError := PathErr.PathError.

Definition map_error {E F A} (f : E → F) (r : result E A) : result F A :=
  match r with Ok a => Ok a | Err e => Err (f e) end.

Definition canonical_root (fs : FS) (project_root : Path) : result PathError Path :=
  map_error (PathErr.ResolveProjectRoot project_root) (canonicalize_existing fs project_root).

Definition classify (p root : Path) : AuthorizedFilePath := {|
  operation_path := p;
  location := match assert_within_root p root with
              | Ok relative => FileLoc.Workspace (slashes relative)
              | Err _ => FileLoc.External
              end |}.

Definition classify_create_under_parent (operation_path canonical_parent root : Path)
    : result PathError AuthorizedFilePath :=
  match assert_within_root canonical_parent root with
  | Ok _ => let? relative := ok_or (path_strip_prefix operation_path root) PathErr.DeriveWorkspacePath in
            Ok {| operation_path := operation_path;
                  location := FileLoc.Workspace (slashes (path_text relative)) |}
  | Err _ => Ok {| operation_path := operation_path; location := FileLoc.External |}
  end.

Definition resolve_existing_file_path (fs : FS) (p project_root : Path)
    : result PathError AuthorizedFilePath :=
  let? root := canonical_root fs project_root in
  let? target := map_error (PathErr.ResolveFile p) (canonicalize_existing fs p) in
  Ok (classify target root).

Definition resolve_create_file_path (fs : FS) (p project_root : Path)
    : result PathError AuthorizedFilePath :=
  let? root := canonical_root fs project_root in
  let? target := map_error (PathErr.ResolveCreateTarget p) (resolve_create_target fs p) in
  match ct_existing target with
  | Some existing => Ok (classify existing root)
  | None => classify_create_under_parent (join (ct_parent target) (ct_suffix target))
              (ct_parent target) root
  end.

(** ** Tool contexts *)

Record ToolContext := { ctx_directory : string; ctx_project_root : string; ctx_worktree : string }.

Definition resolve_path_against_directory (ctx : ToolContext) (p : Path) : Path :=
  if is_absolute p then p else join (components (ctx_directory ctx)) p.

Definition ctx_resolve_existing (ctx : ToolContext) (fs : FS) (p : Path)
    : result PathError AuthorizedFilePath :=
  resolve_existing_file_path fs (resolve_path_against_directory ctx p) (components (ctx_project_root ctx)).

Definition ctx_resolve_create (ctx : ToolContext) (fs : FS) (p : Path)
    : result PathError AuthorizedFilePath :=
  resolve_create_file_path fs (resolve_path_against_directory ctx p) (components (ctx_project_root ctx)).

(** [ToolContext::is_external_path] *)
Definition is_external_path (ctx : ToolContext) (fs : FS) (path : string) : bool :=
  let candidate := resolve_path_against_directory ctx (components path) in
  match ctx_resolve_existing ctx fs candidate with
  | Ok a => is_external a
  | Err _ => match ctx_resolve_create ctx fs candidate with
             | Ok a => is_external a
             | Err _ => true
             end
  end.

(** ** Root level corrections *)

Inductive RootPathFallbackPolicy := Disabled | ExistingFallbackOnly | PreferSessionDirWhenMissing.
#[export] Instance fallback_policy_eq_dec : EqDecision RootPathFallbackPolicy.
Proof. solve_decision. Defined.

Definition root_level_basename (p : Path) : option string :=
  match p with [Comp.RootDir; Comp.Normal name] => Some name | _ => None end.

(** [resolve_user_path] of path_guard.rs: the path, and what it was corrected from. *)
Definition resolve_user_path (fs : FS) (raw_path : string) (base_dir : Path)
    (fallback_policy : RootPathFallbackPolicy) : Path * option Path :=
  let raw := components raw_path in
  let candidate := if is_absolute raw then raw else join base_dir raw in
  if bool_decide (fallback_policy = Disabled) then (candidate, None)
  else match root_level_basename raw with
  | None => (candidate, None)
  | Some basename =>
      let fallback := join base_dir [Comp.Normal basename] in
      if bool_decide (fallback = candidate) then (candidate, None)
      else
        let should_correct :=
          match fallback_policy with
          | Disabled => false
          | ExistingFallbackOnly => negb (path_exists fs candidate) && path_exists fs fallback
          | PreferSessionDirWhenMissing => negb (path_exists fs candidate)
          end in
        if should_correct then (fallback, Some candidate) else (candidate, None)
  end.
