(* ===== verification/FilePathsSpec.v ===== *)
(** * What an authorized path is

    Proofs about FilePaths.v over the file system of FileSystem.v: an authorized
    path is canonical up to what does not exist yet, its classification is that of
    the location it names, and once it is revalidated a write through it goes to
    exactly that location. *)

From S2P Require Import Prelude TextLines FileSystem FilePaths.

(** ** Lexical normalization *)

Definition is_normal (c : Component) : bool := match c with Comp.Normal _ => true | _ => false end.

(** Names folded onto a stack: what a path means when no name is a link. *)
Fixpoint fold_dots (stack : list string) (p : Path) : list string :=
  match p with
  | [] => stack
  | Comp.RootDir :: p => fold_dots [] p
  | Comp.CurDir :: p => fold_dots stack p
  | Comp.ParentDir :: p => fold_dots (removelast stack) p
  | Comp.Normal name :: p => fold_dots (stack ++ [name]) p
  end.

Lemma pop_path_of k : pop (path_of k) = path_of (removelast k).
Proof.
  destruct k as [|x k _] using rev_ind; [done|]. rewrite removelast_snoc, path_of_app.
  unfold pop, parent. cbn [fmap list_fmap]. rewrite last_snoc. by rewrite removelast_snoc.
Qed.

Lemma normalize_fold p stack : fold_left normalize_step p (path_of stack) = path_of (fold_dots stack p).
Proof.
  revert stack. induction p as [|c p IH]; intros stack; [done|].
  destruct c as [| | |name]; simpl; [by rewrite <- IH..| |].
  - by rewrite pop_path_of, IH.
  - rewrite <- IH. by rewrite path_of_app.
Qed.

Lemma lexical_normalize_absolute p : lexical_normalize (Comp.RootDir :: p) = path_of (fold_dots [] p).
Proof. unfold lexical_normalize. simpl. apply (normalize_fold p []). Qed.

(** ** Existing ancestors *)

Section authority.
Context (fs : FS) (Hwf : fs_wf fs).

Lemma existing_ancestor_Ok p rev_current suffix cur names :
  existing_ancestor fs p rev_current suffix = Ok (cur, names) →
  ∃ new, names = new ++ suffix ∧ reverse rev_current = cur ++ (Comp.Normal <$> new) ∧
    path_exists fs cur = true ∧
    match new with [] => True | name :: _ => path_exists fs (cur ++ [Comp.Normal name]) = false end.
Proof.
  revert suffix. induction rev_current as [|c rest IH]; intros suffix; cbn [existing_ancestor];
    (destruct (path_exists fs (reverse _)) eqn:E; [intros [= <- <-]; exists []; by rewrite app_nil_r|]);
    [done|].
  destruct c as [| | |name]; try done. destruct (reserved_name name); [done|].
  intros (new & -> & Hr & Hex & Hnew)%IH. exists (new ++ [name]).
  rewrite <- app_assoc. split; [done|]. rewrite reverse_cons, Hr in E |- *.
  rewrite fmap_app, app_assoc. split_and!; [done|done|].
  destruct new as [|x new]; simpl; [|done]. by rewrite app_nil_r in E.
Qed.

(** A name that is there, is no link, and is looked up in a path that leads to its directory. *)
Lemma exists_below cur d name : lookup_path fs false cur = Ok d → present fs (d ++ [name]) →
  path_exists fs (cur ++ [Comp.Normal name]) = true.
Proof.
  intros (Hne & n & Hn & Hl)%lookup_path_Ok Hp. apply (path_exists_true _ Hwf). exists (d ++ [name]).
  apply lookup_path_Ok. split; [by destruct cur|]. exists (n + 0). split; [lia|].
  assert (Hd : node fs d = Some Node_.Dir) by (destruct Hp as [?|[? ?]]; by eapply wf_tree).
  eapply leads_app; [done|done|]. intros _. split; [done|].
  apply (leads_names fs false d [name]); [done|done|by right].
Qed.

Lemma present_prefix k l : present fs (k ++ l) → present fs k.
Proof.
  intros H. assert (∃ n, node fs (k ++ l) = Some n) as [n Hn] by (destruct H as [?|[? ?]]; eauto).
  destruct (node_prefix fs k l n Hwf Hn) as [->|]; [by rewrite app_nil_r in H|by left].
Qed.

(** The deepest existing ancestor bounds what can exist below it. *)
Lemma missing_below cur d name rest l : lookup_path fs false cur = Ok d →
  path_exists fs (cur ++ [Comp.Normal name]) = false → present fs l →
  l `prefix_of` d ++ name :: rest → l `prefix_of` d.
Proof.
  intros Hd Hmiss Hl Hp. destruct (prefix_weak_total l d (d ++ name :: rest)) as [?|[tail Ht]]; [done| |done|].
  { by exists (name :: rest). }
  destruct tail as [|x tail]; [exists []; by rewrite app_nil_r in Ht |- *|].
  subst l. apply prefix_app_inv in Hp. apply prefix_cons_inv_1 in Hp as ->.
  rewrite cons_middle, app_assoc in Hl. apply present_prefix in Hl.
  by rewrite (exists_below _ _ _ Hd Hl) in Hmiss.
Qed.

Lemma canonicalize_existing_Ok p q : canonicalize_existing fs p = Ok q ↔
  ∃ k, lookup_path fs false p = Ok k ∧ q = path_of k.
Proof.
  rewrite <- canonicalize_Ok. unfold canonicalize_existing.
  destruct (canonicalize fs p); split; intros [=]; by subst.
Qed.

(** What exists below an existing directory has an entry there. *)
Lemma entry_of_existing q name d k : lookup_path fs false q = Ok d →
  lookup_path fs false (q ++ [Comp.Normal name]) = Ok k →
  node fs d = Some Node_.Dir ∧ is_Some (node fs (d ++ [name])).
Proof.
  intros (_ & n & _ & Hd)%lookup_path_Ok (_ & n' & _ & Hk)%lookup_path_Ok.
  apply leads_split in Hk as (m & n1 & n2 & Hm & Hk & _ & Hdir); [|done|apply wf_cwd; done|done].
  destruct (leads_det _ _ _ _ _ _ _ _ Hd Hm) as [-> _].
  split; [done|]. inversion Hk; simplify_eq; eauto.
Qed.

Definition target_ok (p : Path) (t : CreateTarget) : Prop :=
  ∃ dir names, ct_parent t = path_of dir ∧ ct_suffix t = Comp.Normal <$> names ∧
  match ct_existing t with
  | Some e => ∃ k, e = path_of k ∧ present fs k
  | None => ∃ cur name rest, names = name :: rest ∧ p = cur ++ (Comp.Normal <$> names) ∧
      lookup_path fs false cur = Ok dir ∧ path_exists fs (cur ++ [Comp.Normal name]) = false ∧
      is_ok (symlink_metadata fs (path_of (dir ++ names))) = false
  end.

Lemma join_parent d names : join (path_of d) (Comp.Normal <$> names) = path_of (d ++ names).
Proof. rewrite join_names by done. by rewrite path_of_app. Qed.

Lemma resolve_create_target_Ok p t : resolve_create_target fs p = Ok t → target_ok p t.
Proof.
  unfold resolve_create_target. intros (component & Hc & H)%rbind_Ok.
  destruct (file_name p) as [c|] eqn:Hname; simplify_eq/=.
  destruct (reserved_name component); [done|].
  apply rbind_Ok in H as ([cur suffix] & (new & -> & Hp & Hcur & Hnew)%existing_ancestor_Ok & H).
  rewrite app_nil_r, reverse_involutive in *. apply rbind_Ok in H as (target & Htarget & H).
  apply rbind_Ok in H as (parent_canon & (d & Hd & ->)%canonicalize_existing_Ok & H).
  apply rbind_Ok in H as (existing & Hex & [= <-]).
  assert (∃ names, target.2 = Comp.Normal <$> names) as [names Hnames].
  { destruct new; cbn in Htarget; [apply rbind_Ok in Htarget as (? & _ & [= <-])|injection Htarget as <-];
      [by exists [component]|by eexists (_ :: _)]. }
  rewrite Hnames, join_parent in Hex.
  exists d, names. split; [done|]. split; [done|]. cbn.
  destruct (is_ok (symlink_metadata _ _)) eqn:Emeta.
  { apply rbind_Ok in Hex as (e & (k & Hk & ->)%canonicalize_existing_Ok & [= <-]).
    exists k. split; [done|]. by eapply lookup_path_present. }
  injection Hex as <-. destruct new as [|name rest].
  - exfalso. cbn in Htarget. apply rbind_Ok in Htarget as (q & Hq & [= <-]). cbn in Hd, Hnames.
    apply file_name_Some in Hname as [q' ->]. unfold parent in Hq. rewrite last_snoc in Hq.
    cbn in Hq. rewrite removelast_snoc in Hq. injection Hq as <-.
    rewrite app_nil_r in Hp. subst cur. apply (path_exists_true _ Hwf) in Hcur as [k Hk].
    destruct (entry_of_existing _ _ _ _ Hd Hk) as [Hdir [n Hn]].
    assert (names = [component]) as -> by (by apply (inj (fmap Comp.Normal))).
    by rewrite (symlink_metadata_snoc _ Hwf), Hn in Emeta.
  - cbn in Htarget. injection Htarget as <-. cbn in Hd, Hnames.
    change (Comp.Normal <$> name :: rest = Comp.Normal <$> names) in Hnames.
    apply (inj (fmap Comp.Normal)) in Hnames as <-.
    by exists cur, name, rest.
Qed.

(** The classification of an authorized path is that of its location. *)
Lemma resolve_create_file_path_Ok p root a : resolve_create_file_path fs p root = Ok a →
  ∃ k r, canonicalize fs root = Ok (path_of r) ∧ a = classify (path_of k) (path_of r) ∧
    (present fs k ∨
     ∃ cur d name rest, k = d ++ name :: rest ∧ p = cur ++ (Comp.Normal <$> name :: rest) ∧
       lookup_path fs false cur = Ok d ∧ path_exists fs (cur ++ [Comp.Normal name]) = false ∧
       is_ok (symlink_metadata fs (path_of k)) = false).
Proof.
  unfold resolve_create_file_path, canonical_root, map_error.
  intros (rc & Hr & H)%rbind_Ok.
  destruct (canonicalize_existing fs root) as [rc'|] eqn:Er; simplify_eq/=.
  apply canonicalize_existing_Ok in Er as (r & Hr & ->).
  apply rbind_Ok in H as (t & Ht & H). destruct (resolve_create_target fs p) as [t'|] eqn:Et; simplify_eq/=.
  destruct (resolve_create_target_Ok _ _ Et) as (d & names & Hd & Hs & Hex).
  destruct (ct_existing t) as [e|].
  { destruct Hex as (k & -> & Hk). injection H as <-. exists k, r. rewrite canonicalize_Ok.
    split_and!; [by eauto|done|by left]. }
  destruct Hex as (cur & name & rest & -> & Hp & Hcur & Hmiss & Hmeta).
  exists (d ++ name :: rest), r. split; [rewrite canonicalize_Ok; by eauto|].
  split; [|right; by exists cur, d, name, rest].
  rewrite Hd, Hs, join_parent in H. unfold classify_create_under_parent, assert_within_root in H.
  unfold classify, assert_within_root.
  destruct (path_strip_prefix (path_of d) (path_of r)) as [rel|] eqn:Ed.
  - apply rbind_Ok in H as (relative & Hrel & [= <-]).
    destruct (path_strip_prefix (path_of (d ++ name :: rest)) (path_of r)); by simplify_eq/=.
  - injection H as <-. destruct (path_strip_prefix (path_of (d ++ name :: rest)) (path_of r)) as [rel|] eqn:Ek; [|done].
    exfalso. apply path_strip_prefix_Some in Ek.
    assert (Hp' : r `prefix_of` d ++ name :: rest) by (apply path_of_prefix; by exists rel).
    apply (missing_below cur) in Hp'; [|done|done|by eapply lookup_path_present].
    apply path_of_prefix in Hp' as [rel' Hrel']. apply path_strip_prefix_Some in Hrel'. congruence.
Qed.

(** ** Writing through an authorized path *)

(** A lookup that may create, of a path that is canonical down to a missing name. *)
Lemma lookup_missing cur d name rest k : lookup_path fs false cur = Ok d →
  path_exists fs (cur ++ [Comp.Normal name]) = false →
  cur = path_of d →
  is_ok (symlink_metadata fs (path_of (d ++ name :: rest))) = false →
  lookup_path fs true (path_of (d ++ name :: rest)) = Ok k →
  rest = [] ∧ k = d ++ [name] ∧ node fs (d ++ [name]) = None ∧ node fs d = Some Node_.Dir.
Proof.
  intros Hd Hmiss -> Hmeta (_ & n & Hn & Hk)%lookup_path_Ok.
  assert (Hp : present fs d) by by eapply lookup_path_present.
  rewrite path_of_app in Hk.
  apply leads_split in Hk as (m & n1 & n2 & Hm & Hk & -> & Hdir); [|done|apply wf_cwd; done|done].
  apply lookup_path_Ok in Hd as (_ & n0 & _ & Hd).
  destruct (leads_det _ _ _ _ _ _ _ _ Hd Hm) as [<- <-].
  assert (Hnone : ∀ k' n', n' ≤ n2 → leads fs false d [Comp.Normal name] n' k' → False).
  { intros k' n' Hle Hl. apply not_true_iff_false in Hmiss. apply Hmiss.
    apply (path_exists_true _ Hwf). exists k'. apply lookup_path_Ok. split; [done|].
    exists (n0 + n'). split; [lia|]. eapply leads_app; [done|done|]. by intros _. }
  cbn [fmap list_fmap] in Hk. inversion Hk as [| | | |? ? _ Hno|? ? ? ? ? Hno|? ? ? Hno|? ? t ? n' ? Hno Ht]; simplify_eq.
  - destruct rest; [|done]. done.
  - exfalso. apply (Hnone (d ++ [name]) 0); [lia|]. by repeat constructor.
  - exfalso. apply (Hnone (d ++ [name]) 0); [lia|]. by eapply leads_file.
  - exfalso. destruct rest as [|x rest].
    + by rewrite (symlink_metadata_snoc _ Hwf), Hno in Hmeta.
    + apply leads_split in Ht as (m & m1 & m2 & Ht & _ & -> & _); [|done..].
      apply (Hnone m (S m1)); [lia|]. eapply leads_link; [done|]. by rewrite app_nil_r.
Qed.

(** A revalidated create target is where a write through it goes, whatever it leads to. *)
Lemma revalidated_create_lookup root a k : resolve_create_file_path fs (operation_path a) root = Ok a →
  lookup_path fs true (operation_path a) = Ok k → operation_path a = path_of k.
Proof.
  intros (k0 & r & _ & Ha & Hk0)%resolve_create_file_path_Ok Hl.
  assert (Hop : operation_path a = path_of k0) by by rewrite Ha.
  rewrite Hop in *. destruct Hk0 as [Hp|(cur & d & name & rest & -> & Hp & Hd & Hmiss & Hmeta)].
  - rewrite (lookup_path_of _ Hwf) in Hl by done. by injection Hl as ->.
  - assert (cur = path_of d) as ->.
    { rewrite path_of_app in Hp. by apply app_inv_tail in Hp. }
    by destruct (lookup_missing _ _ _ _ _ Hd Hmiss eq_refl Hmeta Hl) as (-> & -> & _).
Qed.

(** So does one that was resolved as an existing file. *)
Lemma resolve_existing_file_path_Ok p root a : resolve_existing_file_path fs p root = Ok a ↔
  ∃ k r, canonicalize fs root = Ok (path_of r) ∧ lookup_path fs false p = Ok k ∧
    a = classify (path_of k) (path_of r).
Proof.
  unfold resolve_existing_file_path, canonical_root, map_error. split.
  - intros (rc & Hr & H)%rbind_Ok. apply rbind_Ok in H as (t & Ht & [= <-]).
    destruct (canonicalize_existing fs root) as [rc'|] eqn:Er; simplify_eq/=.
    destruct (canonicalize_existing fs p) as [t'|] eqn:Et; simplify_eq/=.
    apply canonicalize_existing_Ok in Er as (r & Hr & ->).
    apply canonicalize_existing_Ok in Et as (k & Hk & ->).
    exists k, r. rewrite canonicalize_Ok. split_and!; [by eauto|done..].
  - intros (k & r & (r' & Hr & [= Hpr])%canonicalize_Ok & Hk & ->).
    assert (canonicalize_existing fs root = Ok (path_of r)) as ->.
    { apply canonicalize_existing_Ok. exists r'. split; [done|]. unfold path_of. by rewrite Hpr. }
    assert (canonicalize_existing fs p = Ok (path_of k)) as -> by (apply canonicalize_existing_Ok; eauto).
    done.
Qed.

Lemma revalidated_existing_lookup create root a :
  resolve_existing_file_path fs (operation_path a) root = Ok a →
  ∃ k, operation_path a = path_of k ∧ present fs k ∧ lookup_path fs create (operation_path a) = Ok k.
Proof.
  intros (k & r & _ & Hk & Ha)%resolve_existing_file_path_Ok. exists k.
  assert (Hop : operation_path a = path_of k) by by rewrite Ha.
  assert (present fs k) by by eapply lookup_path_present. split_and!; [done|done|].
  rewrite Hop. by apply lookup_path_of.
Qed.

(** The classification says where the location lies. *)
Lemma classify_external k r : is_external (classify (path_of k) (path_of r)) = negb (bool_decide (r `prefix_of` k)).
Proof.
  unfold is_external, classify, assert_within_root. cbn [location].
  destruct (path_strip_prefix (path_of k) (path_of r)) as [rel|] eqn:E.
  - rewrite bool_decide_eq_true_2; [done|]. apply path_of_prefix. apply path_strip_prefix_Some in E.
    by exists rel.
  - rewrite bool_decide_eq_false_2; [done|]. intros [rel Hrel]%path_of_prefix.
    apply path_strip_prefix_Some in Hrel. congruence.
Qed.
End authority.
