(* ===== verification/FileTools.v ===== *)
(** * The file tools

    crates/agendao-tool/src/write.rs and the [execute] of apply_patch.rs, with the
    permission requests of agendao-tool-core/src/lib.rs they make.  A tool runs over
    the file system and a world: the answers of the session's callbacks and what
    other processes do to the files at each [await]: also between the revalidation of
    a path and the awaited call of tokio::fs that uses it.  The trace records what a
    tool asked, checked and did, oldest first, with the file system it did it to.  The
    JSON of arguments and metadata is opaque, and a tool's arguments are given
    decoded. *)

From S2P Require Import Prelude StateMonad Permission PermissionEngine TextLines LineDiff ApplyPatch FileSystem FilePaths.

(** ** Permission requests *)

Record PermissionRequest := {
  pr_permission : string;
  pr_patterns : list string;
  pr_always : list string;
  pr_permission_class : option PermissionClass;
  pr_scope_key : option string;
  pr_matcher_kind : option PermissionMatcherKind;
  pr_matcher_key : option string;
  pr_origin_tool : option string;
  pr_risk_tags : list string;
  pr_supported_lifetimes : list PermissionLifetime;
}.

Definition default_permission_class_for_name (permission : string) : PermissionClass :=
  if mem permission ["read"; "grep"; "glob"; "list"; "lsp"; "repo_history"; "skill"; "context_docs";
                     "media_inspect"; "todoread"] then PClass.InspectRead
  else if mem permission ["write"; "edit"; "multiedit"; "apply_patch"; "patch"; "todowrite";
                          "ast_grep_replace"; "skill_manage"] then PClass.WorkspaceWrite
  else if mem permission ["external_directory"; "webfetch"; "websearch"; "browser_session";
                          "github_research"; "skill_hub"; "codesearch"] then PClass.ExternalAccess
  else PClass.DangerousExec.

Definition default_supported_lifetimes_for_class (c : PermissionClass) : list PermissionLifetime :=
  match c with
  | PClass.InspectRead => [Lifetime.Once]
  | PClass.WorkspaceWrite | PClass.ExternalAccess => [Lifetime.Once; Lifetime.Turn; Lifetime.Session]
  | PClass.DangerousExec => [Lifetime.Once]
  end.

(** [PermissionRequest::new] *)
Definition request_new (permission : string) : PermissionRequest :=
  let class := default_permission_class_for_name permission in {|
  pr_permission := permission; pr_patterns := []; pr_always := []; pr_permission_class := Some class;
  pr_scope_key := None; pr_matcher_kind := None; pr_matcher_key := None;
  pr_origin_tool := Some permission; pr_risk_tags := [];
  pr_supported_lifetimes := default_supported_lifetimes_for_class class |}.

Definition with_patterns (r : PermissionRequest) (patterns : list string) : PermissionRequest := {|
  pr_permission := pr_permission r; pr_patterns := patterns; pr_always := pr_always r;
  pr_permission_class := pr_permission_class r; pr_scope_key := pr_scope_key r;
  pr_matcher_kind := pr_matcher_kind r; pr_matcher_key := pr_matcher_key r;
  pr_origin_tool := pr_origin_tool r; pr_risk_tags := pr_risk_tags r;
  pr_supported_lifetimes := pr_supported_lifetimes r |}.

Definition with_pattern (r : PermissionRequest) (pattern : string) : PermissionRequest :=
  with_patterns r (pr_patterns r ++ [pattern]).

Definition with_scope_key (r : PermissionRequest) (scope_key : string) : PermissionRequest := {|
  pr_permission := pr_permission r; pr_patterns := pr_patterns r; pr_always := pr_always r;
  pr_permission_class := pr_permission_class r; pr_scope_key := Some scope_key;
  pr_matcher_kind := match pr_matcher_kind r with None => Some Matcher.ScopeOnly | k => k end;
  pr_matcher_key := match pr_matcher_kind r with None => Some scope_key | _ => pr_matcher_key r end;
  pr_origin_tool := pr_origin_tool r; pr_risk_tags := pr_risk_tags r;
  pr_supported_lifetimes := pr_supported_lifetimes r |}.

Definition always_allow (r : PermissionRequest) : PermissionRequest := {|
  pr_permission := pr_permission r; pr_patterns := pr_patterns r; pr_always := pr_always r ++ ["*"];
  pr_permission_class := pr_permission_class r; pr_scope_key := pr_scope_key r;
  pr_matcher_kind := pr_matcher_kind r; pr_matcher_key := pr_matcher_key r;
  pr_origin_tool := pr_origin_tool r; pr_risk_tags := pr_risk_tags r;
  pr_supported_lifetimes := pr_supported_lifetimes r |}.

(** ** Errors and results *)

Module Cause.
Inductive Cause :=
| Text (message : string)
| PathFailure (e : PathError)
| IoFailure (what : string) (e : IoError).
End Cause.

Module TErr.
Inductive ToolError :=
| ExecutionError (cause : Cause.Cause)
| PermissionDenied (message : string)
| InvalidArguments (message : string)
| Cancelled.
End TErr.
Abbreviation ToolError := TErr.ToolError.

Definition execution_error (message : string) : ToolError := TErr.ExecutionError (Cause.Text message).

Record ToolOutput := { to_title : string; to_output : string }.

(** ** The world a tool runs in *)

Module Act.
Inductive Act :=
| Asked (request : PermissionRequest) (granted : bool)
| CreatedDirs (p : Path) (before : FS)
| Checked (p : Path) (fs : FS)
| Wrote (p : Path) (content : string) (before : FS)
| Removed (p : Path) (before : FS).
End Act.
Abbreviation Act := Act.Act.

Section world.
Context {W : Type}.

(** A callback of the session, and what happens to the files while it runs. *)
Definition Callback (A : Type) : Type := A → W * FS → result ToolError unit * (W * FS).

Record World := {
  w_ask : option (Callback PermissionRequest);
  w_file_time_assert : option (Callback string);
  w_file_time_read : option (Callback string);
  w_publish_bus : option (string * string → W * FS → W * FS);
  w_lsp_touch_file : option (Callback string);
  w_diagnostics : list Path → W * FS → string * (W * FS);
  w_others : W * FS → W * FS;
}.

Record TS := { ts_env : W * FS; ts_trace : list Act }.
Definition ts_fs (s : TS) : FS := (ts_env s).2.

Definition T (A : Type) : Type := stm TS ToolError A.

Definition set_fs (s : TS) (fs : FS) (act : Act) : TS :=
  {| ts_env := ((ts_env s).1, fs); ts_trace := ts_trace s ++ [act] |}.
End world.
Arguments World : clear implicits.
Arguments TS : clear implicits.
Arguments T : clear implicits.

Section tools.
Context {W : Type} (world : World W).

(** Other processes run. *)
Definition yield : T W unit := λ s, (Ok tt, {| ts_env := w_others world (ts_env s); ts_trace := ts_trace s |}).

(** A synchronous look at the files. *)
Definition look {A} (f : FS → A) : T W A := λ s, (Ok (f (ts_fs s)), s).

Definition resolve (f : FS → result PathError AuthorizedFilePath) : T W AuthorizedFilePath :=
  λ s, (map_error (λ e, TErr.ExecutionError (Cause.PathFailure e)) (f (ts_fs s)), s).

(** An awaited read of the file system. *)
Definition fs_read {A} (what : string) (f : FS → result IoError A) : T W A :=
  do! _ := yield in
  λ s, (map_error (λ e, TErr.ExecutionError (Cause.IoFailure what e)) (f (ts_fs s)), s).

Definition call {A} (cb : option (Callback A)) (a : A) : T W unit :=
  λ s, match cb with
       | Some f => let '(r, env) := f a (ts_env s) in (r, {| ts_env := env; ts_trace := ts_trace s |})
       | None => (Ok tt, s)
       end.

(** [ToolContext::ask_permission]: granted when no callback is set. *)
Definition ask_permission (request : PermissionRequest) : T W unit :=
  λ s, let '(r, s') := call (w_ask world) request s in
       (r, {| ts_env := ts_env s'; ts_trace := ts_trace s' ++ [Act.Asked request (is_ok r)] |}).

Definition publish (event file : string) : T W unit :=
  λ s, (Ok tt, match w_publish_bus world with
               | Some f => {| ts_env := f (event, file) (ts_env s); ts_trace := ts_trace s |}
               | None => s
               end).

(** The diagnostics a language server has for some files. *)
Definition diagnostics (targets : list Path) : T W string :=
  λ s, let '(text, env) := w_diagnostics world targets (ts_env s) in
       (Ok text, {| ts_env := env; ts_trace := ts_trace s |}).

(** [tokio::fs::create_dir_all] *)
Definition make_dirs (p : Path) : T W unit :=
  do! _ := yield in
  λ s, let '(r, fs) := create_dir_all (ts_fs s) p in
       (map_error (λ e, TErr.ExecutionError (Cause.IoFailure "Failed to create directory: " e)) r,
        set_fs s fs (Act.CreatedDirs p (ts_fs s))).

(** [tokio::fs::write]: awaited, and run on another thread. *)
Definition write_awaited (p : Path) (content : string) : T W unit :=
  do! _ := yield in
  λ s, match write_file (ts_fs s) p content with
       | Ok fs => (Ok tt, set_fs s fs (Act.Wrote p content (ts_fs s)))
       | Err e => (Err (TErr.ExecutionError (Cause.IoFailure "Failed to write file: " e)), s)
       end.

(** [tokio::fs::remove_file] *)
Definition remove_awaited (what : string) (p : Path) : T W unit :=
  do! _ := yield in
  λ s, match remove_file (ts_fs s) p with
       | Ok fs => (Ok tt, set_fs s fs (Act.Removed p (ts_fs s)))
       | Err e => (Err (TErr.ExecutionError (Cause.IoFailure what e)), s)
       end.

(** A check that passed, for the trace. *)
Definition note_checked (p : Path) : T W unit :=
  λ s, (Ok tt, set_fs s (ts_fs s) (Act.Checked p (ts_fs s))).

(** The checks that a path is still the authorized one. *)
Definition revalidate (f : FS → result PathError AuthorizedFilePath) (a : AuthorizedFilePath)
    (message : string) : T W unit :=
  do! revalidated := resolve f in
  if bool_decide (revalidated = a) then note_checked (operation_path a)
  else st_err (execution_error message).

(** [authorize_external_file_path] *)
Definition external_request (a : AuthorizedFilePath) : PermissionRequest :=
  let parent := path_text (external_parent a) in
  with_scope_key (with_pattern (request_new "external_directory") (parent +:+ "/*"))
    (external_fs_scope_key parent).

Definition authorize_external_file_path (a : AuthorizedFilePath) : T W unit :=
  if negb (is_external a) then st_ret tt else ask_permission (external_request a).

(** ** The write tool *)

Record WriteInput := { wi_file_path : string; wi_content : string }.

(** [create_diff] of write.rs and edit/tool.rs: line against line, no search. *)
Fixpoint create_diff_lines (old_lines new_lines : list string) : string :=
  match old_lines with
  | [] => str_concat ((λ n, "+" +:+ n +:+ nl) <$> new_lines)
  | o :: old' =>
      match new_lines with
      | [] => "-" +:+ o +:+ nl +:+ create_diff_lines old' []
      | n :: new' =>
          (if bool_decide (o = n) then "" else "-" +:+ o +:+ nl +:+ "+" +:+ n +:+ nl)
          +:+ create_diff_lines old' new'
      end
  end.

Definition create_diff (filepath old_content new_content : string) : string :=
  "--- " +:+ filepath +:+ nl +:+ "+++ " +:+ filepath +:+ nl
  +:+ create_diff_lines (lines old_content) (lines new_content).

Definition base_dir (tool_directory : string) (ctx : ToolContext) : Path :=
  components (if bool_decide (ctx_directory ctx = "") then tool_directory else ctx_directory ctx).

(** Whether the target is there: a missing one is no error. *)
Definition inspect (p : Path) : T W bool :=
  do! _ := yield in
  λ s, match metadata (ts_fs s) p with
       | Ok _ => (Ok true, s)
       | Err NotFound => (Ok false, s)
       | Err e => (Err (TErr.ExecutionError (Cause.IoFailure "Failed to inspect existing file: " e)), s)
       end.

Definition edit_request (a : AuthorizedFilePath) : PermissionRequest :=
  always_allow (with_scope_key (with_pattern (request_new "edit") (display_path a)) (permission_scope_key a)).

Definition title_of (ctx : ToolContext) (p : Path) : string :=
  path_text (default p (path_strip_prefix p (components (ctx_worktree ctx)))).

Definition written_text (content : string) (p : Path) : string :=
  "Successfully wrote " +:+ dec_string (N.of_nat (String.length content)) +:+ " bytes ("
  +:+ dec_string (N.of_nat (length (lines content))) +:+ " lines) to " +:+ path_text p.

(** [WriteTool::execute]; [args] is what the JSON decodes to. *)
Definition write_execute (tool_directory : string) (ctx : ToolContext)
    (args : result string WriteInput) : T W ToolOutput :=
  do! input := st_lift (map_error TErr.InvalidArguments args) in
  let file_path := trim (wi_file_path input) in
  let content := wi_content input in
  do! resolved := look (λ fs, resolve_user_path fs file_path (base_dir tool_directory ctx)
                                 PreferSessionDirWhenMissing) in
  do! authorized_path := resolve (λ fs, ctx_resolve_create ctx fs resolved.1) in
  do! _ := authorize_external_file_path authorized_path in
  let path := operation_path authorized_path in
  let path_str := display_path authorized_path in
  do! exists_ := inspect path in
  do! old_content := (if exists_ : bool
                       then fs_read "Failed to read existing file: " (λ fs, read_to_string fs path)
                       else st_ret "") in
  do! _ := (if exists_ : bool then call (w_file_time_assert world) path_str else st_ret tt) in
  do! _ := ask_permission (edit_request authorized_path) in
  do! _ := (match parent path with Some p => make_dirs p | None => st_ret tt end) in
  do! _ := revalidate (λ fs, ctx_resolve_create ctx fs path) authorized_path
              ("write target changed after authorization: " +:+ path_text path) in
  do! _ := write_awaited path content in
  do! _ := publish "file.edited" path_str in
  do! _ := publish "file_watcher.updated" path_str in
  do! _ := call (w_lsp_touch_file world) path_str in
  do! _ := call (w_file_time_read world) path_str in
  do! diagnostics_output := diagnostics [path] in
  st_ret {| to_title := title_of ctx path;
          to_output := written_text content path +:+
            (if bool_decide (diagnostics_output = "") then "" else nl +:+ nl +:+ diagnostics_output) |}.

(** ** The patch tool *)

Record FileChange := {
  fc_relative_path : string;
  fc_source_path : Path;
  fc_source_authority : AuthorizedFilePath;
  fc_move_target_path : option Path;
  fc_move_target_authority : option AuthorizedFilePath;
  fc_operation : PatchOp.PatchOperation;
  fc_old_content : string;
  fc_new_content : string;
  fc_diff : string;
}.

Definition added_line (l : PatchLine) : option string :=
  match l with PLine.Add s => Some s | _ => None end.

(** [process_file_patch]; LineDiffSpec.v shows that there always is a diff. *)
Definition process_file_patch (file_path : Path) (file_patch : FilePatch)
    (source_authority : AuthorizedFilePath) (move_target_authority : option AuthorizedFilePath)
    : T W FileChange :=
  let relative_path := fp_path file_patch in
  let patch_lines := fp_hunks file_patch ≫= h_lines in
  let change operation old_content new_content diff := {|
    fc_relative_path := relative_path; fc_source_path := file_path;
    fc_source_authority := source_authority;
    fc_move_target_path := operation_path <$> move_target_authority;
    fc_move_target_authority := move_target_authority; fc_operation := operation;
    fc_old_content := old_content; fc_new_content := new_content; fc_diff := diff |} in
  match fp_operation file_patch with
  | PatchOp.Add =>
      let new_content := str_join nl (omap added_line patch_lines) in
      let diff := "--- /dev/null" +:+ nl +:+ "+++ b/" +:+ relative_path +:+ nl +:+
        str_join nl ((λ l, match added_line l with Some s => "+" +:+ s | None => "" end) <$> patch_lines) in
      st_ret (change PatchOp.Add "" (new_content +:+ nl) diff)
  | PatchOp.Update | PatchOp.Move _ =>
      do! old_content := fs_read "Failed to read file: " (λ fs, read_to_string fs file_path) in
      let new_content := apply_hunks old_content (fp_hunks file_patch) in
      st_ret (change (fp_operation file_patch) old_content new_content
              (default "" (generate_diff relative_path old_content new_content)))
  | PatchOp.Delete =>
      do! old_content := fs_read "Failed to read file: " (λ fs, read_to_string fs file_path) in
      let diff := "--- a/" +:+ relative_path +:+ nl +:+ "+++ /dev/null" +:+ nl +:+
        str_join nl ((λ l, "-" +:+ l) <$> lines old_content) in
      st_ret (change PatchOp.Delete old_content "" diff)
  end.

(** One file patch of the first loop of [execute]: authorized, then read. *)
Definition prepare_change (ctx : ToolContext) (file_patch : FilePatch) : T W FileChange :=
  let base_path := components (ctx_directory ctx) in
  let requested_source := join base_path (components (fp_path file_patch)) in
  do! source_authority :=
    resolve (match fp_operation file_patch with
             | PatchOp.Add => λ fs, ctx_resolve_create ctx fs requested_source
             | _ => λ fs, ctx_resolve_existing ctx fs requested_source
             end) in
  do! _ := authorize_external_file_path source_authority in
  do! move_target_authority :=
    (match fp_operation file_patch with
     | PatchOp.Move move_path =>
         let requested_target := join base_path (components move_path) in
         do! target := resolve (λ fs, ctx_resolve_create ctx fs requested_target) in
         do! _ := authorize_external_file_path target in
         st_ret (Some target)
     | _ => st_ret None
     end) in
  process_file_patch (operation_path source_authority) file_patch source_authority move_target_authority.

Definition make_parent (p : Path) : T W unit :=
  match parent p with Some d => make_dirs d | None => st_ret tt end.

(** What a change leaves for the notifications and the summary. *)
Record Applied := {
  ap_updates : list (string * string);
  ap_summary : string;
  ap_edited : list string;
}.

(** One change of the second loop of [execute]. *)
Definition apply_change (ctx : ToolContext) (change : FileChange) : T W Applied :=
  let file_path := fc_source_path change in
  match fc_operation change with
  | PatchOp.Add =>
      do! _ := make_parent file_path in
      do! _ := revalidate (λ fs, ctx_resolve_create ctx fs file_path) (fc_source_authority change)
                  ("patch add target changed after authorization: " +:+ path_text file_path) in
      do! _ := write_awaited file_path (fc_new_content change) in
      st_ret {| ap_updates := [(fc_relative_path change, "add")];
              ap_summary := "A " +:+ fc_relative_path change; ap_edited := [fc_relative_path change] |}
  | PatchOp.Update =>
      do! _ := revalidate (λ fs, ctx_resolve_existing ctx fs file_path) (fc_source_authority change)
                  ("patch update target changed after authorization: " +:+ path_text file_path) in
      do! _ := write_awaited file_path (fc_new_content change) in
      st_ret {| ap_updates := [(fc_relative_path change, "change")];
              ap_summary := "M " +:+ fc_relative_path change; ap_edited := [fc_relative_path change] |}
  | PatchOp.Delete =>
      do! _ := revalidate (λ fs, ctx_resolve_existing ctx fs file_path) (fc_source_authority change)
                  ("patch delete target changed after authorization: " +:+ path_text file_path) in
      do! _ := remove_awaited "Failed to delete file: " file_path in
      st_ret {| ap_updates := [(fc_relative_path change, "unlink")];
              ap_summary := "D " +:+ fc_relative_path change; ap_edited := [] |}
  | PatchOp.Move move_path =>
      let missing := execution_error ("missing authorized move target for " +:+ move_path) in
      match fc_move_target_path change, fc_move_target_authority change with
      | Some move_full_path, Some move_authority =>
          do! _ := make_parent move_full_path in
          let message := "patch move target changed after authorization: " +:+ path_text file_path
                         +:+ " -> " +:+ path_text move_full_path in
          do! revalidated_source := resolve (λ fs, ctx_resolve_existing ctx fs file_path) in
          do! revalidated_target := resolve (λ fs, ctx_resolve_create ctx fs move_full_path) in
          do! _ := (if bool_decide (revalidated_source = fc_source_authority change)
                        && bool_decide (revalidated_target = move_authority)
                     then st_ret tt else st_err (execution_error message)) in
          do! _ := note_checked file_path in
          do! _ := note_checked move_full_path in
          do! _ := write_awaited move_full_path (fc_new_content change) in
          do! _ := remove_awaited "Failed to remove old file: " file_path in
          st_ret {| ap_updates := [(fc_relative_path change, "unlink"); (move_path, "add")];
                  ap_summary := "M " +:+ move_path; ap_edited := [move_path] |}
      | _, _ => st_err missing
      end
  end.

Definition batch_request (relative_paths : list string) : PermissionRequest :=
  always_allow (with_scope_key (with_patterns (request_new "edit") relative_paths)
                  ("workspace:batch:" +:+ str_join "," relative_paths)).

(** [ApplyPatchTool::execute] *)
Definition patch_execute (syntax : PatchSyntax) (ctx : ToolContext) (args : result string string)
    : T W ToolOutput :=
  do! patch_text := st_lift (map_error TErr.InvalidArguments args) in
  if bool_decide (trim patch_text = "") then st_err (TErr.InvalidArguments "patchText is required") else
  let file_patches := parse_multi_file_patch syntax patch_text in
  if bool_decide (file_patches = []) then st_err (execution_error "No valid hunks found in patch") else
  do! file_changes := st_map (prepare_change ctx) file_patches in
  do! _ := ask_permission (batch_request (fc_relative_path <$> file_changes)) in
  do! applied := st_map (apply_change ctx) file_changes in
  do! _ := st_map (publish "file.edited") (applied ≫= ap_edited) in
  do! _ := st_map (λ u : string * string, publish "file_watcher.updated" u.1) (applied ≫= ap_updates) in
  do! _ := st_map (call (w_lsp_touch_file world)) (applied ≫= ap_edited) in
  do! diagnostics_output :=
    diagnostics ((λ t, join (components (ctx_directory ctx)) (components t)) <$> (applied ≫= ap_edited)) in
  let output := "Success. Updated the following files:" +:+ nl +:+ str_join nl (ap_summary <$> applied) +:+
    (if bool_decide (diagnostics_output = "") then "" else nl +:+ nl +:+ diagnostics_output) in
  st_ret {| to_title := output; to_output := output |}.
End tools.
