(* ===== verification/FileToolsProps.v ===== *)
(** * Properties of the file tools

    Consent: whatever other processes do while a tool waits, it writes and removes
    only paths it was allowed to, each checked right before the awaited call; and if
    nothing moves the files during that call, at the location it was allowed to and
    not through a link. *)

From S2P Require Import Prelude StateMonad Permission PermissionEngine TextLines LineDiff ApplyPatch FileSystem FilePaths FilePathsSpec FileTools.

(** ** What an act needs *)

Definition within_project (ctx : ToolContext) (fs : FS) (k : Loc) : Prop :=
  ∃ r, canonicalize fs (components (ctx_project_root ctx)) = Ok (path_of r) ∧ r `prefix_of` k.

(** A granted request for the directory of a path outside the project. *)
Definition external_consent (acts : list Act) (p : Path) : Prop :=
  ∃ a, operation_path a = p ∧ Act.Asked (external_request a) true ∈ acts.

Definition edit_consent (names : PermissionRequest → Path → Prop) (acts : list Act) (p : Path) : Prop :=
  ∃ request, Act.Asked request true ∈ acts ∧ pr_permission request = "edit" ∧ names request p.

(** What a tool does to [p], if nobody moves the files between the check and the call: at the
    location [p] spells out, inside the project or with the consent for its directory, and with the
    consent to edit. *)
Definition act_exact (ctx : ToolContext) (names : PermissionRequest → Path → Prop) (acts : list Act)
    (act : Act) : Prop :=
  match act with
  | Act.Asked _ _ | Act.CreatedDirs _ _ | Act.Checked _ _ => True
  | Act.Wrote p _ before =>
      ∃ k, p = path_of k ∧ lookup_path before true p = Ok k ∧
        (within_project ctx before k ∨ external_consent acts p) ∧ edit_consent names acts p
  | Act.Removed p before =>
      ∃ k, p = path_of k ∧ present before k ∧ lookup_entry before p = Ok (Some k) ∧
        (within_project ctx before k ∨ external_consent acts p) ∧ edit_consent names acts p
  end.

(** One wait of the tool, in which only other processes run. *)
Definition waited {W} (world : World W) (fs fs' : FS) : Prop := ∃ w, fs' = (w_others world (w, fs)).2.

(** The tool checked [p] on the files [checked] and has since waited once; or, in a move, it checked
    the target as well, waited, wrote it and waited again. *)
Inductive since_check {W} (world : World W) (p : Path) (checked : FS) : list Act → FS → Prop :=
| since_now acts before : waited world checked before →
    since_check world p checked (acts ++ [Act.Checked p checked]) before
| since_move acts q content written fs before : waited world checked written →
    write_file written q content = Ok fs → waited world fs before →
    since_check world p checked
      (acts ++ [Act.Checked p checked; Act.Checked q checked; Act.Wrote q content written]) before.

(** What a tool does to [p] whatever happens: with the consent to edit, and right after a check on
    files where [p] spelled out its own location, inside the project or with the consent for its
    directory. *)
Definition act_ok {W} (world : World W) (ctx : ToolContext) (names : PermissionRequest → Path → Prop)
    (acts : list Act) (act : Act) : Prop :=
  match act with
  | Act.Asked _ _ | Act.CreatedDirs _ _ | Act.Checked _ _ => True
  | Act.Wrote p _ before =>
      edit_consent names acts p ∧ is_ok (lookup_path before true p) = true ∧
      ∃ earlier checked, fs_wf checked ∧ acts = earlier ++ [Act.Checked p checked] ∧
        waited world checked before ∧
        ∀ k, lookup_path checked true p = Ok k →
          p = path_of k ∧ (within_project ctx checked k ∨ external_consent acts p)
  | Act.Removed p before =>
      edit_consent names acts p ∧ (∃ k, lookup_entry before p = Ok (Some k)) ∧
      ∃ checked, fs_wf checked ∧ since_check world p checked acts before ∧
        ∃ k, p = path_of k ∧ present checked k ∧
          (within_project ctx checked k ∨ external_consent acts p)
  end.

Definition trace_of (good : list Act → Act → Prop) (acts : list Act) : Prop :=
  ∀ earlier act later, acts = earlier ++ act :: later → good earlier act.

Definition trace_ok {W} (world : World W) ctx names (acts : list Act) : Prop :=
  trace_of (act_ok world ctx names) acts.

Lemma trace_of_snoc good acts act : trace_of good acts → good acts act → trace_of good (acts ++ [act]).
Proof.
  intros Ht Ha earlier b later Heq. destruct later as [|c later _] using rev_ind.
  - by apply app_inj_tail in Heq as [<- <-].
  - rewrite app_comm_cons, app_assoc in Heq. apply app_inj_tail in Heq as [Heq _]. by eapply Ht.
Qed.

(** Other processes keep the file system a tree. *)
Definition callback_ok {W A} (cb : option (Callback A (W := W))) : Prop :=
  ∀ f a env, cb = Some f → fs_wf env.2 → fs_wf (f a env).2.2.

Record world_ok {W} (world : World W) : Prop := {
  wo_ask : callback_ok (w_ask world);
  wo_file_time_assert : callback_ok (w_file_time_assert world);
  wo_file_time_read : callback_ok (w_file_time_read world);
  wo_publish : ∀ f a env, w_publish_bus world = Some f → fs_wf env.2 → fs_wf (f a env).2;
  wo_lsp_touch : callback_ok (w_lsp_touch_file world);
  wo_diagnostics : ∀ p env, fs_wf env.2 → fs_wf (w_diagnostics world p env).2.2;
  wo_others : ∀ env, fs_wf env.2 → fs_wf (w_others world env).2;
}.

Section consent.
Context {W : Type} (world : World W) (Hworld : world_ok world).
Context (ctx : ToolContext) (names : PermissionRequest → Path → Prop).

(** What a tool knows of its past, which stays true as it goes on. *)
Definition lasting (P : list Act → Prop) : Prop := ∀ acts act, P acts → P (acts ++ [act]).

Definition inv (P : list Act → Prop) (s : TS W) : Prop :=
  fs_wf (ts_fs s) ∧ trace_ok world ctx names (ts_trace s) ∧ P (ts_trace s).

Abbreviation safe := (inv (λ _, True)).

(** [m] upholds the invariant and all that is known. *)
Definition upholds {A} (m : T W A) : Prop :=
  ∀ P, lasting P → hoare (inv P) m (λ _, inv P) (λ _, safe).

Lemma inv_safe P s : inv P s → safe s.
Proof. by intros (? & ? & _). Qed.

Lemma upholds_bind {A B} (m : T W A) (k : A → T W B) : upholds m → (∀ a, upholds (k a)) → upholds (st_bind m k).
Proof. intros Hm Hk P HP. eapply hoare_bind; [by apply Hm|]. intros a. by apply Hk. Qed.

Lemma upholds_ret {A} (a : A) : upholds (st_ret a).
Proof. intros P HP. by intros s. Qed.

Lemma upholds_err {A} e : upholds (st_err (A := A) e).
Proof. intros P HP s Hs. by eapply inv_safe. Qed.

Lemma upholds_lift {A} (r : result ToolError A) : upholds (st_lift r).
Proof. intros P HP s Hs. unfold st_lift. destruct r; [done|by eapply inv_safe]. Qed.

Lemma upholds_yield : upholds (yield world).
Proof. intros P HP s (Hwf & Ht & Hp). split; [by apply (wo_others _ Hworld)|done]. Qed.

Lemma upholds_look {A} (f : FS → A) : upholds (look f).
Proof. by intros P HP s Hs. Qed.

Lemma upholds_resolve f : upholds (resolve f).
Proof. intros P HP s Hs. unfold resolve. destruct (f (ts_fs s)); simpl; [done|by eapply inv_safe]. Qed.

Lemma upholds_fs_read {A} what (f : FS → result IoError A) : upholds (fs_read world what f).
Proof.
  apply upholds_bind; [apply upholds_yield|]. intros _ P HP s Hs.
  destruct (f (ts_fs s)); simpl; [done|by eapply inv_safe].
Qed.

Lemma upholds_inspect p : upholds (inspect world p).
Proof.
  apply upholds_bind; [apply upholds_yield|]. intros _ P HP s Hs.
  destruct (metadata (ts_fs s) p) as [|[]]; try done; by eapply inv_safe.
Qed.

Lemma upholds_call {A} (cb : option (Callback A)) a : callback_ok cb → upholds (call cb a).
Proof.
  intros Hcb P HP s (Hwf & Ht & Hp). unfold call. destruct cb as [f|]; [|done].
  specialize (Hcb f a (ts_env s) eq_refl Hwf). destruct (f a (ts_env s)) as [[u|e] env]; by split.
Qed.

Lemma upholds_publish event file : upholds (publish world event file).
Proof.
  intros P HP s (Hwf & Ht & Hp). unfold publish. simpl. destruct (w_publish_bus world) as [f|] eqn:E; [|done].
  split; [|done]. by apply (wo_publish _ Hworld f).
Qed.

Lemma upholds_diagnostics targets : upholds (diagnostics world targets).
Proof.
  intros P HP s (Hwf & Ht & Hp). unfold diagnostics.
  pose proof (wo_diagnostics _ Hworld targets (ts_env s) Hwf) as H.
  by destruct (w_diagnostics world targets (ts_env s)) as [text env].
Qed.

(** A granted request is known from then on. *)
Lemma ask_permission_known P request : lasting P →
  hoare (inv P) (ask_permission world request)
    (λ _, inv (λ acts, P acts ∧ Act.Asked request true ∈ acts)) (λ _, safe).
Proof.
  intros HP s Hs. unfold ask_permission.
  pose proof (upholds_call (w_ask world) request (wo_ask _ Hworld) P HP s Hs) as H.
  destruct (call (w_ask world) request s) as [[u|e] s']; destruct H as (Hwf & Ht & Hp);
    (split; [done|split; [by apply trace_of_snoc|]]); [|done].
  split; [by apply HP|]. apply elem_of_app. right. apply list_elem_of_here.
Qed.

Lemma lasting_and P Q : lasting P → lasting Q → lasting (λ acts, P acts ∧ Q acts).
Proof. intros HP HQ acts act [? ?]. split; [by apply HP|by apply HQ]. Qed.

Lemma lasting_elem act : lasting (λ acts, act ∈ acts).
Proof. intros acts a H. apply elem_of_app. by left. Qed.

Lemma lasting_impl (b : Prop) P : lasting P → lasting (λ acts, b → P acts).
Proof. intros HP acts act H Hb. by apply HP, H. Qed.

Lemma lasting_true : lasting (λ _, True).
Proof. done. Qed.

Lemma upholds_map {A B} (f : A → T W B) xs : (∀ x, upholds (f x)) → upholds (st_map f xs).
Proof.
  intros Hf. induction xs as [|x xs IH]; [apply upholds_ret|]. apply upholds_bind; [done|]. intros y.
  apply upholds_bind; [done|]. intros ys. apply upholds_ret.
Qed.

(** The consent an authorized path needs outside the project. *)
Definition allowed (a : AuthorizedFilePath) (acts : list Act) : Prop :=
  is_external a = true → Act.Asked (external_request a) true ∈ acts.

Lemma lasting_allowed a : lasting (allowed a).
Proof. apply lasting_impl, lasting_elem. Qed.

Lemma authorize_allowed P a : lasting P →
  hoare (inv P) (authorize_external_file_path world a) (λ _, inv (λ acts, P acts ∧ allowed a acts)) (λ _, safe).
Proof.
  intros HP. unfold authorize_external_file_path. destruct (is_external a) eqn:E; simpl.
  - eapply hoare_weaken; [..|apply (ask_permission_known P (external_request a) HP)]; try done.
    intros u s (? & ? & ? & ?). split; [done|]. split; [done|]. split; [done|by intros _].
  - intros s (? & ? & HPs). do 3 (split; [done|]). intros ?. congruence.
Qed.

Lemma upholds_make_dirs p : upholds (make_dirs world p).
Proof.
  apply upholds_bind; [apply upholds_yield|]. intros _ P HP s (Hwf & Ht & Hp).
  pose proof (create_dirs_grows (ts_fs s) (reverse p) Hwf) as [H _]. unfold create_dir_all.
  destruct (create_dirs (ts_fs s) (reverse p)) as [[u|e] fs']; simpl;
    (split; [done|split; [by apply trace_of_snoc|]]); first [done|by apply HP].
Qed.

(** ** Acting on a revalidated path *)

(** A path that is still what was authorized: canonical, and inside the project unless external. *)
Definition ready (a : AuthorizedFilePath) (fs : FS) : Prop :=
  ∃ k, operation_path a = path_of k ∧ present fs k ∧ (is_external a = false → within_project ctx fs k).

Definition creatable (a : AuthorizedFilePath) (fs : FS) : Prop :=
  ∀ k, lookup_path fs true (operation_path a) = Ok k →
    operation_path a = path_of k ∧ (is_external a = false → within_project ctx fs k).

Lemma classified_within fs k r : canonicalize fs (components (ctx_project_root ctx)) = Ok (path_of r) →
  is_external (classify (path_of k) (path_of r)) = false → within_project ctx fs k.
Proof.
  intros Hr Hext. exists r. split; [done|]. rewrite classify_external in Hext.
  by apply negb_false_iff, bool_decide_eq_true in Hext.
Qed.

Lemma absolute_path k : resolve_path_against_directory ctx (path_of k) = path_of k.
Proof. done. Qed.

Lemma existing_ready fs p a : fs_wf fs → ctx_resolve_existing ctx fs p = Ok a → ready a fs.
Proof.
  intros Hwf (k & r & Hr & Hk & ->)%resolve_existing_file_path_Ok. exists k.
  split_and!; [done|by eapply lookup_path_present|by apply classified_within].
Qed.

Lemma ready_creatable fs a : fs_wf fs → ready a fs → creatable a fs.
Proof.
  intros Hwf (k & Hop & Hp & Hin) k' Hk'. rewrite Hop in *.
  rewrite (lookup_path_of _ Hwf) in Hk' by done. by injection Hk' as <-.
Qed.

Lemma create_creatable fs p a : fs_wf fs → p = operation_path a → ctx_resolve_create ctx fs p = Ok a →
  creatable a fs.
Proof.
  intros Hwf -> Ha k Hk. unfold ctx_resolve_create in Ha.
  assert (Ha' := Ha). apply (resolve_create_file_path_Ok fs Hwf) in Ha' as (k0 & r & Hr & Heq & _).
  assert (Hop : operation_path a = path_of k0) by by rewrite Heq.
  assert (resolve_path_against_directory ctx (operation_path a) = operation_path a) as Habs by by rewrite Hop.
  rewrite Habs in Ha. pose proof (revalidated_create_lookup fs Hwf _ _ _ Ha Hk) as Hk0.
  split; [done|]. rewrite Hop in Hk0. apply (inj path_of) in Hk0 as <-. rewrite Heq.
  by apply classified_within.
Qed.

Lemma ready_grows fs fs' a : grows fs fs' → ready a fs → ready a fs'.
Proof.
  intros Hg (k & Hop & Hp & Hin). exists k. split_and!; [done|by eapply grows_present|].
  intros He. destruct (Hin He) as (r & (r' & Hr & Heq)%canonicalize_Ok & Hpre). exists r.
  split; [|done]. apply canonicalize_Ok. exists r'. split; [by eapply grows_lookup|done].
Qed.

Definition granted_for (a : AuthorizedFilePath) (acts : list Act) : Prop :=
  allowed a acts ∧ edit_consent names acts (operation_path a).

Lemma granted_place (fs : FS) a k acts : operation_path a = path_of k → allowed a acts →
  (is_external a = false → within_project ctx fs k) →
  within_project ctx fs k ∨ external_consent acts (operation_path a).
Proof.
  intros Hop Hall Hin. destruct (is_external a) eqn:E; [right|left; by apply Hin].
  exists a. split; [done|by apply Hall].
Qed.

Lemma others_wf fs w : fs_wf fs → fs_wf (w_others world (w, fs)).2.
Proof. by apply (wo_others _ Hworld (w, fs)). Qed.

(** Writing right after the check, which leaves the trace and the files of the write. *)
Lemma write_awaited_ok P a content earlier fs : lasting P → (∀ acts, P acts → granted_for a acts) →
  let p := operation_path a in
  hoare (λ s, inv P s ∧ ts_trace s = earlier ++ [Act.Checked p fs] ∧ ts_fs s = fs ∧ creatable a fs)
    (write_awaited world p content)
    (λ _ s, inv P s ∧ ∃ written, ts_trace s = earlier ++ [Act.Checked p fs; Act.Wrote p content written] ∧
       waited world fs written ∧ write_file written p content = Ok (ts_fs s)) (λ _, safe).
Proof.
  intros HP Hgr p s ((Hwf & Ht & Hp) & Htr & <- & Hc). destruct s as [[w fs] tr]. unfold ts_fs in *. simpl in *.
  subst tr. pose proof (others_wf fs w Hwf) as Hwf1. unfold write_awaited, st_bind, yield, ts_fs. simpl.
  destruct (write_file _ p content) as [fs'|e] eqn:E; simpl; [|done].
  destruct (write_file_Ok _ _ _ _ Hwf1 E) as (k & Hk & _ & Hwf' & _). destruct (Hgr _ Hp) as [Hall Hed].
  assert (waited world fs (w_others world (w, fs)).2) as Hw by by exists w.
  split; [split; [done|split; [|by apply HP]]|].
  - apply trace_of_snoc; [done|]. split; [done|]. fold p in Hk. rewrite Hk. split; [done|].
    exists earlier, fs. split_and!; [done..|]. intros k' Hk'. destruct (Hc _ Hk') as [Hop Hin].
    split; [done|by eapply granted_place].
  - eexists. split; [|done]. simpl. by rewrite <- app_assoc.
Qed.

(** Removing a path whose check is that recent. *)
Lemma remove_awaited_ok P what a checked : lasting P → (∀ acts, P acts → granted_for a acts) →
  fs_wf checked → ready a checked →
  hoare (λ s, inv P s ∧ ∀ fs, waited world (ts_fs s) fs →
           since_check world (operation_path a) checked (ts_trace s) fs)
    (remove_awaited world what (operation_path a)) (λ _, inv P) (λ _, safe).
Proof.
  intros HP Hgr Hwfc (k & Hop & Hpres & Hin) s ((Hwf & Ht & Hp) & Hsince).
  destruct s as [[w fs] tr]. unfold ts_fs in *. simpl in *.
  pose proof (others_wf fs w Hwf) as Hwf1. unfold remove_awaited, st_bind, yield, ts_fs. simpl.
  destruct (remove_file _ (operation_path a)) as [fs'|e] eqn:E; simpl; [|done].
  destruct (remove_file_Ok _ _ _ Hwf1 E) as (k' & Hk' & _ & Hwf'). destruct (Hgr _ Hp) as [Hall Hed].
  split; [done|]. split; [|by apply HP]. apply trace_of_snoc; [done|]. split; [done|].
  split; [by exists k'|]. exists checked. split; [done|]. split; [apply Hsince; by exists w|].
  exists k. split_and!; [done|done|by eapply granted_place].
Qed.

(** A revalidation that passes says what the files are like now, and is noted. *)
Lemma revalidate_ok P f a message : lasting P →
  hoare (inv P) (revalidate f a message)
    (λ _ s, ∃ earlier fs, inv P s ∧ ts_trace s = earlier ++ [Act.Checked (operation_path a) fs] ∧
       ts_fs s = fs ∧ fs_wf fs ∧ f fs = Ok a) (λ _, safe).
Proof.
  intros HP s Hs. unfold revalidate, st_bind, resolve. destruct (f (ts_fs s)) as [b|e] eqn:E; simpl.
  - case_bool_decide as Heq; simpl; [subst b|by eapply inv_safe].
    exists (ts_trace s), (ts_fs s). destruct Hs as (? & ? & ?).
    split; [|by split_and!]. split; [done|]. split; [by apply trace_of_snoc|by apply HP].
  - by eapply inv_safe.
Qed.

(** ** The tools *)

Lemma lasting_edit_consent p : lasting (λ acts, edit_consent names acts p).
Proof. intros acts act (request & H & ?). exists request. split; [|done]. apply elem_of_app. by left. Qed.

Lemma lasting_granted a : lasting (granted_for a).
Proof. apply lasting_and; [apply lasting_allowed|apply lasting_edit_consent]. Qed.

Hint Resolve lasting_and lasting_allowed lasting_true lasting_elem lasting_granted : core.

Lemma upholds_safe {A} (m : T W A) P : upholds m → hoare (inv P) m (λ _, safe) (λ _, safe).
Proof.
  intros Hm. eapply hoare_weaken; [..|by apply (Hm (λ _, True))]; [apply inv_safe|done..].
Qed.

Lemma upholds_make_parent p : upholds (make_parent world p).
Proof. unfold make_parent. destruct (parent p); [apply upholds_make_dirs|apply upholds_ret]. Qed.

(** Creating, revalidating and writing one authorized path. *)
Lemma revalidated_write P a f content message : lasting P → (∀ acts, P acts → granted_for a acts) →
  (∀ fs, fs_wf fs → f fs = Ok a → creatable a fs) →
  hoare (inv P)
    (do! _ := revalidate f a message in write_awaited world (operation_path a) content)
    (λ _, inv P) (λ _, safe).
Proof.
  intros HP Hgr Hf. eapply hoare_bind; [by apply revalidate_ok|].
  intros ? s (earlier & fs & Hs & Htr & Hfs & Hwf & Ha).
  pose proof (write_awaited_ok P a content earlier fs HP Hgr s) as H. cbv zeta in H.
  specialize (H (conj Hs (conj Htr (conj Hfs (Hf _ Hwf Ha))))).
  destruct (write_awaited _ _ _ s) as [[]]; [by destruct H|done].
Qed.

(** Revalidating and removing one. *)
Lemma revalidated_remove P what a f message : lasting P → (∀ acts, P acts → granted_for a acts) →
  (∀ fs, fs_wf fs → f fs = Ok a → ready a fs) →
  hoare (inv P)
    (do! _ := revalidate f a message in remove_awaited world what (operation_path a))
    (λ _, inv P) (λ _, safe).
Proof.
  intros HP Hgr Hf. eapply hoare_bind; [by apply revalidate_ok|].
  intros ? s (earlier & fs & Hs & Htr & Hfs & Hwf & Ha).
  apply (remove_awaited_ok P what a fs HP Hgr Hwf (Hf _ Hwf Ha)). split; [done|].
  intros fs' Hw. rewrite Htr. apply since_now. by rewrite <- Hfs.
Qed.

Lemma st_bind_assoc {S E A B C} (m : stm S E A) (k : A → stm S E B) (l : B → stm S E C) s :
  st_bind (st_bind m k) l s = st_bind m (λ a, st_bind (k a) l) s.
Proof. unfold st_bind. by destruct (m s) as [[]]. Qed.

Lemma hoare_assoc {S E A B C} pre (post : C → S → Prop) epost (m : stm S E A) (k : A → stm S E B) l :
  hoare pre (st_bind (st_bind m k) l) post epost → hoare pre (st_bind m (λ a, st_bind (k a) l)) post epost.
Proof. intros H s Hs. specialize (H s Hs). by rewrite st_bind_assoc in H. Qed.

Lemma write_execute_safe tool_directory args :
  (∀ a, names (edit_request a) (operation_path a)) →
  hoare safe (write_execute world tool_directory ctx args) (λ _, safe) (λ _, safe).
Proof.
  intros Hnames. unfold write_execute. cbv zeta.
  eapply hoare_bind; [by apply upholds_lift|]. intros input.
  eapply hoare_bind; [by apply upholds_look|]. intros resolved.
  eapply hoare_bind; [by apply upholds_resolve|]. intros a.
  eapply hoare_bind; [by apply authorize_allowed|]. intros ?.
  eapply hoare_bind; [apply upholds_inspect; auto|]. intros exists_.
  eapply hoare_bind; [destruct exists_; [apply upholds_fs_read|apply upholds_ret]; auto|]. intros ?.
  eapply hoare_bind; [destruct exists_; [apply (upholds_call _ _ (wo_file_time_assert _ Hworld))|apply upholds_ret]; auto|]. intros ?.
  eapply hoare_bind; [apply ask_permission_known; auto|]. intros ?.
  eapply hoare_bind; [destruct (parent _); [apply upholds_make_dirs|apply upholds_ret]; auto|]. intros ?.
  apply hoare_assoc. eapply hoare_bind.
  { apply revalidated_write; [auto| |].
    - intros acts [[_ Hall] Hask]. split; [done|]. exists (edit_request a). by split_and!.
    - intros fs Hwf. by apply create_creatable. }
  intros ?. apply upholds_safe. repeat (apply upholds_bind; [|intros ?]);
    first [apply upholds_publish|apply upholds_diagnostics|apply upholds_ret|
           apply upholds_call, wo_lsp_touch; done|apply upholds_call, wo_file_time_read; done].
Qed.

(** What running [f] over a list teaches about each result. *)
Lemma map_known {A B} (f : A → T W B) (K : B → list Act → Prop) xs :
  (∀ y, lasting (K y)) →
  (∀ x P, lasting P → hoare (inv P) (f x) (λ y, inv (λ acts, P acts ∧ K y acts)) (λ _, safe)) →
  ∀ P, lasting P →
  hoare (inv P) (st_map f xs) (λ ys, inv (λ acts, P acts ∧ Forall (λ y, K y acts) ys)) (λ _, safe).
Proof.
  intros HK Hf. induction xs as [|x xs IH]; intros P HP; simpl.
  { intros s (? & ? & ?). by split_and!. }
  eapply hoare_bind; [by apply Hf|]. intros y.
  eapply hoare_bind; [apply IH, lasting_and; auto|]. intros ys s (? & ? & [? ?] & ?).
  split; [done|]. split; [done|]. split; [done|by constructor].
Qed.

(** A change whose paths are authorized. *)
Definition change_ok (c : FileChange) (acts : list Act) : Prop :=
  allowed (fc_source_authority c) acts ∧
  (∀ t, fc_move_target_authority c = Some t → allowed t acts) ∧
  fc_source_path c = operation_path (fc_source_authority c) ∧
  fc_move_target_path c = operation_path <$> fc_move_target_authority c.

Lemma lasting_change_ok c : lasting (change_ok c).
Proof.
  intros acts act (H1 & H2 & H3 & H4). split_and!; [by apply lasting_allowed| |done..].
  intros t Ht. by apply lasting_allowed, H2.
Qed.

Lemma process_file_patch_ok P file_patch a t : lasting P →
  (∀ acts, P acts → allowed a acts ∧ ∀ t', t = Some t' → allowed t' acts) →
  hoare (inv P) (process_file_patch world (operation_path a) file_patch a t)
    (λ c, inv (λ acts, P acts ∧ change_ok c acts)) (λ _, safe).
Proof.
  intros HP Hall. unfold process_file_patch. cbv zeta.
  assert (Hret : ∀ c, fc_source_authority c = a → fc_move_target_authority c = t →
    fc_source_path c = operation_path a → fc_move_target_path c = operation_path <$> t →
    hoare (inv P) (st_ret c : T W FileChange) (λ c, inv (λ acts, P acts ∧ change_ok c acts)) (λ _, safe)).
  { intros c <- <- Hs Ht s (? & ? & Hp). destruct (Hall _ Hp). by split_and!. }
  destruct (fp_operation file_patch); try (eapply hoare_bind; [by apply upholds_fs_read|intros content]);
    by apply Hret.
Qed.

Lemma prepare_change_ok file_patch P : lasting P →
  hoare (inv P) (prepare_change world ctx file_patch)
    (λ c, inv (λ acts, P acts ∧ change_ok c acts)) (λ _, safe).
Proof.
  intros HP. unfold prepare_change. cbv zeta.
  eapply hoare_bind; [by apply upholds_resolve|]. intros a.
  eapply hoare_bind; [by apply authorize_allowed|]. intros ?.
  apply (hoare_bind _ (λ t, inv (λ acts, (P acts ∧ allowed a acts) ∧ ∀ t', t = Some t' → allowed t' acts))).
  - destruct (fp_operation file_patch); try (apply hoare_ret; intros s (? & ? & ? & ?); unfold inv; by split_and!).
    eapply hoare_bind; [apply upholds_resolve; auto|]. intros t.
    eapply hoare_bind; [apply authorize_allowed; auto|]. intros ?. apply hoare_ret.
    intros s (? & ? & [? ?] & ?). unfold inv. split_and!; [done..|]. by intros t' [= <-].
  - intros t. eapply hoare_weaken; [| | |apply process_file_patch_ok].
    + by intros s.
    + intros c s (? & ? & [[? ?] ?] & ?). unfold inv. by split_and!.
    + done.
    + apply lasting_and; [auto|]. intros acts act H t' Ht. by apply lasting_allowed, H.
    + by intros acts [[? ?] ?].
Qed.

Section batch.
Context (Hnames : ∀ relative_paths p, names (batch_request relative_paths) p).
Context (relative_paths : list string) (P : list Act → Prop) (HP : lasting P).
Context (Hasked : ∀ acts, P acts → Act.Asked (batch_request relative_paths) true ∈ acts).

Lemma batch_consent acts p : P acts → edit_consent names acts p.
Proof. intros H. exists (batch_request relative_paths). by split_and!; [apply Hasked|..]. Qed.

Lemma move_step c source target content : (∀ acts, P acts → allowed source acts ∧ allowed target acts) →
  hoare (inv P)
    (do! revalidated_source := resolve (λ fs, ctx_resolve_existing ctx fs (operation_path source)) in
     do! revalidated_target := resolve (λ fs, ctx_resolve_create ctx fs (operation_path target)) in
     do! _ := (if bool_decide (revalidated_source = source) && bool_decide (revalidated_target = target)
               then st_ret tt else st_err c) in
     do! _ := note_checked (operation_path source) in
     do! _ := note_checked (operation_path target) in
     do! _ := write_awaited world (operation_path target) content in
     remove_awaited world "Failed to remove old file: " (operation_path source))
    (λ _, inv P) (λ _, safe).
Proof.
  intros Hall s Hs. unfold st_bind at 1 2 3, resolve.
  destruct (ctx_resolve_existing ctx (ts_fs s) (operation_path source)) as [rs|e] eqn:Es; simpl;
    [|by eapply inv_safe].
  destruct (ctx_resolve_create ctx (ts_fs s) (operation_path target)) as [rt|e] eqn:Et; simpl;
    [|by eapply inv_safe].
  destruct (bool_decide (rs = source) && bool_decide (rt = target)) eqn:E; simpl; [|by eapply inv_safe].
  apply andb_true_iff in E as [->%bool_decide_eq_true ->%bool_decide_eq_true].
  assert (Hgr : ∀ a, (∀ acts, P acts → allowed a acts) → ∀ acts, P acts → granted_for a acts).
  { intros a Ha acts Hp. split; [by apply Ha|by apply batch_consent]. }
  destruct Hs as (Hwf & Ht & Hp). unfold st_bind at 1 2, note_checked. simpl.
  refine (hoare_bind _ _ _ _ _ _ (write_awaited_ok P target content
    (ts_trace s ++ [Act.Checked (operation_path source) (ts_fs s)]) (ts_fs s) HP _) _ _ _).
  - apply Hgr. intros acts Hps. by apply Hall.
  - intros ? s' (Hs' & written & Htr & Hw & Hfile).
    apply (remove_awaited_ok P _ source (ts_fs s) HP); [|done|by eapply existing_ready|].
    { apply Hgr. intros acts Hps. by apply Hall. }
    split; [done|]. intros fs Hfs. rewrite Htr, <- app_assoc. by eapply since_move.
  - split; [|split; [done|split; [done|by eapply create_creatable]]].
    split; [done|]. split; [|by apply HP, HP]. by repeat apply trace_of_snoc.
Qed.

Lemma apply_change_ok c : (∀ acts, P acts → change_ok c acts) →
  hoare (inv P) (apply_change world ctx c) (λ _, inv P) (λ _, safe).
Proof.
  intros Hc. unfold apply_change. cbv zeta.
  assert (Hsrc : ∀ acts, P acts → granted_for (fc_source_authority c) acts).
  { intros acts Hp. split; [by destruct (Hc _ Hp)|by apply batch_consent]. }
  apply (hoare_known (fc_source_path c = operation_path (fc_source_authority c) ∧
    fc_move_target_path c = operation_path <$> fc_move_target_authority c)).
  { intros s (_ & _ & Hp). by destruct (Hc _ Hp) as (_ & _ & ?). }
  intros [Hpath Hmove].
  rewrite Hpath, Hmove. destruct (fc_operation c) as [| | |move_path].
  - eapply hoare_bind; [by apply upholds_make_parent|]. intros ?. apply hoare_assoc.
    eapply hoare_bind; [|intros ?; by apply upholds_ret].
    apply revalidated_write; [done..|]. intros fs Hwf. by apply create_creatable.
  - apply hoare_assoc. eapply hoare_bind; [|intros ?; by apply upholds_ret].
    apply revalidated_write; [done..|]. intros fs Hwf Ha. by eapply ready_creatable, existing_ready.
  - apply hoare_assoc. eapply hoare_bind; [|intros ?; by apply upholds_ret].
    apply revalidated_remove; [done..|]. intros fs Hwf Ha. by eapply existing_ready.
  - destruct (fc_move_target_authority c) as [target|] eqn:Et; simpl; [|intros s Hs; by eapply inv_safe].
    eapply hoare_bind; [by apply upholds_make_parent|]. intros ?.
    pose proof (move_step (execution_error ("patch move target changed after authorization: " +:+
      path_text (operation_path (fc_source_authority c)) +:+ " -> " +:+ path_text (operation_path target)))
      (fc_source_authority c) target (fc_new_content c)) as Hm.
    intros s Hs. specialize (Hm ltac:(intros acts Hp; destruct (Hc _ Hp) as (? & Ht & _); auto) s Hs).
    revert Hm. unfold st_bind, st_ret. repeat case_match; simplify_eq/=; done.
Qed.
End batch.

Lemma patch_execute_safe syntax args : (∀ relative_paths p, names (batch_request relative_paths) p) →
  hoare safe (patch_execute world syntax ctx args) (λ _, safe) (λ _, safe).
Proof.
  intros Hnames. unfold patch_execute. eapply hoare_bind; [by apply upholds_lift|]. intros patch_text. cbv zeta.
  case_bool_decide; [by apply hoare_err|]. case_bool_decide; [by apply hoare_err|].
  eapply hoare_bind.
  { apply (map_known _ change_ok); [apply lasting_change_ok|apply prepare_change_ok|done]. }
  intros changes. eapply hoare_bind.
  { apply ask_permission_known. apply lasting_and; [done|]. intros acts act Hc.
    eapply Forall_impl; [exact Hc|]. intros c. apply lasting_change_ok. }
  intros ?. eapply (hoare_bind _ (λ _, safe)).
  - set (P := λ acts, (True ∧ Forall (λ c, change_ok c acts) changes) ∧
                      Act.Asked (batch_request (fc_relative_path <$> changes)) true ∈ acts).
    assert (HP : lasting P).
    { apply lasting_and; [apply lasting_and; [done|]|apply lasting_elem]. intros acts act Hc.
      eapply Forall_impl; [exact Hc|]. intros c. apply lasting_change_ok. }
    eapply hoare_weaken; [| | |apply (hoare_map (inv P) (λ _ _, True) (λ _, safe) (apply_change world ctx) changes)].
    + done.
    + intros applied s [Hs _]. by eapply inv_safe.
    + done.
    + intros c Hc. eapply hoare_weaken; [| | |apply (apply_change_ok Hnames (fc_relative_path <$> changes) P HP)].
      * done.
      * by intros applied s Hs.
      * done.
      * by intros acts [_ ?].
      * intros acts [[_ Hall] _]. rewrite Forall_forall in Hall. by apply Hall.
  - intros applied. apply upholds_safe. repeat (apply upholds_bind; [|intros ?]);
      first [apply upholds_map; intros ?; first [apply upholds_publish|apply upholds_call, wo_lsp_touch; done]
            |apply upholds_diagnostics|apply upholds_ret].
Qed.
End consent.

(** Other processes leave the files alone while a tool waits for its own calls. *)
Definition undisturbed {W} (world : World W) : Prop := ∀ env, (w_others world env).2 = env.2.

Lemma remove_entry_ready fs k k' : fs_wf fs → present fs k → lookup_entry fs (path_of k) = Ok (Some k') → k' = k.
Proof.
  intros Hwf Hpres Hk. destruct k as [|x d _] using rev_ind; [by apply rbind_Ok in Hk as (? & _ & [=])|].
  rewrite (lookup_entry_snoc _ Hwf) in Hk; [congruence|]. destruct Hpres as [?|[? ?]]; by eapply wf_tree.
Qed.

Lemma within_grows ctx fs fs' k : grows fs fs' → within_project ctx fs k → within_project ctx fs' k.
Proof.
  intros Hg (r & (r' & Hr & Heq)%canonicalize_Ok & Hpre). exists r. split; [|done].
  apply canonicalize_Ok. exists r'. split; [by eapply grows_lookup|done].
Qed.

(** Where nothing moves in between, what was checked is what is done. *)
Lemma undisturbed_exact {W} (world : World W) ctx names acts act :
  undisturbed world → act_ok world ctx names acts act → act_exact ctx names acts act.
Proof.
  intros Hu. assert (∀ fs fs', waited world fs fs' → fs' = fs) as Hw by (intros fs fs' [w ->]; apply Hu).
  destruct act as [| | |p content before|p before]; try done; simpl.
  - intros (Hed & Hok & earlier & checked & _ & _ & ->%Hw & Hc).
    destruct (lookup_path checked true p) as [k|] eqn:Hk; [|done]. destruct (Hc k eq_refl) as [Hp Hin].
    by exists k.
  - intros (Hed & (k' & Hk') & checked & Hwf & Hs & k & -> & Hpres & Hin).
    assert (grows checked before ∧ fs_wf before) as [Hg Hwf'].
    { destruct Hs as [? ? ->%Hw|? q c written fs ? ->%Hw Hf ->%Hw]; [done|].
      by destruct (write_file_Ok _ _ _ _ Hwf Hf) as (? & _ & _ & ? & ? & _). }
    assert (present before k) as Hpres' by by eapply grows_present.
    rewrite (remove_entry_ready _ _ _ Hwf' Hpres' Hk') in Hk'. exists k.
    split_and!; [reflexivity|exact Hpres'|exact Hk'| |exact Hed].
    destruct Hin as [Hin|Hin]; [left; by eapply within_grows|by right].
Qed.

Lemma trace_of_impl (good good' : list Act → Act → Prop) acts :
  (∀ earlier act, good earlier act → good' earlier act) → trace_of good acts → trace_of good' acts.
Proof. intros Hg Ht earlier act later Heq. by eapply Hg, Ht. Qed.

(** C14. Nothing is written or removed without consent.  Whatever the callbacks answer and whatever
    other processes do to the files while a tool waits, every path the write tool or the patch
    tool writes or removes has the consent to edit (for the write tool one that names exactly this
    path, for the patch tool the one for its batch), and was checked right before: on the files as
    they were one wait earlier (for the source of a move: before the wait, the write of the target
    and the second wait) the path spelled out its own location, which was inside the canonical
    project root or had a granted request for its external directory.  The call itself is awaited,
    so another process can still move the files between the check and the call; if other
    processes leave them alone during the waits, every write and removal is at the very location
    the path spells out, with no symbolic link leading elsewhere. *)
Theorem file_tools_act_with_consent {W} (world : World W) (ctx : ToolContext) (env : W * FS)
    (Hworld : world_ok world) (Hwf : fs_wf env.2) :
  let start := {| ts_env := env; ts_trace := [] |} in
  (∀ tool_directory args,
     let names request p := pr_patterns request = [path_text p] in
     let trace := ts_trace (write_execute world tool_directory ctx args start).2 in
     trace_ok world ctx names trace ∧ (undisturbed world → trace_of (act_exact ctx names) trace)) ∧
  (∀ syntax args,
     let names request (_ : Path) := ∃ relative_paths, request = batch_request relative_paths in
     let trace := ts_trace (patch_execute world syntax ctx args start).2 in
     trace_ok world ctx names trace ∧ (undisturbed world → trace_of (act_exact ctx names) trace)).
Proof.
  assert (Hstart : ∀ names, inv (W := W) world ctx names (λ _, True) {| ts_env := env; ts_trace := [] |}).
  { intros names. split; [done|]. split; [|done]. by intros []. }
  assert (Hboth : ∀ names trace, trace_ok world ctx names trace →
    trace_ok world ctx names trace ∧ (undisturbed world → trace_of (act_exact ctx names) trace)).
  { intros names trace Ht. split; [done|]. intros Hu. eapply trace_of_impl; [|exact Ht].
    intros earlier act. by apply undisturbed_exact. }
  split; cbv zeta; intros u args; apply Hboth.
  - pose proof (write_execute_safe world Hworld ctx (λ request p, pr_patterns request = [path_text p])
      u args (λ a, eq_refl) _ (Hstart _)) as H.
    by destruct (write_execute _ _ _ _ _) as [[] s]; destruct H as (_ & ? & _).
  - pose proof (patch_execute_safe world Hworld ctx (λ request _, ∃ relative_paths, request = batch_request relative_paths)
      u args (λ rels p, ex_intro _ rels eq_refl) _ (Hstart _)) as H.
    by destruct (patch_execute _ _ _ _ _) as [[] s]; destruct H as (_ & ? & _).
Qed.

(** ** A small project *)

Definition empty_fs : FS := {| fs_nodes := ∅; fs_cwd := [] |}.

Lemma empty_fs_wf : fs_wf empty_fs.
Proof.
  split; [|done]. intros k name n. unfold node, empty_fs. cbn. rewrite lookup_empty.
  case_bool_decide; [by destruct k|done].
Qed.

(** A project with one file and a link to a directory outside. *)
Definition demo_fs : FS :=
  put (put (put (put empty_fs ["ws"] Node_.Dir) ["etc"] Node_.Dir) ["ws"; "a.txt"] (Node_.File "one"))
    ["ws"; "out"] (Node_.Link (path_of ["etc"])).

Lemma demo_fs_wf : fs_wf demo_fs.
Proof.
  unfold demo_fs. apply (put_wf _ ["ws"] "out"); [|done|by left]. apply (put_wf _ ["ws"] "a.txt"); [|done|by left].
  apply (put_wf _ [] "etc"); [|done|by left]. apply (put_wf _ [] "ws"); [apply empty_fs_wf|done|by left].
Qed.

Definition demo_ctx : ToolContext :=
  {| ctx_directory := "/ws"; ctx_project_root := "/ws"; ctx_worktree := "/ws" |}.

(** A world that grants every request and leaves the files alone. *)
Definition quiet_world : World unit := {|
  w_ask := Some (λ _ env, (Ok tt, env)); w_file_time_assert := None; w_file_time_read := None;
  w_publish_bus := None; w_lsp_touch_file := None; w_diagnostics := λ _ env, ("", env);
  w_others := λ env, env |}.

Lemma quiet_world_ok : world_ok quiet_world.
Proof. split; try done. intros f a env [= <-]. done. Qed.

Definition demo_start : TS unit := {| ts_env := (tt, demo_fs); ts_trace := [] |}.

Definition demo_write (path content : string) : result ToolError ToolOutput * TS unit :=
  write_execute quiet_world "/" demo_ctx (Ok {| wi_file_path := path; wi_content := content |}) demo_start.

Lemma file_tools_act_with_consent_witness :
  (trace_of (act_exact demo_ctx (λ request p, pr_patterns request = [path_text p]))
     (ts_trace (demo_write "out/b.txt" "two").2)) ∧
  is_ok (demo_write "out/b.txt" "two").1 = true ∧
  node (ts_fs (demo_write "out/b.txt" "two").2) ["etc"; "b.txt"] = Some (Node_.File "two") ∧
  Act.Asked (external_request {| operation_path := path_of ["etc"; "b.txt"]; location := FileLoc.External |}) true
    ∈ ts_trace (demo_write "out/b.txt" "two").2.
Proof.
  split_and!.
  - destruct (file_tools_act_with_consent quiet_world demo_ctx (tt, demo_fs) quiet_world_ok demo_fs_wf) as [H _].
    exact (proj2 (H "/" (Ok {| wi_file_path := "out/b.txt"; wi_content := "two" |})) (λ _, eq_refl)).
  - vm_compute. reflexivity.
  - vm_compute. reflexivity.
  - vm_compute. apply list_elem_of_here.
Defined.

(** A world that grants every request, in which another process replaces the file [a.txt] of the
    project by a link to a file outside in the fourth wait of a tool, the one for its write. *)
Definition linking_world : World nat := {|
  w_ask := Some (λ _ env, (Ok tt, env)); w_file_time_assert := None; w_file_time_read := None;
  w_publish_bus := None; w_lsp_touch_file := None; w_diagnostics := λ _ env, ("", env);
  w_others := λ env, (S env.1, if bool_decide (env.1 = 3)
                               then put (unlink env.2 ["ws"; "a.txt"]) ["ws"; "a.txt"]
                                      (Node_.Link (path_of ["etc"; "hosts"]))
                               else env.2) |}.

Definition hosts_fs : FS := put demo_fs ["etc"; "hosts"] (Node_.File "local").

(** The check right before the write does not keep a link out: the write tool is asked to write a
    file of the project, nothing outside is asked for, and the text ends up outside. *)
Lemma link_after_the_check_is_followed :
  let run := write_execute linking_world "/" demo_ctx
    (Ok {| wi_file_path := "a.txt"; wi_content := "two" |}) {| ts_env := (0, hosts_fs); ts_trace := [] |} in
  is_ok run.1 = true ∧ node (ts_fs run.2) ["etc"; "hosts"] = Some (Node_.File "two") ∧
  Forall (λ act, match act with
                 | Act.Asked request _ => pr_permission request = "edit"
                 | _ => True
                 end) (ts_trace run.2).
Proof. cbv zeta. split_and!; [by vm_compute..|]. vm_compute. by repeat constructor. Qed.
