(* ===== verification/FileToolsRuns.v ===== *)
(** * What the file tools do when nothing interferes

    Exact results of the write tool and of patches in a world that grants every
    request and leaves the files alone: no authorized path is refused by its own
    revalidation, the target gets the content, and nothing else changes. *)

From S2P Require Import Prelude StateMonad Permission PermissionEngine TextLines LineDiff ApplyPatch ApplyPatchProps FileSystem FilePaths FilePathsSpec FileTools FileToolsProps.

(** ** Making directories *)

Fixpoint add_dirs (fs : FS) (d : Loc) (names : list string) : FS :=
  match names with
  | [] => fs
  | name :: names => add_dirs (put fs (d ++ [name]) Node_.Dir) (d ++ [name]) names
  end.

Lemma add_dirs_snoc fs d names name :
  add_dirs fs d (names ++ [name]) = put (add_dirs fs d names) (d ++ names ++ [name]) Node_.Dir.
Proof.
  revert fs d. induction names as [|x names IH]; intros fs d; simpl; [done|].
  by rewrite IH, <- app_assoc.
Qed.

(** Nothing is there below a name that is missing. *)
Lemma missing_beyond fs d name rest : fs_wf fs → node fs (d ++ [name]) = None →
  node fs (d ++ name :: rest) = None.
Proof.
  intros Hwf Hn. destruct (node fs (d ++ name :: rest)) as [n|] eqn:E; [|done].
  rewrite cons_middle, app_assoc in E. destruct (node_prefix _ _ _ _ Hwf E) as [->|]; [|congruence].
  rewrite app_nil_r in E. congruence.
Qed.

Definition all_missing (fs : FS) (d : Loc) (names : list string) : Prop :=
  match names with [] => True | name :: _ => node fs (d ++ [name]) = None end.

Definition new_dir (d : Loc) (names : list string) (j : Loc) : Prop :=
  ∃ l, l `prefix_of` names ∧ l ≠ [] ∧ j = d ++ l.

Lemma add_dirs_new fs d names j : new_dir d names j → node (add_dirs fs d names) j = Some Node_.Dir.
Proof.
  intros (l & Hl & Hne & ->). induction names as [|x names IH] using rev_ind; [by apply prefix_nil_inv in Hl|].
  rewrite add_dirs_snoc, app_assoc, node_put. case_bool_decide as E; [done|]. apply IH.
  destruct Hl as [t Ht]. destruct t as [|y t _] using rev_ind.
  - rewrite app_nil_r in Ht. subst l. by rewrite app_assoc in E.
  - rewrite app_assoc in Ht. apply app_inj_tail in Ht as [-> _]. by exists t.
Qed.

Lemma add_dirs_old fs d names j : ¬ new_dir d names j → node (add_dirs fs d names) j = node fs j.
Proof.
  intros Hj. induction names as [|x names IH] using rev_ind; [done|].
  rewrite add_dirs_snoc, app_assoc, node_put. case_bool_decide as E.
  - destruct Hj. exists (names ++ [x]). rewrite app_assoc. split_and!; [done|by destruct names|done].
  - apply IH. intros (l & Hl & Hne & Heq). apply Hj. exists l. split_and!; [by apply prefix_app_r|done..].
Qed.

Lemma not_new_dir d names x : ¬ new_dir d names ((d ++ names) ++ [x]).
Proof.
  intros (l & [t ->] & _ & Heq). rewrite <- !app_assoc in Heq. apply app_inv_head in Heq.
  rewrite <- (app_nil_r l) in Heq at 2. apply app_inv_head in Heq. by destruct t.
Qed.

Lemma add_dirs_ok fs d names : fs_wf fs → node fs d = Some Node_.Dir → all_missing fs d names →
  fs_wf (add_dirs fs d names) ∧ grows fs (add_dirs fs d names) ∧
  node (add_dirs fs d names) (d ++ names) = Some Node_.Dir.
Proof.
  intros Hwf Hd Hm. induction names as [|x names IH] using rev_ind.
  { rewrite app_nil_r. by split_and!. }
  rewrite add_dirs_snoc, app_assoc.
  destruct IH as (Hwf' & Hg & Hn); [by destruct names|].
  assert (Hmiss : node (add_dirs fs d names) ((d ++ names) ++ [x]) = None).
  { rewrite add_dirs_old by apply not_new_dir. rewrite <- app_assoc.
    destruct names as [|y names]; simpl in Hm |- *; [done|by apply missing_beyond]. }
  split_and!.
  - apply put_wf; auto.
  - etrans; [done|]. apply put_grows. by left.
  - by rewrite node_put, bool_decide_eq_true_2.
Qed.

Lemma reverse_path_of_snoc k name : reverse (path_of (k ++ [name])) = Comp.Normal name :: reverse (path_of k).
Proof. rewrite path_of_app. cbn [fmap list_fmap]. by rewrite reverse_snoc. Qed.

Lemma create_dir_all_here fs k : fs_wf fs → node fs k = Some Node_.Dir → create_dir_all fs (path_of k) = (Ok tt, fs).
Proof.
  intros Hwf Hk. unfold create_dir_all.
  assert (Hdir : is_dir fs (path_of k) = true).
  { unfold is_dir. rewrite (proj2 (metadata_Ok _ _ Node_.Dir)); [done|]. exists k. split; [|done].
    apply lookup_path_of; [done|by left]. }
  destruct k as [|x k _] using rev_ind; [done|]. rewrite reverse_path_of_snoc. cbn [create_dirs].
  rewrite <- reverse_path_of_snoc, reverse_involutive. unfold mkdir.
  rewrite (lookup_entry_snoc _ Hwf) by by eapply wf_tree. cbn [rbind]. rewrite Hk. by rewrite Hdir.
Qed.

Lemma lookup_path_missing fs d name rest : fs_wf fs → node fs d = Some Node_.Dir →
  node fs (d ++ [name]) = None → lookup_path fs false (path_of (d ++ name :: rest)) = Err NotFound.
Proof.
  intros Hwf Hd Hn. unfold lookup_path. rewrite bool_decide_eq_false_2 by done. rewrite path_of_app.
  unfold path_of. simpl app. rewrite walk_eq.
  cut (∀ l cur, node fs cur = Some Node_.Dir → d = cur ++ l →
    walk fs false MAX_LINKS cur ((Comp.Normal <$> l) ++ (Comp.Normal <$> name :: rest)) = Err NotFound).
  { intros H. by apply (H d []). }
  intros l. induction l as [|x l IH]; intros cur Hc ->; simpl app; rewrite walk_eq.
  - cbn [fmap list_fmap]. rewrite app_nil_r in Hn. by rewrite Hn.
  - assert (node fs (cur ++ [x]) = Some Node_.Dir) as Hx.
    { rewrite cons_middle, app_assoc in Hd. by destruct (node_prefix _ _ _ _ Hwf Hd) as [->|];
        [rewrite app_nil_r in Hd|]. }
    cbn [fmap list_fmap app]. rewrite Hx. apply IH; [done|]. by rewrite <- app_assoc.
Qed.

Lemma create_dir_all_missing fs d names : fs_wf fs → node fs d = Some Node_.Dir → all_missing fs d names →
  create_dir_all fs (path_of (d ++ names)) = (Ok tt, add_dirs fs d names).
Proof.
  intros Hwf Hd Hm. induction names as [|x names IH] using rev_ind.
  { rewrite app_nil_r. by apply create_dir_all_here. }
  destruct (add_dirs_ok fs d names Hwf Hd) as (Hwf' & Hg & Hn); [by destruct names|].
  unfold create_dir_all in *. rewrite app_assoc, reverse_path_of_snoc. cbn [create_dirs].
  rewrite <- reverse_path_of_snoc, reverse_involutive, add_dirs_snoc, app_assoc.
  destruct names as [|y names].
  - rewrite app_nil_r in *. simpl in Hm |- *. unfold mkdir. rewrite (lookup_entry_snoc _ Hwf) by done.
    cbn [rbind]. by rewrite Hm.
  - assert (mkdir fs (path_of ((d ++ y :: names) ++ [x])) = Err NotFound) as ->.
    { unfold mkdir, lookup_entry. rewrite path_of_app. cbn [fmap list_fmap].
      rewrite (proj2 (file_name_Some _ x)) by eauto. rewrite removelast_snoc.
      rewrite bool_decide_eq_false_2 by done. by rewrite lookup_path_missing. }
    rewrite IH by done. unfold mkdir. rewrite (lookup_entry_snoc _ Hwf') by done. cbn [rbind].
    rewrite add_dirs_old by apply not_new_dir.
    assert (node fs ((d ++ y :: names) ++ [x]) = None) as ->; [|done].
    rewrite <- app_assoc. by apply (missing_beyond fs d y (names ++ [x])).
Qed.

(** ** Resolving once more *)

(** The location of a file that a tool may make: the names below an existing directory are plain
    and the first of them is missing. *)
Definition creatable_at (fs : FS) (d : Loc) (names : list string) (x : string) : Prop :=
  node fs d = Some Node_.Dir ∧ all_missing fs d (names ++ [x]) ∧ reserved_name x = false.

Lemma canonicalize_existing_of fs k : fs_wf fs → present fs k → canonicalize_existing fs (path_of k) = Ok (path_of k).
Proof. intros Hwf Hk. apply canonicalize_existing_Ok. exists k. by rewrite (lookup_path_of _ Hwf). Qed.

(** The revalidation of a missing file whose directory is there passes. *)
Lemma resolve_create_missing fs d x root r : fs_wf fs → node fs d = Some Node_.Dir →
  node fs (d ++ [x]) = None → reserved_name x = false → canonicalize fs root = Ok (path_of r) →
  resolve_create_file_path fs (path_of (d ++ [x])) root = Ok (classify (path_of (d ++ [x])) (path_of r)).
Proof.
  intros Hwf Hd Hx Hres Hr.
  assert (Hpresent : present fs r).
  { apply canonicalize_Ok in Hr as (r' & Hr' & [= Heq]). apply (inj (fmap Comp.Normal)) in Heq as ->.
    by eapply lookup_path_present. }
  assert (Htarget : resolve_create_target fs (path_of (d ++ [x])) =
    Ok {| ct_parent := path_of d; ct_suffix := [Comp.Normal x]; ct_component := x; ct_existing := None |}).
  { unfold resolve_create_target. rewrite path_of_app. cbn [fmap list_fmap].
    rewrite (proj2 (file_name_Some _ x)) by eauto. cbn [ok_or rbind]. rewrite Hres.
    rewrite reverse_snoc. cbn [existing_ancestor].
    rewrite <- (reverse_snoc (path_of d)), reverse_involutive.
    change (path_of d ++ [Comp.Normal x]) with (path_of d ++ (Comp.Normal <$> [x])). rewrite <- path_of_app.
    assert (path_exists fs (path_of (d ++ [x])) = false) as ->.
    { unfold path_exists, metadata. by rewrite (lookup_path_missing fs d x []). }
    rewrite Hres.
    assert (existing_ancestor fs (path_of (d ++ [x])) (reverse (path_of d)) [x] = Ok (path_of d, [x])) as ->.
    { assert (path_exists fs (path_of d) = true) as Hex.
      { apply (path_exists_true _ Hwf). exists d. apply lookup_path_of; [done|by left]. }
      rewrite <- (reverse_involutive (path_of d)) in Hex.
      destruct (reverse (path_of d)) as [|c p] eqn:Erev;
        cbn [existing_ancestor]; rewrite Hex; [by rewrite <- Erev, reverse_involutive|].
      by rewrite <- Erev, reverse_involutive. }
    cbn [rbind fst snd fmap list_fmap].
    rewrite canonicalize_existing_of; [|done|by left]. cbn [rbind].
    change [Comp.Normal x] with (Comp.Normal <$> [x]). rewrite join_parent.
    rewrite (symlink_metadata_snoc _ Hwf) by done. by rewrite Hx. }
  unfold resolve_create_file_path, canonical_root.
  assert (canonicalize_existing fs root = Ok (path_of r)) as ->.
  { unfold canonicalize_existing. by rewrite Hr. }
  cbn [map_error rbind]. rewrite Htarget. cbn [map_error rbind ct_existing ct_parent ct_suffix].
  change [Comp.Normal x] with (Comp.Normal <$> [x]). rewrite join_parent.
  unfold classify_create_under_parent, classify, assert_within_root.
  destruct (path_strip_prefix (path_of d) (path_of r)) as [rel|] eqn:Ed.
  - apply path_strip_prefix_Some in Ed.
    assert (path_strip_prefix (path_of (d ++ [x])) (path_of r) = Some (rel ++ [Comp.Normal x])) as ->; [|done].
    apply path_strip_prefix_Some. rewrite path_of_app, Ed. by rewrite app_assoc.
  - destruct (path_strip_prefix (path_of (d ++ [x])) (path_of r)) as [rel|] eqn:Ex; [|done].
    exfalso. apply path_strip_prefix_Some in Ex.
    assert (Hp : r `prefix_of` d ++ [x]) by (apply path_of_prefix; by exists rel).
    destruct Hp as [t Ht]. destruct t as [|y t _] using rev_ind.
    + rewrite app_nil_r in Ht. subst r. destruct Hpresent as [?|[? ?]]; congruence.
    + rewrite app_assoc in Ht. apply app_inj_tail in Ht as [-> _]. rewrite path_of_app in Ed.
      assert (path_strip_prefix (path_of r ++ (Comp.Normal <$> t)) (path_of r) = Some (Comp.Normal <$> t)) by
        by apply path_strip_prefix_Some. congruence.
Qed.

(** A file that is there resolves to itself. *)
Lemma resolve_create_present fs d x root r : fs_wf fs → present fs (d ++ [x]) → reserved_name x = false →
  canonicalize fs root = Ok (path_of r) →
  resolve_create_file_path fs (path_of (d ++ [x])) root = Ok (classify (path_of (d ++ [x])) (path_of r)).
Proof.
  intros Hwf Hp Hres Hr.
  assert (Hd : node fs d = Some Node_.Dir) by (destruct Hp as [?|[? ?]]; by eapply wf_tree).
  assert (Hx : is_Some (node fs (d ++ [x]))) by (destruct Hp as [->|[? ->]]; eauto).
  assert (Htarget : resolve_create_target fs (path_of (d ++ [x])) =
    Ok {| ct_parent := path_of d; ct_suffix := [Comp.Normal x]; ct_component := x;
          ct_existing := Some (path_of (d ++ [x])) |}).
  { unfold resolve_create_target.
    rewrite (proj2 (file_name_Some _ x)) by (exists (path_of d); by rewrite path_of_app).
    cbn [ok_or rbind]. rewrite Hres.
    assert (existing_ancestor fs (path_of (d ++ [x])) (reverse (path_of (d ++ [x]))) [] = Ok (path_of (d ++ [x]), [])) as ->.
    { assert (path_exists fs (path_of (d ++ [x])) = true) as Hex.
      { apply (path_exists_true _ Hwf). exists (d ++ [x]). by apply lookup_path_of. }
      rewrite reverse_path_of_snoc. cbn [existing_ancestor].
      by rewrite <- reverse_path_of_snoc, reverse_involutive, Hex. }
    assert (parent (path_of (d ++ [x])) = Some (path_of d)) as ->.
    { unfold parent. rewrite path_of_app. cbn [fmap list_fmap]. rewrite last_snoc. by rewrite removelast_snoc. }
    cbn [rbind fst snd ok_or].
    rewrite canonicalize_existing_of; [|done|by left]. cbn [rbind].
    change [Comp.Normal x] with (Comp.Normal <$> [x]). rewrite join_parent.
    rewrite (symlink_metadata_snoc _ Hwf) by done. destruct Hx as [n ->]. cbn [ok_or is_ok].
    by rewrite canonicalize_existing_of. }
  unfold resolve_create_file_path, canonical_root.
  assert (canonicalize_existing fs root = Ok (path_of r)) as ->.
  { unfold canonicalize_existing. by rewrite Hr. }
  cbn [map_error rbind]. by rewrite Htarget.
Qed.

(** ** Runs *)

(** A world that grants every request and leaves the files alone. *)
Definition quiet_callback {W A} (cb : option (Callback A (W := W))) : Prop :=
  ∀ f a env, cb = Some f → f a env = (Ok tt, env).

Record quiet {W} (world : World W) : Prop := {
  qu_ask : quiet_callback (w_ask world);
  qu_file_time_assert : quiet_callback (w_file_time_assert world);
  qu_file_time_read : quiet_callback (w_file_time_read world);
  qu_publish : ∀ f a env, w_publish_bus world = Some f → f a env = env;
  qu_lsp_touch : quiet_callback (w_lsp_touch_file world);
  qu_diagnostics : ∀ p env, (w_diagnostics world p env).2 = env;
  qu_others : ∀ env, w_others world env = env;
}.

Section runs.
Context {W : Type} (world : World W) (Hq : quiet world).

(** From any state with the files [fs], [m] returns [a] and leaves the files [fs']. *)
Definition runs {A} (m : T W A) (fs : FS) (a : A) (fs' : FS) : Prop :=
  ∀ s, ts_fs s = fs → ∃ s', m s = (Ok a, s') ∧ ts_fs s' = fs'.

(** The same for some value. *)
Definition ends {A} (m : T W A) (fs fs' : FS) : Prop :=
  ∀ s, ts_fs s = fs → ∃ a s', m s = (Ok a, s') ∧ ts_fs s' = fs'.

Definition fails {A} (m : T W A) (fs fs' : FS) : Prop :=
  ∀ s, ts_fs s = fs → ∃ e s', m s = (Err e, s') ∧ ts_fs s' = fs'.

Lemma runs_bind {A B} (m : T W A) (k : A → T W B) fs a fs' b fs'' :
  runs m fs a fs' → runs (k a) fs' b fs'' → runs (st_bind m k) fs b fs''.
Proof. intros Hm Hk s Hs. destruct (Hm s Hs) as (s' & E & Hs'). unfold st_bind. rewrite E. by apply Hk. Qed.

Lemma runs_ends {A B} (m : T W A) (k : A → T W B) fs a fs' fs'' :
  runs m fs a fs' → ends (k a) fs' fs'' → ends (st_bind m k) fs fs''.
Proof. intros Hm Hk s Hs. destruct (Hm s Hs) as (s' & E & Hs'). unfold st_bind. rewrite E. by apply Hk. Qed.

Lemma runs_fails {A B} (m : T W A) (k : A → T W B) fs a fs' fs'' :
  runs m fs a fs' → fails (k a) fs' fs'' → fails (st_bind m k) fs fs''.
Proof. intros Hm Hk s Hs. destruct (Hm s Hs) as (s' & E & Hs'). unfold st_bind. rewrite E. by apply Hk. Qed.

Lemma fails_bind {A B} (m : T W A) (k : A → T W B) fs fs' : fails m fs fs' → fails (st_bind m k) fs fs'.
Proof.
  intros Hm s Hs. destruct (Hm s Hs) as (e & s' & E & Hs'). unfold st_bind. rewrite E. eauto.
Qed.

Lemma ends_bind {A B} (m : T W A) (k : A → T W B) fs fs' fs'' :
  ends m fs fs' → (∀ a, ends (k a) fs' fs'') → ends (st_bind m k) fs fs''.
Proof.
  intros Hm Hk s Hs. destruct (Hm s Hs) as (a & s' & E & Hs'). unfold st_bind. rewrite E. by apply Hk.
Qed.

Lemma runs_ret {A} (a : A) fs : runs (st_ret a) fs a fs.
Proof. intros s Hs. by exists s. Qed.

Lemma ends_ret {A} (a : A) fs : ends (st_ret a) fs fs.
Proof. intros s Hs. by exists a, s. Qed.

Lemma runs_lift_Ok {A} (a : A) fs : runs (st_lift (Ok a)) fs a fs.
Proof. intros s Hs. by exists s. Qed.

Lemma runs_yield fs : runs (yield world) fs tt fs.
Proof. intros s Hs. eexists. split; [done|]. unfold ts_fs in *. cbn. by rewrite (qu_others _ Hq). Qed.

Lemma runs_look {A} (f : FS → A) fs : runs (look f) fs (f fs) fs.
Proof. intros s <-. by exists s. Qed.

Lemma runs_resolve f fs a : f fs = Ok a → runs (resolve f) fs a fs.
Proof. intros Hf s <-. exists s. unfold resolve. by rewrite Hf. Qed.

Lemma runs_read {A} what (f : FS → result IoError A) fs a : f fs = Ok a → runs (fs_read world what f) fs a fs.
Proof.
  intros Hf. eapply runs_bind; [apply runs_yield|]. intros s <-. exists s. by rewrite Hf.
Qed.

Lemma fails_read {A} what (f : FS → result IoError A) fs e : f fs = Err e → fails (fs_read world what f) fs fs.
Proof.
  intros Hf. eapply runs_fails; [apply runs_yield|]. intros s <-. eexists _, s. by rewrite Hf.
Qed.

Lemma runs_call {A} (cb : option (Callback A)) a fs : quiet_callback cb → runs (call cb a) fs tt fs.
Proof.
  intros Hcb s Hs. unfold call. destruct cb as [f|]; [|by exists s].
  rewrite (Hcb f a _ eq_refl). by eexists.
Qed.

Lemma runs_ask request fs : runs (ask_permission world request) fs tt fs.
Proof.
  intros s Hs. unfold ask_permission. destruct (runs_call _ request fs (qu_ask _ Hq) s Hs) as (s' & -> & Hs').
  by eexists.
Qed.

Lemma runs_authorize a fs : runs (authorize_external_file_path world a) fs tt fs.
Proof. unfold authorize_external_file_path. destruct (negb _); [apply runs_ret|apply runs_ask]. Qed.

Lemma runs_publish event file fs : runs (publish world event file) fs tt fs.
Proof.
  intros s Hs. unfold publish. destruct (w_publish_bus world) as [f|] eqn:E; [|by exists s].
  rewrite (qu_publish _ Hq f) by done. by eexists.
Qed.

Lemma ends_diagnostics targets fs : ends (diagnostics world targets) fs fs.
Proof.
  intros s Hs. unfold diagnostics. pose proof (qu_diagnostics _ Hq targets (ts_env s)) as Hd.
  destruct (w_diagnostics world targets (ts_env s)) as [text env]. simpl in Hd. subst env.
  eexists _, _. split; [done|]. done.
Qed.

Lemma runs_inspect p fs : lookup_path fs false p = Err NotFound → runs (inspect world p) fs false fs.
Proof.
  intros H. eapply runs_bind; [apply runs_yield|]. intros s <-. exists s.
  unfold metadata. by rewrite H.
Qed.

Lemma runs_inspect_present p fs n : metadata fs p = Ok n → runs (inspect world p) fs true fs.
Proof. intros H. eapply runs_bind; [apply runs_yield|]. intros s <-. exists s. by rewrite H. Qed.

Lemma runs_make_dirs p fs fs' : create_dir_all fs p = (Ok tt, fs') → runs (make_dirs world p) fs tt fs'.
Proof.
  intros H. eapply runs_bind; [apply runs_yield|]. intros s <-. rewrite H. by eexists.
Qed.

Lemma runs_revalidate f a message fs : f fs = Ok a → runs (revalidate f a message) fs tt fs.
Proof.
  intros Hf. eapply runs_bind; [by apply runs_resolve|]. rewrite bool_decide_eq_true_2 by done.
  intros s <-. by eexists.
Qed.

Lemma runs_write p content fs fs' : write_file fs p content = Ok fs' → runs (write_awaited world p content) fs tt fs'.
Proof. intros H. eapply runs_bind; [apply runs_yield|]. intros s <-. rewrite H. by eexists. Qed.

Lemma runs_remove what p fs fs' : remove_file fs p = Ok fs' → runs (remove_awaited world what p) fs tt fs'.
Proof. intros H. eapply runs_bind; [apply runs_yield|]. intros s <-. rewrite H. by eexists. Qed.
End runs.

(** ** The write tool, exactly *)

Section write.
Context {W : Type} (world : World W) (Hq : quiet world) (ctx : ToolContext).

Lemma parent_path_of d x : parent (path_of (d ++ [x])) = Some (path_of d).
Proof.
  unfold parent. rewrite path_of_app. cbn [fmap list_fmap]. rewrite last_snoc. by rewrite removelast_snoc.
Qed.

Lemma write_file_new fs d x content : fs_wf fs → node fs d = Some Node_.Dir →
  (node fs (d ++ [x]) = None ∨ ∃ c, node fs (d ++ [x]) = Some (Node_.File c)) →
  write_file fs (path_of (d ++ [x])) content = Ok (put fs (d ++ [x]) (Node_.File content)).
Proof.
  intros Hwf Hd Hx. unfold write_file.
  assert (lookup_path fs true (path_of (d ++ [x])) = Ok (d ++ [x])) as ->.
  { destruct Hx as [Hx|[c Hx]]; [|apply lookup_path_of; [done|right; eauto]].
    apply lookup_path_Ok. split; [done|]. exists (0 + 0). split; [lia|]. rewrite path_of_app.
    apply (leads_app fs true _ _ _ d); [constructor; apply (leads_names fs false [] d); by auto|done|].
    intros _. split; [done|]. by apply leads_new. }
  cbn [rbind]. destruct Hx as [->|[c ->]]; done.
Qed.

(** The path a tool operates on is absolute. *)
Lemma resolve_canonical fs a r k : fs_wf fs → a = classify (path_of k) (path_of r) →
  canonicalize fs (components (ctx_project_root ctx)) = Ok (path_of r) →
  ctx_resolve_create ctx fs (path_of k) = resolve_create_file_path fs (path_of k) (components (ctx_project_root ctx)).
Proof. done. Qed.

(** What follows the authorization of [d ++ names ++ [x]]. *)
Lemma write_tail fs d names x r content :
  fs_wf fs → canonicalize fs (components (ctx_project_root ctx)) = Ok (path_of r) →
  node fs d = Some Node_.Dir → reserved_name x = false →
  (all_missing fs d (names ++ [x]) ∨ names = [] ∧ ∃ old, node fs (d ++ [x]) = Some (Node_.File old)) →
  let k := (d ++ names) ++ [x] in
  let a := classify (path_of k) (path_of r) in
  let path := operation_path a in
  let fs' := add_dirs fs d names in
  runs (match parent path with Some p => make_dirs world p | None => st_ret tt end) fs tt fs' ∧
  (∀ message, runs (W := W) (revalidate (λ fs, ctx_resolve_create ctx fs path) a message) fs' tt fs') ∧
  runs (W := W) (write_awaited world path content) fs' tt (put fs' k (Node_.File content)).
Proof.
  intros Hwf Hr Hd Hres Hcase. cbv zeta. cbn [operation_path classify]. rewrite parent_path_of.
  assert (Hm : all_missing fs d names).
  { destruct Hcase as [Hm|[-> _]]; [|done]. by destruct names. }
  destruct (add_dirs_ok fs d names Hwf Hd Hm) as (Hwf' & Hg & Hdn).
  assert (Hx : node (add_dirs fs d names) ((d ++ names) ++ [x]) = None ∨
               ∃ c, node (add_dirs fs d names) ((d ++ names) ++ [x]) = Some (Node_.File c)).
  { rewrite add_dirs_old by apply not_new_dir. destruct Hcase as [Hmiss|[-> [old Ho]]].
    - left. rewrite <- app_assoc. destruct names as [|y names]; [done|by apply missing_beyond].
    - right. rewrite app_nil_r. eauto. }
  assert (Hr' : canonicalize (add_dirs fs d names) (components (ctx_project_root ctx)) = Ok (path_of r)).
  { apply canonicalize_Ok in Hr as (r' & Hr & Heq). apply canonicalize_Ok. exists r'.
    split; [by eapply grows_lookup|done]. }
  split; [by apply runs_make_dirs, create_dir_all_missing|].
  split; [|by apply (runs_write _ Hq), write_file_new].
  intros message. apply runs_revalidate. unfold ctx_resolve_create. rewrite absolute_path. cbn [operation_path classify].
  destruct Hx as [Hx|Hx]; [by apply resolve_create_missing|].
  apply resolve_create_present; [done|by right|done..].
Qed.

Lemma create_resolves fs p a : fs_wf fs → ctx_resolve_create ctx fs p = Ok a →
  ∃ k r, canonicalize fs (components (ctx_project_root ctx)) = Ok (path_of r) ∧ a = classify (path_of k) (path_of r).
Proof.
  intros Hwf (k & r & Hr & Hk & _)%(resolve_create_file_path_Ok fs Hwf). eauto.
Qed.

Lemma write_ends fs tool_directory input a d names x :
  fs_wf fs →
  ctx_resolve_create ctx fs (resolve_user_path fs (trim (wi_file_path input)) (base_dir tool_directory ctx)
    PreferSessionDirWhenMissing).1 = Ok a →
  operation_path a = path_of ((d ++ names) ++ [x]) → node fs d = Some Node_.Dir → reserved_name x = false →
  (all_missing fs d (names ++ [x]) ∨
   names = [] ∧ ∃ old, node fs (d ++ [x]) = Some (Node_.File old) ∧ valid_utf8 old = true) →
  ends (write_execute world tool_directory ctx (Ok input)) fs
    (put (add_dirs fs d names) ((d ++ names) ++ [x]) (Node_.File (wi_content input))).
Proof.
  intros Hwf Ha Hop Hd Hres Hcase. destruct (create_resolves _ _ _ Hwf Ha) as (k & r & Hr & Heq).
  assert (k = (d ++ names) ++ [x]) as -> by (rewrite Heq in Hop; by apply (inj path_of) in Hop).
  unfold write_execute. cbv zeta.
  assert (Hin : runs (inspect world (operation_path a)) fs (bool_decide (is_Some (node fs ((d ++ names) ++ [x])))) fs ∧
    runs (if bool_decide (is_Some (node fs ((d ++ names) ++ [x])))
          then fs_read world "Failed to read existing file: " (λ fs, read_to_string fs (operation_path a))
          else st_ret "") fs
      (match node fs ((d ++ names) ++ [x]) with Some (Node_.File old) => old | _ => "" end) fs).
  { destruct Hcase as [Hm|[-> (old & Ho & Hv)]].
    - assert (node fs ((d ++ names) ++ [x]) = None) as ->.
      { rewrite <- app_assoc. destruct names; [done|by apply missing_beyond]. }
      split; [|apply runs_ret]. apply (runs_inspect _ Hq). rewrite Hop, <- app_assoc.
      destruct names as [|y names]; [by apply (lookup_path_missing _ _ _ [])|by apply lookup_path_missing].
    - rewrite app_nil_r in *. rewrite Ho, bool_decide_eq_true_2 by eauto.
      assert (metadata fs (operation_path a) = Ok (Node_.File old)) as Hmeta.
      { apply metadata_Ok. exists (d ++ [x]). rewrite Hop, (lookup_path_of _ Hwf); [done|right; eauto]. }
      split; [by eapply (runs_inspect_present _ Hq)|]. apply (runs_read _ Hq). unfold read_to_string.
      rewrite Hmeta. cbn [rbind]. by rewrite Hv. }
  destruct Hin as [Hin Hread].
  eapply runs_ends; [apply runs_lift_Ok|]. eapply runs_ends; [apply runs_look|].
  eapply runs_ends; [by apply runs_resolve|]. eapply runs_ends; [by apply runs_authorize|].
  eapply runs_ends; [exact Hin|]. eapply runs_ends; [exact Hread|].
  apply (runs_ends _ _ _ tt fs).
  { case_bool_decide; [by apply runs_call, qu_file_time_assert|apply runs_ret]. }
  eapply runs_ends; [by apply runs_ask|].
  destruct (write_tail fs d names x r (wi_content input)) as (Hdirs & Hrev & Hwrite); try done.
  { destruct Hcase as [?|[-> (old & Ho & _)]]; eauto. }
  rewrite <- Heq in Hdirs, Hrev, Hwrite.
  eapply runs_ends; [exact Hdirs|]. eapply runs_ends; [apply Hrev|]. eapply runs_ends; [exact Hwrite|].
  repeat (eapply runs_ends; [first [by apply runs_publish|by apply runs_call, qu_lsp_touch|by apply runs_call, qu_file_time_read]|]).
  eapply ends_bind; [by apply ends_diagnostics|]. intros text. apply ends_ret.
Qed.

Lemma write_fails fs tool_directory input a k :
  fs_wf fs →
  ctx_resolve_create ctx fs (resolve_user_path fs (trim (wi_file_path input)) (base_dir tool_directory ctx)
    PreferSessionDirWhenMissing).1 = Ok a →
  operation_path a = path_of k →
  (node fs k = Some Node_.Dir ∨ ∃ old, node fs k = Some (Node_.File old) ∧ valid_utf8 old = false) →
  fails (write_execute world tool_directory ctx (Ok input)) fs fs.
Proof.
  intros Hwf Ha Hop Hcase.
  assert (∃ n e, metadata fs (operation_path a) = Ok n ∧ read_to_string fs (operation_path a) = Err e)
    as (n & e & Hmeta & Hread).
  { assert (Hl : ∀ n, present fs k → node fs k = Some n → metadata fs (operation_path a) = Ok n).
    { intros n Hp Hn. apply metadata_Ok. exists k. by rewrite Hop, (lookup_path_of _ Hwf). }
    unfold read_to_string. destruct Hcase as [Hd|(old & Ho & Hv)].
    - specialize (Hl _ (or_introl Hd) Hd). eexists _, _. rewrite Hl. by split.
    - specialize (Hl _ (or_intror (ex_intro _ _ Ho)) Ho). eexists _, _. rewrite Hl. cbn [rbind]. by rewrite Hv. }
  unfold write_execute. cbv zeta.
  eapply runs_fails; [apply runs_lift_Ok|]. eapply runs_fails; [apply runs_look|].
  eapply runs_fails; [by apply runs_resolve|]. eapply runs_fails; [by apply runs_authorize|].
  eapply runs_fails; [by eapply runs_inspect_present|]. apply fails_bind. by eapply fails_read.
Qed.
End write.

(** In a world that grants every request and leaves the files alone, the write tool does exactly what
    it says. When the authorized location is a text file, or a missing file whose existing
    ancestor is a directory, the tool succeeds (its own revalidation never refuses), the location
    holds the content, the missing directories above it are made, and nothing else changes. When
    a directory or a file that is not UTF-8 text is there, it fails and changes nothing. *)
Lemma quiet_write_is_exact {W} (world : World W) (ctx : ToolContext) (s : TS W)
    (tool_directory : string) (input : WriteInput) (a : AuthorizedFilePath)
    (Hq : quiet world) (Hwf : fs_wf (ts_fs s))
    (Ha : ctx_resolve_create ctx (ts_fs s)
            (resolve_user_path (ts_fs s) (trim (wi_file_path input)) (base_dir tool_directory ctx)
               PreferSessionDirWhenMissing).1 = Ok a) :
  let fs := ts_fs s in
  let '(r, s') := write_execute world tool_directory ctx (Ok input) s in
  let fs' := ts_fs s' in
  (∀ d names x, operation_path a = path_of (d ++ names ++ [x]) → node fs d = Some Node_.Dir →
     reserved_name x = false →
     (node fs (d ++ take 1 (names ++ [x])) = None ∨
      names = [] ∧ ∃ old, node fs (d ++ [x]) = Some (Node_.File old) ∧ valid_utf8 old = true) →
     is_ok r = true ∧
     ∀ j, node fs' j = if bool_decide (j = d ++ names ++ [x]) then Some (Node_.File (wi_content input))
                       else if bool_decide (d `prefix_of` j ∧ j `prefix_of` d ++ names) then Some Node_.Dir
                       else node fs j) ∧
  (∀ k, operation_path a = path_of k →
     (node fs k = Some Node_.Dir ∨ ∃ old, node fs k = Some (Node_.File old) ∧ valid_utf8 old = false) →
     is_ok r = false ∧ fs' = fs).
Proof.
  cbv zeta. destruct (write_execute world tool_directory ctx (Ok input) s) as [r s'] eqn:E. split.
  - intros d names x Hop Hd Hres Hcase. rewrite app_assoc in Hop.
    destruct (write_ends world Hq ctx (ts_fs s) tool_directory input a d names x) with (s := s)
      as (out & s1 & E1 & Hs1); try done.
    { destruct Hcase as [Hm|?]; [left|by right]. by destruct names. }
    rewrite E1 in E. injection E as <- <-. split; [done|]. intros j. rewrite Hs1, node_put, <- app_assoc.
    case_bool_decide as Ej; [done|]. case_bool_decide as En.
    + destruct En as [[l ->] Hl]. apply prefix_app_inv in Hl. destruct l as [|y l].
      * rewrite app_nil_r. rewrite add_dirs_old; [done|]. intros (l & _ & Hne & Heq).
        rewrite <- (app_nil_r d) in Heq at 1. apply app_inv_head in Heq. by destruct Hne.
      * apply add_dirs_new. by exists (y :: l).
    + apply add_dirs_old. intros (l & Hl & _ & ->). apply En. split; [by exists l|by apply prefix_app].
  - intros k Hop Hcase.
    destruct (write_fails world Hq ctx (ts_fs s) tool_directory input a k) with (s := s)
      as (e & s1 & E1 & Hs1); try done.
    rewrite E1 in E. injection E as <- <-. by split.
Qed.

Lemma quiet_world_quiet : quiet quiet_world.
Proof. split; try done. intros f a env [= <-]. done. Qed.

(** ** Patches, exactly *)

Section patches.
Context {W : Type} (world : World W) (Hq : quiet world) (ctx : ToolContext).

(** The text at a location before the patch. *)
Definition text_at (fs : FS) (k : Loc) : string :=
  match node fs k with Some (Node_.File c) => c | _ => "" end.

(** A patch that updates the text file at [k]. *)
Definition updates (fs : FS) (p : FilePatch) (k : Loc) : Prop :=
  fp_operation p = PatchOp.Update ∧
  lookup_path fs false (resolve_path_against_directory ctx
    (join (components (ctx_directory ctx)) (components (fp_path p)))) = Ok k ∧
  ∃ c, node fs k = Some (Node_.File c) ∧ valid_utf8 c = true.

Definition update_change (fs : FS) (r : Loc) (p : FilePatch) (k : Loc) : FileChange := {|
  fc_relative_path := fp_path p; fc_source_path := path_of k;
  fc_source_authority := classify (path_of k) (path_of r); fc_move_target_path := None;
  fc_move_target_authority := None; fc_operation := PatchOp.Update; fc_old_content := text_at fs k;
  fc_new_content := apply_hunks (text_at fs k) (fp_hunks p);
  fc_diff := default "" (generate_diff (fp_path p) (text_at fs k) (apply_hunks (text_at fs k) (fp_hunks p))) |}.

Lemma runs_prepare fs r p k : fs_wf fs →
  canonicalize fs (components (ctx_project_root ctx)) = Ok (path_of r) → updates fs p k →
  runs (prepare_change world ctx p) fs (update_change fs r p k) fs.
Proof.
  intros Hwf Hr (Hop & Hk & c & Hc & Hv). unfold prepare_change. rewrite Hop. cbv zeta.
  eapply runs_bind.
  { apply runs_resolve. apply resolve_existing_file_path_Ok. exists k, r. by split_and!. }
  eapply runs_bind; [by apply runs_authorize|]. eapply runs_bind; [apply runs_ret|].
  unfold process_file_patch. rewrite Hop. cbv zeta. eapply runs_bind.
  - apply (runs_read _ Hq) with (a := c). unfold read_to_string.
    rewrite (proj2 (metadata_Ok fs _ (Node_.File c))); [cbn [rbind]; by rewrite Hv|].
    exists k. split; [|done]. apply lookup_path_of; [done|right; eauto].
  - unfold update_change, text_at. rewrite Hc. apply runs_ret.
Qed.

Lemma runs_map {A B} (f : A → T W B) xs ys fs :
  Forall2 (λ x y, runs (f x) fs y fs) xs ys → runs (st_map f xs) fs ys fs.
Proof.
  induction 1 as [|x y xs ys Hx _ IH]; simpl; [apply runs_ret|].
  eapply runs_bind; [done|]. eapply runs_bind; [done|]. apply runs_ret.
Qed.

Lemma ends_runs {A} (m : T W A) fs a fs' : runs m fs a fs' → ends m fs fs'.
Proof. intros H s Hs. destruct (H s Hs) as (s' & ? & ?). eauto. Qed.

Lemma ends_map {A B} (f : A → T W B) xs fs : (∀ x, ends (f x) fs fs) → ends (st_map f xs) fs fs.
Proof.
  intros Hf. induction xs as [|x xs IH]; simpl; [apply ends_ret|].
  eapply ends_bind; [apply Hf|]. intros y. eapply ends_bind; [apply IH|]. intros ys. apply ends_ret.
Qed.

Definition put_change (fs : FS) (ck : FileChange * Loc) : FS :=
  put fs ck.2 (Node_.File (fc_new_content ck.1)).

(** Updating a file that is still there. *)
Lemma ends_apply fs0 fs r p k : fs_wf fs → grows fs0 fs →
  canonicalize fs0 (components (ctx_project_root ctx)) = Ok (path_of r) → updates fs0 p k →
  let fs' := put_change fs (update_change fs0 r p k, k) in
  ends (apply_change world ctx (update_change fs0 r p k)) fs fs' ∧ fs_wf fs' ∧ grows fs0 fs'.
Proof.
  intros Hwf Hg Hr (Hop & Hk & c & Hc & Hv). cbv zeta.
  assert (∃ c', node fs k = Some (Node_.File c')) as [c' Hc'].
  { by apply (gr_node _ _ Hg) in Hc. }
  assert (∃ d x, k = d ++ [x]) as (d & x & ->).
  { destruct k as [|x d _] using rev_ind; [done|eauto]. }
  assert (Hd : node fs d = Some Node_.Dir) by by eapply wf_tree.
  split_and!.
  - unfold apply_change, update_change. cbn. eapply runs_ends.
    { apply runs_revalidate. apply resolve_existing_file_path_Ok. exists (d ++ [x]), r. split_and!.
      - apply canonicalize_Ok in Hr as (r' & Hr & Heq). apply canonicalize_Ok. exists r'.
        split; [by eapply grows_lookup|done].
      - rewrite absolute_path. apply lookup_path_of; [done|right; eauto].
      - done. }
    eapply runs_ends; [apply (runs_write _ Hq), write_file_new; by eauto|]. apply ends_ret.
  - apply put_wf; [done|done|]. right. right. congruence.
  - etrans; [done|]. apply put_grows. right. eauto.
Qed.

Lemma ends_apply_all fs0 r ps ks fs : fs_wf fs → grows fs0 fs →
  canonicalize fs0 (components (ctx_project_root ctx)) = Ok (path_of r) → Forall2 (updates fs0) ps ks →
  ends (st_map (apply_change world ctx) (zip_with (update_change fs0 r) ps ks)) fs
    (fold_left put_change (zip (zip_with (update_change fs0 r) ps ks) ks) fs).
Proof.
  intros Hwf Hg Hr H. revert fs Hwf Hg. induction H as [|p k ps ks Hp _ IH]; intros fs Hwf Hg; simpl.
  { apply ends_ret. }
  destruct (ends_apply fs0 fs r p k) as (He & Hwf' & Hg'); try done.
  eapply ends_bind; [exact He|]. intros a. eapply ends_bind; [by apply IH|]. intros ys. apply ends_ret.
Qed.
End patches.

(** A patch of updates is applied to the texts as they were before the patch. In a world that grants
    every request and leaves the files alone, a patch whose sections all update text files
    succeeds, and what it leaves is each section's hunks applied to the original text of its
    file, written in the order of the sections: so when two sections name the same file the
    edits of the first are lost. *)
Lemma quiet_updates_apply_to_originals {W} (world : World W) (ctx : ToolContext) (s : TS W)
    (syntax : PatchSyntax) (patch_text : string) (ks : list Loc) (r : Loc)
    (Hq : quiet world) (Hwf : fs_wf (ts_fs s))
    (Hroot : canonicalize (ts_fs s) (components (ctx_project_root ctx)) = Ok (path_of r))
    (Hsome : ks ≠ [] ∧ trim patch_text ≠ "")
    (Hupdates : Forall2 (updates ctx (ts_fs s)) (parse_multi_file_patch syntax patch_text) ks) :
  let '(result, s') := patch_execute world syntax ctx (Ok patch_text) s in
  is_ok result = true ∧
  ts_fs s' = fold_left (λ fs pk, put fs pk.2 (Node_.File (apply_hunks (text_at (ts_fs s) pk.2) (fp_hunks pk.1))))
               (zip (parse_multi_file_patch syntax patch_text) ks) (ts_fs s).
Proof.
  destruct Hsome as [Hks Htrim]. set (ps := parse_multi_file_patch syntax patch_text) in *.
  set (fs := ts_fs s) in *.
  assert (Hrun : ends (patch_execute world syntax ctx (Ok patch_text)) fs
    (fold_left put_change (zip (zip_with (update_change fs r) ps ks) ks) fs)).
  { unfold patch_execute. eapply runs_ends; [apply runs_lift_Ok|].
    rewrite bool_decide_eq_false_2 by done. cbv zeta. fold ps.
    rewrite bool_decide_eq_false_2 by (intros Hps; rewrite Hps in Hupdates; by inversion Hupdates).
    eapply runs_ends.
    { apply (runs_map _ ps (zip_with (update_change fs r) ps ks)).
      clear Hks. induction Hupdates as [|p k ps' ks' Hp _ IH]; simpl; [done|].
      constructor; [by apply runs_prepare|done]. }
    eapply runs_ends; [by apply runs_ask|]. eapply ends_bind; [by apply ends_apply_all|]. intros applied.
    repeat (eapply ends_bind; [|intros ?]);
      first [by apply ends_diagnostics|apply ends_ret|apply ends_map; intros ?; apply ends_runs with tt];
      first [by apply runs_publish|by apply runs_call, qu_lsp_touch]. }
  destruct (Hrun s eq_refl) as (out & s' & -> & Hs'). split; [done|]. rewrite Hs'. fold fs.
  clear -Hupdates. generalize fs at 2 4. induction Hupdates as [|p k ps' ks' _ _ IH]; intros fs'; simpl; [done|].
  apply IH.
Qed.

(** ** Examples *)

Definition demo_patch_run (text : string) (fs : FS) : result ToolError ToolOutput * TS unit :=
  patch_execute quiet_world demo_syntax demo_ctx (Ok text) {| ts_env := (tt, fs); ts_trace := [] |}.

(** Two sections for the same file of two lines. *)
Definition two_sections : string := text_of
  ["diff --git a/a.txt b/a.txt"; "--- a/a.txt"; "+++ b/a.txt"; "@@ -1,1 +1,1 @@"; "-one"; "+ONE";
   "diff --git a/a.txt b/a.txt"; "--- a/a.txt"; "+++ b/a.txt"; "@@ -2,1 +2,1 @@"; "-two"; "+TWO"].

Definition two_lines_fs : FS := put demo_fs ["ws"; "a.txt"] (Node_.File (text_of ["one"; "two"])).

Lemma two_lines_fs_wf : fs_wf two_lines_fs.
Proof.
  apply (put_wf _ ["ws"] "a.txt"); [apply demo_fs_wf|done|]. right. right. by vm_compute.
Qed.

Lemma two_sections_update p : p ∈ parse_multi_file_patch demo_syntax two_sections →
  updates demo_ctx two_lines_fs p ["ws"; "a.txt"].
Proof.
  intros Hp.
  assert (Forall (λ p, fp_path p = "a.txt" ∧ fp_operation p = PatchOp.Update)
    (parse_multi_file_patch demo_syntax two_sections)) as Hall.
  { vm_compute. by repeat constructor. }
  rewrite Forall_forall in Hall. destruct (Hall _ Hp) as [Hpath Hop].
  split; [done|]. rewrite Hpath. split; [by vm_compute|]. exists (text_of ["one"; "two"]). split; by vm_compute.
Qed.

(** The edit of the first section is lost. *)
(** A section that renames a file to itself removes it. *)
Lemma move_onto_itself_removes :
  let text := text_of ["diff --git a/a.txt b/a.txt"; "rename from a.txt"; "rename to a.txt"; "--- a/a.txt";
                       "+++ b/a.txt"; "@@ -1,1 +1,1 @@"; "-one"; "+ONE"] in
  is_ok (demo_patch_run text demo_fs).1 = true ∧
  node (ts_fs (demo_patch_run text demo_fs).2) ["ws"; "a.txt"] = None.
Proof. split; by vm_compute. Qed.
