(* ===== verification/EditReplacers.v ===== *)
(** * The replacers of the edit tool

    crates/agendao-tool/src/edit/replacers.rs: the strategies that find what the
    model means by the text to replace, and the replacement.  Strings are lists of
    UTF-8 bytes, a character is the string of its bytes.  Indexing or slicing past the
    end of a vector is a panic in the source; it is [None] here.  [f64] is IEEE
    binary64 with rounding to nearest.  The regular expression that WhitespaceNormalizedReplacer
    builds is a parameter. *)

From Stdlib Require Import SpecFloat.
From S2P Require Import Prelude TextLines.

(** ** Floating point numbers *)

Definition f64 : Type := spec_float.
(** [n as f64] *)
Definition f64_of (n : nat) : f64 := binary_normalize 53 1024 (Z.of_nat n) 0 false.
Definition f64_add (a b : f64) : f64 := SFadd 53 1024 a b.
Definition f64_sub (a b : f64) : f64 := SFsub 53 1024 a b.
Definition f64_div (a b : f64) : f64 := SFdiv 53 1024 a b.
Definition f64_ge (a b : f64) : bool := SFleb b a.
Definition f64_gt (a b : f64) : bool := SFltb b a.

Definition SINGLE_CANDIDATE_SIMILARITY_THRESHOLD : f64 := f64_of 0.
(** 0.3 *)
Definition MULTIPLE_CANDIDATES_SIMILARITY_THRESHOLD : f64 := S754_finite false 5404319552844595 (-54).
(** 0.5 *)
Definition one_half : f64 := S754_finite false 4503599627370496 (-53).

(** ** Edit distance *)

(** One row of the matrix from the row above: [diagonal] and [left] are the cells at the upper left
    and at the left. *)
Fixpoint levenshtein_row (x : string) (ys : list string) (diagonal left : nat) (above : list nat) : list nat :=
  match ys, above with
  | y :: ys, up :: above =>
      let cost := if bool_decide (x = y) then 0 else 1 in
      let cell := Nat.min (Nat.min (up + 1) (left + 1)) (diagonal + cost) in
      cell :: levenshtein_row x ys up cell above
  | _, _ => []
  end.

(** The rows of the matrix one after the other: row [i] starts with [i]. *)
Fixpoint levenshtein_rows (xs ys : list string) (i : nat) (row : list nat) : list nat :=
  match xs with
  | [] => row
  | x :: xs =>
      match row with
      | [] => []
      | first :: above => levenshtein_rows xs ys (S i) (S i :: levenshtein_row x ys first (S i) above)
      end
  end.

Definition levenshtein (a b : string) : nat :=
  if bool_decide (a = "") || bool_decide (b = "") then Nat.max (String.length a) (String.length b)
  else
    let a_chars := chars a in
    let b_chars := chars b in
    List.last (levenshtein_rows a_chars b_chars 0 (seq 0 (S (length b_chars)))) 0.

(** ** Lines and slices *)

Definition split_lines (s : string) : list string := split_on newline s.

(** [if v.last().map(|l| l.is_empty()) == Some(true) { v.pop(); }] *)
Definition pop_empty (v : list string) : list string :=
  match last v with Some l => if bool_decide (l = "") then removelast v else v | None => v end.

(** [s[a..b]] at character boundaries *)
Definition byte_slice (s : string) (a b : nat) : string := str_take (b - a) (str_drop a s).

(** [for i in 0..=(lines.len().saturating_sub(n))], each block [lines[i..i + n].join] of lines: a
    panic when there are fewer than [n] lines. *)
Definition blocks (n : nat) (lines : list string) : option (list string) :=
  if length lines <? n then None
  else Some ((λ i, str_join nl (take n (drop i lines))) <$> seq 0 (S (length lines - n))).

(** [s.split_whitespace()] *)
Fixpoint whitespace_words (cs : list string) (word : string) : list string :=
  match cs with
  | [] => if bool_decide (word = "") then [] else [word]
  | c :: cs =>
      if is_whitespace c then (if bool_decide (word = "") then [] else [word]) ++ whitespace_words cs ""
      else whitespace_words cs (word +:+ c)
  end.
Definition split_whitespace (s : string) : list string := whitespace_words (chars s) "".

(** ** The strategies *)

Definition Strategy : Type := string → string → option (list string).

Definition simple_replacer : Strategy := λ _ find, Some [find].

(** The inner loop: the lines from [i] on against the lines to find. *)
Fixpoint trimmed_match (original search : list string) : option bool :=
  match search with
  | [] => Some true
  | s :: search =>
      match original with
      | [] => None
      | o :: original => if negb (bool_decide (trim o = trim s)) then Some false else trimmed_match original search
      end
  end.

Definition line_bytes (ls : list string) : nat := sum_list_with (λ l, String.length l + 1) ls.

(** What is pushed for a match at line [i]. *)
Definition matched_text (content : string) (original : list string) (i n : nat) : string :=
  let start := line_bytes (take i original) in
  let matched := take n (drop i original) in
  let len := sum_list (imap (λ idx l, if idx <? n - 1 then String.length l + 1 else String.length l) matched) in
  byte_slice content start (start + len).

Fixpoint collect_matches (content : string) (original search : list string) (indices : list nat)
    : option (list string) :=
  match indices with
  | [] => Some []
  | i :: indices =>
      match trimmed_match (drop i original) search with
      | None => None
      | Some matches =>
          rest ← collect_matches content original search indices;
          Some ((if matches : bool then [matched_text content original i (length search)] else []) ++ rest)
      end
  end.

Definition line_trimmed_replacer : Strategy := λ content find,
  let original := split_lines content in
  let search := pop_empty (split_lines find) in
  if bool_decide (search = []) then Some []
  else collect_matches content original search (seq 0 (S (length original - length search))).

(** The pairs of lines that match the first and the last line to find, the last one the
    nearest at least two lines below. *)
Definition anchor_end (original : list string) (last_line : string) (i : nat) : option nat :=
  (λ j, i + 2 + j) <$> position (λ l, bool_decide (trim l = last_line)) (drop (i + 2) original).

Definition anchors (original : list string) (first_line last_line : string) : list (nat * nat) :=
  omap (λ il, if negb (bool_decide (trim il.2 = first_line)) then None
              else (λ j, (il.1, j)) <$> anchor_end original last_line il.1)
    (imap pair original).

(** [line_start_positions] *)
Definition line_start_positions (original : list string) : list nat :=
  0 :: ((λ i, line_bytes (take (S i) original)) <$> seq 0 (length original)).

Definition extract_block (content : string) (original : list string) (start_line end_line : nat) : string :=
  let positions := line_start_positions original in
  let start_byte := default 0 (positions !! start_line) in
  let end_byte := match positions !! (end_line + 1) with
                  | Some p => p - 1
                  | None => String.length content
                  end in
  byte_slice content start_byte end_byte.

(** The terms of the similarity of the inner lines; a pair of empty lines has none. *)
Definition line_similarity (original search : list string) (start_line j : nat) : option f64 :=
  let original_line := trim (default "" (original !! (start_line + j))) in
  let search_line := trim (default "" (search !! j)) in
  let max_len := Nat.max (String.length original_line) (String.length search_line) in
  if max_len =? 0 then None
  else Some (f64_sub (f64_of 1) (f64_div (f64_of (levenshtein original_line search_line)) (f64_of max_len))).

Definition inner_lines (search_size actual_size : nat) : list nat :=
  seq 1 (Nat.min (search_size - 1) (actual_size - 1) - 1).

(** The sum with its early exit, for a single candidate. *)
Fixpoint single_similarity (original search : list string) (start_line lines_to_check : nat) (js : list nat)
    (sim : f64) : f64 :=
  match js with
  | [] => sim
  | j :: js =>
      match line_similarity original search start_line j with
      | None => single_similarity original search start_line lines_to_check js sim
      | Some s =>
          let sim := f64_add sim (f64_div s (f64_of lines_to_check)) in
          if f64_ge sim SINGLE_CANDIDATE_SIMILARITY_THRESHOLD then sim
          else single_similarity original search start_line lines_to_check js sim
      end
  end.

Definition sum_similarity (original search : list string) (start_line : nat) (js : list nat) : f64 :=
  fold_left (λ sim j, match line_similarity original search start_line j with
                      | None => sim
                      | Some s => f64_add sim s
                      end) js (f64_of 0).

Definition candidate_similarity (single : bool) (original search : list string) (c : nat * nat) : f64 :=
  let actual_size := c.2 - c.1 + 1 in
  let lines_to_check := Nat.min (length search - 2) (actual_size - 2) in
  if 0 <? lines_to_check then
    let js := inner_lines (length search) actual_size in
    if single then single_similarity original search c.1 lines_to_check js (f64_of 0)
    else f64_div (sum_similarity original search c.1 js) (f64_of lines_to_check)
  else f64_of 1.

(** The most similar of several candidates, the first one of equals. *)
Definition best_candidate (original search : list string) (candidates : list (nat * nat))
    : option (nat * nat) * f64 :=
  fold_left (λ best c,
    let similarity := candidate_similarity false original search c in
    if f64_gt similarity best.2 then (Some c, similarity) else best)
    candidates (None, SFopp (f64_of 1)).

Definition block_anchor_replacer : Strategy := λ content find,
  let original := split_lines content in
  let search := split_lines find in
  if length search <? 3 then Some []
  else
    let search := pop_empty search in
    match head search, last search with
    | Some first_line, Some last_line =>
        match anchors original (trim first_line) (trim last_line) with
        | [] => Some []
        | [c] =>
            Some (if f64_ge (candidate_similarity true original search c) SINGLE_CANDIDATE_SIMILARITY_THRESHOLD
                  then [extract_block content original c.1 c.2] else [])
        | candidates =>
            let '(best_match, max_similarity) := best_candidate original search candidates in
            Some (if f64_ge max_similarity MULTIPLE_CANDIDATES_SIMILARITY_THRESHOLD
                  then match best_match with
                       | Some c => [extract_block content original c.1 c.2]
                       | None => []
                       end
                  else [])
        end
    | _, _ => None
    end.

Definition normalize_whitespace (text : string) : string := str_join " " (split_whitespace text).

Section strategies.
(** The first match in a line of the words to find with white space between them: [None] when there is no
    match, or no regular expression. *)
Context (find_words : list string → string → option string).

Definition whitespace_line (find : string) (line : string) : option string :=
  if bool_decide (normalize_whitespace line = normalize_whitespace find) then Some line
  else if contains (normalize_whitespace find) (normalize_whitespace line)
       then (if bool_decide (split_whitespace find = []) then None else find_words (split_whitespace find) line)
       else None.

Definition whitespace_normalized_replacer : Strategy := λ content find,
  let lines := split_lines content in
  let results := omap (whitespace_line find) lines in
  let find_lines := split_lines find in
  if 1 <? length find_lines then
    bs ← blocks (length find_lines) lines;
    Some (results ++
      filter (λ block, normalize_whitespace block = normalize_whitespace find) bs)
  else Some results.

(** *** Indentation *)

Definition blank (line : string) : bool := bool_decide (trim line = "").

(** [line.chars().take_while(|c| c.is_whitespace()).count()] *)
Definition indent (line : string) : nat := length (chars line) - length (drop_while is_whitespace (chars line)).

Definition min_indent (lines : list string) : nat :=
  match indent <$> lines with [] => 0 | n :: ns => fold_left Nat.min ns n end.

Definition remove_indentation (text : string) : string :=
  let lines := split_lines text in
  let non_empty := filter (λ l, Is_true (negb (blank l))) lines in
  if bool_decide (non_empty = []) then text
  else
    let n := min_indent non_empty in
    str_join nl ((λ l, if blank l then l else str_concat (drop n (chars l))) <$> lines).

Definition indentation_flexible_replacer : Strategy := λ content find,
  bs ← blocks (length (split_lines find)) (split_lines content);
  Some (filter (λ block, remove_indentation block = remove_indentation find) bs).

(** *** Escapes *)

Definition backslash : string := "\".

(** What a backslash and this character stand for. *)
Definition unescaped (c : string) : option string :=
  if bool_decide (c = "n") then Some nl
  else if bool_decide (c = "t") then Some (String (Ascii.ascii_of_nat 9) "")
  else if bool_decide (c = "r") then Some cr
  else if bool_decide (c ∈ ["'"; String (Ascii.ascii_of_nat 34) ""; "`"; backslash; "$"; nl]) then Some c
  else None.

Fixpoint unescape_chars (cs : list string) : string :=
  match cs with
  | [] => ""
  | c :: rest =>
      if bool_decide (c = backslash) then
        match rest with
        | d :: rest' =>
            match unescaped d with
            | Some text => text +:+ unescape_chars rest'
            | None => c +:+ unescape_chars rest
            end
        | [] => c
        end
      else c +:+ unescape_chars rest
  end.
Definition unescape_string (s : string) : string := unescape_chars (chars s).

Definition escape_normalized_replacer : Strategy := λ content find,
  let unescaped_find := unescape_string find in
  let results := if contains unescaped_find content then [unescaped_find] else [] in
  let find_lines := split_lines unescaped_find in
  if 1 <? length find_lines then
    bs ← blocks (length find_lines) (split_lines content);
    Some (results ++ filter (λ block, unescape_string block = unescaped_find) bs)
  else Some results.

(** *** Boundaries and context *)

Definition trimmed_boundary_replacer : Strategy := λ content find,
  let trimmed_find := trim find in
  if bool_decide (trimmed_find = find) then Some []
  else
    let results := if contains trimmed_find content then [trimmed_find] else [] in
    bs ← blocks (length (split_lines find)) (split_lines content);
    Some (results ++ filter (λ block, trim block = trimmed_find) bs).

(** The inner lines of a block against those to find: how many match, of how many that are not empty in both. *)
Definition context_counts (block find : list string) : nat * nat :=
  let pairs := zip (removelast (tail block)) (removelast (tail find)) in
  let relevant := filter (λ p, trim p.1 ≠ "" ∨ trim p.2 ≠ "") pairs in
  (length (filter (λ p, trim p.1 = trim p.2) relevant), length relevant).

Definition context_block (content_lines find_lines : list string) (i : nat) : option string :=
  j ← anchor_end content_lines (trim (default "" (last find_lines))) i;
  let block := take (j - i + 1) (drop i content_lines) in
  if bool_decide (length block = length find_lines) then
    let '(matching, total) := context_counts block find_lines in
    if (total =? 0) || f64_ge (f64_div (f64_of matching) (f64_of total)) one_half
    then Some (str_join nl block) else None
  else None.

Definition context_aware_replacer : Strategy := λ content find,
  let find_lines := split_lines find in
  if length find_lines <? 3 then Some []
  else
    let find_lines := pop_empty find_lines in
    let content_lines := split_lines content in
    Some (omap (λ il, if negb (bool_decide (trim il.2 = trim (default "" (head find_lines)))) then None
                      else context_block content_lines find_lines il.1) (imap pair content_lines)).

Definition multi_occurrence_replacer : Strategy := λ content find,
  Some (replicate (match_count find content) find).

(** ** The replacement *)

(** [CompositeReplacer::default] *)
Definition replacers : list Strategy :=
  [simple_replacer; line_trimmed_replacer; block_anchor_replacer; whitespace_normalized_replacer;
   indentation_flexible_replacer; escape_normalized_replacer; trimmed_boundary_replacer;
   context_aware_replacer; multi_occurrence_replacer].

Inductive ReplaceError := NoChanges | CouldNotFind | MultipleMatches.

(** The loop over the searches of one replacer; the flag is [not_found]. *)
Fixpoint try_searches (content new_string : string) (replace_all not_found : bool) (searches : list string)
    : string + bool :=
  match searches with
  | [] => inr not_found
  | search :: searches =>
      match find_sub search content with
      | None => try_searches content new_string replace_all not_found searches
      | Some index =>
          if replace_all then inl (str_replace search new_string content)
          else if negb (bool_decide (rfind_sub search content = Some index))
               then try_searches content new_string replace_all false searches
               else inl (str_take index content +:+ new_string +:+
                         str_drop (index + String.length search) content)
      end
  end.

Fixpoint try_replacers (content old_string new_string : string) (replace_all not_found : bool)
    (rs : list Strategy) : option (string + bool) :=
  match rs with
  | [] => Some (inr not_found)
  | r :: rs =>
      searches ← r content old_string;
      match try_searches content new_string replace_all not_found searches with
      | inl result => Some (inl result)
      | inr not_found => try_replacers content old_string new_string replace_all not_found rs
      end
  end.

(** [CompositeReplacer::replace] *)
Definition replace (content old_string new_string : string) (replace_all : bool)
    : option (result ReplaceError string) :=
  if bool_decide (old_string = new_string) then Some (Err NoChanges)
  else
    outcome ← try_replacers content old_string new_string replace_all true replacers;
    Some (match outcome with
          | inl text => Ok text
          | inr not_found => Err (if not_found : bool then CouldNotFind else MultipleMatches)
          end).
End strategies.

Definition normalize_line_endings (text : string) : string := str_replace (cr +:+ nl) nl text.
