(* ===== verification/EditReplacersProps.v ===== *)
(** * What the edit tool replaces

    Proofs about EditReplacers.v: the edit distance, the single place a replacement
    changes, and how close to the requested text what is replaced must be. *)

From Stdlib Require Import SpecFloat.
From S2P Require Import Prelude TextLines EditReplacers.

(** ** Edit distance *)

(** An alignment of two lists with [n] insertions, deletions and substitutions. *)
Inductive edits {A} : list A → list A → nat → Prop :=
| edits_nil : edits [] [] 0
| edits_keep x xs ys n : edits xs ys n → edits (x :: xs) (x :: ys) n
| edits_substitute x y xs ys n : edits xs ys n → edits (x :: xs) (y :: ys) (S n)
| edits_delete x xs ys n : edits xs ys n → edits (x :: xs) ys (S n)
| edits_insert y xs ys n : edits xs ys n → edits xs (y :: ys) (S n).
#[local] Hint Constructors edits : core.

Definition least_edits {A} (xs ys : list A) (n : nat) : Prop :=
  edits xs ys n ∧ ∀ m, edits xs ys m → n ≤ m.

Lemma edits_app {A} (xs1 xs2 ys1 ys2 : list A) n1 n2 :
  edits xs1 ys1 n1 → edits xs2 ys2 n2 → edits (xs1 ++ xs2) (ys1 ++ ys2) (n1 + n2).
Proof. induction 1; intros; simpl; eauto. Qed.

Lemma edits_rev {A} (xs ys : list A) n : edits xs ys n → edits (rev xs) (rev ys) n.
Proof.
  induction 1 as [|x xs ys n _ IH|x y xs ys n _ IH|x xs ys n _ IH|y xs ys n _ IH]; simpl; [done|..].
  - replace n with (n + 0) by lia. by apply edits_app; [|repeat constructor].
  - replace (S n) with (n + 1) by lia. by apply edits_app; [|repeat constructor].
  - replace (S n) with (n + 1) by lia. rewrite <- (app_nil_r (rev ys)). by apply edits_app; [|repeat constructor].
  - replace (S n) with (n + 1) by lia. rewrite <- (app_nil_r (rev xs)). by apply edits_app; [|repeat constructor].
Qed.

(** The distance by recursion on the first elements. *)
Fixpoint distance (xs ys : list string) : nat :=
  match xs with
  | [] => length ys
  | x :: xs' =>
      (fix go ys := match ys with
                    | [] => S (length xs')
                    | y :: ys' => Nat.min (Nat.min (distance xs' ys + 1) (go ys' + 1))
                                    (distance xs' ys' + (if bool_decide (x = y) then 0 else 1))
                    end) ys
  end.

Lemma distance_nil_r xs : distance xs [] = length xs.
Proof. by destruct xs. Qed.

Lemma distance_cons x y xs ys : distance (x :: xs) (y :: ys) =
  Nat.min (Nat.min (distance xs (y :: ys) + 1) (distance (x :: xs) ys + 1))
    (distance xs ys + (if bool_decide (x = y) then 0 else 1)).
Proof. done. Qed.

Lemma edits_length_l {A} (xs : list A) : edits xs [] (length xs).
Proof. induction xs; simpl; auto. Qed.
Lemma edits_length_r {A} (ys : list A) : edits [] ys (length ys).
Proof. induction ys; simpl; auto. Qed.

Lemma distance_edits xs ys : edits xs ys (distance xs ys).
Proof.
  revert ys. induction xs as [|x xs IHx]; intros ys; [apply edits_length_r|].
  induction ys as [|y ys IHy]; [rewrite distance_nil_r; apply edits_length_l|]. rewrite distance_cons.
  set (d1 := distance xs (y :: ys)). set (d2 := distance (x :: xs) ys) in *. set (d3 := distance xs ys).
  assert (H1 : edits (x :: xs) (y :: ys) (d1 + 1)) by (rewrite Nat.add_1_r; apply edits_delete, IHx).
  assert (H2 : edits (x :: xs) (y :: ys) (d2 + 1)) by (rewrite Nat.add_1_r; by apply edits_insert).
  assert (H3 : edits (x :: xs) (y :: ys) (d3 + (if bool_decide (x = y) then 0 else 1))).
  { case_bool_decide; [subst; rewrite Nat.add_0_r; apply edits_keep, IHx|rewrite Nat.add_1_r; apply edits_substitute, IHx]. }
  destruct (Nat.min_spec (Nat.min (d1 + 1) (d2 + 1)) (d3 + (if bool_decide (x = y) then 0 else 1))) as [[_ ->]|[_ ->]]; [|done].
  by destruct (Nat.min_spec (d1 + 1) (d2 + 1)) as [[_ ->]|[_ ->]].
Qed.

Lemma distance_least xs ys n : edits xs ys n → distance xs ys ≤ n.
Proof.
  induction 1 as [|x xs ys n _ IH|x y xs ys n _ IH|x xs ys n H IH|y xs ys n H IH]; [done|..].
  - rewrite distance_cons, bool_decide_eq_true_2 by done. lia.
  - rewrite distance_cons. case_bool_decide; lia.
  - destruct ys as [|y ys]; [|rewrite distance_cons; lia]. rewrite distance_nil_r in *. simpl. lia.
  - destruct xs as [|x xs]; [simpl in *; lia|]. rewrite distance_cons. lia.
Qed.

Lemma distance_is_least xs ys : least_edits xs ys (distance xs ys).
Proof. split; [apply distance_edits|]. intros m. apply distance_least. Qed.

Lemma distance_rev xs ys : distance (rev xs) (rev ys) = distance xs ys.
Proof.
  apply Nat.le_antisymm; apply distance_least.
  - apply edits_rev, distance_edits.
  - rewrite <- (rev_involutive xs), <- (rev_involutive ys) at 1. apply edits_rev, distance_edits.
Qed.

(** The row of the matrix for a prefix [xs] (reversed): the distances to all prefixes of [ys], of
    which the first [done] ones (reversed) are given. *)
Fixpoint distances (xs done_ ys : list string) : list nat :=
  distance xs done_ :: match ys with [] => [] | y :: ys => distances xs (y :: done_) ys end.

Lemma levenshtein_row_correct x xs done_ ys :
  levenshtein_row x ys (distance xs done_) (distance (x :: xs) done_) (tail (distances xs done_ ys)) =
  tail (distances (x :: xs) done_ ys).
Proof.
  revert done_. induction ys as [|y ys IH]; intros done_; [done|]. cbn [distances tail].
  assert (Ht : ∀ d, ∃ l, distances xs d ys = distance xs d :: l ∧ l = tail (distances xs d ys)) by (intros d; by destruct ys; eexists).
  destruct (Ht (y :: done_)) as (l & Hl & Hl'). rewrite Hl. cbn [levenshtein_row].
  assert (E : distance (x :: xs) (y :: done_) =
    Nat.min (Nat.min (distance xs (y :: done_) + 1) (distance (x :: xs) done_ + 1))
      (distance xs done_ + (if bool_decide (x = y) then 0 else 1))) by apply distance_cons.
  rewrite <- E. destruct ys as [|y' ys'].
  - by rewrite Hl'.
  - rewrite Hl', IH. by destruct ys'.
Qed.

Lemma distances_head xs done_ ys : distances xs done_ ys = distance xs done_ :: tail (distances xs done_ ys).
Proof. by destruct ys. Qed.

Lemma levenshtein_rows_correct xs done_ ys :
  levenshtein_rows xs ys (length done_) (distances done_ [] ys) = distances (rev xs ++ done_) [] ys.
Proof.
  revert done_. induction xs as [|x xs IH]; intros done_; [done|]. cbn [levenshtein_rows].
  rewrite (distances_head done_), distance_nil_r.
  assert (E : S (length done_) :: levenshtein_row x ys (length done_) (S (length done_)) (tail (distances done_ [] ys)) =
              distances (x :: done_) [] ys).
  { rewrite (distances_head (x :: done_)), <- levenshtein_row_correct. by rewrite !distance_nil_r. }
  rewrite E. pose proof (IH (x :: done_)) as Hx. cbn [length] in Hx. rewrite Hx. simpl. by rewrite <- app_assoc.
Qed.

Lemma distances_last xs done_ ys : List.last (distances xs done_ ys) 0 = distance xs (rev ys ++ done_).
Proof.
  revert done_. induction ys as [|y ys IH]; intros done_; [done|].
  cbn [distances]. rewrite distances_head. rewrite <- (distances_head xs (y :: done_) ys).
  assert (Hl : ∀ n l, l ≠ [] → List.last (n :: l) 0 = List.last l 0) by (intros n [|]; done).
  rewrite Hl by by rewrite distances_head. rewrite IH. simpl. by rewrite <- app_assoc.
Qed.

Lemma distances_nil done_ ys : distances [] done_ ys = seq (length done_) (S (length ys)).
Proof.
  revert done_. induction ys as [|y ys IH]; intros done_; [done|]. cbn [distances]. rewrite IH. done.
Qed.

Lemma levenshtein_distance a b : a ≠ "" → b ≠ "" → levenshtein a b = distance (chars a) (chars b).
Proof.
  intros Ha Hb. unfold levenshtein. rewrite !bool_decide_eq_false_2 by done. simpl.
  change (0 :: seq 1 (length (chars b))) with (seq (length (@nil string)) (S (length (chars b)))).
  rewrite <- distances_nil. pose proof (levenshtein_rows_correct (chars a) [] (chars b)) as Hr.
  cbn [length] in Hr. rewrite Hr. rewrite distances_last, !app_nil_r. apply distance_rev.
Qed.

(** C16. [levenshtein] computes the edit distance: for two texts that are not empty, the least
    number of characters to insert, delete or substitute; with an empty text it is the number of
    bytes (not characters) of the other. *)
Theorem levenshtein_is_edit_distance a b :
  if bool_decide (a = "") || bool_decide (b = "")
  then levenshtein a b = Nat.max (String.length a) (String.length b)
  else least_edits (chars a) (chars b) (levenshtein a b).
Proof.
  destruct (bool_decide (a = "") || bool_decide (b = "")) eqn:E; [unfold levenshtein; by rewrite E|].
  apply orb_false_iff in E as [Ha%bool_decide_eq_false Hb%bool_decide_eq_false].
  rewrite levenshtein_distance by done. apply distance_is_least.
Qed.

(** ** The replacement *)

Section replacement.
Context (find_words : list string → string → option string).
Implicit Types content old_string new_string search text : string.

(** [search] is in [content] exactly once. *)
Definition unique_in search content : Prop :=
  ∃ a b, content = a +:+ search +:+ b ∧
    ∀ a' b', content = a' +:+ search +:+ b' → String.length a' = String.length a.

(** What a replacement of [search] gives. *)
Definition replaced (replace_all : bool) content search new_string text : Prop :=
  if replace_all then contains search content = true ∧ text = str_replace search new_string content
  else unique_in search content ∧
       ∃ a b, content = a +:+ search +:+ b ∧ text = a +:+ new_string +:+ b.

Lemma str_drop_after a b n : str_drop (String.length a + n) (a +:+ b) = str_drop n b.
Proof. induction a as [|c a IH]; [done|]. apply IH. Qed.

(** The searches that come before the one that is used are not there, or there more than once. *)
Definition unusable (replace_all : bool) content search : Prop :=
  contains search content = false ∨ replace_all = false ∧ contains search content = true ∧ ¬ unique_in search content.

Lemma find_unique content search i : find_sub search content = Some i →
  (rfind_sub search content = Some i ↔ unique_in search content).
Proof.
  intros Hf. split.
  - intros Hr. destruct (find_sub_Some _ _ _ Hf) as (a & b & Hab & Ha). exists a, b. split; [done|].
    intros a' b' Hc. rewrite Ha. by eapply unique_occurrence.
  - intros (a & b & Hab & Hu). destruct (rfind_sub_last search content a b Hab) as (j & Hj & _).
    destruct (rfind_sub_Some _ _ _ Hj) as (a1 & b1 & H1 & Hl1). destruct (find_sub_Some _ _ _ Hf) as (a2 & b2 & H2 & Hl2).
    rewrite Hj. f_equal. rewrite <- Hl1, <- Hl2. rewrite (Hu _ _ H1). symmetry. by eapply Hu.
Qed.

Lemma try_searches_spec content new_string replace_all searches not_found :
  match try_searches content new_string replace_all not_found searches with
  | inl text => ∃ before search after, searches = before ++ search :: after ∧
      Forall (unusable replace_all content) before ∧ replaced replace_all content search new_string text
  | inr still => Forall (unusable replace_all content) searches ∧
      (still = true ↔ not_found = true ∧ Forall (λ s, contains s content = false) searches)
  end.
Proof.
  revert not_found. induction searches as [|search searches IH]; intros not_found; simpl; [by split; [|naive_solver]|].
  destruct (find_sub search content) as [i|] eqn:Hf.
  - assert (Hc : contains search content = true) by (apply find_sub_contains; by eexists).
    destruct replace_all; simpl; [by exists [], search, searches|].
    pose proof (find_unique _ _ _ Hf) as Hu.
    case_bool_decide as Hr; simpl.
    + exists [], search, searches. split; [done|]. split; [done|]. split; [by apply Hu|].
      destruct (find_sub_Some _ _ _ Hf) as (a & b & Hab & Ha). exists a, b. split; [done|].
      subst content i. by rewrite str_take_app, str_drop_after, str_drop_app.
    + assert (Hun : unusable false content search) by (right; split; [done|]; split; [done|]; by rewrite <- Hu).
      specialize (IH false). destruct (try_searches _ _ _ _ _) as [text|still].
      * destruct IH as (before & s & after & -> & Hb & Hrep). exists (search :: before), s, after.
        split; [done|]. by split; [constructor|].
      * destruct IH as [Hall Hs]. split; [by constructor|]. rewrite Hs, Forall_cons, Hc. naive_solver.
  - assert (Hc : contains search content = false).
    { apply not_true_iff_false. rewrite find_sub_contains, Hf. by intros [? ?]. }
    assert (Hun : unusable replace_all content search) by by left.
    specialize (IH not_found). destruct (try_searches _ _ _ _ _) as [text|still].
    + destruct IH as (before & s & after & -> & Hb & Hrep). exists (search :: before), s, after.
      split; [done|]. by split; [constructor|].
    + destruct IH as [Hall Hs]. split; [by constructor|]. rewrite Hs, Forall_cons. naive_solver.
Qed.

(** What the strategies [rs] yield, when none of them panics. *)
Definition yields (rs : list Strategy) content old_string (searches : list string) : Prop :=
  ∃ found, Forall2 (λ r l, r content old_string = Some l) rs found ∧ searches = concat found.

Lemma yields_nil content old_string : yields [] content old_string [].
Proof. by exists []. Qed.

Lemma yields_cons (r : Strategy) rs content old_string l searches :
  r content old_string = Some l → yields rs content old_string searches →
  yields (r :: rs) content old_string (l ++ searches).
Proof. intros Hr (found & Hf & ->). exists (l :: found). by split; [constructor|]. Qed.

Lemma try_replacers_spec content old_string new_string replace_all rs not_found :
  match try_replacers content old_string new_string replace_all not_found rs with
  | Some (inl text) => ∃ rs1 r rs2 before search after l,
      rs = rs1 ++ r :: rs2 ∧ yields rs1 content old_string before ∧
      r content old_string = Some (l ++ search :: after) ∧
      Forall (unusable replace_all content) (before ++ l) ∧ replaced replace_all content search new_string text
  | Some (inr still) => ∃ searches, yields rs content old_string searches ∧
      Forall (unusable replace_all content) searches ∧
      (still = true ↔ not_found = true ∧ Forall (λ s, contains s content = false) searches)
  | None => ∃ rs1 r rs2 before, rs = rs1 ++ r :: rs2 ∧ yields rs1 content old_string before ∧
      Forall (unusable replace_all content) before ∧ r content old_string = None
  end.
Proof.
  revert not_found. induction rs as [|r rs IH]; intros not_found; simpl.
  { exists []. split; [apply yields_nil|]. split; [constructor|]. naive_solver. }
  destruct (r content old_string) as [l|] eqn:Hr; simpl; [|by exists [], r, rs, []; eauto using yields_nil].
  pose proof (try_searches_spec content new_string replace_all l not_found) as Hs.
  destruct (try_searches _ _ _ _ _) as [text|still].
  { destruct Hs as (before & search & after & -> & Hb & Hrep).
    exists [], r, rs, [], search, after, before. repeat split; eauto using yields_nil. }
  destruct Hs as [Hall Hstill]. specialize (IH still).
  destruct (try_replacers _ _ _ _ _ _) as [[text|still']|].
  - destruct IH as (rs1 & r' & rs2 & before & search & after & l' & -> & Hy & Hr' & Hf & Hrep).
    exists (r :: rs1), r', rs2, (l ++ before), search, after, l'. rewrite <- app_assoc.
    repeat split; eauto using yields_cons. by apply Forall_app.
  - destruct IH as (searches & Hy & Hf & Hst). exists (l ++ searches).
    split; [by apply yields_cons|]. split; [by apply Forall_app|]. rewrite Hst, Hstill, Forall_app. naive_solver.
  - destruct IH as (rs1 & r' & rs2 & before & -> & Hy & Hf & Hn).
    exists (r :: rs1), r', rs2, (l ++ before). repeat split; eauto using yields_cons. by apply Forall_app.
Qed.

Lemma unusable_present content search : unusable false content search →
  contains search content = true → ¬ unique_in search content.
Proof. intros [H|(_ & _ & H)] Hc; [congruence|done]. Qed.

Lemma some_contained replace_all content searches : Forall (unusable replace_all content) searches →
  Forall (λ s, contains s content = false) searches ∨
  replace_all = false ∧ Exists (λ s, contains s content = true ∧ ¬ unique_in s content) searches.
Proof.
  induction 1 as [|s l [Hs|[Hr Hs]] _ [IH|[Hr' IH]]]; [by left|left; by constructor|right; by auto..].
Qed.

(** The first of the strategies yields [oldString] itself. *)
Lemma yields_first rs1 (r : Strategy) rs2 content old_string before l search after :
  replacers find_words = rs1 ++ r :: rs2 → yields rs1 content old_string before →
  r content old_string = Some (l ++ search :: after) →
  old_string ∈ before ++ l ∨ l = [] ∧ search = old_string.
Proof.
  intros Hrs (found & Hf & ->) Hr. destruct rs1 as [|r1 rs1]; simplify_eq/=.
  - right. injection Hrs as <- <-. injection Hr as Hr. by destruct l as [|? [|]]; simplify_eq/=.
  - left. injection Hrs as <- _. inversion Hf as [|? l1 ? ? H1]; subst. injection H1 as <-. apply list_elem_of_here.
Qed.

Lemma yields_all_first content old_string searches :
  yields (replacers find_words) content old_string searches → old_string ∈ searches.
Proof. intros (found & Hf & ->). inversion Hf as [|? l1 ? ? H1]; subst. injection H1 as <-. apply list_elem_of_here. Qed.

(** C15. A replacement is made at one place, found without guessing between several: the result is
    [content] with one search replaced, where the search is in the file exactly once (or, with
    replace_all, everywhere it is), and everything the strategies yield before it is absent or ambiguous;
    an [oldString] that is there exactly once is itself what is replaced.  The errors say what they mean:
    equal strings, nothing found, only ambiguous finds; a panic of a strategy is the only other outcome,
    after everything before it was of no use. *)
Theorem edit_replaces_one_place content old_string new_string replace_all :
  match replace find_words content old_string new_string replace_all with
  | Some (Ok text) => old_string ≠ new_string ∧ ∃ rs1 r rs2 before search after l,
      replacers find_words = rs1 ++ r :: rs2 ∧ yields rs1 content old_string before ∧
      r content old_string = Some (l ++ search :: after) ∧
      Forall (unusable replace_all content) (before ++ l) ∧ replaced replace_all content search new_string text ∧
      (unusable replace_all content old_string ∨ search = old_string)
  | Some (Err NoChanges) => old_string = new_string
  | Some (Err CouldNotFind) => old_string ≠ new_string ∧ ∃ searches,
      yields (replacers find_words) content old_string searches ∧
      Forall (λ s, contains s content = false) searches ∧ old_string ∈ searches
  | Some (Err MultipleMatches) => old_string ≠ new_string ∧ replace_all = false ∧ ∃ searches,
      yields (replacers find_words) content old_string searches ∧ Forall (unusable false content) searches ∧
      Exists (λ s, contains s content = true ∧ ¬ unique_in s content) searches
  | None => old_string ≠ new_string ∧ ∃ rs1 r rs2 before,
      replacers find_words = rs1 ++ r :: rs2 ∧ yields rs1 content old_string before ∧
      Forall (unusable replace_all content) before ∧ r content old_string = None
  end.
Proof.
  unfold replace. case_bool_decide as Hne; [done|].
  pose proof (try_replacers_spec content old_string new_string replace_all (replacers find_words) true) as H.
  destruct (try_replacers _ _ _ _ _ _) as [[text|still]|]; cbn [mbind option_bind]; [|destruct still|by split].
  - split; [done|]. destruct H as (rs1 & r & rs2 & before & search & after & l & Hrs & Hy & Hr & Hf & Hrep).
    exists rs1, r, rs2, before, search, after, l. repeat split; try done.
    destruct (yields_first rs1 r rs2 _ _ _ _ _ _ Hrs Hy Hr) as [Hin|[? ->]]; [left|by right].
    by eapply Forall_forall in Hf.
  - split; [done|]. destruct H as (searches & Hy & _ & Hst). exists searches.
    split; [done|]. split; [by apply Hst|]. by eapply yields_all_first.
  - split; [done|]. destruct H as (searches & Hy & Hf & Hst).
    destruct (some_contained replace_all content searches Hf) as [Hall|[-> He]]; [naive_solver|].
    split; [done|]. by exists searches.
Qed.
End replacement.

(** ** What a strategy takes for the text *)

Lemma edit_text_of_cons l ls : text_of (l :: ls) = (l +:+ nl) +:+ text_of ls.
Proof. done. Qed.

Lemma line_bytes_text ls : line_bytes ls = String.length (text_of ls).
Proof.
  induction ls as [|l ls IH]; [done|]. rewrite edit_text_of_cons, !str_length_app, <- IH. done.
Qed.

Lemma text_join pre ls : ls ≠ [] → str_join nl (pre ++ ls) = text_of pre +:+ str_join nl ls.
Proof.
  intros Hls. induction pre as [|p pre IH]; [done|].
  rewrite edit_text_of_cons, !str_app_assoc, <- IH. by destruct pre; [destruct ls|].
Qed.

(** A slice from the start of a line to the end of another. *)
Lemma slice_lines content ls i n : str_join nl ls = content → 0 < n → i + n ≤ length ls →
  byte_slice content (line_bytes (take i ls)) (line_bytes (take i ls) + String.length (str_join nl (take n (drop i ls)))) =
  str_join nl (take n (drop i ls)).
Proof.
  intros <- Hn Hi. unfold byte_slice. set (mid := take n (drop i ls)).
  assert (Hm : length mid = n) by (unfold mid; rewrite length_take, length_drop; lia).
  assert (Hne : mid ≠ []) by (intros E; rewrite E in Hm; simpl in Hm; lia).
  assert (Hls : str_join nl ls = text_of (take i ls) +:+ str_join nl (mid ++ drop n (drop i ls))).
  { rewrite <- text_join by by intros [? _]%app_eq_nil. unfold mid. by rewrite !take_drop. }
  rewrite Hls, line_bytes_text, str_drop_app, Nat.add_comm, Nat.add_sub.
  destruct (drop n (drop i ls)) as [|l rest].
  { rewrite app_nil_r. induction (str_join nl mid) as [|c s IH]; [done|]. simpl. by rewrite IH. }
  generalize mid, Hne. clear. intros mid Hne.
  assert (∃ t, str_join nl (mid ++ l :: rest) = str_join nl mid +:+ t) as [t ->]; [|by apply str_take_app].
  induction mid as [|m mid IH]; [done|]. destruct mid as [|m' mid].
  - by exists (nl +:+ str_join nl (l :: rest)).
  - destruct IH as [t Ht]; [done|]. exists t. simpl in *. by rewrite Ht, !str_app_assoc.
Qed.

Lemma removelast_length {A} (l : list A) : length (removelast l) = pred (length l).
Proof. induction l as [|x [|y l] IH]; [done..|]. simpl in *. by rewrite IH. Qed.

(** The bytes of the matched lines. *)
Lemma join_length ls : String.length (str_join nl ls) =
  sum_list (imap (λ idx l, if idx <? length ls - 1 then String.length l + 1 else String.length l) ls).
Proof.
  induction ls as [|l [|l' ls] IH]; [done|by simpl; lia|].
  change (str_join nl (l :: l' :: ls)) with (l +:+ nl +:+ str_join nl (l' :: ls)).
  rewrite !str_length_app, IH. change (String.length nl) with 1. rewrite (imap_cons _ l), Nat.add_assoc.
  change (sum_list (?x :: ?l)) with (x + sum_list l). f_equal. f_equal.
  apply imap_ext. intros i x _. simpl. by rewrite Nat.sub_0_r.
Qed.

Lemma matched_text_join content ls i n : str_join nl ls = content → 0 < n → i + n ≤ length ls →
  matched_text content ls i n = str_join nl (take n (drop i ls)).
Proof.
  intros Hc Hn Hi. unfold matched_text.
  assert (Hl : length (take n (drop i ls)) = n) by (rewrite length_take, length_drop; lia).
  pose proof (join_length (take n (drop i ls))) as J. rewrite Hl in J. rewrite <- J. by apply slice_lines.
Qed.

Lemma trimmed_match_true original search : trimmed_match original search = Some true →
  length search ≤ length original ∧ trim <$> take (length search) original = trim <$> search.
Proof.
  revert original. induction search as [|s search IH]; intros original H; [by split; [simpl; lia|]|].
  destruct original as [|o original]; [done|]. simpl in H. case_bool_decide as E; [|done].
  destruct (IH _ H) as [Hl Heq]. simpl. split; [lia|]. f_equal; [done|]. exact Heq.
Qed.

Lemma split_block content ls : ls ≠ [] → Forall (λ l, l ∈ split_lines content) ls →
  split_lines (str_join nl ls) = ls.
Proof.
  intros Hne Hin. apply split_on_of_join; [done|]. eapply Forall_impl; [done|]. intros l Hl.
  by eapply Forall_forall in Hl; [|apply split_on_clean].
Qed.

Lemma take_drop_in {A} (l : list A) i n : Forall (λ x, x ∈ l) (take n (drop i l)).
Proof.
  apply Forall_forall. intros x Hx. rewrite <- (take_drop i l). apply elem_of_app. right.
  rewrite <- (take_drop n (drop i l)). apply elem_of_app. by left.
Qed.

(** *** One relation for each strategy: what its candidates have in common with the text to find *)

Definition same_trimmed_lines (old_string search : string) : Prop :=
  trim <$> split_lines search = trim <$> pop_empty (split_lines old_string).

Definition same_ends (old search : list string) : Prop :=
  trim <$> head search = trim <$> head old ∧ trim <$> last search = trim <$> last old.

Definition same_anchors (old_string search : string) : Prop :=
  same_ends (pop_empty (split_lines old_string)) (split_lines search).

Definition same_words (old_string search : string) : Prop :=
  normalize_whitespace search = normalize_whitespace old_string.

Definition same_indented (old_string search : string) : Prop :=
  remove_indentation search = remove_indentation old_string.

Definition same_unescaped (old_string search : string) : Prop :=
  search = unescape_string old_string ∨ unescape_string search = unescape_string old_string.

Definition same_trimmed (old_string search : string) : Prop := trim search = trim old_string.

Definition same_context (old_string search : string) : Prop :=
  let old := pop_empty (split_lines old_string) in
  let block := split_lines search in
  same_ends old block ∧ length block = length old ∧
  let '(matching, total) := context_counts block old in
  total = 0 ∨ f64_ge (f64_div (f64_of matching) (f64_of total)) one_half = true.

Definition sound (r : Strategy) (close : string → string → Prop) : Prop :=
  ∀ content old_string searches, r content old_string = Some searches → Forall (close old_string) searches.

Lemma line_trimmed_sound : sound line_trimmed_replacer same_trimmed_lines.
Proof.
  intros content find searches. unfold line_trimmed_replacer. case_bool_decide as Hne; [by intros [= <-]|].
  set (original := split_lines content). set (search := pop_empty (split_lines find)) in *.
  assert (H0 : 0 < length search) by (destruct search; simpl; [done|lia]).
  assert (Hseq : Forall (λ i, i + length search ≤ length original ∨ i = 0) (seq 0 (S (length original - length search)))).
  { apply Forall_forall. intros i Hi%elem_of_seq. lia. }
  revert searches. induction Hseq as [|i is_ Hi _ IH]; intros searches; simpl; [by intros [= <-]|].
  destruct (trimmed_match _ _) as [m|] eqn:Hm; [|done].
  destruct (collect_matches _ _ _ _) as [rest|] eqn:Hr; [|done]. intros [= <-]. apply Forall_app.
  split; [|by apply IH]. destruct m; [|done]. apply Forall_singleton. unfold same_trimmed_lines.
  apply trimmed_match_true in Hm as [Hl Heq]. rewrite length_drop in Hl.
  rewrite matched_text_join; [|apply split_on_join|done|lia].
  rewrite split_block with (content := content); [done| |apply take_drop_in].
  intros E%(f_equal length). rewrite length_take, length_drop in E. simpl in E. lia.
Qed.

Lemma blocks_lines n content bs : 0 < n → blocks n (split_lines content) = Some bs →
  Forall (λ block, length (split_lines block) = n ∧ Forall (λ l, l ∈ split_lines content) (split_lines block)) bs.
Proof.
  intros Hn. unfold blocks. destruct (length _ <? n) eqn:E; [done|]. apply Nat.ltb_ge in E.
  intros <-%(inj Some). apply Forall_fmap, Forall_forall. intros i Hi%elem_of_seq. simpl.
  assert (Hl : length (take n (drop i (split_lines content))) = n) by (rewrite length_take, length_drop; lia).
  rewrite split_block with (content := content); [split; [done|apply take_drop_in]| |apply take_drop_in].
  intros E'. rewrite E' in Hl. simpl in Hl. lia.
Qed.

Lemma anchor_end_spec original last_line i j : anchor_end original last_line i = Some j →
  i + 2 ≤ j ∧ j < length original ∧ trim <$> original !! j = Some last_line.
Proof.
  unfold anchor_end. destruct (position _ _) as [k|] eqn:E; [|done]. intros [= <-].
  apply position_Some in E as (a & x & b & Hd & <- & Hx & _). apply bool_decide_eq_true in Hx.
  assert (Hl : original !! (i + 2 + length a) = Some x).
  { rewrite <- lookup_drop, Hd. by apply list_lookup_middle. }
  split; [lia|]. split; [by eapply lookup_lt_Some|]. rewrite Hl. simpl. by rewrite Hx.
Qed.

(** The lines [i] to [j]. *)
Lemma block_ends content i j : i ≤ j → j < length (split_lines content) →
  let block := take (j - i + 1) (drop i (split_lines content)) in
  split_lines (str_join nl block) = block ∧ head block = split_lines content !! i ∧
  last block = split_lines content !! j.
Proof.
  intros Hi Hj block. assert (Hl : length block = j - i + 1) by (unfold block; rewrite length_take, length_drop; lia).
  split; [|split].
  - apply (split_block content); [|apply take_drop_in]. intros E. rewrite E in Hl. simpl in Hl. lia.
  - unfold block. rewrite head_lookup, lookup_take_lt, lookup_drop by lia. f_equal. lia.
  - rewrite last_lookup, Hl. unfold block. rewrite lookup_take_lt, lookup_drop by lia. f_equal. lia.
Qed.

Lemma line_bytes_app ls ls' : line_bytes (ls ++ ls') = line_bytes ls + line_bytes ls'.
Proof. induction ls as [|l ls IH]; [done|]. unfold line_bytes in *. simpl. rewrite IH. lia. Qed.

Lemma line_bytes_join ls : ls ≠ [] → line_bytes ls = String.length (str_join nl ls) + 1.
Proof.
  induction ls as [|l [|l' ls] IH]; [done|by unfold line_bytes; simpl; lia|intros _].
  change (line_bytes (l :: l' :: ls)) with (String.length l + 1 + line_bytes (l' :: ls)).
  change (str_join nl (l :: l' :: ls)) with (l +:+ nl +:+ str_join nl (l' :: ls)).
  rewrite IH, !str_length_app by done. change (String.length nl) with 1. lia.
Qed.

Lemma line_start_lookup original k : k ≤ length original →
  line_start_positions original !! k = Some (line_bytes (take k original)).
Proof.
  intros Hk. destruct k as [|k]; [done|]. simpl.
  rewrite list_lookup_fmap, lookup_seq_lt by lia. done.
Qed.

Lemma extract_block_join content i j : i ≤ j → j < length (split_lines content) →
  extract_block content (split_lines content) i j = str_join nl (take (j - i + 1) (drop i (split_lines content))).
Proof.
  intros Hi Hj. unfold extract_block. rewrite !line_start_lookup by lia. simpl.
  set (ls := split_lines content) in *. set (block := take (j - i + 1) (drop i ls)).
  assert (Hb : length block = j - i + 1) by (unfold block; rewrite length_take, length_drop; lia).
  assert (Ht : take (j + 1) ls = take i ls ++ block).
  { unfold block. rewrite take_take_drop. f_equal. lia. }
  rewrite Ht, line_bytes_app, (line_bytes_join block) by (by intros E; rewrite E in Hb; simpl in Hb; lia).
  rewrite Nat.add_assoc, Nat.add_sub. apply slice_lines; [apply split_on_join|lia..].
Qed.

Lemma anchors_spec original first_line last_line :
  Forall (λ c, c.1 + 2 ≤ c.2 ∧ c.2 < length original ∧ trim <$> original !! c.1 = Some first_line ∧
               trim <$> original !! c.2 = Some last_line) (anchors original first_line last_line).
Proof.
  apply Forall_forall. intros [i j] (il & Hil & Hc)%list_elem_of_omap. destruct il as [i' l].
  apply list_elem_of_lookup in Hil as [k Hk]. rewrite list_lookup_imap in Hk.
  destruct (original !! k) as [l'|] eqn:Hl; [|done]. simplify_eq/=. case_bool_decide as Ht; [|done]. simpl in Hc.
  destruct (anchor_end _ _ _) as [j'|] eqn:E; [|done]. simplify_eq/=.
  apply anchor_end_spec in E as (H1 & H2 & H3). by rewrite Hl.
Qed.

Lemma anchored_block content first_line last_line i j old :
  (i, j) ∈ anchors (split_lines content) (trim first_line) (trim last_line) →
  head old = Some first_line → last old = Some last_line →
  same_ends old (split_lines (extract_block content (split_lines content) i j)).
Proof.
  intros Hin Hf Hl. pose proof (anchors_spec (split_lines content) (trim first_line) (trim last_line)) as Ha.
  eapply Forall_forall in Ha as (Hi & Hj & H1 & H2); [|done]. simpl in *.
  rewrite extract_block_join by lia. destruct (block_ends content i j) as (-> & Hh & Hlast); [lia|done|].
  unfold same_ends. by rewrite Hh, Hlast, H1, H2, Hf, Hl.
Qed.

Lemma best_candidate_in original search candidates c s :
  best_candidate original search candidates = (Some c, s) → c ∈ candidates.
Proof.
  unfold best_candidate. assert (H : ∀ best, (fold_left (λ best c,
    let similarity := candidate_similarity false original search c in
    if f64_gt similarity best.2 then (Some c, similarity) else best) candidates best).1 = Some c →
    best.1 = Some c ∨ c ∈ candidates).
  - induction candidates as [|c' cs IH]; intros best Hb; simpl in *; [by left|].
    apply IH in Hb as [Hb|Hb]; [|right; by apply list_elem_of_further].
    destruct (f64_gt _ _); [|by left]. simplify_eq/=. right. apply list_elem_of_here.
  - intros E. by destruct (H (None, SFopp (f64_of 1)) (f_equal fst E)).
Qed.

Lemma block_anchor_sound : sound block_anchor_replacer same_anchors.
Proof.
  intros content find searches. unfold block_anchor_replacer. destruct (_ <? 3); [by intros [= <-]|].
  destruct (head _) as [f|] eqn:Hf; [|done]. destruct (last _) as [l|] eqn:Hl; [|done].
  pose proof (λ i j, anchored_block content f l i j (pop_empty (split_lines find))) as Hb.
  destruct (anchors _ _ _) as [|[i j] [|c2 cs]]; [by intros [= <-]|..].
  - destruct (f64_ge _ _); intros [= <-]; constructor; [|done]. apply Hb; [apply list_elem_of_here|done..].
  - destruct (best_candidate _ _ _) as [best m] eqn:Hbest. destruct (f64_ge _ _); [|by intros [= <-]].
    destruct best as [[i' j']|]; intros [= <-]; constructor; [|done].
    apply Hb; [by eapply best_candidate_in|done..].
Qed.

Lemma indentation_sound : sound indentation_flexible_replacer same_indented.
Proof.
  intros content find searches. unfold indentation_flexible_replacer. destruct (blocks _ _) as [bs|]; [|done].
  intros [= <-]. apply Forall_forall. by intros s [? _]%list_elem_of_filter.
Qed.

Lemma escape_sound : sound escape_normalized_replacer same_unescaped.
Proof.
  intros content find searches. unfold escape_normalized_replacer.
  assert (H0 : Forall (same_unescaped find) (if contains (unescape_string find) content then [unescape_string find] else [])).
  { destruct (contains _ _); [|done]. apply Forall_singleton. by left. }
  destruct (1 <? _); [|by intros [= <-]]. destruct (blocks _ _) as [bs|]; [|done].
  intros [= <-]. apply Forall_app. split; [done|]. apply Forall_forall. intros s [? _]%list_elem_of_filter. by right.
Qed.

Lemma boundary_sound : sound trimmed_boundary_replacer same_trimmed.
Proof.
  intros content find searches. unfold trimmed_boundary_replacer. case_bool_decide; [by intros [= <-]|].
  destruct (blocks _ _) as [bs|]; [|done]. intros [= <-]. apply Forall_app. split.
  - destruct (contains _ _); [|done]. apply Forall_singleton, trim_idemp.
  - apply Forall_forall. by intros s [? _]%list_elem_of_filter.
Qed.

Lemma context_block_close content find i l block :
  split_lines content !! i = Some l → trim l = trim (default "" (head (pop_empty (split_lines find)))) →
  pop_empty (split_lines find) ≠ [] →
  context_block (split_lines content) (pop_empty (split_lines find)) i = Some block → same_context find block.
Proof.
  intros Hi Hl Hne. unfold context_block. destruct (anchor_end _ _ _) as [j|] eqn:E; [|done]. cbn [mbind option_bind].
  apply anchor_end_spec in E as (H1 & H2 & H3). case_bool_decide as Hlen; [|done].
  destruct (context_counts (take _ _) _) as [matching total] eqn:Hc.
  destruct ((_ =? _) || _) eqn:Hok; [|done].
  intros [= <-]. destruct (block_ends content i j) as (Hs & Hh & Hlast); [lia|done|].
  unfold same_context, same_ends. rewrite Hs, Hh, Hlast, Hi, H3, Hc. cbn [fmap option_fmap option_map]. rewrite Hl.
  destruct (pop_empty (split_lines find)) as [|f fs] eqn:Hp; [done|].
  split; [split; [done|]|split; [done|]].
  - destruct (last (f :: fs)) as [z|] eqn:Hz; [done|]. by apply last_None in Hz.
  - apply orb_true_iff in Hok as [?%Nat.eqb_eq|?]; auto.
Qed.

Lemma pop_empty_short find : 3 ≤ length (split_lines find) → pop_empty (split_lines find) ≠ [].
Proof.
  intros H. unfold pop_empty. destruct (last _) as [l|]; [case_bool_decide|]; intros E%(f_equal length);
    rewrite ?removelast_length in E; simpl in *; lia.
Qed.

Lemma context_sound : sound context_aware_replacer same_context.
Proof.
  intros content find searches. unfold context_aware_replacer. destruct (_ <? 3) eqn:E; [by intros [= <-]|].
  apply Nat.ltb_ge in E. intros <-%(inj Some). apply Forall_forall. intros s (il & Hil & Hc)%list_elem_of_omap.
  apply list_elem_of_lookup in Hil as [k Hk]. rewrite list_lookup_imap in Hk.
  destruct (split_lines content !! k) as [l|] eqn:Hl; [|done]. simplify_eq/=. case_bool_decide as Ht; [|done]. simpl in Hc.
  by eapply context_block_close; [| | apply pop_empty_short |].
Qed.

Section closeness.
Context (find_words : list string → string → option string).

(** The pattern is the words with one or more white space characters between them. *)
Hypothesis find_words_matches : ∀ ws line m, ws ≠ [] → find_words ws line = Some m → split_whitespace m = ws.

Lemma whitespace_sound : sound (whitespace_normalized_replacer find_words) same_words.
Proof using find_words_matches.
  intros content find searches. unfold whitespace_normalized_replacer.
  assert (H0 : Forall (same_words find) (omap (whitespace_line find_words find) (split_lines content))).
  { apply Forall_forall. intros s (l & _ & Hs)%list_elem_of_omap. unfold whitespace_line in Hs.
    case_bool_decide as E; [by simplify_eq|]. destruct (contains _ _); [|done].
    case_bool_decide; [done|]. apply find_words_matches in Hs; [|done].
    unfold same_words, normalize_whitespace. by rewrite Hs. }
  destruct (1 <? _); [|by intros [= <-]]. destruct (blocks _ _) as [bs|]; [|done].
  intros [= <-]. apply Forall_app. split; [done|]. apply Forall_forall. by intros s [? _]%list_elem_of_filter.
Qed.

(** What may be replaced is close to what was asked for, strategy by strategy in their order: the text itself;
    the lines of the text but for white space at their ends; as many lines as you like
    between lines that are its first and its last, trimmed; its words; its
    lines but for common indentation; its unescaped form; its trimmed form; a block of as many lines with its first
    and last line of whose other lines that are not blank at least half agree; the text. *)
Lemma candidates_are_close :
  Forall2 sound (replacers find_words)
    [λ old s, s = old; same_trimmed_lines; same_anchors; same_words; same_indented; same_unescaped;
     same_trimmed; same_context; λ old s, s = old].
Proof using find_words_matches.
  repeat constructor.
  - intros content find searches [= <-]. by constructor.
  - apply line_trimmed_sound.
  - apply block_anchor_sound.
  - apply whitespace_sound.
  - apply indentation_sound.
  - apply escape_sound.
  - apply boundary_sound.
  - apply context_sound.
  - intros content find searches [= <-]. apply Forall_forall. by intros s [-> _]%elem_of_replicate.
Qed.
End closeness.

(** The words with single spaces between them, where a line has them so. *)
Definition plain_words (ws : list string) (line : string) : option string :=
  let m := str_join " " ws in
  if bool_decide (split_whitespace m = ws) && contains m line then Some m else None.

Lemma plain_words_matches ws line m : ws ≠ [] → plain_words ws line = Some m → split_whitespace m = ws.
Proof.
  intros _. unfold plain_words. destruct (bool_decide _ && _) eqn:E; [|done]. intros [= <-].
  apply andb_true_iff in E as [E _]. by apply bool_decide_eq_true in E.
Qed.

(** ** What the strategies do at their limits *)

(** A text of more lines than the file has is not reported as not found: slicing the lines of the file
    panics. *)
Example long_text_panics :
  replace plain_words "x" ("a" +:+ nl +:+ "b" +:+ nl +:+ "c") "y" false = None.
Proof. vm_compute. reflexivity. Qed.

(** The similarity of a single candidate between the anchors is compared with zero: nothing of
    what is between them need agree. *)
Example single_candidate_is_not_compared :
  replace plain_words ("begin" +:+ nl +:+ "keep" +:+ nl +:+ "these" +:+ nl +:+ "lines" +:+ nl +:+ "end")
    ("begin" +:+ nl +:+ "xxx" +:+ nl +:+ "end") "gone" false = Some (Ok "gone").
Proof. vm_compute. reflexivity. Qed.

(** With replace_all, a blank text that is not in the file stands for every place between two characters
    as soon as the file has a blank line. *)
Example blank_text_replaces_everywhere :
  replace plain_words ("ab" +:+ nl +:+ nl +:+ "c") "   " "X" true =
    Some (Ok ("XaXbX" +:+ nl +:+ "X" +:+ nl +:+ "XcX")).
Proof. vm_compute. reflexivity. Qed.
