(* ===== verification/EditTool.v ===== *)
(** * The edit tool

    crates/agendao-tool/src/edit/tool.rs in the world of FileTools.v: [edit_execute] and
    what it asks, writes and leaves.  A panic of a replacer ends the tool without a result; it is [None].
    The file lock only orders edits of the same path within the process, which are other processes here.
    The diffs for the request and the result are metadata. *)

From S2P Require Import Prelude StateMonad Permission PermissionEngine TextLines LineDiff ApplyPatch EditReplacers FileSystem FilePaths FilePathsSpec FileTools FileToolsProps FileToolsRuns.

Record EditInput := {
  ei_file_path : string;
  ei_old_string : string;
  ei_new_string : string;
  ei_replace_all : bool;
}.

Definition replace_error_text (e : ReplaceError) : string :=
  match e with
  | NoChanges => "No changes to apply: oldString and newString are identical."
  | CouldNotFind => "Could not find oldString in the file. It must match exactly, including whitespace, indentation, and line endings."
  | MultipleMatches => "Found multiple matches for oldString. Provide more surrounding context to make the match unique."
  end.

Definition edited_text (p : Path) (replacements : nat) : string :=
  "Successfully edited " +:+ path_text p +:+ " (" +:+ dec_string (N.of_nat replacements) +:+ " replacement"
  +:+ (if bool_decide (replacements = 1) then "" else "s") +:+ ")".

Section edit.
Context {W : Type} (world : World W) (find_words : list string → string → option string).

(** What follows the permission to edit: the write, the notifications and the diagnostics. *)
Definition edit_write (ctx : ToolContext) (authorized_path : AuthorizedFilePath) (content output : string)
    : T W ToolOutput :=
  let path := operation_path authorized_path in
  let path_str := display_path authorized_path in
  do! _ := write_awaited world path content in
  do! _ := publish world "file.edited" path_str in
  do! _ := publish world "file_watcher.updated" path_str in
  do! _ := call (w_lsp_touch_file world) path_str in
  do! _ := call (w_file_time_read world) path_str in
  do! lsp_output := diagnostics world [path] in
  st_ret {| to_title := title_of ctx path;
            to_output := output +:+ (if bool_decide (lsp_output = "") then "" else nl +:+ nl +:+ lsp_output) |}.

(** The body under the file lock. *)
Definition edit_locked (ctx : ToolContext) (authorized_path : AuthorizedFilePath) (input : EditInput)
    : T W (option ToolOutput) :=
  let path := operation_path authorized_path in
  let path_str := display_path authorized_path in
  do! _ := revalidate (λ fs, ctx_resolve_existing ctx fs path) authorized_path
             ("edit target changed after authorization: " +:+ path_text path) in
  do! text := fs_read world "Failed to read file: " (λ fs, read_to_string fs path) in
  let content := normalize_line_endings text in
  do! _ := (if bool_decide (content = "") then st_ret tt else call (w_file_time_assert world) path_str) in
  let new_string := normalize_line_endings (ei_new_string input) in
  if bool_decide (ei_old_string input = "") then
    do! _ := ask_permission world (edit_request authorized_path) in
    do! out := edit_write ctx authorized_path new_string ("Created new file content at " +:+ path_text path) in
    st_ret (Some out)
  else
    let old_string := normalize_line_endings (ei_old_string input) in
    match replace find_words content old_string new_string (ei_replace_all input) with
    | None => st_ret None
    | Some (Err e) => st_err (execution_error (replace_error_text e))
    | Some (Ok new_content) =>
        do! _ := ask_permission world (edit_request authorized_path) in
        let replacements := if ei_replace_all input then match_count old_string content else 1 in
        do! out := edit_write ctx authorized_path new_content (edited_text path replacements) in
        st_ret (Some out)
    end.

(** [EditTool::execute] *)
Definition edit_execute (tool_directory : string) (ctx : ToolContext) (args : result string EditInput)
    : T W (option ToolOutput) :=
  do! input := st_lift (map_error TErr.InvalidArguments args) in
  let file_path := trim (ei_file_path input) in
  do! resolved := look (λ fs, resolve_user_path fs file_path (base_dir tool_directory ctx) ExistingFallbackOnly) in
  do! authorized_path := resolve (λ fs, ctx_resolve_existing ctx fs resolved.1) in
  do! _ := authorize_external_file_path world authorized_path in
  edit_locked ctx authorized_path input.
End edit.

(** What the edited file holds after an edit of [text]. *)
Definition edit_result (find_words : list string → string → option string) (input : EditInput) (text : string)
    : option (result ReplaceError string) :=
  if bool_decide (ei_old_string input = "") then Some (Ok (normalize_line_endings (ei_new_string input)))
  else replace find_words (normalize_line_endings text) (normalize_line_endings (ei_old_string input))
         (normalize_line_endings (ei_new_string input)) (ei_replace_all input).

(** ** What it asks and writes *)

Section trace.
Context {W : Type} (world : World W) (find_words : list string → string → option string).

(** From any state whose trace is [acts], [m] leaves a trace in [fin]. *)
Definition leaves {A} (acts : list Act) (m : T W A) (fin : list Act → Prop) : Prop :=
  ∀ s, ts_trace s = acts → fin (ts_trace (m s).2).

(** [m] adds nothing to the trace. *)
Definition silent {A} (m : T W A) : Prop := ∀ s, ts_trace (m s).2 = ts_trace s.

Lemma leaves_silent {A} acts (m : T W A) (fin : list Act → Prop) : silent m → fin acts → leaves acts m fin.
Proof. intros Hm Hf s Hs. by rewrite Hm, Hs. Qed.

Lemma leaves_bind {A B} acts (m : T W A) (k : A → T W B) (fin : list Act → Prop) :
  silent m → fin acts → (∀ a, leaves acts (k a) fin) → leaves acts (st_bind m k) fin.
Proof.
  intros Hm Hf Hk s Hs. unfold st_bind. specialize (Hm s). destruct (m s) as [[a|e] s']; simpl in Hm.
  - apply Hk. congruence.
  - simpl. by rewrite Hm, Hs.
Qed.

Lemma leaves_assoc {A B C} acts (m : T W A) (k : A → T W B) (l : B → T W C) (fin : list Act → Prop) :
  leaves acts (st_bind m (λ a, st_bind (k a) l)) fin → leaves acts (st_bind (st_bind m k) l) fin.
Proof. intros H s Hs. rewrite st_bind_assoc. by apply H. Qed.

Lemma silent_bind {A B} (m : T W A) (k : A → T W B) : silent m → (∀ a, silent (k a)) → silent (st_bind m k).
Proof. intros Hm Hk s. by apply (leaves_bind (ts_trace s) m k (λ t, t = ts_trace s)); [..|intros a; apply leaves_silent|]. Qed.

Lemma silent_ret {A} (a : A) : silent (st_ret a).
Proof. done. Qed.
Lemma silent_err {A} e : silent (st_err (A := A) e).
Proof. done. Qed.
Lemma silent_lift {A} (r : result ToolError A) : silent (st_lift r).
Proof. done. Qed.
Lemma silent_look {A} (f : FS → A) : silent (look f).
Proof. done. Qed.
Lemma silent_yield : silent (yield world).
Proof. done. Qed.
Lemma silent_resolve f : silent (resolve f).
Proof. done. Qed.
Lemma silent_call {A} (cb : option (Callback A)) a : silent (call cb a).
Proof. intros s. unfold call. destruct cb as [f|]; [|done]. by destruct (f a (ts_env s)). Qed.
Lemma silent_publish event file : silent (publish world event file).
Proof. intros s. unfold publish. by destruct (w_publish_bus world). Qed.
Lemma silent_diagnostics targets : silent (diagnostics world targets).
Proof. intros s. unfold diagnostics. by destruct (w_diagnostics world targets (ts_env s)). Qed.
Lemma silent_read {A} what (f : FS → result IoError A) : silent (fs_read world what f).
Proof. done. Qed.

#[local] Hint Resolve silent_ret silent_err silent_lift silent_look silent_yield silent_resolve silent_call
  silent_publish silent_diagnostics silent_read : core.

(** A request that is refused ends the computation. *)
Lemma leaves_ask {B} acts request (k : unit → T W B) (fin : list Act → Prop) :
  fin (acts ++ [Act.Asked request false]) →
  (leaves (acts ++ [Act.Asked request true]) (k tt) fin) →
  leaves acts (st_bind (ask_permission world request) k) fin.
Proof.
  intros Hf Hk s Hs. unfold st_bind, ask_permission. pose proof (silent_call (w_ask world) request s) as Hc.
  destruct (call (w_ask world) request s) as [[[]|e] s'] eqn:E; simpl in *.
  - apply Hk. simpl. by rewrite Hc, Hs.
  - by rewrite Hc, Hs.
Qed.

Lemma leaves_write acts ctx a content output (fin : list Act → Prop) : fin acts →
  (∀ before, fin (acts ++ [Act.Wrote (operation_path a) content before])) →
  leaves acts (edit_write world ctx a content output) fin.
Proof.
  intros Hf Hw. unfold edit_write, write_awaited. cbv zeta. apply leaves_assoc, leaves_bind; [done|done|]. intros _ s Hs.
  unfold st_bind at 1. destruct (write_file _ _ _) as [fs'|e]; simpl; [|by rewrite Hs].
  rewrite <- Hs in Hw. specialize (Hw (ts_fs s)). revert Hw.
  set (s' := set_fs s fs' _). change (ts_trace s ++ [Act.Wrote (operation_path a) content (ts_fs s)]) with (ts_trace s').
  intros Hw. apply (leaves_silent (ts_trace s')); [|done|done].
  repeat (apply silent_bind; [auto|intros ?]). auto.
Qed.

(** All that an edit of the file [a] may do, in order; the path was checked on [checked]. *)
Definition edit_script (a : AuthorizedFilePath) (checked : FS) (content : string) (before : FS) : list Act :=
  (if is_external a then [Act.Asked (external_request a) true] else []) ++
  [Act.Checked (operation_path a) checked; Act.Asked (edit_request a) true; Act.Wrote (operation_path a) content before].

(** A part of the script, which ends where a request was refused. *)
Definition follows (script trace : list Act) : Prop :=
  trace `prefix_of` script ∨
  ∃ earlier request, (earlier ++ [Act.Asked request true]) `prefix_of` script ∧
    trace = earlier ++ [Act.Asked request false].

(** The content comes from a text that was there. *)
Definition edit_content (input : EditInput) (a : AuthorizedFilePath) (content : string) : Prop :=
  ∃ fs text, read_to_string fs (operation_path a) = Ok text ∧
    edit_result find_words input text = Some (Ok content).

Definition edit_trace (input : EditInput) (a : AuthorizedFilePath) (trace : list Act) : Prop :=
  is_external a = true ∧ trace = [Act.Asked (external_request a) false] ∨
  trace `prefix_of` (if is_external a then [Act.Asked (external_request a) true] else []) ∨
  (∃ checked, trace = (if is_external a then [Act.Asked (external_request a) true] else []) ++
                      [Act.Checked (operation_path a) checked]) ∨
  ∃ checked content before, edit_content input a content ∧
    follows (edit_script a checked content before) trace.

Lemma leaves_read {A B} acts what (f : FS → result IoError A) (k : A → T W B) (fin : list Act → Prop) :
  fin acts → (∀ fs a, f fs = Ok a → leaves acts (k a) fin) → leaves acts (st_bind (fs_read world what f) k) fin.
Proof.
  intros Hf Hk s Hs. unfold st_bind, fs_read, st_bind, yield. simpl.
  destruct (f _) as [a|e] eqn:E; simpl; [by eapply Hk|by rewrite Hs].
Qed.

(** A revalidation that passes adds its check. *)
Lemma leaves_revalidate {B} acts f a message (k : unit → T W B) (fin : list Act → Prop) :
  fin acts → (∀ fs, leaves (acts ++ [Act.Checked (operation_path a) fs]) (k tt) fin) →
  leaves acts (st_bind (revalidate f a message) k) fin.
Proof.
  intros Hf Hk s Hs. unfold st_bind, revalidate, st_bind, resolve.
  destruct (f (ts_fs s)) as [b|e]; simpl; [|by rewrite Hs].
  case_bool_decide; simpl; [|by rewrite Hs]. apply (Hk (ts_fs s)). simpl. by rewrite Hs.
Qed.

Lemma locked_trace ctx a input :
  leaves (if is_external a then [Act.Asked (external_request a) true] else [])
    (edit_locked world find_words ctx a input) (edit_trace input a).
Proof.
  unfold edit_locked. cbv zeta. apply leaves_revalidate; [by right; left|]. intros checked.
  set (acts := (if is_external a then _ else _) ++ _).
  assert (H0 : edit_trace input a acts) by (right; right; left; by exists checked).
  assert (Hs : ∀ content before, edit_script a checked content before =
    (acts ++ [Act.Asked (edit_request a) true]) ++ [Act.Wrote (operation_path a) content before]).
  { intros content before. unfold acts. by rewrite <- !app_assoc. }
  assert (Hscript : ∀ content before trace, edit_content input a content →
    follows (edit_script a checked content before) trace → edit_trace input a trace).
  { intros content before trace Hc Hf. right; right; right. by exists checked, content, before. }
  assert (Hstep : ∀ content output, edit_content input a content → leaves acts
    (do! _ := ask_permission world (edit_request a) in
     do! out := edit_write world ctx a content output in st_ret (Some out)) (edit_trace input a)).
  { intros content output Hc. apply leaves_ask.
    - apply (Hscript content empty_fs); [done|]. right. exists acts, (edit_request a).
      split; [|done]. rewrite Hs. by apply prefix_app_r.
    - assert (Hw : leaves (acts ++ [Act.Asked (edit_request a) true]) (edit_write world ctx a content output)
                     (edit_trace input a)).
      { apply leaves_write; [|intros before].
        - apply (Hscript content empty_fs); [done|]. left. rewrite Hs. by apply prefix_app_r.
        - apply (Hscript content before); [done|]. left. by rewrite Hs. }
      intros s Htr. specialize (Hw s Htr). unfold st_bind. by destruct (edit_write _ _ _ _ _ s) as [[] ?]. }
  apply leaves_read; [done|]. intros fs text Ht. apply leaves_bind; [by case_bool_decide; auto|done|]. intros _.
  assert (Hr : ∀ content, edit_result find_words input text = Some (Ok content) → edit_content input a content).
  { intros content Hc. by exists fs, text. }
  unfold edit_result in Hr. case_bool_decide.
  - apply Hstep. by apply Hr.
  - destruct (replace _ _ _ _ _) as [[new_content|e]|]; [|by apply leaves_silent..]. apply Hstep. by apply Hr.
Qed.

Definition edit_target (tool_directory : string) (ctx : ToolContext) (input : EditInput) (fs : FS)
    : result PathError AuthorizedFilePath :=
  ctx_resolve_existing ctx fs
    (resolve_user_path fs (trim (ei_file_path input)) (base_dir tool_directory ctx) ExistingFallbackOnly).1.

Lemma edit_execute_target tool_directory ctx input s :
  edit_execute world find_words tool_directory ctx (Ok input) s =
  match edit_target tool_directory ctx input (ts_fs s) with
  | Ok a => st_bind (authorize_external_file_path world a) (λ _, edit_locked world find_words ctx a input) s
  | Err e => (Err (TErr.ExecutionError (Cause.PathFailure e)), s)
  end.
Proof.
  unfold edit_execute, st_bind at 1 2 3. cbn [st_lift map_error look]. unfold resolve.
  change (ctx_resolve_existing _ _ _) with (edit_target tool_directory ctx input (ts_fs s)).
  by destruct (edit_target _ _ _ _).
Qed.

(** Whatever the callbacks answer and whatever other processes do to the files, an edit touches one file,
    once, and last: it asks for the external directory if the file is outside the project, then for the edit of
    exactly this path, then writes there; a refusal ends it, and what it writes is the result of the
    edit on a text that this path had.  It makes no directory and removes nothing. *)
Lemma edit_asks_before_writing tool_directory ctx args s :
  ts_trace s = [] →
  let trace := ts_trace (edit_execute world find_words tool_directory ctx args s).2 in
  trace = [] ∨ ∃ input a, args = Ok input ∧ edit_target tool_directory ctx input (ts_fs s) = Ok a ∧
    edit_trace input a trace.
Proof.
  intros Hs. destruct args as [input|e]; [|by left]. cbv zeta. rewrite edit_execute_target.
  destruct (edit_target _ _ _ _) as [a|e] eqn:Ha; [|by left]. right. exists input, a.
  split; [done|]. split; [done|]. pose proof (locked_trace ctx a input) as Hl.
  clear Ha. revert s Hs. change (leaves [] (st_bind (authorize_external_file_path world a)
    (λ _, edit_locked world find_words ctx a input)) (edit_trace input a)).
  unfold authorize_external_file_path. destruct (is_external a) eqn:He; simpl; [|by apply Hl].
  apply leaves_ask; [by left|by apply Hl].
Qed.
End trace.

(** ** An edit that nothing interferes with *)

Section quiet.
Context {W : Type} (world : World W) (Hq : quiet world) (find_words : list string → string → option string).

Lemma ends_edit_write ctx fs d x r content output old : fs_wf fs →
  node fs (d ++ [x]) = Some (Node_.File old) →
  ends (edit_write world ctx (classify (path_of (d ++ [x])) (path_of r)) content output) fs
    (put fs (d ++ [x]) (Node_.File content)).
Proof.
  intros Hwf Ho. unfold edit_write. cbv zeta. cbn [operation_path classify].
  eapply runs_ends.
  { apply (runs_write _ Hq), write_file_new; [done|by eapply wf_tree|eauto]. }
  repeat (eapply runs_ends; [first [by apply runs_publish|by apply runs_call, qu_lsp_touch|by apply runs_call, qu_file_time_read]|]).
  eapply ends_bind; [by apply ends_diagnostics|]. intros text. apply ends_ret.
Qed.

(** A run that returns a value and leaves the files [fs']. *)
Lemma ends_some {A} (m : T W A) fs fs' s : ends m fs fs' → ts_fs s = fs →
  let '(r, s') := st_bind m (λ out, st_ret (Some out)) s in (∃ out, r = Ok (Some out)) ∧ ts_fs s' = fs'.
Proof.
  intros Hm Hs. destruct (Hm s Hs) as (out & s' & E & Hs'). unfold st_bind. rewrite E. cbn. eauto.
Qed.

Lemma runs_then {A B} (m : T W A) (k : A → T W B) fs a fs' (post : result ToolError B * TS W → Prop) s :
  runs m fs a fs' → ts_fs s = fs → (∀ s', ts_fs s' = fs' → post (k a s')) → post (st_bind m k s).
Proof. intros Hm Hs Hk. destruct (Hm s Hs) as (s' & E & Hs'). unfold st_bind. rewrite E. by apply Hk. Qed.

(** In a world that grants every request and leaves the files alone, an edit of a text file leaves its
    content as the edit of its normalized text says and changes nothing else; when the text is
    not found or ambiguous the tool says so, and the files are as they were, as they are when a replacer panics.  An
    empty oldString stands for the whole content. *)
Lemma quiet_edit_is_exact tool_directory ctx input (s : TS W) a k text :
  fs_wf (ts_fs s) → edit_target tool_directory ctx input (ts_fs s) = Ok a →
  operation_path a = path_of k → node (ts_fs s) k = Some (Node_.File text) → valid_utf8 text = true →
  let '(r, s') := edit_execute world find_words tool_directory ctx (Ok input) s in
  match edit_result find_words input text with
  | Some (Ok content) => (∃ out, r = Ok (Some out)) ∧ ts_fs s' = put (ts_fs s) k (Node_.File content)
  | Some (Err e) => r = Err (execution_error (replace_error_text e)) ∧ ts_fs s' = ts_fs s
  | None => r = Ok None ∧ ts_fs s' = ts_fs s
  end.
Proof using Hq.
  intros Hwf Ha Hop Hk Hv. rewrite edit_execute_target, Ha.
  assert (Ha' := Ha). apply resolve_existing_file_path_Ok in Ha' as (k' & r & Hr & _ & ->).
  cbn [operation_path classify] in Hop. apply (inj path_of) in Hop as ->.
  assert (∃ d x, k = d ++ [x]) as (d & x & ->) by (destruct k as [|x d _] using rev_ind; [done|eauto]).
  apply (runs_then _ _ (ts_fs s) tt (ts_fs s)); [by apply runs_authorize|done|]. intros s1 Hs1.
  unfold edit_locked. cbv zeta.
  apply (runs_then _ _ (ts_fs s) tt (ts_fs s)); [|done|].
  { apply runs_revalidate. apply resolve_existing_file_path_Ok. exists (d ++ [x]), r. split_and!; [done| |done].
    cbn [operation_path classify]. rewrite absolute_path. apply lookup_path_of; [done|right; eauto]. }
  intros s2 Hs2. apply (runs_then _ _ (ts_fs s) text (ts_fs s)); [|done|].
  { apply (runs_read _ Hq). unfold read_to_string. rewrite (proj2 (metadata_Ok _ _ (Node_.File text))); [cbn [rbind]; by rewrite Hv|].
    exists (d ++ [x]). split; [|done]. apply lookup_path_of; [done|right; eauto]. }
  intros s3 Hs3. apply (runs_then _ _ (ts_fs s) tt (ts_fs s)); [|done|].
  { case_bool_decide; [apply runs_ret|by apply runs_call, qu_file_time_assert]. }
  intros s4 Hs4. unfold edit_result. case_bool_decide.
  - apply (runs_then _ _ (ts_fs s) tt (ts_fs s)); [by apply runs_ask|done|]. intros s5 Hs5.
    by apply (ends_some _ (ts_fs s)); [eapply ends_edit_write|].
  - destruct (replace _ _ _ _ _) as [[content|e]|]; [|done..].
    apply (runs_then _ _ (ts_fs s) tt (ts_fs s)); [by apply runs_ask|done|]. intros s5 Hs5.
    by apply (ends_some _ (ts_fs s)); [eapply ends_edit_write|].
Qed.
End quiet.

(** ** Examples *)

Definition no_words (ws : list string) (line : string) : option string := None.

Definition demo_input : EditInput :=
  {| ei_file_path := "a.txt"; ei_old_string := "one"; ei_new_string := "ONE"; ei_replace_all := false |}.

Definition demo_target : AuthorizedFilePath :=
  {| operation_path := path_of ["ws"; "a.txt"]; location := FileLoc.Workspace "a.txt" |}.

(** A world in which the file changes while the question for the edit is open. *)
Definition meanwhile (change : FS → FS) : World unit := {|
  w_ask := Some (λ _ env, (Ok tt, (env.1, change env.2))); w_file_time_assert := None; w_file_time_read := None;
  w_publish_bus := None; w_lsp_touch_file := None; w_diagnostics := λ _ env, ("", env);
  w_others := λ env, env |}.

Definition meanwhile_edit (change : FS → FS) : result ToolError (option ToolOutput) * TS unit :=
  edit_execute (meanwhile change) no_words "/" demo_ctx (Ok demo_input) demo_start.

(** What was added to the file meanwhile is lost. *)
Example meanwhile_change_is_lost :
  node (ts_fs (meanwhile_edit (λ fs, put fs ["ws"; "a.txt"] (Node_.File "one and two"))).2) ["ws"; "a.txt"] =
  Some (Node_.File "ONE").
Proof. vm_compute. reflexivity. Qed.

(** A link put in its place meanwhile is followed, out of the project: the path was checked before the
    question, and not again. *)
Example meanwhile_link_is_followed :
  let run := meanwhile_edit (λ fs, put fs ["ws"; "a.txt"] (Node_.Link (path_of ["etc"; "passwd"]))) in
  is_ok run.1 = true ∧ node (ts_fs run.2) ["etc"; "passwd"] = Some (Node_.File "ONE").
Proof. split; vm_compute; reflexivity. Qed.

(** With replace_all the number of replacements is counted for the given text, not for the one found. *)
Example zero_replacements_reported :
  let input := {| ei_file_path := "a.txt"; ei_old_string := " one "; ei_new_string := "ONE"; ei_replace_all := true |} in
  let run := edit_execute quiet_world no_words "/" demo_ctx (Ok input) demo_start in
  (match run.1 with Ok (Some out) => to_output out | _ => "" end) = "Successfully edited /ws/a.txt (0 replacements)" ∧
  node (ts_fs run.2) ["ws"; "a.txt"] = Some (Node_.File "ONE").
Proof. split; vm_compute; reflexivity. Qed.
