(* ===== verification/SandboxPolicy.v ===== *)
(** * Sandbox policy, environment and plans

    crates/agendao-sandbox/src/model.rs, request.rs, policy.rs, network.rs,
    environment.rs and plan.rs: how the layers of governance become the profile of
    one execution, and how a profile becomes the immutable plan a backend runs.
    A [BTreeMap] is a [gmap] read in the order of its keys.  The fingerprint of a
    plan (SHA-256 of JSON text) is a parameter. *)

From S2P Require Import Prelude FileSystem FilePaths.

(** ** The domain model *)

Module Trust.
Inductive TrustClass := ModelReachable | UserConfiguredIntegration | HostManagement.
End Trust.
Abbreviation TrustClass := Trust.TrustClass.

Module Fs.
Inductive FilesystemMode := ReadOnly | WorkspaceWrite | Restricted | Unrestricted.
#[global] Instance filesystem_mode_eq_dec : EqDecision FilesystemMode.
Proof. solve_decision. Defined.
End Fs.
Abbreviation FilesystemMode := Fs.FilesystemMode.

Module Net.
Inductive NetworkMode := Disabled | ProxyOnly | Enabled.
#[global] Instance network_mode_eq_dec : EqDecision NetworkMode.
Proof. solve_decision. Defined.
End Net.
Abbreviation NetworkMode := Net.NetworkMode.

Module Proc.
Inductive ProcessMode := Contained | Native.
#[global] Instance process_mode_eq_dec : EqDecision ProcessMode.
Proof. solve_decision. Defined.
End Proc.
Abbreviation ProcessMode := Proc.ProcessMode.

Module Kind.
Inductive ProfileKind := WorkspaceWrite | Check | InteractiveShell | Integration | Native.
#[global] Instance profile_kind_eq_dec : EqDecision ProfileKind.
Proof. solve_decision. Defined.
End Kind.
Abbreviation ProfileKind := Kind.ProfileKind.

Module Mode.
Inductive SessionPermissionMode := Default | TrustedWorkspace | UnsandboxedYolo.
End Mode.
Abbreviation SessionPermissionMode := Mode.SessionPermissionMode.

Record FilesystemPolicy := {
  fp_mode : FilesystemMode;
  fp_writable_roots : list Path;
  fp_read_only_roots : list Path;
}.

Record NetworkPolicy := {
  np_mode : NetworkMode;
  np_proxy_endpoint : option string;
  np_allowed_unix_sockets : list Path;
  np_allowed_hosts : gset string;
}.

Module Pattern.
Inductive EnvNamePattern :=
| Exact (name : string)
| Suffix (suffix : string)
| Contains (fragment : string).
End Pattern.
Abbreviation EnvNamePattern := Pattern.EnvNamePattern.

Record EnvironmentPolicy := {
  ep_clear_and_reinject : bool;
  ep_inherit_core : bool;
  ep_hard_deny_exact : gset string;
  ep_deny_patterns : list EnvNamePattern;
  ep_allow_exact : gset string;
}.

Record ProcessPolicy := { pp_mode : ProcessMode }.

Record SandboxProfile := {
  sp_trust_class : TrustClass;
  sp_filesystem : FilesystemPolicy;
  sp_network : NetworkPolicy;
  sp_environment : EnvironmentPolicy;
  sp_process : ProcessPolicy;
}.

(** ** Requests *)

Definition INTERACTIVE_PRIVATE_HOME : string := "/tmp/agendao-home".

Record SpawnSpec := {
  spec_program : string;
  spec_args : list string;
  spec_cwd : option Path;
  spec_env_overrides : gmap string string;
}.

Record SandboxExecutionRequest := {
  rq_trust_class : TrustClass;
  rq_profile_kind : ProfileKind;
  rq_spec : SpawnSpec;
  rq_workspace_root : Path;
  rq_session_origin : option string;
}.

(** ** Environment *)

Definition AGENDAO_SANDBOX_ENV_PREFIX : string := "AGENDAO_SANDBOX_".
Definition CORE_ENV_NAMES : list string :=
  ["PATH"; "HOME"; "LANG"; "LC_ALL"; "TZ"; "TERM"; "TMPDIR"].

Definition pattern_matches (p : EnvNamePattern) (candidate : string) : bool :=
  match p with
  | Pattern.Exact name => bool_decide (candidate = name)
  | Pattern.Suffix suffix => ends_with suffix candidate
  | Pattern.Contains fragment => contains fragment candidate
  end.

Definition default_hard_deny_exact : gset string :=
  list_to_set ["AGENDAO_SERVER_PASSWORD"; "AGENDAO_INTERNAL_TOKEN"; "AGENDAO_SESSION_TOKEN"].

Definition default_deny_patterns : list EnvNamePattern :=
  [Pattern.Suffix "_API_KEY"; Pattern.Suffix "_SECRET"; Pattern.Suffix "_TOKEN";
   Pattern.Suffix "_PASSWORD"; Pattern.Contains "CREDENTIAL"].

Definition default_environment : EnvironmentPolicy := {|
  ep_clear_and_reinject := true;
  ep_inherit_core := true;
  ep_hard_deny_exact := default_hard_deny_exact;
  ep_deny_patterns := default_deny_patterns;
  ep_allow_exact := ∅;
|}.

Definition native_inherit : EnvironmentPolicy := {|
  ep_clear_and_reinject := false;
  ep_inherit_core := ep_inherit_core default_environment;
  ep_hard_deny_exact := ep_hard_deny_exact default_environment;
  ep_deny_patterns := ep_deny_patterns default_environment;
  ep_allow_exact := ep_allow_exact default_environment;
|}.

Module EnvErr.
Inductive EnvironmentError :=
| HardDeniedKey (key : string)
| DeniedByPattern (key : string)
| AuthorityReserved (key : string).
End EnvErr.
Abbreviation EnvironmentError := EnvErr.EnvironmentError.

Definition is_denied (policy : EnvironmentPolicy) (name : string) : bool :=
  if bool_decide (name ∈ ep_hard_deny_exact policy) then true
  else if bool_decide (name ∈ ep_allow_exact policy) then false
  else existsb (λ p, pattern_matches p name) (ep_deny_patterns policy).

Definition check_override (policy : EnvironmentPolicy) (name : string) : result EnvironmentError unit :=
  reject? starts_with AGENDAO_SANDBOX_ENV_PREFIX name with EnvErr.AuthorityReserved name in
  reject? bool_decide (name ∈ ep_hard_deny_exact policy) with EnvErr.HardDeniedKey name in
  reject? is_denied policy name with EnvErr.DeniedByPattern name in
  Ok tt.

(** The keys of a [BTreeMap] in order, and its entries. *)
Definition btree_keys (m : gmap string string) : list string := merge_sort str_leb (elements (dom m)).
Definition btree_entries (m : gmap string string) : list (string * string) :=
  (λ k, (k, default "" (m !! k))) <$> btree_keys m.

Definition insert_all (entries : list (string * string)) (m : gmap string string) : gmap string string :=
  fold_left (λ m e, <[e.1 := e.2]> m) entries m.

Definition inherited (policy : EnvironmentPolicy) (host : gmap string string) (names : list string)
    : gmap string string :=
  fold_left (λ child name,
    match host !! name with
    | Some value => if is_denied policy name then child else <[name := value]> child
    | None => child
    end) names ∅.

(** Authority keys must have the reserved prefix. *)
Definition check_authority (name : string) : result EnvironmentError unit :=
  reject? negb (starts_with AGENDAO_SANDBOX_ENV_PREFIX name) with EnvErr.AuthorityReserved name in
  Ok tt.

Definition build_child_environment (policy : EnvironmentPolicy)
    (host overrides authority_injected : gmap string string) : result EnvironmentError (gmap string string) :=
  let? _ := for_each (check_override policy) (btree_keys overrides) in
  let? _ := for_each check_authority (btree_keys authority_injected) in
  let child :=
    if ep_clear_and_reinject policy then
      (if ep_inherit_core policy then inherited policy host CORE_ENV_NAMES else ∅)
    else inherited policy host (btree_keys host) in
  let child := insert_all (btree_entries overrides) child in
  Ok (insert_all (btree_entries authority_injected) child).

(** ** Network *)

Definition network_disabled : NetworkPolicy := {|
  np_mode := Net.Disabled;
  np_proxy_endpoint := None;
  np_allowed_unix_sockets := [];
  np_allowed_hosts := ∅;
|}.

Module NetErr.
Inductive NetworkPolicyError :=
  ProxyOnlyWithoutEndpoint | EnabledRequiresNative | DisabledWithAllowlist.
End NetErr.
Abbreviation NetworkPolicyError := NetErr.NetworkPolicyError.

Definition validate_network (policy : NetworkPolicy) (process : ProcessMode) : result NetworkPolicyError unit :=
  match np_mode policy with
  | Net.Disabled =>
      reject? negb (bool_decide (np_allowed_unix_sockets policy = [])) ||
              negb (bool_decide (np_allowed_hosts policy = ∅)) with NetErr.DisabledWithAllowlist in
      Ok tt
  | Net.ProxyOnly =>
      reject? bool_decide (np_proxy_endpoint policy = None) with NetErr.ProxyOnlyWithoutEndpoint in
      Ok tt
  | Net.Enabled =>
      reject? negb (bool_decide (process = Proc.Native)) with NetErr.EnabledRequiresNative in
      Ok tt
  end.

(** [SandboxProfile::contained_workspace_write] *)
Definition contained_workspace_write : SandboxProfile := {|
  sp_trust_class := Trust.ModelReachable;
  sp_filesystem := {| fp_mode := Fs.WorkspaceWrite; fp_writable_roots := []; fp_read_only_roots := [] |};
  sp_network := network_disabled;
  sp_environment := default_environment;
  sp_process := {| pp_mode := Proc.Contained |};
|}.

(** ** Policy *)

Definition filesystem_rank (mode : FilesystemMode) : nat :=
  match mode with Fs.ReadOnly => 0 | Fs.Restricted => 1 | Fs.WorkspaceWrite => 2 | Fs.Unrestricted => 3 end.

Definition network_rank (mode : NetworkMode) : nat :=
  match mode with Net.Disabled => 0 | Net.ProxyOnly => 1 | Net.Enabled => 2 end.

Record HardPolicy := {
  max_filesystem : FilesystemMode;
  max_network : NetworkMode;
  allow_native : bool;
}.

Definition contained_baseline : HardPolicy :=
  {| max_filesystem := Fs.WorkspaceWrite; max_network := Net.Disabled; allow_native := false |}.

Definition unrestricted : HardPolicy :=
  {| max_filesystem := Fs.Unrestricted; max_network := Net.Enabled; allow_native := true |}.

Definition intersect (self other : HardPolicy) : HardPolicy := {|
  max_filesystem := if filesystem_rank (max_filesystem self) <=? filesystem_rank (max_filesystem other)
                    then max_filesystem self else max_filesystem other;
  max_network := if network_rank (max_network self) <=? network_rank (max_network other)
                 then max_network self else max_network other;
  allow_native := allow_native self && allow_native other;
|}.

Record PermissionGrantScope := {
  gs_write_paths : list Path;
  gs_max_network : option NetworkMode;
}.

Record PolicyInputs := {
  in_platform : HardPolicy;
  in_admin : option HardPolicy;
  in_agent : option HardPolicy;
  in_session_mode : SessionPermissionMode;
  in_grant : option PermissionGrantScope;
  in_check_build_cache_root : option Path;
  in_environment_allow_exact : gset string;
}.

Module PolErr.
Inductive PolicyError := NativeNotAllowed | CheckRequiresCacheRoot.
End PolErr.
Abbreviation PolicyError := PolErr.PolicyError.

Definition session_bound (mode : SessionPermissionMode) : HardPolicy :=
  match mode with
  | Mode.Default | Mode.TrustedWorkspace => contained_baseline
  | Mode.UnsandboxedYolo => unrestricted
  end.

Definition grant_bound (grant : PermissionGrantScope) : HardPolicy := {|
  max_filesystem := if bool_decide (gs_write_paths grant = []) then Fs.ReadOnly else Fs.WorkspaceWrite;
  max_network := default Net.Disabled (gs_max_network grant);
  allow_native := false;
|}.

(** The bound of the kind itself. *)
Definition request_bound (kind : ProfileKind) (inputs : PolicyInputs) : HardPolicy :=
  match kind with
  | Kind.WorkspaceWrite | Kind.InteractiveShell => contained_baseline
  | Kind.Integration => {|
      max_filesystem :=
        match in_grant inputs with
        | Some grant => if negb (bool_decide (gs_write_paths grant = [])) then Fs.WorkspaceWrite else Fs.ReadOnly
        | None => Fs.ReadOnly
        end;
      max_network := Net.Disabled;
      allow_native := false |}
  | Kind.Check => {| max_filesystem := Fs.ReadOnly; max_network := Net.Disabled; allow_native := false |}
  | Kind.Native => unrestricted
  end.

Definition intersect_opt (bound : HardPolicy) (layer : option HardPolicy) : HardPolicy :=
  match layer with Some other => intersect bound other | None => bound end.

(** The intersection of all layers, in the order of the source. *)
Definition merged_bound (kind : ProfileKind) (inputs : PolicyInputs) : HardPolicy :=
  let bound := intersect_opt (in_platform inputs) (in_admin inputs) in
  let bound := intersect_opt bound (in_agent inputs) in
  let bound := intersect bound (session_bound (in_session_mode inputs)) in
  let bound := intersect_opt bound (grant_bound <$> in_grant inputs) in
  intersect bound (request_bound kind inputs).

(** [filesystem] of the bound: [Restricted] narrows to [ReadOnly]. *)
Definition filesystem_of_bound (mode : FilesystemMode) : FilesystemMode :=
  match mode with
  | Fs.Unrestricted => Fs.Unrestricted
  | mode => if filesystem_rank Fs.WorkspaceWrite <=? filesystem_rank mode then Fs.WorkspaceWrite else Fs.ReadOnly
  end.

Definition derive_profile (trust_class : TrustClass) (kind : ProfileKind) (inputs : PolicyInputs)
    : result PolicyError SandboxProfile :=
  let bound := merged_bound kind inputs in
  let wants_native := bool_decide (kind = Kind.Native) in
  reject? wants_native && negb (allow_native bound) with PolErr.NativeNotAllowed in
  let mode := filesystem_of_bound (max_filesystem bound) in
  let? cache_roots := (if bool_decide (kind = Kind.Check)
                       then let? root := ok_or (in_check_build_cache_root inputs) PolErr.CheckRequiresCacheRoot in
                            Ok [root]
                       else Ok []) in
  let granted :=
    match in_grant inputs with
    | Some grant => if bool_decide (mode = Fs.WorkspaceWrite) && negb (bool_decide (kind = Kind.Check))
                    then gs_write_paths grant else []
    | None => []
    end in
  let process := if wants_native && allow_native bound then Proc.Native else Proc.Contained in
  let environment := if bool_decide (process = Proc.Native) then native_inherit else default_environment in
  Ok {|
    sp_trust_class := trust_class;
    sp_filesystem := {| fp_mode := mode; fp_writable_roots := cache_roots ++ granted; fp_read_only_roots := [] |};
    sp_network := {| np_mode := max_network bound; np_proxy_endpoint := None;
                     np_allowed_unix_sockets := []; np_allowed_hosts := ∅ |};
    sp_environment := {|
      ep_clear_and_reinject := ep_clear_and_reinject environment;
      ep_inherit_core := ep_inherit_core environment;
      ep_hard_deny_exact := ep_hard_deny_exact environment;
      ep_deny_patterns := ep_deny_patterns environment;
      ep_allow_exact := in_environment_allow_exact inputs |};
    sp_process := {| pp_mode := process |};
  |}.

(** ** Plans *)

(** [Duration], in milliseconds. *)
Definition as_secs (d : N) : N := (d / 1000)%N.
Definition DEFAULT_TERM_GRACE : N := 5000%N.

Record FilesystemPlan := {
  fpl_mode : FilesystemMode;
  fpl_workspace_root : string;
  fpl_writable_roots : list string;
  fpl_read_only_roots : list string;
}.

Record ProcessPlan := { ppl_mode : ProcessMode; ppl_term_grace_secs : N }.

Record SandboxPlan := {
  pl_execution_id : string;
  pl_trust_class : TrustClass;
  pl_requested_kind : ProfileKind;
  pl_filesystem : FilesystemPlan;
  pl_network : NetworkPolicy;
  pl_environment : EnvironmentPolicy;
  pl_process : ProcessPlan;
  pl_fingerprint : string;
  pl_session_origin : option string;
}.

Record FingerprintPayload := {
  fg_execution_id : string;
  fg_trust_class : TrustClass;
  fg_requested_kind : ProfileKind;
  fg_filesystem_mode : FilesystemMode;
  fg_workspace_root : string;
  fg_writable_roots : list string;
  fg_read_only_roots : list string;
  fg_network : NetworkPolicy;
  fg_environment : EnvironmentPolicy;
  fg_process_mode : ProcessMode;
  fg_term_grace_secs : N;
}.

Module PlanErr.
Inductive PlanError :=
| WorkspaceRootInvalid (path : Path)
| WritableRootInvalid (path : Path)
| Network (error : NetworkPolicyError).
End PlanErr.
Abbreviation PlanError := PlanErr.PlanError.

Record PlanContext := {
  pc_execution_id : string;
  pc_session_origin : option string;
  pc_extra_writable_roots : list Path;
  pc_extra_read_only_roots : list Path;
  pc_term_grace : option N;
}.

Fixpoint collect {E A B} (f : A → result E B) (xs : list A) : result E (list B) :=
  match xs with
  | [] => Ok []
  | x :: xs => let? y := f x in let? ys := collect f xs in Ok (y :: ys)
  end.

Definition canonicalize_root (fs : FS) (path : Path) : result PlanError Path :=
  map_error (λ _, PlanErr.WritableRootInvalid path) (canonicalize_existing fs path).

Section plan.
Context (fingerprint_of : FingerprintPayload → string).

Definition build_plan (fs : FS) (profile : SandboxProfile) (kind : ProfileKind) (workspace_root : Path)
    (context : PlanContext) : result PlanError SandboxPlan :=
  let? _ := map_error PlanErr.Network (validate_network (sp_network profile) (pp_mode (sp_process profile))) in
  let? workspace_canon := map_error (λ _, PlanErr.WorkspaceRootInvalid workspace_root)
                            (canonicalize_existing fs workspace_root) in
  let mode := fp_mode (sp_filesystem profile) in
  let workspace := if bool_decide (mode = Fs.WorkspaceWrite) then [workspace_canon] else [] in
  let? roots := collect (canonicalize_root fs) (fp_writable_roots (sp_filesystem profile)) in
  let writable := workspace ++ roots ++ pc_extra_writable_roots context in
  let writable_values := sort_dedup (path_text <$> writable) in
  let? ro_roots := collect (canonicalize_root fs) (fp_read_only_roots (sp_filesystem profile)) in
  let read_only := ro_roots ++ pc_extra_read_only_roots context in
  let read_only_values := sort_dedup (path_text <$> read_only) in
  let term_grace := default DEFAULT_TERM_GRACE (pc_term_grace context) in
  let fingerprint := fingerprint_of {|
    fg_execution_id := pc_execution_id context;
    fg_trust_class := sp_trust_class profile;
    fg_requested_kind := kind;
    fg_filesystem_mode := mode;
    fg_workspace_root := path_text workspace_canon;
    fg_writable_roots := writable_values;
    fg_read_only_roots := read_only_values;
    fg_network := sp_network profile;
    fg_environment := sp_environment profile;
    fg_process_mode := pp_mode (sp_process profile);
    fg_term_grace_secs := as_secs term_grace |} in
  Ok {|
    pl_execution_id := pc_execution_id context;
    pl_trust_class := sp_trust_class profile;
    pl_requested_kind := kind;
    pl_filesystem := {| fpl_mode := mode; fpl_workspace_root := path_text workspace_canon;
                        fpl_writable_roots := writable_values; fpl_read_only_roots := read_only_values |};
    pl_network := sp_network profile;
    pl_environment := sp_environment profile;
    pl_process := {| ppl_mode := pp_mode (sp_process profile); ppl_term_grace_secs := as_secs term_grace |};
    pl_fingerprint := fingerprint;
    pl_session_origin := pc_session_origin context;
  |}.
End plan.
