(* ===== verification/SandboxLaunch.v ===== *)
(** * Launching sandboxed executions

    crates/agendao-sandbox/src/backend.rs, violation.rs, launcher.rs and its
    contract.rs, lifecycle.rs, driver.rs, boundary.rs, and the authority of
    agendao-server/src/sandbox_authority.rs: backends and their selection, the way
    from a request to a running child, the events on that way, and how a running
    child is waited for or cancelled.  What a child does is the interface
    [BackendChild]; error texts are values that keep what the source formats into
    them. *)

From S2P Require Import Prelude StateMonad FileSystem FilePaths SandboxPolicy.

(** ** Violations and errors *)

Module Viol.
Inductive SandboxViolationKind :=
  PathEscape | ProtectedMetadata | NetworkEgress | EnvironmentLeak | SyscallDenied | ProcessEscape.
Inductive Attribution := Exact | BackendReported | BestEffort.
End Viol.
Abbreviation SandboxViolationKind := Viol.SandboxViolationKind.
Abbreviation Attribution := Viol.Attribution.

Record SandboxViolation := {
  v_execution_id : string;
  v_plan_fingerprint : string;
  v_session_origin : option string;
  v_kind : SandboxViolationKind;
  v_path_or_endpoint : option string;
  v_attribution : Attribution;
  v_backend : string;
}.

(** The messages of [InvalidRequest] and [Lifecycle]. *)
Module Why.
Inductive Invalid :=
| NoProgram
| RuntimeRootUnavailable (root : Path) (error : PathViolation)
| ExecutableUnresolved (program : Path) (error : PathViolation)
| ExecutableOutside (program target : Path)
| ExecutableWithoutParent (target : Path)
| WorkspaceWithoutParent (workspace : Path).
Inductive Lifecycle :=
| RefusesPlan (backend : string) (kind : ProfileKind)
| CreateCacheRoot (root : Path) (error : IoError)
| Child (message : string).
End Why.

Module SErr.
Inductive SandboxExecutionError :=
| InvalidRequest (message : Why.Invalid)
| Policy (error : PolicyError)
| Plan (error : PlanError)
| Environment (error : EnvironmentError)
| SandboxUnavailable (backend reason : string)
| SpawnFailed (backend : string) (reason : IoError)
| AlreadyFinished
| Lifecycle (message : Why.Lifecycle).
End SErr.
Abbreviation SandboxExecutionError := SErr.SandboxExecutionError.

(** ** Events *)

Record ProfileSummary := {
  ps_requested_kind : ProfileKind;
  ps_process_mode : ProcessMode;
  ps_filesystem_mode : FilesystemMode;
  ps_network_mode : NetworkMode;
}.

Module Denial.
Inductive DenialReason :=
| InvalidRequest | PolicyDenied | PlanFailed | EnvironmentRejected
| BackendUnavailable (capability : string)
| SpawnFailed.
End Denial.
Abbreviation DenialReason := Denial.DenialReason.

Module Cleanup.
Inductive CleanupStatus := NaturalExit | TerminatedByRequest | KilledAfterGrace | TimedOut.
#[global] Instance cleanup_status_eq_dec : EqDecision CleanupStatus.
Proof. solve_decision. Defined.
End Cleanup.
Abbreviation CleanupStatus := Cleanup.CleanupStatus.

Record BackendExit := { be_success : bool; be_code : option Z; be_signal : option Z }.

Record SandboxExit := {
  ex_success : bool;
  ex_code : option Z;
  ex_signal : option Z;
  ex_cleanup : CleanupStatus;
}.

Module Event.
Inductive SandboxEvent :=
| Prepared (execution_id : string) (session_origin : option string) (profile : ProfileSummary)
    (plan_fingerprint backend : string)
| Started (execution_id : string) (session_origin : option string) (pid : option Z) (backend : string)
| Denied (execution_id : string) (session_origin : option string) (reason : DenialReason)
    (detail : option SandboxExecutionError)
| Violation (violation : SandboxViolation)
| Exited (execution_id : string) (session_origin : option string) (status : SandboxExit) (backend : string).
End Event.
Abbreviation SandboxEvent := Event.SandboxEvent.

Definition event_execution_id (e : SandboxEvent) : string :=
  match e with
  | Event.Prepared id _ _ _ _ | Event.Started id _ _ _ | Event.Denied id _ _ _ | Event.Exited id _ _ _ => id
  | Event.Violation v => v_execution_id v
  end.

Definition denial_from_error (error : SandboxExecutionError) : DenialReason :=
  match error with
  | SErr.InvalidRequest _ => Denial.InvalidRequest
  | SErr.Policy _ => Denial.PolicyDenied
  | SErr.Plan _ => Denial.PlanFailed
  | SErr.Environment _ => Denial.EnvironmentRejected
  | SErr.SandboxUnavailable _ reason => Denial.BackendUnavailable reason
  | SErr.SpawnFailed _ _ => Denial.SpawnFailed
  | SErr.AlreadyFinished | SErr.Lifecycle _ => Denial.SpawnFailed
  end.

(** ** Backends *)

Record BackendProbe := { pr_available : bool; pr_reason : option string }.
Definition available : BackendProbe := {| pr_available := true; pr_reason := None |}.
Definition unavailable (reason : string) : BackendProbe := {| pr_available := false; pr_reason := Some reason |}.

Record BackendViolationReport := {
  rp_token : string;
  rp_kind : SandboxViolationKind;
  rp_path_or_endpoint : option string;
  rp_attribution : Attribution;
}.

(** The process primitives of a running child; [child_wait_within] is
    [tokio::time::timeout] around [wait], with the limit in milliseconds. *)
Class BackendChild (C : Type) := {
  child_pid : C → option Z;
  child_wait : C → result SandboxExecutionError BackendExit * C;
  child_wait_within : N → C → option (result SandboxExecutionError BackendExit) * C;
  child_signal_term : C → result SandboxExecutionError unit * C;
  child_signal_kill : C → result SandboxExecutionError unit * C;
  child_take_violation_report : C → option BackendViolationReport * C;
}.

Record SandboxBackend (C : Type) := {
  b_name : string;
  b_probe : BackendProbe;
  b_supports : SandboxPlan → bool;
  b_spawn : SandboxPlan → SpawnSpec → gmap string string → string → result SandboxExecutionError C;
  b_spawn_pty : SandboxPlan → SpawnSpec → gmap string string → string → result SandboxExecutionError C;
}.
Arguments b_name {C} _.
Arguments b_probe {C} _.
Arguments b_supports {C} _ _.
Arguments b_spawn {C} _ _ _ _ _.
Arguments b_spawn_pty {C} _ _ _ _ _.

Record BackendRegistry (C : Type) := { br_native : SandboxBackend C; br_platform : list (SandboxBackend C) }.
Arguments br_native {C} _.
Arguments br_platform {C} _.

(** [spawn_pty] of a backend without terminals *)
Definition default_spawn_pty {C} (name : string) : SandboxPlan → SpawnSpec → gmap string string → string →
    result SandboxExecutionError C :=
  λ _ _ _ _, Err (SErr.SandboxUnavailable name "backend does not support interactive terminal launches").

(** [NativeBackend]; [run] is the process the operating system starts. *)
Definition native_backend {C} (run run_pty : SpawnSpec → gmap string string → result SandboxExecutionError C)
    : SandboxBackend C := {|
  b_name := "native";
  b_probe := available;
  b_supports := λ plan, bool_decide (ppl_mode (pl_process plan) = Proc.Native);
  b_spawn := λ plan spec env _,
    reject? negb (bool_decide (ppl_mode (pl_process plan) = Proc.Native))
      with SErr.Lifecycle (Why.RefusesPlan "native" (pl_requested_kind plan)) in
    run spec env;
  b_spawn_pty := λ plan spec env _,
    reject? negb (bool_decide (ppl_mode (pl_process plan) = Proc.Native))
      with SErr.Lifecycle (Why.RefusesPlan "native" (pl_requested_kind plan)) in
    run_pty spec env;
|}.

Definition with_platform_backend {C} (registry : BackendRegistry C) (backend : SandboxBackend C)
    : BackendRegistry C :=
  {| br_native := br_native registry; br_platform := br_platform registry ++ [backend] |}.

(** The loop of [select] for contained plans: the first backend that is available, or the
    reason of the first one that is not. *)
Fixpoint first_available {C} (plan : SandboxPlan) (first_failure : option string)
    (backends : list (SandboxBackend C)) : SandboxBackend C + option string :=
  match backends with
  | [] => inr first_failure
  | backend :: rest =>
      if negb (b_supports backend plan) then first_available plan first_failure rest
      else if pr_available (b_probe backend) then inl backend
      else
        let reason := default ("backend `" +:+ b_name backend +:+ "` probed unavailable")
                        (pr_reason (b_probe backend)) in
        first_available plan (Some (default reason first_failure)) rest
  end.

Definition select {C} (registry : BackendRegistry C) (plan : SandboxPlan)
    : result SandboxExecutionError (SandboxBackend C) :=
  match ppl_mode (pl_process plan) with
  | Proc.Contained =>
      match first_available plan None (br_platform registry) with
      | inl backend => Ok backend
      | inr first_failure =>
          let names := b_name <$> br_platform registry in
          let reason :=
            match first_failure with
            | Some failure => failure +:+ " (candidates: [" +:+ str_join ", " names +:+ "])"
            | None => if bool_decide (names = []) then "no platform backend registered on this build"
                      else "no platform backend supports this plan"
            end in
          Err (SErr.SandboxUnavailable (default "none" (head names)) reason)
      end
  | Proc.Native => Ok (br_native registry)
  end.

(** ** The launcher *)

Record PrepareOptions := {
  po_extra_writable_roots : list Path;
  po_authority_read_only_roots : list Path;
  po_term_grace : option N;
}.

Record PreparedSandboxExecution (C : Type) := {
  px_plan : SandboxPlan;
  px_backend : SandboxBackend C;
  px_spec : SpawnSpec;
  px_env : gmap string string;
  px_violation_token : string;
  px_started : bool;
}.
Arguments px_plan {C} _.
Arguments px_backend {C} _.
Arguments px_spec {C} _.
Arguments px_env {C} _.
Arguments px_violation_token {C} _.
Arguments px_started {C} _.

(** What a launch reads and writes: the file system and the event sink. *)
Record World := { w_fs : FS; w_log : list SandboxEvent }.

Definition record {E} (event : SandboxEvent) : stm World E unit :=
  λ w, (Ok tt, {| w_fs := w_fs w; w_log := w_log w ++ [event] |}).

(** [match run { Ok(a) => Ok(a), Err(e) => { handler(e); Err(e) } }] *)
Definition on_error {S E A} (m : stm S E A) (handler : E → stm S E unit) : stm S E A :=
  λ w, match m w with
       | (Ok a, w') => (Ok a, w')
       | (Err e, w') => (do! _ := handler e in st_err e) w'
       end.

Section launcher.
Context {C : Type} (fingerprint_of : FingerprintPayload → string) (host : gmap string string).

Definition authority_environment (plan : SandboxPlan) : gmap string string :=
  list_to_map [(AGENDAO_SANDBOX_ENV_PREFIX +:+ "EXECUTION_ID", pl_execution_id plan);
               (AGENDAO_SANDBOX_ENV_PREFIX +:+ "PLAN_FINGERPRINT", pl_fingerprint plan)].

Definition plan_and_env (fs : FS) (request : SandboxExecutionRequest) (inputs : PolicyInputs)
    (options : PrepareOptions) (execution_id : string)
    : result SandboxExecutionError (SandboxPlan * gmap string string) :=
  reject? bool_decide (trim (spec_program (rq_spec request)) = "") with SErr.InvalidRequest Why.NoProgram in
  let? profile := map_error SErr.Policy
                    (derive_profile (rq_trust_class request) (rq_profile_kind request) inputs) in
  let context := {|
    pc_execution_id := execution_id;
    pc_session_origin := rq_session_origin request;
    pc_extra_writable_roots := po_extra_writable_roots options;
    pc_extra_read_only_roots := po_authority_read_only_roots options;
    pc_term_grace := po_term_grace options |} in
  let? plan := map_error SErr.Plan
                 (build_plan fingerprint_of fs profile (rq_profile_kind request) (rq_workspace_root request) context) in
  let? env := map_error SErr.Environment
                (build_child_environment (pl_environment plan) host
                   (spec_env_overrides (rq_spec request)) (authority_environment plan)) in
  let env := if bool_decide (pl_requested_kind plan = Kind.InteractiveShell) &&
                bool_decide (ppl_mode (pl_process plan) = Proc.Contained)
             then <["HOME" := INTERACTIVE_PRIVATE_HOME]> env else env in
  Ok (plan, env).

Definition prepare_inner (registry : BackendRegistry C) (request : SandboxExecutionRequest)
    (inputs : PolicyInputs) (options : PrepareOptions) (execution_id token : string)
    : stm World SandboxExecutionError (PreparedSandboxExecution C) :=
  do! planned := (λ w, (plan_and_env (w_fs w) request inputs options execution_id, w)) in
  let plan := planned.1 in
  do! backend := st_lift (select registry plan) in
  do! _ := record (Event.Prepared (pl_execution_id plan) (pl_session_origin plan)
             {| ps_requested_kind := pl_requested_kind plan;
                ps_process_mode := ppl_mode (pl_process plan);
                ps_filesystem_mode := fpl_mode (pl_filesystem plan);
                ps_network_mode := np_mode (pl_network plan) |}
             (pl_fingerprint plan) (b_name backend)) in
  st_ret {| px_plan := plan; px_backend := backend; px_spec := rq_spec request; px_env := planned.2;
            px_violation_token := token; px_started := false |}.

(** [SandboxLauncher::prepare]; the minted id and the token are arguments. *)
Definition prepare (registry : BackendRegistry C) (request : SandboxExecutionRequest)
    (inputs : PolicyInputs) (options : PrepareOptions) (execution_id token : string)
    : stm World SandboxExecutionError (PreparedSandboxExecution C) :=
  on_error (prepare_inner registry request inputs options execution_id token)
    (λ error, record (Event.Denied execution_id (rq_session_origin request)
                        (denial_from_error error) (Some error))).

Definition derive_plan (fs : FS) (request : SandboxExecutionRequest) (inputs : PolicyInputs)
    (options : PrepareOptions) (execution_id : string) : result SandboxExecutionError SandboxPlan :=
  let? planned := plan_and_env fs request inputs options execution_id in Ok planned.1.

(** ** A running execution *)

Record SandboxExecutionHandle := {
  h_child : C;
  h_backend : string;
  h_plan : SandboxPlan;
  h_violation_token : string;
  h_finished : bool;
}.

Definition record_spawn_failure (prepared : PreparedSandboxExecution C) (error : SandboxExecutionError)
    : stm World SandboxExecutionError unit :=
  record (Event.Denied (pl_execution_id (px_plan prepared)) (pl_session_origin (px_plan prepared))
            (denial_from_error error) (Some error)).

Context `{BackendChild C}.

Definition finish_start (prepared : PreparedSandboxExecution C) (child : C)
    : stm World SandboxExecutionError SandboxExecutionHandle :=
  let plan := px_plan prepared in
  let backend := b_name (px_backend prepared) in
  do! _ := record (Event.Started (pl_execution_id plan) (pl_session_origin plan) (child_pid child) backend) in
  st_ret {| h_child := child; h_backend := backend; h_plan := plan;
            h_violation_token := px_violation_token prepared; h_finished := false |}.

Definition start (prepared : PreparedSandboxExecution C)
    : stm World SandboxExecutionError SandboxExecutionHandle :=
  if px_started prepared then st_err SErr.AlreadyFinished
  else
    do! child := on_error (st_lift (b_spawn (px_backend prepared) (px_plan prepared) (px_spec prepared)
                                      (px_env prepared) (px_violation_token prepared)))
                   (record_spawn_failure prepared) in
    finish_start prepared child.

(** [start_pty] on Unix; [pty] is what opening the pseudo terminal gives. *)
Definition start_pty {M} (pty : result IoError M) (prepared : PreparedSandboxExecution C)
    : stm World SandboxExecutionError (SandboxExecutionHandle * M) :=
  if px_started prepared then st_err SErr.AlreadyFinished
  else
    do! master := st_lift (map_error (SErr.SpawnFailed "pty") pty) in
    do! child := on_error (st_lift (b_spawn_pty (px_backend prepared) (px_plan prepared) (px_spec prepared)
                                      (px_env prepared) (px_violation_token prepared)))
                   (record_spawn_failure prepared) in
    do! handle := finish_start prepared child in
    st_ret (handle, master).
End launcher.
Arguments SandboxExecutionHandle : clear implicits.

(** ** Waiting and cancelling *)

Section lifecycle.
Context {C : Type} `{BackendChild C}.

(** The handle with the event sink it writes to. *)
Record Running := { r_handle : SandboxExecutionHandle C; r_log : list SandboxEvent }.

Definition set_child (c : C) (r : Running) : Running :=
  {| r_handle := {| h_child := c; h_backend := h_backend (r_handle r); h_plan := h_plan (r_handle r);
                    h_violation_token := h_violation_token (r_handle r);
                    h_finished := h_finished (r_handle r) |};
     r_log := r_log r |}.

Definition emit (event : SandboxEvent) (r : Running) : Running :=
  {| r_handle := r_handle r; r_log := r_log r ++ [event] |}.

Definition set_finished (r : Running) : Running :=
  {| r_handle := {| h_child := h_child (r_handle r); h_backend := h_backend (r_handle r);
                    h_plan := h_plan (r_handle r); h_violation_token := h_violation_token (r_handle r);
                    h_finished := true |};
     r_log := r_log r |}.

(** An operation of the child. *)
Definition on_child {A} (op : C → A * C) : stm Running SandboxExecutionError A :=
  λ r, let '(a, c) := op (h_child (r_handle r)) in (Ok a, set_child c r).

(** The same for a fallible operation, with [?]. *)
Definition try_child {A} (op : C → result SandboxExecutionError A * C) : stm Running SandboxExecutionError A :=
  do! a := on_child op in st_lift a.

Definition ensure_running : stm Running SandboxExecutionError unit :=
  λ r, (if h_finished (r_handle r) then Err SErr.AlreadyFinished else Ok tt, r).

Definition SIGSYS : Z := 31.

Definition violation_of (r : Running) (kind : SandboxViolationKind) (target : option string)
    (attribution : Attribution) : SandboxEvent :=
  let plan := h_plan (r_handle r) in
  Event.Violation {|
    v_execution_id := pl_execution_id plan; v_plan_fingerprint := pl_fingerprint plan;
    v_session_origin := pl_session_origin plan; v_kind := kind; v_path_or_endpoint := target;
    v_attribution := attribution; v_backend := h_backend (r_handle r) |}.

Definition record_exit_violation (signal code : option Z) (r : Running) : Running :=
  if (bool_decide (signal = Some SIGSYS) || bool_decide (code = Some (128 + SIGSYS)%Z)) &&
     negb (bool_decide (h_backend (r_handle r) = "native"))
  then emit (violation_of r Viol.SyscallDenied None Viol.BestEffort) r else r.

Definition record_verified_violation (r : Running) : Running :=
  let '(report, c) := child_take_violation_report (h_child (r_handle r)) in
  let r := set_child c r in
  match report with
  | None => r
  | Some report =>
      if bool_decide (rp_token report = h_violation_token (r_handle r))
      then emit (violation_of r (rp_kind report) (rp_path_or_endpoint report) (rp_attribution report)) r
      else r
  end.

Definition finish (exit : BackendExit) (cleanup : CleanupStatus) : stm Running SandboxExecutionError SandboxExit :=
  λ r,
    let r := record_exit_violation (be_signal exit) (be_code exit) r in
    let r := record_verified_violation r in
    let r := set_finished r in
    let status := {| ex_success := be_success exit; ex_code := be_code exit; ex_signal := be_signal exit;
                     ex_cleanup := cleanup |} in
    let plan := h_plan (r_handle r) in
    (Ok status, emit (Event.Exited (pl_execution_id plan) (pl_session_origin plan) status
                        (h_backend (r_handle r))) r).

Definition wait : stm Running SandboxExecutionError SandboxExit :=
  do! _ := ensure_running in
  do! exit := try_child child_wait in
  finish exit Cleanup.NaturalExit.

Definition terminate (timeout_status : CleanupStatus) : stm Running SandboxExecutionError SandboxExit :=
  do! _ := try_child child_signal_term in
  do! within_grace := (λ r, on_child (child_wait_within
                               (1000 * ppl_term_grace_secs (pl_process (h_plan (r_handle r))))) r) in
  match within_grace with
  | Some exit => do! exit := st_lift exit in finish exit timeout_status
  | None =>
      do! _ := try_child child_signal_kill in
      do! exit := try_child child_wait in
      finish exit (if bool_decide (timeout_status = Cleanup.TimedOut) then Cleanup.TimedOut
                   else Cleanup.KilledAfterGrace)
  end.

Definition cancel : stm Running SandboxExecutionError SandboxExit :=
  do! _ := ensure_running in terminate Cleanup.TerminatedByRequest.

Definition cancel_timeout : stm Running SandboxExecutionError SandboxExit :=
  do! _ := ensure_running in terminate Cleanup.TimedOut.

Definition wait_with_timeout (limit : N) : stm Running SandboxExecutionError SandboxExit :=
  do! _ := ensure_running in
  do! waited := on_child (child_wait_within limit) in
  match waited with
  | Some exit => do! exit := st_lift exit in finish exit Cleanup.NaturalExit
  | None => terminate Cleanup.TimedOut
  end.

(** ** The driver *)

(** What wakes the task that owns the handle. *)
Inductive Wake := ChildExits | TerminateRequested | MailboxClosed.

(** The loop of [SandboxHandleDriver::spawn] over the wakes of the [select]; the value is what
    [on_exit] gets and the reply to the terminate command, if one was served.  After the last
    wake the task still waits. *)
Fixpoint drive (mailbox_open : bool) (wakes : list Wake) (r : Running)
    : option (result SandboxExecutionError SandboxExit * option (option SandboxExecutionError)) * Running :=
  match wakes with
  | [] => (None, r)
  | ChildExits :: _ => let '(status, r) := wait r in (Some (status, None), r)
  | TerminateRequested :: rest =>
      if mailbox_open then
        let '(status, r) := cancel r in
        let reply := match status with
                     | Ok _ | Err SErr.AlreadyFinished => None
                     | Err error => Some error
                     end in
        (Some (status, Some reply), r)
      else drive mailbox_open rest r
  | MailboxClosed :: rest => drive false rest r
  end.
End lifecycle.
Arguments Running : clear implicits.

(** ** Integrations *)

Section boundary.

(** [resolve_integration_runtime_roots_from] *)
Definition resolve_program_root (fs : FS) (home : Path) (spec : SpawnSpec)
    : result SandboxExecutionError (list Path * SpawnSpec) :=
  let approved_bins := [join home (components ".cargo/bin"); join home (components ".local/bin")] in
  let program := components (spec_program spec) in
  if negb (is_absolute program) then Ok ([], spec)
  else match parent program with
  | None => Ok ([], spec)
  | Some up =>
      let opencode := join home (components ".cache/opencode") in
      if existsb (λ bin, bool_decide (up = bin)) approved_bins || path_starts_with up opencode then
        let? target := map_error (λ e, SErr.InvalidRequest (Why.ExecutableUnresolved program e))
                         (canonicalize_existing fs program) in
        let target_allowed := existsb (λ bin, path_starts_with target bin) approved_bins ||
                              path_starts_with target opencode in
        reject? negb target_allowed with SErr.InvalidRequest (Why.ExecutableOutside program target) in
        let? target_parent := ok_or (parent target) (SErr.InvalidRequest (Why.ExecutableWithoutParent target)) in
        Ok ([target_parent], {| spec_program := path_text target; spec_args := spec_args spec;
                                spec_cwd := spec_cwd spec; spec_env_overrides := spec_env_overrides spec |})
      else Ok ([], spec)
  end.

Definition argument_root (home : Path) (arg : string) : option Path :=
  let path := components arg in
  if is_absolute path && path_starts_with path (join home (components ".cache/opencode"))
  then parent path else None.

Definition resolve_integration_runtime_roots_from (fs : FS) (home : Path) (spec : SpawnSpec)
    : result SandboxExecutionError (list Path * SpawnSpec) :=
  let? program := resolve_program_root fs home spec in
  let candidates := program.1 ++ omap (argument_root home) (spec_args program.2) in
  Ok (omap (λ p, match canonicalize_existing fs p with Ok q => Some q | Err _ => None end) candidates,
      program.2).

Definition resolve_integration_runtime_roots (fs : FS) (home : option Path) (spec : SpawnSpec)
    : result SandboxExecutionError (list Path * SpawnSpec) :=
  match home with
  | None => Ok ([], spec)
  | Some home => resolve_integration_runtime_roots_from fs home spec
  end.

Definition integration_request (workspace : Path) (spec : SpawnSpec) : SandboxExecutionRequest := {|
  rq_trust_class := Trust.UserConfiguredIntegration;
  rq_profile_kind := Kind.Integration;
  rq_spec := spec;
  rq_workspace_root := workspace;
  rq_session_origin := None;
|}.
End boundary.

(** The order of paths, by their components. *)
Definition component_rank (c : Component) : nat :=
  match c with Comp.RootDir => 0 | Comp.CurDir => 1 | Comp.ParentDir => 2 | Comp.Normal _ => 3 end.
Definition component_leb (a b : Component) : bool :=
  match a, b with
  | Comp.Normal x, Comp.Normal y => String.leb x y
  | _, _ => component_rank a <=? component_rank b
  end.
Fixpoint path_leb (a b : Path) : bool :=
  match a, b with
  | [], _ => true
  | _ :: _, [] => false
  | x :: a, y :: b => if bool_decide (x = y) then path_leb a b else component_leb x y
  end.
Definition path_le (a b : Path) : Prop := Is_true (path_leb a b).
#[export] Instance path_le_dec a b : Decision (path_le a b).
Proof. unfold path_le. apply _. Defined.
Fixpoint dedup_paths (l : list Path) : list Path :=
  match l with
  | x :: (y :: _) as l' => if bool_decide (x = y) then dedup_paths l' else x :: dedup_paths l'
  | _ => l
  end.

(** [AuthorityReadOnlyRoots::from_canonical] *)
Definition from_canonical (roots : list Path) : list Path := dedup_paths (merge_sort path_le roots).

Record IntegrationSandboxContext := { ic_workspace : Path; ic_read_only_runtime_roots : list Path }.

(** [IntegrationSandboxContext::new] *)
Definition integration_context (fs : FS) (workspace : Path) (runtime_roots : list Path)
    : result SandboxExecutionError IntegrationSandboxContext :=
  let? roots := collect (λ root, map_error (λ e, SErr.InvalidRequest (Why.RuntimeRootUnavailable root e))
                                   (canonicalize_existing fs root)) runtime_roots in
  Ok {| ic_workspace := workspace; ic_read_only_runtime_roots := from_canonical roots |}.

(** ** The authority of the server *)

Record SandboxAuthorityConfig := {
  ac_session_mode : SessionPermissionMode;
  ac_admin : option HardPolicy;
  ac_agent : option HardPolicy;
  ac_environment_allow_exact : gset string;
}.

Definition for_session_mode (config : SandboxAuthorityConfig) (session_mode : SessionPermissionMode)
    : SandboxAuthorityConfig := {|
  ac_session_mode := session_mode;
  ac_admin := ac_admin config;
  ac_agent := ac_agent config;
  ac_environment_allow_exact := ac_environment_allow_exact config;
|}.

Definition policy_inputs (config : SandboxAuthorityConfig) (grant : option PermissionGrantScope)
    : PolicyInputs := {|
  in_platform := unrestricted;
  in_admin := ac_admin config;
  in_agent := ac_agent config;
  in_session_mode := ac_session_mode config;
  in_grant := grant;
  in_check_build_cache_root := None;
  in_environment_allow_exact := ac_environment_allow_exact config;
|}.

Definition materialize_check_build_cache_root (workspace_root : Path) : stm World SandboxExecutionError Path :=
  λ w,
    match canonicalize (w_fs w) workspace_root with
    | Err _ => (Err (SErr.Plan (PlanErr.WorkspaceRootInvalid workspace_root)), w)
    | Ok workspace =>
        match parent workspace with
        | None => (Err (SErr.InvalidRequest (Why.WorkspaceWithoutParent workspace)), w)
        | Some up =>
            let cache_root := join up (components "target") in
            let '(made, fs) := create_dir_all (w_fs w) cache_root in
            (map_error (λ e, SErr.Lifecycle (Why.CreateCacheRoot cache_root e))
               (let? _ := made in Ok cache_root),
             {| w_fs := fs; w_log := w_log w |})
        end
    end.

Section authority.
Context {C : Type} `{BackendChild C} (fingerprint_of : FingerprintPayload → string)
  (host : gmap string string) (registry : BackendRegistry C) (execution_id token : string).

(** [SandboxAuthority::launch] *)
Definition launch (config : SandboxAuthorityConfig) (request : SandboxExecutionRequest)
    (grant : option PermissionGrantScope) (options : PrepareOptions)
    : stm World SandboxExecutionError (SandboxExecutionHandle C) :=
  do! prepared := prepare fingerprint_of host registry request (policy_inputs config grant) options
                    execution_id token in
  start prepared.

Definition launch_check (config : SandboxAuthorityConfig) (request : SandboxExecutionRequest)
    (options : PrepareOptions) : stm World SandboxExecutionError (SandboxExecutionHandle C) :=
  let request := {|
    rq_trust_class := rq_trust_class request;
    rq_profile_kind := Kind.Check;
    rq_spec := rq_spec request;
    rq_workspace_root := rq_workspace_root request;
    rq_session_origin := rq_session_origin request |} in
  do! cache_root := materialize_check_build_cache_root (rq_workspace_root request) in
  let base := policy_inputs config None in
  let inputs := {|
    in_platform := in_platform base; in_admin := in_admin base; in_agent := in_agent base;
    in_session_mode := in_session_mode base; in_grant := in_grant base;
    in_check_build_cache_root := Some cache_root;
    in_environment_allow_exact := in_environment_allow_exact base |} in
  do! prepared := prepare fingerprint_of host registry request inputs options execution_id token in
  start prepared.

(** The tool-facing view: no grant. *)
Definition boundary_prepare (config : SandboxAuthorityConfig) (request : SandboxExecutionRequest)
    (options : PrepareOptions) : stm World SandboxExecutionError (PreparedSandboxExecution C) :=
  prepare fingerprint_of host registry request (policy_inputs config None) options execution_id token.

(** [IntegrationSandboxContext::prepare] with this authority as its boundary. *)
Definition integration_prepare (config : SandboxAuthorityConfig) (home : option Path)
    (context : IntegrationSandboxContext) (spec : SpawnSpec) (options : PrepareOptions)
    : stm World SandboxExecutionError (PreparedSandboxExecution C) :=
  do! resolved := (λ w, (resolve_integration_runtime_roots (w_fs w) home spec, w)) in
  let roots := ic_read_only_runtime_roots context ++ resolved.1 in
  boundary_prepare config (integration_request (ic_workspace context) resolved.2)
    {| po_extra_writable_roots := po_extra_writable_roots options;
       po_authority_read_only_roots := from_canonical roots;
       po_term_grace := po_term_grace options |}.
End authority.
