(* ===== verification/SandboxBackends.v ===== *)
(** * What the backends hand to the kernel

    crates/agendao-sandbox/src/platform/linux/bwrap.rs and seccomp.rs, the profile of
    platform/macos/seatbelt.rs and the protected directories of
    platform/windows/acl.rs: the argument list, the filter program and the profile
    text are pure functions of the plan. *)

From S2P Require Import Prelude TextLines FileSystem FilePaths SandboxPolicy SandboxLaunch.

(** ** Bubblewrap *)

Definition READ_ONLY_HOST_DIRS : list string :=
  ["/usr"; "/etc"; "/lib"; "/lib64"; "/bin"; "/sbin"; "/opt"].

Definition workspace_writable (plan : SandboxPlan) : bool :=
  bool_decide (fpl_mode (pl_filesystem plan) = Fs.WorkspaceWrite) &&
  existsb (λ root, bool_decide (root = fpl_workspace_root (pl_filesystem plan)))
    (fpl_writable_roots (pl_filesystem plan)).

(** [path.to_string_lossy()] of a working directory *)
Definition cwd_text (spec : SpawnSpec) (workspace : string) : string :=
  match spec_cwd spec with Some path => path_text path | None => workspace end.

Definition build_bwrap_args (plan : SandboxPlan) (spec : SpawnSpec) (env : gmap string string) : list string :=
  let interactive := bool_decide (pl_requested_kind plan = Kind.InteractiveShell) in
  let args := ["--unshare-all"; "--die-with-parent"; "--new-session"] in
  let args := args ++ ["--cap-drop"; "ALL"; "--proc"; "/proc"; "--dev"; "/dev"; "--tmpfs"; "/tmp"] in
  let args := if interactive then args ++ ["--dir"; INTERACTIVE_PRIVATE_HOME] else args in
  let args := fold_left (λ args dir, args ++ ["--ro-bind-try"; dir; dir]) READ_ONLY_HOST_DIRS args in
  let workspace := fpl_workspace_root (pl_filesystem plan) in
  let args := args ++ [if workspace_writable plan then "--bind" else "--ro-bind"; workspace; workspace] in
  let args := fold_left (λ args root,
      if bool_decide (root = workspace) then args else args ++ ["--bind"; root; root])
    (fpl_writable_roots (pl_filesystem plan)) args in
  let args := fold_left (λ args root,
      if bool_decide (root = workspace) ||
         existsb (λ w, bool_decide (w = root)) (fpl_writable_roots (pl_filesystem plan))
      then args else args ++ ["--ro-bind"; root; root])
    (fpl_read_only_roots (pl_filesystem plan)) args in
  let args :=
    if workspace_writable plan then
      fold_left (λ args component,
          let protected := workspace +:+ "/" +:+ component in
          args ++ ["--ro-bind-try"; protected; protected])
        PROTECTED_METADATA_COMPONENTS args
    else args in
  let args := args ++ ["--chdir"; cwd_text spec workspace] in
  let args := args ++ ["--clearenv"] in
  let args := fold_left (λ args e, args ++ ["--setenv"; e.1; e.2]) (btree_entries env) args in
  args ++ [spec_program spec] ++ spec_args spec.

(** The arguments of [BwrapBackend::spawn]: the filter comes first. *)
Definition bwrap_command_args (plan : SandboxPlan) (spec : SpawnSpec) (env : gmap string string) : list string :=
  "--seccomp" :: "3" :: build_bwrap_args plan spec env.

Definition bwrap_supports (plan : SandboxPlan) : bool :=
  bool_decide (ppl_mode (pl_process plan) = Proc.Contained) &&
  negb (bool_decide (fpl_mode (pl_filesystem plan) = Fs.Unrestricted)) &&
  bool_decide (np_mode (pl_network plan) = Net.Disabled).

(** [BwrapBackend]; [run] starts bwrap with these arguments and an empty environment. *)
Definition bwrap_backend {C} (probe : BackendProbe)
    (run run_pty : list string → result SandboxExecutionError C) : SandboxBackend C := {|
  b_name := "bwrap";
  b_probe := probe;
  b_supports := bwrap_supports;
  b_spawn := λ plan spec env _,
    reject? negb (bool_decide (ppl_mode (pl_process plan) = Proc.Contained))
      with SErr.Lifecycle (Why.RefusesPlan "bwrap" (pl_requested_kind plan)) in
    run (bwrap_command_args plan spec env);
  b_spawn_pty := λ plan spec env _,
    reject? negb (bool_decide (ppl_mode (pl_process plan) = Proc.Contained))
      with SErr.Lifecycle (Why.RefusesPlan "bwrap" (pl_requested_kind plan)) in
    run_pty (bwrap_command_args plan spec env);
|}.

(** ** The system call filter *)

Record SockFilter := { sf_code : Z; sf_jt : Z; sf_jf : Z; sf_k : Z }.

Definition SYS_PTRACE : Z := 101.
(** x86_64 *)
Definition NETWORK_SYSCALLS : list Z :=
  [41; 42; 43; 44; 45; 46; 47; 48; 49; 50; 51; 52; 53; 288]%Z.

Definition SECCOMP_NR_OFFSET : Z := 0.
Definition RET_ERRNO_EPERM : Z := Z.lor 0x00050000 1.
Definition RET_ALLOW : Z := 0x7fff0000.

Definition BPF_LD : Z := 0x00.
Definition BPF_W : Z := 0x00.
Definition BPF_ABS : Z := 0x20.
Definition BPF_JMP : Z := 0x05.
Definition BPF_JEQ : Z := 0x10.
Definition BPF_K : Z := 0x00.
Definition BPF_RET : Z := 0x06.

Definition deny_ptrace_only : list Z := [SYS_PTRACE].
Definition deny_network_and_ptrace : list Z := NETWORK_SYSCALLS ++ [SYS_PTRACE].

Definition load_nr : SockFilter :=
  {| sf_code := Z.lor (Z.lor BPF_LD BPF_W) BPF_ABS; sf_jt := 0; sf_jf := 0; sf_k := SECCOMP_NR_OFFSET |}.

(** The test of the denied number at [index]; [as u8] and [as u32] wrap. *)
Definition jump_if (n index : nat) (nr : Z) : SockFilter :=
  {| sf_code := Z.lor (Z.lor BPF_JMP BPF_JEQ) BPF_K;
     sf_jt := ((Z.of_nat n - Z.of_nat index) mod 2 ^ 8)%Z; sf_jf := 0; sf_k := (nr mod 2 ^ 32)%Z |}.

Definition return_ (value : Z) : SockFilter :=
  {| sf_code := Z.lor BPF_RET BPF_K; sf_jt := 0; sf_jf := 0; sf_k := value |}.

Definition compile (denied : list Z) : list SockFilter :=
  let n := length denied in
  [load_nr] ++ imap (jump_if n) denied ++ [return_ RET_ALLOW; return_ RET_ERRNO_EPERM].

(** [to_ne_bytes] on a little-endian machine *)
Fixpoint le_bytes (size : nat) (v : Z) : list Z :=
  match size with O => [] | S size => (v mod 256)%Z :: le_bytes size (v / 256)%Z end.

Definition to_bpf_bytes (denied : list Z) : list Z :=
  compile denied ≫= λ ins, le_bytes 2 (sf_code ins) ++ [sf_jt ins; sf_jf ins] ++ le_bytes 4 (sf_k ins).

(** ** Seatbelt *)

Definition SEATBELT_READ_ONLY_HOST_DIRS : list string :=
  ["/System"; "/Library"; "/usr"; "/etc"; "/private/etc"; "/private/var/db/dyld"; "/opt"].

Definition quote : string := String (Ascii.ascii_of_nat 34) "".

(** [char::is_control]: C0 controls, DEL and the two-byte C1 controls. *)
Definition is_control (c : string) : bool :=
  match c with
  | String a EmptyString => let n := Ascii.N_of_ascii a in (n <? 32)%N || (n =? 127)%N
  | String a (String b EmptyString) =>
      (Ascii.N_of_ascii a =? 194)%N && (Ascii.N_of_ascii b <? 160)%N
  | _ => false
  end.

Definition unsafe_char (c : string) : bool :=
  bool_decide (c = quote) || bool_decide (c = "\") || is_control c.

(** The error is [UnsafePath] of the path. *)
Definition sbpl_literal (path : string) : result string string :=
  reject? bool_decide (path = "") || existsb unsafe_char (chars path) with path in Ok path.

(** [(action operation (subpath "path"))] and a line feed *)
Definition subpath_rule (action operation path : string) : string :=
  "(" +:+ action +:+ " " +:+ operation +:+ " (subpath " +:+ quote +:+ path +:+ quote +:+ "))" +:+ nl.

Definition plain_rule (rule : string) : string := rule +:+ nl.

Definition literal_rule (operation path : string) : string :=
  "(allow " +:+ operation +:+ " (literal " +:+ quote +:+ path +:+ quote +:+ "))" +:+ nl.

Definition build_seatbelt_profile (plan : SandboxPlan) : result string string :=
  let profile := plain_rule "(version 1)" +:+ plain_rule "(deny default)" +:+
                 plain_rule "(allow mach-lookup)" +:+ plain_rule "(allow sysctl-read)" +:+
                 literal_rule "file-read-metadata" "/" +:+
                 literal_rule "file-read*" "/dev/null" +:+
                 literal_rule "file-read*" "/dev/urandom" +:+
                 literal_rule "file-read*" "/dev/random" in
  let? profile := fold_result (λ profile dir,
    let? dir := sbpl_literal dir in Ok (profile +:+ subpath_rule "allow" "file-read*" dir))
    profile SEATBELT_READ_ONLY_HOST_DIRS in
  let? workspace := sbpl_literal (fpl_workspace_root (pl_filesystem plan)) in
  let profile := profile +:+ subpath_rule "allow" "file-read*" workspace in
  let writable := workspace_writable plan in
  let profile := if writable then profile +:+ subpath_rule "allow" "file-write*" workspace else profile in
  let? profile := fold_result (λ profile root,
    if bool_decide (root = workspace) then Ok profile
    else let? root := sbpl_literal root in Ok (profile +:+ subpath_rule "allow" "file-write*" root))
    profile (fpl_writable_roots (pl_filesystem plan)) in
  let? profile :=
    (if writable then
       fold_result (λ profile component,
         let? protected := sbpl_literal (workspace +:+ "/" +:+ component) in
         Ok (profile +:+ subpath_rule "deny" "file-write*" protected))
         profile PROTECTED_METADATA_COMPONENTS
     else Ok profile) in
  Ok (profile +:+ plain_rule "(deny network*)" +:+ plain_rule "(deny process-info*)").

(** ** Windows *)

Definition protected_metadata_dirs (plan : SandboxPlan) : list string :=
  let workspace := fpl_workspace_root (pl_filesystem plan) in
  if negb (existsb (λ root, bool_decide (root = workspace)) (fpl_writable_roots (pl_filesystem plan)))
  then [] else (λ component, workspace +:+ "\" +:+ component) <$> PROTECTED_METADATA_COMPONENTS.
