(* ===== verification/SandboxProps.v ===== *)
(** * What the sandbox promises

    Proofs about SandboxPolicy.v and SandboxLaunch.v: the profile is the
    intersection of all layers, a launch is governed by it and leaves one event,
    the child's environment is screened, and an execution ends once. *)

From S2P Require Import Prelude StateMonad FileSystem FilePaths SandboxPolicy SandboxLaunch.

(** ** Policy *)

(** The layers that bound a request. *)
Definition layers (kind : ProfileKind) (inputs : PolicyInputs) : list HardPolicy :=
  [in_platform inputs] ++ option_list (in_admin inputs) ++ option_list (in_agent inputs) ++
  [session_bound (in_session_mode inputs)] ++ option_list (grant_bound <$> in_grant inputs) ++
  [request_bound kind inputs].

Lemma merged_bound_fold kind inputs :
  merged_bound kind inputs =
  fold_left intersect
    (option_list (in_admin inputs) ++ option_list (in_agent inputs) ++
     [session_bound (in_session_mode inputs)] ++ option_list (grant_bound <$> in_grant inputs) ++
     [request_bound kind inputs]) (in_platform inputs).
Proof.
  unfold merged_bound. rewrite !fold_left_app.
  by destruct (in_admin inputs), (in_agent inputs), (in_grant inputs).
Qed.

Lemma intersect_fs a b : filesystem_rank (max_filesystem (intersect a b)) =
  Nat.min (filesystem_rank (max_filesystem a)) (filesystem_rank (max_filesystem b)).
Proof. unfold intersect; cbn [max_filesystem]. case_match eqn:E; apply Nat.leb_le in E || apply Nat.leb_gt in E; lia. Qed.

Lemma intersect_net a b : network_rank (max_network (intersect a b)) =
  Nat.min (network_rank (max_network a)) (network_rank (max_network b)).
Proof. unfold intersect; cbn [max_network]. case_match eqn:E; apply Nat.leb_le in E || apply Nat.leb_gt in E; lia. Qed.

(** A measure that intersection takes the minimum of, over a list of layers. *)
Lemma fold_min (f : HardPolicy → nat) :
  (∀ a b, f (intersect a b) = Nat.min (f a) (f b)) → ∀ ls b m,
  m ≤ f (fold_left intersect ls b) ↔ m ≤ f b ∧ Forall (λ l, m ≤ f l) ls.
Proof.
  intros Hf ls. induction ls as [|l ls IH]; intros b m; simpl.
  - rewrite Forall_nil. tauto.
  - rewrite IH, Hf, Forall_cons. rewrite Nat.min_glb_iff. tauto.
Qed.

Lemma fold_native ls b : allow_native (fold_left intersect ls b) = true ↔
  allow_native b = true ∧ Forall (λ l, allow_native l = true) ls.
Proof.
  revert b. induction ls as [|l ls IH]; intros b; simpl; [rewrite Forall_nil; tauto|].
  rewrite IH, Forall_cons. cbn [allow_native intersect]. rewrite andb_true_iff. tauto.
Qed.

Definition narrowest (f : HardPolicy → nat) (ls : list HardPolicy) (m : nat) : Prop :=
  Forall (λ l, m ≤ f l) ls ∧ Exists (λ l, f l = m) ls.

Lemma narrowest_merged (f : HardPolicy → nat) kind inputs :
  (∀ a b, f (intersect a b) = Nat.min (f a) (f b)) →
  narrowest f (layers kind inputs) (f (merged_bound kind inputs)).
Proof.
  intros Hf. rewrite merged_bound_fold. unfold layers.
  match goal with |- narrowest f ([?b] ++ ?ls) _ => generalize b, ls end. clear kind inputs.
  intros b ls. split.
  - simpl. rewrite Forall_cons. by apply (fold_min f Hf).
  - simpl. revert b. induction ls as [|l ls IH]; intros b; simpl; [by left|].
    destruct (proj1 (Exists_cons _ _ _) (IH (intersect b l))) as [H|H]; [|by right; right].
    rewrite Hf in H. destruct (Nat.min_spec (f b) (f l)) as [[_ E]|[_ E]]; rewrite E in H; [by left|by right; left].
Qed.

Lemma merged_native kind inputs : allow_native (merged_bound kind inputs) = true ↔
  Forall (λ l, allow_native l = true) (layers kind inputs).
Proof. rewrite merged_bound_fold, fold_native. unfold layers. simpl. by rewrite Forall_cons. Qed.

Definition fs_width (l : HardPolicy) : nat := filesystem_rank (max_filesystem l).
Definition net_width (l : HardPolicy) : nat := network_rank (max_network l).

(** The widths of a profile; [Restricted] counts as [ReadOnly]. *)
Definition profile_fs_width (p : SandboxProfile) : nat := filesystem_rank (fp_mode (sp_filesystem p)).
Definition read_only_below (n : nat) : nat := if n =? 1 then 0 else n.

Lemma filesystem_of_bound_rank m : filesystem_rank (filesystem_of_bound m) = read_only_below (filesystem_rank m).
Proof. by destruct m. Qed.

Lemma layers_request kind inputs : request_bound kind inputs ∈ layers kind inputs.
Proof. unfold layers. rewrite !elem_of_app. do 5 right. by apply list_elem_of_singleton. Qed.

Lemma contained_request_bound kind inputs : kind ≠ Kind.Native →
  allow_native (request_bound kind inputs) = false ∧
  max_network (request_bound kind inputs) = Net.Disabled ∧ fs_width (request_bound kind inputs) ≤ 2.
Proof.
  intros Hk. destruct kind; try done; repeat case_match; split_and!; try done; unfold fs_width; simpl;
    repeat case_match; simpl; lia.
Qed.

(** A kind other than native has no network and at most a writable workspace. *)
Lemma contained_profile kind inputs fs net :
  kind ≠ Kind.Native →
  (∃ n, narrowest fs_width (layers kind inputs) n ∧ filesystem_rank fs = read_only_below n) →
  narrowest net_width (layers kind inputs) (network_rank net) →
  net = Net.Disabled ∧ (fs = Fs.ReadOnly ∨ fs = Fs.WorkspaceWrite).
Proof.
  intros Hk (n & [Hn _] & Hfs) [Hnet _]. destruct (contained_request_bound kind inputs Hk) as (_ & Hd & Hw).
  pose proof (layers_request kind inputs) as Hin. rewrite Forall_forall in Hn, Hnet.
  specialize (Hn _ Hin). specialize (Hnet _ Hin). simpl in Hn, Hnet. unfold net_width in Hnet. rewrite Hd in Hnet.
  split; [destruct net; simpl in Hnet; done || lia|].
  destruct n as [|[|[|n]]]; [| | |lia]; unfold read_only_below in Hfs; simpl in Hfs; destruct fs; simpl in Hfs;
    try lia; auto.
Qed.

(** What [derive_profile] returns when it returns a profile. *)
Record profile_spec (kind : ProfileKind) (inputs : PolicyInputs) (p : SandboxProfile) : Prop := {
  ps_native : pp_mode (sp_process p) = Proc.Native ↔ kind = Kind.Native;
  ps_native_granted : kind = Kind.Native → Forall (λ l, allow_native l = true) (layers kind inputs);
  ps_filesystem : ∃ n, narrowest fs_width (layers kind inputs) n ∧ profile_fs_width p = read_only_below n;
  ps_network : narrowest net_width (layers kind inputs) (network_rank (np_mode (sp_network p)));
  ps_environment : ep_clear_and_reinject (sp_environment p) = negb (bool_decide (kind = Kind.Native)) ∧
    ep_hard_deny_exact (sp_environment p) = default_hard_deny_exact ∧
    ep_deny_patterns (sp_environment p) = default_deny_patterns;
  ps_roots : ∀ root, root ∈ fp_writable_roots (sp_filesystem p) ↔
    if bool_decide (kind = Kind.Check) then in_check_build_cache_root inputs = Some root
    else fp_mode (sp_filesystem p) = Fs.WorkspaceWrite ∧
         ∃ grant, in_grant inputs = Some grant ∧ root ∈ gs_write_paths grant;
}.

Lemma granted_roots mode inputs root :
  root ∈ match in_grant inputs with
         | Some grant => if bool_decide (mode = Fs.WorkspaceWrite) && true then gs_write_paths grant else []
         | None => []
         end ↔ mode = Fs.WorkspaceWrite ∧ ∃ grant, in_grant inputs = Some grant ∧ root ∈ gs_write_paths grant.
Proof.
  rewrite andb_true_r. destruct (in_grant inputs) as [grant|].
  - case_bool_decide; [naive_solver|]. split; [by intros ?%not_elem_of_nil|naive_solver].
  - split; [by intros ?%not_elem_of_nil|naive_solver].
Qed.

Lemma derive_profile_spec trust kind inputs :
  match derive_profile trust kind inputs with
  | Ok p => sp_trust_class p = trust ∧ profile_spec kind inputs p
  | Err PolErr.NativeNotAllowed =>
      kind = Kind.Native ∧ Exists (λ l, allow_native l = false) (layers kind inputs)
  | Err PolErr.CheckRequiresCacheRoot => kind = Kind.Check ∧ in_check_build_cache_root inputs = None
  end.
Proof.
  pose proof (narrowest_merged fs_width kind inputs intersect_fs) as Hfs.
  pose proof (narrowest_merged net_width kind inputs intersect_net) as Hnet.
  pose proof (merged_native kind inputs) as Hn. unfold derive_profile. revert Hfs Hnet Hn.
  generalize (merged_bound kind inputs). intros bound Hfs Hnet Hn.
  destruct (decide (kind = Kind.Native)) as [->|Hk].
  - rewrite (bool_decide_eq_true_2 (Kind.Native = Kind.Native)), (bool_decide_eq_false_2 (Kind.Native = Kind.Check)) by done. simpl.
    destruct (allow_native bound) eqn:E; simpl.
    + split; [done|]. pose proof (proj1 Hn eq_refl) as Hall. split; cbn -[bool_decide]; try done.
      * eexists. split; [exact Hfs|apply filesystem_of_bound_rank].
      * intros root. rewrite (bool_decide_eq_false_2 (_ = Kind.Check)) by done. apply granted_roots.
    + split; [done|]. apply (Exists_impl (λ l, ¬ allow_native l = true)); [|by intros l ?%not_true_iff_false].
      apply not_Forall_Exists; [apply _|]. rewrite <- Hn. done.
  - rewrite (bool_decide_eq_false_2 (kind = Kind.Native)) by done. simpl.
    destruct (decide (kind = Kind.Check)) as [->|Hc].
    + rewrite (bool_decide_eq_true_2 (Kind.Check = _)) by done. simpl.
      destruct (in_check_build_cache_root inputs) as [root|] eqn:Er; simpl; [|done].
      split; [done|]. split; cbn -[bool_decide]; try done.
      * eexists. split; [exact Hfs|apply filesystem_of_bound_rank].
      * intros r. rewrite andb_false_r. destruct (in_grant inputs); rewrite Er;
          (split; [by intros ->%list_elem_of_singleton|intros [= ->]; by apply list_elem_of_singleton]).
    + rewrite (bool_decide_eq_false_2 (kind = Kind.Check)) by done. simpl. split; [done|].
      split; cbn -[bool_decide]; try done.
      * eexists. split; [exact Hfs|apply filesystem_of_bound_rank].
      * by rewrite (bool_decide_eq_false_2 (kind = Kind.Native)).
      * intros root. rewrite (bool_decide_eq_false_2 (_ = Kind.Check)) by done. apply granted_roots.
Qed.

(** C28. A profile is the intersection of all layers of governance (platform,
    administrator, agent, session mode, permission grant and the requested kind): its
    file system and network widths are the narrowest of the layers (a bound of
    [Restricted] gives a read-only profile), it runs natively exactly when that was requested,
    and then every layer allows it.  The only writable roots beyond the workspace are the
    granted paths, or the build cache of a check.  The only errors are a native request
    that some layer does not allow, and a check without a cache root. *)
Theorem derived_profile_is_narrowest trust kind inputs :
  (∀ p, derive_profile trust kind inputs = Ok p → sp_trust_class p = trust ∧ profile_spec kind inputs p) ∧
  (derive_profile trust kind inputs = Err PolErr.NativeNotAllowed ↔
   kind = Kind.Native ∧ Exists (λ l, allow_native l = false) (layers kind inputs)) ∧
  (derive_profile trust kind inputs = Err PolErr.CheckRequiresCacheRoot ↔
   kind = Kind.Check ∧ in_check_build_cache_root inputs = None).
Proof.
  pose proof (derive_profile_spec trust kind inputs) as H. destruct (derive_profile trust kind inputs) as [p|[]] eqn:E.
  - split_and!; [by intros ? [= <-]| |].
    + split; [done|]. intros [-> Hex]. destruct H as [_ Hp].
      pose proof (ps_native_granted _ _ _ Hp eq_refl) as Hall.
      apply Exists_exists in Hex as (l & Hl & Hf). rewrite Forall_forall in Hall. by rewrite (Hall l Hl) in Hf.
    + split; [done|]. by intros [-> Hnone]; unfold derive_profile in E; rewrite Hnone in E.
  - destruct H as [-> ?]. naive_solver.
  - destruct H as [-> ?]. naive_solver.
Qed.

(** ** Environment *)

Lemma inherited_lookup policy host names name :
  inherited policy host names !! name =
  if bool_decide (name ∈ names) && negb (is_denied policy name) then host !! name else None.
Proof.
  unfold inherited. induction names as [|n names IH] using rev_ind; [done|].
  rewrite fold_left_app. cbn [fold_left]. revert IH. generalize (fold_left (λ (child : gmap string string) name,
    match host !! name with
    | Some value => if is_denied policy name then child else <[name:=value]> child
    | None => child
    end) names ∅). intros child IH.
  rewrite (bool_decide_ext (name ∈ names ++ [n]) (name = n ∨ name ∈ names))
    by (rewrite elem_of_app, list_elem_of_singleton; tauto).
  destruct (decide (name = n)) as [->|Hne].
  - rewrite (bool_decide_eq_true_2 (n = n ∨ _)) by tauto. simpl.
    destruct (host !! n) eqn:Eh, (is_denied policy n) eqn:Ed; simpl; rewrite ?andb_false_r, ?andb_true_r in IH;
      [done|by rewrite lookup_insert_eq|done|]. rewrite IH. by case_bool_decide.
  - rewrite (bool_decide_ext (name = n ∨ name ∈ names) (name ∈ names)) by tauto. rewrite <- IH.
    destruct (host !! n), (is_denied policy n); [done|by rewrite lookup_insert_ne|done..].
Qed.

Lemma elem_of_btree_keys m name : name ∈ btree_keys m ↔ is_Some (m !! name).
Proof. unfold btree_keys. by rewrite merge_sort_Permutation, elem_of_elements, elem_of_dom. Qed.

Lemma insert_all_lookup entries m name :
  insert_all entries m !! name =
  match list_find (λ e, e.1 = name) (reverse entries) with Some (_, e) => Some e.2 | None => m !! name end.
Proof.
  unfold insert_all. induction entries as [|e entries IH] using rev_ind; [done|].
  rewrite fold_left_app, reverse_app. simpl. case_decide as He.
  - subst. by rewrite lookup_insert_eq.
  - rewrite lookup_insert_ne, IH by done. by destruct (list_find _ _) as [[i p]|].
Qed.

Lemma insert_all_btree m child name :
  insert_all (btree_entries m) child !! name =
  match m !! name with Some v => Some v | None => child !! name end.
Proof.
  rewrite insert_all_lookup. destruct (list_find _ _) as [[i e]|] eqn:E.
  - apply list_find_Some in E as (He & Hn & _). apply list_elem_of_lookup_2 in He.
    rewrite elem_of_reverse in He. unfold btree_entries in He.
    apply list_elem_of_fmap in He as (k & -> & [v Hk]%elem_of_btree_keys). simpl in Hn. subst k. by rewrite Hk.
  - apply list_find_None in E. destruct (m !! name) as [v|] eqn:Em; [|done]. exfalso.
    rewrite Forall_reverse, Forall_forall in E. apply (E (name, v)); [|done].
    unfold btree_entries. apply list_elem_of_fmap. exists name. rewrite Em. split; [done|].
    by apply elem_of_btree_keys; rewrite Em.
Qed.

(** A name the child may take from the host. *)
Definition inheritable (policy : EnvironmentPolicy) (name : string) : bool :=
  if ep_clear_and_reinject policy then ep_inherit_core policy && mem name CORE_ENV_NAMES else true.

Lemma check_override_Ok policy name : check_override policy name = Ok tt ↔
  starts_with AGENDAO_SANDBOX_ENV_PREFIX name = false ∧ is_denied policy name = false.
Proof.
  unfold check_override. destruct (starts_with _ name); [naive_solver|].
  unfold is_denied. case_bool_decide; [naive_solver|]. destruct (if bool_decide _ then _ else _); naive_solver.
Qed.

(** The first key, in the order of the map, that a check refuses. *)
Definition first_refused {E} (check : string → result E unit) (m : gmap string string) (e : E) : Prop :=
  ∃ before name after, btree_keys m = before ++ name :: after ∧
    Forall (λ k, check k = Ok tt) before ∧ check name = Err e.

(** What an environment that was built holds. *)
Record environment_spec (policy : EnvironmentPolicy) (host overrides authority env : gmap string string) : Prop := {
  es_lookup : ∀ name, env !! name =
    match authority !! name with
    | Some v => Some v
    | None => match overrides !! name with
              | Some v => Some v
              | None => if inheritable policy name && negb (is_denied policy name) then host !! name else None
              end
    end;
  es_overrides : ∀ name, is_Some (overrides !! name) →
    starts_with AGENDAO_SANDBOX_ENV_PREFIX name = false ∧ is_denied policy name = false;
  es_authority : ∀ name, is_Some (authority !! name) → starts_with AGENDAO_SANDBOX_ENV_PREFIX name = true;
  es_hard_denied : ∀ name, name ∈ ep_hard_deny_exact policy →
    starts_with AGENDAO_SANDBOX_ENV_PREFIX name = false → env !! name = None;
}.

Lemma build_child_environment_spec policy host overrides authority :
  match build_child_environment policy host overrides authority with
  | Ok env => environment_spec policy host overrides authority env
  | Err e =>
      first_refused (check_override policy) overrides e ∨
      (∀ name, is_Some (overrides !! name) → check_override policy name = Ok tt) ∧
      first_refused check_authority authority e
  end.
Proof.
  unfold build_child_environment.
  destruct (for_each _ (btree_keys overrides)) as [[]|e] eqn:Ho; simpl; [|left; by apply for_each_Err].
  apply for_each_Ok in Ho. rewrite Forall_forall in Ho.
  assert (Hover : ∀ name, is_Some (overrides !! name) → check_override policy name = Ok tt)
    by (intros name Hn%elem_of_btree_keys; by apply Ho).
  destruct (for_each _ (btree_keys authority)) as [[]|e] eqn:Ha; simpl; [|right; split; [done|by apply for_each_Err]].
  apply for_each_Ok in Ha. rewrite Forall_forall in Ha.
  assert (Hauth : ∀ name, is_Some (authority !! name) → starts_with AGENDAO_SANDBOX_ENV_PREFIX name = true).
  { intros name Hn%elem_of_btree_keys. specialize (Ha name Hn). unfold check_authority in Ha.
    by destruct (starts_with _ name). }
  match goal with |- environment_spec _ _ _ _ ?env => assert (Hlook : ∀ name, env !! name =
     match authority !! name with
     | Some v => Some v
     | None => match overrides !! name with
               | Some v => Some v
               | None => if inheritable policy name && negb (is_denied policy name) then host !! name else None
               end
     end) end.
  { intros name. rewrite !insert_all_btree. destruct (authority !! name), (overrides !! name); try done.
    unfold inheritable, mem. destruct (ep_clear_and_reinject policy).
    - destruct (ep_inherit_core policy); [apply inherited_lookup|done].
    - rewrite inherited_lookup. simpl. case_bool_decide as Hin; [done|].
      rewrite elem_of_btree_keys, <- eq_None_not_Some in Hin. rewrite Hin. by destruct (is_denied _ _). }
  split; [done| |done|].
  - intros name Hn. by apply check_override_Ok, Hover.
  - intros name Hd Hp. rewrite Hlook.
    assert (Hden : is_denied policy name = true) by (unfold is_denied; by rewrite bool_decide_eq_true_2).
    destruct (authority !! name) eqn:E1; [by rewrite Hauth in Hp by eauto|].
    destruct (overrides !! name) eqn:E2; [|by rewrite Hden, andb_false_r].
    destruct (proj1 (check_override_Ok policy name)) as [_ Hf]; [by apply Hover; eauto|congruence].
Qed.

(** The environment of a child has, for every name, the authority's value, else the
    override, else the host's value if the name may be inherited (a core name in a
    contained run) and is not denied; no override is denied or reserved, and no hard-denied name
    without the authority's prefix is ever in it.  It fails exactly on the first
    override, or else the first authority key, that is refused. *)
Lemma child_environment_is_screened policy host overrides authority :
  (∀ env, build_child_environment policy host overrides authority = Ok env →
     environment_spec policy host overrides authority env) ∧
  (∀ e, build_child_environment policy host overrides authority = Err e ↔
     first_refused (check_override policy) overrides e ∨
     (∀ name, is_Some (overrides !! name) → check_override policy name = Ok tt) ∧
     first_refused check_authority authority e).
Proof.
  split; [intros env E; pose proof (build_child_environment_spec policy host overrides authority) as H; by rewrite E in H|].
  intros e. unfold build_child_environment, first_refused. rewrite <- !for_each_Err.
  destruct (for_each _ (btree_keys overrides)) as [[]|e1] eqn:Ho; simpl.
  - apply for_each_Ok in Ho. rewrite Forall_forall in Ho.
    assert (∀ name, is_Some (overrides !! name) → check_override policy name = Ok tt)
      by (intros name Hn%elem_of_btree_keys; by apply Ho).
    destruct (for_each _ (btree_keys authority)) as [[]|e2]; simpl; naive_solver.
  - split; [naive_solver|]. intros [?|[Hall _]]; [naive_solver|]. exfalso.
    apply for_each_Err in Ho as (l & x & l' & Hx & _ & Hc). rewrite Hall in Hc; [done|].
    apply elem_of_btree_keys. rewrite Hx, elem_of_app. right. by left.
Qed.

(** ** Plans *)

Lemma collect_Ok {E A B} (f : A → result E B) xs ys :
  collect f xs = Ok ys → ∀ y, y ∈ ys ↔ ∃ x, x ∈ xs ∧ f x = Ok y.
Proof.
  revert ys. induction xs as [|x xs IH]; intros ys; simpl.
  - intros [= <-] y. split; [by intros ?%not_elem_of_nil|]. by intros (? & ?%not_elem_of_nil & _).
  - destruct (f x) as [z|] eqn:Ex; simpl; [|done]. destruct (collect f xs) as [zs|] eqn:Ec; simpl; [|done].
    intros [= <-] y. rewrite elem_of_cons, (IH zs eq_refl y). split.
    + intros [->|(x' & Hx & Hy)]; [exists x|exists x']; (split; [|done]); [by left|by right].
    + intros (x' & [->|Hx]%elem_of_cons & Hy); [left; congruence|right; by exists x'].
Qed.

Lemma canonicalize_root_Ok fs p q : canonicalize_root fs p = Ok q ↔ canonicalize_existing fs p = Ok q.
Proof. unfold canonicalize_root, map_error. by destruct (canonicalize_existing fs p); split; intros [=]; subst. Qed.

(** Where a writable root of a plan comes from. *)
Definition writable_origin (fs : FS) (profile : SandboxProfile) (workspace_root : Path) (context : PlanContext)
    (p : Path) : Prop :=
  (fp_mode (sp_filesystem profile) = Fs.WorkspaceWrite ∧ canonicalize_existing fs workspace_root = Ok p) ∨
  (∃ root, root ∈ fp_writable_roots (sp_filesystem profile) ∧ canonicalize_existing fs root = Ok p) ∨
  p ∈ pc_extra_writable_roots context.

Record plan_spec (fs : FS) (profile : SandboxProfile) (kind : ProfileKind) (workspace_root : Path)
    (context : PlanContext) (plan : SandboxPlan) : Prop := {
  pls_id : pl_execution_id plan = pc_execution_id context;
  pls_origin : pl_session_origin plan = pc_session_origin context;
  pls_kind : pl_requested_kind plan = kind;
  pls_process : ppl_mode (pl_process plan) = pp_mode (sp_process profile);
  pls_grace : ppl_term_grace_secs (pl_process plan) = as_secs (default DEFAULT_TERM_GRACE (pc_term_grace context));
  pls_mode : fpl_mode (pl_filesystem plan) = fp_mode (sp_filesystem profile);
  pls_network : pl_network plan = sp_network profile;
  pls_validated : validate_network (sp_network profile) (pp_mode (sp_process profile)) = Ok tt;
  pls_environment : pl_environment plan = sp_environment profile;
  pls_workspace : ∃ p, canonicalize_existing fs workspace_root = Ok p ∧
    fpl_workspace_root (pl_filesystem plan) = path_text p;
  pls_writable : ∀ text, text ∈ fpl_writable_roots (pl_filesystem plan) ↔
    ∃ p, text = path_text p ∧ writable_origin fs profile workspace_root context p;
}.

Lemma build_plan_Ok fingerprint_of fs profile kind workspace_root context plan :
  build_plan fingerprint_of fs profile kind workspace_root context = Ok plan →
  plan_spec fs profile kind workspace_root context plan.
Proof.
  unfold build_plan. destruct (validate_network _ _) as [[]|] eqn:Ev; simpl; [|done].
  destruct (canonicalize_existing fs workspace_root) as [ws|] eqn:Ew; simpl; [|done].
  destruct (collect _ (fp_writable_roots _)) as [roots|] eqn:Er; simpl; [|done].
  destruct (collect _ (fp_read_only_roots _)) as [ro|]; simpl; [|done].
  intros [= <-]. split; simpl; try done; [by eauto|].
  intros text. rewrite elem_of_sort_dedup, list_elem_of_fmap. apply exist_proper. intros p.
  apply and_iff_compat_l. unfold writable_origin. rewrite !elem_of_app. rewrite Ew.
  rewrite (collect_Ok _ _ _ Er p). setoid_rewrite canonicalize_root_Ok.
  case_bool_decide as Hw; [rewrite list_elem_of_singleton|rewrite elem_of_nil]; naive_solver.
Qed.

(** ** Launches *)

Lemma first_available_Some {C} plan failure (backends : list (SandboxBackend C)) backend :
  first_available plan failure backends = inl backend →
  ∃ before after, backends = before ++ backend :: after ∧ b_supports backend plan = true ∧
    pr_available (b_probe backend) = true ∧
    Forall (λ b, b_supports b plan && pr_available (b_probe b) = false) before.
Proof.
  revert failure. induction backends as [|b backends IH]; intros failure; simpl; [done|].
  destruct (b_supports b plan) eqn:Es; simpl; [destruct (pr_available (b_probe b)) eqn:Ea|].
  - intros [= <-]. by exists [], backends.
  - intros (before & after & -> & ? & ? & ?)%IH. exists (b :: before), after. split_and!; try done.
    constructor; [by rewrite Ea, andb_false_r|done].
  - intros (before & after & -> & ? & ? & ?)%IH. exists (b :: before), after. split_and!; try done.
    constructor; [by rewrite Es|done].
Qed.

Lemma select_Ok {C} (registry : BackendRegistry C) plan backend : select registry plan = Ok backend →
  match ppl_mode (pl_process plan) with
  | Proc.Native => backend = br_native registry
  | Proc.Contained => backend ∈ br_platform registry ∧ b_supports backend plan = true ∧
                      pr_available (b_probe backend) = true
  end.
Proof.
  unfold select. destruct (ppl_mode (pl_process plan)); [|by intros [= <-]].
  destruct (first_available plan None (br_platform registry)) as [b|] eqn:E; [|done].
  intros [= <-]. apply first_available_Some in E as (before & after & -> & ? & ? & _).
  split_and!; try done. rewrite elem_of_app. right. by left.
Qed.

(** What is known of an execution that was prepared. *)
Record prepared_spec {C} (fs : FS) (registry : BackendRegistry C) (request : SandboxExecutionRequest)
    (inputs : PolicyInputs) (options : PrepareOptions) (id : string) (px : PreparedSandboxExecution C) : Prop := {
  pxs_program : px_spec px = rq_spec request;
  pxs_id : pl_execution_id (px_plan px) = id;
  pxs_origin : pl_session_origin (px_plan px) = rq_session_origin request;
  pxs_kind : pl_requested_kind (px_plan px) = rq_profile_kind request;
  (** native: asked for, allowed by every layer, and on the native channel *)
  pxs_native : ppl_mode (pl_process (px_plan px)) = Proc.Native →
    rq_profile_kind request = Kind.Native ∧ px_backend px = br_native registry ∧
    Forall (λ l, allow_native l = true) (layers Kind.Native inputs);
  (** contained: on a platform backend, without network, never unrestricted *)
  pxs_contained : ppl_mode (pl_process (px_plan px)) = Proc.Contained →
    rq_profile_kind request ≠ Kind.Native ∧
    px_backend px ∈ br_platform registry ∧ b_supports (px_backend px) (px_plan px) = true ∧
    pr_available (b_probe (px_backend px)) = true ∧
    np_mode (pl_network (px_plan px)) = Net.Disabled ∧
    (fpl_mode (pl_filesystem (px_plan px)) = Fs.ReadOnly ∨
     fpl_mode (pl_filesystem (px_plan px)) = Fs.WorkspaceWrite);
  pxs_workspace : ∃ p, canonicalize_existing fs (rq_workspace_root request) = Ok p ∧
    fpl_workspace_root (pl_filesystem (px_plan px)) = path_text p;
  pxs_writable : ∀ text, text ∈ fpl_writable_roots (pl_filesystem (px_plan px)) ↔
    ∃ p, text = path_text p ∧
      ((fpl_mode (pl_filesystem (px_plan px)) = Fs.WorkspaceWrite ∧
        canonicalize_existing fs (rq_workspace_root request) = Ok p) ∨
       (∃ root, canonicalize_existing fs root = Ok p ∧
          if bool_decide (rq_profile_kind request = Kind.Check) then in_check_build_cache_root inputs = Some root
          else fpl_mode (pl_filesystem (px_plan px)) = Fs.WorkspaceWrite ∧
               ∃ grant, in_grant inputs = Some grant ∧ root ∈ gs_write_paths grant) ∨
       p ∈ po_extra_writable_roots options);
  pxs_identity : px_env px !! "AGENDAO_SANDBOX_EXECUTION_ID" = Some id ∧
    px_env px !! "AGENDAO_SANDBOX_PLAN_FINGERPRINT" = Some (pl_fingerprint (px_plan px));
  pxs_credentials : ∀ name, name ∈ default_hard_deny_exact → px_env px !! name = None;
  pxs_names : ppl_mode (pl_process (px_plan px)) = Proc.Contained → ∀ name, is_Some (px_env px !! name) →
    name ∈ CORE_ENV_NAMES ∨ is_Some (spec_env_overrides (rq_spec request) !! name) ∨
    starts_with AGENDAO_SANDBOX_ENV_PREFIX name = true;
  pxs_home : ppl_mode (pl_process (px_plan px)) = Proc.Contained →
    rq_profile_kind request = Kind.InteractiveShell → px_env px !! "HOME" = Some INTERACTIVE_PRIVATE_HOME;
}.

Definition profile_summary (plan : SandboxPlan) : ProfileSummary := {|
  ps_requested_kind := pl_requested_kind plan; ps_process_mode := ppl_mode (pl_process plan);
  ps_filesystem_mode := fpl_mode (pl_filesystem plan); ps_network_mode := np_mode (pl_network plan) |}.

Lemma hard_deny_names name : name ∈ default_hard_deny_exact →
  starts_with AGENDAO_SANDBOX_ENV_PREFIX name = false ∧ name ≠ "HOME".
Proof.
  unfold default_hard_deny_exact. rewrite elem_of_list_to_set. intros Hin.
  repeat (apply elem_of_cons in Hin as [->|Hin]; [by split|]). by apply not_elem_of_nil in Hin.
Qed.

Section environment.
Context (policy : EnvironmentPolicy) (host overrides : gmap string string) (plan : SandboxPlan)
  (child : gmap string string) (He : environment_spec policy host overrides (authority_environment plan) child).

(** The rewrite of the home directory of an interactive shell. *)
Definition with_home (interactive : bool) : gmap string string :=
  if interactive then <["HOME" := INTERACTIVE_PRIVATE_HOME]> child else child.

Lemma with_home_lookup interactive name : name ≠ "HOME" → with_home interactive !! name = child !! name.
Proof. intros Hn. destruct interactive; [|done]. by apply lookup_insert_ne. Qed.

Lemma launch_identity interactive :
  with_home interactive !! "AGENDAO_SANDBOX_EXECUTION_ID" = Some (pl_execution_id plan) ∧
  with_home interactive !! "AGENDAO_SANDBOX_PLAN_FINGERPRINT" = Some (pl_fingerprint plan).
Proof. by rewrite !with_home_lookup, !(es_lookup _ _ _ _ _ He). Qed.

Lemma launch_credentials interactive name : ep_hard_deny_exact policy = default_hard_deny_exact →
  name ∈ default_hard_deny_exact → with_home interactive !! name = None.
Proof.
  intros Hd Hin. destruct (hard_deny_names _ Hin) as [Hp Hh]. rewrite with_home_lookup by done.
  apply (es_hard_denied _ _ _ _ _ He); [by rewrite Hd|done].
Qed.

Lemma launch_names interactive name : ep_clear_and_reinject policy = true →
  is_Some (with_home interactive !! name) →
  name ∈ CORE_ENV_NAMES ∨ is_Some (overrides !! name) ∨ starts_with AGENDAO_SANDBOX_ENV_PREFIX name = true.
Proof.
  intros Hc Hs. destruct (decide (name = "HOME")) as [->|Hne]; [left; by right; left|].
  rewrite with_home_lookup, (es_lookup _ _ _ _ _ He) in Hs by done.
  destruct (authority_environment plan !! name) eqn:Ea; [right; right; by apply (es_authority _ _ _ _ _ He); rewrite Ea|].
  destruct (overrides !! name) eqn:Eo; [right; left; done|]. left.
  unfold inheritable in Hs. rewrite Hc in Hs. unfold mem in Hs.
  case_bool_decide; [done|]. rewrite andb_false_r in Hs. by destruct Hs.
Qed.
End environment.

Lemma plan_and_env_Ok {C} fingerprint_of host fs (registry : BackendRegistry C) request inputs options id plan env
    token backend :
  plan_and_env fingerprint_of host fs request inputs options id = Ok (plan, env) →
  select registry plan = Ok backend →
  prepared_spec fs registry request inputs options id
    {| px_plan := plan; px_backend := backend; px_spec := rq_spec request; px_env := env;
       px_violation_token := token; px_started := false |}.
Proof.
  unfold plan_and_env. destruct (bool_decide (trim _ = "")); [done|].
  pose proof (derive_profile_spec (rq_trust_class request) (rq_profile_kind request) inputs) as Hp.
  destruct (derive_profile _ _ _) as [profile|]; simpl; [|done]. destruct Hp as [_ Hp].
  destruct (build_plan _ _ _ _ _ _) as [plan'|] eqn:Eb; simpl; [|done]. apply build_plan_Ok in Eb.
  pose proof (build_child_environment_spec (pl_environment plan') host
                (spec_env_overrides (rq_spec request)) (authority_environment plan')) as He.
  destruct (build_child_environment _ _ _ _) as [child|]; simpl; [|done].
  intros [= -> <-] Hs. apply select_Ok in Hs. destruct Eb as [Hid ? Hkind Hproc _ Hmode Hnet _ Henv Hws Hwr].
  destruct Hp as [Hnat Hall Hfs Hpn Hpe Hroots]. rewrite <- Hproc in Hnat.
  change (prepared_spec fs registry request inputs options id {| px_plan := plan; px_backend := backend;
    px_spec := rq_spec request;
    px_env := with_home child (bool_decide (pl_requested_kind plan = Kind.InteractiveShell) &&
                               bool_decide (ppl_mode (pl_process plan) = Proc.Contained));
    px_violation_token := token; px_started := false |}).
  split; cbn -[with_home bool_decide]; try done.
  - intros Hn. rewrite Hn in Hs. apply Hnat in Hn. rewrite Hn in Hall. auto.
  - intros Hc. rewrite Hc in Hs. destruct Hs as (? & ? & ?).
    assert (Hk : rq_profile_kind request ≠ Kind.Native) by (rewrite <- Hnat; congruence).
    rewrite Hnet, Hmode. destruct (contained_profile _ _ _ _ Hk Hfs Hpn) as [? ?]. split_and!; done.
  - intros text. rewrite Hwr, Hmode. apply exist_proper. intros p. apply and_iff_compat_l.
    unfold writable_origin. setoid_rewrite Hroots. cbn -[bool_decide]. naive_solver.
  - cbn [pc_execution_id] in Hid. rewrite <- Hid. apply (launch_identity _ _ _ _ _ He).
  - intros name Hin. eapply launch_credentials; [exact He|by destruct Hpe as (_ & ? & _); rewrite Henv|done].
  - intros Hc name Hsome. eapply launch_names; [exact He| |exact Hsome]. destruct Hpe as (Hcl & _). rewrite Henv, Hcl.
    rewrite bool_decide_eq_false_2; [done|]. rewrite <- Hnat. congruence.
  - intros Hc Hi. rewrite Hc, Hkind, Hi, !bool_decide_eq_true_2 by done. apply lookup_insert_eq.
Qed.

(** C29. [prepare] records exactly one event and changes no file.  If it succeeds, the event is
    [Prepared] with the identity and fingerprint of the plan.  A plan is native only if that
    was requested and every layer of policy allows it, and then it runs on the native channel; any other
    plan runs on an available platform backend that supports it, without network and
    with at most a writable workspace.  Its writable roots are the canonical
    workspace (in workspace-write mode), granted paths or the build cache, and the roots the authority
    added.  Its environment carries the ids of the plan and no internal credential; in a
    contained plan only core names, overrides and authority names occur.  If [prepare] fails, the event is [Denied]
    with the minted id. *)
Theorem launches_are_governed {C} fingerprint_of host (registry : BackendRegistry C) request inputs options id token w :
  match prepare fingerprint_of host registry request inputs options id token w with
  | (Ok px, w') =>
      prepared_spec (w_fs w) registry request inputs options id px ∧ w_fs w' = w_fs w ∧
      w_log w' = w_log w ++ [Event.Prepared id (rq_session_origin request) (profile_summary (px_plan px))
                               (pl_fingerprint (px_plan px)) (b_name (px_backend px))]
  | (Err e, w') =>
      w_fs w' = w_fs w ∧
      w_log w' = w_log w ++ [Event.Denied id (rq_session_origin request) (denial_from_error e) (Some e)]
  end.
Proof.
  unfold prepare, on_error, prepare_inner, st_bind.
  destruct (plan_and_env _ _ _ _ _ _ _) as [[plan env]|e] eqn:Ep; [|done]. simpl. unfold st_lift.
  destruct (select registry plan) as [backend|e] eqn:Es; [|done]. simpl.
  pose proof (plan_and_env_Ok _ _ _ _ _ _ _ _ _ _ token _ Ep Es) as Hspec. split; [done|]. split; [done|].
  pose proof (pxs_id _ _ _ _ _ _ _ Hspec) as Hid. pose proof (pxs_origin _ _ _ _ _ _ _ Hspec) as Ho.
  cbn [px_plan] in Hid, Ho. by rewrite Hid, Ho.
Qed.

(** A native plan promises what nothing enforces: with an administrator who allows native runs but
    no writes and no network, the plan is read-only and offline, and it runs on the
    native channel, which looks at neither. *)
Lemma native_plan_is_not_enforced {C} (run run_pty : SpawnSpec → gmap string string → result SandboxExecutionError C)
    trust plan spec env token :
  let inputs := {| in_platform := unrestricted;
                   in_admin := Some {| max_filesystem := Fs.ReadOnly; max_network := Net.Disabled; allow_native := true |};
                   in_agent := None; in_session_mode := Mode.UnsandboxedYolo; in_grant := None;
                   in_check_build_cache_root := None; in_environment_allow_exact := ∅ |} in
  (∃ p, derive_profile trust Kind.Native inputs = Ok p ∧ fp_mode (sp_filesystem p) = Fs.ReadOnly ∧
        np_mode (sp_network p) = Net.Disabled ∧ pp_mode (sp_process p) = Proc.Native) ∧
  (ppl_mode (pl_process plan) = Proc.Native → b_spawn (native_backend run run_pty) plan spec env token = run spec env).
Proof. split; [by eexists|]. intros Hn. cbn [b_spawn native_backend]. by rewrite Hn. Qed.

(** An argument that is the plugin cache itself exposes the whole cache of the user. *)
Lemma cache_argument_exposes_parent :
  argument_root (components "/home/u") "/home/u/.cache/opencode" = Some (components "/home/u/.cache").
Proof. vm_compute. reflexivity. Qed.
