(* ===== verification/SandboxRunProps.v ===== *)
(** * How a sandboxed execution ends

    Proofs about the life cycle of SandboxLaunch.v: whatever is called on a handle,
    in whatever order and whatever the child does, it ends once; a cancellation
    climbs the ladder TERM, grace, KILL. *)

From S2P Require Import Prelude StateMonad FileSystem FilePaths SandboxPolicy SandboxLaunch SandboxProps.

(** ** Ending once *)

Inductive Op := OpWait | OpCancel | OpCancelTimeout | OpWaitWithTimeout (limit : N).

Section lifecycle.
Context {C : Type} `{BackendChild C}.
Implicit Types r : Running C.

Definition run_op (op : Op) : stm (Running C) SandboxExecutionError SandboxExit :=
  match op with
  | OpWait => wait
  | OpCancel => cancel
  | OpCancelTimeout => cancel_timeout
  | OpWaitWithTimeout limit => wait_with_timeout limit
  end.

(** Calls on a handle, one after the other, with what they return. *)
Fixpoint run_ops (ops : list Op) (r : Running C) : list (result SandboxExecutionError SandboxExit) * Running C :=
  match ops with
  | [] => ([], r)
  | op :: ops => let '(res, r) := run_op op r in let '(rs, r) := run_ops ops r in (res :: rs, r)
  end.

(** A violation under the identity of a running execution. *)
Definition violation_under (r : Running C) (e : SandboxEvent) : Prop :=
  ∃ v, e = Event.Violation v ∧ v_execution_id v = pl_execution_id (h_plan (r_handle r)) ∧
       v_plan_fingerprint v = pl_fingerprint (h_plan (r_handle r)) ∧
       v_session_origin v = pl_session_origin (h_plan (r_handle r)) ∧ v_backend v = h_backend (r_handle r).

Definition same_execution (r r' : Running C) : Prop :=
  h_plan (r_handle r') = h_plan (r_handle r) ∧ h_backend (r_handle r') = h_backend (r_handle r) ∧
  h_violation_token (r_handle r') = h_violation_token (r_handle r).

(** Still running: nothing was reported. *)
Definition goes_on (r r' : Running C) : Prop :=
  same_execution r r' ∧ h_finished (r_handle r') = h_finished (r_handle r) ∧ r_log r' = r_log r.

(** Ended with a status: the violations seen, then one [Exited] event. *)
Definition ends_with (r : Running C) (s : SandboxExit) (r' : Running C) : Prop :=
  same_execution r r' ∧ h_finished (r_handle r') = true ∧
  ∃ violations, Forall (violation_under r) violations ∧
    r_log r' = r_log r ++ violations ++
      [Event.Exited (pl_execution_id (h_plan (r_handle r))) (pl_session_origin (h_plan (r_handle r))) s
         (h_backend (r_handle r))].

Lemma goes_on_refl r : goes_on r r.
Proof. by repeat split. Qed.

Lemma goes_on_trans r1 r2 r3 : goes_on r1 r2 → goes_on r2 r3 → goes_on r1 r3.
Proof. intros ((?&?&?)&?&?) ((?&?&?)&?&?). repeat split; congruence. Qed.

Lemma goes_on_ends r1 r2 s r3 : goes_on r1 r2 → ends_with r2 s r3 → ends_with r1 s r3.
Proof.
  intros ((E1&E2&E3)&Ef&El) ((?&?&?)&?&vs&Hvs&Hlog). unfold violation_under in Hvs. rewrite E1, E2 in *.
  repeat split; try congruence. exists vs. split; [done|]. by rewrite Hlog, El.
Qed.

Lemma set_child_goes_on c r : goes_on r (set_child c r).
Proof. by repeat split. Qed.

Lemma finish_ends exit cleanup r :
  ∃ r', finish exit cleanup r =
    (Ok {| ex_success := be_success exit; ex_code := be_code exit; ex_signal := be_signal exit;
           ex_cleanup := cleanup |}, r') ∧
  ends_with r {| ex_success := be_success exit; ex_code := be_code exit; ex_signal := be_signal exit;
                 ex_cleanup := cleanup |} r'.
Proof.
  eexists. split; [reflexivity|].
  assert (H1 : ∀ r, ∃ vs, Forall (violation_under r) vs ∧ same_execution r (record_exit_violation (be_signal exit) (be_code exit) r) ∧
     r_log (record_exit_violation (be_signal exit) (be_code exit) r) = r_log r ++ vs).
  { intros r0. unfold record_exit_violation. destruct (_ && _).
    - eexists [_]. split; [|by repeat split]. constructor; [|done]. eexists. by repeat split.
    - exists []. by rewrite app_nil_r. }
  assert (H2 : ∀ r, ∃ vs, Forall (violation_under r) vs ∧ same_execution r (record_verified_violation r) ∧
     r_log (record_verified_violation r) = r_log r ++ vs).
  { intros r0. unfold record_verified_violation. destruct (child_take_violation_report _) as [[rep|] c].
    - case_bool_decide.
      + eexists [_]. split; [|by repeat split]. constructor; [|done]. eexists. by repeat split.
      + exists []. by rewrite app_nil_r.
    - exists []. by rewrite app_nil_r. }
  destruct (H1 r) as (vs1 & Hv1 & (E1&E2&E3) & Hl1).
  destruct (H2 (record_exit_violation (be_signal exit) (be_code exit) r)) as (vs2 & Hv2 & (F1&F2&F3) & Hl2).
  unfold violation_under in Hv2. rewrite E1, E2 in Hv2.
  repeat split; simpl; try congruence. exists (vs1 ++ vs2). split; [by apply Forall_app|].
  rewrite Hl2, Hl1, F1, F2, E1, E2. by rewrite <- !app_assoc.
Qed.

(** What every operation of a handle that still runs does. *)
Definition outcome (r : Running C) (res : result SandboxExecutionError SandboxExit) (r' : Running C) : Prop :=
  match res with
  | Ok s => ends_with r s r'
  | Err _ => goes_on r r'
  end.

Definition acts {A} (m : stm (Running C) SandboxExecutionError A) (k : Running C → A → Running C → Prop) : Prop :=
  ∀ r, match m r with (Ok a, r') => k r a r' | (Err _, r') => goes_on r r' end.

Lemma acts_bind {A B} (m : stm (Running C) SandboxExecutionError A) (f : A → stm _ _ B) (k : _ → B → _ → Prop) :
  (∀ r1 r2 b r3, goes_on r1 r2 → k r2 b r3 → k r1 b r3) →
  acts m (λ r _ r', goes_on r r') → (∀ a, acts (f a) k) → acts (st_bind m f) k.
Proof.
  intros Hk Hm Hf r. unfold st_bind. specialize (Hm r). destruct (m r) as [[a|e] r1]; [|done].
  specialize (Hf a r1). destruct (f a r1) as [[b|e] r2]; [by eapply Hk|by eapply goes_on_trans].
Qed.

Lemma acts_goes_bind {A B} (m : stm (Running C) SandboxExecutionError A) (f : A → stm _ _ B) :
  acts m (λ r _ r', goes_on r r') → (∀ a, acts (f a) (λ r _ r', goes_on r r')) →
  acts (st_bind m f) (λ r _ r', goes_on r r').
Proof. apply acts_bind. intros. by eapply goes_on_trans. Qed.

Lemma acts_on_child {A} (op : C → A * C) : acts (on_child op) (λ r _ r', goes_on r r').
Proof. intros r. unfold on_child. destruct (op _). apply set_child_goes_on. Qed.

Lemma acts_lift {A} (res : result SandboxExecutionError A) : acts (st_lift res) (λ r _ r', goes_on r r').
Proof. intros r. unfold st_lift. destruct res; apply goes_on_refl. Qed.

Lemma acts_try_child {A} (op : C → result SandboxExecutionError A * C) :
  acts (try_child op) (λ r _ r', goes_on r r').
Proof. apply acts_goes_bind; [apply acts_on_child|intros; apply acts_lift]. Qed.

Lemma acts_finish exit cleanup : acts (finish exit cleanup) ends_with.
Proof. intros r. by destruct (finish_ends exit cleanup r) as (r' & -> & ?). Qed.

Lemma acts_ensure : acts ensure_running (λ r _ r', goes_on r r').
Proof. intros r. unfold ensure_running. destruct (h_finished _); apply goes_on_refl. Qed.

#[local] Hint Resolve acts_on_child acts_lift acts_try_child acts_finish acts_ensure : core.

Lemma acts_then {A} (m : stm (Running C) SandboxExecutionError A) f :
  acts m (λ r _ r', goes_on r r') → (∀ a, acts (f a) ends_with) → acts (st_bind m f) ends_with.
Proof. apply acts_bind. intros. by eapply goes_on_ends. Qed.

Lemma acts_terminate status : acts (terminate status) ends_with.
Proof.
  unfold terminate. apply acts_then; [done|]. intros _. apply acts_then; [intros r; apply acts_on_child|].
  intros [exit|]; [apply acts_then; auto|]. apply acts_then; [done|]. intros _. apply acts_then; auto.
Qed.

Lemma acts_run_op op : acts (run_op op) ends_with.
Proof.
  destruct op; simpl; unfold wait, cancel, cancel_timeout, wait_with_timeout; (apply acts_then; [done|]; intros _);
    try apply acts_terminate; (apply acts_then; [done|]).
  - auto.
  - intros [exit|]; [apply acts_then; auto|apply acts_terminate].
Qed.

Lemma run_op_finished op r : h_finished (r_handle r) = true → run_op op r = (Err SErr.AlreadyFinished, r).
Proof. intros Hf. by destruct op; simpl; unfold wait, cancel, cancel_timeout, wait_with_timeout, st_bind, ensure_running; rewrite Hf. Qed.

Lemma run_ops_finished ops r : h_finished (r_handle r) = true →
  run_ops ops r = (replicate (length ops) (Err SErr.AlreadyFinished), r).
Proof. intros Hf. induction ops as [|op ops IH]; [done|]. simpl. by rewrite run_op_finished, IH. Qed.

(** C31. However a handle is used, its execution ends at most once: until one call
    succeeds nothing is reported; that call reports the violations, under the identity of the
    plan, and then one [Exited] event with the status it returns; every later call fails
    with [AlreadyFinished] and changes nothing. *)
Theorem execution_ends_once ops r :
  let '(results, r') := run_ops ops r in
  if h_finished (r_handle r) then results = replicate (length ops) (Err SErr.AlreadyFinished) ∧ r' = r else
  (Forall (λ res, is_ok res = false) results ∧ goes_on r r') ∨
  (∃ before s after, results = before ++ Ok s :: replicate after (Err SErr.AlreadyFinished) ∧
     Forall (λ res, is_ok res = false) before ∧ ends_with r s r').
Proof.
  revert r. induction ops as [|op ops IH]; intros r; destruct (h_finished (r_handle r)) eqn:Hf;
    [done|left; split; [done|apply goes_on_refl]|by rewrite run_ops_finished|]. simpl.
  pose proof (acts_run_op op r) as Hop. destruct (run_op op r) as [[s|e] r1].
  - rewrite run_ops_finished by apply Hop. right. by exists [], s, (length ops).
  - destruct Hop as (Hs & Hf1 & Hl). assert (Hg : goes_on r r1) by done.
    specialize (IH r1). destruct (run_ops ops r1) as [results r2]. rewrite Hf1, Hf in IH.
    destruct IH as [[Hall Hgo]|(before & s & after & -> & Hall & Hend)].
    + left. split; [by constructor|by eapply goes_on_trans].
    + right. exists (Err e :: before), s, after. split; [done|]. split; [by constructor|].
      by eapply goes_on_ends.
Qed.
End lifecycle.

(** ** The ladder *)

Inductive Call := CallTerm | CallWaitWithin (limit : N) | CallKill | CallWait.

(** A child that notes what is called on it. *)
#[local] Instance noted {C} `{BackendChild C} : BackendChild (C * list Call) := {
  child_pid c := child_pid c.1;
  child_wait c := let '(a, c') := child_wait c.1 in (a, (c', c.2 ++ [CallWait]));
  child_wait_within limit c := let '(a, c') := child_wait_within limit c.1 in (a, (c', c.2 ++ [CallWaitWithin limit]));
  child_signal_term c := let '(a, c') := child_signal_term c.1 in (a, (c', c.2 ++ [CallTerm]));
  child_signal_kill c := let '(a, c') := child_signal_kill c.1 in (a, (c', c.2 ++ [CallKill]));
  child_take_violation_report c := let '(a, c') := child_take_violation_report c.1 in (a, (c', c.2));
}.

Definition calls {C} (r : Running (C * list Call)) : list Call := (h_child (r_handle r)).2.

Definition grace_of {C} (r : Running (C * list Call)) : N :=
  (1000 * ppl_term_grace_secs (pl_process (h_plan (r_handle r))))%N.

Section ladder.
Context {C : Type} `{BackendChild C}.
Implicit Types r : Running (C * list Call).

Lemma finish_calls exit cleanup r : calls (finish exit cleanup r).2 = calls r.
Proof.
  unfold finish, calls. cbn [snd emit set_finished r_handle h_child].
  unfold record_verified_violation. cbn [child_take_violation_report noted].
  assert (E : (h_child (r_handle (record_exit_violation (be_signal exit) (be_code exit) r))) = h_child (r_handle r))
    by (unfold record_exit_violation; by destruct (_ && _)).
  rewrite E. destruct (child_take_violation_report (h_child (r_handle r)).1) as [[rep|] c]; [|done].
  by case_bool_decide.
Qed.

Lemma finish_result exit cleanup r : finish exit cleanup r =
  (Ok {| ex_success := be_success exit; ex_code := be_code exit; ex_signal := be_signal exit;
         ex_cleanup := cleanup |}, (finish exit cleanup r).2).
Proof. done. Qed.

Definition asked (status : CleanupStatus) : bool := bool_decide (status = Cleanup.TimedOut).

(** The steps of a cancellation: KILL only after TERM, and after a grace period that ran out. *)
Lemma terminate_ladder status r :
  match terminate status r with
  | (Ok s, r') =>
      calls r' = calls r ++ [CallTerm; CallWaitWithin (grace_of r)] ∧ ex_cleanup s = status ∨
      calls r' = calls r ++ [CallTerm; CallWaitWithin (grace_of r); CallKill; CallWait] ∧
      ex_cleanup s = (if asked status then Cleanup.TimedOut else Cleanup.KilledAfterGrace)
  | (Err _, r') =>
      ∃ done_, done_ `prefix_of` [CallTerm; CallWaitWithin (grace_of r); CallKill; CallWait] ∧
        done_ ≠ [] ∧ calls r' = calls r ++ done_
  end.
Proof.
  unfold terminate, try_child, st_bind, st_lift, on_child.
  cbn [child_signal_term child_wait_within child_signal_kill child_wait noted].
  destruct (child_signal_term _) as [[[]|e] c1]; cbn [set_child r_handle h_child h_plan fst snd].
  2:{ exists [CallTerm]. split; [by exists [CallWaitWithin (grace_of r); CallKill; CallWait]|]. by split. }
  destruct (child_wait_within _ c1) as [[[exit|e]|] c2]; cbn [set_child r_handle h_child h_plan fst snd].
  - rewrite finish_result, finish_calls. left. split; [|done]. cbn. by rewrite <- app_assoc.
  - exists [CallTerm; CallWaitWithin (grace_of r)]. split; [by exists [CallKill; CallWait]|].
    split; [done|]. cbn. by rewrite <- app_assoc.
  - destruct (child_signal_kill c2) as [[[]|e] c3]; cbn [set_child r_handle h_child h_plan fst snd].
    2:{ exists [CallTerm; CallWaitWithin (grace_of r); CallKill]. split; [by exists [CallWait]|].
        split; [done|]. cbn. by rewrite <- !app_assoc. }
    destruct (child_wait c3) as [[exit|e] c4]; cbn [set_child r_handle h_child h_plan fst snd].
    + rewrite finish_result, finish_calls. right. split; [cbn; by rewrite <- !app_assoc|].
      cbn [ex_cleanup]. unfold asked. by case_bool_decide.
    + exists [CallTerm; CallWaitWithin (grace_of r); CallKill; CallWait]. split; [done|].
      split; [done|]. cbn. by rewrite <- !app_assoc.
Qed.
End ladder.

(** The grace period of a plan is in whole seconds: the 300 milliseconds the shell tool asks
    for are none at all. *)
Lemma short_grace_is_no_grace fingerprint_of fs profile kind workspace_root context plan :
  build_plan fingerprint_of fs profile kind workspace_root context = Ok plan →
  pc_term_grace context = Some 300%N → ppl_term_grace_secs (pl_process plan) = 0%N.
Proof. intros Hp Hg. apply build_plan_Ok in Hp. by rewrite (pls_grace _ _ _ _ _ _ Hp), Hg. Qed.

(** A terminal that cannot be opened ends a launch without any event. *)
Lemma failed_terminal_is_silent {C M} `{BackendChild C} e (prepared : PreparedSandboxExecution C) w :
  px_started prepared = false →
  start_pty (Err e : result IoError M) prepared w = (Err (SErr.SpawnFailed "pty" e), w).
Proof. intros Hs. unfold start_pty. by rewrite Hs. Qed.
