(* ===== verification/SandboxBackendProps.v ===== *)
(** * What the kernel is asked to enforce

    Proofs about SandboxBackends.v.  The argument list of bwrap is read back as the
    options it documents, and the mounts among them decide what a path is: the last
    one that covers it.  The filter program is run on a machine that obeys the
    documented meaning of the three instructions it uses. *)

From S2P Require Import Prelude TextLines FileSystem FilePaths SandboxPolicy SandboxLaunch SandboxBackends.

(** ** Options of bwrap *)

Module Opt.
Inductive BwrapOption :=
| UnshareAll | ShareNet | DieWithParent | NewSession | Clearenv
| CapDrop (cap : string) | Proc (dest : string) | Dev (dest : string) | Tmpfs (dest : string)
| MkDir (dest : string) | Chdir (dir : string) | Seccomp (fd : string)
| Bind (src dest : string) | RoBind (src dest : string) | RoBindTry (src dest : string)
| SetEnv (name value : string).
End Opt.
Abbreviation BwrapOption := Opt.BwrapOption.

Definition option_args (o : BwrapOption) : list string :=
  match o with
  | Opt.UnshareAll => ["--unshare-all"] | Opt.ShareNet => ["--share-net"] | Opt.DieWithParent => ["--die-with-parent"]
  | Opt.NewSession => ["--new-session"] | Opt.Clearenv => ["--clearenv"]
  | Opt.CapDrop cap => ["--cap-drop"; cap] | Opt.Proc dest => ["--proc"; dest]
  | Opt.Dev dest => ["--dev"; dest] | Opt.Tmpfs dest => ["--tmpfs"; dest]
  | Opt.MkDir dest => ["--dir"; dest] | Opt.Chdir dir => ["--chdir"; dir]
  | Opt.Seccomp fd => ["--seccomp"; fd]
  | Opt.Bind src dest => ["--bind"; src; dest] | Opt.RoBind src dest => ["--ro-bind"; src; dest]
  | Opt.RoBindTry src dest => ["--ro-bind-try"; src; dest]
  | Opt.SetEnv name value => ["--setenv"; name; value]
  end.

(** Options are read up to the first word that does not start with a dash, which is the
    program. *)
Definition reads_as (argv : list string) (opts : list BwrapOption) (command : list string) : Prop :=
  argv = (opts ≫= option_args) ++ command ∧
  match command with word :: _ => starts_with "-" word = false | [] => True end.

Definition first_option (argv : list string) : option (BwrapOption * list string) :=
  match argv with
  | [] => None
  | word :: rest =>
      let unary f := match rest with a :: rest => Some (f a, rest) | [] => None end in
      let binary f := match rest with a :: b :: rest => Some (f a b, rest) | _ => None end in
      if bool_decide (word = "--unshare-all") then Some (Opt.UnshareAll, rest)
      else if bool_decide (word = "--share-net") then Some (Opt.ShareNet, rest)
      else if bool_decide (word = "--die-with-parent") then Some (Opt.DieWithParent, rest)
      else if bool_decide (word = "--new-session") then Some (Opt.NewSession, rest)
      else if bool_decide (word = "--clearenv") then Some (Opt.Clearenv, rest)
      else if bool_decide (word = "--cap-drop") then unary Opt.CapDrop
      else if bool_decide (word = "--proc") then unary Opt.Proc
      else if bool_decide (word = "--dev") then unary Opt.Dev
      else if bool_decide (word = "--tmpfs") then unary Opt.Tmpfs
      else if bool_decide (word = "--dir") then unary Opt.MkDir
      else if bool_decide (word = "--chdir") then unary Opt.Chdir
      else if bool_decide (word = "--seccomp") then unary Opt.Seccomp
      else if bool_decide (word = "--bind") then binary Opt.Bind
      else if bool_decide (word = "--ro-bind") then binary Opt.RoBind
      else if bool_decide (word = "--ro-bind-try") then binary Opt.RoBindTry
      else if bool_decide (word = "--setenv") then binary Opt.SetEnv
      else None
  end.

Lemma first_option_args o rest : first_option (option_args o ++ rest) = Some (o, rest).
Proof. by destruct o. Qed.

Lemma first_option_command word rest : starts_with "-" word = false → first_option (word :: rest) = None.
Proof.
  intros Hd. unfold first_option. repeat (case_bool_decide; [subst; discriminate|]). done.
Qed.

Lemma reads_as_unique argv opts1 command1 opts2 command2 :
  reads_as argv opts1 command1 → reads_as argv opts2 command2 → opts1 = opts2 ∧ command1 = command2.
Proof.
  intros [-> H1] [He H2]. revert opts2 He. induction opts1 as [|o opts1 IH]; intros [|o2 opts2] He; simpl in He.
  - done.
  - exfalso. apply (f_equal first_option) in He. rewrite <- app_assoc, first_option_args in He.
    destruct command1; [done|]. by rewrite first_option_command in He.
  - exfalso. apply (f_equal first_option) in He. rewrite <- app_assoc, first_option_args in He.
    destruct command2; [done|]. by rewrite first_option_command in He.
  - rewrite <- !app_assoc in He. pose proof (f_equal first_option He) as Hf. rewrite !first_option_args in Hf.
    injection Hf as -> Ht. by destruct (IH opts2 Ht) as [-> ->].
Qed.

(** The options of a plan. *)
Definition root_mounts (plan : SandboxPlan) : list BwrapOption :=
  let workspace := fpl_workspace_root (pl_filesystem plan) in
  let roots := fpl_writable_roots (pl_filesystem plan) in
  [if workspace_writable plan then Opt.Bind workspace workspace else Opt.RoBind workspace workspace] ++
  (roots ≫= λ root, if bool_decide (root = workspace) then [] else [Opt.Bind root root]) ++
  (fpl_read_only_roots (pl_filesystem plan) ≫= λ root,
     if bool_decide (root = workspace) || existsb (λ w, bool_decide (w = root)) roots then []
     else [Opt.RoBind root root]).

Definition protected_mounts (plan : SandboxPlan) : list BwrapOption :=
  if workspace_writable plan then
    PROTECTED_METADATA_COMPONENTS ≫= λ component,
      let protected := fpl_workspace_root (pl_filesystem plan) +:+ "/" +:+ component in
      [Opt.RoBindTry protected protected]
  else [].

Definition plan_options (plan : SandboxPlan) (spec : SpawnSpec) (env : gmap string string) : list BwrapOption :=
  [Opt.Seccomp "3"; Opt.UnshareAll; Opt.DieWithParent; Opt.NewSession; Opt.CapDrop "ALL"; Opt.Proc "/proc";
   Opt.Dev "/dev"; Opt.Tmpfs "/tmp"] ++
  (if bool_decide (pl_requested_kind plan = Kind.InteractiveShell) then [Opt.MkDir INTERACTIVE_PRIVATE_HOME] else []) ++
  (READ_ONLY_HOST_DIRS ≫= λ dir, [Opt.RoBindTry dir dir]) ++
  root_mounts plan ++ protected_mounts plan ++
  [Opt.Chdir (cwd_text spec (fpl_workspace_root (pl_filesystem plan))); Opt.Clearenv] ++
  (btree_entries env ≫= λ e, [Opt.SetEnv e.1 e.2]).

Lemma fold_left_append {A B} (f : A → list B) xs acc :
  fold_left (λ acc x, acc ++ f x) xs acc = acc ++ (xs ≫= f).
Proof.
  revert acc. induction xs as [|x xs IH]; intros acc; simpl; [by rewrite app_nil_r|]. by rewrite IH, <- app_assoc.
Qed.

Lemma fold_left_skip {A B} (b : A → bool) (f : A → list B) xs acc :
  fold_left (λ acc x, if b x then acc else acc ++ f x) xs acc = acc ++ (xs ≫= λ x, if b x then [] else f x).
Proof.
  rewrite <- fold_left_append. revert acc. induction xs as [|x xs IH]; intros acc; simpl; [done|].
  rewrite IH. by destruct (b x); [rewrite app_nil_r|].
Qed.

Lemma bind_bind {A B D} (f : A → list B) (g : B → list D) xs : ((xs ≫= f) ≫= g) = xs ≫= λ x, f x ≫= g.
Proof. induction xs as [|x xs IH]; [done|]. by rewrite !bind_cons, bind_app, IH. Qed.

Lemma bind_ext_list {A B} (f g : A → list B) xs : (∀ x, f x = g x) → xs ≫= f = xs ≫= g.
Proof. intros Hfg. induction xs as [|x xs IH]; [done|]. by rewrite !bind_cons, Hfg, IH. Qed.

Lemma bind_if {A B} (b : bool) (x : A) (f : A → list B) :
  ((if b then [] else [x]) ≫= f) = if b then [] else f x.
Proof. destruct b; [done|]. by rewrite bind_cons, app_nil_r. Qed.

Lemma bwrap_args_options plan spec env :
  bwrap_command_args plan spec env =
  (plan_options plan spec env ≫= option_args) ++ spec_program spec :: spec_args spec.
Proof.
  unfold bwrap_command_args, build_bwrap_args, plan_options, root_mounts, protected_mounts.
  rewrite !fold_left_append, !fold_left_skip, !bind_app, !bind_bind.
  rewrite (bind_ext_list (λ x, ((if bool_decide (x = _) then _ else _) ≫= option_args)) _ (fpl_writable_roots _)
             (λ x, bind_if _ _ _)).
  rewrite (bind_ext_list (λ x, ((if _ || _ then _ else _) ≫= option_args)) _ (fpl_read_only_roots _)
             (λ x, bind_if _ _ _)).
  destruct (workspace_writable plan), (bool_decide (pl_requested_kind plan = _));
    rewrite ?fold_left_append, ?bind_bind, <- ?app_assoc; done.
Qed.

(** ** Mounts *)

Section mounts.
(** Which paths exist on the host: a bind that may be tried has no effect without its source. *)
Context (host_has : string → bool).

Definition mount_dest (o : BwrapOption) : option string :=
  match o with
  | Opt.Proc dest | Opt.Dev dest | Opt.Tmpfs dest | Opt.Bind _ dest | Opt.RoBind _ dest => Some dest
  | Opt.RoBindTry src dest => if host_has src then Some dest else None
  | _ => None
  end.

Definition covers (p : Path) (o : BwrapOption) : bool :=
  match mount_dest o with Some dest => path_starts_with p (components dest) | None => false end.

(** Mounts stack: the last one that covers a path decides what it is. *)
Definition last_mount (opts : list BwrapOption) (p : Path) : option BwrapOption :=
  last (filter (λ o, Is_true (covers p o)) opts).

Lemma last_mount_app opts1 opts2 p : last_mount (opts1 ++ opts2) p =
  match last_mount opts2 p with Some o => Some o | None => last_mount opts1 p end.
Proof. unfold last_mount. rewrite filter_app, last_app. by destruct (last (filter _ opts2)). Qed.

Lemma last_mount_Some opts p o : last_mount opts p = Some o → o ∈ opts ∧ covers p o = true.
Proof.
  unfold last_mount. intros H. apply last_Some_elem_of in H. apply list_elem_of_filter in H as [H1 H2].
  split; [done|]. by apply Is_true_true.
Qed.

Lemma last_mount_None opts p : (∀ o, o ∈ opts → covers p o = false) → last_mount opts p = None.
Proof.
  intros Hall. destruct (last_mount opts p) as [o|] eqn:E; [|done].
  apply last_mount_Some in E as [Hin Hc]. by rewrite Hall in Hc.
Qed.

Lemma last_mount_is_Some opts p o : o ∈ opts → covers p o = true → is_Some (last_mount opts p).
Proof.
  intros Hin Hc. unfold last_mount. apply last_is_Some. intros Hnil.
  assert (H : o ∈ filter (λ o, Is_true (covers p o)) opts) by (apply list_elem_of_filter; rewrite Hc; done).
  rewrite Hnil in H. by apply not_elem_of_nil in H.
Qed.

Lemma not_in_binds {A B} (f : A → list B) (P : B → Prop) xs y :
  (∀ x z, z ∈ f x → P z) → y ∈ (xs ≫= f) → P y.
Proof. intros Hf (x & Hy & _)%list_elem_of_bind. by eapply Hf. Qed.

Definition setenvs (env : gmap string string) : list BwrapOption :=
  btree_entries env ≫= λ e, [Opt.SetEnv e.1 e.2].

Lemma setenvs_inv env o : o ∈ setenvs env → ∃ name value, o = Opt.SetEnv name value ∧ (name, value) ∈ btree_entries env.
Proof. unfold setenvs. intros ([n v] & ->%list_elem_of_singleton & Hin)%list_elem_of_bind. eauto. Qed.

Lemma workspace_writable_true plan : workspace_writable plan = true →
  fpl_mode (pl_filesystem plan) = Fs.WorkspaceWrite ∧
  fpl_workspace_root (pl_filesystem plan) ∈ fpl_writable_roots (pl_filesystem plan).
Proof.
  unfold workspace_writable. intros [Hm%bool_decide_eq_true He]%andb_true_iff. split; [done|].
  apply existsb_exists in He as (x & Hx & ->%bool_decide_eq_true). by apply list_elem_of_In.
Qed.

Definition protected_path (plan : SandboxPlan) (component : string) : string :=
  fpl_workspace_root (pl_filesystem plan) +:+ "/" +:+ component.

(** Nothing is mounted after the protected directories. *)
Lemma protected_last plan spec env component p : workspace_writable plan = true →
  component ∈ PROTECTED_METADATA_COMPONENTS → host_has (protected_path plan component) = true →
  path_starts_with p (components (protected_path plan component)) = true →
  ∃ dest, last_mount (plan_options plan spec env) p = Some (Opt.RoBindTry dest dest).
Proof.
  intros Hw Hc Hh Hp. unfold plan_options. rewrite !app_assoc, last_mount_app.
  rewrite last_mount_None.
  2:{ intros o. apply (not_in_binds _ (λ o, covers p o = false)). by intros x z ->%list_elem_of_singleton. }
  rewrite last_mount_app. rewrite (last_mount_None [_; _]).
  2:{ intros o. intros [->|[->|[]%not_elem_of_nil]%elem_of_cons]%elem_of_cons; done. }
  rewrite last_mount_app.
  assert (Hin : Opt.RoBindTry (protected_path plan component) (protected_path plan component) ∈ protected_mounts plan).
  { unfold protected_mounts. rewrite Hw. apply list_elem_of_bind. exists component.
    split; [by apply list_elem_of_singleton|done]. }
  destruct (last_mount_is_Some _ p _ Hin) as [o Ho]; [unfold covers; simpl; by rewrite Hh|].
  rewrite Ho. apply last_mount_Some in Ho as [Ho _]. unfold protected_mounts in Ho. rewrite Hw in Ho.
  apply list_elem_of_bind in Ho as (c & ->%list_elem_of_singleton & _). by eexists.
Qed.

(** The environment of the program: bwrap carries out its options in order. *)
Definition env_step (e : gmap string string) (o : BwrapOption) : gmap string string :=
  match o with
  | Opt.Clearenv => ∅
  | Opt.SetEnv name value => <[name := value]> e
  | _ => e
  end.
Definition child_env (inherited : gmap string string) (opts : list BwrapOption) : gmap string string :=
  fold_left env_step opts inherited.

Lemma env_entry (env : gmap string string) name value : (name, value) ∈ btree_entries env ↔ env !! name = Some value.
Proof.
  unfold btree_entries, btree_keys. rewrite list_elem_of_fmap. setoid_rewrite merge_sort_Permutation.
  setoid_rewrite elem_of_elements. setoid_rewrite elem_of_dom. split.
  - intros (k & [= -> ->] & [v ->]). done.
  - intros Hv. exists name. by rewrite Hv.
Qed.

(** Setting some variables of [env]. *)
Lemma setenvs_lookup (env : gmap string string) entries m name :
  (∀ n v, (n, v) ∈ entries → env !! n = Some v) →
  child_env m (entries ≫= λ e, [Opt.SetEnv e.1 e.2]) !! name =
    if decide (name ∈ entries.*1) then env !! name else m !! name.
Proof.
  unfold child_env. revert m. induction entries as [|[n v] entries IH]; intros m He.
  { case_decide as H; [by apply not_elem_of_nil in H|done]. }
  change (((n, v) :: entries).*1) with (n :: entries.*1).
  change (fold_left env_step (((n, v) :: entries) ≫= _) m) with
    (fold_left env_step (entries ≫= λ e, [Opt.SetEnv e.1 e.2]) (<[n := v]> m)).
  rewrite IH by (intros; apply He; by right).
  destruct (decide (name = n)) as [->|Hne].
  - rewrite lookup_insert_eq, (He n v) by by left. repeat case_decide; set_solver.
  - rewrite lookup_insert_ne by done. repeat case_decide; set_solver.
Qed.

Lemma plan_options_env plan spec env inherited : child_env inherited (plan_options plan spec env) = env.
Proof.
  unfold plan_options, child_env. rewrite !fold_left_app. simpl.
  change (fold_left env_step ?opts ∅) with (child_env ∅ opts). apply map_eq. intros name.
  rewrite (setenvs_lookup env) by (intros n v; apply env_entry).
  case_decide as Hin; [done|]. rewrite lookup_empty. symmetry. apply eq_None_not_Some. intros [v Hv].
  apply Hin, list_elem_of_fmap. exists (name, v). split; [done|by apply env_entry].
Qed.

(** What a path can be under a plan: a writable root of the plan, a private directory, or read-only. *)
Definition mount_of (plan : SandboxPlan) (p : Path) (o : BwrapOption) : Prop :=
  match o with
  | Opt.Bind src dest =>
      src = dest ∧ dest ∈ fpl_writable_roots (pl_filesystem plan) ∧ path_starts_with p (components dest) = true ∧
      (dest = fpl_workspace_root (pl_filesystem plan) → fpl_mode (pl_filesystem plan) = Fs.WorkspaceWrite)
  | Opt.RoBind src dest | Opt.RoBindTry src dest => src = dest
  | Opt.Proc dest => dest = "/proc"
  | Opt.Dev dest => dest = "/dev"
  | Opt.Tmpfs dest => dest = "/tmp"
  | _ => False
  end.

(** The options besides the roots and the variables. *)
Definition fixed (o : BwrapOption) : Prop :=
  match o with
  | Opt.Bind _ _ | Opt.SetEnv _ _ | Opt.ShareNet => False
  | Opt.RoBind src dest | Opt.RoBindTry src dest => src = dest
  | Opt.Proc dest => dest = "/proc"
  | Opt.Dev dest => dest = "/dev"
  | Opt.Tmpfs dest => dest = "/tmp"
  | _ => True
  end.

Lemma plan_options_fixed plan spec env o : o ∈ plan_options plan spec env →
  fixed o ∨ o ∈ root_mounts plan ∨ o ∈ setenvs env.
Proof.
  unfold plan_options. rewrite !elem_of_app. intros [H|[H|[H|[H|[H|[H|H]]]]]]; auto; left.
  - repeat (apply elem_of_cons in H as [->|H]; [done|]). by apply not_elem_of_nil in H.
  - case_bool_decide; [|by apply not_elem_of_nil in H]. by apply list_elem_of_singleton in H as ->.
  - apply (not_in_binds _ fixed) in H; [done|]. by intros x z ->%list_elem_of_singleton.
  - unfold protected_mounts in H. destruct (workspace_writable plan); [|by apply not_elem_of_nil in H].
    apply (not_in_binds _ fixed) in H; [done|]. by intros x z ->%list_elem_of_singleton.
  - repeat (apply elem_of_cons in H as [->|H]; [done|]). by apply not_elem_of_nil in H.
Qed.

Lemma root_mounts_inv plan o : o ∈ root_mounts plan →
  (∃ dest, o = Opt.RoBind dest dest) ∨
  (∃ dest, o = Opt.Bind dest dest ∧ dest ∈ fpl_writable_roots (pl_filesystem plan) ∧
     (dest = fpl_workspace_root (pl_filesystem plan) → workspace_writable plan = true)).
Proof.
  unfold root_mounts. rewrite !elem_of_app. intros [H|[H|H]].
  - destruct (workspace_writable plan) eqn:Ew; apply list_elem_of_singleton in H as ->; [right|by eauto].
    apply workspace_writable_true in Ew as [? ?]. eauto.
  - apply list_elem_of_bind in H as (root & H & Hr). case_bool_decide; [by apply not_elem_of_nil in H|].
    apply list_elem_of_singleton in H as ->. right. by eexists.
  - apply list_elem_of_bind in H as (root & H & Hr). destruct (_ || _); [by apply not_elem_of_nil in H|].
    apply list_elem_of_singleton in H as ->. eauto.
Qed.

Lemma last_mount_plan plan spec env p o :
  last_mount (plan_options plan spec env) p = Some o → mount_of plan p o.
Proof.
  intros [Hin Hc]%last_mount_Some. apply plan_options_fixed in Hin as [Hf|[Hin|Hin]].
  - unfold covers in Hc. by destruct o.
  - apply root_mounts_inv in Hin as [(? & ->)|(? & -> & Hin & Hw)]; [done|]. simpl.
    split_and!; [done..|]. intros Hd. by apply workspace_writable_true, Hw.
  - by apply setenvs_inv in Hin as (? & ? & -> & _).
Qed.

Lemma no_shared_network plan spec env : Opt.ShareNet ∉ plan_options plan spec env.
Proof.
  intros [?|[H|H]]%plan_options_fixed; [done| |].
  - by apply root_mounts_inv in H as [(? & ?)|(? & ? & _)].
  - by apply setenvs_inv in H as (? & ? & ? & _).
Qed.

(** A workspace that is not writable is bound read-only, under what the other roots cover. *)
Lemma workspace_read_only plan spec env p :
  workspace_writable plan = false →
  path_starts_with p (components (fpl_workspace_root (pl_filesystem plan))) = true →
  (∀ root, root ∈ fpl_writable_roots (pl_filesystem plan) → root ≠ fpl_workspace_root (pl_filesystem plan) →
     path_starts_with p (components root) = false) →
  ∃ dest, last_mount (plan_options plan spec env) p = Some (Opt.RoBind dest dest).
Proof.
  intros Hw Hp Hroots. unfold plan_options. rewrite !app_assoc, last_mount_app.
  rewrite last_mount_None.
  2:{ intros o. apply (not_in_binds _ (λ o, covers p o = false)). by intros x z ->%list_elem_of_singleton. }
  rewrite last_mount_app. rewrite (last_mount_None [_; _]).
  2:{ intros o. intros [->|[->|[]%not_elem_of_nil]%elem_of_cons]%elem_of_cons; done. }
  unfold protected_mounts. rewrite Hw, app_nil_r, last_mount_app.
  set (ws := fpl_workspace_root (pl_filesystem plan)) in *.
  assert (Hin : Opt.RoBind ws ws ∈ root_mounts plan).
  { unfold root_mounts. rewrite Hw. apply elem_of_app. left. by apply list_elem_of_singleton. }
  destruct (last_mount_is_Some _ p _ Hin) as [o Ho]; [exact Hp|].
  rewrite Ho. apply last_mount_Some in Ho as [Ho Hc].
  apply root_mounts_inv in Ho as [(dest & ->)|(dest & -> & Hd & Hdw)]; [by exists dest|].
  exfalso. destruct (decide (dest = ws)) as [->|Hne]; [by rewrite Hdw in Hw|].
  unfold covers in Hc. simpl in Hc. by rewrite (Hroots _ Hd Hne) in Hc.
Qed.

(** C30. The arguments given to bwrap have exactly one reading as the options it documents, and that
    reading runs the requested program with no namespace of the host (the network is not shared
    again) and with exactly the environment of the plan, whatever bwrap inherits (the variables
    are cleared before they are set; PWD is bwrap's own).  What decides about a path is the last
    mount that covers it: a writable root of the plan (the workspace itself only in workspace-write
    mode), the private /tmp, /dev or /proc, or something read-only.  In a plan whose workspace is
    not writable a path of the workspace is read-only unless a writable root other than the
    workspace covers it; in a writable workspace everything under a protected directory that
    exists is read-only, whatever the roots are.  This needs a program name that does not start
    with a dash. *)
Theorem contained_mounts_confine plan spec env :
  starts_with "-" (spec_program spec) = false →
  let workspace := fpl_workspace_root (pl_filesystem plan) in
  let command := spec_program spec :: spec_args spec in
  ∃ opts, reads_as (bwrap_command_args plan spec env) opts command ∧
  (∀ opts' command', reads_as (bwrap_command_args plan spec env) opts' command' →
     opts' = opts ∧ command' = command) ∧
  Opt.UnshareAll ∈ opts ∧ (Opt.ShareNet ∉ opts) ∧
  (∀ inherited, child_env inherited opts = env) ∧
  (∀ p o, last_mount opts p = Some o → mount_of plan p o) ∧
  (workspace_writable plan = false → ∀ p, path_starts_with p (components workspace) = true →
     (∀ root, root ∈ fpl_writable_roots (pl_filesystem plan) → root ≠ workspace →
        path_starts_with p (components root) = false) →
     ∃ dest, last_mount opts p = Some (Opt.RoBind dest dest)) ∧
  (workspace_writable plan = true → ∀ component p,
     component ∈ PROTECTED_METADATA_COMPONENTS → host_has (protected_path plan component) = true →
     path_starts_with p (components (protected_path plan component)) = true →
     ∃ dest, last_mount opts p = Some (Opt.RoBindTry dest dest)).
Proof.
  intros Hd workspace command.
  assert (Hr : reads_as (bwrap_command_args plan spec env) (plan_options plan spec env) command)
    by (split; [apply bwrap_args_options|done]).
  exists (plan_options plan spec env). split; [done|].
  split; [intros opts' command' Hr'; by eapply reads_as_unique|]. split; [right; left|].
  split; [apply no_shared_network|]. split; [apply plan_options_env|].
  split; [apply last_mount_plan|].
  split; [intros Hw p Hp Hroots; by apply workspace_read_only|].
  intros Hw component p Hc Hh Hp. by eapply protected_last.
Qed.
End mounts.

(** A contained run in a writable workspace [/w]. *)
Definition demo_plan : SandboxPlan := {|
  pl_execution_id := "run"; pl_trust_class := Trust.ModelReachable; pl_requested_kind := Kind.WorkspaceWrite;
  pl_filesystem := {| fpl_mode := Fs.WorkspaceWrite; fpl_workspace_root := "/w"; fpl_writable_roots := ["/w"];
                      fpl_read_only_roots := [] |};
  pl_network := network_disabled; pl_environment := default_environment;
  pl_process := {| ppl_mode := Proc.Contained; ppl_term_grace_secs := 5 |};
  pl_fingerprint := "print"; pl_session_origin := None |}.

Definition demo_spec : SpawnSpec :=
  {| spec_program := "sh"; spec_args := []; spec_cwd := None; spec_env_overrides := ∅ |}.

Lemma contained_mounts_confine_witness :
  ∃ opts, reads_as (bwrap_command_args demo_plan demo_spec {[ "HOME" := "/tmp" ]}) opts ["sh"] ∧
    child_env {[ "PATH" := "/bin"; "HOME" := "/root" ]} opts = {[ "HOME" := "/tmp" ]} ∧
    ∃ dest, last_mount (λ _, true) opts (components "/w/.git/config") = Some (Opt.RoBindTry dest dest).
Proof.
  destruct (contained_mounts_confine (λ _, true) demo_plan demo_spec {[ "HOME" := "/tmp" ]} eq_refl)
    as (opts & Hr & _ & _ & _ & He & _ & _ & H).
  exists opts. split; [exact Hr|]. split; [apply He|].
  apply (H eq_refl ".git"); [by left|reflexivity|reflexivity].
Defined.

(** A root above the workspace makes a workspace writable that the mode of the plan keeps read-only. *)
Definition covered_plan : SandboxPlan := {|
  pl_execution_id := "run"; pl_trust_class := Trust.ModelReachable; pl_requested_kind := Kind.WorkspaceWrite;
  pl_filesystem := {| fpl_mode := Fs.ReadOnly; fpl_workspace_root := "/w/src"; fpl_writable_roots := ["/w"];
                      fpl_read_only_roots := [] |};
  pl_network := network_disabled; pl_environment := default_environment;
  pl_process := {| ppl_mode := Proc.Contained; ppl_term_grace_secs := 5 |};
  pl_fingerprint := "print"; pl_session_origin := None |}.

Lemma covering_root_opens_workspace :
  workspace_writable covered_plan = false ∧
  last_mount (λ _, true) (plan_options covered_plan demo_spec ∅) (components "/w/src/.git/config") =
    Some (Opt.Bind "/w" "/w").
Proof. split; vm_compute; reflexivity. Qed.

(** Without the directory on the host the bind has no effect: a child may create it. *)
Lemma missing_metadata_is_writable :
  last_mount (λ path, bool_decide (path = "/w")) (plan_options demo_plan demo_spec ∅)
    (components "/w/.git/hooks/pre-commit") = Some (Opt.Bind "/w" "/w").
Proof. vm_compute. reflexivity. Qed.

(** Nothing separates the program from the options: a program named [--bind] is one, and
    its arguments choose what is mounted last. *)
Lemma program_read_as_option host_has plan env :
  let spec := {| spec_program := "--bind"; spec_args := ["/"; "/"; "sh"]; spec_cwd := None;
                 spec_env_overrides := ∅ |} in
  let opts := plan_options plan spec env ++ [Opt.Bind "/" "/"] in
  reads_as (bwrap_command_args plan spec env) opts ["sh"] ∧
  ∀ p, is_absolute p = true → last_mount host_has opts p = Some (Opt.Bind "/" "/").
Proof.
  split.
  - split; [|done]. rewrite bwrap_args_options. by rewrite bind_app, <- app_assoc.
  - intros p Hp. rewrite last_mount_app. destruct p as [|[| | |] p]; try done.
    unfold last_mount. rewrite filter_cons_True; [done|]. 
    unfold covers, path_starts_with. change (components "/") with [Comp.RootDir]. by destruct p.
Qed.

(** ** The filter program *)

Definition jump_equal (jt jf k : Z) : SockFilter :=
  {| sf_code := Z.lor (Z.lor BPF_JMP BPF_JEQ) BPF_K; sf_jt := jt; sf_jf := jf; sf_k := k |}.

(** What the manual says of the three instructions: load the number of the system call, compare
    the accumulator and jump forward, return. *)
Record bpf_laws (run : list SockFilter → nat → Z → Z → option Z) : Prop := {
  law_load : ∀ prog pc acc nr, prog !! pc = Some load_nr → run prog pc acc nr = run prog (S pc) nr nr;
  law_jump : ∀ prog pc acc nr jt jf k, prog !! pc = Some (jump_equal jt jf k) →
    run prog pc acc nr = run prog (S pc + Z.to_nat (if bool_decide (acc = k) then jt else jf)) acc nr;
  law_return : ∀ prog pc acc nr k, prog !! pc = Some (return_ k) → run prog pc acc nr = Some k;
}.

Section filter.
Context (run : list SockFilter → nat → Z → Z → option Z) (Hrun : bpf_laws run) (denied : list Z).
Context (Hsize : length denied ≤ 255) (Hnums : Forall (λ nr, 0 ≤ nr < 2 ^ 32)%Z denied).

Lemma compile_jump i nr : denied !! i = Some nr →
  compile denied !! S i = Some (jump_equal (Z.of_nat (length denied) - Z.of_nat i) 0 nr).
Proof.
  intros Hi. pose proof (lookup_lt_Some _ _ _ Hi) as Hlt. unfold compile. simpl.
  rewrite lookup_app_l by (by rewrite length_imap). rewrite list_lookup_imap, Hi. simpl. f_equal.
  unfold jump_if, jump_equal. rewrite Forall_forall in Hnums.
  specialize (Hnums nr (list_elem_of_lookup_2 _ _ _ Hi)).
  f_equal; [|by apply Z.mod_small]. apply Z.mod_small. change (2 ^ 8)%Z with 256%Z. lia.
Qed.

Lemma compile_end (i : nat) : i < 2 →
  compile denied !! (S (length denied) + i) = Some (return_ (if i =? 0 then RET_ALLOW else RET_ERRNO_EPERM)).
Proof.
  intros Hi. unfold compile. simpl. rewrite lookup_app_r by (rewrite length_imap; lia). rewrite length_imap.
  replace (length denied + i - length denied) with i by lia. by destruct i as [|[|i]]; [| |lia].
Qed.

Lemma run_from i nr : i ≤ length denied →
  run (compile denied) (S i) nr nr = Some (if bool_decide (nr ∈ drop i denied) then RET_ERRNO_EPERM else RET_ALLOW).
Proof.
  intros Hi. remember (length denied - i) as n eqn:En. revert i Hi En.
  induction n as [|n IH]; intros i Hi En.
  - assert (i = length denied) as -> by lia. rewrite drop_all.
    apply (law_return _ Hrun). rewrite <- (Nat.add_0_r (S (length denied))). apply (compile_end 0). lia.
  - destruct (lookup_lt_is_Some_2 denied i) as [k Hk]; [lia|].
    rewrite (law_jump _ Hrun _ _ _ _ _ _ _ (compile_jump i k Hk)). rewrite (drop_S _ k i) by done.
    destruct (decide (nr = k)) as [->|Hne].
    + rewrite !bool_decide_eq_true_2; [|by left|done].
      apply (law_return _ Hrun).
      replace (S (S i) + _) with (S (length denied) + 1) by lia. apply (compile_end 1). lia.
    + rewrite bool_decide_eq_false_2 by done. replace (S (S i) + Z.to_nat 0) with (S (S i)) by (simpl; lia).
      rewrite (IH (S i)) by lia. f_equal.
      rewrite (bool_decide_ext (nr ∈ k :: drop (S i) denied) (nr ∈ drop (S i) denied)); [done|].
      rewrite elem_of_cons. tauto.
Qed.

Lemma compile_verdict acc nr :
  run (compile denied) 0 acc nr = Some (if bool_decide (nr ∈ denied) then RET_ERRNO_EPERM else RET_ALLOW).
Proof. rewrite (law_load _ Hrun); [|done]. rewrite run_from by lia. by rewrite drop_0. Qed.

(** C32. The compiled filter decides exactly the denied system calls: on every machine that
    obeys the documented meaning of the instructions it returns EPERM for the denied
    numbers and allows every other number from 0 to 2^32 - 1 (the numbers the kernel hands to a filter
    are 32 bits wide), as long as at most 255 numbers are denied (jump distances are bytes). *)
Theorem filter_denies_exactly acc nr :
  run (compile denied) 0 acc nr = Some (if bool_decide (nr ∈ denied) then RET_ERRNO_EPERM else RET_ALLOW).
Proof. apply compile_verdict. Qed.
End filter.

(** A machine: the program from an instruction on, [skip] instructions to go. *)
Fixpoint machine (skip : nat) (prog : list SockFilter) (acc nr : Z) : option Z :=
  match prog with
  | [] => None
  | ins :: rest =>
      match skip with
      | S skip => machine skip rest acc nr
      | O =>
          if bool_decide (sf_code ins = sf_code load_nr) then machine 0 rest nr nr
          else if bool_decide (sf_code ins = sf_code (return_ 0)) then Some (sf_k ins)
          else machine (Z.to_nat (if bool_decide (acc = sf_k ins) then sf_jt ins else sf_jf ins)) rest acc nr
      end
  end.

Definition machine_run (prog : list SockFilter) (pc : nat) (acc nr : Z) : option Z := machine pc prog acc nr.

Lemma machine_drop pc skip prog acc nr : machine (pc + skip) prog acc nr = machine skip (drop pc prog) acc nr.
Proof. revert prog. induction pc as [|pc IH]; intros [|ins prog]; try done. apply IH. Qed.

Lemma machine_at pc prog ins acc nr : prog !! pc = Some ins →
  machine_run prog pc acc nr = machine 0 (ins :: drop (S pc) prog) acc nr.
Proof.
  intros Hi. unfold machine_run. rewrite <- (Nat.add_0_r pc) at 1. rewrite machine_drop.
  by rewrite (drop_S _ _ _ Hi).
Qed.

Lemma machine_laws : bpf_laws machine_run.
Proof.
  split.
  - intros prog pc acc nr Hi. rewrite (machine_at _ _ _ _ _ Hi).
    pose proof (machine_drop (S pc) 0 prog nr nr) as Hm. rewrite Nat.add_0_r in Hm. by symmetry.
  - intros prog pc acc nr jt jf k Hi. rewrite (machine_at _ _ _ _ _ Hi).
    unfold machine_run. by rewrite machine_drop.
  - intros prog pc acc nr k Hi. by rewrite (machine_at _ _ _ _ _ Hi).
Qed.

Lemma filter_denies_exactly_witness :
  machine_run (compile deny_network_and_ptrace) 0 0 41 = Some RET_ERRNO_EPERM ∧
  machine_run (compile deny_network_and_ptrace) 0 0 1 = Some RET_ALLOW.
Proof.
  assert (Hs : length deny_network_and_ptrace ≤ 255) by (cbn; lia).
  assert (Hn : Forall (λ nr, 0 ≤ nr < 2 ^ 32)%Z deny_network_and_ptrace)
    by (apply (bool_decide_unpack _); vm_compute; exact I).
  split.
  - exact (filter_denies_exactly machine_run machine_laws deny_network_and_ptrace Hs Hn 0 41).
  - exact (filter_denies_exactly machine_run machine_laws deny_network_and_ptrace Hs Hn 0 1).
Defined.

(** The filter does not look at the architecture: the numbers of the x32 interface pass. *)
Lemma x32_socket_allowed : machine_run (compile deny_network_and_ptrace) 0 0 (0x40000000 + 41) = Some RET_ALLOW.
Proof. vm_compute. reflexivity. Qed.

(** The bytes handed to bwrap are the program. *)
Definition le_value (bytes : list Z) : Z := fold_right (λ b v, b + 256 * v)%Z 0%Z bytes.

Fixpoint read_program (bytes : list Z) : list SockFilter :=
  match bytes with
  | c0 :: c1 :: jt :: jf :: k0 :: k1 :: k2 :: k3 :: rest =>
      {| sf_code := le_value [c0; c1]; sf_jt := jt; sf_jf := jf; sf_k := le_value [k0; k1; k2; k3] |} ::
      read_program rest
  | _ => []
  end.

Lemma le_value_bytes size v : (0 ≤ v < 256 ^ Z.of_nat size)%Z → le_value (le_bytes size v) = v.
Proof.
  revert v. induction size as [|size IH]; intros v Hv; cbn [le_bytes le_value fold_right]; [simpl in Hv; lia|].
  rewrite Nat2Z.inj_succ, Z.pow_succ_r in Hv by lia. fold (le_value (le_bytes size (v / 256))).
  rewrite IH; [pose proof (Z.div_mod v 256); lia|]. split; [apply Z.div_pos; lia|]. apply Z.div_lt_upper_bound; lia.
Qed.

Lemma filter_bytes_read_back denied : read_program (to_bpf_bytes denied) = compile denied.
Proof.
  assert (H : Forall (λ ins, 0 ≤ sf_code ins < 256 ^ 2 ∧ 0 ≤ sf_k ins < 256 ^ 4)%Z (compile denied)).
  { unfold compile. repeat (apply Forall_app; split); [by repeat constructor| |by repeat constructor].
    apply Forall_forall. intros ins (i & nr & -> & _)%elem_of_lookup_imap. split; [by vm_compute|].
    cbn [sf_k jump_if]. apply Z.mod_pos_bound. lia. }
  unfold to_bpf_bytes. induction H as [|ins rest [Hc Hk] _ IH]; [done|]. rewrite bind_cons.
  revert IH. generalize (rest ≫= λ ins, le_bytes 2 (sf_code ins) ++ [sf_jt ins; sf_jf ins] ++ le_bytes 4 (sf_k ins)).
  intros tail IH.
  pose proof (le_value_bytes 2 (sf_code ins) Hc) as Ec. pose proof (le_value_bytes 4 (sf_k ins) Hk) as Ek.
  cbn [le_bytes] in Ec, Ek |- *. cbn [app read_program]. rewrite Ec, Ek, IH. by destruct ins.
Qed.
