(* ===== verification/Submission.v ===== *)
(** * The submission authority

    crates/agendao-server-core/src/submission_authority.rs and the types of
    crates/agendao-types/src/submission.rs: the queue of prompts a session has
    waiting, with its revision, and the two caches that make requests idempotent.  Each operation on
    a state is what the code does under the locks it holds; [mutation_section] and [submit_section]
    are the handlers cut into these sections, for SubmissionProps.v to interleave.  The standard library's
    hash, the derived debug text of a rejection, UUIDs and the clock are parameters. *)

From S2P Require Import Prelude.

(** ** Types *)

Module Reason.
Inductive SubmissionRejectionReason :=
| TurnConflict (active_turn_id : string)
| TargetTurnFinished (expected_turn_id : string)
| SessionNotFound (session_id : string)
| EmptyContent
| QueueFull (limit : Z)
| InvalidMode (detail : string)
| IdempotencyPayloadMismatch (client_request_id : string)
| QueueRevisionConflict (expected_revision current_revision : Z)
| DuplicateRequestInProgress (client_request_id : string)
| QueueItemNotFound (session_id item_id : string)
| QueuePositionOutOfRange (position queue_len : Z).
#[global] Instance reason_eq_dec : EqDecision SubmissionRejectionReason.
Proof. solve_decision. Defined.
End Reason.
Abbreviation SubmissionRejectionReason := Reason.SubmissionRejectionReason.

Module Disp.
Inductive SubmissionDisposition :=
| Started (turn_id session_id : string)
| Queued (item_id session_id : string) (position queue_revision : Z)
| SteeringPending (steering_id session_id target_turn_id : string) (pending_count : nat)
| Rejected (reason : SubmissionRejectionReason) (message : string).
End Disp.
Abbreviation SubmissionDisposition := Disp.SubmissionDisposition.

Module QDisp.
Inductive QueueMutationDisposition :=
| Applied (session_id item_id : string) (position queue_revision : Z)
| Rejected (reason : SubmissionRejectionReason) (message : string).
#[global] Instance mutation_disposition_eq_dec : EqDecision QueueMutationDisposition.
Proof. solve_decision. Defined.
End QDisp.
Abbreviation QueueMutationDisposition := QDisp.QueueMutationDisposition.

Record QueuedItem := {
  qi_id : string;
  qi_client_request_id : string;
  qi_session_id : string;
  qi_content : string;
  qi_payload_hash : Z;
  qi_created_at_ms : Z;
}.

Record QueuedInputSnapshot := {
  qs_item_id : string;
  qs_client_request_id : string;
  qs_content : string;
  qs_position : Z;
  qs_created_at_ms : Z;
}.

Record SteeringSnapshot := {
  ss_steering_id : string;
  ss_target_turn_id : string;
  ss_content : string;
  ss_deliver_at : string;
  ss_enqueued_at_ms : Z;
}.

Record ActiveTurnSnapshot := {
  at_turn_id : string;
  at_phase : string;
  at_started_at_ms : Z;
  at_active_tool_call_id : option string;
  at_blocker_id : option string;
  at_interrupt_requested : bool;
}.

Module Outcome.
Inductive TurnOutcome :=
| Completed (completed_at_ms : Z)
| Interrupted (interrupted_at_ms : Z) (reason : option string)
| Failed (failed_at_ms : Z) (error : string).
End Outcome.
Abbreviation TurnOutcome := Outcome.TurnOutcome.

Record SessionRuntimeSnapshot := {
  rs_session_id : string;
  rs_runtime_revision : Z;
  rs_queue_revision : Z;
  rs_last_event_sequence : Z;
  rs_active_turn : option ActiveTurnSnapshot;
  rs_queued_inputs : list QueuedInputSnapshot;
  rs_pending_steering : list SteeringSnapshot;
  rs_last_turn_outcome : option TurnOutcome;
}.

(** [(session_id, client_request_id)] *)
Definition RequestKey : Type := string * string.

Record SubmissionAuthority := {
  idempotency_cache : gmap RequestKey (Z * Z * SubmissionDisposition);
  queue_mutation_cache : gmap RequestKey (Z * QueueMutationDisposition);
  queued_prompts : gmap string (list QueuedItem);
  queue_revisions : gmap string Z;
  sequence_counter : Z;
}.

Definition authority_new : SubmissionAuthority := {|
  idempotency_cache := ∅; queue_mutation_cache := ∅; queued_prompts := ∅; queue_revisions := ∅;
  sequence_counter := 1 |}.

(** [n as u32] for a length or an index *)
Definition as_u32 (n : nat) : Z := (Z.of_nat n mod 2 ^ 32)%Z.

(** ** The counter of events *)

Definition next_sequence (a : SubmissionAuthority) : Z * SubmissionAuthority :=
  (sequence_counter a, {|
    idempotency_cache := idempotency_cache a; queue_mutation_cache := queue_mutation_cache a;
    queued_prompts := queued_prompts a; queue_revisions := queue_revisions a;
    sequence_counter := u64_add (sequence_counter a) 1 |}).

Definition current_sequence (a : SubmissionAuthority) : Z := sequence_counter a.

(** ** The queue *)

Definition get_queue_revision (a : SubmissionAuthority) (session_id : string) : Z :=
  default 0%Z (queue_revisions a !! session_id).

Definition queue_of (a : SubmissionAuthority) (session_id : string) : list QueuedItem :=
  default [] (queued_prompts a !! session_id).

(** The queue of a session changed: its revision goes up. *)
Definition set_queue (a : SubmissionAuthority) (session_id : string) (queue : list QueuedItem)
    : SubmissionAuthority := {|
  idempotency_cache := idempotency_cache a; queue_mutation_cache := queue_mutation_cache a;
  queued_prompts := <[session_id := queue]> (queued_prompts a);
  queue_revisions := <[session_id := u64_add (get_queue_revision a session_id) 1]> (queue_revisions a);
  sequence_counter := sequence_counter a |}.

Definition is_item (session_id item_id : string) (i : QueuedItem) : bool :=
  bool_decide (qi_id i = item_id) && bool_decide (qi_session_id i = session_id).

Section authority.
Context (hash_payload : string → Z) (debug_reason : SubmissionRejectionReason → string).

(** [enqueue_prompt]: the item's id, its position and the new revision. *)
Definition enqueue_prompt (a : SubmissionAuthority) (session_id client_request_id content uuid : string) (now : Z)
    : (string * Z * Z) * SubmissionAuthority :=
  let queue := queue_of a session_id in
  let item_id := "q_" +:+ uuid in
  let item := {| qi_id := item_id; qi_client_request_id := client_request_id; qi_session_id := session_id;
                 qi_content := content; qi_payload_hash := hash_payload content; qi_created_at_ms := now |} in
  let a' := set_queue a session_id (queue ++ [item]) in
  ((item_id, as_u32 (length queue), get_queue_revision a' session_id), a').

Definition pop_queued_prompt (a : SubmissionAuthority) (session_id : string)
    : option (QueuedItem * Z) * SubmissionAuthority :=
  match queued_prompts a !! session_id with
  | None | Some [] => (None, a)
  | Some (item :: rest) =>
      let a' := set_queue a session_id rest in
      (Some (item, get_queue_revision a' session_id), a')
  end.

(** The checks that the mutations share: the revision, the session's queue. *)
Definition expected_queue (a : SubmissionAuthority) (session_id item_id : string) (expected_revision : Z)
    : result SubmissionRejectionReason (list QueuedItem) :=
  let current_revision := get_queue_revision a session_id in
  reject? negb (bool_decide (expected_revision = current_revision))
    with Reason.QueueRevisionConflict expected_revision current_revision in
  ok_or (queued_prompts a !! session_id) (Reason.QueueItemNotFound session_id item_id).

Definition item_position (queue : list QueuedItem) (session_id item_id : string)
    : result SubmissionRejectionReason nat :=
  ok_or (position (is_item session_id item_id) queue) (Reason.QueueItemNotFound session_id item_id).

Definition MutationResult : Type := result SubmissionRejectionReason (Z * Z) * SubmissionAuthority.

(** [outcome] with the state [a] when it is an error. *)
Definition commit (a : SubmissionAuthority)
    (outcome : result SubmissionRejectionReason ((Z * Z) * SubmissionAuthority)) : MutationResult :=
  match outcome with Ok (r, a') => (Ok r, a') | Err e => (Err e, a) end.

Definition remove_queued_prompt (a : SubmissionAuthority) (session_id item_id : string) (expected_revision : Z)
    : MutationResult :=
  commit a (
    let? queue := expected_queue a session_id item_id expected_revision in
    let? position := item_position queue session_id item_id in
    let a' := set_queue a session_id (remove_at position queue) in
    Ok ((as_u32 position, get_queue_revision a' session_id), a')).

Definition with_content (i : QueuedItem) (content : string) : QueuedItem := {|
  qi_id := qi_id i; qi_client_request_id := qi_client_request_id i; qi_session_id := qi_session_id i;
  qi_content := content; qi_payload_hash := hash_payload content; qi_created_at_ms := qi_created_at_ms i |}.

Definition edit_queued_prompt (a : SubmissionAuthority) (session_id item_id : string) (expected_revision : Z)
    (content : string) : MutationResult :=
  commit a (
    reject? bool_decide (trim content = "") with Reason.EmptyContent in
    let? queue := expected_queue a session_id item_id expected_revision in
    let? position := item_position queue session_id item_id in
    let a' := set_queue a session_id (alter (λ i, with_content i content) position queue) in
    Ok ((as_u32 position, get_queue_revision a' session_id), a')).

Definition reorder_queued_prompt (a : SubmissionAuthority) (session_id item_id : string) (expected_revision : Z)
    (new_position : Z) : MutationResult :=
  commit a (
    let? queue := expected_queue a session_id item_id expected_revision in
    let queue_len := as_u32 (length queue) in
    reject? (queue_len <=? new_position)%Z with Reason.QueuePositionOutOfRange new_position queue_len in
    let? position := item_position queue session_id item_id in
    if bool_decide (Z.of_nat position = new_position) then Ok ((new_position, get_queue_revision a session_id), a)
    else
      let moved := match queue !! position with
                   | Some item => insert_at (Z.to_nat new_position) item (remove_at position queue)
                   | None => queue
                   end in
      let a' := set_queue a session_id moved in
      Ok ((new_position, get_queue_revision a' session_id), a')).

Definition list_queued_snapshots (a : SubmissionAuthority) (session_id : string) : list QueuedInputSnapshot :=
  imap (λ idx item, {| qs_item_id := qi_id item; qs_client_request_id := qi_client_request_id item;
                       qs_content := qi_content item; qs_position := as_u32 idx;
                       qs_created_at_ms := qi_created_at_ms item |}) (queue_of a session_id).

(** The revision and the queue are read under locks of their own: [later] is the state of the second. *)
Definition build_runtime_snapshot (a later : SubmissionAuthority) (session_id : string)
    (active_turn : option ActiveTurnSnapshot) (pending_steering : list SteeringSnapshot)
    (last_turn_outcome : option TurnOutcome) : SessionRuntimeSnapshot :=
  let queue_revision := get_queue_revision a session_id in {|
  rs_session_id := session_id; rs_runtime_revision := queue_revision; rs_queue_revision := queue_revision;
  rs_last_event_sequence := current_sequence later; rs_active_turn := active_turn;
  rs_queued_inputs := list_queued_snapshots later session_id; rs_pending_steering := pending_steering;
  rs_last_turn_outcome := last_turn_outcome |}.

(** ** Idempotent submissions *)

Definition check_idempotent (a : SubmissionAuthority) (session_id client_request_id : string) (payload_hash : Z)
    : result SubmissionRejectionReason (option SubmissionDisposition) :=
  match idempotency_cache a !! (session_id, client_request_id) with
  | Some (_, cached_hash, disp) =>
      if bool_decide (cached_hash = payload_hash) then Ok (Some disp)
      else Err (Reason.IdempotencyPayloadMismatch client_request_id)
  | None => Ok None
  end.

Definition record_disposition (a : SubmissionAuthority) (session_id client_request_id : string) (payload_hash : Z)
    (disposition : SubmissionDisposition) (now : Z) : SubmissionAuthority := {|
  idempotency_cache := <[(session_id, client_request_id) := (now, payload_hash, disposition)]> (idempotency_cache a);
  queue_mutation_cache := queue_mutation_cache a; queued_prompts := queued_prompts a;
  queue_revisions := queue_revisions a; sequence_counter := sequence_counter a |}.

(** ** Idempotent mutations of the queue *)

Inductive QueueMutation := Edit (content : string) | Delete | Move (new_position : Z).

(** [QueueMutationRequest], [QueueEditRequest] and [QueueReorderRequest] *)
Record MutationRequest := {
  mr_client_request_id : string;
  mr_session_id : string;
  mr_item_id : string;
  mr_expected_revision : Z;
  mr_mutation : QueueMutation;
}.

(** What is hashed to tell two requests of the same id apart. *)
Definition mutation_payload (r : MutationRequest) : string :=
  let revision := dec_string (Z.to_N (mr_expected_revision r)) in
  match mr_mutation r with
  | Edit content => "edit:" +:+ mr_item_id r +:+ ":" +:+ revision +:+ ":" +:+ content
  | Delete => "delete:" +:+ mr_item_id r +:+ ":" +:+ revision
  | Move new_position => "move:" +:+ mr_item_id r +:+ ":" +:+ revision +:+ ":" +:+ dec_string (Z.to_N new_position)
  end.

Definition mutation_hash (r : MutationRequest) : Z := hash_payload (mutation_payload r).
Definition mutation_key (r : MutationRequest) : RequestKey := (mr_session_id r, mr_client_request_id r).

Definition missing_request_id : QueueMutationDisposition :=
  QDisp.Rejected (Reason.IdempotencyPayloadMismatch "missing queue client_request_id")
    "queue mutation rejected: missing client_request_id".

(** The look into the cache: an answer that needs no mutation. *)
Definition mutation_cached (a : SubmissionAuthority) (r : MutationRequest) : option QueueMutationDisposition :=
  match queue_mutation_cache a !! mutation_key r with
  | Some (known_hash, disposition) =>
      Some (if bool_decide (known_hash = mutation_hash r) then disposition
            else QDisp.Rejected (Reason.IdempotencyPayloadMismatch (mr_client_request_id r))
                   "queue mutation rejected: idempotency payload mismatch")
  | None => None
  end.

Definition mutate (a : SubmissionAuthority) (r : MutationRequest) : MutationResult :=
  match mr_mutation r with
  | Edit content => edit_queued_prompt a (mr_session_id r) (mr_item_id r) (mr_expected_revision r) content
  | Delete => remove_queued_prompt a (mr_session_id r) (mr_item_id r) (mr_expected_revision r)
  | Move new_position =>
      reorder_queued_prompt a (mr_session_id r) (mr_item_id r) (mr_expected_revision r) new_position
  end.

Definition mutation_disposition (r : MutationRequest) (outcome : result SubmissionRejectionReason (Z * Z))
    : QueueMutationDisposition :=
  match outcome with
  | Ok (position, queue_revision) => QDisp.Applied (mr_session_id r) (mr_item_id r) position queue_revision
  | Err reason => QDisp.Rejected reason ("queue mutation rejected: " +:+ debug_reason reason)
  end.

Definition mutation_remember (a : SubmissionAuthority) (r : MutationRequest) (d : QueueMutationDisposition)
    : SubmissionAuthority := {|
  idempotency_cache := idempotency_cache a;
  queue_mutation_cache := <[mutation_key r := (mutation_hash r, d)]> (queue_mutation_cache a);
  queued_prompts := queued_prompts a; queue_revisions := queue_revisions a;
  sequence_counter := sequence_counter a |}.

(** The body that [edit_queued_prompt_idempotent], [remove_queued_prompt_idempotent] and
    [reorder_queued_prompt_idempotent] have in common. *)
Definition queue_mutation_idempotent (a : SubmissionAuthority) (r : MutationRequest)
    : QueueMutationDisposition * SubmissionAuthority :=
  if bool_decide (trim (mr_client_request_id r) = "") then (missing_request_id, a)
  else match mutation_cached a r with
  | Some d => (d, a)
  | None =>
      let '(outcome, a') := mutate a r in
      let d := mutation_disposition r outcome in
      (d, mutation_remember a' r d)
  end.

Definition mutation_request (client_request_id session_id item_id : string) (expected_revision : Z)
    (m : QueueMutation) : MutationRequest := {|
  mr_client_request_id := client_request_id; mr_session_id := session_id; mr_item_id := item_id;
  mr_expected_revision := expected_revision; mr_mutation := m |}.

Definition edit_queued_prompt_idempotent a session_id item_id expected_revision content client_request_id :=
  queue_mutation_idempotent a (mutation_request client_request_id session_id item_id expected_revision (Edit content)).
Definition remove_queued_prompt_idempotent a session_id item_id expected_revision client_request_id :=
  queue_mutation_idempotent a (mutation_request client_request_id session_id item_id expected_revision Delete).
Definition reorder_queued_prompt_idempotent a session_id item_id expected_revision new_position client_request_id :=
  queue_mutation_idempotent a
    (mutation_request client_request_id session_id item_id expected_revision (Move new_position)).

(** ** Handlers in parallel *)

(** A request in progress, between two of its critical sections.  A mutation holds the mutation lock from
    [Locked] to [Remembering]. *)
Inductive Task :=
| Submitting (session_id client_request_id content : string)
| Enqueuing (session_id client_request_id content : string)
| Recording (session_id client_request_id content : string) (disposition : SubmissionDisposition)
| Submitted (outcome : SubmissionDisposition)
| Mutating (r : MutationRequest)
| Locked (r : MutationRequest)
| Applying (r : MutationRequest)
| Remembering (r : MutationRequest) (d : QueueMutationDisposition)
| Mutated (r : MutationRequest) (d : QueueMutationDisposition)
| Popping (session_id : string)
| Popped (item : option (QueuedItem * Z)).

(** The queue mode of [submit_session_input], one lock at a time: the next step of a task. *)
Definition submit_section (a : SubmissionAuthority) (uuid : string) (now : Z) (t : Task)
    : option (Task * SubmissionAuthority) :=
  match t with
  | Submitting session_id client_request_id content =>
      match check_idempotent a session_id client_request_id (hash_payload content) with
      | Ok (Some disposition) => Some (Submitted disposition, a)
      | Err reason =>
          Some (Submitted (Disp.Rejected reason ("idempotency check rejected: " +:+ debug_reason reason)), a)
      | Ok None => Some (Enqueuing session_id client_request_id content, a)
      end
  | Enqueuing session_id client_request_id content =>
      let '((item_id, position, queue_revision), a') :=
        enqueue_prompt a session_id client_request_id content uuid now in
      Some (Recording session_id client_request_id content (Disp.Queued item_id session_id position queue_revision), a')
  | Recording session_id client_request_id content disposition =>
      Some (Submitted disposition,
            record_disposition a session_id client_request_id (hash_payload content) disposition now)
  | Popping session_id => let '(item, a') := pop_queued_prompt a session_id in Some (Popped item, a')
  | _ => None
  end.

(** A mutation, section by section. *)
Definition mutation_section (a : SubmissionAuthority) (t : Task) : option (Task * SubmissionAuthority) :=
  match t with
  | Mutating r => Some (Locked r, a)
  | Locked r =>
      if bool_decide (trim (mr_client_request_id r) = "") then Some (Mutated r missing_request_id, a)
      else Some (match mutation_cached a r with Some d => Mutated r d | None => Applying r end, a)
  | Applying r =>
      let '(outcome, a') := mutate a r in Some (Remembering r (mutation_disposition r outcome), a')
  | Remembering r d => Some (Mutated r d, mutation_remember a r d)
  | _ => None
  end.

Definition holds_lock (t : Task) : bool :=
  match t with Locked _ | Applying _ | Remembering _ _ => true | _ => false end.

Definition takes_lock (t : Task) : bool := match t with Mutating _ => true | _ => false end.

Definition finished (t : Task) : bool :=
  match t with Submitted _ | Mutated _ _ | Popped _ => true | _ => false end.

(** A task may take one step; [queue_mutation_lock] is taken when no task holds it. *)
Inductive handler_step : SubmissionAuthority * list Task → SubmissionAuthority * list Task → Prop :=
| step_submit a ts i t uuid now t' a' :
    ts !! i = Some t → submit_section a uuid now t = Some (t', a') → handler_step (a, ts) (a', <[i := t']> ts)
| step_mutation a ts i t t' a' :
    ts !! i = Some t → (takes_lock t = true → Forall (λ u, holds_lock u = false) ts) →
    mutation_section a t = Some (t', a') → handler_step (a, ts) (a', <[i := t']> ts).

(** The same with each mutation in one step. *)
Inductive atomic_step : SubmissionAuthority * list Task → SubmissionAuthority * list Task → Prop :=
| atomic_submit a ts i t uuid now t' a' :
    ts !! i = Some t → submit_section a uuid now t = Some (t', a') → atomic_step (a, ts) (a', <[i := t']> ts)
| atomic_mutation a ts i r d a' :
    ts !! i = Some (Mutating r) → queue_mutation_idempotent a r = (d, a') →
    atomic_step (a, ts) (a', <[i := Mutated r d]> ts).
End authority.
