(* ===== verification/SubmissionProps.v ===== *)
(** * Properties of the submission authority

    Mutations of a queue are atomic although they take several locks one after the other;
    the queue of a session is the replay of its changes, one revision each; a request
    changes the queue at most once; and every handler ends. *)

From S2P Require Import Prelude Submission.

Section props.
Context (hash_payload : string → Z) (debug_reason : SubmissionRejectionReason → string).

Abbreviation submit_section := (submit_section hash_payload debug_reason).
Abbreviation mutation_section := (mutation_section hash_payload debug_reason).
Abbreviation handler_step := (handler_step hash_payload debug_reason).
Abbreviation atomic_step := (atomic_step hash_payload debug_reason).
Abbreviation mutation_cached := (mutation_cached hash_payload).
Abbreviation mutation_remember := (mutation_remember hash_payload).
Abbreviation queue_mutation_idempotent := (queue_mutation_idempotent hash_payload debug_reason).

(** ** Mutations in one step *)

Definition unlocked (ts : list Task) : Prop := Forall (λ u, holds_lock u = false) ts.

(** A state of the handlers and the state in which the mutation that holds the lock has not begun, or is
    over from its change of the queue on. *)
Inductive atomic_view : SubmissionAuthority * list Task → SubmissionAuthority * list Task → Prop :=
| view_free a ts : unlocked ts → atomic_view (a, ts) (a, ts)
| view_locked a ts i r : unlocked (<[i := Mutating r]> ts) → ts !! i = Some (Locked r) →
    atomic_view (a, ts) (a, <[i := Mutating r]> ts)
| view_applying a ts i r : unlocked (<[i := Mutating r]> ts) → ts !! i = Some (Applying r) →
    trim (mr_client_request_id r) ≠ "" → mutation_cached a r = None →
    atomic_view (a, ts) (a, <[i := Mutating r]> ts)
| view_remembering a ts i r d : unlocked (<[i := Mutated r d]> ts) → ts !! i = Some (Remembering r d) →
    atomic_view (a, ts) (mutation_remember a r d, <[i := Mutated r d]> ts).

Lemma unlocked_insert i t ts : unlocked ts → holds_lock t = false → unlocked (<[i := t]> ts).
Proof. intros Hts Ht. by apply Forall_insert. Qed.

Lemma unlocked_lookup i t ts : unlocked ts → ts !! i = Some t → holds_lock t = false.
Proof. intros Hts Hi. by eapply (Forall_lookup_1 _ _ _ _ Hts Hi). Qed.

(** Submissions neither read nor change what mutations remember. *)
Lemma submit_remember a r d uuid now t : submit_section (mutation_remember a r d) uuid now t =
  (λ p, (p.1, mutation_remember p.2 r d)) <$> submit_section a uuid now t.
Proof.
  destruct t; simpl; try done.
  - unfold check_idempotent; simpl. by repeat case_match; simplify_eq/=.
  - unfold pop_queued_prompt; simpl. destruct (queued_prompts a !! session_id) as [[|]|]; done.
Qed.

Lemma submit_cached a uuid now t t' a' r :
  submit_section a uuid now t = Some (t', a') → mutation_cached a' r = mutation_cached a r.
Proof.
  destruct t; simpl; intros H; simplify_eq; try done.
  - unfold check_idempotent in H. by repeat case_match; simplify_eq/=.
  - unfold pop_queued_prompt in H. by repeat case_match; simplify_eq/=.
Qed.

Lemma submit_unlocked a uuid now t t' a' :
  submit_section a uuid now t = Some (t', a') → holds_lock t = false ∧ holds_lock t' = false.
Proof.
  destruct t; simpl; intros H; simplify_eq; try done.
  - by repeat case_match; simplify_eq/=.
  - by repeat case_match; simplify_eq/=.
Qed.

Lemma view_submit a ts b us i t uuid now t' a' : atomic_view (a, ts) (b, us) → ts !! i = Some t →
  submit_section a uuid now t = Some (t', a') →
  ∃ y, rtc atomic_step (b, us) y ∧ atomic_view (a', <[i := t']> ts) y.
Proof.
  intros Hv Hi Hs. destruct (submit_unlocked _ _ _ _ _ _ Hs) as [Ht Ht'].
  assert (Hne : ∀ j u, ts !! j = Some u → holds_lock u = true → i ≠ j).
  { intros j u Hj Hu ->. congruence. }
  inversion Hv as [? ? Hu|? ? j r Hu Hj|? ? j r Hu Hj Hid Hc|? ? j r d Hu Hj]; subst.
  - exists (a', <[i := t']> us). split; [eapply rtc_once, atomic_submit; done|].
    by apply view_free, unlocked_insert.
  - assert (i ≠ j) by by eapply Hne. exists (a', <[i := t']> (<[j := Mutating r]> ts)). split.
    + eapply rtc_once, atomic_submit; [|done]. by rewrite list_lookup_insert_ne.
    + rewrite list_insert_insert_ne by done. apply view_locked; [|by rewrite list_lookup_insert_ne].
      rewrite <- list_insert_insert_ne by done. by apply unlocked_insert.
  - assert (i ≠ j) by by eapply Hne. exists (a', <[i := t']> (<[j := Mutating r]> ts)). split.
    + eapply rtc_once, atomic_submit; [|done]. by rewrite list_lookup_insert_ne.
    + rewrite list_insert_insert_ne by done.
      apply view_applying; [|by rewrite list_lookup_insert_ne|done|by erewrite submit_cached].
      rewrite <- list_insert_insert_ne by done. by apply unlocked_insert.
  - assert (i ≠ j) by by eapply Hne.
    exists (mutation_remember a' r d, <[i := t']> (<[j := Mutated r d]> ts)). split.
    + eapply rtc_once, atomic_submit; [by rewrite list_lookup_insert_ne|]. by rewrite submit_remember, Hs.
    + rewrite list_insert_insert_ne by done. apply view_remembering; [|by rewrite list_lookup_insert_ne].
      rewrite <- list_insert_insert_ne by done. by apply unlocked_insert.
Qed.

Lemma insert_twice (i : nat) (t u w : Task) (ts : list Task) : ts !! i = Some t → <[i := u]> (<[i := w]> ts) = <[i := u]> ts.
Proof. by rewrite list_insert_insert_eq. Qed.

Lemma insert_lookup (i : nat) (t u : Task) (ts : list Task) : ts !! i = Some t → <[i := u]> ts !! i = Some u.
Proof. intros Hi. apply lookup_lt_Some in Hi. by apply list_lookup_insert_eq. Qed.

Lemma atomic_mutation_once a ts i t r d a' : ts !! i = Some t → queue_mutation_idempotent a r = (d, a') →
  rtc atomic_step (a, <[i := Mutating r]> ts) (a', <[i := Mutated r d]> ts).
Proof.
  intros Hi Hm. rewrite <- (insert_twice i t (Mutated r d) (Mutating r) ts Hi).
  eapply rtc_once, atomic_mutation; [by eapply insert_lookup|done].
Qed.

(** The task that holds the lock is the one the view is about. *)
Lemma holder_unique ts i j t u : unlocked (<[j := u]> ts) → ts !! i = Some t → holds_lock t = true → i = j.
Proof.
  intros Hu Hi Ht. destruct (decide (i = j)) as [|Hne]; [done|].
  assert (Hi' : <[j := u]> ts !! i = Some t) by by rewrite list_lookup_insert_ne.
  pose proof (unlocked_lookup _ _ _ Hu Hi'). congruence.
Qed.

Lemma view_mutation a ts b us i t t' a' : atomic_view (a, ts) (b, us) → ts !! i = Some t →
  (takes_lock t = true → unlocked ts) → mutation_section a t = Some (t', a') →
  ∃ y, rtc atomic_step (b, us) y ∧ atomic_view (a', <[i := t']> ts) y.
Proof.
  intros Hv Hi Hfree Hs. assert (Hh : takes_lock t = true ∨ holds_lock t = true) by (destruct t; simplify_eq/=; auto).
  destruct Hh as [Ht|Ht].
  - destruct t; try done. simplify_eq/=. specialize (Hfree eq_refl).
    inversion Hv as [|? ? j r' _ Hj|? ? j r' _ Hj|? ? j r' d' _ Hj]; subst;
      try (pose proof (unlocked_lookup _ _ _ Hfree Hj); done).
    exists (b, us). split; [done|]. rewrite <- (list_insert_id us i (Mutating r)) at 2 by done.
    rewrite <- (insert_twice i (Mutating r) (Mutating r) (Locked r) us Hi).
    apply view_locked; [|by eapply insert_lookup].
    rewrite (insert_twice i (Mutating r)) by done. by rewrite list_insert_id.
  - inversion Hv as [? ? Hu|? ? j r Hu Hj|? ? j r Hu Hj Hid Hc|? ? j r d Hu Hj]; subst.
    + pose proof (unlocked_lookup _ _ _ Hu Hi). congruence.
    + assert (i = j) as -> by by eapply holder_unique. simplify_eq/=. revert Hs. case_bool_decide as Hb; intros Hs.
      * simplify_eq. eexists (_, <[j := Mutated r missing_request_id]> ts). split.
        { eapply atomic_mutation_once; [done|]. unfold queue_mutation_idempotent. by rewrite bool_decide_eq_true_2. }
        apply view_free. rewrite <- (insert_twice j (Locked r) _ (Mutating r)) by done. by apply unlocked_insert.
      * destruct (mutation_cached b r) as [d|] eqn:Hc; simplify_eq.
        -- eexists (_, <[j := Mutated r d]> ts). split.
           { eapply atomic_mutation_once; [done|]. unfold queue_mutation_idempotent.
             by rewrite bool_decide_eq_false_2, Hc. }
           apply view_free. rewrite <- (insert_twice j (Locked r) _ (Mutating r)) by done. by apply unlocked_insert.
        -- eexists (_, <[j := Mutating r]> ts). split; [done|].
           rewrite <- (insert_twice j (Locked r) (Mutating r) (Applying r) ts Hi).
           apply view_applying; [by rewrite (insert_twice j (Locked r))|by eapply insert_lookup|done..].
    + assert (i = j) as -> by by eapply holder_unique. simplify_eq/=.
      destruct (mutate _ b r) as [outcome a1] eqn:Hm. simplify_eq.
      set (d := mutation_disposition debug_reason r outcome).
      exists (mutation_remember a' r d, <[j := Mutated r d]> ts). split.
      { eapply atomic_mutation_once; [done|]. unfold queue_mutation_idempotent.
        by rewrite bool_decide_eq_false_2, Hc, Hm. }
      rewrite <- (insert_twice j (Applying r) (Mutated r d) (Remembering r d) ts Hi).
      apply view_remembering; [|by eapply insert_lookup]. rewrite (insert_twice j (Applying r)) by done.
      rewrite <- (insert_twice j (Applying r) _ (Mutating r)) by done. by apply unlocked_insert.
    + assert (i = j) as -> by by eapply holder_unique. simplify_eq/=.
      exists (mutation_remember a r d, <[j := Mutated r d]> ts). split; [done|]. by apply view_free.
Qed.

Lemma view_step x x' y : atomic_view x y → handler_step x x' → ∃ y', rtc atomic_step y y' ∧ atomic_view x' y'.
Proof.
  intros Hv Hs. destruct y as [b us]. destruct Hs as [a ts i t uuid now t' a' Hi Ht|a ts i t t' a' Hi Hf Ht].
  - by eapply view_submit.
  - by eapply view_mutation.
Qed.

Lemma view_run a ts x' : unlocked ts → rtc handler_step (a, ts) x' →
  ∃ y', rtc atomic_step (a, ts) y' ∧ atomic_view x' y'.
Proof. intros Hu Hr. eapply rtc_simulation; [apply view_step|done|by apply view_free]. Qed.

(** ** The history of the queues *)

Inductive Change := Enqueue (item : QueuedItem) | Pop | Mutation (r : MutationRequest).

(** The queue after a mutation of an item it has. *)
Definition changed (r : MutationRequest) (q : list QueuedItem) : list QueuedItem :=
  match position (is_item (mr_session_id r) (mr_item_id r)) q with
  | None => q
  | Some p =>
      match mr_mutation r with
      | Edit content => alter (λ i, with_content hash_payload i content) p q
      | Delete => remove_at p q
      | Move n => match q !! p with Some item => insert_at (Z.to_nat n) item (remove_at p q) | None => q end
      end
  end.

Definition replay_change (q : list QueuedItem) (c : Change) : list QueuedItem :=
  match c with Enqueue item => q ++ [item] | Pop => tail q | Mutation r => changed r q end.

(** Changes with the sessions whose queues they change, oldest first. *)
Abbreviation History := (list (string * Change)).

Definition changes_of (h : History) (session_id : string) : list Change :=
  snd <$> filter (λ e, e.1 = session_id) h.

Definition replay (h : History) (session_id : string) : list QueuedItem :=
  fold_left replay_change (changes_of h session_id) [].

Definition mutation_keys (h : History) : list RequestKey :=
  omap (λ e, match e.2 with Mutation r => Some (mutation_key r) | _ => None end) h.

(** What the first request of an id did, and was answered. *)
Definition decided (h : History) (r : MutationRequest) (d : QueueMutationDisposition) : Prop :=
  (mr_session_id r, Mutation r) ∈ h ∧
    (∃ position revision, d = QDisp.Applied (mr_session_id r) (mr_item_id r) position revision) ∨
  mutation_key r ∉ mutation_keys h.

Definition mismatch (r : MutationRequest) : QueueMutationDisposition :=
  QDisp.Rejected (Reason.IdempotencyPayloadMismatch (mr_client_request_id r))
    "queue mutation rejected: idempotency payload mismatch".

(** The answer to [r] when [first] was the first request of its id, answered [d]. *)
Definition repeated (first : MutationRequest) (d : QueueMutationDisposition) (r : MutationRequest)
    : QueueMutationDisposition :=
  if bool_decide (mutation_hash hash_payload first = mutation_hash hash_payload r) then d else mismatch r.

Record recorded (h : History) (a : SubmissionAuthority) : Prop := {
  re_queue : ∀ sid, queue_of a sid = replay h sid;
  re_revision : ∀ sid, get_queue_revision a sid = (Z.of_nat (length (changes_of h sid)) mod 2 ^ 64)%Z;
  re_once : NoDup (mutation_keys h);
  re_cached : ∀ k, k ∈ mutation_keys h → is_Some (queue_mutation_cache a !! k);
  re_cache : ∀ k hash d, queue_mutation_cache a !! k = Some (hash, d) →
    ∃ r, mutation_key r = k ∧ hash = mutation_hash hash_payload r ∧ decided h r d;
}.

Lemma changes_of_snoc h sid c sid' : changes_of (h ++ [(sid, c)]) sid' =
  if bool_decide (sid = sid') then changes_of h sid' ++ [c] else changes_of h sid'.
Proof.
  unfold changes_of. rewrite filter_app, filter_cons, filter_nil. simpl.
  case_bool_decide as E; destruct (decide _); simplify_eq/=; [by rewrite fmap_app|by rewrite app_nil_r].
Qed.

Lemma replay_snoc h sid c sid' : replay (h ++ [(sid, c)]) sid' =
  if bool_decide (sid = sid') then replay_change (replay h sid') c else replay h sid'.
Proof.
  unfold replay. rewrite changes_of_snoc. case_bool_decide; [|done]. by rewrite fold_left_app.
Qed.

Lemma mutation_keys_app h h' : mutation_keys (h ++ h') = mutation_keys h ++ mutation_keys h'.
Proof. apply omap_app. Qed.

Lemma queue_of_set_queue a sid q sid' :
  queue_of (set_queue a sid q) sid' = if bool_decide (sid = sid') then q else queue_of a sid'.
Proof.
  unfold queue_of, set_queue; simpl. case_bool_decide as E; [by subst; rewrite lookup_insert_eq|].
  by rewrite lookup_insert_ne.
Qed.

Lemma revision_set_queue a sid q sid' : get_queue_revision (set_queue a sid q) sid' =
  if bool_decide (sid = sid') then u64_add (get_queue_revision a sid) 1 else get_queue_revision a sid'.
Proof.
  unfold get_queue_revision, set_queue; simpl. case_bool_decide as E; [by subst; rewrite lookup_insert_eq|].
  by rewrite lookup_insert_ne.
Qed.

Lemma u64_add_of_nat n : u64_add (Z.of_nat n mod 2 ^ 64) 1 = (Z.of_nat (S n) mod 2 ^ 64)%Z.
Proof. unfold u64_add. rewrite Nat2Z.inj_succ, <- Z.add_1_r. by rewrite Zplus_mod_idemp_l. Qed.

(** A change of the queue of [sid], that no request of a mutation makes. *)
Lemma recorded_change h a sid c : recorded h a → mutation_keys [(sid, c)] = [] →
  recorded (h ++ [(sid, c)]) (set_queue a sid (replay_change (queue_of a sid) c)).
Proof.
  intros [Hq Hr Ho Hc Hd] Hk. split.
  - intros sid'. rewrite queue_of_set_queue, replay_snoc. case_bool_decide; [subst; by rewrite Hq|by apply Hq].
  - intros sid'. rewrite revision_set_queue, changes_of_snoc. case_bool_decide; [|by apply Hr]. subst.
    rewrite Hr, length_app, u64_add_of_nat. do 2 f_equal. simpl. lia.
  - by rewrite mutation_keys_app, Hk, app_nil_r.
  - intros k. rewrite mutation_keys_app, Hk, app_nil_r. apply Hc.
  - intros k hash d Hkd. destruct (Hd k hash d Hkd) as (r & Hkr & Hh & [[Hin Hp]|Hn]); exists r;
      (split; [done|split; [done|]]).
    + left. split; [apply elem_of_app; by left|done].
    + right. by rewrite mutation_keys_app, Hk, app_nil_r.
Qed.

(** The first request of an id that changes the queue. *)
Lemma recorded_mutation h a r d : recorded h a → queue_mutation_cache a !! mutation_key r = None →
  (∃ position revision, d = QDisp.Applied (mr_session_id r) (mr_item_id r) position revision) →
  recorded (h ++ [(mr_session_id r, Mutation r)])
    (mutation_remember (set_queue a (mr_session_id r) (changed r (queue_of a (mr_session_id r)))) r d).
Proof.
  intros [Hq Hr Ho Hc Hd] Hnone Hp. set (sid := mr_session_id r).
  assert (Hnew : mutation_key r ∉ mutation_keys h) by (intros Hin; apply Hc in Hin as [? ?]; congruence).
  split.
  - intros sid'. change (queue_of (mutation_remember ?b r d) sid') with (queue_of b sid').
    rewrite queue_of_set_queue, replay_snoc. case_bool_decide; [subst; by rewrite Hq|by apply Hq].
  - intros sid'. change (get_queue_revision (mutation_remember ?b r d) sid') with (get_queue_revision b sid').
    rewrite revision_set_queue, changes_of_snoc. case_bool_decide; [|by apply Hr]. subst sid'.
    rewrite Hr, length_app, u64_add_of_nat. do 2 f_equal. simpl. lia.
  - rewrite mutation_keys_app. simpl. apply NoDup_app. split; [done|]. split; [|by apply NoDup_singleton].
    intros k Hk ->%list_elem_of_singleton. done.
  - intros k. rewrite mutation_keys_app. simpl. rewrite elem_of_app, list_elem_of_singleton.
    destruct (decide (k = mutation_key r)) as [->|Hne]; [rewrite lookup_insert_eq; by eexists|].
    rewrite lookup_insert_ne by done. intros [Hk|]; [by apply Hc|done].
  - intros k hash d0. simpl. destruct (decide (k = mutation_key r)) as [->|Hne].
    + rewrite lookup_insert_eq. intros [= <- <-]. exists r. split; [done|]. split; [done|]. left.
      split; [|done]. apply elem_of_app. right. apply list_elem_of_here.
    + rewrite lookup_insert_ne by done. intros Hkd. destruct (Hd k hash d0 Hkd) as (r0 & Hkr & Hh & [[Hin Hp0]|Hn]);
        exists r0; (split; [done|split; [done|]]).
      * left. split; [apply elem_of_app; by left|done].
      * right. rewrite mutation_keys_app. simpl. subst k. rewrite elem_of_app, list_elem_of_singleton. by intros [?|?].
Qed.

(** The first request of an id that changes nothing. *)
Lemma recorded_answer h a r d : recorded h a → queue_mutation_cache a !! mutation_key r = None →
  recorded h (mutation_remember a r d).
Proof.
  intros [Hq Hr Ho Hc Hd] Hnone.
  assert (Hnew : mutation_key r ∉ mutation_keys h) by (intros Hin; apply Hc in Hin as [? ?]; congruence).
  split; [done|done|done|..].
  - intros k Hk. simpl. rewrite lookup_insert_ne by (by intros <-). by apply Hc.
  - intros k hash d0. simpl. destruct (decide (k = mutation_key r)) as [->|Hne].
    + rewrite lookup_insert_eq. intros [= <- <-]. exists r. split; [done|]. split; [done|]. by right.
    + rewrite lookup_insert_ne by done. apply Hd.
Qed.

Lemma expected_queue_Ok a sid item rev q : expected_queue a sid item rev = Ok q →
  rev = get_queue_revision a sid ∧ queue_of a sid = q.
Proof.
  unfold expected_queue, queue_of. case_bool_decide; simpl; [|done].
  by destruct (queued_prompts a !! sid); simpl; intros; simplify_eq.
Qed.

Lemma item_position_Ok q sid item p : item_position q sid item = Ok p → position (is_item sid item) q = Some p.
Proof. unfold item_position. by destruct (position _ _); simpl; intros; simplify_eq. Qed.

(** A mutation changes the queue as it says, or nothing. *)
Lemma mutate_effect a r outcome a' : mutate hash_payload a r = (outcome, a') →
  a' = a ∨
  a' = set_queue a (mr_session_id r) (changed r (queue_of a (mr_session_id r))) ∧ ∃ p, outcome = Ok p.
Proof.
  unfold mutate, edit_queued_prompt, remove_queued_prompt, reorder_queued_prompt.
  destruct (mr_mutation r) as [content| |n] eqn:Hm.
  - destruct (bool_decide _); simpl; [intros [= <- <-]; by left|].
    destruct (expected_queue _ _ _ _) as [q|e] eqn:Hq; simpl; [|intros [= <- <-]; by left].
    destruct (item_position _ _ _) as [p|e] eqn:Hp; simpl; [|intros [= <- <-]; by left].
    intros [= <- <-]. right. split; [|by eexists]. apply expected_queue_Ok in Hq as [_ ->].
    apply item_position_Ok in Hp. unfold changed. by rewrite Hp, Hm.
  - destruct (expected_queue _ _ _ _) as [q|e] eqn:Hq; simpl; [|intros [= <- <-]; by left].
    destruct (item_position _ _ _) as [p|e] eqn:Hp; simpl; [|intros [= <- <-]; by left].
    intros [= <- <-]. right. split; [|by eexists]. apply expected_queue_Ok in Hq as [_ ->].
    apply item_position_Ok in Hp. unfold changed. by rewrite Hp, Hm.
  - destruct (expected_queue _ _ _ _) as [q|e] eqn:Hq; simpl; [|intros [= <- <-]; by left].
    destruct (as_u32 _ <=? n)%Z; simpl; [intros [= <- <-]; by left|].
    destruct (item_position _ _ _) as [p|e] eqn:Hp; simpl; [|intros [= <- <-]; by left].
    case_bool_decide; simpl; [intros [= <- <-]; by left|].
    intros [= <- <-]. right. split; [|by eexists]. apply expected_queue_Ok in Hq as [_ ->].
    apply item_position_Ok in Hp. unfold changed. by rewrite Hp, Hm.
Qed.

(** The answers that were given agree with the cache. *)
Definition answered (a : SubmissionAuthority) (t : Task) : Prop :=
  match t with
  | Mutated r d =>
      trim (mr_client_request_id r) = "" ∧ d = missing_request_id ∨
      trim (mr_client_request_id r) ≠ "" ∧ ∃ hash d0, queue_mutation_cache a !! mutation_key r = Some (hash, d0) ∧
        d = if bool_decide (hash = mutation_hash hash_payload r) then d0 else mismatch r
  | _ => True
  end.

(** Nothing of the cache is lost. *)
Definition remembers (a a' : SubmissionAuthority) : Prop :=
  ∀ k x, queue_mutation_cache a !! k = Some x → queue_mutation_cache a' !! k = Some x.

Lemma answered_remembers a a' t : remembers a a' → answered a t → answered a' t.
Proof. intros Hr. destruct t; simpl; try done. intros [?|(? & hash & d0 & ? & ?)]; eauto 10. Qed.

Lemma submit_recorded h a uuid now t t' a' : recorded h a → submit_section a uuid now t = Some (t', a') →
  (∃ h', recorded (h ++ h') a') ∧ remembers a a' ∧ answered a' t'.
Proof.
  intros Hrec Hs.
  assert (Hsame : ∀ b, recorded h b → ∃ h', recorded (h ++ h') b) by (intros b Hb; exists []; by rewrite app_nil_r).
  destruct t; simpl in Hs; try done.
  - destruct (check_idempotent _ _ _ _) as [[|]|]; simplify_eq; (split_and!; [by apply Hsame|by intros k x|done]).
  - simplify_eq. split_and!; [|by intros k x|done].
    exists [(session_id, Enqueue {| qi_id := "q_" +:+ uuid; qi_client_request_id := client_request_id;
      qi_session_id := session_id; qi_content := content; qi_payload_hash := hash_payload content;
      qi_created_at_ms := now |})]. by apply recorded_change.
  - simplify_eq. split_and!; [|by intros k x|done]. apply Hsame. destruct Hrec. by split.
  - unfold pop_queued_prompt in Hs. destruct (queued_prompts a !! session_id) as [[|item rest]|] eqn:E;
      simplify_eq; try (split_and!; [by apply Hsame|by intros k x|done]). split_and!; [|by intros k x|done]. exists [(session_id, Pop)].
    assert (rest = tail (queue_of a session_id)) as -> by (unfold queue_of; by rewrite E).
    by apply recorded_change.
Qed.

Lemma mutation_recorded h a r d a' : recorded h a → queue_mutation_idempotent a r = (d, a') →
  (∃ h', recorded (h ++ h') a') ∧ remembers a a' ∧ answered a' (Mutated r d).
Proof.
  intros Hrec Hm. unfold queue_mutation_idempotent in Hm. case_bool_decide as Hb.
  { simplify_eq. split_and!; [exists []; by rewrite app_nil_r|by intros k x|by left]. }
  unfold mutation_cached in Hm. destruct (queue_mutation_cache a !! mutation_key r) as [[hash d0]|] eqn:Hk.
  { simplify_eq. split_and!; [exists []; by rewrite app_nil_r|by intros k x|]. right. split; [done|]. by exists hash, d0. }
  destruct (mutate _ a r) as [outcome a1] eqn:E. simplify_eq.
  assert (Hans : ∀ b, answered (mutation_remember b r (mutation_disposition debug_reason r outcome))
    (Mutated r (mutation_disposition debug_reason r outcome))).
  { intros b. right. split; [done|]. eexists _, _. simpl. rewrite lookup_insert_eq. split; [done|]. by rewrite bool_decide_eq_true_2. }
  assert (Hrem : ∀ b, queue_mutation_cache b = queue_mutation_cache a →
    remembers a (mutation_remember b r (mutation_disposition debug_reason r outcome))).
  { intros b Hb' k x Hx. simpl. rewrite Hb', lookup_insert_ne; [done|]. intros <-. congruence. }
  destruct (mutate_effect _ _ _ _ E) as [->|[-> [p ->]]].
  - split; [exists []; rewrite app_nil_r; by apply recorded_answer|]. by split; [apply Hrem|apply Hans].
  - split; [|by split; [apply Hrem|apply Hans]]. exists [(mr_session_id r, Mutation r)].
    apply recorded_mutation; [done..|]. destruct p as [p rev]. by exists p, rev.
Qed.

Definition told (x : SubmissionAuthority * list Task) : Prop :=
  (∃ h, recorded h x.1) ∧ Forall (answered x.1) x.2.

Lemma told_step x y : told x → atomic_step x y → told y.
Proof.
  intros [[h Hh] Ht] Hs. destruct Hs as [a ts i t uuid now t' a' Hi E|a ts i r d a' Hi E]; simpl in *.
  - destruct (submit_recorded _ _ _ _ _ _ _ Hh E) as ([h' Hh'] & Hrem & Ha). split; [eauto|].
    apply Forall_insert; [|done]. eapply Forall_impl; [done|]. intros u. by apply answered_remembers.
  - destruct (mutation_recorded _ _ _ _ _ Hh E) as ([h' Hh'] & Hrem & Ha). split; [eauto|].
    apply Forall_insert; [|done]. eapply Forall_impl; [done|]. intros u. by apply answered_remembers.
Qed.

Lemma run_told x y : told x → rtc atomic_step x y → told y.
Proof. intros Hx Hr. by eapply (rtc_invariant atomic_step told); [apply told_step|done|]. Qed.

Lemma run_extends h x y : recorded h x.1 → rtc atomic_step x y → ∃ h', recorded (h ++ h') y.1.
Proof.
  intros Hx Hr. revert h Hx. induction Hr as [x|x y z Hs _ IH]; intros h Hx; [exists []; by rewrite app_nil_r|].
  assert (∃ h', recorded (h ++ h') y.1) as [h1 Hh1].
  { destruct Hs as [a ts i t uuid now t' a' Hi E|a ts i r d a' Hi E].
    - by destruct (submit_recorded _ _ _ _ _ _ _ Hx E) as [? _].
    - by destruct (mutation_recorded _ _ _ _ _ Hx E) as [? _]. }
  destruct (IH _ Hh1) as [h2 Hh2]. exists (h1 ++ h2). by rewrite app_assoc.
Qed.

(** What a view shows of the queues and of the tasks that ended. *)
Lemma view_shows x y : atomic_view x y →
  queued_prompts x.1 = queued_prompts y.1 ∧ queue_revisions x.1 = queue_revisions y.1 ∧
  (∀ i t, x.2 !! i = Some t → finished t = true → y.2 !! i = Some t) ∧ (unlocked x.2 → y = x).
Proof.
  intros Hv. destruct Hv as [a ts Hu|a ts i r Hu Hi|a ts i r Hu Hi _ _|a ts i r d Hu Hi]; simpl; [done|..];
    (split_and!; [done|done| |intros Hf; pose proof (unlocked_lookup _ _ _ Hf Hi); done]);
    intros j t Hj Ht; (rewrite list_lookup_insert_ne; [done|]); intros ->; by simplify_eq.
Qed.

Lemma view_queue x y sid : atomic_view x y →
  queue_of x.1 sid = queue_of y.1 sid ∧ get_queue_revision x.1 sid = get_queue_revision y.1 sid.
Proof.
  intros (Hq & Hr & _)%view_shows. unfold queue_of, get_queue_revision. by rewrite Hq, Hr.
Qed.

Definition fresh (t : Task) : bool :=
  match t with Submitting _ _ _ | Mutating _ | Popping _ => true | _ => false end.

Lemma fresh_unlocked ts : Forall (λ t, fresh t = true) ts → unlocked ts.
Proof. intros H. eapply Forall_impl; [exact H|]. intros t. by destruct t. Qed.

Lemma fresh_told ts : Forall (λ t, fresh t = true) ts → told (authority_new, ts).
Proof.
  intros H. split.
  - exists []. split; [done|done|constructor|by intros k Hk%not_elem_of_nil|done].
  - eapply Forall_impl; [exact H|]. intros t. by destruct t.
Qed.

(** C17. Mutations of the queue are atomic. However the handlers interleave (a mutation takes the mutation lock, looks into the cache,
    changes the queue and remembers its answer under locks it takes one after the other, and submissions go on
    between), there is a run in which every mutation is one step, with the same queues and
    revisions, in which all requests that are answered have the same answers; and the very same state
    when no mutation is under way. *)
Theorem queue_mutations_are_atomic a ts a' ts' : unlocked ts → rtc handler_step (a, ts) (a', ts') →
  ∃ b us, rtc atomic_step (a, ts) (b, us) ∧
    queued_prompts a' = queued_prompts b ∧ queue_revisions a' = queue_revisions b ∧
    (∀ i t, ts' !! i = Some t → finished t = true → us !! i = Some t) ∧
    (unlocked ts' → (b, us) = (a', ts')).
Proof.
  intros Hu Hr. destruct (view_run _ _ _ Hu Hr) as ([b us] & Hr' & Hv). exists b, us.
  by destruct (view_shows _ _ Hv) as (? & ? & ? & ?).
Qed.

(** C18. A queue mutation (edit, move, removal) with a given id changes the queue of its session at
    most once. After any interleaving of the handlers of submissions and mutations, every queue is
    the replay of a history of submissions, pops and mutations in which no mutation id of a session occurs
    twice; its revision is the number of its changes, modulo 2^64; and two mutations with the same id
    and the same payload are answered alike. Nothing of the kind holds of submissions: the ids of
    the submitted prompts may repeat in the history, since two submissions with one client request
    id that arrive together are both queued (a recorded defect). *)
Theorem requests_change_queues_once ts a' ts' :
  Forall (λ t, fresh t = true) ts → rtc handler_step (authority_new, ts) (a', ts') →
  ∃ h, (∀ sid, queue_of a' sid = replay h sid) ∧
    (∀ sid, get_queue_revision a' sid = (Z.of_nat (length (changes_of h sid)) mod 2 ^ 64)%Z) ∧
    NoDup (mutation_keys h) ∧
    ∀ r1 d1 r2 d2, Mutated r1 d1 ∈ ts' → Mutated r2 d2 ∈ ts' → mutation_key r1 = mutation_key r2 →
      mutation_hash hash_payload r1 = mutation_hash hash_payload r2 → d1 = d2.
Proof.
  intros Hf Hr. destruct (view_run _ _ _ (fresh_unlocked _ Hf) Hr) as ([b us] & Hr' & Hv).
  destruct (run_told _ _ (fresh_told _ Hf) Hr') as [[h Hh] Ha]. exists h.
  pose proof (λ sid, view_queue _ _ sid Hv) as Hq. simpl in *. destruct Hh as [H1 H2 H3 _ _].
  split; [intros sid; destruct (Hq sid) as [-> _]; apply H1|].
  split; [intros sid; destruct (Hq sid) as [_ ->]; apply H2|]. split; [done|].
  assert (Hin : ∀ r d, Mutated r d ∈ ts' → answered b (Mutated r d)).
  { intros r d [i Hi]%list_elem_of_lookup. destruct (view_shows _ _ Hv) as (_ & _ & Hs & _).
    by apply (Forall_lookup_1 _ _ _ _ Ha (Hs _ _ Hi eq_refl)). }
  intros r1 d1 r2 d2 Hr1%Hin Hr2%Hin Hk Hh. simpl in *.
  assert (Hid : mr_client_request_id r1 = mr_client_request_id r2) by by injection Hk.
  destruct Hr1 as [[Hb1 ->]|(Hb1 & h1 & e1 & Hc1 & ->)], Hr2 as [[Hb2 ->]|(Hb2 & h2 & e2 & Hc2 & ->)];
    [done|congruence|congruence|].
  rewrite Hk, Hc2 in Hc1. simplify_eq. unfold mismatch. by rewrite Hh, Hid.
Qed.

(** The revision of a queue counts its changes: whatever runs between two moments, the later queue is the
    earlier one after some changes, and the revision went up by their number modulo 2^64.  So a client that still
    sees its revision (unless 2^64 changes passed) sees the queue it knew. *)
Lemma revision_counts_changes ts x y sid : Forall (λ t, fresh t = true) ts →
  rtc handler_step (authority_new, ts) x → rtc handler_step x y →
  ∃ cs, queue_of y.1 sid = fold_left replay_change cs (queue_of x.1 sid) ∧
    get_queue_revision y.1 sid = ((get_queue_revision x.1 sid + Z.of_nat (length cs)) mod 2 ^ 64)%Z.
Proof.
  intros Hf Hx Hy. destruct (view_run _ _ _ (fresh_unlocked _ Hf) Hx) as (x' & Hx' & Hvx).
  destruct (rtc_simulation _ _ _ _ _ _ view_step Hy Hvx) as (y' & Hy' & Hvy).
  destruct (run_told _ _ (fresh_told _ Hf) Hx') as [[h Hh] _]. destruct (run_extends _ _ _ Hh Hy') as [h' Hh'].
  destruct (view_queue _ _ sid Hvx) as [-> ->]. destruct (view_queue _ _ sid Hvy) as [-> ->].
  assert (Hc : changes_of (h ++ h') sid = changes_of h sid ++ changes_of h' sid).
  { unfold changes_of. by rewrite filter_app, fmap_app. }
  exists (changes_of h' sid). rewrite (re_queue _ _ Hh), (re_queue _ _ Hh'), (re_revision _ _ Hh), (re_revision _ _ Hh').
  unfold replay. rewrite Hc, fold_left_app, length_app, Nat2Z.inj_add. split; [done|].
  by rewrite Zplus_mod_idemp_l.
Qed.

(** ** Every handler ends *)

(** The sections a task has before it. *)
Definition sections_left (t : Task) : nat :=
  match t with
  | Submitting _ _ _ => 3 | Enqueuing _ _ _ => 2 | Recording _ _ _ _ => 1
  | Mutating _ => 4 | Locked _ => 3 | Applying _ => 2 | Remembering _ _ => 1
  | Popping _ => 1 | Submitted _ | Mutated _ _ | Popped _ => 0
  end.

Definition work (x : SubmissionAuthority * list Task) : nat := sum_list (sections_left <$> x.2).

Lemma work_insert a a' ts i t t' : ts !! i = Some t → sections_left t' < sections_left t →
  work (a', <[i := t']> ts) < work (a, ts).
Proof.
  intros Hi Hlt. unfold work. simpl. rewrite <- (take_drop_middle ts i t Hi) at 2.
  rewrite insert_take_drop by (by eapply lookup_lt_Some). rewrite !fmap_app, !fmap_cons, !sum_list_with_app.
  change (sum_list (?n :: ?l)) with (n + sum_list l). lia.
Qed.

Lemma step_work x y : handler_step x y → work y < work x.
Proof.
  intros [a ts i t uuid now t' a' Hi Hs|a ts i t t' a' Hi _ Hs]; (eapply work_insert; [done|]);
    destruct t; simpl in Hs; try done; repeat case_match; simplify_eq/=; lia.
Qed.

Lemma step_exists a ts t : t ∈ ts → finished t = false → (takes_lock t = true → unlocked ts) →
  ∃ y, handler_step (a, ts) y.
Proof.
  intros [i Hi]%list_elem_of_lookup Hf Hl.
  destruct (submit_section a "" 0%Z t) as [[t' a']|] eqn:Hs; [eexists; by eapply step_submit|].
  destruct (mutation_section a t) as [[t' a']|] eqn:Hm; [eexists; by eapply step_mutation|].
  destruct t; simpl in *; try done; by repeat case_match; simplify_eq.
Qed.

(** Every handler ends, under every schedule: a step takes one of finitely many sections, and some
    task can go on (in particular nobody waits for the mutation lock forever) until all have answered. *)
Lemma handlers_always_finish x :
  (∀ y, handler_step x y → work y < work x) ∧
  (Forall (λ t, finished t = true) x.2 ∨ ∃ y, handler_step x y) ∧
  ∃ y, rtc handler_step x y ∧ Forall (λ t, finished t = true) y.2.
Proof.
  assert (Hprog : ∀ x, Forall (λ t, finished t = true) x.2 ∨ ∃ y, handler_step x y).
  { clear x. intros [a ts]. simpl. destruct (decide (Exists (λ t, holds_lock t = true) ts)) as [He|Hne].
    - apply Exists_exists in He as (t & Ht & Hl). right. apply (step_exists a ts t Ht); by destruct t.
    - destruct (decide (Forall (λ t, finished t = true) ts)) as [|Hnf]; [by left|right].
      apply not_Forall_Exists in Hnf; [|intros ?; apply _]. apply Exists_exists in Hnf as (t & Ht & Hl).
      apply (step_exists a ts t Ht); [by apply not_true_iff_false|]. intros _. apply Forall_forall.
      intros u Hu. apply not_true_iff_false. intros Hh. apply Hne, Exists_exists. eauto. }
  split; [intros y; apply step_work|]. split; [apply Hprog|].
  assert (Hn : ∃ n, work x < n) by (exists (S (work x)); lia). destruct Hn as [n Hn].
  revert x Hn. induction n as [|n IH]; intros x Hn; [lia|].
  destruct (Hprog x) as [Hf|[y Hy]]; [by exists x|]. pose proof (step_work _ _ Hy).
  destruct (IH y) as (z & Hz & Hf); [lia|]. exists z. split; [by eapply rtc_l|done].
Qed.

(** ** What a mutation does *)

(** Why a mutation is refused: nothing has changed. *)
Definition refused (a : SubmissionAuthority) (r : MutationRequest) (e : SubmissionRejectionReason) : Prop :=
  let sid := mr_session_id r in
  match e with
  | Reason.EmptyContent => ∃ content, mr_mutation r = Edit content ∧ trim content = ""
  | Reason.QueueRevisionConflict expected current =>
      expected = mr_expected_revision r ∧ current = get_queue_revision a sid ∧ expected ≠ current
  | Reason.QueuePositionOutOfRange position queue_len =>
      mr_mutation r = Move position ∧ mr_expected_revision r = get_queue_revision a sid ∧
      queue_len = as_u32 (length (queue_of a sid)) ∧ (queue_len ≤ position)%Z
  | Reason.QueueItemNotFound session_id item_id =>
      session_id = sid ∧ item_id = mr_item_id r ∧ mr_expected_revision r = get_queue_revision a sid ∧
      Forall (λ i, is_item sid (mr_item_id r) i = false) (queue_of a sid)
  | _ => False
  end.

(** What a mutation of the item between [before] and [after] leaves. *)
Definition applied (a a' : SubmissionAuthority) (r : MutationRequest) (before after : list QueuedItem)
    (i : QueuedItem) (position : Z) : Prop :=
  let sid := mr_session_id r in
  let moves_on := get_queue_revision a' sid = u64_add (get_queue_revision a sid) 1 in
  match mr_mutation r with
  | Edit content => trim content ≠ "" ∧ position = as_u32 (length before) ∧ moves_on ∧
      queue_of a' sid = before ++ with_content hash_payload i content :: after
  | Delete => position = as_u32 (length before) ∧ moves_on ∧ queue_of a' sid = before ++ after
  | Move n => position = n ∧ ∃ front back, before ++ after = front ++ back ∧ Z.of_nat (length front) = n ∧
      queue_of a' sid = front ++ i :: back ∧
      (if bool_decide (Z.of_nat (length before) = n) then a' = a else moves_on)
  end.

Lemma expected_queue_Err a sid item rev e : expected_queue a sid item rev = Err e →
  e = Reason.QueueRevisionConflict rev (get_queue_revision a sid) ∧ rev ≠ get_queue_revision a sid ∨
  e = Reason.QueueItemNotFound sid item ∧ rev = get_queue_revision a sid ∧ queue_of a sid = [].
Proof.
  unfold expected_queue, queue_of. case_bool_decide; simpl; [|intros [= <-]; by left].
  destruct (queued_prompts a !! sid); simpl; intros; simplify_eq. by right.
Qed.

Lemma item_position_Err q sid item e : item_position q sid item = Err e →
  e = Reason.QueueItemNotFound sid item ∧ Forall (λ i, is_item sid item i = false) q.
Proof.
  unfold item_position. destruct (position _ _) eqn:E; simpl; [done|]. intros [= <-]. split; [done|].
  apply Forall_forall. intros i Hi. destruct (is_item sid item i) eqn:Hx; [|done].
  apply list_elem_of_split in Hi as (l1 & l2 & ->). exfalso. revert E. clear -Hx.
  induction l1 as [|y l1 IH]; simpl; [by rewrite Hx|]. destruct (is_item sid item y); [done|].
  destruct (position _ _); [done|]. by intros _; apply IH.
Qed.

Lemma others_set_queue a sid q other : other ≠ sid →
  queue_of (set_queue a sid q) other = queue_of a other ∧
  get_queue_revision (set_queue a sid q) other = get_queue_revision a other.
Proof. intros Hne. by rewrite queue_of_set_queue, revision_set_queue, bool_decide_eq_false_2. Qed.

Lemma revision_of_set_queue a sid q : get_queue_revision (set_queue a sid q) sid = u64_add (get_queue_revision a sid) 1.
Proof. by rewrite revision_set_queue, bool_decide_eq_true_2. Qed.

Lemma queue_of_own a sid q : queue_of (set_queue a sid q) sid = q.
Proof. by rewrite queue_of_set_queue, bool_decide_eq_true_2. Qed.

Definition mutation_exact (a : SubmissionAuthority) (r : MutationRequest) (res : MutationResult) : Prop :=
  let sid := mr_session_id r in
  match res with
  | (Err e, a') => a' = a ∧ refused a r e
  | (Ok (position, revision), a') =>
      mr_expected_revision r = get_queue_revision a sid ∧ revision = get_queue_revision a' sid ∧
      (∀ other, other ≠ sid → queue_of a' other = queue_of a other ∧ get_queue_revision a' other = get_queue_revision a other) ∧
      ∃ before i after, queue_of a sid = before ++ i :: after ∧
        qi_id i = mr_item_id r ∧ qi_session_id i = sid ∧
        Forall (λ j, is_item sid (mr_item_id r) j = false) before ∧ applied a a' r before after i position
  end.

(** The checks all mutations share. *)
Lemma exact_expected a r (k : list QueuedItem → result SubmissionRejectionReason ((Z * Z) * SubmissionAuthority)) :
  (mr_expected_revision r = get_queue_revision a (mr_session_id r) →
     mutation_exact a r (commit a (k (queue_of a (mr_session_id r))))) →
  mutation_exact a r (commit a (let? q := expected_queue a (mr_session_id r) (mr_item_id r) (mr_expected_revision r) in k q)).
Proof.
  intros Hk. destruct (expected_queue _ _ _ _) as [q|e] eqn:Hq; cbn [rbind].
  - apply expected_queue_Ok in Hq as [He Hq]. rewrite Hq in Hk. by apply Hk.
  - by apply expected_queue_Err in Hq as [[-> ?]|(-> & ? & Hq)]; (split; [done|]); simpl; rewrite ?Hq.
Qed.

Lemma exact_item a r (k : nat → result SubmissionRejectionReason ((Z * Z) * SubmissionAuthority)) :
  mr_expected_revision r = get_queue_revision a (mr_session_id r) →
  (∀ before i after, queue_of a (mr_session_id r) = before ++ i :: after →
     is_item (mr_session_id r) (mr_item_id r) i = true →
     Forall (λ j, is_item (mr_session_id r) (mr_item_id r) j = false) before →
     mutation_exact a r (commit a (k (length before)))) →
  mutation_exact a r (commit a (let? p := item_position (queue_of a (mr_session_id r)) (mr_session_id r) (mr_item_id r) in k p)).
Proof.
  intros He Hk. destruct (item_position _ _ _) as [p|e] eqn:Hp; cbn [rbind].
  - apply item_position_Ok, position_Some in Hp as (b & i & f & Hq & <- & Hi & Hb). by apply (Hk b i f).
  - by apply item_position_Err in Hp as [-> Hn].
Qed.

Lemma is_item_true sid item i : is_item sid item i = true → qi_id i = item ∧ qi_session_id i = sid.
Proof. unfold is_item. intros [?%bool_decide_eq_true ?%bool_decide_eq_true]%andb_true_iff. done. Qed.

Lemma remove_middle {A} (l : list A) x k : remove_at (length l) (l ++ x :: k) = l ++ k.
Proof.
  unfold remove_at. rewrite take_app_length. f_equal.
  by rewrite (cons_middle x l k), app_assoc, <- (last_length l x), drop_app_length.
Qed.

(** An item that was found, and the queue that is put in its place. *)
Lemma exact_applied a r before i after q position :
  mr_expected_revision r = get_queue_revision a (mr_session_id r) →
  queue_of a (mr_session_id r) = before ++ i :: after → is_item (mr_session_id r) (mr_item_id r) i = true →
  Forall (λ j, is_item (mr_session_id r) (mr_item_id r) j = false) before →
  applied a (set_queue a (mr_session_id r) q) r before after i position →
  mutation_exact a r (Ok (position, get_queue_revision (set_queue a (mr_session_id r) q) (mr_session_id r)),
             set_queue a (mr_session_id r) q).
Proof.
  intros He Hq Hi Hb Ha. split; [done|]. split; [done|]. split; [intros other; apply others_set_queue|].
  exists before, i, after. by destruct (is_item_true _ _ _ Hi).
Qed.

(** C19. Each mutation does what it is for, or nothing.  It is applied only at the revision the client expects; it
    changes the first item with the given id and no other queue, and the revision goes up by one: an edit replaces the content,
    a removal takes the item out, a move puts it at the given position among the others (at its own position,
    nothing changes).  Otherwise the state is as it was and the error says what is wrong: blank content, another revision, a
    position past the end, or no such item. *)
Theorem queue_mutations_exact a r : (∀ n, mr_mutation r = Move n → 0 ≤ n)%Z → mutation_exact a r (mutate hash_payload a r).
Proof.
  intros Hn. unfold mutate. destruct (mr_mutation r) as [content| |n] eqn:Hm.
  - unfold edit_queued_prompt. case_bool_decide as Hc; [split; [done|]; by exists content|].
    apply exact_expected. intros He. apply (exact_item _ _ _ He). intros b i f Hq Hi Hb.
    apply (exact_applied a r b i f); [done..|]. unfold applied. rewrite Hm.
    split_and!; [done|done|apply revision_of_set_queue|]. rewrite queue_of_own, Hq.
    by rewrite <- (Nat.add_0_r (length b)), alter_app_r.
  - unfold remove_queued_prompt. apply exact_expected. intros He. apply (exact_item _ _ _ He). intros b i f Hq Hi Hb.
    apply (exact_applied a r b i f); [done..|]. unfold applied. rewrite Hm.
    split_and!; [done|apply revision_of_set_queue|]. by rewrite queue_of_own, Hq, remove_middle.
  - unfold reorder_queued_prompt. apply exact_expected. intros He. cbv zeta.
    destruct (as_u32 _ <=? n)%Z eqn:Hle; [apply Z.leb_le in Hle; split; [done|]; by split_and!|].
    apply Z.leb_gt in Hle. apply (exact_item _ _ _ He). intros b i f Hq Hi Hb. case_bool_decide as Hp.
    + split; [done|]. split; [done|]. split; [done|]. exists b, i, f. destruct (is_item_true _ _ _ Hi).
      split_and!; [done..|]. unfold applied. rewrite Hm. split; [done|]. exists b, f. by rewrite bool_decide_eq_true_2.
    + apply (exact_applied a r b i f); [done..|]. unfold applied. rewrite Hm. split; [done|].
      specialize (Hn n eq_refl). exists (take (Z.to_nat n) (b ++ f)), (drop (Z.to_nat n) (b ++ f)).
      rewrite bool_decide_eq_false_2 by done. rewrite take_drop, revision_of_set_queue, queue_of_own, Hq.
      split; [done|]. rewrite list_lookup_middle by done. rewrite remove_middle. split; [|done].
      assert (as_u32 (length (b ++ i :: f)) ≤ Z.of_nat (length (b ++ i :: f)))%Z by (apply Z.mod_le; lia).
      rewrite Hq in Hle. rewrite !length_app in *. simpl in *. rewrite length_take, length_app. lia.
Qed.
End props.

(** ** Schedules *)

Section schedules.
Context (hash_payload : string → Z) (debug_reason : SubmissionRejectionReason → string).

(** The next section of task [i], with the UUID it may draw. *)
Definition step_task (x : SubmissionAuthority * list Task) (i : nat) (uuid : string)
    : option (SubmissionAuthority * list Task) :=
  t ← x.2 !! i;
  match submit_section hash_payload debug_reason x.1 uuid 0 t with
  | Some (t', a') => Some (a', <[i := t']> x.2)
  | None =>
      if takes_lock t && existsb holds_lock x.2 then None
      else (λ p, (p.2, <[i := p.1]> x.2)) <$> mutation_section hash_payload debug_reason x.1 t
  end.

Fixpoint run_schedule (x : SubmissionAuthority * list Task) (schedule : list (nat * string))
    : option (SubmissionAuthority * list Task) :=
  match schedule with
  | [] => Some x
  | (i, uuid) :: schedule => y ← step_task x i uuid; run_schedule y schedule
  end.

Lemma step_task_sound x i uuid y : step_task x i uuid = Some y → handler_step hash_payload debug_reason x y.
Proof.
  destruct x as [a ts]. unfold step_task. simpl. destruct (ts !! i) as [t|] eqn:Hi; [|done]. simpl.
  destruct (submit_section _ _ _ _ _ _) as [[t' a']|] eqn:Hs; [intros [= <-]; by eapply step_submit|].
  destruct (takes_lock t && existsb holds_lock ts) eqn:Hl; [done|].
  destruct (mutation_section _ _ _ _) as [[t' a']|] eqn:Hm; [|done]. intros [= <-].
  eapply step_mutation; [done| |done]. intros Ht. rewrite Ht in Hl. simpl in Hl.
  apply Forall_forall. intros u Hu. apply not_true_iff_false. intros Hh.
  apply not_true_iff_false in Hl. apply Hl, existsb_exists. exists u. by rewrite <- list_elem_of_In.
Qed.

Lemma run_schedule_sound x schedule y : run_schedule x schedule = Some y →
  rtc (handler_step hash_payload debug_reason) x y.
Proof.
  revert x. induction schedule as [|[i uuid] schedule IH]; intros x; simpl; [by intros [= ->]|].
  destruct (step_task x i uuid) as [x'|] eqn:E; [|done]. simpl. intros Hr.
  eapply rtc_l; [by eapply step_task_sound|by apply IH].
Qed.
End schedules.

Definition length_hash (s : string) : Z := Z.of_nat (String.length s).
Definition no_debug (e : SubmissionRejectionReason) : string := "".

Definition demo_edit : MutationRequest := mutation_request "e1" "s" "q_u" 1 (Edit "two").

(** A submission, and then the same edit twice, the second while the first is under way. *)
Definition demo_tasks : list Task := [Submitting "s" "r1" "one"; Mutating demo_edit; Mutating demo_edit].
Definition demo_schedule : list (nat * string) :=
  [(0, ""); (0, "u"); (1, ""); (0, ""); (1, ""); (1, ""); (1, ""); (2, ""); (2, "")].

Definition demo_end : SubmissionAuthority * list Task :=
  default (authority_new, []) (run_schedule length_hash no_debug (authority_new, demo_tasks) demo_schedule).

Lemma demo_run : rtc (handler_step length_hash no_debug) (authority_new, demo_tasks) demo_end.
Proof. apply (run_schedule_sound _ _ _ demo_schedule). vm_compute. reflexivity. Qed.

Lemma demo_fresh : Forall (λ t, fresh t = true) demo_tasks.
Proof. repeat constructor. Qed.

Example demo_end_tasks : demo_end.2 =
  [Submitted (Disp.Queued "q_u" "s" 0 1); Mutated demo_edit (QDisp.Applied "s" "q_u" 0 2);
   Mutated demo_edit (QDisp.Applied "s" "q_u" 0 2)].
Proof. vm_compute. reflexivity. Qed.

Lemma queue_mutations_are_atomic_witness :
  demo_end.2 !! 2 = Some (Mutated demo_edit (QDisp.Applied "s" "q_u" 0 2)) ∧
  ∃ b us, rtc (atomic_step length_hash no_debug) (authority_new, demo_tasks) (b, us) ∧
    queued_prompts demo_end.1 = queued_prompts b ∧ queue_revisions demo_end.1 = queue_revisions b ∧
    (∀ i t, demo_end.2 !! i = Some t → finished t = true → us !! i = Some t) ∧
    (unlocked demo_end.2 → (b, us) = (demo_end.1, demo_end.2)).
Proof.
  split; [vm_compute; reflexivity|].
  apply (queue_mutations_are_atomic length_hash no_debug authority_new demo_tasks demo_end.1 demo_end.2);
    [apply fresh_unlocked, demo_fresh|rewrite <- surjective_pairing; exact demo_run].
Defined.

Lemma requests_change_queues_once_witness :
  qi_content <$> queue_of demo_end.1 "s" = ["two"] ∧
  ∃ h, (∀ sid, queue_of demo_end.1 sid = replay length_hash h sid) ∧
    (∀ sid, get_queue_revision demo_end.1 sid = (Z.of_nat (length (changes_of h sid)) mod 2 ^ 64)%Z) ∧
    NoDup (mutation_keys h) ∧
    ∀ r1 d1 r2 d2, Mutated r1 d1 ∈ demo_end.2 → Mutated r2 d2 ∈ demo_end.2 → mutation_key r1 = mutation_key r2 →
      mutation_hash length_hash r1 = mutation_hash length_hash r2 → d1 = d2.
Proof.
  split; [vm_compute; reflexivity|].
  apply (requests_change_queues_once length_hash no_debug demo_tasks demo_end.1 demo_end.2);
    [exact demo_fresh|rewrite <- surjective_pairing; exact demo_run].
Defined.

Lemma queue_mutations_exact_witness :
  let r := mutation_request "m1" "s" "q_u" 2 (Move 0) in
  (mutate length_hash demo_end.1 r).1 = Ok (0, 2)%Z ∧ mutation_exact length_hash demo_end.1 r (mutate length_hash demo_end.1 r).
Proof.
  split; [vm_compute; reflexivity|]. apply (queue_mutations_exact length_hash). intros n [= <-]. lia.
Defined.

(** ** Limits *)

(** The check, the enqueue and the record of a submission are not one step: two commands with the same request id
    that arrive together are both queued. *)
Example concurrent_submissions_queue_twice :
  let tasks := [Submitting "s" "r1" "one"; Submitting "s" "r1" "one"] in
  let schedule := [(0, ""); (1, ""); (0, "u"); (1, "v"); (0, ""); (1, "")] in
  (λ x, (qi_client_request_id <$> queue_of x.1 "s", x.2)) <$>
    run_schedule length_hash no_debug (authority_new, tasks) schedule =
  Some (["r1"; "r1"], [Submitted (Disp.Queued "q_u" "s" 0 1); Submitted (Disp.Queued "q_v" "s" 1 2)]).
Proof. vm_compute. reflexivity. Qed.

(** What is called the highest sequence is the next one to be given. *)
Lemma current_sequence_is_next a : current_sequence a = (next_sequence a).1.
Proof. done. Qed.
