(* ===== verification/SubmissionRoutes.v ===== *)
(** * The routes of the submission authority

    The handlers of crates/agendao-server/src/routes/session/steering.rs that submit input and
    change the queue, over the sessions that exist, the prompts that run, the submission authority and the
    steering store.  A handler runs alone here; SubmissionProps.v interleaves its sections.
    Telemetry and broadcasts are left out. *)

From S2P Require Import Prelude LedgerAuthority Submission SubmissionProps.

Module Mode.
Inductive SubmissionMode := Auto | StartTurn | Queue | Steer (expected_turn_id : string).
End Mode.
Abbreviation SubmissionMode := Mode.SubmissionMode.

Record SubmitInputCommand := {
  ic_client_request_id : string;
  ic_session_id : string;
  ic_mode : SubmissionMode;
  ic_content : string;
}.

(** What the handlers share. *)
Record Server := {
  sv_sessions : gset string;
  sv_running : gset string;
  sv_authority : SubmissionAuthority;
  sv_steering : SteeringStore;
}.

Definition with_authority (s : Server) (a : SubmissionAuthority) : Server := {|
  sv_sessions := sv_sessions s; sv_running := sv_running s; sv_authority := a; sv_steering := sv_steering s |}.

Definition with_steering_store (s : Server) (q : SteeringStore) : Server := {|
  sv_sessions := sv_sessions s; sv_running := sv_running s; sv_authority := sv_authority s; sv_steering := q |}.

Section routes.
Context (hash_payload : string → Z) (debug_reason : SubmissionRejectionReason → string).

(** [submit_session_input]; the UUID is that of a turn or of a queued item. *)
Definition submit_session_input (s : Server) (session_id : string) (cmd : SubmitInputCommand) (uuid : string) (now : Z)
    : SubmissionDisposition * Server :=
  if negb (bool_decide (session_id ∈ sv_sessions s)) then
    (Disp.Rejected (Reason.SessionNotFound session_id) ("Session '" +:+ session_id +:+ "' not found"), s)
  else if bool_decide (trim (ic_content cmd) = "") then
    (Disp.Rejected Reason.EmptyContent "Content cannot be empty", s)
  else
    let is_busy := bool_decide (session_id ∈ sv_running s) in
    let started := Disp.Started ("turn_" +:+ uuid) session_id in
    match ic_mode cmd with
    | Mode.Auto =>
        (if is_busy then Disp.Queued ("queue_" +:+ ic_client_request_id cmd) session_id 0 1 else started, s)
    | Mode.StartTurn =>
        (if is_busy then Disp.Rejected (Reason.TurnConflict "active_turn") "Session is currently busy with an active turn"
         else started, s)
    | Mode.Queue =>
        if negb (bool_decide (ic_session_id cmd = session_id)) then
          (Disp.Rejected (Reason.SessionNotFound (ic_session_id cmd)) "Command session_id does not match route session", s)
        else
          let payload_hash := hash_payload (ic_content cmd) in
          let request := ic_client_request_id cmd in
          match check_idempotent (sv_authority s) session_id request payload_hash with
          | Ok (Some disposition) => (disposition, s)
          | Err reason =>
              (Disp.Rejected reason ("idempotency check rejected: " +:+ debug_reason reason), s)
          | Ok None =>
              let '((item_id, position, queue_revision), a) :=
                enqueue_prompt hash_payload (sv_authority s) session_id request (ic_content cmd) uuid now in
              let disposition := Disp.Queued item_id session_id position queue_revision in
              (disposition, with_authority s (record_disposition a session_id request payload_hash disposition now))
          end
    | Mode.Steer expected_turn_id =>
        let id := "steer_" +:+ ic_client_request_id cmd in
        let q := steering_enqueue (sv_steering s) session_id {|
          steer_id := id; owner_session_id := session_id; steer_text := trim (ic_content cmd);
          steer_created_at := now; source_session_id := None; deliver_at := "next_tool_boundary" |} in
        (Disp.SteeringPending id session_id expected_turn_id (steering_pending_count q session_id),
         with_steering_store s q)
    end.

(** ** Changes of the queue *)

Definition queue_mutation_rejection (reason : SubmissionRejectionReason) : QueueMutationDisposition :=
  QDisp.Rejected reason ("queue mutation rejected: " +:+ debug_reason reason).

Definition validate_queue_session (path_session_id body_session_id : string) : option QueueMutationDisposition :=
  if bool_decide (path_session_id = body_session_id) then None
  else Some (queue_mutation_rejection (Reason.SessionNotFound body_session_id)).

Definition missing_queue_session_rejection (s : Server) (session_id : string) : option QueueMutationDisposition :=
  if bool_decide (session_id ∈ sv_sessions s) then None
  else Some (queue_mutation_rejection (Reason.SessionNotFound session_id)).

(** [delete_queued_input], [edit_queued_input] and [reorder_queued_input]: the session and the item of the
    path against the request of the body. *)
Definition mutate_queued_input (s : Server) (session_id item_id : string) (req : MutationRequest)
    : QueueMutationDisposition * Server :=
  match validate_queue_session session_id (mr_session_id req) with
  | Some rejected => (rejected, s)
  | None =>
      match missing_queue_session_rejection s session_id with
      | Some rejected => (rejected, s)
      | None =>
          if negb (bool_decide (mr_item_id req = item_id)) then
            (queue_mutation_rejection (Reason.QueueItemNotFound session_id item_id), s)
          else
            let '(d, a) := queue_mutation_idempotent hash_payload debug_reason (sv_authority s) req in
            (d, with_authority s a)
      end
  end.

(** ** What a submission does *)

(** A command of the queue mode that is accepted. *)
Definition queueable (s : Server) (session_id : string) (cmd : SubmitInputCommand) : Prop :=
  session_id ∈ sv_sessions s ∧ trim (ic_content cmd) ≠ "" ∧ ic_mode cmd = Mode.Queue ∧ ic_session_id cmd = session_id.

(** A submission to the queue is kept once. The first command of a request id appends its content to the queue of the
    session and to no other, and is told where; the same command again is told the same and changes
    nothing; another content under the same id is refused and changes nothing. *)
Lemma queued_submission_is_kept_once s session_id cmd uuid now :
  queueable s session_id cmd → idempotency_cache (sv_authority s) !! (session_id, ic_client_request_id cmd) = None →
  let '(d, s') := submit_session_input s session_id cmd uuid now in
  let queue := queue_of (sv_authority s) session_id in
  (∃ item, qi_content item = ic_content cmd ∧ qi_client_request_id item = ic_client_request_id cmd ∧
     qi_session_id item = session_id ∧
     (∀ sid, queue_of (sv_authority s') sid = if bool_decide (session_id = sid) then queue ++ [item]
                                              else queue_of (sv_authority s) sid) ∧
     d = Disp.Queued (qi_id item) session_id (as_u32 (length queue))
           (u64_add (get_queue_revision (sv_authority s) session_id) 1)) ∧
  (∀ uuid' now', submit_session_input s' session_id cmd uuid' now' = (d, s')) ∧
  (∀ cmd' uuid' now', queueable s' session_id cmd' → ic_client_request_id cmd' = ic_client_request_id cmd →
     hash_payload (ic_content cmd') ≠ hash_payload (ic_content cmd) →
     ∃ message, submit_session_input s' session_id cmd' uuid' now' =
       (Disp.Rejected (Reason.IdempotencyPayloadMismatch (ic_client_request_id cmd)) message, s')).
Proof.
  intros (Hs & Hc & Hm & Hid) Hnone. unfold submit_session_input at 1.
  rewrite bool_decide_eq_true_2 by done. cbn [negb]. rewrite bool_decide_eq_false_2 by done. rewrite Hm.
  rewrite (bool_decide_eq_true_2 (ic_session_id cmd = session_id)) by done. cbn [negb].
  unfold check_idempotent at 1. rewrite Hnone. unfold enqueue_prompt. cbv zeta iota.
  set (item := {| qi_id := _ |}). set (a := set_queue _ _ _). split; [|split].
  - exists item. split; [done|]. split; [done|]. split; [done|]. split.
    + intros sid. simpl. unfold record_disposition, queue_of at 1. simpl. apply (queue_of_set_queue _ _ _ sid).
    + unfold a. by rewrite revision_of_set_queue.
  - intros uuid' now'. unfold submit_session_input. simpl sv_sessions.
    rewrite bool_decide_eq_true_2 by done. cbn [negb]. rewrite bool_decide_eq_false_2 by done. rewrite Hm.
    rewrite (bool_decide_eq_true_2 (ic_session_id cmd = session_id)) by done. cbn [negb].
    unfold check_idempotent. simpl. rewrite lookup_insert_eq. by rewrite bool_decide_eq_true_2.
  - intros cmd' uuid' now' (Hs' & Hc' & Hm' & Hid') Hreq Hh. unfold submit_session_input.
    rewrite bool_decide_eq_true_2 by done. cbn [negb]. rewrite bool_decide_eq_false_2 by done. rewrite Hm'.
    rewrite (bool_decide_eq_true_2 (ic_session_id cmd' = session_id)) by done. cbn [negb].
    unfold check_idempotent. simpl. rewrite Hreq, lookup_insert_eq.
    rewrite bool_decide_eq_false_2 by done. by eexists.
Qed.

(** In the other modes that start or queue, an accepted input is told to be started or queued, and kept nowhere. *)
Lemma accepted_input_is_dropped s session_id cmd uuid now :
  session_id ∈ sv_sessions s → trim (ic_content cmd) ≠ "" → ic_mode cmd = Mode.Auto →
  submit_session_input s session_id cmd uuid now =
    ((if bool_decide (session_id ∈ sv_running s)
      then Disp.Queued ("queue_" +:+ ic_client_request_id cmd) session_id 0 1
      else Disp.Started ("turn_" +:+ uuid) session_id), s).
Proof.
  intros Hs Hc Hm. unfold submit_session_input. rewrite bool_decide_eq_true_2 by done. cbn [negb].
  rewrite bool_decide_eq_false_2 by done. by rewrite Hm.
Qed.
End routes.

(** ** Examples *)

Definition demo_server : Server := {|
  sv_sessions := {["s"]}; sv_running := ∅; sv_authority := authority_new; sv_steering := ∅ |}.

Definition demo_command : SubmitInputCommand := {|
  ic_client_request_id := "r1"; ic_session_id := "s"; ic_mode := Mode.Queue; ic_content := "do it" |}.
