(* ===== verification/ConfigSchema.v ===== *)
(** * The configuration and how its layers merge

    [agendao-config/src/schema/]: the types of a configuration ([mod.rs],
    [plugin.rs], [runtime_budget.rs]) and [merge.rs], which lays one
    configuration over another.  A field of a record carries a prefix for its
    struct ([srv_port] is [ServerConfig::port]).  Unsigned integers are natural
    numbers, floats IEEE numbers; merging only moves them.  A [HashMap] is a finite
    map: the loops over one touch each key once, so their order does not
    matter. *)

From Stdlib Require Import SpecFloat.
From S2P Require Import Prelude Json.
From stdpp Require Import options.

Abbreviation f32 := spec_float.
Abbreviation f64 := spec_float.

(** ** The helpers of [merge.rs] *)

(** [trait DeepMerge]; [deep_merge self other] is what [self] holds after
    [self.deep_merge(other)]. *)
Class DeepMerge (T : Type) := deep_merge : T → T → T.

Definition merge_option_replace {T} (target source : option T) : option T :=
  match source with Some value => Some value | None => target end.

Definition merge_vec_replace_if_non_empty {T} (target source : list T) : list T :=
  match source with [] => target | _ => source end.

Definition merge_option_deep {T} `{DeepMerge T} (target source : option T) : option T :=
  match source with
  | Some source_value =>
      match target with
      | Some target_value => Some (deep_merge target_value source_value)
      | None => Some source_value
      end
  | None => target
  end.

(** One step of the loops below: the source's value of a key is merged into the
    target's, or inserted. *)
Definition merge_entry {T} (merge : T → T → T) (key : string) (source_value : T)
    (target : gmap string T) : gmap string T :=
  match target !! key with
  | Some target_value => <[key := merge target_value source_value]> target
  | None => <[key := source_value]> target
  end.

Definition merge_map_deep_values {T} `{DeepMerge T} (target source : gmap string T) : gmap string T :=
  map_fold (merge_entry deep_merge) target source.

Definition merge_map_overwrite_values {T} (target source : gmap string T) : gmap string T :=
  map_fold (fun key value target => <[key := value]> target) target source.

Definition merge_option_map_deep_values {T} `{DeepMerge T}
    (target source : option (gmap string T)) : option (gmap string T) :=
  match source with
  | Some source_map =>
      match target with
      | Some target_map => Some (merge_map_deep_values target_map source_map)
      | None => Some source_map
      end
  | None => target
  end.

Definition merge_option_map_overwrite_values {T}
    (target source : option (gmap string T)) : option (gmap string T) :=
  match source with
  | Some source_map =>
      match target with
      | Some target_map => Some (merge_map_overwrite_values target_map source_map)
      | None => Some source_map
      end
  | None => target
  end.

Fixpoint merge_json_value (target source : Value) {struct source} : Value :=
  match target, source with
  | Object target_map, Object source_map =>
      Object (map_fold (fun key source_value target_map =>
        match target_map !! key with
        | Some target_value => <[key := merge_json_value target_value source_value]> target_map
        | None => <[key := source_value]> target_map
        end) target_map source_map)
  | _, _ => source
  end.

Definition merge_option_json_map (target source : option (gmap string Value)) : option (gmap string Value) :=
  match source with
  | Some source_map =>
      match target with
      | Some target_map => Some (map_fold (merge_entry merge_json_value) target_map source_map)
      | None => Some source_map
      end
  | None => target
  end.

Definition append_unique_keep_order (target source : list string) : list string :=
  foldl (fun target item => if bool_decide (item ∈ target) then target else target ++ [item])
    target source.

(** [Option::is_some] *)
Definition has_value {T} (o : option T) : bool := match o with Some _ => true | None => false end.

(** ** The runtime budget *)

(** [RuntimeBudgetConfig] *)
Record RuntimeBudgetConfig := {
  rb_scheduler_max_model_calls : N; rb_scheduler_max_tool_calls : N;
  rb_scheduler_max_total_tokens : N; rb_scheduler_max_wall_time_ms : N;
  rb_scheduler_max_parallelism : N; rb_scheduler_max_graph_nodes : N;
  rb_scheduler_max_graph_depth : N; rb_scheduler_max_loop_iterations : N;
  rb_scheduler_max_agent_steps : N; rb_scheduler_workspace_max_files : N;
  rb_scheduler_workspace_max_total_bytes : N; rb_scheduler_workspace_min_free_disk_bytes : N;
  rb_scheduler_workspace_operation_timeout_ms : N; rb_tool_result_max_chars : N;
  rb_tool_result_preview_chars : N; rb_tool_batch_aggregate_max_chars : N;
  rb_max_tool_result_transcript_chars : N; rb_max_attachment_bytes : N;
  rb_max_mcp_resource_chars : N; rb_stream_connection_queue_size : N;
  rb_max_ui_bridge_queue : N; rb_max_events_per_frame : N;
  rb_frontend_max_prompt_history_entries : N; rb_frontend_max_stash_entries : N;
  rb_frontend_max_frecency_entries : N; rb_frontend_max_transcript_lines : N;
  rb_frontend_semantic_highlight_max_chars : N; rb_frontend_max_tool_result_display_chars : N;
  rb_tui_max_viewport_messages : N; rb_tui_message_output_cache_entries : N;
  rb_tui_max_render_ops_per_frame : N; rb_web_max_pending_output_blocks : N;
  rb_web_side_panel_cache_entries : N; rb_pty_buffer_limit : N
}.

(** [RuntimeBudgetConfig::default] *)
Definition default_RuntimeBudgetConfig : RuntimeBudgetConfig := {|
  rb_scheduler_max_model_calls := 32%N; rb_scheduler_max_tool_calls := 96%N;
  rb_scheduler_max_total_tokens := 1048576%N; rb_scheduler_max_wall_time_ms := 1800000%N;
  rb_scheduler_max_parallelism := 4%N; rb_scheduler_max_graph_nodes := 48%N;
  rb_scheduler_max_graph_depth := 16%N; rb_scheduler_max_loop_iterations := 6%N;
  rb_scheduler_max_agent_steps := 16%N; rb_scheduler_workspace_max_files := 10000%N;
  rb_scheduler_workspace_max_total_bytes := 1073741824%N;
  rb_scheduler_workspace_min_free_disk_bytes := 536870912%N;
  rb_scheduler_workspace_operation_timeout_ms := 30000%N; rb_tool_result_max_chars := 32000%N;
  rb_tool_result_preview_chars := 8000%N; rb_tool_batch_aggregate_max_chars := 120000%N;
  rb_max_tool_result_transcript_chars := 32000%N; rb_max_attachment_bytes := 120000%N;
  rb_max_mcp_resource_chars := 12000%N; rb_stream_connection_queue_size := 128%N;
  rb_max_ui_bridge_queue := 4096%N; rb_max_events_per_frame := 256%N;
  rb_frontend_max_prompt_history_entries := 200%N; rb_frontend_max_stash_entries := 50%N;
  rb_frontend_max_frecency_entries := 1000%N; rb_frontend_max_transcript_lines := 1200%N;
  rb_frontend_semantic_highlight_max_chars := 8000%N;
  rb_frontend_max_tool_result_display_chars := 8000%N; rb_tui_max_viewport_messages := 200%N;
  rb_tui_message_output_cache_entries := 300%N; rb_tui_max_render_ops_per_frame := 256%N;
  rb_web_max_pending_output_blocks := 256%N; rb_web_side_panel_cache_entries := 100%N;
  rb_pty_buffer_limit := (2 * 1024 * 1024)%N
|}.

(** ** Keys, terminal, server, commands, skills *)

(** [KeybindsConfig] *)
Record KeybindsConfig := {
  kb_leader : option string; kb_app_exit : option string; kb_editor_open : option string;
  kb_theme_list : option string; kb_sidebar_toggle : option string;
  kb_scrollbar_toggle : option string; kb_username_toggle : option string;
  kb_status_view : option string; kb_session_export : option string;
  kb_session_new : option string; kb_session_list : option string;
  kb_session_timeline : option string; kb_session_fork : option string;
  kb_session_rename : option string; kb_session_delete : option string;
  kb_stash_delete : option string; kb_model_provider_list : option string;
  kb_model_favorite_toggle : option string; kb_session_share : option string;
  kb_session_unshare : option string; kb_session_interrupt : option string;
  kb_session_compact : option string; kb_messages_page_up : option string;
  kb_messages_page_down : option string; kb_messages_line_up : option string;
  kb_messages_line_down : option string; kb_messages_half_page_up : option string;
  kb_messages_half_page_down : option string; kb_messages_first : option string;
  kb_messages_last : option string; kb_messages_next : option string;
  kb_messages_previous : option string; kb_messages_last_user : option string;
  kb_messages_copy : option string; kb_messages_undo : option string;
  kb_messages_redo : option string; kb_messages_toggle_conceal : option string;
  kb_tool_details : option string; kb_model_list : option string;
  kb_model_cycle_recent : option string; kb_model_cycle_recent_reverse : option string;
  kb_model_cycle_favorite : option string; kb_model_cycle_favorite_reverse : option string;
  kb_command_list : option string; kb_agent_list : option string;
  kb_agent_cycle : option string; kb_agent_cycle_reverse : option string;
  kb_variant_cycle : option string; kb_input_clear : option string;
  kb_input_paste : option string; kb_input_submit : option string;
  kb_input_newline : option string; kb_input_move_left : option string;
  kb_input_move_right : option string; kb_input_move_up : option string;
  kb_input_move_down : option string; kb_input_select_left : option string;
  kb_input_select_right : option string; kb_input_select_up : option string;
  kb_input_select_down : option string; kb_input_line_home : option string;
  kb_input_line_end : option string; kb_input_select_line_home : option string;
  kb_input_select_line_end : option string; kb_input_visual_line_home : option string;
  kb_input_visual_line_end : option string; kb_input_select_visual_line_home : option string;
  kb_input_select_visual_line_end : option string; kb_input_buffer_home : option string;
  kb_input_buffer_end : option string; kb_input_select_buffer_home : option string;
  kb_input_select_buffer_end : option string; kb_input_delete_line : option string;
  kb_input_delete_to_line_end : option string; kb_input_delete_to_line_start : option string;
  kb_input_backspace : option string; kb_input_delete : option string;
  kb_input_undo : option string; kb_input_redo : option string;
  kb_input_word_forward : option string; kb_input_word_backward : option string;
  kb_input_select_word_forward : option string; kb_input_select_word_backward : option string;
  kb_input_delete_word_forward : option string; kb_input_delete_word_backward : option string;
  kb_history_previous : option string; kb_history_next : option string;
  kb_session_attached_focus : option string; kb_session_workspace_focus : option string;
  kb_session_attached_open : option string; kb_session_parent : option string;
  kb_terminal_suspend : option string; kb_terminal_title_toggle : option string;
  kb_tips_toggle : option string; kb_display_thinking : option string
}.
Definition default_KeybindsConfig : KeybindsConfig := {|
  kb_leader := None; kb_app_exit := None; kb_editor_open := None; kb_theme_list := None;
  kb_sidebar_toggle := None; kb_scrollbar_toggle := None; kb_username_toggle := None;
  kb_status_view := None; kb_session_export := None; kb_session_new := None;
  kb_session_list := None; kb_session_timeline := None; kb_session_fork := None;
  kb_session_rename := None; kb_session_delete := None; kb_stash_delete := None;
  kb_model_provider_list := None; kb_model_favorite_toggle := None; kb_session_share := None;
  kb_session_unshare := None; kb_session_interrupt := None; kb_session_compact := None;
  kb_messages_page_up := None; kb_messages_page_down := None; kb_messages_line_up := None;
  kb_messages_line_down := None; kb_messages_half_page_up := None;
  kb_messages_half_page_down := None; kb_messages_first := None; kb_messages_last := None;
  kb_messages_next := None; kb_messages_previous := None; kb_messages_last_user := None;
  kb_messages_copy := None; kb_messages_undo := None; kb_messages_redo := None;
  kb_messages_toggle_conceal := None; kb_tool_details := None; kb_model_list := None;
  kb_model_cycle_recent := None; kb_model_cycle_recent_reverse := None;
  kb_model_cycle_favorite := None; kb_model_cycle_favorite_reverse := None;
  kb_command_list := None; kb_agent_list := None; kb_agent_cycle := None;
  kb_agent_cycle_reverse := None; kb_variant_cycle := None; kb_input_clear := None;
  kb_input_paste := None; kb_input_submit := None; kb_input_newline := None;
  kb_input_move_left := None; kb_input_move_right := None; kb_input_move_up := None;
  kb_input_move_down := None; kb_input_select_left := None; kb_input_select_right := None;
  kb_input_select_up := None; kb_input_select_down := None; kb_input_line_home := None;
  kb_input_line_end := None; kb_input_select_line_home := None;
  kb_input_select_line_end := None; kb_input_visual_line_home := None;
  kb_input_visual_line_end := None; kb_input_select_visual_line_home := None;
  kb_input_select_visual_line_end := None; kb_input_buffer_home := None;
  kb_input_buffer_end := None; kb_input_select_buffer_home := None;
  kb_input_select_buffer_end := None; kb_input_delete_line := None;
  kb_input_delete_to_line_end := None; kb_input_delete_to_line_start := None;
  kb_input_backspace := None; kb_input_delete := None; kb_input_undo := None;
  kb_input_redo := None; kb_input_word_forward := None; kb_input_word_backward := None;
  kb_input_select_word_forward := None; kb_input_select_word_backward := None;
  kb_input_delete_word_forward := None; kb_input_delete_word_backward := None;
  kb_history_previous := None; kb_history_next := None; kb_session_attached_focus := None;
  kb_session_workspace_focus := None; kb_session_attached_open := None;
  kb_session_parent := None; kb_terminal_suspend := None; kb_terminal_title_toggle := None;
  kb_tips_toggle := None; kb_display_thinking := None
|}.
Definition KeybindsConfig_deep_merge (self other : KeybindsConfig) : KeybindsConfig := {|
  kb_leader := merge_option_replace self.(kb_leader) other.(kb_leader);
  kb_app_exit := merge_option_replace self.(kb_app_exit) other.(kb_app_exit);
  kb_editor_open := merge_option_replace self.(kb_editor_open) other.(kb_editor_open);
  kb_theme_list := merge_option_replace self.(kb_theme_list) other.(kb_theme_list);
  kb_sidebar_toggle := merge_option_replace self.(kb_sidebar_toggle) other.(kb_sidebar_toggle);
  kb_scrollbar_toggle :=
    merge_option_replace self.(kb_scrollbar_toggle) other.(kb_scrollbar_toggle);
  kb_username_toggle := merge_option_replace self.(kb_username_toggle) other.(kb_username_toggle);
  kb_status_view := merge_option_replace self.(kb_status_view) other.(kb_status_view);
  kb_session_export := merge_option_replace self.(kb_session_export) other.(kb_session_export);
  kb_session_new := merge_option_replace self.(kb_session_new) other.(kb_session_new);
  kb_session_list := merge_option_replace self.(kb_session_list) other.(kb_session_list);
  kb_session_timeline :=
    merge_option_replace self.(kb_session_timeline) other.(kb_session_timeline);
  kb_session_fork := merge_option_replace self.(kb_session_fork) other.(kb_session_fork);
  kb_session_rename := merge_option_replace self.(kb_session_rename) other.(kb_session_rename);
  kb_session_delete := merge_option_replace self.(kb_session_delete) other.(kb_session_delete);
  kb_stash_delete := merge_option_replace self.(kb_stash_delete) other.(kb_stash_delete);
  kb_model_provider_list :=
    merge_option_replace self.(kb_model_provider_list) other.(kb_model_provider_list);
  kb_model_favorite_toggle :=
    merge_option_replace self.(kb_model_favorite_toggle) other.(kb_model_favorite_toggle);
  kb_session_share := merge_option_replace self.(kb_session_share) other.(kb_session_share);
  kb_session_unshare := merge_option_replace self.(kb_session_unshare) other.(kb_session_unshare);
  kb_session_interrupt :=
    merge_option_replace self.(kb_session_interrupt) other.(kb_session_interrupt);
  kb_session_compact := merge_option_replace self.(kb_session_compact) other.(kb_session_compact);
  kb_messages_page_up :=
    merge_option_replace self.(kb_messages_page_up) other.(kb_messages_page_up);
  kb_messages_page_down :=
    merge_option_replace self.(kb_messages_page_down) other.(kb_messages_page_down);
  kb_messages_line_up :=
    merge_option_replace self.(kb_messages_line_up) other.(kb_messages_line_up);
  kb_messages_line_down :=
    merge_option_replace self.(kb_messages_line_down) other.(kb_messages_line_down);
  kb_messages_half_page_up :=
    merge_option_replace self.(kb_messages_half_page_up) other.(kb_messages_half_page_up);
  kb_messages_half_page_down :=
    merge_option_replace self.(kb_messages_half_page_down) other.(kb_messages_half_page_down);
  kb_messages_first := merge_option_replace self.(kb_messages_first) other.(kb_messages_first);
  kb_messages_last := merge_option_replace self.(kb_messages_last) other.(kb_messages_last);
  kb_messages_next := merge_option_replace self.(kb_messages_next) other.(kb_messages_next);
  kb_messages_previous :=
    merge_option_replace self.(kb_messages_previous) other.(kb_messages_previous);
  kb_messages_last_user :=
    merge_option_replace self.(kb_messages_last_user) other.(kb_messages_last_user);
  kb_messages_copy := merge_option_replace self.(kb_messages_copy) other.(kb_messages_copy);
  kb_messages_undo := merge_option_replace self.(kb_messages_undo) other.(kb_messages_undo);
  kb_messages_redo := merge_option_replace self.(kb_messages_redo) other.(kb_messages_redo);
  kb_messages_toggle_conceal :=
    merge_option_replace self.(kb_messages_toggle_conceal) other.(kb_messages_toggle_conceal);
  kb_tool_details := merge_option_replace self.(kb_tool_details) other.(kb_tool_details);
  kb_model_list := merge_option_replace self.(kb_model_list) other.(kb_model_list);
  kb_model_cycle_recent :=
    merge_option_replace self.(kb_model_cycle_recent) other.(kb_model_cycle_recent);
  kb_model_cycle_recent_reverse :=
    merge_option_replace self.(kb_model_cycle_recent_reverse)
      other.(kb_model_cycle_recent_reverse);
  kb_model_cycle_favorite :=
    merge_option_replace self.(kb_model_cycle_favorite) other.(kb_model_cycle_favorite);
  kb_model_cycle_favorite_reverse :=
    merge_option_replace self.(kb_model_cycle_favorite_reverse)
      other.(kb_model_cycle_favorite_reverse);
  kb_command_list := merge_option_replace self.(kb_command_list) other.(kb_command_list);
  kb_agent_list := merge_option_replace self.(kb_agent_list) other.(kb_agent_list);
  kb_agent_cycle := merge_option_replace self.(kb_agent_cycle) other.(kb_agent_cycle);
  kb_agent_cycle_reverse :=
    merge_option_replace self.(kb_agent_cycle_reverse) other.(kb_agent_cycle_reverse);
  kb_variant_cycle := merge_option_replace self.(kb_variant_cycle) other.(kb_variant_cycle);
  kb_input_clear := merge_option_replace self.(kb_input_clear) other.(kb_input_clear);
  kb_input_paste := merge_option_replace self.(kb_input_paste) other.(kb_input_paste);
  kb_input_submit := merge_option_replace self.(kb_input_submit) other.(kb_input_submit);
  kb_input_newline := merge_option_replace self.(kb_input_newline) other.(kb_input_newline);
  kb_input_move_left := merge_option_replace self.(kb_input_move_left) other.(kb_input_move_left);
  kb_input_move_right :=
    merge_option_replace self.(kb_input_move_right) other.(kb_input_move_right);
  kb_input_move_up := merge_option_replace self.(kb_input_move_up) other.(kb_input_move_up);
  kb_input_move_down := merge_option_replace self.(kb_input_move_down) other.(kb_input_move_down);
  kb_input_select_left :=
    merge_option_replace self.(kb_input_select_left) other.(kb_input_select_left);
  kb_input_select_right :=
    merge_option_replace self.(kb_input_select_right) other.(kb_input_select_right);
  kb_input_select_up := merge_option_replace self.(kb_input_select_up) other.(kb_input_select_up);
  kb_input_select_down :=
    merge_option_replace self.(kb_input_select_down) other.(kb_input_select_down);
  kb_input_line_home := merge_option_replace self.(kb_input_line_home) other.(kb_input_line_home);
  kb_input_line_end := merge_option_replace self.(kb_input_line_end) other.(kb_input_line_end);
  kb_input_select_line_home :=
    merge_option_replace self.(kb_input_select_line_home) other.(kb_input_select_line_home);
  kb_input_select_line_end :=
    merge_option_replace self.(kb_input_select_line_end) other.(kb_input_select_line_end);
  kb_input_visual_line_home :=
    merge_option_replace self.(kb_input_visual_line_home) other.(kb_input_visual_line_home);
  kb_input_visual_line_end :=
    merge_option_replace self.(kb_input_visual_line_end) other.(kb_input_visual_line_end);
  kb_input_select_visual_line_home :=
    merge_option_replace self.(kb_input_select_visual_line_home)
      other.(kb_input_select_visual_line_home);
  kb_input_select_visual_line_end :=
    merge_option_replace self.(kb_input_select_visual_line_end)
      other.(kb_input_select_visual_line_end);
  kb_input_buffer_home :=
    merge_option_replace self.(kb_input_buffer_home) other.(kb_input_buffer_home);
  kb_input_buffer_end :=
    merge_option_replace self.(kb_input_buffer_end) other.(kb_input_buffer_end);
  kb_input_select_buffer_home :=
    merge_option_replace self.(kb_input_select_buffer_home) other.(kb_input_select_buffer_home);
  kb_input_select_buffer_end :=
    merge_option_replace self.(kb_input_select_buffer_end) other.(kb_input_select_buffer_end);
  kb_input_delete_line :=
    merge_option_replace self.(kb_input_delete_line) other.(kb_input_delete_line);
  kb_input_delete_to_line_end :=
    merge_option_replace self.(kb_input_delete_to_line_end) other.(kb_input_delete_to_line_end);
  kb_input_delete_to_line_start :=
    merge_option_replace self.(kb_input_delete_to_line_start)
      other.(kb_input_delete_to_line_start);
  kb_input_backspace := merge_option_replace self.(kb_input_backspace) other.(kb_input_backspace);
  kb_input_delete := merge_option_replace self.(kb_input_delete) other.(kb_input_delete);
  kb_input_undo := merge_option_replace self.(kb_input_undo) other.(kb_input_undo);
  kb_input_redo := merge_option_replace self.(kb_input_redo) other.(kb_input_redo);
  kb_input_word_forward :=
    merge_option_replace self.(kb_input_word_forward) other.(kb_input_word_forward);
  kb_input_word_backward :=
    merge_option_replace self.(kb_input_word_backward) other.(kb_input_word_backward);
  kb_input_select_word_forward :=
    merge_option_replace self.(kb_input_select_word_forward) other.(kb_input_select_word_forward);
  kb_input_select_word_backward :=
    merge_option_replace self.(kb_input_select_word_backward)
      other.(kb_input_select_word_backward);
  kb_input_delete_word_forward :=
    merge_option_replace self.(kb_input_delete_word_forward) other.(kb_input_delete_word_forward);
  kb_input_delete_word_backward :=
    merge_option_replace self.(kb_input_delete_word_backward)
      other.(kb_input_delete_word_backward);
  kb_history_previous :=
    merge_option_replace self.(kb_history_previous) other.(kb_history_previous);
  kb_history_next := merge_option_replace self.(kb_history_next) other.(kb_history_next);
  kb_session_attached_focus :=
    merge_option_replace self.(kb_session_attached_focus) other.(kb_session_attached_focus);
  kb_session_workspace_focus :=
    merge_option_replace self.(kb_session_workspace_focus) other.(kb_session_workspace_focus);
  kb_session_attached_open :=
    merge_option_replace self.(kb_session_attached_open) other.(kb_session_attached_open);
  kb_session_parent := merge_option_replace self.(kb_session_parent) other.(kb_session_parent);
  kb_terminal_suspend :=
    merge_option_replace self.(kb_terminal_suspend) other.(kb_terminal_suspend);
  kb_terminal_title_toggle :=
    merge_option_replace self.(kb_terminal_title_toggle) other.(kb_terminal_title_toggle);
  kb_tips_toggle := merge_option_replace self.(kb_tips_toggle) other.(kb_tips_toggle);
  kb_display_thinking := merge_option_replace self.(kb_display_thinking) other.(kb_display_thinking)
|}.
#[export] Instance KeybindsConfig_DeepMerge : DeepMerge KeybindsConfig := KeybindsConfig_deep_merge.

(** [ScrollAccelerationConfig] *)
Record ScrollAccelerationConfig := {
  sa_enabled : bool
}.

(** [TuiConfig] *)
Record TuiConfig := {
  tui_mode : option string; tui_sidebar : option bool; tui_scroll_speed : option f64;
  tui_scroll_acceleration : option ScrollAccelerationConfig; tui_diff_style : option string
}.
Definition default_TuiConfig : TuiConfig := {|
  tui_mode := None; tui_sidebar := None; tui_scroll_speed := None;
  tui_scroll_acceleration := None; tui_diff_style := None
|}.
Definition TuiConfig_deep_merge (self other : TuiConfig) : TuiConfig := {|
  tui_mode := merge_option_replace self.(tui_mode) other.(tui_mode);
  tui_sidebar := merge_option_replace self.(tui_sidebar) other.(tui_sidebar);
  tui_scroll_speed := merge_option_replace self.(tui_scroll_speed) other.(tui_scroll_speed);
  tui_scroll_acceleration :=
    merge_option_replace self.(tui_scroll_acceleration) other.(tui_scroll_acceleration);
  tui_diff_style := merge_option_replace self.(tui_diff_style) other.(tui_diff_style)
|}.
#[export] Instance TuiConfig_DeepMerge : DeepMerge TuiConfig := TuiConfig_deep_merge.

(** [ServerConfig] *)
Record ServerConfig := {
  srv_port : option N; srv_hostname : option string; srv_mdns : option bool;
  srv_mdns_domain : option string; srv_cors : option (list string)
}.
Definition default_ServerConfig : ServerConfig := {|
  srv_port := None; srv_hostname := None; srv_mdns := None; srv_mdns_domain := None;
  srv_cors := None
|}.
Definition ServerConfig_deep_merge (self other : ServerConfig) : ServerConfig := {|
  srv_port := merge_option_replace self.(srv_port) other.(srv_port);
  srv_hostname := merge_option_replace self.(srv_hostname) other.(srv_hostname);
  srv_mdns := merge_option_replace self.(srv_mdns) other.(srv_mdns);
  srv_mdns_domain := merge_option_replace self.(srv_mdns_domain) other.(srv_mdns_domain);
  srv_cors := merge_option_replace self.(srv_cors) other.(srv_cors)
|}.
#[export] Instance ServerConfig_DeepMerge : DeepMerge ServerConfig := ServerConfig_deep_merge.

(** [CommandConfig] *)
Record CommandConfig := {
  cmd_name : option string; cmd_description : option string; cmd_template : option string;
  cmd_model : option string; cmd_agent : option string
}.
Definition default_CommandConfig : CommandConfig := {|
  cmd_name := None; cmd_description := None; cmd_template := None; cmd_model := None;
  cmd_agent := None
|}.
Definition CommandConfig_deep_merge (self other : CommandConfig) : CommandConfig := {|
  cmd_name := merge_option_replace self.(cmd_name) other.(cmd_name);
  cmd_description := merge_option_replace self.(cmd_description) other.(cmd_description);
  cmd_template := merge_option_replace self.(cmd_template) other.(cmd_template);
  cmd_model := merge_option_replace self.(cmd_model) other.(cmd_model);
  cmd_agent := merge_option_replace self.(cmd_agent) other.(cmd_agent)
|}.
#[export] Instance CommandConfig_DeepMerge : DeepMerge CommandConfig := CommandConfig_deep_merge.

(** [agendao_types::SkillSourceKind] *)
Inductive SkillSourceKind := Bundled | LocalPath | Git | Archive | Registry.

Definition default_registry_source_kind : SkillSourceKind := Registry.

(** [SkillHubRegistrySourceConfig] *)
Record SkillHubRegistrySourceConfig := {
  reg_source_id : string; reg_source_kind : SkillSourceKind; reg_locator : string;
  reg_description : option string
}.

(** [SkillHubConfig] *)
Record SkillHubConfig := {
  hub_artifact_cache_retention_seconds : option N; hub_fetch_timeout_ms : option N;
  hub_max_download_bytes : option N; hub_max_extract_bytes : option N;
  hub_default_registries : option (list SkillHubRegistrySourceConfig);
  hub_index_freshness_max_age_seconds : option N
}.
Definition default_SkillHubConfig : SkillHubConfig := {|
  hub_artifact_cache_retention_seconds := None; hub_fetch_timeout_ms := None;
  hub_max_download_bytes := None; hub_max_extract_bytes := None;
  hub_default_registries := None; hub_index_freshness_max_age_seconds := None
|}.
Definition SkillHubConfig_deep_merge (self other : SkillHubConfig) : SkillHubConfig := {|
  hub_artifact_cache_retention_seconds :=
    merge_option_replace self.(hub_artifact_cache_retention_seconds)
      other.(hub_artifact_cache_retention_seconds);
  hub_fetch_timeout_ms :=
    merge_option_replace self.(hub_fetch_timeout_ms) other.(hub_fetch_timeout_ms);
  hub_max_download_bytes :=
    merge_option_replace self.(hub_max_download_bytes) other.(hub_max_download_bytes);
  hub_max_extract_bytes :=
    merge_option_replace self.(hub_max_extract_bytes) other.(hub_max_extract_bytes);
  hub_default_registries :=
    merge_option_replace self.(hub_default_registries) other.(hub_default_registries);
  hub_index_freshness_max_age_seconds :=
    merge_option_replace self.(hub_index_freshness_max_age_seconds)
      other.(hub_index_freshness_max_age_seconds)
|}.
#[export] Instance SkillHubConfig_DeepMerge : DeepMerge SkillHubConfig := SkillHubConfig_deep_merge.

(** [SkillsConfig] *)
Record SkillsConfig := {
  sk_paths : list string; sk_urls : list string; sk_disabled : list string;
  sk_hub : option SkillHubConfig
}.
Definition default_SkillsConfig : SkillsConfig := {|
  sk_paths := []; sk_urls := []; sk_disabled := []; sk_hub := None
|}.
Definition SkillsConfig_deep_merge (self other : SkillsConfig) : SkillsConfig := {|
  sk_paths := merge_vec_replace_if_non_empty self.(sk_paths) other.(sk_paths);
  sk_urls := merge_vec_replace_if_non_empty self.(sk_urls) other.(sk_urls);
  sk_disabled := merge_vec_replace_if_non_empty self.(sk_disabled) other.(sk_disabled);
  sk_hub := merge_option_deep self.(sk_hub) other.(sk_hub)
|}.
#[export] Instance SkillsConfig_DeepMerge : DeepMerge SkillsConfig := SkillsConfig_deep_merge.

(** [DocsConfig] *)
Record DocsConfig := {
  docs_context_docs_registry_path : option string
}.
Definition default_DocsConfig : DocsConfig := {|
  docs_context_docs_registry_path := None
|}.
Definition DocsConfig_deep_merge (self other : DocsConfig) : DocsConfig := {|
  docs_context_docs_registry_path :=
    merge_option_replace self.(docs_context_docs_registry_path)
      other.(docs_context_docs_registry_path)
|}.
#[export] Instance DocsConfig_DeepMerge : DeepMerge DocsConfig := DocsConfig_deep_merge.

(** [WatcherConfig] *)
Record WatcherConfig := {
  wat_ignore : list string
}.
Definition default_WatcherConfig : WatcherConfig := {|
  wat_ignore := []
|}.
Definition WatcherConfig_deep_merge (self other : WatcherConfig) : WatcherConfig := {|
  wat_ignore := merge_vec_replace_if_non_empty self.(wat_ignore) other.(wat_ignore)
|}.
#[export] Instance WatcherConfig_DeepMerge : DeepMerge WatcherConfig := WatcherConfig_deep_merge.

(** ** Permissions and agents *)

Inductive PermissionAction := Ask | Allow | Deny.
Inductive PermissionRule :=
| Action (action : PermissionAction)
| ActionsByKey (actions : gmap string PermissionAction).

(** [PermissionConfig]; [ActionsByKey] above is [PermissionRule::Object]. *)
Record PermissionConfig := {
  perm_rules : gmap string PermissionRule
}.
Definition default_PermissionConfig : PermissionConfig := {|
  perm_rules := ∅
|}.
Definition PermissionConfig_deep_merge (self other : PermissionConfig) : PermissionConfig := {|
  perm_rules := merge_map_overwrite_values self.(perm_rules) other.(perm_rules)
|}.
#[export] Instance PermissionConfig_DeepMerge : DeepMerge PermissionConfig := PermissionConfig_deep_merge.

Inductive AgentMode := Primary | Subagent | AllModes.

(** [AgentConfig] *)
Record AgentConfig := {
  ag_name : option string; ag_model : option string; ag_variant : option string;
  ag_temperature : option f32; ag_top_p : option f32; ag_prompt : option string;
  ag_disable : option bool; ag_description : option string; ag_mode : option AgentMode;
  ag_hidden : option bool; ag_options : option (gmap string Value); ag_color : option string;
  ag_steps : option N; ag_max_steps : option N; ag_max_tokens : option N;
  ag_permission : option PermissionConfig; ag_tools : option (gmap string bool)
}.
Definition default_AgentConfig : AgentConfig := {|
  ag_name := None; ag_model := None; ag_variant := None; ag_temperature := None;
  ag_top_p := None; ag_prompt := None; ag_disable := None; ag_description := None;
  ag_mode := None; ag_hidden := None; ag_options := None; ag_color := None; ag_steps := None;
  ag_max_steps := None; ag_max_tokens := None; ag_permission := None; ag_tools := None
|}.
Definition AgentConfig_deep_merge (self other : AgentConfig) : AgentConfig := {|
  ag_name := merge_option_replace self.(ag_name) other.(ag_name);
  ag_model := merge_option_replace self.(ag_model) other.(ag_model);
  ag_variant := merge_option_replace self.(ag_variant) other.(ag_variant);
  ag_temperature := merge_option_replace self.(ag_temperature) other.(ag_temperature);
  ag_top_p := merge_option_replace self.(ag_top_p) other.(ag_top_p);
  ag_prompt := merge_option_replace self.(ag_prompt) other.(ag_prompt);
  ag_disable := merge_option_replace self.(ag_disable) other.(ag_disable);
  ag_description := merge_option_replace self.(ag_description) other.(ag_description);
  ag_mode := merge_option_replace self.(ag_mode) other.(ag_mode);
  ag_hidden := merge_option_replace self.(ag_hidden) other.(ag_hidden);
  ag_options := merge_option_json_map self.(ag_options) other.(ag_options);
  ag_color := merge_option_replace self.(ag_color) other.(ag_color);
  ag_steps := merge_option_replace self.(ag_steps) other.(ag_steps);
  ag_max_steps := merge_option_replace self.(ag_max_steps) other.(ag_max_steps);
  ag_max_tokens := merge_option_replace self.(ag_max_tokens) other.(ag_max_tokens);
  ag_permission := merge_option_deep self.(ag_permission) other.(ag_permission);
  ag_tools := merge_option_map_overwrite_values self.(ag_tools) other.(ag_tools)
|}.
#[export] Instance AgentConfig_DeepMerge : DeepMerge AgentConfig := AgentConfig_deep_merge.

(** [AgentConfigs] *)
Record AgentConfigs := {
  ags_entries : gmap string AgentConfig
}.
Definition default_AgentConfigs : AgentConfigs := {|
  ags_entries := ∅
|}.
Definition AgentConfigs_deep_merge (self other : AgentConfigs) : AgentConfigs := {|
  ags_entries := merge_map_deep_values self.(ags_entries) other.(ags_entries)
|}.
#[export] Instance AgentConfigs_DeepMerge : DeepMerge AgentConfigs := AgentConfigs_deep_merge.

(** ** Models and providers *)

(** [ModelModalities] *)
Record ModelModalities := {
  mod_input : option (list string); mod_output : option (list string)
}.
Definition default_ModelModalities : ModelModalities := {|
  mod_input := None; mod_output := None
|}.
Definition ModelModalities_deep_merge (self other : ModelModalities) : ModelModalities := {|
  mod_input := merge_option_replace self.(mod_input) other.(mod_input);
  mod_output := merge_option_replace self.(mod_output) other.(mod_output)
|}.
#[export] Instance ModelModalities_DeepMerge : DeepMerge ModelModalities := ModelModalities_deep_merge.

(** [ModelCostConfig]: the box may hold a further table for long contexts. *)
Inductive ModelCostConfig := {
  cost_input : option f64; cost_output : option f64; cost_cache_read : option f64;
  cost_cache_write : option f64; cost_context_over_200k : option ModelCostConfig
}.
Definition default_ModelCostConfig : ModelCostConfig := {|
  cost_input := None; cost_output := None; cost_cache_read := None; cost_cache_write := None;
  cost_context_over_200k := None
|}.
Fixpoint ModelCostConfig_deep_merge (self other : ModelCostConfig) {struct other} : ModelCostConfig := {|
  cost_input := merge_option_replace self.(cost_input) other.(cost_input);
  cost_output := merge_option_replace self.(cost_output) other.(cost_output);
  cost_cache_read := merge_option_replace self.(cost_cache_read) other.(cost_cache_read);
  cost_cache_write := merge_option_replace self.(cost_cache_write) other.(cost_cache_write);
  cost_context_over_200k :=
    @merge_option_deep ModelCostConfig ModelCostConfig_deep_merge self.(cost_context_over_200k) other.(cost_context_over_200k)
|}.
#[export] Instance ModelCostConfig_DeepMerge : DeepMerge ModelCostConfig := ModelCostConfig_deep_merge.

(** [ModelLimitConfig] *)
Record ModelLimitConfig := {
  lim_context : option N; lim_input : option N; lim_output : option N
}.
Definition default_ModelLimitConfig : ModelLimitConfig := {|
  lim_context := None; lim_input := None; lim_output := None
|}.
Definition ModelLimitConfig_deep_merge (self other : ModelLimitConfig) : ModelLimitConfig := {|
  lim_context := merge_option_replace self.(lim_context) other.(lim_context);
  lim_input := merge_option_replace self.(lim_input) other.(lim_input);
  lim_output := merge_option_replace self.(lim_output) other.(lim_output)
|}.
#[export] Instance ModelLimitConfig_DeepMerge : DeepMerge ModelLimitConfig := ModelLimitConfig_deep_merge.

(** [ModelProviderConfig] *)
Record ModelProviderConfig := {
  mp_npm : option string; mp_api : option string
}.
Definition default_ModelProviderConfig : ModelProviderConfig := {|
  mp_npm := None; mp_api := None
|}.
Definition ModelProviderConfig_deep_merge (self other : ModelProviderConfig) : ModelProviderConfig := {|
  mp_npm := merge_option_replace self.(mp_npm) other.(mp_npm);
  mp_api := merge_option_replace self.(mp_api) other.(mp_api)
|}.
#[export] Instance ModelProviderConfig_DeepMerge : DeepMerge ModelProviderConfig := ModelProviderConfig_deep_merge.

(** [ModelVariantConfig] *)
Record ModelVariantConfig := {
  var_disabled : option bool; var_extra : gmap string Value
}.
Definition default_ModelVariantConfig : ModelVariantConfig := {|
  var_disabled := None; var_extra := ∅
|}.
Definition ModelVariantConfig_deep_merge (self other : ModelVariantConfig) : ModelVariantConfig := {|
  var_disabled := merge_option_replace self.(var_disabled) other.(var_disabled);
  var_extra := merge_map_overwrite_values self.(var_extra) other.(var_extra)
|}.
#[export] Instance ModelVariantConfig_DeepMerge : DeepMerge ModelVariantConfig := ModelVariantConfig_deep_merge.

Inductive ModelInterleavedConfig :=
| InterleavedBool (b : bool)
| InterleavedField (field : string).

(** [ModelConfig] *)
Record ModelConfig := {
  mdl_name : option string; mdl_model : option string; mdl_base_url : option string;
  mdl_variants : option (gmap string ModelVariantConfig); mdl_tool_call : option bool;
  mdl_modalities : option ModelModalities; mdl_reasoning : option bool;
  mdl_reasoning_effort : option string; mdl_timeout_secs : option N;
  mdl_stream_stall_timeout_secs : option N; mdl_attachment : option bool;
  mdl_temperature : option bool; mdl_interleaved : option ModelInterleavedConfig;
  mdl_options : option (gmap string Value); mdl_cost : option ModelCostConfig;
  mdl_limit : option ModelLimitConfig; mdl_headers : option (gmap string string);
  mdl_family : option string; mdl_status : option string; mdl_release_date : option string;
  mdl_experimental : option bool; mdl_provider : option ModelProviderConfig
}.
Definition default_ModelConfig : ModelConfig := {|
  mdl_name := None; mdl_model := None; mdl_base_url := None; mdl_variants := None;
  mdl_tool_call := None; mdl_modalities := None; mdl_reasoning := None;
  mdl_reasoning_effort := None; mdl_timeout_secs := None;
  mdl_stream_stall_timeout_secs := None; mdl_attachment := None; mdl_temperature := None;
  mdl_interleaved := None; mdl_options := None; mdl_cost := None; mdl_limit := None;
  mdl_headers := None; mdl_family := None; mdl_status := None; mdl_release_date := None;
  mdl_experimental := None; mdl_provider := None
|}.
Definition ModelConfig_deep_merge (self other : ModelConfig) : ModelConfig := {|
  mdl_name := merge_option_replace self.(mdl_name) other.(mdl_name);
  mdl_model := merge_option_replace self.(mdl_model) other.(mdl_model);
  mdl_base_url := merge_option_replace self.(mdl_base_url) other.(mdl_base_url);
  mdl_variants := merge_option_map_deep_values self.(mdl_variants) other.(mdl_variants);
  mdl_tool_call := merge_option_replace self.(mdl_tool_call) other.(mdl_tool_call);
  mdl_modalities := merge_option_deep self.(mdl_modalities) other.(mdl_modalities);
  mdl_reasoning := merge_option_replace self.(mdl_reasoning) other.(mdl_reasoning);
  mdl_reasoning_effort :=
    merge_option_replace self.(mdl_reasoning_effort) other.(mdl_reasoning_effort);
  mdl_timeout_secs := merge_option_replace self.(mdl_timeout_secs) other.(mdl_timeout_secs);
  mdl_stream_stall_timeout_secs :=
    merge_option_replace self.(mdl_stream_stall_timeout_secs)
      other.(mdl_stream_stall_timeout_secs);
  mdl_attachment := merge_option_replace self.(mdl_attachment) other.(mdl_attachment);
  mdl_temperature := merge_option_replace self.(mdl_temperature) other.(mdl_temperature);
  mdl_interleaved := merge_option_replace self.(mdl_interleaved) other.(mdl_interleaved);
  mdl_options := merge_option_json_map self.(mdl_options) other.(mdl_options);
  mdl_cost := merge_option_deep self.(mdl_cost) other.(mdl_cost);
  mdl_limit := merge_option_deep self.(mdl_limit) other.(mdl_limit);
  mdl_headers := merge_option_map_overwrite_values self.(mdl_headers) other.(mdl_headers);
  mdl_family := merge_option_replace self.(mdl_family) other.(mdl_family);
  mdl_status := merge_option_replace self.(mdl_status) other.(mdl_status);
  mdl_release_date := merge_option_replace self.(mdl_release_date) other.(mdl_release_date);
  mdl_experimental := merge_option_replace self.(mdl_experimental) other.(mdl_experimental);
  mdl_provider := merge_option_deep self.(mdl_provider) other.(mdl_provider)
|}.
#[export] Instance ModelConfig_DeepMerge : DeepMerge ModelConfig := ModelConfig_deep_merge.

(** [ProviderConfig] *)
Record ProviderConfig := {
  prov_name : option string; prov_id : option string; prov_api_key : option string;
  prov_base_url : option string; prov_models : option (gmap string ModelConfig);
  prov_options : option (gmap string Value); prov_npm : option string;
  prov_api_style : option string; prov_api_shape : option string;
  prov_transport : option string; prov_usage_shape : option string; prov_quirks : list string;
  prov_env : option (list string); prov_whitelist : list string; prov_blacklist : list string
}.
Definition default_ProviderConfig : ProviderConfig := {|
  prov_name := None; prov_id := None; prov_api_key := None; prov_base_url := None;
  prov_models := None; prov_options := None; prov_npm := None; prov_api_style := None;
  prov_api_shape := None; prov_transport := None; prov_usage_shape := None; prov_quirks := [];
  prov_env := None; prov_whitelist := []; prov_blacklist := []
|}.
Definition ProviderConfig_deep_merge (self other : ProviderConfig) : ProviderConfig := {|
  prov_name := merge_option_replace self.(prov_name) other.(prov_name);
  prov_id := merge_option_replace self.(prov_id) other.(prov_id);
  prov_api_key := merge_option_replace self.(prov_api_key) other.(prov_api_key);
  prov_base_url := merge_option_replace self.(prov_base_url) other.(prov_base_url);
  prov_models := merge_option_map_deep_values self.(prov_models) other.(prov_models);
  prov_options := merge_option_json_map self.(prov_options) other.(prov_options);
  prov_npm := merge_option_replace self.(prov_npm) other.(prov_npm);
  prov_api_style := merge_option_replace self.(prov_api_style) other.(prov_api_style);
  prov_api_shape := merge_option_replace self.(prov_api_shape) other.(prov_api_shape);
  prov_transport := merge_option_replace self.(prov_transport) other.(prov_transport);
  prov_usage_shape := merge_option_replace self.(prov_usage_shape) other.(prov_usage_shape);
  prov_quirks := merge_vec_replace_if_non_empty self.(prov_quirks) other.(prov_quirks);
  prov_env := merge_option_replace self.(prov_env) other.(prov_env);
  prov_whitelist := merge_vec_replace_if_non_empty self.(prov_whitelist) other.(prov_whitelist);
  prov_blacklist := merge_vec_replace_if_non_empty self.(prov_blacklist) other.(prov_blacklist)
|}.
#[export] Instance ProviderConfig_DeepMerge : DeepMerge ProviderConfig := ProviderConfig_deep_merge.

(** ** Plugins, MCP servers, formatters, language servers *)

(** [PluginConfig] *)
Record PluginConfig := {
  plug_plugin_type : string; plug_package : option string; plug_version : option string;
  plug_path : option string; plug_runtime : option string; plug_options : gmap string Value
}.

(** What it does to the text of the field: an unknown kind is an error. *)
Definition deserialize_plugin_type (plugin_type : string) : option string :=
  if mem plugin_type ["npm"; "file"; "dylib"] then Some plugin_type else None.

(** [McpOAuth] *)
Record McpOAuth := {
  oauth_client_id : option string; oauth_authorization_url : option string;
  oauth_client_secret : option string; oauth_scope : option string
}.
Definition default_McpOAuth : McpOAuth := {|
  oauth_client_id := None; oauth_authorization_url := None; oauth_client_secret := None;
  oauth_scope := None
|}.

Inductive McpOAuthConfig :=
| OAuthDisabled
| OAuthConfig (config : McpOAuth).

(** [McpServer] *)
Record McpServer := {
  mcp_server_type : option string; mcp_command : list string;
  mcp_environment : option (gmap string string); mcp_url : option string;
  mcp_enabled : option bool; mcp_timeout : option N; mcp_headers : option (gmap string string);
  mcp_oauth : option McpOAuthConfig
}.
Definition default_McpServer : McpServer := {|
  mcp_server_type := None; mcp_command := []; mcp_environment := None; mcp_url := None;
  mcp_enabled := None; mcp_timeout := None; mcp_headers := None; mcp_oauth := None
|}.
Definition McpServer_deep_merge (self other : McpServer) : McpServer := {|
  mcp_server_type := merge_option_replace self.(mcp_server_type) other.(mcp_server_type);
  mcp_command := merge_vec_replace_if_non_empty self.(mcp_command) other.(mcp_command);
  mcp_environment :=
    merge_option_map_overwrite_values self.(mcp_environment) other.(mcp_environment);
  mcp_url := merge_option_replace self.(mcp_url) other.(mcp_url);
  mcp_enabled := merge_option_replace self.(mcp_enabled) other.(mcp_enabled);
  mcp_timeout := merge_option_replace self.(mcp_timeout) other.(mcp_timeout);
  mcp_headers := merge_option_map_overwrite_values self.(mcp_headers) other.(mcp_headers);
  mcp_oauth := merge_option_replace self.(mcp_oauth) other.(mcp_oauth)
|}.
#[export] Instance McpServer_DeepMerge : DeepMerge McpServer := McpServer_deep_merge.

Inductive McpServerConfig :=
| Enabled (enabled : bool)
| Full (server : McpServer).

(** The hand-written [Deserialize] of the two, around the derived decoders of their structs. *)
Definition McpOAuthConfig_deserialize (decode : Value → option McpOAuth) (value : Value) : option McpOAuthConfig :=
  match value with
  | Bool false => Some OAuthDisabled
  | Object _ => OAuthConfig <$> decode value
  | _ => None
  end.
Definition McpServerConfig_deserialize (decode : Value → option McpServer) (value : Value)
    : option McpServerConfig :=
  let full := Full <$> decode value in
  match value with
  | Object members =>
      if decide (size members = 1) then
        match members !! "enabled" with
        | Some (Bool enabled) => Some (Enabled enabled)
        | Some _ => None
        | None => full
        end
      else full
  | _ => full
  end.

Definition with_enabled (s : McpServer) (enabled : option bool) : McpServer :=
  {| mcp_server_type := s.(mcp_server_type); mcp_command := s.(mcp_command);
     mcp_environment := s.(mcp_environment); mcp_url := s.(mcp_url); mcp_enabled := enabled;
     mcp_timeout := s.(mcp_timeout); mcp_headers := s.(mcp_headers); mcp_oauth := s.(mcp_oauth) |}.

Definition McpServerConfig_deep_merge (self other : McpServerConfig) : McpServerConfig :=
  match other with
  | Enabled enabled =>
      match self with
      | Enabled _ => Enabled enabled
      | Full target_server => Full (with_enabled target_server (Some enabled))
      end
  | Full source_server =>
      match self with
      | Full target_server => Full (deep_merge target_server source_server)
      | Enabled enabled =>
          Full (match source_server.(mcp_enabled) with
                | None => with_enabled source_server (Some enabled)
                | Some _ => source_server
                end)
      end
  end.
#[export] Instance McpServerConfig_DeepMerge : DeepMerge McpServerConfig := McpServerConfig_deep_merge.

(** [FormatterEntry] *)
Record FormatterEntry := {
  fmt_disabled : option bool; fmt_command : list string;
  fmt_environment : option (gmap string string); fmt_extensions : list string
}.
Definition default_FormatterEntry : FormatterEntry := {|
  fmt_disabled := None; fmt_command := []; fmt_environment := None; fmt_extensions := []
|}.
Definition FormatterEntry_deep_merge (self other : FormatterEntry) : FormatterEntry := {|
  fmt_disabled := merge_option_replace self.(fmt_disabled) other.(fmt_disabled);
  fmt_command := merge_vec_replace_if_non_empty self.(fmt_command) other.(fmt_command);
  fmt_environment :=
    merge_option_map_overwrite_values self.(fmt_environment) other.(fmt_environment);
  fmt_extensions := merge_vec_replace_if_non_empty self.(fmt_extensions) other.(fmt_extensions)
|}.
#[export] Instance FormatterEntry_DeepMerge : DeepMerge FormatterEntry := FormatterEntry_deep_merge.

Inductive FormatterConfig :=
| FormatterDisabled (b : bool)
| FormatterEnabled (entries : gmap string FormatterEntry).

Definition FormatterConfig_deep_merge (self other : FormatterConfig) : FormatterConfig :=
  match other with
  | FormatterDisabled value => FormatterDisabled value
  | FormatterEnabled source_map =>
      match self with
      | FormatterDisabled _ => FormatterEnabled source_map
      | FormatterEnabled target_map => FormatterEnabled (merge_map_deep_values target_map source_map)
      end
  end.
#[export] Instance FormatterConfig_DeepMerge : DeepMerge FormatterConfig := FormatterConfig_deep_merge.

(** [LspServerConfig] *)
Record LspServerConfig := {
  lsp_command : list string; lsp_extensions : list string; lsp_disabled : option bool;
  lsp_env : option (gmap string string); lsp_initialization : option (gmap string Value)
}.
Definition default_LspServerConfig : LspServerConfig := {|
  lsp_command := []; lsp_extensions := []; lsp_disabled := None; lsp_env := None;
  lsp_initialization := None
|}.
Definition LspServerConfig_deep_merge (self other : LspServerConfig) : LspServerConfig := {|
  lsp_command := merge_vec_replace_if_non_empty self.(lsp_command) other.(lsp_command);
  lsp_extensions := merge_vec_replace_if_non_empty self.(lsp_extensions) other.(lsp_extensions);
  lsp_disabled := merge_option_replace self.(lsp_disabled) other.(lsp_disabled);
  lsp_env := merge_option_map_overwrite_values self.(lsp_env) other.(lsp_env);
  lsp_initialization := merge_option_json_map self.(lsp_initialization) other.(lsp_initialization)
|}.
#[export] Instance LspServerConfig_DeepMerge : DeepMerge LspServerConfig := LspServerConfig_deep_merge.

Inductive LspConfig :=
| LspDisabled (b : bool)
| LspEnabled (servers : gmap string LspServerConfig).

Definition LspConfig_deep_merge (self other : LspConfig) : LspConfig :=
  match other with
  | LspDisabled value => LspDisabled value
  | LspEnabled source_map =>
      match self with
      | LspDisabled _ => LspEnabled source_map
      | LspEnabled target_map => LspEnabled (merge_map_deep_values target_map source_map)
      end
  end.
#[export] Instance LspConfig_DeepMerge : DeepMerge LspConfig := LspConfig_deep_merge.

(** ** The smaller parts *)

(** [EnterpriseConfig] *)
Record EnterpriseConfig := {
  ent_url : option string; ent_managed_config_dir : option string
}.
Definition default_EnterpriseConfig : EnterpriseConfig := {|
  ent_url := None; ent_managed_config_dir := None
|}.
Definition EnterpriseConfig_deep_merge (self other : EnterpriseConfig) : EnterpriseConfig := {|
  ent_url := merge_option_replace self.(ent_url) other.(ent_url);
  ent_managed_config_dir :=
    merge_option_replace self.(ent_managed_config_dir) other.(ent_managed_config_dir)
|}.
#[export] Instance EnterpriseConfig_DeepMerge : DeepMerge EnterpriseConfig := EnterpriseConfig_deep_merge.

(** [CompactionConfig] *)
Record CompactionConfig := {
  comp_auto : option bool; comp_prune : option bool; comp_reserved : option N
}.
Definition default_CompactionConfig : CompactionConfig := {|
  comp_auto := None; comp_prune := None; comp_reserved := None
|}.
Definition CompactionConfig_deep_merge (self other : CompactionConfig) : CompactionConfig := {|
  comp_auto := merge_option_replace self.(comp_auto) other.(comp_auto);
  comp_prune := merge_option_replace self.(comp_prune) other.(comp_prune);
  comp_reserved := merge_option_replace self.(comp_reserved) other.(comp_reserved)
|}.
#[export] Instance CompactionConfig_DeepMerge : DeepMerge CompactionConfig := CompactionConfig_deep_merge.

(** [ExperimentalConfig] *)
Record ExperimentalConfig := {
  exp_disable_paste_summary : option bool; exp_batch_tool : option bool;
  exp_open_telemetry : option bool; exp_primary_tools : list string;
  exp_continue_loop_on_deny : option bool; exp_mcp_timeout : option N
}.
Definition default_ExperimentalConfig : ExperimentalConfig := {|
  exp_disable_paste_summary := None; exp_batch_tool := None; exp_open_telemetry := None;
  exp_primary_tools := []; exp_continue_loop_on_deny := None; exp_mcp_timeout := None
|}.
Definition ExperimentalConfig_deep_merge (self other : ExperimentalConfig) : ExperimentalConfig := {|
  exp_disable_paste_summary :=
    merge_option_replace self.(exp_disable_paste_summary) other.(exp_disable_paste_summary);
  exp_batch_tool := merge_option_replace self.(exp_batch_tool) other.(exp_batch_tool);
  exp_open_telemetry := merge_option_replace self.(exp_open_telemetry) other.(exp_open_telemetry);
  exp_primary_tools :=
    merge_vec_replace_if_non_empty self.(exp_primary_tools) other.(exp_primary_tools);
  exp_continue_loop_on_deny :=
    merge_option_replace self.(exp_continue_loop_on_deny) other.(exp_continue_loop_on_deny);
  exp_mcp_timeout := merge_option_replace self.(exp_mcp_timeout) other.(exp_mcp_timeout)
|}.
#[export] Instance ExperimentalConfig_DeepMerge : DeepMerge ExperimentalConfig := ExperimentalConfig_deep_merge.

(** [WebSearchConfig] *)
Record WebSearchConfig := {
  ws_base_url : option string; ws_endpoint : option string; ws_method : option string;
  ws_default_search_type : option string; ws_default_num_results : option N;
  ws_options : option (gmap string Value)
}.
Definition default_WebSearchConfig : WebSearchConfig := {|
  ws_base_url := None; ws_endpoint := None; ws_method := None; ws_default_search_type := None;
  ws_default_num_results := None; ws_options := None
|}.
Definition WebSearchConfig_deep_merge (self other : WebSearchConfig) : WebSearchConfig := {|
  ws_base_url := merge_option_replace self.(ws_base_url) other.(ws_base_url);
  ws_endpoint := merge_option_replace self.(ws_endpoint) other.(ws_endpoint);
  ws_method := merge_option_replace self.(ws_method) other.(ws_method);
  ws_default_search_type :=
    merge_option_replace self.(ws_default_search_type) other.(ws_default_search_type);
  ws_default_num_results :=
    merge_option_replace self.(ws_default_num_results) other.(ws_default_num_results);
  ws_options := merge_option_map_overwrite_values self.(ws_options) other.(ws_options)
|}.
#[export] Instance WebSearchConfig_DeepMerge : DeepMerge WebSearchConfig := WebSearchConfig_deep_merge.

(** [MultimodalLimitsConfig] *)
Record MultimodalLimitsConfig := {
  ml_max_input_bytes : option N; ml_max_attachments_per_prompt : option N
}.
Definition default_MultimodalLimitsConfig : MultimodalLimitsConfig := {|
  ml_max_input_bytes := None; ml_max_attachments_per_prompt := None
|}.
Definition MultimodalLimitsConfig_deep_merge (self other : MultimodalLimitsConfig) : MultimodalLimitsConfig := {|
  ml_max_input_bytes := merge_option_replace self.(ml_max_input_bytes) other.(ml_max_input_bytes);
  ml_max_attachments_per_prompt :=
    merge_option_replace self.(ml_max_attachments_per_prompt) other.(ml_max_attachments_per_prompt)
|}.
#[export] Instance MultimodalLimitsConfig_DeepMerge : DeepMerge MultimodalLimitsConfig := MultimodalLimitsConfig_deep_merge.

(** [MultimodalAttachmentPolicyConfig] *)
Record MultimodalAttachmentPolicyConfig := {
  mpol_allow_audio_input : option bool; mpol_allow_image_input : option bool;
  mpol_allow_file_input : option bool
}.
Definition default_MultimodalAttachmentPolicyConfig : MultimodalAttachmentPolicyConfig := {|
  mpol_allow_audio_input := None; mpol_allow_image_input := None; mpol_allow_file_input := None
|}.
Definition MultimodalAttachmentPolicyConfig_deep_merge (self other : MultimodalAttachmentPolicyConfig) : MultimodalAttachmentPolicyConfig := {|
  mpol_allow_audio_input :=
    merge_option_replace self.(mpol_allow_audio_input) other.(mpol_allow_audio_input);
  mpol_allow_image_input :=
    merge_option_replace self.(mpol_allow_image_input) other.(mpol_allow_image_input);
  mpol_allow_file_input :=
    merge_option_replace self.(mpol_allow_file_input) other.(mpol_allow_file_input)
|}.
#[export] Instance MultimodalAttachmentPolicyConfig_DeepMerge : DeepMerge MultimodalAttachmentPolicyConfig := MultimodalAttachmentPolicyConfig_deep_merge.

(** [VoiceCommandConfig] *)
Record VoiceCommandConfig := {
  vc_command : list string; vc_env : gmap string string
}.
Definition default_VoiceCommandConfig : VoiceCommandConfig := {|
  vc_command := []; vc_env := ∅
|}.
Definition VoiceCommandConfig_deep_merge (self other : VoiceCommandConfig) : VoiceCommandConfig := {|
  vc_command := merge_vec_replace_if_non_empty self.(vc_command) other.(vc_command);
  vc_env := merge_map_overwrite_values self.(vc_env) other.(vc_env)
|}.
#[export] Instance VoiceCommandConfig_DeepMerge : DeepMerge VoiceCommandConfig := VoiceCommandConfig_deep_merge.

(** [VoiceConfig] *)
Record VoiceConfig := {
  voice_duration_seconds : option N; voice_attach_audio : option bool;
  voice_mime : option string; voice_language : option string;
  voice_record : option VoiceCommandConfig; voice_transcribe : option VoiceCommandConfig
}.
Definition default_VoiceConfig : VoiceConfig := {|
  voice_duration_seconds := None; voice_attach_audio := None; voice_mime := None;
  voice_language := None; voice_record := None; voice_transcribe := None
|}.
Definition VoiceConfig_deep_merge (self other : VoiceConfig) : VoiceConfig := {|
  voice_duration_seconds :=
    merge_option_replace self.(voice_duration_seconds) other.(voice_duration_seconds);
  voice_attach_audio := merge_option_replace self.(voice_attach_audio) other.(voice_attach_audio);
  voice_mime := merge_option_replace self.(voice_mime) other.(voice_mime);
  voice_language := merge_option_replace self.(voice_language) other.(voice_language);
  voice_record := merge_option_deep self.(voice_record) other.(voice_record);
  voice_transcribe := merge_option_deep self.(voice_transcribe) other.(voice_transcribe)
|}.
#[export] Instance VoiceConfig_DeepMerge : DeepMerge VoiceConfig := VoiceConfig_deep_merge.

(** [MultimodalConfig] *)
Record MultimodalConfig := {
  mm_voice : option VoiceConfig; mm_limits : option MultimodalLimitsConfig;
  mm_policy : option MultimodalAttachmentPolicyConfig
}.
Definition default_MultimodalConfig : MultimodalConfig := {|
  mm_voice := None; mm_limits := None; mm_policy := None
|}.
Definition MultimodalConfig_deep_merge (self other : MultimodalConfig) : MultimodalConfig := {|
  mm_voice := merge_option_deep self.(mm_voice) other.(mm_voice);
  mm_limits := merge_option_deep self.(mm_limits) other.(mm_limits);
  mm_policy := merge_option_deep self.(mm_policy) other.(mm_policy)
|}.
#[export] Instance MultimodalConfig_DeepMerge : DeepMerge MultimodalConfig := MultimodalConfig_deep_merge.

(** [ExternalAdapterEntryConfig] *)
Record ExternalAdapterEntryConfig := {
  ae_enabled : option bool; ae_source : option string; ae_secret_ref : option string;
  ae_default_workspace : option string; ae_route_policy_id : option string;
  ae_allow_session_run : option bool; ae_allowed_workspaces : list string
}.
Definition default_ExternalAdapterEntryConfig : ExternalAdapterEntryConfig := {|
  ae_enabled := None; ae_source := None; ae_secret_ref := None; ae_default_workspace := None;
  ae_route_policy_id := None; ae_allow_session_run := None; ae_allowed_workspaces := []
|}.
Definition ExternalAdapterEntryConfig_deep_merge (self other : ExternalAdapterEntryConfig) : ExternalAdapterEntryConfig := {|
  ae_enabled := merge_option_replace self.(ae_enabled) other.(ae_enabled);
  ae_source := merge_option_replace self.(ae_source) other.(ae_source);
  ae_secret_ref := merge_option_replace self.(ae_secret_ref) other.(ae_secret_ref);
  ae_default_workspace :=
    merge_option_replace self.(ae_default_workspace) other.(ae_default_workspace);
  ae_route_policy_id := merge_option_replace self.(ae_route_policy_id) other.(ae_route_policy_id);
  ae_allow_session_run :=
    merge_option_replace self.(ae_allow_session_run) other.(ae_allow_session_run);
  ae_allowed_workspaces :=
    merge_vec_replace_if_non_empty self.(ae_allowed_workspaces) other.(ae_allowed_workspaces)
|}.
#[export] Instance ExternalAdapterEntryConfig_DeepMerge : DeepMerge ExternalAdapterEntryConfig := ExternalAdapterEntryConfig_deep_merge.

(** [ExternalAdapterReplayConfig] *)
Record ExternalAdapterReplayConfig := {
  ar_retention_seconds : option N; ar_nonce_window_seconds : option N
}.
Definition default_ExternalAdapterReplayConfig : ExternalAdapterReplayConfig := {|
  ar_retention_seconds := None; ar_nonce_window_seconds := None
|}.
Definition ExternalAdapterReplayConfig_deep_merge (self other : ExternalAdapterReplayConfig) : ExternalAdapterReplayConfig := {|
  ar_retention_seconds :=
    merge_option_replace self.(ar_retention_seconds) other.(ar_retention_seconds);
  ar_nonce_window_seconds :=
    merge_option_replace self.(ar_nonce_window_seconds) other.(ar_nonce_window_seconds)
|}.
#[export] Instance ExternalAdapterReplayConfig_DeepMerge : DeepMerge ExternalAdapterReplayConfig := ExternalAdapterReplayConfig_deep_merge.

(** [ExternalAdapterConfig] *)
Record ExternalAdapterConfig := {
  ea_adapters : gmap string ExternalAdapterEntryConfig;
  ea_replay : option ExternalAdapterReplayConfig
}.
Definition default_ExternalAdapterConfig : ExternalAdapterConfig := {|
  ea_adapters := ∅; ea_replay := None
|}.
Definition ExternalAdapterConfig_deep_merge (self other : ExternalAdapterConfig) : ExternalAdapterConfig := {|
  ea_adapters := merge_map_deep_values self.(ea_adapters) other.(ea_adapters);
  ea_replay := merge_option_deep self.(ea_replay) other.(ea_replay)
|}.
#[export] Instance ExternalAdapterConfig_DeepMerge : DeepMerge ExternalAdapterConfig := ExternalAdapterConfig_deep_merge.

(** The [match] at the end of [UiPreferencesConfig::deep_merge]: the empty
    string clears the model. *)
Definition merge_web_model (target source : option string) : option string :=
  match source with
  | Some model => if bool_decide (model = EmptyString) then None else Some model
  | None => target
  end.

(** [UiPreferencesConfig] *)
Record UiPreferencesConfig := {
  ui_theme : option string; ui_web_theme : option string; ui_web_mode : option string;
  ui_web_model : option string; ui_show_header : option bool; ui_show_scrollbar : option bool;
  ui_tips_hidden : option bool; ui_show_timestamps : option bool;
  ui_show_thinking : option bool; ui_show_tool_details : option bool;
  ui_message_density : option string; ui_semantic_highlight : option bool
}.
Definition default_UiPreferencesConfig : UiPreferencesConfig := {|
  ui_theme := None; ui_web_theme := None; ui_web_mode := None; ui_web_model := None;
  ui_show_header := None; ui_show_scrollbar := None; ui_tips_hidden := None;
  ui_show_timestamps := None; ui_show_thinking := None; ui_show_tool_details := None;
  ui_message_density := None; ui_semantic_highlight := None
|}.
Definition UiPreferencesConfig_deep_merge (self other : UiPreferencesConfig) : UiPreferencesConfig := {|
  ui_theme := merge_option_replace self.(ui_theme) other.(ui_theme);
  ui_web_theme := merge_option_replace self.(ui_web_theme) other.(ui_web_theme);
  ui_web_mode := merge_option_replace self.(ui_web_mode) other.(ui_web_mode);
  ui_web_model := merge_web_model self.(ui_web_model) other.(ui_web_model);
  ui_show_header := merge_option_replace self.(ui_show_header) other.(ui_show_header);
  ui_show_scrollbar := merge_option_replace self.(ui_show_scrollbar) other.(ui_show_scrollbar);
  ui_tips_hidden := merge_option_replace self.(ui_tips_hidden) other.(ui_tips_hidden);
  ui_show_timestamps := merge_option_replace self.(ui_show_timestamps) other.(ui_show_timestamps);
  ui_show_thinking := merge_option_replace self.(ui_show_thinking) other.(ui_show_thinking);
  ui_show_tool_details :=
    merge_option_replace self.(ui_show_tool_details) other.(ui_show_tool_details);
  ui_message_density := merge_option_replace self.(ui_message_density) other.(ui_message_density);
  ui_semantic_highlight :=
    merge_option_replace self.(ui_semantic_highlight) other.(ui_semantic_highlight)
|}.
#[export] Instance UiPreferencesConfig_DeepMerge : DeepMerge UiPreferencesConfig := UiPreferencesConfig_deep_merge.

(** ** The whole configuration *)

Inductive ShareMode := ShareManual | ShareAuto | ShareDisabled.
Inductive AutoUpdateMode := UpdateBoolean (b : bool) | UpdateNotify (s : string).
Inductive LayoutMode := LayoutAuto | LayoutStretch.
(** [agendao_types::RepairPolicy] *)
Inductive RepairPolicy := Permissive | Strict.

(** [Config] *)
Record Config := {
  cfg_schema : option string; cfg_theme : option string; cfg_keybinds : option KeybindsConfig;
  cfg_log_level : option string; cfg_tui : option TuiConfig; cfg_server : option ServerConfig;
  cfg_command : option (gmap string CommandConfig); cfg_skills : option SkillsConfig;
  cfg_docs : option DocsConfig; cfg_task_category_path : option string;
  cfg_skill_paths : gmap string string; cfg_watcher : option WatcherConfig;
  cfg_plugin : gmap string PluginConfig; cfg_plugin_paths : gmap string string;
  cfg_tool_imports : list string; cfg_snapshot : option bool; cfg_share : option ShareMode;
  cfg_autoupdate : option AutoUpdateMode; cfg_disabled_providers : list string;
  cfg_enabled_providers : list string; cfg_disabled_tools : list string;
  cfg_disabled_plugins : list string; cfg_model : option string;
  cfg_small_model : option string; cfg_default_agent : option string;
  cfg_username : option string; cfg_agent : option AgentConfigs;
  cfg_provider : option (gmap string ProviderConfig);
  cfg_mcp : option (gmap string McpServerConfig); cfg_formatter : option FormatterConfig;
  cfg_lsp : option LspConfig; cfg_instructions : list string; cfg_layout : option LayoutMode;
  cfg_ui_preferences : option UiPreferencesConfig; cfg_permission : option PermissionConfig;
  cfg_web_search : option WebSearchConfig; cfg_multimodal : option MultimodalConfig;
  cfg_external_adapter : option ExternalAdapterConfig;
  cfg_enterprise : option EnterpriseConfig; cfg_compaction : option CompactionConfig;
  cfg_repair_policy : option RepairPolicy; cfg_experimental : option ExperimentalConfig;
  cfg_env : option (gmap string string); cfg_runtime_budget : option RuntimeBudgetConfig
}.
Definition default_Config : Config := {|
  cfg_schema := None; cfg_theme := None; cfg_keybinds := None; cfg_log_level := None;
  cfg_tui := None; cfg_server := None; cfg_command := None; cfg_skills := None;
  cfg_docs := None; cfg_task_category_path := None; cfg_skill_paths := ∅; cfg_watcher := None;
  cfg_plugin := ∅; cfg_plugin_paths := ∅; cfg_tool_imports := []; cfg_snapshot := None;
  cfg_share := None; cfg_autoupdate := None; cfg_disabled_providers := [];
  cfg_enabled_providers := []; cfg_disabled_tools := []; cfg_disabled_plugins := [];
  cfg_model := None; cfg_small_model := None; cfg_default_agent := None; cfg_username := None;
  cfg_agent := None; cfg_provider := None; cfg_mcp := None; cfg_formatter := None;
  cfg_lsp := None; cfg_instructions := []; cfg_layout := None; cfg_ui_preferences := None;
  cfg_permission := None; cfg_web_search := None; cfg_multimodal := None;
  cfg_external_adapter := None; cfg_enterprise := None; cfg_compaction := None;
  cfg_repair_policy := None; cfg_experimental := None; cfg_env := None;
  cfg_runtime_budget := None
|}.
Definition Config_merge (self other : Config) : Config := {|
  cfg_schema := merge_option_replace self.(cfg_schema) other.(cfg_schema);
  cfg_theme := merge_option_replace self.(cfg_theme) other.(cfg_theme);
  cfg_keybinds := merge_option_deep self.(cfg_keybinds) other.(cfg_keybinds);
  cfg_log_level := merge_option_replace self.(cfg_log_level) other.(cfg_log_level);
  cfg_tui := merge_option_deep self.(cfg_tui) other.(cfg_tui);
  cfg_server := merge_option_deep self.(cfg_server) other.(cfg_server);
  cfg_command := merge_option_map_deep_values self.(cfg_command) other.(cfg_command);
  cfg_skills := merge_option_deep self.(cfg_skills) other.(cfg_skills);
  cfg_docs := merge_option_deep self.(cfg_docs) other.(cfg_docs);
  cfg_task_category_path :=
    merge_option_replace self.(cfg_task_category_path) other.(cfg_task_category_path);
  cfg_skill_paths := merge_map_overwrite_values self.(cfg_skill_paths) other.(cfg_skill_paths);
  cfg_watcher := merge_option_deep self.(cfg_watcher) other.(cfg_watcher);
  cfg_plugin := merge_map_overwrite_values self.(cfg_plugin) other.(cfg_plugin);
  cfg_plugin_paths := merge_map_overwrite_values self.(cfg_plugin_paths) other.(cfg_plugin_paths);
  cfg_tool_imports := append_unique_keep_order self.(cfg_tool_imports) other.(cfg_tool_imports);
  cfg_snapshot := merge_option_replace self.(cfg_snapshot) other.(cfg_snapshot);
  cfg_share := merge_option_replace self.(cfg_share) other.(cfg_share);
  cfg_autoupdate := merge_option_replace self.(cfg_autoupdate) other.(cfg_autoupdate);
  cfg_disabled_providers :=
    merge_vec_replace_if_non_empty self.(cfg_disabled_providers) other.(cfg_disabled_providers);
  cfg_enabled_providers :=
    merge_vec_replace_if_non_empty self.(cfg_enabled_providers) other.(cfg_enabled_providers);
  cfg_disabled_tools :=
    merge_vec_replace_if_non_empty self.(cfg_disabled_tools) other.(cfg_disabled_tools);
  cfg_disabled_plugins :=
    merge_vec_replace_if_non_empty self.(cfg_disabled_plugins) other.(cfg_disabled_plugins);
  cfg_model := merge_option_replace self.(cfg_model) other.(cfg_model);
  cfg_small_model := merge_option_replace self.(cfg_small_model) other.(cfg_small_model);
  cfg_default_agent := merge_option_replace self.(cfg_default_agent) other.(cfg_default_agent);
  cfg_username := merge_option_replace self.(cfg_username) other.(cfg_username);
  cfg_agent := merge_option_deep self.(cfg_agent) other.(cfg_agent);
  cfg_provider := merge_option_map_deep_values self.(cfg_provider) other.(cfg_provider);
  cfg_mcp := merge_option_map_deep_values self.(cfg_mcp) other.(cfg_mcp);
  cfg_formatter := merge_option_deep self.(cfg_formatter) other.(cfg_formatter);
  cfg_lsp := merge_option_deep self.(cfg_lsp) other.(cfg_lsp);
  cfg_instructions := append_unique_keep_order self.(cfg_instructions) other.(cfg_instructions);
  cfg_layout := merge_option_replace self.(cfg_layout) other.(cfg_layout);
  cfg_ui_preferences := merge_option_deep self.(cfg_ui_preferences) other.(cfg_ui_preferences);
  cfg_permission := merge_option_deep self.(cfg_permission) other.(cfg_permission);
  cfg_web_search := merge_option_deep self.(cfg_web_search) other.(cfg_web_search);
  cfg_multimodal := merge_option_deep self.(cfg_multimodal) other.(cfg_multimodal);
  cfg_external_adapter :=
    merge_option_deep self.(cfg_external_adapter) other.(cfg_external_adapter);
  cfg_enterprise := merge_option_deep self.(cfg_enterprise) other.(cfg_enterprise);
  cfg_compaction := merge_option_deep self.(cfg_compaction) other.(cfg_compaction);
  cfg_repair_policy := merge_option_replace self.(cfg_repair_policy) other.(cfg_repair_policy);
  cfg_experimental := merge_option_deep self.(cfg_experimental) other.(cfg_experimental);
  cfg_env := merge_option_map_overwrite_values self.(cfg_env) other.(cfg_env);
  cfg_runtime_budget :=
    if has_value other.(cfg_runtime_budget) then other.(cfg_runtime_budget) else
      self.(cfg_runtime_budget)
|}.

(** [RuntimeBudgetConfig::from_config] *)
Definition from_config (config : option Config) : RuntimeBudgetConfig :=
  default default_RuntimeBudgetConfig (config ≫= cfg_runtime_budget).

(** ** Assignments to one field *)

Definition set_task_category_path (x : option string) (c : Config) : Config := {|
  cfg_schema := cfg_schema c; cfg_theme := cfg_theme c; cfg_keybinds := cfg_keybinds c;
  cfg_log_level := cfg_log_level c; cfg_tui := cfg_tui c; cfg_server := cfg_server c;
  cfg_command := cfg_command c; cfg_skills := cfg_skills c; cfg_docs := cfg_docs c;
  cfg_task_category_path := x; cfg_skill_paths := cfg_skill_paths c;
  cfg_watcher := cfg_watcher c; cfg_plugin := cfg_plugin c;
  cfg_plugin_paths := cfg_plugin_paths c; cfg_tool_imports := cfg_tool_imports c;
  cfg_snapshot := cfg_snapshot c; cfg_share := cfg_share c; cfg_autoupdate := cfg_autoupdate c;
  cfg_disabled_providers := cfg_disabled_providers c;
  cfg_enabled_providers := cfg_enabled_providers c; cfg_disabled_tools := cfg_disabled_tools c;
  cfg_disabled_plugins := cfg_disabled_plugins c; cfg_model := cfg_model c;
  cfg_small_model := cfg_small_model c; cfg_default_agent := cfg_default_agent c;
  cfg_username := cfg_username c; cfg_agent := cfg_agent c; cfg_provider := cfg_provider c;
  cfg_mcp := cfg_mcp c; cfg_formatter := cfg_formatter c; cfg_lsp := cfg_lsp c;
  cfg_instructions := cfg_instructions c; cfg_layout := cfg_layout c;
  cfg_ui_preferences := cfg_ui_preferences c; cfg_permission := cfg_permission c;
  cfg_web_search := cfg_web_search c; cfg_multimodal := cfg_multimodal c;
  cfg_external_adapter := cfg_external_adapter c; cfg_enterprise := cfg_enterprise c;
  cfg_compaction := cfg_compaction c; cfg_repair_policy := cfg_repair_policy c;
  cfg_experimental := cfg_experimental c; cfg_env := cfg_env c;
  cfg_runtime_budget := cfg_runtime_budget c
|}.
Definition set_tool_imports (x : list string) (c : Config) : Config := {|
  cfg_schema := cfg_schema c; cfg_theme := cfg_theme c; cfg_keybinds := cfg_keybinds c;
  cfg_log_level := cfg_log_level c; cfg_tui := cfg_tui c; cfg_server := cfg_server c;
  cfg_command := cfg_command c; cfg_skills := cfg_skills c; cfg_docs := cfg_docs c;
  cfg_task_category_path := cfg_task_category_path c; cfg_skill_paths := cfg_skill_paths c;
  cfg_watcher := cfg_watcher c; cfg_plugin := cfg_plugin c;
  cfg_plugin_paths := cfg_plugin_paths c; cfg_tool_imports := x;
  cfg_snapshot := cfg_snapshot c; cfg_share := cfg_share c; cfg_autoupdate := cfg_autoupdate c;
  cfg_disabled_providers := cfg_disabled_providers c;
  cfg_enabled_providers := cfg_enabled_providers c; cfg_disabled_tools := cfg_disabled_tools c;
  cfg_disabled_plugins := cfg_disabled_plugins c; cfg_model := cfg_model c;
  cfg_small_model := cfg_small_model c; cfg_default_agent := cfg_default_agent c;
  cfg_username := cfg_username c; cfg_agent := cfg_agent c; cfg_provider := cfg_provider c;
  cfg_mcp := cfg_mcp c; cfg_formatter := cfg_formatter c; cfg_lsp := cfg_lsp c;
  cfg_instructions := cfg_instructions c; cfg_layout := cfg_layout c;
  cfg_ui_preferences := cfg_ui_preferences c; cfg_permission := cfg_permission c;
  cfg_web_search := cfg_web_search c; cfg_multimodal := cfg_multimodal c;
  cfg_external_adapter := cfg_external_adapter c; cfg_enterprise := cfg_enterprise c;
  cfg_compaction := cfg_compaction c; cfg_repair_policy := cfg_repair_policy c;
  cfg_experimental := cfg_experimental c; cfg_env := cfg_env c;
  cfg_runtime_budget := cfg_runtime_budget c
|}.
Definition set_command (x : option (gmap string CommandConfig)) (c : Config) : Config := {|
  cfg_schema := cfg_schema c; cfg_theme := cfg_theme c; cfg_keybinds := cfg_keybinds c;
  cfg_log_level := cfg_log_level c; cfg_tui := cfg_tui c; cfg_server := cfg_server c;
  cfg_command := x; cfg_skills := cfg_skills c; cfg_docs := cfg_docs c;
  cfg_task_category_path := cfg_task_category_path c; cfg_skill_paths := cfg_skill_paths c;
  cfg_watcher := cfg_watcher c; cfg_plugin := cfg_plugin c;
  cfg_plugin_paths := cfg_plugin_paths c; cfg_tool_imports := cfg_tool_imports c;
  cfg_snapshot := cfg_snapshot c; cfg_share := cfg_share c; cfg_autoupdate := cfg_autoupdate c;
  cfg_disabled_providers := cfg_disabled_providers c;
  cfg_enabled_providers := cfg_enabled_providers c; cfg_disabled_tools := cfg_disabled_tools c;
  cfg_disabled_plugins := cfg_disabled_plugins c; cfg_model := cfg_model c;
  cfg_small_model := cfg_small_model c; cfg_default_agent := cfg_default_agent c;
  cfg_username := cfg_username c; cfg_agent := cfg_agent c; cfg_provider := cfg_provider c;
  cfg_mcp := cfg_mcp c; cfg_formatter := cfg_formatter c; cfg_lsp := cfg_lsp c;
  cfg_instructions := cfg_instructions c; cfg_layout := cfg_layout c;
  cfg_ui_preferences := cfg_ui_preferences c; cfg_permission := cfg_permission c;
  cfg_web_search := cfg_web_search c; cfg_multimodal := cfg_multimodal c;
  cfg_external_adapter := cfg_external_adapter c; cfg_enterprise := cfg_enterprise c;
  cfg_compaction := cfg_compaction c; cfg_repair_policy := cfg_repair_policy c;
  cfg_experimental := cfg_experimental c; cfg_env := cfg_env c;
  cfg_runtime_budget := cfg_runtime_budget c
|}.
Definition set_agent (x : option AgentConfigs) (c : Config) : Config := {|
  cfg_schema := cfg_schema c; cfg_theme := cfg_theme c; cfg_keybinds := cfg_keybinds c;
  cfg_log_level := cfg_log_level c; cfg_tui := cfg_tui c; cfg_server := cfg_server c;
  cfg_command := cfg_command c; cfg_skills := cfg_skills c; cfg_docs := cfg_docs c;
  cfg_task_category_path := cfg_task_category_path c; cfg_skill_paths := cfg_skill_paths c;
  cfg_watcher := cfg_watcher c; cfg_plugin := cfg_plugin c;
  cfg_plugin_paths := cfg_plugin_paths c; cfg_tool_imports := cfg_tool_imports c;
  cfg_snapshot := cfg_snapshot c; cfg_share := cfg_share c; cfg_autoupdate := cfg_autoupdate c;
  cfg_disabled_providers := cfg_disabled_providers c;
  cfg_enabled_providers := cfg_enabled_providers c; cfg_disabled_tools := cfg_disabled_tools c;
  cfg_disabled_plugins := cfg_disabled_plugins c; cfg_model := cfg_model c;
  cfg_small_model := cfg_small_model c; cfg_default_agent := cfg_default_agent c;
  cfg_username := cfg_username c; cfg_agent := x; cfg_provider := cfg_provider c;
  cfg_mcp := cfg_mcp c; cfg_formatter := cfg_formatter c; cfg_lsp := cfg_lsp c;
  cfg_instructions := cfg_instructions c; cfg_layout := cfg_layout c;
  cfg_ui_preferences := cfg_ui_preferences c; cfg_permission := cfg_permission c;
  cfg_web_search := cfg_web_search c; cfg_multimodal := cfg_multimodal c;
  cfg_external_adapter := cfg_external_adapter c; cfg_enterprise := cfg_enterprise c;
  cfg_compaction := cfg_compaction c; cfg_repair_policy := cfg_repair_policy c;
  cfg_experimental := cfg_experimental c; cfg_env := cfg_env c;
  cfg_runtime_budget := cfg_runtime_budget c
|}.
Definition set_plugin (x : gmap string PluginConfig) (c : Config) : Config := {|
  cfg_schema := cfg_schema c; cfg_theme := cfg_theme c; cfg_keybinds := cfg_keybinds c;
  cfg_log_level := cfg_log_level c; cfg_tui := cfg_tui c; cfg_server := cfg_server c;
  cfg_command := cfg_command c; cfg_skills := cfg_skills c; cfg_docs := cfg_docs c;
  cfg_task_category_path := cfg_task_category_path c; cfg_skill_paths := cfg_skill_paths c;
  cfg_watcher := cfg_watcher c; cfg_plugin := x; cfg_plugin_paths := cfg_plugin_paths c;
  cfg_tool_imports := cfg_tool_imports c; cfg_snapshot := cfg_snapshot c;
  cfg_share := cfg_share c; cfg_autoupdate := cfg_autoupdate c;
  cfg_disabled_providers := cfg_disabled_providers c;
  cfg_enabled_providers := cfg_enabled_providers c; cfg_disabled_tools := cfg_disabled_tools c;
  cfg_disabled_plugins := cfg_disabled_plugins c; cfg_model := cfg_model c;
  cfg_small_model := cfg_small_model c; cfg_default_agent := cfg_default_agent c;
  cfg_username := cfg_username c; cfg_agent := cfg_agent c; cfg_provider := cfg_provider c;
  cfg_mcp := cfg_mcp c; cfg_formatter := cfg_formatter c; cfg_lsp := cfg_lsp c;
  cfg_instructions := cfg_instructions c; cfg_layout := cfg_layout c;
  cfg_ui_preferences := cfg_ui_preferences c; cfg_permission := cfg_permission c;
  cfg_web_search := cfg_web_search c; cfg_multimodal := cfg_multimodal c;
  cfg_external_adapter := cfg_external_adapter c; cfg_enterprise := cfg_enterprise c;
  cfg_compaction := cfg_compaction c; cfg_repair_policy := cfg_repair_policy c;
  cfg_experimental := cfg_experimental c; cfg_env := cfg_env c;
  cfg_runtime_budget := cfg_runtime_budget c
|}.
Definition set_permission (x : option PermissionConfig) (c : Config) : Config := {|
  cfg_schema := cfg_schema c; cfg_theme := cfg_theme c; cfg_keybinds := cfg_keybinds c;
  cfg_log_level := cfg_log_level c; cfg_tui := cfg_tui c; cfg_server := cfg_server c;
  cfg_command := cfg_command c; cfg_skills := cfg_skills c; cfg_docs := cfg_docs c;
  cfg_task_category_path := cfg_task_category_path c; cfg_skill_paths := cfg_skill_paths c;
  cfg_watcher := cfg_watcher c; cfg_plugin := cfg_plugin c;
  cfg_plugin_paths := cfg_plugin_paths c; cfg_tool_imports := cfg_tool_imports c;
  cfg_snapshot := cfg_snapshot c; cfg_share := cfg_share c; cfg_autoupdate := cfg_autoupdate c;
  cfg_disabled_providers := cfg_disabled_providers c;
  cfg_enabled_providers := cfg_enabled_providers c; cfg_disabled_tools := cfg_disabled_tools c;
  cfg_disabled_plugins := cfg_disabled_plugins c; cfg_model := cfg_model c;
  cfg_small_model := cfg_small_model c; cfg_default_agent := cfg_default_agent c;
  cfg_username := cfg_username c; cfg_agent := cfg_agent c; cfg_provider := cfg_provider c;
  cfg_mcp := cfg_mcp c; cfg_formatter := cfg_formatter c; cfg_lsp := cfg_lsp c;
  cfg_instructions := cfg_instructions c; cfg_layout := cfg_layout c;
  cfg_ui_preferences := cfg_ui_preferences c; cfg_permission := x;
  cfg_web_search := cfg_web_search c; cfg_multimodal := cfg_multimodal c;
  cfg_external_adapter := cfg_external_adapter c; cfg_enterprise := cfg_enterprise c;
  cfg_compaction := cfg_compaction c; cfg_repair_policy := cfg_repair_policy c;
  cfg_experimental := cfg_experimental c; cfg_env := cfg_env c;
  cfg_runtime_budget := cfg_runtime_budget c
|}.
Definition set_username (x : option string) (c : Config) : Config := {|
  cfg_schema := cfg_schema c; cfg_theme := cfg_theme c; cfg_keybinds := cfg_keybinds c;
  cfg_log_level := cfg_log_level c; cfg_tui := cfg_tui c; cfg_server := cfg_server c;
  cfg_command := cfg_command c; cfg_skills := cfg_skills c; cfg_docs := cfg_docs c;
  cfg_task_category_path := cfg_task_category_path c; cfg_skill_paths := cfg_skill_paths c;
  cfg_watcher := cfg_watcher c; cfg_plugin := cfg_plugin c;
  cfg_plugin_paths := cfg_plugin_paths c; cfg_tool_imports := cfg_tool_imports c;
  cfg_snapshot := cfg_snapshot c; cfg_share := cfg_share c; cfg_autoupdate := cfg_autoupdate c;
  cfg_disabled_providers := cfg_disabled_providers c;
  cfg_enabled_providers := cfg_enabled_providers c; cfg_disabled_tools := cfg_disabled_tools c;
  cfg_disabled_plugins := cfg_disabled_plugins c; cfg_model := cfg_model c;
  cfg_small_model := cfg_small_model c; cfg_default_agent := cfg_default_agent c;
  cfg_username := x; cfg_agent := cfg_agent c; cfg_provider := cfg_provider c;
  cfg_mcp := cfg_mcp c; cfg_formatter := cfg_formatter c; cfg_lsp := cfg_lsp c;
  cfg_instructions := cfg_instructions c; cfg_layout := cfg_layout c;
  cfg_ui_preferences := cfg_ui_preferences c; cfg_permission := cfg_permission c;
  cfg_web_search := cfg_web_search c; cfg_multimodal := cfg_multimodal c;
  cfg_external_adapter := cfg_external_adapter c; cfg_enterprise := cfg_enterprise c;
  cfg_compaction := cfg_compaction c; cfg_repair_policy := cfg_repair_policy c;
  cfg_experimental := cfg_experimental c; cfg_env := cfg_env c;
  cfg_runtime_budget := cfg_runtime_budget c
|}.
Definition set_compaction (x : option CompactionConfig) (c : Config) : Config := {|
  cfg_schema := cfg_schema c; cfg_theme := cfg_theme c; cfg_keybinds := cfg_keybinds c;
  cfg_log_level := cfg_log_level c; cfg_tui := cfg_tui c; cfg_server := cfg_server c;
  cfg_command := cfg_command c; cfg_skills := cfg_skills c; cfg_docs := cfg_docs c;
  cfg_task_category_path := cfg_task_category_path c; cfg_skill_paths := cfg_skill_paths c;
  cfg_watcher := cfg_watcher c; cfg_plugin := cfg_plugin c;
  cfg_plugin_paths := cfg_plugin_paths c; cfg_tool_imports := cfg_tool_imports c;
  cfg_snapshot := cfg_snapshot c; cfg_share := cfg_share c; cfg_autoupdate := cfg_autoupdate c;
  cfg_disabled_providers := cfg_disabled_providers c;
  cfg_enabled_providers := cfg_enabled_providers c; cfg_disabled_tools := cfg_disabled_tools c;
  cfg_disabled_plugins := cfg_disabled_plugins c; cfg_model := cfg_model c;
  cfg_small_model := cfg_small_model c; cfg_default_agent := cfg_default_agent c;
  cfg_username := cfg_username c; cfg_agent := cfg_agent c; cfg_provider := cfg_provider c;
  cfg_mcp := cfg_mcp c; cfg_formatter := cfg_formatter c; cfg_lsp := cfg_lsp c;
  cfg_instructions := cfg_instructions c; cfg_layout := cfg_layout c;
  cfg_ui_preferences := cfg_ui_preferences c; cfg_permission := cfg_permission c;
  cfg_web_search := cfg_web_search c; cfg_multimodal := cfg_multimodal c;
  cfg_external_adapter := cfg_external_adapter c; cfg_enterprise := cfg_enterprise c;
  cfg_compaction := x; cfg_repair_policy := cfg_repair_policy c;
  cfg_experimental := cfg_experimental c; cfg_env := cfg_env c;
  cfg_runtime_budget := cfg_runtime_budget c
|}.
Definition set_compaction_auto (x : option bool) (c : CompactionConfig) : CompactionConfig := {|
  comp_auto := x; comp_prune := comp_prune c; comp_reserved := comp_reserved c
|}.
Definition set_compaction_prune (x : option bool) (c : CompactionConfig) : CompactionConfig := {|
  comp_auto := comp_auto c; comp_prune := x; comp_reserved := comp_reserved c
|}.
