(* ===== verification/ConfigMerge.v ===== *)
(** * Laws of the merge

    What [ConfigSchema] promises of layers of configuration: the value in force
    of a setting is that of the last layer that sets it ([Config_settings]
    lists the settings), layers may be grouped ([LawfulMerge]) unless a
    later one undoes the kind of a value ([compatible]), and a layer that is merged
    twice does no more than one that is merged once. *)

From S2P Require Import Prelude Json ConfigSchema.
From stdpp Require Import options.

(** [Config::merge] in the interface of the other types. *)
#[export] Instance Config_DeepMerge : DeepMerge Config := Config_merge.

(** The layers of a configuration, the first one lowest. *)
Definition merge_layers (base : Config) (layers : list Config) : Config := foldl Config_merge base layers.

(** ** The loops over maps, key by key *)

Lemma lookup_merge_entries {T} (merge : T → T → T) (target source : gmap string T) key :
  map_fold (merge_entry merge) target source !! key =
  @merge_option_deep T merge (target !! key) (source !! key).
Proof.
  apply (map_fold_weak_ind (fun r m => r !! key = @merge_option_deep T merge (target !! key) (m !! key)));
    [by rewrite lookup_empty|].
  intros k v m r Hk IH. unfold merge_entry. destruct (decide (k = key)) as [->|Hne].
  - rewrite lookup_insert_eq. rewrite Hk in IH. cbn in IH. rewrite IH.
    by destruct (target !! key); rewrite lookup_insert_eq.
  - rewrite lookup_insert_ne by done. by destruct (r !! k); rewrite lookup_insert_ne.
Qed.

Lemma lookup_merge_deep {T} `{DeepMerge T} (target source : gmap string T) key :
  merge_map_deep_values target source !! key = merge_option_deep (target !! key) (source !! key).
Proof. apply lookup_merge_entries. Qed.

Lemma lookup_merge_overwrite {T} (target source : gmap string T) key :
  merge_map_overwrite_values target source !! key = merge_option_replace (target !! key) (source !! key).
Proof.
  unfold merge_map_overwrite_values.
  apply (map_fold_weak_ind (fun r m => r !! key = merge_option_replace (target !! key) (m !! key)));
    [by rewrite lookup_empty|].
  intros k v m r _ IH. destruct (decide (k = key)) as [->|Hne].
  - by rewrite !lookup_insert_eq.
  - by rewrite !lookup_insert_ne.
Qed.

Lemma merge_json_objects (target source : gmap string Value) :
  merge_json_value (Object target) (Object source) =
  Object (map_fold (merge_entry merge_json_value) target source).
Proof. done. Qed.

(** ** Laws of the helpers *)

Section helpers.
Context {T : Type}.

Lemma replace_self (a : option T) : merge_option_replace a a = a.
Proof. by destruct a. Qed.

Lemma replace_group (a b c : option T) :
  merge_option_replace a (merge_option_replace b c) = merge_option_replace (merge_option_replace a b) c.
Proof. by destruct c. Qed.

(** The runtime budget is replaced whole, [if other.is_some()]. *)
Lemma if_has_value_eq (a b : option T) :
  (if has_value b then b else a) = merge_option_replace a b.
Proof. by destruct b. Qed.

Lemma if_has_value_self (a : option T) : (if has_value a then a else a) = a.
Proof. by destruct a. Qed.

Lemma if_has_value_group (a b c : option T) :
  (if has_value (if has_value c then c else b) then (if has_value c then c else b) else a) =
  (if has_value c then c else if has_value b then b else a).
Proof. by destruct c. Qed.

Lemma vec_self (a : list T) : merge_vec_replace_if_non_empty a a = a.
Proof. by destruct a. Qed.

Lemma vec_group (a b c : list T) :
  merge_vec_replace_if_non_empty a (merge_vec_replace_if_non_empty b c) =
  merge_vec_replace_if_non_empty (merge_vec_replace_if_non_empty a b) c.
Proof. by destruct b, c. Qed.

Lemma overwrite_self (a : gmap string T) : merge_map_overwrite_values a a = a.
Proof. apply map_eq. intros k. by rewrite lookup_merge_overwrite, replace_self. Qed.

Lemma overwrite_group (a b c : gmap string T) :
  merge_map_overwrite_values a (merge_map_overwrite_values b c) =
  merge_map_overwrite_values (merge_map_overwrite_values a b) c.
Proof. apply map_eq. intros k. by rewrite !lookup_merge_overwrite, replace_group. Qed.

Lemma option_overwrite_self (a : option (gmap string T)) : merge_option_map_overwrite_values a a = a.
Proof. destruct a; cbn; by rewrite ?overwrite_self. Qed.

Lemma option_overwrite_group (a b c : option (gmap string T)) :
  merge_option_map_overwrite_values a (merge_option_map_overwrite_values b c) =
  merge_option_map_overwrite_values (merge_option_map_overwrite_values a b) c.
Proof. destruct a, b, c; cbn; by rewrite ?overwrite_group. Qed.
End helpers.

(** What [append_unique_keep_order] adds: the new items, each once. *)
Fixpoint new_items (target source : list string) : list string :=
  match source with
  | [] => []
  | item :: rest =>
      if bool_decide (item ∈ target) then new_items target rest
      else item :: new_items (target ++ [item]) rest
  end.

Lemma append_unique_new target source :
  append_unique_keep_order target source = target ++ new_items target source.
Proof.
  unfold append_unique_keep_order. revert target.
  induction source as [|x source IH]; intros target; cbn; [by rewrite app_nil_r|].
  case_bool_decide; [apply IH|]. rewrite IH. by rewrite <- app_assoc.
Qed.

Lemma elem_of_append_unique target source x :
  x ∈ append_unique_keep_order target source ↔ x ∈ target ∨ x ∈ source.
Proof.
  unfold append_unique_keep_order. revert target.
  induction source as [|y source IH]; intros target; cbn; [set_solver|].
  rewrite IH. case_bool_decide; set_solver.
Qed.

Lemma append_unique_known target source :
  (∀ x, x ∈ source → x ∈ target) → append_unique_keep_order target source = target.
Proof.
  unfold append_unique_keep_order.
  induction source as [|y source IH]; intros Hin; cbn; [done|].
  rewrite bool_decide_eq_true_2 by set_solver. apply IH. set_solver.
Qed.

Lemma append_unique_self target : append_unique_keep_order target target = target.
Proof. by apply append_unique_known. Qed.

Lemma append_unique_snoc target source x :
  append_unique_keep_order target (source ++ [x]) =
  (let r := append_unique_keep_order target source in
   if bool_decide (x ∈ r) then r else r ++ [x]).
Proof. unfold append_unique_keep_order. by rewrite foldl_app. Qed.

Lemma append_unique_group a b c :
  append_unique_keep_order a (append_unique_keep_order b c) =
  append_unique_keep_order (append_unique_keep_order a b) c.
Proof.
  induction c as [|x c IH] using rev_ind; [done|].
  rewrite !append_unique_snoc. cbn zeta. rewrite <- IH.
  set (bc := append_unique_keep_order b c).
  destruct (decide (x ∈ bc)) as [Hx|Hx].
  - rewrite !bool_decide_eq_true_2; [done| |done]. apply elem_of_append_unique. by right.
  - rewrite (bool_decide_eq_false_2 (x ∈ bc)) by done. by rewrite append_unique_snoc.
Qed.

Lemma append_unique_nodup target source :
  NoDup target → NoDup (append_unique_keep_order target source).
Proof.
  unfold append_unique_keep_order. revert target.
  induction source as [|y source IH]; intros target Hnd; cbn; [done|].
  apply IH. case_bool_decide; [done|]. apply NoDup_app. split; [done|].
  split; [set_solver|apply NoDup_singleton].
Qed.

(** ** JSON values *)

Fixpoint json_size (v : Value) : nat :=
  match v with
  | Object m => S (map_fold (fun _ w n => json_size w + n) 0 m)
  | _ => 0
  end.

Lemma json_size_member m k v : m !! k = Some v → json_size v < json_size (Object m).
Proof.
  cbn. intros Hk.
  enough (∀ k v, m !! k = Some v → json_size v ≤ map_fold (fun _ w n => json_size w + n) 0 m) as Hle
    by (specialize (Hle _ _ Hk); lia).
  clear k v Hk.
  apply (map_fold_weak_ind (fun r m => ∀ k v, m !! k = Some v → json_size v ≤ r)); [done|].
  intros i x m' r Hi IH k v Hk. destruct (decide (i = k)) as [->|Hne].
  - rewrite lookup_insert_eq in Hk. simplify_eq. lia.
  - rewrite lookup_insert_ne in Hk by done. specialize (IH _ _ Hk). lia.
Qed.

(** Induction over the members of objects; arrays are leaves of a merge. *)
Lemma json_ind (P : Value → Prop) :
  (∀ v, (∀ m, v ≠ Object m) → P v) →
  (∀ m, (∀ k v, m !! k = Some v → P v) → P (Object m)) →
  ∀ v, P v.
Proof.
  intros Hleaf Hobj v. induction (Nat.lt_wf_0_projected json_size v) as [v _ IH].
  destruct v as [| | | | |m]; try by apply Hleaf.
  apply Hobj. intros k w Hk. apply IH. by apply json_size_member in Hk.
Qed.

Lemma merge_json_leaf t s : (∀ m, s ≠ Object m) → merge_json_value t s = s.
Proof. intros Hs. destruct t, s; done || by edestruct Hs. Qed.

Lemma merge_json_fresh t m : (∀ m', t ≠ Object m') → merge_json_value t (Object m) = Object m.
Proof. intros Ht. destruct t; done || by edestruct Ht. Qed.

(** The value at a path of member names. *)
Fixpoint json_get (path : list string) (v : Value) : option Value :=
  match path with
  | [] => Some v
  | k :: rest => match v with Object m => m !! k ≫= json_get rest | _ => None end
  end.

(** A path that leaves a value at an object without the next name: nothing is said
    about it.  The other paths that [json_get] does not find run into a leaf. *)
Fixpoint json_silent (path : list string) (v : Value) : bool :=
  match path, v with
  | k :: rest, Object m => match m !! k with Some w => json_silent rest w | None => true end
  | _, _ => false
  end.

Lemma json_get_merge path t s :
  json_get path (merge_json_value t s) =
  match json_get path s with
  | Some v => @merge_option_deep Value merge_json_value (json_get path t) (Some v)
  | None => if json_silent path s then json_get path t else None
  end.
Proof.
  revert t s. induction path as [|k path IH]; intros t s; [done|].
  destruct s as [| | | | |sm]; try (rewrite merge_json_leaf by done; done).
  destruct t as [| | | | |tm];
    try (rewrite merge_json_fresh by done; cbn; destruct (sm !! k) as [w|]; cbn; [|done];
         destruct (json_get path w); [done|]; by destruct (json_silent path w)).
  rewrite merge_json_objects. cbn [json_get json_silent]. rewrite lookup_merge_entries.
  destruct (sm !! k) as [w|], (tm !! k) as [u|]; cbn [merge_option_deep mbind option_bind]; auto.
  destruct (json_get path w); [done|]. by destruct (json_silent path w).
Qed.

(** [c] may come after [b] in a group: it lays no object over a leaf. *)
Inductive json_compatible : Value → Value → Prop :=
| compatible_leaf b c : (∀ m, c ≠ Object m) → json_compatible b c
| compatible_objects bm cm :
    (∀ k b c, bm !! k = Some b → cm !! k = Some c → json_compatible b c) →
    json_compatible (Object bm) (Object cm).

Lemma json_compatible_self v : json_compatible v v.
Proof.
  induction v as [v Hv|m IH] using json_ind; [by apply compatible_leaf|].
  apply compatible_objects. intros k b c Hb Hc. simplify_eq. by eapply IH.
Qed.

Lemma json_merge_self v : merge_json_value v v = v.
Proof.
  induction v as [v Hv|m IH] using json_ind; [by apply merge_json_leaf|].
  rewrite merge_json_objects. f_equal. apply map_eq. intros k. rewrite lookup_merge_entries.
  destruct (m !! k) eqn:Hk; cbn; [|done]. f_equal. by eapply IH.
Qed.

Lemma json_merge_group a b c :
  json_compatible b c →
  merge_json_value a (merge_json_value b c) = merge_json_value (merge_json_value a b) c.
Proof.
  revert a b. induction c as [c Hc|cm IH] using json_ind; intros a b Hbc.
  { by rewrite !(merge_json_leaf _ c). }
  inversion Hbc as [? ? Hleaf|bm ? Hmem]; subst; [by destruct (Hleaf cm)|].
  rewrite merge_json_objects.
  destruct a as [| | | | |am]; try (rewrite !(merge_json_fresh _ _) by done; done).
  rewrite !merge_json_objects. f_equal. apply map_eq. intros k. rewrite !lookup_merge_entries.
  destruct (cm !! k) as [cv|] eqn:Hc, (bm !! k) as [bv|] eqn:Hb, (am !! k); cbn; try done.
  f_equal. by eapply IH; eauto.
Qed.

(** ** Types whose layers may be grouped *)

(** [compatible b c]: merging [c] into [b] first loses nothing that merging them one
    after the other into a lower layer would keep. *)
Class LawfulMerge (T : Type) `{DeepMerge T} := {
  compatible : T → T → Prop;
  merge_self a : compatible a a → deep_merge a a = a;
  merge_group a b c : compatible b c → deep_merge a (deep_merge b c) = deep_merge (deep_merge a b) c
}.
#[global] Hint Mode LawfulMerge ! - : typeclass_instances.

(** Types of which every layer may follow itself. *)
Class SelfCompatible (T : Type) `{LawfulMerge T} := compatible_self (a : T) : compatible a a.

Definition compatible_option {T} `{LawfulMerge T} (b c : option T) : Prop :=
  match b, c with Some b, Some c => compatible b c | _, _ => True end.

Definition compatible_map {T} `{LawfulMerge T} (b c : gmap string T) : Prop :=
  ∀ k, compatible_option (b !! k) (c !! k).

Definition compatible_option_map {T} `{LawfulMerge T} (b c : option (gmap string T)) : Prop :=
  match b, c with Some b, Some c => compatible_map b c | _, _ => True end.

Section lift.
Context {T : Type} `{LawfulMerge T}.

Lemma option_deep_self (a : option T) : compatible_option a a → merge_option_deep a a = a.
Proof. destruct a; cbn; intros; f_equal; by apply merge_self. Qed.

Lemma option_deep_group (a b c : option T) :
  compatible_option b c →
  merge_option_deep a (merge_option_deep b c) = merge_option_deep (merge_option_deep a b) c.
Proof. destruct a, b, c; cbn; intros; try done. f_equal. by apply merge_group. Qed.

Lemma map_deep_self (a : gmap string T) : compatible_map a a → merge_map_deep_values a a = a.
Proof. intros Ha. apply map_eq. intros k. rewrite lookup_merge_deep. by apply option_deep_self. Qed.

Lemma map_deep_group (a b c : gmap string T) :
  compatible_map b c →
  merge_map_deep_values a (merge_map_deep_values b c) =
  merge_map_deep_values (merge_map_deep_values a b) c.
Proof.
  intros Hbc. apply map_eq. intros k. rewrite !lookup_merge_deep. by apply option_deep_group.
Qed.

Lemma option_map_deep_self (a : option (gmap string T)) :
  compatible_option_map a a → merge_option_map_deep_values a a = a.
Proof. destruct a; cbn; intros; f_equal; by apply map_deep_self. Qed.

Lemma option_map_deep_group (a b c : option (gmap string T)) :
  compatible_option_map b c →
  merge_option_map_deep_values a (merge_option_map_deep_values b c) =
  merge_option_map_deep_values (merge_option_map_deep_values a b) c.
Proof. destruct a, b, c; cbn; intros; try done. f_equal. by apply map_deep_group. Qed.

Lemma compatible_option_self `{!SelfCompatible T} (a : option T) : compatible_option a a.
Proof. destruct a; cbn; [apply compatible_self|done]. Qed.

Lemma compatible_map_self `{!SelfCompatible T} (a : gmap string T) : compatible_map a a.
Proof. intros k. apply compatible_option_self. Qed.

Lemma compatible_option_map_self `{!SelfCompatible T} (a : option (gmap string T)) :
  compatible_option_map a a.
Proof. destruct a; cbn; [apply compatible_map_self|done]. Qed.
End lift.

(** Values and maps of them, for [merge_option_json_map]. *)
#[export] Instance Value_DeepMerge : DeepMerge Value := merge_json_value.
#[export] Instance Value_LawfulMerge : LawfulMerge Value :=
  {| compatible := json_compatible; merge_self a _ := json_merge_self a; merge_group := json_merge_group |}.
#[export] Instance Value_SelfCompatible : SelfCompatible Value := json_compatible_self.

Lemma merge_option_json_map_deep (a b : option (gmap string Value)) :
  merge_option_json_map a b = merge_option_map_deep_values a b.
Proof. done. Qed.

Lemma json_map_self (a : option (gmap string Value)) :
  compatible_option_map a a → merge_option_json_map a a = a.
Proof. apply option_map_deep_self. Qed.

Lemma json_map_group (a b c : option (gmap string Value)) :
  compatible_option_map b c →
  merge_option_json_map a (merge_option_json_map b c) = merge_option_json_map (merge_option_json_map a b) c.
Proof. rewrite !merge_option_json_map_deep. apply option_map_deep_group. Qed.

Create HintDb merge.
#[export] Hint Resolve replace_self replace_group if_has_value_self if_has_value_group vec_self vec_group overwrite_self overwrite_group
  option_overwrite_self option_overwrite_group option_deep_self option_deep_group
  map_deep_self map_deep_group option_map_deep_self option_map_deep_group
  json_map_self json_map_group append_unique_self append_unique_group
  compatible_option_self compatible_map_self compatible_option_map_self : merge.

(** *** Types whose layers may always be grouped *)

Class SimpleMerge (T : Type) `{DeepMerge T} := {
  simple_self (a : T) : deep_merge a a = a;
  simple_group (a b c : T) : deep_merge a (deep_merge b c) = deep_merge (deep_merge a b) c
}.
#[global] Hint Mode SimpleMerge ! - : typeclass_instances.

Definition always_compatible {T} (b c : T) : Prop := True.
#[export] Instance simple_lawful {T} `{SimpleMerge T} : LawfulMerge T :=
  {| compatible := always_compatible; merge_self a _ := simple_self a;
     merge_group a b c _ := simple_group a b c |}.
#[export] Instance simple_self_compatible {T} `{SimpleMerge T} : SelfCompatible T.
Proof. done. Qed.

Lemma compatible_option_simple {T} `{SimpleMerge T} (b c : option T) : compatible_option b c.
Proof. by destruct b, c. Qed.
Lemma compatible_map_simple {T} `{SimpleMerge T} (b c : gmap string T) : compatible_map b c.
Proof. intros k. apply compatible_option_simple. Qed.
Lemma compatible_option_map_simple {T} `{SimpleMerge T} (b c : option (gmap string T)) :
  compatible_option_map b c.
Proof. destruct b, c; cbn; auto using compatible_map_simple. Qed.
#[export] Hint Resolve compatible_option_simple compatible_map_simple compatible_option_map_simple : merge.

(** The laws of a struct are those of its fields. *)
Ltac field_laws dm def :=
  unfold deep_merge, dm, def; cbn; f_equal; eauto with merge.
Ltac simple_merge dm def :=
  split; [intros []; field_laws dm def | intros; field_laws dm def].

#[export] Instance KeybindsConfig_SimpleMerge : SimpleMerge KeybindsConfig.
Proof. simple_merge KeybindsConfig_DeepMerge KeybindsConfig_deep_merge. Qed.
#[export] Instance TuiConfig_SimpleMerge : SimpleMerge TuiConfig.
Proof. simple_merge TuiConfig_DeepMerge TuiConfig_deep_merge. Qed.
#[export] Instance ServerConfig_SimpleMerge : SimpleMerge ServerConfig.
Proof. simple_merge ServerConfig_DeepMerge ServerConfig_deep_merge. Qed.
#[export] Instance CommandConfig_SimpleMerge : SimpleMerge CommandConfig.
Proof. simple_merge CommandConfig_DeepMerge CommandConfig_deep_merge. Qed.
#[export] Instance SkillHubConfig_SimpleMerge : SimpleMerge SkillHubConfig.
Proof. simple_merge SkillHubConfig_DeepMerge SkillHubConfig_deep_merge. Qed.
#[export] Instance SkillsConfig_SimpleMerge : SimpleMerge SkillsConfig.
Proof. simple_merge SkillsConfig_DeepMerge SkillsConfig_deep_merge. Qed.
#[export] Instance DocsConfig_SimpleMerge : SimpleMerge DocsConfig.
Proof. simple_merge DocsConfig_DeepMerge DocsConfig_deep_merge. Qed.
#[export] Instance WatcherConfig_SimpleMerge : SimpleMerge WatcherConfig.
Proof. simple_merge WatcherConfig_DeepMerge WatcherConfig_deep_merge. Qed.
#[export] Instance PermissionConfig_SimpleMerge : SimpleMerge PermissionConfig.
Proof. simple_merge PermissionConfig_DeepMerge PermissionConfig_deep_merge. Qed.
#[export] Instance ModelModalities_SimpleMerge : SimpleMerge ModelModalities.
Proof. simple_merge ModelModalities_DeepMerge ModelModalities_deep_merge. Qed.
(** The price table and the tables for longer contexts in it. *)
Lemma cost_chain (P : ModelCostConfig → Prop) :
  (∀ a, cost_context_over_200k a = None → P a) →
  (∀ a ctx, cost_context_over_200k a = Some ctx → P ctx → P a) →
  ∀ a, P a.
Proof.
  intros Hend Hstep. fix IH 1. intros [i o r w [ctx|]]; [|by apply Hend].
  exact (Hstep (Build_ModelCostConfig i o r w (Some ctx)) ctx eq_refl (IH ctx)).
Qed.
Lemma cost_merge_eq a b :
  ModelCostConfig_deep_merge a b = {|
    cost_input := merge_option_replace (cost_input a) (cost_input b);
    cost_output := merge_option_replace (cost_output a) (cost_output b);
    cost_cache_read := merge_option_replace (cost_cache_read a) (cost_cache_read b);
    cost_cache_write := merge_option_replace (cost_cache_write a) (cost_cache_write b);
    cost_context_over_200k := merge_option_deep (cost_context_over_200k a) (cost_context_over_200k b)
  |}.
Proof. by destruct b. Qed.
Lemma cost_self (a : ModelCostConfig) : ModelCostConfig_deep_merge a a = a.
Proof.
  induction a as [a Ha|a ctx Ha IH] using cost_chain;
    rewrite cost_merge_eq, Ha; destruct a; cbn in *; f_equal; eauto with merge.
  rewrite Ha. f_equal. apply IH.
Qed.
Lemma cost_group (a b c : ModelCostConfig) :
  ModelCostConfig_deep_merge a (ModelCostConfig_deep_merge b c) =
  ModelCostConfig_deep_merge (ModelCostConfig_deep_merge a b) c.
Proof.
  revert a b. induction c as [c Hc|c ctx Hc IH] using cost_chain; intros a b;
    rewrite !cost_merge_eq; cbn; rewrite !Hc; f_equal; eauto with merge.
  destruct (cost_context_over_200k a), (cost_context_over_200k b); cbn; try done.
  f_equal. apply IH.
Qed.
#[export] Instance ModelCostConfig_SimpleMerge : SimpleMerge ModelCostConfig :=
  {| simple_self := cost_self; simple_group := cost_group |}.
#[export] Instance ModelLimitConfig_SimpleMerge : SimpleMerge ModelLimitConfig.
Proof. simple_merge ModelLimitConfig_DeepMerge ModelLimitConfig_deep_merge. Qed.
#[export] Instance ModelProviderConfig_SimpleMerge : SimpleMerge ModelProviderConfig.
Proof. simple_merge ModelProviderConfig_DeepMerge ModelProviderConfig_deep_merge. Qed.
#[export] Instance ModelVariantConfig_SimpleMerge : SimpleMerge ModelVariantConfig.
Proof. simple_merge ModelVariantConfig_DeepMerge ModelVariantConfig_deep_merge. Qed.
#[export] Instance McpServer_SimpleMerge : SimpleMerge McpServer.
Proof. simple_merge McpServer_DeepMerge McpServer_deep_merge. Qed.
#[export] Instance McpServerConfig_SimpleMerge : SimpleMerge McpServerConfig.
Proof.
  split.
  - intros [|s]; [done|]. unfold deep_merge; cbn. f_equal. apply simple_self.
  - intros [ea|a] [eb|b] [ec|c]; unfold deep_merge; cbn; f_equal; try done.
    + destruct (mcp_enabled c) eqn:Hc; cbn; by rewrite ?Hc.
    + by destruct (mcp_enabled b).
    + destruct c as [? ? ? ? [] ? ? ?], b as [? ? ? ? [] ? ? ?]; done.
    + destruct c as [? ? ? ? [] ? ? ?]; done.
    + apply (simple_group a b c).
Qed.
#[export] Instance FormatterEntry_SimpleMerge : SimpleMerge FormatterEntry.
Proof. simple_merge FormatterEntry_DeepMerge FormatterEntry_deep_merge. Qed.
#[export] Instance EnterpriseConfig_SimpleMerge : SimpleMerge EnterpriseConfig.
Proof. simple_merge EnterpriseConfig_DeepMerge EnterpriseConfig_deep_merge. Qed.
#[export] Instance CompactionConfig_SimpleMerge : SimpleMerge CompactionConfig.
Proof. simple_merge CompactionConfig_DeepMerge CompactionConfig_deep_merge. Qed.
#[export] Instance ExperimentalConfig_SimpleMerge : SimpleMerge ExperimentalConfig.
Proof. simple_merge ExperimentalConfig_DeepMerge ExperimentalConfig_deep_merge. Qed.
#[export] Instance WebSearchConfig_SimpleMerge : SimpleMerge WebSearchConfig.
Proof. simple_merge WebSearchConfig_DeepMerge WebSearchConfig_deep_merge. Qed.
#[export] Instance MultimodalLimitsConfig_SimpleMerge : SimpleMerge MultimodalLimitsConfig.
Proof. simple_merge MultimodalLimitsConfig_DeepMerge MultimodalLimitsConfig_deep_merge. Qed.
#[export] Instance MultimodalAttachmentPolicyConfig_SimpleMerge : SimpleMerge MultimodalAttachmentPolicyConfig.
Proof. simple_merge MultimodalAttachmentPolicyConfig_DeepMerge MultimodalAttachmentPolicyConfig_deep_merge. Qed.
#[export] Instance VoiceCommandConfig_SimpleMerge : SimpleMerge VoiceCommandConfig.
Proof. simple_merge VoiceCommandConfig_DeepMerge VoiceCommandConfig_deep_merge. Qed.
#[export] Instance VoiceConfig_SimpleMerge : SimpleMerge VoiceConfig.
Proof. simple_merge VoiceConfig_DeepMerge VoiceConfig_deep_merge. Qed.
#[export] Instance MultimodalConfig_SimpleMerge : SimpleMerge MultimodalConfig.
Proof. simple_merge MultimodalConfig_DeepMerge MultimodalConfig_deep_merge. Qed.
#[export] Instance ExternalAdapterEntryConfig_SimpleMerge : SimpleMerge ExternalAdapterEntryConfig.
Proof. simple_merge ExternalAdapterEntryConfig_DeepMerge ExternalAdapterEntryConfig_deep_merge. Qed.
#[export] Instance ExternalAdapterReplayConfig_SimpleMerge : SimpleMerge ExternalAdapterReplayConfig.
Proof. simple_merge ExternalAdapterReplayConfig_DeepMerge ExternalAdapterReplayConfig_deep_merge. Qed.
#[export] Instance ExternalAdapterConfig_SimpleMerge : SimpleMerge ExternalAdapterConfig.
Proof. simple_merge ExternalAdapterConfig_DeepMerge ExternalAdapterConfig_deep_merge. Qed.

(** *** The others *)

#[export] Instance FormatterConfig_LawfulMerge : LawfulMerge FormatterConfig.
Proof.
  refine {| compatible b c :=
    match b, c with FormatterDisabled _, FormatterEnabled _ => False | _, _ => True end |}.
  - intros [|m] _; [done|]. unfold deep_merge; cbn. f_equal. eauto with merge.
  - intros [|am] [|bm] [|cm]; unfold deep_merge; cbn; try done. intros _. f_equal. eauto with merge.
Defined.

#[export] Instance FormatterConfig_SelfCompatible : SelfCompatible FormatterConfig.
Proof. by intros []. Qed.

#[export] Instance UiPreferencesConfig_LawfulMerge : LawfulMerge UiPreferencesConfig.
Proof.
  refine {| compatible b c := ui_web_model c ≠ Some "" |}.
  - intros a Ha. destruct a as [? ? ? wm ? ? ? ? ? ? ? ?]. field_laws UiPreferencesConfig_DeepMerge UiPreferencesConfig_deep_merge.
    destruct wm as [m|]; [|done]. cbn in *. rewrite bool_decide_eq_false_2 by congruence. done.
  - intros a b c Hc. field_laws UiPreferencesConfig_DeepMerge UiPreferencesConfig_deep_merge.
    destruct (ui_web_model c) as [m|]; [|done]. cbn. rewrite bool_decide_eq_false_2 by congruence.
    cbn. by rewrite bool_decide_eq_false_2 by congruence.
Defined.

#[export] Instance AgentConfig_LawfulMerge : LawfulMerge AgentConfig.
Proof.
  refine {| compatible b c :=
      compatible_option_map b.(ag_options) c.(ag_options) |}.
  - intros a Ha; destruct a; cbn in Ha; destruct_and?; field_laws AgentConfig_DeepMerge AgentConfig_deep_merge.
  - intros a b c Hbc; destruct_and?; field_laws AgentConfig_DeepMerge AgentConfig_deep_merge.
Defined.
#[export] Instance AgentConfig_SelfCompatible : SelfCompatible AgentConfig.
Proof. intros a. exact (compatible_option_map_self _). Qed.

#[export] Instance AgentConfigs_LawfulMerge : LawfulMerge AgentConfigs.
Proof.
  refine {| compatible b c :=
      compatible_map b.(ags_entries) c.(ags_entries) |}.
  - intros a Ha; destruct a; cbn in Ha; destruct_and?; field_laws AgentConfigs_DeepMerge AgentConfigs_deep_merge.
  - intros a b c Hbc; destruct_and?; field_laws AgentConfigs_DeepMerge AgentConfigs_deep_merge.
Defined.
#[export] Instance AgentConfigs_SelfCompatible : SelfCompatible AgentConfigs.
Proof. intros a. exact (compatible_map_self _). Qed.

#[export] Instance ModelConfig_LawfulMerge : LawfulMerge ModelConfig.
Proof.
  refine {| compatible b c :=
      compatible_option_map b.(mdl_options) c.(mdl_options) |}.
  - intros a Ha; destruct a; cbn in Ha; destruct_and?; field_laws ModelConfig_DeepMerge ModelConfig_deep_merge.
  - intros a b c Hbc; destruct_and?; field_laws ModelConfig_DeepMerge ModelConfig_deep_merge.
Defined.
#[export] Instance ModelConfig_SelfCompatible : SelfCompatible ModelConfig.
Proof. intros a. exact (compatible_option_map_self _). Qed.

#[export] Instance ProviderConfig_LawfulMerge : LawfulMerge ProviderConfig.
Proof.
  refine {| compatible b c :=
      compatible_option_map b.(prov_models) c.(prov_models) ∧ compatible_option_map b.(prov_options) c.(prov_options) |}.
  - intros a Ha; destruct a; cbn in Ha; destruct_and?; field_laws ProviderConfig_DeepMerge ProviderConfig_deep_merge.
  - intros a b c Hbc; destruct_and?; field_laws ProviderConfig_DeepMerge ProviderConfig_deep_merge.
Defined.
#[export] Instance ProviderConfig_SelfCompatible : SelfCompatible ProviderConfig.
Proof. intros a. split; apply compatible_option_map_self. Qed.

#[export] Instance LspServerConfig_LawfulMerge : LawfulMerge LspServerConfig.
Proof.
  refine {| compatible b c :=
      compatible_option_map b.(lsp_initialization) c.(lsp_initialization) |}.
  - intros a Ha; destruct a; cbn in Ha; destruct_and?; field_laws LspServerConfig_DeepMerge LspServerConfig_deep_merge.
  - intros a b c Hbc; destruct_and?; field_laws LspServerConfig_DeepMerge LspServerConfig_deep_merge.
Defined.
#[export] Instance LspServerConfig_SelfCompatible : SelfCompatible LspServerConfig.
Proof. intros a. exact (compatible_option_map_self _). Qed.

#[export] Instance LspConfig_LawfulMerge : LawfulMerge LspConfig.
Proof.
  refine {| compatible b c :=
    match b, c with
    | LspDisabled _, LspEnabled _ => False
    | LspEnabled bm, LspEnabled cm => compatible_map bm cm
    | _, _ => True
    end |}.
  - intros [|m] Hm; [done|]. unfold deep_merge; cbn. f_equal. eauto with merge.
  - intros [|am] [|bm] [|cm] Hc; unfold deep_merge; cbn; try done. f_equal. eauto with merge.
Defined.
#[export] Instance LspConfig_SelfCompatible : SelfCompatible LspConfig.
Proof. intros []; [done|]. exact (compatible_map_self _). Qed.

#[export] Instance Config_LawfulMerge : LawfulMerge Config.
Proof.
  refine {| compatible b c :=
      compatible_option b.(cfg_agent) c.(cfg_agent) ∧
      compatible_option_map b.(cfg_provider) c.(cfg_provider) ∧
      compatible_option b.(cfg_formatter) c.(cfg_formatter) ∧
      compatible_option b.(cfg_lsp) c.(cfg_lsp) ∧
      compatible_option b.(cfg_ui_preferences) c.(cfg_ui_preferences) |}.
  - intros a Ha; destruct a; cbn in Ha; destruct_and?; field_laws Config_DeepMerge Config_merge.
  - intros a b c Hbc; destruct_and?; field_laws Config_DeepMerge Config_merge.
Defined.

(** ** Merging a layer again *)

Section again.
Context {T : Type}.

Lemma replace_again (a b : option T) :
  merge_option_replace (merge_option_replace a b) b = merge_option_replace a b.
Proof. by rewrite <- replace_group, replace_self. Qed.

Lemma if_has_value_again (a b : option T) :
  (if has_value b then b else if has_value b then b else a) = (if has_value b then b else a).
Proof. by destruct b. Qed.

Lemma vec_again (a b : list T) :
  merge_vec_replace_if_non_empty (merge_vec_replace_if_non_empty a b) b = merge_vec_replace_if_non_empty a b.
Proof. by rewrite <- vec_group, vec_self. Qed.

Lemma overwrite_again (a b : gmap string T) :
  merge_map_overwrite_values (merge_map_overwrite_values a b) b = merge_map_overwrite_values a b.
Proof. by rewrite <- overwrite_group, overwrite_self. Qed.

Lemma option_overwrite_again (a b : option (gmap string T)) :
  merge_option_map_overwrite_values (merge_option_map_overwrite_values a b) b =
  merge_option_map_overwrite_values a b.
Proof. by rewrite <- option_overwrite_group, option_overwrite_self. Qed.

Context `{LawfulMerge T}.

Lemma option_deep_again (a b : option T) :
  compatible_option b b →
  merge_option_deep (merge_option_deep a b) b = merge_option_deep a b.
Proof. intros. by rewrite <- option_deep_group, option_deep_self. Qed.

Lemma option_map_deep_again (a b : option (gmap string T)) :
  compatible_option_map b b →
  merge_option_map_deep_values (merge_option_map_deep_values a b) b = merge_option_map_deep_values a b.
Proof. intros. by rewrite <- option_map_deep_group, option_map_deep_self. Qed.
End again.

Lemma append_unique_again a b :
  append_unique_keep_order (append_unique_keep_order a b) b = append_unique_keep_order a b.
Proof. by rewrite <- append_unique_group, append_unique_self. Qed.

#[export] Hint Resolve replace_again if_has_value_again vec_again overwrite_again option_overwrite_again
  option_deep_again option_map_deep_again append_unique_again : merge.
