(* ===== verification/ConfigSettings.v ===== *)
(** * The settings of a configuration

    A setting is a place of a configuration that holds one value or none:
    a field of a struct, a key of a map whose values are overwritten, a list that is
    replaced when it is not empty, or such a place inside of a part.  This file
    lists these places ([Config_settings]) and shows that layers answer each by the last one that
    sets it.  The places that do not work like that ([own_rules]) are JSON options, which merge by path;
    instructions and tool imports, which accumulate; the formatter and
    language server sections, where one that is switched off drops what lower layers
    said; and the web model, which the empty string clears. *)

From S2P Require Import Prelude Json ConfigSchema ConfigMerge.
From stdpp Require Import options.

Record setting (T : Type) := Setting { setting_value : Type; get : T → option setting_value }.
Arguments Setting {T setting_value} get.
Arguments setting_value {T} s.
Arguments get {T} s _.

Definition setting_of {T A} (f : T → option A) : setting T := Setting f.
(** A list, set when it is not empty. *)
Definition setting_of_vec {T A} (f : T → list A) : setting T :=
  Setting (fun c => match f c with [] => None | l => Some l end).
(** The value of a key. *)
Definition setting_at {T A} (key : string) (f : T → gmap string A) : setting T :=
  Setting (fun c => f c !! key).
Definition setting_at_opt {T A} (key : string) (f : T → option (gmap string A)) : setting T :=
  Setting (fun c => f c ≫= fun entries => entries !! key).
(** A setting of a part. *)
Definition in_option {T U} (f : T → option U) (s : setting U) : setting T :=
  Setting (fun c => f c ≫= get s).
Definition in_map {T U} (key : string) (f : T → gmap string U) (s : setting U) : setting T :=
  Setting (fun c => f c !! key ≫= get s).
Definition in_option_map {T U} (key : string) (f : T → option (gmap string U)) (s : setting U) : setting T :=
  Setting (fun c => f c ≫= fun entries => entries !! key ≫= get s).

(** ** The list

    [k], [m], [v] and [x] are the names of entries: a provider, its model, the
    model's variant, a field of the variant; and so on. *)

Definition ModelCostConfig_rates : list (setting ModelCostConfig) :=
  [ setting_of cost_input; setting_of cost_output; setting_of cost_cache_read;
    setting_of cost_cache_write ].

(** The prices, and those of the tables for longer contexts in it, [depth] tables deep. *)
Fixpoint ModelCostConfig_settings (depth : nat) : list (setting ModelCostConfig) :=
  ModelCostConfig_rates
  ++ match depth with
     | O => []
     | S depth => in_option cost_context_over_200k <$> ModelCostConfig_settings depth
     end.

Definition KeybindsConfig_settings : list (setting KeybindsConfig) :=
  [ setting_of kb_leader; setting_of kb_app_exit; setting_of kb_editor_open;
    setting_of kb_theme_list; setting_of kb_sidebar_toggle; setting_of kb_scrollbar_toggle;
    setting_of kb_username_toggle; setting_of kb_status_view; setting_of kb_session_export;
    setting_of kb_session_new; setting_of kb_session_list; setting_of kb_session_timeline;
    setting_of kb_session_fork; setting_of kb_session_rename; setting_of kb_session_delete;
    setting_of kb_stash_delete; setting_of kb_model_provider_list;
    setting_of kb_model_favorite_toggle; setting_of kb_session_share;
    setting_of kb_session_unshare; setting_of kb_session_interrupt;
    setting_of kb_session_compact; setting_of kb_messages_page_up;
    setting_of kb_messages_page_down; setting_of kb_messages_line_up;
    setting_of kb_messages_line_down; setting_of kb_messages_half_page_up;
    setting_of kb_messages_half_page_down; setting_of kb_messages_first;
    setting_of kb_messages_last; setting_of kb_messages_next;
    setting_of kb_messages_previous; setting_of kb_messages_last_user;
    setting_of kb_messages_copy; setting_of kb_messages_undo; setting_of kb_messages_redo;
    setting_of kb_messages_toggle_conceal; setting_of kb_tool_details;
    setting_of kb_model_list; setting_of kb_model_cycle_recent;
    setting_of kb_model_cycle_recent_reverse; setting_of kb_model_cycle_favorite;
    setting_of kb_model_cycle_favorite_reverse; setting_of kb_command_list;
    setting_of kb_agent_list; setting_of kb_agent_cycle; setting_of kb_agent_cycle_reverse;
    setting_of kb_variant_cycle; setting_of kb_input_clear; setting_of kb_input_paste;
    setting_of kb_input_submit; setting_of kb_input_newline; setting_of kb_input_move_left;
    setting_of kb_input_move_right; setting_of kb_input_move_up;
    setting_of kb_input_move_down; setting_of kb_input_select_left;
    setting_of kb_input_select_right; setting_of kb_input_select_up;
    setting_of kb_input_select_down; setting_of kb_input_line_home;
    setting_of kb_input_line_end; setting_of kb_input_select_line_home;
    setting_of kb_input_select_line_end; setting_of kb_input_visual_line_home;
    setting_of kb_input_visual_line_end; setting_of kb_input_select_visual_line_home;
    setting_of kb_input_select_visual_line_end; setting_of kb_input_buffer_home;
    setting_of kb_input_buffer_end; setting_of kb_input_select_buffer_home;
    setting_of kb_input_select_buffer_end; setting_of kb_input_delete_line;
    setting_of kb_input_delete_to_line_end; setting_of kb_input_delete_to_line_start;
    setting_of kb_input_backspace; setting_of kb_input_delete; setting_of kb_input_undo;
    setting_of kb_input_redo; setting_of kb_input_word_forward;
    setting_of kb_input_word_backward; setting_of kb_input_select_word_forward;
    setting_of kb_input_select_word_backward; setting_of kb_input_delete_word_forward;
    setting_of kb_input_delete_word_backward; setting_of kb_history_previous;
    setting_of kb_history_next; setting_of kb_session_attached_focus;
    setting_of kb_session_workspace_focus; setting_of kb_session_attached_open;
    setting_of kb_session_parent; setting_of kb_terminal_suspend;
    setting_of kb_terminal_title_toggle; setting_of kb_tips_toggle;
    setting_of kb_display_thinking ].

Definition TuiConfig_settings : list (setting TuiConfig) :=
  [ setting_of tui_mode; setting_of tui_sidebar; setting_of tui_scroll_speed;
    setting_of tui_scroll_acceleration; setting_of tui_diff_style ].

Definition ServerConfig_settings : list (setting ServerConfig) :=
  [ setting_of srv_port; setting_of srv_hostname; setting_of srv_mdns;
    setting_of srv_mdns_domain; setting_of srv_cors ].

Definition CommandConfig_settings : list (setting CommandConfig) :=
  [ setting_of cmd_name; setting_of cmd_description; setting_of cmd_template;
    setting_of cmd_model; setting_of cmd_agent ].

Definition SkillHubConfig_settings : list (setting SkillHubConfig) :=
  [ setting_of hub_artifact_cache_retention_seconds; setting_of hub_fetch_timeout_ms;
    setting_of hub_max_download_bytes; setting_of hub_max_extract_bytes;
    setting_of hub_default_registries; setting_of hub_index_freshness_max_age_seconds ].

Definition SkillsConfig_settings : list (setting SkillsConfig) :=
  [ setting_of_vec sk_paths; setting_of_vec sk_urls; setting_of_vec sk_disabled ]
  ++ (in_option sk_hub <$> SkillHubConfig_settings).

Definition DocsConfig_settings : list (setting DocsConfig) :=
  [ setting_of docs_context_docs_registry_path ].

Definition WatcherConfig_settings : list (setting WatcherConfig) :=
  [ setting_of_vec wat_ignore ].

Definition PermissionConfig_settings (m : string) : list (setting PermissionConfig) :=
  [ setting_at m perm_rules ].

Definition AgentConfig_settings (m : string) : list (setting AgentConfig) :=
  [ setting_of ag_name; setting_of ag_model; setting_of ag_variant;
    setting_of ag_temperature; setting_of ag_top_p; setting_of ag_prompt;
    setting_of ag_disable; setting_of ag_description; setting_of ag_mode;
    setting_of ag_hidden; setting_of ag_color; setting_of ag_steps; setting_of ag_max_steps;
    setting_of ag_max_tokens; setting_at_opt m ag_tools ]
  ++ (in_option ag_permission <$> PermissionConfig_settings m).

Definition AgentConfigs_settings (k m : string) : list (setting AgentConfigs) :=
  (in_map k ags_entries <$> AgentConfig_settings m).

Definition ModelVariantConfig_settings (x : string) : list (setting ModelVariantConfig) :=
  [ setting_of var_disabled; setting_at x var_extra ].

Definition ModelModalities_settings : list (setting ModelModalities) :=
  [ setting_of mod_input; setting_of mod_output ].

Definition ModelLimitConfig_settings : list (setting ModelLimitConfig) :=
  [ setting_of lim_context; setting_of lim_input; setting_of lim_output ].

Definition ModelProviderConfig_settings : list (setting ModelProviderConfig) :=
  [ setting_of mp_npm; setting_of mp_api ].

Definition ModelConfig_settings (depth : nat) (v x : string) : list (setting ModelConfig) :=
  [ setting_of mdl_name; setting_of mdl_model; setting_of mdl_base_url;
    setting_of mdl_tool_call; setting_of mdl_reasoning; setting_of mdl_reasoning_effort;
    setting_of mdl_timeout_secs; setting_of mdl_stream_stall_timeout_secs;
    setting_of mdl_attachment; setting_of mdl_temperature; setting_of mdl_interleaved;
    setting_at_opt v mdl_headers; setting_of mdl_family; setting_of mdl_status;
    setting_of mdl_release_date; setting_of mdl_experimental ]
  ++ (in_option_map v mdl_variants <$> ModelVariantConfig_settings x)
  ++ (in_option mdl_modalities <$> ModelModalities_settings)
  ++ (in_option mdl_cost <$> ModelCostConfig_settings depth)
  ++ (in_option mdl_limit <$> ModelLimitConfig_settings)
  ++ (in_option mdl_provider <$> ModelProviderConfig_settings).

Definition ProviderConfig_settings (depth : nat) (m v x : string) : list (setting ProviderConfig) :=
  [ setting_of prov_name; setting_of prov_id; setting_of prov_api_key;
    setting_of prov_base_url; setting_of prov_npm; setting_of prov_api_style;
    setting_of prov_api_shape; setting_of prov_transport; setting_of prov_usage_shape;
    setting_of_vec prov_quirks; setting_of prov_env; setting_of_vec prov_whitelist;
    setting_of_vec prov_blacklist ]
  ++ (in_option_map m prov_models <$> ModelConfig_settings depth v x).

Definition UiPreferencesConfig_settings : list (setting UiPreferencesConfig) :=
  [ setting_of ui_theme; setting_of ui_web_theme; setting_of ui_web_mode;
    setting_of ui_show_header; setting_of ui_show_scrollbar; setting_of ui_tips_hidden;
    setting_of ui_show_timestamps; setting_of ui_show_thinking;
    setting_of ui_show_tool_details; setting_of ui_message_density;
    setting_of ui_semantic_highlight ].

Definition WebSearchConfig_settings (k : string) : list (setting WebSearchConfig) :=
  [ setting_of ws_base_url; setting_of ws_endpoint; setting_of ws_method;
    setting_of ws_default_search_type; setting_of ws_default_num_results;
    setting_at_opt k ws_options ].

Definition VoiceCommandConfig_settings (k : string) : list (setting VoiceCommandConfig) :=
  [ setting_of_vec vc_command; setting_at k vc_env ].

Definition VoiceConfig_settings (k : string) : list (setting VoiceConfig) :=
  [ setting_of voice_duration_seconds; setting_of voice_attach_audio; setting_of voice_mime;
    setting_of voice_language ]
  ++ (in_option voice_record <$> VoiceCommandConfig_settings k)
  ++ (in_option voice_transcribe <$> VoiceCommandConfig_settings k).

Definition MultimodalLimitsConfig_settings : list (setting MultimodalLimitsConfig) :=
  [ setting_of ml_max_input_bytes; setting_of ml_max_attachments_per_prompt ].

Definition MultimodalAttachmentPolicyConfig_settings : list (setting MultimodalAttachmentPolicyConfig) :=
  [ setting_of mpol_allow_audio_input; setting_of mpol_allow_image_input;
    setting_of mpol_allow_file_input ].

Definition MultimodalConfig_settings (k : string) : list (setting MultimodalConfig) :=
  (in_option mm_voice <$> VoiceConfig_settings k)
  ++ (in_option mm_limits <$> MultimodalLimitsConfig_settings)
  ++ (in_option mm_policy <$> MultimodalAttachmentPolicyConfig_settings).

Definition ExternalAdapterEntryConfig_settings : list (setting ExternalAdapterEntryConfig) :=
  [ setting_of ae_enabled; setting_of ae_source; setting_of ae_secret_ref;
    setting_of ae_default_workspace; setting_of ae_route_policy_id;
    setting_of ae_allow_session_run; setting_of_vec ae_allowed_workspaces ].

Definition ExternalAdapterReplayConfig_settings : list (setting ExternalAdapterReplayConfig) :=
  [ setting_of ar_retention_seconds; setting_of ar_nonce_window_seconds ].

Definition ExternalAdapterConfig_settings (k : string) : list (setting ExternalAdapterConfig) :=
  (in_map k ea_adapters <$> ExternalAdapterEntryConfig_settings)
  ++ (in_option ea_replay <$> ExternalAdapterReplayConfig_settings).

Definition EnterpriseConfig_settings : list (setting EnterpriseConfig) :=
  [ setting_of ent_url; setting_of ent_managed_config_dir ].

Definition CompactionConfig_settings : list (setting CompactionConfig) :=
  [ setting_of comp_auto; setting_of comp_prune; setting_of comp_reserved ].

Definition ExperimentalConfig_settings : list (setting ExperimentalConfig) :=
  [ setting_of exp_disable_paste_summary; setting_of exp_batch_tool;
    setting_of exp_open_telemetry; setting_of_vec exp_primary_tools;
    setting_of exp_continue_loop_on_deny; setting_of exp_mcp_timeout ].

Definition McpServer_settings (m : string) : list (setting McpServer) :=
  [ setting_of mcp_server_type; setting_of_vec mcp_command; setting_at_opt m mcp_environment;
    setting_of mcp_url; setting_of mcp_timeout; setting_at_opt m mcp_headers;
    setting_of mcp_oauth ].
(** Whether a server is on; an entry of either form says so. *)

Definition mcp_switch (c : McpServerConfig) : option bool :=
  match c with Enabled enabled => Some enabled | Full server => mcp_enabled server end.

Definition mcp_full (c : McpServerConfig) : option McpServer :=
  match c with Enabled _ => None | Full server => Some server end.

Definition McpServerConfig_settings (m : string) : list (setting McpServerConfig) :=
  setting_of mcp_switch :: (in_option mcp_full <$> McpServer_settings m).

Definition Config_settings (depth : nat) (k m v x : string) : list (setting Config) :=
  [ setting_of cfg_schema; setting_of cfg_theme; setting_of cfg_log_level;
    setting_of cfg_task_category_path; setting_at k cfg_skill_paths;
    setting_at k cfg_plugin; setting_at k cfg_plugin_paths; setting_of cfg_snapshot;
    setting_of cfg_share; setting_of cfg_autoupdate; setting_of_vec cfg_disabled_providers;
    setting_of_vec cfg_enabled_providers; setting_of_vec cfg_disabled_tools;
    setting_of_vec cfg_disabled_plugins; setting_of cfg_model; setting_of cfg_small_model;
    setting_of cfg_default_agent; setting_of cfg_username; setting_of cfg_layout;
    setting_of cfg_repair_policy; setting_at_opt k cfg_env; setting_of cfg_runtime_budget ]
  ++ (in_option cfg_keybinds <$> KeybindsConfig_settings)
  ++ (in_option cfg_tui <$> TuiConfig_settings)
  ++ (in_option cfg_server <$> ServerConfig_settings)
  ++ (in_option_map k cfg_command <$> CommandConfig_settings)
  ++ (in_option cfg_skills <$> SkillsConfig_settings)
  ++ (in_option cfg_docs <$> DocsConfig_settings)
  ++ (in_option cfg_watcher <$> WatcherConfig_settings)
  ++ (in_option cfg_agent <$> AgentConfigs_settings k m)
  ++ (in_option_map k cfg_provider <$> ProviderConfig_settings depth m v x)
  ++ (in_option_map k cfg_mcp <$> McpServerConfig_settings m)
  ++ (in_option cfg_ui_preferences <$> UiPreferencesConfig_settings)
  ++ (in_option cfg_permission <$> PermissionConfig_settings m)
  ++ (in_option cfg_web_search <$> WebSearchConfig_settings k)
  ++ (in_option cfg_multimodal <$> MultimodalConfig_settings k)
  ++ (in_option cfg_external_adapter <$> ExternalAdapterConfig_settings k)
  ++ (in_option cfg_enterprise <$> EnterpriseConfig_settings)
  ++ (in_option cfg_compaction <$> CompactionConfig_settings)
  ++ (in_option cfg_experimental <$> ExperimentalConfig_settings).

(** ** The places with rules of their own

    What is left of a configuration: JSON options, the entries of the sections for formatters
    and language servers, instructions and tool imports, the web model. *)

Definition FormatterEntry_settings (v : string) : list (setting FormatterEntry) :=
  [ setting_of fmt_disabled; setting_of_vec fmt_command; setting_at_opt v fmt_environment;
    setting_of_vec fmt_extensions ].

Definition LspServerConfig_settings (v : string) : list (setting LspServerConfig) :=
  [ setting_of_vec lsp_command; setting_of_vec lsp_extensions; setting_of lsp_disabled;
    setting_at_opt v lsp_env ].

Definition entry {T} (key : string) (entries : gmap string T) : option T := entries !! key.

(** The option [o] of the agent [k], of the provider [k], of its model [m]. *)
Definition agent_option (k o : string) (c : Config) : option Value :=
  cfg_agent c ≫= fun agents => (entry k (ags_entries agents) ≫= ag_options) ≫= entry o.
Definition provider_option (k o : string) (c : Config) : option Value :=
  ((cfg_provider c ≫= entry k) ≫= prov_options) ≫= entry o.
Definition model_option (k m o : string) (c : Config) : option Value :=
  ((((cfg_provider c ≫= entry k) ≫= prov_models) ≫= entry m) ≫= mdl_options) ≫= entry o.

Definition Config_json (k m o : string) : list (Config → option Value) :=
  [ agent_option k o; provider_option k o; model_option k m o ].

(** The entries of a section; one that is switched off has none. *)
Definition formatter_entries (c : Config) : gmap string FormatterEntry :=
  match cfg_formatter c with Some (FormatterEnabled entries) => entries | _ => ∅ end.
Definition lsp_servers (c : Config) : gmap string LspServerConfig :=
  match cfg_lsp c with Some (LspEnabled servers) => servers | _ => ∅ end.

(** The web model of a configuration. *)
Definition web_model (c : Config) : option string := cfg_ui_preferences c ≫= ui_web_model.

(** *** The rules, for a layer that is laid over what is [below] it *)

(** Nothing is said about the place at a path. *)
Definition says_nothing (path : list string) (v : option Value) : bool :=
  match v with Some v => json_silent path v | None => true end.

Definition is_leaf (v : Value) : bool := match v with Object _ => false | _ => true end.

(** JSON values, place by place: a leaf of the layer is there, an object of it is one (whose
    members are places of their own), a place of which the layer says nothing is as below, and a
    place under a leaf of the layer is gone. *)
Definition merged_by_path (below layer above : option Value) : Prop :=
  ∀ path,
    match layer ≫= json_get path with
    | Some v => if is_leaf v then above ≫= json_get path = Some v
                else ∃ members, above ≫= json_get path = Some (Object members)
    | None => above ≫= json_get path = if says_nothing path layer then below ≫= json_get path else None
    end.

(** A list that accumulates: what the layer adds comes after what was there. *)
Definition accumulated (below layer above : list string) : Prop :=
  ∃ added, above = below ++ added ∧ added `sublist_of` layer ∧ NoDup added ∧
    ∀ x, x ∈ added ↔ x ∈ layer ∧ x ∉ below.

(** The settings of an entry. *)
Definition overlaid {T} (settings : list (setting T)) (below layer above : option T) : Prop :=
  Forall (fun s => above ≫= get s = merge_option_replace (below ≫= get s) (layer ≫= get s)) settings.

Definition formatter_merged (below layer above : Config) : Prop :=
  match cfg_formatter layer with
  | None => cfg_formatter above = cfg_formatter below
  | Some (FormatterDisabled b) => cfg_formatter above = Some (FormatterDisabled b)
  | Some (FormatterEnabled entries) =>
      cfg_formatter above = Some (FormatterEnabled (formatter_entries above)) ∧
      ∀ name v, overlaid (FormatterEntry_settings v)
        (formatter_entries below !! name) (entries !! name) (formatter_entries above !! name)
  end.

Definition lsp_merged (below layer above : Config) : Prop :=
  match cfg_lsp layer with
  | None => cfg_lsp above = cfg_lsp below
  | Some (LspDisabled b) => cfg_lsp above = Some (LspDisabled b)
  | Some (LspEnabled servers) =>
      cfg_lsp above = Some (LspEnabled (lsp_servers above)) ∧
      ∀ name v, overlaid (LspServerConfig_settings v)
          (lsp_servers below !! name) (servers !! name) (lsp_servers above !! name) ∧
        merged_by_path ((lsp_servers below !! name ≫= lsp_initialization) ≫= entry v)
          ((servers !! name ≫= lsp_initialization) ≫= entry v)
          ((lsp_servers above !! name ≫= lsp_initialization) ≫= entry v)
  end.

(** The empty string clears the web model; when there were no preferences below it is stored. *)
Definition web_model_merged (below layer above : Config) : Prop :=
  web_model above =
  match web_model layer with
  | None => web_model below
  | Some model => if bool_decide (model = "") && has_value (cfg_ui_preferences below) then None else Some model
  end.

Record own_rules (below layer above : Config) : Prop := {
  rule_json : ∀ k m o, Forall (fun f => merged_by_path (f below) (f layer) (f above)) (Config_json k m o);
  rule_formatter : formatter_merged below layer above;
  rule_lsp : lsp_merged below layer above;
  rule_instructions : accumulated (cfg_instructions below) (cfg_instructions layer) (cfg_instructions above);
  rule_tool_imports : accumulated (cfg_tool_imports below) (cfg_tool_imports layer) (cfg_tool_imports above);
  rule_web_model : web_model_merged below layer above
}.

(** ** Merging, setting by setting *)

(** The merged value is the upper layer's if it has one. *)
Definition overlays {T} `{DeepMerge T} (s : setting T) : Prop :=
  ∀ a b, get s (deep_merge a b) = merge_option_replace (get s a) (get s b).

Section overlay.
Context {T : Type} `{DeepMerge T}.

Lemma overlays_vec {A} (f : T → list A) :
  (∀ a b, f (deep_merge a b) = merge_vec_replace_if_non_empty (f a) (f b)) →
  overlays (setting_of_vec f).
Proof. intros Hf a b. cbn. rewrite Hf. by destruct (f b). Qed.

Lemma overlays_at {A} key (f : T → gmap string A) :
  (∀ a b, f (deep_merge a b) = merge_map_overwrite_values (f a) (f b)) →
  overlays (setting_at key f).
Proof. intros Hf a b. cbn. by rewrite Hf, lookup_merge_overwrite. Qed.

Lemma overlays_at_opt {A} key (f : T → option (gmap string A)) :
  (∀ a b, f (deep_merge a b) = merge_option_map_overwrite_values (f a) (f b)) →
  overlays (setting_at_opt key f).
Proof.
  intros Hf a b. cbn. rewrite Hf. destruct (f a), (f b); cbn; try done.
  - apply lookup_merge_overwrite.
  - by destruct (_ !! _).
Qed.

Lemma overlays_has_value {A} (f : T → option A) :
  (∀ a b, f (deep_merge a b) = if has_value (f b) then f b else f a) → overlays (setting_of f).
Proof. intros Hf a b. cbn. by rewrite Hf, if_has_value_eq. Qed.

Context {U : Type} `{DeepMerge U}.

Lemma option_deep_get (s : setting U) (a b : option U) :
  overlays s → merge_option_deep a b ≫= get s = merge_option_replace (a ≫= get s) (b ≫= get s).
Proof. intros Hs. destruct a, b; cbn; rewrite ?Hs; try done. by destruct (get s _). Qed.

Lemma overlays_in_option (f : T → option U) (l : list (setting U)) :
  (∀ a b, f (deep_merge a b) = merge_option_deep (f a) (f b)) →
  Forall overlays l → Forall overlays (in_option f <$> l).
Proof.
  intros Hf Hl. apply Forall_fmap. eapply Forall_impl; [exact Hl|]. intros s Hs a b. cbn.
  rewrite Hf. by apply option_deep_get.
Qed.

Lemma overlays_in_map key (f : T → gmap string U) (l : list (setting U)) :
  (∀ a b, f (deep_merge a b) = merge_map_deep_values (f a) (f b)) →
  Forall overlays l → Forall overlays (in_map key f <$> l).
Proof.
  intros Hf Hl. apply Forall_fmap. eapply Forall_impl; [exact Hl|]. intros s Hs a b. cbn.
  rewrite Hf, lookup_merge_deep. by apply option_deep_get.
Qed.

Lemma overlays_in_option_map key (f : T → option (gmap string U)) (l : list (setting U)) :
  (∀ a b, f (deep_merge a b) = merge_option_map_deep_values (f a) (f b)) →
  Forall overlays l → Forall overlays (in_option_map key f <$> l).
Proof.
  intros Hf Hl. apply Forall_fmap. eapply Forall_impl; [exact Hl|]. intros s Hs a b. cbn.
  rewrite Hf. destruct (f a) as [am|], (f b) as [bm|]; cbn; try done.
  - rewrite lookup_merge_deep. by apply option_deep_get.
  - by destruct (bm !! key ≫= get s).
Qed.
End overlay.

Create HintDb settings.

(** One field at a time; the merge of a field is that of its record by computation. *)
Ltac settings_step :=
  lazymatch goal with
  | |- Forall _ (_ ++ _) => apply Forall_app_2
  | |- Forall _ (in_option _ <$> _) => apply overlays_in_option; [done|]
  | |- Forall _ (in_map _ _ <$> _) => apply overlays_in_map; [done|]
  | |- Forall _ (in_option_map _ _ <$> _) => apply overlays_in_option_map; [done|]
  | |- Forall _ [] => apply Forall_nil_2
  | |- Forall _ (_ :: _) => apply Forall_cons_2
  | |- overlays (setting_of _) => done || (apply overlays_has_value; done)
  | |- overlays (setting_of_vec _) => apply overlays_vec; done
  | |- overlays (setting_at _ _) => apply overlays_at; done
  | |- overlays (setting_at_opt _ _) => apply overlays_at_opt; done
  | |- Forall _ _ => assumption || (progress auto with settings)
  end.

Lemma ModelCostConfig_settings_overlay depth : Forall overlays (ModelCostConfig_settings depth).
Proof.
  assert (Forall overlays ModelCostConfig_rates) as Hrates
    by (repeat constructor; intros a []; done).
  induction depth as [|depth IH]; cbn [ModelCostConfig_settings]; (apply Forall_app_2; [done|]).
  - by apply Forall_nil_2.
  - apply overlays_in_option; [|done]. by intros a [].
Qed.
#[export] Hint Resolve ModelCostConfig_settings_overlay : settings.
Lemma KeybindsConfig_settings_overlay : Forall overlays KeybindsConfig_settings.
Proof. unfold KeybindsConfig_settings. repeat settings_step. Qed.
#[export] Hint Resolve KeybindsConfig_settings_overlay : settings.
Lemma TuiConfig_settings_overlay : Forall overlays TuiConfig_settings.
Proof. unfold TuiConfig_settings. repeat settings_step. Qed.
#[export] Hint Resolve TuiConfig_settings_overlay : settings.
Lemma ServerConfig_settings_overlay : Forall overlays ServerConfig_settings.
Proof. unfold ServerConfig_settings. repeat settings_step. Qed.
#[export] Hint Resolve ServerConfig_settings_overlay : settings.
Lemma CommandConfig_settings_overlay : Forall overlays CommandConfig_settings.
Proof. unfold CommandConfig_settings. repeat settings_step. Qed.
#[export] Hint Resolve CommandConfig_settings_overlay : settings.
Lemma SkillHubConfig_settings_overlay : Forall overlays SkillHubConfig_settings.
Proof. unfold SkillHubConfig_settings. repeat settings_step. Qed.
#[export] Hint Resolve SkillHubConfig_settings_overlay : settings.
Lemma SkillsConfig_settings_overlay : Forall overlays SkillsConfig_settings.
Proof. unfold SkillsConfig_settings. repeat settings_step. Qed.
#[export] Hint Resolve SkillsConfig_settings_overlay : settings.
Lemma DocsConfig_settings_overlay : Forall overlays DocsConfig_settings.
Proof. unfold DocsConfig_settings. repeat settings_step. Qed.
#[export] Hint Resolve DocsConfig_settings_overlay : settings.
Lemma WatcherConfig_settings_overlay : Forall overlays WatcherConfig_settings.
Proof. unfold WatcherConfig_settings. repeat settings_step. Qed.
#[export] Hint Resolve WatcherConfig_settings_overlay : settings.
Lemma PermissionConfig_settings_overlay m : Forall overlays (PermissionConfig_settings m).
Proof. unfold PermissionConfig_settings. repeat settings_step. Qed.
#[export] Hint Resolve PermissionConfig_settings_overlay : settings.
Lemma AgentConfig_settings_overlay m : Forall overlays (AgentConfig_settings m).
Proof. unfold AgentConfig_settings. repeat settings_step. Qed.
#[export] Hint Resolve AgentConfig_settings_overlay : settings.
Lemma AgentConfigs_settings_overlay k m : Forall overlays (AgentConfigs_settings k m).
Proof. unfold AgentConfigs_settings. repeat settings_step. Qed.
#[export] Hint Resolve AgentConfigs_settings_overlay : settings.
Lemma ModelVariantConfig_settings_overlay x : Forall overlays (ModelVariantConfig_settings x).
Proof. unfold ModelVariantConfig_settings. repeat settings_step. Qed.
#[export] Hint Resolve ModelVariantConfig_settings_overlay : settings.
Lemma ModelModalities_settings_overlay : Forall overlays ModelModalities_settings.
Proof. unfold ModelModalities_settings. repeat settings_step. Qed.
#[export] Hint Resolve ModelModalities_settings_overlay : settings.
Lemma ModelLimitConfig_settings_overlay : Forall overlays ModelLimitConfig_settings.
Proof. unfold ModelLimitConfig_settings. repeat settings_step. Qed.
#[export] Hint Resolve ModelLimitConfig_settings_overlay : settings.
Lemma ModelProviderConfig_settings_overlay : Forall overlays ModelProviderConfig_settings.
Proof. unfold ModelProviderConfig_settings. repeat settings_step. Qed.
#[export] Hint Resolve ModelProviderConfig_settings_overlay : settings.
Lemma ModelConfig_settings_overlay depth v x : Forall overlays (ModelConfig_settings depth v x).
Proof. unfold ModelConfig_settings. repeat settings_step. Qed.
#[export] Hint Resolve ModelConfig_settings_overlay : settings.
Lemma ProviderConfig_settings_overlay depth m v x : Forall overlays (ProviderConfig_settings depth m v x).
Proof. unfold ProviderConfig_settings. repeat settings_step. Qed.
#[export] Hint Resolve ProviderConfig_settings_overlay : settings.
Lemma UiPreferencesConfig_settings_overlay : Forall overlays UiPreferencesConfig_settings.
Proof. unfold UiPreferencesConfig_settings. repeat settings_step. Qed.
#[export] Hint Resolve UiPreferencesConfig_settings_overlay : settings.
Lemma WebSearchConfig_settings_overlay k : Forall overlays (WebSearchConfig_settings k).
Proof. unfold WebSearchConfig_settings. repeat settings_step. Qed.
#[export] Hint Resolve WebSearchConfig_settings_overlay : settings.
Lemma VoiceCommandConfig_settings_overlay k : Forall overlays (VoiceCommandConfig_settings k).
Proof. unfold VoiceCommandConfig_settings. repeat settings_step. Qed.
#[export] Hint Resolve VoiceCommandConfig_settings_overlay : settings.
Lemma VoiceConfig_settings_overlay k : Forall overlays (VoiceConfig_settings k).
Proof. unfold VoiceConfig_settings. repeat settings_step. Qed.
#[export] Hint Resolve VoiceConfig_settings_overlay : settings.
Lemma MultimodalLimitsConfig_settings_overlay : Forall overlays MultimodalLimitsConfig_settings.
Proof. unfold MultimodalLimitsConfig_settings. repeat settings_step. Qed.
#[export] Hint Resolve MultimodalLimitsConfig_settings_overlay : settings.
Lemma MultimodalAttachmentPolicyConfig_settings_overlay : Forall overlays MultimodalAttachmentPolicyConfig_settings.
Proof. unfold MultimodalAttachmentPolicyConfig_settings. repeat settings_step. Qed.
#[export] Hint Resolve MultimodalAttachmentPolicyConfig_settings_overlay : settings.
Lemma MultimodalConfig_settings_overlay k : Forall overlays (MultimodalConfig_settings k).
Proof. unfold MultimodalConfig_settings. repeat settings_step. Qed.
#[export] Hint Resolve MultimodalConfig_settings_overlay : settings.
Lemma ExternalAdapterEntryConfig_settings_overlay : Forall overlays ExternalAdapterEntryConfig_settings.
Proof. unfold ExternalAdapterEntryConfig_settings. repeat settings_step. Qed.
#[export] Hint Resolve ExternalAdapterEntryConfig_settings_overlay : settings.
Lemma ExternalAdapterReplayConfig_settings_overlay : Forall overlays ExternalAdapterReplayConfig_settings.
Proof. unfold ExternalAdapterReplayConfig_settings. repeat settings_step. Qed.
#[export] Hint Resolve ExternalAdapterReplayConfig_settings_overlay : settings.
Lemma ExternalAdapterConfig_settings_overlay k : Forall overlays (ExternalAdapterConfig_settings k).
Proof. unfold ExternalAdapterConfig_settings. repeat settings_step. Qed.
#[export] Hint Resolve ExternalAdapterConfig_settings_overlay : settings.
Lemma EnterpriseConfig_settings_overlay : Forall overlays EnterpriseConfig_settings.
Proof. unfold EnterpriseConfig_settings. repeat settings_step. Qed.
#[export] Hint Resolve EnterpriseConfig_settings_overlay : settings.
Lemma CompactionConfig_settings_overlay : Forall overlays CompactionConfig_settings.
Proof. unfold CompactionConfig_settings. repeat settings_step. Qed.
#[export] Hint Resolve CompactionConfig_settings_overlay : settings.
Lemma ExperimentalConfig_settings_overlay : Forall overlays ExperimentalConfig_settings.
Proof. unfold ExperimentalConfig_settings. repeat settings_step. Qed.
#[export] Hint Resolve ExperimentalConfig_settings_overlay : settings.
Lemma McpServer_settings_overlay m : Forall overlays (McpServer_settings m).
Proof. unfold McpServer_settings. repeat settings_step. Qed.
#[export] Hint Resolve McpServer_settings_overlay : settings.
Lemma McpServerConfig_settings_overlay m : Forall overlays (McpServerConfig_settings m).
Proof.
  apply Forall_cons_2.
  - intros [ea|[]] [eb|[? ? ? ? [] ? ? ?]]; done.
  - apply Forall_fmap. pose proof (McpServer_settings_overlay m) as Hall.
    assert (Forall (fun s => ∀ t e, get s (with_enabled t e) = get s t) (McpServer_settings m)) as Hen
      by (repeat constructor).
    rewrite Forall_forall in Hall, Hen. apply Forall_forall. intros s Hs [ea|a] [eb|b]; cbn.
    + done.
    + destruct (mcp_enabled b); rewrite ?Hen by done; by destruct (get s b).
    + by rewrite Hen.
    + by apply Hall.
Qed.
#[export] Hint Resolve McpServerConfig_settings_overlay : settings.
Lemma Config_settings_overlay depth k m v x : Forall overlays (Config_settings depth k m v x).
Proof. unfold Config_settings. repeat settings_step. Qed.
#[export] Hint Resolve Config_settings_overlay : settings.

(** ** Properties *)

(** The last of the values that are there. *)
Definition last_set {A} (values : list (option A)) : option A := last (omap id values).

Lemma last_set_snoc {A} (values : list (option A)) (v : option A) :
  last_set (values ++ [v]) = merge_option_replace (last_set values) v.
Proof.
  unfold last_set. rewrite omap_app. destruct v as [v|]; cbn; [by rewrite last_snoc|].
  by rewrite app_nil_r.
Qed.

Lemma overlays_layers (s : setting Config) base layers :
  overlays s →
  get s (merge_layers base layers) = merge_option_replace (get s base) (last_set (get s <$> layers)).
Proof.
  intros Hs. unfold merge_layers. induction layers as [|l layers IH] using rev_ind; [done|].
  rewrite foldl_app, fmap_app. change (get s <$> [l]) with [get s l].
  rewrite last_set_snoc, replace_group, <- IH. apply Hs.
Qed.

(** *** The places with rules of their own *)

Lemma merge_layers_snoc base layers layer :
  merge_layers base (layers ++ [layer]) = Config_merge (merge_layers base layers) layer.
Proof. unfold merge_layers. by rewrite foldl_app. Qed.

Lemma merge_by_path below layer : merged_by_path below layer (merge_option_deep below layer).
Proof.
  intros path. destruct layer as [w|]; cbn; [|done].
  destruct below as [u|]; cbn.
  - unfold deep_merge, Value_DeepMerge. rewrite json_get_merge.
    destruct (json_get path w) as [v|]; cbn; [|by destruct (json_silent _ _)].
    destruct (json_get path u) as [t|]; cbn; [|destruct v; naive_solver].
    destruct v; cbn; destruct t; eauto.
  - destruct (json_get path w) as [v|]; [|by destruct (json_silent _ _)].
    destruct v; naive_solver.
Qed.

(** Parts that are merged where both layers have them. *)
Definition merges {T U} `{DeepMerge T, DeepMerge U} (f : T → option U) : Prop :=
  ∀ a b, f (deep_merge a b) = merge_option_deep (f a) (f b).

#[local] Instance entries_DeepMerge {T} `{DeepMerge T} : DeepMerge (gmap string T) := merge_map_deep_values.

Lemma merges_bind {T U V} `{DeepMerge T, DeepMerge U, DeepMerge V} (f : T → option U) (g : U → option V) :
  merges f → merges g → merges (fun c => f c ≫= g).
Proof.
  intros Hf Hg a b. rewrite Hf. destruct (f a), (f b); cbn; [apply Hg| | |]; try done.
  by destruct (g _).
Qed.

Lemma merges_key {T} `{DeepMerge T} key : merges (entry (T := T) key).
Proof. intros a b. apply lookup_merge_deep. Qed.

Lemma merges_part {T U} `{DeepMerge T, DeepMerge U} (part : T → U) :
  (∀ a b, part (deep_merge a b) = deep_merge (part a) (part b)) → merges (fun c => Some (part c)).
Proof. intros Hp a b. cbn. by rewrite Hp. Qed.

Lemma Config_json_merges k m o : Forall merges (Config_json k m o).
Proof.
  repeat apply Forall_cons_2; [| | |by apply Forall_nil_2].
  - apply merges_bind; [done|].
    apply merges_bind; [|apply merges_key].
    apply merges_bind; [|done].
    apply (merges_bind (fun agents => Some (ags_entries agents)) (entry k));
      [by apply merges_part|apply merges_key].
  - by repeat (apply merges_bind; [|apply merges_key || done]).
  - by repeat (apply merges_bind; [|apply merges_key || done]).
Qed.

(** The entries of a section, in the interface of the settings. *)
Lemma FormatterEntry_settings_overlay v : Forall overlays (FormatterEntry_settings v).
Proof. unfold FormatterEntry_settings. repeat settings_step. Qed.
Lemma LspServerConfig_settings_overlay v : Forall overlays (LspServerConfig_settings v).
Proof. unfold LspServerConfig_settings. repeat settings_step. Qed.

Lemma merge_overlaid {T} `{DeepMerge T} (settings : list (setting T)) below layer :
  Forall overlays settings → overlaid settings below layer (merge_option_deep below layer).
Proof. intros Hs. eapply Forall_impl; [exact Hs|]. intros s Ho. by apply option_deep_get. Qed.

(** An entry of a section after a layer, whatever was below. *)
Lemma merge_overlaid_at {T} `{DeepMerge T} (settings : list (setting T)) (below layer : gmap string T) name :
  Forall overlays settings →
  overlaid settings (below !! name) (layer !! name) (merge_map_deep_values below layer !! name).
Proof. rewrite lookup_merge_deep. apply merge_overlaid. Qed.

(** What is laid over nothing is the layer. *)
Lemma merge_over_nothing {T} `{DeepMerge T} (layer : gmap string T) : merge_map_deep_values ∅ layer = layer.
Proof. apply map_eq. intros k. rewrite lookup_merge_deep, lookup_empty. by destruct (_ !! k). Qed.

Lemma formatter_rule below layer : formatter_merged below layer (Config_merge below layer).
Proof.
  unfold formatter_merged. destruct (cfg_formatter layer) as [[b|entries]|] eqn:Hl.
  - unfold Config_merge; cbn. rewrite Hl. by destruct (cfg_formatter below) as [[]|].
  - assert (cfg_formatter (Config_merge below layer) =
        Some (FormatterEnabled (merge_map_deep_values (formatter_entries below) entries))) as He.
    { unfold Config_merge, formatter_entries; cbn. rewrite Hl.
      destruct (cfg_formatter below) as [[]|]; cbn; by rewrite ?merge_over_nothing. }
    unfold formatter_entries at 1 3. rewrite He. split; [done|]. intros name v.
    apply merge_overlaid_at, FormatterEntry_settings_overlay.
  - unfold Config_merge; cbn. by rewrite Hl.
Qed.

Lemma initialization_rule (below layer : option LspServerConfig) v :
  merged_by_path ((below ≫= lsp_initialization) ≫= entry v) ((layer ≫= lsp_initialization) ≫= entry v)
    ((merge_option_deep below layer ≫= lsp_initialization) ≫= entry v).
Proof.
  assert (∀ f : LspServerConfig → option (gmap string Value), merges f →
    (merge_option_deep below layer ≫= f) ≫= entry v =
    merge_option_deep ((below ≫= f) ≫= entry v) ((layer ≫= f) ≫= entry v)) as He.
  { intros f Hf. destruct below as [b|], layer as [l|]; cbn; try done.
    - apply (merges_bind f (entry v) Hf (merges_key v)).
    - destruct (f l) as [entries|]; cbn; [|done]. by destruct (entry v entries). }
  rewrite He by done. apply merge_by_path.
Qed.

Lemma lsp_rule below layer : lsp_merged below layer (Config_merge below layer).
Proof.
  unfold lsp_merged. destruct (cfg_lsp layer) as [[b|servers]|] eqn:Hl.
  - unfold Config_merge; cbn. rewrite Hl. by destruct (cfg_lsp below) as [[]|].
  - assert (cfg_lsp (Config_merge below layer) =
        Some (LspEnabled (merge_map_deep_values (lsp_servers below) servers))) as He.
    { unfold Config_merge, lsp_servers; cbn. rewrite Hl.
      destruct (cfg_lsp below) as [[]|]; cbn; by rewrite ?merge_over_nothing. }
    unfold lsp_servers at 1 3 5. rewrite He. split; [done|]. intros name v. split.
    + apply merge_overlaid_at, LspServerConfig_settings_overlay.
    + rewrite lookup_merge_deep. apply initialization_rule.
  - unfold Config_merge; cbn. by rewrite Hl.
Qed.

Lemma merge_accumulates below layer : accumulated below layer (append_unique_keep_order below layer).
Proof.
  exists (new_items below layer). rewrite append_unique_new. split; [done|].
  revert below. induction layer as [|x layer IH]; intros below; cbn.
  { split_and!; [done|constructor|intros y; rewrite elem_of_nil; naive_solver]. }
  case_bool_decide as Hx.
  - destruct (IH below) as (Hs & Hn & He). split_and!; [by constructor|done|].
    intros y. rewrite He, elem_of_cons. naive_solver.
  - destruct (IH (below ++ [x])) as (Hs & Hn & He). split_and!; [by constructor| |].
    + constructor; [|done]. rewrite He, elem_of_app, list_elem_of_singleton. naive_solver.
    + intros y. rewrite !elem_of_cons, He, elem_of_app, list_elem_of_singleton.
      destruct (decide (y = x)); naive_solver.
Qed.

(** The web model after a merge: an upper layer without preferences or without a model
    leaves it, a name replaces it and the empty string clears it.  But when the lower layer
    has no preferences at all, the upper layer's are taken over as they are, and the empty string
    is stored as the model. *)
Lemma web_model_after_merge base patch :
  web_model (Config_merge base patch) =
  match web_model patch with
  | None => web_model base
  | Some model =>
      if bool_decide (model = "") && has_value (cfg_ui_preferences base) then None else Some model
  end.
Proof.
  unfold web_model. destruct base, patch; cbn.
  destruct cfg_ui_preferences as [u|], cfg_ui_preferences0 as [w|]; cbn; try done.
  - unfold merge_web_model. destruct (ui_web_model w); [|done]. by rewrite andb_true_r.
  - destruct (ui_web_model w); [|done]. by rewrite andb_false_r.
Qed.

Lemma merge_own_rules below layer : own_rules below layer (Config_merge below layer).
Proof.
  split; [|apply formatter_rule|apply lsp_rule|apply merge_accumulates..|apply web_model_after_merge].
  intros k m o. eapply Forall_impl; [apply Config_json_merges|]. intros f Hf.
  rewrite (Hf below layer : f (Config_merge below layer) = _). apply merge_by_path.
Qed.

(** C20. Merging layers of configuration over a base.  Wherever layers overwrite each other ([Config_settings]
    lists these places: the fields and map keys of all parts, and the lists that are replaced when they are
    not empty, for any names of entries and any depth of price tables), the value is that of the last layer that
    sets it, the base's if no layer does.  The other places have rules of their own, which say what a further layer makes of
    what was below it: the JSON options of agents, providers and models merge by path; a formatter or language server section
    that is switched off drops the entries below, and otherwise its entries overlay them (the
    initialization options by path); new instructions and tool imports are appended, each once; and the
    empty string clears the web model, unless there were no preferences below, when it is stored. *)
Theorem last_layer_wins depth k m v x :
  Forall (fun s : setting Config => ∀ base layers,
    get s (merge_layers base layers) =
    merge_option_replace (get s base) (last_set (get s <$> layers)))
  (Config_settings depth k m v x) ∧
  ∀ base layers layer,
    own_rules (merge_layers base layers) layer (merge_layers base (layers ++ [layer])).
Proof.
  split.
  - eapply Forall_impl; [apply Config_settings_overlay|]. intros s Hs base layers.
    by apply overlays_layers.
  - intros base layers layer. rewrite merge_layers_snoc. apply merge_own_rules.
Qed.

(** Two layers may be merged into each other first and then, as one, between the
    others, provided that they are [compatible]: the upper one puts no JSON object over a
    leaf, no entries over a section that is switched off, and no empty string (which clears) into the
    web model. *)
Lemma layers_may_be_grouped base lower b c upper :
  compatible b c →
  merge_layers base (lower ++ b :: c :: upper) = merge_layers base (lower ++ Config_merge b c :: upper).
Proof.
  intros Hbc. unfold merge_layers. rewrite !foldl_app. cbn. f_equal.
  symmetry. by apply (merge_group (T := Config)).
Qed.

Definition demo_config (models : gmap string ProviderConfig) : Config :=
  {| cfg_schema := None; cfg_theme := Some "dark"; cfg_keybinds := None; cfg_log_level := None;
       cfg_tui := None; cfg_server := None; cfg_command := None; cfg_skills := None; cfg_docs := None;
       cfg_task_category_path := None; cfg_skill_paths := ∅; cfg_watcher := None; cfg_plugin := ∅;
       cfg_plugin_paths := ∅; cfg_tool_imports := []; cfg_snapshot := None; cfg_share := None;
       cfg_autoupdate := None; cfg_disabled_providers := []; cfg_enabled_providers := [];
       cfg_disabled_tools := []; cfg_disabled_plugins := []; cfg_model := None; cfg_small_model := None;
       cfg_default_agent := None; cfg_username := None; cfg_agent := None; cfg_provider := Some models;
       cfg_mcp := None; cfg_formatter := None; cfg_lsp := None; cfg_instructions := ["a"];
       cfg_layout := None; cfg_ui_preferences := None; cfg_permission := None; cfg_web_search := None;
       cfg_multimodal := None; cfg_external_adapter := None; cfg_enterprise := None;
       cfg_compaction := None; cfg_repair_policy := None; cfg_experimental := None; cfg_env := None;
       cfg_runtime_budget := None |}.

(** A configuration that asks to clear the web model. *)
Definition clears_web_model (c : Config) : Prop := cfg_ui_preferences c ≫= ui_web_model = Some "".

(** A patch that is applied a second time changes nothing, unless it clears
    the web model of a configuration that had no preferences. *)
Lemma merging_twice_is_merging_once base patch :
  (clears_web_model patch → has_value (cfg_ui_preferences base) = true) →
  Config_merge (Config_merge base patch) patch = Config_merge base patch.
Proof.
  intros Hui. unfold Config_merge; cbn; f_equal; eauto with merge;
    try apply option_deep_again, compatible_option_self.
  { apply option_map_deep_again, compatible_option_map_self. }
  unfold clears_web_model in Hui.
  destruct (cfg_ui_preferences patch) as [w|], (cfg_ui_preferences base) as [u|]; cbn in *; try done.
  - f_equal. unfold deep_merge, UiPreferencesConfig_DeepMerge, UiPreferencesConfig_deep_merge; cbn.
    f_equal; eauto with merge. destruct (ui_web_model w) as [m|]; [|done]. cbn. by case_bool_decide.
  - f_equal. apply (merge_self (T := UiPreferencesConfig)). cbn. intros Hc. by specialize (Hui Hc).
Qed.

(** JSON options merge by path: at every path of member names the merged value is the upper
    layer's if it has one there, merged in turn with the lower layer's; where the upper
    layer says nothing the lower layer's value stays, and where it has a leaf on the way it
    hides all that the lower layer had below. *)
Lemma options_merge_by_path path lower upper :
  json_get path (merge_json_value lower upper) =
  match json_get path upper with
  | Some v =>
      match json_get path lower with
      | Some u => Some (merge_json_value u v)
      | None => Some v
      end
  | None => if json_silent path upper then json_get path lower else None
  end.
Proof. apply json_get_merge. Qed.

(** Instructions and tool imports accumulate: after layers have been merged, the list is that of
    the base followed by the other entries of the layers, in order, each once. *)
Lemma lists_accumulate base layers :
  cfg_instructions (merge_layers base layers) =
    append_unique_keep_order (cfg_instructions base) (layers ≫= cfg_instructions) ∧
  cfg_tool_imports (merge_layers base layers) =
    append_unique_keep_order (cfg_tool_imports base) (layers ≫= cfg_tool_imports) ∧
  (∀ target source x, x ∈ append_unique_keep_order target source ↔ x ∈ target ∨ x ∈ source) ∧
  (∀ target source, NoDup target → NoDup (append_unique_keep_order target source)).
Proof.
  split_and!; [| |apply elem_of_append_unique|apply append_unique_nodup].
  all: unfold merge_layers; revert base; induction layers as [|l layers IH]; intros base; [done|].
  all: cbn [foldl mbind list_bind]; rewrite IH; unfold append_unique_keep_order; by rewrite foldl_app.
Qed.
