(* ===== verification/ConfigFiles.v ===== *)
(** * Where configuration comes from

    [agendao-config/src/loader/]: paths as the loader writes them, the references
    [{env:..}] and [{file:..}] of a configuration text ([file_ops.rs]), the
    directories and files that are searched ([discovery.rs]), definitions in Markdown
    ([markdown_parser.rs]), plugin specifications ([schema/plugin.rs]) and the
    patterns of [disabled_*] lists ([matching.rs]).

    A [PathBuf] is its text, because the loader puts it back into the configuration; two
    are equal when their components are.  The file system does not change
    while a configuration is loaded.  Parameters: what the regular expressions match, the
    JSONC and YAML parsers, the home directory, the order of directory entries. *)

From S2P Require Import Prelude Json TextLines FileSystem ConfigSchema.
From stdpp Require Import options.

Abbreviation PathBuf := string.

(** ** Paths as text *)

(** [base.join(p)] *)
Definition join_text (base p : PathBuf) : PathBuf :=
  if starts_with "/" p then p
  else if bool_decide (base = "") || ends_with "/" base then base +:+ p
  else base +:+ "/" +:+ p.

(** [a == b] *)
Definition same_path (a b : PathBuf) : bool := bool_decide (components a = components b).

Definition skipped_part (part : string) : bool :=
  bool_decide (part = "") || bool_decide (part = ".").

Definition drop_last_while {A} (P : A → bool) (l : list A) : list A :=
  reverse (drop_while P (reverse l)).

(** [path.parent()]: the text before the last component, without the separators and the
    dots between. *)
Definition parent_text (p : PathBuf) : option PathBuf :=
  match split_on slash p with
  | [] => None
  | head :: rest =>
      match drop_last_while skipped_part rest with
      | [] => if bool_decide (head = "") then None else Some ""
      | rest =>
          let above := drop_last_while skipped_part (removelast rest) in
          Some (if bool_decide (head = "") && bool_decide (above = []) then "/"
                else str_join "/" (head :: above))
      end
  end.

Definition file_name_text (p : PathBuf) : option string := file_name (components p).

(** The dot that starts the extension of a file name. *)
Definition extension_dot (name : string) : option nat :=
  match rfind_sub "." name with Some 0 | None => None | Some i => Some i end.

(** [path.file_stem()] *)
Definition file_stem (p : PathBuf) : option string :=
  name ← file_name_text p;
  Some (match extension_dot name with Some i => str_take i name | None => name end).

(** [path.extension()] *)
Definition extension (p : PathBuf) : option string :=
  name ← file_name_text p;
  i ← extension_dot name;
  Some (str_drop (S i) name).

(** [s.trim_start_matches(c)] and [s.trim_end_matches(c)] for a character [c] of one byte *)
Fixpoint trim_start_matches (c : Ascii.ascii) (s : string) : string :=
  match s with
  | String d rest => if decide (c = d) then trim_start_matches c rest else s
  | EmptyString => EmptyString
  end.
Fixpoint trim_end_matches (c : Ascii.ascii) (s : string) : string :=
  match s with
  | EmptyString => EmptyString
  | String d rest =>
      match trim_end_matches c rest with
      | EmptyString => if decide (c = d) then EmptyString else String d EmptyString
      | trimmed => String d trimmed
      end
  end.

(** ** The machine a configuration is loaded on *)

(** The operating systems with Unix paths; the Windows branch is left out. *)
Inductive Os := MacOs | OtherUnix.

Record Host := {
  host_fs : FS;
  env_var : string → option string;      (** [env::var(name).ok()] *)
  home_dir : option PathBuf;             (** [dirs::home_dir()] *)
  host_os : Os;
  dir_order : PathBuf → list string → list string   (** the order of [read_dir] *)
}.

Definition exists_at (h : Host) (p : PathBuf) : bool := path_exists (host_fs h) (components p).
Definition is_dir_at (h : Host) (p : PathBuf) : bool := is_dir (host_fs h) (components p).
Definition is_file_at (h : Host) (p : PathBuf) : bool :=
  match metadata (host_fs h) (components p) with Ok (Node_.File _) => true | _ => false end.
Definition read_text (h : Host) (p : PathBuf) : result IoError string :=
  read_to_string (host_fs h) (components p).

(** The names in a directory. *)
Definition child_name (dir : Loc) (k : Loc) : option string :=
  match last k with
  | Some name => if bool_decide (k = dir ++ [name]) then Some name else None
  | None => None
  end.
Definition dir_names (fs : FS) (dir : Loc) : list string :=
  omap (child_name dir) (fst <$> map_to_list (fs_nodes fs)).

(** [fs::read_dir]: the entries' paths. *)
Definition read_dir (h : Host) (dir : PathBuf) : result IoError (list PathBuf) :=
  let? k := lookup_path (host_fs h) false (components dir) in
  match node (host_fs h) k with
  | Some Node_.Dir => Ok (join_text dir <$> dir_order h dir (dir_names (host_fs h) k))
  | Some _ => Err NotADirectory
  | None => Err NotFound
  end.

(** [agendao_util::agendao_home] *)
Definition agendao_home (h : Host) : PathBuf :=
  let fallback := join_text (default "." (home_dir h)) ".agendao" in
  match env_var h "AGENDAO_HOME" with
  | Some value => let value := trim value in if bool_decide (value = "") then fallback else value
  | None => fallback
  end.

Definition normalize_existing_path (h : Host) (p : PathBuf) : PathBuf :=
  match canonicalize (host_fs h) (components p) with Ok q => path_text q | Err _ => p end.

(** ** [discovery.rs]: ancestors *)

(** The loop of [detect_worktree_stop]; every turn goes to the parent. *)
Fixpoint worktree_stop_from (h : Host) (fuel : nat) (current topmost : PathBuf) : PathBuf :=
  match fuel with
  | O => topmost
  | S fuel =>
      if exists_at h (join_text current ".git") then current
      else match parent_text current with
           | None => topmost
           | Some parent =>
               if same_path parent current then topmost
               else worktree_stop_from h fuel parent parent
           end
  end.

(** No path has more ancestors than bytes. *)
Definition ancestor_fuel (p : PathBuf) : nat := S (String.length p).

Definition detect_worktree_stop (h : Host) (start : PathBuf) : PathBuf :=
  let current := normalize_existing_path h start in
  worktree_stop_from h (ancestor_fuel current) current current.

Fixpoint find_up_from (h : Host) (target : string) (stop : PathBuf) (fuel : nat) (current : PathBuf)
    : list PathBuf :=
  match fuel with
  | O => []
  | S fuel =>
      let candidate := join_text current target in
      (if exists_at h candidate then [candidate] else []) ++
      (if same_path current stop then []
       else match parent_text current with
            | None => []
            | Some parent =>
                if same_path parent current then [] else find_up_from h target stop fuel parent
            end)
  end.

Definition find_up (h : Host) (target : string) (start stop : PathBuf) : list PathBuf :=
  let current := normalize_existing_path h start in
  find_up_from h target (normalize_existing_path h stop) (ancestor_fuel current) current.

Definition get_managed_config_dir (h : Host) : PathBuf :=
  match env_var h "AGENDAO_TEST_MANAGED_CONFIG_DIR" with
  | Some test_dir => test_dir
  | None =>
      match host_os h with
      | MacOs => "/Library/Application Support/agendao"
      | OtherUnix => "/etc/agendao"
      end
  end.

Definition get_global_config_paths (h : Host) : list PathBuf :=
  let agendao_dir := agendao_home h in
  [join_text agendao_dir "agendao.jsonc"; join_text agendao_dir "agendao.json"].

(** [v.contains(p)], and [retain] or the loop that keep the first of equal paths. *)
Definition has_path (l : list PathBuf) (p : PathBuf) : bool := existsb (same_path p) l.
Definition push_new (l : list PathBuf) (p : PathBuf) : list PathBuf :=
  if has_path l p then l else l ++ [p].
Definition dedup_paths (l : list PathBuf) : list PathBuf := foldl push_new [] l.

Definition collect_agendao_directories (h : Host) (project_dir : PathBuf) : list PathBuf :=
  let global := filter (fun dir => exists_at h dir = true)
                  (omap parent_text (get_global_config_paths h)) in
  let start_dir := normalize_existing_path h project_dir in
  let local_agendao_dir := join_text start_dir ".agendao" in
  let directories := global ++ (if is_dir_at h local_agendao_dir then [local_agendao_dir] else []) in
  let home_agendao := agendao_home h in
  let directories :=
    if exists_at h home_agendao then push_new directories home_agendao else directories in
  let directories :=
    match env_var h "AGENDAO_CONFIG_DIR" with
    | Some dir => push_new directories dir
    | None => directories
    end in
  dedup_paths directories.

Definition resolve_configured_path (h : Host) (base : PathBuf) (raw : string) : PathBuf :=
  match strip_prefix "~/" raw, home_dir h with
  | Some stripped, Some home => join_text home stripped
  | _, _ => if starts_with "/" raw then raw else join_text base raw
  end.

(** The byte order of strings, which [names.sort()] sorts by. *)
Definition string_le (a b : string) : Prop := String.leb a b = true.
#[export] Instance string_le_dec a b : Decision (string_le a b).
Proof. unfold string_le. apply _. Defined.

Definition collect_plugin_roots (h : Host) (project_dir : PathBuf) (plugin_paths : gmap string string)
    : list PathBuf :=
  let start_dir := normalize_existing_path h project_dir in
  let stop_dir := detect_worktree_stop h start_dir in
  let found := find_up h ".agendao" start_dir stop_dir in
  let names := merge_sort string_le (fst <$> map_to_list plugin_paths) in
  dedup_paths
    ([join_text (agendao_home h) "plugins"] ++
     ((fun path => join_text path "plugins") <$> reverse found) ++
     omap (fun name => resolve_configured_path h project_dir <$> plugin_paths !! name) names).

(** ** [discovery.rs]: plugins *)

Definition plugin_spec (p : PathBuf) : string := "file://" +:+ p.

Definition collect_plugin_entry (h : Host) (path : PathBuf) : list string :=
  if is_file_at h path then
    match extension path with
    | Some ext => if bool_decide (ext ∈ ["ts"; "js"; "mjs"]) then [plugin_spec path] else []
    | None => []
    end
  else if is_dir_at h path then
    if bool_decide (file_name_text path = Some "web") then []
    else match filter (fun p => is_file_at h p = true)
                 (join_text path <$> ["index.ts"; "index.js"; "index.mjs"]) with
         | entry_path :: _ => [plugin_spec entry_path]
         | [] => []
         end
  else [].

(** [load_plugins_from_path], with [collect_plugins_in_dir]. *)
Definition load_plugins_from_path (h : Host) (dir : PathBuf) : list string :=
  if is_dir_at h dir then
    match read_dir h dir with
    | Ok entries => entries ≫= collect_plugin_entry h
    | Err _ => []
    end
  else [].

(** [PluginConfig::from_file_spec] *)
Definition plugin_of (plugin_type : string) (package version path : option string) : PluginConfig :=
  {| plug_plugin_type := plugin_type; plug_package := package; plug_version := version;
     plug_path := path; plug_runtime := None; plug_options := ∅ |}.

Definition from_file_spec (spec : string) : string * PluginConfig :=
  let path := default spec (strip_prefix "file://" spec) in
  (default "plugin" (file_stem path), plugin_of "file" None None (Some path)).

Definition parse_npm_spec (spec : string) : string * string :=
  match strip_prefix "@" spec with
  | Some stripped =>
      match find_sub "@" stripped with
      | Some idx => (str_take (S idx) spec, str_drop (S (S idx)) spec)
      | None => (spec, "*")
      end
  | None =>
      match find_sub "@" spec with
      | Some idx => (str_take idx spec, str_drop (S idx) spec)
      | None => (spec, "*")
      end
  end.

Definition at_sign : Ascii.ascii := Ascii.ascii_of_nat 64.

Definition from_npm_spec (spec : string) : string * PluginConfig :=
  let '(pkg_name, version) := parse_npm_spec spec in
  (str_replace "/" "-" (trim_start_matches at_sign pkg_name),
   plugin_of "npm" (Some pkg_name) (if bool_decide (version = "*") then None else Some version) None).

Definition from_dylib_path (path : string) : string * PluginConfig :=
  (match file_stem path with
   | Some s => default s (strip_prefix "lib" s)
   | None => "native-plugin"
   end,
   plugin_of "dylib" None None (Some path)).

Definition to_loader_spec (c : PluginConfig) (name : string) : option string :=
  if bool_decide (plug_plugin_type c = "npm") then
    let pkg := default name (plug_package c) in
    Some (match plug_version c with Some ver => pkg +:+ "@" +:+ ver | None => pkg end)
  else if bool_decide (plug_plugin_type c = "file") then plugin_spec <$> plug_path c
  else None.

Definition is_native (c : PluginConfig) : bool := bool_decide (plug_plugin_type c = "dylib").
Definition dylib_path (c : PluginConfig) : option string := if is_native c then plug_path c else None.

(** [get_plugin_name] of [transforms.rs]; [trim_start_matches("file://")] removes the
    prefix as often as it is there. *)
Fixpoint trim_file_scheme (fuel : nat) (s : string) : string :=
  match fuel, strip_prefix "file://" s with
  | S fuel, Some rest => trim_file_scheme fuel rest
  | _, _ => s
  end.
Definition get_plugin_name (plugin : string) : string :=
  if starts_with "file://" plugin then
    default plugin (file_stem (trim_file_scheme (String.length plugin) plugin))
  else
    match rfind_sub "@" plugin with
    | Some (S last_at) => str_take (S last_at) plugin
    | _ => plugin
    end.

(** ** [matching.rs] *)

Definition pattern_matches (pattern name : string) : bool :=
  if bool_decide (pattern = "") then false
  else match strip_suffix "/*" pattern with
       | Some prefix =>
           let prefix := trim_end_matches slash prefix in
           negb (bool_decide (prefix = "")) &&
           (bool_decide (name = prefix) || starts_with prefix name) &&
           ((String.length name =? String.length prefix) ||
            bool_decide (String.get (String.length prefix) name = Some slash))
       | None => bool_decide (pattern = name)
       end.

Fixpoint matching_disabled_pattern (patterns : list string) (name : string) : option string :=
  match patterns with
  | [] => None
  | pattern :: rest =>
      let pattern := trim pattern in
      if pattern_matches pattern name then Some pattern else matching_disabled_pattern rest name
  end.

Definition is_disabled (patterns : list string) (name : string) : bool :=
  has_value (matching_disabled_pattern patterns name).

Definition plugin_load_allowed (config : Config) (name : string) : bool :=
  negb (is_disabled (cfg_disabled_plugins config) name).
