(* ===== verification/ConfigLoader.v ===== *)
(** * Loading a configuration

    [agendao-config/src/loader/]: substitution of references and parsing
    ([file_ops.rs]), Markdown definitions ([markdown_parser.rs], the rest of
    [discovery.rs]), [ConfigLoader] ([mod.rs]), the overrides applied at the
    end ([transforms.rs]) and the two ways to resolve a workspace
    ([workspace.rs]).  An error ends a load, and the loader is dropped with it, so
    a loader is only seen after success. *)

From S2P Require Import Prelude Json TextLines FileSystem ConfigSchema ConfigMerge ConfigFiles.
From stdpp Require Import options.

(** The regular expressions of [file_ops.rs]. *)
Inductive Reference := EnvReference | FileReference.

(** A match: where it starts and ends, and the text of its group. *)
Record Capture := { cap_start : nat; cap_end : nat; cap_group : string }.

(** What the libraries do: [captures_iter], [parse_to_serde_value] with and without
    trailing commas, the derived deserializers (given the hand-written ones of the values within; the
    kinds of plugins as they are written), [serde_yaml], and the JSON of [AGENDAO_PERMISSION]. *)
Record Libraries := {
  captures_iter : Reference → string → list Capture;
  parse_to_serde_value : string → option (option Value);
  oauth_decoded : Value → option McpOAuth;
  server_decoded : (Value → option McpOAuthConfig) → Value → option McpServer;
  config_decoded : (Value → option McpServerConfig) → Value → option Config;
  command_from_yaml : string → option CommandConfig;
  agent_from_yaml : string → option AgentConfig;
  permission_from_json : string → option PermissionConfig
}.

(** [serde_json::from_value::<Config>]: a plugin of a kind that [deserialize_plugin_type] refuses makes it
    fail. *)
Definition plugin_accepted (_ : string) (p : PluginConfig) : Prop :=
  deserialize_plugin_type (plug_plugin_type p) = Some (plug_plugin_type p).
#[export] Instance plugin_accepted_dec name p : Decision (plugin_accepted name p).
Proof. unfold plugin_accepted. apply _. Defined.
Definition server_from_value (lib : Libraries) : Value → option McpServerConfig :=
  McpServerConfig_deserialize (server_decoded lib (McpOAuthConfig_deserialize (oauth_decoded lib))).
Definition config_from_value (lib : Libraries) (v : Value) : option Config :=
  c ← config_decoded lib (server_from_value lib) v;
  if bool_decide (map_Forall plugin_accepted (cfg_plugin c)) then Some c else None.

Inductive LoadError :=
| FailedToRead (path : PathBuf) (e : IoError)
| BadFileReference (reference : string) (path : PathBuf) (e : IoError)
| FailedToParseJsonc
| ContentIsEmpty
| FailedToParseConfig
| ReadDirFailed (dir : PathBuf) (e : IoError)
| UnclosedFrontmatter (path : PathBuf)
| InvalidFrontmatter (path : PathBuf)
| TooDeep.

Section loader.
Context (h : Host) (lib : Libraries).

(** ** [file_ops.rs] *)

Definition slice (s : string) (from to : nat) : string := str_take (to - from) (str_drop from s).

(** [Regex::replace_all] with a closure: the text between the matches is kept. *)
Fixpoint replace_captures (f : Capture → string) (text : string) (last_end : nat) (caps : list Capture)
    : string :=
  match caps with
  | [] => str_drop last_end text
  | c :: caps => slice text last_end (cap_start c) +:+ f c +:+ replace_captures f text (cap_end c) caps
  end.

Definition substitute_env_vars (text : string) : string :=
  replace_captures (fun c => default "" (env_var h (cap_group c))) text 0
    (captures_iter lib EnvReference text).

(** The line a match starts on begins with [//]. *)
Definition on_commented_line (text : string) (start : nat) : bool :=
  let line_start := match rfind_sub nl (str_take start text) with Some p => p + 1 | None => 0 end in
  let line_end := match find_sub nl (str_drop line_start text) with
                  | Some p => line_start + p
                  | None => String.length text
                  end in
  starts_with "//" (trim (slice text line_start line_end)).

Definition reference_path (base_dir : PathBuf) (file_path_str : string) : PathBuf :=
  match strip_prefix "~/" file_path_str with
  | Some stripped => join_text (default "~" (home_dir h)) stripped
  | None => if starts_with "/" file_path_str then file_path_str else join_text base_dir file_path_str
  end.

Definition byte_string (n : nat) : string := String (Ascii.ascii_of_nat n) "".
Definition backslash : string := byte_string 92.
Definition quote : string := byte_string 34.
Definition tab : string := byte_string 9.

(** The [replace] calls that make a file's text the inside of a JSON string. *)
Definition escape_content (content : string) : string :=
  str_replace tab (backslash +:+ "t")
    (str_replace cr (backslash +:+ "r")
      (str_replace nl (backslash +:+ "n")
        (str_replace quote (backslash +:+ quote)
          (str_replace backslash (backslash +:+ backslash) (trim content))))).

Definition ContentCache : Type := list (Path * string).
Fixpoint cached (cache : ContentCache) (p : Path) : option string :=
  match cache with
  | [] => None
  | (q, content) :: cache => if bool_decide (q = p) then Some content else cached cache p
  end.

(** The loop over the matches; [last_end] is the end of the last one. *)
Fixpoint resolve_references (text : string) (base_dir : PathBuf) (cache : ContentCache) (last_end : nat)
    (caps : list Capture) : result LoadError string :=
  match caps with
  | [] => Ok (str_drop last_end text)
  | c :: caps =>
      let before := slice text last_end (cap_start c) in
      let full_match := slice text (cap_start c) (cap_end c) in
      if on_commented_line text (cap_start c) then
        let? rest := resolve_references text base_dir cache (cap_end c) caps in
        Ok (before +:+ full_match +:+ rest)
      else
        let resolved := reference_path base_dir (cap_group c) in
        match cached cache (components resolved) with
        | Some escaped =>
            let? rest := resolve_references text base_dir cache (cap_end c) caps in
            Ok (before +:+ escaped +:+ rest)
        | None =>
            match read_text h resolved with
            | Err e => Err (BadFileReference full_match resolved e)
            | Ok content =>
                let escaped := escape_content content in
                let? rest := resolve_references text base_dir ((components resolved, escaped) :: cache)
                               (cap_end c) caps in
                Ok (before +:+ escaped +:+ rest)
            end
        end
  end.

Definition resolve_file_references (text : string) (base_dir : PathBuf) : result LoadError string :=
  resolve_references text base_dir [] 0 (captures_iter lib FileReference text).

Definition parse_jsonc (content : string) : result LoadError Config :=
  match parse_to_serde_value lib content with
  | None => Err FailedToParseJsonc
  | Some None => Err ContentIsEmpty
  | Some (Some parsed) => ok_or (config_from_value lib parsed) FailedToParseConfig
  end.

(** ** [markdown_parser.rs] *)

Definition split_frontmatter (path : PathBuf) (content : string)
    : result LoadError (option string * string) :=
  let trimmed := trim_start content in
  if negb (starts_with "---" trimmed) then Ok (None, content)
  else
    let after_first := str_drop 3 trimmed in
    match find_sub (nl +:+ "---") after_first with
    | None => Err (UnclosedFrontmatter path)
    | Some end_idx =>
        Ok (Some (trim (str_take end_idx after_first)), str_drop (end_idx + 4) after_first)
    end.

Fixpoint strip_definition_dir (strip_prefixes : list string) (name : string) : string :=
  match strip_prefixes with
  | [] => name
  | prefix :: rest =>
      match strip_prefix (prefix +:+ "/") name with
      | Some stripped => stripped
      | None =>
          match strip_prefix (".agendao/" +:+ prefix +:+ "/") name with
          | Some stripped => stripped
          | None => strip_definition_dir rest name
          end
      end
  end.

Definition derive_name_from_path (path base_dir : PathBuf) (strip_prefixes : list string) : string :=
  let relative := match path_strip_prefix (components path) (components base_dir) with
                  | Some rest => path_text rest
                  | None => path
                  end in
  let name := strip_definition_dir strip_prefixes relative in
  default name (strip_suffix ".md" name).

(** The parts [parse_markdown_command] and [parse_markdown_agent] share: read,
    split, decode; the body is put into the configuration by [with_body]. *)
Definition parse_markdown {C} (from_yaml : string → option C) (empty : C) (with_body : C → string → C)
    (kinds : list string) (path base_dir : PathBuf) : result LoadError (string * C) :=
  match read_text h path with
  | Err e => Err (FailedToRead path e)
  | Ok content =>
      let? parts := split_frontmatter path content in
      let name := derive_name_from_path path base_dir kinds in
      let? config := match fst parts with
                     | Some frontmatter => ok_or (from_yaml frontmatter) (InvalidFrontmatter path)
                     | None => Ok empty
                     end in
      Ok (name, with_body config (trim (snd parts)))
  end.

Definition with_template (c : CommandConfig) (body : string) : CommandConfig :=
  {| cmd_name := cmd_name c; cmd_description := cmd_description c; cmd_template := Some body;
     cmd_model := cmd_model c; cmd_agent := cmd_agent c |}.

Definition with_prompt (c : AgentConfig) (body : string) : AgentConfig :=
  {| ag_name := ag_name c; ag_model := ag_model c; ag_variant := ag_variant c;
     ag_temperature := ag_temperature c; ag_top_p := ag_top_p c; ag_prompt := Some body;
     ag_disable := ag_disable c; ag_description := ag_description c; ag_mode := ag_mode c;
     ag_hidden := ag_hidden c; ag_options := ag_options c; ag_color := ag_color c;
     ag_steps := ag_steps c; ag_max_steps := ag_max_steps c; ag_max_tokens := ag_max_tokens c;
     ag_permission := ag_permission c; ag_tools := ag_tools c |}.

Definition parse_markdown_command : PathBuf → PathBuf → result LoadError (string * CommandConfig) :=
  parse_markdown (command_from_yaml lib) default_CommandConfig with_template ["command"; "commands"].
Definition parse_markdown_agent : PathBuf → PathBuf → result LoadError (string * AgentConfig) :=
  parse_markdown (agent_from_yaml lib) default_AgentConfig with_prompt ["agent"; "agents"].

(** ** [discovery.rs]: Markdown definitions *)

(** [glob_md_files_recursive]; a turn of fuel for a directory inside of another. *)
Fixpoint glob_md_files_recursive (fuel : nat) (dir : PathBuf) (results : list PathBuf)
    : result LoadError (list PathBuf) :=
  match fuel with
  | O => Err TooDeep
  | S fuel =>
      if negb (is_dir_at h dir) then Ok results
      else match read_dir h dir with
           | Err e => Err (ReadDirFailed dir e)
           | Ok entries =>
               fold_result (fun results path =>
                 if is_dir_at h path then glob_md_files_recursive fuel path results
                 else if bool_decide (extension path = Some "md") then Ok (results ++ [path])
                 else Ok results) results entries
           end
  end.

(** Longer than any location in the file system. *)
Definition max_depth : nat :=
  S (foldr (fun kv n => Nat.max (length (fst kv)) n) 0 (map_to_list (fs_nodes (host_fs h)))).
(** A path that can be looked up enters at most [MAX_LINKS] links, and at most
    [max_depth] names before and after each. *)
Definition glob_fuel : nat := S (S (S MAX_LINKS * S max_depth)).

Definition glob_md_files (dir : PathBuf) : result LoadError (list PathBuf) :=
  glob_md_files_recursive glob_fuel dir [].

Definition load_definitions {C} (parse : PathBuf → PathBuf → result LoadError (string * C))
    (subdirs : list string) (dir : PathBuf) : result LoadError (gmap string C) :=
  fold_result (fun result subdir_name =>
    let subdir := join_text dir subdir_name in
    if negb (is_dir_at h subdir) then Ok result
    else
      let? entries := glob_md_files subdir in
      fold_result (fun result entry =>
        let? nc := parse entry dir in Ok (<[fst nc := snd nc]> result)) result entries) ∅ subdirs.

Definition load_commands_from_dir : PathBuf → result LoadError (gmap string CommandConfig) :=
  load_definitions parse_markdown_command ["command"; "commands"].
Definition load_agents_from_dir : PathBuf → result LoadError (gmap string AgentConfig) :=
  load_definitions parse_markdown_agent ["agent"; "agents"].

(** ** [transforms.rs] *)

(** [if source.f.is_some() { target.f = source.f }] *)
Definition replace_if_some {T} (target source : option T) : option T :=
  if has_value source then source else target.

Definition merge_agent_config (target source : AgentConfig) : AgentConfig := {|
  ag_name := replace_if_some target.(ag_name) source.(ag_name);
  ag_model := replace_if_some target.(ag_model) source.(ag_model);
  ag_variant := replace_if_some target.(ag_variant) source.(ag_variant);
  ag_temperature := replace_if_some target.(ag_temperature) source.(ag_temperature);
  ag_top_p := replace_if_some target.(ag_top_p) source.(ag_top_p);
  ag_prompt := replace_if_some target.(ag_prompt) source.(ag_prompt);
  ag_disable := replace_if_some target.(ag_disable) source.(ag_disable);
  ag_description := replace_if_some target.(ag_description) source.(ag_description);
  ag_mode := replace_if_some target.(ag_mode) source.(ag_mode);
  ag_hidden := replace_if_some target.(ag_hidden) source.(ag_hidden);
  ag_options :=
    match source.(ag_options) with
    | Some source_opts => Some (merge_map_overwrite_values (default ∅ target.(ag_options)) source_opts)
    | None => target.(ag_options)
    end;
  ag_color := replace_if_some target.(ag_color) source.(ag_color);
  ag_steps := replace_if_some target.(ag_steps) source.(ag_steps);
  ag_max_steps := replace_if_some target.(ag_max_steps) source.(ag_max_steps);
  ag_max_tokens := replace_if_some target.(ag_max_tokens) source.(ag_max_tokens);
  ag_permission :=
    match source.(ag_permission) with
    | Some source_perm =>
        match target.(ag_permission) with
        | Some target_perm =>
            Some {| perm_rules := merge_map_overwrite_values target_perm.(perm_rules) source_perm.(perm_rules) |}
        | None => Some source_perm
        end
    | None => target.(ag_permission)
    end;
  ag_tools :=
    match source.(ag_tools) with
    | Some source_tools => Some (merge_map_overwrite_values (default ∅ target.(ag_tools)) source_tools)
    | None => target.(ag_tools)
    end
|}.

Definition disable_auto (c : CompactionConfig) : CompactionConfig := set_compaction_auto (Some false) c.
Definition disable_prune (c : CompactionConfig) : CompactionConfig := set_compaction_prune (Some false) c.

(** [AGENDAO_PERMISSION]: its rules replace those of the same name. *)
Definition override_permission (config : Config) : Config :=
  match env_var h "AGENDAO_PERMISSION" ≫= permission_from_json lib with
  | Some perm =>
      let target := default default_PermissionConfig (cfg_permission config) in
      set_permission
        (Some {| perm_rules := merge_map_overwrite_values target.(perm_rules) perm.(perm_rules) |}) config
  | None => config
  end.

Definition fill_username (config : Config) : Config :=
  match cfg_username config with
  | Some _ => config
  | None =>
      set_username (match env_var h "USER" with
                    | Some user => Some user
                    | None => env_var h "USERNAME"
                    end) config
  end.

(** A variable that is set, to whatever value, switches a compaction flag off. *)
Definition override_compaction (name : string) (switch_off : CompactionConfig → CompactionConfig)
    (config : Config) : Config :=
  match env_var h name with
  | Some _ =>
      set_compaction (Some (switch_off (default default_CompactionConfig (cfg_compaction config)))) config
  | None => config
  end.

Definition apply_post_load_transforms (config : Config) : Config :=
  override_compaction "AGENDAO_DISABLE_PRUNE" disable_prune
    (override_compaction "AGENDAO_DISABLE_AUTOCOMPACT" disable_auto
      (fill_username (override_permission config))).

(** ** [ConfigLoader] *)

Record ConfigLoader := { config : Config; config_paths : list PathBuf }.

Definition loader_new : ConfigLoader := {| config := default_Config; config_paths := [] |}.

Definition map_config (f : Config → Config) (l : ConfigLoader) : ConfigLoader :=
  {| config := f (config l); config_paths := config_paths l |}.

Definition load_from_str (l : ConfigLoader) (content : string) : result LoadError ConfigLoader :=
  let? c := parse_jsonc content in Ok (map_config (fun config => Config_merge config c) l).

Definition normalize_import (base_dir : PathBuf) (tool_import : string) : string :=
  let trimmed := trim tool_import in
  if bool_decide (trimmed = "") then tool_import else resolve_configured_path h base_dir trimmed.

Definition normalize_config_paths (config : Config) (base_dir : PathBuf) : Config :=
  let config :=
    match trim <$> cfg_task_category_path config with
    | Some path =>
        if bool_decide (path = "") then config
        else set_task_category_path (Some (resolve_configured_path h base_dir path)) config
    | None => config
    end in
  set_tool_imports (normalize_import base_dir <$> cfg_tool_imports config) config.

Definition load_from_file (l : ConfigLoader) (path : PathBuf) : result LoadError ConfigLoader :=
  if negb (exists_at h path) then Ok l
  else
    match read_text h path with
    | Err e => Err (FailedToRead path e)
    | Ok content =>
        let content := substitute_env_vars content in
        let base_dir := default "." (parent_text path) in
        let? content := resolve_file_references content base_dir in
        let? c := parse_jsonc content in
        Ok {| config := Config_merge (config l) (normalize_config_paths c base_dir);
              config_paths := config_paths l ++ [path] |}
    end.

Definition load_files (l : ConfigLoader) (paths : list PathBuf) : result LoadError ConfigLoader :=
  fold_result load_from_file l paths.

(** The agents of one directory, each merged into the one of its name. *)
Definition merge_agents (agents : gmap string AgentConfig) (entries : gmap string AgentConfig)
    : gmap string AgentConfig :=
  map_fold (merge_entry merge_agent_config) entries agents.

Definition load_directory_sidecars (l : ConfigLoader) (dir : PathBuf) : result LoadError ConfigLoader :=
  let? commands := load_commands_from_dir dir in
  let l :=
    if bool_decide (commands = ∅) then l
    else map_config (fun c =>
      set_command (Some (merge_map_overwrite_values (default ∅ (cfg_command c)) commands)) c) l in
  let? agents := load_agents_from_dir dir in
  Ok (if bool_decide (agents = ∅) then l
      else map_config (fun c =>
        let agent_configs := default default_AgentConfigs (cfg_agent c) in
        set_agent (Some {| ags_entries := merge_agents agents agent_configs.(ags_entries) |}) c) l).

Definition load_global (l : ConfigLoader) : result LoadError ConfigLoader :=
  load_files l (get_global_config_paths h).

Definition PROJECT_CONFIG_TARGETS : list string := ["agendao.jsonc"; "agendao.json"].
Definition DIRECTORY_CONFIG_FILES : list string := ["agendao.jsonc"; "agendao.json"].

Definition load_project (l : ConfigLoader) (project_dir : PathBuf) : result LoadError ConfigLoader :=
  let start_dir := if is_dir_at h project_dir then project_dir
                   else default project_dir (parent_text project_dir) in
  let start_dir := normalize_existing_path h start_dir in
  let stop_dir := detect_worktree_stop h start_dir in
  fold_result (fun l target => load_files l (reverse (find_up h target start_dir stop_dir)))
    l PROJECT_CONFIG_TARGETS.

Definition load_from_env (l : ConfigLoader) : result LoadError ConfigLoader :=
  match env_var h "AGENDAO_CONFIG" with
  | Some config_path => load_from_file l config_path
  | None => Ok l
  end.

Definition load_from_env_content (l : ConfigLoader) : result LoadError ConfigLoader :=
  match env_var h "AGENDAO_CONFIG_CONTENT" with
  | Some config_content => load_from_str l config_content
  | None => Ok l
  end.

Definition load_directory_files (l : ConfigLoader) (dir : PathBuf) : result LoadError ConfigLoader :=
  load_files l (join_text dir <$> DIRECTORY_CONFIG_FILES).

Definition load_managed_config (l : ConfigLoader) : result LoadError ConfigLoader :=
  let managed_dir := get_managed_config_dir h in
  if exists_at h managed_dir then load_directory_files l managed_dir else Ok l.

(** [get_global_config_paths] as normalized directories. *)
Definition global_config_dirs : list PathBuf :=
  normalize_existing_path h <$> omap parent_text (get_global_config_paths h).

(** The plugins found under the given directories; an entry of the configuration is
    kept, [entry(key).or_insert(config)]. *)
Definition discovered_plugins (dirs : list PathBuf) : gmap string PluginConfig :=
  foldl (fun found spec => let kc := from_file_spec spec in <[fst kc := snd kc]> found)
    ∅ (dirs ≫= load_plugins_from_path h).
Definition add_discovered (dirs : list PathBuf) (c : Config) : Config :=
  set_plugin (cfg_plugin c ∪ discovered_plugins dirs) c.

Definition load_all (l : ConfigLoader) (project_dir : PathBuf) : result LoadError ConfigLoader :=
  let? l := load_global l in
  let? l := load_from_env l in
  let? l := load_project l project_dir in
  let directories := collect_agendao_directories h project_dir in
  let? l := fold_result (fun l dir =>
    let? l := (if has_path global_config_dirs (normalize_existing_path h dir) then Ok l
               else load_directory_files l dir) in
    load_directory_sidecars l dir) l directories in
  let l := map_config (fun c =>
    add_discovered (collect_plugin_roots h project_dir (cfg_plugin_paths c)) c) l in
  let? l := load_from_env_content l in
  let? l := load_managed_config l in
  Ok (map_config apply_post_load_transforms l).

(** ** [workspace.rs] *)

Inductive WorkspaceMode := Shared | Isolated.

Record WorkspaceIdentity := {
  requested_dir : PathBuf; workspace_root : PathBuf; config_dir : option PathBuf; workspace_key : string
}.

Record ResolvedConfigInputs := {
  inputs_identity : WorkspaceIdentity; inputs_mode : WorkspaceMode; inputs_config_paths : list PathBuf
}.

Record ResolvedConfig := { resolved_config : Config; resolved_inputs : ResolvedConfigInputs }.

Definition resolve_inputs (project_dir : PathBuf) : ResolvedConfigInputs :=
  let requested_dir :=
    if is_dir_at h project_dir then normalize_existing_path h project_dir
    else normalize_existing_path h (default project_dir (parent_text project_dir)) in
  let isolated_candidate := join_text requested_dir ".agendao" in
  let isolated_dir := if is_dir_at h isolated_candidate then Some isolated_candidate else None in
  let mode := if has_value isolated_dir then Isolated else Shared in
  let workspace_root := default requested_dir (isolated_dir ≫= parent_text) in
  {| inputs_identity := {| requested_dir := requested_dir; workspace_root := workspace_root;
                           config_dir := isolated_dir; workspace_key := workspace_root |};
     inputs_mode := mode; inputs_config_paths := [] |}.

(** The loop that loads the sidecars of the directories it has not seen. *)
Definition load_new_sidecars (acc : ConfigLoader * list PathBuf) (dir : PathBuf)
    : result LoadError (ConfigLoader * list PathBuf) :=
  let '(l, seen) := acc in
  if has_path seen dir then Ok (l, seen)
  else let? l := load_directory_sidecars l dir in Ok (l, seen ++ [dir]).

Definition load_isolated (l : ConfigLoader) (identity : WorkspaceIdentity) : result LoadError ConfigLoader :=
  match config_dir identity with
  | None => load_all l (workspace_root identity)
  | Some config_dir =>
      let? l := load_global l in
      let? l := load_directory_files l config_dir in
      let? acc := fold_result load_new_sidecars (l, [])
                    (global_config_dirs ++ [normalize_existing_path h config_dir]) in
      let l := map_config (add_discovered
        [join_text config_dir "plugins"; join_text (workspace_root identity) ".agendao/plugins"]) (fst acc) in
      let l := map_config apply_post_load_transforms l in
      Ok {| config := config l;
            config_paths := config_paths l ++
              filter (fun path => exists_at h path = true) (join_text config_dir <$> DIRECTORY_CONFIG_FILES) |}
  end.

Definition load_with_inputs (l : ConfigLoader) (inputs : ResolvedConfigInputs) : result LoadError ConfigLoader :=
  match inputs_mode inputs with
  | Shared => load_all l (workspace_root (inputs_identity inputs))
  | Isolated => load_isolated l (inputs_identity inputs)
  end.

(** [ConfigAuthority::resolve], and [load_config], which keeps the configuration. *)
Definition resolve (project_dir : PathBuf) : result LoadError ResolvedConfig :=
  let inputs := resolve_inputs project_dir in
  let? l := load_with_inputs loader_new inputs in
  Ok {| resolved_config := config l;
        resolved_inputs := {| inputs_identity := inputs_identity inputs; inputs_mode := inputs_mode inputs;
                              inputs_config_paths := config_paths l |} |}.

Definition load_config (project_dir : PathBuf) : result LoadError Config :=
  let? r := resolve project_dir in Ok (resolved_config r).

End loader.
