(* ===== verification/ConfigLoaderProps.v ===== *)
(** * Properties of loading

    Every load ends; what it merges, in which order and with what precedence; which files an
    isolated workspace takes; what loaded configurations have in common. *)

From S2P Require Import Prelude Json TextLines FileSystem ConfigSchema ConfigMerge ConfigSettings ConfigFiles ConfigLoader.
From stdpp Require Import options.

(** ** Paths *)

(** A name that can be in a directory. *)
Definition entry_name (name : string) : Prop :=
  has_char slash name = false ∧ name ≠ "" ∧ name ≠ "." ∧ name ≠ "..".

Lemma split_on_sep c p q : split_on c (p +:+ String c q) = split_on c p ++ split_on c q.
Proof.
  induction p as [|a p IH]; simpl; [by rewrite decide_True|]. rewrite IH. case_decide; [done|].
  pose proof (split_on_ne c p) as Hne. by destruct (split_on c p).
Qed.

Lemma part_component_name name : entry_name name → part_component name = [Comp.Normal name].
Proof.
  intros (_ & H1 & H2 & H3). unfold part_component. by rewrite !bool_decide_eq_false_2.
Qed.

(** The components after a separator come after those before it. *)
Lemma components_sep base q :
  base ≠ "" →
  components (base +:+ String slash q) = components base ++ (split_on slash q ≫= part_component).
Proof.
  intros Hb. destruct base as [|a base]; [done|]. unfold components.
  rewrite split_on_sep, bind_app.
  assert (starts_with "/" (String a base +:+ String slash q) = starts_with "/" (String a base)) as ->.
  { unfold starts_with. rewrite str_app_cons. cbn. by case_decide. }
  destruct (starts_with "/" (String a base)); [done|].
  destruct (split_on slash (String a base)) as [|p ps] eqn:E; [by apply split_on_ne in E|].
  by destruct p as [|[[] [] [] [] [] [] [] []] [|? ?]].
Qed.

Lemma no_leading_slash name : has_char slash name = false → starts_with "/" name = false.
Proof.
  destruct name as [|a name]; [done|]. intros [Ha%bool_decide_eq_false _]%orb_false_iff.
  unfold starts_with. cbn. rewrite decide_False; [done|]. by intros <-.
Qed.

Lemma components_entry name : entry_name name → components name = [Comp.Normal name].
Proof.
  intros Hn. pose proof Hn as (Hc & _ & Hdot & _). unfold components.
  rewrite no_leading_slash, split_on_last by done. cbn [mbind list_bind].
  rewrite part_component_name, app_nil_r by done.
  by destruct name as [|[[] [] [] [] [] [] [] []] [|? ?]].
Qed.

Lemma components_join_text base q :
  base ≠ "" → starts_with "/" q = false →
  components (join_text base q) = components base ++ (split_on slash q ≫= part_component).
Proof.
  intros Hb Hq. unfold join_text. rewrite Hq, bool_decide_eq_false_2 by done. cbn [orb].
  destruct (ends_with "/" base) eqn:Hend.
  - apply ends_with_true in Hend as [b ->]. rewrite str_app_assoc.
    change ("/" +:+ q) with (String slash q). change (b +:+ "/") with (b +:+ String slash "").
    destruct (decide (b = "")) as [->|Hb'].
    + change (components ("" +:+ String slash q)) with
        (Comp.RootDir :: (split_on slash (String slash q) ≫= part_component)).
      by change (split_on slash (String slash q)) with ("" :: split_on slash q).
    + rewrite !components_sep by done. cbn. by rewrite app_nil_r.
  - change ("/" +:+ q) with (String slash q). by rewrite components_sep.
Qed.

Lemma components_join base name :
  entry_name name → components (join_text base name) = components base ++ [Comp.Normal name].
Proof.
  intros Hn. pose proof (no_leading_slash name (proj1 Hn)) as Hslash.
  destruct (decide (base = "")) as [->|Hb].
  { unfold join_text. rewrite Hslash. by rewrite components_entry. }
  rewrite components_join_text by done. f_equal. rewrite split_on_last by apply Hn. cbn.
  by rewrite part_component_name.
Qed.

(** ** How deep a directory can be *)

(** [D] is more than the length of any location. *)
Definition depth_below (fs : FS) (D : nat) : Prop := ∀ k n, node fs k = Some n → length k < D.

(** Of a lookup that succeeds: the names at the end of the path are not more than one
    descent to the bottom for every link that is followed, and one more. *)
Lemma leads_bound fs D cur todo n k :
  depth_below fs D →
  leads fs false cur todo n k → ∀ pre names,
  todo = pre ++ (Comp.Normal <$> names) →
  length names ≤ (if bool_decide (pre = []) then D - length cur else D) + n * S D.
Proof.
  intros HD. assert (∀ cur name nd, node fs (cur ++ [name]) = Some nd → S (length cur) < D) as Hlen.
  { intros c name nd Hnd%HD. rewrite length_app in Hnd. cbn in Hnd. lia. }
  induction 1 as [cur|cur rest n k _ IH|cur rest n k _ IH|cur rest n k _ IH| |
    cur name rest n k Hnd _ IH|cur name content Hnd|cur name target rest n k Hnd _ IH];
    intros pre names Heq; try done;
    try (apply Hlen in Hnd as Hcur);
    (destruct pre as [|c pre]; cbn in Heq;
     [rewrite bool_decide_eq_true_2 by done; destruct names as [|x names]; [cbn; lia|]|
      rewrite (bool_decide_eq_false_2 (_ :: _ = [])) by done]); simplify_eq/=.
  - specialize (IH pre names eq_refl). case_bool_decide; lia.
  - specialize (IH pre names eq_refl). case_bool_decide; lia.
  - specialize (IH pre names eq_refl). case_bool_decide; lia.
  - specialize (IH [] names eq_refl). rewrite length_app in IH. cbn in IH. lia.
  - specialize (IH pre names eq_refl). case_bool_decide; lia.
  - destruct names; [cbn; lia|done].
  - destruct pre, names; cbn; (lia || done).
  - specialize (IH target names eq_refl). case_bool_decide; lia.
  - specialize (IH (target ++ pre) names). rewrite <- app_assoc in IH. specialize (IH eq_refl). case_bool_decide; lia.
Qed.

Lemma lookup_bound fs D base names k :
  depth_below fs D →
  lookup_path fs false (base ++ (Comp.Normal <$> names)) = Ok k →
  length names ≤ S MAX_LINKS * S D.
Proof.
  intros HD (_ & n & Hn & Hl)%lookup_path_Ok.
  pose proof (leads_bound _ _ _ _ _ _ HD Hl base names eq_refl) as Hb.
  assert (n * S D ≤ MAX_LINKS * S D) by (apply Nat.mul_le_mono_r; lia).
  case_bool_decide; lia.
Qed.

Lemma max_depth_bound h : depth_below (host_fs h) (max_depth h).
Proof.
  intros k n Hn. unfold max_depth, node in *. case_bool_decide; subst; cbn; [lia|].
  apply elem_of_map_to_list in Hn. induction (map_to_list (fs_nodes (host_fs h))) as [|[k' n'] l IH].
  - by apply not_elem_of_nil in Hn.
  - cbn. apply elem_of_cons in Hn as [[= -> ->]|Hn]; [lia|]. specialize (IH Hn). lia.
Qed.

(** ** The search for Markdown files ends *)

(** A machine with a tree for a file system, whose directories list the entries they have. *)
Record host_ok (h : Host) : Prop := {
  host_wf : fs_wf (host_fs h);
  host_names k name n : node (host_fs h) (k ++ [name]) = Some n → entry_name name;
  host_order dir names : dir_order h dir names ≡ₚ names
}.

Lemma read_dir_entry h dir entries e :
  host_ok h → read_dir h dir = Ok entries → e ∈ entries →
  ∃ name, e = join_text dir name ∧ entry_name name.
Proof.
  intros Hok Hr He. unfold read_dir in Hr. apply rbind_Ok in Hr as (k & _ & Hr).
  destruct (node (host_fs h) k) as [[]|]; simplify_eq.
  apply list_elem_of_fmap in He as (name & -> & He). rewrite (host_order _ Hok) in He.
  exists name. split; [done|]. unfold dir_names in He.
  apply list_elem_of_omap in He as (k' & Hk' & Hn).
  apply list_elem_of_fmap in Hk' as ([k'' n] & -> & Hk'). apply elem_of_map_to_list in Hk'.
  unfold child_name in Hn. cbn in Hn. repeat case_match; simplify_eq. case_bool_decide; simplify_eq.
  eapply (host_names _ Hok _ name n). unfold node. rewrite bool_decide_eq_false_2; [done|].
  by destruct k.
Qed.

Lemma fold_result_Err {E A S} (step : S → A → result E S) xs s e :
  fold_result step s xs = Err e → ∃ s' x, x ∈ xs ∧ step s' x = Err e.
Proof.
  revert s. induction xs as [|x xs IH]; intros s; cbn; [done|].
  destruct (step s x) as [s'|e'] eqn:Hs; cbn; intros H.
  - apply IH in H as (s'' & y & Hy & H). exists s'', y. split; [by right|done].
  - simplify_eq. exists s, x. split; [by left|done].
Qed.

(** With [names] between the directory searched and [dir], the fuel that is left is enough. *)
Lemma glob_ends h base fuel dir names results :
  host_ok h → components dir = base ++ (Comp.Normal <$> names) →
  is_dir_at h dir = true → glob_fuel h ≤ fuel + length names →
  glob_md_files_recursive h fuel dir results ≠ Err TooDeep.
Proof.
  intros Hok. revert dir names results. induction fuel as [|fuel IH]; intros dir names results Hdir Hd Hfuel.
  - unfold is_dir_at, is_dir in Hd. destruct (metadata _ _) as [n|] eqn:Hm; [|done].
    apply metadata_Ok in Hm as (k & Hk & _). rewrite Hdir in Hk.
    apply (lookup_bound _ (max_depth h)) in Hk; [|apply max_depth_bound]. unfold glob_fuel in Hfuel.
    exfalso. clear -Hk Hfuel. cbn [plus] in Hfuel. lia.
  - cbn. rewrite Hd. cbn. destruct (read_dir h dir) as [entries|e] eqn:Hr; [|done].
    intros (results' & path & Hp & Hstep)%fold_result_Err.
    destruct (is_dir_at h path) eqn:Hpd; [|by case_bool_decide].
    destruct (read_dir_entry _ _ _ _ Hok Hr Hp) as (name & -> & Hname).
    revert Hstep. apply (IH _ (names ++ [name])); [|done|rewrite length_app; cbn; lia].
    by rewrite components_join, Hdir, fmap_app, app_assoc.
Qed.

Lemma glob_md_files_ends h dir : host_ok h → glob_md_files h dir ≠ Err TooDeep.
Proof.
  intros Hok. unfold glob_md_files. destruct (is_dir_at h dir) eqn:Hd.
  - apply (glob_ends h (components dir) _ _ []); [done|by rewrite app_nil_r|done|].
    apply Nat.le_add_r.
  - unfold glob_fuel. cbn. by rewrite Hd.
Qed.

(** ** Every load ends *)

Definition finishes {A} (r : result LoadError A) : Prop := r ≠ Err TooDeep.

Lemma finishes_rbind {A B} (r : result LoadError A) (f : A → result LoadError B) :
  finishes r → (∀ a, finishes (f a)) → finishes (rbind r f).
Proof. intros Hr Hf. destruct r as [a|e]; [apply Hf|]. cbn. intros [= ->]. by apply Hr. Qed.

Lemma finishes_fold {A S} (step : S → A → result LoadError S) s xs :
  (∀ s x, finishes (step s x)) → finishes (fold_result step s xs).
Proof. intros Hs (s' & x & _ & He)%fold_result_Err. by eapply Hs. Qed.

Create HintDb finishes.

Ltac finishes_step :=
  match goal with
  | |- finishes (Ok _) => done
  | |- finishes (rbind _ _) => apply finishes_rbind; [|intros ?]
  | |- finishes (fold_result _ _ _) => apply finishes_fold; intros ? ?
  | |- finishes (if ?b then _ else _) => destruct b
  | |- finishes (match ?x with _ => _ end) => destruct x
  | |- finishes (let '(_, _) := ?x in _) => destruct x
  | |- finishes _ => solve [eauto with finishes]
  | |- finishes (Err _) => done
  end.

Section ends.
Context (h : Host) (lib : Libraries).

Lemma references_finish text base_dir caps cache last_end :
  finishes (resolve_references h text base_dir cache last_end caps).
Proof.
  revert cache last_end. induction caps as [|c caps IH]; intros cache last_end; cbn; [done|].
  repeat finishes_step.
Qed.

Lemma parse_jsonc_finishes content : finishes (parse_jsonc lib content).
Proof. unfold parse_jsonc. repeat finishes_step. unfold ok_or. repeat finishes_step. Qed.

Hint Resolve references_finish parse_jsonc_finishes : finishes.

Lemma load_from_file_finishes l path : finishes (load_from_file h lib l path).
Proof. unfold load_from_file, resolve_file_references. repeat finishes_step. Qed.

Lemma load_from_str_finishes l content : finishes (load_from_str lib l content).
Proof. unfold load_from_str. repeat finishes_step. Qed.

Hint Resolve load_from_file_finishes load_from_str_finishes : finishes.

Lemma parse_markdown_finishes {C} (from_yaml : string → option C) empty body kinds path base_dir :
  finishes (parse_markdown h from_yaml empty body kinds path base_dir).
Proof.
  unfold parse_markdown. repeat finishes_step; unfold split_frontmatter, ok_or; repeat finishes_step.
Qed.

Lemma load_definitions_finishes {C} (parse : PathBuf → PathBuf → result LoadError (string * C)) subdirs dir :
  host_ok h → (∀ p d, finishes (parse p d)) → finishes (load_definitions h parse subdirs dir).
Proof.
  intros Hok Hp. unfold load_definitions. repeat finishes_step; auto. by apply glob_md_files_ends.
Qed.

Lemma sidecars_finish l dir : host_ok h → finishes (load_directory_sidecars h lib l dir).
Proof.
  intros Hok. unfold load_directory_sidecars. repeat finishes_step;
    apply load_definitions_finishes; auto; intros; apply parse_markdown_finishes.
Qed.

Hint Resolve sidecars_finish : finishes.

Lemma load_files_finish l paths : finishes (load_files h lib l paths).
Proof. unfold load_files. repeat finishes_step. Qed.

Hint Resolve load_files_finish : finishes.

Lemma load_with_inputs_finishes l inputs : host_ok h → finishes (load_with_inputs h lib l inputs).
Proof.
  intros Hok. unfold load_with_inputs, load_isolated, load_new_sidecars, load_all, load_global,
    load_from_env, load_project, load_directory_files, load_from_env_content, load_managed_config,
    load_directory_files.
  repeat finishes_step.
Qed.
End ends.

(** *** The way up *)

Lemma join_length_prefix head (above rest : list string) :
  above `prefix_of` rest →
  String.length (str_join "/" (head :: above)) ≤ String.length (str_join "/" (head :: rest)) ∧
  (above ≠ rest → String.length (str_join "/" (head :: above)) < String.length (str_join "/" (head :: rest))).
Proof.
  revert head rest. induction above as [|a above IH]; intros head rest Hp.
  - destruct rest as [|r rest]; [done|]. change (str_join "/" [head]) with head.
    change (str_join "/" (head :: r :: rest)) with (head +:+ "/" +:+ str_join "/" (r :: rest)).
    rewrite !str_length_app. cbn [String.length]. split; intros; lia.
  - destruct rest as [|r rest]; [by apply prefix_nil_inv in Hp|].
    pose proof (prefix_cons_inv_1 _ _ _ _ Hp) as ->. apply prefix_cons_inv_2 in Hp.
    change (str_join "/" (head :: r :: above)) with (head +:+ "/" +:+ str_join "/" (r :: above)).
    change (str_join "/" (head :: r :: rest)) with (head +:+ "/" +:+ str_join "/" (r :: rest)).
    rewrite !str_length_app. destruct (IH r rest Hp) as [Hle Hlt].
    split; [lia|]. intros Hne. enough (above ≠ rest) as H%Hlt by lia. congruence.
Qed.

Lemma drop_last_while_prefix {A} (P : A → bool) l : drop_last_while P l `prefix_of` l.
Proof.
  unfold drop_last_while. destruct (drop_while_spec P (reverse l)) as (d & Hd & _).
  exists (reverse d). rewrite <- reverse_app, <- Hd. by rewrite reverse_involutive.
Qed.

Lemma join_longer_head head rest : String.length head ≤ String.length (str_join "/" (head :: rest)).
Proof. apply (join_length_prefix head [] rest). apply prefix_nil. Qed.

Lemma parent_text_shorter p q : parent_text p = Some q → String.length q < String.length p.
Proof.
  unfold parent_text. rewrite <- (split_on_join slash p) at 2. change (String slash "") with "/".
  destruct (split_on slash p) as [|head rest]; [done|].
  pose proof (drop_last_while_prefix skipped_part rest) as Hpre.
  destruct (drop_last_while skipped_part rest) as [|r rs] eqn:E.
  - case_bool_decide; [done|]. intros <-%(inj Some). pose proof (join_longer_head head rest).
    destruct head; [done|]. cbn [String.length] in *. lia.
  - set (above := drop_last_while skipped_part (removelast (r :: rs))).
    assert (above `prefix_of` r :: rs ∧ above ≠ r :: rs) as [Habove Hne].
    { assert (above `prefix_of` removelast (r :: rs)) as Hp by apply drop_last_while_prefix.
      assert (removelast (r :: rs) ++ [List.last (r :: rs) ""] = r :: rs) as Hl
        by (symmetry; by apply app_removelast_last).
      split; [rewrite <- Hl; by apply prefix_app_r|].
      intros Heq. apply prefix_length in Hp. rewrite Heq in Hp. rewrite <- Hl in Hp at 1.
      rewrite length_app in Hp. cbn [length] in Hp. lia. }
    assert (above `prefix_of` rest ∧ above ≠ rest) as [Hp Hn].
    { split; [by etrans|]. intros ->. apply Hne. by apply (anti_symm prefix). }
    destruct (bool_decide (head = "") && bool_decide (above = [])) eqn:Hroot; intros <-%(inj Some).
    + destruct rest as [|x [|y rest]].
      * by apply prefix_nil_inv in Hpre.
      * assert (x ≠ "") as Hx.
        { intros ->. cbv in E. done. }
        apply andb_true_iff in Hroot as [->%bool_decide_eq_true _]. destruct x as [|a x]; [done|].
        change (str_join "/" [""; String a x]) with ("/" +:+ String a x).
        rewrite str_length_app. cbn [String.length]. lia.
      * change (str_join "/" (head :: x :: y :: rest)) with
          (head +:+ "/" +:+ x +:+ "/" +:+ str_join "/" (y :: rest)).
        rewrite !str_length_app. cbn [String.length]. lia.
    + by apply join_length_prefix.
Qed.

(** More fuel than bytes in the path changes nothing: the searches end because they have
    arrived, not because they have run out. *)
Lemma find_up_enough h target stop fuel k current :
  String.length current < fuel →
  find_up_from h target stop (fuel + k) current = find_up_from h target stop fuel current.
Proof.
  revert current. induction fuel as [|fuel IH]; intros current Hf; [lia|]. cbn. f_equal.
  case_match; [done|]. destruct (parent_text current) as [parent|] eqn:Hp; [|done].
  case_match; [done|]. apply IH. apply parent_text_shorter in Hp. lia.
Qed.

Lemma worktree_stop_enough h fuel k current topmost :
  String.length current < fuel →
  worktree_stop_from h (fuel + k) current topmost = worktree_stop_from h fuel current topmost.
Proof.
  revert current topmost. induction fuel as [|fuel IH]; intros current topmost Hf; [lia|]. cbn.
  case_match; [done|]. destruct (parent_text current) as [parent|] eqn:Hp; [|done].
  case_match; [done|]. apply IH. apply parent_text_shorter in Hp. lia.
Qed.

(** ** What a load merges *)

Section layers.
Context (h : Host) (lib : Libraries).

(** The layer a file is: its text with the references replaced, parsed, its paths resolved. *)
Definition file_config (path : PathBuf) : result LoadError Config :=
  match read_text h path with
  | Err e => Err (FailedToRead path e)
  | Ok content =>
      let base_dir := default "." (parent_text path) in
      let? content := resolve_file_references h lib (substitute_env_vars h lib content) base_dir in
      let? c := parse_jsonc lib content in
      Ok (normalize_config_paths h c base_dir)
  end.

Lemma load_from_file_eq l path :
  load_from_file h lib l path =
  if negb (exists_at h path) then Ok l
  else let? c := file_config path in
       Ok {| config := Config_merge (config l) c; config_paths := config_paths l ++ [path] |}.
Proof.
  unfold load_from_file, file_config. destruct (negb _); [done|].
  destruct (read_text h path); [|done]. destruct (resolve_file_references _ _ _ _); [|done]. cbn.
  by destruct (parse_jsonc lib _).
Qed.

Definition ok_value {A} (r : result LoadError A) : option A := match r with Ok a => Some a | Err _ => None end.

(** The layers of the files that exist, in order. *)
Definition file_layers (paths : list PathBuf) : list Config :=
  omap (ok_value ∘ file_config) (filter (fun p => exists_at h p = true) paths).

Lemma load_files_ok l paths l' :
  load_files h lib l paths = Ok l' →
  config l' = merge_layers (config l) (file_layers paths) ∧
  config_paths l' = config_paths l ++ filter (fun p => exists_at h p = true) paths.
Proof.
  unfold load_files, file_layers. revert l. induction paths as [|p paths IH]; intros l Hl; cbn in Hl.
  { injection Hl as <-. cbn. by rewrite app_nil_r. }
  apply rbind_Ok in Hl as (l1 & Hp & Hl). rewrite load_from_file_eq in Hp.
  destruct (exists_at h p) eqn:He; cbn in Hp.
  - apply rbind_Ok in Hp as (c & Hc & [= <-]). apply IH in Hl as [-> ->].
    rewrite filter_cons_True by done. cbn. rewrite Hc. cbn. split; [done|]. by rewrite <- app_assoc.
  - injection Hp as <-. rewrite filter_cons_False by congruence. by apply IH.
Qed.

Lemma config_map_config f l : config (map_config f l) = f (config l).
Proof. done. Qed.
Lemma paths_map_config f l : config_paths (map_config f l) = config_paths l.
Proof. done. Qed.

(** Sidecars are no layers: they leave the paths alone. *)
Lemma sidecars_paths l dir l' :
  load_directory_sidecars h lib l dir = Ok l' → config_paths l' = config_paths l.
Proof.
  unfold load_directory_sidecars. intros (cs & _ & H)%rbind_Ok.
  apply rbind_Ok in H as (ags & _ & H). injection H as <-. by repeat case_bool_decide.
Qed.
End layers.

(** *** The overrides at the end *)

(** [c'] is [c] but for the three parts that the environment may change. *)
Definition same_but_overrides (c c' : Config) : Prop :=
  c' = set_permission (cfg_permission c') (set_username (cfg_username c')
         (set_compaction (cfg_compaction c') c)).

#[export] Instance same_but_overrides_preorder : PreOrder same_but_overrides.
Proof.
  split; [by intros []|]. intros a b c H1 H2. unfold same_but_overrides in *.
  rewrite H2 at 1. by rewrite H1.
Qed.

Lemma post_load_same h lib c : same_but_overrides c (apply_post_load_transforms h lib c).
Proof.
  unfold apply_post_load_transforms. etrans; [|etrans; [|etrans]].
  - instantiate (1 := override_permission h lib c). unfold override_permission. case_match; by destruct c.
  - instantiate (1 := fill_username h (override_permission h lib c)).
    generalize (override_permission h lib c). intros d. unfold fill_username. case_match; by destruct d.
  - instantiate (1 := override_compaction h "AGENDAO_DISABLE_AUTOCOMPACT" disable_auto
                        (fill_username h (override_permission h lib c))).
    generalize (fill_username h (override_permission h lib c)). intros d.
    unfold override_compaction. case_match; by destruct d.
  - match goal with |- same_but_overrides ?d _ => generalize d end. intros d.
    unfold override_compaction. case_match; by destruct d.
Qed.

Section sources.
Context (h : Host) (lib : Libraries).

(** The files of a project: for each name, from the outermost directory to the workspace. *)
Definition project_sources (project_dir : PathBuf) : list PathBuf :=
  let start_dir := normalize_existing_path h
    (if is_dir_at h project_dir then project_dir else default project_dir (parent_text project_dir)) in
  PROJECT_CONFIG_TARGETS ≫= fun target =>
    reverse (find_up h target start_dir (detect_worktree_stop h start_dir)).

Definition directory_sources (dir : PathBuf) : list PathBuf := join_text dir <$> DIRECTORY_CONFIG_FILES.

(** The files of the [.agendao] directories that are not the global one. *)
Definition local_sources (dir : PathBuf) : list PathBuf :=
  if has_path (global_config_dirs h) (normalize_existing_path h dir) then [] else directory_sources dir.

Definition managed_sources : list PathBuf :=
  if exists_at h (get_managed_config_dir h) then directory_sources (get_managed_config_dir h) else [].

Definition shared_sources (project_dir : PathBuf) : list PathBuf :=
  get_global_config_paths h ++ option_list (env_var h "AGENDAO_CONFIG") ++ project_sources project_dir ++
  (collect_agendao_directories h project_dir ≫= local_sources) ++ managed_sources.

Definition isolated_sources (config_dir : PathBuf) : list PathBuf :=
  get_global_config_paths h ++ directory_sources config_dir.

Abbreviation existing := (filter (fun p => exists_at h p = true)).

Lemma load_files_paths l paths l' :
  load_files h lib l paths = Ok l' → config_paths l' = config_paths l ++ existing paths.
Proof. by intros [_ H]%load_files_ok. Qed.

Lemma load_env_files l l' : load_from_env h lib l = Ok l' →
  load_files h lib l (option_list (env_var h "AGENDAO_CONFIG")) = Ok l'.
Proof.
  unfold load_from_env, load_files. destruct (env_var h _); cbn; [|done]. intros ->. done.
Qed.

Lemma load_project_files l dir l' : load_project h lib l dir = Ok l' →
  load_files h lib l (project_sources dir) = Ok l'.
Proof.
  unfold load_project, project_sources. generalize (normalize_existing_path h
    (if is_dir_at h dir then dir else default dir (parent_text dir))). intros start.
  generalize PROJECT_CONFIG_TARGETS. intros targets. revert l.
  induction targets as [|t targets IH]; intros l; cbn [fold_result mbind list_bind]; [done|].
  intros (l1 & H1 & H)%rbind_Ok. unfold load_files. rewrite fold_result_app.
  unfold load_files in H1. rewrite H1. cbn. by apply IH.
Qed.

Lemma load_managed_files l l' : load_managed_config h lib l = Ok l' →
  load_files h lib l managed_sources = Ok l'.
Proof. unfold load_managed_config, managed_sources. by destruct (exists_at h _). Qed.

Lemma load_content_paths l l' : load_from_env_content h lib l = Ok l' → config_paths l' = config_paths l.
Proof.
  unfold load_from_env_content, load_from_str. destruct (env_var h _); [|by intros [= <-]].
  by intros (c & _ & [= <-])%rbind_Ok.
Qed.

Lemma load_directory_paths l dir l' :
  (let? l := (if has_path (global_config_dirs h) (normalize_existing_path h dir) then Ok l
              else load_directory_files h lib l dir) in
   load_directory_sidecars h lib l dir) = Ok l' →
  config_paths l' = config_paths l ++ existing (local_sources dir).
Proof.
  intros (l1 & H1 & H)%rbind_Ok. apply sidecars_paths in H as ->. unfold local_sources.
  destruct (has_path _ _); [injection H1 as <-; by rewrite app_nil_r|]. by apply load_files_paths.
Qed.

Lemma load_directories_paths l dirs l' :
  fold_result (fun l dir =>
    let? l := (if has_path (global_config_dirs h) (normalize_existing_path h dir) then Ok l
               else load_directory_files h lib l dir) in
    load_directory_sidecars h lib l dir) l dirs = Ok l' →
  config_paths l' = config_paths l ++ existing (dirs ≫= local_sources).
Proof.
  revert l. induction dirs as [|d dirs IH]; intros l; cbn [fold_result mbind list_bind].
  { intros [= <-]. cbn. by rewrite app_nil_r. }
  intros (l1 & H1%load_directory_paths & H%IH)%rbind_Ok. rewrite H, H1, filter_app. by rewrite app_assoc.
Qed.

Lemma load_all_paths l dir l' :
  load_all h lib l dir = Ok l' → config_paths l' = config_paths l ++ existing (shared_sources dir).
Proof.
  unfold load_all. intros (l1 & H1%load_files_paths & H)%rbind_Ok.
  apply rbind_Ok in H as (l2 & H2%load_env_files%load_files_paths & H).
  apply rbind_Ok in H as (l3 & H3%load_project_files%load_files_paths & H).
  apply rbind_Ok in H as (l4 & H4%load_directories_paths & H).
  apply rbind_Ok in H as (l5 & H5%load_content_paths & H).
  apply rbind_Ok in H as (l6 & H6%load_managed_files%load_files_paths & H).
  injection H as <-. rewrite paths_map_config, H6, H5, paths_map_config, H4, H3, H2, H1.
  unfold shared_sources. rewrite !filter_app. by rewrite <- !app_assoc.
Qed.

Lemma new_sidecars_paths acc dirs acc' :
  fold_result (load_new_sidecars h lib) acc dirs = Ok acc' →
  config_paths (fst acc') = config_paths (fst acc).
Proof.
  apply (fold_result_ind (fun a => config_paths (fst a) = config_paths (fst acc))); [|done].
  intros [l seen] dir [l' seen'] _ <- Hs. unfold load_new_sidecars in Hs.
  destruct (has_path seen dir); [by injection Hs as <- <-|].
  apply rbind_Ok in Hs as (l1 & H1%sidecars_paths & [= <- <-]). done.
Qed.

Lemma load_isolated_paths l id dir l' :
  config_dir id = Some dir → load_isolated h lib l id = Ok l' →
  config_paths l' = config_paths l ++ existing (isolated_sources dir) ++ existing (directory_sources dir).
Proof.
  intros Hdir. unfold load_isolated. rewrite Hdir.
  intros (l1 & H1%load_files_paths & H)%rbind_Ok.
  apply rbind_Ok in H as (l2 & H2%load_files_paths & H).
  apply rbind_Ok in H as (acc & Hacc%new_sidecars_paths & H). injection H as <-.
  cbn [config_paths map_config fst]. rewrite Hacc. cbn [fst]. rewrite H2, H1. unfold isolated_sources.
  rewrite filter_app. unfold directory_sources. by rewrite <- !app_assoc.
Qed.
End sources.

(** ** Well-formed configurations *)

(** What [deserialize_plugin_type] lets through. *)
Definition loadable (_ : string) (p : PluginConfig) : Prop := plug_plugin_type p ∈ ["npm"; "file"; "dylib"].
Definition plugins_ok (c : Config) : Prop := map_Forall loadable (cfg_plugin c).

(** Every plugin is of a kind that can be loaded, and the lists have no repetitions. *)
Record config_ok (c : Config) : Prop := {
  ok_plugins : plugins_ok c;
  ok_instructions : NoDup (cfg_instructions c);
  ok_imports : NoDup (cfg_tool_imports c)
}.

(** Parsing yields plugins of the three kinds only. *)
Lemma accepted_plugins lib v c : config_from_value lib v = Some c → plugins_ok c.
Proof.
  unfold config_from_value. intros (c'&_&H)%bind_Some. case_bool_decide as Hall; [|done].
  injection H as ->. eapply map_Forall_impl; [exact Hall|]. intros name p.
  unfold plugin_accepted, deserialize_plugin_type, loadable. destruct (mem _ _) eqn:E; [|done]. intros _.
  by apply mem_true in E.
Qed.

Lemma merge_ok a b : config_ok a → plugins_ok b → config_ok (Config_merge a b).
Proof.
  intros [Hp Hi Ht] Hb. split; cbn; [|by apply append_unique_nodup..].
  intros k p. cbn. rewrite lookup_merge_overwrite. destruct (cfg_plugin b !! k) as [q|] eqn:E; cbn.
  - intros <-%(inj Some). by apply (Hb k).
  - apply Hp.
Qed.

Lemma same_but_overrides_ok a b : same_but_overrides a b → config_ok a → config_ok b.
Proof. unfold same_but_overrides. intros -> [Hp Hi Ht]. by split. Qed.

Section wellformed.
Context (h : Host) (lib : Libraries).

Lemma parse_ok content c : parse_jsonc lib content = Ok c → plugins_ok c.
Proof.
  unfold parse_jsonc. destruct (parse_to_serde_value lib content) as [[v|]|]; [|done..].
  destruct (config_from_value lib v) eqn:E; [|done]. intros [= <-]. by eapply accepted_plugins.
Qed.

Lemma normalize_ok c dir : plugins_ok c → plugins_ok (normalize_config_paths h c dir).
Proof. unfold normalize_config_paths, plugins_ok. by repeat case_match. Qed.

Definition loader_ok (l : ConfigLoader) : Prop := config_ok (config l).

Lemma load_from_file_ok l path l' :
  loader_ok l → load_from_file h lib l path = Ok l' → loader_ok l'.
Proof.
  intros Hl. rewrite load_from_file_eq. destruct (negb _); [by intros [= <-]|].
  intros (c & Hc & [= <-])%rbind_Ok. apply merge_ok; [done|]. unfold file_config in Hc.
  destruct (read_text h path); [|done]. apply rbind_Ok in Hc as (content & _ & Hc).
  apply rbind_Ok in Hc as (c' & Hc' & [= <-]). apply normalize_ok. by eapply parse_ok.
Qed.

Lemma load_files_ok_wf l paths l' :
  loader_ok l → load_files h lib l paths = Ok l' → loader_ok l'.
Proof. intros Hl. apply fold_result_ind; [|done]. intros; by eapply load_from_file_ok. Qed.

Lemma load_content_ok l l' :
  loader_ok l → load_from_env_content h lib l = Ok l' → loader_ok l'.
Proof.
  intros Hl. unfold load_from_env_content, load_from_str. destruct (env_var h _); [|by intros [= <-]].
  intros (c & Hc & [= <-])%rbind_Ok. apply merge_ok; [done|]. by eapply parse_ok.
Qed.

Lemma sidecars_ok l dir l' : loader_ok l → load_directory_sidecars h lib l dir = Ok l' → loader_ok l'.
Proof.
  intros [Hp Hi Ht]. unfold load_directory_sidecars. intros (cs & _ & H)%rbind_Ok.
  apply rbind_Ok in H as (ags & _ & H). injection H as <-. repeat case_bool_decide; by split.
Qed.

Lemma discovered_ok dirs c : config_ok c → config_ok (add_discovered h dirs c).
Proof.
  intros [Hp Hi Ht]. split; [|done..]. cbn. apply map_Forall_union_2; [done|].
  unfold discovered_plugins. generalize (dirs ≫= load_plugins_from_path h). intros specs.
  assert (∀ m : gmap string PluginConfig, map_Forall loadable m → map_Forall loadable
    (foldl (fun found spec => <[fst (from_file_spec spec) := snd (from_file_spec spec)]> found) m specs))
    as Hall.
  { induction specs as [|s specs IH]; intros m Hm; [done|]. cbn [foldl]. apply IH.
    apply map_Forall_insert_2; [|done]. right. left. }
  by apply Hall, map_Forall_empty.
Qed.
End wellformed.

(** ** A machine to try *)

#[export] Instance entry_name_dec name : Decision (entry_name name).
Proof. unfold entry_name. apply _. Defined.

(** Whether a file system is a tree with proper names is decided on its nodes. *)
Definition node_checked (fs : FS) (kn : Loc * Node) : Prop :=
  node fs (removelast (fst kn)) = Some Node_.Dir ∧ Forall entry_name (fst kn).
#[export] Instance node_checked_dec fs kn : Decision (node_checked fs kn).
Proof. unfold node_checked. apply _. Defined.

Lemma tree_checked fs :
  Forall (node_checked fs) (map_to_list (fs_nodes fs)) → ∀ k name n,
  node fs (k ++ [name]) = Some n → node fs k = Some Node_.Dir ∧ entry_name name.
Proof.
  rewrite Forall_forall. intros Hall k name n Hn. unfold node in Hn.
  rewrite bool_decide_eq_false_2 in Hn by (by destruct k).
  apply elem_of_map_to_list, Hall in Hn as [Hdir Hname]. cbn in *. rewrite removelast_snoc in Hdir.
  apply Forall_app in Hname as [_ Hname]. split; [done|]. by inversion Hname.
Qed.

(** The workspace [/ws] is isolated and has a cycle of links below its commands; [/plain] is not;
    an administrator has put a configuration into [/etc/agendao]. *)
Definition demo_tree : list (Loc * Node) :=
  [(["ws"], Node_.Dir); (["ws"; ".agendao"], Node_.Dir); (["ws"; ".agendao"; "commands"], Node_.Dir);
   (["ws"; ".agendao"; "commands"; "loop"],
      Node_.Link [Comp.RootDir; Comp.Normal "ws"; Comp.Normal ".agendao"; Comp.Normal "commands"]);
   (["ws"; ".agendao"; "commands"; "go.md"], Node_.File "Go.");
   (["ws"; ".agendao"; "agendao.json"], Node_.File "local");
   (["plain"], Node_.Dir); (["plain"; "agendao.json"], Node_.File "local");
   (["etc"], Node_.Dir); (["etc"; "agendao"], Node_.Dir);
   (["etc"; "agendao"; "agendao.json"], Node_.File "managed")].

Definition demo_fs : FS :=
  foldl (fun fs kn => put fs (fst kn) (snd kn)) {| fs_nodes := ∅; fs_cwd := [] |} demo_tree.

Definition demo_host : Host :=
  {| host_fs := demo_fs;
     env_var name := if bool_decide (name = "AGENDAO_PERMISSION") then Some "allow" else None;
     home_dir := Some "/home"; host_os := OtherUnix; dir_order _ names := names |}.

Definition demo_theme (theme : string) : Config :=
  {| cfg_schema := None; cfg_theme := Some theme; cfg_keybinds := None; cfg_log_level := None;
     cfg_tui := None; cfg_server := None; cfg_command := None; cfg_skills := None; cfg_docs := None;
     cfg_task_category_path := None; cfg_skill_paths := ∅; cfg_watcher := None;
     cfg_plugin := {["p" := plugin_of "npm" (Some "pkg") None None]};
     cfg_plugin_paths := ∅; cfg_tool_imports := []; cfg_snapshot := None; cfg_share := None;
     cfg_autoupdate := None; cfg_disabled_providers := []; cfg_enabled_providers := [];
     cfg_disabled_tools := []; cfg_disabled_plugins := []; cfg_model := None; cfg_small_model := None;
     cfg_default_agent := None; cfg_username := None; cfg_agent := None; cfg_provider := None;
     cfg_mcp := None; cfg_formatter := None; cfg_lsp := None; cfg_instructions := [theme];
     cfg_layout := None; cfg_ui_preferences := None;
     cfg_permission := Some {| perm_rules := {["bash" := Action Deny]} |}; cfg_web_search := None;
     cfg_multimodal := None; cfg_external_adapter := None; cfg_enterprise := None;
     cfg_compaction := None; cfg_repair_policy := None; cfg_experimental := None; cfg_env := None;
     cfg_runtime_budget := None |}.

(** Every text is a configuration with that theme; no references, no front matter. *)
Definition demo_libraries : Libraries :=
  {| captures_iter _ _ := []; parse_to_serde_value text := Some (Some (JString text));
     oauth_decoded _ := None; server_decoded _ _ := None;
     config_decoded _ v := match v with JString theme => Some (demo_theme theme) | _ => None end;
     command_from_yaml _ := None; agent_from_yaml _ := None;
     permission_from_json _ := Some {| perm_rules := {["bash" := Action Allow]} |} |}.

Lemma demo_host_ok : host_ok demo_host.
Proof.
  assert (Forall (node_checked demo_fs) (map_to_list (fs_nodes demo_fs))) as Hall.
  { apply (bool_decide_unpack _). by vm_compute. }
  pose proof (tree_checked _ Hall) as Htree. split; [split; [|done]| |done].
  - intros k name n Hn. by apply Htree in Hn as [? _].
  - intros k name n Hn. by apply Htree in Hn as [_ ?].
Qed.

Example demo_isolated :
  (r ← ok_value (resolve demo_host demo_libraries "/ws");
   Some (cfg_theme (resolved_config r), inputs_config_paths (resolved_inputs r),
         inputs_mode (resolved_inputs r)))
  = Some (Some "local", ["/ws/.agendao/agendao.json"; "/ws/.agendao/agendao.json"], Isolated).
Proof. vm_compute. reflexivity. Qed.

(** ** Properties *)

(** C23. A load ends: whatever directories and links are below the command and agent directories, the
    search for definitions does not run deeper than any path can lead, and the searches upwards have
    arrived before their fuel is used up. *)
Theorem loads_always_finish h lib dir :
  host_ok h →
  finishes (resolve h lib dir) ∧
  (∀ target stop k current,
    find_up_from h target stop (ancestor_fuel current + k) current =
    find_up_from h target stop (ancestor_fuel current) current) ∧
  (∀ k current topmost,
    worktree_stop_from h (ancestor_fuel current + k) current topmost =
    worktree_stop_from h (ancestor_fuel current) current topmost).
Proof.
  intros Hok. split_and!.
  - unfold resolve. apply finishes_rbind; [by apply load_with_inputs_finishes|done].
  - intros. apply find_up_enough. unfold ancestor_fuel. lia.
  - intros. apply worktree_stop_enough. unfold ancestor_fuel. lia.
Qed.

Lemma loads_always_finish_witness :
  finishes (resolve demo_host demo_libraries "/ws") ∧ is_ok (resolve demo_host demo_libraries "/ws") = true.
Proof.
  split; [|by vm_compute]. apply (loads_always_finish demo_host demo_libraries "/ws" demo_host_ok).
Defined.

Lemma load_all_ok_wf h lib l root l' :
  loader_ok l → load_all h lib l root = Ok l' → loader_ok l'.
Proof.
  intros H0. unfold load_all. intros (l1 & H1 & H)%rbind_Ok.
  apply rbind_Ok in H as (l2 & H2%load_env_files & H). apply rbind_Ok in H as (l3 & H3%load_project_files & H).
  apply rbind_Ok in H as (l4 & H4 & H). apply rbind_Ok in H as (l5 & H5 & H).
  apply rbind_Ok in H as (l6 & H6%load_managed_files & H). injection H as <-.
  eapply same_but_overrides_ok; [apply post_load_same|]. change (loader_ok l6).
  eapply load_files_ok_wf, H6. eapply load_content_ok, H5.
  apply discovered_ok. change (loader_ok l4). eapply fold_result_ind, H4.
  - intros la d lb _ Ha (lc & Hc & Hd)%rbind_Ok. eapply sidecars_ok, Hd.
    destruct (has_path _ _); [by injection Hc as <-|]. by eapply load_files_ok_wf.
  - eapply load_files_ok_wf, H3. eapply load_files_ok_wf, H2.
    by eapply load_files_ok_wf.
Qed.

Lemma load_isolated_ok_wf h lib l id l' :
  loader_ok l → load_isolated h lib l id = Ok l' → loader_ok l'.
Proof.
  intros H0 H. unfold load_isolated in H. destruct (config_dir _) as [d|]; [|by eapply load_all_ok_wf].
  apply rbind_Ok in H as (l1 & H1 & H). apply rbind_Ok in H as (l2 & H2 & H).
  apply rbind_Ok in H as (acc & Hacc & H). injection H as <-.
  eapply same_but_overrides_ok; [apply post_load_same|]. apply discovered_ok.
  apply (fold_result_ind (fun a => loader_ok (fst a)) _ _ _ _) with (3 := Hacc).
  - intros [la seen] dd [lb seen'] _ Ha Hs. unfold load_new_sidecars in Hs.
    destruct (has_path seen dd); [by injection Hs as <- <-|].
    apply rbind_Ok in Hs as (lc & Hc & [= <- <-]). by eapply sidecars_ok.
  - eapply load_files_ok_wf, H2. by eapply load_files_ok_wf.
Qed.

(** C22. A configuration that was loaded has plugins of the three kinds only (deserialize_plugin_type refuses
    any other in every file, whatever the JSON says, and no other source adds one), and its
    instructions and tool imports have no repetitions. *)
Theorem loaded_config_is_well_formed h lib dir r :
  resolve h lib dir = Ok r → config_ok (resolved_config r).
Proof.
  unfold resolve. intros (l & Hl & [= <-])%rbind_Ok. cbn [resolved_config].
  change (loader_ok l). assert (loader_ok loader_new) as Hnew by (split; [apply map_Forall_empty|constructor..]).
  unfold load_with_inputs in Hl. destruct (inputs_mode _).
  - by eapply load_all_ok_wf.
  - by eapply load_isolated_ok_wf.
Qed.

Definition demo_resolved (dir : PathBuf) : ResolvedConfig :=
  match resolve demo_host demo_libraries dir with
  | Ok r => r
  | Err _ => {| resolved_config := default_Config; resolved_inputs := resolve_inputs demo_host dir |}
  end.

Lemma demo_resolve dir :
  is_ok (resolve demo_host demo_libraries dir) = true →
  resolve demo_host demo_libraries dir = Ok (demo_resolved dir).
Proof. unfold demo_resolved. by destruct (resolve demo_host demo_libraries dir). Qed.

Lemma loaded_config_is_well_formed_witness : config_ok (resolved_config (demo_resolved "/ws")).
Proof.
  apply (loaded_config_is_well_formed demo_host demo_libraries "/ws" (demo_resolved "/ws")).
  apply demo_resolve. by vm_compute.
Defined.

Definition workspace_of (h : Host) (dir : PathBuf) : WorkspaceIdentity :=
  inputs_identity (resolve_inputs h dir).
Definition existing_files (h : Host) (paths : list PathBuf) : list PathBuf :=
  filter (fun p => exists_at h p = true) paths.

(** The files a workspace takes its configuration from, in order: an isolated one (a directory with
    [.agendao] in it) the global files and its own, and nothing else (neither the files of the project
    nor [AGENDAO_CONFIG] nor the managed directory); any other one the global files,
    [AGENDAO_CONFIG], the project's files from the outermost directory inwards (those of
    the first name before those of the second), the local directories and the managed one.  Files that do not
    exist are left out.  An isolated workspace reports its own files twice. *)
Lemma configuration_sources h lib dir r :
  resolve h lib dir = Ok r →
  inputs_config_paths (resolved_inputs r) =
    match config_dir (workspace_of h dir) with
    | Some own => existing_files h (isolated_sources h own) ++ existing_files h (directory_sources own)
    | None => existing_files h (shared_sources h (workspace_root (workspace_of h dir)))
    end ∧
  (inputs_mode (resolved_inputs r) = Isolated ↔
     is_dir_at h (join_text (requested_dir (workspace_of h dir)) ".agendao") = true).
Proof.
  unfold resolve. intros (l & Hl & [= <-])%rbind_Ok.
  cbn [resolved_inputs inputs_config_paths inputs_mode]. unfold load_with_inputs in Hl. split.
  - unfold workspace_of. destruct (inputs_mode _) eqn:Hmode.
    + apply load_all_paths in Hl. rewrite Hl.
      destruct (config_dir (inputs_identity (resolve_inputs h dir))) eqn:Hc; [|done].
      cbn in Hmode, Hc. by rewrite Hc in Hmode.
    + destruct (config_dir (inputs_identity (resolve_inputs h dir))) as [own|] eqn:Hc.
      * by apply (load_isolated_paths _ _ _ _ own) in Hl.
      * unfold load_isolated in Hl. rewrite Hc in Hl. by apply load_all_paths in Hl.
  - unfold workspace_of, resolve_inputs. cbn. by destruct (is_dir_at h (join_text _ ".agendao")).
Qed.

(** The rule of a configuration for a permission. *)
Definition permission_rule (c : Config) (name : string) : option PermissionRule :=
  cfg_permission c ≫= fun p => perm_rules p !! name.

(** A part of the compaction settings, and a flag that a variable switches off. *)
Definition compaction {A} (f : CompactionConfig → option A) (c : Config) : option A := cfg_compaction c ≫= f.
Definition switched_off (h : Host) (name : string) (value : option bool) : option bool :=
  if has_value (env_var h name) then Some false else value.
Definition environment_rules (h : Host) (lib : Libraries) : gmap string PermissionRule :=
  match env_var h "AGENDAO_PERMISSION" ≫= permission_from_json lib with
  | Some p => perm_rules p
  | None => ∅
  end.

(** What the environment may change at the end of a load, from [c] to [c']: rules of its own replace
    those of the same name, two variables switch compaction and pruning off, a missing user
    name is that of the system.  The rest is as it was. *)
Record environment_overrides (h : Host) (lib : Libraries) (c c' : Config) : Prop := {
  over_rules name : permission_rule c' name =
    merge_option_replace (permission_rule c name) (environment_rules h lib !! name);
  over_username : cfg_username c' =
    match cfg_username c with
    | Some user => Some user
    | None => merge_option_replace (env_var h "USERNAME") (env_var h "USER")
    end;
  over_auto : compaction comp_auto c' =
    switched_off h "AGENDAO_DISABLE_AUTOCOMPACT" (compaction comp_auto c);
  over_prune : compaction comp_prune c' = switched_off h "AGENDAO_DISABLE_PRUNE" (compaction comp_prune c);
  over_reserved : compaction comp_reserved c' = compaction comp_reserved c;
  over_rest : same_but_overrides c c'
}.

(** Every way through the overrides. *)
Ltac by_overrides :=
  unfold apply_post_load_transforms, override_compaction, fill_username, override_permission;
  repeat case_match; simplify_eq/=; try done.

Lemma post_load_overrides h lib c : environment_overrides h lib c (apply_post_load_transforms h lib c).
Proof.
  split; [| | | | |apply post_load_same].
  - intros name. unfold permission_rule, environment_rules, apply_post_load_transforms, override_compaction,
      fill_username, override_permission.
    destruct (env_var h "AGENDAO_PERMISSION" ≫= permission_from_json lib) as [p|]; repeat case_match; cbn;
      try (by rewrite lookup_empty).
    all: rewrite lookup_merge_overwrite; by destruct (cfg_permission c).
  - by_overrides; congruence.
  - unfold compaction, switched_off. by_overrides; by destruct (cfg_compaction c).
  - unfold compaction, switched_off. by_overrides; by destruct (cfg_compaction c).
  - unfold compaction. by_overrides; by destruct (cfg_compaction c).
Qed.

(** What is loaded before the managed files: the global files, [AGENDAO_CONFIG], the project's, the
    [.agendao] directories, the discovered plugins and the inline configuration. *)
Definition load_unmanaged (h : Host) (lib : Libraries) (l : ConfigLoader) (dir : PathBuf)
    : result LoadError ConfigLoader :=
  let? l := load_global h lib l in
  let? l := load_from_env h lib l in
  let? l := load_project h lib l dir in
  let? l := fold_result (fun l dir =>
    let? l := (if has_path (global_config_dirs h) (normalize_existing_path h dir) then Ok l
               else load_directory_files h lib l dir) in
    load_directory_sidecars h lib l dir) l (collect_agendao_directories h dir) in
  load_from_env_content h lib (map_config (fun c =>
    add_discovered h (collect_plugin_roots h dir (cfg_plugin_paths c)) c) l).

(** The layers of the managed directory. *)
Definition managed_layers (h : Host) (lib : Libraries) : list Config := file_layers h lib (managed_sources h).

(** C21. In a workspace that is not isolated the managed configuration is merged last, over all other layers.  So every
    setting that layers overwrite ([Config_settings]) and that a managed file sets has the value of the last managed
    file that does; the other places follow their rules ([own_rules]) with the managed layers on top:
    managed instructions and tool imports come after the others, managed JSON options are merged in by path, a
    managed formatter or language server section overlays the others' entries or switches them off, and an empty managed
    web model clears the others'.  After that only the
    environment decides: the rules in [AGENDAO_PERMISSION] replace the managed ones of the same name,
    [AGENDAO_DISABLE_AUTOCOMPACT] and [AGENDAO_DISABLE_PRUNE], set to whatever, switch compaction and pruning off,
    a missing user name is that of the system, and nothing else is changed. *)
Theorem managed_settings_are_in_force h lib l dir l' depth k m v x :
  load_all h lib l dir = Ok l' →
  ∃ unmanaged c, load_unmanaged h lib l dir = Ok unmanaged ∧ environment_overrides h lib c (config l') ∧
    Forall (fun s : setting Config => ∀ value,
      last_set (get s <$> managed_layers h lib) = Some value → get s c = Some value)
    (Config_settings depth k m v x) ∧
    (managed_layers h lib = [] → c = config unmanaged) ∧
    (∀ lower layer, managed_layers h lib = lower ++ [layer] →
      own_rules (merge_layers (config unmanaged) lower) layer c) ∧
    (∀ item, item ∈ cfg_instructions c ↔
      item ∈ cfg_instructions (config unmanaged) ++ (managed_layers h lib ≫= cfg_instructions)).
Proof.
  unfold load_all, load_unmanaged. intros (l1 & -> & H)%rbind_Ok; cbn [rbind].
  apply rbind_Ok in H as (l2 & -> & H); cbn [rbind]. apply rbind_Ok in H as (l3 & -> & H); cbn [rbind].
  apply rbind_Ok in H as (l4 & -> & H); cbn [rbind]. apply rbind_Ok in H as (l5 & -> & H).
  apply rbind_Ok in H as (l6 & [H6 _]%load_managed_files%load_files_ok & H). injection H as <-.
  exists l5, (config l6). split; [done|]. split; [apply post_load_overrides|]. rewrite H6.
  fold (managed_layers h lib). split_and!.
  - eapply Forall_impl; [apply Config_settings_overlay|]. intros s Hs value Hv.
    rewrite overlays_layers by done. by rewrite Hv.
  - by intros ->.
  - intros lower layer ->. rewrite merge_layers_snoc. apply merge_own_rules.
  - intros item. destruct (lists_accumulate (config l5) (managed_layers h lib)) as (-> & _ & Hel & _).
    by rewrite Hel, elem_of_app.
Qed.

Definition demo_loaded : ConfigLoader :=
  match load_all demo_host demo_libraries loader_new "/plain" with Ok l => l | Err _ => loader_new end.

Lemma managed_settings_are_in_force_witness :
  ∃ c, environment_overrides demo_host demo_libraries c (config demo_loaded) ∧ cfg_theme c = Some "managed" ∧
    permission_rule (config demo_loaded) "bash" = Some (Action Allow).
Proof.
  assert (load_all demo_host demo_libraries loader_new "/plain" = Ok demo_loaded) as Hl.
  { assert (is_ok (load_all demo_host demo_libraries loader_new "/plain") = true) as Hok by by vm_compute.
    unfold demo_loaded. by destruct (load_all _ _ _ _). }
  destruct (managed_settings_are_in_force _ _ _ _ _ 0 "" "" "" "" Hl) as (unmanaged & c & _ & Hc & Hs & _).
  exists c. split_and!; [done| |by vm_compute].
  apply Forall_cons_1 in Hs as [_ [Hs _]%Forall_cons_1]. apply (Hs "managed"). by vm_compute.
Defined.
