(* ===== verification/ConfigReferences.v ===== *)
(** * References in the text of a configuration

    [resolve_file_references] of [file_ops.rs]: what is put in place of a
    [{file:..}] reference is the inside of a JSON string for the file's text, and the cache
    of files that have been read makes no difference. *)

From S2P Require Import Prelude Json TextLines FileSystem ConfigSchema ConfigFiles ConfigLoader.
From stdpp Require Import options.

(** ** Replacing characters *)

(** Every byte replaced by a text. *)
Fixpoint str_map (f : Ascii.ascii → string) (s : string) : string :=
  match s with
  | EmptyString => EmptyString
  | String c s => f c +:+ str_map f s
  end.

Lemma str_map_app f s t : str_map f (s +:+ t) = str_map f s +:+ str_map f t.
Proof.
  induction s as [|c s IH]; [done|]. rewrite str_app_cons. cbn [str_map]. by rewrite IH, str_app_assoc.
Qed.

Lemma str_map_map f g s : str_map g (str_map f s) = str_map (fun c => str_map g (f c)) s.
Proof. induction s as [|c s IH]; [done|]. cbn [str_map]. by rewrite str_map_app, IH. Qed.

Lemma str_map_ext f g s : (∀ c, f c = g c) → str_map f s = str_map g s.
Proof. intros Hfg. induction s as [|c s IH]; [done|]. cbn [str_map]. by rewrite Hfg, IH. Qed.

Definition replace_byte (a : Ascii.ascii) (r : string) (c : Ascii.ascii) : string :=
  if decide (c = a) then r else String c "".

Lemma str_replace_byte a r s : str_replace (String a "") r s = str_map (replace_byte a r) s.
Proof.
  unfold str_replace. rewrite bool_decide_eq_false_2 by done.
  induction s as [|c s IH]; [done|]. cbn [str_map replace_from]. unfold replace_byte at 1.
  unfold starts_with. cbn [strip_prefix]. case_decide as E; case_decide as E'; try congruence.
  - cbn. by rewrite IH.
  - by rewrite IH.
Qed.

(** ** Escaping *)

(** What becomes of a byte. *)
Definition escape_byte (c : Ascii.ascii) : string :=
  if decide (c = Ascii.ascii_of_nat 92) then backslash +:+ backslash
  else if decide (c = Ascii.ascii_of_nat 34) then backslash +:+ quote
  else if decide (c = newline) then backslash +:+ "n"
  else if decide (c = carriage_return) then backslash +:+ "r"
  else if decide (c = Ascii.ascii_of_nat 9) then backslash +:+ "t"
  else String c "".

Lemma escape_content_bytes content : escape_content content = str_map escape_byte (trim content).
Proof.
  unfold escape_content. generalize (trim content). intros text.
  change tab with (String (Ascii.ascii_of_nat 9) ""). change cr with (String carriage_return "").
  change nl with (String newline ""). change quote with (String (Ascii.ascii_of_nat 34) "").
  change backslash with (String (Ascii.ascii_of_nat 92) "").
  rewrite !str_replace_byte, !str_map_map. apply str_map_ext.
  by intros [[] [] [] [] [] [] [] []].
Qed.

(** The JSON reading of the inside of a string: a backslash and a letter stand for one character.
    [None] when the string would end before, or holds a control character that JSON forbids there
    and that an escape exists for. *)
Definition unescape_letter (c : Ascii.ascii) : Ascii.ascii :=
  if decide (c = Ascii.ascii_of_nat 110) then newline
  else if decide (c = Ascii.ascii_of_nat 114) then carriage_return
  else if decide (c = Ascii.ascii_of_nat 116) then Ascii.ascii_of_nat 9
  else c.
Definition plain_byte (c : Ascii.ascii) : bool :=
  negb (bool_decide (c ∈ [Ascii.ascii_of_nat 92; Ascii.ascii_of_nat 34; newline; carriage_return;
                          Ascii.ascii_of_nat 9])).
Fixpoint json_unescape (s : string) : option string :=
  match s with
  | EmptyString => Some EmptyString
  | String a rest =>
      if decide (a = Ascii.ascii_of_nat 92) then
        match rest with
        | String b rest => String (unescape_letter b) <$> json_unescape rest
        | EmptyString => None
        end
      else if plain_byte a then String a <$> json_unescape rest
      else None
  end.

(** What replaces a reference is the inside of a JSON string for the text of the file: read as
    JSON it is that text without the white space around it, whatever quotes, backslashes, line ends and
    tabs the text has, and it cannot end the string it is put into. *)
Lemma inserted_text_reads_back content : json_unescape (escape_content content) = Some (trim content).
Proof.
  rewrite escape_content_bytes. generalize (trim content). intros text.
  induction text as [|c text IH]; [done|]. cbn [str_map].
  transitivity (String c <$> json_unescape (str_map escape_byte text)); [|by rewrite IH].
  generalize (str_map escape_byte text). intros rest.
  by destruct c as [[] [] [] [] [] [] [] []].
Qed.

(** ** The cache *)

Section cache.
Context (h : Host) (text : string) (base_dir : PathBuf).

(** The result without a cache: every reference reads its file. *)
Fixpoint splice_references (last_end : nat) (caps : list Capture) : result LoadError string :=
  match caps with
  | [] => Ok (str_drop last_end text)
  | c :: caps =>
      let full_match := slice text (cap_start c) (cap_end c) in
      let? inserted :=
        (if on_commented_line text (cap_start c) then Ok full_match
         else let resolved := reference_path h base_dir (cap_group c) in
              match read_text h resolved with
              | Ok content => Ok (escape_content content)
              | Err e => Err (BadFileReference full_match resolved e)
              end) in
      let? rest := splice_references (cap_end c) caps in
      Ok (slice text last_end (cap_start c) +:+ inserted +:+ rest)
  end.

(** What is in the cache is what the file would give. *)
Definition cache_sound (cache : ContentCache) : Prop :=
  ∀ p escaped, cached cache (components p) = Some escaped →
    ∃ content, read_text h p = Ok content ∧ escaped = escape_content content.

Lemma cache_transparent cache last_end caps :
  cache_sound cache →
  resolve_references h text base_dir cache last_end caps = splice_references last_end caps.
Proof.
  revert cache last_end. induction caps as [|c caps IH]; intros cache last_end Hc; [done|].
  cbn [resolve_references splice_references]. destruct (on_commented_line text (cap_start c)).
  { cbn [rbind]. by rewrite IH. }
  destruct (cached cache _) as [escaped|] eqn:He.
  - apply Hc in He as (content & -> & ->). cbn [rbind]. by rewrite IH.
  - destruct (read_text h _) as [content|e] eqn:Hr; [|done]. cbn [rbind]. rewrite IH; [done|].
    intros p esc. cbn [cached]. case_bool_decide as Heq; [|apply Hc]. intros [= <-]. exists content.
    split; [|done]. unfold read_text in *. by rewrite <- Heq.
Qed.

Lemma references_without_cache lib :
  resolve_file_references h lib text base_dir = splice_references 0 (captures_iter lib FileReference text).
Proof. by apply cache_transparent. Qed.
End cache.
