(* ===== verification/ConfigPlugins.v ===== *)
(** * Plugin specifications, disabled lists, agents of two directories

    What [schema/plugin.rs], [matching.rs] and [merge_agent_config] of
    [loader/transforms.rs] do: specifications survive the way through a plugin entry,
    a pattern disables exactly the names it says, and an agent that is defined twice is merged
    as the layers of a configuration are, but for nested JSON options. *)

From S2P Require Import Prelude Json TextLines FileSystem ConfigSchema ConfigMerge ConfigFiles ConfigLoader ConfigLoaderProps.
From stdpp Require Import options.

(** ** Specifications *)

Lemma find_at_sign spec idx : find_sub "@" spec = Some idx →
  str_take idx spec +:+ "@" +:+ str_drop (S idx) spec = spec.
Proof.
  intros (a & b & -> & <-)%find_sub_Some. rewrite str_take_app. f_equal.
  assert (str_drop (S (String.length a)) (a +:+ "@" +:+ b) = b) as ->; [|done].
  induction a as [|c a IH]; [done|]. cbn [String.length]. rewrite str_app_cons. exact IH.
Qed.

Lemma parse_npm_spec_eq spec :
  spec = fst (parse_npm_spec spec) +:+ "@" +:+ snd (parse_npm_spec spec) ∨ parse_npm_spec spec = (spec, "*").
Proof.
  unfold parse_npm_spec. destruct (strip_prefix "@" spec) as [stripped|] eqn:Hs.
  - apply strip_prefix_Some in Hs as ->. destruct (find_sub "@" stripped) as [idx|] eqn:Hf; [left|by right].
    apply find_at_sign in Hf. cbn [fst snd]. change ("@" +:+ stripped) with (String at_sign stripped).
    transitivity (String at_sign (str_take idx stripped +:+ "@" +:+ str_drop (S idx) stripped)); [|done].
    by rewrite Hf.
  - destruct (find_sub "@" spec) as [idx|] eqn:Hf; [left|by right].
    symmetry. by apply find_at_sign.
Qed.

(** A specification becomes an entry and the entry a specification again: an npm package with
    its version, but for a version [*], which is dropped; a file by its path.  Native plugins have none. *)
Lemma plugin_specs_read_back spec path name :
  to_loader_spec (snd (from_npm_spec spec)) name =
    Some (if bool_decide (snd (parse_npm_spec spec) = "*") then fst (parse_npm_spec spec) else spec) ∧
  to_loader_spec (snd (from_file_spec (plugin_spec path))) name = Some (plugin_spec path) ∧
  to_loader_spec (snd (from_dylib_path path)) name = None ∧
  dylib_path (snd (from_dylib_path path)) = Some path.
Proof.
  split_and!; [|by unfold from_file_spec, plugin_spec; rewrite strip_prefix_app|done..].
  pose proof (parse_npm_spec_eq spec) as Hspec. unfold from_npm_spec.
  destruct (parse_npm_spec spec) as [pkg ver]. cbn in *.
  unfold to_loader_spec. cbn.
  rewrite (bool_decide_eq_true_2 ("npm" = "npm")) by done. case_bool_decide as Hv; [done|].
  destruct Hspec as [Heq|[= -> ->]]; [|congruence]. by rewrite Heq at 1.
Qed.

(** A directory plugin is known by the name of its entry file, so all of them that are started by
    an [index.ts] have one key, and the last one found takes it. *)
Lemma directory_plugins_share_a_key dir :
  fst (from_file_spec (plugin_spec (join_text dir "index.ts"))) = "index".
Proof.
  unfold from_file_spec, plugin_spec. rewrite strip_prefix_app. cbn [from_option id fst].
  unfold file_stem, file_name_text. rewrite components_join by (by vm_compute).
  unfold file_name. by rewrite last_snoc.
Qed.

(** ** Disabled names *)

(** A pattern is a name, or a prefix and everything below it. *)
Inductive disables (pattern name : string) : Prop :=
| disables_name : pattern ≠ "" → strip_suffix "/*" pattern = None → name = pattern → disables pattern name
| disables_prefix prefix : strip_suffix "/*" pattern = Some prefix → trim_end_matches slash prefix ≠ "" →
    name = trim_end_matches slash prefix → disables pattern name
| disables_below prefix rest : strip_suffix "/*" pattern = Some prefix → trim_end_matches slash prefix ≠ "" →
    name = trim_end_matches slash prefix +:+ "/" +:+ rest → disables pattern name.

Lemma get_after_prefix p name :
  starts_with p name = true → String.get (String.length p) name = Some slash →
  ∃ rest, name = p +:+ "/" +:+ rest.
Proof.
  intros [t ->]%starts_with_true Hget. exists (str_drop 1 t). f_equal.
  induction p as [|c p IH]; [|by apply IH]. cbn in Hget. destruct t as [|a t]; [done|].
  by injection Hget as ->.
Qed.

Lemma get_slash p rest : String.get (String.length p) (p +:+ "/" +:+ rest) = Some slash.
Proof. induction p as [|c p IH]; [done|]. cbn [String.length]. rewrite str_app_cons. exact IH. Qed.

Lemma pattern_matches_iff pattern name : pattern_matches pattern name = true ↔ disables pattern name.
Proof.
  unfold pattern_matches. case_bool_decide as He.
  { split; [done|]. subst. intros [|prefix Hs|prefix rest Hs]; done. }
  destruct (strip_suffix "/*" pattern) as [p|] eqn:Hs.
  - set (prefix := trim_end_matches slash p). rewrite !andb_true_iff, !orb_true_iff, negb_true_iff,
      bool_decide_eq_false, !bool_decide_eq_true, Nat.eqb_eq. split.
    + intros [[Hne [->|Hpre]] [Hlen|Hget]].
      * by eapply disables_prefix.
      * by eapply disables_prefix.
      * apply starts_with_true in Hpre as [t Ht]. rewrite Ht, str_length_app in Hlen.
        destruct t; [|cbn in Hlen; lia]. rewrite str_app_nil_r in Ht. by eapply disables_prefix.
      * apply get_after_prefix in Hget as [rest ->]; [|done]. by eapply disables_below.
    + intros [|q Hq Hne ->|q rest Hq Hne ->]; simplify_eq; fold prefix in Hne |- *.
      * split; [by split; [|left]|]. by left.
      * split; [split; [done|right; apply starts_with_true; eauto]|]. right. apply get_slash.
  - rewrite bool_decide_eq_true. split.
    + intros ->. by apply disables_name.
    + intros []; congruence.
Qed.

(** A plugin may be loaded unless a pattern of the list, without the white space around it,
    disables its name. *)
Lemma disabled_lists_exact config name :
  plugin_load_allowed config name = true ↔
  ∀ pattern, pattern ∈ cfg_disabled_plugins config → ¬ disables (trim pattern) name.
Proof.
  unfold plugin_load_allowed, is_disabled. induction (cfg_disabled_plugins config) as [|p ps IH]; cbn.
  { split; [|done]. by intros _ ? ?%not_elem_of_nil. }
  destruct (pattern_matches (trim p) name) eqn:Hp.
  - apply pattern_matches_iff in Hp. split; [done|]. intros Hall. by destruct (Hall p); [left|].
  - rewrite IH. split.
    + intros Hall q [->|Hq]%elem_of_cons; [|by apply Hall]. by rewrite <- pattern_matches_iff, Hp.
    + intros Hall q Hq. apply Hall. by right.
Qed.

(** ** An agent that is defined twice *)

Lemma replace_if_some_eq {T} (a b : option T) : replace_if_some a b = merge_option_replace a b.
Proof. by destruct b. Qed.

Lemma overwrite_or_insert {T} (a b : option (gmap string T)) :
  (match b with Some bm => Some (merge_map_overwrite_values (default ∅ a) bm) | None => a end) =
  merge_option_map_overwrite_values a b.
Proof.
  destruct a, b; cbn; try done. f_equal. apply map_eq. intros k. rewrite lookup_merge_overwrite.
  by rewrite lookup_empty; destruct (_ !! k).
Qed.

(** Options of which the two sides have no object of the same name. *)
Definition flat_over (target source : option (gmap string Value)) : Prop :=
  ∀ k tv sv, target ≫= (fun m => m !! k) = Some tv → source ≫= (fun m => m !! k) = Some sv →
    merge_json_value tv sv = sv.

Lemma json_overwrite target source :
  flat_over target source →
  merge_option_map_overwrite_values target source = merge_option_json_map target source.
Proof.
  intros Hflat. destruct target as [t|], source as [s|]; try done. cbn. f_equal.
  apply map_eq. intros k. rewrite lookup_merge_overwrite, lookup_merge_entries. specialize (Hflat k).
  cbn in Hflat. destruct (t !! k), (s !! k); try done. cbn. by rewrite Hflat.
Qed.

(** The merge of agents that Markdown files define is that of configuration layers, unless both
    have an object under one option: then the whole object of the second replaces the first's. *)
Lemma merge_agent_config_is_deep_merge target source :
  flat_over (ag_options target) (ag_options source) →
  merge_agent_config target source = deep_merge target source.
Proof.
  intros Hflat. unfold merge_agent_config, deep_merge, AgentConfig_DeepMerge, AgentConfig_deep_merge.
  rewrite !replace_if_some_eq, !overwrite_or_insert, json_overwrite by done.
  by destruct (ag_permission source), (ag_permission target).
Qed.
