(* ===== verification/ConfigStore.v ===== *)
(** * The configuration store

    [agendao-config/src/store.rs] and the writing half of
    [loader/transforms.rs]: the configuration in force, the file a patch is merged
    into, the cache of the plugins' version.  A patch is three steps, and the
    store takes no lock over them: it takes a snapshot, updates the file, puts
    the merged snapshot back.  [interleaved] runs the steps of several patches in
    any order.  A poisoned lock is taken over, so taking one never fails. *)

From S2P Require Import Prelude Json FileSystem ConfigSchema ConfigMerge ConfigFiles ConfigLoader.
From stdpp Require Import options.

Definition set_fs (h : Host) (fs : FS) : Host :=
  {| host_fs := fs; env_var := env_var h; home_dir := home_dir h; host_os := host_os h;
     dir_order := dir_order h |}.

Inductive StoreError :=
| BadPatch
| SerializeFailed
| IoFailed (e : IoError)
| NoProjectDirectory
| LoadFailed (e : LoadError)
| MutatorFailed.

Section store.
Context (lib : Libraries) (to_string_pretty : Config → option string).

(** ** Writing files *)

(** The first candidate that exists. *)
Definition project_config_write_path (h : Host) (project_dir : PathBuf) : PathBuf :=
  match filter (fun path => exists_at h path = true)
          (join_text project_dir <$>
            ["agendao.json"; "agendao.jsonc"; ".agendao/agendao.json"; ".agendao/agendao.jsonc"]) with
  | path :: _ => path
  | [] => join_text project_dir ".agendao/agendao.json"
  end.

(** What a write leaves: the file system, also when it fails half way. *)
Definition create_parent (h : Host) (path : PathBuf) : result StoreError unit * FS :=
  match parent_text path with
  | Some parent =>
      let '(r, fs) := create_dir_all (host_fs h) (components parent) in
      (match r with Ok _ => Ok tt | Err e => Err (IoFailed e) end, fs)
  | None => (Ok tt, host_fs h)
  end.

Definition write_config_file (h : Host) (config_path : PathBuf) (config : Config)
    : result StoreError unit * FS :=
  match create_parent h config_path with
  | (Err e, fs) => (Err e, fs)
  | (Ok _, fs) =>
      match to_string_pretty config with
      | None => (Err SerializeFailed, fs)
      | Some json =>
          match write_file fs (components config_path) json with
          | Ok fs' => (Ok tt, fs')
          | Err e => (Err (IoFailed e), fs)
          end
      end
  end.

(** The configuration in a file; one that cannot be parsed counts as empty,
    [parse_jsonc(&content).unwrap_or_default()]. *)
Definition existing_config (h : Host) (path : PathBuf) : result StoreError Config :=
  if exists_at h path then
    match read_text h path with
    | Err e => Err (IoFailed e)
    | Ok content => Ok (match parse_jsonc lib content with Ok c => c | Err _ => default_Config end)
    end
  else Ok default_Config.

Definition update_config (h : Host) (project_dir : PathBuf) (patch : Config) : result StoreError unit * FS :=
  let config_path := project_config_write_path h project_dir in
  match existing_config h config_path with
  | Err e => (Err e, host_fs h)
  | Ok existing => write_config_file h config_path (Config_merge existing patch)
  end.

Definition write_config (h : Host) (project_dir : PathBuf) (config : Config) : result StoreError unit * FS :=
  write_config_file h (project_config_write_path h project_dir) config.

(** The existing global file of highest precedence, or [agendao.json]. *)
Definition global_config_write_path (h : Host) : PathBuf :=
  match filter (fun path => exists_at h path = true) (reverse (get_global_config_paths h)) with
  | path :: _ => path
  | [] => default "agendao/agendao.json" (last (get_global_config_paths h))
  end.

Definition update_global_config (h : Host) (patch : Config) : result StoreError unit * FS :=
  let config_path := global_config_write_path h in
  match create_parent h config_path with
  | (Err e, fs) => (Err e, fs)
  | (Ok _, fs) =>
      let h := set_fs h fs in
      match existing_config h config_path with
      | Err e => (Err e, fs)
      | Ok existing =>
          match to_string_pretty (Config_merge existing patch) with
          | None => (Err SerializeFailed, fs)
          | Some json =>
              match write_file fs (components config_path) json with
              | Ok fs' => (Ok tt, fs')
              | Err e => (Err (IoFailed e), fs)
              end
          end
      end
  end.

(** ** The store *)

Record ConfigStore := {
  base : Config; plugin_applied : option Config; project_dir : option PathBuf;
  workspace_identity : option WorkspaceIdentity; workspace_mode : WorkspaceMode; revision : Z
}.

Definition store_new (config : Config) : ConfigStore :=
  {| base := config; plugin_applied := None; project_dir := None; workspace_identity := None;
     workspace_mode := Shared; revision := 0 |}.

Definition from_project_dir (h : Host) (dir : PathBuf) : result StoreError ConfigStore :=
  match resolve h lib dir with
  | Err e => Err (LoadFailed e)
  | Ok resolved =>
      let inputs := resolved_inputs resolved in
      let identity := inputs_identity inputs in
      Ok {| base := resolved_config resolved; plugin_applied := None;
            project_dir := Some (workspace_root identity); workspace_identity := Some identity;
            workspace_mode := inputs_mode inputs; revision := 0 |}
  end.

(** [self.base.store], the revision, [invalidate_plugin_cache_blocking] *)
Definition commit_base (s : ConfigStore) (updated : Config) : ConfigStore :=
  {| base := updated; plugin_applied := None; project_dir := project_dir s;
     workspace_identity := workspace_identity s; workspace_mode := workspace_mode s;
     revision := u64_add (revision s) 1 |}.

Definition set_plugin_applied (s : ConfigStore) (config : option Config) : ConfigStore :=
  {| base := base s; plugin_applied := config; project_dir := project_dir s;
     workspace_identity := workspace_identity s; workspace_mode := workspace_mode s;
     revision := revision s |}.
Definition invalidate_plugin_cache (s : ConfigStore) : ConfigStore := set_plugin_applied s None.

(** The file part of [patch] and of [replace_with]. *)
Definition persist (s : ConfigStore) (h : Host) (write : Host → PathBuf → result StoreError unit * FS)
    : result StoreError unit * FS :=
  match project_dir s with
  | Some dir => write h dir
  | None => (Ok tt, host_fs h)
  end.

Definition patch (s : ConfigStore) (h : Host) (patch : Value) : result StoreError Config * ConfigStore * FS :=
  let current := base s in
  match config_from_value lib patch with
  | None => (Err BadPatch, s, host_fs h)
  | Some patch_config =>
      match persist s h (fun h dir => update_config h dir patch_config) with
      | (Err e, fs) => (Err e, s, fs)
      | (Ok _, fs) =>
          let updated := Config_merge current patch_config in
          (Ok updated, commit_base s updated, fs)
      end
  end.

Definition replace_with (s : ConfigStore) (h : Host) (mutator : Config → option Config)
    : result StoreError Config * ConfigStore * FS :=
  match mutator (base s) with
  | None => (Err MutatorFailed, s, host_fs h)
  | Some updated =>
      match persist s h (fun h dir => write_config h dir updated) with
      | (Err e, fs) => (Err e, s, fs)
      | (Ok _, fs) => (Ok updated, commit_base s updated, fs)
      end
  end.

Definition reload (s : ConfigStore) (h : Host) : result StoreError Config * ConfigStore :=
  match project_dir s with
  | None => (Err NoProjectDirectory, s)
  | Some dir =>
      match resolve h lib dir with
      | Err e => (Err (LoadFailed e), s)
      | Ok resolved =>
          let inputs := resolved_inputs resolved in
          (Ok (resolved_config resolved),
           {| base := resolved_config resolved; plugin_applied := None;
              project_dir := Some (workspace_root (inputs_identity inputs));
              workspace_identity := Some (inputs_identity inputs); workspace_mode := inputs_mode inputs;
              revision := u64_add (revision s) 1 |})
      end
  end.

Definition resolved_task_category_path (h : Host) (s : ConfigStore) : option PathBuf :=
  match trim <$> cfg_task_category_path (base s) with
  | Some raw =>
      if bool_decide (raw = "") then None
      else if starts_with "/" raw then Some raw
      else (fun dir => resolve_configured_path h dir raw) <$> project_dir s
  | None => None
  end.

(** ** Interleaved patches *)

(** Where a patch is: what it will merge, the snapshot it took, what it read from the file (nothing
    holds the file between the read and the write), and its answer. *)
Inductive PatchState :=
| Waiting (patch : Config)
| Snapshot (patch current : Config)
| ReadFile (patch current : Config) (path : PathBuf) (existing : Config)
| Persisted (patch current : Config)
| Answered (r : result StoreError Config).

Record StoreWorld := { world_store : ConfigStore; world_host : Host; world_patches : list PatchState }.

Inductive patch_step : StoreWorld → StoreWorld → Prop :=
| step_snapshot s h ps i p :
    ps !! i = Some (Waiting p) →
    patch_step {| world_store := s; world_host := h; world_patches := ps |}
               {| world_store := s; world_host := h; world_patches := <[i := Snapshot p (base s)]> ps |}
| step_memory_only s h ps i p current :
    ps !! i = Some (Snapshot p current) → project_dir s = None →
    patch_step {| world_store := s; world_host := h; world_patches := ps |}
               {| world_store := s; world_host := h; world_patches := <[i := Persisted p current]> ps |}
| step_read s h ps i p current dir :
    ps !! i = Some (Snapshot p current) → project_dir s = Some dir →
    let path := project_config_write_path h dir in
    patch_step {| world_store := s; world_host := h; world_patches := ps |}
               {| world_store := s; world_host := h;
                  world_patches := <[i := match existing_config h path with
                                          | Ok existing => ReadFile p current path existing
                                          | Err e => Answered (Err e)
                                          end]> ps |}
| step_write s h ps i p current path existing r fs :
    ps !! i = Some (ReadFile p current path existing) →
    write_config_file h path (Config_merge existing p) = (r, fs) →
    patch_step {| world_store := s; world_host := h; world_patches := ps |}
               {| world_store := s; world_host := set_fs h fs;
                  world_patches := <[i := match r with
                                          | Ok _ => Persisted p current
                                          | Err e => Answered (Err e)
                                          end]> ps |}
| step_commit s h ps i p current :
    ps !! i = Some (Persisted p current) →
    let updated := Config_merge current p in
    patch_step {| world_store := s; world_host := h; world_patches := ps |}
               {| world_store := commit_base s updated; world_host := h;
                  world_patches := <[i := Answered (Ok updated)]> ps |}.

Definition interleaved : StoreWorld → StoreWorld → Prop := rtc patch_step.

End store.
