(* ===== verification/ConfigStoreProps.v ===== *)
(** * Properties of the configuration store

    What a patch leaves on disk and in memory, when it is refused, and what happens when
    several run at once. *)

From S2P Require Import Prelude Json FileSystem ConfigSchema ConfigMerge ConfigSettings ConfigFiles ConfigLoader ConfigLoaderProps ConfigStore.
From stdpp Require Import options.

(** ** A file that was written *)

Lemma leads_written fs p cur n k content :
  leads fs true cur p n k → grows fs (put fs k (Node_.File content)) →
  node (put fs k (Node_.File content)) k = Some (Node_.File content) →
  leads (put fs k (Node_.File content)) false cur p n k.
Proof.
  intros Hl [_ Hg]. induction Hl as [|? ? ? ? _ IH|? ? ? ? _ IH|? ? ? ? _ IH|cur name _ _|cur name rest n k E _ IH|
    cur name c E|cur name target rest n k E _ IH]; intros Hk.
  - constructor.
  - apply leads_root. by apply IH.
  - apply leads_cur. by apply IH.
  - apply leads_parent. by apply IH.
  - by eapply leads_file.
  - apply leads_dir; [|by apply IH]. by apply (Hg _ Node_.Dir).
  - by eapply leads_file.
  - eapply leads_link; [by apply (Hg _ (Node_.Link target))|by apply IH].
Qed.

Lemma written_text fs p content fs' :
  fs_wf fs → valid_utf8 content = true → write_file fs p content = Ok fs' →
  read_to_string fs' p = Ok content ∧ fs_wf fs' ∧ grows fs fs'.
Proof.
  intros Hwf Hv Hw. apply write_file_Ok in Hw as (k & Hk & -> & Hwf' & Hg & d & name & ->); [|done].
  split_and!; [|done..]. apply lookup_path_Ok in Hk as (Hp & n & Hn & Hl).
  assert (node (put fs (d ++ [name]) (Node_.File content)) (d ++ [name]) = Some (Node_.File content)) as Hnode.
  { rewrite node_put. by rewrite bool_decide_eq_true_2. }
  unfold read_to_string.
  assert (metadata (put fs (d ++ [name]) (Node_.File content)) p = Ok (Node_.File content)) as ->.
  { apply metadata_Ok. exists (d ++ [name]). split; [|done]. apply lookup_path_Ok.
    split; [done|]. exists n. split; [done|]. by eapply leads_written. }
  cbn. by rewrite Hv.
Qed.

Lemma create_parent_wf h path r fs :
  fs_wf (host_fs h) → create_parent h path = (r, fs) → fs_wf fs ∧ grows (host_fs h) fs.
Proof.
  intros Hwf. unfold create_parent. destruct (parent_text path) as [parent|]; [|by intros [= _ <-]].
  destruct (create_dirs_grows (host_fs h) (reverse (components parent)) Hwf) as [Hwf' Hg].
  unfold create_dir_all. destruct (create_dirs _ _) as [q fs'] eqn:E. cbn in *. by intros [= _ <-].
Qed.

Section props.
Context (lib : Libraries) (to_string_pretty : Config → option string).

(** A write that succeeds leaves the text of the configuration at the path. *)
Lemma write_config_file_reads h path config fs :
  fs_wf (host_fs h) → (∀ json, to_string_pretty config = Some json → valid_utf8 json = true) →
  write_config_file to_string_pretty h path config = (Ok tt, fs) →
  ∃ json, to_string_pretty config = Some json ∧ read_text (set_fs h fs) path = Ok json ∧
    fs_wf fs ∧ grows (host_fs h) fs.
Proof.
  intros Hwf Hutf. unfold write_config_file. destruct (create_parent h path) as [[] fs1] eqn:E; [|done].
  apply create_parent_wf in E as [Hwf1 Hg1]; [|done].
  destruct (to_string_pretty config) as [json|] eqn:Hj; [|done].
  destruct (write_file fs1 _ json) as [fs2|] eqn:Hw; [|done]. intros [= <-].
  apply written_text in Hw as (Hr & Hwf2 & Hg2); [|done|by apply Hutf].
  exists json. split_and!; [done|done|done|]. by etrans.
Qed.

(** What a patch is merged into: the configuration in the file, or an empty one when there is
    no file or its text cannot be parsed. *)
Definition merged_into (h : Host) (path : PathBuf) : Config :=
  match read_text h path with
  | Ok content => match parse_jsonc lib content with Ok c => c | Err _ => default_Config end
  | Err _ => default_Config
  end.

Lemma existing_config_ok h path c : existing_config lib h path = Ok c → c = merged_into h path.
Proof.
  unfold existing_config, merged_into. destruct (exists_at h path) eqn:He.
  - destruct (read_text h path); [|done]. by intros [= <-].
  - intros [= <-]. unfold read_text, read_to_string. unfold exists_at, path_exists in He.
    by destruct (metadata (host_fs h) (components path)).
Qed.
End props.

(** What serde does to [c]: its text is UTF-8 and parses to [c] again. *)
Definition reads_back (lib : Libraries) (to_string_pretty : Config → option string) (c : Config) : Prop :=
  ∀ json, to_string_pretty c = Some json → valid_utf8 json = true ∧ parse_jsonc lib json = Ok c.

(** ** Properties *)

(** Updating the project's configuration file merges the patch into what was in the file: read
    back, the file is that configuration with the patch on top, and nothing that was there has disappeared
    from the file system.  But what counts as in the file is the empty configuration
    when the text that is there cannot be parsed: the patch then replaces the file. *)
Lemma updated_file_reads_back lib to_string_pretty h project_dir patch fs :
  fs_wf (host_fs h) →
  reads_back lib to_string_pretty
    (Config_merge (merged_into lib h (project_config_write_path h project_dir)) patch) →
  update_config lib to_string_pretty h project_dir patch = (Ok tt, fs) →
  merged_into lib (set_fs h fs) (project_config_write_path h project_dir) =
    Config_merge (merged_into lib h (project_config_write_path h project_dir)) patch ∧
  grows (host_fs h) fs ∧
  (∀ content e,
    read_text h (project_config_write_path h project_dir) = Ok content → parse_jsonc lib content = Err e →
    merged_into lib (set_fs h fs) (project_config_write_path h project_dir) =
      Config_merge default_Config patch).
Proof.
  intros Hwf Hback. unfold update_config. set (path := project_config_write_path h project_dir) in *.
  destruct (existing_config lib h path) as [existing|] eqn:He; [|done].
  apply existing_config_ok in He as ->. intros Hu.
  apply write_config_file_reads in Hu as (json & Hj & Hr & _ & Hg); [|done|intros; by apply Hback].
  assert (merged_into lib (set_fs h fs) path = Config_merge (merged_into lib h path) patch) as Heq.
  { unfold merged_into at 1. rewrite Hr. by apply Hback in Hj as [_ ->]. }
  split_and!; [done|done|]. intros content e Hc Hp. rewrite Heq. unfold merged_into. by rewrite Hc, Hp.
Qed.

Definition demo_merged : Config := Config_merge (demo_theme "local") (demo_theme "blue").

(** The text [both] is the merged configuration, any other a theme. *)
Definition demo_store_libraries : Libraries :=
  {| captures_iter _ _ := []; parse_to_serde_value text := Some (Some (JString text));
     oauth_decoded _ := None; server_decoded _ _ := None;
     config_decoded _ v :=
       match v with
       | JString "both" => Some demo_merged
       | JString theme => Some (demo_theme theme)
       | _ => None
       end;
     command_from_yaml _ := None; agent_from_yaml _ := None; permission_from_json _ := None |}.

Abbreviation demo_updated :=
  (update_config demo_store_libraries (fun _ => Some "both") demo_host "/plain" (demo_theme "blue")).

Lemma pair_of_fst {A B} (p : A * B) a : fst p = a → p = (a, snd p).
Proof. destruct p. by intros <-. Qed.

Lemma demo_update : update_config demo_store_libraries (fun _ => Some "both") demo_host "/plain"
  (demo_theme "blue") = (Ok tt, snd demo_updated).
Proof. apply (pair_of_fst demo_updated). by vm_compute. Qed.

Lemma demo_before :
  merged_into demo_store_libraries demo_host (project_config_write_path demo_host "/plain") = demo_theme "local".
Proof. by vm_compute. Qed.

Lemma demo_reads_back : reads_back demo_store_libraries (fun _ => Some "both")
  (Config_merge (merged_into demo_store_libraries demo_host (project_config_write_path demo_host "/plain"))
    (demo_theme "blue")).
Proof. rewrite demo_before. intros json [= <-]. done. Qed.

(** The file a write made is in a directory. *)
Lemma written_parent fs p name :
  fs_wf fs → p ≠ [] → path_exists fs (p ++ [Comp.Normal name]) = true → is_dir fs p = true.
Proof.
  intros Hwf Hp He. apply path_exists_true in He as (k & (_ & n & Hn & Hl)%lookup_path_Ok); [|done].
  apply leads_split in Hl as (m & n1 & n2 & Hl & _ & -> & Hm); [|done|apply (wf_cwd _ Hwf)|done].
  unfold is_dir. assert (metadata fs p = Ok Node_.Dir) as ->; [|done].
  apply metadata_Ok. exists m. split; [|done]. apply lookup_path_Ok. split; [done|].
  exists n1. split; [lia|done].
Qed.

Lemma read_text_exists h path content : read_text h path = Ok content → exists_at h path = true.
Proof.
  unfold read_text, read_to_string, exists_at, path_exists.
  by destruct (metadata (host_fs h) (components path)).
Qed.

(** When a project has no configuration file, the first patch makes one inside of [.agendao],
    and from then on the workspace is an isolated one: what it loads is no longer what it
    loaded before ([configuration_sources]). *)
Lemma first_patch_isolates lib to_string_pretty h dir patch fs :
  fs_wf (host_fs h) → dir ≠ "" → (∀ c json, to_string_pretty c = Some json → valid_utf8 json = true) →
  Forall (fun name => exists_at h (join_text dir name) = false)
    ["agendao.json"; "agendao.jsonc"; ".agendao/agendao.json"; ".agendao/agendao.jsonc"] →
  update_config lib to_string_pretty h dir patch = (Ok tt, fs) →
  is_dir_at (set_fs h fs) dir = true →
  normalize_existing_path (set_fs h fs) dir = dir →
  inputs_mode (resolve_inputs (set_fs h fs) dir) = Isolated.
Proof.
  intros Hwf Hne Hutf Hnone Hu Hdir Hnorm.
  assert (project_config_write_path h dir = join_text dir ".agendao/agendao.json") as Hpath.
  { unfold project_config_write_path. cbn [fmap list_fmap].
    rewrite !Forall_cons in Hnone. destruct Hnone as (H1 & H2 & H3 & H4 & _).
    by rewrite !filter_cons_False by (rewrite ?H1, ?H2, ?H3, ?H4; done). }
  unfold update_config in Hu. rewrite Hpath in Hu.
  destruct (existing_config lib h _) as [existing|]; [|done].
  apply write_config_file_reads in Hu as (json & _ & Hr & Hwf' & _); [|done|by apply Hutf].
  apply read_text_exists in Hr. unfold exists_at in Hr.
  assert (is_dir_at (set_fs h fs) (join_text dir ".agendao") = true) as Hown.
  { unfold is_dir_at. rewrite components_join_text in Hr |- * by done. apply (written_parent _ _ "agendao.json").
    - done.
    - by destruct (components dir).
    - by rewrite <- app_assoc. }
  unfold resolve_inputs. rewrite Hdir, Hnorm. cbn. by rewrite Hown.
Qed.

Definition demo_bare : Host :=
  set_fs demo_host (foldl (fun fs kn => put fs (fst kn) (snd kn)) {| fs_nodes := ∅; fs_cwd := [] |}
    [(["bare"], Node_.Dir)]).

Abbreviation demo_patched :=
  (update_config demo_store_libraries (fun _ => Some "both") demo_bare "/bare" (demo_theme "blue")).

(** ** Patches at the same time *)

Section interleaving.
Context (lib : Libraries) (to_string_pretty : Config → option string) (start : Config) (patches : list Config).

(** [c] is the configuration at the start with some of the patches merged over it, one after the other. *)
Definition layered (c : Config) : Prop :=
  ∃ applied, c = merge_layers start applied ∧ ∀ p, p ∈ applied → p ∈ patches.

Definition patch_layered (ps : PatchState) : Prop :=
  match ps with
  | Waiting p => p ∈ patches
  | Snapshot p current | ReadFile p current _ _ | Persisted p current => p ∈ patches ∧ layered current
  | Answered (Ok c) => layered c
  | Answered (Err _) => True
  end.

Definition world_layered (w : StoreWorld) : Prop :=
  layered (base (world_store w)) ∧ Forall patch_layered (world_patches w).

Lemma layered_merge c p : layered c → p ∈ patches → layered (Config_merge c p).
Proof.
  intros (applied & -> & Hin) Hp. exists (applied ++ [p]). split.
  - unfold merge_layers. by rewrite foldl_app.
  - intros q [Hq|Hq%list_elem_of_singleton]%elem_of_app; [by apply Hin|by subst].
Qed.

Lemma step_layered w w' :
  world_layered w → patch_step lib to_string_pretty w w' → world_layered w'.
Proof.
  intros [Hb Hps] Hstep.
  destruct Hstep as [s h ps i p Hi|s h ps i p current Hi _|s h ps i p current dir Hi _ path
                    |s h ps i p current path existing r fs Hi _|s h ps i p current Hi updated];
    cbn in *; pose proof (Forall_lookup_1 _ _ _ _ Hps Hi) as Hp; cbn in Hp; split; cbn; try done.
  - apply Forall_insert; [done|]. by split.
  - by apply Forall_insert.
  - apply Forall_insert; [done|]. by destruct (existing_config _ _ _).
  - apply Forall_insert; [done|]. by destruct r.
  - destruct Hp. by apply layered_merge.
  - apply Forall_insert; [done|]. destruct Hp. by apply layered_merge.
Qed.
End interleaving.

Definition patches_start (s : ConfigStore) (h : Host) (patches : list Config) : StoreWorld :=
  {| world_store := s; world_host := h; world_patches := Waiting <$> patches |}.

Section runs.
Context (lib : Libraries) (to_string_pretty : Config → option string).

(** What an update reads and writes. *)
Lemma update_config_inv h dir p fs :
  update_config lib to_string_pretty h dir p = (Ok tt, fs) →
  let path := project_config_write_path h dir in
  ∃ existing, existing_config lib h path = Ok existing ∧
    write_config_file to_string_pretty h path (Config_merge existing p) = (Ok tt, fs).
Proof. unfold update_config. destruct (existing_config _ _ _); [|done]. cbv zeta. eauto. Qed.

(** One patch of the list goes from its snapshot to the file. *)
Lemma reads_file s h ps i p current dir existing :
  ps !! i = Some (Snapshot p current) → project_dir s = Some dir →
  existing_config lib h (project_config_write_path h dir) = Ok existing →
  patch_step lib to_string_pretty {| world_store := s; world_host := h; world_patches := ps |}
    {| world_store := s; world_host := h;
       world_patches := <[i := ReadFile p current (project_config_write_path h dir) existing]> ps |}.
Proof.
  intros Hi Hd He. pose proof (step_read lib to_string_pretty s h ps i p current dir Hi Hd) as H.
  cbv zeta in H. by rewrite He in H.
Qed.

Lemma writes_file s h ps i p current path existing fs :
  ps !! i = Some (ReadFile p current path existing) →
  write_config_file to_string_pretty h path (Config_merge existing p) = (Ok tt, fs) →
  patch_step lib to_string_pretty {| world_store := s; world_host := h; world_patches := ps |}
    {| world_store := s; world_host := set_fs h fs; world_patches := <[i := Persisted p current]> ps |}.
Proof. intros Hi Hw. exact (step_write lib to_string_pretty s h ps i p current path existing (Ok tt) fs Hi Hw). Qed.

(** A patch that runs alone is [patch]. *)
Lemma patch_alone s h value p updated s' fs :
  config_from_value lib value = Some p →
  patch lib to_string_pretty s h value = (Ok updated, s', fs) →
  interleaved lib to_string_pretty (patches_start s h [p])
    {| world_store := s'; world_host := set_fs h fs; world_patches := [Answered (Ok updated)] |}.
Proof.
  intros Hp. unfold patch. rewrite Hp.
  destruct (persist s h _) as [[[]|] fs'] eqn:Hw; [|done]. intros [= <- <- <-].
  eapply rtc_l; [by apply (step_snapshot lib to_string_pretty s h [Waiting p] 0 p)|].
  unfold interleaved. transitivity ({| world_store := s; world_host := set_fs h fs';
                              world_patches := [Persisted p (base s)] |}).
  - unfold persist in Hw. destruct (project_dir s) as [dir|] eqn:Hd.
    + apply update_config_inv in Hw as (existing & He & Hw).
      eapply rtc_l; [by eapply (reads_file s h [Snapshot p (base s)] 0)|].
      apply rtc_once. by eapply (writes_file s h [ReadFile p (base s) _ existing] 0).
    + injection Hw as <-. destruct h. apply rtc_once.
      by apply (step_memory_only lib to_string_pretty s _ [Snapshot p (base s)] 0 p (base s)).
  - apply rtc_once. by apply (step_commit lib to_string_pretty s (set_fs h fs') [Persisted p (base s)] 0 p (base s)).
Qed.

(** Both patches have taken their snapshots and are in the file: the one stored last is in memory. *)
Lemma both_commit s h p q fs :
  interleaved lib to_string_pretty
    {| world_store := s; world_host := set_fs h fs;
       world_patches := [Persisted p (base s); Persisted q (base s)] |}
    {| world_store := commit_base (commit_base s (Config_merge (base s) p)) (Config_merge (base s) q);
       world_host := set_fs h fs;
       world_patches := [Answered (Ok (Config_merge (base s) p)); Answered (Ok (Config_merge (base s) q))] |}.
Proof.
  eapply rtc_l; [by apply (step_commit lib to_string_pretty s (set_fs h fs)
    [Persisted p (base s); Persisted q (base s)] 0 p (base s))|].
  eapply rtc_l; [by apply (step_commit lib to_string_pretty (commit_base s (Config_merge (base s) p))
    (set_fs h fs) [Answered (Ok (Config_merge (base s) p)); Persisted q (base s)] 1 q (base s))|].
  apply rtc_refl.
Qed.

(** The snapshots of both. *)
Lemma both_snapshots s h p q :
  interleaved lib to_string_pretty (patches_start s h [p; q])
    {| world_store := s; world_host := h; world_patches := [Snapshot p (base s); Snapshot q (base s)] |}.
Proof.
  eapply rtc_l; [by apply (step_snapshot lib to_string_pretty s h [Waiting p; Waiting q] 0 p)|].
  apply rtc_once. by apply (step_snapshot lib to_string_pretty s h [Snapshot p (base s); Waiting q] 1 q).
Qed.

(** The file after a write of [c] that reads back. *)
Lemma written_is_merged h path c fs :
  fs_wf (host_fs h) → reads_back lib to_string_pretty c →
  write_config_file to_string_pretty h path c = (Ok tt, fs) →
  merged_into lib (set_fs h fs) path = c ∧ fs_wf fs.
Proof.
  intros Hwf Hback Hw. apply write_config_file_reads in Hw as (json & Hj & Hr & Hwf' & _);
    [|done|intros; by apply Hback].
  split; [|done]. unfold merged_into. rewrite Hr. by apply Hback in Hj as [_ ->].
Qed.
End runs.

(** C24. However the steps of several patches interleave (each takes its snapshot, reads the project's file,
    writes it and stores its result, and nothing is held in between), the configuration in memory, and
    every answer that a patch is given, is the first configuration with some of the patches merged
    over it one after the other, never a mixture of parts of them.  But it need not be all of them,
    although every patch is answered with success: of two patches that take their snapshots before
    either is stored, (1) if the second reads the file after the first has written it, both are in
    the file and only the second is in memory; (2) if both read the file before either writes it, the
    first is lost in the file as well.  What is in the file is what its text parses to; for this the
    texts that serde writes for the results have to read back. *)
Theorem interleaved_patches lib to_string_pretty s h patches :
  (∀ w, interleaved lib to_string_pretty (patches_start s h patches) w →
    layered (base s) patches (base (world_store w)) ∧
    ∀ c, Answered (Ok c) ∈ world_patches w → layered (base s) patches c) ∧
  (∀ p q dir fs fs', patches = [p; q] → project_dir s = Some dir → fs_wf (host_fs h) →
    let path := project_config_write_path h dir in
    let before := merged_into lib h path in
    let answers := [Answered (Ok (Config_merge (base s) p)); Answered (Ok (Config_merge (base s) q))] in
    (update_config lib to_string_pretty h dir p = (Ok tt, fs) →
     project_config_write_path (set_fs h fs) dir = path →
     update_config lib to_string_pretty (set_fs h fs) dir q = (Ok tt, fs') →
     reads_back lib to_string_pretty (Config_merge before p) →
     reads_back lib to_string_pretty (Config_merge (Config_merge before p) q) →
     ∃ w, interleaved lib to_string_pretty (patches_start s h patches) w ∧ world_patches w = answers ∧
       merged_into lib (world_host w) path = Config_merge (Config_merge before p) q ∧
       base (world_store w) = Config_merge (base s) q) ∧
    (existing_config lib h path = Ok before →
     write_config_file to_string_pretty h path (Config_merge before p) = (Ok tt, fs) →
     write_config_file to_string_pretty (set_fs h fs) path (Config_merge before q) = (Ok tt, fs') →
     reads_back lib to_string_pretty (Config_merge before p) →
     reads_back lib to_string_pretty (Config_merge before q) →
     ∃ w, interleaved lib to_string_pretty (patches_start s h patches) w ∧ world_patches w = answers ∧
       merged_into lib (world_host w) path = Config_merge before q ∧
       base (world_store w) = Config_merge (base s) q)).
Proof.
  split.
  - intros w Hrun. apply (rtc_invariant _ (world_layered (base s) patches)) in Hrun.
    + destruct Hrun as [Hb Hps]. split; [done|]. intros c Hc. rewrite Forall_forall in Hps.
      by apply (Hps _ Hc).
    + intros w1 w2 H1 H2. by eapply step_layered.
    + split; [exists []; split; [done|]; by intros p ?%not_elem_of_nil|].
      apply Forall_fmap, Forall_forall. done.
  - intros p q dir fs fs' -> Hd Hwf path before answers. split.
    + intros Hp Hpath Hq Hbp Hbq.
      apply update_config_inv in Hp as (ex & Hex & Hwp). assert (ex = before) as -> by by apply existing_config_ok.
      apply update_config_inv in Hq as (ex & Hex' & Hwq). rewrite Hpath in Hex', Hwq.
      destruct (written_is_merged _ _ _ _ _ _ Hwf Hbp Hwp) as [Hm Hwf1].
      assert (ex = Config_merge before p) as -> by (rewrite <- Hm; by apply existing_config_ok).
      destruct (written_is_merged _ _ (set_fs h fs) _ _ _ Hwf1 Hbq Hwq) as [Hm2 _].
      exists {| world_store := commit_base (commit_base s (Config_merge (base s) p)) (Config_merge (base s) q);
                world_host := set_fs (set_fs h fs) fs'; world_patches := answers |}.
      split; [|split; [reflexivity|split; [exact Hm2|reflexivity]]].
      unfold interleaved. etrans; [apply both_snapshots|].
      eapply rtc_l; [by eapply (reads_file lib to_string_pretty s h [Snapshot p (base s); Snapshot q (base s)] 0)|].
      eapply rtc_l; [by eapply (writes_file lib to_string_pretty s h [ReadFile p (base s) path before; _] 0)|].
      eapply rtc_l.
      { eapply (reads_file lib to_string_pretty s (set_fs h fs) [Persisted p (base s); Snapshot q (base s)] 1);
          [done|done|]. rewrite Hpath. exact Hex'. }
      rewrite Hpath.
      eapply rtc_l; [by eapply (writes_file lib to_string_pretty s (set_fs h fs)
        [Persisted p (base s); ReadFile q (base s) path (Config_merge before p)] 1)|].
      apply both_commit.
    + intros Hex Hwp Hwq Hbp Hbq.
      destruct (written_is_merged _ _ _ _ _ _ Hwf Hbp Hwp) as [_ Hwf1].
      destruct (written_is_merged _ _ (set_fs h fs) _ _ _ Hwf1 Hbq Hwq) as [Hm2 _].
      exists {| world_store := commit_base (commit_base s (Config_merge (base s) p)) (Config_merge (base s) q);
                world_host := set_fs (set_fs h fs) fs'; world_patches := answers |}.
      split; [|split; [reflexivity|split; [exact Hm2|reflexivity]]].
      unfold interleaved. etrans; [apply both_snapshots|].
      eapply rtc_l; [by eapply (reads_file lib to_string_pretty s h [Snapshot p (base s); Snapshot q (base s)] 0)|].
      eapply rtc_l; [by eapply (reads_file lib to_string_pretty s h [ReadFile p (base s) path before; Snapshot q (base s)] 1)|].
      eapply rtc_l; [by eapply (writes_file lib to_string_pretty s h
        [ReadFile p (base s) path before; ReadFile q (base s) path before] 0)|].
      eapply rtc_l; [by eapply (writes_file lib to_string_pretty s (set_fs h fs)
        [Persisted p (base s); ReadFile q (base s) path before] 1)|].
      apply both_commit.
Qed.

(** A store for the project [/plain], whose file holds the theme [local]; a text is the list of the
    themes that were merged. *)
Definition demo_lossy_libraries : Libraries :=
  {| captures_iter _ _ := []; parse_to_serde_value text := Some (Some (JString text));
     oauth_decoded _ := None; server_decoded _ _ := None;
     config_decoded _ v :=
       match v with
       | JString text =>
           Some (if bool_decide (text = "local,light") then Config_merge (demo_theme "local") (demo_theme "light")
                 else if bool_decide (text = "local,blue") then Config_merge (demo_theme "local") (demo_theme "blue")
                 else demo_theme text)
       | _ => None
       end;
     command_from_yaml _ := None; agent_from_yaml _ := None; permission_from_json _ := None |}.
Definition demo_text (c : Config) : option string := Some (str_join "," (cfg_instructions c)).
Definition demo_store : ConfigStore :=
  {| base := demo_theme "local"; plugin_applied := None; project_dir := Some "/plain";
     workspace_identity := None; workspace_mode := Shared; revision := 0 |}.
Abbreviation demo_path := (project_config_write_path demo_host "/plain").
Abbreviation demo_write h theme :=
  (write_config_file demo_text h demo_path (Config_merge (demo_theme "local") (demo_theme theme))).

Lemma interleaved_patches_witness :
  ∃ w, interleaved demo_lossy_libraries demo_text
      (patches_start demo_store demo_host [demo_theme "light"; demo_theme "blue"]) w ∧
    merged_into demo_lossy_libraries (world_host w) demo_path =
      Config_merge (demo_theme "local") (demo_theme "blue") ∧
    base (world_store w) = Config_merge (demo_theme "local") (demo_theme "blue").
Proof.
  destruct (interleaved_patches demo_lossy_libraries demo_text demo_store demo_host
    [demo_theme "light"; demo_theme "blue"]) as [_ H].
  assert (merged_into demo_lossy_libraries demo_host demo_path = demo_theme "local") as Hb by by vm_compute.
  destruct (H (demo_theme "light") (demo_theme "blue") "/plain" (snd (demo_write demo_host "light"))
    (snd (demo_write (set_fs demo_host (snd (demo_write demo_host "light"))) "blue")) eq_refl eq_refl)
    as [_ H2]; [apply demo_host_ok|]. rewrite Hb in H2.
  destruct H2 as (w & Hw & _ & Hm & Hs).
  - by vm_compute.
  - apply pair_of_fst. by vm_compute.
  - apply pair_of_fst. by vm_compute.
  - intros json [= <-]. split; by vm_compute.
  - intros json [= <-]. split; by vm_compute.
  - exists w. split; [exact Hw|]. split; [exact Hm|exact Hs].
Defined.

(** A patch is applied whole or not at all: refused, it leaves the store as it was; accepted, every
    setting that the patch sets has the patch's value and every other one the value it had, the
    plugins' version is dropped and the revision counted up.  A patch cannot take a value away. *)
Lemma patch_sets_what_it_names lib to_string_pretty s h value r s' fs depth k m v x :
  patch lib to_string_pretty s h value = (r, s', fs) →
  match r with
  | Err _ => s' = s
  | Ok updated =>
      base s' = updated ∧ plugin_applied s' = None ∧ revision s' = u64_add (revision s) 1 ∧
      ∃ p, config_from_value lib value = Some p ∧
        Forall (fun st : setting Config =>
          get st updated = merge_option_replace (get st (base s)) (get st p)) (Config_settings depth k m v x)
  end.
Proof.
  unfold patch. destruct (config_from_value lib value) as [p|]; [|by intros [= <- <- _]].
  destruct (persist s h _) as [[[]|e] fs']; [|by intros [= <- <- _]]. intros [= <- <- _].
  split_and!; [done..|]. exists p. split; [done|].
  eapply Forall_impl; [apply Config_settings_overlay|]. intros st Hst. apply Hst.
Qed.

