(* ===== verification/SessionTypes.v ===== *)
(** * Messages and sessions

    The records of [agendao-types] that sessions are made of ([message.rs] and
    [session.rs]), and what their operations take from outside: the clock, fresh
    identifiers and the order of hash maps.  A point in time is its number of
    nanoseconds since 1970. *)

From Stdlib Require Import SpecFloat Lia.
From S2P Require Import Prelude Json.
From stdpp Require Import options.

(** ** Readings of the clock and fresh identifiers *)

(** [utc_now n] is the [n]-th reading of [Utc::now()], [new_v4 n] the digits of the [n]-th random
    identifier.  Times can be printed and read back, and the order in which a hash map is walked is
    some order of its entries. *)
Class SessionEnv := {
  utc_now : nat → Z;
  new_v4 : nat → string;
  to_rfc3339 : Z → string;
  parse_from_rfc3339 : string → option Z;
  from_timestamp_millis : Z → option Z;
  hash_entries {V} : gmap string V → list (string * V);
  parse_to_rfc3339 n : parse_from_rfc3339 (to_rfc3339 (utc_now n)) = Some (utc_now n);
  hash_entries_perm {V} (m : gmap string V) : hash_entries m ≡ₚ map_to_list m
}.

(** [map.values()] *)
Definition hash_values `{SessionEnv} {V} (m : gmap string V) : list V := (hash_entries m).*2.

(** An environment: a millisecond passes between two readings of the clock, times are printed as numbers, and hash
    maps are walked in the order of their representation. *)
#[local, refine] Instance plain_env : SessionEnv := {
  utc_now n := (Z.of_nat n * 1000000)%Z;
  new_v4 n := let digits := dec_string (N.of_nat n) in
              str_concat (repeat "0" (32 - String.length digits)) +:+ digits;
  to_rfc3339 t := dec_string (Z.to_N t);
  parse_from_rfc3339 s := Z.of_N <$> parse_digits_text s;
  from_timestamp_millis m := Some (m * 1000000)%Z;
  hash_entries _ m := map_to_list m
}.
Proof.
  - intros n. rewrite parse_dec_string. simpl. f_equal. lia.
  - done.
Defined.

(** How many readings and identifiers were taken so far. *)
Record Supply := { clock_reads : nat; uuids_drawn : nat }.

Definition Fresh (A : Type) : Type := Supply → A * Supply.
Definition fresh_ret {A} (a : A) : Fresh A := λ w, (a, w).
Definition fresh_bind {A B} (m : Fresh A) (k : A → Fresh B) : Fresh B := λ w, let '(a, w) := m w in k a w.
Definition fresh_map {A B} (f : A → B) (m : Fresh A) : Fresh B := λ w, let '(a, w) := m w in (f a, w).

Declare Scope fresh_scope.
Delimit Scope fresh_scope with fresh.
Notation "'fresh!' x := m 'in' k" := (fresh_bind m (fun x => k))
  (at level 10, x binder, m at level 100, k at level 200) : fresh_scope.
Open Scope fresh_scope.

(** [Utc::now()], and [Uuid::new_v4()] in its two spellings. *)
Definition now `{SessionEnv} : Fresh Z :=
  λ w, (utc_now (clock_reads w), {| clock_reads := S (clock_reads w); uuids_drawn := uuids_drawn w |}).
Definition uuid_simple `{SessionEnv} : Fresh string :=
  λ w, (new_v4 (uuids_drawn w), {| clock_reads := clock_reads w; uuids_drawn := S (uuids_drawn w) |}).
Definition hyphenated (digits : string) : string :=
  str_join "-" [str_take 8 digits; str_take 4 (str_drop 8 digits); str_take 4 (str_drop 12 digits);
                str_take 4 (str_drop 16 digits); str_drop 20 digits].
Definition uuid `{SessionEnv} : Fresh string := fresh_map hyphenated uuid_simple.

(** [t.timestamp_millis()] *)
Definition timestamp_millis (t : Z) : Z := (t / 1000000)%Z.

(** [a + b] on [u64] in a build without overflow checks *)
Definition u64_plus (a b : N) : N := ((a + b) mod 2 ^ 64)%N.
Definition u64_saturating_plus (a b : N) : N := N.min (2 ^ 64 - 1) (a + b)%N.
Definition f64_plus (a b : spec_float) : spec_float := SFadd 53 1024 a b.
Definition f64_zero : spec_float := S754_zero false.

Abbreviation Metadata := (gmap string Value).

(** ** [message.rs] *)

Inductive MessageRole := User | Assistant | System | Tool.
#[export] Instance MessageRole_eq_dec : EqDecision MessageRole.
Proof. solve_decision. Defined.

Record FileSourceText := { fst_value : string; fst_start : Z; fst_end : Z }.
Record LspPosition := { lp_line : Z; lp_character : Z }.
Record LspRange := { lr_start : LspPosition; lr_end : LspPosition }.
Inductive FilePartSource :=
| FileSource (path : string) (text : FileSourceText)
| SymbolSource (path name : string) (kind : Z) (range : LspRange) (text : FileSourceText)
| ResourceSource (client_name uri : string) (text : FileSourceText).
Record FilePart := {
  fp_id : string; fp_session_id : string; fp_message_id : string; fp_mime : string; fp_url : string;
  fp_filename : option string; fp_source : option FilePartSource
}.

Record RunningTime := { rt_start : Z }.
Record CompletedTime := { ct_start : Z; ct_end : Z; ct_compacted : option Z }.
Record ErrorTime := { et_start : Z; et_end : Z }.
Inductive ToolState :=
| PendingState (input : Value) (raw : string)
| RunningState (input : Value) (title : option string) (metadata : option Metadata) (time : RunningTime)
| CompletedState (input : Value) (output title : string) (metadata : Metadata) (time : CompletedTime)
    (attachments : option (list FilePart))
| ErrorState (input : Value) (error : string) (metadata : option Metadata) (time : ErrorTime).
Inductive ToolCallStatus := CallPending | CallRunning | CallCompleted | CallError.

Inductive PartType :=
| TextPart (text : string) (synthetic ignored : option bool)
| ToolCallPart (id name : string) (input : Value) (status : ToolCallStatus) (raw : option string)
    (state : option ToolState)
| ToolResultPart (tool_call_id content : string) (is_error : bool) (title : option string)
    (metadata : option Metadata) (attachments : option (list Value))
| ReasoningPart (text : string)
| FileOf (url filename mime : string)
| StepStart (id name : string)
| StepFinish (id : string) (output : option string)
| SnapshotPart (content : string)
| PatchPart (old_string new_string filepath : string)
| RetryPart (count : N) (reason : string)
| CompactionPart (summary : string).

Record MessagePart := {
  part_id : string; part_type : PartType; part_created_at : Z; part_message_id : option string
}.

Record MessageUsage := {
  mu_input_tokens : N; mu_output_tokens : N; mu_reasoning_tokens : N; mu_cache_write_tokens : N;
  mu_cache_read_tokens : N; mu_cache_miss_tokens : N; mu_context_tokens : N; mu_total_cost : spec_float
}.
Definition request_context_tokens (u : MessageUsage) : option N :=
  let tokens := N.max (mu_context_tokens u) (mu_input_tokens u) in
  if (0 <? tokens)%N then Some tokens else None.
Definition message_live_context_tokens (u : MessageUsage) : option N := request_context_tokens u.

Record SessionMessage := {
  msg_id : string; msg_session_id : string; role : MessageRole; parts : list MessagePart; msg_created_at : Z;
  msg_metadata : Metadata; msg_usage : option MessageUsage; finish : option string
}.

(** *** Assignments to a field of a message or a part *)

Definition with_msg_session_id (v : string) (m : SessionMessage) : SessionMessage :=
  {| msg_id := msg_id m; msg_session_id := v; role := role m; parts := parts m;
     msg_created_at := msg_created_at m; msg_metadata := msg_metadata m; msg_usage := msg_usage m;
     finish := finish m |}.
Definition with_parts (v : list MessagePart) (m : SessionMessage) : SessionMessage :=
  {| msg_id := msg_id m; msg_session_id := msg_session_id m; role := role m; parts := v;
     msg_created_at := msg_created_at m; msg_metadata := msg_metadata m; msg_usage := msg_usage m;
     finish := finish m |}.
Definition with_msg_metadata (v : Metadata) (m : SessionMessage) : SessionMessage :=
  {| msg_id := msg_id m; msg_session_id := msg_session_id m; role := role m; parts := parts m;
     msg_created_at := msg_created_at m; msg_metadata := v; msg_usage := msg_usage m; finish := finish m |}.
Definition with_part_type (v : PartType) (p : MessagePart) : MessagePart :=
  {| part_id := part_id p; part_type := v; part_created_at := part_created_at p;
     part_message_id := part_message_id p |}.

(** *** Where a message came from *)

Inductive MessageSourceOrigin := Operator | FromScheduler | ExternalTrigger | ChildHandoff | ImportedHistory | FromSystem.
Inductive MessageSourceSurface := Cli | Tui | Web | HttpApi | UnixSocket | Direct | ExternalAdapterSurface.
Inductive MessageAdmissionContext := Authenticated | Anonymous | Internal | External.
Inductive MessageAuthorityClass := UserAuthority | SystemAuthority | SchedulerAuthority | ExternalAdapterAuthority.

Definition MESSAGE_SOURCE_ORIGIN_KEY : string := "message_source.origin".
Definition MESSAGE_SOURCE_SURFACE_KEY : string := "message_source.surface".
Definition MESSAGE_ADMISSION_CONTEXT_KEY : string := "message_source.admission".
Definition MESSAGE_AUTHORITY_CLASS_KEY : string := "message_source.authority_class".

(** The names [serde] gives the variants. *)
Definition origin_name (o : MessageSourceOrigin) : string :=
  match o with
  | Operator => "operator" | FromScheduler => "scheduler" | ExternalTrigger => "external_trigger"
  | ChildHandoff => "child_handoff" | ImportedHistory => "imported_history" | FromSystem => "system"
  end.
Definition surface_name (s : MessageSourceSurface) : string :=
  match s with
  | Cli => "cli" | Tui => "tui" | Web => "web" | HttpApi => "http_api" | UnixSocket => "unix_socket"
  | Direct => "direct" | ExternalAdapterSurface => "external_adapter"
  end.
Definition admission_name (a : MessageAdmissionContext) : string :=
  match a with
  | Authenticated => "authenticated" | Anonymous => "anonymous" | Internal => "internal" | External => "external"
  end.
Definition authority_name (a : MessageAuthorityClass) : string :=
  match a with
  | UserAuthority => "user" | SystemAuthority => "system" | SchedulerAuthority => "scheduler"
  | ExternalAdapterAuthority => "external_adapter"
  end.

(** The name of the variant that a value stands for when an enumeration without data is read: a string,
    or an object with the name as its one key and nothing under it. *)
Definition unit_variant (v : Value) : option string :=
  match v with
  | JString name => Some name
  | Object members =>
      match map_to_list members with [(name, Null)] => Some name | _ => None end
  | _ => None
  end.
(** The variant of an enumeration with a name. *)
Definition variant_of {A} (name_of : A → string) (variants : list A) (v : Value) : option A :=
  name ← unit_variant v;
  find_first (λ a, bool_decide (name_of a = name)) variants.

Definition apply_message_source_metadata (origin : MessageSourceOrigin) (surface : MessageSourceSurface)
    (metadata : Metadata) : Metadata :=
  <[MESSAGE_SOURCE_SURFACE_KEY := JString (surface_name surface)]>
    (<[MESSAGE_SOURCE_ORIGIN_KEY := JString (origin_name origin)]> metadata).
Definition message_source_origin (metadata : Metadata) : option MessageSourceOrigin :=
  metadata !! MESSAGE_SOURCE_ORIGIN_KEY
    ≫= variant_of origin_name [Operator; FromScheduler; ExternalTrigger; ChildHandoff; ImportedHistory; FromSystem].
Definition message_source_surface (metadata : Metadata) : option MessageSourceSurface :=
  metadata !! MESSAGE_SOURCE_SURFACE_KEY
    ≫= variant_of surface_name [Cli; Tui; Web; HttpApi; UnixSocket; Direct; ExternalAdapterSurface].

Definition origin_to_admission_authority (origin : MessageSourceOrigin)
    : MessageAdmissionContext * MessageAuthorityClass :=
  match origin with
  | Operator => (Authenticated, UserAuthority)
  | FromScheduler => (Internal, SchedulerAuthority)
  | ExternalTrigger => (External, ExternalAdapterAuthority)
  | ChildHandoff | ImportedHistory | FromSystem => (Internal, SystemAuthority)
  end.
Definition apply_message_admission_metadata (admission : MessageAdmissionContext)
    (authority_class : MessageAuthorityClass) (metadata : Metadata) : Metadata :=
  <[MESSAGE_AUTHORITY_CLASS_KEY := JString (authority_name authority_class)]>
    (<[MESSAGE_ADMISSION_CONTEXT_KEY := JString (admission_name admission)]> metadata).
Definition message_admission_context (metadata : Metadata) : option MessageAdmissionContext :=
  metadata !! MESSAGE_ADMISSION_CONTEXT_KEY
    ≫= variant_of admission_name [Authenticated; Anonymous; Internal; External].
Definition message_authority_class (metadata : Metadata) : option MessageAuthorityClass :=
  metadata !! MESSAGE_AUTHORITY_CLASS_KEY
    ≫= variant_of authority_name [UserAuthority; SystemAuthority; SchedulerAuthority; ExternalAdapterAuthority].

(** ** [session.rs] *)

Record FileDiff := { fd_path : string; fd_additions : N; fd_deletions : N }.
Record SessionSummary := {
  sum_additions : N; sum_deletions : N; sum_files : N; sum_diffs : option (list FileDiff)
}.
Record SessionShare := { share_url : string }.
Record SessionRevert := {
  rv_message_id : string; rv_part_id : option string; rv_snapshot : option string; rv_diff : option string
}.
Inductive SessionPermissionMode := DefaultMode | TrustedWorkspace | UnsandboxedYolo.
Record PermissionRuleset := { pr_allow : list string; pr_deny : list string; pr_mode : SessionPermissionMode }.
Record SessionTime := {
  time_created : Z; time_updated : Z; time_compacting : option Z; time_archived : option Z
}.
Record SessionUsage := {
  input_tokens : N; output_tokens : N; reasoning_tokens : N; cache_write_tokens : N;
  cache_read_tokens : N; cache_miss_tokens : N; context_tokens : N; total_cost : spec_float
}.
Definition default_usage : SessionUsage :=
  {| input_tokens := 0; output_tokens := 0; reasoning_tokens := 0; cache_write_tokens := 0;
     cache_read_tokens := 0; cache_miss_tokens := 0; context_tokens := 0; total_cost := f64_zero |}.
Definition session_cumulative_tokens (u : SessionUsage) : N :=
  u64_plus (u64_plus (input_tokens u) (output_tokens u)) (reasoning_tokens u).
Definition live_context_tokens (u : SessionUsage) : option N :=
  if (0 <? context_tokens u)%N then Some (context_tokens u) else None.

Record WorkflowUsageSummary := {
  wu_input_tokens : N; wu_output_tokens : N; wu_reasoning_tokens : N; wu_cache_write_tokens : N;
  wu_cache_read_tokens : N; wu_cache_miss_tokens : N; wu_total_cost : spec_float
}.
Definition workflow_usage_summary (u : SessionUsage) : WorkflowUsageSummary :=
  {| wu_input_tokens := input_tokens u; wu_output_tokens := output_tokens u;
     wu_reasoning_tokens := reasoning_tokens u; wu_cache_write_tokens := cache_write_tokens u;
     wu_cache_read_tokens := cache_read_tokens u; wu_cache_miss_tokens := cache_miss_tokens u;
     wu_total_cost := total_cost u |}.
Definition total_tokens (w : WorkflowUsageSummary) : N :=
  u64_plus (u64_plus (wu_input_tokens w) (wu_output_tokens w)) (wu_reasoning_tokens w).
Definition accumulate_session_usage (usage : SessionUsage) (w : WorkflowUsageSummary) : WorkflowUsageSummary :=
  {| wu_input_tokens := u64_plus (wu_input_tokens w) (input_tokens usage);
     wu_output_tokens := u64_plus (wu_output_tokens w) (output_tokens usage);
     wu_reasoning_tokens := u64_plus (wu_reasoning_tokens w) (reasoning_tokens usage);
     wu_cache_write_tokens := u64_plus (wu_cache_write_tokens w) (cache_write_tokens usage);
     wu_cache_read_tokens := u64_plus (wu_cache_read_tokens w) (cache_read_tokens usage);
     wu_cache_miss_tokens := u64_plus (wu_cache_miss_tokens w) (cache_miss_tokens usage);
     wu_total_cost := f64_plus (wu_total_cost w) (total_cost usage) |}.
Record SessionUsageBooks := {
  books_request_context_tokens : option N; books_live_context_tokens : option N;
  workflow_cumulative : WorkflowUsageSummary
}.

Inductive SessionForkHistoryMode := NoHistory | AllHistory | LastN.
Definition history_mode_name (m : SessionForkHistoryMode) : string :=
  match m with NoHistory => "none" | AllHistory => "all" | LastN => "last_n" end.
Inductive SessionForkLifecycleScope := LocalOnly | ForkPromptSurface.
Record SessionForkLifecycleExplain := {
  usage_replay_scope : SessionForkLifecycleScope; revert_scope : SessionForkLifecycleScope;
  recovery_scope : SessionForkLifecycleScope; compaction_scope : SessionForkLifecycleScope
}.
Record SessionForkExplain := {
  fe_origin_session_id : string; fe_origin_message_id : option string; fe_history_mode : SessionForkHistoryMode;
  fe_history_message_limit : option N; fe_source_history_messages : option N; fe_imported_history_messages : nat;
  fe_policy_frozen : bool; fe_frozen_policy_keys : list string; fe_cache_stability_keys : list string;
  fe_lifecycle : SessionForkLifecycleExplain
}.

Inductive SessionStatus := Active | Completed | Archived | Compacting.
Inductive SessionContextKind := RootSessionContinuity | ExplicitFullHistoryFork.
#[export] Instance SessionContextKind_eq_dec : EqDecision SessionContextKind.
Proof. solve_decision. Defined.
Definition context_kind_name (k : SessionContextKind) : string :=
  match k with
  | RootSessionContinuity => "root_session_continuity" | ExplicitFullHistoryFork => "explicit_full_history_fork"
  end.
Inductive SessionHandoffMode := SelfContinuity | FullHistoryFork.
Inductive SessionProviderModelRole := RequestShapeOnly.
Inductive SessionWorkflowUsageRole := ObservationOnly.
Record SessionOwnershipSummary := {
  os_context_kind : SessionContextKind; os_handoff_mode : SessionHandoffMode; os_owns_prompt_continuity : bool;
  os_compact_owner : bool; os_provider_model_role : SessionProviderModelRole;
  os_workflow_usage_role : SessionWorkflowUsageRole
}.
Definition owns_prompt_continuity (k : SessionContextKind) : bool := true.
Definition handoff_mode (k : SessionContextKind) : SessionHandoffMode :=
  match k with RootSessionContinuity => SelfContinuity | ExplicitFullHistoryFork => FullHistoryFork end.
Definition context_kind_label (k : SessionContextKind) : string :=
  match k with RootSessionContinuity => "root continuity" | ExplicitFullHistoryFork => "full-history fork" end.
Definition ownership_summary_of (k : SessionContextKind) : SessionOwnershipSummary :=
  {| os_context_kind := k; os_handoff_mode := handoff_mode k; os_owns_prompt_continuity := owns_prompt_continuity k;
     os_compact_owner := owns_prompt_continuity k; os_provider_model_role := RequestShapeOnly;
     os_workflow_usage_role := ObservationOnly |}.

Record Session := {
  ses_id : string; slug : string; project_id : string; directory : string; parent_id : option string;
  title : string; version : string; time : SessionTime; messages : list SessionMessage;
  summary : option SessionSummary; share : option SessionShare; revert_info : option SessionRevert;
  permission : option PermissionRuleset; usage : option SessionUsage; status : SessionStatus;
  metadata : Metadata; created_at : Z; updated_at : Z
}.

(** *** Assignments to a field of a session *)

Definition with_directory (v : string) (s : Session) : Session :=
  {| ses_id := ses_id s; slug := slug s; project_id := project_id s; directory := v; parent_id := parent_id s;
     title := title s; version := version s; time := time s; messages := messages s; summary := summary s;
     share := share s; revert_info := revert_info s; permission := permission s; usage := usage s;
     status := status s; metadata := metadata s; created_at := created_at s; updated_at := updated_at s |}.
Definition with_parent_id (v : option string) (s : Session) : Session :=
  {| ses_id := ses_id s; slug := slug s; project_id := project_id s; directory := directory s; parent_id := v;
     title := title s; version := version s; time := time s; messages := messages s; summary := summary s;
     share := share s; revert_info := revert_info s; permission := permission s; usage := usage s;
     status := status s; metadata := metadata s; created_at := created_at s; updated_at := updated_at s |}.
Definition with_title (v : string) (s : Session) : Session :=
  {| ses_id := ses_id s; slug := slug s; project_id := project_id s; directory := directory s;
     parent_id := parent_id s; title := v; version := version s; time := time s; messages := messages s;
     summary := summary s; share := share s; revert_info := revert_info s; permission := permission s;
     usage := usage s; status := status s; metadata := metadata s; created_at := created_at s;
     updated_at := updated_at s |}.
Definition with_time (v : SessionTime) (s : Session) : Session :=
  {| ses_id := ses_id s; slug := slug s; project_id := project_id s; directory := directory s;
     parent_id := parent_id s; title := title s; version := version s; time := v; messages := messages s;
     summary := summary s; share := share s; revert_info := revert_info s; permission := permission s;
     usage := usage s; status := status s; metadata := metadata s; created_at := created_at s;
     updated_at := updated_at s |}.
Definition with_messages (v : list SessionMessage) (s : Session) : Session :=
  {| ses_id := ses_id s; slug := slug s; project_id := project_id s; directory := directory s;
     parent_id := parent_id s; title := title s; version := version s; time := time s; messages := v;
     summary := summary s; share := share s; revert_info := revert_info s; permission := permission s;
     usage := usage s; status := status s; metadata := metadata s; created_at := created_at s;
     updated_at := updated_at s |}.
Definition with_summary (v : option SessionSummary) (s : Session) : Session :=
  {| ses_id := ses_id s; slug := slug s; project_id := project_id s; directory := directory s;
     parent_id := parent_id s; title := title s; version := version s; time := time s; messages := messages s;
     summary := v; share := share s; revert_info := revert_info s; permission := permission s;
     usage := usage s; status := status s; metadata := metadata s; created_at := created_at s;
     updated_at := updated_at s |}.
Definition with_share (v : option SessionShare) (s : Session) : Session :=
  {| ses_id := ses_id s; slug := slug s; project_id := project_id s; directory := directory s;
     parent_id := parent_id s; title := title s; version := version s; time := time s; messages := messages s;
     summary := summary s; share := v; revert_info := revert_info s; permission := permission s;
     usage := usage s; status := status s; metadata := metadata s; created_at := created_at s;
     updated_at := updated_at s |}.
Definition with_revert (v : option SessionRevert) (s : Session) : Session :=
  {| ses_id := ses_id s; slug := slug s; project_id := project_id s; directory := directory s;
     parent_id := parent_id s; title := title s; version := version s; time := time s; messages := messages s;
     summary := summary s; share := share s; revert_info := v; permission := permission s; usage := usage s;
     status := status s; metadata := metadata s; created_at := created_at s; updated_at := updated_at s |}.
Definition with_permission (v : option PermissionRuleset) (s : Session) : Session :=
  {| ses_id := ses_id s; slug := slug s; project_id := project_id s; directory := directory s;
     parent_id := parent_id s; title := title s; version := version s; time := time s; messages := messages s;
     summary := summary s; share := share s; revert_info := revert_info s; permission := v; usage := usage s;
     status := status s; metadata := metadata s; created_at := created_at s; updated_at := updated_at s |}.
Definition with_usage (v : option SessionUsage) (s : Session) : Session :=
  {| ses_id := ses_id s; slug := slug s; project_id := project_id s; directory := directory s;
     parent_id := parent_id s; title := title s; version := version s; time := time s; messages := messages s;
     summary := summary s; share := share s; revert_info := revert_info s; permission := permission s;
     usage := v; status := status s; metadata := metadata s; created_at := created_at s;
     updated_at := updated_at s |}.
Definition with_status (v : SessionStatus) (s : Session) : Session :=
  {| ses_id := ses_id s; slug := slug s; project_id := project_id s; directory := directory s;
     parent_id := parent_id s; title := title s; version := version s; time := time s; messages := messages s;
     summary := summary s; share := share s; revert_info := revert_info s; permission := permission s;
     usage := usage s; status := v; metadata := metadata s; created_at := created_at s;
     updated_at := updated_at s |}.
Definition with_metadata (v : Metadata) (s : Session) : Session :=
  {| ses_id := ses_id s; slug := slug s; project_id := project_id s; directory := directory s;
     parent_id := parent_id s; title := title s; version := version s; time := time s; messages := messages s;
     summary := summary s; share := share s; revert_info := revert_info s; permission := permission s;
     usage := usage s; status := status s; metadata := v; created_at := created_at s;
     updated_at := updated_at s |}.
Definition with_updated_at (v : Z) (s : Session) : Session :=
  {| ses_id := ses_id s; slug := slug s; project_id := project_id s; directory := directory s;
     parent_id := parent_id s; title := title s; version := version s; time := time s; messages := messages s;
     summary := summary s; share := share s; revert_info := revert_info s; permission := permission s;
     usage := usage s; status := status s; metadata := metadata s; created_at := created_at s;
     updated_at := v |}.
Definition with_time_updated (v : Z) (t : SessionTime) : SessionTime :=
  {| time_created := time_created t; time_updated := v; time_compacting := time_compacting t;
     time_archived := time_archived t |}.
Definition with_time_compacting (v : option Z) (t : SessionTime) : SessionTime :=
  {| time_created := time_created t; time_updated := time_updated t; time_compacting := v;
     time_archived := time_archived t |}.
Definition with_time_archived (v : option Z) (t : SessionTime) : SessionTime :=
  {| time_created := time_created t; time_updated := time_updated t; time_compacting := time_compacting t;
     time_archived := v |}.

(** [Session::touch] *)
Definition touch `{SessionEnv} (s : Session) : Fresh Session :=
  fresh! t := now in
  fresh_ret (with_updated_at t (with_time (with_time_updated (timestamp_millis t) (time s)) s)).
