(* ===== verification/RuntimeControl.v ===== *)
(** * The registry of running executions

    [agendao-server-core/src/runtime_control.rs]: what a server is running for each
    session (prompt runs, scheduler runs and their nodes, tool calls, questions to the
    user), how a run is cancelled, and who waits for an answer.  Every method of the registry is a task: a
    critical section per lock it takes.  A cancellation token and the sender of a
    one-shot channel are names; what has been cancelled and sent is part of the state,
    as are the clock and the UUIDs drawn so far. *)

From S2P Require Import Prelude Json Tasks.
From stdpp Require Import options.

(** What the registry leaves to its surroundings: the clock, the UUIDs, the iteration
    order of a hash map and a hash set (any order; the same for the same contents). *)
Class RuntimeEnv := {
  clock : nat → Z;
  uuid : nat → string;
  hash_entries {V} : gmap string V → list (string * V);
  hash_items : gset string → list string;
  uuid_fresh : Inj (=) (=) uuid;
  hash_entries_perm {V} (m : gmap string V) : hash_entries m ≡ₚ map_to_list m;
  hash_items_perm X : hash_items X ≡ₚ elements X
}.

(** [map.values()] *)
Definition hash_values `{RuntimeEnv} {V} (m : gmap string V) : list V := (hash_entries m).*2.
Lemma hash_values_perm `{RuntimeEnv} {V} (m : gmap string V) : hash_values m ≡ₚ (map_to_list m).*2.
Proof. unfold hash_values. by rewrite hash_entries_perm. Qed.

(** ** Data *)

Record TopologyChangeContext := {
  tc_session_id : string; tc_execution_id : string; tc_stage_id : option string
}.

Inductive ExecutionKind := PromptRun | SchedulerRun | SchedulerNode | ToolCall | Question.
Inductive ExecutionStatus := Running | Waiting | Cancelling | Retry | DoneExecution.

#[export] Instance ExecutionKind_eq_dec : EqDecision ExecutionKind.
Proof. solve_decision. Defined.
#[export] Instance ExecutionStatus_eq_dec : EqDecision ExecutionStatus.
Proof. solve_decision. Defined.

Record ExecutionRecord := {
  ex_id : string; ex_session_id : string; ex_kind : ExecutionKind; ex_status : ExecutionStatus;
  ex_label : option string; ex_parent_id : option string; ex_stage_id : option string;
  ex_waiting_on : option string; ex_recent_event : option string; ex_started_at : Z;
  ex_updated_at : Z; ex_metadata : option Value
}.

(** The fields of a [SessionExecutionNode] but its children. *)
Record NodeData := {
  nd_id : string; nd_kind : ExecutionKind; nd_status : ExecutionStatus; nd_label : option string;
  nd_parent_id : option string; nd_stage_id : option string; nd_waiting_on : option string;
  nd_recent_event : option string; nd_started_at : Z; nd_updated_at : Z; nd_metadata : option Value
}.
Inductive SessionExecutionNode :=
| ExecutionNode (data : NodeData) (children : list SessionExecutionNode).

Record SessionExecutionTopology := {
  top_session_id : string; active_count : nat; done_count : nat; running_count : nat;
  waiting_count : nat; cancelling_count : nat; retry_count : nat; top_updated_at : option Z;
  roots : list SessionExecutionNode
}.

Inductive FieldUpdate (T : Type) := Keep | Set_ (value : T) | Clear.
Arguments Keep {T}.
Arguments Set_ {T} value.
Arguments Clear {T}.

Record ExecutionPatch := {
  patch_status : option ExecutionStatus; patch_label : FieldUpdate string;
  patch_waiting_on : FieldUpdate string; patch_recent_event : FieldUpdate string;
  patch_metadata : FieldUpdate Value
}.

Inductive SessionRunStatus :=
| Idle
| Busy
| Compacting
| RetryAt (attempt : N) (message : string) (next : Z)
| Blocked (reason : option string) (recheck_at : option Z)
| Sleeping (reason : option string) (wake_at : option Z).

#[export] Instance SessionRunStatus_eq_dec : EqDecision SessionRunStatus.
Proof. solve_decision. Defined.

Record QuestionOptionInfo := { opt_label : string; opt_description : option string }.
Record QuestionItemInfo := {
  item_question : string; item_header : option string; item_options : list QuestionOptionInfo;
  item_multiple : bool
}.
Record QuestionInfo := { qi_id : string; qi_session_id : string; qi_items : list QuestionItemInfo }.

(** [QuestionOption] and [QuestionDef] of [agendao-tool-core]. *)
Record QuestionOption := { qo_label : string; qo_description : option string }.
Record QuestionDef := {
  qd_question : string; qd_header : option string; qd_options : list QuestionOption; qd_multiple : bool
}.

Inductive QuestionReply := Answers (answers : list (list string)) | Rejected | Cancelled.

(** A [CancellationToken], and the sender of a one-shot channel. *)
Abbreviation Token := nat (only parsing).
Abbreviation Sender := nat (only parsing).

Record RuntimeControlRegistry := {
  executions : gmap string ExecutionRecord;
  scheduler_tokens : gmap string Token;
  execution_tokens : gmap string Token;
  question_waiters : gmap string Sender;
  (* the world: tokens cancelled, channels made, replies sent, callbacks, UUIDs, clock *)
  cancelled_tokens : gset Token;
  channels_made : nat;
  replies_sent : gmap Sender QuestionReply;
  topology_changes : list TopologyChangeContext;
  uuids_drawn : nat;
  clock_reads : nat
}.

Definition registry_new : RuntimeControlRegistry :=
  {| executions := ∅; scheduler_tokens := ∅; execution_tokens := ∅; question_waiters := ∅;
     cancelled_tokens := ∅; channels_made := 0; replies_sent := ∅; topology_changes := [];
     uuids_drawn := 0; clock_reads := 0 |}.

Implicit Types (s : RuntimeControlRegistry).

Definition set_executions m s : RuntimeControlRegistry :=
  {| executions := m; scheduler_tokens := scheduler_tokens s; execution_tokens := execution_tokens s;
     question_waiters := question_waiters s; cancelled_tokens := cancelled_tokens s;
     channels_made := channels_made s; replies_sent := replies_sent s;
     topology_changes := topology_changes s; uuids_drawn := uuids_drawn s; clock_reads := clock_reads s |}.
Definition set_scheduler_tokens m s : RuntimeControlRegistry :=
  {| executions := executions s; scheduler_tokens := m; execution_tokens := execution_tokens s;
     question_waiters := question_waiters s; cancelled_tokens := cancelled_tokens s;
     channels_made := channels_made s; replies_sent := replies_sent s;
     topology_changes := topology_changes s; uuids_drawn := uuids_drawn s; clock_reads := clock_reads s |}.
Definition set_execution_tokens m s : RuntimeControlRegistry :=
  {| executions := executions s; scheduler_tokens := scheduler_tokens s; execution_tokens := m;
     question_waiters := question_waiters s; cancelled_tokens := cancelled_tokens s;
     channels_made := channels_made s; replies_sent := replies_sent s;
     topology_changes := topology_changes s; uuids_drawn := uuids_drawn s; clock_reads := clock_reads s |}.
Definition set_question_waiters m s : RuntimeControlRegistry :=
  {| executions := executions s; scheduler_tokens := scheduler_tokens s;
     execution_tokens := execution_tokens s; question_waiters := m; cancelled_tokens := cancelled_tokens s;
     channels_made := channels_made s; replies_sent := replies_sent s;
     topology_changes := topology_changes s; uuids_drawn := uuids_drawn s; clock_reads := clock_reads s |}.
Definition cancel_token t s : RuntimeControlRegistry :=
  {| executions := executions s; scheduler_tokens := scheduler_tokens s;
     execution_tokens := execution_tokens s; question_waiters := question_waiters s;
     cancelled_tokens := {[t]} ∪ cancelled_tokens s;
     channels_made := channels_made s; replies_sent := replies_sent s;
     topology_changes := topology_changes s; uuids_drawn := uuids_drawn s; clock_reads := clock_reads s |}.
Definition make_channel s : RuntimeControlRegistry :=
  {| executions := executions s; scheduler_tokens := scheduler_tokens s;
     execution_tokens := execution_tokens s; question_waiters := question_waiters s;
     cancelled_tokens := cancelled_tokens s; channels_made := S (channels_made s);
     replies_sent := replies_sent s; topology_changes := topology_changes s;
     uuids_drawn := uuids_drawn s; clock_reads := clock_reads s |}.
Definition send_reply waiter reply s : RuntimeControlRegistry :=
  {| executions := executions s; scheduler_tokens := scheduler_tokens s;
     execution_tokens := execution_tokens s; question_waiters := question_waiters s;
     cancelled_tokens := cancelled_tokens s; channels_made := channels_made s;
     replies_sent := <[waiter := reply]> (replies_sent s); topology_changes := topology_changes s;
     uuids_drawn := uuids_drawn s; clock_reads := clock_reads s |}.
Definition call_back ctx s : RuntimeControlRegistry :=
  {| executions := executions s; scheduler_tokens := scheduler_tokens s;
     execution_tokens := execution_tokens s; question_waiters := question_waiters s;
     cancelled_tokens := cancelled_tokens s; channels_made := channels_made s;
     replies_sent := replies_sent s; topology_changes := topology_changes s ++ [ctx];
     uuids_drawn := uuids_drawn s; clock_reads := clock_reads s |}.
Definition draw_uuid s : RuntimeControlRegistry :=
  {| executions := executions s; scheduler_tokens := scheduler_tokens s;
     execution_tokens := execution_tokens s; question_waiters := question_waiters s;
     cancelled_tokens := cancelled_tokens s; channels_made := channels_made s;
     replies_sent := replies_sent s; topology_changes := topology_changes s;
     uuids_drawn := S (uuids_drawn s); clock_reads := clock_reads s |}.
Definition read_clock s : RuntimeControlRegistry :=
  {| executions := executions s; scheduler_tokens := scheduler_tokens s;
     execution_tokens := execution_tokens s; question_waiters := question_waiters s;
     cancelled_tokens := cancelled_tokens s; channels_made := channels_made s;
     replies_sent := replies_sent s; topology_changes := topology_changes s;
     uuids_drawn := uuids_drawn s; clock_reads := S (clock_reads s) |}.

(** ** Questions as JSON: the derived [Serialize] and [Deserialize] *)

(** [skip_serializing_if] leaves a member out, [default] reads a missing one. *)
Definition optional_member (key : string) (o : option string) : gmap string Value :=
  match o with Some text => {[key := JString text]} | None => ∅ end.
Definition read_optional (key : string) (m : gmap string Value) : option (option string) :=
  match m !! key with
  | None | Some Null => Some None
  | Some (JString text) => Some (Some text)
  | Some _ => None
  end.
Definition read_text (key : string) (m : gmap string Value) : option string := m !! key ≫= as_str.
(** [deny_unknown_fields] *)
Definition only_members (keys : list string) (m : gmap string Value) : bool :=
  bool_decide (dom m ⊆ list_to_set keys).

Definition option_to_value (o : QuestionOptionInfo) : Value :=
  Object (<["label" := JString (opt_label o)]> (optional_member "description" (opt_description o))).
Definition option_from_value (v : Value) : option QuestionOptionInfo :=
  match v with
  | Object m =>
      if only_members ["label"; "description"] m then
        label ← read_text "label" m;
        description ← read_optional "description" m;
        Some {| opt_label := label; opt_description := description |}
      else None
  | _ => None
  end.

Definition item_to_value (i : QuestionItemInfo) : Value :=
  Object (<["question" := JString (item_question i)]>
         (<["options" := Array (option_to_value <$> item_options i)]>
         (<["multiple" := Bool (item_multiple i)]> (optional_member "header" (item_header i))))).
Definition item_from_value (v : Value) : option QuestionItemInfo :=
  match v with
  | Object m =>
      if only_members ["question"; "header"; "options"; "multiple"] m then
        question ← read_text "question" m;
        header ← read_optional "header" m;
        options ← match m !! "options" with
                  | None => Some []
                  | Some (Array vs) => mapM option_from_value vs
                  | Some _ => None
                  end;
        multiple ← match m !! "multiple" with None => Some false | Some v => as_bool v end;
        Some {| item_question := question; item_header := header; item_options := options;
                item_multiple := multiple |}
      else None
  | _ => None
  end.

Definition info_to_value (info : QuestionInfo) : Value :=
  Object (<["id" := JString (qi_id info)]>
         (<["session_id" := JString (qi_session_id info)]>
         {["items" := Array (item_to_value <$> qi_items info)]})).
Definition info_from_value (v : Value) : option QuestionInfo :=
  match v with
  | Object m =>
      if only_members ["id"; "session_id"; "items"] m then
        id ← read_text "id" m;
        session_id ← read_text "session_id" m;
        items ← match m !! "items" with Some (Array vs) => mapM item_from_value vs | _ => None end;
        Some {| qi_id := id; qi_session_id := session_id; qi_items := items |}
      else None
  | _ => None
  end.

(** ** Pure helpers *)

Definition prompt_execution_id (session_id : string) : string := "prompt:" +:+ session_id.
Definition scheduler_execution_id (session_id : string) : string := "scheduler:" +:+ session_id.
Definition scheduler_node_execution_id (session_id path : string) : string :=
  "scheduler_node:" +:+ session_id +:+ ":" +:+ path.
Definition tool_call_execution_id (tool_call_id : string) : string := "tool_call:" +:+ tool_call_id.

Definition kind_rank (kind : ExecutionKind) : N :=
  match kind with PromptRun => 0 | SchedulerRun => 1 | SchedulerNode => 2 | ToolCall => 3 | Question => 4 end.

(** [a.then_with(|| b)] *)
Definition then_with (a b : comparison) : comparison := match a with Eq => b | _ => a end.

Definition execution_sort_key (left right : ExecutionRecord) : comparison :=
  then_with (ex_started_at left ?= ex_started_at right)%Z
    (then_with (kind_rank (ex_kind left) ?= kind_rank (ex_kind right))%N
      (String.compare (ex_id left) (ex_id right))).

(** [v.sort_by(cmp)], a stable sort. *)
Fixpoint insert_by {A} (cmp : A → A → comparison) (x : A) (l : list A) : list A :=
  match l with
  | [] => [x]
  | y :: l' => match cmp x y with Gt => y :: insert_by cmp x l' | _ => x :: l end
  end.
Definition sort_by {A} (cmp : A → A → comparison) (l : list A) : list A := foldr (insert_by cmp) [] l.

(** [iter.max_by(cmp)]: the last of the greatest elements. *)
Definition max_by {A} (cmp : A → A → comparison) (l : list A) : option A :=
  foldl (fun best y =>
    match best with
    | None => Some y
    | Some x => match cmp x y with Gt => Some x | _ => Some y end
    end) None l.

Definition apply_field_update {T} (target : option T) (update : FieldUpdate T) : option T :=
  match update with Keep => target | Set_ value => Some value | Clear => None end.

Definition default_patch : ExecutionPatch :=
  {| patch_status := None; patch_label := Keep; patch_waiting_on := Keep; patch_recent_event := Keep;
     patch_metadata := Keep |}.

Definition question_record_to_info (record : ExecutionRecord) : option QuestionInfo :=
  if bool_decide (ex_kind record ≠ Question) then None
  else metadata ← ex_metadata record; info_from_value metadata.

Definition is_done (record : ExecutionRecord) : bool := bool_decide (ex_status record = DoneExecution).

Definition context_of (record : ExecutionRecord) : TopologyChangeContext :=
  {| tc_session_id := ex_session_id record; tc_execution_id := ex_id record;
     tc_stage_id := ex_stage_id record |}.

(** [ExecutionRecord { started_at, ..record }] *)
Definition with_started_at (started_at : Z) (r : ExecutionRecord) : ExecutionRecord :=
  {| ex_id := ex_id r; ex_session_id := ex_session_id r; ex_kind := ex_kind r; ex_status := ex_status r;
     ex_label := ex_label r; ex_parent_id := ex_parent_id r; ex_stage_id := ex_stage_id r;
     ex_waiting_on := ex_waiting_on r; ex_recent_event := ex_recent_event r;
     ex_started_at := started_at; ex_updated_at := ex_updated_at r; ex_metadata := ex_metadata r |}.

(** [record.status = Done; record.waiting_on = None; record.updated_at = now] *)
Definition retired (now : Z) (r : ExecutionRecord) : ExecutionRecord :=
  {| ex_id := ex_id r; ex_session_id := ex_session_id r; ex_kind := ex_kind r;
     ex_status := DoneExecution; ex_label := ex_label r; ex_parent_id := ex_parent_id r;
     ex_stage_id := ex_stage_id r; ex_waiting_on := None; ex_recent_event := ex_recent_event r;
     ex_started_at := ex_started_at r; ex_updated_at := now; ex_metadata := ex_metadata r |}.

Definition patched (now : Z) (patch : ExecutionPatch) (r : ExecutionRecord) : ExecutionRecord :=
  {| ex_id := ex_id r; ex_session_id := ex_session_id r; ex_kind := ex_kind r;
     ex_status := default (ex_status r) (patch_status patch);
     ex_label := apply_field_update (ex_label r) (patch_label patch);
     ex_parent_id := ex_parent_id r; ex_stage_id := ex_stage_id r;
     ex_waiting_on := apply_field_update (ex_waiting_on r) (patch_waiting_on patch);
     ex_recent_event := apply_field_update (ex_recent_event r) (patch_recent_event patch);
     ex_started_at := ex_started_at r; ex_updated_at := now;
     ex_metadata := apply_field_update (ex_metadata r) (patch_metadata patch) |}.

(** ** The registry's tasks *)

Section registry.
Context `{RuntimeEnv}.

Abbreviation Async := (Task RuntimeControlRegistry).

Definition now_millis : Async Z := section (fun s => (clock (clock_reads s), read_clock s)).

Definition notify_topology_changed (ctx : TopologyChangeContext) : Async unit := modify (call_back ctx).

Definition upsert_execution (record : ExecutionRecord) : Async unit :=
  let ctx := context_of record in
  await! _ := modify (fun s =>
    let next := match executions s !! ex_id record with
                | Some existing => with_started_at (ex_started_at existing) record
                | None => record
                end in
    set_executions (<[ex_id next := next]> (executions s)) s) in
  notify_topology_changed ctx.

(** [executions.get_mut(id)] and what is done to the record, with the clock read inside the lock. *)
Definition change_execution (id : string) (change : Z → ExecutionRecord → ExecutionRecord) s :
    option TopologyChangeContext * RuntimeControlRegistry :=
  match executions s !! id with
  | None => (None, s)
  | Some record =>
      (Some (context_of record),
       read_clock (set_executions (<[id := change (clock (clock_reads s)) record]> (executions s)) s))
  end.

Definition update_execution (id : string) (patch : ExecutionPatch) : Async unit :=
  await! ctx := section (change_execution id (fun now => patched now patch)) in
  match ctx with None => Done tt | Some ctx => notify_topology_changed ctx end.

Definition finish_execution (id : string) : Async unit :=
  await! ctx := section (change_execution id retired) in
  match ctx with None => Done tt | Some ctx => notify_topology_changed ctx end.

Definition cleanup_done_executions (session_id : string) : Async unit :=
  modify (fun s => set_executions
    (filter (fun kr : string * ExecutionRecord =>
       negb (bool_decide (ex_session_id kr.2 = session_id) && is_done kr.2)) (executions s)) s).

(** *** The run status of a session *)

Definition prompt_run_record (session_id : string) (status : ExecutionStatus) (waiting_on : option string)
    (recent_event : string) (started_at updated_at : Z) (metadata : option Value) : ExecutionRecord :=
  {| ex_id := prompt_execution_id session_id; ex_session_id := session_id; ex_kind := PromptRun;
     ex_status := status; ex_label := Some "Prompt run"; ex_parent_id := None; ex_stage_id := None;
     ex_waiting_on := waiting_on; ex_recent_event := Some recent_event; ex_started_at := started_at;
     ex_updated_at := updated_at; ex_metadata := metadata |}.

(** [json!({})] with the members that are there. *)
Definition wait_metadata (reason : option string) (at_key : string) (at_ : option Z) : Value :=
  let meta := Object ∅ in
  let meta := match reason with Some r => set_member "reason" (JString r) meta | None => meta end in
  match at_ with Some ts => set_member at_key (json_i64 ts) meta | None => meta end.

Definition set_session_run_status (session_id : string) (status : SessionRunStatus) : Async unit :=
  let upsert status waiting_on recent_event metadata :=
    await! started_at := now_millis in
    await! updated_at := now_millis in
    upsert_execution
      (prompt_run_record session_id status waiting_on recent_event started_at updated_at metadata) in
  match status with
  | Idle =>
      await! _ := finish_execution (prompt_execution_id session_id) in
      cleanup_done_executions session_id
  | Busy => upsert Running None "Prompt run started" None
  | Compacting => upsert Waiting (Some "compaction") "Compacting context" None
  | RetryAt attempt message next =>
      upsert Retry (Some "retry_backoff") message
        (Some (Object (<["attempt" := json_u64 attempt]>
                      (<["message" := JString message]> {["next" := json_i64 next]}))))
  | Blocked reason recheck_at =>
      upsert Waiting (Some "blocked") (default "Blocked" reason)
        (Some (wait_metadata reason "recheck_at" recheck_at))
  | Sleeping reason wake_at =>
      upsert Waiting (Some "sleeping") (default "Sleeping" reason)
        (Some (wait_metadata reason "wake_at" wake_at))
  end.

(** What a prompt record says of its session, [metadata.and_then(|v| v.get(key)).and_then(as_...)]. *)
Definition metadata_member {A} (read : Value → option A) (key : string) (r : ExecutionRecord) : option A :=
  metadata ← ex_metadata r; v ← get_member key metadata; read v.

Definition status_of_record (r : ExecutionRecord) : SessionRunStatus :=
  match ex_status r with
  | Running | Cancelling => Busy
  | Waiting =>
      if bool_decide (ex_waiting_on r = Some "compaction") then Compacting
      else if bool_decide (ex_waiting_on r = Some "blocked") then
        Blocked (metadata_member as_str "reason" r) (metadata_member as_i64 "recheck_at" r)
      else if bool_decide (ex_waiting_on r = Some "sleeping") then
        Sleeping (metadata_member as_str "reason" r) (metadata_member as_i64 "wake_at" r)
      else Busy
  | Retry =>
      RetryAt (default 1 ((fun n => n mod 2 ^ 32) <$> metadata_member as_u64 "attempt" r))%N
        (default "" (metadata_member as_str "message" r))
        (default 0%Z (metadata_member as_i64 "next" r))
  | DoneExecution => Idle
  end.

Definition collect_statuses (records : list ExecutionRecord) : gmap string SessionRunStatus :=
  foldl (fun m r => <[ex_session_id r := status_of_record r]> m) ∅
    (filter (fun r => bool_decide (ex_kind r = PromptRun) && negb (is_done r)) records).
Definition session_run_statuses : Async (gmap string SessionRunStatus) :=
  observe (fun s => collect_statuses (hash_values (executions s))).

Definition session_run_status (session_id : string) : Async SessionRunStatus :=
  await! statuses := session_run_statuses in
  Done (default Idle (statuses !! session_id)).

Definition has_prompt_run (session_id : string) : Async bool :=
  observe (fun s =>
    match executions s !! prompt_execution_id session_id with
    | Some r => negb (is_done r)
    | None => false
    end).

(** *** Scheduler runs *)

Definition register_scheduler_run (session_id : string) (token : Token) (label : option string) :
    Async unit :=
  await! _ := modify (fun s => set_scheduler_tokens (<[session_id := token]> (scheduler_tokens s)) s) in
  await! started_at := now_millis in
  await! updated_at := now_millis in
  upsert_execution
    {| ex_id := scheduler_execution_id session_id; ex_session_id := session_id; ex_kind := SchedulerRun;
       ex_status := Running; ex_label := Some (default "Scheduler run" label);
       ex_parent_id := Some (prompt_execution_id session_id); ex_stage_id := None;
       ex_waiting_on := Some "model"; ex_recent_event := Some "Scheduler orchestration started";
       ex_started_at := started_at; ex_updated_at := updated_at; ex_metadata := None |}.

Definition cancelling_patch : ExecutionPatch :=
  {| patch_status := Some Cancelling; patch_label := Keep; patch_waiting_on := Keep;
     patch_recent_event := Set_ "Cancellation requested"; patch_metadata := Keep |}.

Definition request_scheduler_cancel (session_id : string) : Async bool :=
  await! token := observe (fun s => scheduler_tokens s !! session_id) in
  match token with
  | None => Done false
  | Some token =>
      await! _ := modify (cancel_token token) in
      await! _ := update_execution (scheduler_execution_id session_id) cancelling_patch in
      Done true
  end.

(** One pass over the records: the children of retired records are retired as well. *)
Definition retire_children (session_id : string) (records : list ExecutionRecord) (retired_ids : gset string) :
    gset string :=
  foldl (fun retired_ids r =>
    if bool_decide (ex_session_id r = session_id) &&
       match ex_parent_id r with Some parent => bool_decide (parent ∈ retired_ids) | None => false end
    then {[ex_id r]} ∪ retired_ids else retired_ids) retired_ids records.

(** [loop { ...; if retired_ids.len() == before { break } }] *)
Fixpoint retire_descendants (fuel : nat) (session_id : string) (records : list ExecutionRecord)
    (retired_ids : gset string) : gset string :=
  let next := retire_children session_id records retired_ids in
  match fuel with
  | 0 => next
  | S fuel =>
      if bool_decide (size next = size retired_ids) then next
      else retire_descendants fuel session_id records next
  end.

(** [for id in &retired_ids { ... }]: the records that are not done yet are, and their contexts. *)
Definition retire_record (now : Z) (acc : list TopologyChangeContext * gmap string ExecutionRecord)
    (id : string) : list TopologyChangeContext * gmap string ExecutionRecord :=
  match acc.2 !! id with
  | Some r =>
      if is_done r then acc
      else (acc.1 ++ [context_of r], <[id := retired now r]> acc.2)
  | None => acc
  end.
Definition retire_records (now : Z) (ids : list string) (m : gmap string ExecutionRecord) :
    list TopologyChangeContext * gmap string ExecutionRecord := foldl (retire_record now) ([], m) ids.

Definition retire_subtree (session_id : string) s :
    (gset string * list TopologyChangeContext) * RuntimeControlRegistry :=
  let retired_ids := retire_descendants (size (executions s)) session_id (hash_values (executions s))
                       {[scheduler_execution_id session_id]} in
  let '(changed, m) := retire_records (clock (clock_reads s)) (hash_items retired_ids) (executions s) in
  ((retired_ids, changed), read_clock (set_executions m s)).

Definition finish_scheduler_run (session_id : string) : Async unit :=
  await! _ := modify (fun s => set_scheduler_tokens (delete session_id (scheduler_tokens s)) s) in
  await! '(retired_ids, changed) := section (retire_subtree session_id) in
  await! _ := modify (fun s => set_execution_tokens
    (filter (fun kt : string * Token => kt.1 ∉ retired_ids) (execution_tokens s)) s) in
  await! _ := task_for notify_topology_changed changed in
  cleanup_done_executions session_id.

Definition register_scheduler_node (session_id path : string) : Async unit :=
  await! started_at := now_millis in
  await! updated_at := now_millis in
  await! _ := upsert_execution
    {| ex_id := scheduler_node_execution_id session_id path; ex_session_id := session_id;
       ex_kind := SchedulerNode; ex_status := Running; ex_label := Some path;
       ex_parent_id := Some (scheduler_execution_id session_id); ex_stage_id := None;
       ex_waiting_on := Some "model"; ex_recent_event := Some "Node started";
       ex_started_at := started_at; ex_updated_at := updated_at;
       ex_metadata := Some (Object {["path" := JString path]}) |} in
  update_execution (scheduler_execution_id session_id)
    {| patch_status := None; patch_label := Keep; patch_waiting_on := Set_ "model";
       patch_recent_event := Set_ ("Node started: " +:+ path); patch_metadata := Keep |}.

Definition update_scheduler_node (session_id path : string) (patch : ExecutionPatch) : Async unit :=
  update_execution (scheduler_node_execution_id session_id path) patch.
Definition update_scheduler_run (session_id : string) (patch : ExecutionPatch) : Async unit :=
  update_execution (scheduler_execution_id session_id) patch.
Definition finish_scheduler_node (session_id path : string) : Async unit :=
  finish_execution (scheduler_node_execution_id session_id path).

(** *** Tool calls *)

Definition register_tool_call_with_token (tool_call_id session_id tool_name : string)
    (parent_id stage_id : option string) (token : option Token) : Async unit :=
  let execution_id := tool_call_execution_id tool_call_id in
  await! _ := match token with
              | Some token => modify (fun s =>
                  set_execution_tokens (<[execution_id := token]> (execution_tokens s)) s)
              | None => Done tt
              end in
  await! started_at := now_millis in
  await! updated_at := now_millis in
  upsert_execution
    {| ex_id := execution_id; ex_session_id := session_id; ex_kind := ToolCall; ex_status := Running;
       ex_label := Some ("Tool: " +:+ tool_name); ex_parent_id := parent_id; ex_stage_id := stage_id;
       ex_waiting_on := Some "tool"; ex_recent_event := Some (tool_name +:+ " running");
       ex_started_at := started_at; ex_updated_at := updated_at;
       ex_metadata := Some (Object (<["tool_call_id" := JString tool_call_id]>
                                    {["tool_name" := JString tool_name]})) |}.
Definition register_tool_call (tool_call_id session_id tool_name : string)
    (parent_id stage_id : option string) : Async unit :=
  register_tool_call_with_token tool_call_id session_id tool_name parent_id stage_id None.

Definition finish_tool_call (tool_call_id : string) : Async unit :=
  let execution_id := tool_call_execution_id tool_call_id in
  await! _ := modify (fun s => set_execution_tokens (delete execution_id (execution_tokens s)) s) in
  finish_execution execution_id.

Definition count_active_stage_tools (stage_id : string) : Async N :=
  observe (fun s => (N.of_nat (length (filter (fun r =>
    bool_decide (ex_kind r = ToolCall) && bool_decide (ex_stage_id r = Some stage_id) && negb (is_done r))
    (hash_values (executions s)))) mod 2 ^ 32)%N).

(** *** Questions *)

Definition select_question_parent_id (m : gmap string ExecutionRecord) (session_id : string) : option string :=
  ex_id <$> max_by (fun left right =>
      then_with (kind_rank (ex_kind left) ?= kind_rank (ex_kind right))%N
        (ex_updated_at left ?= ex_updated_at right)%Z)
    (filter (fun r => bool_decide (ex_session_id r = session_id) && bool_decide (ex_kind r ≠ Question) &&
                      negb (is_done r)) (hash_values m)).

Definition question_info (id session_id : string) (questions : list QuestionDef) : QuestionInfo :=
  {| qi_id := id; qi_session_id := session_id;
     qi_items := (fun q =>
       {| item_question := qd_question q; item_header := qd_header q;
          item_options := (fun o => {| opt_label := qo_label o; opt_description := qo_description o |})
                            <$> qd_options q;
          item_multiple := qd_multiple q |}) <$> questions |}.

(** The parent of a question, and the stage that it takes from it. *)
Definition question_parent (session_id : string) s : option string * option string :=
  let pid := select_question_parent_id (executions s) session_id in
  (pid, match pid with
        | Some pid => match executions s !! pid with Some r => ex_stage_id r | None => None end
        | None => None
        end).

Definition register_question (session_id : string) (questions : list QuestionDef) :
    Async (QuestionInfo * Sender) :=
  await! request_id := section (fun s => ("question_" +:+ uuid (uuids_drawn s), draw_uuid s)) in
  let info := question_info request_id session_id questions in
  await! '(parent_id, stage_id) := observe (question_parent session_id) in
  await! started_at := now_millis in
  await! updated_at := now_millis in
  let execution :=
    {| ex_id := request_id; ex_session_id := session_id; ex_kind := Question; ex_status := Waiting;
       ex_label := Some ("Question (" +:+ dec_string (N.of_nat (length (qi_items info))) +:+ ")");
       ex_parent_id := parent_id; ex_stage_id := stage_id; ex_waiting_on := Some "user";
       ex_recent_event := Some "Waiting for user answer"; ex_started_at := started_at;
       ex_updated_at := updated_at; ex_metadata := Some (info_to_value info) |} in
  await! tx := section (fun s => (channels_made s, make_channel s)) in
  await! _ := modify (fun s => set_question_waiters (<[request_id := tx]> (question_waiters s)) s) in
  await! _ := upsert_execution execution in
  Done (info, tx).

Definition info_le (a b : QuestionInfo) : Prop := Is_true (String.leb (qi_id a) (qi_id b)).
#[local] Instance info_le_dec a b : Decision (info_le a b).
Proof. unfold info_le. apply _. Defined.

Definition list_questions : Async (list QuestionInfo) :=
  observe (fun s => merge_sort info_le (omap question_record_to_info
    (filter (fun r => bool_decide (ex_status r = Waiting)) (hash_values (executions s))))).
Definition list_questions_for_session (session_id : string) : Async (list QuestionInfo) :=
  observe (fun s => merge_sort info_le (omap question_record_to_info
    (filter (fun r => bool_decide (ex_session_id r = session_id) && bool_decide (ex_status r = Waiting))
      (hash_values (executions s))))).

Definition take_question (id : string) : Async (option QuestionInfo) :=
  await! taken := section (fun s =>
    match executions s !! id with
    | None => (None, s)
    | Some record =>
        if bool_decide (ex_kind record ≠ Question) then (None, s)
        else match question_record_to_info record with
             | None => (None, s)
             | Some info => (Some (record, info), set_executions (delete id (executions s)) s)
             end
    end) in
  match taken with
  | None => Done None
  | Some (record, info) =>
      await! _ := notify_topology_changed (context_of record) in
      Done (Some info)
  end.

(** [if let Some(waiter) = self.question_waiters.lock().await.remove(id) { waiter.send(reply) }] *)
Definition reply_to_waiter (id : string) (reply : QuestionReply) : Async unit :=
  modify (fun s =>
    match question_waiters s !! id with
    | Some waiter => send_reply waiter reply (set_question_waiters (delete id (question_waiters s)) s)
    | None => s
    end).

(** [answer_question], [reject_question] and [cancel_question] differ in the reply. *)
Definition resolve_question (id : string) (reply : QuestionReply) : Async (option QuestionInfo) :=
  await! info := take_question id in
  match info with
  | None => Done None
  | Some info =>
      await! _ := reply_to_waiter id reply in
      Done (Some info)
  end.
Definition answer_question (id : string) (answers : list (list string)) : Async (option QuestionInfo) :=
  resolve_question id (Answers answers).
Definition reject_question (id : string) : Async (option QuestionInfo) := resolve_question id Rejected.
Definition cancel_question (id : string) : Async (option QuestionInfo) := resolve_question id Cancelled.

Definition cancel_questions_for_session (session_id : string) : Async (list QuestionInfo) :=
  await! ids := observe (fun s => map ex_id
    (filter (fun r => bool_decide (ex_session_id r = session_id) && bool_decide (ex_kind r = Question))
      (hash_values (executions s)))) in
  task_collect cancel_question ids.

Definition resolve_stage_id (execution_id : string) : Async (option string) :=
  observe (B := option string) (fun s => executions s !! execution_id ≫= ex_stage_id).

(** *** Cancellation of any execution *)

Definition cancel_execution (execution_id : string) : Async (option ExecutionKind) :=
  await! found := observe (B := option (ExecutionKind * string)) (fun s =>
    (fun r => (ex_kind r, ex_session_id r)) <$> executions s !! execution_id) in
  match found with
  | None => Done None
  | Some (kind, session_id) =>
      await! _ :=
        match kind with
        | SchedulerRun | SchedulerNode =>
            await! _ := request_scheduler_cancel session_id in Done tt
        | Question => await! _ := cancel_question execution_id in Done tt
        | ToolCall =>
            await! token := observe (fun s => execution_tokens s !! execution_id) in
            await! _ := match token with Some token => modify (cancel_token token) | None => Done tt end in
            update_execution execution_id cancelling_patch
        | PromptRun => Done tt
        end in
      Done (Some kind)
  end.

(** *** Listings and the topology of a session *)

Definition list_session_execution_records (session_id : string) : Async (list ExecutionRecord) :=
  observe (fun s => filter (fun r => bool_decide (ex_session_id r = session_id)) (hash_values (executions s))).
Definition list_all_executions : Async (list ExecutionRecord) := observe (fun s => hash_values (executions s)).
Definition list_active_session_ids : Async (list string) :=
  observe (fun s => merge_sort str_leb (elements (list_to_set (C := gset string)
    (map ex_session_id (filter (fun r => negb (is_done r)) (hash_values (executions s))))))).
End registry.

Definition node_data (r : ExecutionRecord) : NodeData :=
  {| nd_id := ex_id r; nd_kind := ex_kind r; nd_status := ex_status r; nd_label := ex_label r;
     nd_parent_id := ex_parent_id r; nd_stage_id := ex_stage_id r; nd_waiting_on := ex_waiting_on r;
     nd_recent_event := ex_recent_event r; nd_started_at := ex_started_at r;
     nd_updated_at := ex_updated_at r; nd_metadata := ex_metadata r |}.

(** [xs.into_iter().map(|x| f(x, &mut state)).collect()] *)
Fixpoint map_threaded {A B M} (f : A → M → B * M) (xs : list A) (m : M) : list B * M :=
  match xs with
  | [] => ([], m)
  | x :: xs => let '(y, m) := f x m in let '(ys, m) := map_threaded f xs m in (y :: ys, m)
  end.

Abbreviation Children := (gmap string (list ExecutionRecord)).

(** The fuel bounds the depth; every level below the first removes an entry of the map. *)
Fixpoint build_execution_node (fuel : nat) (record : ExecutionRecord) (children_by_parent : Children) :
    SessionExecutionNode * Children :=
  let children := default [] (children_by_parent !! ex_id record) in
  let children_by_parent := delete (ex_id record) children_by_parent in
  match fuel with
  | 0 => (ExecutionNode (node_data record) [], children_by_parent)
  | S fuel =>
      let '(children, children_by_parent) :=
        map_threaded (build_execution_node fuel) (sort_by execution_sort_key children) children_by_parent in
      (ExecutionNode (node_data record) children, children_by_parent)
  end.

Definition count_status (status : ExecutionStatus) (records : list ExecutionRecord) : nat :=
  length (filter (fun r => bool_decide (ex_status r = status)) records).

(** The parent of a record among the listed ones. *)
Definition listed_parent (record_ids : gset string) (r : ExecutionRecord) : option string :=
  match ex_parent_id r with
  | Some parent => if bool_decide (parent ∈ record_ids) then Some parent else None
  | None => None
  end.

(** [for record in records { if has_parent { ... } else { roots.push(record) } }] *)
Definition split_roots (record_ids : gset string) (records : list ExecutionRecord) :
    Children * list ExecutionRecord :=
  foldl (fun acc r =>
    match listed_parent record_ids r with
    | Some parent => (<[parent := default [] (acc.1 !! parent) ++ [r]]> acc.1, acc.2)
    | None => (acc.1, acc.2 ++ [r])
    end) (∅, []) records.

Definition build_session_execution_topology (session_id : string) (records : list ExecutionRecord) :
    SessionExecutionTopology :=
  let total_count := length records in
  let done_count := count_status DoneExecution records in
  let sorted := sort_by execution_sort_key records in
  let record_ids : gset string := list_to_set (ex_id <$> sorted) in
  let '(children_by_parent, roots) := split_roots record_ids sorted in
  {| top_session_id := session_id;
     active_count := total_count - done_count;
     done_count := done_count;
     running_count := count_status Running records;
     waiting_count := count_status Waiting records;
     cancelling_count := count_status Cancelling records;
     retry_count := count_status Retry records;
     top_updated_at := max_by Z.compare (ex_updated_at <$> records);
     roots := (map_threaded (build_execution_node (length records)) roots children_by_parent).1 |}.

Definition list_session_execution_topology `{RuntimeEnv} (session_id : string) :
    Task RuntimeControlRegistry SessionExecutionTopology :=
  await! records := list_session_execution_records session_id in
  Done (build_session_execution_topology session_id records).
