(* ===== verification/RuntimeTopology.v ===== *)
(** * The topology of a session shows every execution once

    [build_session_execution_topology] turns the records of a session into a forest: below
    each record those that name it as their parent, siblings in the order of their start.  No record
    is shown twice, and none is lost unless its chain of parents runs in a circle. *)

From S2P Require Import Prelude Json Tasks RuntimeControl.
From Stdlib Require Import Sorting.Sorted.
From stdpp Require Import options.

(** ** Sorting *)

Section sort.
Context {A : Type} (cmp : A → A → comparison).
Hypothesis cmp_opp : ∀ x y, cmp y x = CompOpp (cmp x y).

Definition in_order (x y : A) : Prop := cmp x y ≠ Gt.

Lemma insert_by_perm x l : insert_by cmp x l ≡ₚ x :: l.
Proof. clear cmp_opp. induction l as [|y l IH]; cbn; [done|]. destruct (cmp x y); [done..|]. rewrite IH. constructor. Qed.

Lemma sort_by_perm l : sort_by cmp l ≡ₚ l.
Proof. clear cmp_opp. induction l as [|x l IH]; cbn; [done|]. by rewrite insert_by_perm, IH. Qed.

Lemma insert_by_sorted x l : Sorted in_order l → Sorted in_order (insert_by cmp x l).
Proof using cmp_opp.
  induction 1 as [|y l Hl IH Hy]; cbn; [by repeat constructor|].
  destruct (cmp x y) eqn:Hc.
  - constructor; [by constructor|]. constructor. unfold in_order. congruence.
  - constructor; [by constructor|]. constructor. unfold in_order. congruence.
  - constructor; [done|]. assert (in_order y x) as Hyx.
    { unfold in_order. rewrite cmp_opp, Hc. done. }
    destruct l as [|z l]; cbn; [by constructor|]. destruct (cmp x z); constructor; try done; by inversion Hy.
Qed.

Lemma sort_by_sorted l : Sorted in_order (sort_by cmp l).
Proof using cmp_opp. induction l as [|x l IH]; cbn; [constructor|]. by apply insert_by_sorted. Qed.
End sort.

Lemma execution_sort_key_opp x y : execution_sort_key y x = CompOpp (execution_sort_key x y).
Proof.
  unfold execution_sort_key. rewrite (Z.compare_antisym (ex_started_at x)), (N.compare_antisym (kind_rank (ex_kind x))).
  rewrite (String.compare_antisym (ex_id y) (ex_id x)).
  by destruct (_ ?= _)%Z, (_ ?= _)%N, (String.compare _ _).
Qed.

(** ** Forests *)

Definition node_of (n : SessionExecutionNode) : NodeData := match n with ExecutionNode data _ => data end.
Definition children_of (n : SessionExecutionNode) : list SessionExecutionNode :=
  match n with ExecutionNode _ children => children end.

(** All nodes of a tree, parents first. *)
Fixpoint flatten (n : SessionExecutionNode) : list NodeData :=
  match n with ExecutionNode data children => data :: concat (map flatten children) end.
Definition flatten_all (ns : list SessionExecutionNode) : list NodeData := concat (map flatten ns).

Definition sibling_order (a b : NodeData) : Prop :=
  then_with (nd_started_at a ?= nd_started_at b)%Z
    (then_with (kind_rank (nd_kind a) ?= kind_rank (nd_kind b))%N (String.compare (nd_id a) (nd_id b))) ≠ Gt.

(** Every node is a child of the execution that it names as its parent, after its older siblings. *)
Inductive well_placed : SessionExecutionNode → Prop :=
| placed data children :
    Forall (fun c => nd_parent_id (node_of c) = Some (nd_id data)) children →
    Sorted sibling_order (map node_of children) →
    Forall well_placed children →
    well_placed (ExecutionNode data children).

(** The children that have not been placed yet. *)
Definition pending_children (m : Children) : list ExecutionRecord := concat (map_to_list m).*2.

Lemma pending_take m id :
  pending_children m ≡ₚ default [] (m !! id) ++ pending_children (delete id m).
Proof.
  unfold pending_children. destruct (m !! id) as [l|] eqn:Hm; cbn.
  - by rewrite <- (map_to_list_delete m id l Hm).
  - by rewrite delete_id.
Qed.

Lemma size_delete_le {A} (m : gmap string A) id : size (delete id m) ≤ size m.
Proof. rewrite map_size_delete. destruct (m !! id); cbn; lia. Qed.

Lemma map_threaded_ind {A B M} (P : list A → M → list B → M → Prop) (f : A → M → B * M) :
  (∀ m, P [] m [] m) →
  (∀ x xs m y m' ys m'', f x m = (y, m') → map_threaded f xs m' = (ys, m'') →
     P xs m' ys m'' → P (x :: xs) m (y :: ys) m'') →
  ∀ xs m ys m', map_threaded f xs m = (ys, m') → P xs m ys m'.
Proof.
  intros H0 H1 xs. induction xs as [|x xs IH]; cbn; intros m ys m'; [intros [= <- <-]; apply H0|].
  destruct (f x m) as [y m1] eqn:Hf. destruct (map_threaded f xs m1) as [ys' m2] eqn:Ht.
  intros [= <- <-]. eapply H1; eauto.
Qed.

(** What building a node does to the map: it takes entries away, each of them whole. *)
Definition takes (data : list NodeData) (built : list NodeData) (m m' : Children) : Prop :=
  m' ⊆ m ∧
  built ++ (node_data <$> pending_children m') ≡ₚ data ++ (node_data <$> pending_children m) ∧
  Forall (fun d => m' !! nd_id d = None) built.

Lemma takes_seq d1 b1 d2 b2 m m1 m2 :
  takes d1 b1 m m1 → takes d2 b2 m1 m2 → takes (d1 ++ d2) (b1 ++ b2) m m2.
Proof.
  intros (Hs1 & Hp1 & Hk1) (Hs2 & Hp2 & Hk2). split_and!; [by etrans| |].
  - rewrite <- app_assoc, Hp2, app_assoc, (Permutation_app_comm b1 d2), <- app_assoc, Hp1.
    rewrite !app_assoc. f_equiv. apply Permutation_app_comm.
  - apply Forall_app. split; [|done]. eapply Forall_impl; [exact Hk1|]. cbn. intros d Hd.
    by eapply lookup_weaken_None.
Qed.

Section build.
Context (m0 : Children).
Hypothesis placed_under : ∀ p l, m0 !! p = Some l → Forall (fun r => ex_parent_id r = Some p) l.

Definition built_ok (r : ExecutionRecord) (n : SessionExecutionNode) (m m' : Children) : Prop :=
  takes [node_data r] (flatten n) m m' ∧ node_of n = node_data r ∧ well_placed n.

Lemma sorted_nodes (l : list ExecutionRecord) :
  Sorted (in_order execution_sort_key) l → Sorted sibling_order (map node_data l).
Proof using.
  clear. induction 1 as [|x l Hl IH Hx]; cbn; constructor; [done|]. destruct Hx; cbn; by constructor.
Qed.

Lemma build_children fuel :
  (∀ r m, m ⊆ m0 → size m ≤ fuel → built_ok r (build_execution_node fuel r m).1 m (build_execution_node fuel r m).2) →
  ∀ rs m ns m', map_threaded (build_execution_node fuel) rs m = (ns, m') →
    m ⊆ m0 → size m ≤ fuel →
    takes (map node_data rs) (flatten_all ns) m m' ∧ map node_of ns = map node_data rs ∧ Forall well_placed ns.
Proof using.
  clear placed_under. intros Hbuild.
  apply (map_threaded_ind (fun rs m ns m' => m ⊆ m0 → size m ≤ fuel →
    takes (map node_data rs) (flatten_all ns) m m' ∧ map node_of ns = map node_data rs ∧ Forall well_placed ns)).
  - intros m _ _. by repeat split.
  - intros r rs m n m1 ns m2 Hn Hns IH Hm Hsize.
    destruct (Hbuild r m Hm Hsize) as (Ht & Hd & Hw). rewrite Hn in Ht, Hd, Hw. cbn in Ht, Hd, Hw.
    assert (m1 ⊆ m) as Hm1 by apply Ht.
    destruct IH as (Hts & Hds & Hws).
    { by etrans. } { pose proof (map_subseteq_size _ _ Hm1). lia. }
    split_and!; [by apply (takes_seq [node_data r] (flatten n) (map node_data rs) (flatten_all ns) m m1)| |by constructor].
    cbn. by rewrite Hd, Hds.
Qed.

Lemma build_node_ok fuel : ∀ r m, m ⊆ m0 → size m ≤ fuel →
  built_ok r (build_execution_node fuel r m).1 m (build_execution_node fuel r m).2.
Proof using placed_under.
  induction fuel as [|fuel IH]; intros r m Hm Hsize.
  - assert (m = ∅) as -> by (apply map_size_empty_inv; lia). cbn. rewrite delete_empty.
    split_and!; [|done|by repeat constructor]. split_and!; [done|done|]. by repeat constructor.
  - cbn [build_execution_node].
    destruct (map_threaded (build_execution_node fuel)
      (sort_by execution_sort_key (default [] (m !! ex_id r))) (delete (ex_id r) m)) as [ns m'] eqn:Hns.
    assert (takes (map node_data (sort_by execution_sort_key (default [] (m !! ex_id r)))) (flatten_all ns)
              (delete (ex_id r) m) m' ∧
            map node_of ns = map node_data (sort_by execution_sort_key (default [] (m !! ex_id r))) ∧
            Forall well_placed ns) as ((Hsub & Hperm & Hkeys) & Hnodes & Hplaced).
    { destruct (m !! ex_id r) as [l|] eqn:Hl; cbn in Hns |- *.
      - eapply build_children; [exact IH|exact Hns| |].
        + etrans; [apply delete_subseteq|done].
        + rewrite map_size_delete, Hl. cbn. lia.
      - injection Hns as <- <-. by repeat split. }
    assert (delete (ex_id r) m ⊆ m) as Hdel by apply delete_subseteq.
    split_and!; cbn; [| done |].
    + split_and!; [by etrans| |].
      * cbn. f_equiv. fold (flatten_all ns). rewrite Hperm, (pending_take m (ex_id r)), fmap_app.
        f_equiv. apply Permutation_map, sort_by_perm.
      * constructor; [|done]. cbn. eapply lookup_weaken_None; [apply lookup_delete_eq|done].
    + constructor; [| |done].
      * apply (Forall_fmap node_of (fun d => nd_parent_id d = Some (ex_id r))).
        change (node_of <$> ns) with (map node_of ns). rewrite Hnodes. apply Forall_fmap.
        rewrite sort_by_perm. destruct (m !! ex_id r) as [l|] eqn:Hl; cbn; [|constructor].
        eapply placed_under, lookup_weaken; eauto.
      * rewrite Hnodes. apply sorted_nodes, sort_by_sorted, execution_sort_key_opp.
Qed.
End build.

(** ** The records of a session *)

Section topology.
Context (records : list ExecutionRecord).

Definition record_ids : gset string := list_to_set (ex_id <$> records).

(** [split_roots]: roots are the records without a listed parent, the others are children of theirs. *)
Definition split_ok (seen : list ExecutionRecord) (acc : Children * list ExecutionRecord) : Prop :=
  acc.2 ++ pending_children acc.1 ≡ₚ seen ∧
  Forall (fun r => listed_parent record_ids r = None) acc.2 ∧
  (∀ p l, acc.1 !! p = Some l → Forall (fun r => listed_parent record_ids r = Some p) l).

Lemma split_roots_ok l : split_ok l (split_roots record_ids l).
Proof.
  unfold split_roots.
  enough (∀ seen acc, split_ok seen acc → split_ok (seen ++ l) (foldl (fun acc r =>
    match listed_parent record_ids r with
    | Some parent => (<[parent := default [] (acc.1 !! parent) ++ [r]]> acc.1, acc.2)
    | None => (acc.1, acc.2 ++ [r])
    end) acc l)) as H. { apply (H []). by repeat split. }
  induction l as [|r l IH]; intros seen acc Hacc; [by rewrite app_nil_r|].
  replace (seen ++ r :: l) with ((seen ++ [r]) ++ l) by by rewrite <- app_assoc.
  apply IH. destruct Hacc as (Hp & Hr & Hc). destruct (listed_parent record_ids r) as [p|] eqn:Hpar; split_and!; cbn.
  - rewrite (pending_take _ p), lookup_insert_eq, delete_insert_eq. cbn.
    rewrite <- Hp, (pending_take acc.1 p). rewrite <- !app_assoc. f_equiv. f_equiv. apply Permutation_app_comm.
  - done.
  - intros q l' Hq. destruct (decide (p = q)) as [->|Hne].
    + rewrite lookup_insert_eq in Hq. injection Hq as <-. apply Forall_app. split; [|by repeat constructor].
      destruct (acc.1 !! q) as [l0|] eqn:Hl0; cbn; [by apply Hc|constructor].
    + rewrite lookup_insert_ne in Hq by done. by apply Hc.
  - rewrite <- Hp, <- !app_assoc. f_equiv. apply Permutation_app_comm.
  - apply Forall_app. split; [done|]. by repeat constructor.
  - done.
Qed.
End topology.

Lemma listed_parent_Some ids r p : listed_parent ids r = Some p → ex_parent_id r = Some p ∧ p ∈ ids.
Proof.
  unfold listed_parent. destruct (ex_parent_id r) as [q|]; [|done]. case_bool_decide; [|done]. by intros [= <-].
Qed.

(** Chains of parents end: some depth grows from each parent in the list to its children. *)
Definition parents_end (records : list ExecutionRecord) : Prop :=
  ∃ depth : string → nat, ∀ r p, r ∈ records →
    listed_parent (record_ids records) r = Some p → depth p < depth (ex_id r).

Lemma pending_elem (m : Children) r : r ∈ pending_children m ↔ ∃ p l, m !! p = Some l ∧ r ∈ l.
Proof.
  unfold pending_children. rewrite list_elem_of_In, in_concat. split.
  - intros (l & Hl & Hr). apply list_elem_of_In, list_elem_of_fmap in Hl as ([p l'] & -> & Hpl).
    apply elem_of_map_to_list in Hpl. exists p, l'. by rewrite list_elem_of_In.
  - intros (p & l & Hp & Hr). exists l. rewrite <- !list_elem_of_In. split; [|done].
    apply list_elem_of_fmap. exists (p, l). by rewrite elem_of_map_to_list.
Qed.

Lemma count_cons status r l :
  count_status status (r :: l) = (if decide (ex_status r = status) then 1 else 0) + count_status status l.
Proof.
  unfold count_status. rewrite filter_cons.
  destruct (decide (bool_decide (ex_status r = status))) as [Hb|Hb]; rewrite bool_decide_spec in Hb;
    by destruct (decide (ex_status r = status)).
Qed.

Lemma count_statuses records :
  count_status DoneExecution records + (count_status Running records + count_status Waiting records +
    count_status Cancelling records + count_status Retry records) = length records.
Proof.
  induction records as [|r l IH]; [done|]. rewrite !count_cons. cbn [length].
  destruct (ex_status r); repeat (case_decide; [try discriminate|try congruence]); lia.
Qed.

(** Without circles nothing is left over: of the entries that remain, one with a parent of least depth
    would have been taken when that parent was built. *)
Lemma nothing_pending records built m :
  parents_end records →
  (∀ p l, m !! p = Some l → l ≠ [] → Forall (fun r => r ∈ records ∧ listed_parent (record_ids records) r = Some p) l) →
  built ++ (node_data <$> pending_children m) ≡ₚ node_data <$> records →
  Forall (fun d => m !! nd_id d = None) built →
  pending_children m = [].
Proof.
  intros [depth Hdepth] Hm Hperm Hbuilt.
  assert (∀ n p l, m !! p = Some l → l ≠ [] → depth p < n → False) as Hnone.
  { induction n as [|n IH]; intros p l Hp Hl Hn; [lia|].
    destruct l as [|r l]; [done|]. pose proof (Hm p _ Hp Hl) as [Hr Hpar]%Forall_cons_1%proj1.
    apply listed_parent_Some in Hpar as Hin. destruct Hin as [_ Hin].
    unfold record_ids in Hin. apply elem_of_list_to_set, list_elem_of_fmap in Hin as (rp & -> & Hrp).
    assert (node_data rp ∈ node_data <$> records) as Hd by by apply list_elem_of_fmap_2.
    rewrite <- Hperm in Hd. apply elem_of_app in Hd as [Hd|Hd].
    - eapply Forall_forall in Hbuilt; [|exact Hd]. cbn in Hbuilt. congruence.
    - apply list_elem_of_fmap in Hd as (rp' & Heq & Hrp'). apply pending_elem in Hrp' as (q & lq & Hq & Hinq).
      assert (lq ≠ []) as Hne by (intros ->; by apply not_elem_of_nil in Hinq).
      pose proof (Hm q lq Hq Hne) as Hall. eapply Forall_forall in Hall as [Hrec Hpq]; [|exact Hinq].
      assert (ex_id rp = ex_id rp') as Hid by by apply (f_equal nd_id) in Heq.
      apply (IH q lq Hq Hne). pose proof (Hdepth rp' q Hrec Hpq). rewrite Hid in Hn. lia. }
  destruct (pending_children m) as [|r rest] eqn:Hpend; [done|]. exfalso.
  assert (r ∈ pending_children m) as (p & l & Hp & Hr)%pending_elem by (rewrite Hpend; apply list_elem_of_here).
  apply (Hnone (S (depth p)) p l Hp); [|lia]. intros ->. by apply not_elem_of_nil in Hr.
Qed.

Lemma record_ids_perm l k : l ≡ₚ k → record_ids l = record_ids k.
Proof. intros Hlk. unfold record_ids. apply leibniz_equiv. by rewrite Hlk. Qed.

Lemma split_size l ids : size (split_roots ids l).1 ≤ length l.
Proof.
  unfold split_roots.
  enough (∀ acc : Children * list ExecutionRecord, size (foldl (fun acc r =>
    match listed_parent ids r with
    | Some parent => (<[parent := default [] (acc.1 !! parent) ++ [r]]> acc.1, acc.2)
    | None => (acc.1, acc.2 ++ [r])
    end) acc l).1 ≤ size acc.1 + length l) as H.
  { etrans; [apply (H (∅, []))|]. cbn. rewrite map_size_empty. lia. }
  induction l as [|r l IH]; intros acc; cbn; [lia|]. etrans; [apply IH|].
  destruct (listed_parent ids r) as [p|]; cbn; [|lia]. rewrite map_size_insert.
  destruct (acc.1 !! p); cbn; lia.
Qed.

(** C27. The topology of a session shows every record of the session exactly once, provided no chain of
    parents runs in a circle: at the top the records whose parent is not listed, below each
    node the records that name it as their parent, siblings in the order of their start; and the
    counters account for every record. *)
Theorem topology_shows_every_execution session_id records :
  parents_end records →
  let t := build_session_execution_topology session_id records in
  flatten_all (roots t) ≡ₚ node_data <$> records ∧
  Forall well_placed (roots t) ∧
  Forall (fun n => ∃ r, r ∈ records ∧ node_of n = node_data r ∧ listed_parent (record_ids records) r = None)
    (roots t) ∧
  done_count t + active_count t = length records ∧
  running_count t + waiting_count t + cancelling_count t + retry_count t = active_count t.
Proof.
  intros Hend. cbn. unfold build_session_execution_topology.
  pose proof (sort_by_perm execution_sort_key records) as Hsort.
  assert (list_to_set (ex_id <$> sort_by execution_sort_key records) = record_ids records) as Hids.
  { by apply (record_ids_perm (sort_by execution_sort_key records)). }
  rewrite Hids. pose proof (split_roots_ok records (sort_by execution_sort_key records)) as (Hperm & Hroots & Hkids).
  pose proof (split_size (sort_by execution_sort_key records) (record_ids records)) as Hsize.
  rewrite (Permutation_length Hsort) in Hsize.
  destruct (split_roots (record_ids records) (sort_by execution_sort_key records)) as [m rs]. cbn in *.
  destruct (map_threaded (build_execution_node (length records)) rs m) as [ns m'] eqn:Hns.
  assert (∀ p l, m !! p = Some l → Forall (fun r => ex_parent_id r = Some p) l) as Hunder.
  { intros p l Hp. eapply Forall_impl; [by apply Hkids|]. intros r [H _]%listed_parent_Some. exact H. }
  pose proof (build_children m (length records) (build_node_ok m Hunder (length records)) rs m ns m' Hns
    (reflexivity m) Hsize) as (Htakes & Hnodes & Hplaced).
  assert (built_perm : flatten_all ns ++ (node_data <$> pending_children m') ≡ₚ node_data <$> records).
  { destruct Htakes as (_ & Ht & _). rewrite Ht, <- Hsort, <- Hperm, fmap_app. done. }
  assert (pending_children m' = []) as Hnil.
  { apply (nothing_pending records (flatten_all ns) m'); [done| |done|apply Htakes].
    intros p l Hp _. assert (m !! p = Some l) as Hpm by (eapply lookup_weaken; [exact Hp|apply Htakes]).
    apply Forall_forall. intros r Hr. split.
    - rewrite <- Hsort, <- Hperm. apply elem_of_app. right. apply pending_elem. by exists p, l.
    - eapply Forall_forall in Hr; [|by apply Hkids]. done. }
  pose proof (count_statuses records) as Hcount.
  split_and!; [|done| |lia|lia].
  - rewrite <- built_perm, Hnil. cbn. by rewrite app_nil_r.
  - cbn. assert (Forall (fun d => ∃ r, r ∈ records ∧ d = node_data r ∧
      listed_parent (record_ids records) r = None) (map node_of ns)) as HF; [|exact (proj1 (Forall_fmap node_of _ _) HF)].
    rewrite Hnodes. apply Forall_fmap, Forall_forall. intros r Hr. exists r. split_and!; [|done|].
    + rewrite <- Hsort, <- Hperm. apply elem_of_app. by left.
    + by eapply Forall_forall in Hr; [|exact Hroots].
Qed.

Definition demo_execution (id : string) (kind : ExecutionKind) (parent_id : option string) (started_at : Z) : ExecutionRecord :=
  {| ex_id := id; ex_session_id := "s"; ex_kind := kind; ex_status := Running; ex_label := None;
     ex_parent_id := parent_id; ex_stage_id := None; ex_waiting_on := None; ex_recent_event := None;
     ex_started_at := started_at; ex_updated_at := started_at; ex_metadata := None |}.
Definition demo_executions : list ExecutionRecord :=
  [demo_execution "scheduler_node:s:a" SchedulerNode (Some "scheduler:s") 3;
   demo_execution "scheduler:s" SchedulerRun (Some "prompt:s") 2;
   demo_execution "prompt:s" PromptRun None 1].

Lemma demo_parents_end : parents_end demo_executions.
Proof.
  exists (fun id => if decide (id = "prompt:s") then 0 else if decide (id = "scheduler:s") then 1 else 2).
  intros r p Hr. unfold demo_executions in Hr. rewrite !elem_of_cons in Hr.
  destruct Hr as [->|[->|[->|Hr]]]; cbn; [..|by apply not_elem_of_nil in Hr];
    unfold listed_parent; cbn; try case_bool_decide; intros [= <-]; vm_compute; lia.
Qed.

Lemma topology_shows_every_execution_witness :
  let t := build_session_execution_topology "s" demo_executions in
  flatten_all (roots t) ≡ₚ node_data <$> demo_executions ∧ length (roots t) = 1.
Proof.
  split; [|vm_compute; reflexivity].
  apply (topology_shows_every_execution "s" demo_executions demo_parents_end).
Defined.
