(* ===== verification/RuntimeQuestions.v ===== *)
(** * Questions to the user, among everything else that runs

    A question is registered, and then answered, rejected or cancelled by whoever comes
    first, while other tasks start and stop runs.  The invariant below follows each question from the
    UUID it is named by to the reply on its channel; the tasks of the registry are proved
    to keep it for any interleaving of their critical sections. *)

From S2P Require Import Prelude Json Tasks RuntimeControl.
From stdpp Require Import options.

(** ** A question reads back from its record *)

Lemma mapM_decode {A} (encode : A → Value) (decode : Value → option A) :
  (∀ a, decode (encode a) = Some a) → ∀ l, mapM decode (encode <$> l) = Some l.
Proof. intros Hd l. induction l as [|a l IH]; cbn; [done|]. by rewrite Hd, IH. Qed.

Lemma dom_optional key o : dom (optional_member key o) ⊆ {[key]}.
Proof. destruct o; cbn; [by rewrite dom_singleton_L|by rewrite dom_empty_L]. Qed.

Lemma read_optional_member key o : read_optional key (optional_member key o) = Some o.
Proof. destruct o; unfold read_optional; cbn; [by rewrite lookup_singleton_eq|by rewrite lookup_empty]. Qed.

Lemma option_reads_back o : option_from_value (option_to_value o) = Some o.
Proof.
  destruct o as [label description]. unfold option_from_value, option_to_value; cbn [opt_label opt_description].
  assert (only_members ["label"; "description"]
    (<["label" := JString label]> (optional_member "description" description)) = true) as ->.
  { apply bool_decide_eq_true_2. rewrite dom_insert_L. pose proof (dom_optional "description" description). set_solver. }
  unfold read_text. rewrite lookup_insert_eq. cbn.
  unfold read_optional. rewrite lookup_insert_ne by done. fold (read_optional "description" (optional_member "description" description)).
  by rewrite read_optional_member.
Qed.

Lemma item_reads_back i : item_from_value (item_to_value i) = Some i.
Proof.
  destruct i as [question header options multiple]. unfold item_from_value, item_to_value.
  cbn [item_question item_header item_options item_multiple].
  assert (only_members ["question"; "header"; "options"; "multiple"]
    (<["question" := JString question]> (<["options" := Array (option_to_value <$> options)]>
      (<["multiple" := Bool multiple]> (optional_member "header" header)))) = true) as ->.
  { apply bool_decide_eq_true_2. rewrite !dom_insert_L. pose proof (dom_optional "header" header). set_solver. }
  unfold read_text, read_optional. repeat (rewrite lookup_insert_eq || rewrite lookup_insert_ne by done). cbn.
  fold (read_optional "header" (optional_member "header" header)). rewrite read_optional_member. cbn.
  rewrite (mapM_decode option_to_value option_from_value option_reads_back). done.
Qed.

Lemma info_reads_back info : info_from_value (info_to_value info) = Some info.
Proof.
  destruct info as [id session_id items]. unfold info_from_value, info_to_value. cbn [qi_id qi_session_id qi_items].
  assert (only_members ["id"; "session_id"; "items"] (<["id" := JString id]> (<["session_id" := JString session_id]>
    {["items" := Array (item_to_value <$> items)]})) = true) as ->.
  { apply bool_decide_eq_true_2. rewrite !dom_insert_L, dom_singleton_L. set_solver. }
  unfold read_text. repeat (rewrite lookup_insert_eq || rewrite lookup_insert_ne by done).
  rewrite lookup_singleton_eq. cbn.
  by rewrite (mapM_decode item_to_value item_from_value item_reads_back).
Qed.

(** ** Execution ids say what they name *)

Definition id_prefix (kind : ExecutionKind) : string :=
  match kind with
  | PromptRun => "prompt:"
  | SchedulerRun => "scheduler:"
  | SchedulerNode => "scheduler_node:"
  | ToolCall => "tool_call:"
  | Question => "question_"
  end.

Lemma prefix_unique k k' x y : id_prefix k +:+ x = id_prefix k' +:+ y → k = k'.
Proof. destruct k, k'; cbn; try done; discriminate. Qed.

Section questions.
Context `{RuntimeEnv}.
Implicit Types (s : RuntimeControlRegistry) (id : string).

Definition question_id (n : nat) : string := "question_" +:+ uuid n.

Lemma question_id_inj m n : question_id m = question_id n → m = n.
Proof. unfold question_id. intros Hmn. apply uuid_fresh. cbn in Hmn. by injection Hmn. Qed.

(** A record under [id] carries that id, which has the prefix of its kind; a run carries its
    session in the id, and a question its whole text in the metadata. *)
Definition identified (drawn : nat) id (r : ExecutionRecord) : Prop :=
  ex_id r = id ∧
  match ex_kind r with
  | PromptRun => id = prompt_execution_id (ex_session_id r)
  | SchedulerRun => id = scheduler_execution_id (ex_session_id r)
  | SchedulerNode => ∃ path, id = scheduler_node_execution_id (ex_session_id r) path
  | ToolCall => ∃ tool_call_id, id = tool_call_execution_id tool_call_id
  | Question => ∃ n info, n < drawn ∧ id = question_id n ∧
      ex_metadata r = Some (info_to_value info) ∧ qi_id info = id ∧ qi_session_id info = ex_session_id r
  end.

Lemma identified_prefix drawn id r : identified drawn id r → ∃ x, id = id_prefix (ex_kind r) +:+ x.
Proof.
  intros [_ Hk]. destruct (ex_kind r); cbn in *; try by eexists.
  - destruct Hk as [path ->]. by eexists.
  - destruct Hk as [t ->]. by eexists.
  - destruct Hk as (n & info & _ & -> & _). by eexists.
Qed.

Lemma identified_kind drawn r k x : identified drawn (id_prefix k +:+ x) r → ex_kind r = k.
Proof. intros [y Hy]%identified_prefix. symmetry. by eapply prefix_unique. Qed.

Lemma identified_later drawn drawn' id r : drawn ≤ drawn' → identified drawn id r → identified drawn' id r.
Proof.
  intros Hd [Hid Hk]. split; [done|]. destruct (ex_kind r); try done.
  destruct Hk as (n & info & Hn & Hrest). exists n, info. split; [lia|done].
Qed.

(** ** The life of a question *)

(** Named; channel made; waiter stored; open for an answer; taken by someone who will reply; replied. *)
Inductive Phase :=
| Drawn
| Opened (c : Sender)
| Registered (c : Sender)
| Pending (c : Sender)
| Taken (c : Sender)
| Delivered (c : Sender) (reply : QuestionReply).

Definition channel_of (p : Phase) : option Sender :=
  match p with
  | Drawn => None
  | Opened c | Registered c | Pending c | Taken c | Delivered c _ => Some c
  end.
Definition waiter_of (p : Phase) : option Sender :=
  match p with Registered c | Pending c | Taken c => Some c | _ => None end.
Definition reply_of (p : Phase) : option QuestionReply :=
  match p with Delivered _ reply => Some reply | _ => None end.
(** The channel of a question whose registration is complete. *)
Definition open_channel (p : Phase) : option Sender :=
  match p with Pending c | Taken c | Delivered c _ => Some c | _ => None end.
Definition is_pending (p : Phase) : bool := match p with Pending _ => true | _ => false end.

(** The registry in the light of the phases: the records that are there, the waiters, the replies. *)
Record phases_ok s (phases : gmap string Phase) : Prop := {
  ok_records : ∀ id r, executions s !! id = Some r → identified (uuids_drawn s) id r;
  ok_questions : ∀ id r, executions s !! id = Some r → ex_kind r = Question →
    ∃ p, phases !! id = Some p ∧ is_pending p = true;
  ok_drawn : ∀ id, is_Some (phases !! id) → ∃ n, n < uuids_drawn s ∧ id = question_id n;
  ok_waiters : ∀ id, question_waiters s !! id = phases !! id ≫= waiter_of;
  ok_channels : ∀ id p c, phases !! id = Some p → channel_of p = Some c →
    c < channels_made s ∧ replies_sent s !! c = reply_of p;
  ok_fresh : ∀ c, channels_made s ≤ c → replies_sent s !! c = None;
  ok_apart : ∀ id id' p p' c, phases !! id = Some p → phases !! id' = Some p' →
    channel_of p = Some c → channel_of p' = Some c → id = id'
}.

(** What a task knows: the phase of a question that it alone may move on, the channel of one it asked. *)
Inductive QToken := Own (id : string) (p : Phase) | Asked (id : string) (c : Sender).

#[export] Instance QuestionReply_eq_dec : EqDecision QuestionReply.
Proof. solve_decision. Defined.
#[export] Instance QuestionReply_countable : Countable QuestionReply.
Proof.
  refine (inj_countable' (fun r => match r with Answers a => inl a | Rejected => inr true | Cancelled => inr false end)
    (fun x => match x with inl a => Answers a | inr true => Rejected | inr false => Cancelled end) _).
  by intros [].
Defined.
#[export] Instance Phase_eq_dec : EqDecision Phase.
Proof. solve_decision. Defined.
#[export] Instance Phase_countable : Countable Phase.
Proof.
  refine (inj_countable' (fun p => match p with
      | Drawn => (0, 0, None) | Opened c => (1, c, None) | Registered c => (2, c, None)
      | Pending c => (3, c, None) | Taken c => (4, c, None) | Delivered c r => (5, c, Some r) end)
    (fun x => match x with
      | (1, c, _) => Opened c | (2, c, _) => Registered c | (3, c, _) => Pending c | (4, c, _) => Taken c
      | (5, c, Some r) => Delivered c r | _ => Drawn end) _).
  by intros [].
Defined.
#[export] Instance QToken_eq_dec : EqDecision QToken.
Proof. solve_decision. Defined.
#[export] Instance QToken_countable : Countable QToken.
Proof.
  refine (inj_countable' (fun t => match t with Own id p => inl (id, p) | Asked id c => inr (id, c) end)
    (fun x => match x with inl (id, p) => Own id p | inr (id, c) => Asked id c end) _).
  by intros [].
Defined.

Definition tokens_ok (phases : gmap string Phase) (Ω : gset QToken) : Prop :=
  (∀ id p, Own id p ∈ Ω → phases !! id = Some p ∧ is_pending p = false) ∧
  (∀ id c, Asked id c ∈ Ω → phases !! id ≫= open_channel = Some c).

Definition registry_inv s (Ω : gset QToken) : Prop := ∃ phases, phases_ok s phases ∧ tokens_ok phases Ω.

Lemma registry_inv_new : registry_inv registry_new ∅.
Proof.
  exists ∅. split; [|split; set_solver]. split; cbn.
  - intros id r. by rewrite lookup_empty.
  - intros id r. by rewrite lookup_empty.
  - intros id. rewrite lookup_empty. by intros [].
  - intros id. by rewrite !lookup_empty.
  - intros id p c. by rewrite lookup_empty.
  - intros c _. by rewrite lookup_empty.
  - intros id id' p p' c. by rewrite lookup_empty.
Qed.

(** ** Steps that concern no question *)

Definition keeps (f : RuntimeControlRegistry → RuntimeControlRegistry) : Prop :=
  ∀ s Ω, registry_inv s Ω → registry_inv (f s) Ω.

Lemma keeps_same f :
  (∀ s, executions (f s) = executions s ∧ question_waiters (f s) = question_waiters s ∧
        channels_made (f s) = channels_made s ∧ replies_sent (f s) = replies_sent s ∧
        uuids_drawn (f s) = uuids_drawn s) → keeps f.
Proof.
  intros Hf s Ω (phases & [] & Htok). exists phases. split; [|done].
  destruct (Hf s) as (He & Hw & Hc & Hr & Hu). by split; rewrite ?He, ?Hw, ?Hc, ?Hr, ?Hu.
Qed.

Lemma keeps_read_clock : keeps read_clock.
Proof. by apply keeps_same. Qed.
Lemma keeps_call_back ctx : keeps (call_back ctx).
Proof. by apply keeps_same. Qed.
Lemma keeps_scheduler_tokens g : keeps (fun s => set_scheduler_tokens (g s) s).
Proof. by apply keeps_same. Qed.
Lemma keeps_execution_tokens g : keeps (fun s => set_execution_tokens (g s) s).
Proof. by apply keeps_same. Qed.
Lemma keeps_cancel_token t : keeps (cancel_token t).
Proof. by apply keeps_same. Qed.

(** Records may come, change and go as long as they stay identified and no question is made up. *)
Definition records_from s (m : gmap string ExecutionRecord) : Prop :=
  ∀ id r, m !! id = Some r → identified (uuids_drawn s) id r ∧
    (ex_kind r = Question → ∃ r0, executions s !! id = Some r0 ∧ ex_kind r0 = Question).

Lemma inv_executions s m Ω : registry_inv s Ω → records_from s m → registry_inv (set_executions m s) Ω.
Proof.
  intros (phases & [Hr Hq Hd Hw Hc Hf Ha] & Htok) Hm. exists phases. split; [|done]. split; cbn; try done.
  - intros id r Hid. by apply Hm in Hid as [? _].
  - intros id r Hid Hk. apply Hm in Hid as [_ Hid]. destruct (Hid Hk) as (r0 & H0 & Hk0). by eapply Hq.
Qed.

Lemma inv_record s Ω id r : registry_inv s Ω → executions s !! id = Some r → identified (uuids_drawn s) id r.
Proof. intros (phases & Hok & _). by apply (ok_records s phases Hok). Qed.

Lemma records_from_self s Ω : registry_inv s Ω → records_from s (executions s).
Proof. intros HI id r Hr. split; [by eapply inv_record|]. intros Hk. by exists r. Qed.

Lemma records_from_sub s m m' : records_from s m → m' ⊆ m → records_from s m'.
Proof. intros Hm Hsub id r Hr. apply Hm. by eapply lookup_weaken. Qed.

(** A record that takes over the identity of one under the same id. *)
Definition same_identity (r r' : ExecutionRecord) : Prop :=
  ex_id r' = ex_id r ∧ ex_kind r' = ex_kind r ∧ ex_session_id r' = ex_session_id r ∧
  (ex_kind r = Question → ex_metadata r' = ex_metadata r).

Lemma identified_same drawn id r r' : identified drawn id r → same_identity r r' → identified drawn id r'.
Proof.
  intros [Hid Hk] (Hi & Hkk & Hs & Hm). split; [congruence|]. rewrite Hkk.
  destruct (ex_kind r); rewrite ?Hs; try done.
  destruct Hk as (n & info & Hn & Hq & Hmeta & Hrest). exists n, info. rewrite Hm by done. done.
Qed.

Lemma records_from_change s m id r r' :
  records_from s m → m !! id = Some r → same_identity r r' → records_from s (<[id := r']> m).
Proof.
  intros Hm Hr Hsame id' r0 H0. destruct (decide (id = id')) as [<-|Hne].
  - rewrite lookup_insert_eq in H0. injection H0 as <-. destruct (Hm id r Hr) as [Hi Hq].
    split; [by eapply identified_same|]. destruct Hsame as (_ & -> & _). exact Hq.
  - rewrite lookup_insert_ne in H0 by done. by apply Hm.
Qed.

Lemma records_from_new s m r :
  records_from s m → identified (uuids_drawn s) (ex_id r) r → ex_kind r ≠ Question →
  records_from s (<[ex_id r := r]> m).
Proof.
  intros Hm Hr Hk id' r0 H0. destruct (decide (ex_id r = id')) as [<-|Hne].
  - rewrite lookup_insert_eq in H0. by injection H0 as <-.
  - rewrite lookup_insert_ne in H0 by done. by apply Hm.
Qed.

(** ** Tasks that concern no question *)

(** Such a task neither needs nor gives tokens; its result satisfies [R]. *)
Definition returns {A} (t : Task RuntimeControlRegistry A) (R : A → Prop) : Prop :=
  ∀ O (Q : A → gset QToken → Prop), (∀ a, R a → Q a O) → wp registry_inv t O Q.
Definition plain {A} (t : Task RuntimeControlRegistry A) : Prop := returns t (fun _ => True).

Lemma returns_done {A} (a : A) (R : A → Prop) : R a → returns (Done a) R.
Proof. intros HR O Q HQ. by apply HQ. Qed.
Lemma returns_bind {A B} (t : Task _ A) (k : A → Task _ B) (R : A → Prop) (R' : B → Prop) :
  returns t R → (∀ a, R a → returns (k a) R') → returns (task_bind t k) R'.
Proof. intros Ht Hk O Q HQ. apply wp_bind, Ht. intros a Ha. by apply (Hk a Ha). Qed.
Lemma plain_then {A B} (t : Task _ A) (k : A → Task _ B) : plain t → (∀ a, plain (k a)) → plain (task_bind t k).
Proof. intros Ht Hk. eapply returns_bind; [exact Ht|]. intros a _. apply Hk. Qed.
Lemma plain_observe {A} (f : _ → A) : plain (observe f).
Proof. intros O Q HQ. apply (wp_observe registry_inv (fun _ => True)); [done|]. intros a _. by apply HQ. Qed.
Lemma plain_section {A} (f : _ → A * _) : keeps (fun s => (f s).2) → plain (section f).
Proof. intros Hf O Q HQ. apply (wp_section registry_inv (fun _ => True)); [exact Hf|done|]. intros a _. by apply HQ. Qed.
Lemma plain_modify f : keeps f → plain (modify f).
Proof. intros Hf. apply plain_section. exact Hf. Qed.
Lemma plain_done {A} (a : A) : plain (Done a).
Proof. by apply returns_done. Qed.
Lemma plain_for {A} (f : A → Task _ unit) xs : (∀ x, plain (f x)) → plain (task_for f xs).
Proof.
  intros Hf. induction xs as [|x xs IH]; [apply plain_done|]. cbn [task_for]. apply plain_then; [apply Hf|]. by intros _.
Qed.

Create HintDb tasks.
#[local] Hint Resolve plain_done plain_then plain_observe plain_section plain_modify plain_for
  keeps_read_clock keeps_call_back keeps_scheduler_tokens keeps_execution_tokens keeps_cancel_token : tasks.

Lemma plain_now : plain now_millis.
Proof. unfold now_millis. auto with tasks. Qed.
Lemma plain_notify ctx : plain (notify_topology_changed ctx).
Proof. unfold notify_topology_changed. auto with tasks. Qed.
#[local] Hint Resolve plain_now plain_notify : tasks.

Lemma plain_upsert r :
  (∀ drawn, identified drawn (ex_id r) r) → ex_kind r ≠ Question → plain (upsert_execution r).
Proof.
  intros Hr Hk. unfold upsert_execution. apply plain_then; [|auto with tasks]. apply plain_modify.
  intros s Ω HI. apply inv_executions; [done|]. apply records_from_self in HI as Hself.
  destruct (executions s !! ex_id r) as [old|]; apply records_from_new; try done. by apply Hr.
Qed.

Lemma plain_change id change :
  (∀ s Ω r, registry_inv s Ω → executions s !! id = Some r →
     same_identity r (change (clock (clock_reads s)) r)) →
  plain (section (change_execution id change)).
Proof.
  intros Hsame. apply plain_section. intros s Ω HI. unfold change_execution.
  destruct (executions s !! id) as [r|] eqn:Hr; cbn; [|done]. apply keeps_read_clock.
  apply inv_executions; [done|]. eapply records_from_change; [by eapply records_from_self|exact Hr|eauto].
Qed.

Lemma same_retired now r : same_identity r (retired now r).
Proof. by repeat split. Qed.
Lemma same_patched now patch r : ex_kind r ≠ Question → same_identity r (patched now patch r).
Proof. intros Hk. by repeat split. Qed.

Lemma plain_finish id : plain (finish_execution id).
Proof.
  unfold finish_execution. apply plain_then; [|intros []; auto with tasks].
  apply plain_change. intros s Ω r _ _. apply same_retired.
Qed.

Lemma plain_update k x patch : k ≠ Question → plain (update_execution (id_prefix k +:+ x) patch).
Proof.
  intros Hk. unfold update_execution. apply plain_then; [|intros []; auto with tasks].
  apply plain_change. intros s Ω r HI Hr. apply same_patched.
  eapply inv_record, identified_kind in HI; [|exact Hr]. congruence.
Qed.

Lemma plain_cleanup session_id : plain (cleanup_done_executions session_id).
Proof.
  apply plain_modify. intros s Ω HI. apply inv_executions; [done|].
  eapply records_from_sub; [by eapply records_from_self|]. apply map_filter_subseteq.
Qed.
#[local] Hint Resolve plain_finish plain_cleanup : tasks.

Lemma plain_set_status session_id status : plain (set_session_run_status session_id status).
Proof.
  assert (∀ status waiting_on recent_event metadata, plain
    (await! started_at := now_millis in await! updated_at := now_millis in
     upsert_execution (prompt_run_record session_id status waiting_on recent_event started_at updated_at metadata)))
    as Hupsert.
  { intros. apply plain_then; [auto with tasks|]. intros t1. apply plain_then; [auto with tasks|]. intros t2.
    by apply plain_upsert. }
  destruct status; [apply plain_then; auto with tasks|apply Hupsert..].
Qed.

Lemma plain_register_run session_id token label : plain (register_scheduler_run session_id token label).
Proof. do 3 (apply plain_then; [auto with tasks|intros ?]). by apply plain_upsert. Qed.

Lemma plain_request_cancel session_id : plain (request_scheduler_cancel session_id).
Proof.
  apply plain_then; [auto with tasks|]. intros [token|]; [|auto with tasks].
  apply plain_then; [auto with tasks|]. intros _. apply plain_then; [|auto with tasks].
  by apply (plain_update SchedulerRun).
Qed.

Lemma retire_records_from s now ids m :
  records_from s m → records_from s (retire_records now ids m).2.
Proof.
  intros Hm. unfold retire_records.
  enough (∀ acc, records_from s acc.2 → records_from s (foldl (retire_record now) acc ids).2) as H' by by apply H'.
  clear m Hm. induction ids as [|id ids IH]; intros acc Hm; cbn; [done|].
  apply IH. unfold retire_record. destruct (acc.2 !! id) as [r|] eqn:Hr; [|done].
  destruct (is_done r); [done|]. eapply records_from_change; [done|exact Hr|apply same_retired].
Qed.

Lemma plain_finish_run session_id : plain (finish_scheduler_run session_id).
Proof.
  apply plain_then; [auto with tasks|]. intros _. apply plain_then.
  - apply plain_section. intros s Ω HI. unfold retire_subtree.
    destruct (retire_records _ _ _) as [changed m] eqn:Hm. cbn. apply keeps_read_clock, inv_executions; [done|].
    replace m with (retire_records (clock (clock_reads s)) (hash_items (retire_descendants (size (executions s))
      session_id (hash_values (executions s)) {[scheduler_execution_id session_id]})) (executions s)).2
      by by rewrite Hm.
    by eapply retire_records_from, records_from_self.
  - intros [retired_ids changed]. do 2 (apply plain_then; [auto with tasks|intros ?]). auto with tasks.
Qed.

Lemma plain_register_node session_id path : plain (register_scheduler_node session_id path).
Proof.
  do 2 (apply plain_then; [auto with tasks|intros ?]). apply plain_then.
  - apply plain_upsert; [|done]. intros drawn. split; [done|]. by exists path.
  - intros _. by apply (plain_update SchedulerRun).
Qed.

Lemma plain_register_tool tool_call_id session_id tool_name parent_id stage_id token :
  plain (register_tool_call_with_token tool_call_id session_id tool_name parent_id stage_id token).
Proof.
  apply plain_then; [destruct token; auto with tasks|]. intros _.
  do 2 (apply plain_then; [auto with tasks|intros ?]).
  apply plain_upsert; [|done]. intros drawn. split; [done|]. by exists tool_call_id.
Qed.

Lemma plain_finish_tool tool_call_id : plain (finish_tool_call tool_call_id).
Proof. apply plain_then; auto with tasks. Qed.

(** ** Steps of a question *)

(** The phase of one question changes, and with it what the registry holds of that question. *)
Lemma phases_move s s' phases id p' :
  phases_ok s phases →
  (∃ n, n < uuids_drawn s' ∧ id = question_id n) →
  uuids_drawn s ≤ uuids_drawn s' → channels_made s ≤ channels_made s' →
  (∀ id' r, executions s' !! id' = Some r → identified (uuids_drawn s') id' r ∧
     (ex_kind r = Question → if decide (id' = id) then is_pending p' = true else executions s !! id' = Some r)) →
  (∀ id', question_waiters s' !! id' = if decide (id' = id) then waiter_of p' else question_waiters s !! id') →
  (∀ c, channel_of p' = Some c → c < channels_made s' ∧ replies_sent s' !! c = reply_of p') →
  (∀ id' q c, id' ≠ id → phases !! id' = Some q → channel_of q = Some c →
     replies_sent s' !! c = replies_sent s !! c ∧ channel_of p' ≠ Some c) →
  (∀ c, channels_made s' ≤ c → replies_sent s' !! c = None) →
  phases_ok s' (<[id := p']> phases).
Proof.
  intros [Hr Hq Hd Hw Hc Hf Ha] Hid Hdrawn Hmade Hex Hwait Hch Hothers Hfresh. split.
  - intros id' r Hr'. by apply Hex.
  - intros id' r Hr' Hk. apply Hex in Hr' as [_ Hr']. specialize (Hr' Hk). destruct (decide (id' = id)) as [->|Hne].
    + exists p'. by rewrite lookup_insert_eq.
    + rewrite lookup_insert_ne by done. by eapply Hq.
  - intros id' Hsome. destruct (decide (id' = id)) as [->|Hne]; [done|].
    rewrite lookup_insert_ne in Hsome by done. destruct (Hd id' Hsome) as (n & Hn & ->). exists n. split; [lia|done].
  - intros id'. rewrite Hwait. destruct (decide (id' = id)) as [->|Hne]; [by rewrite lookup_insert_eq|].
    by rewrite lookup_insert_ne.
  - intros id' q c Hphase Hq'. destruct (decide (id' = id)) as [->|Hne].
    + rewrite lookup_insert_eq in Hphase. injection Hphase as <-. by apply Hch.
    + rewrite lookup_insert_ne in Hphase by done. destruct (Hothers id' q c Hne Hphase Hq') as [-> _].
      destruct (Hc id' q c Hphase Hq') as [? ->]. split; [lia|done].
  - done.
  - intros i j q q' c Hi Hj Hq1 Hq2. destruct (decide (i = id)) as [->|Hni], (decide (j = id)) as [->|Hnj]; [done|..].
    + rewrite lookup_insert_eq in Hi. rewrite lookup_insert_ne in Hj by done. injection Hi as <-.
      by destruct (Hothers j q' c Hnj Hj Hq2).
    + rewrite lookup_insert_eq in Hj. rewrite lookup_insert_ne in Hi by done. injection Hj as <-.
      by destruct (Hothers i q c Hni Hi Hq1).
    + rewrite lookup_insert_ne in Hi by done. rewrite lookup_insert_ne in Hj by done. by eapply (Ha i j).
Qed.

(** The channel of one question is not that of another. *)
Lemma other_channel s phases id p id' q c :
  phases_ok s phases → phases !! id = Some p → phases !! id' = Some q → id' ≠ id →
  channel_of q = Some c → channel_of p ≠ Some c.
Proof. intros Hok Hp Hq Hne Hc Hpc. apply Hne. symmetry. by eapply (ok_apart s phases Hok id id' p q c). Qed.

(** The tokens of the others after a question moved on: they neither own it nor lose its channel. *)
Lemma tokens_after phases Ω id p' :
  tokens_ok phases Ω → (∀ p, Own id p ∉ Ω) →
  (∀ c, phases !! id ≫= open_channel = Some c → open_channel p' = Some c) →
  tokens_ok (<[id := p']> phases) Ω.
Proof.
  intros [Hown Hask] Hno Hch. split.
  - intros id' p Hp. destruct (decide (id' = id)) as [->|Hne]; [by apply Hno in Hp|].
    rewrite lookup_insert_ne by done. by apply Hown.
  - intros id' c Hc. apply Hask in Hc. destruct (decide (id' = id)) as [->|Hne].
    + rewrite lookup_insert_eq. by apply Hch.
    + by rewrite lookup_insert_ne.
Qed.

Lemma tokens_add phases Ω id p :
  tokens_ok phases Ω → phases !! id = Some p → is_pending p = false → tokens_ok phases ({[Own id p]} ∪ Ω).
Proof. intros [Hown Hask] Hp Hn. split; [|set_solver]. intros id' q. rewrite elem_of_union, elem_of_singleton. intros [[= -> ->]|Hq]; auto. Qed.

Lemma tokens_sub phases Ω Ω' : tokens_ok phases Ω → Ω' ⊆ Ω → tokens_ok phases Ω'.
Proof. intros [Hown Hask] Hs. split; eauto. Qed.

Lemma owned phases Ω id p : tokens_ok phases ({[Own id p]} ∪ Ω) → phases !! id = Some p ∧ is_pending p = false.
Proof. intros [Hown _]. apply Hown. set_solver. Qed.

(** A task that owns a question moves it on to a phase that it owns again. *)
Lemma wp_move {A} (f : RuntimeControlRegistry → A * RuntimeControlRegistry) id p (next : A → Phase) O Q :
  (∀ s phases, phases_ok s phases → phases !! id = Some p →
     phases_ok (f s).2 (<[id := next (f s).1]> phases)) →
  (∀ a, next a ≠ p ∧ is_pending (next a) = false ∧
     (∀ c, open_channel p = Some c → open_channel (next a) = Some c)) →
  Own id p ∉ O →
  (∀ a, Own id (next a) ∉ O → Q a ({[Own id (next a)]} ∪ O)) →
  wp registry_inv (section f) ({[Own id p]} ∪ O) Q.
Proof.
  intros Hf Hnext HO HQ s F HF (phases & Hok & Htok).
  rewrite <- union_assoc_L in Htok. apply owned in Htok as Hp. destruct Hp as [Hp Hpend].
  destruct (Hnext (f s).1) as (Hne & Hnp & Hch).
  assert (∀ q, Own id q ∉ O ∪ F) as Hno.
  { intros q Hq. destruct (decide (q = p)) as [->|Hqp]; [set_solver|].
    destruct Htok as [Hown _]. destruct (Hown id q) as [Hq' _]; [set_solver|]. congruence. }
  assert (tokens_ok phases (O ∪ F)) as Htok' by (eapply tokens_sub; [exact Htok|set_solver]).
  exists ({[Own id (next (f s).1)]} ∪ O). split_and!.
  - set_solver.
  - exists (<[id := next (f s).1]> phases). split; [by apply Hf|]. rewrite <- union_assoc_L. apply tokens_add; [|by rewrite lookup_insert_eq|done].
    apply tokens_after; [done..|]. rewrite Hp. exact Hch.
  - cbn. apply HQ. set_solver.
Qed.

(** While a question is not open, its id has no record. *)
Lemma no_record s phases id p :
  phases_ok s phases → phases !! id = Some p → is_pending p = false → executions s !! id = None.
Proof.
  intros Hok Hp Hn. destruct (executions s !! id) as [r|] eqn:Hr; [|done]. exfalso.
  destruct (ok_drawn s phases Hok id) as (n & _ & Hid); [by eexists|].
  pose proof (ok_records s phases Hok id r Hr) as Hi. rewrite Hid in Hi.
  apply (identified_kind _ _ Question) in Hi.
  destruct (ok_questions s phases Hok id r Hr Hi) as (q & Hq & Hpend). congruence.
Qed.

(** [phases_move] where only the question's own waiter, channel and phase change. *)
Lemma phases_advance s s' phases id p p' :
  phases_ok s phases → phases !! id = Some p → is_pending p = false →
  executions s' = executions s → uuids_drawn s' = uuids_drawn s → channels_made s ≤ channels_made s' →
  (∀ id', question_waiters s' !! id' = if decide (id' = id) then waiter_of p' else question_waiters s !! id') →
  (∀ c, channel_of p' = Some c → c < channels_made s' ∧ replies_sent s' !! c = reply_of p') →
  (∀ id' q c, id' ≠ id → phases !! id' = Some q → channel_of q = Some c →
     replies_sent s' !! c = replies_sent s !! c ∧ channel_of p' ≠ Some c) →
  (∀ c, channels_made s' ≤ c → replies_sent s' !! c = None) →
  phases_ok s' (<[id := p']> phases).
Proof.
  intros Hok Hp Hn Hex Hu Hmade Hw Hc Hothers Hf. eapply phases_move; try done.
  - rewrite Hu. apply (ok_drawn s phases Hok). by eexists.
  - by rewrite Hu.
  - rewrite Hex, Hu. intros id' r Hr. split; [by apply (ok_records s phases Hok)|]. intros _.
    destruct (decide (id' = id)) as [->|Hne]; [|done]. by rewrite (no_record s phases id p) in Hr.
Qed.

Lemma waiters_own s phases id p p' :
  phases_ok s phases → phases !! id = Some p → waiter_of p' = waiter_of p →
  ∀ id', question_waiters s !! id' = if decide (id' = id) then waiter_of p' else question_waiters s !! id'.
Proof.
  intros Hok Hp Hpp id'. destruct (decide (id' = id)) as [->|Hne]; [|done].
  rewrite (ok_waiters s phases Hok), Hp, Hpp. done.
Qed.

Lemma wp_draw (Q : string → gset QToken → Prop) :
  (∀ n, Q (question_id n) {[Own (question_id n) Drawn]}) →
  wp registry_inv (section (fun s => ("question_" +:+ uuid (uuids_drawn s), draw_uuid s))) ∅ Q.
Proof.
  intros HQ s F _ (phases & Hok & Htok). rewrite union_empty_l_L in Htok. cbn [fst snd].
  fold (question_id (uuids_drawn s)). set (id := question_id (uuids_drawn s)).
  assert (phases !! id = None) as Hnone.
  { destruct (phases !! id) eqn:Hp; [|done]. destruct (ok_drawn s phases Hok id) as (n & Hn & Hid); [by eexists|].
    apply question_id_inj in Hid. lia. }
  assert (∀ p, Own id p ∉ F) as Hno by (intros p Hp; apply Htok in Hp as [Hp _]; congruence).
  exists {[Own id Drawn]}. split; [set_solver|]. split; [|apply HQ].
  exists (<[id := Drawn]> phases). split.
  - eapply phases_move; cbn; try done.
    + exists (uuids_drawn s). split; [lia|done].
    + lia.
    + intros id' r Hr. split; [eapply identified_later; [|by apply (ok_records s phases Hok)]; lia|].
      intros Hk. destruct (decide (id' = id)) as [->|Hne]; [|done].
      destruct (ok_questions s phases Hok id r Hr Hk) as (q & Hq & _). congruence.
    + intros id'. destruct (decide (id' = id)) as [->|Hne]; [|done]. by rewrite (ok_waiters s phases Hok), Hnone.
    + apply (ok_fresh s phases Hok).
  - apply tokens_add; [|by rewrite lookup_insert_eq|done]. apply tokens_after; [done..|]. by rewrite Hnone.
Qed.

Lemma wp_channel id Q :
  (∀ c, Q c ({[Own id (Opened c)]})) →
  wp registry_inv (section (fun s => (channels_made s, make_channel s))) {[Own id Drawn]} Q.
Proof.
  intros HQ. rewrite <- (union_empty_r_L {[Own id Drawn]}).
  apply (wp_move _ id Drawn Opened); [|done|set_solver|].
  - intros s phases Hok Hp. eapply phases_advance; cbn; try done; [lia|..].
    + by apply (waiters_own s phases id Drawn (Opened (channels_made s))).
    + intros c [= <-]. split; [lia|]. by apply (ok_fresh s phases Hok).
    + intros id' q c Hne Hq Hc. destruct (ok_channels s phases Hok id' q c Hq Hc) as [Hlt _].
      split; [done|]. intros [= <-]. lia.
    + intros c Hc. apply (ok_fresh s phases Hok). lia.
  - intros c _. rewrite union_empty_r_L. apply HQ.
Qed.

Lemma wp_waiter id c Q :
  Q tt {[Own id (Registered c)]} →
  wp registry_inv (modify (fun s => set_question_waiters (<[id := c]> (question_waiters s)) s))
    {[Own id (Opened c)]} Q.
Proof.
  intros HQ. rewrite <- (union_empty_r_L {[Own id (Opened c)]}).
  apply (wp_move _ id (Opened c) (fun _ => Registered c)); [|done|set_solver|].
  - intros s phases Hok Hp. eapply phases_advance; cbn; try done.
    + intros id'. destruct (decide (id' = id)) as [->|Hne]; [by rewrite lookup_insert_eq|].
      by rewrite lookup_insert_ne.
    + intros c' [= <-]. by apply (ok_channels s phases Hok id (Opened c)).
    + intros id' q c' Hne Hq Hc. split; [done|]. by eapply (other_channel s phases id (Opened c)).
    + apply (ok_fresh s phases Hok).
  - intros [] _. by rewrite union_empty_r_L.
Qed.

(** The record of a question that is complete; the task keeps the channel it will wait on. *)
Lemma wp_open r n c info Q :
  ex_id r = question_id n → ex_kind r = Question → ex_metadata r = Some (info_to_value info) →
  qi_id info = question_id n → qi_session_id info = ex_session_id r →
  Q tt {[Asked (question_id n) c]} →
  wp registry_inv (upsert_execution r) {[Own (question_id n) (Registered c)]} Q.
Proof.
  intros Hid Hk Hmeta Hinfo Hsess HQ. unfold upsert_execution. apply wp_bind.
  intros s F HF (phases & Hok & Htok). apply owned in Htok as Hp. destruct Hp as [Hp _].
  set (id := question_id n) in *.
  assert (executions s !! id = None) as Hnone by by eapply no_record.
  assert (∀ p, Own id p ∉ F) as Hno.
  { intros p Hin. destruct Htok as [Hown _]. destruct (Hown id p) as [Hp' _]; [set_solver|].
    assert (p = Registered c) as -> by congruence. set_solver. }
  assert (∀ c', Asked id c' ∉ F) as Hnoask.
  { intros c' Hin. destruct Htok as [_ Hask]. specialize (Hask id c'). rewrite Hp in Hask.
    assert (None = Some c') by (apply Hask; set_solver). done. }
  cbn [snd fst]. rewrite Hid, Hnone, Hid. fold id.
  destruct (ok_drawn s phases Hok id) as (m & Hm & Hidm); [by eexists|].
  exists {[Asked id c]}. split; [set_solver|]. split.
  - exists (<[id := Pending c]> phases). split.
    + eapply phases_move; cbn; try done.
      * by exists m.
      * intros id' r' Hr'. destruct (decide (id' = id)) as [->|Hne].
        -- rewrite lookup_insert_eq in Hr'. injection Hr' as <-. split; [|done].
           split; [done|]. rewrite Hk. exists m, info. by rewrite Hmeta, <- Hidm.
        -- rewrite lookup_insert_ne in Hr' by done. split; [by apply (ok_records s phases Hok)|done].
      * by apply (waiters_own s phases id (Registered c) (Pending c)).
      * intros c' [= <-]. by apply (ok_channels s phases Hok id (Registered c)).
      * intros id' q c' Hne Hq Hc. split; [done|]. by eapply (other_channel s phases id (Registered c)).
      * apply (ok_fresh s phases Hok).
    + assert (tokens_ok (<[id := Pending c]> phases) F) as [Hown Hask].
      { apply tokens_after; [eapply tokens_sub; [exact Htok|set_solver]|done|]. by rewrite Hp. }
      split; [set_solver|]. intros id' c'. rewrite elem_of_union, elem_of_singleton. intros [[= -> ->]|Hin]; [|by apply Hask].
      by rewrite lookup_insert_eq.
  - cbn [wp task_bind section modify]. apply plain_notify. by intros [] _.
Qed.

Lemma wp_register_question session_id questions (Q : QuestionInfo * Sender → gset QToken → Prop) :
  (∀ info c, Q (info, c) {[Asked (qi_id info) c]}) →
  wp registry_inv (register_question session_id questions) ∅ Q.
Proof.
  intros HQ. unfold register_question. apply wp_bind, wp_draw. intros n.
  apply wp_bind, plain_observe. intros [parent_id stage_id] _.
  apply wp_bind, plain_now. intros started_at _. apply wp_bind, plain_now. intros updated_at _.
  apply wp_bind, wp_channel. intros c. apply wp_bind, wp_waiter.
  apply wp_bind.
  apply (wp_open _ n c (question_info (question_id n) session_id questions)); try done.
  apply (HQ (question_info (question_id n) session_id questions)).
Qed.

(** Whoever takes the record of a question owns it from then on. *)
Lemma wp_take id O (Q : option QuestionInfo → gset QToken → Prop) :
  Q None O →
  (∀ info c, qi_id info = id → Own id (Taken c) ∉ O → Q (Some info) ({[Own id (Taken c)]} ∪ O)) →
  wp registry_inv (take_question id) O Q.
Proof.
  intros HQ0 HQ. unfold take_question. apply wp_bind. intros s F HF (phases & Hok & Htok).
  assert (∃ O', O' ## F ∧ registry_inv s (O' ∪ F) ∧ wp registry_inv (Done (S := RuntimeControlRegistry) None) O' Q)
    as Hnone by (exists O; split_and!; [done|by exists phases|done]).
  destruct (executions s !! id) as [r|] eqn:Hr; [|exact Hnone].
  case_bool_decide as Hk; [exact Hnone|].
  pose proof (ok_records s phases Hok id r Hr) as [Hrid Hid]. rewrite Hk in Hid.
  destruct Hid as (n & info & Hn & Hidn & Hmeta & Hinfo & _).
  assert (question_record_to_info r = Some info) as ->.
  { unfold question_record_to_info. rewrite bool_decide_eq_false_2 by (rewrite Hk; by intros []). rewrite Hmeta. cbn.
    apply info_reads_back. }
  destruct (ok_questions s phases Hok id r Hr Hk) as (p & Hp & Hpend). destruct p as [| | |c| |]; try done.
  assert (∀ q, Own id q ∉ O ∪ F) as Hno.
  { intros q Hq. destruct Htok as [Hown _]. destruct (Hown id q Hq) as [Hq' Hnp]. assert (q = Pending c) as -> by congruence. done. }
  exists ({[Own id (Taken c)]} ∪ O). split; [set_solver|]. split.
  - exists (<[id := Taken c]> phases). split.
    + eapply phases_move; cbn; try done.
      * by exists n.
      * intros id' r'. rewrite lookup_delete_Some. intros [Hne Hr']. split; [by apply (ok_records s phases Hok)|].
        by rewrite decide_False by done.
      * by apply (waiters_own s phases id (Pending c) (Taken c)).
      * intros c' [= <-]. by apply (ok_channels s phases Hok id (Pending c)).
      * intros id' q c' Hne Hq Hc. split; [done|]. by eapply (other_channel s phases id (Pending c)).
      * apply (ok_fresh s phases Hok).
    + rewrite <- union_assoc_L. apply tokens_add; [|by rewrite lookup_insert_eq|done]. apply tokens_after; [done..|].
      by rewrite Hp.
  - cbn [wp fst snd task_bind section]. apply wp_bind, plain_notify. intros [] _. cbn. apply HQ; [done|]. set_solver.
Qed.

Lemma wp_reply id c reply O (Q : unit → gset QToken → Prop) :
  Own id (Taken c) ∉ O →
  (Own id (Delivered c reply) ∉ O → Q tt ({[Own id (Delivered c reply)]} ∪ O)) →
  wp registry_inv (reply_to_waiter id reply) ({[Own id (Taken c)]} ∪ O) Q.
Proof.
  intros HO HQ. apply (wp_move _ id (Taken c) (fun _ => Delivered c reply)); [| |done|by intros []].
  - intros s phases Hok Hp. cbn. assert (question_waiters s !! id = Some c) as Hw.
    { by rewrite (ok_waiters s phases Hok), Hp. }
    rewrite Hw. destruct (ok_channels s phases Hok id (Taken c) c Hp eq_refl) as [Hlt _].
    eapply phases_advance; cbn; try done.
    + intros id'. destruct (decide (id' = id)) as [->|Hne]; [by rewrite lookup_delete_eq|].
      by rewrite lookup_delete_ne.
    + intros c' [= <-]. by rewrite lookup_insert_eq.
    + intros id' q c' Hne Hq Hc. pose proof (other_channel s phases id (Taken c) id' q c' Hok Hp Hq Hne Hc) as Hcc.
      split; [|done]. apply lookup_insert_ne. intros ->. by apply Hcc.
    + intros c' Hc'. rewrite lookup_insert_ne by lia. by apply (ok_fresh s phases Hok).
  - intros _. split_and!; [done|done|]. by intros c' [= <-].
Qed.

Lemma wp_resolve id reply O (Q : option QuestionInfo → gset QToken → Prop) :
  Q None O →
  (∀ info c, qi_id info = id → Own id (Delivered c reply) ∉ O → Q (Some info) ({[Own id (Delivered c reply)]} ∪ O)) →
  wp registry_inv (resolve_question id reply) O Q.
Proof.
  intros HQ0 HQ. apply wp_bind, wp_take; [exact HQ0|]. intros info c Hinfo HO.
  apply wp_bind, wp_reply; [done|]. intros HO'. by apply HQ.
Qed.

Lemma wp_cancel_all ids O (Q : list QuestionInfo → gset QToken → Prop) :
  (∀ infos O', O ⊆ O' → (∀ info, info ∈ infos → ∃ c, Own (qi_id info) (Delivered c Cancelled) ∈ O') → Q infos O') →
  wp registry_inv (task_collect cancel_question ids) O Q.
Proof.
  revert O Q. induction ids as [|id ids IH]; intros O Q HQ; cbn [task_collect].
  - apply HQ; [done|]. set_solver.
  - apply wp_bind, wp_resolve.
    + apply wp_bind, IH. intros infos O' Hsub Hall. by apply HQ.
    + intros info c <- Hno. apply wp_bind, IH. intros infos O' Hsub Hall. apply HQ; [set_solver|].
      intros i [-> |Hi]%elem_of_cons; [|by apply Hall]. exists c. set_solver.
Qed.

Lemma wp_cancel_execution execution_id (Q : option ExecutionKind → gset QToken → Prop) :
  (∀ k O, Q k O) → wp registry_inv (cancel_execution execution_id) ∅ Q.
Proof.
  intros HQ. unfold cancel_execution. apply wp_bind.
  apply (wp_observe registry_inv (fun found => ∀ k sid, found = Some (k, sid) → ∃ x, execution_id = id_prefix k +:+ x)).
  { intros s Ω HI k sid. destruct (executions s !! execution_id) as [r|] eqn:Hr; [|done]. intros [= <- <-].
    by eapply identified_prefix, inv_record. }
  intros [[kind session_id]|] Hfound; [|apply HQ]. apply wp_bind.
  destruct (Hfound kind session_id eq_refl) as [x ->]. destruct kind.
  - apply HQ.
  - apply wp_bind, plain_request_cancel. intros b _. apply HQ.
  - apply wp_bind, plain_request_cancel. intros b _. apply HQ.
  - apply wp_bind, plain_observe. intros token _. apply wp_bind.
    assert (plain (match token with Some token => modify (cancel_token token) | None => Done tt end)) as Hp
      by (destruct token; auto with tasks).
    apply Hp. intros [] _. apply (plain_update ToolCall); [done|]. intros [] _. apply HQ.
  - apply wp_bind, wp_resolve; intros; apply HQ.
Qed.

(** ** Everything that may be asked of the registry *)

Inductive Request :=
| SetStatus (session_id : string) (status : SessionRunStatus)
| RegisterRun (session_id : string) (token : Token) (label : option string)
| RequestCancel (session_id : string)
| FinishRun (session_id : string)
| RegisterNode (session_id path : string)
| UpdateNode (session_id path : string) (patch : ExecutionPatch)
| UpdateRun (session_id : string) (patch : ExecutionPatch)
| FinishNode (session_id path : string)
| RegisterTool (tool_call_id session_id tool_name : string) (parent_id stage_id : option string) (token : option Token)
| FinishTool (tool_call_id : string)
| CancelExecution (execution_id : string)
| Ask (session_id : string) (questions : list QuestionDef)
| Resolve (id : string) (reply : QuestionReply)
| CancelQuestions (session_id : string).

Inductive Response :=
| Nothing
| WasRunning (running : bool)
| CancelledKind (kind : option ExecutionKind)
| AskedOn (info : QuestionInfo) (rx : Sender)
| ResolvedAs (info : option QuestionInfo)
| CancelledAll (infos : list QuestionInfo).

Definition respond {A} (to_response : A → Response) (t : Task RuntimeControlRegistry A) :
    Task RuntimeControlRegistry Response := await! a := t in Done (to_response a).
Definition nothing {A} (_ : A) : Response := Nothing.

Definition handler (request : Request) : Task RuntimeControlRegistry Response :=
  match request with
  | SetStatus session_id status => respond nothing (set_session_run_status session_id status)
  | RegisterRun session_id token label => respond nothing (register_scheduler_run session_id token label)
  | RequestCancel session_id => respond WasRunning (request_scheduler_cancel session_id)
  | FinishRun session_id => respond nothing (finish_scheduler_run session_id)
  | RegisterNode session_id path => respond nothing (register_scheduler_node session_id path)
  | UpdateNode session_id path patch => respond nothing (update_scheduler_node session_id path patch)
  | UpdateRun session_id patch => respond nothing (update_scheduler_run session_id patch)
  | FinishNode session_id path => respond nothing (finish_scheduler_node session_id path)
  | RegisterTool tool_call_id session_id tool_name parent_id stage_id token =>
      respond nothing (register_tool_call_with_token tool_call_id session_id tool_name parent_id stage_id token)
  | FinishTool tool_call_id => respond nothing (finish_tool_call tool_call_id)
  | CancelExecution execution_id => respond CancelledKind (cancel_execution execution_id)
  | Ask session_id questions => respond (fun ir => AskedOn ir.1 ir.2) (register_question session_id questions)
  | Resolve id reply => respond ResolvedAs (resolve_question id reply)
  | CancelQuestions session_id => respond CancelledAll (cancel_questions_for_session session_id)
  end.

(** What a task that has finished with a response owns. *)
Definition promised (request : Request) (response : Response) (O : gset QToken) : Prop :=
  match request, response with
  | Ask _ _, AskedOn info rx => Asked (qi_id info) rx ∈ O
  | Resolve id reply, ResolvedAs (Some info) => qi_id info = id ∧ ∃ c, Own id (Delivered c reply) ∈ O
  | CancelQuestions _, CancelledAll infos =>
      ∀ info, info ∈ infos → ∃ c, Own (qi_id info) (Delivered c Cancelled) ∈ O
  | _, _ => True
  end.

Lemma plain_respond {A} request (to_response : A → Response) t :
  plain t → (∀ a O, promised request (to_response a) O) →
  wp registry_inv (respond to_response t) ∅ (promised request).
Proof. intros Ht Hp. apply wp_bind, Ht. intros a _. apply Hp. Qed.

Lemma handler_ok request : wp registry_inv (handler request) ∅ (promised request).
Proof.
  destruct request; cbn [handler].
  1-10: apply plain_respond; [|done].
  - apply plain_set_status.
  - apply plain_register_run.
  - apply plain_request_cancel.
  - apply plain_finish_run.
  - apply plain_register_node.
  - by apply (plain_update SchedulerNode).
  - by apply (plain_update SchedulerRun).
  - apply plain_finish.
  - apply plain_register_tool.
  - apply plain_finish_tool.
  - apply wp_bind, wp_cancel_execution. done.
  - apply wp_bind, wp_register_question. intros info c. cbn. set_solver.
  - apply wp_bind, wp_resolve; [done|]. intros info c Hinfo _. cbn. split; [done|]. exists c. set_solver.
  - apply wp_bind, wp_bind, plain_observe. intros ids _. apply wp_cancel_all. intros infos O' _ Hall. exact Hall.
Qed.

(** The pool of all requests keeps the invariant. *)
Lemma requests_ok requests ts s :
  pool_runs (handler <$> requests, registry_new) (ts, s) → pool_ok registry_inv (promised <$> requests) (ts, s).
Proof.
  apply pool_runs_ok, pool_start; [apply registry_inv_new|].
  apply Forall2_fmap, Forall_Forall2_diag, Forall_forall. intros request _. apply handler_ok.
Qed.

(** A task that has finished with a response, what it owns, and what the phases say of it. *)
Lemma finished_owns requests ts s :
  pool_ok registry_inv (promised <$> requests) (ts, s) →
  ∃ (Os : list (gset QToken)) phases, phases_ok s phases ∧ tokens_ok phases (⋃ Os) ∧
    (∀ i j O O' t, Os !! i = Some O → Os !! j = Some O' → t ∈ O → t ∈ O' → i = j) ∧
    (∀ i request response, requests !! i = Some request → ts !! i = Some (Done response) →
       ∃ O, Os !! i = Some O ∧ O ⊆ ⋃ Os ∧ promised request response O).
Proof.
  intros (Os & (phases & Hok & Htok) & Hap & Hl & _ & Hwp). exists Os, phases. split_and!; [done..| |].
  - intros i j O O' t Hi Hj Ht Ht'. destruct (decide (i = j)) as [|Hne]; [done|]. by destruct (Hap i j O O' Hi Hj Hne t).
  - intros i request response Hr Ht. destruct (lookup_lt_is_Some_2 Os i) as [O HO].
    { rewrite Hl. by eapply lookup_lt_Some. }
    exists O. split_and!; [done| |].
    + intros t HtO. apply elem_of_union_list. exists O. split; [by eapply list_elem_of_lookup_2|done].
    + eapply (Hwp i (Done response)); [done|done|]. by rewrite list_lookup_fmap, Hr.
Qed.

(** An open question takes any reply. *)
Lemma resolve_open s phases id c r reply :
  phases_ok s phases → phases !! id ≫= open_channel = Some c → executions s !! id = Some r →
  ∃ info, (run (resolve_question id reply) s).1 = Some info ∧
    replies_sent (run (resolve_question id reply) s).2 !! c = Some reply.
Proof.
  intros Hok Hc Hr. destruct (phases !! id) as [p|] eqn:Hp; [|done]. cbn in Hc.
  destruct (is_pending p) eqn:Hpend; [|by rewrite (no_record s phases id p) in Hr].
  destruct p as [| | |c'| |]; try done. injection Hc as ->.
  destruct (ok_drawn s phases Hok id) as (m & _ & Hidm); [by eexists|].
  pose proof (ok_records s phases Hok id r Hr) as Hi. rewrite Hidm in Hi.
  pose proof (identified_kind _ _ Question _ Hi) as Hk. rewrite <- Hidm in Hi. destruct Hi as [_ Hid]. rewrite Hk in Hid.
  destruct Hid as (n & info & _ & _ & Hmeta & _ & _).
  assert (question_record_to_info r = Some info) as Hinfo.
  { unfold question_record_to_info. rewrite bool_decide_eq_false_2 by (rewrite Hk; by intros []). rewrite Hmeta. cbn.
    apply info_reads_back. }
  exists info. unfold resolve_question, take_question. cbn -[question_record_to_info]. rewrite Hr.
  rewrite bool_decide_eq_false_2 by (rewrite Hk; by intros []). rewrite Hinfo. cbn.
  rewrite (ok_waiters s phases Hok), Hp. cbn. split; [done|]. by rewrite lookup_insert_eq.
Qed.

(** C25. However registrations, runs, answers, rejections and cancellations interleave: a reply that was
    accepted is what its question's asker finds on its channel; no two replies to one question
    are accepted; and a question whose record is there takes any reply. *)
Theorem accepted_replies_reach_the_asker requests ts s :
  pool_runs (handler <$> requests, registry_new) (ts, s) →
  (∀ i id reply info, requests !! i = Some (Resolve id reply) → ts !! i = Some (Done (ResolvedAs (Some info))) →
     qi_id info = id ∧
     ∃ c, replies_sent s !! c = Some reply ∧
       ∀ j session_id questions asked rx, requests !! j = Some (Ask session_id questions) →
         ts !! j = Some (Done (AskedOn asked rx)) → qi_id asked = id → rx = c) ∧
  (∀ i j id reply reply' info info', requests !! i = Some (Resolve id reply) →
     ts !! i = Some (Done (ResolvedAs (Some info))) → requests !! j = Some (Resolve id reply') →
     ts !! j = Some (Done (ResolvedAs (Some info'))) → i = j) ∧
  (∀ j session_id questions asked rx r reply, requests !! j = Some (Ask session_id questions) →
     ts !! j = Some (Done (AskedOn asked rx)) → executions s !! qi_id asked = Some r →
     ∃ info, (run (resolve_question (qi_id asked) reply) s).1 = Some info ∧
       replies_sent (run (resolve_question (qi_id asked) reply) s).2 !! rx = Some reply).
Proof.
  intros Hruns%requests_ok%finished_owns. destruct Hruns as (Os & phases & Hok & [Hown Hask] & Hap & Hfin).
  assert (∀ i id reply info, requests !! i = Some (Resolve id reply) →
    ts !! i = Some (Done (ResolvedAs (Some info))) → ∃ O c, Os !! i = Some O ∧ qi_id info = id ∧
      Own id (Delivered c reply) ∈ O ∧ phases !! id = Some (Delivered c reply)) as Hdel.
  { intros i id reply info Hi Hd. destruct (Hfin i _ _ Hi Hd) as (O & HO & Hsub & Hid & c & Hc).
    exists O, c. split_and!; [done..|]. by apply (Hown id (Delivered c reply)), Hsub. }
  assert (∀ j session_id questions asked rx, requests !! j = Some (Ask session_id questions) →
    ts !! j = Some (Done (AskedOn asked rx)) → phases !! qi_id asked ≫= open_channel = Some rx) as Hasked.
  { intros j session_id questions asked rx Hj Hd. destruct (Hfin j _ _ Hj Hd) as (O & HO & Hsub & Hrx).
    by apply Hask, Hsub. }
  split_and!.
  - intros i id reply info Hi Hd. destruct (Hdel i id reply info Hi Hd) as (O & c & HO & Hid & Hin & Hp).
    split; [done|]. exists c. split; [by destruct (ok_channels s phases Hok id _ c Hp eq_refl)|].
    intros j session_id questions asked rx Hj Hdj Heq. pose proof (Hasked j _ _ asked rx Hj Hdj) as Hrx.
    rewrite Heq, Hp in Hrx. cbn in Hrx. congruence.
  - intros i j id reply reply' info info' Hi Hdi Hj Hdj.
    destruct (Hdel i id reply info Hi Hdi) as (O & c & HO & _ & Hin & Hp).
    destruct (Hdel j id reply' info' Hj Hdj) as (O' & c' & HO' & _ & Hin' & Hp').
    rewrite Hp in Hp'. injection Hp' as <- <-. by eapply Hap.
  - intros j session_id questions asked rx r reply Hj Hdj Hr. eapply resolve_open; eauto.
Qed.

End questions.

(** A pool may run one of its tasks to the end. *)
Lemma pool_run_task {S A} (ts : list (Task S A)) s i t :
  ts !! i = Some t → pool_runs (ts, s) (<[i := Done (run t s).1]> ts, (run t s).2).
Proof.
  revert ts s. induction t as [a|B f k IH]; intros ts s Hi; cbn.
  - rewrite list_insert_id by done. apply rtc_refl.
  - eapply rtc_l; [by eapply pool_advance|]. specialize (IH (f s).1 (<[i := k (f s).1]> ts) (f s).2).
    rewrite list_insert_insert in IH. rewrite decide_True in IH by done. apply IH.
    apply list_lookup_insert_eq. by eapply lookup_lt_Some.
Qed.

(** ** An example *)

#[export] Instance demo_env : RuntimeEnv.
Proof.
  refine {| clock n := Z.of_nat n; uuid n := dec_string (N.of_nat n); hash_entries V m := map_to_list m;
            hash_items X := elements X |}.
  - intros m n Hmn%dec_string_inj. lia.
  - done.
  - done.
Defined.

Definition demo_question : QuestionDef :=
  {| qd_question := "Overwrite?"; qd_header := None; qd_options := [{| qo_label := "yes"; qo_description := None |}];
     qd_multiple := false |}.
Definition demo_requests : list Request :=
  [Ask "s" [demo_question]; Resolve "question_0" (Answers [["yes"]])].
Definition demo_asked : RuntimeControlRegistry := (run (handler (Ask "s" [demo_question])) registry_new).2.
Definition demo_answered : RuntimeControlRegistry :=
  (run (handler (Resolve "question_0" (Answers [["yes"]]))) demo_asked).2.
Definition demo_info : QuestionInfo := question_info "question_0" "s" [demo_question].

Lemma demo_requests_run :
  pool_runs (handler <$> demo_requests, registry_new)
    ([Done (AskedOn demo_info 0); Done (ResolvedAs (Some demo_info))], demo_answered).
Proof.
  etrans; [apply (pool_run_task _ _ 0); reflexivity|]. etrans; [apply (pool_run_task _ _ 1); reflexivity|].
  match goal with |- rtc _ ?p ?q => assert (p = q) as ->; [|apply rtc_refl] end.
  vm_compute. reflexivity.
Qed.

Lemma accepted_replies_reach_the_asker_witness :
  ∃ c, replies_sent demo_answered !! c = Some (Answers [["yes"]]) ∧ 0 = c.
Proof.
  destruct (proj1 (accepted_replies_reach_the_asker demo_requests _ _ demo_requests_run) 1 "question_0"
    (Answers [["yes"]]) demo_info eq_refl eq_refl) as (_ & c & Hc & Hasker).
  exists c. split; [exact Hc|]. by apply (Hasker 0 "s" [demo_question] demo_info 0).
Defined.
