(* ===== verification/RuntimeControlProps.v ===== *)
(** * What the registry says of a session, and what a run leaves behind

    The run status that was set is the one that is read; a scheduler run that is
    finished takes its whole subtree of records with it, and nothing else; a
    cancellation reaches the token of what it cancels. *)

From S2P Require Import Prelude Json Tasks RuntimeControl RuntimeQuestions.
From stdpp Require Import options.

Section registry.
Context `{RuntimeEnv}.
Implicit Types (s : RuntimeControlRegistry).

(** The states that requests lead to, interleaved in any way. *)
Definition reachable s : Prop := ∃ requests ts, pool_runs (handler <$> requests, registry_new) (ts, s).

(** States in which records and questions are in order. *)
Definition sound s : Prop := ∃ Ω, registry_inv s Ω.

Lemma reachable_sound s : reachable s → sound s.
Proof. intros (requests & ts & (Os & HI & _)%requests_ok). by eexists. Qed.

Lemma plain_sound {A} (t : Task _ A) s : plain t → sound s → sound (run_state t s).
Proof.
  intros Ht [Ω HI].
  destruct (wp_run registry_inv t Ω (fun _ _ => True) s) as (Ω' & HI' & _); [by apply Ht|done|by eexists].
Qed.

Definition all_identified s : Prop :=
  ∃ drawn, ∀ id r, executions s !! id = Some r → identified drawn id r.

Lemma sound_identified s : sound s → all_identified s.
Proof. intros [Ω HI]. exists (uuids_drawn s). intros id r. by apply (inv_record s Ω). Qed.

Lemma elem_of_hash_values {V} (m : gmap string V) v : v ∈ hash_values m ↔ ∃ id, m !! id = Some v.
Proof.
  rewrite hash_values_perm, list_elem_of_fmap. split.
  - intros ([id w] & -> & Hin). exists id. by apply elem_of_map_to_list in Hin.
  - intros [id Hid]. exists (id, v). by rewrite elem_of_map_to_list.
Qed.

(** ** Run statuses *)

(** The prompt record of a session decides its status. *)
Definition status_in s session_id : SessionRunStatus :=
  match executions s !! prompt_execution_id session_id with
  | Some r => status_of_record r
  | None => Idle
  end.

Lemma fold_statuses (l : list ExecutionRecord) session_id status (m : gmap string SessionRunStatus) :
  (∀ r, r ∈ l → ex_session_id r = session_id → status_of_record r = status) →
  (m !! session_id = Some status ∨ ∃ r, r ∈ l ∧ ex_session_id r = session_id) →
  foldl (fun m r => <[ex_session_id r := status_of_record r]> m) m l !! session_id = Some status.
Proof.
  revert m. induction l as [|r l IH]; intros m Hl Hin; cbn.
  - destruct Hin as [Hm|(r & Hr & _)]; [done|]. by apply not_elem_of_nil in Hr.
  - apply IH; [intros r' Hr'; apply Hl; by right|]. destruct (decide (ex_session_id r = session_id)) as [He|Hne].
    + left. rewrite <- He at 1. rewrite lookup_insert_eq. f_equal. apply Hl; [left|done].
    + rewrite lookup_insert_ne by done. destruct Hin as [|(r' & [->|Hr']%elem_of_cons & Hs)]; eauto. done.
Qed.

Lemma fold_no_status (l : list ExecutionRecord) session_id (m : gmap string SessionRunStatus) :
  (∀ r, r ∈ l → ex_session_id r ≠ session_id) →
  foldl (fun m r => <[ex_session_id r := status_of_record r]> m) m l !! session_id = m !! session_id.
Proof.
  revert m. induction l as [|r l IH]; intros m Hl; cbn; [done|].
  rewrite IH by (intros r' Hr'; apply Hl; by right). apply lookup_insert_ne, Hl. by left.
Qed.

Lemma done_is_idle r : is_done r = true → status_of_record r = Idle.
Proof. unfold is_done, status_of_record. intros ->%bool_decide_eq_true. done. Qed.

(** Whatever the order of the map, the listing agrees with the prompt records. *)
Lemma run_status_in s session_id :
  all_identified s → (run (session_run_status session_id) s).1 = status_in s session_id.
Proof.
  intros [drawn Hid]. unfold session_run_status, session_run_statuses, status_in. cbn.
  unfold collect_statuses. set (l := filter _ _).
  assert (∀ r, r ∈ l → executions s !! prompt_execution_id (ex_session_id r) = Some r ∧ is_done r = false) as Hl.
  { intros r. unfold l. rewrite list_elem_of_filter, elem_of_hash_values. intros [Hf [id Hr]].
    apply andb_prop_elim in Hf as [Hk Hd]. apply bool_decide_spec in Hk. apply negb_prop_elim in Hd.
    pose proof (Hid id r Hr) as [_ Hi]. rewrite Hk in Hi. rewrite <- Hi. split; [done|]. by destruct (is_done r). }
  destruct (executions s !! prompt_execution_id session_id) as [r|] eqn:Hr.
  - pose proof (Hid _ r Hr) as Hi. pose proof (identified_kind drawn r PromptRun _ Hi) as Hk.
    destruct Hi as [_ Hi]. rewrite Hk in Hi. assert (ex_session_id r = session_id) as Hs.
    { unfold prompt_execution_id in Hi. cbn in Hi. by injection Hi. }
    destruct (is_done r) eqn:Hd.
    + rewrite fold_no_status; [by rewrite lookup_empty, done_is_idle|]. intros r' Hr' Hs'.
      apply Hl in Hr' as [Hr' Hd']. rewrite Hs', Hr in Hr'. congruence.
    + rewrite (fold_statuses _ _ (status_of_record r)); [done| |].
      * intros r' Hr' Hs'. apply Hl in Hr' as [Hr' _]. rewrite Hs', Hr in Hr'. by injection Hr' as ->.
      * right. exists r. split; [|done]. unfold l. rewrite list_elem_of_filter, elem_of_hash_values.
        split; [|by eexists]. rewrite bool_decide_eq_true_2 by done. by rewrite Hd.
  - rewrite fold_no_status; [by rewrite lookup_empty|]. intros r' Hr' Hs'. apply Hl in Hr' as [Hr' _].
    rewrite Hs', Hr in Hr'. done.
Qed.

(** What the registry can store of a status. *)
Definition is_i64_opt (o : option Z) : Prop := match o with Some z => is_i64 z | None => True end.
Definition storable (status : SessionRunStatus) : Prop :=
  match status with
  | RetryAt attempt _ next => (attempt < 2 ^ 32)%N ∧ is_i64 next
  | Blocked _ at_ | Sleeping _ at_ => is_i64_opt at_
  | _ => True
  end.

Lemma wait_metadata_reads_back reason key at_ r :
  ex_metadata r = Some (wait_metadata reason key at_) → key ≠ "reason" → is_i64_opt at_ →
  metadata_member as_str "reason" r = reason ∧ metadata_member as_i64 key r = at_.
Proof.
  intros Hr Hk Hat. unfold metadata_member. rewrite Hr. unfold wait_metadata.
  destruct reason as [text|], at_ as [z|]; cbn -[json_i64 as_i64];
    repeat (rewrite lookup_insert_eq || rewrite lookup_insert_ne by done || rewrite lookup_empty);
    cbn -[json_i64 as_i64]; by rewrite ?as_i64_json.
Qed.

(** A prompt record that is stored decides its session's status, and no other's. *)
Lemma upsert_status r session_id s :
  ex_id r = prompt_execution_id session_id →
  status_in (run_state (upsert_execution r) s) session_id = status_of_record r ∧
  ∀ other, other ≠ session_id → status_in (run_state (upsert_execution r) s) other = status_in s other.
Proof.
  intros Hr. unfold status_in. cbn. rewrite Hr. split.
  - destruct (executions s !! prompt_execution_id session_id); cbn; rewrite Hr, lookup_insert_eq; done.
  - intros other Hne. assert (ex_id (match executions s !! prompt_execution_id session_id with
      | Some existing => with_started_at (ex_started_at existing) r | None => r end) =
      prompt_execution_id session_id) as -> by by destruct (executions s !! _).
    rewrite lookup_insert_ne; [done|]. unfold prompt_execution_id. cbn. intros [= ?]. done.
Qed.

Lemma finish_status session_id s :
  all_identified s →
  status_in (run_state (set_session_run_status session_id Idle) s) session_id = Idle ∧
  ∀ other, other ≠ session_id → status_in (run_state (set_session_run_status session_id Idle) s) other = status_in s other.
Proof.
  intros [drawn Hid]. unfold run_state, set_session_run_status. rewrite run_bind.
  set (s1 := (run (finish_execution (prompt_execution_id session_id)) s).2).
  assert (∀ id r, executions s1 !! id = Some r → id = prompt_execution_id session_id → is_done r = true) as Hdone.
  { intros id r Hr ->. unfold s1, finish_execution in Hr. rewrite run_bind in Hr. cbn in Hr. unfold change_execution in Hr.
    destruct (executions s !! prompt_execution_id session_id) as [r0|] eqn:Hr0; cbn in Hr.
    - rewrite lookup_insert_eq in Hr. by injection Hr as <-.
    - congruence. }
  assert (∀ id, id ≠ prompt_execution_id session_id → executions s1 !! id = executions s !! id) as Hother.
  { intros id Hne. unfold s1, finish_execution. rewrite run_bind. cbn. unfold change_execution.
    destruct (executions s !! prompt_execution_id session_id) as [r0|]; cbn; [|done]. by rewrite lookup_insert_ne. }
  unfold status_in. cbn. split.
  - destruct (filter _ _ !! _) as [r|] eqn:Hr; [|done]. apply map_lookup_filter_Some in Hr as [Hr _].
    apply done_is_idle. by eapply Hdone.
  - intros other Hne. assert (prompt_execution_id other ≠ prompt_execution_id session_id) as Hpid.
    { unfold prompt_execution_id. cbn. intros [= ?]. done. }
    rewrite map_lookup_filter, Hother by done. destruct (executions s !! prompt_execution_id other) as [r|] eqn:Hr; cbn; [|done].
    pose proof (Hid _ r Hr) as Hi. pose proof (identified_kind drawn r PromptRun _ Hi) as Hk.
    destruct Hi as [_ Hi]. rewrite Hk in Hi. assert (ex_session_id r = other) as Hs.
    { unfold prompt_execution_id in Hi. cbn in Hi. by injection Hi. }
    rewrite bool_decide_eq_false_2 by congruence. done.
Qed.

Lemma idle_is_done r : status_of_record r = Idle → is_done r = true.
Proof.
  unfold status_of_record, is_done. destruct (ex_status r); try done.
  by repeat case_bool_decide.
Qed.

Lemma has_prompt_run_in s session_id :
  (run (has_prompt_run session_id) s).1 = bool_decide (status_in s session_id ≠ Idle).
Proof.
  unfold status_in. cbn. destruct (executions s !! prompt_execution_id session_id) as [r|]; [|done].
  destruct (is_done r) eqn:Hd.
  - rewrite done_is_idle by done. by rewrite bool_decide_eq_false_2 by (intros Hn; by apply Hn).
  - rewrite bool_decide_eq_true_2; [done|]. intros Hi%idle_is_done. congruence.
Qed.

(** Every status but [Idle] is the upsert of a prompt record that reads as that status. *)
Lemma set_status_upserts session_id status s :
  storable status → status ≠ Idle →
  ∃ r, run_state (set_session_run_status session_id status) s =
         run_state (upsert_execution r) (read_clock (read_clock s)) ∧
       ex_id r = prompt_execution_id session_id ∧ status_of_record r = status.
Proof.
  intros Hst Hne. destruct status as [| | |attempt message next|reason recheck_at|reason wake_at]; [done|..];
    (eexists; split; [reflexivity|]; split; [reflexivity|]); [done|done|..].
  - destruct Hst as [Ha Hn]. unfold status_of_record, metadata_member. cbn -[json_u64 json_i64 as_u64 as_i64 N.modulo N.pow].
    repeat (rewrite lookup_insert_eq || rewrite lookup_insert_ne by done || rewrite lookup_singleton_eq).
    rewrite lookup_singleton_eq. cbn -[json_u64 json_i64 as_u64 as_i64 N.modulo N.pow].
    rewrite as_u64_json by lia. rewrite as_i64_json by done. cbn -[N.modulo N.pow]. by rewrite N.mod_small.
  - unfold status_of_record. cbn -[metadata_member wait_metadata].
    match goal with |- context [metadata_member as_str "reason" ?r] =>
      by destruct (wait_metadata_reads_back reason "recheck_at" recheck_at r eq_refl ltac:(done) Hst) as [-> ->] end.
  - unfold status_of_record. cbn -[metadata_member wait_metadata].
    match goal with |- context [metadata_member as_str "reason" ?r] =>
      by destruct (wait_metadata_reads_back reason "wake_at" wake_at r eq_refl ltac:(done) Hst) as [-> ->] end.
Qed.

(** Setting a status changes that of its session, and no other. *)
Lemma status_after s session_id status :
  sound s → storable status →
  let s' := run_state (set_session_run_status session_id status) s in
  sound s' ∧ status_in s' session_id = status ∧
  ∀ other, other ≠ session_id → status_in s' other = status_in s other.
Proof.
  intros Hs Hst s'. split; [by apply plain_sound; [apply plain_set_status|]|].
  destruct (decide (status = Idle)) as [->|Hne]; [by apply finish_status, sound_identified|].
  destruct (set_status_upserts session_id status s Hst Hne) as (r & Hrun & Hr & Hstatus).
  unfold s'. rewrite Hrun, <- Hstatus. exact (upsert_status r session_id (read_clock (read_clock s)) Hr).
Qed.

(** The run status that is set for a session is the one that is read, with the attempt, the times and the
    reasons it carries, and no other session's status changes; [has_prompt_run] says whether it is
    other than idle. *)
Lemma run_status_reads_back s session_id status :
  reachable s → storable status →
  let s' := run_state (set_session_run_status session_id status) s in
  (run (session_run_status session_id) s').1 = status ∧
  (∀ other, other ≠ session_id →
     (run (session_run_status other) s').1 = (run (session_run_status other) s).1) ∧
  (run (has_prompt_run session_id) s').1 = bool_decide (status ≠ Idle).
Proof.
  intros Hs%reachable_sound Hst s'. destruct (status_after s session_id status Hs Hst) as (Hs' & Hin & Hother).
  fold s' in Hs', Hin, Hother. apply sound_identified in Hs, Hs'.
  rewrite has_prompt_run_in, Hin, run_status_in by done. split_and!; [done| |done].
  intros other Hne. rewrite !run_status_in by done. by apply Hother.
Qed.

(** ** A scheduler run that is finished *)

(** The scheduler run of a session and what descends from it among the session's records. *)
Inductive descends (m : gmap string ExecutionRecord) (session_id : string) : string → Prop :=
| descends_root : descends m session_id (scheduler_execution_id session_id)
| descends_child id r parent :
    m !! id = Some r → ex_session_id r = session_id → ex_parent_id r = Some parent →
    descends m session_id parent → descends m session_id (ex_id r).

Section retire.
Context (session_id : string).
Implicit Types (X U : gset string) (records : list ExecutionRecord).

Lemma retire_children_grows records X : X ⊆ retire_children session_id records X.
Proof.
  unfold retire_children. revert X. induction records as [|r l IH]; intros X; cbn; [done|].
  etrans; [|apply IH]. destruct (_ && _); set_solver.
Qed.

Lemma retire_children_bound records X U :
  X ⊆ U →
  (∀ r parent, r ∈ records → ex_session_id r = session_id → ex_parent_id r = Some parent → parent ∈ U → ex_id r ∈ U) →
  retire_children session_id records X ⊆ U.
Proof.
  unfold retire_children. revert X. induction records as [|r l IH]; intros X HX HU; cbn; [done|].
  apply IH; [|intros; eapply HU; eauto; by right]. destruct (_ && _) eqn:Hb; [|done].
  apply andb_true_iff in Hb as [Hs Hp]. apply bool_decide_eq_true in Hs.
  destruct (ex_parent_id r) as [p|] eqn:Hpar; [|done]. apply bool_decide_eq_true in Hp.
  assert (ex_id r ∈ U) by (eapply HU; eauto; left). set_solver.
Qed.

Lemma retire_children_child records X r parent :
  r ∈ records → ex_session_id r = session_id → ex_parent_id r = Some parent → parent ∈ X →
  ex_id r ∈ retire_children session_id records X.
Proof.
  unfold retire_children. revert X. induction records as [|r' l IH]; intros X Hr Hs Hp HX; [by apply not_elem_of_nil in Hr|].
  cbn. apply elem_of_cons in Hr as [->|Hr].
  - rewrite bool_decide_eq_true_2, Hp, bool_decide_eq_true_2 by done. cbn.
    apply (retire_children_grows l). set_solver.
  - apply IH; try done. destruct (_ && _); set_solver.
Qed.

(** The loop stops at a set that is closed under children; it has as many rounds as it may need. *)
Lemma retire_descendants_closed records fuel X U :
  X ⊆ U →
  (∀ r parent, r ∈ records → ex_session_id r = session_id → ex_parent_id r = Some parent → parent ∈ U → ex_id r ∈ U) →
  size U ≤ size X + fuel →
  let R := retire_descendants fuel session_id records X in
  X ⊆ R ∧ retire_children session_id records R ⊆ R.
Proof.
  intros HXU HU. revert X HXU. induction fuel as [|fuel IH]; intros X HXU Hsize; cbn.
  - assert (X = U) as -> by (apply set_subseteq_size_eq; [done|lia]).
    assert (retire_children session_id records U = U) as HUU; [|by rewrite !HUU].
    apply set_eq_subseteq. split; [by apply retire_children_bound|apply retire_children_grows].
  - pose proof (retire_children_grows records X) as Hgrow. case_bool_decide as Heq.
    + assert (X = retire_children session_id records X) as HX by (apply set_subseteq_size_eq; [done|lia]).
      split; [exact Hgrow|]. by rewrite <- !HX.
    + destruct (IH (retire_children session_id records X)) as [H1 H2].
      * by apply retire_children_bound.
      * pose proof (subseteq_size _ _ Hgrow). lia.
      * split; [by etrans|done].
Qed.

Lemma retire_descendants_sound records fuel X (P : string → Prop) :
  (∀ id, id ∈ X → P id) →
  (∀ r parent, r ∈ records → ex_session_id r = session_id → ex_parent_id r = Some parent → P parent → P (ex_id r)) →
  ∀ id, id ∈ retire_descendants fuel session_id records X → P id.
Proof.
  intros HX HP. assert (∀ Y, (∀ id, id ∈ Y → P id) → ∀ id, id ∈ retire_children session_id records Y → P id) as Hpass.
  { unfold retire_children. clear X HX. induction records as [|r l IH]; intros Y HY id; cbn; [apply HY|].
    apply IH; [intros; eapply HP; eauto; by right|]. intros id' Hid'. destruct (_ && _) eqn:Hb; [|by apply HY].
    apply andb_true_iff in Hb as [Hs Hp]. apply bool_decide_eq_true in Hs.
    destruct (ex_parent_id r) as [p|] eqn:Hpar; [|done]. apply bool_decide_eq_true in Hp.
    apply elem_of_union in Hid' as [->%elem_of_singleton|Hid']; [|by apply HY].
    eapply HP; eauto. left. }
  revert X HX. induction fuel as [|fuel IH]; intros X HX id; cbn; [by apply Hpass|].
  case_bool_decide; [by apply Hpass|]. apply IH. by apply Hpass.
Qed.
End retire.

Lemma size_list_to_set_le (l : list string) : size (list_to_set l : gset string) ≤ length l.
Proof.
  induction l as [|x l IH]; cbn; [by rewrite size_empty|]. rewrite size_union_alt, size_singleton.
  pose proof (subseteq_size (list_to_set l ∖ {[x]}) (list_to_set (C := gset string) l) ltac:(set_solver)). lia.
Qed.

Lemma length_hash_values {V} (m : gmap string V) : length (hash_values m) = size m.
Proof. by rewrite hash_values_perm, length_fmap, length_map_to_list. Qed.

(** Whatever the order of the map, the loop finds what descends from the run, and it finds all of it. *)
Lemma retire_descendants_exact m session_id id :
  id ∈ retire_descendants (size m) session_id (hash_values m) {[scheduler_execution_id session_id]} ↔
  descends m session_id id.
Proof.
  split.
  - apply retire_descendants_sound.
    + intros x ->%elem_of_singleton. constructor.
    + intros r parent [k Hk]%elem_of_hash_values Hs Hp Hpar. by eapply descends_child.
  - set (root := scheduler_execution_id session_id).
    destruct (retire_descendants_closed session_id (hash_values m) (size m) {[root]}
      ({[root]} ∪ list_to_set (ex_id <$> hash_values m))) as [Hroot Hclosed].
    + set_solver.
    + intros r parent Hr _ _ _. apply elem_of_union. right. apply elem_of_list_to_set. by apply list_elem_of_fmap_2.
    + rewrite size_singleton, size_union_alt, size_singleton.
      pose proof (size_list_to_set_le (ex_id <$> hash_values m)) as Hle.
      rewrite length_fmap, length_hash_values in Hle.
      pose proof (subseteq_size (list_to_set (ex_id <$> hash_values m) ∖ {[root]})
        (list_to_set (C := gset string) (ex_id <$> hash_values m)) ltac:(set_solver)). lia.
    + induction 1 as [|x r parent Hr Hs Hp _ IH]; [set_solver|]. apply Hclosed.
      eapply retire_children_child; eauto. apply elem_of_hash_values. by eexists.
Qed.
Definition retire_unless_done (now : Z) (r : ExecutionRecord) : ExecutionRecord :=
  if is_done r then r else retired now r.

Lemma retire_unless_done_done now r : is_done (retire_unless_done now r) = true.
Proof. unfold retire_unless_done. by destruct (is_done r) eqn:Hd. Qed.

Lemma retire_records_map now ids m id :
  (retire_records now ids m).2 !! id = if decide (id ∈ ids) then retire_unless_done now <$> m !! id else m !! id.
Proof.
  unfold retire_records. generalize (@nil TopologyChangeContext) as l. revert m.
  induction ids as [|x ids IH]; intros m l; cbn; [done|].
  assert (∀ y, (retire_record now (l, m) x).2 !! y = if decide (y = x) then retire_unless_done now <$> m !! y else m !! y) as Hx.
  { intros y. unfold retire_record, retire_unless_done. cbn. destruct (decide (y = x)) as [->|Hne].
    - destruct (m !! x) as [r|] eqn:Hr; cbn; [|by rewrite Hr]. destruct (is_done r); cbn; [done|by rewrite lookup_insert_eq].
    - destruct (m !! x) as [r|]; cbn; [|done]. destruct (is_done r); cbn; [done|by rewrite lookup_insert_ne]. }
  destruct (retire_record now (l, m) x) as [l' m'] eqn:Hstep. cbn in Hx. rewrite IH.
  rewrite Hx. destruct (decide (id = x)) as [->|Hne].
  - rewrite (decide_True (P := x ∈ x :: ids)) by left. destruct (decide (x ∈ ids)); [|done].
    destruct (m !! x) as [r|]; cbn; [|done]. f_equal. unfold retire_unless_done at 1.
    by rewrite retire_unless_done_done.
  - destruct (decide (id ∈ ids)).
    + by rewrite decide_True by by right.
    + rewrite decide_False; [done|]. by intros [?|?]%elem_of_cons.
Qed.

(** The callbacks of a loop of notifications. *)
Lemma run_notifications ctxs s :
  (run (task_for notify_topology_changed ctxs) s).2 =
  foldl (fun s ctx => call_back ctx s) s ctxs.
Proof. by rewrite run_for. Qed.

Lemma call_backs_only_call_back ctxs s :
  let s' := foldl (fun s ctx => call_back ctx s) s ctxs in
  executions s' = executions s ∧ scheduler_tokens s' = scheduler_tokens s ∧
  execution_tokens s' = execution_tokens s ∧ question_waiters s' = question_waiters s ∧
  replies_sent s' = replies_sent s ∧ topology_changes s' = topology_changes s ++ ctxs.
Proof.
  revert s. induction ctxs as [|ctx ctxs IH]; intros s; cbn; [by rewrite app_nil_r|].
  destruct (IH (call_back ctx s)) as (-> & -> & -> & -> & -> & ->). cbn. by rewrite <- app_assoc.
Qed.

Definition subtree s session_id : gset string :=
  retire_descendants (size (executions s)) session_id (hash_values (executions s)) {[scheduler_execution_id session_id]}.

(** The state that finishing a run leaves. *)
Lemma run_finish_scheduler_run s session_id :
  let s' := run_state (finish_scheduler_run session_id) s in
  executions s' =
    filter (fun kr : string * ExecutionRecord => negb (bool_decide (ex_session_id kr.2 = session_id) && is_done kr.2))
      (retire_records (clock (clock_reads s)) (hash_items (subtree s session_id)) (executions s)).2 ∧
  execution_tokens s' = filter (fun kt : string * Token => kt.1 ∉ subtree s session_id) (execution_tokens s) ∧
  scheduler_tokens s' = delete session_id (scheduler_tokens s) ∧
  question_waiters s' = question_waiters s ∧ replies_sent s' = replies_sent s.
Proof.
  unfold run_state, finish_scheduler_run. rewrite run_bind. cbn [run modify section fst snd]. rewrite run_bind.
  set (s1 := set_scheduler_tokens _ s).
  set (ret := retire_records (clock (clock_reads s)) (hash_items (subtree s session_id)) (executions s)).
  assert (run (section (retire_subtree session_id)) s1 =
    ((subtree s session_id, ret.1), read_clock (set_executions ret.2 s1))) as ->.
  { cbn. unfold retire_subtree. change (retire_records _ _ _) with ret. by destruct ret. }
  cbn [fst snd]. rewrite run_bind. cbn [run section modify fst snd]. rewrite run_bind, run_notifications.
  set (s2 := set_execution_tokens _ _).
  destruct (call_backs_only_call_back ret.1 s2) as (He & Hst & Het & Hqw & Hrs & _). cbn.
  by rewrite He, Hst, Het, Hqw, Hrs.
Qed.

(** A record below a run, or the run's own, is of the run's session. *)
Lemma descends_session s session_id id r :
  all_identified s → executions s !! id = Some r → descends (executions s) session_id id → ex_session_id r = session_id.
Proof.
  intros [drawn Hid] Hr Hd. destruct Hd as [|id r' parent Hr' Hs' _ _].
  - pose proof (Hid _ r Hr) as Hi. pose proof (identified_kind drawn r SchedulerRun _ Hi) as Hk.
    destruct Hi as [_ Hi]. rewrite Hk in Hi. unfold scheduler_execution_id in Hi. cbn in Hi. by injection Hi.
  - destruct (Hid _ r' Hr') as [Hid' _]. rewrite Hid', Hr' in Hr. by injection Hr as <-.
Qed.

Lemma elem_of_subtree s session_id id : id ∈ hash_items (subtree s session_id) ↔ descends (executions s) session_id id.
Proof. rewrite hash_items_perm, elem_of_elements. apply retire_descendants_exact. Qed.

(** C26. Finishing a scheduler run removes, of the records of its session, those that descend from the run
    and those that are done, and no others; it drops the tokens of the run and of what
    descends from it.  It sends no reply: a question below the run loses its record, while
    its waiter stays. *)
Theorem finished_run_retires_its_subtree s session_id :
  reachable s →
  let s' := run_state (finish_scheduler_run session_id) s in
  (∀ id r, executions s' !! id = Some r ↔
     executions s !! id = Some r ∧
     ¬ (ex_session_id r = session_id ∧ (descends (executions s) session_id id ∨ is_done r = true))) ∧
  (∀ id token, execution_tokens s' !! id = Some token ↔
     execution_tokens s !! id = Some token ∧ ¬ descends (executions s) session_id id) ∧
  scheduler_tokens s' = delete session_id (scheduler_tokens s) ∧
  question_waiters s' = question_waiters s ∧ replies_sent s' = replies_sent s.
Proof.
  intros Hid%reachable_sound%sound_identified s'.
  destruct (run_finish_scheduler_run s session_id) as (He & Het & Hst & Hqw & Hrs). fold s' in He, Het, Hst, Hqw, Hrs.
  split_and!; [| |done..].
  - intros id r. rewrite He, map_lookup_filter_Some, retire_records_map. cbn.
    rewrite negb_True, andb_True, bool_decide_spec. destruct (decide (id ∈ hash_items (subtree s session_id))) as [Hin|Hnin].
    + rewrite elem_of_subtree in Hin. split.
      * intros [(r0 & Hr0 & ->)%fmap_Some Hf]. exfalso. apply Hf. rewrite retire_unless_done_done. split; [|done].
        unfold retire_unless_done. pose proof (descends_session s session_id id r0 Hid Hr0 Hin). by destruct (is_done r0).
      * intros [Hr Hn]. exfalso. apply Hn. split; [by eapply descends_session|by left].
    + rewrite elem_of_subtree in Hnin. destruct (is_done r) eqn:Hd; cbn; naive_solver.
  - intros id token. rewrite Het, map_lookup_filter_Some. cbn. unfold subtree. by rewrite retire_descendants_exact.
Qed.
End registry.

Lemma demo_reachable : reachable demo_asked.
Proof.
  exists [Ask "s" [demo_question]]. eexists. exact (pool_run_task (handler <$> [Ask "s" [demo_question]]) registry_new 0 _ eq_refl).
Qed.

Lemma finished_run_retires_its_subtree_witness :
  let s' := run_state (finish_scheduler_run "s") demo_asked in
  ∃ r, executions s' !! "question_0" = Some r ∧ ex_kind r = Question.
Proof.
  destruct (executions demo_asked !! "question_0") as [r|] eqn:Hr; [|vm_compute in Hr; discriminate].
  exists r. split; [|vm_compute in Hr; injection Hr as <-; reflexivity].
  apply (finished_run_retires_its_subtree demo_asked "s" demo_reachable). split; [exact Hr|].
  intros [_ [Hd|Hd]]; [|vm_compute in Hr; injection Hr as <-; vm_compute in Hd; discriminate].
  apply elem_of_subtree in Hd.
  assert (bool_decide ("question_0" ∈ hash_items (subtree demo_asked "s")) = false) as Hf by (vm_compute; reflexivity).
  apply bool_decide_eq_false in Hf. contradiction.
Defined.
