(* ===== verification/RuntimeState.v ===== *)
(** * What a session is doing right now

    [agendao-server-core/src/runtime_state.rs]: the projection of a session's activity
    that clients are shown.  Every mutator is a function on the state of one session;
    [RuntimeTelemetry] calls them under the lock of the store. *)

From S2P Require Import Prelude Json SessionTypes Tasks.
From stdpp Require Import options.

(** ** Data *)

Inductive RunStatus :=
| RunIdle | RunRunning | RunCompacting | WaitingOnTool | WaitingOnUser | RunCancelling | RunBlocked | RunSleeping.
#[export] Instance RunStatus_eq_dec : EqDecision RunStatus.
Proof. solve_decision. Defined.

Record ActiveToolSummary := { at_tool_call_id : string; at_tool_name : string; at_started_at : Z }.
Record PendingQuestionSummary := { pq_request_id : string; pq_questions : Value }.
Record PendingPermissionSummary := {
  pp_permission_id : string; pp_requested_at : Z; pp_tool : option string
}.
Record PendingSteeringMessageSummary := {
  ps_id : string; ps_owner_session_id : string; ps_created_at : Z; ps_source_session_id : option string;
  ps_deliver_at : string
}.
(** [SandboxExecutionSummary] of [agendao-api] *)
Record SandboxExecutionSummary := {
  se_execution_id : string; se_backend : string; se_profile_kind : string; se_plan_fingerprint : string;
  se_pid : option N
}.

Inductive InterruptPhase := NoInterrupt | InterruptIsRequested.
Inductive InterruptTarget := InterruptRun | InterruptStage.
Record InterruptRuntimeState := {
  in_phase : InterruptPhase; in_requested_at : option Z; in_target : option InterruptTarget
}.
Definition default_interrupt : InterruptRuntimeState :=
  {| in_phase := NoInterrupt; in_requested_at := None; in_target := None |}.

(** [ControlInputKind] and [ControlInputPhase] of [agendao-types] *)
Inductive ControlInputKind := Followup | Steering | Interrupt | PermissionInput.
Inductive ControlInputPhase := Ingress | Queued | Adopted | Consumed | Cleared.

Record SessionRuntimeState := {
  rs_session_id : string; run_status : RunStatus; current_message_id : option string;
  rs_usage : option SessionUsage; active_stage_id : option string; active_stage_count : N;
  active_tools : list ActiveToolSummary; pending_question : option PendingQuestionSummary;
  pending_permission : option PendingPermissionSummary; pending_followup_count : Z;
  pending_steering : list PendingSteeringMessageSummary; active_sandbox : list SandboxExecutionSummary;
  interrupt : InterruptRuntimeState
}.

Definition state_new (session_id : string) : SessionRuntimeState :=
  {| rs_session_id := session_id; run_status := RunIdle; current_message_id := None; rs_usage := None;
     active_stage_id := None; active_stage_count := 0; active_tools := []; pending_question := None;
     pending_permission := None; pending_followup_count := 0; pending_steering := []; active_sandbox := [];
     interrupt := default_interrupt |}.

Implicit Types (s : SessionRuntimeState).

(** *** Assignments to a field *)

Definition with_status v s : SessionRuntimeState :=
  {| rs_session_id := rs_session_id s; run_status := v; current_message_id := current_message_id s;
     rs_usage := rs_usage s; active_stage_id := active_stage_id s; active_stage_count := active_stage_count s;
     active_tools := active_tools s; pending_question := pending_question s;
     pending_permission := pending_permission s; pending_followup_count := pending_followup_count s;
     pending_steering := pending_steering s; active_sandbox := active_sandbox s; interrupt := interrupt s |}.
Definition with_message v s : SessionRuntimeState :=
  {| rs_session_id := rs_session_id s; run_status := run_status s; current_message_id := v;
     rs_usage := rs_usage s; active_stage_id := active_stage_id s; active_stage_count := active_stage_count s;
     active_tools := active_tools s; pending_question := pending_question s;
     pending_permission := pending_permission s; pending_followup_count := pending_followup_count s;
     pending_steering := pending_steering s; active_sandbox := active_sandbox s; interrupt := interrupt s |}.
Definition with_usage v s : SessionRuntimeState :=
  {| rs_session_id := rs_session_id s; run_status := run_status s; current_message_id := current_message_id s;
     rs_usage := v; active_stage_id := active_stage_id s; active_stage_count := active_stage_count s;
     active_tools := active_tools s; pending_question := pending_question s;
     pending_permission := pending_permission s; pending_followup_count := pending_followup_count s;
     pending_steering := pending_steering s; active_sandbox := active_sandbox s; interrupt := interrupt s |}.
Definition with_tools v s : SessionRuntimeState :=
  {| rs_session_id := rs_session_id s; run_status := run_status s; current_message_id := current_message_id s;
     rs_usage := rs_usage s; active_stage_id := active_stage_id s; active_stage_count := active_stage_count s;
     active_tools := v; pending_question := pending_question s;
     pending_permission := pending_permission s; pending_followup_count := pending_followup_count s;
     pending_steering := pending_steering s; active_sandbox := active_sandbox s; interrupt := interrupt s |}.
Definition with_question v s : SessionRuntimeState :=
  {| rs_session_id := rs_session_id s; run_status := run_status s; current_message_id := current_message_id s;
     rs_usage := rs_usage s; active_stage_id := active_stage_id s; active_stage_count := active_stage_count s;
     active_tools := active_tools s; pending_question := v;
     pending_permission := pending_permission s; pending_followup_count := pending_followup_count s;
     pending_steering := pending_steering s; active_sandbox := active_sandbox s; interrupt := interrupt s |}.
Definition with_permission v s : SessionRuntimeState :=
  {| rs_session_id := rs_session_id s; run_status := run_status s; current_message_id := current_message_id s;
     rs_usage := rs_usage s; active_stage_id := active_stage_id s; active_stage_count := active_stage_count s;
     active_tools := active_tools s; pending_question := pending_question s;
     pending_permission := v; pending_followup_count := pending_followup_count s;
     pending_steering := pending_steering s; active_sandbox := active_sandbox s; interrupt := interrupt s |}.
Definition with_followups v s : SessionRuntimeState :=
  {| rs_session_id := rs_session_id s; run_status := run_status s; current_message_id := current_message_id s;
     rs_usage := rs_usage s; active_stage_id := active_stage_id s; active_stage_count := active_stage_count s;
     active_tools := active_tools s; pending_question := pending_question s;
     pending_permission := pending_permission s; pending_followup_count := v;
     pending_steering := pending_steering s; active_sandbox := active_sandbox s; interrupt := interrupt s |}.
Definition with_steering v s : SessionRuntimeState :=
  {| rs_session_id := rs_session_id s; run_status := run_status s; current_message_id := current_message_id s;
     rs_usage := rs_usage s; active_stage_id := active_stage_id s; active_stage_count := active_stage_count s;
     active_tools := active_tools s; pending_question := pending_question s;
     pending_permission := pending_permission s; pending_followup_count := pending_followup_count s;
     pending_steering := v; active_sandbox := active_sandbox s; interrupt := interrupt s |}.
Definition with_sandbox v s : SessionRuntimeState :=
  {| rs_session_id := rs_session_id s; run_status := run_status s; current_message_id := current_message_id s;
     rs_usage := rs_usage s; active_stage_id := active_stage_id s; active_stage_count := active_stage_count s;
     active_tools := active_tools s; pending_question := pending_question s;
     pending_permission := pending_permission s; pending_followup_count := pending_followup_count s;
     pending_steering := pending_steering s; active_sandbox := v; interrupt := interrupt s |}.
Definition with_interrupt v s : SessionRuntimeState :=
  {| rs_session_id := rs_session_id s; run_status := run_status s; current_message_id := current_message_id s;
     rs_usage := rs_usage s; active_stage_id := active_stage_id s; active_stage_count := active_stage_count s;
     active_tools := active_tools s; pending_question := pending_question s;
     pending_permission := pending_permission s; pending_followup_count := pending_followup_count s;
     pending_steering := pending_steering s; active_sandbox := active_sandbox s; interrupt := v |}.

(** ** The protocol updates *)

Inductive RuntimeProtocolUpdate :=
| PermissionRequested (permission_id : string) (requested_at : Z) (tool : option string)
| PermissionResolved
| SteeringEnqueued (summary : PendingSteeringMessageSummary)
| SteeringCleared
| InterruptRequested (requested_at : Z) (target : InterruptTarget)
| ControlInputTransition (kind : ControlInputKind) (phase : ControlInputPhase) (at_ : Z).

(** [x.saturating_sub(1)] on an unsigned integer. *)
Definition saturating_pred (x : Z) : Z := Z.max 0 (x - 1).

Definition apply_protocol_update (update : RuntimeProtocolUpdate) s : SessionRuntimeState :=
  match update with
  | PermissionRequested permission_id requested_at tool =>
      let s := with_status WaitingOnUser s in
      with_permission
        (Some {| pp_permission_id := permission_id; pp_requested_at := requested_at; pp_tool := tool |}) s
  | PermissionResolved =>
      let s := with_permission None s in
      if bool_decide (run_status s = WaitingOnUser) && match pending_question s with None => true | Some _ => false end
      then with_status RunRunning s else s
  | SteeringEnqueued summary => with_steering (pending_steering s ++ [summary]) s
  | SteeringCleared => with_steering [] s
  | InterruptRequested requested_at target =>
      let s := with_status RunCancelling s in
      with_interrupt {| in_phase := InterruptIsRequested; in_requested_at := Some requested_at;
                        in_target := Some target |} s
  | ControlInputTransition kind phase _ =>
      match kind, phase with
      | Followup, Queued => with_followups (u64_saturating_add (pending_followup_count s) 1) s
      | Followup, Adopted => with_followups (saturating_pred (pending_followup_count s)) s
      | Followup, Consumed => s
      | Followup, Cleared => with_followups 0%Z s
      | _, _ => s
      end
  end.

(** ** The mutators *)

Definition mark_running (message_id : option string) s : SessionRuntimeState :=
  with_interrupt default_interrupt (with_message message_id (with_status RunRunning s)).
Definition mark_blocked (reason : option string) (recheck_at : option Z) s : SessionRuntimeState :=
  with_status RunBlocked s.
Definition mark_sleeping (reason : option string) (wake_at : option Z) s : SessionRuntimeState :=
  with_status RunSleeping s.
Definition mark_compacting s : SessionRuntimeState :=
  with_interrupt default_interrupt (with_status RunCompacting s).
Definition mark_idle s : SessionRuntimeState :=
  {| rs_session_id := rs_session_id s; run_status := RunIdle; current_message_id := None;
     rs_usage := rs_usage s; active_stage_id := None; active_stage_count := 0; active_tools := [];
     pending_question := None; pending_permission := None;
     pending_followup_count := pending_followup_count s; pending_steering := pending_steering s;
     active_sandbox := active_sandbox s; interrupt := default_interrupt |}.

Definition tool_started (tool_call_id tool_name : string) (now : Z) s : SessionRuntimeState :=
  let s := with_status WaitingOnTool s in
  with_tools (active_tools s ++
    [{| at_tool_call_id := tool_call_id; at_tool_name := tool_name; at_started_at := now |}]) s.
Definition tool_ended (tool_call_id : string) s : SessionRuntimeState :=
  let s := with_tools (filter (fun t => at_tool_call_id t ≠ tool_call_id) (active_tools s)) s in
  if match active_tools s with [] => true | _ => false end && bool_decide (run_status s = WaitingOnTool)
  then with_status RunRunning s else s.

(** [if !new.is_empty() { *old = new }] *)
Definition refine_text (old new : string) : string := if bool_decide (new = "") then old else new.
Definition refine_sandbox (existing summary : SandboxExecutionSummary) : SandboxExecutionSummary :=
  {| se_execution_id := se_execution_id existing;
     se_backend := refine_text (se_backend existing) (se_backend summary);
     se_profile_kind := refine_text (se_profile_kind existing) (se_profile_kind summary);
     se_plan_fingerprint := refine_text (se_plan_fingerprint existing) (se_plan_fingerprint summary);
     se_pid := match se_pid summary with Some pid => Some pid | None => se_pid existing end |}.
Definition sandbox_execution_upsert (summary : SandboxExecutionSummary) s : SessionRuntimeState :=
  let same e := bool_decide (se_execution_id e = se_execution_id summary) in
  match find_first same (active_sandbox s) with
  | Some _ => with_sandbox (update_first same (fun e => refine_sandbox e summary) (active_sandbox s)) s
  | None => with_sandbox (active_sandbox s ++ [summary]) s
  end.
Definition sandbox_execution_removed (execution_id : string) s : SessionRuntimeState :=
  with_sandbox (filter (fun e => se_execution_id e ≠ execution_id) (active_sandbox s)) s.

Definition question_created (request_id : string) (questions : Value) s : SessionRuntimeState :=
  let s := with_status WaitingOnUser s in
  with_question (Some {| pq_request_id := request_id; pq_questions := questions |}) s.
Definition question_resolved s : SessionRuntimeState :=
  let s := with_question None s in
  if bool_decide (run_status s = WaitingOnUser) && match pending_permission s with None => true | Some _ => false end
  then with_status RunRunning s else s.
Definition set_usage (usage : SessionUsage) s : SessionRuntimeState := with_usage (Some usage) s.

(** ** The store *)

Abbreviation States := (gmap string SessionRuntimeState).

(** [RuntimeStateStore::update]: an unknown session starts from the default. *)
Definition update_state (session_id : string) (f : SessionRuntimeState → SessionRuntimeState) (states : States) :
    States :=
  <[session_id := f (default (state_new session_id) (states !! session_id))]> states.

(** An update of the store as its callers make it: an upsert without an id is dropped before the lock. *)
Inductive StoreUpdate :=
| Protocol (update : RuntimeProtocolUpdate)
| MarkRunning (message_id : option string)
| MarkBlocked (reason : option string) (recheck_at : option Z)
| MarkSleeping (reason : option string) (wake_at : option Z)
| MarkCompacting
| MarkIdle
| ToolStarted (tool_call_id tool_name : string) (now : Z)
| ToolEnded (tool_call_id : string)
| SandboxUpsert (summary : SandboxExecutionSummary)
| SandboxRemoved (execution_id : string)
| QuestionCreated (request_id : string) (questions : Value)
| QuestionResolved
| SetUsage (usage : SessionUsage).

Definition apply_update (u : StoreUpdate) : SessionRuntimeState → SessionRuntimeState :=
  match u with
  | Protocol update => apply_protocol_update update
  | MarkRunning message_id => mark_running message_id
  | MarkBlocked reason recheck_at => mark_blocked reason recheck_at
  | MarkSleeping reason wake_at => mark_sleeping reason wake_at
  | MarkCompacting => mark_compacting
  | MarkIdle => mark_idle
  | ToolStarted tool_call_id tool_name now => tool_started tool_call_id tool_name now
  | ToolEnded tool_call_id => tool_ended tool_call_id
  | SandboxUpsert summary => sandbox_execution_upsert summary
  | SandboxRemoved execution_id => sandbox_execution_removed execution_id
  | QuestionCreated request_id questions => question_created request_id questions
  | QuestionResolved => question_resolved
  | SetUsage usage => set_usage usage
  end.
Definition store_step (session_id : string) (u : StoreUpdate) (states : States) : States :=
  match u with
  | SandboxUpsert summary =>
      if bool_decide (se_execution_id summary = "") then states
      else update_state session_id (apply_update u) states
  | _ => update_state session_id (apply_update u) states
  end.

(** ** The states that updates lead to *)

(** A session that waits for a tool or the user has one to wait for, a session that is being
    cancelled was interrupted, an idle one has nothing open, and sandboxed executions are listed once. *)
Record state_ok s : Prop := {
  tool_waited_for : run_status s = WaitingOnTool → active_tools s ≠ [];
  user_waited_for : run_status s = WaitingOnUser → is_Some (pending_question s) ∨ is_Some (pending_permission s);
  cancelling_was_asked : run_status s = RunCancelling → in_phase (interrupt s) = InterruptIsRequested;
  idle_is_quiet : run_status s = RunIdle →
    active_tools s = [] ∧ pending_question s = None ∧ pending_permission s = None ∧
    current_message_id s = None ∧ interrupt s = default_interrupt;
  followups_bounded : (0 ≤ pending_followup_count s ≤ u64_max)%Z;
  sandbox_listed_once : NoDup (se_execution_id <$> active_sandbox s);
  sandbox_named : Forall (fun e => se_execution_id e ≠ "") (active_sandbox s)
}.

Lemma state_ok_new session_id : state_ok (state_new session_id).
Proof. split; cbn; try done; try constructor; try (unfold u64_max; lia). Qed.

Lemma protocol_ok update s : state_ok s → state_ok (apply_protocol_update update s).
Proof.
  intros [Ht Hu Hc Hi Hf Hs Hn]. destruct update as [|  | | | |kind phase at_]; cbn.
  - split; cbn; try done. intros _. right. by eexists.
  - destruct (pending_question s) eqn:Hq; cbn; rewrite ?andb_false_r, ?andb_true_r; [|case_bool_decide];
      split; cbn; try done; try naive_solver.
  - by split.
  - by split.
  - by split.
  - assert (∀ n, (0 ≤ n ≤ u64_max)%Z → state_ok (with_followups n s)) as Hn' by by split.
    unfold saturating_pred, u64_saturating_add, u64_max in *.
    destruct kind, phase; try (by split); apply Hn'; lia.
Qed.

Lemma sandbox_upsert_ok summary s :
  se_execution_id summary ≠ "" → state_ok s → state_ok (sandbox_execution_upsert summary s).
Proof.
  intros Hne [Ht Hu Hc Hi Hf Hs Hn]. unfold sandbox_execution_upsert.
  set (same := fun e => bool_decide (se_execution_id e = se_execution_id summary)).
  destruct (find_first same (active_sandbox s)) as [e|] eqn:Hfind; split; cbn; try done.
  - by rewrite (fmap_update_first same).
  - apply find_first_Some in Hfind as (l & k & Heq & Hl & He). rewrite Heq, update_first_split by done.
    rewrite Heq in Hn.
    apply Forall_app in Hn as [H1 [H2 H3]%Forall_cons]. apply Forall_app. split; [done|]. by constructor.
  - rewrite fmap_app. apply NoDup_app. split_and!; [done| |apply NoDup_singleton].
    intros x (e & -> & He)%list_elem_of_fmap Hx%list_elem_of_singleton.
    apply find_first_None in Hfind. eapply Forall_forall in Hfind; [|exact He]. unfold same in Hfind.
    by apply bool_decide_eq_false in Hfind.
  - apply Forall_app. split; [done|]. by constructor.
Qed.

Lemma update_ok u s : (∀ summary, u = SandboxUpsert summary → se_execution_id summary ≠ "") →
  state_ok s → state_ok (apply_update u s).
Proof.
  intros Hu Hs. destruct u; cbn.
  9: by apply sandbox_upsert_ok; [apply Hu|].
  1: by apply protocol_ok.
  all: destruct Hs as [Ht Huser Hc Hi Hf Hdup Hn].
  - by split.
  - by split.
  - by split.
  - by split.
  - by split.
  - split; cbn; try done. intros _. destruct (active_tools s); done.
  - unfold tool_ended. cbn. destruct (filter _ (active_tools s)) as [|t l] eqn:Hl; cbn; [case_bool_decide|];
      split; cbn; try done; intros Hidle; destruct (Hi Hidle) as (Htools & Hrest); [done|by rewrite Htools in Hl].
  - split; cbn; try done.
    + eapply sublist_NoDup; [exact Hdup|]. apply fmap_sublist, sublist_filter.
    + apply Forall_forall. intros e [_ He]%list_elem_of_filter. by eapply Forall_forall in Hn.
  - split; cbn; try done. intros _. left. by eexists.
  - unfold question_resolved. cbn. destruct (pending_permission s) eqn:Hp; cbn; rewrite ?andb_false_r, ?andb_true_r; [|case_bool_decide];
      split; cbn; try done; try naive_solver.
  - by split.
Qed.

(** Whatever updates the store has seen, in any order: a session shown as waiting for a tool has an active tool,
    one waiting for the user a pending question or permission, one being cancelled was
    interrupted, an idle one has nothing open; sandboxed executions are named and listed once, and the
    count of queued prompts stays a [u64]. *)
Lemma shown_states_are_consistent updates session_id s :
  foldl (fun states (su : string * StoreUpdate) => store_step su.1 su.2 states) ∅ updates !! session_id = Some s →
  state_ok s.
Proof.
  enough (∀ states : States, (∀ id s, states !! id = Some s → state_ok s) → ∀ id s,
    foldl (fun states (su : string * StoreUpdate) => store_step su.1 su.2 states) states updates !! id = Some s →
    state_ok s) as H by by apply (H ∅); intros id s0; rewrite lookup_empty.
  induction updates as [|[sid u] updates IH]; intros states Hok id s0; cbn; [apply Hok|].
  apply IH. clear IH id s0. intros id s0. cbn.
  assert ((∀ summary, u = SandboxUpsert summary → se_execution_id summary ≠ "") →
    update_state sid (apply_update u) states !! id = Some s0 → state_ok s0) as Hup.
  { intros Hu. unfold update_state. destruct (decide (sid = id)) as [->|Hne].
    - rewrite lookup_insert_eq. intros [= <-]. apply update_ok; [done|].
      destruct (states !! id) as [s1|] eqn:Hs; cbn; [by eapply Hok|apply state_ok_new].
    - rewrite lookup_insert_ne by done. apply Hok. }
  destruct u; cbn [store_step]; try (apply Hup; intros ? [=]).
  case_bool_decide as Hempty; [apply Hok|]. apply Hup. by intros ? [= <-].
Qed.
