(* ===== verification/RuntimeTelemetry.v ===== *)
(** * The authority over what a session is said to be doing

    [RuntimeTelemetryAuthority] of [agendao-server/src/session_runtime/telemetry.rs]
    and the loop of [recheck_loop.rs]: every change goes to the registry
    ([RuntimeControl]), to the state that clients are shown ([RuntimeState]) and onto the event
    bus.  Its methods are tasks on the three together; the callback of the registry puts
    topology changes on the same bus, here they stay in the registry's own list.  An event
    carries the status itself, not its JSON. *)

From S2P Require Import Prelude Json SessionTypes Tasks RuntimeControl RuntimeState.
From stdpp Require Import options.

(** ** Events *)

Inductive QuestionResolutionKind := Answered | WasRejected | WasCancelled.

(** The variants of [ServerEvent] that the authority emits. *)
Inductive ServerEvent :=
| UsageEvent (session_id : option string) (prompt_tokens completion_tokens : N) (message_id : option string)
| SessionStatusEvent (session_id : string) (status : SessionRunStatus)
| QuestionCreatedEvent (session_id request_id : string) (questions : Value)
| QuestionResolvedEvent (session_id request_id : string) (resolution : option QuestionResolutionKind)
    (answers : option (list (list string))) (reason : option string)
| PermissionRequestedEvent (session_id permission_id : string) (info : Value)
| PermissionResolvedEvent (session_id permission_id reply : string) (message : option string)
| ControlInputEvent (session_id : string) (kind : ControlInputKind) (phase : ControlInputPhase) (at_ : Z).

Record Telemetry := {
  runtime_control : RuntimeControlRegistry;
  runtime_state : States;
  event_bus : list ServerEvent
}.
Definition telemetry_new : Telemetry :=
  {| runtime_control := registry_new; runtime_state := ∅; event_bus := [] |}.
Definition set_control c w : Telemetry :=
  {| runtime_control := c; runtime_state := runtime_state w; event_bus := event_bus w |}.
Definition set_states states w : Telemetry :=
  {| runtime_control := runtime_control w; runtime_state := states; event_bus := event_bus w |}.
Definition push_event e w : Telemetry :=
  {| runtime_control := runtime_control w; runtime_state := runtime_state w; event_bus := event_bus w ++ [e] |}.

(** [serde_json::to_value(&questions)] *)
Definition question_option_to_value (o : QuestionOption) : Value :=
  Object (<["label" := JString (qo_label o)]> {["description" := json_option JString (qo_description o)]}).
Definition question_to_value (q : QuestionDef) : Value :=
  Object (<["question" := JString (qd_question q)]>
         (<["header" := json_option JString (qd_header q)]>
         (<["options" := Array (question_option_to_value <$> qd_options q)]> {["multiple" := Bool (qd_multiple q)]}))).

Section telemetry.
Context `{RuntimeEnv}.

Abbreviation Async := (Task Telemetry).

Definition control {A} (t : Task RuntimeControlRegistry A) : Async A := zoom runtime_control set_control t.
Definition show (session_id : string) (u : StoreUpdate) : Async unit :=
  modify (fun w => set_states (store_step session_id u (runtime_state w)) w).
Definition emit (e : ServerEvent) : Async unit := modify (push_event e).
(** [chrono::Utc::now().timestamp_millis()], the registry's clock. *)
Definition utc_now : Async Z := control now_millis.

(** ** Run statuses *)

(** What the clients are shown for a status. *)
Definition shown_update (status : SessionRunStatus) : StoreUpdate :=
  match status with
  | Busy => MarkRunning None
  | Compacting => MarkCompacting
  | Idle => MarkIdle
  | RetryAt _ _ _ => MarkRunning None
  | Blocked reason recheck_at => MarkBlocked reason recheck_at
  | Sleeping reason wake_at => MarkSleeping reason wake_at
  end.

Definition authority_set_session_run_status (session_id : string) (status : SessionRunStatus) : Async unit :=
  await! previous := control (session_run_status session_id) in
  if bool_decide (previous = status) then Done tt
  else
    await! _ := control (set_session_run_status session_id status) in
    await! _ := show session_id (shown_update status) in
    emit (SessionStatusEvent session_id status).

(** [at.is_none_or(|ts| now >= ts)] *)
Definition is_due (now : Z) (at_ : option Z) : bool :=
  match at_ with Some ts => (ts <=? now)%Z | None => true end.

Definition recheck_session (session_id : string) : Async (option SessionRunStatus) :=
  await! current := control (session_run_status session_id) in
  match current with
  | Blocked _ recheck_at =>
      await! now := utc_now in
      if is_due now recheck_at then
        await! _ := authority_set_session_run_status session_id Idle in Done (Some Idle)
      else Done None
  | _ => Done None
  end.

Definition wake_session (session_id : string) : Async (option SessionRunStatus) :=
  await! current := control (session_run_status session_id) in
  match current with
  | Sleeping _ wake_at =>
      await! now := utc_now in
      if is_due now wake_at then
        await! _ := authority_set_session_run_status session_id Idle in Done (Some Idle)
      else Done None
  | _ => Done None
  end.

(** [run_recheck_wake_tick]: the statuses as they were at the start, in the order of the map. *)
Definition recheck_one (entry : string * SessionRunStatus) : Async unit :=
  match entry.2 with
  | Blocked _ _ => await! _ := recheck_session entry.1 in Done tt
  | Sleeping _ _ => await! _ := wake_session entry.1 in Done tt
  | _ => Done tt
  end.
Definition run_recheck_wake_tick : Async unit :=
  await! statuses := control session_run_statuses in
  task_for recheck_one (hash_entries statuses).

(** ** Questions *)

Definition finish_control_input_wait (session_id : string) : Async unit :=
  await! running := control (has_prompt_run session_id) in
  if running then Done tt else show session_id MarkIdle.

Definition authority_register_question (session_id : string) (questions : list QuestionDef) :
    Async (QuestionInfo * Sender) :=
  let questions_value := Array (question_to_value <$> questions) in
  await! '(info, rx) := control (register_question session_id questions) in
  await! _ := show session_id (QuestionCreated (qi_id info) questions_value) in
  await! _ := emit (QuestionCreatedEvent session_id (qi_id info) (Array (item_to_value <$> qi_items info))) in
  Done (info, rx).

(** What is announced of a reply. *)
Definition resolution_of (reply : QuestionReply) :
    option QuestionResolutionKind * option (list (list string)) * option string :=
  match reply with
  | Answers answers => (Some Answered, Some answers, None)
  | Rejected => (Some WasRejected, None, None)
  | Cancelled => (Some WasCancelled, None, Some "cancelled")
  end.
Definition announce_resolution (session_id id : string) (reply : QuestionReply) : Async unit :=
  let '(resolution, answers, reason) := resolution_of reply in
  emit (QuestionResolvedEvent session_id id resolution answers reason).

(** [answer_question], [reject_question] and [cancel_question] of the authority. *)
Definition authority_resolve_question (id : string) (reply : QuestionReply) : Async (option QuestionInfo) :=
  await! info := control (resolve_question id reply) in
  match info with
  | None => Done None
  | Some info =>
      await! _ := show (qi_session_id info) QuestionResolved in
      await! _ := finish_control_input_wait (qi_session_id info) in
      await! _ := announce_resolution (qi_session_id info) id reply in
      Done (Some info)
  end.

Definition authority_cancel_questions_for_session (session_id : string) : Async (list QuestionInfo) :=
  await! cancelled := control (cancel_questions_for_session session_id) in
  await! _ := match cancelled with
              | [] => Done tt
              | _ =>
                  await! _ := show session_id QuestionResolved in
                  finish_control_input_wait session_id
              end in
  await! _ := task_for (fun q => announce_resolution (qi_session_id q) (qi_id q) Cancelled) cancelled in
  Done cancelled.

Definition authority_cancel_execution (execution_id : string) : Async (option ExecutionKind) :=
  await! question := authority_resolve_question execution_id Cancelled in
  match question with
  | Some _ => Done (Some Question)
  | None => control (cancel_execution execution_id)
  end.

(** ** Permissions, steering, interrupts, usage *)

Definition emit_control_input_transition (session_id : string) (kind : ControlInputKind)
    (phase : ControlInputPhase) (at_ : Z) : Async unit :=
  await! _ := show session_id (Protocol (ControlInputTransition kind phase at_)) in
  emit (ControlInputEvent session_id kind phase at_).

Definition permission_requested (session_id permission_id : string) (info : Value) : Async unit :=
  await! requested_at := utc_now in
  let tool := v ← get_member "tool" info; as_str v in
  await! _ := show session_id (Protocol (PermissionRequested permission_id requested_at tool)) in
  await! _ := emit_control_input_transition session_id PermissionInput Queued requested_at in
  emit (PermissionRequestedEvent session_id permission_id info).

Definition permission_resolved (session_id permission_id reply : string) (message : option string) : Async unit :=
  await! _ := show session_id (Protocol PermissionResolved) in
  await! _ := finish_control_input_wait session_id in
  await! now := utc_now in
  await! _ := emit_control_input_transition session_id PermissionInput Consumed now in
  await! _ := emit_control_input_transition session_id PermissionInput Cleared now in
  emit (PermissionResolvedEvent session_id permission_id reply message).

Definition clear_permission_pending (session_id : string) : Async unit :=
  await! _ := show session_id (Protocol PermissionResolved) in
  await! _ := finish_control_input_wait session_id in
  await! now := utc_now in
  emit_control_input_transition session_id PermissionInput Cleared now.

Definition steering_enqueued (owner_session_id : string) (summary : PendingSteeringMessageSummary) : Async unit :=
  await! _ := show owner_session_id (Protocol (SteeringEnqueued summary)) in
  await! now := utc_now in
  emit_control_input_transition owner_session_id Steering Queued now.

Definition interrupt_requested (session_id : string) (target : InterruptTarget) : Async unit :=
  await! now := utc_now in
  await! _ := show session_id (Protocol (InterruptRequested now target)) in
  emit_control_input_transition session_id Interrupt Queued now.

Definition record_session_usage (session_id : string) (message_id : option string) (usage : SessionUsage) : Async unit :=
  await! _ := show session_id (SetUsage usage) in
  emit (UsageEvent (Some session_id) (input_tokens usage) (output_tokens usage) message_id).

Definition clear_session_runtime (session_id : string) : Async unit :=
  modify (fun w => set_states (delete session_id (runtime_state w)) w).

Definition get_runtime_snapshot (session_id : string) : Async (option SessionRuntimeState) :=
  observe (B := option SessionRuntimeState) (fun w => runtime_state w !! session_id).

Definition authority_build_session_execution_topology (session_id : string) (extra_records : list ExecutionRecord) :
    Async SessionExecutionTopology :=
  await! records := control (list_session_execution_records session_id) in
  Done (build_session_execution_topology session_id (records ++ extra_records)).

(** *** The part of a question's asker that acts on the reply *)

Inductive AskError := QuestionRejected | AskCancelled | ChannelClosed.
(** The [match reply] at the end of [request_question_answers]; [None]: the channel was closed. *)
Definition answers_of_reply (reply : option QuestionReply) : result AskError (list (list string)) :=
  match reply with
  | Some (Answers answers) => Ok answers
  | Some Rejected => Err QuestionRejected
  | Some Cancelled => Err AskCancelled
  | None => Err ChannelClosed
  end.
End telemetry.
