(* ===== verification/RuntimeTelemetryProps.v ===== *)
(** * The authority keeps registry, shown state and events in step

    A change of status reaches the registry, the clients' view and the bus together; the
    recheck loop wakes the sessions that are due and no others; a reply that is accepted
    settles the session's question for the clients. *)

From S2P Require Import Prelude Json Tasks RuntimeControl RuntimeState RuntimeQuestions RuntimeControlProps RuntimeTelemetry.
From stdpp Require Import options.

Section telemetry.
Context `{RuntimeEnv}.
Implicit Types (w : Telemetry) (session_id : string).

(** A task of the registry, run by the authority, changes the registry and nothing else. *)
Lemma run_control {A} (t : Task RuntimeControlRegistry A) w :
  run (control t) w = ((run t (runtime_control w)).1, set_control (run t (runtime_control w)).2 w).
Proof. apply run_zoom; [done|done|by intros []]. Qed.

Lemma run_control_observe {A} (f : RuntimeControlRegistry → A) w :
  run (control (observe f)) w = (f (runtime_control w), w).
Proof. rewrite run_control. by destruct w. Qed.

Lemma run_control_status session_id w :
  sound (runtime_control w) →
  run (control (session_run_status session_id)) w = (status_in (runtime_control w) session_id, w).
Proof.
  intros Hs. rewrite run_control, run_status_in by by apply sound_identified. by destruct w.
Qed.

(** ** Changes of status *)

Lemma authority_set_status w session_id status :
  sound (runtime_control w) →
  run_state (authority_set_session_run_status session_id status) w =
  if bool_decide (status_in (runtime_control w) session_id = status) then w
  else {| runtime_control := run_state (set_session_run_status session_id status) (runtime_control w);
          runtime_state := store_step session_id (shown_update status) (runtime_state w);
          event_bus := event_bus w ++ [SessionStatusEvent session_id status] |}.
Proof.
  intros Hs. unfold run_state, authority_set_session_run_status. rewrite run_bind, run_control_status by done. cbn [fst snd].
  case_bool_decide; [done|]. rewrite run_bind, run_control. done.
Qed.

(** ** The recheck loop *)

(** A blocked or sleeping session whose time has come, or that has none. *)
Definition due_at (now : Z) (status : SessionRunStatus) : bool :=
  match status with
  | Blocked _ at_ | Sleeping _ at_ => is_due now at_
  | _ => false
  end.

Lemma authority_idle w session_id :
  sound (runtime_control w) →
  let w' := run_state (authority_set_session_run_status session_id Idle) w in
  sound (runtime_control w') ∧ status_in (runtime_control w') session_id = Idle ∧
  (∀ other, other ≠ session_id → status_in (runtime_control w') other = status_in (runtime_control w) other).
Proof.
  intros Hs. cbn zeta. rewrite authority_set_status by done. case_bool_decide as He; [done|].
  by apply (status_after (runtime_control w) session_id Idle).
Qed.

Lemma clock_reads_finish s id : clock_reads s ≤ clock_reads (run_state (finish_execution id) s).
Proof.
  unfold run_state, finish_execution. rewrite run_bind. cbn. unfold change_execution.
  destruct (executions s !! id); cbn; lia.
Qed.

Lemma clock_reads_idle w session_id :
  sound (runtime_control w) →
  clock_reads (runtime_control w) ≤
  clock_reads (runtime_control (run_state (authority_set_session_run_status session_id Idle) w)).
Proof.
  intros Hs. rewrite authority_set_status by done. case_bool_decide; [done|]. cbn [runtime_control].
  unfold run_state, set_session_run_status. rewrite run_bind. apply clock_reads_finish.
Qed.

(** One session of the loop: its status is read, then the clock. *)
Lemma recheck_one_ok w session_id status :
  sound (runtime_control w) → status_in (runtime_control w) session_id = status →
  let w' := run_state (recheck_one (session_id, status)) w in
  sound (runtime_control w') ∧ clock_reads (runtime_control w) ≤ clock_reads (runtime_control w') ∧
  status_in (runtime_control w') session_id =
    (if due_at (clock (clock_reads (runtime_control w))) status then Idle else status) ∧
  (∀ other, other ≠ session_id → status_in (runtime_control w') other = status_in (runtime_control w) other).
Proof.
  intros Hs Hst. cbn zeta.
  assert (∀ at_, (∀ now, due_at now status = is_due now at_) →
    let w' := run_state (await! now := utc_now in
      if is_due now at_ then await! _ := authority_set_session_run_status session_id Idle in Done (Some Idle)
      else Done None) w in
    sound (runtime_control w') ∧ clock_reads (runtime_control w) ≤ clock_reads (runtime_control w') ∧
    status_in (runtime_control w') session_id =
      (if due_at (clock (clock_reads (runtime_control w))) status then Idle else status) ∧
    (∀ other, other ≠ session_id → status_in (runtime_control w') other = status_in (runtime_control w) other))
    as Hdue.
  { intros at_ Heq. unfold run_state, utc_now. rewrite run_bind, run_control. cbn [run now_millis section fst snd].
    set (w1 := set_control _ w). rewrite Heq.
    assert (sound (runtime_control w1)) as Hs1 by by apply (plain_sound now_millis); [apply plain_now|].
    destruct (is_due _ at_).
    - rewrite run_bind. cbn. destruct (authority_idle w1 session_id Hs1) as (H1 & H2 & H3).
      pose proof (clock_reads_idle w1 session_id Hs1) as Hc. cbn in Hc. split_and!; [done| |done|done].
      etrans; [|exact Hc]. lia.
    - cbn. split_and!; [done|lia|done|done]. }
  unfold recheck_one, run_state, recheck_session, wake_session. cbn [fst snd].
  destruct status as [| | | |reason at_|reason at_]; try done;
    rewrite !run_bind, run_control_status, Hst by done; cbn [fst snd]; by apply (Hdue at_).
Qed.

Lemma is_due_later t t' at_ : (t ≤ t')%Z → is_due t at_ = true → is_due t' at_ = true.
Proof. destruct at_ as [ts|]; cbn; [|done]. rewrite !Z.leb_le. lia. Qed.

Lemma due_later t t' status : (t ≤ t')%Z → due_at t status = true → due_at t' status = true.
Proof. destruct status; cbn; try done; apply is_due_later. Qed.

Definition clock_forward : Prop := ∀ m n, m ≤ n → (clock m ≤ clock n)%Z.

(** The loop over sessions that are each listed once with their status. *)
Lemma recheck_all_ok entries w :
  clock_forward → sound (runtime_control w) → NoDup (entries.*1) →
  (∀ entry, entry ∈ entries → status_in (runtime_control w) entry.1 = entry.2) →
  let w' := run_state (task_for recheck_one entries) w in
  sound (runtime_control w') ∧ clock_reads (runtime_control w) ≤ clock_reads (runtime_control w') ∧
  ∀ session_id, let status := status_in (runtime_control w) session_id in
    if decide (session_id ∈ entries.*1) then
      (due_at (clock (clock_reads (runtime_control w))) status = true →
         status_in (runtime_control w') session_id = Idle) ∧
      (due_at (clock (clock_reads (runtime_control w'))) status = false →
         status_in (runtime_control w') session_id = status)
    else status_in (runtime_control w') session_id = status.
Proof.
  intros Hclock. revert w. induction entries as [|[sid st] entries IH]; intros w Hs Hnd Hst.
  { cbn. split_and!; done. }
  cbn [fmap list_fmap fst] in Hnd. apply NoDup_cons in Hnd as [Hnin Hnd].
  unfold run_state. cbn [task_for]. rewrite run_bind.
  destruct (recheck_one_ok w sid st Hs (Hst (sid, st) ltac:(left))) as (Hs1 & Hc1 & Hsid & Hother).
  set (w1 := (run (recheck_one (sid, st)) w).2) in *. fold (run_state (recheck_one (sid, st)) w) in w1. fold w1 in Hs1, Hc1, Hsid, Hother.
  destruct (IH w1 Hs1 Hnd) as (Hs2 & Hc2 & Hrest).
  { intros [sid' st'] Hin. cbn. rewrite Hother; [by apply (Hst (sid', st')); right|].
    intros ->. apply Hnin. by apply (list_elem_of_fmap_2 fst entries (sid, st')). }
  split_and!; [done|by etrans|]. intros session_id. cbn zeta. specialize (Hrest session_id). cbn zeta in Hrest.
  fold (run_state (task_for recheck_one entries) w1). cbn [fmap list_fmap fst].
  destruct (decide (session_id = sid)) as [->|Hne].
  - rewrite decide_False in Hrest by done. rewrite decide_True by left. rewrite Hrest, Hsid.
    pose proof (Hst (sid, st) ltac:(left)) as Hst0. cbn in Hst0. rewrite Hst0. split.
    + by intros ->.
    + intros Hnd'. destruct (due_at (clock (clock_reads (runtime_control w))) st) eqn:Hd; [|done].
      assert (due_at (clock (clock_reads (runtime_control (run_state (task_for recheck_one entries) w1)))) st = true);
        [|congruence]. eapply due_later; [|exact Hd]. apply Hclock. by etrans.
  - rewrite Hother in Hrest by done. destruct (decide (session_id ∈ entries.*1)) as [Hin|Hnin'].
    + rewrite decide_True by by right. destruct Hrest as [H1 H2]. split; [|done].
      intros Hd. apply H1. eapply due_later; [|exact Hd]. by apply Hclock.
    + rewrite decide_False; [done|]. by intros [?|?]%elem_of_cons.
Qed.

(** A pass of the recheck loop, with a clock that does not run backwards: every session that is blocked or
    asleep and due when the pass starts is idle when it ends, every session that is not yet due when the
    pass ends keeps its status, whatever the order in which the loop visits them. *)
Lemma recheck_pass_wakes_what_is_due w session_id :
  clock_forward → reachable (runtime_control w) →
  let w' := run_state run_recheck_wake_tick w in
  let before := (run (session_run_status session_id) (runtime_control w)).1 in
  let after := (run (session_run_status session_id) (runtime_control w')).1 in
  (due_at (clock (clock_reads (runtime_control w))) before = true → after = Idle) ∧
  (due_at (clock (clock_reads (runtime_control w'))) before = false → after = before).
Proof.
  intros Hclock Hs%reachable_sound. cbn zeta.
  set (entries := hash_entries (collect_statuses (hash_values (executions (runtime_control w))))).
  assert (run_state run_recheck_wake_tick w = run_state (task_for recheck_one entries) w) as ->.
  { unfold run_state, run_recheck_wake_tick, session_run_statuses. by rewrite run_bind, run_control_observe. }
  assert (∀ sid, status_in (runtime_control w) sid =
    default Idle (collect_statuses (hash_values (executions (runtime_control w))) !! sid)) as Hstatus.
  { intros sid. symmetry. apply (run_status_in (runtime_control w) sid). by apply sound_identified. }
  assert (∀ entry, entry ∈ entries ↔
    collect_statuses (hash_values (executions (runtime_control w))) !! entry.1 = Some entry.2) as Hentries.
  { intros [sid st]. unfold entries. by rewrite hash_entries_perm, elem_of_map_to_list. }
  destruct (recheck_all_ok entries w Hclock Hs) as (Hs' & _ & Hall).
  { unfold entries. rewrite hash_entries_perm. apply NoDup_fst_map_to_list. }
  { intros entry Hin. apply Hentries in Hin. by rewrite Hstatus, Hin. }
  specialize (Hall session_id). cbn zeta in Hall. apply sound_identified in Hs' as Hid', Hs as Hid.
  rewrite !run_status_in by done.
  destruct (decide (session_id ∈ entries.*1)) as [Hin|Hnin]; [exact Hall|].
  rewrite Hall, Hstatus. destruct (_ !! session_id) as [st|] eqn:Hst; [|done].
  exfalso. apply Hnin, list_elem_of_fmap. exists (session_id, st). split; [done|]. by apply Hentries.
Qed.

(** ** Replies *)

Lemma resolve_refused id reply s :
  (run (resolve_question id reply) s).1 = None → (run (resolve_question id reply) s).2 = s.
Proof.
  unfold resolve_question, take_question. rewrite !run_bind. cbn -[question_record_to_info].
  destruct (executions s !! id) as [r|]; [|done]. case_bool_decide; [done|].
  by destruct (question_record_to_info r).
Qed.

Lemma run_show session_id u w :
  run (show session_id u) w = (tt, set_states (store_step session_id u (runtime_state w)) w).
Proof. done. Qed.

Lemma run_finish_wait session_id w :
  run (finish_control_input_wait session_id) w =
  (tt, if (run (has_prompt_run session_id) (runtime_control w)).1 then w
       else set_states (store_step session_id MarkIdle (runtime_state w)) w).
Proof.
  destruct w as [c states events]. cbn.
  destruct (executions c !! prompt_execution_id session_id) as [r|]; [|done]. by destruct (negb (is_done r)).
Qed.

(** What [question_resolved] and the wait after it leave of the session's state. *)
Lemma resolved_state session_id states (running : bool) :
  let old := default (state_new session_id) (states !! session_id) in
  let states1 := store_step session_id QuestionResolved states in
  ∃ s, (if running then states1 else store_step session_id MarkIdle states1) !! session_id = Some s ∧
    pending_question s = None ∧
    run_status s =
      if running then
        if bool_decide (run_status old = WaitingOnUser ∧ pending_permission old = None) then RunRunning
        else run_status old
      else RunIdle.
Proof.
  cbn. unfold update_state. destruct running; rewrite lookup_insert_eq; (eexists; split; [reflexivity|]); [|done].
  set (old := default _ _). unfold question_resolved. cbn.
  destruct (bool_decide_reflect (run_status old = WaitingOnUser)) as [Hu|Hu]; cbn.
  - destruct (pending_permission old) eqn:Hp; cbn.
    + rewrite bool_decide_eq_false_2; [done|]. by intros [_ ?].
    + by rewrite bool_decide_eq_true_2.
  - rewrite bool_decide_eq_false_2; [done|]. by intros [? _].
Qed.

(** A reply to a question, made through the authority: refused, it changes nothing; accepted, the session is
    shown without a pending question, whatever other questions of it are open, idle if it has no prompt run,
    and running if it waited for the user only; and one event says what became of the question. *)
Lemma accepted_reply_is_shown w id reply :
  match run (authority_resolve_question id reply) w with
  | (None, w') => w' = w
  | (Some info, w') =>
      runtime_control w' = run_state (resolve_question id reply) (runtime_control w) ∧
      event_bus w' = event_bus w ++ [QuestionResolvedEvent (qi_session_id info) id
        (resolution_of reply).1.1 (resolution_of reply).1.2 (resolution_of reply).2] ∧
      ∃ s, runtime_state w' !! qi_session_id info = Some s ∧ pending_question s = None ∧
        let old := default (state_new (qi_session_id info)) (runtime_state w !! qi_session_id info) in
        run_status s =
          if (run (has_prompt_run (qi_session_id info)) (runtime_control w')).1 then
            if bool_decide (run_status old = WaitingOnUser ∧ pending_permission old = None) then RunRunning
            else run_status old
          else RunIdle
  end.
Proof.
  unfold authority_resolve_question. rewrite run_bind, run_control. cbn [fst snd].
  pose proof (resolve_refused id reply (runtime_control w)) as Hnone.
  destruct (run (resolve_question id reply) (runtime_control w)) as [[info|] c] eqn:Hc; cbn [fst snd] in *.
  - rewrite run_bind, run_show. cbn [fst snd]. rewrite run_bind, run_finish_wait. cbn [fst snd].
    unfold announce_resolution. destruct (resolution_of reply) as [[resolution answers] reason] eqn:Hres.
    rewrite run_bind. cbn [run emit modify section fst snd].
    destruct (resolved_state (qi_session_id info) (runtime_state w)
      (run (has_prompt_run (qi_session_id info)) c).1) as (s & Hs & Hq & Hr).
    cbn [runtime_control set_states set_control].
    destruct (run (has_prompt_run (qi_session_id info)) c).1 eqn:Hrun; cbn [push_event runtime_control runtime_state event_bus set_states set_control];
      (split_and!; [by unfold run_state; rewrite Hc|done|]); exists s; rewrite ?Hrun; done.
  - cbn. rewrite Hnone by done. by destruct w.
Qed.
End telemetry.

Definition demo_telemetry : Telemetry :=
  run_state (control (set_session_run_status "s" (Blocked (Some "quota") (Some 0%Z)))) telemetry_new.

Lemma demo_clock_forward : clock_forward.
Proof. intros m n Hmn. cbn. lia. Qed.

Lemma demo_telemetry_reachable : reachable (runtime_control demo_telemetry).
Proof.
  exists [SetStatus "s" (Blocked (Some "quota") (Some 0%Z))]. eexists.
  exact (pool_run_task (handler <$> [SetStatus "s" (Blocked (Some "quota") (Some 0%Z))]) registry_new 0 _ eq_refl).
Qed.
