(* ===== verification/Sessions.v ===== *)
(** * Sessions

    [agendao-session/src/session.rs] without its manager, [session_fork_metadata.rs], and
    the methods of messages ([agendao-types/src/message.rs]).  Operations that read the
    clock or draw identifiers are in the monad [Fresh]; a borrowed result is the value
    it shows. *)

From Stdlib Require Import SpecFloat.
From S2P Require Import Prelude Json TextLines TaskLedger SessionTypes.
From stdpp Require Import options.

(** Rust's [iter_mut().rev()] with an early return: the last element that [f] changes. *)
Fixpoint update_last {A} (f : A → option A) (l : list A) : option (list A) :=
  match l with
  | [] => None
  | x :: rest =>
      match update_last f rest with
      | Some rest' => Some (x :: rest')
      | None => (λ y, y :: rest) <$> f x
      end
  end.

(** [iter().rev().find(P)] *)
Definition find_last {A} (P : A → bool) (l : list A) : option A := find_first P (reverse l).

Section Sessions.
Context `{SessionEnv}.

Implicit Types (s : Session) (m : SessionMessage) (p : MessagePart).

(** ** Messages *)

(** A part with a fresh identifier. *)
Definition new_part (t : PartType) : Fresh MessagePart :=
  fresh! id := uuid in fresh! at_ := now in
  fresh_ret {| part_id := "prt_" +:+ id; part_type := t; part_created_at := at_; part_message_id := None |}.

Definition push_part (p : MessagePart) m : SessionMessage := with_parts (parts m ++ [p]) m.

Definition user_inner (session_id text : string) (meta : Metadata) : Fresh SessionMessage :=
  fresh! id := uuid in
  fresh! part := new_part (TextPart text None None) in
  fresh! at_ := now in
  fresh_ret {| msg_id := "msg_" +:+ id; msg_session_id := session_id; role := User; parts := [part];
               msg_created_at := at_; msg_metadata := meta; msg_usage := None; finish := None |}.
Definition user_message (session_id text : string) : Fresh SessionMessage := user_inner session_id text ∅.
Definition user_with_source (session_id text : string) (origin : MessageSourceOrigin)
    (surface : MessageSourceSurface) : Fresh SessionMessage :=
  let meta := apply_message_source_metadata origin surface ∅ in
  let '(admission, authority_class) := origin_to_admission_authority origin in
  user_inner session_id text (apply_message_admission_metadata admission authority_class meta).

Definition empty_message (session_id : string) (r : MessageRole) : Fresh SessionMessage :=
  fresh! id := uuid in fresh! at_ := now in
  fresh_ret {| msg_id := "msg_" +:+ id; msg_session_id := session_id; role := r; parts := [];
               msg_created_at := at_; msg_metadata := ∅; msg_usage := None; finish := None |}.
Definition assistant_message (session_id : string) : Fresh SessionMessage := empty_message session_id Assistant.
Definition tool_message (session_id : string) : Fresh SessionMessage := empty_message session_id Tool.

Definition add_part (t : PartType) m : Fresh SessionMessage :=
  fresh! part := new_part t in fresh_ret (push_part part m).
Definition add_text (text : string) m : Fresh SessionMessage := add_part (TextPart text None None) m.
Definition add_file (url filename mime : string) m : Fresh SessionMessage := add_part (FileOf url filename mime) m.
Definition add_tool_call (id name : string) (input : Value) m : Fresh SessionMessage :=
  add_part (ToolCallPart id name input CallRunning None None) m.
Definition message_add_tool_result (tool_call_id content : string) (is_error : bool) m : Fresh SessionMessage :=
  add_part (ToolResultPart tool_call_id content is_error None None None) m.

Definition mark_text_parts_synthetic m : SessionMessage :=
  with_parts
    ((λ p, match part_type p with
           | TextPart text _ ignored => with_part_type (TextPart text (Some true) ignored) p
           | _ => p
           end) <$> parts m) m.

Definition append_reasoning_part (text : string) p : option MessagePart :=
  match part_type p with
  | ReasoningPart existing => Some (with_part_type (ReasoningPart (existing +:+ text)) p)
  | _ => None
  end.
Definition append_text_part (text : string) p : option MessagePart :=
  match part_type p with
  | TextPart existing synthetic ignored => Some (with_part_type (TextPart (existing +:+ text) synthetic ignored) p)
  | _ => None
  end.
Definition add_reasoning (text : string) m : Fresh SessionMessage :=
  match update_last (append_reasoning_part text) (parts m) with
  | Some ps => fresh_ret (with_parts ps m)
  | None => add_part (ReasoningPart text) m
  end.
Definition append_text (text : string) m : Fresh SessionMessage :=
  match update_last (append_text_part text) (parts m) with
  | Some ps => fresh_ret (with_parts ps m)
  | None => add_text text m
  end.

Definition text_of_part p : option string :=
  match part_type p with TextPart text _ _ => Some text | _ => None end.
Definition reasoning_of_part p : option string :=
  match part_type p with ReasoningPart text => Some text | _ => None end.
Definition get_text m : string := str_concat (omap text_of_part (parts m)).
Definition get_reasoning m : string := str_concat (omap reasoning_of_part (parts m)).
Definition is_text_part p : bool := match part_type p with TextPart _ _ _ => true | _ => false end.
Definition set_text (text : string) m : Fresh SessionMessage :=
  add_text text (with_parts (filter (λ p, is_text_part p = false) (parts m)) m).

(** ** Metadata *)

Definition insert_metadata (key : string) (v : Value) s : Fresh (option Value * Session) :=
  fresh_map (pair (metadata s !! key)) (touch (with_metadata (<[key := v]> (metadata s)) s)).
Definition remove_metadata (key : string) s : Fresh (option Value * Session) :=
  fresh_map (pair (metadata s !! key)) (touch (with_metadata (delete key (metadata s)) s)).
Definition set_directory (dir : string) s : Fresh Session :=
  if decide (directory s = dir) then fresh_ret s else touch (with_directory dir s).
Definition push_message m s : Fresh Session := touch (with_messages (messages s ++ [m]) s).

Definition SESSION_CONTEXT_KIND_METADATA_KEY : string := "session_context_kind".
Definition FORK_ORIGIN_SESSION_ID_METADATA_KEY : string := "fork_origin_session_id".
Definition FORK_ORIGIN_MESSAGE_ID_METADATA_KEY : string := "fork_origin_message_id".
Definition FORK_POLICY_FROZEN_METADATA_KEY : string := "fork_policy_frozen".
Definition FORK_IMPORTED_HISTORY_METADATA_KEY : string := "fork_imported_history".
Definition FORK_HISTORY_MODE_METADATA_KEY : string := "fork_history_mode".
Definition FORK_HISTORY_MESSAGE_LIMIT_METADATA_KEY : string := "fork_history_message_limit".
Definition FORK_SOURCE_HISTORY_MESSAGE_COUNT_METADATA_KEY : string := "fork_source_history_message_count".
Definition AUTO_TITLE_PENDING_REFINE_KEY : string := "auto_title_pending_refine".
Definition VERSION : string := "1.0.0".

Definition serialize_context_kind (k : SessionContextKind) : Value := JString (context_kind_name k).

Definition generate_slug : Fresh string :=
  fresh! digits := uuid_simple in fresh_ret ("session-" +:+ str_take 8 digits).

(** [SessionTime::default()] *)
Definition default_time : Fresh SessionTime :=
  fresh! t := now in
  fresh_ret {| time_created := timestamp_millis t; time_updated := timestamp_millis t;
               time_compacting := None; time_archived := None |}.

Definition session_new (project dir : string) : Fresh Session :=
  fresh! at_ := now in
  fresh! slug_ := generate_slug in
  fresh! id := uuid_simple in
  fresh! time_ := default_time in
  fresh_ret
    {| ses_id := "ses_" +:+ id; slug := slug_; project_id := project; directory := dir; parent_id := None;
       title := "New session - " +:+ to_rfc3339 at_; version := VERSION; time := time_; messages := [];
       summary := None; share := None; revert_info := None; permission := None; usage := None; status := Active;
       metadata := {[ SESSION_CONTEXT_KIND_METADATA_KEY := serialize_context_kind RootSessionContinuity ]};
       created_at := at_; updated_at := at_ |}.

Definition fork_from (parent : Session) : Fresh Session :=
  fresh! at_ := now in
  fresh! slug_ := generate_slug in
  let meta : Metadata :=
    {[ SESSION_CONTEXT_KIND_METADATA_KEY := serialize_context_kind ExplicitFullHistoryFork ]} in
  let meta := match metadata parent !! TASK_LEDGER_METADATA_KEY with
              | Some ledger => <[TASK_LEDGER_METADATA_KEY := ledger]> meta
              | None => meta
              end in
  fresh! id := uuid_simple in
  fresh! time_ := default_time in
  fresh_ret
    {| ses_id := "ses_" +:+ id; slug := slug_; project_id := project_id parent; directory := directory parent;
       parent_id := Some (ses_id parent); title := "Forked session - " +:+ to_rfc3339 at_; version := VERSION;
       time := time_; messages := []; summary := None; share := None; revert_info := None;
       permission := permission parent; usage := None; status := Active; metadata := meta;
       created_at := at_; updated_at := at_ |}.

(** ** What kind of session it is *)

Definition migrate_retired_context_kind (raw : Value) : SessionContextKind :=
  if bool_decide (as_str raw = Some "scheduler_stage_output_session") then ExplicitFullHistoryFork
  else RootSessionContinuity.
Definition read_context_kind (raw : Value) : option SessionContextKind :=
  variant_of context_kind_name [RootSessionContinuity; ExplicitFullHistoryFork] raw.
Definition context_kind s : SessionContextKind :=
  match metadata s !! SESSION_CONTEXT_KIND_METADATA_KEY with
  | None => RootSessionContinuity
  | Some raw => default (migrate_retired_context_kind raw) (read_context_kind raw)
  end.
Definition ownership_summary s : SessionOwnershipSummary := ownership_summary_of (context_kind s).
Definition set_context_kind (k : SessionContextKind) s : Fresh Session :=
  touch (with_metadata (<[SESSION_CONTEXT_KIND_METADATA_KEY := serialize_context_kind k]> (metadata s)) s).

Definition fork_origin_session_id s : option string :=
  metadata s !! FORK_ORIGIN_SESSION_ID_METADATA_KEY ≫= as_str.
Definition fork_origin_message_id s : option string :=
  metadata s !! FORK_ORIGIN_MESSAGE_ID_METADATA_KEY ≫= as_str.
Definition fork_policy_frozen s : bool :=
  default false (metadata s !! FORK_POLICY_FROZEN_METADATA_KEY ≫= as_bool).
Definition fork_history_mode s : SessionForkHistoryMode :=
  default AllHistory
    (metadata s !! FORK_HISTORY_MODE_METADATA_KEY ≫= variant_of history_mode_name [NoHistory; AllHistory; LastN]).
Definition fork_history_message_limit s : option N :=
  metadata s !! FORK_HISTORY_MESSAGE_LIMIT_METADATA_KEY ≫= as_u64.
Definition fork_source_history_message_count s : option N :=
  metadata s !! FORK_SOURCE_HISTORY_MESSAGE_COUNT_METADATA_KEY ≫= as_u64.

Definition is_imported_fork_history_message m : bool :=
  default false (msg_metadata m !! FORK_IMPORTED_HISTORY_METADATA_KEY ≫= as_bool).
Definition imported_history_message_count s : nat :=
  length (filter (λ m, is_imported_fork_history_message m = true) (messages s)).

(** ** Fork metadata ([session_fork_metadata.rs]) *)

Definition FORK_POLICY_METADATA_ALLOWLIST : list string :=
  ["agent"; "model_id"; "model_provider"; "model_variant"; "scheduler"; "scheduler_blueprint";
   "scheduler_blueprint_fingerprint"; "scheduler_generated_agents"; "scheduler_selection_source"].
Definition FORK_CACHE_STABILITY_METADATA_KEYS : list string :=
  ["agent"; "model_id"; "model_provider"; "model_variant"; "scheduler"; "scheduler_blueprint_fingerprint"].

Fixpoint copy_policy_keys (source : Session) (keys : list string) (target : Session) : Fresh Session :=
  match keys with
  | [] => fresh_ret target
  | key :: keys =>
      match metadata source !! key with
      | Some v =>
          fresh! r := insert_metadata key v target in copy_policy_keys source keys (snd r)
      | None => copy_policy_keys source keys target
      end
  end.
Definition copy_fork_policy_metadata_from (source target : Session) : Fresh Session :=
  fresh! target := copy_policy_keys source FORK_POLICY_METADATA_ALLOWLIST target in
  fresh_map snd (insert_metadata FORK_POLICY_FROZEN_METADATA_KEY (Bool true) target).

Definition has_metadata s (key : string) : bool := bool_decide (is_Some (metadata s !! key)).
Definition fork_frozen_policy_keys s : list string :=
  filter (λ key, has_metadata s key = true) FORK_POLICY_METADATA_ALLOWLIST.
Definition fork_cache_stability_keys s : list string :=
  filter (λ key, has_metadata s key = true) FORK_CACHE_STABILITY_METADATA_KEYS.

(** [metadata.entry(key).or_insert(v)] *)
Definition entry_or_insert (key : string) (v : Value) (meta : Metadata) : Metadata :=
  match meta !! key with Some _ => meta | None => <[key := v]> meta end.

Definition imported_fork_history_message (source_session_id target_session_id : string)
    (source_message : SessionMessage) : SessionMessage :=
  let meta := <[FORK_IMPORTED_HISTORY_METADATA_KEY := Bool true]> (msg_metadata source_message) in
  let meta := entry_or_insert FORK_ORIGIN_SESSION_ID_METADATA_KEY (JString source_session_id) meta in
  let meta := entry_or_insert FORK_ORIGIN_MESSAGE_ID_METADATA_KEY (JString (msg_id source_message)) meta in
  let '(admission, authority) := origin_to_admission_authority ImportedHistory in
  let meta := apply_message_source_metadata ImportedHistory HttpApi meta in
  let meta := apply_message_admission_metadata admission authority meta in
  with_msg_metadata meta (with_msg_session_id target_session_id source_message).

Definition fork_explain s : option SessionForkExplain :=
  if decide (context_kind s = ExplicitFullHistoryFork) then
    origin ← fork_origin_session_id s;
    Some {| fe_origin_session_id := origin; fe_origin_message_id := fork_origin_message_id s;
            fe_history_mode := fork_history_mode s; fe_history_message_limit := fork_history_message_limit s;
            fe_source_history_messages := fork_source_history_message_count s;
            fe_imported_history_messages := imported_history_message_count s;
            fe_policy_frozen := fork_policy_frozen s; fe_frozen_policy_keys := fork_frozen_policy_keys s;
            fe_cache_stability_keys := fork_cache_stability_keys s;
            fe_lifecycle := {| usage_replay_scope := LocalOnly; revert_scope := LocalOnly;
                               recovery_scope := LocalOnly; compaction_scope := ForkPromptSurface |} |}
  else None.

(** ** Titles *)

Definition default_title_prefix s : string :=
  match parent_id s with
  | Some _ => if starts_with "Attached session - " (title s) then "Attached session - " else "Child session - "
  | None => "New session - "
  end.
Definition is_default_title s : bool :=
  match strip_prefix (default_title_prefix s) (title s) with
  | None => false
  | Some timestamp_part => bool_decide (is_Some (parse_from_rfc3339 timestamp_part))
  end.
Definition allows_auto_title_regeneration s : bool :=
  is_default_title s || default false (metadata s !! AUTO_TITLE_PENDING_REFINE_KEY ≫= as_bool).

(** [num + 1] on [u32] *)
Definition u32_succ (n : N) : N := ((n + 1) mod 2 ^ 32)%N.

Definition forked_title (t : string) : string :=
  let numbered :=
    if ends_with ")" t && contains " (fork #" t then
      pos ← rfind_sub " (fork #" t;
      num ← parse_u32 (str_take (String.length t - 1 - (pos + 8)) (str_drop (pos + 8) t));
      Some (str_take pos t +:+ " (fork #" +:+ dec_string (u32_succ num) +:+ ")")
    else None in
  default (t +:+ " (fork #1)") numbered.
Definition get_forked_title s : string := forked_title (title s).

(** ** Messages of a session *)

Definition add_message (make : Fresh SessionMessage) s : Fresh (SessionMessage * Session) :=
  fresh! m := make in
  fresh_map (pair m) (touch (with_messages (messages s ++ [m]) s)).
Definition add_user_message (text : string) s : Fresh (SessionMessage * Session) :=
  add_message (user_message (ses_id s) text) s.
Definition add_user_message_with_source (text : string) (origin : MessageSourceOrigin)
    (surface : MessageSourceSurface) s : Fresh (SessionMessage * Session) :=
  add_message (user_with_source (ses_id s) text origin surface) s.

Fixpoint add_attachments (attachments : list FilePart) m : Fresh SessionMessage :=
  match attachments with
  | [] => fresh_ret m
  | a :: rest =>
      fresh! m := add_file (fp_url a) (default "attachment" (fp_filename a)) (fp_mime a) m in
      add_attachments rest m
  end.
Definition add_synthetic_user_message (text : string) (attachments : list FilePart) s
    : Fresh (SessionMessage * Session) :=
  add_message
    (fresh! m := user_message (ses_id s) text in add_attachments attachments (mark_text_parts_synthetic m)) s.
Definition add_assistant_message s : Fresh (SessionMessage * Session) :=
  add_message (assistant_message (ses_id s)) s.

Definition add_tool_result (tool_call_id content : string) (is_error : bool) s : Fresh (string * Session) :=
  fresh! digits := uuid in
  let id := "msg_" +:+ digits in
  fresh! at_ := now in
  fresh! part := uuid in
  let m := {| msg_id := id; msg_session_id := ses_id s; role := Tool;
              parts := [{| part_id := "prt_" +:+ part;
                           part_type := ToolResultPart tool_call_id content is_error None None None;
                           part_created_at := at_; part_message_id := Some id |}];
              msg_created_at := at_; msg_metadata := ∅; msg_usage := None; finish := None |} in
  fresh_map (pair id) (touch (with_messages (messages s ++ [m]) s)).

Definition add_usage (input output : N) s : Session :=
  let u := default default_usage (usage s) in
  with_usage (Some {| input_tokens := u64_saturating_plus (input_tokens u) input;
                      output_tokens := u64_saturating_plus (output_tokens u) output;
                      reasoning_tokens := reasoning_tokens u; cache_write_tokens := cache_write_tokens u;
                      cache_read_tokens := cache_read_tokens u; cache_miss_tokens := cache_miss_tokens u;
                      context_tokens := context_tokens u; total_cost := total_cost u |}) s.

Definition has_role (r : MessageRole) m : bool := bool_decide (role m = r).
Definition last_user_message s : option SessionMessage := find_last (has_role User) (messages s).
Definition last_assistant_message s : option SessionMessage := find_last (has_role Assistant) (messages s).
Definition last_owner_local_assistant_message s : option SessionMessage :=
  find_last (λ m, has_role Assistant m && negb (is_imported_fork_history_message m)) (messages s).
Definition message_count s : nat := length (messages s).

Definition is_message (id : string) m : bool := bool_decide (msg_id m = id).
Definition is_part (id : string) p : bool := bool_decide (part_id p = id).
Definition get_message (id : string) s : option SessionMessage := find_first (is_message id) (messages s).
Definition is_imported_fork_history_message_id (message_id : string) s : bool :=
  default false (is_imported_fork_history_message <$> get_message message_id s).

(** A change made through [get_message_mut]. *)
Definition modify_message (id : string) (f : SessionMessage → SessionMessage) s : Session :=
  with_messages (update_first (is_message id) f (messages s)) s.

Definition remove_message (id : string) s : Fresh (option SessionMessage * Session) :=
  match position (is_message id) (messages s) with
  | Some pos =>
      fresh_map (pair (messages s !! pos)) (touch (with_messages (remove_at pos (messages s)) s))
  | None => fresh_ret (None, s)
  end.

Definition update_message m s : Fresh (option SessionMessage * Session) :=
  match position (is_message (msg_id m)) (messages s) with
  | Some pos => fresh_map (pair (Some m)) (touch (with_messages (<[pos := m]> (messages s)) s))
  | None => fresh_map (λ s', (last (messages s'), s')) (touch (with_messages (messages s ++ [m]) s))
  end.

(** The parts of a message with [part] in the place of the one with its identifier, or at the end. *)
Definition put_part (part : MessagePart) m : SessionMessage :=
  match position (is_part (part_id part)) (parts m) with
  | Some pos => with_parts (<[pos := part]> (parts m)) m
  | None => with_parts (parts m ++ [part]) m
  end.
Definition update_part (message_id : string) (part : MessagePart) s : Fresh (option MessagePart * Session) :=
  match get_message message_id s with
  | None => fresh_ret (None, s)
  | Some _ =>
      fresh_map
        (λ s', (m ← get_message message_id s'; find_first (is_part (part_id part)) (parts m), s'))
        (touch (modify_message message_id (put_part part) s))
  end.
Definition remove_part (message_id id : string) s : Fresh (option MessagePart * Session) :=
  match get_message message_id s with
  | None => fresh_ret (None, s)
  | Some m =>
      match position (is_part id) (parts m) with
      | Some pos =>
          fresh_map (pair (parts m !! pos))
            (touch (modify_message message_id (λ m, with_parts (remove_at pos (parts m)) m) s))
      | None => fresh_ret (None, s)
      end
  end.

(** ** Usage *)

Definition add_message_usage (u : SessionUsage) (mu : MessageUsage) : SessionUsage :=
  {| input_tokens := u64_plus (input_tokens u) (mu_input_tokens mu);
     output_tokens := u64_plus (output_tokens u) (mu_output_tokens mu);
     reasoning_tokens := u64_plus (reasoning_tokens u) (mu_reasoning_tokens mu);
     cache_write_tokens := u64_plus (cache_write_tokens u) (mu_cache_write_tokens mu);
     cache_read_tokens := u64_plus (cache_read_tokens u) (mu_cache_read_tokens mu);
     cache_miss_tokens := u64_plus (cache_miss_tokens u) (mu_cache_miss_tokens mu);
     context_tokens := context_tokens u; total_cost := f64_plus (total_cost u) (mu_total_cost mu) |}.
Definition with_context_tokens (v : N) (u : SessionUsage) : SessionUsage :=
  {| input_tokens := input_tokens u; output_tokens := output_tokens u; reasoning_tokens := reasoning_tokens u;
     cache_write_tokens := cache_write_tokens u; cache_read_tokens := cache_read_tokens u;
     cache_miss_tokens := cache_miss_tokens u; context_tokens := v; total_cost := total_cost u |}.
Definition count_usage (u : SessionUsage) m : SessionUsage :=
  match role m, msg_usage m with
  | Assistant, Some mu =>
      with_context_tokens (default 0%N (message_live_context_tokens mu))
        (if is_imported_fork_history_message m then u else add_message_usage u mu)
  | _, _ => u
  end.
Definition get_usage s : SessionUsage := fold_left count_usage (messages s) default_usage.

Definition latest_request_context_tokens s : option N :=
  head (omap (λ m, if has_role Assistant m && negb (is_imported_fork_history_message m)
                   then msg_usage m ≫= request_context_tokens else None) (reverse (messages s))).
Definition usage_books s : SessionUsageBooks :=
  let u := get_usage s in
  {| books_request_context_tokens := latest_request_context_tokens s;
     books_live_context_tokens := live_context_tokens u; workflow_cumulative := workflow_usage_summary u |}.

(** ** Setters *)

Definition share_session (url : string) s : Fresh Session := touch (with_share (Some {| share_url := url |}) s).
Definition unshare_session s : Fresh Session := touch (with_share None s).
Definition diff s : list FileDiff := default [] (summary s ≫= sum_diffs).

Definition set_title (t : string) s : Fresh Session :=
  touch (with_metadata (delete AUTO_TITLE_PENDING_REFINE_KEY (metadata s)) (with_title t s)).
Definition set_auto_title (t : string) s : Fresh Session :=
  touch (with_metadata (<[AUTO_TITLE_PENDING_REFINE_KEY := Bool true]> (metadata s)) (with_title t s)).

Definition set_archived (at_ : option Z) s : Fresh Session :=
  fresh! at_ := match at_ with
                | Some t => fresh_ret t
                | None => fresh_map timestamp_millis now
                end in
  touch (with_status Archived (with_time (with_time_archived (Some at_) (time s)) s)).
Definition set_permission (v : PermissionRuleset) s : Fresh Session := touch (with_permission (Some v) s).
Definition set_revert (v : SessionRevert) s : Fresh Session := touch (with_revert (Some v) s).
Definition clear_revert s : Fresh Session := touch (with_revert None s).
Definition set_summary (v : SessionSummary) s : Fresh Session := touch (with_summary (Some v) s).
Definition set_share (v : SessionShare) s : Fresh Session := touch (with_share (Some v) s).
Definition clear_share s : Fresh Session := touch (with_share None s).
Definition update_usage (v : SessionUsage) s : Fresh Session := touch (with_usage (Some v) s).
Definition start_compacting s : Fresh Session :=
  fresh! t := now in
  fresh_ret (with_status Compacting (with_time (with_time_compacting (Some (timestamp_millis t)) (time s)) s)).
Definition finish_compacting s : Fresh Session :=
  touch (with_status Active (with_time (with_time_compacting None (time s)) s)).
Definition complete s : Fresh Session := touch (with_status Completed s).

(** ** Rows *)

Record SessionRow := {
  row_id : string; row_slug : string; row_project_id : string; row_directory : string;
  row_parent_id : option string; row_title : string; row_version : string; row_time_created : Z;
  row_time_updated : Z; row_time_compacting : option Z; row_time_archived : option Z;
  row_share_url : option string; row_summary_additions : option N; row_summary_deletions : option N;
  row_summary_files : option N; row_revert : option SessionRevert; row_permission : option PermissionRuleset
}.

Definition to_row s : SessionRow :=
  {| row_id := ses_id s; row_slug := slug s; row_project_id := project_id s; row_directory := directory s;
     row_parent_id := parent_id s; row_title := title s; row_version := version s;
     row_time_created := time_created (time s); row_time_updated := time_updated (time s);
     row_time_compacting := time_compacting (time s); row_time_archived := time_archived (time s);
     row_share_url := share_url <$> share s; row_summary_additions := sum_additions <$> summary s;
     row_summary_deletions := sum_deletions <$> summary s; row_summary_files := sum_files <$> summary s;
     row_revert := revert_info s; row_permission := permission s |}.

(** [DateTime::from_timestamp_millis(m).unwrap_or_else(Utc::now)] *)
Definition time_of_millis (m : Z) : Fresh Z :=
  match from_timestamp_millis m with Some t => fresh_ret t | None => now end.

Definition from_row (row : SessionRow) : Fresh Session :=
  let summary_ :=
    if bool_decide (is_Some (row_summary_additions row)) || bool_decide (is_Some (row_summary_deletions row))
       || bool_decide (is_Some (row_summary_files row))
    then Some {| sum_additions := default 0%N (row_summary_additions row);
                 sum_deletions := default 0%N (row_summary_deletions row);
                 sum_files := default 0%N (row_summary_files row); sum_diffs := None |}
    else None in
  let status_ :=
    if bool_decide (is_Some (row_time_archived row)) then Archived
    else if bool_decide (is_Some (row_time_compacting row)) then Compacting else Active in
  fresh! created := time_of_millis (row_time_created row) in
  fresh! updated := time_of_millis (row_time_updated row) in
  fresh_ret
    {| ses_id := row_id row; slug := row_slug row; project_id := row_project_id row;
       directory := row_directory row; parent_id := row_parent_id row; title := row_title row;
       version := row_version row;
       time := {| time_created := row_time_created row; time_updated := row_time_updated row;
                  time_compacting := row_time_compacting row; time_archived := row_time_archived row |};
       messages := []; summary := summary_; share := Build_SessionShare <$> row_share_url row;
       revert_info := row_revert row; permission := row_permission row; usage := None; status := status_;
       metadata := ∅; created_at := created; updated_at := updated |}.
End Sessions.

(** ** What is shown of a message

    [sanitize_display_text]: it drops the tool calls that a model writes into its text, folds blank
    lines, and cuts a provider's response that follows the text.  The reader of JSON texts is a
    parameter. *)

Section SessionText.
(** [serde_json::from_str] *)
Context (from_str : string → option Value).

Definition looks_like_provider_response_json (value : Value) : bool :=
  match value with
  | Object object =>
      let has key := bool_decide (is_Some (object !! key)) in
      (has "choices" && (has "model" || has "usage" || has "id" || has "object"))
      || (has "candidates" && (has "usage" || has "model_version" || has "model"))
      || (has "output" && (has "model" || has "usage" || has "id"))
      || (has "message" && has "type" && (has "usage" || has "delta"))
  | _ => false
  end.

(** The text before a candidate, if what follows is a provider's response. *)
Definition cut_at (trimmed : string) (start_index : nat) : option string :=
  let candidate := trim_start (str_drop start_index trimmed) in
  if starts_with "{" candidate || starts_with "[" candidate then
    parsed ← from_str candidate;
    if looks_like_provider_response_json parsed then
      let prefix := trim_end (str_take start_index trimmed) in
      if bool_decide (prefix = "") then None else Some prefix
    else None
  else None.

Fixpoint first_cut (trimmed : string) (starts : list nat) : option string :=
  match starts with
  | [] => None
  | i :: rest => match cut_at trimmed i with Some prefix => Some prefix | None => first_cut trimmed rest end
  end.

Definition strip_trailing_provider_response_json (text : string) : string :=
  let trimmed := trim_end text in
  let candidate_starts :=
    omap id [rfind_sub (nl +:+ nl +:+ "{") trimmed; rfind_sub (nl +:+ "{") trimmed;
             rfind_sub (nl +:+ nl +:+ "[") trimmed; rfind_sub (nl +:+ "[") trimmed] in
  default trimmed (first_cut trimmed candidate_starts).

(** The lines kept so far, whether a tool call is open, and whether the last line kept is blank. *)
Record TextState := { kept_lines : list string; in_pseudo_invoke : bool; previous_blank : bool }.

Definition display_line (st : TextState) (raw_line : string) : TextState :=
  let trimmed := trim raw_line in
  if starts_with "minimax:tool_call" trimmed then st
  else if starts_with "<invoke " trimmed then
    {| kept_lines := kept_lines st; in_pseudo_invoke := true; previous_blank := previous_blank st |}
  else if in_pseudo_invoke st then
    if starts_with "</invoke>" trimmed then
      {| kept_lines := kept_lines st; in_pseudo_invoke := false; previous_blank := previous_blank st |}
    else st
  else if starts_with "<parameter " trimmed || starts_with "</invoke>" trimmed then st
  else if bool_decide (trimmed = "") then
    if previous_blank st then st
    else {| kept_lines := kept_lines st ++ [""]; in_pseudo_invoke := false; previous_blank := true |}
  else {| kept_lines := kept_lines st ++ [raw_line]; in_pseudo_invoke := false; previous_blank := false |}.

Definition display_lines (text : string) : list string :=
  kept_lines (fold_left display_line (lines text)
    {| kept_lines := []; in_pseudo_invoke := false; previous_blank := false |}).

Definition sanitize_display_text (text : string) : string :=
  trim (strip_trailing_provider_response_json (str_join nl (display_lines text))).
End SessionText.
