(* ===== verification/SessionManager.v ===== *)
(** * The session manager

    [SessionManager] of [agendao-session/src/session.rs]: the sessions in memory, the bounded
    queue of life cycle events, what is published on the bus and which plugin hooks are
    run.  [Arc::make_mut] makes a write to a session invisible to those who share
    it, so a session in the map is a value. *)

From S2P Require Import Prelude Json TextLines ShellCommand SessionTypes Sessions.
From stdpp Require Import options.

(** ** Data *)

Record SessionForkSpec := {
  fs_message_id : option string; fs_history_mode : SessionForkHistoryMode; fs_history_message_limit : option nat
}.
Inductive SessionForkError :=
| SessionNotFound | OriginMessageNotFound (id : string) | InvalidRequest (message : string).

Record SessionError := { err_code : string; err_message : string; err_details : option Value }.
Inductive SessionEvent :=
| CreatedEvent (info : SessionRow) | UpdatedEvent (info : SessionRow) | DeletedEvent (info : SessionRow)
| DiffEvent (session_id : string) (diff : list FileDiff)
| ErrorEvent (session_id : option string) (error : SessionError).

Definition SESSION_CREATED_EVENT : string := "session.created".
Definition SESSION_UPDATED_EVENT : string := "session.updated".
Definition SESSION_DELETED_EVENT : string := "session.deleted".
Definition SESSION_DIFF_EVENT : string := "session.diff".
Definition SESSION_ERROR_EVENT : string := "session.error".
Definition MESSAGE_UPDATED_EVENT : string := "message.updated".
Definition MESSAGE_REMOVED_EVENT : string := "message.removed".
Definition PART_UPDATED_EVENT : string := "message.part.updated".
Definition PART_REMOVED_EVENT : string := "message.part.removed".
Definition PART_DELTA_EVENT : string := "message.part.delta".
Definition COMMAND_EXECUTED_EVENT : string := "command.executed".

(** What is published: the JSON of a row, a message or a part under its key, or an object. *)
Inductive BusProperties :=
| InfoOfRow (row : SessionRow) | InfoOfMessage (m : SessionMessage) | PartOf (p : MessagePart)
| JsonProperties (v : Value).

Inductive HookEvent := SessionStart | SessionEnd.

Definition SESSION_EVENT_QUEUE_CAP : nat := 256.

(** [published] and [hooks] are the tasks that were spawned to publish and to run hooks. *)
Record SessionManager := {
  sessions : gmap string Session; events : list SessionEvent; bus : bool;
  published : list (string * BusProperties); hooks : list (HookEvent * string)
}.

Record SessionFilter := {
  sf_directory : option string; sf_roots : bool; sf_start : option Z; sf_search : option string;
  sf_limit : option nat
}.

Section Manager.
Context `{SessionEnv}.
(** Whether the caller runs inside of a tokio runtime: [Handle::try_current()]. *)
Context (in_runtime : bool).

Implicit Types (M : SessionManager) (s : Session) (m : SessionMessage) (p : MessagePart).

Definition with_sessions (v : gmap string Session) M : SessionManager :=
  {| sessions := v; events := events M; bus := bus M; published := published M; hooks := hooks M |}.
Definition put_session s M : SessionManager := with_sessions (<[ses_id s := s]> (sessions M)) M.

Definition manager_new : SessionManager :=
  {| sessions := ∅; events := []; bus := false; published := []; hooks := [] |}.
Definition with_bus : SessionManager :=
  {| sessions := ∅; events := []; bus := true; published := []; hooks := [] |}.
Definition set_bus M : SessionManager :=
  {| sessions := sessions M; events := events M; bus := true; published := published M; hooks := hooks M |}.

(** ** Events *)

Definition push_event (e : SessionEvent) M : SessionManager :=
  let queue := if SESSION_EVENT_QUEUE_CAP <=? length (events M) then tail (events M) else events M in
  {| sessions := sessions M; events := queue ++ [e]; bus := bus M; published := published M; hooks := hooks M |}.

Definition publish_event (def : string) (properties : BusProperties) M : SessionManager :=
  if bus M && in_runtime then
    {| sessions := sessions M; events := events M; bus := bus M; published := published M ++ [(def, properties)];
       hooks := hooks M |}
  else M.
Definition publish_session_event (def : string) s M : SessionManager := publish_event def (InfoOfRow (to_row s)) M.
Definition publish_message_event (def : string) m M : SessionManager := publish_event def (InfoOfMessage m) M.
Definition publish_part_event (def : string) p M : SessionManager := publish_event def (PartOf p) M.

Definition json_object (members : list (string * Value)) : Value := Object (list_to_map members).

Definition publish_part_delta (session_id message_id id field delta : string) M : SessionManager :=
  publish_event PART_DELTA_EVENT
    (JsonProperties (json_object
      [("sessionID", JString session_id); ("messageID", JString message_id); ("partID", JString id);
       ("field", JString field); ("delta", JString delta)])) M.
Definition publish_command_executed (command_name session_id : string) (arguments : list string)
    (message_id : string) M : SessionManager :=
  publish_event COMMAND_EXECUTED_EVENT
    (JsonProperties (json_object
      [("name", JString command_name); ("sessionID", JString session_id);
       ("arguments", Array (JString <$> arguments)); ("messageID", JString message_id)])) M.
Definition publish_error (session_id : option string) (error : Value) M : SessionManager :=
  let props := json_object [("error", error)] in
  publish_event SESSION_ERROR_EVENT
    (JsonProperties (match session_id with
                     | Some sid => set_member "sessionID" (JString sid) props
                     | None => props
                     end)) M.
Definition diff_json (d : FileDiff) : Value :=
  json_object [("path", JString (fd_path d)); ("additions", json_u64 (fd_additions d));
               ("deletions", json_u64 (fd_deletions d))].
Definition publish_diff (session_id : string) (diffs : list FileDiff) M : SessionManager :=
  publish_event SESSION_DIFF_EVENT
    (JsonProperties (json_object [("sessionID", JString session_id); ("diff", Array (diff_json <$> diffs))])) M.

(** A plugin hook that is run in the background. *)
Definition run_hook (h : HookEvent) (session_id : string) M : SessionManager :=
  if in_runtime then
    {| sessions := sessions M; events := events M; bus := bus M; published := published M;
       hooks := hooks M ++ [(h, session_id)] |}
  else M.

(** The event of a session goes to the queue and to the bus. *)
Definition announce_created s M : SessionManager :=
  publish_session_event SESSION_CREATED_EVENT s (push_event (CreatedEvent (to_row s)) M).
Definition announce_updated s M : SessionManager :=
  publish_session_event SESSION_UPDATED_EVENT s (push_event (UpdatedEvent (to_row s)) M).
Definition announce_deleted s M : SessionManager :=
  publish_session_event SESSION_DELETED_EVENT s (push_event (DeletedEvent (to_row s)) M).

(** ** Sessions come and go *)

Definition create (project dir : string) M : Fresh (Session * SessionManager) :=
  fresh! s := session_new project dir in
  fresh_ret (s, run_hook SessionStart (ses_id s) (announce_created s (put_session s M))).

(** The messages up to the one a fork starts from. *)
Definition fork_source_messages (original : Session) (message_id : option string)
    : result SessionForkError (list SessionMessage) :=
  match message_id with
  | Some id =>
      match position (is_message id) (messages original) with
      | Some cutoff => Ok (take (S cutoff) (messages original))
      | None => Err (OriginMessageNotFound id)
      end
  | None => Ok (messages original)
  end.

(** The messages that a fork takes over. *)
Definition fork_history (spec : SessionForkSpec) (source_messages : list SessionMessage)
    : result SessionForkError (list SessionMessage) :=
  match fs_history_mode spec with
  | NoHistory =>
      match fs_history_message_limit spec with
      | Some _ => Err (InvalidRequest "`history_message_limit` is only valid when `history_mode=last_n`")
      | None => Ok []
      end
  | AllHistory =>
      match fs_history_message_limit spec with
      | Some _ => Err (InvalidRequest "`history_message_limit` is only valid when `history_mode=last_n`")
      | None => Ok source_messages
      end
  | LastN =>
      match fs_history_message_limit spec with
      | None => Err (InvalidRequest "`history_mode=last_n` requires a positive `history_message_limit`")
      | Some limit =>
          if limit =? 0 then Err (InvalidRequest "`history_message_limit` must be greater than 0")
          else Ok (drop (length source_messages - limit) source_messages)
      end
  end.

(** What a fork records about its origin. *)
Definition fork_metadata (session_id : string) (spec : SessionForkSpec) (source_count : nat) (meta : Metadata)
    : Metadata :=
  let meta := <[FORK_ORIGIN_SESSION_ID_METADATA_KEY := JString session_id]> meta in
  let meta := <[FORK_HISTORY_MODE_METADATA_KEY := JString (history_mode_name (fs_history_mode spec))]> meta in
  let meta := <[FORK_SOURCE_HISTORY_MESSAGE_COUNT_METADATA_KEY := json_u64 (N.of_nat source_count)]> meta in
  let meta := match fs_history_message_limit spec with
              | Some limit => <[FORK_HISTORY_MESSAGE_LIMIT_METADATA_KEY := json_u64 (N.of_nat limit)]> meta
              | None => meta
              end in
  match fs_message_id spec with
  | Some id => <[FORK_ORIGIN_MESSAGE_ID_METADATA_KEY := JString id]> meta
  | None => meta
  end.

Definition fork (session_id : string) (spec : SessionForkSpec) M
    : Fresh (result SessionForkError Session * SessionManager) :=
  match sessions M !! session_id with
  | None => fresh_ret (Err SessionNotFound, M)
  | Some original =>
      let new_title := get_forked_title original in
      fresh! forked := fork_from original in
      fresh! forked := copy_fork_policy_metadata_from original forked in
      match fork_source_messages original (fs_message_id spec) with
      | Err e => fresh_ret (Err e, M)
      | Ok source_messages =>
          match fork_history spec source_messages with
          | Err e => fresh_ret (Err e, M)
          | Ok history =>
              let imported := imported_fork_history_message session_id (ses_id forked) <$> history in
              let forked :=
                with_metadata (fork_metadata session_id spec (length source_messages) (metadata forked))
                  (with_messages imported (with_title new_title (with_parent_id None forked))) in
              fresh_ret (Ok forked, announce_created forked (put_session forked M))
          end
      end
  end.

(** A change of a session that is announced. *)
Definition update_stored (session_id : string) (change : Session → Fresh Session) M
    : Fresh (option Session * SessionManager) :=
  match sessions M !! session_id with
  | None => fresh_ret (None, M)
  | Some s =>
      fresh! s := change s in
      fresh_ret (Some s, announce_updated s (with_sessions (<[session_id := s]> (sessions M)) M))
  end.
Definition manager_share (session_id url : string) M : Fresh (option Session * SessionManager) :=
  update_stored session_id (set_share {| share_url := url |}) M.
Definition manager_unshare (session_id : string) M : Fresh (option Session * SessionManager) :=
  update_stored session_id clear_share M.
Definition manager_set_archived (session_id : string) (at_ : option Z) M : Fresh (option Session * SessionManager) :=
  update_stored session_id (set_archived at_) M.
Definition manager_set_permission (session_id : string) (v : PermissionRuleset) M
    : Fresh (option Session * SessionManager) :=
  update_stored session_id (set_permission v) M.
Definition manager_set_revert (session_id : string) (v : SessionRevert) M : Fresh (option Session * SessionManager) :=
  update_stored session_id (set_revert v) M.
Definition manager_clear_revert (session_id : string) M : Fresh (option Session * SessionManager) :=
  update_stored session_id clear_revert M.
Definition manager_set_summary (session_id : string) (v : SessionSummary) M
    : Fresh (option Session * SessionManager) :=
  update_stored session_id (set_summary v) M.

Definition get (id : string) M : option Session := sessions M !! id.
Definition get_shared (id : string) M : option Session := sessions M !! id.
(** A write through [get_mut]. *)
Definition modify_session (id : string) (f : Session → Session) M : SessionManager :=
  with_sessions (alter f id (sessions M)) M.
Definition list_sessions M : list Session := hash_values (sessions M).

Definition matches_list_search s (search : string) : bool :=
  let needle := to_ascii_lowercase (trim search) in
  if bool_decide (needle = "") then true else contains needle (to_ascii_lowercase (title s)).
Definition passes_filter (f : SessionFilter) s : bool :=
  match sf_directory f with Some dir => bool_decide (directory s = dir) | None => true end
  && negb (sf_roots f && bool_decide (is_Some (parent_id s)))
  && match sf_start f with Some start => negb (time_updated (time s) <? start)%Z | None => true end
  && match sf_search f with Some search => matches_list_search s search | None => true end.
Definition list_filtered (f : SessionFilter) M : list Session :=
  filter (λ s, passes_filter f s = true) (hash_values (sessions M)).

Definition manager_delete (id : string) M : option Session * SessionManager :=
  match sessions M !! id with
  | None => (None, M)
  | Some s =>
      (Some s, run_hook SessionEnd (ses_id s) (announce_deleted s (with_sessions (delete id (sessions M)) M)))
  end.
Definition update s M : SessionManager := announce_updated s (put_session s M).
Definition restore s M : SessionManager := put_session s M.

Definition drain_events M : list SessionEvent * SessionManager :=
  (events M, {| sessions := sessions M; events := []; bus := bus M; published := published M; hooks := hooks M |}).
Definition count M : nat := size (sessions M).
Definition events_count M : nat := length (events M).

(** ** Messages and parts, with their events *)

Definition store (session_id : string) s M : SessionManager :=
  with_sessions (<[session_id := s]> (sessions M)) M.

Definition manager_update_message (session_id : string) m M : Fresh (option unit * SessionManager) :=
  match sessions M !! session_id with
  | None => fresh_ret (None, M)
  | Some s =>
      fresh! r := update_message m s in
      fresh_ret (Some tt, publish_message_event MESSAGE_UPDATED_EVENT m (store session_id (snd r) M))
  end.
Definition manager_remove_message (session_id message_id : string) M
    : Fresh (option SessionMessage * SessionManager) :=
  match sessions M !! session_id with
  | None => fresh_ret (None, M)
  | Some s =>
      fresh! r := remove_message message_id s in
      let M' := store session_id (snd r) M in
      fresh_ret
        match fst r with
        | None => (None, M')
        | Some m =>
            (Some m, publish_event MESSAGE_REMOVED_EVENT
              (JsonProperties (json_object [("sessionID", JString session_id); ("messageID", JString message_id)])) M')
        end
  end.
Definition manager_update_part (session_id message_id : string) p M : Fresh (option unit * SessionManager) :=
  match sessions M !! session_id with
  | None => fresh_ret (None, M)
  | Some s =>
      fresh! r := update_part message_id p s in
      fresh_ret (Some tt, publish_part_event PART_UPDATED_EVENT p (store session_id (snd r) M))
  end.
Definition manager_remove_part (session_id message_id id : string) M : Fresh (option MessagePart * SessionManager) :=
  match sessions M !! session_id with
  | None => fresh_ret (None, M)
  | Some s =>
      fresh! r := remove_part message_id id s in
      let M' := store session_id (snd r) M in
      fresh_ret
        match fst r with
        | None => (None, M')
        | Some p =>
            (Some p, publish_event PART_REMOVED_EVENT
              (JsonProperties (json_object
                [("sessionID", JString session_id); ("messageID", JString message_id); ("partID", JString id)])) M')
        end
  end.
End Manager.

(** ** Run states *)

Inductive RunStatus := Idle | Busy | Retrying (attempt : N) (message : string) (next : Z).

Definition SessionStateManager : Type := gmap string RunStatus.
Definition state_set (session_id : string) (st : RunStatus) (S : SessionStateManager) : SessionStateManager :=
  <[session_id := st]> S.
Definition state_get (session_id : string) (S : SessionStateManager) : RunStatus := default Idle (S !! session_id).
Definition is_busy (session_id : string) (S : SessionStateManager) : bool :=
  match state_get session_id S with Busy | Retrying _ _ _ => true | Idle => false end.
Record BusyError := { busy_session_id : string }.
Definition assert_not_busy (session_id : string) (S : SessionStateManager) : result BusyError unit :=
  if is_busy session_id S then Err {| busy_session_id := session_id |} else Ok tt.
Definition set_busy (session_id : string) (S : SessionStateManager) : SessionStateManager :=
  state_set session_id Busy S.
Definition set_retrying (session_id : string) (attempt : N) (message : string) (next : Z)
    (S : SessionStateManager) : SessionStateManager :=
  state_set session_id (Retrying attempt message next) S.
Definition set_idle (session_id : string) (S : SessionStateManager) : SessionStateManager :=
  state_set session_id Idle S.
Definition state_remove (session_id : string) (S : SessionStateManager) : SessionStateManager :=
  delete session_id S.
