(* ===== verification/SessionRevert.v ===== *)
(** * Going back in a session

    [agendao-session/src/revert.rs], with [track], [restore], [diff] and [diff_full] of
    [snapshot.rs].  What git does to the work tree [W] is a parameter. *)

From S2P Require Import Prelude Json TextLines SessionTypes Sessions SessionManager.
From stdpp Require Import options.

(** ** Snapshots *)

(** [create_dir_all], the test for [HEAD], [git init] and [git_output] in the snapshot
    repository of the work tree; the output of git is its text. *)
Class SnapshotEnv (W : Type) := {
  create_dir_all : W → bool * W;
  head_exists : W → bool;
  git_init : W → bool * W;
  git_output : list string → W → option string * W
}.

Inductive SnapshotError :=
| NoDirectory | InitFailed | GitFailed (args : list string) | AddFailed.

Section Snapshot.
Context `{SnapshotEnv W}.

Definition ensure_snapshot_repo (w : W) : result SnapshotError unit * W :=
  let '(made, w) := create_dir_all w in
  if negb made then (Err NoDirectory, w)
  else if head_exists w then (Ok tt, w)
  else
    let '(initialized, w) := git_init w in
    if negb initialized then (Err InitFailed, w)
    else let '(_, w) := git_output ["config"; "core.autocrlf"; "false"] w in (Ok tt, w).

Definition exclusions : list string :=
  [":(exclude).agendao/snapshot"; ":!/.agendao/snapshot"; ":!.agendao/snapshot"].
Fixpoint git_add_first (specs : list string) (w : W) : result SnapshotError unit * W :=
  match specs with
  | [] => (Err AddFailed, w)
  | spec :: specs =>
      match git_output ["add"; "-A"; "--"; "."; spec] w with
      | (Some _, w) => (Ok tt, w)
      | (None, w) => git_add_first specs w
      end
  end.
Definition git_add_all (w : W) : result SnapshotError unit * W := git_add_first exclusions w.

Definition track (w : W) : result SnapshotError string * W :=
  match ensure_snapshot_repo w with
  | (Err e, w) => (Err e, w)
  | (Ok _, w) =>
      match git_add_all w with
      | (Err e, w) => (Err e, w)
      | (Ok _, w) =>
          match git_output ["write-tree"] w with
          | (None, w) => (Err (GitFailed ["write-tree"]), w)
          | (Some out, w) => (Ok (trim out), w)
          end
      end
  end.

Definition restore_snapshot (snapshot : string) (w : W) : result SnapshotError unit * W :=
  match ensure_snapshot_repo w with
  | (Err e, w) => (Err e, w)
  | (Ok _, w) =>
      match git_output ["read-tree"; snapshot] w with
      | (None, w) => (Err (GitFailed ["read-tree"; snapshot]), w)
      | (Some _, w) =>
          match git_output ["checkout-index"; "-a"; "-f"] w with
          | (None, w) => (Err (GitFailed ["checkout-index"; "-a"; "-f"]), w)
          | (Some _, w) => (Ok tt, w)
          end
      end
  end.

Definition tab : Ascii.ascii := Ascii.ascii_of_nat 9.
(** A number of a line of [git diff --numstat]: [parse::<u64>().unwrap_or(0)]. *)
Definition parse_count (s : string) : N :=
  match parse_digits_text (default s (strip_prefix "+" s)) with
  | Some n => if (n <? 2 ^ 64)%N then n else 0%N
  | None => 0%N
  end.
Definition numstat_line (line : string) : option FileDiff :=
  if bool_decide (line = "") then None
  else
    match split_on tab line with
    | a :: d :: path :: _ =>
        let is_binary := bool_decide (a = "-") && bool_decide (d = "-") in
        Some {| fd_path := path; fd_additions := if is_binary then 0%N else parse_count a;
                fd_deletions := if is_binary then 0%N else parse_count d |}
    | _ => None
    end.
Definition parse_numstat (out : option string) : list FileDiff :=
  match out with Some text => omap numstat_line (lines text) | None => [] end.

Definition snapshot_diff (from_hash : string) (w : W) : result SnapshotError (list FileDiff) * W :=
  match ensure_snapshot_repo w with
  | (Err e, w) => (Err e, w)
  | (Ok _, w) =>
      match git_add_all w with
      | (Err e, w) => (Err e, w)
      | (Ok _, w) =>
          let '(out, w) :=
            git_output ["-c"; "core.autocrlf=false"; "-c"; "core.quotepath=false"; "diff"; "--no-ext-diff";
                        "--numstat"; from_hash; "--"; "."] w in
          (Ok (parse_numstat out), w)
      end
  end.
Definition diff_full (from to : string) (w : W) : result SnapshotError (list FileDiff) * W :=
  match ensure_snapshot_repo w with
  | (Err e, w) => (Err e, w)
  | (Ok _, w) =>
      let '(out, w) :=
        git_output ["-c"; "core.autocrlf=false"; "-c"; "core.quotepath=false"; "diff"; "--no-ext-diff";
                    "--no-renames"; "--numstat"; from; to; "--"; "."] w in
      (Ok (parse_numstat out), w)
  end.
End Snapshot.

(** ** Reverting *)

Record RevertInput := { ri_session_id : string; ri_message_id : string; ri_part_id : option string }.
Record RevertInfo := {
  rev_message_id : string; rev_part_id : option string; rev_snapshot : option string; rev_diff : option string
}.

(** The last message of the user so far, and the point that was found. *)
Definition revert_step (input : RevertInput) (acc : option string * option RevertInfo) (m : SessionMessage)
    : option string * option RevertInfo :=
  let '(last_user_id, revert) := acc in
  let last_user_id := if decide (role m = User) then Some (msg_id m) else last_user_id in
  match revert with
  | Some _ => (last_user_id, revert)
  | None =>
      let revert :=
        if bool_decide (msg_id m = ri_message_id input) && bool_decide (ri_part_id input = None) then
          Some {| rev_message_id := default (msg_id m) last_user_id; rev_part_id := None; rev_snapshot := None;
                  rev_diff := None |}
        else None in
      let revert :=
        if existsb (λ p, bool_decide (Some (part_id p) = ri_part_id input)) (parts m) then
          Some {| rev_message_id := msg_id m; rev_part_id := ri_part_id input; rev_snapshot := None;
                  rev_diff := None |}
        else revert in
      (last_user_id, revert)
  end.
Definition revert_point (input : RevertInput) (messages : list SessionMessage) : option RevertInfo :=
  snd (fold_left (revert_step input) messages (None, None)).

Section Revert.
Context `{SessionEnv} `{SnapshotEnv W}.
(** [serde_json::to_string] of the list of files *)
Context (diffs_to_string : list FileDiff → string).

Definition revert (input : RevertInput) (M : SessionManager) (w : W)
    : Fresh (result SnapshotError (option Session) * SessionManager * W) :=
  match get (ri_session_id input) M with
  | None => fresh_ret (Ok None, M, w)
  | Some session =>
      match revert_point input (messages session) with
      | None => fresh_ret (Ok (Some session), M, w)
      | Some rev =>
          let '(snapshot, w) :=
            match revert_info session ≫= rv_snapshot with
            | Some existing => (existing, w)
            | None => let '(r, w) := track w in (match r with Ok hash => hash | Err _ => "" end, w)
            end in
          match snapshot_diff snapshot w with
          | (Err e, w) => fresh_ret (Err e, M, w)
          | (Ok diffs, w) =>
              fresh! s := set_revert
                {| rv_message_id := rev_message_id rev; rv_part_id := rev_part_id rev;
                   rv_snapshot := Some snapshot;
                   rv_diff := match diffs with [] => None | _ => Some (diffs_to_string diffs) end |} session in
              fresh_ret (Ok (Some s), store (ri_session_id input) s M, w)
          end
      end
  end.

Definition unrevert (session_id : string) (M : SessionManager) (w : W)
    : Fresh (result SnapshotError (option Session) * SessionManager * W) :=
  match get session_id M with
  | None => fresh_ret (Ok None, M, w)
  | Some session =>
      match revert_info session with
      | None => fresh_ret (Ok (Some session), M, w)
      | Some r =>
          let w := match rv_snapshot r with
                   | Some snapshot => snd (restore_snapshot snapshot w)
                   | None => w
                   end in
          fresh! s := clear_revert session in
          fresh_ret (Ok (Some s), store session_id s M, w)
      end
  end.

(** The messages before the point in the order of their identifiers, and the message of the point when a
    part is given. *)
Definition cleanup_step (r : RevertInfo) (acc : list SessionMessage * option SessionMessage) (m : SessionMessage)
    : list SessionMessage * option SessionMessage :=
  let '(preserve, target) := acc in
  if String.ltb (msg_id m) (rev_message_id r) then (preserve ++ [m], target)
  else if String.ltb (rev_message_id r) (msg_id m) then acc
  else if bool_decide (is_Some (rev_part_id r)) then (preserve, Some m)
  else acc.
Definition cleanup_messages (r : RevertInfo) (messages : list SessionMessage) : list SessionMessage :=
  let '(preserve, target_msg) := fold_left (cleanup_step r) messages ([], None) in
  match rev_part_id r, target_msg with
  | Some id, Some target =>
      match position (is_part id) (parts target) with
      | Some start => preserve ++ [with_parts (take start (parts target)) target]
      | None => preserve
      end
  | _, _ => preserve
  end.
Definition cleanup (session_id : string) (r : RevertInfo) (M : SessionManager) : Fresh SessionManager :=
  match get session_id M with
  | None => fresh_ret M
  | Some session =>
      fresh! s := clear_revert (with_messages (cleanup_messages r (messages session)) session) in
      fresh_ret (store session_id s M)
  end.

(** ** Which files a session changed *)

(** One line of the longer text: the row of the table after [prev]; [curr] is the row that is filled. *)
Definition lcs_entry (prev : list N) (long_line : string) (curr : list N) (j : nat) (short_line : string) : list N :=
  <[S j := if bool_decide (long_line = short_line) then (prev !!! j + 1)%N
           else N.max (curr !!! j) (prev !!! S j)]> curr.
Fixpoint lcs_row (prev : list N) (long_line : string) (j : nat) (short : list string) (curr : list N) : list N :=
  match short with
  | [] => curr
  | short_line :: short => lcs_row prev long_line (S j) short (lcs_entry prev long_line curr j short_line)
  end.
(** The two rows after a line: they are swapped, and the old one is cleared. *)
Definition lcs_line (short : list string) (rows : list N * list N) (long_line : string) : list N * list N :=
  let '(prev, curr) := rows in
  (lcs_row prev long_line 0 short curr, replicate (length prev) 0%N).
Definition lcs_length (a b : list string) : N :=
  let '(short, long) := if length a <=? length b then (a, b) else (b, a) in
  let row := replicate (length short + 1) 0%N in
  default 0%N (last (fst (fold_left (lcs_line short) long (row, row)))).

Definition count_line_changes (old new : string) : N * N :=
  if bool_decide (old = new) then (0, 0)%N
  else
    let old_lines := lines old in
    let new_lines := lines new in
    match old_lines, new_lines with
    | [], _ => (N.of_nat (length new_lines), 0%N)
    | _, [] => (0%N, N.of_nat (length old_lines))
    | _, _ =>
        let lcs_len := lcs_length old_lines new_lines in
        ((N.of_nat (length new_lines) - lcs_len)%N, (N.of_nat (length old_lines) - lcs_len)%N)
    end.

Definition snapshot_hash (key : string) (m : SessionMessage) : option string :=
  match msg_metadata m !! key with
  | Some (JString s) => if bool_decide (s = "") then None else Some s
  | _ => None
  end.
(** [if x.is_none() { x = y }] *)
Definition or_else {A} (x y : option A) : option A := match x with Some _ => x | None => y end.
Definition snapshot_range (messages : list SessionMessage) : option string * option string :=
  fold_left
    (λ '(from, to) m,
      let from := or_else from (snapshot_hash "step_start_snapshot" m) in
      let to := or_else (snapshot_hash "step_finish_snapshot" m) to in
      (or_else from (snapshot_hash "snapshot" m), to))
    messages (None, None).

Abbreviation FileStats := (gmap string (N * N)).
Definition count_patch (stats : FileStats) (p : MessagePart) : FileStats :=
  match part_type p with
  | PatchPart old_string new_string filepath =>
      let '(additions, deletions) := count_line_changes old_string new_string in
      let '(a, d) := default (0, 0)%N (stats !! filepath) in
      <[filepath := (u64_plus a additions, u64_plus d deletions)]> stats
  | _ => stats
  end.
Definition patch_stats (messages : list SessionMessage) : FileStats :=
  fold_left (λ stats m, fold_left count_patch (parts m) stats) messages ∅.

Definition path_leb (a b : FileDiff) : Prop := str_leb (fd_path a) (fd_path b).
#[export] Instance path_leb_dec : RelDecision path_leb.
Proof. intros a b. unfold path_leb. apply _. Defined.
Definition diff_of_entry (entry : string * (N * N)) : FileDiff :=
  {| fd_path := fst entry; fd_additions := fst (snd entry); fd_deletions := snd (snd entry) |}.

Definition compute_diff (messages : list SessionMessage) (w : W) : result SnapshotError (list FileDiff) * W :=
  let patches := merge_sort path_leb (diff_of_entry <$> hash_entries (patch_stats messages)) in
  match snapshot_range messages with
  | (Some from, Some to) =>
      match diff_full from to w with
      | (Err e, w) => (Err e, w)
      | (Ok [], w) => (Ok patches, w)
      | (Ok diffs, w) => (Ok diffs, w)
      end
  | _ => (Ok patches, w)
  end.
End Revert.
