(* ===== verification/SessionTodo.v ===== *)
(** * Todo lists and run states of sessions

    [agendao-session/src/todo.rs] with its table ([TodoRepository] of
    [agendao-storage/src/repository.rs]), and [status.rs].  Calls run one after another; a query
    of the table may fail. *)

From S2P Require Import Prelude Json SessionTypes.
From stdpp Require Import options.

(** ** The table *)

Record TodoInfo := { td_content : string; td_status : string; td_priority : string }.
Record TodoItem := {
  ti_id : string; ti_content : string; ti_status : string; ti_priority : string; ti_position : Z
}.

(** The rows of each session by their identifier, the primary key. *)
Abbreviation TodoTable := (gmap string (gmap string TodoItem)).
Definition session_rows (session_id : string) (t : TodoTable) : gmap string TodoItem :=
  default ∅ (t !! session_id).

Definition upsert_row (session_id : string) (todo : TodoItem) (t : TodoTable) : TodoTable :=
  <[session_id := <[ti_id todo := todo]> (session_rows session_id t)]> t.
Definition delete_row (session_id todo_id : string) (t : TodoTable) : TodoTable :=
  <[session_id := delete todo_id (session_rows session_id t)]> t.
Definition delete_rows_for_session (session_id : string) (t : TodoTable) : TodoTable :=
  <[session_id := ∅]> t.

Definition position_leb (a b : TodoItem) : Prop := (ti_position a ≤ ti_position b)%Z.
#[export] Instance position_leb_dec : RelDecision position_leb.
Proof. intros a b. unfold position_leb. apply _. Defined.
(** [ORDER BY position ASC] *)
Definition rows_by_position `{SessionEnv} (session_id : string) (t : TodoTable) : list TodoItem :=
  merge_sort position_leb (hash_values (session_rows session_id t)).

(** ** The manager *)

Definition TODO_UPDATED_EVENT : string := "todo.updated".

(** [td_queries] counts the queries made so far. *)
Record TodoManager := {
  td_state : gmap string (list TodoInfo); td_db : option TodoTable; td_queries : nat; td_bus : bool;
  td_published : list (string * Value)
}.

Section Todos.
Context `{SessionEnv}.
(** Whether the n-th query fails. *)
Context (query_fails : nat → bool).

Implicit Types (T : TodoManager).

Definition todo_new : TodoManager :=
  {| td_state := ∅; td_db := None; td_queries := 0; td_bus := false; td_published := [] |}.
Definition with_database (t : TodoTable) : TodoManager :=
  {| td_state := ∅; td_db := Some t; td_queries := 0; td_bus := false; td_published := [] |}.
Definition todo_with_bus : TodoManager :=
  {| td_state := ∅; td_db := None; td_queries := 0; td_bus := true; td_published := [] |}.

Definition with_todos (v : gmap string (list TodoInfo)) T : TodoManager :=
  {| td_state := v; td_db := td_db T; td_queries := td_queries T; td_bus := td_bus T;
     td_published := td_published T |}.
(** A statement that is sent to the table, if there is one; when it fails a warning is logged. *)
Definition query (change : TodoTable → TodoTable) T : TodoManager :=
  match td_db T with
  | None => T
  | Some t =>
      {| td_state := td_state T; td_db := Some (if query_fails (td_queries T) then t else change t);
         td_queries := S (td_queries T); td_bus := td_bus T; td_published := td_published T |}
  end.

Definition todo_id (session_id : string) (i : nat) : string := session_id +:+ "_" +:+ dec_string (N.of_nat i).
Definition item_of (session_id : string) (i : nat) (todo : TodoInfo) : TodoItem :=
  {| ti_id := todo_id session_id i; ti_content := td_content todo; ti_status := td_status todo;
     ti_priority := td_priority todo; ti_position := Z.of_nat i |}.
Definition info_of (item : TodoItem) : TodoInfo :=
  {| td_content := ti_content item; td_status := ti_status item; td_priority := ti_priority item |}.

Fixpoint upsert_all (session_id : string) (i : nat) (todos : list TodoInfo) T : TodoManager :=
  match todos with
  | [] => T
  | todo :: rest => upsert_all session_id (S i) rest (query (upsert_row session_id (item_of session_id i todo)) T)
  end.

Definition todo_json (todo : TodoInfo) : Value :=
  Object (list_to_map [("content", JString (td_content todo)); ("status", JString (td_status todo));
                       ("priority", JString (td_priority todo))]).
Definition publish_todos (session_id : string) (todos : list TodoInfo) T : TodoManager :=
  if td_bus T then
    {| td_state := td_state T; td_db := td_db T; td_queries := td_queries T; td_bus := true;
       td_published := td_published T
         ++ [(TODO_UPDATED_EVENT,
              Object (list_to_map [("sessionID", JString session_id); ("todos", Array (todo_json <$> todos))]))] |}
  else T.

Definition todo_update (session_id : string) (todos : list TodoInfo) T : TodoManager :=
  let T := upsert_all session_id 0 todos (query (delete_rows_for_session session_id) T) in
  let T := match todos with
           | [] => with_todos (delete session_id (td_state T)) T
           | _ => with_todos (<[session_id := todos]> (td_state T)) T
           end in
  publish_todos session_id todos T.

Definition todo_get (session_id : string) T : list TodoInfo * TodoManager :=
  let in_memory := default [] (td_state T !! session_id) in
  match td_db T with
  | None => (in_memory, T)
  | Some t =>
      (if query_fails (td_queries T) then in_memory else info_of <$> rows_by_position session_id t, query id T)
  end.

Definition todo_clear (session_id : string) T : TodoManager :=
  let T := query (delete_rows_for_session session_id) T in
  with_todos (delete session_id (td_state T)) T.

Definition todo_set_status (session_id : string) (index : nat) (st : string) T : bool * TodoManager :=
  match td_state T !! session_id with
  | Some todos =>
      match todos !! index with
      | Some todo =>
          let todo := {| td_content := td_content todo; td_status := st; td_priority := td_priority todo |} in
          (true, query (upsert_row session_id (item_of session_id index todo))
                   (with_todos (<[session_id := <[index := todo]> todos]> (td_state T)) T))
      | None => (false, T)
      end
  | None => (false, T)
  end.

Definition todo_add (session_id : string) (todo : TodoInfo) T : TodoManager :=
  let todos := default [] (td_state T !! session_id) in
  query (upsert_row session_id (item_of session_id (length todos) todo))
    (with_todos (<[session_id := todos ++ [todo]]> (td_state T)) T).

Definition todo_remove (session_id : string) (index : nat) T : bool * TodoManager :=
  match td_state T !! session_id with
  | Some todos =>
      if index <? length todos then
        (true, query (delete_row session_id (todo_id session_id index))
                 (with_todos (<[session_id := remove_at index todos]> (td_state T)) T))
      else (false, T)
  | None => (false, T)
  end.
End Todos.

(** ** Run states ([status.rs]) *)

Inductive SessionStatusInfo := IdleStatus | RetryStatus (attempt : N) (message : string) (next : N) | BusyStatus.

Definition SESSION_STATUS_EVENT : string := "session.status".

Record SessionStatusManager := {
  st_state : gmap string SessionStatusInfo; st_bus : bool; st_published : list (string * Value)
}.
Implicit Types (S : SessionStatusManager).

Definition status_new : SessionStatusManager := {| st_state := ∅; st_bus := false; st_published := [] |}.
Definition status_with_bus : SessionStatusManager := {| st_state := ∅; st_bus := true; st_published := [] |}.

Definition status_json (st : SessionStatusInfo) : Value :=
  Object (list_to_map match st with
    | IdleStatus => [("type", JString "idle")]
    | RetryStatus attempt message next =>
        [("type", JString "retry"); ("attempt", json_u64 attempt); ("message", JString message);
         ("next", json_u64 next)]
    | BusyStatus => [("type", JString "busy")]
    end).

Definition status_get (session_id : string) S : SessionStatusInfo := default IdleStatus (st_state S !! session_id).
Definition status_list S : gmap string SessionStatusInfo := st_state S.
Definition status_set (session_id : string) (st : SessionStatusInfo) S : SessionStatusManager :=
  {| st_state := match st with
                 | IdleStatus => delete session_id (st_state S)
                 | _ => <[session_id := st]> (st_state S)
                 end;
     st_bus := st_bus S;
     st_published :=
       if st_bus S then
         st_published S ++ [(SESSION_STATUS_EVENT,
           Object (list_to_map [("sessionID", JString session_id); ("status", status_json st)]))]
       else st_published S |}.
Definition status_set_idle (session_id : string) S : SessionStatusManager := status_set session_id IdleStatus S.
Definition status_set_busy (session_id : string) S : SessionStatusManager := status_set session_id BusyStatus S.
Definition status_set_retry (session_id : string) (attempt : N) (message : string) (next : N) S
    : SessionStatusManager :=
  status_set session_id (RetryStatus attempt message next) S.
Definition status_is_busy (session_id : string) S : bool :=
  match st_state S !! session_id with Some (BusyStatus | RetryStatus _ _ _) => true | _ => false end.
