(* ===== verification/SessionProps.v ===== *)
(** * Forks of sessions, their usage, titles and rows

    What a fork takes over from its source and what it does not, how titles of forks
    are counted, and what rows keep of a session. *)

From Stdlib Require Import SpecFloat.
From S2P Require Import Prelude Json TextLines TaskLedger SessionTypes Sessions SessionManager.
From stdpp Require Import options.

Section Props.
Context `{SessionEnv}.
Implicit Types (s : Session) (m : SessionMessage).

(** ** What touching a session changes *)

Lemma touch_shape s w : ∃ t tm, fst (touch s w) = with_updated_at t (with_time tm s).
Proof. by eexists _, _. Qed.

Lemma session_eta s : with_updated_at (updated_at s) (with_time (time s) (with_metadata (metadata s) s)) = s.
Proof. by destruct s. Qed.

(** ** The metadata of a fork *)

Lemma copy_policy_keys_shape source keys target w :
  ∃ t tm meta,
    fst (copy_policy_keys source keys target w) = with_updated_at t (with_time tm (with_metadata meta target)) ∧
    ∀ k, meta !! k = if mem k keys then union_with (λ v _, Some v) (metadata source !! k) (metadata target !! k)
                     else metadata target !! k.
Proof.
  revert target w. induction keys as [|key keys IH]; intros target w; simpl.
  { exists (updated_at target), (time target), (metadata target). split; [by rewrite session_eta|done]. }
  destruct (metadata source !! key) as [v|] eqn:E.
  - unfold fresh_bind, insert_metadata, fresh_map.
    destruct (touch _ w) as [s' w'] eqn:Et.
    destruct (touch_shape (with_metadata (<[key := v]> (metadata target)) target) w) as (t&tm&Hs').
    rewrite Et in Hs'. simpl in Hs'. subst s'. simpl.
    destruct (IH (with_updated_at t (with_time tm (with_metadata (<[key := v]> (metadata target)) target))) w')
      as (t2&tm2&meta&->&Hmeta).
    exists t2, tm2, meta. split; [done|]. intros k. rewrite Hmeta. simpl. unfold mem in *.
    destruct (decide (k = key)) as [->|Hne].
    + rewrite lookup_insert_eq, E. rewrite (bool_decide_eq_true_2 (key ∈ key :: keys)) by left.
      by case_bool_decide; destruct (metadata target !! key).
    + rewrite lookup_insert_ne by done. repeat case_bool_decide; try done; exfalso; set_solver.
  - destruct (IH target w) as (t2&tm2&meta&->&Hmeta). exists t2, tm2, meta. split; [done|].
    intros k. rewrite Hmeta. unfold mem. destruct (decide (k = key)) as [->|Hne].
    + rewrite E. repeat case_bool_decide; by destruct (metadata target !! key).
    + repeat case_bool_decide; try done; exfalso; set_solver.
Qed.

(** What a fork inherits: the policy and the task ledger. *)
Definition inherited (k : string) : bool := mem k (TASK_LEDGER_METADATA_KEY :: FORK_POLICY_METADATA_ALLOWLIST).

(** What a fork records itself. *)
Definition fork_keys : list string :=
  [SESSION_CONTEXT_KIND_METADATA_KEY; FORK_POLICY_FROZEN_METADATA_KEY; FORK_ORIGIN_SESSION_ID_METADATA_KEY;
   FORK_HISTORY_MODE_METADATA_KEY; FORK_SOURCE_HISTORY_MESSAGE_COUNT_METADATA_KEY;
   FORK_HISTORY_MESSAGE_LIMIT_METADATA_KEY; FORK_ORIGIN_MESSAGE_ID_METADATA_KEY].

(** A fork before its history is imported. *)
Definition prepared_fork (original : Session) : Fresh Session :=
  fresh! forked := fork_from original in copy_fork_policy_metadata_from original forked.

Lemma fork_from_metadata o w k :
  metadata (fst (fork_from o w)) !! k =
    if decide (k = SESSION_CONTEXT_KIND_METADATA_KEY)
    then Some (serialize_context_kind ExplicitFullHistoryFork)
    else if decide (k = TASK_LEDGER_METADATA_KEY) then metadata o !! k else None.
Proof.
  change (metadata (fst (fork_from o w))) with
    (let base : Metadata :=
       {[ SESSION_CONTEXT_KIND_METADATA_KEY := serialize_context_kind ExplicitFullHistoryFork ]} in
     match metadata o !! TASK_LEDGER_METADATA_KEY with
     | Some ledger => <[TASK_LEDGER_METADATA_KEY := ledger]> base
     | None => base
     end).
  destruct (decide (k = SESSION_CONTEXT_KIND_METADATA_KEY)) as [->|Hk].
  { case_match; [rewrite lookup_insert_ne by done|]; by rewrite lookup_singleton_eq. }
  destruct (decide (k = TASK_LEDGER_METADATA_KEY)) as [->|Hl].
  - case_match; [by rewrite lookup_insert_eq|by rewrite lookup_singleton_ne].
  - case_match; [rewrite lookup_insert_ne by done|]; by rewrite lookup_singleton_ne by done.
Qed.

Lemma fork_from_shape o w :
  let f := fst (fork_from o w) in
  project_id f = project_id o ∧ directory f = directory o ∧ permission f = permission o ∧
  summary f = None ∧ share f = None ∧ revert_info f = None ∧ usage f = None ∧ status f = Active.
Proof. by repeat split. Qed.

Lemma prepared_fork_shape o w :
  let f := fst (prepared_fork o w) in
  project_id f = project_id o ∧ directory f = directory o ∧ permission f = permission o ∧
  summary f = None ∧ share f = None ∧ revert_info f = None ∧ usage f = None ∧ status f = Active ∧
  ∀ k, metadata f !! k =
    if decide (k = FORK_POLICY_FROZEN_METADATA_KEY) then Some (Bool true)
    else if decide (k = SESSION_CONTEXT_KIND_METADATA_KEY)
    then Some (serialize_context_kind ExplicitFullHistoryFork)
    else if inherited k then metadata o !! k else None.
Proof.
  unfold prepared_fork, fresh_bind. pose proof (fork_from_metadata o w) as Hbase.
  pose proof (fork_from_shape o w) as Hf.
  destruct (fork_from o w) as [f0 w0] eqn:Ef. simpl in Hbase, Hf.
  unfold copy_fork_policy_metadata_from, fresh_bind.
  destruct (copy_policy_keys_shape o FORK_POLICY_METADATA_ALLOWLIST f0 w0) as (t&tm&meta&E&Hmeta).
  destruct (copy_policy_keys _ _ _ _) as [f1 w1] eqn:Ec. simpl in E. subst f1. cbn.
  repeat (split; [by apply Hf|]). intros k.
  destruct (decide (k = FORK_POLICY_FROZEN_METADATA_KEY)) as [->|Hfrozen]; [by rewrite lookup_insert_eq|].
  rewrite lookup_insert_ne, Hmeta, Hbase by congruence.
  destruct (decide (k = SESSION_CONTEXT_KIND_METADATA_KEY)) as [->|Hkind]; [done|].
  destruct (decide (k = TASK_LEDGER_METADATA_KEY)) as [->|Hne]; [done|].
  unfold inherited. destruct (mem k FORK_POLICY_METADATA_ALLOWLIST) eqn:Hk'.
  - apply mem_true in Hk'. rewrite (proj2 (mem_true _ _)) by by right. by destruct (metadata o !! k).
  - apply mem_false in Hk'. by rewrite (proj2 (mem_false _ _)) by by rewrite not_elem_of_cons.
Qed.

(** ** The history of a fork *)

Lemma entry_or_insert_ne k k' v meta : k ≠ k' → entry_or_insert k v meta !! k' = meta !! k'.
Proof. intros. unfold entry_or_insert. case_match; [done|by rewrite lookup_insert_ne]. Qed.
Lemma entry_or_insert_eq k v meta : entry_or_insert k v meta !! k = Some (default v (meta !! k)).
Proof. unfold entry_or_insert. case_match; [by simplify_option_eq|by rewrite lookup_insert_eq]. Qed.

Lemma variant_of_name {A} (name_of : A → string) variants a :
  (∀ b, b ∈ variants → name_of b = name_of a → b = a) → a ∈ variants →
  variant_of name_of variants (JString (name_of a)) = Some a.
Proof.
  intros Hinj Ha. unfold variant_of. cbn.
  destruct (find_first _ variants) as [b|] eqn:E.
  - apply find_first_elem in E as [Hb E]. apply bool_decide_eq_true in E. f_equal. by apply Hinj.
  - apply find_first_None in E. rewrite Forall_forall in E. specialize (E _ Ha).
    by apply bool_decide_eq_false in E.
Qed.

(** How a message looks in a fork of session [sid]. *)
Definition imported_as (sid : string) (f : Session) (m m' : SessionMessage) : Prop :=
  msg_id m' = msg_id m ∧ role m' = role m ∧ parts m' = parts m ∧ msg_usage m' = msg_usage m ∧
  finish m' = finish m ∧ msg_session_id m' = ses_id f ∧
  is_imported_fork_history_message m' = true ∧
  message_source_origin (msg_metadata m') = Some ImportedHistory ∧
  message_authority_class (msg_metadata m') = Some SystemAuthority ∧
  msg_metadata m' !! FORK_ORIGIN_SESSION_ID_METADATA_KEY
    = Some (default (JString sid) (msg_metadata m !! FORK_ORIGIN_SESSION_ID_METADATA_KEY)) ∧
  msg_metadata m' !! FORK_ORIGIN_MESSAGE_ID_METADATA_KEY
    = Some (default (JString (msg_id m)) (msg_metadata m !! FORK_ORIGIN_MESSAGE_ID_METADATA_KEY)).

Lemma imported_message_spec sid f m : imported_as sid f m (imported_fork_history_message sid (ses_id f) m).
Proof.
  unfold imported_as, imported_fork_history_message, is_imported_fork_history_message,
    message_source_origin, message_authority_class, apply_message_source_metadata,
    apply_message_admission_metadata, origin_to_admission_authority.
  cbn [msg_id role parts msg_usage finish msg_session_id msg_metadata with_msg_metadata with_msg_session_id].
  do 6 (split; [done|]).
  repeat split; rewrite ?lookup_insert_ne, ?lookup_insert_eq by done; try done.
  - by rewrite !entry_or_insert_ne, lookup_insert_eq by done.
  - by rewrite entry_or_insert_ne, entry_or_insert_eq, lookup_insert_ne by done.
  - by rewrite entry_or_insert_eq, entry_or_insert_ne, lookup_insert_ne by done.
Qed.

Lemma imported_history_spec sid f history :
  Forall2 (imported_as sid f) history (imported_fork_history_message sid (ses_id f) <$> history).
Proof. induction history; constructor; [apply imported_message_spec|done]. Qed.

(** The messages up to the point of a fork. *)
Definition fork_point (id : option string) (ms before : list SessionMessage) : Prop :=
  match id with
  | None => before = ms
  | Some id =>
      ∃ a m b, ms = a ++ m :: b ∧ before = a ++ [m] ∧ msg_id m = id ∧ Forall (λ m, msg_id m ≠ id) a
  end.
Lemma fork_point_length id ms before : fork_point id ms before → length before ≤ length ms.
Proof. destruct id; [|by intros ->]. intros (a&m&b&->&->&_). rewrite !length_app. simpl. lia. Qed.

(** A limit belongs to the mode that needs one, and to no other. *)
Definition limit_fits (spec : SessionForkSpec) : Prop :=
  match fs_history_mode spec, fs_history_message_limit spec with
  | LastN, Some limit => limit ≠ 0
  | LastN, None => False
  | _, limit => limit = None
  end.
Definition history_length (spec : SessionForkSpec) (available : nat) : nat :=
  match fs_history_mode spec with
  | NoHistory => 0
  | AllHistory => available
  | LastN => default 0 (fs_history_message_limit spec) `min` available
  end.

Lemma fork_source_messages_spec o id :
  match fork_source_messages o id with
  | Ok before => fork_point id (messages o) before
  | Err e => ∃ i, e = OriginMessageNotFound i ∧ id = Some i ∧ Forall (λ m, msg_id m ≠ i) (messages o)
  end.
Proof.
  unfold fork_source_messages. destruct id as [id|]; [|done].
  destruct (position (is_message id) (messages o)) as [i|] eqn:E.
  - apply position_Some in E as (a&m&b&->&<-&Hm&Ha). apply bool_decide_eq_true in Hm.
    exists a, m, b. split; [done|]. split; [by rewrite take_app, take_ge, Nat.sub_succ_l, Nat.sub_diag by lia|].
    split; [done|]. eapply Forall_impl; [exact Ha|]. intros x Hx. by apply bool_decide_eq_false in Hx.
  - exists id. split; [done|]. split; [done|].
    apply position_None in E. eapply Forall_impl; [exact E|]. intros x Hx. by apply bool_decide_eq_false in Hx.
Qed.

Lemma fork_history_spec spec before :
  match fork_history spec before with
  | Ok h => limit_fits spec ∧ h `suffix_of` before ∧ length h = history_length spec (length before)
  | Err e => ∃ t, e = InvalidRequest t ∧ ¬ limit_fits spec
  end.
Proof.
  unfold fork_history, limit_fits, history_length.
  destruct (fs_history_mode spec), (fs_history_message_limit spec) as [limit|]; simpl; try (by eexists; eauto).
  - split; [done|]. split; [apply suffix_nil|done].
  - destruct (Nat.eqb_spec limit 0) as [->|Hl]; [by eexists; eauto|].
    split; [done|]. split; [|rewrite length_drop; lia].
    exists (take (length before - limit) before). by rewrite take_drop.
Qed.

(** Every key of the metadata of a fork. *)
Definition forked_metadata (sid : string) (spec : SessionForkSpec) (available : nat) (o : Metadata) (k : string)
    : option Value :=
  if decide (k = SESSION_CONTEXT_KIND_METADATA_KEY) then Some (serialize_context_kind ExplicitFullHistoryFork)
  else if decide (k = FORK_POLICY_FROZEN_METADATA_KEY) then Some (Bool true)
  else if decide (k = FORK_ORIGIN_SESSION_ID_METADATA_KEY) then Some (JString sid)
  else if decide (k = FORK_ORIGIN_MESSAGE_ID_METADATA_KEY) then JString <$> fs_message_id spec
  else if decide (k = FORK_HISTORY_MODE_METADATA_KEY)
  then Some (JString (history_mode_name (fs_history_mode spec)))
  else if decide (k = FORK_HISTORY_MESSAGE_LIMIT_METADATA_KEY)
  then (λ limit, json_u64 (N.of_nat limit)) <$> fs_history_message_limit spec
  else if decide (k = FORK_SOURCE_HISTORY_MESSAGE_COUNT_METADATA_KEY)
  then Some (json_u64 (N.of_nat available))
  else if inherited k then o !! k else None.

Lemma fork_metadata_spec sid spec n o w k :
  fork_metadata sid spec n (metadata (fst (prepared_fork o w))) !! k = forked_metadata sid spec n (metadata o) k.
Proof.
  destruct (prepared_fork_shape o w) as (_&_&_&_&_&_&_&_&Hmeta).
  unfold forked_metadata, fork_metadata. repeat (destruct (decide (_ = _)) as [->|?]);
    destruct (fs_history_message_limit spec), (fs_message_id spec);
    rewrite ?lookup_insert_ne, ?lookup_insert_eq, ?lookup_insert_ne, ?Hmeta by first [done|congruence]; try done.
  all: by rewrite ?decide_False by done.
Qed.

Lemma fork_policy_keys_kept sid spec n o f keys :
  (∀ k, metadata f !! k = forked_metadata sid spec n (metadata o) k) →
  Forall (λ k, (k ∉ fork_keys) ∧ inherited k = true) keys →
  filter (λ k, has_metadata f k = true) keys = filter (λ k, has_metadata o k = true) keys.
Proof.
  intros Hmeta Hkeys. induction Hkeys as [|k keys [Hk Hi] _ IH]; [done|].
  assert (E : has_metadata f k = has_metadata o k).
  { unfold has_metadata. rewrite Hmeta. unfold forked_metadata. unfold fork_keys in Hk.
    rewrite !not_elem_of_cons in Hk. destruct Hk as (?&?&?&?&?&?&?&_). by rewrite !decide_False, Hi by done. }
  rewrite !filter_cons, E, IH. done.
Qed.

(** What a fork tells about itself, by what was asked for: [available] messages of [o] up to the point, and
    [imported] of them. *)
Definition explained (sid : string) (spec : SessionForkSpec) (o : Session) (available imported : nat)
    : SessionForkExplain :=
  {| fe_origin_session_id := sid; fe_origin_message_id := fs_message_id spec;
     fe_history_mode := fs_history_mode spec; fe_history_message_limit := N.of_nat <$> fs_history_message_limit spec;
     fe_source_history_messages := Some (N.of_nat available); fe_imported_history_messages := imported;
     fe_policy_frozen := true; fe_frozen_policy_keys := fork_frozen_policy_keys o;
     fe_cache_stability_keys := fork_cache_stability_keys o;
     fe_lifecycle := {| usage_replay_scope := LocalOnly; revert_scope := LocalOnly;
                        recovery_scope := LocalOnly; compaction_scope := ForkPromptSurface |} |}.

(** [usize] *)
Definition fits_usize (n : nat) : Prop := (N.of_nat n < 2 ^ 64)%N.

Lemma read_written_kind k : read_context_kind (serialize_context_kind k) = Some k.
Proof. by destruct k. Qed.
Lemma read_written_mode mode :
  variant_of history_mode_name [NoHistory; AllHistory; LastN] (JString (history_mode_name mode)) = Some mode.
Proof. by destruct mode. Qed.

Lemma fork_explain_spec sid spec n o f :
  fits_usize n → (∀ limit, fs_history_message_limit spec = Some limit → fits_usize limit) →
  (∀ k, metadata f !! k = forked_metadata sid spec n (metadata o) k) →
  Forall (λ m, is_imported_fork_history_message m = true) (messages f) →
  fork_explain f = Some (explained sid spec o n (length (messages f))).
Proof.
  intros Hn Hlimit Hmeta Himported.
  assert (Hkind : context_kind f = ExplicitFullHistoryFork).
  { unfold context_kind. by rewrite Hmeta. }
  assert (Horigin : fork_origin_session_id f = Some sid).
  { unfold fork_origin_session_id. by rewrite Hmeta. }
  assert (Hfrozen : fork_frozen_policy_keys f = fork_frozen_policy_keys o).
  { eapply fork_policy_keys_kept; [done|]. apply (bool_decide_unpack _). by vm_compute. }
  assert (Hstable : fork_cache_stability_keys f = fork_cache_stability_keys o).
  { eapply fork_policy_keys_kept; [done|]. apply (bool_decide_unpack _). by vm_compute. }
  unfold fork_explain. rewrite decide_True, Horigin, Hfrozen, Hstable by done. unfold explained, mbind, option_bind. repeat f_equal.
  - unfold fork_origin_message_id. rewrite Hmeta.
    change (forked_metadata sid spec n (metadata o) _) with (JString <$> fs_message_id spec).
    by destruct (fs_message_id spec).
  - unfold fork_history_mode. rewrite Hmeta.
    change (forked_metadata sid spec n (metadata o) _)
      with (Some (JString (history_mode_name (fs_history_mode spec)))).
    by destruct (fs_history_mode spec).
  - unfold fork_history_message_limit. rewrite Hmeta.
    change (forked_metadata sid spec n (metadata o) _)
      with ((λ limit, json_u64 (N.of_nat limit)) <$> fs_history_message_limit spec).
    destruct (fs_history_message_limit spec) as [limit|]; [|done]. apply as_u64_json. by apply Hlimit.
  - unfold fork_source_history_message_count. rewrite Hmeta.
    change (forked_metadata sid spec n (metadata o) _) with (Some (json_u64 (N.of_nat n))). by apply as_u64_json.
  - unfold imported_history_message_count.
    induction Himported as [|m ms Hm _ IH]; [done|]. rewrite filter_cons, decide_True by done. simpl. by f_equal.
  - unfold fork_policy_frozen. by rewrite Hmeta.
Qed.
(** ** Usage *)

Definition cumulative (u : SessionUsage) : WorkflowUsageSummary := workflow_usage_summary u.

Lemma count_usage_cumulative u v m :
  cumulative u = cumulative v → cumulative (count_usage u m) = cumulative (count_usage v m).
Proof.
  intros E. unfold count_usage. destruct (role m), (msg_usage m) as [mu|]; try done.
  destruct (is_imported_fork_history_message m); [done|].
  unfold cumulative, workflow_usage_summary, add_message_usage, with_context_tokens in *.
  destruct u, v. simpl in *. injection E as -> -> -> -> -> -> ->. done.
Qed.

Lemma usage_cumulative ms u v :
  cumulative u = cumulative v → cumulative (fold_left count_usage ms u) = cumulative (fold_left count_usage ms v).
Proof. revert u v. induction ms as [|m ms IH]; intros u v E; simpl; [done|]. by apply IH, count_usage_cumulative. Qed.

Lemma imported_usage ms u :
  Forall (λ m, is_imported_fork_history_message m = true) ms → cumulative (fold_left count_usage ms u) = cumulative u.
Proof.
  intros Hms. revert u. induction Hms as [|m ms Hm _ IH]; intros u; simpl; [done|]. rewrite IH.
  unfold count_usage. destruct (role m), (msg_usage m); try done. by rewrite Hm.
Qed.

Lemma find_first_tail {A} (P : A → bool) l k :
  Forall (λ x, P x = false) k → find_first P (l ++ k) = find_first P l.
Proof.
  intros Hk. induction l as [|x l IH]; simpl; [by apply find_first_None|]. by rewrite IH.
Qed.
End Props.

Section Forks.
Context `{SessionEnv}.

(** C33. A fork takes over what it was asked to, and says so. If it succeeds, the limit fits the mode, and its
    messages are the last of those up to the point of the fork, as many as the mode and the limit say, each with the
    role, the parts and the usage it had, marked as imported history with the authority of the system, and with the
    first session and message it came from; it is a full history fork with the directory, the permissions, the policy
    and the task ledger of its source and no other metadata, no revert, share or summary; what it explains about
    itself is what was asked; it is stored under its own identifier and no other session changes. It fails, and
    then changes nothing, only if the source does not exist, has no message with the identifier, or the limit
    does not fit the mode. *)
Theorem forks_take_over_the_chosen_history in_runtime sid spec M w :
  (∀ o, sessions M !! sid = Some o → fits_usize (length (messages o))) →
  (∀ limit, fs_history_message_limit spec = Some limit → fits_usize limit) →
  match fst (fork in_runtime sid spec M w) with
  | (Err e, M') =>
      M' = M ∧
      match e with
      | SessionNotFound => sessions M !! sid = None
      | OriginMessageNotFound id =>
          ∃ o, sessions M !! sid = Some o ∧ fs_message_id spec = Some id ∧ Forall (λ m, msg_id m ≠ id) (messages o)
      | InvalidRequest _ => ¬ limit_fits spec
      end
  | (Ok f, M') =>
      limit_fits spec ∧
      ∃ o before history,
        sessions M !! sid = Some o ∧ fork_point (fs_message_id spec) (messages o) before ∧
        history `suffix_of` before ∧ length history = history_length spec (length before) ∧
        Forall2 (imported_as sid f) history (messages f) ∧
        directory f = directory o ∧ permission f = permission o ∧
        revert_info f = None ∧ share f = None ∧ summary f = None ∧
        (∀ k, metadata f !! k = forked_metadata sid spec (length before) (metadata o) k) ∧
        fork_explain f = Some (explained sid spec o (length before) (length history)) ∧
        sessions M' = <[ses_id f := f]> (sessions M)
  end.
Proof.
  intros Hlength Hlimit. unfold fork. destruct (sessions M !! sid) as [o|] eqn:Eo; [|done].
  specialize (Hlength o eq_refl).
  pose proof (prepared_fork_shape o w) as Hf. pose proof (λ n k, fork_metadata_spec sid spec n o w k) as Hmeta.
  unfold prepared_fork, fresh_bind in *. destruct (fork_from o w) as [f0 w0].
  destruct (copy_fork_policy_metadata_from o f0 w0) as [f1 w1]. simpl in Hf, Hmeta.
  destruct Hf as (_&Hdir&Hperm&Hsum&Hshare&Hrev&_&_&_).
  pose proof (fork_source_messages_spec o (fs_message_id spec)) as Hpoint.
  destruct (fork_source_messages o (fs_message_id spec)) as [before|e]; simpl in *.
  2: { destruct Hpoint as (i&->&Hi&Hall). split; [done|]. by exists o. }
  pose proof (fork_history_spec spec before) as Hhist.
  destruct (fork_history spec before) as [history|e]; simpl in *.
  2: { by destruct Hhist as (t&->&Hlim). }
  destruct Hhist as (Hlim&Hsuffix&Hlen). split; [done|].
  exists o, before, history. do 4 (split; [done|]).
  set (f := with_metadata _ _).
  assert (Himported : Forall2 (imported_as sid f) history (messages f)).
  { exact (imported_history_spec sid f history). }
  do 6 (split; [done|]). split; [exact (Hmeta _)|].
  split; [|unfold announce_created, publish_session_event, publish_event; by case_match].
  rewrite (Forall2_length _ _ _ Himported). apply fork_explain_spec; [|done|exact (Hmeta _)|].
  - pose proof (fork_point_length _ _ _ Hpoint). unfold fits_usize in *. lia.
  - eapply Forall2_Forall_r; [exact Himported|]. apply Forall_true. intros m m' Hm. apply Hm.
Qed.

Lemma fork_imports in_runtime sid spec M w f M' :
  fst (fork in_runtime sid spec M w) = (Ok f, M') →
  Forall (λ m, is_imported_fork_history_message m = true) (messages f).
Proof.
  unfold fork. destruct (sessions M !! sid) as [o|]; [|done]. unfold fresh_bind.
  destruct (fork_from o w) as [f0 w0]. destruct (copy_fork_policy_metadata_from o f0 w0) as [f1 w1].
  destruct (fork_source_messages o _) as [before|]; [|done].
  destruct (fork_history spec before) as [history|]; [|done]. intros [= <- _]. simpl.
  apply Forall_fmap, Forall_true. intros m. apply (imported_message_spec sid f1 m).
Qed.

(** A fork is not charged for what its source has spent, and does not speak for it: whatever messages are added to
    a fork, the usage it reports, the context of its latest request and its last own answer are those of the added
    messages alone. *)
Lemma forks_replay_no_usage in_runtime sid spec M w f M' ms :
  fst (fork in_runtime sid spec M w) = (Ok f, M') →
  let s := with_messages (messages f ++ ms) f in
  let own := with_messages ms f in
  cumulative (get_usage s) = cumulative (get_usage own) ∧
  latest_request_context_tokens s = latest_request_context_tokens own ∧
  last_owner_local_assistant_message s = last_owner_local_assistant_message own.
Proof.
  intros Hf%fork_imports. cbv zeta.
  unfold get_usage, latest_request_context_tokens, last_owner_local_assistant_message, find_last. cbn [messages with_messages].
  split; [|split].
  - rewrite fold_left_app. by apply usage_cumulative, imported_usage.
  - rewrite reverse_app, omap_app. f_equal. apply Forall_reverse in Hf.
    induction Hf as [|m l Hm _ IH]; simpl; [by rewrite app_nil_r|]. by rewrite Hm, andb_false_r.
  - rewrite reverse_app. apply find_first_tail. apply Forall_reverse. eapply Forall_impl; [exact Hf|].
    intros m Hm. simpl. by rewrite Hm, andb_false_r.
Qed.
End Forks.

(** ** Samples *)

#[local] Existing Instance plain_env.

Definition sample_supply : Supply := {| clock_reads := 5; uuids_drawn := 5 |}.
Definition sample_usage : MessageUsage :=
  {| mu_input_tokens := 100; mu_output_tokens := 7; mu_reasoning_tokens := 0; mu_cache_write_tokens := 0;
     mu_cache_read_tokens := 0; mu_cache_miss_tokens := 0; mu_context_tokens := 120; mu_total_cost := f64_zero |}.
Definition sample_message (id : string) (r : MessageRole) (ps : list MessagePart) : SessionMessage :=
  {| msg_id := id; msg_session_id := "s1"; role := r; parts := ps; msg_created_at := 0; msg_metadata := ∅;
     msg_usage := match r with Assistant => Some sample_usage | _ => None end; finish := None |}.
Definition sample_session : Session :=
  with_metadata {[ "agent" := JString "build"; "secret" := JString "x" ]}
    (with_messages [sample_message "m1" User []; sample_message "m2" Assistant []; sample_message "m3" User []]
      (fst (session_new "p1" "/w" {| clock_reads := 0; uuids_drawn := 0 |}))).
Definition sample_manager : SessionManager := with_sessions {[ "s1" := sample_session ]} with_bus.
Definition sample_fork : SessionForkSpec :=
  {| fs_message_id := Some "m2"; fs_history_mode := LastN; fs_history_message_limit := Some 1 |}.

(** A fork of the last message up to the answer. *)
Example fork_takes_the_answer :
  msg_id <$> match fst (fst (fork true "s1" sample_fork sample_manager sample_supply)) with
             | Ok f => messages f
             | Err _ => []
             end = ["m2"].
Proof. vm_compute. reflexivity. Qed.

Lemma forks_take_over_the_chosen_history_witness :
  ∃ f M' o, fst (fork true "s1" sample_fork sample_manager sample_supply) = (Ok f, M') ∧
    sessions sample_manager !! "s1" = Some o ∧ directory f = directory o ∧ limit_fits sample_fork.
Proof.
  destruct (fst (fork true "s1" sample_fork sample_manager sample_supply)) as [[f|e] M'] eqn:E.
  - pose proof (forks_take_over_the_chosen_history true "s1" sample_fork sample_manager sample_supply) as Hfork.
    rewrite E in Hfork. destruct Hfork as (Hlim&o&_&_&Ho&_&_&_&_&Hdir&_).
    + intros o [= <-]. by vm_compute.
    + intros limit [= <-]. by vm_compute.
    + by exists f, M', o.
  - apply (f_equal (λ r, is_ok (fst r))) in E. vm_compute in E. discriminate E.
Defined.

Lemma forks_replay_no_usage_witness :
  ∃ f M', fst (fork true "s1" sample_fork sample_manager sample_supply) = (Ok f, M') ∧
    cumulative (get_usage (with_messages (messages f ++ [sample_message "m4" Assistant []]) f))
      = cumulative (get_usage (with_messages [sample_message "m4" Assistant []] f)).
Proof.
  destruct (fst (fork true "s1" sample_fork sample_manager sample_supply)) as [[f|e] M'] eqn:E.
  - exists f, M'. split; [done|].
    exact (proj1 (forks_replay_no_usage true "s1" sample_fork sample_manager sample_supply f M' _ E)).
  - apply (f_equal (λ r, is_ok (fst r))) in E. vm_compute in E. discriminate E.
Defined.
