(* ===== verification/SessionManagerProps.v ===== *)
(** * The events of the session manager

    The queue of events is the tail of the history of what was announced of sessions, the bus
    gets the whole history, and every event tells the session as it was stored by its call.
    Edits through [get_mut] are in no event. *)

From S2P Require Import Prelude Json TextLines SessionTypes Sessions SessionManager.
From stdpp Require Import options.

(** ** Calls *)

Inductive ManagerCall :=
| CallCreate (project dir : string)
| CallFork (session_id : string) (spec : SessionForkSpec)
| CallShare (session_id url : string) | CallUnshare (session_id : string)
| CallSetArchived (session_id : string) (at_ : option Z)
| CallSetPermission (session_id : string) (v : PermissionRuleset)
| CallSetRevert (session_id : string) (v : SessionRevert) | CallClearRevert (session_id : string)
| CallSetSummary (session_id : string) (v : SessionSummary)
| CallDelete (id : string) | CallUpdate (s : Session) | CallRestore (s : Session) | CallDrain
| CallUpdateMessage (session_id : string) (m : SessionMessage)
| CallRemoveMessage (session_id message_id : string)
| CallUpdatePart (session_id message_id : string) (p : MessagePart)
| CallRemovePart (session_id message_id id : string)
| CallPublishPartDelta (session_id message_id id field delta : string)
| CallPublishCommandExecuted (command_name session_id : string) (arguments : list string) (message_id : string)
| CallPublishError (session_id : option string) (error : Value)
| CallPublishDiff (session_id : string) (diffs : list FileDiff)
| CallSetBus
| CallGetMut (id : string) (edit : Session → Session).

(** What a call did to a session, as its caller is told. *)
Inductive Outcome :=
| Made (s : Session) | Changed (s : Session) | Gone (s : Session) | Drained (es : list SessionEvent) | Quiet.

Section Calls.
Context `{SessionEnv}.

Definition changed (r : option Session) : Outcome := match r with Some s => Changed s | None => Quiet end.
Definition quiet {A} (r : A * SessionManager) : Outcome * SessionManager := (Quiet, snd r).

(** A call, by a caller in a runtime. *)
Definition perform (c : ManagerCall) (M : SessionManager) : Fresh (Outcome * SessionManager) :=
  match c with
  | CallCreate project dir => fresh_map (prod_map Made id) (create true project dir M)
  | CallFork sid spec =>
      fresh_map (prod_map (λ r, match r with Ok f => Made f | Err _ => Quiet end) id) (fork true sid spec M)
  | CallShare sid url => fresh_map (prod_map changed id) (manager_share true sid url M)
  | CallUnshare sid => fresh_map (prod_map changed id) (manager_unshare true sid M)
  | CallSetArchived sid t => fresh_map (prod_map changed id) (manager_set_archived true sid t M)
  | CallSetPermission sid v => fresh_map (prod_map changed id) (manager_set_permission true sid v M)
  | CallSetRevert sid v => fresh_map (prod_map changed id) (manager_set_revert true sid v M)
  | CallClearRevert sid => fresh_map (prod_map changed id) (manager_clear_revert true sid M)
  | CallSetSummary sid v => fresh_map (prod_map changed id) (manager_set_summary true sid v M)
  | CallDelete sid =>
      fresh_ret (prod_map (λ r, match r with Some s => Gone s | None => Quiet end) id (manager_delete true sid M))
  | CallUpdate s => fresh_ret (Changed s, update true s M)
  | CallRestore s => fresh_ret (Quiet, restore s M)
  | CallDrain => fresh_ret (prod_map Drained id (drain_events M))
  | CallUpdateMessage sid m => fresh_map quiet (manager_update_message true sid m M)
  | CallRemoveMessage sid mid => fresh_map quiet (manager_remove_message true sid mid M)
  | CallUpdatePart sid mid p => fresh_map quiet (manager_update_part true sid mid p M)
  | CallRemovePart sid mid pid => fresh_map quiet (manager_remove_part true sid mid pid M)
  | CallPublishPartDelta sid mid pid field delta =>
      fresh_ret (Quiet, publish_part_delta true sid mid pid field delta M)
  | CallPublishCommandExecuted name sid arguments mid =>
      fresh_ret (Quiet, publish_command_executed true name sid arguments mid M)
  | CallPublishError sid error => fresh_ret (Quiet, publish_error true sid error M)
  | CallPublishDiff sid diffs => fresh_ret (Quiet, publish_diff true sid diffs M)
  | CallSetBus => fresh_ret (Quiet, set_bus M)
  | CallGetMut sid edit => fresh_ret (Quiet, modify_session sid edit M)
  end.

(** Whatever is done through [get_mut], no method of a session changes its identifier. *)
Definition keeps_identifiers (c : ManagerCall) : Prop :=
  match c with CallGetMut _ edit => ∀ s, ses_id (edit s) = ses_id s | _ => True end.

(** The outcomes of calls one after another, each with the manager it left. *)
Fixpoint run_calls (cs : list ManagerCall) (M : SessionManager) (w : Supply)
    : list (Outcome * SessionManager) * SessionManager :=
  match cs with
  | [] => ([], M)
  | c :: cs =>
      let '((o, M), w) := perform c M w in
      let '(os, M') := run_calls cs M w in ((o, M) :: os, M')
  end.

(** ** The log that the queue stands for *)

Definition event_of (o : Outcome) : list SessionEvent :=
  match o with
  | Made s => [CreatedEvent (to_row s)]
  | Changed s => [UpdatedEvent (to_row s)]
  | Gone s => [DeletedEvent (to_row s)]
  | Drained _ | Quiet => []
  end.
(** Everything that happened since the queue was last drained. *)
Definition log_step (log : list SessionEvent) (o : Outcome) : list SessionEvent :=
  match o with Drained _ => [] | _ => log ++ event_of o end.

Definition lastn {A} (n : nat) (l : list A) : list A := drop (length l - n) l.

Definition announcement (e : SessionEvent) : option (string * BusProperties) :=
  match e with
  | CreatedEvent row => Some (SESSION_CREATED_EVENT, InfoOfRow row)
  | UpdatedEvent row => Some (SESSION_UPDATED_EVENT, InfoOfRow row)
  | DeletedEvent row => Some (SESSION_DELETED_EVENT, InfoOfRow row)
  | _ => None
  end.
Definition is_life_cycle (p : string * BusProperties) : bool :=
  match snd p with InfoOfRow _ => true | _ => false end.
(** What the bus was told of whole sessions. *)
Definition life_cycle (M : SessionManager) : list (string * BusProperties) :=
  filter (λ p, is_life_cycle p = true) (published M).

(** Sessions are stored under their identifiers. *)
Definition keyed (M : SessionManager) : Prop := map_Forall (λ k s, ses_id s = k) (sessions M).

(** An outcome is true of the manager after the call. *)
Definition told (o : Outcome) (M : SessionManager) : Prop :=
  match o with
  | Made s | Changed s => sessions M !! ses_id s = Some s
  | Gone s => sessions M !! ses_id s = None
  | Drained _ => events M = []
  | Quiet => True
  end.

Lemma drop_S_tail {A} (l : list A) k : drop (S k) l = tail (drop k l).
Proof. revert k. induction l as [|x l IH]; intros [|k]; try done. apply IH. Qed.

Lemma lastn_snoc {A} (n : nat) (l : list A) x :
  0 < n → lastn n (l ++ [x]) = (if n <=? length (lastn n l) then tail (lastn n l) else lastn n l) ++ [x].
Proof.
  intros Hn. unfold lastn. rewrite length_app, length_drop. simpl.
  destruct (Nat.leb_spec n (length l - (length l - n))) as [Hle|Hgt].
  - rewrite drop_app_le by lia. f_equal. replace (length l + 1 - n) with (S (length l - n)) by lia.
    by rewrite (drop_S_tail l).
  - by replace (length l + 1 - n) with 0 by lia; replace (length l - n) with 0 by lia.
Qed.
(** ** What each call does *)

Definition queue_push (queue : list SessionEvent) (e : SessionEvent) : list SessionEvent :=
  (if SESSION_EVENT_QUEUE_CAP <=? length queue then tail queue else queue) ++ [e].

Record effect (o : Outcome) (M M' : SessionManager) : Prop := {
  effect_queue : events M' = match o with Drained _ => [] | _ => fold_left queue_push (event_of o) (events M) end;
  effect_drained es : o = Drained es → es = events M;
  effect_bus : bus M = true →
    bus M' = true ∧ life_cycle M' = life_cycle M ++ omap announcement (event_of o);
  effect_keyed : keyed M → keyed M' ∧ told o M'
}.

Lemma quiet_effect M M' :
  events M' = events M → bus M' = bus M → life_cycle M' = life_cycle M → (keyed M → keyed M') → effect Quiet M M'.
Proof. intros He Hb Hl Hk. split; simpl; [done|done|rewrite app_nil_r; by rewrite Hb, Hl|by auto]. Qed.

Lemma keyed_insert k s M : ses_id s = k → keyed M → keyed (with_sessions (<[k := s]> (sessions M)) M).
Proof. intros Hk HM. by apply map_Forall_insert_2. Qed.

(** A session that is stored and announced. *)
Lemma announce_effect (o : Outcome) (name : string) (e : SessionEvent) k s M :
  event_of o = [e] → announcement e = Some (name, InfoOfRow (to_row s)) →
  ses_id s = k → (o = Made s ∨ o = Changed s) →
  effect o M (publish_session_event true name s (push_event e (with_sessions (<[k := s]> (sessions M)) M))).
Proof.
  intros He Ha Hk Ho. split.
  - rewrite He. by destruct Ho as [-> | ->]; unfold publish_session_event, publish_event; case_match.
  - by destruct Ho as [-> | ->].
  - intros Hb. unfold publish_session_event, publish_event. simpl. rewrite Hb. simpl. split; [done|].
    unfold life_cycle. simpl. rewrite filter_app, He. simpl. by rewrite Ha.
  - intros HM. pose proof (keyed_insert k s M Hk HM) as HM'.
    unfold publish_session_event, publish_event, keyed in *. split; [by case_match|].
    assert (∀ M', sessions M' = <[k := s]> (sessions M) → told o M') as Htold.
    { intros M' HM''. destruct Ho as [-> | ->]; simpl; rewrite HM''; subst k; by rewrite lookup_insert_eq. }
    apply Htold. by case_match.
Qed.

Lemma hook_effect o M M' h sid : effect o M M' → effect o M (run_hook true h sid M').
Proof. intros [H1 H2 H3 H4]. split; auto. Qed.

Definition keeps_id (change : Session → Fresh Session) : Prop := ∀ s w, ses_id (fst (change s w)) = ses_id s.

Lemma update_stored_effect sid change M w :
  keeps_id change → keyed M →
  let r := fst (update_stored true sid change M w) in effect (changed (fst r)) M (snd r).
Proof.
  intros Hid HM. unfold update_stored. destruct (sessions M !! sid) as [s|] eqn:E; [|by apply quiet_effect].
  unfold fresh_bind. pose proof (Hid s w) as Hs. destruct (change s w) as [s' w']. simpl in *.
  eapply (announce_effect (Changed s')); [done|done| |by right]. rewrite Hs. by apply (HM sid).
Qed.

Lemma fresh_map_fst {A B} (f : A → B) (m : Fresh A) w : fst (fresh_map f m w) = f (fst (m w)).
Proof. unfold fresh_map. by destruct (m w). Qed.
(** Messages and parts are published under names of their own. *)
Lemma store_effect sid s s' M :
  sessions M !! sid = Some s → ses_id s' = ses_id s → effect Quiet M (store sid s' M).
Proof.
  intros E Hs. apply quiet_effect; [done|done|done|]. intros HM. apply keyed_insert; [|done].
  rewrite Hs. by apply (HM sid).
Qed.

Lemma publish_effect name props M M' :
  is_life_cycle (name, props) = false → effect Quiet M M' → effect Quiet M (publish_event true name props M').
Proof.
  intros Hp HM. unfold publish_event. case_match; [|done]. destruct HM as [H1 H2 H3 H4].
  split; [done|done| |done]. intros Hb. destruct (H3 Hb) as [H5 H6]. split; [done|]. rewrite <- H6.
  unfold life_cycle. simpl. rewrite filter_app, filter_cons_False by by rewrite Hp. by rewrite app_nil_r.
Qed.

Lemma update_message_id m s w : ses_id (snd (fst (update_message m s w))) = ses_id s.
Proof. unfold update_message. by case_match. Qed.
Lemma remove_message_id i s w : ses_id (snd (fst (remove_message i s w))) = ses_id s.
Proof. unfold remove_message. by case_match. Qed.
Lemma update_part_id i p s w : ses_id (snd (fst (update_part i p s w))) = ses_id s.
Proof. unfold update_part. by case_match. Qed.
Lemma remove_part_id i j s w : ses_id (snd (fst (remove_part i j s w))) = ses_id s.
Proof. unfold remove_part. by repeat case_match. Qed.

Lemma fork_effect sid spec M w :
  let '(r, M') := fst (fork true sid spec M w) in
  effect (match r with Ok f => Made f | Err _ => Quiet end) M M'.
Proof.
  unfold fork. destruct (sessions M !! sid) as [o|]; [|by apply quiet_effect].
  unfold fresh_bind. destruct (fork_from o w) as [f0 w0]. destruct (copy_fork_policy_metadata_from o f0 w0) as [f1 w1].
  destruct (fork_source_messages o _) as [before|]; [|by apply quiet_effect].
  destruct (fork_history spec before) as [history|]; [|by apply quiet_effect].
  apply (announce_effect (Made _)); [done|done|done|by left].
Qed.

Lemma delete_effect sid M :
  keyed M →
  let '(r, M') := manager_delete true sid M in effect (match r with Some s => Gone s | None => Quiet end) M M'.
Proof.
  intros HM. unfold manager_delete. destruct (sessions M !! sid) as [s|] eqn:E; [|by apply quiet_effect].
  apply hook_effect. pose proof (HM sid s E) as Hid.
  assert (Hk : keyed (with_sessions (delete sid (sessions M)) M)) by by apply map_Forall_delete.
  unfold announce_deleted, publish_session_event, publish_event. split; [by case_match|done| |].
  - simpl. intros ->. simpl. split; [done|]. unfold life_cycle. simpl. by rewrite filter_app.
  - intros _. split; [by case_match|]. simpl in Hid. subst sid. case_match; simpl; by rewrite lookup_delete_eq.
Qed.

Lemma perform_effect c M w : keeps_identifiers c → keyed M → effect (fst (fst (perform c M w))) M (snd (fst (perform c M w))).
Proof.
  intros Hc HM. destruct c; unfold perform; rewrite ?fresh_map_fst.
  - unfold create, fresh_bind. destruct (session_new project dir w) as [s w']. cbn. apply hook_effect.
    by apply (announce_effect (Made _)); [..|left].
  - pose proof (fork_effect session_id spec M w) as Hf. by destruct (fst (fork _ _ _ _ _)) as [[f|e] M'].
  - by apply update_stored_effect.
  - by apply update_stored_effect.
  - apply update_stored_effect; [|done]. intros s w'. by destruct at_.
  - by apply update_stored_effect.
  - by apply update_stored_effect.
  - by apply update_stored_effect.
  - by apply update_stored_effect.
  - pose proof (delete_effect id M HM) as Hd. by destruct (manager_delete true id M) as [[s|] M'].
  - cbn. by apply (announce_effect (Changed _)); [..|right].
  - apply quiet_effect; [done..|]. by apply keyed_insert.
  - split; cbn; [done|by intros es [= <-]| |done]. intros Hb. by rewrite app_nil_r.
  - unfold manager_update_message. destruct (sessions M !! session_id) as [s|] eqn:E; [|by apply quiet_effect].
    unfold fresh_bind. pose proof (update_message_id m s w) as Hid. destruct (update_message m s w) as [r w'].
    apply publish_effect; [done|]. by eapply store_effect.
  - unfold manager_remove_message. destruct (sessions M !! session_id) as [s|] eqn:E; [|by apply quiet_effect].
    unfold fresh_bind. pose proof (remove_message_id message_id s w) as Hid.
    destruct (remove_message message_id s w) as [[[m|] s'] w']; cbn; [apply publish_effect; [done|]|];
      by eapply store_effect.
  - unfold manager_update_part. destruct (sessions M !! session_id) as [s|] eqn:E; [|by apply quiet_effect].
    unfold fresh_bind. pose proof (update_part_id message_id p s w) as Hid. destruct (update_part message_id p s w) as [r w'].
    apply publish_effect; [done|]. by eapply store_effect.
  - unfold manager_remove_part. destruct (sessions M !! session_id) as [s|] eqn:E; [|by apply quiet_effect].
    unfold fresh_bind. pose proof (remove_part_id message_id id s w) as Hid.
    destruct (remove_part message_id id s w) as [[[m|] s'] w']; cbn; [apply publish_effect; [done|]|];
      by eapply store_effect.
  - apply publish_effect; [done|]. by apply quiet_effect.
  - apply publish_effect; [done|]. by apply quiet_effect.
  - apply publish_effect; [by destruct session_id|]. by apply quiet_effect.
  - apply publish_effect; [done|]. by apply quiet_effect.
  - split; cbn; [done|done| |done]. intros _. by rewrite app_nil_r.
  - apply quiet_effect; [done..|]. intros _ k s. cbn. rewrite lookup_alter_Some.
    intros [(->&s0&Hs&->)|[_ Hs]]; [rewrite Hc|]; exact (HM k _ Hs).
Qed.

(** ** The queue and its log *)

Definition log_of (os : list (Outcome * SessionManager)) : list SessionEvent := fold_left log_step os.*1 [].
Definition history_of (os : list (Outcome * SessionManager)) : list SessionEvent := os.*1 ≫= event_of.

Lemma pushed_is_tail log es :
  fold_left queue_push es (lastn SESSION_EVENT_QUEUE_CAP log) = lastn SESSION_EVENT_QUEUE_CAP (log ++ es).
Proof.
  revert log. induction es as [|e es IH]; intros log; cbn [fold_left]; [by rewrite app_nil_r|].
  unfold queue_push at 2. rewrite <- lastn_snoc by (unfold SESSION_EVENT_QUEUE_CAP; lia).
  rewrite IH. by rewrite <- app_assoc.
Qed.

Lemma run_calls_refines cs M w log os M' :
  Forall keeps_identifiers cs → keyed M → bus M = true → events M = lastn SESSION_EVENT_QUEUE_CAP log → run_calls cs M w = (os, M') →
  keyed M' ∧ events M' = lastn SESSION_EVENT_QUEUE_CAP (fold_left log_step os.*1 log) ∧
  life_cycle M' = life_cycle M ++ omap announcement (history_of os) ∧
  Forall (λ o, told (fst o) (snd o)) os.
Proof.
  revert M w log os M'. induction cs as [|c cs IH]; intros M w log os M' Hcs HM Hb He; cbn [run_calls].
  { intros [= <- <-]. cbn. by rewrite app_nil_r. }
  apply Forall_cons in Hcs as [Hc Hcs].
  pose proof (perform_effect c M w Hc HM) as Heffect. destruct (perform c M w) as [[o M1] w1]. cbn in Heffect.
  destruct (run_calls cs M1 w1) as [os1 M2] eqn:E. intros [= <- <-].
  destruct Heffect as [Hq Hd Hbus Hk]. destruct (Hbus Hb) as [Hb1 Hl], (Hk HM) as [HM1 Htold].
  assert (He1 : events M1 = lastn SESSION_EVENT_QUEUE_CAP (log_step log o)).
  { rewrite Hq. destruct o; cbn [log_step]; rewrite ?He; try done; apply pushed_is_tail. }
  destruct (IH _ _ _ _ _ Hcs HM1 Hb1 He1 E) as (HM2&He2&Hl2&Hall).
  split; [done|]. split; [done|]. split; [|by constructor].
  rewrite Hl2, Hl. unfold history_of. cbn. by rewrite omap_app, app_assoc.
Qed.

(** C34. The queue of events is the end of the history of what was announced. Whatever sequence of its calls is made of a
    manager with a bus, in a runtime (the publish calls, set_bus and arbitrary edits through get_mut that keep the
    identifier of the session among them): the queue holds exactly the latest 256 of the events since it was last
    drained, in order; what the bus was told of whole sessions is all of these events since the beginning, none left out;
    each call has the event that its result says (created, updated or deleted, with the row of the session as it is
    stored right after it, or gone), and a call that fails, publishes, restores, or only touches messages and parts has
    none; and sessions are stored under their own identifiers. Edits through get_mut are in no event, also where they
    change the row (the point of RevertManager::revert, the metadata that permissions record), so the last event of a
    session tells the stored row only up to such edits. *)
Theorem event_queue_is_the_end_of_the_history cs w os M :
  Forall keeps_identifiers cs → run_calls cs with_bus w = (os, M) →
  events M = lastn SESSION_EVENT_QUEUE_CAP (log_of os) ∧
  life_cycle M = omap announcement (history_of os) ∧
  Forall (λ o, told (fst o) (snd o)) os ∧ keyed M.
Proof.
  intros Hcs Hrun.
  destruct (run_calls_refines cs with_bus w [] os M) as (HM&He&Hl&Hall); [done|by apply map_Forall_empty|done..|].
  by rewrite He, Hl.
Qed.
End Calls.

#[local] Existing Instance plain_env.

Lemma event_queue_is_the_end_of_the_history_witness :
  ∃ os M, run_calls [CallCreate "p" "/w"; CallCreate "p" "/v"; CallDrain; CallCreate "p" "/u";
                     CallPublishError None (JString "late"); CallGetMut "ses" (with_title "new")] with_bus
            {| clock_reads := 0; uuids_drawn := 0 |} = (os, M) ∧
    events M = lastn SESSION_EVENT_QUEUE_CAP (log_of os) ∧ length (events M) = 1 ∧
    life_cycle M = omap announcement (history_of os) ∧ length (life_cycle M) = 3.
Proof.
  match goal with |- ∃ _ _, run_calls ?cs _ _ = _ ∧ _ => assert (Forall keeps_identifiers cs) as Hcs end.
  { by repeat (apply Forall_cons; split; [done|]). }
  destruct (run_calls _ with_bus _) as [os M] eqn:E. exists os, M.
  destruct (event_queue_is_the_end_of_the_history _ _ _ _ Hcs E) as (He&Hl&_). split; [done|]. split; [exact He|].
  split; [|split; [exact Hl|]]; apply (f_equal snd) in E; cbn [snd] in E; rewrite <- E; by vm_compute.
Defined.
