(* ===== verification/SessionRevertProps.v ===== *)
(** * Counting changed lines, and going back in a session

    The numbers of added and removed lines are those of a longest common subsequence;
    what reverting and cleaning up leave of a session. *)

From S2P Require Import Prelude Json TextLines LineDiff LineDiffSpec SessionTypes Sessions SessionManager SessionRevert.
From stdpp Require Import options.

(** ** The table of common subsequences *)

Lemma sublist_reverse {A} (l k : list A) : l `sublist_of` k → reverse l `sublist_of` reverse k.
Proof.
  induction 1 as [|x l k _ IH|x l k _ IH]; rewrite ?reverse_cons; [done|by apply sublist_app|].
  by apply sublist_inserts_r.
Qed.

Lemma lcs_attained xs ys : ∃ s, s `sublist_of` xs ∧ s `sublist_of` ys ∧ length s = lcs xs ys.
Proof.
  revert ys. induction xs as [|x xs IHx]; intros ys; [by exists []; repeat split; try apply sublist_nil_l|].
  induction ys as [|y ys IHy]; [exists []; rewrite lcs_nil_r; repeat split; apply sublist_nil_l|].
  rewrite lcs_cons. case_decide as E.
  - destruct (IHx ys) as (s&Hx&Hy&Hs). exists (x :: s). subst y. simpl. rewrite Hs.
    split; [by apply sublist_skip|]. split; [by apply sublist_skip|done].
  - destruct (Nat.max_spec (lcs xs (y :: ys)) (lcs (x :: xs) ys)) as [[_ ->]|[_ ->]].
    + destruct IHy as (s&Hx&Hy&Hs). exists s. split; [done|]. split; [by apply sublist_cons|done].
    + destruct (IHx (y :: ys)) as (s&Hx&Hy&Hs). exists s. split; [by apply sublist_cons|]. by split.
Qed.

Section Table.
Context (short : list string).
Implicit Types (seen : list string).

(** The row of the table for the lines read so far, the last one first. *)
Definition row_of seen (j : nat) : N := N.of_nat (lcs seen (reverse (take j short))).
Definition holds_row seen (row : list N) : Prop :=
  length row = S (length short) ∧ ∀ j, j ≤ length short → row !!! j = row_of seen j.

Lemma row_of_step seen x j y :
  short !! j = Some y →
  row_of (x :: seen) (S j) =
    if bool_decide (x = y) then (row_of seen j + 1)%N else N.max (row_of (x :: seen) j) (row_of seen (S j)).
Proof.
  intros Hy. unfold row_of. rewrite (take_S_r _ _ _ Hy), reverse_app. change (reverse [y]) with [y]. cbn [app].
  rewrite lcs_cons. rewrite bool_decide_decide. case_decide; lia.
Qed.

Lemma lcs_row_spec seen prev x rest j curr :
  holds_row seen prev → drop j short = rest → j ≤ length short → length curr = S (length short) →
  (∀ k, k ≤ j → curr !!! k = row_of (x :: seen) k) →
  holds_row (x :: seen) (lcs_row prev x j rest curr).
Proof.
  intros [Hlen Hprev]. revert j curr. induction rest as [|y rest IH]; intros j curr Hrest Hj Hc Hcurr; cbn [lcs_row].
  - split; [done|]. intros k Hk. apply Hcurr. apply (f_equal length) in Hrest. rewrite length_drop in Hrest.
    simpl in Hrest. lia.
  - assert (Hy : short !! j = Some y).
    { rewrite <- (Nat.add_0_r j), <- lookup_drop, Hrest. done. }
    apply lookup_lt_Some in Hy as Hlt.
    apply IH.
    + by rewrite (drop_S _ y) in Hrest by done; simplify_eq.
    + lia.
    + unfold lcs_entry. by rewrite length_insert.
    + intros k Hk. unfold lcs_entry. destruct (decide (k = S j)) as [->|Hne].
      * rewrite list_lookup_total_insert_eq by lia. by rewrite (row_of_step _ _ _ _ Hy), !Hprev, Hcurr by lia.
      * rewrite list_lookup_total_insert_ne by done. apply Hcurr. lia.
Qed.

Lemma zero_row_spec : holds_row [] (replicate (length short + 1) 0%N).
Proof.
  split; [by rewrite length_replicate, Nat.add_1_r|]. intros j Hj. apply lookup_total_replicate_2. lia.
Qed.

Lemma lcs_lines_spec long seen prev :
  holds_row seen prev →
  holds_row (reverse long ++ seen)
    (fst (fold_left (lcs_line short) long (prev, replicate (length short + 1) 0%N))).
Proof.
  revert seen prev. induction long as [|x long IH]; intros seen prev Hprev; cbn [fold_left]; [done|].
  rewrite reverse_cons, <- app_assoc. cbn [app lcs_line].
  replace (length prev) with (length short + 1) by (destruct Hprev; lia).
  apply IH. apply lcs_row_spec; [done|by rewrite drop_0|lia|by rewrite length_replicate; lia|].
  intros k Hk. rewrite lookup_total_replicate_2 by lia. unfold row_of.
  replace k with 0 by lia. by rewrite take_0, lcs_nil_r.
Qed.
End Table.

Lemma last_row row n : length row = S n → default 0%N (last row) = row !!! n.
Proof.
  intros H. rewrite last_lookup, H. destruct (lookup_lt_is_Some_2 row n) as [v Hv]; [lia|].
  simpl. by rewrite Hv, (list_lookup_total_correct _ _ _ Hv).
Qed.

Lemma lcs_length_reversed a b : ∃ xs ys,
  lcs_length a b = N.of_nat (lcs (reverse xs) (reverse ys)) ∧ (xs = a ∧ ys = b ∨ xs = b ∧ ys = a).
Proof.
  assert (∀ short long,
    default 0%N (last (fst (fold_left (lcs_line short) long
      (replicate (length short + 1) 0%N, replicate (length short + 1) 0%N)))) =
    N.of_nat (lcs (reverse long) (reverse short))) as Htable.
  { intros short long.
    destruct (lcs_lines_spec short long [] _ (zero_row_spec short)) as [Hlen Hrow].
    rewrite (last_row _ _ Hlen), Hrow by done. unfold row_of. by rewrite app_nil_r, take_ge by done. }
  unfold lcs_length. destruct (length a <=? length b); eexists _, _; split; eauto.
Qed.

(** [s] is a longest common subsequence of [a] and [b]. *)
Definition longest_common (a b s : list string) : Prop :=
  s `sublist_of` a ∧ s `sublist_of` b ∧
  ∀ t, t `sublist_of` a → t `sublist_of` b → length t ≤ length s.

Lemma lcs_length_spec a b : ∃ s, longest_common a b s ∧ lcs_length a b = N.of_nat (length s).
Proof.
  destruct (lcs_length_reversed a b) as (xs&ys&->&Hxy).
  destruct (lcs_attained (reverse xs) (reverse ys)) as (s&Hx&Hy&Hs).
  exists (reverse s). rewrite length_reverse, Hs. split; [|done].
  assert (Hrev : ∀ t l : list string, t `sublist_of` reverse l → reverse t `sublist_of` l).
  { intros t l Ht%sublist_reverse. by rewrite reverse_involutive in Ht. }
  assert (Hmax : ∀ t, t `sublist_of` xs → t `sublist_of` ys → length t ≤ length s).
  { intros t Htx Hty. rewrite <- (length_reverse t), Hs. apply lcs_longest; by apply sublist_reverse. }
  unfold longest_common. rewrite length_reverse.
  destruct Hxy as [[-> ->]|[-> ->]]; split; auto.
Qed.

(** C36. The changed lines of a patch are counted exactly: there is a longest common subsequence of the lines of the two
    texts such that the additions are the lines of the new text that are not in it and the deletions those of the old
    one; so the subtractions do not underflow, equal texts have no changes, and no way to turn one text into the other
    by adding and removing lines needs fewer of either. *)
Theorem changed_lines_are_counted_exactly old new :
  let '(additions, deletions) := count_line_changes old new in
  ∃ s, longest_common (lines old) (lines new) s ∧
    N.to_nat additions + length s = length (lines new) ∧ N.to_nat deletions + length s = length (lines old).
Proof.
  unfold count_line_changes. case_bool_decide as E.
  { subst. exists (lines new). split; [|done]. split; [done|]. split; [done|]. intros t Ht _. by apply sublist_length. }
  destruct (lcs_length_spec (lines old) (lines new)) as (s&Hs&Hlen).
  destruct Hs as (Ho&Hn&Hmax). apply sublist_length in Ho as Ho', Hn as Hn'.
  destruct (lines old) as [|o os] eqn:Eo.
  - exists []. apply sublist_nil_r in Ho. subst s. split; [by split|]. simpl. lia.
  - destruct (lines new) as [|n ns] eqn:En.
    + exists []. apply sublist_nil_r in Hn. subst s. split; [by split|]. simpl. lia.
    + exists s. rewrite Hlen. split; [done|]. lia.
Qed.

(** ** Going back *)

Implicit Types (m : SessionMessage) (ms : list SessionMessage).

Lemma ltb_irrefl a : String.ltb a a = false.
Proof. unfold String.ltb. pose proof (String.compare_antisym a a) as E. by destruct (String.compare a a). Qed.
Lemma ltb_asym a b : String.ltb a b = true → String.ltb b a = false.
Proof. unfold String.ltb. rewrite (String.compare_antisym b a). by destruct (String.compare a b). Qed.

(** Messages in the order of their identifiers. *)
Definition earlier m m' : Prop := String.ltb (msg_id m) (msg_id m') = true.
Abbreviation ordered := (StronglySorted earlier).

Lemma ordered_app ms ms' :
  ordered (ms ++ ms') → ordered ms ∧ ordered ms' ∧ ∀ m m', m ∈ ms → m' ∈ ms' → earlier m m'.
Proof.
  induction ms as [|x ms IH]; cbn [app]; intros Hs.
  { split; [constructor|]. split; [done|]. by intros m m' []%elem_of_nil. }
  apply StronglySorted_inv in Hs as [Hs Hx]. destruct (IH Hs) as (H1&H2&H3).
  rewrite Forall_app in Hx. destruct Hx as [Hx1 Hx2].
  split; [by constructor|]. split; [done|]. intros m m' [->|Hm]%elem_of_cons Hm'; [|by apply H3].
  rewrite Forall_forall in Hx2. by apply Hx2.
Qed.

Lemma ordered_distinct ms m ms' x : ordered (ms ++ m :: ms') → x ∈ ms → msg_id x ≠ msg_id m.
Proof.
  intros (_&_&H)%ordered_app Hx E. specialize (H x m Hx (list_elem_of_here _ _)). unfold earlier in H.
  by rewrite E, ltb_irrefl in H.
Qed.

(** *** The point that is found *)

Definition no_user ms : Prop := Forall (λ m, role m ≠ User) ms.
Definition without_part (id : string) ms : Prop :=
  Forall (λ m, Forall (λ p, part_id p ≠ id) (parts m)) ms.

(** Where a request to go back leads: to the last message of the user up to the message, to the message if
    there is none, or before a part of it; [kept] are the messages that stay. *)
Inductive goes_back (input : RevertInput) : list SessionMessage → list SessionMessage → Prop :=
| back_to_user before m after kept u turn :
    ri_part_id input = None → msg_id m = ri_message_id input →
    before ++ [m] = kept ++ u :: turn → role u = User → no_user turn →
    goes_back input (before ++ m :: after) kept
| back_to_message before m after :
    ri_part_id input = None → msg_id m = ri_message_id input → no_user (before ++ [m]) →
    goes_back input (before ++ m :: after) before
| back_to_part before m after ps p qs :
    ri_part_id input = Some (part_id p) → parts m = ps ++ p :: qs →
    without_part (part_id p) before → Forall (λ q, part_id q ≠ part_id p) ps →
    goes_back input (before ++ m :: after) (before ++ [with_parts ps m]).

(** The point of a request is of the message [target], with the part that was asked for. *)
Definition points_at (input : RevertInput) (target : string) (acc : option string * option RevertInfo) : Prop :=
  ∃ r, snd acc = Some r ∧ rev_message_id r = target ∧ rev_part_id r = ri_part_id input.

Lemma found_stays input target ms acc :
  points_at input target acc → points_at input target (fold_left (revert_step input) ms acc).
Proof.
  revert acc. induction ms as [|m ms IH]; intros acc Hacc; cbn [fold_left]; [done|].
  apply IH. destruct acc as [last_user revert], Hacc as (r&E&Hr). simpl in E. subst revert. by exists r.
Qed.

(** The last message of the user, after [last]. *)
Definition last_user (last : option string) ms : option string :=
  fold_left (λ last m, if decide (role m = User) then Some (msg_id m) else last) ms last.

Definition not_found (input : RevertInput) m : Prop :=
  match ri_part_id input with
  | None => msg_id m ≠ ri_message_id input
  | Some id => Forall (λ p, part_id p ≠ id) (parts m)
  end.

Lemma parts_without input m :
  match ri_part_id input with None => True | Some id => Forall (λ p, part_id p ≠ id) (parts m) end →
  existsb (λ p, bool_decide (Some (part_id p) = ri_part_id input)) (parts m) = false.
Proof.
  intros Hm. apply not_true_iff_false. intros (p&Hp&E)%existsb_exists. apply bool_decide_eq_true in E.
  rewrite <- E in Hm. rewrite Forall_forall in Hm. by apply (Hm p); [apply list_elem_of_In|].
Qed.

Lemma search_on input ms last :
  Forall (not_found input) ms → fold_left (revert_step input) ms (last, None) = (last_user last ms, None).
Proof.
  intros Hms. revert last. induction Hms as [|m ms Hm _ IH]; intros last; cbn [fold_left]; [done|].
  change (last_user last (m :: ms)) with (last_user (if decide (role m = User) then Some (msg_id m) else last) ms).
  rewrite <- IH.
  f_equal. unfold revert_step. unfold not_found in Hm. rewrite parts_without by by destruct (ri_part_id input).
  destruct (ri_part_id input).
  - by rewrite (bool_decide_eq_false_2 (_ = None)), andb_false_r by done.
  - by rewrite (bool_decide_eq_false_2 (msg_id m = _)) by done.
Qed.

Lemma last_user_app last ms ms' : last_user last (ms ++ ms') = last_user (last_user last ms) ms'.
Proof. apply fold_left_app. Qed.
Lemma last_user_none last ms : no_user ms → last_user last ms = last.
Proof. intros Hms. induction Hms as [|m ms Hm _ IH]; [done|]. unfold last_user. cbn. by rewrite decide_False. Qed.
Lemma last_user_some last ms u ms' : role u = User → no_user ms' → last_user last (ms ++ u :: ms') = Some (msg_id u).
Proof.
  intros Hu Hms'. change (u :: ms') with ([u] ++ ms'). rewrite !last_user_app, (last_user_none _ ms') by done.
  cbn. by rewrite decide_True.
Qed.

(** *** What cleaning up keeps *)

Lemma cleanup_before r ms acc :
  Forall (λ m, String.ltb (msg_id m) (rev_message_id r) = true) ms →
  fold_left (cleanup_step r) ms acc = (fst acc ++ ms, snd acc).
Proof.
  intros Hms. revert acc. induction Hms as [|m ms Hm _ IH]; intros [preserve target]; cbn [fold_left].
  { by rewrite app_nil_r. }
  rewrite IH. unfold cleanup_step. rewrite Hm. cbn. by rewrite <- app_assoc.
Qed.

Lemma cleanup_after r ms acc :
  Forall (λ m, String.ltb (rev_message_id r) (msg_id m) = true) ms → fold_left (cleanup_step r) ms acc = acc.
Proof.
  intros Hms. revert acc. induction Hms as [|m ms Hm _ IH]; intros acc; cbn [fold_left]; [done|].
  rewrite IH. unfold cleanup_step. destruct acc. by rewrite (ltb_asym _ _ Hm), Hm.
Qed.

(** What is kept of the message of the point. *)
Definition kept_part (id : option string) m : list SessionMessage :=
  match id with
  | Some id =>
      match position (is_part id) (parts m) with
      | Some start => [with_parts (take start (parts m)) m]
      | None => []
      end
  | None => []
  end.

Lemma cleanup_at_point r before m after :
  ordered (before ++ m :: after) → rev_message_id r = msg_id m →
  cleanup_messages r (before ++ m :: after) = before ++ kept_part (rev_part_id r) m.
Proof.
  intros Hord Hr. apply ordered_app in Hord as (_&Hafter&Hbefore).
  apply StronglySorted_inv in Hafter as [_ Hafter].
  unfold cleanup_messages. rewrite fold_left_app, (cleanup_before r before).
  2: { apply Forall_forall. intros x Hx. rewrite Hr. exact (Hbefore x m Hx (list_elem_of_here _ _)). }
  cbn [fold_left fst snd app]. rewrite cleanup_after.
  2: { rewrite Hr. exact Hafter. }
  unfold cleanup_step. rewrite Hr, ltb_irrefl. unfold kept_part.
  destruct (rev_part_id r) as [id|]; cbn; [|by rewrite app_nil_r].
  case_match; [done|by rewrite app_nil_r].
Qed.

(** *** Going back and cleaning up *)

Lemma revert_point_at input before m after target :
  Forall (not_found input) before → points_at input target (revert_step input (last_user None before, None) m) →
  ∃ r, revert_point input (before ++ m :: after) = Some r ∧
    rev_message_id r = target ∧ rev_part_id r = ri_part_id input.
Proof.
  intros Hbefore Hm. unfold revert_point. rewrite fold_left_app, search_on by done. cbn [fold_left].
  by apply found_stays.
Qed.

Lemma ordered_not_found input before m after :
  ordered (before ++ m :: after) → ri_part_id input = None → msg_id m = ri_message_id input →
  Forall (not_found input) before.
Proof.
  intros Hord Hpart Hid. apply Forall_forall. intros x Hx. unfold not_found. rewrite Hpart, <- Hid.
  by eapply ordered_distinct.
Qed.

(** A message that was asked for leads to the last one of the user. *)
Lemma message_points_at input before m :
  ri_part_id input = None → msg_id m = ri_message_id input →
  points_at input (default (msg_id m) (last_user None (before ++ [m])))
    (revert_step input (last_user None before, None) m).
Proof.
  intros Hpart Hid. unfold revert_step. rewrite last_user_app, parts_without by by rewrite Hpart.
  rewrite !bool_decide_eq_true_2 by done. cbn. by eexists.
Qed.

(** The point that a request finds leads to the messages to keep, when they are in order. *)
Lemma revert_point_spec input ms kept :
  goes_back input ms kept → ordered ms →
  ∃ r, revert_point input ms = Some r ∧
    ∀ r', rev_message_id r' = rev_message_id r → rev_part_id r' = rev_part_id r → cleanup_messages r' ms = kept.
Proof.
  intros Hback Hord. destruct Hback as
    [before m after kept u turn Hpart Hid Hsplit Hu Hturn|before m after Hpart Hid Huser
    |before m after ps p qs Hpart Hparts Hbefore Hps].
  - destruct (revert_point_at input before m after (msg_id u)) as (r&Hr&Hm&Hp).
    { by eapply ordered_not_found. }
    { pose proof (message_points_at input before m Hpart Hid) as H. by rewrite Hsplit, last_user_some in H. }
    exists r. split; [done|]. intros r' Hm' Hp'.
    replace (before ++ m :: after) with (kept ++ u :: (turn ++ after)) in *.
    + rewrite cleanup_at_point by congruence. by rewrite Hp', Hp, Hpart, app_nil_r.
    + change (u :: turn ++ after) with ((u :: turn) ++ after). rewrite app_assoc, <- Hsplit. by rewrite <- app_assoc.
  - destruct (revert_point_at input before m after (msg_id m)) as (r&Hr&Hm&Hp).
    { by eapply ordered_not_found. }
    { pose proof (message_points_at input before m Hpart Hid) as H. by rewrite last_user_none in H. }
    exists r. split; [done|]. intros r' Hm' Hp'.
    rewrite cleanup_at_point by congruence. by rewrite Hp', Hp, Hpart, app_nil_r.
  - destruct (revert_point_at input before m after (msg_id m)) as (r&Hr&Hm&Hp).
    { eapply Forall_impl; [exact Hbefore|]. intros x Hx. unfold not_found. by rewrite Hpart. }
    { unfold revert_step. rewrite (proj2 (existsb_exists _ _)); [by eexists|].
      exists p. rewrite Hparts. split; [apply list_elem_of_In; set_solver|by apply bool_decide_eq_true]. }
    exists r. split; [done|]. intros r' Hm' Hp'. rewrite cleanup_at_point by congruence.
    rewrite Hp', Hp, Hpart. unfold kept_part.
    rewrite (proj2 (position_Some _ _ (length ps))).
    + by rewrite Hparts, take_app_length.
    + exists ps, p, qs. split; [done|]. split; [done|]. split; [by apply bool_decide_eq_true|].
      eapply Forall_impl; [exact Hps|]. intros q Hq. by apply bool_decide_eq_false.
Qed.

Section GoingBack.
Context `{SessionEnv} `{SnapshotEnv W} (diffs_to_string : list FileDiff → string).

(** C35. Going back goes to the turn of the user. In a session whose messages are in the order of their identifiers: a
    revert that succeeds changes no message; cleaning up with the point it recorded leaves exactly the messages before the
    last message of the user up to the one that was asked for (before that one itself, if no user spoke), or, for a part,
    those before its message and the message with the parts before it; taking the revert back instead leaves all messages;
    neither leaves a point behind, or touches another session. *)
Theorem going_back_keeps_what_came_before input M w supply s kept s' M' w' supply' :
  get (ri_session_id input) M = Some s → ordered (messages s) → goes_back input (messages s) kept →
  revert diffs_to_string input M w supply = ((Ok (Some s'), M', w'), supply') →
  ∃ v, revert_info s' = Some v ∧ messages s' = messages s ∧
    (∀ r supply1, rev_message_id r = rv_message_id v → rev_part_id r = rv_part_id v →
      let M1 := fst (cleanup (ri_session_id input) r M' supply1) in
      (∃ s1, get (ri_session_id input) M1 = Some s1 ∧ messages s1 = kept ∧ revert_info s1 = None) ∧
      ∀ k, k ≠ ri_session_id input → get k M1 = get k M) ∧
    (∀ w1 supply1,
      let M1 := snd (fst (fst (unrevert (ri_session_id input) M' w1 supply1))) in
      (∃ s1, get (ri_session_id input) M1 = Some s1 ∧ messages s1 = messages s ∧ revert_info s1 = None) ∧
      ∀ k, k ≠ ri_session_id input → get k M1 = get k M).
Proof.
  intros Hs Hord Hback Hrun. destruct (revert_point_spec _ _ _ Hback Hord) as (r&Hr&Hkept).
  unfold revert in Hrun. rewrite Hs, Hr in Hrun.
  destruct (match revert_info s ≫= rv_snapshot with
            | Some existing => (existing, w)
            | None => let '(r0, w0) := track w in (match r0 with Ok hash => hash | Err _ => "" end, w0)
            end) as [snapshot w1].
  destruct (snapshot_diff snapshot w1) as [[diffs|e] w2]; [|done]. cbn in Hrun. injection Hrun as <- <- _ _.
  eexists. split; [done|]. split; [done|]. unfold get, store in *. cbn. split.
  - intros r' supply1 Hm Hp. unfold cleanup, get. cbn. rewrite lookup_insert_eq. cbn. rewrite lookup_insert_eq. split.
    + eexists. split; [done|]. split; [by apply Hkept|done].
    + intros k Hk. by rewrite !lookup_insert_ne.
  - intros w3 supply1. unfold unrevert, get. cbn. rewrite lookup_insert_eq. cbn. rewrite lookup_insert_eq. split.
    + by eexists.
    + intros k Hk. by rewrite !lookup_insert_ne.
Qed.
End GoingBack.

(** *** Samples *)

#[local] Existing Instance plain_env.

(** A work tree in which git does nothing and says nothing. *)
#[local] Instance quiet_git : SnapshotEnv unit := {
  create_dir_all w := (true, w); head_exists _ := true; git_init w := (true, w); git_output _ w := (Some "", w)
}.

Definition sample_part (id : string) : MessagePart :=
  {| part_id := id; part_type := TextPart "x" None None; part_created_at := 0; part_message_id := None |}.
Definition sample_turn (id : string) (r : MessageRole) : SessionMessage :=
  {| msg_id := id; msg_session_id := "s1"; role := r; parts := [sample_part (id +:+ "p1"); sample_part (id +:+ "p2")];
     msg_created_at := 0; msg_metadata := ∅; msg_usage := None; finish := None |}.
Definition sample_conversation : list SessionMessage :=
  [sample_turn "m1" User; sample_turn "m2" Assistant; sample_turn "m3" User; sample_turn "m4" Assistant].
Definition conversation_of (ms : list SessionMessage) : SessionManager :=
  with_sessions {[ "s1" := with_messages ms (fst (session_new "p" "/w" {| clock_reads := 0; uuids_drawn := 0 |})) ]}
    with_bus.
Definition sample_input : RevertInput :=
  {| ri_session_id := "s1"; ri_message_id := "m4"; ri_part_id := None |}.

Lemma going_back_keeps_what_came_before_witness :
  ∃ s' M' w' supply', revert (λ _, "") sample_input (conversation_of sample_conversation) tt
      {| clock_reads := 9; uuids_drawn := 9 |} = ((Ok (Some s'), M', w'), supply') ∧
    ∃ v, revert_info s' = Some v ∧ rv_message_id v = "m3" ∧ messages s' = sample_conversation.
Proof.
  destruct (revert _ _ _ _ _) as [[[[[s'|]|e] M'] w'] supply'] eqn:E.
  - exists s', M', w', supply'. split; [done|].
    destruct (going_back_keeps_what_came_before (λ _, "") sample_input (conversation_of sample_conversation) tt
      {| clock_reads := 9; uuids_drawn := 9 |}
      (with_messages sample_conversation (fst (session_new "p" "/w" {| clock_reads := 0; uuids_drawn := 0 |})))
      [sample_turn "m1" User; sample_turn "m2" Assistant] s' M' w' supply') as (v&Hv&Hms&_).
    + done.
    + repeat constructor.
    + by apply (back_to_user _ [sample_turn "m1" User; sample_turn "m2" Assistant; sample_turn "m3" User]
        (sample_turn "m4" Assistant) [] _ (sample_turn "m3" User) [sample_turn "m4" Assistant]); [..|constructor].
    + exact E.
    + exists v. split; [done|]. split; [|done].
      apply (f_equal (λ r, match fst (fst (fst r)) with Ok (Some s) => rv_message_id <$> revert_info s | _ => None end)) in E.
      cbn in E. rewrite Hv in E. by injection E as <-.
  - apply (f_equal (λ r, match fst (fst (fst r)) with Ok (Some s) => true | _ => false end)) in E. by vm_compute in E.
  - apply (f_equal (λ r, match fst (fst (fst r)) with Ok (Some s) => true | _ => false end)) in E. by vm_compute in E.
Defined.

(** Identifiers that are drawn at random are in no order: of a conversation whose second message has a
    smaller identifier than its first one, cleaning up keeps the later message and drops the earlier one. *)
Example random_identifiers_lose_history :
  msg_id <$> cleanup_messages {| rev_message_id := "msg_5"; rev_part_id := None; rev_snapshot := None; rev_diff := None |}
    [sample_turn "msg_9" User; sample_turn "msg_5" User; sample_turn "msg_2" Assistant] = ["msg_2"].
Proof. vm_compute. reflexivity. Qed.
