(* ===== verification/SessionTodoProps.v ===== *)
(** * Todo lists in memory and in the database

    What the database returns is what is in memory, and when it is not. *)

From S2P Require Import Prelude Json SessionTypes SessionTodo.
From stdpp Require Import options.

(** ** Rows of a list *)

Lemma str_app_cancel (p s t : string) : p +:+ s = p +:+ t → s = t.
Proof. induction p as [|c p IH]; simpl; [done|]. intros [= E]. by apply IH. Qed.

Lemma todo_id_inj sid i j : todo_id sid i = todo_id sid j → i = j.
Proof.
  unfold todo_id. intros E%str_app_cancel. injection E as E%dec_string_inj. by apply Nat2N.inj.
Qed.

(** The items of a list, each at its index. *)
Definition items_of (sid : string) (todos : list TodoInfo) : list TodoItem := imap (item_of sid) todos.
Definition rows_of (sid : string) (todos : list TodoInfo) : gmap string TodoItem :=
  list_to_map ((λ item, (ti_id item, item)) <$> items_of sid todos).

Lemma items_ids sid todos : NoDup (ti_id <$> items_of sid todos).
Proof.
  apply NoDup_alt. intros i j x Hi Hj. unfold items_of in *.
  rewrite list_lookup_fmap, list_lookup_imap in Hi, Hj.
  destruct (todos !! i), (todos !! j); simplify_eq/=. by eapply todo_id_inj.
Qed.

Lemma rows_of_lookup sid todos k item :
  rows_of sid todos !! k = Some item ↔ ∃ i todo, todos !! i = Some todo ∧ k = todo_id sid i ∧ item = item_of sid i todo.
Proof.
  unfold rows_of. rewrite <- elem_of_list_to_map.
  2: { rewrite <- list_fmap_compose. apply items_ids. }
  rewrite list_elem_of_fmap. split.
  - intros (x&[= -> ->]&Hx). apply list_elem_of_lookup in Hx as [i Hi]. unfold items_of in Hi.
    rewrite list_lookup_imap in Hi. destruct (todos !! i) as [todo|] eqn:E; simplify_eq/=. by exists i, todo.
  - intros (i&todo&E&->&->). exists (item_of sid i todo). split; [done|].
    apply list_elem_of_lookup. exists i. unfold items_of. by rewrite list_lookup_imap, E.
Qed.

Lemma rows_of_ext sid todos rows :
  (∀ k item, rows !! k = Some item ↔
    ∃ i todo, todos !! i = Some todo ∧ k = todo_id sid i ∧ item = item_of sid i todo) →
  rows = rows_of sid todos.
Proof. intros Hrows. apply map_eq. intros k. apply option_eq. intros item. by rewrite Hrows, rows_of_lookup. Qed.

Lemma rows_of_nil sid : rows_of sid [] = ∅.
Proof. done. Qed.

(** Appending an item and replacing one. *)
Lemma rows_of_put sid todos i todo :
  i ≤ length todos →
  <[todo_id sid i := item_of sid i todo]> (rows_of sid todos) = rows_of sid (take i todos ++ todo :: drop (S i) todos).
Proof.
  intros Hi. apply rows_of_ext. intros k item. rewrite lookup_insert_Some, rows_of_lookup. split.
  - intros [[<- <-]|[Hne (j&t&Hj&->&->)]].
    + exists i, todo. split; [|done]. by rewrite lookup_app_r, length_take, Nat.min_l, Nat.sub_diag by (rewrite ?length_take; lia).
    + exists j, t. split; [|done]. assert (j ≠ i) by congruence. destruct (decide (j < i)).
      * rewrite lookup_app_l by (rewrite length_take; apply lookup_lt_Some in Hj; lia). by rewrite lookup_take_lt.
      * rewrite lookup_app_r by (rewrite length_take; lia). rewrite length_take, Nat.min_l by done.
        replace (j - i) with (S (j - S i)) by lia. simpl. rewrite lookup_drop. by replace (S i + (j - S i)) with j by lia.
  - intros (j&t&Hj&->&->). destruct (decide (j = i)) as [->|Hne].
    + left. rewrite lookup_app_r, length_take, Nat.min_l, Nat.sub_diag in Hj by (rewrite ?length_take; lia). by simplify_eq/=.
    + right. split; [by intros ?%todo_id_inj|]. exists j, t. split; [|done]. destruct (decide (j < i)).
      * rewrite lookup_app_l in Hj by (rewrite length_take; lia). by rewrite lookup_take_lt in Hj.
      * rewrite lookup_app_r, length_take, Nat.min_l in Hj by (rewrite ?length_take; lia).
        replace (j - i) with (S (j - S i)) in Hj by lia. simpl in Hj. rewrite lookup_drop in Hj.
        by replace (S i + (j - S i)) with j in Hj by lia.
Qed.

Lemma rows_of_add sid todos todo :
  <[todo_id sid (length todos) := item_of sid (length todos) todo]> (rows_of sid todos) = rows_of sid (todos ++ [todo]).
Proof. rewrite rows_of_put by done. by rewrite take_ge, drop_ge by lia. Qed.

Lemma rows_of_replace sid todos i todo :
  i < length todos →
  <[todo_id sid i := item_of sid i todo]> (rows_of sid todos) = rows_of sid (<[i := todo]> todos).
Proof. intros Hi. rewrite rows_of_put by lia. by rewrite insert_take_drop. Qed.

Lemma rows_of_pop sid todos todo :
  delete (todo_id sid (length todos)) (rows_of sid (todos ++ [todo])) = rows_of sid todos.
Proof.
  rewrite <- rows_of_add. apply delete_insert_id. apply eq_None_not_Some. intros [item Hitem].
  apply rows_of_lookup in Hitem as (i&t&Ht&E&_). apply todo_id_inj in E. apply lookup_lt_Some in Ht. lia.
Qed.

#[export] Instance position_leb_trans : Transitive position_leb.
Proof. intros a b c. unfold position_leb. lia. Qed.
#[export] Instance position_leb_total : Total position_leb.
Proof. intros a b. unfold position_leb. lia. Qed.

Lemma items_sorted sid todos : StronglySorted position_leb (items_of sid todos).
Proof.
  unfold items_of. assert (∀ n, StronglySorted position_leb (imap (λ i, item_of sid (n + i)) todos)) as Hsorted.
  2: { exact (Hsorted 0). }
  induction todos as [|todo todos IH]; intros n; [constructor|]. cbn [imap]. constructor.
  - replace (imap _ todos) with (imap (λ i, item_of sid (S n + i)) todos); [apply IH|].
    apply imap_ext. intros i t _. cbn. by rewrite Nat.add_succ_r.
  - apply Forall_forall. intros x Hx. apply list_elem_of_lookup in Hx as [i Hi].
    rewrite list_lookup_imap in Hi. apply fmap_Some in Hi as (t&_&->). unfold position_leb. cbn. lia.
Qed.

Section Sync.
Context `{SessionEnv}.

Lemma rows_read_back sid todos t :
  session_rows sid t = rows_of sid todos → info_of <$> rows_by_position sid t = todos.
Proof.
  intros Hrows. unfold rows_by_position. rewrite Hrows.
  assert (E : merge_sort position_leb (hash_values (rows_of sid todos)) = items_of sid todos).
  { assert (Hperm : hash_values (rows_of sid todos) ≡ₚ items_of sid todos).
    { unfold hash_values, rows_of. rewrite hash_entries_perm, map_to_list_to_map.
      - by rewrite <- list_fmap_compose, list_fmap_id.
      - rewrite <- list_fmap_compose. apply items_ids. }
    apply (StronglySorted_unique_strong position_leb).
    - intros x y Hx Hy Hxy Hyx. rewrite merge_sort_Permutation, Hperm in Hx.
      apply list_elem_of_lookup in Hx as [i Hi], Hy as [j Hj]. unfold items_of in *.
      rewrite list_lookup_imap in Hi, Hj. apply fmap_Some in Hi as (a&Ha&->), Hj as (b&Hb&->).
      unfold position_leb in *. cbn in *. assert (i = j) as -> by lia. congruence.
    - apply (StronglySorted_merge_sort position_leb).
    - apply items_sorted.
    - by rewrite merge_sort_Permutation. }
  rewrite E. unfold items_of. apply list_eq. intros i. rewrite list_lookup_fmap, list_lookup_imap.
  by destruct (todos !! i) as [[]|].
Qed.

(** ** Calls *)

Inductive TodoCall :=
| TodoUpdate (sid : string) (todos : list TodoInfo) | TodoClear (sid : string)
| TodoSetStatus (sid : string) (index : nat) (st : string) | TodoAdd (sid : string) (todo : TodoInfo)
| TodoRemove (sid : string) (index : nat) | TodoGet (sid : string).

Definition todo_call (c : TodoCall) (T : TodoManager) : TodoManager :=
  match c with
  | TodoUpdate sid todos => todo_update (λ _, false) sid todos T
  | TodoClear sid => todo_clear (λ _, false) sid T
  | TodoSetStatus sid i st => snd (todo_set_status (λ _, false) sid i st T)
  | TodoAdd sid todo => todo_add (λ _, false) sid todo T
  | TodoRemove sid i => snd (todo_remove (λ _, false) sid i T)
  | TodoGet sid => snd (todo_get (λ _, false) sid T)
  end.

(** What the calls mean for the list of each session. *)
Definition with_status_at (i : nat) (st : string) (todos : list TodoInfo) : list TodoInfo :=
  alter (λ todo, {| td_content := td_content todo; td_status := st; td_priority := td_priority todo |}) i todos.
Lemma with_status_inside i st todos todo :
  todos !! i = Some todo →
  <[i := {| td_content := td_content todo; td_status := st; td_priority := td_priority todo |}]> todos
    = with_status_at i st todos.
Proof. intros Hi. unfold with_status_at. rewrite list_insert_alter. by apply list_alter_ext; [intros x Hx; simplify_eq|]. Qed.
Lemma with_status_outside i st todos : length todos ≤ i → with_status_at i st todos = todos.
Proof.
  unfold with_status_at. revert i. induction todos as [|t todos IH]; intros [|i] Hi; cbn in *; [done|done|lia|].
  f_equal. apply IH. lia.
Qed.

Definition list_after (c : TodoCall) (sid : string) (todos : list TodoInfo) : list TodoInfo :=
  match c with
  | TodoUpdate s new => if decide (s = sid) then new else todos
  | TodoClear s => if decide (s = sid) then [] else todos
  | TodoSetStatus s i st => if decide (s = sid) then with_status_at i st todos else todos
  | TodoAdd s todo => if decide (s = sid) then todos ++ [todo] else todos
  | TodoRemove s i => if decide (s = sid) then remove_at i todos else todos
  | TodoGet _ => todos
  end.

Definition in_memory (sid : string) (T : TodoManager) : list TodoInfo := default [] (td_state T !! sid).
(** The table has the rows of the lists in memory, and no others. *)
Definition synced (T : TodoManager) : Prop :=
  ∃ t, td_db T = Some t ∧ ∀ sid, session_rows sid t = rows_of sid (in_memory sid T).
Lemma session_rows_insert sid sid' rows t :
  session_rows sid (<[sid' := rows]> t) = if decide (sid' = sid) then rows else session_rows sid t.
Proof.
  unfold session_rows. destruct (decide (sid' = sid)) as [->|Hne]; [by rewrite lookup_insert_eq|].
  by rewrite lookup_insert_ne.
Qed.

(** Upserts of a list, from an index on, into the rows of those before. *)
Lemma upsert_all_spec sid todos before T t :
  td_db T = Some t → session_rows sid t = rows_of sid before →
  ∃ t', upsert_all (λ _, false) sid (length before) todos T
      = {| td_state := td_state T; td_db := Some t'; td_queries := td_queries T + length todos; td_bus := td_bus T;
           td_published := td_published T |} ∧
    ∀ sid', session_rows sid' t' = if decide (sid = sid') then rows_of sid (before ++ todos) else session_rows sid' t.
Proof.
  revert before T t. induction todos as [|todo todos IH]; intros before T t Hdb Hrows; cbn [upsert_all].
  - exists t. split; [by destruct T; simpl in *; rewrite Nat.add_0_r, Hdb|].
    intros sid'. case_decide as E; [|done]. by rewrite app_nil_r, <- E.
  - unfold query at 1. rewrite Hdb.
    destruct (IH (before ++ [todo])
      {| td_state := td_state T;
         td_db := Some (upsert_row sid (item_of sid (length before) todo) t);
         td_queries := S (td_queries T); td_bus := td_bus T; td_published := td_published T |}
      (upsert_row sid (item_of sid (length before) todo) t)) as (t'&E&Hrows'); [done| |].
    { unfold upsert_row. rewrite session_rows_insert, decide_True, Hrows by done. apply rows_of_add. }
    rewrite length_app, Nat.add_1_r in E. exists t'. split.
    + rewrite E. cbn. f_equal. lia.
    + intros sid'. rewrite Hrows'. unfold upsert_row. rewrite session_rows_insert, <- app_assoc.
      by case_decide.
Qed.

Lemma in_memory_insert sid sid' todos m T :
  td_state T = <[sid' := todos]> m → in_memory sid T = if decide (sid' = sid) then todos else default [] (m !! sid).
Proof.
  unfold in_memory. intros ->. case_decide as E; [by rewrite E, lookup_insert_eq|by rewrite lookup_insert_ne].
Qed.
Lemma in_memory_delete sid sid' m T :
  td_state T = delete sid' m → in_memory sid T = if decide (sid' = sid) then [] else default [] (m !! sid).
Proof.
  unfold in_memory. intros ->. case_decide as E; [by rewrite E, lookup_delete_eq|by rewrite lookup_delete_ne].
Qed.

Lemma snoc_or_nil {A} (l : list A) : l = [] ∨ ∃ k x, l = k ++ [x].
Proof. induction l as [|x l _] using rev_ind; eauto. Qed.

(** Only the last item is removed. *)
Definition removes_last (c : TodoCall) (T : TodoManager) : Prop :=
  match c with TodoRemove sid i => length (in_memory sid T) ≤ S i | _ => True end.

(** A change of one list and of its rows. *)
Lemma synced_change sid todos rows T T' t :
  td_db T = Some t → (∀ s, session_rows s t = rows_of s (in_memory s T)) →
  td_db T' = Some (<[sid := rows]> t) → rows = rows_of sid todos →
  (∀ s, in_memory s T' = if decide (sid = s) then todos else in_memory s T) → synced T'.
Proof.
  intros Hold Hsync Hdb -> Hmem. eexists. split; [exact Hdb|]. intros s. rewrite session_rows_insert, Hmem, Hsync.
  case_decide as E; [by rewrite E|done].
Qed.

Lemma publish_keeps sid todos T :
  td_state (publish_todos sid todos T) = td_state T ∧ td_db (publish_todos sid todos T) = td_db T.
Proof. unfold publish_todos. by case_match. Qed.

Lemma update_synced sid todos T :
  synced T →
  synced (todo_update (λ _, false) sid todos T) ∧
  ∀ s, in_memory s (todo_update (λ _, false) sid todos T) = if decide (sid = s) then todos else in_memory s T.
Proof.
  intros (t&Hdb&Hsync). unfold todo_update. unfold query. rewrite Hdb.
  set (T1 := {| td_state := _; td_db := _ |}).
  destruct (upsert_all_spec sid todos [] T1 (delete_rows_for_session sid t)) as (t'&E&Hrows); [done| |].
  { unfold delete_rows_for_session. by rewrite session_rows_insert, decide_True. }
  cbn [length] in E. rewrite E. cbn [app] in Hrows.
  set (T2 := publish_todos _ _ _).
  assert (Hmem : ∀ s, in_memory s T2 = if decide (sid = s) then todos else in_memory s T).
  { intros s. subst T2. unfold in_memory at 1. rewrite (proj1 (publish_keeps _ _ _)). destruct todos as [|todo todos].
    - by apply (in_memory_delete s sid (td_state T) (with_todos (delete sid (td_state T)) T)).
    - by apply (in_memory_insert s sid (todo :: todos) (td_state T) (with_todos (<[sid:=todo :: todos]> (td_state T)) T)). }
  split; [|exact Hmem]. exists t'. split.
  - subst T2. rewrite (proj2 (publish_keeps _ _ _)). by destruct todos.
  - intros s. rewrite Hrows, Hmem. unfold delete_rows_for_session. rewrite session_rows_insert.
    case_decide as Es; [by rewrite Es|apply Hsync].
Qed.

Lemma call_synced c T :
  synced T → removes_last c T →
  synced (todo_call c T) ∧ ∀ s, in_memory s (todo_call c T) = list_after c s (in_memory s T).
Proof.
  intros HT Hlast. destruct c as [sid todos|sid|sid i st|sid todo|sid i|sid]; cbn [todo_call list_after].
  - by apply update_synced.
  - destruct HT as (t&Hdb&Hsync). unfold todo_clear, query. rewrite Hdb.
    assert (Hmem : ∀ s, in_memory s (with_todos (delete sid (td_state T)) T)
      = if decide (sid = s) then [] else in_memory s T) by (intros s; by apply in_memory_delete).
    split; [|exact Hmem]. by eapply (synced_change sid [] ∅).
  - destruct HT as (t&Hdb&Hsync). unfold todo_set_status. destruct (td_state T !! sid) as [todos|] eqn:E.
    2: { split; [by exists t|]. intros s. case_decide as Es; [|done]. subst s. cbn [snd]. unfold in_memory. by rewrite E. }
    assert (Hsid : in_memory sid T = todos) by (unfold in_memory; by rewrite E).
    destruct (todos !! i) as [todo|] eqn:Ei.
    2: { split; [by exists t|]. intros s. case_decide as Es; [|done]. subst s. cbn [snd]. rewrite Hsid.
         symmetry. apply with_status_outside. by apply lookup_ge_None. }
    cbn [snd]. set (todo' := {| td_content := _ |}).
    assert (Hwith : <[i := todo']> todos = with_status_at i st todos) by by apply with_status_inside.
    assert (Hmem : ∀ s, in_memory s (with_todos (<[sid := <[i := todo']> todos]> (td_state T)) T)
      = if decide (sid = s) then <[i := todo']> todos else in_memory s T) by (intros s; by apply in_memory_insert).
    unfold query. cbn [td_db with_todos]. rewrite Hdb. split.
    + eapply (synced_change sid (<[i := todo']> todos)); [exact Hdb|exact Hsync|done| |exact Hmem].
      rewrite Hsync, Hsid. apply rows_of_replace. by eapply lookup_lt_Some.
    + intros s. etrans; [exact (Hmem s)|]. case_decide as Es; [|done]. by rewrite <- Es, Hsid.
  - destruct HT as (t&Hdb&Hsync). unfold todo_add, query. cbn [td_db with_todos]. rewrite Hdb.
    fold (in_memory sid T).
    assert (Hmem : ∀ s, in_memory s (with_todos (<[sid := in_memory sid T ++ [todo]]> (td_state T)) T)
      = if decide (sid = s) then in_memory sid T ++ [todo] else in_memory s T) by (intros s; by apply in_memory_insert).
    split.
    + eapply (synced_change sid (in_memory sid T ++ [todo])); [exact Hdb|exact Hsync|done| |exact Hmem].
      rewrite Hsync. apply rows_of_add.
    + intros s. etrans; [exact (Hmem s)|]. case_decide as Es; [|done]. by rewrite Es.
  - destruct HT as (t&Hdb&Hsync). cbn [removes_last] in Hlast. unfold todo_remove.
    destruct (td_state T !! sid) as [todos|] eqn:E.
    2: { split; [by exists t|]. intros s. case_decide as Es; [|done]. subst s. cbn [snd]. unfold in_memory.
         rewrite E. by destruct i. }
    assert (Hsid : in_memory sid T = todos) by (unfold in_memory; by rewrite E). rewrite Hsid in Hlast.
    destruct (Nat.ltb_spec i (length todos)) as [Hi|Hi]; cbn [snd].
    2: { split; [by exists t|]. intros s. case_decide as Es; [|done]. subst s. rewrite Hsid.
         unfold remove_at. by rewrite take_ge, drop_ge, app_nil_r by lia. }
    destruct (snoc_or_nil todos) as [->|(before&todo&->)]; [simpl in Hi; lia|].
    rewrite length_app in *. simpl in Hi, Hlast. assert (i = length before) as -> by lia.
    assert (Hrest : remove_at (length before) (before ++ [todo]) = before).
    { unfold remove_at. rewrite take_app_length, drop_ge by (rewrite length_app; simpl; lia). by rewrite app_nil_r. }
    rewrite Hrest.
    assert (Hmem : ∀ s, in_memory s (with_todos (<[sid := before]> (td_state T)) T)
      = if decide (sid = s) then before else in_memory s T) by (intros s; by apply in_memory_insert).
    unfold query. cbn [td_db with_todos]. rewrite Hdb. split.
    + eapply (synced_change sid before); [exact Hdb|exact Hsync|done| |exact Hmem].
      rewrite Hsync, Hsid. apply rows_of_pop.
    + intros s. etrans; [exact (Hmem s)|]. case_decide as Es; [|done]. by rewrite <- Es, Hsid, Hrest.
  - destruct HT as (t&Hdb&Hsync). unfold todo_get, query. rewrite Hdb. split; [|done]. by exists t.
Qed.

Definition run_todos (cs : list TodoCall) (T : TodoManager) : TodoManager := fold_left (λ T c, todo_call c T) cs T.
(** No call removes an item with others after it. *)
Fixpoint removes_last_only (cs : list TodoCall) (T : TodoManager) : Prop :=
  match cs with
  | [] => True
  | c :: cs => removes_last c T ∧ removes_last_only cs (todo_call c T)
  end.

Lemma run_synced cs T :
  synced T → removes_last_only cs T →
  synced (run_todos cs T) ∧
  ∀ s, in_memory s (run_todos cs T) = fold_left (λ todos c, list_after c s todos) cs (in_memory s T).
Proof.
  revert T. induction cs as [|c cs IH]; intros T HT Hcs; [done|]. destruct Hcs as [Hc Hcs].
  destruct (call_synced c T HT Hc) as [HT' Hmem]. destruct (IH _ HT' Hcs) as [Hsync Hrun]. split; [exact Hsync|].
  intros s. change (run_todos (c :: cs) T) with (run_todos cs (todo_call c T)). rewrite Hrun, Hmem. done.
Qed.

(** What is read from the database is what was written. Whatever calls are made of a manager on an empty database in
    which no query fails, on lists of any sessions, as long as items are only removed at the end of a list: the list
    that is returned for a session is the one in memory, and both are what the calls mean for lists (replaced, emptied,
    the status at an index changed if there is an item, appended, removed), in order. *)
Lemma todo_lists_read_back cs sid :
  removes_last_only cs (with_database ∅) →
  let T := run_todos cs (with_database ∅) in
  fst (todo_get (λ _, false) sid T) = in_memory sid T ∧
  in_memory sid T = fold_left (λ todos c, list_after c sid todos) cs [].
Proof.
  intros Hcs. destruct (run_synced cs (with_database ∅)) as [(t&Hdb&Hsync) Hrun]; [|done|].
  { by exists ∅. }
  split; [|exact (Hrun sid)]. unfold todo_get. rewrite Hdb. cbn. by apply rows_read_back.
Qed.
End Sync.

#[local] Existing Instance plain_env.

Definition sample_todo (content : string) : TodoInfo :=
  {| td_content := content; td_status := "pending"; td_priority := "high" |}.
Definition sample_calls : list TodoCall :=
  [TodoUpdate "s" [sample_todo "a"; sample_todo "b"]; TodoAdd "s" (sample_todo "c"); TodoSetStatus "s" 1 "done";
   TodoRemove "s" 2; TodoAdd "t" (sample_todo "d")].

Lemma todo_lists_read_back_witness :
  removes_last_only sample_calls (with_database ∅) ∧
  fst (todo_get (λ _, false) "s" (run_todos sample_calls (with_database ∅))) =
    [sample_todo "a"; {| td_content := "b"; td_status := "done"; td_priority := "high" |}].
Proof.
  assert (Hfine : removes_last_only sample_calls (with_database ∅)).
  { split; [done|]. split; [done|]. split; [done|]. split; [|by split]. vm_compute. lia. }
  split; [exact Hfine|]. destruct (todo_lists_read_back sample_calls "s" Hfine) as [-> ->]. by vm_compute.
Defined.

(** Removing an item that is not the last leaves its row's successors at their places: the next item that is added
    takes the row of the last one, which the database loses. *)
Example removing_shifts_rows :
  let T := run_todos [TodoUpdate "s" [sample_todo "a"; sample_todo "b"; sample_todo "c"]; TodoRemove "s" 0;
                      TodoAdd "s" (sample_todo "d")] (with_database ∅) in
  td_content <$> fst (todo_get (λ _, false) "s" T) = ["b"; "d"] ∧
  td_content <$> in_memory "s" T = ["b"; "c"; "d"].
Proof. split; vm_compute; reflexivity. Qed.

(** After a restart the lists in memory are empty: an item that is added takes the place of the first row, and the status
    of a stored item cannot be set. *)
Example restart_overwrites_rows :
  let t := default ∅ (td_db (run_todos [TodoUpdate "s" [sample_todo "a"; sample_todo "b"]] (with_database ∅))) in
  td_content <$> fst (todo_get (λ _, false) "s" (todo_call (TodoAdd "s" (sample_todo "c")) (with_database t))) = ["c"; "b"] ∧
  fst (todo_set_status (λ _, false) "s" 1 "done" (with_database t)) = false.
Proof. split; vm_compute; reflexivity. Qed.
