(* ===== verification/ProviderStream.v ===== *)
(** * The stream a model answers with

    [agendao-provider/src/stream.rs] and the part of
    [agendao-orchestrator/src/agent_loop/provider.rs] that reads it: server-sent events are cut
    out of the bytes of a response, each is parsed as an event of the vendor, the fragments of
    tool calls are put together, and the loop of an agent collects the turn.

    A stream is the list of what it yields until it ends; the adapters of the source are state
    machines that are asked for the next item, here the functions [_next], and [yields] says
    which list such a machine yields.  What serde makes of a text or of a JSON value is the
    parameter [StreamLibraries]. *)

From Stdlib Require Import ZArith.
From S2P Require Import Prelude TextLines FileSystem Json BlueprintGraph Blueprint SchedulerLoop.
From stdpp Require Import options.

(** ** Events *)

Inductive ToolErrorKind := PermissionDenied | QuestionRejected | ExecutionError.

Record ToolResultOutput := {
  tro_output : string;
  tro_title : string;
  tro_metadata : gmap string Value;
  tro_attachments : option (list Value);
}.

Record StreamUsage := {
  su_prompt_tokens : Z;
  su_completion_tokens : Z;
  su_context_tokens : Z;
  su_reasoning_tokens : Z;
  su_cache_read_tokens : Z;
  su_cache_miss_tokens : Z;
  su_cache_write_tokens : Z;
}.

(** [StreamUsage::default()] *)
Definition stream_usage_default : StreamUsage := {|
  su_prompt_tokens := 0; su_completion_tokens := 0; su_context_tokens := 0;
  su_reasoning_tokens := 0; su_cache_read_tokens := 0; su_cache_miss_tokens := 0;
  su_cache_write_tokens := 0 |}.

Module Ev.
Inductive StreamEvent :=
| Start
| TextDelta (text : string)
| TextStart
| TextEnd
| ReasoningStart (id : string)
| ReasoningDelta (id text : string)
| ReasoningEnd (id : string)
| ToolInputStart (id tool_name : string)
| ToolInputDelta (id delta : string)
| ToolInputEnd (id : string)
| ToolCallStart (id name : string)
| ToolCallDelta (id input : string)
| ToolCallEnd (id name : string) (input : Value)
| ToolResult (tool_call_id tool_name : string) (input : option Value) (output : ToolResultOutput)
| ToolError (tool_call_id tool_name : string) (input : option Value) (error : string)
    (kind : option ToolErrorKind)
| StartStep
| FinishStep (finish_reason : option string) (usage : StreamUsage)
    (provider_metadata : option Value)
| Usage (prompt_tokens completion_tokens context_tokens cache_read_tokens cache_miss_tokens
    cache_write_tokens : Z)
| Finish
| Done
| Error (message : string).
End Ev.
Abbreviation StreamEvent := Ev.StreamEvent.

Module Perr.
Inductive ProviderError :=
| ApiErrorWithStatus (message : string) (status_code : Z)
| ApiError (message : string)
| NetworkError (message : string)
| AuthError (message : string)
| RateLimit
| ModelNotFound (message : string)
| InvalidRequest (message : string)
| StreamError (message : string)
| Timeout
| ProviderNotFound (message : string)
| ConfigError (message : string)
| ContextOverflow (message : string).
End Perr.
Abbreviation ProviderError := Perr.ProviderError.

(** An item of a [StreamResult]. *)
Abbreviation item := (result ProviderError StreamEvent).

(** ** Streams *)

(** What a stream yields that is unfolded from [s] by [next]. *)
Inductive yields {S A} (next : S → option (A * S)) : S → list A → Prop :=
| yields_end s : next s = None → yields next s []
| yields_item s a s' l : next s = Some (a, s') → yields next s' l → yields next s (a :: l).

(** The items of a stream before its end, and the values among them. *)
Definition oks {E A} (l : list (result E A)) : list A :=
  omap (λ r, match r with Ok a => Some a | Err _ => None end) l.
Definition errs {E A} (l : list (result E A)) : list E :=
  omap (λ r, match r with Ok _ => None | Err e => Some e end) l.

(** [with_stall_watchdog]: [inner] is what the timer and the stream below it race to; [None] says
    that the timer was first. *)
Definition watchdog_next (stall_timeout_secs : N) (s : list (option item) * bool)
    : option (item * (list (option item) * bool)) :=
  let '(inner, terminated) := s in
  if terminated then None
  else match inner with
       | [] => None
       | Some i :: inner => Some (i, (inner, false))
       | None :: inner =>
           Some (Err (Perr.StreamError ("stream stall timeout: no chunk/event received within " +:+
                                        dec_string stall_timeout_secs +:+ "s")), (inner, true))
       end.

(** The whole of what it yields. *)
Fixpoint with_stall_watchdog (stall_timeout_secs : N) (inner : list (option item)) : list item :=
  match inner with
  | [] => []
  | Some i :: inner => i :: with_stall_watchdog stall_timeout_secs inner
  | None :: _ => [Err (Perr.StreamError ("stream stall timeout: no chunk/event received within " +:+
                                         dec_string stall_timeout_secs +:+ "s"))]
  end.

(** ** JSON, as serde reads it *)

Record OpenAIFunction := { fn_name : option string; fn_arguments : option string }.
Record OpenAIToolCall := {
  otc_index : N;
  otc_id : option string;
  otc_function : option OpenAIFunction;
}.
Record OpenAIDelta := {
  od_content : option string;
  od_tool_calls : option (list OpenAIToolCall);
  od_reasoning_text : option string;
  od_reasoning_content : option string;
}.
Record OpenAIChoice := { oc_delta : option OpenAIDelta; oc_finish_reason : option string }.
Record OpenAIUsage := {
  ou_prompt_tokens : Z;
  ou_completion_tokens : Z;
  ou_cache_read_input_tokens : Z;
  ou_cache_creation_input_tokens : Z;
  ou_prompt_cache_hit_tokens : Z;
  ou_prompt_cache_miss_tokens : Z;
  ou_reasoning_tokens : Z;
  (** [completion_tokens_details] has the one field [reasoning_tokens] *)
  ou_completion_tokens_details : option Z;
}.
Record OpenAISSEvent := { oe_choices : list OpenAIChoice; oe_usage : option OpenAIUsage }.

Record AnthropicUsage := { au_input_tokens : Z; au_output_tokens : Z }.
Record AnthropicMessage := { am_usage : option AnthropicUsage }.
Record AnthropicContentBlock := {
  acb_block_type : string;
  acb_id : option string;
  acb_name : option string;
  acb_input : option Value;
}.
Record AnthropicDelta := {
  ad_delta_type : option string;
  ad_text : option string;
  ad_partial_json : option string;
  ad_stop_reason : option string;
  ad_thinking : option string;
}.
Record AnthropicEvent := {
  ae_event_type : string;
  ae_index : option N;
  ae_delta : option AnthropicDelta;
  ae_content_block : option AnthropicContentBlock;
  ae_message : option AnthropicMessage;
}.

(** [serde_json::from_str] and the two decoders serde derives; [None] is an error. *)
Class StreamLibraries := {
  from_str : string → option Value;
  openai_event : Value → option OpenAISSEvent;
  anthropic_event : Value → option AnthropicEvent;
}.

(** [String::from_utf8_lossy]: a maximal part of a character that is not well formed is the
    replacement character. *)
Definition replacement_character : string := str_of_bytes [239; 191; 189]%N.

Fixpoint from_utf8_lossy (s : string) : string :=
  let cont := byte_in 128 191 in
  match s with
  | EmptyString => ""
  | String a s1 =>
      if byte_in 0 127 a then String a (from_utf8_lossy s1)
      else if byte_in 194 223 a then
        match s1 with
        | String b s2 =>
            if cont b then String a (String b (from_utf8_lossy s2))
            else replacement_character +:+ from_utf8_lossy s1
        | EmptyString => replacement_character
        end
      else if byte_in 224 239 a then
        match s1 with
        | String b s2 =>
            if (if byte_in 224 224 a then byte_in 160 191 b
                else if byte_in 237 237 a then byte_in 128 159 b else cont b)
            then match s2 with
                 | String c s3 =>
                     if cont c then String a (String b (String c (from_utf8_lossy s3)))
                     else replacement_character +:+ from_utf8_lossy s2
                 | EmptyString => replacement_character
                 end
            else replacement_character +:+ from_utf8_lossy s1
        | EmptyString => replacement_character
        end
      else if byte_in 240 244 a then
        match s1 with
        | String b s2 =>
            if (if byte_in 240 240 a then byte_in 144 191 b
                else if byte_in 244 244 a then byte_in 128 143 b else cont b)
            then match s2 with
                 | String c s3 =>
                     if cont c
                     then match s3 with
                          | String d s4 =>
                              if cont d then String a (String b (String c (String d (from_utf8_lossy s4))))
                              else replacement_character +:+ from_utf8_lossy s3
                          | EmptyString => replacement_character
                          end
                     else replacement_character +:+ from_utf8_lossy s2
                 | EmptyString => replacement_character
                 end
            else replacement_character +:+ from_utf8_lossy s1
        | EmptyString => replacement_character
        end
      else replacement_character +:+ from_utf8_lossy s1
  end.

Section stream.
Context `{!StreamLibraries}.

(** [is_parsable_json] *)
Definition is_parsable_json (s : string) : bool := bool_decide (is_Some (from_str s)).

(** ** Server-sent events: [decode_sse_stream] *)

Definition delimiter : string := nl +:+ nl.
Definition data_prefix : string := "data: ".

(** [is_done] *)
Definition is_done (s : string) : bool :=
  let t := trim s in
  bool_decide (t = "[DONE]") || bool_decide (t = "data: [DONE]") || bool_decide (t = "data:[DONE]").

(** The payload of the last data line of a frame. *)
Definition scan_line (data_payload : option string) (line : string) : option string :=
  let line := trim line in
  if bool_decide (line = "") || starts_with ":" line then data_payload
  else match strip_prefix data_prefix line with
       | Some payload => Some payload
       | None => match strip_prefix "data:" line with
                 | Some payload => Some (trim_start payload)
                 | None => data_payload
                 end
       end.

(** [parse_payload] *)
Definition parse_payload (raw : string) : option Value :=
  payload ← fold_left scan_line (lines raw) None;
  if bool_decide (payload = "") || is_done payload then None else from_str payload.

(** The frames that are complete in the buffer, up to the first that has a value. *)
Inductive frame_outcome :=
| StreamDone
| FrameValue (v : Value) (buf : string)
| NeedMore (buf : string).

Fixpoint take_frames (fuel : nat) (buf : string) : frame_outcome :=
  match fuel, find_sub delimiter buf with
  | S fuel, Some idx =>
      let frame := str_take idx buf in
      let buf := str_drop (idx + String.length delimiter) buf in
      if is_done frame then StreamDone
      else match parse_payload frame with
           | Some v => FrameValue v buf
           | None => take_frames fuel buf
           end
  | _, _ => NeedMore buf
  end.

(** One item of the decoded stream; the state is the rest of the input, an error of which is its
    text, and the buffer. *)
Fixpoint decode_sse_from (input : list (result string string)) (buf : string)
    : option (result ProviderError Value * (list (result string string) * string)) :=
  match take_frames (S (String.length buf)) buf with
  | StreamDone => None
  | FrameValue v buf => Some (Ok v, (input, buf))
  | NeedMore buf =>
      match input with
      | Ok bytes :: input => decode_sse_from input (buf +:+ from_utf8_lossy bytes)
      | Err e :: input => Some (Err (Perr.StreamError e), (input, buf))
      | [] =>
          if is_done buf then None
          else match parse_payload buf with
               | Some v => Some (Ok v, ([], ""))
               | None => None
               end
      end
  end.

Definition decode_sse_next (s : list (result string string) * string)
    : option (result ProviderError Value * (list (result string string) * string)) :=
  decode_sse_from (fst s) (snd s).

(** ** Fragments of tool calls *)

Record JsonDepthTracker := { jt_depth : Z; jt_in_string : bool; jt_escape_next : bool }.

(** [JsonDepthTracker::new] *)
Definition tracker_new : JsonDepthTracker :=
  {| jt_depth := 0; jt_in_string := false; jt_escape_next := false |}.

(** The depth is an [i32]. *)
Definition i32_wrap (z : Z) : Z := ((z + 2 ^ 31) mod 2 ^ 32 - 2 ^ 31)%Z.

Definition quote : string := String (Ascii.ascii_of_nat 34) "".
Definition backslash : string := String (Ascii.ascii_of_nat 92) "".

(** [track_char] *)
Definition track_char (t : JsonDepthTracker) (ch : string) : JsonDepthTracker :=
  let '{| jt_depth := depth; jt_in_string := in_string; jt_escape_next := escape_next |} := t in
  if in_string then
    if escape_next then {| jt_depth := depth; jt_in_string := true; jt_escape_next := false |}
    else if bool_decide (ch = backslash) then
      {| jt_depth := depth; jt_in_string := true; jt_escape_next := true |}
    else if bool_decide (ch = quote) then
      {| jt_depth := depth; jt_in_string := false; jt_escape_next := escape_next |}
    else t
  else if bool_decide (ch = quote) then
    {| jt_depth := depth; jt_in_string := true; jt_escape_next := escape_next |}
  else if bool_decide (ch = "{") then
    {| jt_depth := i32_wrap (depth + 1); jt_in_string := in_string; jt_escape_next := escape_next |}
  else if bool_decide (ch = "}") then
    {| jt_depth := i32_wrap (depth - 1); jt_in_string := in_string; jt_escape_next := escape_next |}
  else t.

(** [track] *)
Definition track (t : JsonDepthTracker) (delta : string) : JsonDepthTracker :=
  fold_left track_char (chars delta) t.

(** [appears_complete] *)
Definition appears_complete (t : JsonDepthTracker) : bool :=
  (jt_depth t <=? 0)%Z && negb (jt_in_string t).

Record ToolCallAssembler := {
  asm_id : string;
  asm_name : string;
  asm_arguments : string;
  asm_finished : bool;
  asm_tracker : JsonDepthTracker;
}.

(** [ToolCallAssembler::new] *)
Definition assembler_new (id name : string) : ToolCallAssembler := {|
  asm_id := id; asm_name := name; asm_arguments := ""; asm_finished := false;
  asm_tracker := tracker_new |}.

(** [append] *)
Definition append (delta : string) (a : ToolCallAssembler) : ToolCallAssembler :=
  if asm_finished a then a
  else {| asm_id := asm_id a; asm_name := asm_name a;
          asm_arguments := asm_arguments a +:+ delta; asm_finished := asm_finished a;
          asm_tracker := track (asm_tracker a) delta |}.

(** [try_emit] *)
Definition try_emit (a : ToolCallAssembler) : option StreamEvent * ToolCallAssembler :=
  if asm_finished a || bool_decide (asm_arguments a = "") then (None, a)
  else if negb (appears_complete (asm_tracker a)) then (None, a)
  else match from_str (asm_arguments a) with
       | None => (None, a)
       | Some input =>
           (Some (Ev.ToolCallEnd (asm_id a) (asm_name a) input),
            {| asm_id := asm_id a; asm_name := asm_name a; asm_arguments := asm_arguments a;
               asm_finished := true; asm_tracker := asm_tracker a |})
       end.

(** The end a flush gives a call; arguments that are not JSON are kept as text. *)
Definition flush_one (asm : ToolCallAssembler) : list item :=
  if asm_finished asm || bool_decide (asm_arguments asm = "") then []
  else
    let trimmed := trim (asm_arguments asm) in
    let input := if bool_decide (trimmed = "") then Object ∅
                 else default (JString (asm_arguments asm)) (from_str trimmed) in
    [Ok (Ev.ToolCallEnd (asm_id asm) (asm_name asm) input)].

(** The order in which calls are flushed. *)
Definition by_id (a b : ToolCallAssembler) : Prop := str_leb (asm_id a) (asm_id b).

(** [flush_tool_call_assemblers]: what is pushed; the map is drained. *)
Definition flush_tool_call_assemblers (assemblers : gmap string ToolCallAssembler) : list item :=
  merge_sort by_id (map_to_list assemblers).*2 ≫= flush_one.

(** What [assemble_tool_calls] pushes for an item, and the assemblers it leaves. *)
Definition assemble_item (assemblers : gmap string ToolCallAssembler) (i : item)
    : list item * gmap string ToolCallAssembler :=
  match i with
  | Ok (Ev.ToolCallStart id name) =>
      ([Ok (Ev.ToolCallStart id name)], <[id := assembler_new id name]> assemblers)
  | Ok (Ev.ToolCallDelta id input) =>
      match assemblers !! id with
      | Some assembler =>
          let '(end_event, assembler) := try_emit (append input assembler) in
          (Ok (Ev.ToolCallDelta id input) :: (Ok <$> option_list end_event),
           <[id := assembler]> assemblers)
      | None => ([Ok (Ev.ToolCallDelta id input)], assemblers)
      end
  | Ok (Ev.ToolCallEnd id name input) =>
      let should_forward := match assemblers !! id with
                            | Some assembler => negb (asm_finished assembler)
                            | None => true
                            end in
      (if should_forward then [Ok (Ev.ToolCallEnd id name input)] else [], delete id assemblers)
  | Ok Ev.Done => (flush_tool_call_assemblers assemblers ++ [Ok Ev.Done], ∅)
  | i => ([i], assemblers)
  end.

Record Assembly := {
  ay_inner : list item;
  ay_assemblers : gmap string ToolCallAssembler;
  ay_pending : list item;
  ay_eof : bool;
}.

(** The loop: what is pending goes out before the next item of the inner stream is read. *)
Fixpoint assemble_from (inner : list item) (assemblers : gmap string ToolCallAssembler)
    (pending : list item) (eof : bool) : option (item * Assembly) :=
  match pending with
  | i :: pending => Some (i, {| ay_inner := inner; ay_assemblers := assemblers;
                                ay_pending := pending; ay_eof := eof |})
  | [] =>
      if eof then None
      else match inner with
           | i :: inner =>
               let '(pushed, assemblers) := assemble_item assemblers i in
               assemble_from inner assemblers pushed false
           | [] =>
               match flush_tool_call_assemblers assemblers with
               | i :: pending => Some (i, {| ay_inner := []; ay_assemblers := ∅;
                                             ay_pending := pending; ay_eof := true |})
               | [] => None
               end
           end
  end.

Definition assemble_next (s : Assembly) : option (item * Assembly) :=
  assemble_from (ay_inner s) (ay_assemblers s) (ay_pending s) (ay_eof s).

Definition assembly_new (inner : list item) : Assembly :=
  {| ay_inner := inner; ay_assemblers := ∅; ay_pending := []; ay_eof := false |}.

(** The whole of what the assembled stream yields ([ToolCallProps.assembled_stream]). *)
Fixpoint assemble_items (assemblers : gmap string ToolCallAssembler) (inner : list item) : list item :=
  match inner with
  | [] => flush_tool_call_assemblers assemblers
  | i :: inner =>
      let '(pushed, assemblers) := assemble_item assemblers i in
      pushed ++ assemble_items assemblers inner
  end.

Definition assemble_tool_calls (inner : list item) : list item := assemble_items ∅ inner.

(** ** Vendors' events *)

(** [OpenAIUsage::stream_usage] *)
Definition stream_usage (u : OpenAIUsage) : StreamUsage :=
  let cache_read_tokens := Z.max (ou_cache_read_input_tokens u) (ou_prompt_cache_hit_tokens u) in
  let cache_write_tokens := ou_cache_creation_input_tokens u in {|
    su_prompt_tokens := ou_prompt_tokens u;
    su_completion_tokens := ou_completion_tokens u;
    su_context_tokens :=
      Z.max (Z.max (ou_prompt_tokens u)
                   (u64_saturating_add cache_read_tokens (ou_prompt_cache_miss_tokens u)))
            (u64_saturating_add cache_read_tokens cache_write_tokens);
    su_reasoning_tokens :=
      Z.max (ou_reasoning_tokens u) (default 0%Z (ou_completion_tokens_details u));
    su_cache_read_tokens := cache_read_tokens;
    su_cache_miss_tokens := ou_prompt_cache_miss_tokens u;
    su_cache_write_tokens := cache_write_tokens |}.

Definition openai_tool_call_id (tc : OpenAIToolCall) : string :=
  "tool-call-" +:+ dec_string (otc_index tc).

Definition messages_tool_call_id (index : option N) (explicit_id : option string) : string :=
  match index with
  | Some index => "tool-call-" +:+ dec_string index
  | None => default "" explicit_id
  end.

(** [o.is_some_and(|s| !s.is_empty())] *)
Definition non_empty_text (o : option string) : bool :=
  match o with Some s => bool_decide (s ≠ "") | None => false end.

(** The events of one entry of [delta.tool_calls]. *)
Definition openai_tool_call_events (tc : OpenAIToolCall) : list StreamEvent :=
  match otc_function tc with
  | Some func =>
      (if non_empty_text (fn_name func)
       then [Ev.ToolCallStart (openai_tool_call_id tc) (default "" (fn_name func))] else []) ++
      (if non_empty_text (fn_arguments func)
       then [Ev.ToolCallDelta (openai_tool_call_id tc) (default "" (fn_arguments func))] else [])
  | None => []
  end.

Definition openai_delta_events (delta : OpenAIDelta) : list StreamEvent :=
  let reasoning := match od_reasoning_content delta with
                   | Some text => Some text
                   | None => od_reasoning_text delta
                   end in
  (if non_empty_text reasoning then [Ev.ReasoningDelta "reasoning-0" (default "" reasoning)] else []) ++
  (if non_empty_text (od_content delta) then [Ev.TextDelta (default "" (od_content delta))] else []) ++
  match od_tool_calls delta with
  | Some tool_calls => tool_calls ≫= openai_tool_call_events
  | None => []
  end.

Definition openai_choice_events (usage : option StreamUsage) (choice : OpenAIChoice) : list StreamEvent :=
  match oc_delta choice with Some delta => openai_delta_events delta | None => [] end ++
  match oc_finish_reason choice with
  | Some reason =>
      if bool_decide (reason = "stop") then
        [Ev.FinishStep (Some "stop") (default stream_usage_default usage) None; Ev.Done]
      else if bool_decide (reason = "tool_calls") then
        [Ev.FinishStep (Some "tool-calls") (default stream_usage_default usage) None; Ev.Done]
      else []
  | None => []
  end.

(** [parse_openai_value] *)
Definition parse_openai_value (value : Value) : list StreamEvent :=
  match openai_event value with
  | None => []
  | Some event =>
      let usage := stream_usage <$> oe_usage event in
      (oe_choices event ≫= openai_choice_events usage) ++
      match usage with
      | Some usage =>
          [Ev.Usage (su_prompt_tokens usage) (su_completion_tokens usage)
             (Z.max (su_context_tokens usage) (su_prompt_tokens usage))
             (su_cache_read_tokens usage) (su_cache_miss_tokens usage) (su_cache_write_tokens usage)]
      | None => []
      end
  end.

(** [content_block_delta] *)
Definition anthropic_block_delta (event : AnthropicEvent) : option StreamEvent :=
  delta ← ae_delta event;
  match ad_thinking delta, ad_text delta, ad_partial_json delta with
  | Some thinking, _, _ =>
      Some (Ev.ReasoningDelta ("thinking-" +:+ dec_string (default 0%N (ae_index event))) thinking)
  | None, Some text, _ => Some (Ev.TextDelta text)
  | None, None, Some json => Some (Ev.ToolCallDelta (messages_tool_call_id (ae_index event) None) json)
  | None, None, None => None
  end.

(** [content_block_start] *)
Definition anthropic_block_start (event : AnthropicEvent) (block_types : gmap N string)
    : option StreamEvent * gmap N string :=
  match ae_content_block event with
  | Some block =>
      let idx := default 0%N (ae_index event) in
      (if bool_decide (acb_block_type block = "thinking") then
         Some (Ev.ReasoningStart ("thinking-" +:+ dec_string idx))
       else if bool_decide (acb_block_type block = "tool_use") then
         Some (Ev.ToolCallStart (messages_tool_call_id (ae_index event) (acb_id block))
                 (default "" (acb_name block)))
       else None,
       <[idx := acb_block_type block]> block_types)
  | None => (None, block_types)
  end.

(** [content_block_stop] *)
Definition anthropic_block_stop (event : AnthropicEvent) (block_types : gmap N string)
    : option StreamEvent * gmap N string :=
  let idx := default 0%N (ae_index event) in
  (if bool_decide (block_types !! idx = Some "thinking")
   then Some (Ev.ReasoningEnd ("thinking-" +:+ dec_string idx)) else Some Ev.TextEnd,
   delete idx block_types).

(** [parse_anthropic_value_stateful] *)
Definition parse_anthropic_value_stateful (value : Value) (block_types : gmap N string)
    : option StreamEvent * gmap N string :=
  match anthropic_event value with
  | None => (None, block_types)
  | Some event =>
      let type := ae_event_type event in
      if bool_decide (type = "content_block_delta") then (anthropic_block_delta event, block_types)
      else if bool_decide (type = "content_block_start") then anthropic_block_start event block_types
      else if bool_decide (type = "content_block_stop") then anthropic_block_stop event block_types
      else if bool_decide (type = "message_stop") then (Some Ev.Done, block_types)
      else if bool_decide (type = "message_delta") then
        (delta ← ae_delta event; _ ← ad_stop_reason delta; Some Ev.Done, block_types)
      else if bool_decide (type = "message_start") then
        (msg ← ae_message event; usage ← am_usage msg;
         Some (Ev.Usage (au_input_tokens usage) (au_output_tokens usage) (au_input_tokens usage) 0 0 0),
         block_types)
      else (None, block_types)
  end.

(** [parse_anthropic_value] *)
Definition parse_anthropic_value (value : Value) : option StreamEvent :=
  fst (parse_anthropic_value_stateful value ∅).

(** The streams of [protocols/openai.rs] and [protocols/anthropic.rs], from the decoded values. *)
Definition openai_events (values : list (result ProviderError Value)) : list item :=
  values ≫= λ r, match r with Ok value => Ok <$> parse_openai_value value | Err e => [Err e] end.

Fixpoint anthropic_events (values : list (result ProviderError Value)) (block_types : gmap N string)
    : list item :=
  match values with
  | [] => []
  | Ok value :: values =>
      let '(event, block_types) := parse_anthropic_value_stateful value block_types in
      (Ok <$> option_list event) ++ anthropic_events values block_types
  | Err e :: values => Err e :: anthropic_events values block_types
  end.
End stream.

(** ** Collecting the turn of an agent *)

Section collect.
Context `{!StreamLibraries}.
Context {W ProviderErrorSummary : Type}.

(** The methods of [AgentLoopObserver] a stream calls. *)
Record StreamObserver := {
  so_text_delta : AgentObservationContext → string → W → result string unit * W;
  so_reasoning_delta : AgentObservationContext → string → string → W → result string unit * W;
  so_tool_input_delta :
    AgentObservationContext → string → option string → string → W → result string unit * W;
}.

Context (observer : StreamObserver) (context : AgentObservationContext).
(** [summarize_provider_error] for the provider and the model of the request. *)
Context (summarize_provider_error : ProviderError → ProviderErrorSummary).

(** The variables of [collect_stream]. *)
Record Collected := {
  co_text : string;
  co_reasoning : string;
  co_tool_calls : list (ToolCall Value);
  co_usage : Usage;
  co_finish_reason : option string;
  co_response_id : option string;
}.

Definition collected_new : Collected := {|
  co_text := ""; co_reasoning := ""; co_tool_calls := []; co_usage := usage_default;
  co_finish_reason := None; co_response_id := None |}.

Definition co_with_text (text : string) (c : Collected) : Collected := {|
  co_text := text; co_reasoning := co_reasoning c; co_tool_calls := co_tool_calls c;
  co_usage := co_usage c; co_finish_reason := co_finish_reason c;
  co_response_id := co_response_id c |}.
Definition co_with_reasoning (reasoning : string) (c : Collected) : Collected := {|
  co_text := co_text c; co_reasoning := reasoning; co_tool_calls := co_tool_calls c;
  co_usage := co_usage c; co_finish_reason := co_finish_reason c;
  co_response_id := co_response_id c |}.
Definition co_with_tool_calls (tool_calls : list (ToolCall Value)) (c : Collected) : Collected := {|
  co_text := co_text c; co_reasoning := co_reasoning c; co_tool_calls := tool_calls;
  co_usage := co_usage c; co_finish_reason := co_finish_reason c;
  co_response_id := co_response_id c |}.
Definition co_with_usage (usage : Usage) (c : Collected) : Collected := {|
  co_text := co_text c; co_reasoning := co_reasoning c; co_tool_calls := co_tool_calls c;
  co_usage := usage; co_finish_reason := co_finish_reason c;
  co_response_id := co_response_id c |}.

(** The counters of a usage raised to those of a report; [reasoning] is [None] where the report
    has no such counter. *)
Definition raise_usage (prompt completion : Z) (reasoning : option Z) (read miss write : Z)
    (u : Usage) : Usage := {|
  model_calls := model_calls u;
  tool_calls := tool_calls u;
  input_tokens := Z.max (input_tokens u) prompt;
  output_tokens := Z.max (output_tokens u) completion;
  reasoning_tokens := match reasoning with
                      | Some r => Z.max (reasoning_tokens u) r
                      | None => reasoning_tokens u
                      end;
  cache_read_tokens := Z.max (cache_read_tokens u) read;
  cache_miss_tokens := Z.max (cache_miss_tokens u) miss;
  cache_write_tokens := Z.max (cache_write_tokens u) write |}.

(** [value.get(response_id)] as a text *)
Definition metadata_response_id (metadata : option Value) : option string :=
  value ← metadata; id ← get_member "response_id" value; as_str id.

Definition or_else {A} (o p : option A) : option A :=
  match o with Some a => Some a | None => p end.

(** An observer's answer, and the rest of the loop. *)
Definition after_observer {B} (r : result string unit * W) (k : W → result (ModelBackendError ProviderErrorSummary) B * W)
    : result (ModelBackendError ProviderErrorSummary) B * W :=
  match r with
  | (Ok _, w) => k w
  | (Err e, w) => (Err (Message e), w)
  end.

(** One turn of the loop over the stream. *)
Definition collect_event (c : Collected) (i : item) (w : W)
    : result (ModelBackendError ProviderErrorSummary) Collected * W :=
  match i with
  | Err error => (Err (Provider (summarize_provider_error error)), w)
  | Ok (Ev.TextDelta delta) =>
      after_observer (so_text_delta observer context delta w) (λ w,
        (Ok (co_with_text (co_text c +:+ delta) c), w))
  | Ok (Ev.ReasoningDelta id text) =>
      after_observer (so_reasoning_delta observer context id text w) (λ w,
        (Ok (co_with_reasoning (co_reasoning c +:+ text) c), w))
  | Ok (Ev.ToolInputDelta id delta) =>
      after_observer (so_tool_input_delta observer context (scheduler_tool_call_id context id) None delta w)
        (λ w, (Ok c, w))
  | Ok (Ev.ToolCallDelta id input) =>
      after_observer (so_tool_input_delta observer context (scheduler_tool_call_id context id) None input w)
        (λ w, (Ok c, w))
  | Ok (Ev.ToolCallEnd id name input) =>
      (Ok (co_with_tool_calls (co_tool_calls c ++
             [{| tc_id := scheduler_tool_call_id context id; tc_tool := name; tc_arguments := input |}]) c), w)
  | Ok (Ev.Usage prompt completion _ read miss write) =>
      (Ok (co_with_usage (raise_usage prompt completion None read miss write (co_usage c)) c), w)
  | Ok (Ev.FinishStep step_finish_reason u provider_metadata) =>
      (Ok {| co_text := co_text c; co_reasoning := co_reasoning c; co_tool_calls := co_tool_calls c;
             co_usage := raise_usage (su_prompt_tokens u) (su_completion_tokens u)
                           (Some (su_reasoning_tokens u)) (su_cache_read_tokens u)
                           (su_cache_miss_tokens u) (su_cache_write_tokens u) (co_usage c);
             co_finish_reason := or_else step_finish_reason (co_finish_reason c);
             co_response_id := or_else (metadata_response_id provider_metadata) (co_response_id c) |}, w)
  | Ok (Ev.Error error) => (Err (Message error), w)
  | Ok _ => (Ok c, w)
  end.

Fixpoint collect_items (c : Collected) (items : list item) (w : W)
    : result (ModelBackendError ProviderErrorSummary) Collected * W :=
  match items with
  | [] => (Ok c, w)
  | i :: items => match collect_event c i w with
                  | (Ok c, w) => collect_items c items w
                  | (Err e, w) => (Err e, w)
                  end
  end.

(** [(!s.is_empty()).then_some(s)] *)
Definition then_some (s : string) : option string := if bool_decide (s = "") then None else Some s.

Definition turn_of (c : Collected) : AssistantTurn Value := {|
  at_content := then_some (co_text c);
  at_reasoning := then_some (co_reasoning c);
  at_tool_calls := co_tool_calls c;
  at_usage := co_usage c;
  at_finish_reason := co_finish_reason c;
  at_reasoning_continuation := co_response_id c |}.

(** [collect_stream] *)
Definition collect_stream (stream : list item) (w : W)
    : result (ModelBackendError ProviderErrorSummary) (AssistantTurn Value) * W :=
  match collect_items collected_new (assemble_tool_calls stream) w with
  | (Ok c, w) => (Ok (turn_of c), w)
  | (Err e, w) => (Err e, w)
  end.
End collect.
Arguments StreamObserver : clear implicits.
