(* ===== verification/JsonText.v ===== *)
(** * JSON texts

    The grammar of RFC 8259 as a predicate on texts, and what braces and strings say about
    where an object ends: inside an object the depth of open braces is positive. *)

From Stdlib Require Import ZArith Lia.
From S2P Require Import Prelude TextLines Json ProviderStream.
From stdpp Require Import options.

(** ** The grammar *)

Definition blank_char (c : Ascii.ascii) : Prop :=
  c ∈ [Ascii.ascii_of_nat 32; Ascii.ascii_of_nat 9; newline; carriage_return].

Inductive json_blank : string → Prop :=
| blank_nil : json_blank ""
| blank_cons c s : blank_char c → json_blank s → json_blank (String c s).

Definition digit (c : Ascii.ascii) : bool := FileSystem.byte_in 48 57 c.
Definition hex_digit (c : Ascii.ascii) : bool :=
  digit c || FileSystem.byte_in 97 102 c || FileSystem.byte_in 65 70 c.

(** At least one digit. *)
Inductive json_digits : string → Prop :=
| digits_one c : digit c = true → json_digits (String c "")
| digits_more c s : digit c = true → json_digits s → json_digits (String c s).

(** [-? int frac? exp?] *)
Inductive json_number : string → Prop :=
| number_parts sign int frac exp :
    sign ∈ [""; "-"] →
    json_digits int → (starts_with "0" int = true → int = "0") →
    frac = "" ∨ (∃ ds, json_digits ds ∧ frac = "." +:+ ds) →
    exp = "" ∨ (∃ e s ds, e ∈ ["e"; "E"] ∧ s ∈ [""; "+"; "-"] ∧ json_digits ds ∧ exp = e +:+ s +:+ ds) →
    json_number (sign +:+ int +:+ frac +:+ exp).

Definition quote_char : Ascii.ascii := Ascii.ascii_of_nat 34.
Definition brace : Ascii.ascii := Ascii.ascii_of_nat 123.
Definition backslash_char : Ascii.ascii := Ascii.ascii_of_nat 92.

(** What is between the quotes of a string. *)
Inductive json_chars : string → Prop :=
| chars_nil : json_chars ""
| chars_plain c s :
    c ≠ quote_char → c ≠ backslash_char → 32 ≤ Ascii.nat_of_ascii c →
    json_chars s → json_chars (String c s)
| chars_escape c s :
    String c "" ∈ [quote; backslash; "/"; "b"; "f"; "n"; "r"; "t"] →
    json_chars s → json_chars (String backslash_char (String c s))
| chars_unicode a b c d s :
    hex_digit a = true → hex_digit b = true → hex_digit c = true → hex_digit d = true →
    json_chars s →
    json_chars (backslash +:+ "u" +:+ String a (String b (String c (String d s)))).

Inductive json_string : string → Prop :=
| string_quoted s : json_chars s → json_string (quote +:+ s +:+ quote).

Inductive json_value : string → Prop :=
| value_null : json_value "null"
| value_true : json_value "true"
| value_false : json_value "false"
| value_number s : json_number s → json_value s
| value_string s : json_string s → json_value s
| value_empty_array w : json_blank w → json_value ("[" +:+ w +:+ "]")
| value_array es : json_elements es → json_value ("[" +:+ es +:+ "]")
| value_object s : json_object s → json_value s
with json_elements : string → Prop :=
| elements_one w v w' : json_blank w → json_value v → json_blank w' → json_elements (w +:+ v +:+ w')
| elements_more w v w' es : json_blank w → json_value v → json_blank w' → json_elements es →
    json_elements (w +:+ v +:+ w' +:+ "," +:+ es)
with json_object : string → Prop :=
| object_empty w : json_blank w → json_object ("{" +:+ w +:+ "}")
| object_members ms : json_members ms → json_object ("{" +:+ ms +:+ "}")
with json_members : string → Prop :=
| members_one w k w1 w2 v w' :
    json_blank w → json_string k → json_blank w1 → json_blank w2 → json_value v → json_blank w' →
    json_members (w +:+ k +:+ w1 +:+ ":" +:+ w2 +:+ v +:+ w')
| members_more w k w1 w2 v w' ms :
    json_blank w → json_string k → json_blank w1 → json_blank w2 → json_value v → json_blank w' →
    json_members ms →
    json_members (w +:+ k +:+ w1 +:+ ":" +:+ w2 +:+ v +:+ w' +:+ "," +:+ ms).

Scheme json_value_mind := Minimality for json_value Sort Prop
  with json_elements_mind := Minimality for json_elements Sort Prop
  with json_object_mind := Minimality for json_object Sort Prop
  with json_members_mind := Minimality for json_members Sort Prop.
Combined Scheme json_mind from json_value_mind, json_elements_mind, json_object_mind, json_members_mind.

(** ** Depth *)

(** [track_char] on bytes, with a depth that does not wrap. *)
Definition scan_byte (t : JsonDepthTracker) (c : Ascii.ascii) : JsonDepthTracker :=
  let '{| jt_depth := depth; jt_in_string := in_string; jt_escape_next := escape_next |} := t in
  if in_string then
    if escape_next then {| jt_depth := depth; jt_in_string := true; jt_escape_next := false |}
    else if bool_decide (c = backslash_char) then
      {| jt_depth := depth; jt_in_string := true; jt_escape_next := true |}
    else if bool_decide (c = quote_char) then
      {| jt_depth := depth; jt_in_string := false; jt_escape_next := false |}
    else t
  else if bool_decide (c = quote_char) then
    {| jt_depth := depth; jt_in_string := true; jt_escape_next := false |}
  else if bool_decide (String c "" = "{") then
    {| jt_depth := depth + 1; jt_in_string := false; jt_escape_next := false |}
  else if bool_decide (String c "" = "}") then
    {| jt_depth := depth - 1; jt_in_string := false; jt_escape_next := false |}
  else t.

Fixpoint scan (t : JsonDepthTracker) (s : string) : JsonDepthTracker :=
  match s with
  | EmptyString => t
  | String c s => scan (scan_byte t c) s
  end.

(** Between two tokens, at a depth. *)
Definition at_depth (d : Z) : JsonDepthTracker :=
  {| jt_depth := d; jt_in_string := false; jt_escape_next := false |}.
Definition in_text (d : Z) : JsonDepthTracker :=
  {| jt_depth := d; jt_in_string := true; jt_escape_next := false |}.

(** The depth never falls below [d] on the way through [s]. *)
Fixpoint above (d : Z) (t : JsonDepthTracker) (s : string) : Prop :=
  (d ≤ jt_depth t)%Z ∧
  match s with
  | EmptyString => True
  | String c s => above d (scan_byte t c) s
  end.

Lemma scan_app t a b : scan t (a +:+ b) = scan (scan t a) b.
Proof. revert t. induction a as [|c a IH]; intros t; [done|apply IH]. Qed.

Lemma above_app d t a b : above d t a → above d (scan t a) b → above d t (a +:+ b).
Proof.
  revert t. induction a as [|c a IH]; intros t; [done|]. intros [? Ha] Hb. split; [done|]. by apply IH.
Qed.

Lemma above_prefix d t a b : above d t (a +:+ b) → (d ≤ jt_depth (scan t a))%Z.
Proof.
  revert t. induction a as [|c a IH]; intros t; [by destruct b; intros []|]. intros [_ H]. by apply IH.
Qed.

(** A text after which the depth is what it was before, and not less in between. *)
Definition balanced (s : string) : Prop :=
  ∀ d, scan (at_depth d) s = at_depth d ∧ above d (at_depth d) s.

Lemma balanced_app a b : balanced a → balanced b → balanced (a +:+ b).
Proof.
  intros Ha Hb d. destruct (Ha d) as [Ea Aa], (Hb d) as [Eb Ab].
  split; [by rewrite scan_app, Ea|]. apply above_app; [done|]. by rewrite Ea.
Qed.

(** A character that neither is a brace nor opens a string. *)
Definition plain (c : Ascii.ascii) : bool :=
  negb (bool_decide (String c "" ∈ [quote; "{"; "}"])).

Lemma scan_plain d c : plain c = true → scan_byte (at_depth d) c = at_depth d.
Proof.
  unfold plain. rewrite negb_true_iff, bool_decide_eq_false. intros Hc. cbn.
  rewrite !bool_decide_eq_false_2; [done| | |]; intros E; apply Hc; [..|by rewrite <- E; set_solver|];
    rewrite ?E; set_solver.
Qed.

Fixpoint all_plain (s : string) : bool :=
  match s with EmptyString => true | String c s => plain c && all_plain s end.

Lemma all_plain_app a b : all_plain (a +:+ b) = all_plain a && all_plain b.
Proof. induction a as [|c a IH]; [done|]. rewrite str_app_cons. cbn [all_plain]. by rewrite IH, andb_assoc. Qed.

Lemma balanced_plain s : all_plain s = true → balanced s.
Proof.
  intros H d. induction s as [|c s IH]; [by split; [|split]|].
  apply andb_prop in H as [Hc Hs]. destruct (IH Hs) as [E A]. cbn [scan above]. rewrite scan_plain by done.
  split; [done|split; [cbn; lia|done]].
Qed.

Lemma blank_plain s : json_blank s → all_plain s = true.
Proof.
  induction 1 as [|c s Hc _ IH]; [done|]. cbn [all_plain]. rewrite IH, andb_true_r.
  unfold blank_char in Hc. repeat (apply elem_of_cons in Hc as [->|Hc]; [by vm_compute|]). by apply elem_of_nil in Hc.
Qed.

Lemma byte_plain lo hi c : FileSystem.byte_in lo hi c = true →
  (hi < 34 ∨ (34 < lo ∧ hi < 123)) → plain c = true.
Proof.
  unfold FileSystem.byte_in, plain. rewrite andb_true_iff, !Nat.leb_le. intros Hc Hr.
  apply negb_true_iff, bool_decide_eq_false. intros E.
  repeat (apply elem_of_cons in E as [E|E]; [injection E as ->; vm_compute in Hc; lia|]).
  by apply elem_of_nil in E.
Qed.

Lemma digits_plain s : json_digits s → all_plain s = true.
Proof.
  induction 1 as [c Hc|c s Hc _ IH]; cbn [all_plain]; rewrite (byte_plain _ _ _ Hc) by lia; done.
Qed.

(** Finite cases of a membership in a list of texts. *)
Ltac cases_in H := repeat (apply elem_of_cons in H as [->|H]; [|]); try by apply elem_of_nil in H.

Lemma number_plain s : json_number s → all_plain s = true.
Proof.
  intros [sign int frac exp Hs Hi _ Hf He]. rewrite !all_plain_app, (digits_plain _ Hi).
  assert (all_plain sign = true) as -> by (cases_in Hs; reflexivity).
  assert (all_plain frac = true) as ->.
  { destruct Hf as [->|(ds&Hds&->)]; [done|]. by rewrite all_plain_app, (digits_plain _ Hds). }
  destruct He as [->|(e&sg&ds&Hex&Hsg&Hds&->)]; [done|].
  rewrite !all_plain_app, (digits_plain _ Hds). cases_in Hex; cases_in Hsg; reflexivity.
Qed.

(** Inside a string the depth does not change. *)
Lemma hex_in_text d c : hex_digit c = true → scan_byte (in_text d) c = in_text d.
Proof.
  intros Hc. assert (c ≠ backslash_char ∧ c ≠ quote_char) as [? ?].
  { split; intros ->; by vm_compute in Hc. }
  cbn. by rewrite !bool_decide_eq_false_2.
Qed.

Lemma chars_quiet s : json_chars s → ∀ d, scan (in_text d) s = in_text d ∧ above d (in_text d) s.
Proof.
  induction 1 as [|c s Hq Hb _ _ IH|c s Hc _ IH|x y z u s Hx Hy Hz Hu _ IH]; intros d.
  - by repeat split.
  - destruct (IH d) as [E A]. cbn [scan above].
    assert (scan_byte (in_text d) c = in_text d) as ->; [cbn; by rewrite !bool_decide_eq_false_2|].
    split; [done|split; [cbn; lia|done]].
  - destruct (IH d) as [E A]. cbn [scan above].
    change (scan_byte (scan_byte (in_text d) backslash_char) c) with (in_text d).
    change (jt_depth (scan_byte (in_text d) backslash_char)) with d.
    split; [done|]. repeat (split; [cbn; lia|]). done.
  - destruct (IH d) as [E A].
    change (backslash +:+ "u" +:+ String x (String y (String z (String u s))))
      with (String backslash_char (String (Ascii.ascii_of_nat 117) (String x (String y (String z (String u s)))))).
    cbn [scan above].
    change (scan_byte (scan_byte (in_text d) backslash_char) (Ascii.ascii_of_nat 117)) with (in_text d).
    change (jt_depth (scan_byte (in_text d) backslash_char)) with d.
    rewrite !hex_in_text by done. split; [done|]. repeat (split; [cbn; lia|]). done.
Qed.

Lemma string_balanced s : json_string s → balanced s.
Proof.
  intros [b Hb] d. destruct (chars_quiet b Hb d) as [E A].
  rewrite !scan_app. change (scan (at_depth d) quote) with (in_text d). rewrite E.
  split; [done|]. apply above_app; [by repeat (split; [exact (Z.le_refl d)|])|].
  change (scan (at_depth d) quote) with (in_text d). apply above_app; [done|]. rewrite E.
  by repeat (split; [exact (Z.le_refl d)|]).
Qed.

(** Braces around a balanced text: until the closing one the depth is higher than outside. *)
Lemma braces_above d b : balanced b →
  scan (at_depth d) ("{" +:+ b) = at_depth (d + 1) ∧ above (d + 1) (at_depth (d + 1)) b.
Proof.
  intros Hb. destruct (Hb (d + 1)%Z) as [E A]. split; [|done]. rewrite scan_app.
  change (scan (at_depth d) "{") with (at_depth (d + 1)). done.
Qed.

Lemma above_weaken d e t s : (d ≤ e)%Z → above e t s → above d t s.
Proof. intros Hd. revert t. induction s as [|c s IH]; intros t [? H]; split; [lia|done|lia|by apply IH]. Qed.

Lemma braces_balanced b : balanced b → balanced ("{" +:+ b +:+ "}").
Proof.
  intros Hb d. destruct (Hb (d + 1)%Z) as [E A].
  change ("{" +:+ b +:+ "}") with (String brace (b +:+ "}")). cbn [scan above].
  change (scan_byte (at_depth d) brace) with (at_depth (d + 1)).
  rewrite scan_app, E. change (scan (at_depth (d + 1)) "}") with (at_depth (d + 1 - 1)).
  replace (d + 1 - 1)%Z with d by lia. split; [done|]. split; [cbn; lia|].
  apply above_app; [by eapply above_weaken; [|exact A]; lia|]. rewrite E.
  split; [change (d ≤ d + 1)%Z; lia|split; [change (d ≤ d + 1 - 1)%Z; lia|done]].
Qed.

Create HintDb balanced.
#[local] Hint Resolve balanced_app balanced_plain blank_plain digits_plain number_plain string_balanced
  braces_balanced : balanced.

Lemma json_balanced :
  (∀ s, json_value s → balanced s) ∧ (∀ s, json_elements s → balanced s) ∧
  (∀ s, json_object s → balanced s) ∧ (∀ s, json_members s → balanced s).
Proof.
  apply json_mind; intros; (apply braces_balanced || (repeat apply balanced_app)); eauto with balanced.
Qed.

(** An object is braces around a balanced text. *)
Lemma object_braces s : json_object s → ∃ b, s = "{" +:+ b +:+ "}" ∧ balanced b.
Proof. intros [w Hw|ms Hms]; eexists; (split; [done|]); [eauto with balanced|by apply json_balanced]. Qed.

(** ** Texts and their prefixes *)

(** Where a prefix of two texts ends. *)
Lemma app_split p q a b : p +:+ q = a +:+ b →
  (∃ k, a = p +:+ k ∧ q = k +:+ b) ∨ (∃ k, p = a +:+ k ∧ b = k +:+ q).
Proof.
  revert p. induction a as [|c a IH]; intros p E; [right; by exists p|].
  destruct p as [|c' p]; [left; by exists (String c a)|].
  rewrite !str_app_cons in E. injection E as -> E.
  destruct (IH p E) as [(k&->&->)|(k&->&->)]; [left|right]; by exists k.
Qed.

Lemma blank_app a b : json_blank (a +:+ b) → json_blank a ∧ json_blank b.
Proof.
  induction a as [|c a IH]; [by split; [constructor|]|]. rewrite str_app_cons. intros H.
  inversion H as [|? ? Hc Hab]; subst. destruct (IH Hab). split; [by constructor|done].
Qed.

(** No JSON text is blank. *)
Definition starts_graphic (s : string) : Prop := ∃ c r, s = String c r ∧ ¬ blank_char c.

Lemma not_blank s t w : starts_graphic s → ¬ json_blank (w +:+ s +:+ t).
Proof.
  intros (c&r&->&Hc) [_ [Hb _]%blank_app]%blank_app. inversion Hb; subst. done.
Qed.

Lemma above_space c : 32 < Ascii.nat_of_ascii c → ¬ blank_char c.
Proof.
  intros Hc H. unfold blank_char in H.
  repeat (apply elem_of_cons in H as [->|H]; [vm_compute in Hc; lia|]). by apply elem_of_nil in H.
Qed.

Lemma starts_with_graphic c r : 32 < Ascii.nat_of_ascii c → starts_graphic (String c r).
Proof. intros Hc. exists c, r. split; [done|by apply above_space]. Qed.

Lemma digits_graphic s r : json_digits s → starts_graphic (s +:+ r).
Proof.
  intros H. inversion H as [c Hc|c t Hc]; subst; apply starts_with_graphic;
    unfold digit, FileSystem.byte_in in Hc; apply andb_prop in Hc as [Hc%Nat.leb_le _]; lia.
Qed.

Lemma value_graphic s : json_value s → starts_graphic s.
Proof.
  assert (∀ c r, (32 <? Ascii.nat_of_ascii c) = true → starts_graphic (String c r)) as K.
  { intros c r Hc. by apply starts_with_graphic, Nat.ltb_lt. }
  intros [ | | |n Hn|t [b Hb]|w Hw|es Hes|o Ho]; try (apply K; vm_compute; reflexivity).
  - destruct Hn as [sign int frac exp Hs Hi _ _ _].
    cases_in Hs; [exact (digits_graphic int _ Hi)|apply K; vm_compute; reflexivity].
  - destruct Ho; apply K; vm_compute; reflexivity.
Qed.

(** ** Trimming *)

Lemma blank_not_continuation s : json_blank s → is_continuation s = false.
Proof.
  intros [|c t Hc _]; [done|]. unfold blank_char in Hc.
  repeat (apply elem_of_cons in Hc as [->|Hc]; [reflexivity|]). by apply elem_of_nil in Hc.
Qed.

Lemma blank_whitespace s : json_blank s → Forall (λ c, is_whitespace c = true) (chars s).
Proof.
  induction 1 as [|c s Hc Hs IH]; [constructor|].
  rewrite chars_ascii by (by apply blank_not_continuation). constructor; [|done].
  unfold blank_char in Hc.
  repeat (apply elem_of_cons in Hc as [->|Hc]; [reflexivity|]). by apply elem_of_nil in Hc.
Qed.

(** A text in braces is what is left of it when blanks around it are trimmed. *)
Lemma trim_braces w b w' : json_blank w → json_blank w' →
  trim (w +:+ ("{" +:+ b +:+ "}") +:+ w') = "{" +:+ b +:+ "}".
Proof.
  intros Hw Hw'. rewrite trim_strip.
  rewrite chars_app_ascii by done. rewrite chars_app_ascii by (by apply blank_not_continuation).
  assert (∃ g gs, chars ("{" +:+ b +:+ "}") = String brace g :: gs) as (g&gs&E).
  { change ("{" +:+ b +:+ "}") with (String brace (b +:+ "}")). cbn [chars].
    destruct (is_continuation _), (chars (b +:+ "}")); by repeat eexists. }
  rewrite <- (str_concat_chars ("{" +:+ b +:+ "}")) at 2. rewrite E. f_equal.
  apply strip_unique with (y := "}"); [by apply blank_whitespace| |..|reflexivity|].
  - by apply blank_whitespace.
  - apply bool_decide_eq_false. intros H. unfold white_space in H.
    repeat (apply elem_of_cons in H as [H|H]; [done|]). by apply elem_of_nil in H.
  - rewrite <- E. exists (chars ("{" +:+ b)). rewrite <- str_app_assoc. by rewrite chars_app_ascii.
Qed.

(** ** What the library reads *)

(** [serde_json::from_str] reads JSON texts, blanks around a text make no difference, and an object is
    what braces write. *)
Record json_laws (L : StreamLibraries) : Prop := {
  reads_json s v : from_str s = Some v →
    ∃ w t w', s = w +:+ t +:+ w' ∧ json_blank w ∧ json_blank w' ∧ json_value t ∧
              (∀ members, v = Object members → json_object t);
  reads_blanks w s w' : json_blank w → json_blank w' → from_str (w +:+ s +:+ w') = from_str s;
}.

Section laws.
Context {L : StreamLibraries} (laws : json_laws L).

(** Of the text of an object no prefix is JSON but those that hold all of it. *)
Lemma object_prefix p q members v :
  from_str (p +:+ q) = Some (Object members) → from_str p = Some v → v = Object members.
Proof using laws.
  intros Hpq Hp. destruct (reads_json _ laws _ _ Hpq) as (w&t&w'&E&Hw&Hw'&Ht&Ho).
  destruct (reads_json _ laws _ _ Hp) as (w1&t1&w1'&E1&Hw1&Hw1'&Ht1&_).
  assert (∀ r, json_blank r → p = r → False) as Hnb.
  { intros r Hr ->. rewrite E1 in Hr. by eapply not_blank, Hr; apply value_graphic. }
  destruct (object_braces _ (Ho _ eq_refl)) as (b&->&Hb).
  assert (from_str ("{" +:+ b +:+ "}") = Some (Object members)) as Hread.
  { rewrite <- Hpq, E. symmetry. exact (reads_blanks _ laws w _ w' Hw Hw'). }
  apply app_split in E as [(k&Ek&_)|(p2&->&E)].
  { rewrite Ek in Hw. apply blank_app in Hw as [Hw _]. by destruct (Hnb p Hw eq_refl). }
  symmetry in E. apply app_split in E as [(k&Ek&_)|(k&->&Ek)].
  2: { rewrite Ek in Hw'. apply blank_app in Hw' as [Hk _].
       rewrite (reads_blanks _ laws _ _ _ Hw Hk), Hread in Hp. by injection Hp. }
  destruct (decide (k = "")) as [->|Hk].
  { rewrite str_app_nil_r in Ek. subst p2. rewrite <- (str_app_nil_r ("{" +:+ b +:+ "}")) in Hp.
    rewrite (reads_blanks _ laws _ _ _ Hw blank_nil), Hread in Hp. by injection Hp. }
  exfalso. destruct p2 as [|c p2]; [by apply (Hnb w Hw); rewrite str_app_nil_r|].
  assert (c = brace ∧ b +:+ "}" = p2 +:+ k) as [-> Eb] by (by injection Ek as <- <-).
  assert (1 ≤ jt_depth (scan (at_depth 1) p2))%Z as Hdepth.
  { destruct (braces_above 0 b Hb) as [_ A]. symmetry in Eb.
    apply app_split in Eb as [(k'&->&_)|(k'&->&Eb)]; [by eapply above_prefix|].
    assert (k' = "") as ->.
    { destruct k' as [|? k']; [done|]. rewrite str_app_cons in Eb. injection Eb as _ Eb.
      destruct k'; [by destruct (Hk (eq_sym Eb))|done]. }
    rewrite str_app_nil_r in *. destruct (Hb 1%Z) as [-> _]. done. }
  assert (scan (at_depth 0) (w +:+ String brace p2) = scan (at_depth 1) p2) as E2.
  { rewrite scan_app. destruct (balanced_plain w (blank_plain _ Hw) 0%Z) as [-> _]. done. }
  assert (balanced (w1 +:+ t1 +:+ w1')) as Hbal.
  { repeat apply balanced_app; [by apply balanced_plain, blank_plain|by apply (proj1 json_balanced)|].
    by apply balanced_plain, blank_plain. }
  rewrite E1 in E2. destruct (Hbal 0%Z) as [E3 _]. rewrite E3 in E2. rewrite <- E2 in Hdepth. cbn in Hdepth. lia.
Qed.

(** The empty text is no JSON. *)
Lemma empty_no_json : from_str "" = None.
Proof using laws.
  destruct (from_str "") as [v|] eqn:E; [|done].
  destruct (reads_json _ laws _ _ E) as (w&t&w'&Hs&_&_&Ht&_).
  destruct (value_graphic _ Ht) as (c&r&->&_). by destruct w.
Qed.

(** Trimmed, the text of an object reads as the same object. *)
Lemma object_trimmed s members : from_str s = Some (Object members) →
  from_str (trim s) = Some (Object members) ∧ trim s ≠ "".
Proof using laws.
  intros Hs. destruct (reads_json _ laws _ _ Hs) as (w&t&w'&->&Hw&Hw'&_&Ho).
  destruct (object_braces _ (Ho _ eq_refl)) as (b&->&_). rewrite trim_braces by done.
  split; [|done]. rewrite <- Hs. symmetry. exact (reads_blanks _ laws w _ w' Hw Hw').
Qed.
End laws.

(** ** A library that reads one object

    [{a:1}], with its key quoted and blanks around it, and nothing else. *)

Definition sample_text : string := "{" +:+ quote +:+ "a" +:+ quote +:+ ":1}".
Definition sample_value : Value := Object {[ "a" := Number "1" ]}.

Definition is_blank (c : Ascii.ascii) : bool :=
  bool_decide (c ∈ [Ascii.ascii_of_nat 32; Ascii.ascii_of_nat 9; newline; carriage_return]).
Fixpoint drop_blanks (s : string) : string :=
  match s with
  | String c t => if is_blank c then drop_blanks t else s
  | EmptyString => ""
  end.
Definition sample_from_str (s : string) : option Value :=
  match strip_prefix sample_text (drop_blanks s) with
  | Some rest => if bool_decide (drop_blanks rest = "") then Some sample_value else None
  | None => None
  end.
Definition sample_libraries : StreamLibraries := {|
  from_str := sample_from_str; openai_event := λ _, None; anthropic_event := λ _, None |}.

Lemma drop_blanks_spec s : ∃ w, s = w +:+ drop_blanks s ∧ json_blank w.
Proof.
  induction s as [|c s (w&E&Hw)]; [exists ""; by split; [|constructor]|]. cbn [drop_blanks].
  destruct (is_blank c) eqn:Hc; [|exists ""; by split; [|constructor]].
  exists (String c w). split; [rewrite str_app_cons; by f_equal|].
  constructor; [by apply bool_decide_eq_true in Hc|done].
Qed.

Lemma drop_blanks_app w s : json_blank w → drop_blanks (w +:+ s) = drop_blanks s.
Proof.
  induction 1 as [|c w Hc _ IH]; [done|]. rewrite str_app_cons. cbn [drop_blanks].
  unfold is_blank. by rewrite bool_decide_eq_true_2.
Qed.

Lemma drop_blanks_blank w : json_blank w → drop_blanks w = "".
Proof. intros Hw. by rewrite <- (str_app_nil_r w), drop_blanks_app. Qed.

Lemma drop_blanks_end s w : json_blank w →
  drop_blanks (s +:+ w) = if decide (drop_blanks s = "") then "" else drop_blanks s +:+ w.
Proof.
  intros Hw. induction s as [|c s IH]; [by rewrite decide_True, drop_blanks_blank|].
  rewrite str_app_cons. cbn [drop_blanks]. destruct (is_blank c); [done|]. by rewrite decide_False.
Qed.

Lemma sample_not_blank q : ¬ json_blank (q +:+ "}").
Proof. intros [_ H]%blank_app. inversion H; subst. by eapply above_space; [|eassumption]; vm_compute; lia. Qed.

Lemma sample_is_object : json_object sample_text.
Proof.
  apply (object_members ("" +:+ (quote +:+ "a" +:+ quote) +:+ "" +:+ ":" +:+ "" +:+ "1" +:+ "")).
  apply members_one; try constructor.
  - apply chars_plain; [by vm_compute..|vm_compute; lia|constructor].
  - apply (number_parts "" "1" "" ""); [set_solver|by constructor|by vm_compute|by left|by left].
Qed.

Lemma sample_laws : json_laws sample_libraries.
Proof.
  split.
  - intros s v Hs. unfold from_str in Hs. cbn in Hs. unfold sample_from_str in Hs.
    destruct (strip_prefix _ _) as [rest|] eqn:E; [|done]. apply strip_prefix_Some in E.
    case_bool_decide as Hr; [|done]. injection Hs as <-.
    destruct (drop_blanks_spec s) as (w&Hw&?), (drop_blanks_spec rest) as (w'&Hw'&?).
    rewrite Hr, str_app_nil_r in Hw'. subst w'. rewrite E in Hw.
    exists w, sample_text, rest. split_and!; try done; [by constructor; apply sample_is_object|].
    intros _ _. apply sample_is_object.
  - intros w s w' Hw Hw'. change (sample_from_str (w +:+ s +:+ w') = sample_from_str s).
    unfold sample_from_str. rewrite drop_blanks_app, drop_blanks_end by done.
    case_decide as Hs; [by rewrite Hs|]. generalize (drop_blanks s) as x. intros x.
    destruct (strip_prefix sample_text x) as [rest|] eqn:E.
    + apply strip_prefix_Some in E as ->. rewrite str_app_assoc, strip_prefix_app, drop_blanks_end by done.
      case_decide as Hr; [by rewrite Hr|]. rewrite !bool_decide_eq_false_2; [done..|].
      by destruct (drop_blanks rest).
    + destruct (strip_prefix sample_text (x +:+ w')) as [rest|] eqn:E'; [|done].
      apply strip_prefix_Some in E'. apply app_split in E' as [(k&Hk&Hw2)|(k&->&_)];
        [|by rewrite strip_prefix_app in E]. exfalso.
      rewrite Hw2 in Hw'. apply blank_app in Hw' as [Hk' _].
      change sample_text with (("{" +:+ quote +:+ "a" +:+ quote +:+ ":1") +:+ "}") in Hk. symmetry in Hk.
      apply app_split in Hk as [(k'&_&->)|(k'&->&Hk)]; [by eapply sample_not_blank|].
      destruct k' as [|c k']; [apply (sample_not_blank ""); by rewrite Hk|].
      rewrite str_app_cons in Hk. injection Hk as Hc Hk. destruct k'; [|done].
      rewrite <- Hc in E. by vm_compute in E.
Qed.
