(* ===== verification/ProviderStreamProps.v ===== *)
(** * Server-sent events: what the decoder reads

    The frames of a text, and [decode_sse_stream] as a reading of them: which chunks the bytes
    came in makes no difference as long as no chunk ends within a character. *)

From S2P Require Import Prelude TextLines FileSystem Json ProviderStream JsonText.
From stdpp Require Import options.

(** ** Streams *)

Lemma yields_same {S A} (next : S → option (A * S)) s s' l :
  next s = next s' → yields next s l → yields next s' l.
Proof.
  intros E H. inversion H; subst; [apply yields_end|eapply yields_item; [|eassumption]]; congruence.
Qed.

Lemma yields_det {S A} (next : S → option (A * S)) s l l' :
  yields next s l → yields next s l' → l = l'.
Proof.
  intros H. revert l'. induction H as [s Hs|s a s' l Hs _ IH]; intros l' H'; inversion H'; subst; try congruence.
  simplify_eq. f_equal. by apply IH.
Qed.

(** The watchdog passes on what comes in time; at the first stall it ends the stream with an error. *)
Lemma watchdog_yields timeout inner :
  yields (watchdog_next timeout) (inner, false) (with_stall_watchdog timeout inner).
Proof.
  induction inner as [|[i|] inner IH]; cbn; [by apply yields_end| |].
  - by eapply yields_item.
  - eapply yields_item; [reflexivity|]. by apply yields_end.
Qed.

(** ** UTF-8 *)

Lemma byte_in_disjoint lo hi lo' hi' c : byte_in lo hi c = true → hi < lo' → byte_in lo' hi' c = false.
Proof.
  unfold byte_in. rewrite !andb_true_iff, !Nat.leb_le. intros [_ ?] ?.
  apply andb_false_iff. left. apply Nat.leb_gt. lia.
Qed.

Lemma byte_in_above lo hi lo' hi' c : byte_in lo hi c = true → hi' < lo → byte_in lo' hi' c = false.
Proof.
  unfold byte_in. rewrite !andb_true_iff, !Nat.leb_le. intros [? _] ?.
  apply andb_false_iff. right. apply Nat.leb_gt. lia.
Qed.

Lemma byte_in_wider lo hi lo' hi' c : byte_in lo hi c = true → lo' ≤ lo → hi ≤ hi' → byte_in lo' hi' c = true.
Proof. unfold byte_in. rewrite !andb_true_iff, !Nat.leb_le. lia. Qed.

(** Text that is well formed is not changed. *)
Lemma lossy_valid s : valid_utf8 s = true → from_utf8_lossy s = s.
Proof.
  remember (String.length s) as n eqn:Hn. revert s Hn.
  induction n as [n IH] using lt_wf_ind. intros s -> Hv.
  assert (∀ t, String.length t < String.length s → valid_utf8 t = true → from_utf8_lossy t = t) as IHt.
  { intros t Ht. by apply (IH _ Ht t). }
  clear IH. destruct s as [|a s1]; [done|]. cbn [valid_utf8 from_utf8_lossy] in *.
  destruct (byte_in 0 127 a); [f_equal; apply IHt; [simpl; lia|done]|].
  destruct s1 as [|b s2]; [done|].
  destruct (byte_in 194 223 a).
  { apply andb_prop in Hv as [-> Hv]. do 2 f_equal. apply IHt; [simpl; lia|done]. }
  destruct s2 as [|c s3]; [done|].
  destruct (byte_in 224 224 a) eqn:E1; [|destruct (byte_in 237 237 a) eqn:E2;
    [|destruct (byte_in 225 239 a) eqn:E3]].
  - rewrite (byte_in_wider _ _ 224 239 _ E1) by lia.
    apply andb_prop in Hv as [[Hb Hc]%andb_prop Hv]. rewrite Hb, Hc. do 3 f_equal. apply IHt; [simpl; lia|done].
  - rewrite (byte_in_wider _ _ 224 239 _ E2) by lia.
    apply andb_prop in Hv as [[Hb Hc]%andb_prop Hv]. rewrite Hb, Hc. do 3 f_equal. apply IHt; [simpl; lia|done].
  - rewrite (byte_in_wider _ _ 224 239 _ E3) by lia.
    apply andb_prop in Hv as [[Hb Hc]%andb_prop Hv]. rewrite Hb, Hc. do 3 f_equal. apply IHt; [simpl; lia|done].
  - destruct s3 as [|d s4]; [done|].
    apply andb_prop in Hv as [[[Ha Hc]%andb_prop Hd]%andb_prop Hv]. rewrite Hc, Hd.
    assert (byte_in 240 244 a = true ∧ byte_in 224 239 a = false ∧
      (if byte_in 240 240 a then byte_in 144 191 b
       else if byte_in 244 244 a then byte_in 128 143 b else byte_in 128 191 b) = true) as (->&->&->).
    { destruct (byte_in 240 240 a) eqn:F1; [|destruct (byte_in 241 243 a) eqn:F2;
        [|destruct (byte_in 244 244 a) eqn:F3; [|done]]].
      - by rewrite (byte_in_wider _ _ 240 244 _ F1), (byte_in_above _ _ 224 239 _ F1) by lia.
      - rewrite (byte_in_wider _ _ 240 244 _ F2), (byte_in_above _ _ 224 239 _ F2),
          (byte_in_disjoint _ _ 244 244 _ F2) by lia. done.
      - by rewrite (byte_in_wider _ _ 240 244 _ F3), (byte_in_above _ _ 224 239 _ F3) by lia. }
    do 4 f_equal. apply IHt; [simpl; lia|done].
Qed.

Lemma lossy_valid_list l : Forall (λ b, valid_utf8 b = true) l → from_utf8_lossy <$> l = l.
Proof. induction 1 as [|b l Hb _ IH]; cbn; [done|]. by rewrite lossy_valid, IH. Qed.

(** ** Frames *)

(** The frames of a text: what is between two line feeds that follow each other. *)
Fixpoint split_frames (s : string) : list string :=
  match s with
  | String a (String b rest as s') =>
      if bool_decide (a = newline) && bool_decide (b = newline) then "" :: split_frames rest
      else match split_frames s' with
           | f :: fs => String a f :: fs
           | [] => [String a ""]
           end
  | _ => [s]
  end.

Lemma split_frames_cons a b rest : split_frames (String a (String b rest)) =
  if bool_decide (a = newline) && bool_decide (b = newline) then "" :: split_frames rest
  else match split_frames (String b rest) with
       | f :: fs => String a f :: fs
       | [] => [String a ""]
       end.
Proof. done. Qed.

Lemma split_frames_not_nil s : split_frames s ≠ [].
Proof.
  destruct s as [|a [|b s]]; [done|done|]. rewrite split_frames_cons. by repeat case_match.
Qed.

Lemma join_cons sep a f fs : str_join sep (String a f :: fs) = String a (str_join sep (f :: fs)).
Proof. by destruct fs. Qed.

(** Frames joined again are the text. *)
Lemma join_frames s : str_join delimiter (split_frames s) = s.
Proof.
  remember (String.length s) as n eqn:Hn. revert s Hn.
  induction n as [n IH] using lt_wf_ind. intros s ->.
  destruct s as [|a [|b rest]]; [done|done|]. rewrite split_frames_cons.
  pose proof split_frames_not_nil as Hne.
  case_bool_decide as Ha; [case_bool_decide as Hb|]; cbn [andb].
  - subst. specialize (IH (String.length rest) ltac:(simpl; lia) rest eq_refl).
    destruct (split_frames rest) as [|f fs] eqn:E; [by destruct (Hne rest)|].
    change (String newline (String newline (str_join delimiter (f :: fs))) = String newline (String newline rest)).
    by rewrite IH.
  - specialize (IH (S (String.length rest)) ltac:(simpl; lia) (String b rest) eq_refl).
    destruct (split_frames (String b rest)) as [|f fs]; [by destruct (Hne (String b rest))|].
    by rewrite join_cons, IH.
  - specialize (IH (S (String.length rest)) ltac:(simpl; lia) (String b rest) eq_refl).
    destruct (split_frames (String b rest)) as [|f fs]; [by destruct (Hne (String b rest))|].
    by rewrite join_cons, IH.
Qed.

Lemma frame_starts s f fs : split_frames s = f :: fs → starts_with f s = true.
Proof.
  intros E. apply starts_with_true. pose proof (join_frames s) as J. rewrite E in J.
  destruct fs as [|g fs]; [exists ""; by rewrite str_app_nil_r|by eexists].
Qed.

(** No frame holds two line feeds that follow each other. *)
Lemma frames_without_delimiter s : Forall (λ f, contains delimiter f = false) (split_frames s).
Proof.
  remember (String.length s) as n eqn:Hn. revert s Hn.
  induction n as [n IH] using lt_wf_ind. intros s ->.
  destruct s as [|a [|b rest]]; [by repeat constructor| |].
  { constructor; [|constructor]. apply not_true_is_false. intros (u&v&E)%contains_true. by destruct u as [|? [|? u]]. }
  rewrite split_frames_cons.
  destruct (bool_decide (a = newline) && bool_decide (b = newline)) eqn:Hab.
  { constructor; [done|]. by apply (IH (String.length rest)); [simpl; lia|]. }
  specialize (IH (S (String.length rest)) ltac:(simpl; lia) (String b rest) eq_refl).
  destruct (split_frames (String b rest)) as [|f fs] eqn:E; [by destruct (split_frames_not_nil (String b rest))|].
  inversion IH; subst. constructor; [|done]. cbn [contains].
  apply orb_false_iff. split; [|done]. apply not_true_is_false. intros [t Ht]%starts_with_true.
  apply frame_starts, starts_with_true in E as [u Hu]. cbn in Ht.
  injection Ht as -> ->. cbn in Hu. injection Hu as -> _. by rewrite !bool_decide_eq_true_2 in Hab.
Qed.

(** The first frame ends where the delimiter is found, whatever comes after. *)
Lemma split_frames_found s i t : find_sub delimiter s = Some i →
  split_frames (s +:+ t) = str_take i s :: split_frames (str_drop (i + String.length delimiter) s +:+ t).
Proof.
  revert i. induction s as [|a s IH]; intros i; [done|].
  cbn [find_sub]. destruct (starts_with delimiter (String a s)) eqn:E.
  - intros [= <-]. apply starts_with_true in E as [r Hr]. cbn in Hr. injection Hr as -> ->.
    change (("" +:+ nl) +:+ r) with (String newline r).
    rewrite !str_app_cons, split_frames_cons, !bool_decide_eq_true_2 by done. done.
  - destruct (find_sub delimiter s) as [j|] eqn:F; [|done]. intros [= <-].
    specialize (IH j eq_refl). destruct s as [|b s]; [done|].
    rewrite (str_app_cons b) in IH. rewrite (str_app_cons a), (str_app_cons b), split_frames_cons.
    assert (bool_decide (a = newline) && bool_decide (b = newline) = false) as ->.
    { apply not_true_is_false. intros [->%bool_decide_eq_true ->%bool_decide_eq_true]%andb_prop.
      cbn in E. done. }
    rewrite IH. done.
Qed.

Lemma split_frames_none s : find_sub delimiter s = None → split_frames s = [s].
Proof.
  induction s as [|a s IH]; [done|]. cbn [find_sub].
  destruct (starts_with delimiter (String a s)) eqn:E; [done|].
  destruct (find_sub delimiter s) as [j|]; [done|]. intros _. specialize (IH eq_refl).
  destruct s as [|b s]; [done|]. rewrite split_frames_cons.
  assert (bool_decide (a = newline) && bool_decide (b = newline) = false) as ->.
  { apply not_true_is_false. intros [->%bool_decide_eq_true ->%bool_decide_eq_true]%andb_prop.
    cbn in E. done. }
  by rewrite IH.
Qed.

(** ** The decoder reads frames *)

Section decoder.
Context {L : StreamLibraries}.

(** The values of frames, up to the one that says the stream is over. *)
Fixpoint frame_values (frames : list string) : list Value :=
  match frames with
  | [] => []
  | frame :: frames =>
      if is_done frame then [] else option_list (parse_payload frame) ++ frame_values frames
  end.

(** A frame that says so is there. *)
Definition says_done (frames : list string) : bool := existsb is_done frames.

(** What [take_frames] leaves holds the rest of the values. *)
Lemma take_frames_spec fuel buf : String.length buf < fuel →
  match take_frames fuel buf with
  | StreamDone => ∀ t, frame_values (split_frames (buf +:+ t)) = [] ∧ says_done (split_frames (buf +:+ t)) = true
  | FrameValue v buf' =>
      String.length buf' < String.length buf ∧
      ∀ t, frame_values (split_frames (buf +:+ t)) = v :: frame_values (split_frames (buf' +:+ t)) ∧
           says_done (split_frames (buf +:+ t)) = says_done (split_frames (buf' +:+ t))
  | NeedMore buf' =>
      find_sub delimiter buf' = None ∧
      ∀ t, frame_values (split_frames (buf +:+ t)) = frame_values (split_frames (buf' +:+ t)) ∧
           says_done (split_frames (buf +:+ t)) = says_done (split_frames (buf' +:+ t))
  end.
Proof.
  revert buf. induction fuel as [|fuel IH]; intros buf Hlen; [lia|]. cbn [take_frames].
  destruct (find_sub delimiter buf) as [i|] eqn:E; [|done].
  assert (String.length (str_drop (i + String.length delimiter) buf) < String.length buf) as Hshort.
  { apply find_sub_Some in E as (a&b&->&<-).
    rewrite <- str_app_assoc, <- str_length_app, str_drop_app, !str_length_app.
    change (String.length delimiter) with 2. lia. }
  pose proof (λ t, split_frames_found buf i t E) as Hsplit.
  set (rest := str_drop (i + String.length delimiter) buf) in *. set (frame := str_take i buf) in *.
  destruct (is_done frame) eqn:Hd.
  { intros t. rewrite Hsplit. cbn. by rewrite Hd. }
  destruct (parse_payload frame) as [v|] eqn:Hp.
  { split; [done|]. intros t. rewrite Hsplit. cbn. by rewrite Hd, Hp. }
  specialize (IH rest ltac:(lia)).
  destruct (take_frames fuel rest) as [|v buf'|buf'].
  - intros t. rewrite Hsplit. cbn. rewrite Hd, Hp. apply IH.
  - destruct IH as [? IH]. split; [lia|]. intros t. rewrite Hsplit. cbn. rewrite Hd, Hp. apply IH.
  - destruct IH as [? IH]. split; [done|]. intros t. rewrite Hsplit. cbn. rewrite Hd, Hp. apply IH.
Qed.

Lemma decode_next_eq input buf : decode_sse_next (input, buf) =
  match take_frames (S (String.length buf)) buf with
  | StreamDone => None
  | FrameValue v buf => Some (Ok v, (input, buf))
  | NeedMore buf =>
      match input with
      | Ok bytes :: input => decode_sse_next (input, buf +:+ from_utf8_lossy bytes)
      | Err e :: input => Some (Err (Perr.StreamError e), (input, buf))
      | [] =>
          if is_done buf then None
          else match parse_payload buf with
               | Some v => Some (Ok v, ([], ""))
               | None => None
               end
      end
  end.
Proof. destruct input; reflexivity. Qed.

(** The text of an input, chunk by chunk. *)
Definition text_of (input : list (result string string)) : string :=
  str_concat (from_utf8_lossy <$> oks input).

(** What the decoder has to yield when [frames] are still to come. *)
Definition reads (input : list (result string string)) (frames : list string)
    (l : list (result ProviderError Value)) : Prop :=
  oks l = frame_values frames ∧
  (says_done frames = false → errs l = Perr.StreamError <$> errs input).

Lemma decoder_reads input buf :
  ∃ l, yields decode_sse_next (input, buf) l ∧ reads input (split_frames (buf +:+ text_of input)) l.
Proof.
  revert buf. induction input as [|chunk input IHi]; intros buf.
  all: remember (String.length buf) as n eqn:Hn; revert buf Hn;
    induction n as [n IHn] using lt_wf_ind; intros buf ->;
    pose proof (take_frames_spec (S (String.length buf)) buf ltac:(lia)) as Hspec;
    pose proof (decode_next_eq) as Hnext; unfold reads.
  - specialize (Hnext [] buf). destruct (take_frames _ buf) as [|v buf'|buf'].
    + exists []. destruct (Hspec (text_of [])) as [-> ->]. split; [by apply yields_end|done].
    + destruct Hspec as [Hlt Hspec]. destruct (Hspec (text_of [])) as [-> ->].
      destruct (IHn _ Hlt buf' eq_refl) as (l&Hl&Hv&He). exists (Ok v :: l).
      split; [by eapply yields_item|]. split; [|exact He]. change (v :: oks l = v :: frame_values (split_frames (buf' +:+ text_of []))). by rewrite Hv.
    + destruct Hspec as [Hnone Hspec]. destruct (Hspec (text_of [])) as [-> ->].
      unfold text_of. cbn [oks omap list_omap fmap list_fmap str_concat fold_right].
      rewrite str_app_nil_r, (split_frames_none _ Hnone). cbn.
      destruct (is_done buf') eqn:Hd; [exists []; by split; [apply yields_end|]|].
      destruct (parse_payload buf') as [v|] eqn:Hp; [|exists []; by split; [apply yields_end|]].
      exists [Ok v]. split; [|done]. eapply yields_item; [done|]. by apply yields_end.
  - specialize (Hnext (chunk :: input) buf).
    destruct (take_frames _ buf) as [|v buf'|buf'].
    + exists []. destruct (Hspec (text_of (chunk :: input))) as [-> ->]. split; [by apply yields_end|done].
    + destruct Hspec as [Hlt Hspec]. destruct (Hspec (text_of (chunk :: input))) as [-> ->].
      destruct (IHn _ Hlt buf' eq_refl) as (l&Hl&Hv&He). exists (Ok v :: l).
      split; [by eapply yields_item|]. split; [|exact He]. change (v :: oks l = v :: frame_values (split_frames (buf' +:+ text_of (chunk :: input)))). by rewrite Hv.
    + destruct Hspec as [_ Hspec]. destruct (Hspec (text_of (chunk :: input))) as [-> ->].
      destruct chunk as [bytes|e].
      * destruct (IHi (buf' +:+ from_utf8_lossy bytes)) as (l&Hl&Hv&He). exists l.
        split; [by eapply yields_same, Hl|]. rewrite str_app_assoc in Hv, He. by split.
      * destruct (IHi buf') as (l&Hl&Hv&He). exists (Err (Perr.StreamError e) :: l).
        split; [by eapply yields_item|]. split; [done|]. intros Hd.
        change (Perr.StreamError e :: errs l = Perr.StreamError e :: (Perr.StreamError <$> errs input)). by rewrite He.
Qed.

(** C37. How the bytes of a response are cut into chunks makes no difference. If no chunk ends within
    a character, the decoder ends, and the values it yields are those of the frames of the whole
    text, in order, up to the frame that says it is over; the frames are what lies between two
    line feeds that follow each other, and joined they are the text.  Errors of the transport
    are passed on, in order, if no frame says that the stream is over. *)
Theorem decoding_ignores_chunks input :
  Forall (λ b, valid_utf8 b = true) (oks input) →
  let text := str_concat (oks input) in
  let frames := split_frames text in
  (str_join delimiter frames = text ∧ Forall (λ f, contains delimiter f = false) frames) ∧
  ∃ l, (∀ l', yields decode_sse_next (input, "") l' ↔ l' = l) ∧
       oks l = frame_values frames ∧
       (says_done frames = false → errs l = Perr.StreamError <$> errs input).
Proof.
  intros Hv text frames. split; [split; [apply join_frames|apply frames_without_delimiter]|].
  destruct (decoder_reads input "") as (l&Hl&Hoks&Herrs). exists l.
  unfold text_of in *. rewrite lossy_valid_list in Hoks, Herrs by done.
  split; [|done]. intros l'. split; [intros Hy; by eapply yields_det|by intros ->].
Qed.
End decoder.

(** ** Examples *)

(** A response in three chunks, the second of which ends between the line feeds. *)
Definition sample_response : list (result string string) :=
  [Ok ("data: {" +:+ quote +:+ "a" +:+ quote); Err "reset"; Ok (":1}" +:+ nl); Ok (nl +:+ "data: [DONE]" +:+ nl +:+ nl)].

Lemma decoding_ignores_chunks_witness :
  let frames := split_frames (str_concat (oks sample_response)) in
  @frame_values sample_libraries frames = [sample_value] ∧
  ∃ l, yields (@decode_sse_next sample_libraries) (sample_response, "") l ∧ oks l = [sample_value].
Proof.
  assert (@frame_values sample_libraries (split_frames (str_concat (oks sample_response))) = [sample_value]) as E
    by (vm_compute; reflexivity).
  split; [exact E|].
  assert (Forall (λ b, valid_utf8 b = true) (oks sample_response)) as Hv
    by (repeat constructor; vm_compute; reflexivity).
  destruct (@decoding_ignores_chunks sample_libraries sample_response Hv) as (_&l&Hl&Ho&_).
  exists l. split; [by apply Hl|]. by rewrite Ho.
Defined.

(** A character that two chunks share is lost: each part is replaced on its own. *)
Example shared_character_is_replaced :
  let e_acute := str_of_bytes [195; 169]%N in
  valid_utf8 e_acute = true ∧
  text_of [Ok (str_take 1 e_acute); Ok (str_drop 1 e_acute)] = replacement_character +:+ replacement_character.
Proof. vm_compute. done. Qed.

(** Lines that end with a carriage return and a line feed make no frames: of two events only the last
    is read, when the stream ends. *)
Example crlf_events_are_lost :
  let event := "data: " +:+ sample_text +:+ cr +:+ nl +:+ cr +:+ nl in
  @frame_values sample_libraries (split_frames (event +:+ event)) = [sample_value].
Proof. vm_compute. reflexivity. Qed.
