(* ===== verification/ToolCallProps.v ===== *)
(** * Tool calls in a stream

    What [assemble_tool_calls] makes of a stream: the state machine yields a list, calls with
    different ids do not disturb each other, a call ends once, with the arguments its fragments
    are put together to, and a stream that is assembled twice is the stream that is assembled
    once.  Then the turn [collect_stream] makes of it. *)

From Stdlib Require Import ZArith Lia.
From S2P Require Import Prelude TextLines Json BlueprintGraph Blueprint SchedulerLoop ProviderStream ProviderStreamProps JsonText.
From stdpp Require Import options.

(** The item of an event that is there. *)
Ltac one_event :=
  repeat match goal with |- context [Ok <$> option_list (Some ?e)] =>
    change (Ok <$> option_list (Some e)) with ([Ok e] : list item) end.

Section assembly.
Context {L : StreamLibraries}.
Implicit Types m : gmap string ToolCallAssembler.

(** ** The state machine and what it yields *)

Lemma assembly_yields inner m pending eof :
  yields assemble_next
    {| ay_inner := inner; ay_assemblers := m; ay_pending := pending; ay_eof := eof |}
    (pending ++ if eof then [] else assemble_items m inner).
Proof.
  assert (∀ inner m eof l pending,
    yields assemble_next {| ay_inner := inner; ay_assemblers := m; ay_pending := []; ay_eof := eof |} l →
    yields assemble_next {| ay_inner := inner; ay_assemblers := m; ay_pending := pending; ay_eof := eof |}
      (pending ++ l)) as Hpending.
  { clear. intros inner m eof l pending H. induction pending as [|i pending IH]; [done|].
    eapply yields_item; [|exact IH]. by destruct inner. }
  apply Hpending. destruct eof; [apply yields_end; by destruct inner|].
  revert m pending. induction inner as [|i inner IH]; intros m pending; cbn [assemble_items].
  - destruct (flush_tool_call_assemblers m) as [|i pending'] eqn:E;
      [apply yields_end; unfold assemble_next; cbn; by rewrite E|].
    eapply yields_item; [unfold assemble_next; cbn; by rewrite E|].
    pose proof (Hpending [] ∅ true [] pending' ltac:(by apply yields_end)) as Hy.
    rewrite app_nil_r in Hy. exact Hy.
  - destruct (assemble_item m i) as [pushed m'] eqn:E.
    eapply yields_same; [|apply Hpending, (IH m' [])].
    unfold assemble_next. cbn. by rewrite E.
Qed.

(** The stream ends, and yields the items of [assemble_tool_calls]. *)
Lemma assembled_stream inner : yields assemble_next (assembly_new inner) (assemble_tool_calls inner).
Proof. apply (assembly_yields inner ∅ [] false). Qed.

(** ** Assemblers by id *)

Definition keyed m : Prop := map_Forall (λ id a, asm_id a = id) m.

Lemma append_id d a : asm_id (append d a) = asm_id a.
Proof. unfold append. by destruct (asm_finished a). Qed.

Lemma try_emit_id a : asm_id (snd (try_emit a)) = asm_id a.
Proof. unfold try_emit. by repeat case_match. Qed.

Lemma try_emit_end a :
  fst (try_emit a) = None ∨ ∃ v, fst (try_emit a) = Some (Ev.ToolCallEnd (asm_id a) (asm_name a) v).
Proof. unfold try_emit. repeat case_match; by eauto. Qed.

Lemma item_keyed m i : keyed m → keyed (snd (assemble_item m i)).
Proof.
  intros H. unfold assemble_item. destruct i as [[]|]; try done.
  - by apply map_Forall_insert_2.
  - destruct (m !! id) as [a|] eqn:E; [|done].
    pose proof (try_emit_id (append input a)) as Hid. rewrite append_id in Hid.
    destruct (try_emit (append input a)) as [o a']. cbn in *.
    apply map_Forall_insert_2; [|done]. rewrite Hid. by apply H.
  - by apply map_Forall_delete.
Qed.

(** The assemblers in the order of a flush. *)
Definition flush_order m : list ToolCallAssembler := merge_sort by_id (map_to_list m).*2.

Lemma elem_flush_order m a : keyed m → a ∈ flush_order m ↔ m !! asm_id a = Some a.
Proof.
  intros H. unfold flush_order. rewrite merge_sort_Permutation, list_elem_of_fmap. split.
  - intros ([id b]&->&Hb). apply elem_of_map_to_list in Hb. cbn. by rewrite (H _ _ Hb).
  - intros Ha. exists (asm_id a, a). split; [done|]. by apply elem_of_map_to_list.
Qed.

Lemma flush_order_nodup m : keyed m → NoDup (asm_id <$> flush_order m).
Proof.
  intros H. unfold flush_order. rewrite merge_sort_Permutation, <- list_fmap_compose.
  erewrite (list_fmap_ext _ fst); [apply NoDup_fst_map_to_list|].
  intros i [id a] Ha. apply list_elem_of_lookup_2, elem_of_map_to_list in Ha. by apply H.
Qed.

(** Of the calls with one id there is at most one. *)
Lemma filter_flush_order m id : keyed m →
  filter (λ a, asm_id a = id) (flush_order m) = option_list (m !! id).
Proof.
  intros H. pose proof (flush_order_nodup m H) as Hnd.
  assert (∀ a, a ∈ filter (λ a, asm_id a = id) (flush_order m) ↔ m !! id = Some a) as Helem.
  { intros a. rewrite list_elem_of_filter, elem_flush_order by done.
    split; [by intros [<- ?]|]. intros Ha. by rewrite (H _ _ Ha). }
  assert (NoDup (filter (λ a, asm_id a = id) (flush_order m))) as Hf.
  { apply NoDup_filter. by apply NoDup_fmap_1 in Hnd. }
  destruct (filter _ _) as [|a l].
  - destruct (m !! id) as [a|] eqn:E; [|done]. exfalso. apply (elem_of_nil a). by apply Helem.
  - assert (m !! id = Some a) as E by (apply Helem; by left). rewrite E.
    destruct l as [|b l]; [done|]. assert (m !! id = Some b) as E' by (apply Helem; right; by left).
    rewrite E in E'. injection E' as ->. apply NoDup_cons in Hf as [Hf _]. set_solver.
Qed.

(** ** One call among others *)

(** The events of one call, and what can have an effect on it. *)
Definition of_call (id : string) (i : item) : bool :=
  match i with
  | Ok (Ev.ToolCallStart id' _) | Ok (Ev.ToolCallDelta id' _) | Ok (Ev.ToolCallEnd id' _ _) =>
      bool_decide (id' = id)
  | _ => false
  end.
Definition concerns (id : string) (i : item) : bool :=
  match i with Ok Ev.Done => true | _ => of_call id i end.

Abbreviation only id l := (filter (λ i, Is_true (of_call id i)) l) (only parsing).

Lemma only_cons id i l : only id (i :: l) = if of_call id i then i :: only id l else only id l.
Proof.
  rewrite filter_cons. destruct (of_call id i); [by rewrite decide_True|].
  rewrite decide_False; [done|]. by intros [].
Qed.

Lemma flush_one_only a id : only id (flush_one a) = if decide (asm_id a = id) then flush_one a else [].
Proof.
  unfold flush_one. destruct (_ || _); [by case_decide|]. cbv zeta. rewrite only_cons. cbn [of_call].
  destruct (decide (asm_id a = id)); [by rewrite bool_decide_eq_true_2|by rewrite bool_decide_eq_false_2].
Qed.

(** A flush ends the call, if it is open, whatever else it ends. *)
Lemma flush_only m id : keyed m →
  only id (flush_tool_call_assemblers m) = option_list (m !! id) ≫= flush_one.
Proof.
  intros H. rewrite <- filter_flush_order by done.
  unfold flush_tool_call_assemblers. fold (flush_order m).
  induction (flush_order m) as [|a l IH]; [done|].
  change ((a :: l) ≫= flush_one) with (flush_one a ++ (l ≫= flush_one)).
  rewrite filter_app, IH, flush_one_only. rewrite filter_cons. by case_decide.
Qed.

(** The events a fragment gives rise to are of its call. *)
Lemma delta_only m a id id' input : keyed m → m !! id = Some a →
  only id' (Ok <$> option_list (fst (try_emit (append input a)))) =
  if decide (id = id') then Ok <$> option_list (fst (try_emit (append input a))) else [].
Proof.
  intros H Ha. destruct (try_emit_end (append input a)) as [-> |[v ->]]; [by case_decide|].
  rewrite append_id, (H _ _ Ha).
  one_event.
  rewrite only_cons. cbn [of_call].
  destruct (decide (id = id')); [by rewrite bool_decide_eq_true_2|by rewrite bool_decide_eq_false_2].
Qed.

Lemma assemble_delta m a id input : m !! id = Some a →
  assemble_item m (Ok (Ev.ToolCallDelta id input)) =
  (Ok (Ev.ToolCallDelta id input) :: (Ok <$> option_list (fst (try_emit (append input a)))),
   <[id := snd (try_emit (append input a))]> m).
Proof. intros Ha. unfold assemble_item. rewrite Ha. by destruct (try_emit _). Qed.

Lemma assemble_delta_none m id input : m !! id = None →
  assemble_item m (Ok (Ev.ToolCallDelta id input)) = ([Ok (Ev.ToolCallDelta id input)], m).
Proof. intros Ha. unfold assemble_item. by rewrite Ha. Qed.

(** What does not concern a call neither shows up among its events nor changes its state. *)
Lemma item_foreign m i id : keyed m → concerns id i = false →
  only id (fst (assemble_item m i)) = [] ∧ snd (assemble_item m i) !! id = m !! id.
Proof.
  intros H Hc.
  assert (∀ i, of_call id i = false → only id [i] = []) as Hone.
  { intros j Hj. by rewrite only_cons, Hj. }
  destruct i as [[| | | | | | | | | |id' name|id' input|id' name input| | | | | | | |]|e];
    try (by split; [apply Hone|]); try discriminate.
  - cbn in Hc. apply bool_decide_eq_false in Hc as Hne. split; [by apply Hone|]. by apply lookup_insert_ne.
  - cbn in Hc. apply bool_decide_eq_false in Hc as Hne. destruct (m !! id') as [a|] eqn:Ha.
    + rewrite (assemble_delta _ _ _ _ Ha). cbn [fst snd]. rewrite only_cons. cbn [of_call]. rewrite Hc.
      rewrite (delta_only _ _ _ _ _ H Ha), decide_False by done. split; [done|]. by apply lookup_insert_ne.
    + rewrite assemble_delta_none by done. split; [by apply Hone|done].
  - cbn in Hc. apply bool_decide_eq_false in Hc as Hne. cbn. split; [|by apply lookup_delete_ne].
    destruct (match m !! id' with Some _ => _ | None => _ end); [by apply Hone|done].
Qed.

(** What concerns it has the same effect whatever other calls are open. *)
Lemma item_concerns m m' i id : keyed m → keyed m' → m !! id = m' !! id → concerns id i = true →
  only id (fst (assemble_item m i)) = only id (fst (assemble_item m' i)) ∧
  snd (assemble_item m i) !! id = snd (assemble_item m' i) !! id.
Proof.
  intros H H' Hid Hc.
  destruct i as [[| | | | | | | | | |id' name|id' input|id' name input| | | | | | | |]|e];
    try discriminate; try (cbn in Hc; apply bool_decide_eq_true in Hc as ->).
  - split; [done|]. cbn [assemble_item snd]. by rewrite !lookup_insert_eq.
  - destruct (m' !! id) as [a|] eqn:Ha.
    + rewrite (assemble_delta m a), (assemble_delta m' a) by congruence.
      split; [done|]. cbn. by rewrite !lookup_insert_eq.
    + rewrite !assemble_delta_none by congruence. split; [done|]. cbn [snd]. congruence.
  - cbn. rewrite Hid. split; [done|]. by rewrite !lookup_delete_eq.
  - cbn. rewrite !filter_app, !flush_only, Hid by done. split; [done|]. by rewrite !lookup_empty.
Qed.

Lemma assemble_items_cons m i l :
  assemble_items m (i :: l) = fst (assemble_item m i) ++ assemble_items (snd (assemble_item m i)) l.
Proof. cbn [assemble_items]. by destruct (assemble_item m i). Qed.

Lemma calls_apart m m' l id : keyed m → keyed m' → m !! id = m' !! id →
  only id (assemble_items m l) = only id (assemble_items m' (filter (λ i, Is_true (concerns id i)) l)).
Proof.
  intros H H' Hid. revert m m' H H' Hid. induction l as [|i l IH]; intros m m' H H' Hid.
  { cbn [assemble_items filter list_filter]. by rewrite !flush_only, Hid. }
  rewrite assemble_items_cons, filter_app, filter_cons.
  destruct (concerns id i) eqn:Hc; [rewrite decide_True by done|rewrite decide_False by (by intros [])].
  - rewrite assemble_items_cons, filter_app. destruct (item_concerns m m' i id H H' Hid Hc) as [-> E].
    f_equal. apply IH; [by apply item_keyed..|done].
  - destruct (item_foreign m i id H Hc) as [-> E]. apply IH; [by apply item_keyed|done|]. by rewrite E.
Qed.

(** ** How a call ends *)

(** The ends of a call, with the name and the arguments they carry. *)
Definition call_ends (id : string) (l : list item) : list (string * Value) :=
  omap (λ i, match i with
             | Ok (Ev.ToolCallEnd id' name input) => if decide (id' = id) then Some (name, input) else None
             | _ => None
             end) l.

Definition deltas (id : string) (ds : list string) : list item :=
  (λ d, Ok (Ev.ToolCallDelta id d)) <$> ds.

Lemma call_ends_app id l k : call_ends id (l ++ k) = call_ends id l ++ call_ends id k.
Proof. apply omap_app. Qed.

Lemma call_ends_only id l : call_ends id (only id l) = call_ends id l.
Proof.
  induction l as [|i l IH]; [done|]. rewrite only_cons. destruct (of_call id i) eqn:E.
  - unfold call_ends in *. cbn. by rewrite IH.
  - rewrite IH. unfold call_ends. cbn. destruct i as [[]|]; try done.
    cbn in E. apply bool_decide_eq_false in E. by rewrite decide_False.
Qed.

(** The end a flush makes of arguments. *)
Definition flushed (name text : string) : list (string * Value) :=
  if decide (text = "") then []
  else [(name, if decide (trim text = "") then Object ∅ else default (JString text) (from_str (trim text)))].

Lemma flush_one_ends a : asm_finished a = false →
  call_ends (asm_id a) (flush_one a) = flushed (asm_name a) (asm_arguments a).
Proof.
  intros Hf. unfold flush_one, flushed. rewrite Hf. cbn [orb].
  destruct (decide (asm_arguments a = "")) as [-> |Hn]; [done|]. rewrite bool_decide_eq_false_2 by done.
  cbn -[trim]. rewrite decide_True by done. f_equal. f_equal.
  by destruct (decide (trim (asm_arguments a) = "")); [rewrite bool_decide_eq_true_2|rewrite bool_decide_eq_false_2].
Qed.

Lemma flush_singleton id a : flush_tool_call_assemblers {[id := a]} = flush_one a.
Proof. unfold flush_tool_call_assemblers. rewrite map_to_list_singleton. cbn. by rewrite app_nil_r. Qed.

Lemma closing id a k :
  call_ends id (assemble_items {[id := a]} (replicate k (Ok Ev.Done))) = call_ends id (flush_one a).
Proof.
  assert (∀ k, call_ends id (assemble_items ∅ (replicate k (Ok Ev.Done))) = []) as Hempty.
  { clear. induction k as [|k IH]; [done|]. cbn [replicate]. rewrite assemble_items_cons, call_ends_app.
    cbn [assemble_item fst snd]. by rewrite IH, app_nil_r. }
  destruct k as [|k]; cbn [replicate]; [cbn [assemble_items]; by rewrite flush_singleton|].
  rewrite assemble_items_cons. cbn [assemble_item fst snd].
  by rewrite !call_ends_app, Hempty, flush_singleton, app_nil_r, app_nil_r.
Qed.

Lemma try_emit_spec a :
  (try_emit a = (None, a)) ∨
  ∃ v a', from_str (asm_arguments a) = Some v ∧ asm_finished a' = true ∧
          try_emit a = (Some (Ev.ToolCallEnd (asm_id a) (asm_name a) v), a').
Proof. unfold try_emit. repeat case_match; first [by left|right; by repeat eexists]. Qed.

Lemma finished_append d a : asm_finished a = true → try_emit (append d a) = (None, a).
Proof. intros Hf. unfold append. rewrite Hf. unfold try_emit. by rewrite Hf. Qed.

Lemma finished_call id a ds k : asm_finished a = true →
  call_ends id (assemble_items {[id := a]} (deltas id ds ++ replicate k (Ok Ev.Done))) = [].
Proof.
  intros Hf. induction ds as [|d ds IH].
  - cbn [deltas fmap list_fmap app]. rewrite closing. unfold flush_one. by rewrite Hf.
  - change (deltas id (d :: ds)) with (Ok (Ev.ToolCallDelta id d) :: deltas id ds).
    rewrite <- app_comm_cons, assemble_items_cons, (assemble_delta _ a) by apply lookup_singleton_eq.
    rewrite finished_append by done. cbn [fst snd]. rewrite call_ends_app, insert_singleton_eq. exact IH.
Qed.

Lemma open_call a ds k : asm_finished a = false →
  let ends := call_ends (asm_id a) (assemble_items {[asm_id a := a]} (deltas (asm_id a) ds ++ replicate k (Ok Ev.Done))) in
  let text := asm_arguments a +:+ str_concat ds in
  (∃ p q v, text = p +:+ q ∧ from_str p = Some v ∧ ends = [(asm_name a, v)]) ∨
  ends = flushed (asm_name a) text.
Proof.
  cbv zeta. revert a. induction ds as [|d ds IH]; intros a Hf.
  - right. cbn [deltas fmap list_fmap app str_concat fold_right].
    by rewrite closing, flush_one_ends, str_app_nil_r.
  - change (deltas (asm_id a) (d :: ds)) with (Ok (Ev.ToolCallDelta (asm_id a) d) :: deltas (asm_id a) ds).
    rewrite <- app_comm_cons, assemble_items_cons, (assemble_delta _ a) by apply lookup_singleton_eq.
    cbn [fst snd]. rewrite call_ends_app, insert_singleton_eq.
    change (str_concat (d :: ds)) with (d +:+ str_concat ds). rewrite <- str_app_assoc.
    assert (append d a = {| asm_id := asm_id a; asm_name := asm_name a;
      asm_arguments := asm_arguments a +:+ d; asm_finished := false;
      asm_tracker := track (asm_tracker a) d |}) as Happ by (unfold append; by rewrite Hf).
    destruct (try_emit_spec (append d a)) as [-> |(v&a'&Hv&Hf'&->)]; cbn [fst snd].
    + specialize (IH (append d a)). rewrite Happ in *. cbn in IH. exact (IH eq_refl).
    + left. exists (asm_arguments a +:+ d), (str_concat ds), v. rewrite finished_call by done.
      rewrite Happ in *. cbn in Hv. split; [done|]. split; [done|]. cbn. by rewrite decide_True.
Qed.

Lemma started_call es id name ds k :
  filter (λ i, Is_true (concerns id i)) es =
    Ok (Ev.ToolCallStart id name) :: deltas id ds ++ replicate k (Ok Ev.Done) →
  (∃ p q v, str_concat ds = p +:+ q ∧ from_str p = Some v ∧
            call_ends id (assemble_tool_calls es) = [(name, v)]) ∨
  call_ends id (assemble_tool_calls es) = flushed name (str_concat ds).
Proof.
  intros Hes. rewrite <- call_ends_only. unfold assemble_tool_calls.
  rewrite (calls_apart ∅ ∅), Hes, call_ends_only by done.
  rewrite assemble_items_cons, call_ends_app. cbn [assemble_item fst snd].
  rewrite insert_empty. exact (open_call (assembler_new id name) ds k eq_refl).
Qed.

(** A call that never has an argument text never ends. *)
Lemma call_without_arguments_never_ends es id name ds k :
  filter (λ i, Is_true (concerns id i)) es =
    Ok (Ev.ToolCallStart id name) :: deltas id ds ++ replicate k (Ok Ev.Done) →
  from_str "" = None → str_concat ds = "" → call_ends id (assemble_tool_calls es) = [].
Proof.
  intros Hes Hempty Hds. destruct (started_call es id name ds k Hes) as [(p&q&v&E&Hp&_)| ->].
  - rewrite Hds in E. destruct p; [congruence|done].
  - rewrite Hds. done.
Qed.

(** C38. A tool call whose arguments are an object or no JSON ends once, with the arguments that were
    sent, unless their text is empty. Whatever else is in the stream (text, usage, errors of the
    transport, fragments of other calls, in any order): if a call is started once, fragments of its
    arguments follow, and the stream may then say that it is over any number of times, then (1) if
    the fragments put together are the text of a JSON object, however it is cut into fragments, the
    call ends exactly once, with that object; (2) if they are a text that is not empty and of which
    no beginning is JSON, the call ends exactly once, with what the text is without the blanks
    around it, or with the text itself, as a string, for the tool to refuse; blanks alone are the
    empty object; (3) if they are the empty text, the call never ends, so it is lost (a recorded
    defect: flush_tool_call_assemblers skips it). *)
Theorem tool_calls_end_once es id name ds k :
  json_laws L →
  filter (λ i, Is_true (concerns id i)) es =
    Ok (Ev.ToolCallStart id name) :: deltas id ds ++ replicate k (Ok Ev.Done) →
  let text := str_concat ds in
  let ends := call_ends id (assemble_tool_calls es) in
  (∀ members, from_str text = Some (Object members) → ends = [(name, Object members)]) ∧
  (text ≠ "" → (∀ p q, text = p +:+ q → from_str p = None) →
   ends = [(name, if decide (trim text = "") then Object ∅
                  else default (JString text) (from_str (trim text)))]) ∧
  (text = "" → ends = []).
Proof.
  intros laws Hes text ends. pose proof (started_call es id name ds k Hes) as Hends. fold text ends in Hends.
  split_and!.
  - intros members Hm. destruct Hends as [(p&q&v&E&Hp&->)| ->].
    + rewrite E in Hm. by rewrite (object_prefix laws p q members v Hm Hp).
    + destruct (object_trimmed laws text members Hm) as [Ht Hne]. unfold flushed.
      rewrite decide_False by (intros E; by rewrite E in Hne).
      by rewrite decide_False, Ht.
  - intros Hne Hno. destruct Hends as [(p&q&v&E&Hp&_)| ->]; [by rewrite (Hno p q E) in Hp|].
    unfold flushed. by rewrite decide_False.
  - intros He. rewrite He in Hends. destruct Hends as [(p&q&v&E&Hp&_)|Hends]; [|exact Hends].
    destruct p; [|done]. by rewrite (empty_no_json laws) in Hp.
Qed.

(** ** Assembling twice *)

(** The calls that are still open. *)
Definition open_calls m : gmap string ToolCallAssembler := filter (λ p, asm_finished p.2 = false) m.

Lemma lookup_open m id : open_calls m !! id = (a ← m !! id; if asm_finished a then None else Some a).
Proof.
  unfold open_calls. destruct (m !! id) as [a|] eqn:E; cbn.
  - destruct (asm_finished a) eqn:Hf.
    + apply map_lookup_filter_None. right. intros b Hb. rewrite E in Hb. injection Hb as <-. cbn. by rewrite Hf.
    + by apply map_lookup_filter_Some.
  - apply map_lookup_filter_None. by left.
Qed.

(** Assembling a list without flushing at its end. *)
Fixpoint assemble_all m (l : list item) : list item * gmap string ToolCallAssembler :=
  match l with
  | [] => ([], m)
  | i :: l => let '(out, m) := assemble_item m i in
              let '(rest, m) := assemble_all m l in (out ++ rest, m)
  end.

Lemma assemble_all_cons m i l : assemble_all m (i :: l) =
  (fst (assemble_item m i) ++ fst (assemble_all (snd (assemble_item m i)) l),
   snd (assemble_all (snd (assemble_item m i)) l)).
Proof. cbn [assemble_all]. destruct (assemble_item m i) as [o m1]. cbn. by destruct (assemble_all m1 l). Qed.

Lemma assemble_items_app m l k :
  assemble_items m (l ++ k) = fst (assemble_all m l) ++ assemble_items (snd (assemble_all m l)) k.
Proof.
  revert m. induction l as [|i l IH]; intros m; [done|].
  by rewrite <- app_comm_cons, assemble_items_cons, assemble_all_cons, IH, app_assoc.
Qed.

Lemma open_insert m id a : asm_finished a = false → open_calls (<[id := a]> m) = <[id := a]> (open_calls m).
Proof.
  intros Hf. apply map_eq. intros j. rewrite lookup_open. destruct (decide (id = j)) as [-> |].
  - rewrite !lookup_insert_eq. cbn. by rewrite Hf.
  - by rewrite !lookup_insert_ne, lookup_open by done.
Qed.

Lemma open_insert_finished m id a : asm_finished a = true → open_calls (<[id := a]> m) = delete id (open_calls m).
Proof.
  intros Hf. apply map_eq. intros j. rewrite lookup_open. destruct (decide (id = j)) as [-> |].
  - rewrite lookup_insert_eq, lookup_delete_eq. cbn. by rewrite Hf.
  - by rewrite lookup_insert_ne, lookup_delete_ne, lookup_open by done.
Qed.

Lemma open_delete m id : open_calls (delete id m) = delete id (open_calls m).
Proof.
  apply map_eq. intros j. rewrite lookup_open. destruct (decide (id = j)) as [-> |].
  - by rewrite !lookup_delete_eq.
  - by rewrite !lookup_delete_ne, lookup_open by done.
Qed.

(** Ends of a flush pass through an assembler in which nothing is finished, and take their calls along. *)
Lemma flush_passes m l :
  (∀ id a, m !! id = Some a → asm_finished a = false) →
  fst (assemble_all m (l ≫= flush_one)) = l ≫= flush_one ∧
  (∀ id a, snd (assemble_all m (l ≫= flush_one)) !! id = Some a →
     m !! id = Some a ∧ ∀ b, b ∈ l → asm_id b = id → flush_one b = []).
Proof.
  revert m. induction l as [|a l IH]; intros m Hm.
  { split; [done|]. intros id a Ha. split; [done|]. by intros b ?%elem_of_nil. }
  change ((a :: l) ≫= flush_one) with (flush_one a ++ (l ≫= flush_one)).
  destruct (flush_one a) as [|i its] eqn:E.
  { destruct (IH m Hm) as [H1 H2]. split; [exact H1|]. intros id b Hb. destruct (H2 id b Hb) as [? Hl].
    split; [done|]. intros c Hc Hid. apply elem_of_cons in Hc as [-> |Hc]; [done|by apply Hl]. }
  assert (∃ v, i = Ok (Ev.ToolCallEnd (asm_id a) (asm_name a) v) ∧ its = []) as (v&->&->).
  { unfold flush_one in E. destruct (_ || _); [done|]. injection E as <- <-. by eexists. }
  cbn [app]. rewrite assemble_all_cons. cbn [assemble_item fst snd].
  destruct (IH (delete (asm_id a) m)) as [H1 H2].
  { intros id b Hb. apply lookup_delete_Some in Hb as [_ Hb]. by apply (Hm id). }
  split.
  - rewrite H1. destruct (m !! asm_id a) as [b|] eqn:Hb; [|done]. by rewrite (Hm _ _ Hb).
  - intros id b Hb. destruct (H2 id b Hb) as [[Hne Hb']%lookup_delete_Some Hl].
    split; [done|]. intros c Hc Hid. apply elem_of_cons in Hc as [-> |Hc]; [done|by apply Hl].
Qed.

Lemma flush_nothing m : keyed m → (∀ id a, m !! id = Some a → flush_one a = []) →
  flush_tool_call_assemblers m = [].
Proof.
  intros Hk H. unfold flush_tool_call_assemblers. fold (flush_order m).
  assert (∀ a, a ∈ flush_order m → flush_one a = []) as Hl.
  { intros a Ha. apply elem_flush_order in Ha; [|done]. by eapply H. }
  induction (flush_order m) as [|a l IH]; [done|].
  change ((a :: l) ≫= flush_one) with (flush_one a ++ (l ≫= flush_one)).
  rewrite (Hl a) by by left. apply IH. intros b Hb. apply Hl. by right.
Qed.

(** The second flush finds nothing that the first has not ended. *)
Lemma second_flush m : keyed m →
  let '(out, m') := assemble_all (open_calls m) (flush_tool_call_assemblers m) in
  out = flush_tool_call_assemblers m ∧ flush_tool_call_assemblers m' = [].
Proof.
  intros Hk. unfold flush_tool_call_assemblers at 1. fold (flush_order m).
  destruct (flush_passes (open_calls m) (flush_order m)) as [H1 H2].
  { intros id a. rewrite lookup_open. destruct (m !! id) as [b|]; cbn; [|done].
    destruct (asm_finished b) eqn:Hb; [done|]. by intros [= <-]. }
  destruct (assemble_all _ _) as [out m'] eqn:E. cbn in *. split; [exact H1|].
  assert (∀ id a, m' !! id = Some a → m !! id = Some a) as Hsub.
  { intros id a Ha. destruct (H2 id a Ha) as [Ho _]. rewrite lookup_open in Ho.
    destruct (m !! id) as [b|]; cbn in *; [|done]. by destruct (asm_finished b). }
  apply flush_nothing.
  - intros id a Ha. by apply Hk, Hsub.
  - intros id a Ha. destruct (H2 id a Ha) as [_ Hl]. apply Hl; [|by apply Hk, Hsub].
    apply elem_flush_order; [done|]. rewrite (Hk id a) by (by apply Hsub). by apply Hsub.
Qed.

(** What one item gives rise to passes through an assembler that knows the open calls. *)
Lemma item_passes m i : keyed m →
  assemble_all (open_calls m) (fst (assemble_item m i)) =
  (fst (assemble_item m i), open_calls (snd (assemble_item m i))).
Proof.
  intros Hk. destruct i as [[| | | | | | | | | |id name|id input|id name input| | | | | | | |]|e]; try done.
  - cbn [assemble_item fst snd assemble_all]. by rewrite open_insert.
  - destruct (m !! id) as [a|] eqn:Ha.
    + rewrite (assemble_delta _ a) by done. cbn [fst snd]. destruct (asm_finished a) eqn:Hf.
      * rewrite finished_append by done. cbn [fst snd option_list fmap list_fmap assemble_all].
        rewrite assemble_delta_none by (rewrite lookup_open, Ha; cbn; by rewrite Hf).
        rewrite open_insert_finished, delete_id; [done| |done]. rewrite lookup_open, Ha. cbn. by rewrite Hf.
      * assert (open_calls m !! id = Some a) as Ho by (rewrite lookup_open, Ha; cbn; by rewrite Hf).
        rewrite assemble_all_cons, (assemble_delta _ _ _ _ Ho). cbn [fst snd].
        destruct (try_emit_spec (append input a)) as [-> |(v&a'&_&Hf'&->)]; cbn [fst snd].
        -- cbn [option_list fmap list_fmap assemble_all fst snd app].
           rewrite open_insert; [done|]. unfold append. by rewrite Hf.
        -- one_event. rewrite assemble_all_cons. cbn [assemble_item].
           rewrite append_id, (Hk _ _ Ha), lookup_insert_eq, Hf'. cbn [negb fst snd assemble_all].
           by rewrite open_insert_finished, delete_insert_eq by done.
    + rewrite assemble_delta_none by done. cbn [fst snd assemble_all].
      by rewrite assemble_delta_none by (by rewrite lookup_open, Ha).
  - cbn [assemble_item fst snd]. rewrite open_delete. destruct (m !! id) as [a|] eqn:Ha.
    + destruct (asm_finished a) eqn:Hf; cbn [negb assemble_all].
      * rewrite delete_id; [done|]. rewrite lookup_open, Ha. cbn. by rewrite Hf.
      * cbn [assemble_item]. rewrite lookup_open, Ha. cbn. by rewrite Hf, Hf.
    + cbn [assemble_all assemble_item]. rewrite lookup_open, Ha. reflexivity.
  - pose proof (second_flush m Hk) as H. cbn [assemble_item fst snd].
    revert H. generalize (flush_tool_call_assemblers m) as out. intros out.
    assert (∀ M (l : list item), assemble_all M (l ++ [Ok Ev.Done]) =
      (fst (assemble_all M l) ++ flush_tool_call_assemblers (snd (assemble_all M l)) ++ [Ok Ev.Done], ∅)) as Happ.
    { clear. intros M l. revert M. induction l as [|i l IH]; intros M; cbn [app].
      - cbn [assemble_all assemble_item fst snd app]. by rewrite app_nil_r.
      - rewrite !assemble_all_cons, IH. cbn [fst snd]. by rewrite app_assoc. }
    rewrite Happ. destruct (assemble_all (open_calls m) out) as [o m']. cbn. by intros [-> ->].
Qed.

(** The backend of the agents assembles a stream that its provider has assembled already: it makes
    no difference. *)
Lemma assembling_twice es : assemble_tool_calls (assemble_tool_calls es) = assemble_tool_calls es.
Proof.
  unfold assemble_tool_calls.
  assert (keyed ∅) as Hk by done. change (∅ : gmap string ToolCallAssembler) with (open_calls ∅) at 1.
  revert Hk. generalize (∅ : gmap string ToolCallAssembler) as m. induction es as [|i es IH]; intros m Hk.
  - cbn [assemble_items]. rewrite <- (app_nil_r (flush_tool_call_assemblers m)) at 1.
    rewrite assemble_items_app. cbn [assemble_items]. pose proof (second_flush m Hk) as H.
    destruct (assemble_all _ _) as [out m']. cbn. destruct H as [-> ->]. by rewrite app_nil_r.
  - rewrite assemble_items_cons, assemble_items_app, item_passes by done. cbn [fst snd]. f_equal.
    apply IH. by apply item_keyed.
Qed.
End assembly.

(** ** The turn of an agent *)

Section turn.
Context {L : StreamLibraries} {W S : Type}.
Context (observer : StreamObserver W) (context : AgentObservationContext) (summarize : ProviderError → S).

(** An item that does not end the turn with an error. *)
Definition sound (i : item) : bool :=
  match i with Err _ | Ok (Ev.Error _) => false | _ => true end.

(** The texts, calls and counters that items carry. *)
Definition texts (l : list item) : string :=
  str_concat (omap (λ i, match i with Ok (Ev.TextDelta t) => Some t | _ => None end) l).
Definition reasonings (l : list item) : string :=
  str_concat (omap (λ i, match i with Ok (Ev.ReasoningDelta _ t) => Some t | _ => None end) l).
Definition ended_calls (l : list item) : list (ToolCall Value) :=
  omap (λ i, match i with
             | Ok (Ev.ToolCallEnd id name input) =>
                 Some {| tc_id := scheduler_tool_call_id context id; tc_tool := name; tc_arguments := input |}
             | _ => None
             end) l.
Definition prompt_counts (l : list item) : list Z :=
  omap (λ i, match i with
             | Ok (Ev.Usage prompt _ _ _ _ _) => Some prompt
             | Ok (Ev.FinishStep _ u _) => Some (su_prompt_tokens u)
             | _ => None
             end) l.
Definition completion_counts (l : list item) : list Z :=
  omap (λ i, match i with
             | Ok (Ev.Usage _ completion _ _ _ _) => Some completion
             | Ok (Ev.FinishStep _ u _) => Some (su_completion_tokens u)
             | _ => None
             end) l.
Definition finish_reasons (l : list item) : list string :=
  omap (λ i, match i with Ok (Ev.FinishStep reason _ _) => reason | _ => None end) l.

(** What items add to what was collected before. *)
Definition collects (c : Collected) (l : list item) (c' : Collected) : Prop :=
  Forall (λ i, sound i = true) l ∧
  co_text c' = co_text c +:+ texts l ∧
  co_reasoning c' = co_reasoning c +:+ reasonings l ∧
  co_tool_calls c' = co_tool_calls c ++ ended_calls l ∧
  input_tokens (co_usage c') = foldl Z.max (input_tokens (co_usage c)) (prompt_counts l) ∧
  output_tokens (co_usage c') = foldl Z.max (output_tokens (co_usage c)) (completion_counts l) ∧
  co_finish_reason c' = from_option Some (co_finish_reason c) (last (finish_reasons l)).

Lemma collects_nil c : collects c [] c.
Proof. split; [constructor|]. cbn. by rewrite !str_app_nil_r, app_nil_r. Qed.

Lemma collects_cons c i c1 l c' : collects c [i] c1 → collects c1 l c' → collects c (i :: l) c'.
Proof.
  intros (Hs&Ht&Hr&Hc&Hi&Ho&Hf) (Hs'&Ht'&Hr'&Hc'&Hi'&Ho'&Hf').
  assert (∀ {B} (f : item → option B), omap f (i :: l) = omap f [i] ++ omap f l) as Homap.
  { intros B f. cbn. by destruct (f i). }
  split; [by inversion Hs; constructor|].
  unfold texts, reasonings, ended_calls, prompt_counts, completion_counts, finish_reasons in *.
  rewrite !Homap, !str_concat_app, !foldl_app, last_app, <- !str_app_assoc, !app_assoc.
  rewrite Ht', Hr', Hc', Hi', Ho', Hf', Ht, Hr, Hc, Hi, Ho, Hf.
  split_and!; try done. by destruct (last (omap _ l)).
Qed.

Lemma collect_event_spec c i w c' w' :
  collect_event observer context summarize c i w = (Ok c', w') → collects c [i] c'.
Proof.
  assert (∀ r (k : W → result (ModelBackendError S) Collected * W), after_observer r k = (Ok c', w') →
    ∃ w1, k w1 = (Ok c', w')) as Hafter by (intros [[u|e] w1] k H; [by exists w1|done]).
  unfold collects, texts, reasonings, ended_calls, prompt_counts, completion_counts, finish_reasons.
  destruct i as [[]|e]; cbn; intros H; try discriminate;
    try (apply Hafter in H as [? H]); injection H as <- <-;
    (split; [by repeat constructor|]); cbn; rewrite ?str_app_nil_r, ?app_nil_r; split_and!; try done.
  by destruct finish_reason.
Qed.

Lemma collect_items_spec c l w c' w' :
  collect_items observer context summarize c l w = (Ok c', w') → collects c l c'.
Proof.
  revert c w. induction l as [|i l IH]; intros c w; cbn [collect_items].
  - intros [= <- <-]. apply collects_nil.
  - destruct (collect_event _ _ _ c i w) as [[c1|e] w1] eqn:E; [|done]. intros H.
    eapply collects_cons; [by eapply collect_event_spec|by eapply IH].
Qed.

(** An observer that never refuses. *)
Record accepts : Prop := {
  accepts_text d w : is_ok (fst (so_text_delta observer context d w)) = true;
  accepts_reasoning id d w : is_ok (fst (so_reasoning_delta observer context id d w)) = true;
  accepts_input id name d w : is_ok (fst (so_tool_input_delta observer context id name d w)) = true;
}.

Lemma collect_items_ends c l w : accepts → Forall (λ i, sound i = true) l →
  ∃ c' w', collect_items observer context summarize c l w = (Ok c', w').
Proof.
  intros Ha. revert c w. induction l as [|i l IH]; intros c w Hs; [by repeat eexists|].
  inversion Hs as [|? ? Hi Hl]; subst. cbn [collect_items].
  assert (∃ c1 w1, collect_event observer context summarize c i w = (Ok c1, w1)) as (c1&w1&->); [|by apply IH].
  assert (∀ r (k : W → Collected), is_ok (fst r) = true →
    ∃ c1 w1, after_observer (ProviderErrorSummary := S) r (λ w, (Ok (k w), w)) = (Ok c1, w1)) as Hafter
    by (intros [[u|e] w1] k H; [by repeat eexists|done]).
  destruct i as [[]|e]; try done; try by repeat eexists; cbn [collect_event].
  all: apply (Hafter _ (λ _, _)); by apply Ha.
Qed.

(** The turn of an agent is what its stream says. Whatever the observer does: if the stream is
    collected, no item of it is an error, the text, the reasoning and the tool calls of the turn are
    those of the stream in their order, its token counts are the largest that were reported, and
    its finish reason is the last one; a stream the provider has assembled already is collected in
    the same way. If no item is an error and the observer does not refuse, the stream is collected. *)
Lemma turn_holds_the_stream stream w :
  let items := assemble_tool_calls stream in
  (∀ turn w', collect_stream observer context summarize stream w = (Ok turn, w') →
     Forall (λ i, sound i = true) items ∧
     at_content turn = then_some (texts items) ∧
     at_reasoning turn = then_some (reasonings items) ∧
     at_tool_calls turn = ended_calls items ∧
     input_tokens (at_usage turn) = foldl Z.max 0%Z (prompt_counts items) ∧
     output_tokens (at_usage turn) = foldl Z.max 0%Z (completion_counts items) ∧
     at_finish_reason turn = last (finish_reasons items)) ∧
  collect_stream observer context summarize items w = collect_stream observer context summarize stream w ∧
  (accepts → Forall (λ i, sound i = true) items →
   ∃ turn w', collect_stream observer context summarize stream w = (Ok turn, w')).
Proof.
  intros items. unfold collect_stream. fold items. split_and!.
  - intros turn w'. destruct (collect_items _ _ _ _ items w) as [[c|e] w1] eqn:E; [|done].
    intros [= <- <-]. apply collect_items_spec in E as (Hs&Ht&Hr&Hc&Hi&Ho&Hf).
    split; [done|]. cbn. rewrite Ht, Hr, Hc, Hi, Ho, Hf. split_and!; try done. by destruct (last _).
  - unfold items. by rewrite assembling_twice.
  - intros Ha Hs. destruct (collect_items_ends collected_new items w Ha Hs) as (c&w'&->). by repeat eexists.
Qed.
End turn.

(** ** Witnesses *)

(** The sample text in three fragments, the second of which ends within a string, among fragments of
    another call; then the end of the stream, twice. *)
Definition sample_fragments : list string := ["{"; quote +:+ "a"; quote +:+ ":1}"].
Definition sample_stream : list item :=
  [Ok (Ev.ToolCallStart "tool-call-0" "read"); Ok (Ev.ToolCallStart "tool-call-1" "grep");
   Ok (Ev.ToolCallDelta "tool-call-0" "{"); Ok (Ev.TextDelta "so"); Ok (Ev.ToolCallDelta "tool-call-1" "{");
   Ok (Ev.ToolCallDelta "tool-call-0" (quote +:+ "a")); Err Perr.Timeout;
   Ok (Ev.ToolCallDelta "tool-call-0" (quote +:+ ":1}")); Ok Ev.Done; Ok Ev.Done].

Lemma tool_calls_end_once_witness :
  @call_ends "tool-call-0" (@assemble_tool_calls sample_libraries sample_stream) = [("read", sample_value)] ∧
  @call_ends "tool-call-1" (@assemble_tool_calls sample_libraries sample_stream) = [("grep", JString "{")].
Proof.
  split.
  - destruct (@tool_calls_end_once sample_libraries sample_stream "tool-call-0" "read" sample_fragments 2
      sample_laws ltac:(vm_compute; reflexivity)) as [H _].
    apply H. vm_compute. reflexivity.
  - destruct (@tool_calls_end_once sample_libraries sample_stream "tool-call-1" "grep" ["{"] 2
      sample_laws ltac:(vm_compute; reflexivity)) as (_&H&_).
    rewrite H; [vm_compute; reflexivity|by vm_compute|].
    intros p q E. destruct p as [|c p]; [vm_compute; reflexivity|].
    injection E as <- E. destruct p; [vm_compute; reflexivity|done].
Defined.

(** An observer that accepts everything and counts. *)
Definition counting_observer : StreamObserver nat := {|
  so_text_delta := λ _ _ n, (Ok tt, S n);
  so_reasoning_delta := λ _ _ _ n, (Ok tt, S n);
  so_tool_input_delta := λ _ _ _ _ n, (Ok tt, S n) |}.
Definition sample_context : AgentObservationContext :=
  {| oc_node_path := "main"; oc_agent := "build"; oc_step := 1; oc_max_steps := 4 |}.
Definition quiet_stream : list item :=
  [Ok (Ev.TextDelta "so"); Ok (Ev.ToolCallStart "tool-call-0" "read");
   Ok (Ev.ToolCallDelta "tool-call-0" sample_text); Ok Ev.Done].

Lemma turn_holds_the_stream_witness :
  ∃ turn w', @collect_stream sample_libraries nat ProviderError counting_observer sample_context id quiet_stream 0 =
      (Ok turn, w') ∧
    at_content turn = Some "so" ∧ (tc_arguments <$> at_tool_calls turn) = [sample_value].
Proof.
  destruct (@turn_holds_the_stream sample_libraries nat ProviderError counting_observer sample_context id
    quiet_stream 0) as (Hturn&_&Hends).
  destruct Hends as (turn&w'&E); [by split|by repeat constructor|].
  exists turn, w'. split; [exact E|]. destruct (Hturn turn w' E) as (_&Hc&_&Ht&_).
  rewrite Hc, Ht. split; vm_compute; reflexivity.
Defined.

(** A call of a tool without parameters, whose arguments are sent as an empty text: nothing ends it,
    and the turn has no call. *)
Example call_without_arguments_is_lost :
  @collect_stream sample_libraries nat ProviderError counting_observer sample_context id
    [Ok (Ev.ToolCallStart "tool-call-0" "list"); Ok (Ev.ToolCallDelta "tool-call-0" ""); Ok Ev.Done] 0 =
  (Ok (turn_of collected_new), 1).
Proof. vm_compute. reflexivity. Qed.
