(* ===== verification/Guards.v ===== *)
(** * Guards against a child that says or fails too much

    [agendao-tool-core/src/bounded_output.rs]: the pipes of a child are read to their ends, and of
    what they say together no more than a limit is kept.  Which pipe is read next, and how much of it,
    is up to the child and the runtime: the list of reads.

    [agendao-plugin/src/circuit_breaker.rs]: after as many failures as the threshold within a
    minute, calls of a plugin are held off for a while.  Instants and durations are numbers of
    nanoseconds; instants do not go backwards. *)

From Stdlib Require Import NArith Lia.
From S2P Require Import Prelude.
From stdpp Require Import options.

(** ** The output that is kept *)

Definition MAX_CAPTURED_OUTPUT_BYTES : N := 50 * 1024.
Definition MAX_CAPTURED_STREAM_BYTES : N := 50 * 1024.

(** [len()] *)
Definition len (s : string) : N := N.of_nat (String.length s).

Record BoundedOutput := {
  bo_stdout : string;
  bo_stderr : string;
  bo_stdout_truncated : bool;
  bo_stderr_truncated : bool;
}.

(** [BoundedOutput::default()] *)
Definition bounded_default : BoundedOutput := {|
  bo_stdout := ""; bo_stderr := ""; bo_stdout_truncated := false; bo_stderr_truncated := false |}.

(** [BoundedOutput::truncated] *)
Definition bounded_truncated (b : BoundedOutput) : bool := bo_stdout_truncated b || bo_stderr_truncated b.

(** [append_bounded]: the target and its flag *)
Definition append_bounded (target : string) (truncated : bool) (bytes : string) (other_len : N)
    : string * bool :=
  let stream_remaining := (MAX_CAPTURED_STREAM_BYTES - len target)%N in
  let total_remaining := (MAX_CAPTURED_OUTPUT_BYTES - (len target + other_len))%N in
  let retain := N.min (N.min (len bytes) stream_remaining) total_remaining in
  (target +:+ str_take (N.to_nat retain) bytes,
   if bool_decide (retain ≠ len bytes) then true else truncated).

(** [append_stdout] and [append_stderr] *)
Definition append_stdout (bytes : string) (b : BoundedOutput) : BoundedOutput :=
  let '(out, truncated) := append_bounded (bo_stdout b) (bo_stdout_truncated b) bytes (len (bo_stderr b)) in
  {| bo_stdout := out; bo_stderr := bo_stderr b;
     bo_stdout_truncated := truncated; bo_stderr_truncated := bo_stderr_truncated b |}.
Definition append_stderr (bytes : string) (b : BoundedOutput) : BoundedOutput :=
  let '(err, truncated) := append_bounded (bo_stderr b) (bo_stderr_truncated b) bytes (len (bo_stdout b)) in
  {| bo_stdout := bo_stdout b; bo_stderr := err;
     bo_stdout_truncated := bo_stdout_truncated b; bo_stderr_truncated := truncated |}.

Inductive pipe := Stdout | Stderr.

Section drain.
Context {E : Type}.

(** [drain_piped_output]: a read of no bytes is the end of a pipe, and a pipe that has ended is not read
    again; [None] while a read is awaited. *)
Fixpoint drain_piped_output (reads : list (pipe * result E string)) (output : BoundedOutput)
    (stdout_open stderr_open : bool) : option (result E BoundedOutput) :=
  if negb (stdout_open || stderr_open) then Some (Ok output)
  else match reads with
       | [] => None
       | (Stdout, r) :: reads =>
           if stdout_open then
             match r with
             | Err e => Some (Err e)
             | Ok EmptyString => drain_piped_output reads output false stderr_open
             | Ok bytes => drain_piped_output reads (append_stdout bytes output) stdout_open stderr_open
             end
           else drain_piped_output reads output stdout_open stderr_open
       | (Stderr, r) :: reads =>
           if stderr_open then
             match r with
             | Err e => Some (Err e)
             | Ok EmptyString => drain_piped_output reads output stdout_open false
             | Ok bytes => drain_piped_output reads (append_stderr bytes output) stdout_open stderr_open
             end
           else drain_piped_output reads output stdout_open stderr_open
       end.

(** All a pipe says until it ends. *)
Fixpoint said (p : pipe) (reads : list (pipe * result E string)) : string :=
  match reads with
  | [] => ""
  | (Stdout, Ok bytes) :: reads =>
      match p with
      | Stdout => if bool_decide (bytes = "") then "" else bytes +:+ said p reads
      | Stderr => said p reads
      end
  | (Stderr, Ok bytes) :: reads =>
      match p with
      | Stderr => if bool_decide (bytes = "") then "" else bytes +:+ said p reads
      | Stdout => said p reads
      end
  | (_, Err _) :: reads => said p reads
  end.

(** What is kept of [out] and [err]: a beginning of each, as much as the limit allows, and flags that
    say what is missing. *)
Definition keeps (b : BoundedOutput) (out err : string) : Prop :=
  starts_with (bo_stdout b) out = true ∧ starts_with (bo_stderr b) err = true ∧
  (len (bo_stdout b) + len (bo_stderr b) = N.min MAX_CAPTURED_OUTPUT_BYTES (len out + len err))%N ∧
  (bo_stdout_truncated b = true ↔ bo_stdout b ≠ out) ∧
  (bo_stderr_truncated b = true ↔ bo_stderr b ≠ err).

Lemma len_app a b : len (a +:+ b) = (len a + len b)%N.
Proof. unfold len. rewrite str_length_app. lia. Qed.

Lemma len_prefix a b : starts_with a b = true → (len a ≤ len b)%N ∧ (len a = len b → a = b).
Proof.
  intros [t ->]%starts_with_true. rewrite len_app. split; [lia|]. intros H.
  assert (len t = 0%N) as Ht by lia. destruct t; [by rewrite str_app_nil_r|done].
Qed.

Lemma str_take_length n s : n ≤ String.length s → String.length (str_take n s) = n.
Proof.
  revert s. induction n as [|n IH]; intros [|c s]; simpl; try done; try lia. intros. f_equal. apply IH. lia.
Qed.
Lemma str_take_all s : str_take (String.length s) s = s.
Proof. induction s as [|c s IH]; simpl; [done|by f_equal]. Qed.

(** One pipe among the two: [target] of what is [whole] so far, [other] of [other_whole]. *)
Lemma append_bounded_keeps target truncated bytes whole other other_whole :
  starts_with target whole = true → starts_with other other_whole = true →
  (len target + len other = N.min MAX_CAPTURED_OUTPUT_BYTES (len whole + len other_whole))%N →
  (truncated = true ↔ target ≠ whole) →
  let '(target', truncated') := append_bounded target truncated bytes (len other) in
  starts_with target' (whole +:+ bytes) = true ∧
  (len target' + len other = N.min MAX_CAPTURED_OUTPUT_BYTES (len (whole +:+ bytes) + len other_whole))%N ∧
  (truncated' = true ↔ target' ≠ whole +:+ bytes).
Proof.
  intros Ht Ho Hlen Htr. unfold append_bounded.
  set (retain := N.min _ _). set (kept := str_take (N.to_nat retain) bytes).
  destruct (len_prefix _ _ Ht) as [Hle Heq], (len_prefix _ _ Ho) as [Hleo _].
  assert (len kept = retain) as Hkept.
  { unfold kept, len. rewrite str_take_length; [lia|]. unfold retain, len. lia. }
  assert (MAX_CAPTURED_STREAM_BYTES = MAX_CAPTURED_OUTPUT_BYTES) as Hmax by done.
  assert (len target < len whole → retain = 0)%N as Hfull by (unfold retain; lia).
  assert (target = whole ∨ kept = "") as Hcase.
  { destruct (decide (len target = len whole)) as [|Hne]; [left; by apply Heq|right].
    rewrite Hfull in Hkept by lia. unfold kept in *. by destruct (str_take _ _). }
  assert (starts_with (target +:+ kept) (whole +:+ bytes) = true) as Hpre.
  { apply starts_with_true. destruct Hcase as [<- |Hk].
    - exists (str_drop (N.to_nat retain) bytes). rewrite str_app_assoc. unfold kept. by rewrite str_take_drop.
    - rewrite Hk, str_app_nil_r. apply starts_with_true in Ht as [t ->]. exists (t +:+ bytes).
      by rewrite str_app_assoc. }
  split; [exact Hpre|]. rewrite !len_app, Hkept. split; [unfold retain; lia|].
  destruct (len_prefix _ _ Hpre) as [_ Heq']. rewrite !len_app, Hkept in Heq'.
  case_bool_decide as Hr.
  - split; [|done]. intros _ Q. apply (f_equal len) in Q. rewrite !len_app, Hkept in Q. unfold retain in *. lia.
  - rewrite Htr. split.
    + intros Hne Q. apply (f_equal len) in Q. rewrite !len_app, Hkept in Q. apply Hne, Heq. lia.
    + intros Hne ->. apply Hne, Heq'. lia.
Qed.

Lemma append_stdout_keeps b bytes out err : keeps b out err → keeps (append_stdout bytes b) (out +:+ bytes) err.
Proof.
  intros (Ho&He&Hl&Hto&Hte). unfold keeps, append_stdout.
  pose proof (append_bounded_keeps _ _ bytes _ _ _ Ho He Hl Hto) as H.
  destruct (append_bounded _ _ _ _) as [t f]. cbn. by destruct H as (?&?&?).
Qed.

Lemma append_stderr_keeps b bytes out err : keeps b out err → keeps (append_stderr bytes b) out (err +:+ bytes).
Proof.
  intros (Ho&He&Hl&Hto&Hte). unfold keeps, append_stderr. rewrite N.add_comm, (N.add_comm (len out)) in Hl.
  pose proof (append_bounded_keeps _ _ bytes _ _ _ He Ho Hl Hte) as H.
  destruct (append_bounded _ _ _ _) as [t f]. cbn. destruct H as (?&?&?).
  rewrite N.add_comm, (N.add_comm (len out)). done.
Qed.

(** What an open pipe still says. *)
Definition still (p : pipe) (is_open : bool) reads : string := if is_open then said p reads else "".

Lemma drain_keeps reads b o e out err res :
  keeps b out err → drain_piped_output reads b o e = Some (Ok res) →
  keeps res (out +:+ still Stdout o reads) (err +:+ still Stderr e reads).
Proof.
  revert b o e out err. induction reads as [|[p r] reads IH]; intros b o e out err Hk.
  { cbn [drain_piped_output]. destruct o, e; try done. intros [= <-]. cbn. by rewrite !str_app_nil_r. }
  cbn [drain_piped_output]. destruct (negb (o || e)) eqn:Hoe.
  { destruct o, e; try done. intros [= <-]. cbn [still]. by rewrite !str_app_nil_r. }
  destruct p, r as [bytes|x]; [|destruct o; [done|]| |destruct e; [done|]];
    [..|intros H; specialize (IH _ _ _ _ _ Hk H); exact IH].
  - destruct o; [destruct bytes as [|c bytes]|].
    + intros H. specialize (IH _ _ _ _ _ Hk H). exact IH.
    + intros H. specialize (IH _ _ _ _ _ (append_stdout_keeps _ (String c bytes) _ _ Hk) H).
      rewrite str_app_assoc in IH. exact IH.
    + intros H. specialize (IH _ _ _ _ _ Hk H). exact IH.
  - intros H. specialize (IH _ _ _ _ _ Hk H). exact IH.
  - destruct e; [destruct bytes as [|c bytes]|].
    + intros H. specialize (IH _ _ _ _ _ Hk H). exact IH.
    + intros H. specialize (IH _ _ _ _ _ (append_stderr_keeps _ (String c bytes) _ _ Hk) H).
      rewrite str_app_assoc in IH. exact IH.
    + intros H. specialize (IH _ _ _ _ _ Hk H). exact IH.
Qed.

(** Reading that has ended well has seen the ends of the pipes that were open. *)
Lemma drain_ended reads b o e res : drain_piped_output reads b o e = Some (Ok res) →
  (o = true → (Stdout, Ok "") ∈ reads) ∧ (e = true → (Stderr, Ok "") ∈ reads).
Proof.
  revert b o e. induction reads as [|[p r] reads IH]; intros b o e; cbn [drain_piped_output].
  { by destruct o, e. }
  destruct (negb (o || e)) eqn:Hoe; [by destruct o, e|].
  destruct p; [destruct o|destruct e]; try (destruct r as [[|c bytes]|x]; try done);
    intros H; destruct (IH _ _ _ H); (split; intros; [|]); first [by left|right; by auto].
Qed.

Lemma drain_ends reads b o e :
  (o = true → (Stdout, Ok "") ∈ reads) → (e = true → (Stderr, Ok "") ∈ reads) →
  ∃ r, drain_piped_output reads b o e = Some r ∧ (Forall (λ pr, is_ok pr.2 = true) reads → is_ok r = true).
Proof.
  revert b o e. induction reads as [|[p r] reads IH]; intros b o e Ho He.
  { destruct o; [specialize (Ho eq_refl); by apply elem_of_nil in Ho|].
    destruct e; [specialize (He eq_refl); by apply elem_of_nil in He|]. by eexists. }
  cbn [drain_piped_output]. destruct (negb (o || e)); [by eexists|].
  assert (∀ b o' e', (o' = true → o = true ∧ (Stdout, Ok "") ≠ (p, r)) →
                     (e' = true → e = true ∧ (Stderr, Ok "") ≠ (p, r)) →
    ∃ x, drain_piped_output reads b o' e' = Some x ∧ (Forall (λ pr, is_ok pr.2 = true) ((p, r) :: reads) → is_ok x = true))
    as Hnext.
  { intros b' o' e' Ho' He'. destruct (IH b' o' e') as (x&Hx&Hok).
    - intros Hq. destruct (Ho' Hq) as [Hq' Hne]. by destruct (proj1 (elem_of_cons _ _ _) (Ho Hq')).
    - intros Hq. destruct (He' Hq) as [Hq' Hne]. by destruct (proj1 (elem_of_cons _ _ _) (He Hq')).
    - exists x. split; [done|]. intros Hall. inversion Hall; subst. by apply Hok. }
  destruct p; [destruct o|destruct e]; try (apply Hnext; by intros ?; split; [|intros [=]]);
    (destruct r as [[|c bytes]|x]; [apply Hnext; by intros ?; split|apply Hnext; by intros ?; split|]);
    eexists; (split; [done|]); intros Hall; by inversion Hall.
Qed.

(** C39. The output of a tool is bounded and honest. Whatever order the two pipes of a child are read in,
    and in whatever pieces: what is kept of each pipe is a beginning of what it said, together it is
    everything or, if that is more than the limit, as many bytes as the limit, and a pipe is marked
    as truncated exactly if something of it is missing. One pipe can take the whole limit: the limit
    of a single stream equals that of both together, so the promise of the source that it keeps one
    noisy stream from starving the other does not hold (a recorded finding; if the first pipe alone
    says as much as the limit before the other says anything, nothing of the other is kept). Reading
    goes on past the limit: it ends if and only when both pipes have ended, or with an error of a
    read. *)
Theorem output_is_bounded reads :
  (∀ res, drain_piped_output reads bounded_default true true = Some (Ok res) →
     starts_with (bo_stdout res) (said Stdout reads) = true ∧
     starts_with (bo_stderr res) (said Stderr reads) = true ∧
     (len (bo_stdout res) + len (bo_stderr res) =
      N.min MAX_CAPTURED_OUTPUT_BYTES (len (said Stdout reads) + len (said Stderr reads)))%N ∧
     (bo_stdout_truncated res = true ↔ bo_stdout res ≠ said Stdout reads) ∧
     (bo_stderr_truncated res = true ↔ bo_stderr res ≠ said Stderr reads) ∧
     (Stdout, Ok "") ∈ reads ∧ (Stderr, Ok "") ∈ reads) ∧
  ((Stdout, Ok "") ∈ reads → (Stderr, Ok "") ∈ reads →
   ∃ r, drain_piped_output reads bounded_default true true = Some r ∧
        (Forall (λ pr, is_ok pr.2 = true) reads → is_ok r = true)).
Proof.
  split.
  - intros res H. assert (keeps bounded_default "" "") as Hk by (split_and!; try done; split; done).
    destruct (drain_keeps _ _ _ _ _ _ _ Hk H) as (?&?&?&?&?). cbn in *.
    destruct (drain_ended _ _ _ _ _ H) as [? ?]. split_and!; auto.
  - intros Ho He. by apply drain_ends.
Qed.
End drain.

(** A child that says more than the limit on its first pipe, then something on the second. *)
Fixpoint repeated (n : nat) (c : Ascii.ascii) : string :=
  match n with O => "" | S n => String c (repeated n c) end.
Definition noisy_reads : list (pipe * result string string) :=
  replicate 7 (Stdout, Ok (repeated (8 * 1024) (Ascii.ascii_of_nat 97))) ++
  [(Stderr, Ok "error"); (Stdout, Ok ""); (Stderr, Ok "")].

Lemma output_is_bounded_witness :
  ∃ res, drain_piped_output noisy_reads bounded_default true true = Some (Ok res) ∧
    (len (bo_stdout res) + len (bo_stderr res) = 50 * 1024)%N ∧ bo_stderr_truncated res = true.
Proof.
  destruct (output_is_bounded noisy_reads) as [Hkeeps Hends].
  destruct Hends as (r&Hr&Hok); [apply elem_of_app; right; rewrite !elem_of_cons; auto..|].
  destruct r as [res|e]; [|by assert (false = true) by (apply Hok; repeat constructor)].
  exists res. split; [exact Hr|]. destruct (Hkeeps res Hr) as (_&_&Hlen&_).
  split; [rewrite Hlen; vm_compute; reflexivity|].
  assert (match drain_piped_output noisy_reads bounded_default true true with
          | Some (Ok res) => bo_stderr_truncated res | _ => false end = true) as Hflag by (vm_compute; reflexivity).
  rewrite Hr in Hflag. exact Hflag.
Defined.

(** ** The circuit breaker of plugins *)

Record CircuitBreaker := {
  cb_failures : list N;
  cb_threshold : nat;
  cb_window : N;
  cb_tripped_until : option N;
  cb_cooldown : N;
}.

(** [Duration::from_secs(60)] *)
Definition minute : N := 60 * 10 ^ 9.

(** [CircuitBreaker::new] *)
Definition breaker_new (threshold : nat) (cooldown : N) : CircuitBreaker := {|
  cb_failures := []; cb_threshold := threshold; cb_window := minute; cb_tripped_until := None;
  cb_cooldown := cooldown |}.

(** [is_tripped] at an instant *)
Definition is_tripped (now : N) (cb : CircuitBreaker) : bool :=
  match cb_tripped_until cb with Some until => (now <? until)%N | None => false end.

(** The loop that drops failures from the front; [duration_since] saturates. *)
Fixpoint drop_old (window now : N) (failures : list N) : list N :=
  match failures with
  | t :: failures' => if (window <? now - t)%N then drop_old window now failures' else failures
  | [] => []
  end.

(** [record_failure] *)
Definition record_failure (now : N) (cb : CircuitBreaker) : CircuitBreaker :=
  let failures := drop_old (cb_window cb) now (cb_failures cb ++ [now]) in {|
    cb_failures := failures;
    cb_threshold := cb_threshold cb;
    cb_window := cb_window cb;
    cb_tripped_until := if cb_threshold cb <=? length failures then Some (now + cb_cooldown cb)%N
                        else cb_tripped_until cb;
    cb_cooldown := cb_cooldown cb |}.

(** [record_success] *)
Definition record_success (cb : CircuitBreaker) : CircuitBreaker := {|
  cb_failures := []; cb_threshold := cb_threshold cb; cb_window := cb_window cb;
  cb_tripped_until := None; cb_cooldown := cb_cooldown cb |}.

Inductive outcome := Failed (at_ : N) | Succeeded.

Definition record (cb : CircuitBreaker) (o : outcome) : CircuitBreaker :=
  match o with Failed now => record_failure now cb | Succeeded => record_success cb end.

(** ** When the breaker holds calls off *)

(** The failures since the last success, oldest first. *)
Definition add_outcome (failures : list N) (o : outcome) : list N :=
  match o with Failed now => failures ++ [now] | Succeeded => [] end.
Definition recent_failures (history : list outcome) : list N := foldl add_outcome [] history.

(** Those of [failures] that are within the window before [now]. *)
Definition within (now : N) (failures : list N) : list N :=
  filter (λ t, (now - t ≤ minute)%N) failures.

(** A failure [f] after [before] that has the breaker trip. *)
Definition trips (threshold : nat) (before : list N) (f : N) : Prop :=
  threshold ≤ length (within f (before ++ [f])).

Definition trips_at (threshold : nat) (failures : list N) (f : N) : Prop :=
  ∃ before after, failures = before ++ f :: after ∧ trips threshold before f.

Lemma within_sorted now l : StronglySorted N.le l → drop_old minute now l = within now l.
Proof.
  induction 1 as [|t l Hs IH Ht]; [done|]. cbn [drop_old]. unfold within. rewrite filter_cons.
  destruct (N.ltb_spec minute (now - t)); [rewrite decide_False by lia; apply IH|].
  rewrite decide_True by lia. f_equal. clear IH Hs. induction Ht as [|u l Hu _ IH]; [done|].
  rewrite filter_cons, decide_True by lia. by f_equal.
Qed.

Lemma within_none now l : Forall (λ t, (minute < now - t)%N) l → within now l = [].
Proof.
  induction 1 as [|t l Ht _ IH]; [done|]. unfold within in *. rewrite filter_cons, decide_False; [done|lia].
Qed.

Lemma within_app now l k : within now (l ++ k) = within now l ++ within now k.
Proof. apply filter_app. Qed.

Lemma within_drops now l : StronglySorted N.le l →
  ∃ old, l = old ++ within now l ∧ Forall (λ t, (minute < now - t)%N) old.
Proof.
  intros Hs. rewrite <- within_sorted by done. clear Hs. induction l as [|t l IH]; [by exists []|].
  cbn [drop_old]. destruct (N.ltb_spec minute (now - t)) as [Ht|]; [|by exists []].
  destruct IH as (old&E&Hold). exists (t :: old). split; [cbn; by f_equal|by constructor].
Qed.

Lemma trips_at_snoc threshold l x f :
  trips_at threshold (l ++ [x]) f ↔ trips_at threshold l f ∨ (f = x ∧ trips threshold l x).
Proof.
  split.
  - intros (before&after&E&H). destruct after as [|y after _] using rev_ind.
    + apply app_inj_tail in E as [-> ->]. by right.
    + left. exists before, after. rewrite app_comm_cons, app_assoc in E. by apply app_inj_tail in E as [-> _].
  - intros [(before&after&->&H)|[-> H]]; [exists before, (after ++ [x])|by exists l, []].
    by rewrite <- app_assoc.
Qed.

Lemma sorted_snoc (l : list N) x : StronglySorted N.le (l ++ [x]) ↔ StronglySorted N.le l ∧ Forall (λ t, (t ≤ x)%N) l.
Proof.
  split.
  - induction l as [|y l IH]; cbn; intros H; [split; constructor|].
    inversion H as [|? ? Hs Hy]; subst. destruct (IH Hs). apply Forall_app in Hy as [? Hx].
    inversion Hx; subst. split; by constructor.
  - intros [Hs Hx]. induction Hs as [|y l Hs IH Hy]; cbn; [by repeat constructor|].
    inversion Hx; subst. constructor; [by apply IH|]. apply Forall_app. split; [done|by repeat constructor].
Qed.

(** What the breaker knows of the failures since the last success. *)
Record knows (threshold : nat) (cooldown : N) (failures : list N) (cb : CircuitBreaker) : Prop := {
  knows_config : cb_threshold cb = threshold ∧ cb_window cb = minute ∧ cb_cooldown cb = cooldown;
  knows_failures : ∃ old, failures = old ++ cb_failures cb ∧
    ∀ now, Forall (λ t, (t ≤ now)%N) failures → Forall (λ t, (minute < now - t)%N) old;
  knows_trip : match cb_tripped_until cb with
               | Some until => ∃ f, until = (f + cooldown)%N ∧ trips_at threshold failures f ∧
                                    ∀ g, trips_at threshold failures g → (g ≤ f)%N
               | None => ∀ f, ¬ trips_at threshold failures f
               end;
}.

Lemma failure_known threshold cooldown failures cb now :
  StronglySorted N.le (failures ++ [now]) → knows threshold cooldown failures cb →
  knows threshold cooldown (failures ++ [now]) (record_failure now cb).
Proof.
  intros Hs [(Ht&Hw&Hc) (old&Hf&Hold) Htrip]. apply sorted_snoc in Hs as Hs'. destruct Hs' as [_ Hle].
  assert (drop_old (cb_window cb) now (cb_failures cb ++ [now]) = within now (failures ++ [now])) as Hdrop.
  { rewrite Hw. rewrite Hf in Hs |- *. rewrite <- app_assoc in Hs |- *.
    rewrite within_app, (within_none now old), within_sorted; [done| |by apply Hold].
    clear -Hs. induction old as [|t old IH]; [done|]. inversion Hs; subst. by apply IH. }
  split; cbn.
  - done.
  - rewrite Hdrop. destruct (within_drops now _ Hs) as (dropped&E&Hd). exists dropped. split; [done|].
    intros now' Hnow'. apply Forall_app in Hnow' as [_ Hn]. inversion Hn; subst.
    eapply Forall_impl; [exact Hd|]. cbn. lia.
  - rewrite Hdrop, Ht, Hc. destruct (Nat.leb_spec threshold (length (within now (failures ++ [now])))) as [Hge|Hlt].
    + exists now. split; [done|]. split; [apply trips_at_snoc; by right|].
      intros g [(before&after&->&_)|[-> _]]%trips_at_snoc; [|done].
      apply Forall_app in Hle as [_ Hle]. by inversion Hle.
    + assert (¬ trips threshold failures now) as Hno by (unfold trips; lia).
      destruct (cb_tripped_until cb) as [until|].
      * destruct Htrip as (f&->&Hat&Hmax). exists f. split; [done|]. split; [apply trips_at_snoc; by left|].
        intros g [Hg|[_ Hg]]%trips_at_snoc; [by apply Hmax|done].
      * intros f [Hg|[_ Hg]]%trips_at_snoc; [by eapply Htrip|done].
Qed.

Lemma breaker_knows threshold cooldown history :
  (∀ n, StronglySorted N.le (recent_failures (take n history))) →
  knows threshold cooldown (recent_failures history) (foldl record (breaker_new threshold cooldown) history).
Proof.
  induction history as [|o history IH] using rev_ind; intros Hs.
  - split; [done|by exists []|]. intros f (before&after&E&_). by destruct before.
  - unfold recent_failures in *. rewrite !foldl_snoc.
    assert (∀ n, StronglySorted N.le (foldl add_outcome [] (take n history))) as Hs'.
    { intros n. destruct (decide (n ≤ length history)).
      - specialize (Hs n). by rewrite take_app_le in Hs.
      - rewrite take_ge by lia. specialize (Hs (length history)).
        by rewrite take_app_le, take_ge in Hs by lia. }
    specialize (IH Hs'). destruct o as [now|]; cbn.
    + apply failure_known; [|done]. specialize (Hs (S (length history))).
      rewrite take_ge in Hs by (rewrite length_app; cbn; lia). by rewrite foldl_snoc in Hs.
    + destruct IH as [Hconfig _ _]. split; [done|by exists []|]. intros f (before&after&E&_). by destruct before.
Qed.

(** The breaker holds a call off exactly if, since the last success, there was a failure with enough
    others in the minute before it, and the cooldown after it is not over. *)
Lemma breaker_trips_exactly threshold cooldown history now :
  (∀ n, StronglySorted N.le (recent_failures (take n history))) →
  is_tripped now (foldl record (breaker_new threshold cooldown) history) = true ↔
  ∃ f, trips_at threshold (recent_failures history) f ∧ (now < f + cooldown)%N.
Proof.
  intros Hs. destruct (breaker_knows threshold cooldown history Hs) as [_ _ Htrip]. unfold is_tripped.
  destruct (cb_tripped_until _) as [until|].
  - destruct Htrip as (f&->&Hat&Hmax). rewrite N.ltb_lt. split; [intros ?; by exists f|].
    intros (g&Hg&?). specialize (Hmax g Hg). lia.
  - split; [done|]. intros (f&Hf&_). by destruct (Htrip f).
Qed.

(** Three failures within a minute, a call half a minute later and one after the cooldown. *)
Lemma breaker_trips_exactly_witness :
  let history := [Failed 0; Succeeded; Failed (10 ^ 9); Failed (2 * 10 ^ 9); Failed (3 * 10 ^ 9)]%N in
  is_tripped (33 * 10 ^ 9) (foldl record (breaker_new 3 minute) history) = true ∧
  ∃ f, trips_at 3 (recent_failures history) f ∧ (33 * 10 ^ 9 < f + minute)%N.
Proof.
  intros history. split; [vm_compute; reflexivity|].
  apply (breaker_trips_exactly 3 minute history (33 * 10 ^ 9)); [|vm_compute; reflexivity].
  intros n. do 6 (destruct n as [|n]; [repeat constructor; vm_compute; discriminate|]).
  repeat constructor; vm_compute; discriminate.
Defined.
