(* ===== verification/Codec.v ===== *)
(** * Frames of child processes

    [agendao-core/src/codec.rs]: messages to and from plugins and MCP servers, each behind a header
    that says how long it is.  A reader is the list of bytes that are still to come, with the
    end of the pipe after them. *)

From Stdlib Require Import NArith ZArith Lia DecimalString DecimalN.
From S2P Require Import Prelude TextLines FileSystem Json JsonText ApplyPatch.
From stdpp Require Import options.

Inductive IoKind := InvalidData | UnexpectedEof.

(** [CodecError]; a protocol error is its cause instead of its text. *)
Inductive ProtocolCause := InvalidContentLength (text : string) | MissingContentLength.
Inductive CodecError :=
| Io (kind : IoKind)
| Serialize
| Protocol (cause : ProtocolCause)
| ConnectionClosed.

(** What a call of [read_frame] comes to: a value and the reader after it, an error, or the panic
    of an allocation beyond [isize::MAX]. *)
Inductive read_outcome :=
| Received (v : Value) (rest : string)
| Failed (e : CodecError)
| Panicked.

(** [reader.read_line(&mut line)] on an empty line: up to a line feed or the end. *)
Fixpoint take_line (reader : string) : string * string :=
  match reader with
  | EmptyString => ("", "")
  | String c rest =>
      if bool_decide (c = newline) then (nl, rest)
      else let '(line, rest) := take_line rest in (String c line, rest)
  end.

Definition header_name : string := "Content-Length:".

(** The loop over the headers; the fuel is more than the lines that can be read. *)
Fixpoint read_headers (fuel : nat) (reader : string) (content_length : option Z)
    : result CodecError (option Z * string) :=
  match fuel with
  | O => Err ConnectionClosed
  | S fuel =>
      let '(line, rest) := take_line reader in
      reject? negb (valid_utf8 line) with Io InvalidData in
      reject? bool_decide (line = "") with ConnectionClosed in
      let trimmed := trim line in
      if bool_decide (trimmed = "") then Ok (content_length, rest)
      else match strip_prefix header_name trimmed with
           | Some value =>
               match parse_usize (trim value) with
               | Some n => read_headers fuel rest (Some n)
               | None => Err (Protocol (InvalidContentLength (trim value)))
               end
           | None => read_headers fuel rest content_length
           end
  end.

Section codec.
(** [serde_json::to_string] of a message and [serde_json::from_slice]; [None] is an error. *)
Context {T : Type} (to_string : T → option string) (from_slice : string → option Value).

(** [write_frame]: the bytes that are written. *)
Definition frame (content : string) : string :=
  "Content-Length: " +:+ dec_string (N.of_nat (String.length content)) +:+ cr +:+ nl +:+ cr +:+ nl +:+ content.
Definition write_frame (message : T) : result CodecError string :=
  let? content := ok_or (to_string message) Serialize in
  Ok (frame content).

(** [read_frame] *)
Definition read_frame (reader : string) : read_outcome :=
  match read_headers (S (String.length reader)) reader None with
  | Err e => Failed e
  | Ok (None, _) => Failed (Protocol MissingContentLength)
  | Ok (Some len, rest) =>
      if (2 ^ 63 - 1 <? len)%Z then Panicked
      else if (len <=? Z.of_nat (String.length rest))%Z then
        match from_slice (str_take (Z.to_nat len) rest) with
        | Some v => Received v (str_drop (Z.to_nat len) rest)
        | None => Failed Serialize
        end
      else Failed (Io UnexpectedEof)
  end.

(** ** What is written is read *)

Fixpoint no_line_feed (s : string) : bool :=
  match s with EmptyString => true | String c s => negb (bool_decide (c = newline)) && no_line_feed s end.

Lemma no_line_feed_app a b : no_line_feed (a +:+ b) = no_line_feed a && no_line_feed b.
Proof. induction a as [|c a IH]; [done|]. rewrite str_app_cons. cbn [no_line_feed]. by rewrite IH, andb_assoc. Qed.

Lemma take_line_feed a r : no_line_feed a = true → take_line (a +:+ nl +:+ r) = (a +:+ nl, r).
Proof.
  induction a as [|c a IH]; [done|]. rewrite !str_app_cons. cbn [no_line_feed take_line].
  intros [Hc%negb_true_iff Ha]%andb_prop. rewrite Hc, IH by done. done.
Qed.

Lemma take_line_end a : no_line_feed a = true → take_line a = (a, "").
Proof.
  induction a as [|c a IH]; [done|]. cbn [no_line_feed take_line].
  intros [Hc%negb_true_iff Ha]%andb_prop. by rewrite Hc, IH.
Qed.

(** Fuel beyond the length of the reader makes no difference. *)
Lemma take_line_length reader line rest : take_line reader = (line, rest) →
  String.length reader = String.length line + String.length rest.
Proof.
  revert line rest. induction reader as [|c r IH]; intros line rest; cbn [take_line]; [by intros [= <- <-]|].
  case_bool_decide; [by intros [= <- <-]|]. destruct (take_line r) as [l r']. intros [= <- <-].
  simpl. by rewrite (IH l r').
Qed.

Lemma headers_fuel f g reader cl : String.length reader < f → String.length reader < g →
  read_headers f reader cl = read_headers g reader cl.
Proof.
  revert g reader cl. induction f as [|f IH]; intros g reader cl Hf Hg; [lia|]. destruct g as [|g]; [lia|].
  cbn [read_headers]. destruct (take_line reader) as [line rest] eqn:E. apply take_line_length in E.
  destruct (negb _); [done|]. case_bool_decide as Hl; [done|].
  assert (String.length line ≠ 0) by (by destruct line).
  case_bool_decide; [done|]. destruct (strip_prefix _ _); [destruct (parse_usize _); [|done]|]; apply IH; lia.
Qed.

(** Plain text: graphic characters of one byte, and blanks between. *)
Definition ascii_text (s : string) : Prop := valid_utf8 s = true ∧ no_line_feed s = true.

Lemma uint_nil (n : Decimal.uint) : n = Decimal.Nil ∨ n ≠ Decimal.Nil.
Proof. destruct n; [by left|by right..]. Qed.

Lemma digits_text n : (∀ r, valid_utf8 (NilEmpty.string_of_uint n +:+ r) = valid_utf8 r) ∧
  no_line_feed (NilEmpty.string_of_uint n) = true ∧
  (∀ r, is_continuation r = false → is_continuation (NilEmpty.string_of_uint n +:+ r) = false) ∧
  (n ≠ Decimal.Nil → ∃ k d, NilEmpty.string_of_uint n = k +:+ String d "" ∧ JsonText.digit d = true).
Proof.
  induction n as [|n IH|n IH|n IH|n IH|n IH|n IH|n IH|n IH|n IH|n IH]; [split_and!; try done; by intros []|..].
  all: destruct IH as (Hu&Hn&_&Hd); cbn [NilEmpty.string_of_uint]; split_and!;
    [intros r; rewrite str_app_cons; exact (Hu r)|cbn [no_line_feed]; by rewrite Hn|done|];
    intros _; destruct (uint_nil n) as [-> |Hne]; [exists ""; eexists; split; [done|reflexivity]|];
    destruct (Hd Hne) as (k&d&->&?); eexists (String _ k), d; by split.
Qed.

(** A graphic character of one byte. *)
Definition visible (c : Ascii.ascii) : bool := byte_in 33 126 c.

Lemma visible_not_space c g : visible c = true → is_whitespace (String c g) = false.
Proof.
  intros Hc. apply bool_decide_eq_false. intros H. unfold white_space in H.
  repeat (apply elem_of_cons in H as [H|H]; [injection H as -> _; by vm_compute in Hc|]).
  by apply elem_of_nil in H.
Qed.

Lemma visible_not_continuation c s : visible c = true → is_continuation (String c s) = false.
Proof.
  unfold visible, byte_in, is_continuation. rewrite andb_true_iff, !Nat.leb_le. intros [_ H].
  apply andb_false_iff. left. apply N.leb_gt. unfold Ascii.nat_of_ascii in H. lia.
Qed.

(** Blanks around a text that starts and ends with graphic characters are trimmed. *)
Lemma trim_text w a m k b w' : json_blank w → json_blank w' → visible a = true → visible b = true →
  String a m = k +:+ String b "" → trim (w +:+ String a m +:+ w') = String a m.
Proof.
  intros Hw Hw' Ha Hb E. rewrite trim_strip.
  rewrite chars_app_ascii by (rewrite str_app_cons; by apply visible_not_continuation).
  rewrite chars_app_ascii by (by apply blank_not_continuation).
  assert (∃ g gs, chars (String a m) = String a g :: gs) as (g&gs&Ec).
  { cbn [chars]. destruct (is_continuation m), (chars m); by repeat eexists. }
  rewrite <- (str_concat_chars (String a m)) at 2. rewrite Ec. f_equal.
  apply strip_unique with (y := String b "");
    [by apply blank_whitespace|by apply blank_whitespace|by apply visible_not_space..|].
  rewrite <- Ec, E. exists (chars k). rewrite chars_app_ascii by (by apply visible_not_continuation).
  by rewrite chars_ascii.
Qed.

Lemma digit_visible d : JsonText.digit d = true → visible d = true.
Proof. unfold JsonText.digit, visible, byte_in. rewrite !andb_true_iff, !Nat.leb_le. lia. Qed.

(** The first line of a frame. *)
Definition header_line (n : N) : string := "Content-Length: " +:+ dec_string n +:+ cr.

Lemma header_line_text n : valid_utf8 (header_line n +:+ nl) = true ∧ no_line_feed (header_line n) = true.
Proof.
  unfold header_line, dec_string. destruct (digits_text (N.to_uint n)) as (Hu&Hl&_).
  split.
  - rewrite !str_app_assoc. transitivity (valid_utf8 (NilEmpty.string_of_uint (N.to_uint n) +:+ cr +:+ nl)); [done|].
    by rewrite Hu.
  - rewrite !no_line_feed_app, Hl. done.
Qed.

Lemma dec_string_ends n : ∃ a m k b, dec_string n = String a m ∧ String a m = k +:+ String b "" ∧
  visible a = true ∧ visible b = true.
Proof.
  unfold dec_string. destruct (digits_text (N.to_uint n)) as (_&_&_&Hd).
  destruct (Hd (to_uint_not_nil n)) as (k&d&E&Hdig).
  pose proof (to_uint_not_nil n) as Hnil.
  destruct (N.to_uint n) eqn:En; try done; cbn [NilEmpty.string_of_uint] in *;
    (eexists _, _, k, d; split; [reflexivity|]; split; [done|]; split; [reflexivity|by apply digit_visible]).
Qed.

Lemma header_line_trimmed n : trim (header_line n +:+ nl) = "Content-Length: " +:+ dec_string n.
Proof.
  destruct (dec_string_ends n) as (a&m&k&b&E&Ek&_&Hb). unfold header_line. rewrite !str_app_assoc, E.
  exact (trim_text "" (Ascii.ascii_of_nat 67) ("ontent-Length: " +:+ String a m) ("Content-Length: " +:+ k) b (cr +:+ nl)
    ltac:(constructor) ltac:(repeat constructor; vm_compute; set_solver) eq_refl Hb ltac:(rewrite Ek; by rewrite str_app_assoc)).
Qed.

Lemma header_value_trimmed n : trim (" " +:+ dec_string n) = dec_string n.
Proof.
  destruct (dec_string_ends n) as (a&m&k&b&->&Ek&Ha&Hb).
  rewrite <- (str_app_nil_r (String a m)) at 1.
  apply (trim_text " " a m k b ""); try done; repeat constructor; set_solver.
Qed.

Lemma parse_length_dec n : (n < 2 ^ 64)%N → parse_usize (dec_string n) = Some (Z.of_N n).
Proof.
  intros Hn. unfold parse_usize. assert (strip_prefix "+" (dec_string n) = None) as ->.
  { unfold dec_string. by destruct (N.to_uint n). }
  rewrite bool_decide_eq_false_2.
  - unfold dec_string. rewrite NilEmpty.usu, DecimalN.Unsigned.of_to.
    assert ((Z.of_N n <? 2 ^ 64)%Z = true) as -> by (apply Z.ltb_lt; lia). done.
  - destruct (dec_string_ends n) as (a&m&_&_&->&_). done.
Qed.

Lemma frame_line content :
  frame content = header_line (N.of_nat (String.length content)) +:+ nl +:+ (cr +:+ nl +:+ content).
Proof. unfold frame, header_line. by rewrite !str_app_assoc. Qed.

(** Reading the first line of a frame. *)
Lemma headers_first_line n rest fuel : (n < 2 ^ 64)%N →
  read_headers (S fuel) (header_line n +:+ nl +:+ rest) None = read_headers fuel rest (Some (Z.of_N n)).
Proof.
  intros Hn. destruct (header_line_text n) as [Hv Hl]. cbn [read_headers]. rewrite take_line_feed by done.
  rewrite Hv. cbn [negb]. rewrite (bool_decide_eq_false_2 (header_line n +:+ nl = "")) by done.
  rewrite header_line_trimmed. cbv zeta. rewrite bool_decide_eq_false_2 by done.
  change (strip_prefix header_name ("Content-Length: " +:+ dec_string n)) with (Some (" " +:+ dec_string n)).
  cbv beta iota. by rewrite header_value_trimmed, parse_length_dec.
Qed.

(** The reader after the first line of a frame of [n] bytes. *)
Definition read_body (n : Z) (reader : string) : read_outcome :=
  match read_headers (S (String.length reader)) reader (Some n) with
  | Err e => Failed e
  | Ok (None, _) => Failed (Protocol MissingContentLength)
  | Ok (Some len, rest) =>
      if (2 ^ 63 - 1 <? len)%Z then Panicked
      else if (len <=? Z.of_nat (String.length rest))%Z then
        match from_slice (str_take (Z.to_nat len) rest) with
        | Some v => Received v (str_drop (Z.to_nat len) rest)
        | None => Failed Serialize
        end
      else Failed (Io UnexpectedEof)
  end.

Lemma read_first_line n rest : (n < 2 ^ 64)%N →
  read_frame (header_line n +:+ nl +:+ rest) = read_body (Z.of_N n) rest.
Proof.
  intros Hn. unfold read_frame, read_body. rewrite headers_first_line by done.
  rewrite (headers_fuel _ (S (String.length rest))); [done| |lia].
  rewrite !str_length_app. change (String.length nl) with 1. lia.
Qed.

(** The empty line, and what follows it. *)
Lemma read_empty_line n rest : (n < 2 ^ 63)%N →
  read_body (Z.of_N n) (cr +:+ nl +:+ rest) =
  if (Z.of_N n <=? Z.of_nat (String.length rest))%Z then
    match from_slice (str_take (N.to_nat n) rest) with
    | Some v => Received v (str_drop (N.to_nat n) rest)
    | None => Failed Serialize
    end
  else Failed (Io UnexpectedEof).
Proof.
  intros Hn. unfold read_body. cbn [read_headers]. rewrite take_line_feed by done.
  change (valid_utf8 (cr +:+ nl)) with true. cbn [negb]. change (bool_decide (cr +:+ nl = "")) with false.
  cbv zeta. change (bool_decide (trim (cr +:+ nl) = "")) with true. cbv beta iota.
  assert ((2 ^ 63 - 1 <? Z.of_N n)%Z = false) as -> by (apply Z.ltb_ge; lia).
  by replace (Z.to_nat (Z.of_N n)) with (N.to_nat n) by lia.
Qed.

(** [n] calls of [read_frame] on one reader. *)
Fixpoint read_frames (n : nat) (reader : string) : option (list Value * string) :=
  match n with
  | O => Some ([], reader)
  | S n => match read_frame reader with
           | Received v rest => '(vs, rest) ← read_frames n rest; Some (v :: vs, rest)
           | _ => None
           end
  end.

(** What [write_frame] writes for messages, one after the other. *)
Definition write_frames (messages : list T) : result CodecError string :=
  fold_result (λ written m, let? f := write_frame m in Ok (written +:+ f)) "" messages.

Lemma write_frames_from messages written all :
  fold_result (λ written m, let? f := write_frame m in Ok (written +:+ f)) written messages = Ok all →
  ∃ contents, Forall2 (λ m c, to_string m = Some c) messages contents ∧
    all = written +:+ str_concat (frame <$> contents).
Proof.
  revert written. induction messages as [|m messages IH]; intros written; cbn [fold_result].
  - intros [= <-]. exists []. split; [constructor|]. cbn. by rewrite str_app_nil_r.
  - unfold write_frame at 1. destruct (to_string m) as [c|] eqn:Ec; [|done]. cbn [ok_or rbind].
    intros (contents&Hc&->)%IH. exists (c :: contents). split; [by constructor|].
    cbn. by rewrite str_app_assoc.
Qed.

Lemma read_one c v rest : from_slice c = Some v → (N.of_nat (String.length c) < 2 ^ 63)%N →
  read_frame (frame c +:+ rest) = Received v rest.
Proof.
  intros Hv Hlen. rewrite frame_line, !str_app_assoc, read_first_line by lia.
  rewrite read_empty_line by done. rewrite str_length_app.
  assert ((Z.of_N (N.of_nat (String.length c)) <=? Z.of_nat (String.length c + String.length rest))%Z = true) as ->
    by (apply Z.leb_le; lia).
  by rewrite Nat2N.id, str_take_app, str_drop_app, Hv.
Qed.

(** A reader that ends within its first line. *)
Lemma read_no_line p : no_line_feed p = true → ∃ e, read_frame p = Failed e.
Proof.
  intros Hp. unfold read_frame. cbn [read_headers]. rewrite take_line_end by done.
  destruct (negb _); [by eexists|]. case_bool_decide as Hne; [by eexists|]. cbv zeta.
  case_bool_decide; [by eexists|].
  assert (∃ f, String.length p = S f) as [f ->] by (destruct p; [done|by eexists]).
  destruct (strip_prefix _ _) as [value|]; [destruct (parse_usize _); [|by eexists]|]; by eexists.
Qed.

(** A reader that ends between the two bytes of the empty line. *)
Lemma read_carriage_return n : (0 < n < 2 ^ 63)%N → ∃ e, read_body (Z.of_N n) cr = Failed e.
Proof.
  intros Hn. unfold read_body. change (String.length cr) with 1. cbn [read_headers].
  change (take_line cr) with (cr, ""). cbv beta iota zeta.
  change (negb (valid_utf8 cr)) with false. change (bool_decide (cr = "")) with false.
  change (bool_decide (trim cr = "")) with true. cbv beta iota.
  assert ((2 ^ 63 - 1 <? Z.of_N n)%Z = false) as -> by (apply Z.ltb_ge; lia).
  assert ((Z.of_N n <=? Z.of_nat (String.length ""))%Z = false) as ->; [|by eexists].
  apply Z.leb_gt. simpl String.length. lia.
Qed.

Lemma read_cut c p q : frame c = p +:+ q → q ≠ "" → c ≠ "" → (N.of_nat (String.length c) < 2 ^ 63)%N →
  ∃ e, read_frame p = Failed e.
Proof.
  intros E Hq Hc Hlen. rewrite frame_line, <- str_app_assoc in E. symmetry in E.
  set (n := N.of_nat (String.length c)) in *.
  assert (0 < n)%N as Hn by (subst n; destruct c; [done|]; simpl String.length; lia).
  apply app_split in E as [(k&E&_)|(k&->&E)].
  - symmetry in E. apply app_split in E as [(k'&Ek&_)|(k'&->&Ek)].
    + apply read_no_line. pose proof (proj2 (header_line_text n)) as H.
      rewrite Ek, no_line_feed_app in H. by apply andb_prop in H as [? _].
    + destruct k' as [|x k']; [|].
      * rewrite str_app_nil_r. apply read_no_line, header_line_text.
      * assert (x = newline ∧ k' = "") as [-> ->].
        { change nl with (String newline "") in Ek. rewrite str_app_cons in Ek. injection Ek as <- Ek.
          split; [done|]. by destruct k'. }
        change (header_line n +:+ String newline "") with (header_line n +:+ nl +:+ "").
        rewrite read_first_line by lia. by eexists.
  - rewrite str_app_assoc, read_first_line by lia.
    symmetry in E. apply app_split in E as [(k'&Ek&_)|(k'&->&E)].
    + destruct k as [|x k]; [by eexists|]. rewrite str_app_cons in Ek. injection Ek as <- Ek.
      assert (k = "") as -> by (by destruct k). by apply read_carriage_return.
    + symmetry in E. apply app_split in E as [(k2&Ek&_)|(k2&->&E)].
      * destruct k' as [|x k']; [rewrite str_app_nil_r; by apply read_carriage_return|].
        change nl with (String newline "") in Ek. rewrite str_app_cons in Ek. injection Ek as <- Ek.
        assert (k' = "") as -> by (by destruct k').
        change (cr +:+ String newline "") with (cr +:+ nl +:+ ""). rewrite read_empty_line by done.
        assert ((Z.of_N n <=? Z.of_nat (String.length ""))%Z = false) as ->; [|by eexists].
        apply Z.leb_gt. simpl String.length. lia.
      * rewrite read_empty_line by done.
        assert ((Z.of_N n <=? Z.of_nat (String.length k2))%Z = false) as ->; [|by eexists].
        apply Z.leb_gt. subst n. rewrite E, str_length_app. destruct q; [done|]. simpl String.length. lia.
Qed.

(** C40. Frames read back. Whatever messages are written one after the other, a reader gets their values in
    that order, each from exactly its own bytes, and is left with what follows the last; and a frame that
    is cut off anywhere is an error, never another message and never a panic. The texts of the messages
    are not empty, parse to the values and are of a length an allocation may have. *)
Theorem frames_read_back (value_of : T → Value) messages written rest :
  (∀ m c, m ∈ messages → to_string m = Some c →
     from_slice c = Some (value_of m) ∧ c ≠ "" ∧ (N.of_nat (String.length c) < 2 ^ 63)%N) →
  write_frames messages = Ok written →
  read_frames (length messages) (written +:+ rest) = Some (value_of <$> messages, rest) ∧
  ∀ m p q, m ∈ messages → write_frame m = Ok (p +:+ q) → q ≠ "" → ∃ e, read_frame p = Failed e.
Proof.
  intros Hm Hw. split.
  - apply write_frames_from in Hw as (contents&Hc&->). change ("" +:+ ?s) with s. revert Hm.
    induction Hc as [|m c messages contents Hmc Hc IH]; intros Hm; [done|].
    destruct (Hm m c) as (Hp&Hne&Hlen); [by left|done|].
    change (str_concat (frame <$> c :: contents)) with (frame c +:+ str_concat (frame <$> contents)).
    cbn [length read_frames]. rewrite str_app_assoc, (read_one c _ _ Hp Hlen).
    rewrite IH; [done|]. intros m' c' Hm'. apply Hm. by right.
  - intros m p q Hin Hf Hq. unfold write_frame in Hf. destruct (to_string m) as [c|] eqn:Ec; [|done].
    injection Hf as E. destruct (Hm m c Hin Ec) as (_&Hne&Hlen). by eapply read_cut.
Qed.
End codec.

(** ** Examples *)

(** Two messages that are their own texts, before the header of a third. *)
Definition own_text (m : string) : option string := Some m.
Definition as_text (bytes : string) : option Value := Some (JString bytes).

Lemma frames_read_back_witness :
  let written := frame "ab" +:+ frame "{}" in
  read_frames as_text 2 (written +:+ "Content") = Some ([JString "ab"; JString "{}"], "Content") ∧
  ∃ e, read_frame as_text "Content-Length: 2" = Failed e.
Proof.
  destruct (frames_read_back own_text as_text JString ["ab"; "{}"] (frame "ab" +:+ frame "{}") "Content") as [H1 H2].
  - intros m c Hm [= <-]. split; [done|].
    apply elem_of_cons in Hm as [-> |Hm]; [split; [done|vm_compute; done]|].
    apply elem_of_cons in Hm as [-> |Hm]; [split; [done|vm_compute; done]|by apply elem_of_nil in Hm].
  - vm_compute. reflexivity.
  - split; [exact H1|].
    apply (H2 "ab" "Content-Length: 2" (cr +:+ nl +:+ cr +:+ nl +:+ "ab")); [by left|vm_compute; reflexivity|done].
Defined.

(** A header with a length no allocation can have brings the reader down. *)
Example huge_length_panics :
  read_frame as_text ("Content-Length: 18446744073709551615" +:+ cr +:+ nl +:+ cr +:+ nl) = Panicked.
Proof. vm_compute. reflexivity. Qed.
