(* ===== verification/Compaction.v ===== *)
(** * Compaction of a session's history: limits, pruning and prompts

    [agendao-session/src/compaction.rs]: when a conversation is too long for its model, which
    results of tools are dropped from it, and with which prompt the rest is summarized.  The call
    of the model and the storage of what it answers are not modelled. *)

From Stdlib Require Import NArith ZArith Lia.
From S2P Require Import Prelude Json ConfigSchema.
From stdpp Require Import options.

Definition COMPACTION_BUFFER : Z := 20000.
Definition PRUNE_MINIMUM : N := 20000.
Definition PRUNE_PROTECT : N := 40000.
Definition PRUNE_PROTECTED_TOOLS : list string := ["skills_list"; "skill_view"].

(** [CompactionConfig] of the engine *)
Record EngineConfig := { ec_auto : bool; ec_reserved : option Z; ec_prune : bool }.
Definition engine_config_default : EngineConfig := {| ec_auto := true; ec_reserved := None; ec_prune := true |}.

(** [resolved_compaction_config] of the configuration of the store, if there is a store *)
Definition resolved_compaction_config (config : option Config) : EngineConfig :=
  let d := engine_config_default in
  match c ← config; cfg_compaction c with
  | Some compaction => {|
      ec_auto := default (ec_auto d) (comp_auto compaction);
      ec_reserved := match comp_reserved compaction with Some r => Some (Z.of_N r) | None => ec_reserved d end;
      ec_prune := default (ec_prune d) (comp_prune compaction) |}
  | None => d
  end.

(** [effective_repair_policy] *)
Definition effective_repair_policy (config : option Config) : RepairPolicy :=
  default Permissive (c ← config; cfg_repair_policy c).

Record TokenUsage := {
  tu_input : Z; tu_output : Z; tu_cache_read : Z; tu_cache_miss : Z; tu_cache_write : Z; tu_total : Z }.

(** [TokenUsage::new] and [with_cache] *)
Definition token_usage_new (input output : Z) : TokenUsage := {|
  tu_input := input; tu_output := output; tu_cache_read := 0; tu_cache_miss := 0; tu_cache_write := 0;
  tu_total := u64_add input output |}.
Definition with_cache (read write : Z) (u : TokenUsage) : TokenUsage := {|
  tu_input := tu_input u; tu_output := tu_output u; tu_cache_read := read;
  tu_cache_miss := tu_cache_miss u; tu_cache_write := write;
  tu_total := u64_add (u64_add (u64_add (u64_add (tu_input u) (tu_output u)) (tu_cache_miss u)) read) write |}.

Record ModelLimits := { ml_context : Z; ml_max_input : option Z; ml_max_output : Z }.

Definition saturating_sub (a b : Z) : Z := Z.max 0 (a - b).

(** [is_overflow] *)
Definition is_overflow (config : EngineConfig) (usage : TokenUsage) (limits : ModelLimits) : bool :=
  if negb (ec_auto config) then false
  else if (ml_context limits =? 0)%Z then false
  else
    let count := if (0 <? tu_total usage)%Z then tu_total usage
                 else u64_add (u64_add (u64_add (u64_add (tu_input usage) (tu_output usage))
                        (tu_cache_read usage)) (tu_cache_miss usage)) (tu_cache_write usage) in
    let reserved := default (Z.min COMPACTION_BUFFER (ml_max_output limits)) (ec_reserved config) in
    let usable := match ml_max_input limits with
                  | Some input => saturating_sub input reserved
                  | None => saturating_sub (ml_context limits) (ml_max_output limits)
                  end in
    (usable <=? count)%Z.

(** ** Pruning *)

(** [estimate_tokens]: a fourth of the characters *)
Definition estimate_tokens (text : string) : N := (N.of_nat (length (chars text)) / 4)%N.

Definition should_prune_tool_result (output : string) (is_protected : bool) : bool :=
  if is_protected then false else (PRUNE_MINIMUM <? estimate_tokens output)%N.

Inductive ToolPartStatus := Pending | Running | Completed | Error.
#[export] Instance tool_part_status_eq_dec : EqDecision ToolPartStatus.
Proof. solve_decision. Defined.

Record PruneToolPart := {
  pp_id : string; pp_tool : string; pp_output : string; pp_status : ToolPartStatus; pp_compacted : option N }.
Record MessageForPrune := { pm_role : string; pm_parts : list PruneToolPart; pm_summary : bool }.

(** [should_prune_views] *)
Definition should_prune_views (messages : list MessageForPrune) : bool :=
  existsb (λ m, existsb (λ p, bool_decide (pp_tool p ≠ "") && bool_decide (pp_status p = Completed) &&
                              bool_decide (pp_compacted p = None)) (pm_parts m)) messages.

(** The variables of the walk; token sums are far below [2 ^ 64], since the texts are in memory. *)
Record PruneWalk := { pw_total : N; pw_pruned : N; pw_to_prune : list string }.

(** A part whose result may be pruned. *)
Definition prunable (p : PruneToolPart) : bool :=
  negb (bool_decide (pp_tool p = "") || negb (bool_decide (pp_status p = Completed)) ||
        mem (pp_tool p) PRUNE_PROTECTED_TOOLS).

(** A result that is reached: its tokens count, and beyond the protected amount it is pruned. *)
Definition count_part (part : PruneToolPart) (w : PruneWalk) : PruneWalk :=
  let estimate := estimate_tokens (pp_output part) in
  let total := (pw_total w + estimate)%N in
  if (PRUNE_PROTECT <? total)%N
  then {| pw_total := total; pw_pruned := (pw_pruned w + estimate)%N;
          pw_to_prune := pw_to_prune w ++ [pp_id part] |}
  else {| pw_total := total; pw_pruned := pw_pruned w; pw_to_prune := pw_to_prune w |}.

(** The inner loop over the parts from the last; [true] is the break of the outer loop. *)
Fixpoint walk_parts (parts : list PruneToolPart) (w : PruneWalk) : bool * PruneWalk :=
  match parts with
  | [] => (false, w)
  | part :: parts =>
      if negb (prunable part) then walk_parts parts w
      else if bool_decide (is_Some (pp_compacted part)) then (true, w)
      else walk_parts parts (count_part part w)
  end.

(** The outer loop over the messages from the last. *)
Fixpoint walk_messages (messages : list MessageForPrune) (turns : nat) (w : PruneWalk) : PruneWalk :=
  match messages with
  | [] => w
  | message :: messages =>
      let turns := if bool_decide (pm_role message = "user") then S turns else turns in
      if turns <? 2 then walk_messages messages turns w
      else if bool_decide (pm_role message = "assistant") && pm_summary message then w
      else let '(stop, w) := walk_parts (reverse (pm_parts message)) w in
           if stop then w else walk_messages messages turns w
  end.

(** [plan_prune]: the parts to prune *)
Definition plan_prune (config : EngineConfig) (messages : list MessageForPrune) : list string :=
  if negb (ec_prune config) || (bool_decide (messages ≠ []) && negb (should_prune_views messages)) then []
  else
    let w := walk_messages (reverse messages) 0 {| pw_total := 0; pw_pruned := 0; pw_to_prune := [] |} in
    if (PRUNE_MINIMUM <? pw_pruned w)%N then pw_to_prune w else [].

(** The loop of [prune] that marks the selected parts. *)
Definition mark_part (now : N) (selected : list string) (p : PruneToolPart) : PruneToolPart :=
  if mem (pp_id p) selected
  then {| pp_id := pp_id p; pp_tool := pp_tool p; pp_output := pp_output p; pp_status := pp_status p;
          pp_compacted := Some now |}
  else p.
Definition mark_message (now : N) (selected : list string) (m : MessageForPrune) : MessageForPrune :=
  {| pm_role := pm_role m; pm_parts := mark_part now selected <$> pm_parts m; pm_summary := pm_summary m |}.

(** [prune] at [now] *)
Definition prune (config : EngineConfig) (now : N) (messages : list MessageForPrune)
    : list string * list MessageForPrune :=
  match plan_prune config messages with
  | [] => ([], messages)
  | pruned_ids => (pruned_ids, mark_message now pruned_ids <$> messages)
  end.

(** ** The prompt *)

(** A text of a payload, trimmed, if anything is left. *)
Definition trimmed_text (v : Value) : option string :=
  s ← as_str v; if bool_decide (trim s = "") then None else Some (trim s).

(** [parse_compaction_hook_payload]: the prompt and the context *)
Definition parse_compaction_hook_payload (payload : Value) : option string * list string :=
  let source := match get_member "data" payload with
                | Some (Object members) => Object members
                | _ => payload
                end in
  let prompt := match get_member "prompt" source ≫= trimmed_text with
                | Some prompt => Some prompt
                | None => trimmed_text source
                end in
  let context := match get_member "context" source with
                 | Some (Array values) => omap trimmed_text values
                 | Some value => option_list (trimmed_text value)
                 | None => []
                 end in
  (prompt, context).

(** One output of a hook: the last prompt wins, the contexts add up. *)
Definition merge_hook_output (acc : option string * list string) (payload : option Value)
    : option string * list string :=
  match payload with
  | None => acc
  | Some payload =>
      let '(prompt, context) := parse_compaction_hook_payload payload in
      (match prompt with Some _ => prompt | None => fst acc end, snd acc ++ context)
  end.

Definition paragraph_break : string := str_of_bytes [10; 10]%N.

(** [resolve_compaction_prompt] *)
Definition resolve_compaction_prompt (default_prompt : string) (custom_prompt : option string)
    (plugin_context : option (list string)) (hook_outputs : list (option Value)) : string :=
  let '(hook_prompt, merged_context) := fold_left merge_hook_output hook_outputs (None, default [] plugin_context) in
  match hook_prompt, custom_prompt with
  | Some prompt, _ => prompt
  | None, Some prompt => prompt
  | None, None =>
      match merged_context with
      | [] => default_prompt
      | _ => str_join paragraph_break (default_prompt :: merged_context)
      end
  end.

Definition generate_continue_message : string :=
  "Continue if you have next steps, or stop and ask for clarification if you are unsure how to proceed.".

Definition can_compact_messages (messages min_messages : nat) : bool := min_messages <=? messages.

(** [estimate_message_tokens] *)
Definition estimate_message_tokens (content : string) (tool_results : list string) : N :=
  (estimate_tokens content + foldr N.add 0 (estimate_tokens <$> tool_results))%N.

(** ** What pruning does *)

(** From the last message: those before the last two turns of the user, up to a summary. *)
Fixpoint old_messages (turns : nat) (messages : list MessageForPrune) : list MessageForPrune :=
  match messages with
  | [] => []
  | m :: messages' =>
      let turns := if bool_decide (pm_role m = "user") then S turns else turns in
      if turns <? 2 then old_messages turns messages' else messages
  end.
Definition is_summary (m : MessageForPrune) : bool := bool_decide (pm_role m = "assistant") && pm_summary m.
Fixpoint until {A} (P : A → bool) (l : list A) : list A :=
  match l with [] => [] | x :: l => if P x then [] else x :: until P l end.
Definition is_compacted (p : PruneToolPart) : bool := bool_decide (is_Some (pp_compacted p)).

(** The results that may be pruned, from the last, up to one that was. *)
Definition results (messages : list MessageForPrune) : list PruneToolPart :=
  filter (λ p, Is_true (prunable p))
    (until is_summary (old_messages 0 (reverse messages)) ≫= λ m, reverse (pm_parts m)).
Definition candidates (messages : list MessageForPrune) : list PruneToolPart := until is_compacted (results messages).

Definition tokens (l : list PruneToolPart) : N := foldr N.add 0%N (estimate_tokens ∘ pp_output <$> l).

(** The candidates beyond the protected amount, after [total] tokens. *)
Fixpoint beyond (total : N) (l : list PruneToolPart) : list PruneToolPart :=
  match l with
  | [] => []
  | p :: l' => let total := (total + estimate_tokens (pp_output p))%N in
               if (PRUNE_PROTECT <? total)%N then l else beyond total l'
  end.

Lemma until_app {A} (P : A → bool) a b : until P (a ++ b) = if existsb P a then until P a else a ++ until P b.
Proof. induction a as [|x a IH]; [done|]. cbn. destruct (P x); [done|]. rewrite IH. by destruct (existsb P a). Qed.

Lemma until_all {A} (P : A → bool) a : existsb P a = false → until P a = a.
Proof. intros H. pose proof (until_app P a []) as E. by rewrite H, !app_nil_r in E. Qed.

Lemma elem_until {A} (P : A → bool) x l : x ∈ until P l → x ∈ l ∧ P x = false.
Proof.
  induction l as [|y l IH]; cbn; [by intros ?%elem_of_nil|]. destruct (P y) eqn:E; [by intros ?%elem_of_nil|].
  intros [-> |[? ?]%IH]%elem_of_cons; split; (done || (by left) || (by right)).
Qed.

Abbreviation prunables l := (filter (λ p, Is_true (prunable p)) l) (only parsing).
Abbreviation count_all c w := (fold_left (λ w p, count_part p w) c w) (only parsing).

Lemma prunables_cons p l : prunables (p :: l) = if prunable p then p :: prunables l else prunables l.
Proof. rewrite filter_cons. destruct (prunable p); [by rewrite decide_True|]. rewrite decide_False; [done|by intros []]. Qed.

Lemma walk_parts_counts parts w :
  walk_parts parts w = (existsb is_compacted (prunables parts), count_all (until is_compacted (prunables parts)) w).
Proof.
  revert w. induction parts as [|p parts IH]; intros w; [done|]. cbn [walk_parts]. rewrite prunables_cons.
  destruct (prunable p); cbn [negb]; [|apply IH]. cbn [existsb until]. fold (is_compacted p).
  destruct (is_compacted p); [done|]. cbn [orb fold_left]. apply IH.
Qed.

Lemma old_messages_all turns messages : 2 ≤ turns → old_messages turns messages = messages.
Proof.
  intros H. destruct messages as [|m messages]; [done|]. cbn [old_messages].
  destruct (Nat.ltb_spec (if bool_decide (pm_role m = "user") then S turns else turns) 2); [|done].
  case_bool_decide; lia.
Qed.

Lemma walk_messages_counts messages turns w :
  walk_messages messages turns w =
  count_all (until is_compacted (prunables
    (until is_summary (old_messages turns messages) ≫= λ m, reverse (pm_parts m)))) w.
Proof.
  revert turns w. induction messages as [|m messages IH]; intros turns w; [done|].
  cbn [walk_messages old_messages]. set (turns' := if bool_decide _ then _ else _).
  destruct (Nat.ltb_spec turns' 2); [apply IH|]. cbn [until]. fold (is_summary m).
  destruct (is_summary m); [done|].
  change ((m :: ?l) ≫= ?f) with (f m ++ (l ≫= f)). rewrite filter_app, until_app, walk_parts_counts.
  destruct (existsb is_compacted (prunables (reverse (pm_parts m)))) eqn:E; [done|].
  rewrite fold_left_app, IH, old_messages_all by lia. by rewrite (until_all _ _ E).
Qed.

Lemma tokens_cons p l : tokens (p :: l) = (estimate_tokens (pp_output p) + tokens l)%N.
Proof. done. Qed.

Lemma beyond_all total l : (PRUNE_PROTECT < total)%N → beyond total l = l.
Proof. intros H. destruct l as [|p l]; [done|]. cbn [beyond]. destruct (N.ltb_spec PRUNE_PROTECT (total + estimate_tokens (pp_output p))); [done|lia]. Qed.

Lemma count_all_beyond c w :
  count_all c w =
  {| pw_total := pw_total w + tokens c; pw_pruned := pw_pruned w + tokens (beyond (pw_total w) c);
     pw_to_prune := pw_to_prune w ++ (pp_id <$> beyond (pw_total w) c) |}%N.
Proof.
  revert w. induction c as [|p c IH]; intros [total pruned to_prune].
  { cbn. by rewrite !N.add_0_r, app_nil_r. }
  cbn [fold_left]. rewrite IH. unfold count_part. cbn [pw_total pw_pruned pw_to_prune beyond].
  destruct (N.ltb_spec PRUNE_PROTECT (total + estimate_tokens (pp_output p))) as [Hgt|Hle]; cbn [pw_total pw_pruned pw_to_prune].
  - rewrite beyond_all, !tokens_cons by done. f_equal; [lia|lia|]. by rewrite <- app_assoc.
  - rewrite tokens_cons. f_equal. lia.
Qed.

Lemma beyond_suffix total l : ∃ kept, l = kept ++ beyond total l ∧
  (kept = [] ∨ (total + tokens kept ≤ PRUNE_PROTECT)%N).
Proof.
  revert total. induction l as [|p l IH]; intros total; [exists []; by split; [|left]|]. cbn [beyond].
  destruct (N.ltb_spec PRUNE_PROTECT (total + estimate_tokens (pp_output p))) as [Hgt|Hle]; [exists []; by split; [|left]|].
  destruct (IH (total + estimate_tokens (pp_output p))%N) as (kept&E&Hk). exists (p :: kept).
  split; [cbn; by f_equal|right]. rewrite tokens_cons. destruct Hk as [-> |Hk]; [cbn; lia|lia].
Qed.

Lemma beyond_none total l : (total + tokens l ≤ PRUNE_PROTECT)%N → beyond total l = [].
Proof.
  revert total. induction l as [|p l IH]; intros total; [done|]. rewrite tokens_cons. cbn [beyond]. intros H.
  destruct (N.ltb_spec PRUNE_PROTECT (total + estimate_tokens (pp_output p))); [lia|]. apply IH. lia.
Qed.

Lemma no_candidates messages : should_prune_views messages = false → candidates messages = [].
Proof.
  intros H. destruct (candidates messages) as [|p l] eqn:E; [done|]. exfalso.
  assert (p ∈ candidates messages) as Hp by (rewrite E; by left).
  apply elem_until in Hp as [Hp Hc]. unfold results in Hp. apply list_elem_of_filter in Hp as [Hpr Hp].
  apply list_elem_of_bind in Hp as (m&Hpm&Hm). apply elem_until in Hm as [Hm _].
  assert (m ∈ messages) as Hin.
  { assert (∀ turns l, m ∈ old_messages turns l → m ∈ l) as Hold.
    { clear. intros turns l. revert turns. induction l as [|x l IH]; intros turns; [done|]. cbn [old_messages].
      set (t := if bool_decide _ then _ else _). destruct (t <? 2); [|done]. intros H. apply elem_of_cons. right. by eapply IH. }
    by apply elem_of_reverse, (Hold 0). }
  rewrite elem_of_reverse in Hpm. apply not_true_iff_false in H. apply H. unfold should_prune_views.
  apply existsb_exists. exists m. split; [by apply list_elem_of_In|].
  apply existsb_exists. exists p. split; [by apply list_elem_of_In|].
  unfold is_compacted in Hc. apply bool_decide_eq_false in Hc.
  apply Is_true_true in Hpr. unfold prunable in Hpr. apply negb_true_iff in Hpr.
  apply orb_false_iff in Hpr as [[Ht Hs]%orb_false_iff _]. apply bool_decide_eq_false in Ht. apply negb_false_iff in Hs.
  rewrite Hs, !bool_decide_eq_true_2; [done|by destruct (pp_compacted p); [destruct Hc; eexists|]|done].
Qed.

(** What is pruned: of the results of tools before the last two turns of the user, as far back as a summary
    or a result that was pruned before, those beyond the last [PRUNE_PROTECT] tokens, if together they have
    more than [PRUNE_MINIMUM]. *)
Lemma plan_prune_spec config messages :
  plan_prune config messages =
  let old := beyond 0 (candidates messages) in
  if ec_prune config && (PRUNE_MINIMUM <? tokens old)%N then pp_id <$> old else [].
Proof.
  unfold plan_prune. destruct (ec_prune config); cbn [negb orb andb]; [|done].
  assert (walk_messages (reverse messages) 0 {| pw_total := 0; pw_pruned := 0; pw_to_prune := [] |} =
    {| pw_total := 0 + tokens (candidates messages); pw_pruned := 0 + tokens (beyond 0 (candidates messages));
       pw_to_prune := [] ++ (pp_id <$> beyond 0 (candidates messages)) |})%N as ->.
  { rewrite walk_messages_counts. apply count_all_beyond. }
  cbn [pw_pruned pw_to_prune app]. rewrite N.add_0_l.
  destruct (bool_decide (messages ≠ []) && negb (should_prune_views messages)) eqn:E; [|done].
  apply andb_prop in E as [_ E%negb_true_iff]. by rewrite no_candidates.
Qed.

(** ** Pruning again *)

Lemma mark_prunable now ids p : prunable (mark_part now ids p) = prunable p.
Proof. unfold mark_part. by destruct (mem _ _). Qed.

Lemma mark_compacted now ids p : is_compacted (mark_part now ids p) = mem (pp_id p) ids || is_compacted p.
Proof. unfold mark_part. by destruct (mem _ _). Qed.

Lemma mark_tokens now ids l : tokens (mark_part now ids <$> l) = tokens l.
Proof.
  induction l as [|p l IH]; [done|]. rewrite fmap_cons, !tokens_cons, IH. f_equal.
  unfold mark_part. by destruct (mem _ _).
Qed.

Lemma results_marked now ids messages :
  results (mark_message now ids <$> messages) = mark_part now ids <$> results messages.
Proof.
  unfold results. rewrite <- fmap_reverse. generalize (reverse messages) as l. intros l.
  assert (∀ turns, old_messages turns (mark_message now ids <$> l) = mark_message now ids <$> old_messages turns l) as ->.
  { induction l as [|m l IH]; intros turns; [done|]. rewrite fmap_cons. cbn [old_messages].
    change (pm_role (mark_message now ids m)) with (pm_role m).
    destruct (_ <? 2); [apply IH|]. by rewrite fmap_cons. }
  generalize (old_messages 0 l) as k. clear l. induction k as [|m k IH]; [done|].
  rewrite fmap_cons. cbn [until]. change (is_summary (mark_message now ids m)) with (is_summary m).
  destruct (is_summary m); [done|]. change ((?x :: ?l) ≫= ?f) with (f x ++ (l ≫= f)).
  rewrite !filter_app, fmap_app, IH. f_equal. cbn [mark_message pm_parts]. rewrite <- fmap_reverse.
  generalize (reverse (pm_parts m)) as parts. intros parts.
  induction parts as [|p parts IHp]; [done|]. rewrite fmap_cons, !prunables_cons, mark_prunable, IHp.
  by destruct (prunable p).
Qed.

Lemma until_prefix {A} (P : A → bool) l : ∃ k, l = until P l ++ k.
Proof.
  induction l as [|x l [k Hk]]; [by exists []|]. cbn. destruct (P x); [by eexists|]. exists k. cbn. by f_equal.
Qed.

(** Pruning once is enough: what is left is not pruned by another pass, whenever it comes. *)
Lemma pruning_again config now now' messages :
  prune config now' (snd (prune config now messages)) = ([], snd (prune config now messages)).
Proof.
  assert (∀ t m, plan_prune config m = [] → prune config t m = ([], m)) as Hnone'
    by (intros t m H; unfold prune; by rewrite H).
  pose proof (Hnone' now') as Hnone.
  destruct (plan_prune config messages) as [|id ids] eqn:Eplan; [rewrite (Hnone' now messages Eplan); by apply Hnone|].
  assert (snd (prune config now messages) = mark_message now (id :: ids) <$> messages) as ->
    by (unfold prune; by rewrite Eplan).
  apply Hnone. rewrite plan_prune_spec in Eplan |- *. cbv zeta in *.
  destruct (ec_prune config && _) eqn:Econf in Eplan; [|done]. 
  set (sel := id :: ids) in *.
  enough (beyond 0 (candidates (mark_message now sel <$> messages)) = []) as -> by (by rewrite andb_false_r).
  destruct (beyond_suffix 0 (candidates messages)) as (kept&E&Hkept).
  destruct (beyond 0 (candidates messages)) as [|p old] eqn:Eb; [done|].
  unfold candidates at 1. rewrite results_marked. destruct (until_prefix is_compacted (results messages)) as [k Hk].
  fold (candidates messages) in Hk. rewrite Hk, E, <- app_assoc, <- app_comm_cons, fmap_app, fmap_cons, until_app.
  assert (is_compacted (mark_part now sel p) = true) as Hp.
  { rewrite mark_compacted. apply orb_true_iff. left. apply bool_decide_eq_true. rewrite <- Eplan. by left. }
  apply beyond_none. rewrite N.add_0_l.
  assert (tokens (until is_compacted (mark_part now sel <$> kept)) ≤ tokens kept)%N as Hle.
  { rewrite <- (mark_tokens now sel kept). generalize (mark_part now sel <$> kept) as l. clear.
    intros l. induction l as [|x l IH]; [done|]. cbn [until]. destruct (is_compacted x); [cbn; lia|].
    rewrite !tokens_cons. lia. }
  assert (tokens kept ≤ PRUNE_PROTECT)%N as Hprotect by (destruct Hkept as [-> |Hkept]; [cbn; lia|lia]).
  destruct (existsb _ _) eqn:Ex; [lia|]. cbn [until]. rewrite Hp, app_nil_r.
  rewrite until_all in Hle by done. lia.
Qed.
